(* ===== verification/_CoqProject ===== *)
-Q . S2P
Prelude.v
Errors.v
JsString.v
JsRegex.v
JsBuffer.v
JsUrl.v
JsMap.v
JsSort.v
Idempotency.v
OperationQueue.v
JsDate.v
Json.v
JsonText.v
Zod.v
Analysis.v
Risk.v
NodeEnv.v
Policy.v
PathSecurity.v
TrustedCritical.v
Trusted.v
Timeouts.v
CoreContracts.v
GitContracts.v
RelayContracts.v
LegacyContracts.v
BrowserContracts.v
Confirmation.v
Receipts.v
ReceiptFiles.v
ShellService.v
TaskRegistry.v
SitePolicy.v
SiteGrants.v
NetworkGuard.v
SiteAccess.v
PolicyMerge.v
RelayRequests.v
RequestExecutor.v
SourceControl.v
AgentRelay.v
EdgeProtocol.v
EdgeRollout.v
EdgeTelemetry.v
EdgeSession.v
EdgeTrust.v
EdgeConnector.v
EdgeRelay.v
OwnerOAuth.v
FileText.v
Discovery.v
SessionRegistry.v
Tabs.v
NavigationCache.v
BackgroundTasks.v
OwnerProvider.v
