(* ===== verification/Prelude.v ===== *)
(** * MCP Access Stack: a verified model of its cores

    The program (src/mcp-access-stack, TypeScript on node and on a Cloudflare worker) lets a model use a person's
    workspaces and browser through MCP tools.  Four services work together:
    - the edge (services/mcp-edge-gateway) is what clients reach.  It authenticates them (control-plane/owner-oauth.ts, auth.ts)
      and relays their requests, over a socket that the machine of the person opened, to
    - the gateway (services/mcp-gateway), whose edge connector (edge/connector.ts) answers them with calls to its own HTTP
      interface, trusting the principal the edge vouches for (edge/internal-trust.ts).  The gateway relays operations on workspaces
      (relay/service.ts, relay/request-manager.ts) to
    - the workspace agent (services/workspace-agent), which runs commands, reads and writes files and changes repositories, within a
      policy for each workspace; and operations of the browser to
    - the browser worker (services/browser-worker).
    They share packages/mcp-core (contracts, policies, receipts, confirmations) and packages/edge-protocol.

    ** How the code is modelled

    A text is a string of code units below 256; an instant is a number of epoch milliseconds; a number of the source is an
    integer wherever the source keeps integers.  A function that throws returns [result]; a method that changes its object is a
    function in the state monad [stm] (JsMap), in which the changes made before a throw stay.  Code that awaits is cut at the points where it
    awaits: each piece is one step, and a relation or a list of events runs the steps of all the calls in progress in any order (OperationQueue,
    Idempotency, ReceiptFiles, SourceControl, AgentRelay, EdgeSession, EdgeConnector, OwnerOAuth, BackgroundTasks).  What is not under src
    is a parameter: SHA-256 and HMAC, random identifiers, the clock, URL parsing, [localeCompare], Minimatch, Zod, the
    file system, spawned processes, the browser.  What is relied on is a type class or a named hypothesis ([PathLaws], [ZodLaws],
    [JsNumberLaws], [ReceiptStoreLaws], [OneShot]), with an instance that has it.

    ** The files

    The language and its library: Prelude (results, loops, lists, tactics, the hint database [mcp]), JsString, JsRegex (a
    backtracking matcher), JsBuffer (UTF-8, base64url), JsUrl, JsMap ([Map] and the monad of methods), JsSort, JsDate, Json (values, canonical
    texts, digests), JsonText ([JSON.stringify], [JSON.parse]), Zod (schemas as terms, the laws of a parser and a reference parser), NodeEnv
    ([node:path], the file system).

    Shared by the services: Errors (errors.ts), Timeouts (timeout-policy.ts), CoreContracts, GitContracts, RelayContracts, LegacyContracts,
    BrowserContracts (the contracts of mcp-core as schemas), Receipts (mutation-receipts.ts), PolicyMerge (policy-merge.ts,
    project-write-policy.ts), Confirmation (the three registries of one-shot confirmations, one of them of the browser worker and one of the
    agent).

    The workspace agent: Policy (policy.ts, internal-types.ts, permission-profile.ts), PathSecurity (path-security.ts), Analysis
    and Risk (shell/command-analysis.ts, command-risk.ts), TrustedCritical and Trusted (shell/trusted-workspace-authorization.ts), ShellService
    (shell/service.ts, confirmation-policy.ts), SourceControl (the mutations of local-agent.ts, source-control-policy.ts), ReceiptFiles
    (file-mutation-receipt-store.ts), RequestExecutor (connection/request-executor.ts), FileText (filesystem/text-file.ts, text-encoding.ts, the
    file service), Discovery (filesystem/discovery.ts, search.ts), BackgroundTasks (tasks/background-task-manager.ts).

    The gateway: RelayRequests (relay/request-manager.ts), AgentRelay (relay/service.ts), EdgeTrust (edge/internal-trust.ts), EdgeConnector
    (edge/connector.ts), OwnerProvider (auth/owner-provider.ts, auth/owner-state-store.ts).

    The edge: EdgeProtocol (edge-protocol and protocol.ts), EdgeRollout (contract-compatibility.ts, connector-handover.ts), EdgeTelemetry
    (connector-telemetry.ts, health.ts), EdgeSession (mcp-session.ts), OwnerOAuth (control-plane/owner-oauth.ts, auth.ts), EdgeRelay
    (edge, connector and gateway together).

    The browser worker: TaskRegistry, SitePolicy, SiteGrants (domain), NetworkGuard, SiteAccess (browser-runtime.ts and the
    driver, where private sites are concerned), Idempotency and OperationQueue (services), SessionRegistry (domain/session-registry.ts), Tabs (tab-registry.ts, browser-tab-reuse.ts),
    NavigationCache (navigation-cache.ts).

    A file has the data and operations of its component, named as in the source, then what is proved of them, and a module [Trial] (or
    [Demo]) that runs them on concrete inputs and applies the theorems there.

    ** How the parts are tied together

    PathSecurity is what Trusted, ShellService, FileText and Discovery ask for paths; its theorems say exactly which paths are authorized, and the clients'
    are stated with the same words.  ShellService takes any registry of confirmations that is [OneShot]; Confirmation shows that the
    registries are.  SourceControl takes any store of receipts with [ReceiptStoreLaws], which state that each operation is the transition of
    Receipts on the receipt of its key; the store in memory has them, and the store in files refines the same transitions through
    interleavings, failures and crashes, for keys without white space around them ([file_store_refines]; ReceiptFiles shows what another key loses).  The contracts are terms; their theorems hold for every parser with
    [ZodLaws].  EdgeRelay runs edge, connector and gateway one after the other on the texts that they exchange
    ([relay_end_to_end]).

    ** What the theorems show

    - Authorization.  A path is authorized exactly when it is inside and not blocked ([authorize_existing_exact],
      [authorize_write_target_exact]); a command of a trusted workspace runs unasked only when it is a plain invocation
      of a known command whose every argument is an option of it or an operand authorized for what the command does ([trusted_execution_authorized]); a destructive command runs only after it was asked for, and a confirmation serves
      once, for what was confirmed ([destructive_run_was_asked], [confirmation_consumed_once]); discovery and search show only
      authorized files ([discovery_authorized], [search_shows_authorized_hits]).
    - Mutations of repositories.  The backend runs at most once for an idempotency key, across crashes, and
      only for an authorized and confirmed request ([backend_at_most_once], [backend_justified],
      [repeated_mutation_replayed]).
    - Files.  A patch replaces exactly what was asked and keeps line ends ([patch_replaces_exactly], [patch_keeps_line_ends]); listings are
      complete unless reported as truncated ([discovery_complete]) and end ([discovery_ends]).
    - Relays.  Every promise settles once, with the answer of its own request or an error that says why ([promises_settle_once],
      [edge_promises_settle_once], [edge_relay_exact], [disconnect_fails_own]); at most one connector serves ([cutover_final]); what the connector
      forwards is trusted for exactly the rights of the principal ([forwarded_request_trusted]); messages are read as they were written
      ([relay_message_arrives], [accepted_messages_valid]).
    - Identity.  The edge admits only principals that stand for a grant of the owner, or for a signature that it never made ([owner_principal_justified]: forging is
      an outcome of the theorem, not a hypothesis); a code serves its own client, and a refresh token no more often than it was put into the store
      ([code_exchange_bound], [refresh_token_redeemed_once], [access_token_verifies]); the gateway's own provider accepts only
      tokens that stand for an approval of the owner, changes nothing when it fails, and resumes from its file when what it
      registered and granted is what its file may hold ([provider_token_justified], [answers_are_durable], [provider_resumes]).
    - Concurrency.  Operations of a key exclude each other and all end ([queue_exclusive], [queue_drains]); an operation with a key is not
      repeated ([operation_not_repeated]); shells that run are of different workspaces ([running_shells_exclusive]).
    - Background tasks.  A task whose execution ended is final and stays so, a cancellation is answered with a final task, calls that start
      commands come one after the other, so that none adds a task while one of its command is active ([starts_exclude]; a cancelled task that becomes active again is the exception,
      [BackgroundTasks.Trial.two_active_tasks]), pruning removes exactly what it should and output is read whole ([ended_task_stays_final], [cancellation_answers_final],
      [pruning_exact], [output_read_whole]).
    - The browser.  A private host is reached only with a grant that the owner confirmed and that no operation since revoked ([private_host_needs_grant],
      [required_grant_confirmed]); the registry of sessions is read back as it was written and what is loaded is consistent
      ([load_resumes], [loaded_consistent]); a tab of the person is neither taken nor navigated without leave ([user_tab_untouched]).
    - Data.  Digests of arguments determine them ([arguments_digest_exact]); the merged policies give no more than was configured ([merge_least_privilege]).
    Theorems that are not among the properties of the manifest (the tab index of TaskRegistry, the retry bound of AgentRelay, and others) are in
    their files.

    ** Bounds and fuel

    Recursion is structural wherever the code loops over data.  Fuel is used by the regular expression matcher (one unit for each character and
    repetition: a star never matches the empty string twice at one place), [JSON.parse] (the length of the text), the occurrences
    of a patch (the length of the text), the path walks of Trusted and Discovery (the budget of the code; [discovery_ends] shows that it is enough), the
    batches of a search (the number of files).  Self-referring schemas of legacy pages are unfolded to a depth given as an argument.  Code units above 255 and
    dates out of the years 0 to 9999 are out of the model.

    ** Not modelled

    - Generated and declarative code: the tool manifest of the edge, the tool tables and descriptions of mcp-workspace-tools, mcp-browser-tools and
      mcp-tool-catalog, the OpenAPI document, the tool lists, the schemas of actions.
    - Code that is a call to a program or service and the reading of its output: git, GitHub, gh and ssh clients, the process runners and
      process trees, the PowerShell script of the remote workspaces, the validation services that run tools, the Windows credential broker.
    - The browser: the Playwright driver but for its network guard and private sites, extraction, stabilization, snapshots, artifacts, file transfers and
      legacy automation act on pages, whose behaviour is the browser's.
    - Servers and wiring: HTTP applications, middleware, MCP servers, dispatchers, command lines, configuration, deployment, logs, audit,
      diagnostics, the mounting of the gateway's own login, the worker's entry and its catalog.
    - Tooling, smoke tests, qualification and tests.
    The manifest lists these as components with their sources. *)

From Stdlib Require Export Ascii ZArith Lia.
From stdpp Require Export base option list strings gmap.

(** ** Exceptions and results

    A TypeScript function either returns or throws.  [result E A] keeps both
    outcomes as values; [E] is instantiated with [Errors.exn].  *)
Inductive result (E A : Type) : Type :=
| Ok (a : A)
| Err (e : E).
Arguments Ok {E A} a.
Arguments Err {E A} e.

#[export] Instance result_ret {E} : MRet (result E) := fun A a => Ok a.
#[export] Instance result_bind {E} : MBind (result E) :=
  fun A B f r => match r with Ok a => f a | Err e => Err e end.
#[export] Instance result_fmap {E} : FMap (result E) :=
  fun A B f r => match r with Ok a => Ok (f a) | Err e => Err e end.

#[export] Instance result_eq_dec {E A} `{EqDecision E} `{EqDecision A} :
  EqDecision (result E A).
Proof. solve_decision. Defined.

(** [try ... catch]: the handler sees the exception and may rethrow. *)
Definition try_catch {E A} (r : result E A) (h : E -> result E A) : result E A :=
  match r with Ok a => Ok a | Err e => h e end.

Definition is_ok {E A} (r : result E A) : bool :=
  match r with Ok _ => true | Err _ => false end.

(** [for (const x of xs) body(x)] where the body may throw. *)
Fixpoint for_each {E A} (xs : list A) (body : A -> result E unit) : result E unit :=
  match xs with
  | [] => Ok tt
  | x :: xs' => body x ≫= fun _ => for_each xs' body
  end.

(** ** Decidable list operations of JavaScript arrays *)
Definition includes {A} `{EqDecision A} (xs : list A) (x : A) : bool :=
  bool_decide (x ∈ xs).

(** [xs.findIndex(f)], with [-1] rendered as [None]. *)
Fixpoint find_index {A} (f : A -> bool) (xs : list A) : option nat :=
  match xs with
  | [] => None
  | x :: xs' => if f x then Some 0 else S <$> find_index f xs'
  end.

(** [xs.find(f)]. *)
Fixpoint find_first {A} (f : A -> bool) (xs : list A) : option A :=
  match xs with
  | [] => None
  | x :: xs' => if f x then Some x else find_first f xs'
  end.

(** [[...new Set(xs)]]: first occurrences, in order. *)
Fixpoint js_dedup {A} `{EqDecision A} (xs : list A) : list A :=
  match xs with
  | [] => []
  | x :: xs' => x :: filter (fun y => y <> x) (js_dedup xs')
  end.

(** ** Automation *)
Create HintDb mcp.

(** Break the scrutinee of the first match or conditional in the goal or in a
    hypothesis, remembering the equation. *)
Ltac case_goal :=
  match goal with
  | |- context [match ?x with _ => _ end] => destruct x eqn:?
  end.
Ltac case_hyp H :=
  match type of H with
  | context [match ?x with _ => _ end] => destruct x eqn:?
  end.
(** Decompose a monadic computation known to have returned. *)
Ltac step_in H := repeat (case_hyp H; simplify_eq/=; try discriminate).

Lemma bind_ok {E A B} (r : result E A) (f : A -> result E B) (b : B) :
  r ≫= f = Ok b <-> exists a, r = Ok a /\ f a = Ok b.
Proof. destruct r; naive_solver. Qed.

Lemma bind_err {E A B} (r : result E A) (f : A -> result E B) (e : E) :
  r ≫= f = Err e <-> r = Err e \/ exists a, r = Ok a /\ f a = Err e.
Proof. destruct r; naive_solver. Qed.

Lemma try_catch_ok {E A} (r : result E A) h (a : A) :
  try_catch r h = Ok a <-> r = Ok a \/ exists e, r = Err e /\ h e = Ok a.
Proof. destruct r; naive_solver. Qed.

Lemma for_each_ok {E A} (xs : list A) (body : A -> result E unit) :
  for_each xs body = Ok tt <-> forall x, x ∈ xs -> body x = Ok tt.
Proof.
  induction xs as [|x xs IH]; simpl.
  - split; [|done]. intros _ y Hy. by apply not_elem_of_nil in Hy.
  - rewrite bind_ok. split.
    + intros ([] & Hx & Hxs) y [->|Hy]%elem_of_cons; [done|]. by apply IH.
    + intros H. exists tt. split; [apply H; left|]. apply IH. intros y Hy. apply H. by right.
Qed.

Lemma mapM_elem {A B} (f : A -> option B) xs ys y : mapM f xs = Some ys -> y ∈ ys -> exists x, x ∈ xs /\ f x = Some y.
Proof.
  intros H%mapM_Some_1 Hy. apply list_elem_of_lookup in Hy as [i Hi].
  destruct (Forall2_lookup_r _ _ _ _ _ H Hi) as (x & Hx & E). exists x. split; [by eapply list_elem_of_lookup_2|done].
Qed.

Lemma includes_spec {A} `{EqDecision A} (xs : list A) (x : A) :
  includes xs x = true <-> x ∈ xs.
Proof. apply bool_decide_eq_true. Qed.

Lemma includes_false {A} `{EqDecision A} (xs : list A) (x : A) :
  includes xs x = false <-> x ∉ xs.
Proof. apply bool_decide_eq_false. Qed.

Lemma find_first_some {A} (f : A -> bool) (xs : list A) (x : A) :
  find_first f xs = Some x -> x ∈ xs /\ f x = true.
Proof.
  induction xs as [|y xs IH]; simpl; [done|].
  destruct (f y) eqn:E; intros H; simplify_eq; [by split; [left|]|].
  destruct (IH H). split; [by right|done].
Qed.

Lemma find_first_none {A} (f : A -> bool) (xs : list A) :
  find_first f xs = None <-> forall x, x ∈ xs -> f x = false.
Proof.
  induction xs as [|y xs IH]; simpl.
  - split; [|done]. intros _ x Hx. by apply not_elem_of_nil in Hx.
  - destruct (f y) eqn:E.
    + split; [done|]. intros H. specialize (H y). rewrite E in H. by discriminate H; left.
    + rewrite IH. split.
      * intros H x [->|Hx]%elem_of_cons; auto.
      * intros H x Hx. apply H. by right.
Qed.

Lemma elem_of_js_dedup {A} `{EqDecision A} (xs : list A) (x : A) :
  x ∈ js_dedup xs <-> x ∈ xs.
Proof.
  induction xs as [|y xs IH]; simpl; [done|].
  rewrite !elem_of_cons, list_elem_of_filter, IH.
  destruct (decide (x = y)); naive_solver.
Qed.

Lemma NoDup_js_dedup {A} `{EqDecision A} (xs : list A) : NoDup (js_dedup xs).
Proof.
  induction xs as [|y xs IH]; simpl; constructor.
  - rewrite list_elem_of_filter. naive_solver.
  - by apply NoDup_filter.
Qed.

#[export] Hint Resolve NoDup_js_dedup : mcp.
