(* ===== verification/Errors.v ===== *)
(** Errors: the error codes and error values of packages/mcp-core/src/errors.ts,
    with the deadline and lifecycle records of timeout-policy.ts they carry. *)
From S2P Require Import Prelude.

(** [errorCodes], in source order. *)
Inductive ErrorCode :=
| POLICY_INVALID | WORKSPACE_NOT_FOUND | WORKSPACE_DISABLED | PERMISSION_DENIED
| WRITE_NOT_ALLOWED | SHELL_NOT_ALLOWED | SHELL_FAILED | SHELL_UNAVAILABLE
| COMMAND_CONFIRMATION_INVALID | INVALID_PATH | PATH_OUTSIDE_WORKSPACE
| PATH_OUTSIDE_ALLOWED_ROOTS | BLOCKED_PATH | FILE_NOT_FOUND | NOT_A_FILE
| NOT_A_DIRECTORY | FILE_TOO_LARGE | INVALID_UTF8 | BINARY_FILE | LIMIT_EXCEEDED
| NOT_GIT_REPOSITORY | GIT_ERROR | SOURCE_CONTROL_CAPABILITY_DENIED
| SOURCE_CONTROL_CONFIRMATION_INVALID | SOURCE_CONTROL_IDEMPOTENCY_CONFLICT
| SOURCE_CONTROL_RECONCILIATION_REQUIRED | GIT_HEAD_MISMATCH | GIT_BRANCH_CONFLICT
| GIT_INDEX_CHANGED | GIT_REMOTE_CHANGED | GIT_MERGE_NOT_FAST_FORWARD
| GIT_PROTECTED_BRANCH | AUDIT_FAILED | AGENT_UNAVAILABLE | AGENT_BUSY
| AGENT_TIMEOUT | OPERATION_CANCELLED | RELAY_PROTOCOL_ERROR
| IDEMPOTENCY_KEY_CONFLICT | EXECUTION_NOT_FOUND | EXECUTION_STATE_INVALID
| EXECUTION_OUTCOME_UNKNOWN | AUTHENTICATION_FAILED | BROWSER_WORKER_UNAVAILABLE
| BROWSER_WORKER_TIMEOUT | BROWSER_DISCONNECTED | BROWSER_CONTEXT_RECOVERY_FAILED
| TASK_SCOPE_REQUIRED | TASK_NOT_FOUND | TASK_OWNERSHIP_MISMATCH | TASK_SUSPENDED
| TASK_EXPIRED | SITE_ACCESS_AUTHORIZATION_REQUIRED | SITE_ACCESS_GRANT_EXPIRED
| SITE_NAVIGATION_BLOCKED | SITE_POLICY_NOT_FOUND | SITE_PRODUCTION_BLOCKED
| LOGIN_CREDENTIAL_UNAVAILABLE | LOGIN_CREDENTIALS_INVALID
| LOGIN_INTERACTION_REQUIRED | CREDENTIAL_BROKER_UNAVAILABLE
| CREDENTIAL_BROKER_PROTOCOL_MISMATCH | CREDENTIAL_BROKER_ACCESS_DENIED
| BROWSER_CAPABILITY_UNSUPPORTED | BROWSER_OPERATION_MODE_UNSUPPORTED
| FRAME_NOT_FOUND | FRAME_NOT_READY | FRAME_CROSS_ORIGIN | LOCATOR_NOT_FOUND
| LOCATOR_AMBIGUOUS | LOCATOR_LOW_CONFIDENCE | NAVIGATION_TIMEOUT
| STATE_NOT_REACHED | ACTION_BLOCKED_BY_POLICY | CAPABILITY_UNSUPPORTED
| TAB_NOT_FOUND | STALE_TAB_ID | TAB_NOT_OWNED | TAB_PROTECTED
| NAVIGATION_BLOCKED | AUTHENTICATION_REQUIRED | CAPTCHA_DETECTED
| ACTION_REQUIRES_CONFIRMATION | BROWSER_CONFIRMATION_INVALID | INVALID_ARGUMENT
| INTERNAL_ERROR.

#[export] Instance ErrorCode_eq_dec : EqDecision ErrorCode.
Proof. solve_decision. Defined.

(** [operationTerminalReasonSchema] and [operationTerminationLayerSchema]. *)
Inductive OperationTerminalReason :=
| reason_timeout | reason_cancelled | reason_client_disconnected
| reason_upstream_timeout | reason_process_failed.

Inductive OperationTerminationLayer :=
| layer_chatgpt_tool | layer_mcp_server | layer_gateway | layer_relay
| layer_workspace_agent | layer_executor | layer_child_process
| layer_http_client | layer_http_server | layer_websocket | layer_proxy
| layer_background_task_manager | layer_external.

#[export] Instance OperationTerminalReason_eq_dec : EqDecision OperationTerminalReason.
Proof. solve_decision. Defined.
#[export] Instance OperationTerminationLayer_eq_dec : EqDecision OperationTerminationLayer.
Proof. solve_decision. Defined.

(** [OperationDeadline].  [deadlineAt] is an ISO-8601 text produced by
    [toISOString] and read back by [Date.parse]; both are exact on whole
    milliseconds, so the instant itself (epoch milliseconds) is kept. *)
Record OperationDeadline := mkDeadline {
  requestedTimeoutMs : Z;
  effectiveTimeoutMs : Z;
  deadlineAt : Z;
}.

#[export] Instance OperationDeadline_eq_dec : EqDecision OperationDeadline.
Proof. solve_decision. Defined.

(** [OperationLifecycle]: the deadline, the elapsed time and an optional
    termination. *)
Record OperationLifecycle := mkLifecycle {
  lc_deadline : OperationDeadline;
  elapsedMs : Z;
  terminatedBy : option OperationTerminationLayer;
  lc_reason : option OperationTerminalReason;
  lc_diagnostic : option string;
}.

#[export] Instance OperationLifecycle_eq_dec : EqDecision OperationLifecycle.
Proof. solve_decision. Defined.

(** [ErrorDetails]: every field is optional. *)
Inductive AgentAvailabilityOutcome := outcome_not_started | outcome_unknown.

#[export] Instance AgentAvailabilityOutcome_eq_dec : EqDecision AgentAvailabilityOutcome.
Proof. solve_decision. Defined.

Record ErrorDetails := mkDetails {
  ed_path : option string;
  ed_policyRule : option string;
  ed_operation : option string;
  ed_reason : option string;
  ed_safeAlternative : option string;
  ed_retryable : option bool;
  ed_retryAttempted : option bool;
  ed_outcome : option AgentAvailabilityOutcome;
  ed_connectionGeneration : option Z;
}.

#[export] Instance ErrorDetails_eq_dec : EqDecision ErrorDetails.
Proof. solve_decision. Defined.

(** [class AppError]; the [cause] chain is not kept. *)
Record AppError := mkAppError {
  code : ErrorCode;
  message : string;
  lifecycle : option OperationLifecycle;
  details : option ErrorDetails;
}.

#[export] Instance AppError_eq_dec : EqDecision AppError.
Proof. solve_decision. Defined.

(** What a [throw] can carry: an [AppError], or an error of the runtime (a
    Node errno error, a Zod error, a TypeError or RangeError, a plain Error). *)
Inductive exn :=
| App (e : AppError)
| Native (what : string).

#[export] Instance exn_eq_dec : EqDecision exn.
Proof. solve_decision. Defined.

(** [throw new AppError(code, message)]. *)
Definition app_error (c : ErrorCode) (m : string) : exn := App (mkAppError c m None None).
Definition throw {A} (c : ErrorCode) (m : string) : result exn A := Err (app_error c m).

(** [asAppError]. *)
Definition asAppError (e : exn) : AppError :=
  match e with
  | App a => a
  | Native _ => mkAppError INTERNAL_ERROR "Unexpected internal error." None None
  end.

(** An [AbortSignal]: aborted or not, with the reason it carries ([None] for a
    reason that is not an [AppError]). *)
Record AbortSignal := mkSignal { aborted : bool; abort_reason : option AppError }.
Definition is_aborted (signal : option AbortSignal) : bool :=
  match signal with Some s => aborted s | None => false end.
(** [abortSignalError]. *)
Definition abortSignalError (signal : option AbortSignal) (fallbackMessage : string) : exn :=
  match signal with
  | Some (mkSignal _ (Some e)) => App e
  | _ => app_error OPERATION_CANCELLED fallbackMessage
  end.

(** [error instanceof AppError && error.code === c]. *)
Definition exn_has_code (c : ErrorCode) (e : exn) : bool :=
  match e with App a => bool_decide (code a = c) | Native _ => false end.

(** The error code of a failed computation, for statements. *)
Definition err_code {A} (r : result exn A) : option ErrorCode :=
  match r with Err (App a) => Some (code a) | _ => None end.

Lemma exn_has_code_spec c e :
  exn_has_code c e = true <-> exists a, e = App a /\ code a = c.
Proof.
  destruct e as [a|w]; simpl; [rewrite bool_decide_eq_true|]; naive_solver.
Qed.
