(* ===== verification/JsString.v ===== *)
(** JavaScript strings.

    A string is a Rocq [string]: a sequence of code units below 256 (the Latin-1
    part of UTF-16).  On this domain every operation below is the ECMAScript one:
    [for..of] and indexing agree, the white space set is that of [trim] and of
    the [\s] class, and the case mapping is that of [toLowerCase] and
    [toLocaleLowerCase("en-US")]. *)
From S2P Require Import Prelude.

Declare Scope js_scope.
Delimit Scope js_scope with js.
Notation "a =c b" := (Ascii.eqb a b) (at level 70) : js_scope.
Notation "a =s b" := (String.eqb a b) (at level 70) : js_scope.
Open Scope js_scope.
#[global] Arguments String.append : simpl nomatch.

(** Characters that cannot be written plainly. *)
Definition DQ : ascii := "034"%char.
Definition SQ : ascii := "'"%char.
Definition BT : ascii := "`"%char.
Definition BSL : ascii := "\"%char.
Definition SLASH : ascii := "/"%char.
Definition CR : ascii := "013"%char.
Definition LF : ascii := "010"%char.
Definition NUL : ascii := "000"%char.
Definition str1 (c : ascii) : string := String c EmptyString.

Definition char_code (c : ascii) : N := N_of_ascii c.

(** The class [\s], which is also what [trim] removes. *)
Definition is_space (c : ascii) : bool :=
  let n := char_code c in
  ((9 <=? n) && (n <=? 13) || (n =? 32) || (n =? 160))%N.

(** [c.toLowerCase()] on one code unit. *)
Definition lower_char (c : ascii) : ascii :=
  let n := char_code c in
  if ((65 <=? n) && (n <=? 90) || (192 <=? n) && (n <=? 214) || (216 <=? n) && (n <=? 222))%N
  then ascii_of_N (n + 32) else c.

Fixpoint smap (f : ascii -> ascii) (s : string) : string :=
  match s with
  | EmptyString => EmptyString
  | String c s' => String (f c) (smap f s')
  end.

(** [s.toLowerCase()]. *)
Definition toLowerCase (s : string) : string := smap lower_char s.

(** [Buffer.byteLength(s, "utf8")] and the length of [TextEncoder], on code units below 256. *)
Fixpoint utf8_length (s : string) : nat :=
  match s with
  | EmptyString => 0
  | String c s' => (if (char_code c <? 128)%N then 1 else 2) + utf8_length s'
  end.

(** [s.replaceAll(a, b)] for single characters. *)
Definition replace_char (a b : ascii) (s : string) : string :=
  smap (fun c => if c =c a then b else c) s.

(** Characters of a string that satisfy a test. *)
Fixpoint sexists (f : ascii -> bool) (s : string) : bool :=
  match s with
  | EmptyString => false
  | String c s' => f c || sexists f s'
  end.
Definition sforall (f : ascii -> bool) (s : string) : bool :=
  negb (sexists (fun c => negb (f c)) s).

Lemma sforall_cons f c s : sforall f (String c s) = f c && sforall f s.
Proof. unfold sforall. cbn. by rewrite negb_orb, negb_involutive. Qed.

(** [s.includes(c)] for one character. *)
Definition has_char (c : ascii) (s : string) : bool := sexists (Ascii.eqb c) s.

(** [s.startsWith(p)]. *)
Definition startsWith (s p : string) : bool := String.prefix p s.

(** [s.slice(n)] and [s.slice(0, n)]. *)
Fixpoint sdrop (n : nat) (s : string) : string :=
  match n, s with
  | S n', String _ s' => sdrop n' s'
  | _, _ => s
  end.
Fixpoint stake (n : nat) (s : string) : string :=
  match n, s with
  | S n', String c s' => String c (stake n' s')
  | _, _ => EmptyString
  end.

(** [s.endsWith(p)]. *)
Definition endsWith (s p : string) : bool :=
  (String.length p <=? String.length s)%nat
  && (sdrop (String.length s - String.length p) s =s p).

Definition sempty (s : string) : bool :=
  match s with EmptyString => true | _ => false end.

(** [s.trim()]. *)
Fixpoint trim_start (s : string) : string :=
  match s with
  | String c s' => if is_space c then trim_start s' else s
  | EmptyString => EmptyString
  end.
Fixpoint trim_end (s : string) : string :=
  match s with
  | EmptyString => EmptyString
  | String c s' =>
      let t := trim_end s' in
      if sempty t && is_space c then EmptyString else String c t
  end.
Definition trim (s : string) : string := trim_end (trim_start s).

(** [s.split(c)] for a one-character separator: never empty. *)
Fixpoint split_on (c : ascii) (s : string) : list string :=
  match s with
  | EmptyString => [EmptyString]
  | String d s' =>
      if d =c c then EmptyString :: split_on c s'
      else match split_on c s' with
           | [] => [str1 d]
           | w :: ws => String d w :: ws
           end
  end.

(** [xs.join(sep)]. *)
Fixpoint join (sep : string) (xs : list string) : string :=
  match xs with
  | [] => EmptyString
  | [x] => x
  | x :: xs' => x +:+ sep +:+ join sep xs'
  end.

(** [" ".repeat(n)]. *)
Fixpoint spaces (n : nat) : string :=
  match n with 0 => EmptyString | S n' => String " "%char (spaces n') end.

(** The part after the last [c] (all of [s] when there is none):
    [s.slice(s.lastIndexOf(c) + 1)]. *)
Fixpoint after_last (c : ascii) (s : string) : string :=
  match s with
  | EmptyString => EmptyString
  | String d s' => if has_char c s' then after_last c s'
                   else if d =c c then s' else s
  end.

(** [s.split(/\s+/u).filter(Boolean)]: the maximal runs of non-space. *)
Fixpoint words_aux (cur : string) (s : string) : list string :=
  match s with
  | EmptyString => if sempty cur then [] else [cur]
  | String c s' =>
      if is_space c then (if sempty cur then [] else [cur]) ++ words_aux EmptyString s'
      else words_aux (cur +:+ str1 c) s'
  end.
Definition words (s : string) : list string := words_aux EmptyString s.

(** ** Lemmas *)
Lemma eqc_eq a b : (a =c b) = true <-> a = b.
Proof. apply Ascii.eqb_eq. Qed.
Lemma eqc_neq a b : (a =c b) = false <-> a <> b.
Proof. apply Ascii.eqb_neq. Qed.
Lemma eqc_refl a : (a =c a) = true.
Proof. apply Ascii.eqb_refl. Qed.

Lemma sapp_nil_r s : s +:+ EmptyString = s.
Proof. induction s; simpl; congruence. Qed.
Lemma sapp_assoc a b c : (a +:+ b) +:+ c = a +:+ (b +:+ c).
Proof. induction a; simpl; congruence. Qed.
Lemma slength_app a b : String.length (a +:+ b) = String.length a + String.length b.
Proof. induction a; simpl; congruence. Qed.
Lemma slength_smap f s : String.length (smap f s) = String.length s.
Proof. induction s; simpl; congruence. Qed.
Lemma smap_app f a b : smap f (a +:+ b) = smap f a +:+ smap f b.
Proof. induction a; simpl; congruence. Qed.
Lemma sexists_app f a b : sexists f (a +:+ b) = sexists f a || sexists f b.
Proof. induction a; simpl; [done|]. by rewrite IHa, orb_assoc. Qed.
Lemma slength_spaces n : String.length (spaces n) = n.
Proof. induction n; simpl; congruence. Qed.

Lemma sempty_true s : sempty s = true <-> s = EmptyString.
Proof. by destruct s. Qed.

Lemma sexists_false f s : sexists f s = false <-> forall a c b, s = a +:+ String c b -> f c = false.
Proof.
  split.
  - intros H a c b ->. rewrite sexists_app in H. simpl in H.
    by apply orb_false_iff in H as [_ [H _]%orb_false_iff].
  - induction s as [|d s IH]; simpl; intros H; [done|].
    rewrite (H EmptyString d s eq_refl). simpl. apply IH.
    intros a c b ->. by apply (H (String d a) c b).
Qed.

Lemma sexists_true f s : sexists f s = true <-> exists a c b, s = a +:+ String c b /\ f c = true.
Proof.
  split.
  - induction s as [|d s IH]; simpl; [done|]. intros [H|H]%orb_true_iff.
    + by exists EmptyString, d, s.
    + destruct (IH H) as (a & c & b & -> & ?). by exists (String d a), c, b.
  - intros (a & c & b & -> & H). rewrite sexists_app. simpl. by rewrite H, orb_true_r.
Qed.

Lemma has_char_in c s : has_char c s = true <-> exists a b, s = a +:+ String c b.
Proof.
  unfold has_char. rewrite sexists_true. split.
  - intros (a & d & b & -> & <-%eqc_eq). eauto.
  - intros (a & b & ->). exists a, c, b. by rewrite eqc_refl.
Qed.

Lemma replace_char_gone a b s : a <> b -> has_char a (replace_char a b s) = false.
Proof.
  intros Hab. unfold has_char, replace_char. induction s as [|c s IH]; simpl; [done|].
  rewrite IH, orb_false_r. destruct (c =c a) eqn:E; apply eqc_neq; [done|].
  intros ->. by rewrite eqc_refl in E.
Qed.

Lemma replace_char_id a b s : has_char a s = false -> replace_char a b s = s.
Proof.
  unfold has_char, replace_char. induction s as [|c s IH]; simpl; [done|].
  intros [H1 H2]%orb_false_iff. rewrite IH by done.
  destruct (c =c a) eqn:E; [|done]. apply eqc_eq in E as ->. by rewrite eqc_refl in H1.
Qed.

Lemma slength_trim_start s : String.length (trim_start s) <= String.length s.
Proof. induction s as [|c s IH]; simpl; [done|]. destruct (is_space c); simpl; lia. Qed.
Lemma slength_trim_end s : String.length (trim_end s) <= String.length s.
Proof.
  induction s as [|c s IH]; simpl; [done|].
  destruct (sempty (trim_end s) && is_space c); simpl; lia.
Qed.
Lemma slength_trim s : String.length (trim s) <= String.length s.
Proof.
  unfold trim. pose proof (slength_trim_end (trim_start s)).
  pose proof (slength_trim_start s). lia.
Qed.

(** Splitting on a separator and joining with it are inverse. *)
Lemma split_on_nonempty c s : split_on c s <> [].
Proof.
  induction s as [|d s IH]; simpl; [done|]. destruct (d =c c); [done|].
  by destruct (split_on c s).
Qed.

Lemma split_on_no_sep c s w : w ∈ split_on c s -> has_char c w = false.
Proof.
  revert w. induction s as [|d s IH]; simpl; intros w Hw.
  - apply list_elem_of_singleton in Hw as ->. done.
  - destruct (d =c c) eqn:E.
    + apply elem_of_cons in Hw as [->|Hw]; [done|auto].
    + destruct (split_on c s) as [|u us] eqn:Es.
      * apply list_elem_of_singleton in Hw as ->. unfold has_char. simpl.
        rewrite orb_false_r. rewrite Ascii.eqb_sym. done.
      * apply elem_of_cons in Hw as [->|Hw].
        -- unfold has_char. simpl. rewrite Ascii.eqb_sym, E. simpl. apply IH. left.
        -- apply IH. by right.
Qed.

Lemma join_cons sep x y ys : join sep (x :: y :: ys) = x +:+ sep +:+ join sep (y :: ys).
Proof. done. Qed.

Lemma join_split_on c s : join (str1 c) (split_on c s) = s.
Proof.
  induction s as [|d s IH]; simpl; [done|].
  pose proof (split_on_nonempty c s) as Hne.
  destruct (d =c c) eqn:E.
  - destruct (split_on c s) as [|w ws]; [done|]. rewrite join_cons, IH.
    apply eqc_eq in E as ->. done.
  - destruct (split_on c s) as [|w ws]; [done|].
    destruct ws; simpl in *; by f_equal.
Qed.

Lemma split_on_plain c s : has_char c s = false -> split_on c s = [s].
Proof.
  unfold has_char. induction s as [|d s IH]; simpl; [done|].
  intros [H1 H2]%orb_false_iff. rewrite Ascii.eqb_sym, H1, IH by done. done.
Qed.

Lemma split_on_app c a b :
  has_char c a = false -> split_on c (a +:+ String c b) = a :: split_on c b.
Proof.
  unfold has_char. induction a as [|d a IH]; simpl.
  - by rewrite eqc_refl.
  - intros [H1 H2]%orb_false_iff. by rewrite Ascii.eqb_sym, H1, IH.
Qed.

Lemma split_on_join c xs :
  xs <> [] -> (forall x, x ∈ xs -> has_char c x = false) -> split_on c (join (str1 c) xs) = xs.
Proof.
  induction xs as [|x [|y ys] IH]; intros Hne Hx; [done| |].
  - simpl. apply split_on_plain, Hx. left.
  - rewrite join_cons. simpl. rewrite split_on_app by (apply Hx; left). f_equal.
    apply IH; [done|]. intros z Hz. apply Hx. by right.
Qed.

Lemma startsWith_spec s p : startsWith s p = true <-> exists t, s = p +:+ t.
Proof.
  unfold startsWith. revert s. induction p as [|c p IH]; intros s.
  - split; [intros _; by exists s|]. intros _. by destruct s.
  - destruct s as [|d s]; [split; [done|by intros [t Ht]]|].
    cbn [String.prefix]. destruct (ascii_dec c d) as [->|Hne].
    + rewrite IH. split; intros [t Ht]; exists t; simpl in *; congruence.
    + split; [done|]. intros [t Ht]. simpl in Ht. congruence.
Qed.

Lemma lower_char_idem c : lower_char (lower_char c) = lower_char c.
Proof. destruct c as [[] [] [] [] [] [] [] []]; vm_compute; reflexivity. Qed.
Lemma toLowerCase_idem s : toLowerCase (toLowerCase s) = toLowerCase s.
Proof.
  unfold toLowerCase. induction s as [|c s IH]; simpl; [done|]. by rewrite lower_char_idem, IH.
Qed.
Lemma toLowerCase_map_idem (ws : list string) :
  toLowerCase <$> (toLowerCase <$> ws) = toLowerCase <$> ws.
Proof. induction ws as [|w ws IH]; [done|]. rewrite !fmap_cons. by rewrite toLowerCase_idem, IH. Qed.

(** A part of a string has no characters the string has not. *)
Lemma sexists_stake f n s : sexists f s = false -> sexists f (stake n s) = false.
Proof.
  revert n. induction s as [|c s IH]; intros [|n]; simpl; try done.
  intros [-> H]%orb_false_iff. by rewrite IH.
Qed.
Lemma sexists_trim_start f s : sexists f s = false -> sexists f (trim_start s) = false.
Proof.
  induction s as [|c s IH]; simpl; [done|]. intros [Hc H]%orb_false_iff.
  destruct (is_space c); [by apply IH|]. simpl. by rewrite Hc.
Qed.
Lemma sexists_trim_end f s : sexists f s = false -> sexists f (trim_end s) = false.
Proof.
  induction s as [|c s IH]; simpl; [done|]. intros [Hc H]%orb_false_iff.
  destruct (_ && _); [done|]. simpl. by rewrite Hc, IH.
Qed.
Lemma sexists_trim f s : sexists f s = false -> sexists f (trim s) = false.
Proof. intros H. unfold trim. by apply sexists_trim_end, sexists_trim_start. Qed.
Lemma slength_stake n s : String.length (stake n s) <= n.
Proof. revert s. induction n as [|n IH]; intros [|c s]; simpl; [lia..|]. specialize (IH s). lia. Qed.

(** Trimming twice. *)
Lemma trim_start_idem s : trim_start (trim_start s) = trim_start s.
Proof. induction s as [|c s IH]; [done|]. cbn [trim_start]. destruct (is_space c) eqn:E; [done|]. cbn [trim_start]. by rewrite E. Qed.
Lemma trim_end_nonempty c s : is_space c = false -> exists t, trim_end (String c s) = String c t.
Proof. intros E. cbn [trim_end]. rewrite E. cbn. rewrite ?andb_false_r. destruct (trim_end s); cbn; eauto. Qed.
Lemma trim_end_idem s : trim_end (trim_end s) = trim_end s.
Proof.
  induction s as [|c s IH]; [done|]. cbn [trim_end]. destruct (trim_end s) as [|d t] eqn:E.
  - destruct (is_space c) eqn:Ec; cbn; [done|]. by rewrite ?Ec.
  - destruct (is_space c) eqn:Ec; cbn in IH |- *; rewrite IH; cbn; rewrite ?Ec; done.
Qed.
Lemma trim_idem s : trim (trim s) = trim s.
Proof.
  unfold trim. destruct (trim_start s) as [|c t] eqn:E; [done|].
  assert (is_space c = false) as Hc.
  { pose proof (trim_start_idem s) as H. rewrite E in H. cbn [trim_start] in H. destruct (is_space c); [|done].
    pose proof (slength_trim_start t) as Hl. rewrite H in Hl. cbn in Hl. lia. }
  destruct (trim_end_nonempty c t Hc) as [u Hu]. rewrite <- (trim_end_idem (String c t)) at 2. rewrite Hu.
  cbn [trim_start]. by rewrite Hc.
Qed.

(** Characters of replaced, joined and split strings. *)
Lemma has_char_replace a b c s :
  a <> c -> b <> c -> has_char c s = false -> has_char c (replace_char a b s) = false.
Proof.
  intros Ha Hb. unfold has_char, replace_char. induction s as [|d s IH]; simpl; [done|].
  intros [H1 H2]%orb_false_iff. rewrite IH, orb_false_r by done.
  destruct (d =c a); [|done]. apply eqc_neq. congruence.
Qed.

Lemma has_char_join c sep ws :
  has_char c sep = false -> (forall w, w ∈ ws -> has_char c w = false) ->
  has_char c (join sep ws) = false.
Proof.
  intros Hs. induction ws as [|x [|y ys] IH]; intros H; [done|apply H; left|].
  rewrite join_cons. unfold has_char in *. rewrite !sexists_app, Hs, orb_false_iff, orb_false_iff.
  split; [apply H; left|]. split; [done|]. apply IH. intros w Hw. apply H. by right.
Qed.

Lemma split_on_member_char c d s w :
  w ∈ split_on c s -> has_char d s = false -> has_char d w = false.
Proof.
  intros Hw Hd. apply not_true_iff_false. intros (a & b & ->)%has_char_in.
  rewrite <- (join_split_on c s) in Hd.
  apply list_elem_of_split in Hw as (us & vs & E). rewrite E in Hd.
  clear E. induction us as [|u us IH]; cbn [app] in Hd.
  - destruct vs; cbn [join] in Hd; unfold has_char in Hd; rewrite !sexists_app in Hd;
      cbn [sexists] in Hd; rewrite Ascii.eqb_refl in Hd; simpl in Hd;
      rewrite ?orb_true_r in Hd; done.
  - destruct (us ++ (a +:+ String d b) :: vs) eqn:E; [by destruct us|].
    rewrite join_cons in Hd. unfold has_char in Hd.
    rewrite !sexists_app in Hd. apply orb_false_iff in Hd as [_ [_ Hd]%orb_false_iff].
    by apply IH.
Qed.
