(* ===== verification/JsRegex.v ===== *)
(** JavaScript regular expressions.

    The expressions of the source are written in [re], a deep embedding of the
    constructs they use: classes, sequence, ordered choice, greedy and lazy
    bounded repetition, anchors, [\b] and lookahead.  [mtch] is the backtracking
    matcher of ECMAScript: the list of end positions in priority order, so that
    its head is the match the engine reports.  The [i] flag is a property of the
    leaf ([liti], [chi]); on the strings of [JsString] it is ASCII folding. *)
From S2P Require Import Prelude JsString.

(** A position: the code unit just before it ([None] at the start of the
    input), and the input that remains. *)
Record pos := Pos { prev : option ascii; rest : string }.

#[export] Instance pos_eq_dec : EqDecision pos.
Proof. solve_decision. Defined.

Definition plen (p : pos) : nat := String.length (rest p).
Definition start_of (s : string) : pos := Pos None s.

Inductive re :=
| Eps
| Cls (f : ascii -> bool)
| Seq (a b : re)
| Alt (a b : re)
| Rep (greedy : bool) (mn : nat) (mx : option nat) (r : re)
| Bol
| Eol
| WordB
| Ahead (positive : bool) (r : re).

Definition is_word_char (c : ascii) : bool :=
  let n := char_code c in
  ((48 <=? n) && (n <=? 57) || (65 <=? n) && (n <=? 90) || (97 <=? n) && (n <=? 122) || (n =? 95))%N.

Definition word_before (p : pos) : bool :=
  match prev p with Some c => is_word_char c | None => false end.
Definition word_after (p : pos) : bool :=
  match rest p with String c _ => is_word_char c | EmptyString => false end.

(** RepeatMatcher: an iteration beyond the minimum that consumes nothing is
    rejected.  [fuel] bounds the number of iterations; [mtch] passes enough. *)
Fixpoint rep_loop (body : pos -> list pos) (greedy : bool)
    (fuel mn : nat) (mx : option nat) (p : pos) : list pos :=
  match fuel with
  | 0 => []
  | S fuel' =>
      let more :=
        match mx with
        | Some 0 => []
        | _ => flat_map (fun q =>
                 if (mn =? 0)%nat && (plen q =? plen p)%nat then []
                 else rep_loop body greedy fuel' (pred mn) (pred <$> mx) q) (body p)
        end in
      match mn with
      | 0 => if greedy then more ++ [p] else p :: more
      | S _ => more
      end
  end.

Fixpoint mtch (r : re) (p : pos) {struct r} : list pos :=
  match r with
  | Eps => [p]
  | Cls f => match rest p with
             | String c s => if f c then [Pos (Some c) s] else []
             | EmptyString => []
             end
  | Seq a b => flat_map (mtch b) (mtch a p)
  | Alt a b => mtch a p ++ mtch b p
  | Rep g mn mx r' => rep_loop (mtch r') g (S (mn + plen p)) mn mx p
  | Bol => match prev p with None => [p] | Some _ => [] end
  | Eol => match rest p with EmptyString => [p] | String _ _ => [] end
  | WordB => if xorb (word_before p) (word_after p) then [p] else []
  | Ahead positive r' =>
      match mtch r' p with
      | [] => if positive then [] else [p]
      | _ :: _ => if positive then [p] else []
      end
  end.

(** All positions of an input, left to right, from a given one. *)
Fixpoint positions_from (b : option ascii) (s : string) : list pos :=
  Pos b s :: match s with
             | EmptyString => []
             | String c s' => positions_from (Some c) s'
             end.

(** [r.test(s)]. *)
Definition test (r : re) (s : string) : bool :=
  existsb (fun p => match mtch r p with [] => false | _ => true end) (positions_from None s).

(** [s.match(r)] for an expression without the [g] flag: the start and the end
    of the first match. *)
Definition first_match (r : re) (s : string) : option (pos * pos) :=
  let fix go (ps : list pos) : option (pos * pos) :=
    match ps with
    | [] => None
    | p :: ps' => match mtch r p with q :: _ => Some (p, q) | [] => go ps' end
    end in
  go (positions_from None s).

(** The text between two positions of one input. *)
Definition between (p q : pos) : string := stake (plen p - plen q) (rest p).

(** [s.search(r)]. *)
Definition search (r : re) (s : string) : option nat :=
  (fun m => String.length s - plen m.1) <$> first_match r s.

(** [s.replace(r, t)] for an expression with the [g] flag. *)
Fixpoint replace_go (fuel : nat) (r : re) (t : string) (p : pos) : string :=
  match fuel with
  | 0 => rest p
  | S fuel' =>
      let skip :=
        match rest p with
        | EmptyString => EmptyString
        | String c s => String c (replace_go fuel' r t (Pos (Some c) s))
        end in
      match mtch r p with
      | [] => skip
      | q :: _ => if (plen q =? plen p)%nat then t +:+ skip
                  else t +:+ replace_go fuel' r t q
      end
  end.
Definition replace_g (r : re) (t : string) (s : string) : string :=
  replace_go (S (String.length s)) r t (start_of s).

(** [s.replace(r, t)] without the [g] flag. *)
Definition replace_first (r : re) (t : string) (s : string) : string :=
  match first_match r s with
  | None => s
  | Some (p, q) => stake (String.length s - plen p) s +:+ t +:+ rest q
  end.

(** ** Notation for the expressions of the source *)
Definition Fail : re := Cls (fun _ => false).
Definition ch (c : ascii) : re := Cls (Ascii.eqb c).
Definition chi (c : ascii) : re := Cls (fun d => lower_char d =c lower_char c).
Fixpoint lit (s : string) : re :=
  match s with EmptyString => Eps | String c s' => Seq (ch c) (lit s') end.
Fixpoint liti (s : string) : re :=
  match s with EmptyString => Eps | String c s' => Seq (chi c) (liti s') end.
(** [[...]] and [[^...]]. *)
Definition oneof (s : string) : re := Cls (fun c => has_char c s).
Definition noneof (s : string) : re := Cls (fun c => negb (has_char c s)).
(** [\s], [\S], [.], [\d]. *)
Definition sp : re := Cls is_space.
Definition nsp : re := Cls (fun c => negb (is_space c)).
Definition dot : re := Cls (fun c => negb ((c =c LF) || (c =c CR))).
Definition digit : re := Cls (fun c => (48 <=? char_code c)%N && (char_code c <=? 57)%N).
(** Quantifiers. *)
Definition opt (r : re) : re := Rep true 0 (Some 1) r.
Definition star (r : re) : re := Rep true 0 None r.
Definition plus (r : re) : re := Rep true 1 None r.
Definition upto (n : nat) (r : re) : re := Rep true 0 (Some n) r.
Definition upto_lazy (n : nat) (r : re) : re := Rep false 0 (Some n) r.
Fixpoint seqs (rs : list re) : re :=
  match rs with [] => Eps | [r] => r | r :: rs' => Seq r (seqs rs') end.
Fixpoint alts (rs : list re) : re :=
  match rs with [] => Fail | [r] => r | r :: rs' => Alt r (alts rs') end.
(** [(a|b|c)] on words, case-insensitively. *)
Definition words_i (ws : list string) : re := alts (liti <$> ws).
(** [\b(a|b|c)\b] with the [i] flag. *)
Definition word_in (ws : list string) : re := seqs [WordB; words_i ws; WordB].

(** ** Position lemmas *)
(** [q] is reached from [p] by consuming [w]. *)
Definition last_or (b : option ascii) (w : string) : option ascii :=
  (fix go b w := match w with EmptyString => b | String c w' => go (Some c) w' end) b w.
Definition consumes (p : pos) (w : string) (q : pos) : Prop :=
  rest p = w +:+ rest q /\ prev q = last_or (prev p) w.

Lemma last_or_app b u v : last_or b (u +:+ v) = last_or (last_or b u) v.
Proof. revert b. induction u as [|c u IH]; intros b; simpl; [done|]. apply IH. Qed.

Lemma consumes_refl p : consumes p EmptyString p.
Proof. done. Qed.

Lemma consumes_trans p u q v r : consumes p u q -> consumes q v r -> consumes p (u +:+ v) r.
Proof.
  intros [H1 H2] [H3 H4]. split.
  - by rewrite H1, H3, sapp_assoc.
  - by rewrite H4, H2, last_or_app.
Qed.

Lemma consumes_plen p w q : consumes p w q -> plen p = String.length w + plen q.
Proof. intros [H _]. unfold plen. by rewrite H, slength_app. Qed.

Lemma elem_of_flat_map {A B} (f : A -> list B) xs y :
  y ∈ flat_map f xs <-> exists x, x ∈ xs /\ y ∈ f x.
Proof. setoid_rewrite list_elem_of_In. rewrite in_flat_map. done. Qed.

Lemma rep_loop_consumes body g :
  (forall p q, q ∈ body p -> exists w, consumes p w q) ->
  forall fuel mn mx p q, q ∈ rep_loop body g fuel mn mx p -> exists w, consumes p w q.
Proof.
  intros Hb. induction fuel as [|fuel IH]; intros mn mx p q; simpl.
  { by intros ?%not_elem_of_nil. }
  set (more := match mx with Some 0 => [] | _ => _ end).
  assert (q ∈ more -> exists w, consumes p w q) as Hm.
  { intros Hq.
    assert (exists m, m ∈ body p /\ q ∈ (if (mn =? 0)%nat && (plen m =? plen p)%nat then []
              else rep_loop body g fuel (pred mn) (pred <$> mx) m)) as (m & Hmp & Hqm).
    { subst more. destruct mx as [[|k]|];
        [by apply not_elem_of_nil in Hq| |]; by apply elem_of_flat_map in Hq. }
    destruct (_ && _); [by apply not_elem_of_nil in Hqm|].
    destruct (Hb _ _ Hmp) as [u Hu]. destruct (IH _ _ _ _ Hqm) as [v Hv].
    eauto using consumes_trans. }
  assert (q = p -> exists w, consumes p w q) as Hp.
  { intros ->. eexists. apply consumes_refl. }
  destruct mn; [destruct g|]; intros Hq; auto.
  - apply elem_of_app in Hq as [Hq|Hq]; [auto|]. apply list_elem_of_singleton in Hq. auto.
  - apply elem_of_cons in Hq as [Hq|Hq]; auto.
Qed.

(** Every end position of a match is reached by consuming input. *)
Lemma mtch_consumes r : forall p q, q ∈ mtch r p -> exists w, consumes p w q.
Proof.
  induction r as [|f|a IHa b IHb|a IHa b IHb|g mn mx r IH| | | |b r IH];
    intros p q; cbn [mtch]; intros Hq.
  - apply list_elem_of_singleton in Hq as ->. eexists. apply consumes_refl.
  - destruct (rest p) as [|c s] eqn:E; [by apply not_elem_of_nil in Hq|].
    destruct (f c); [|by apply not_elem_of_nil in Hq].
    apply list_elem_of_singleton in Hq as ->. exists (str1 c). by split.
  - apply elem_of_flat_map in Hq as (m & Hm & Hq).
    destruct (IHa _ _ Hm), (IHb _ _ Hq). eauto using consumes_trans.
  - apply elem_of_app in Hq as [Hq|Hq]; eauto.
  - exact (rep_loop_consumes (mtch r) g IH _ _ _ _ _ Hq).
  - destruct (prev p); [by apply not_elem_of_nil in Hq|].
    apply list_elem_of_singleton in Hq as ->. eexists. apply consumes_refl.
  - destruct (rest p); [|by apply not_elem_of_nil in Hq].
    apply list_elem_of_singleton in Hq as ->. eexists. apply consumes_refl.
  - destruct (xorb _ _); [|by apply not_elem_of_nil in Hq].
    apply list_elem_of_singleton in Hq as ->. eexists. apply consumes_refl.
  - destruct (mtch r p), b; try (by apply not_elem_of_nil in Hq);
      apply list_elem_of_singleton in Hq as ->; eexists; apply consumes_refl.
Qed.

(** ** Membership calculus *)
Lemma mtch_Seq a b p q : q ∈ mtch (Seq a b) p <-> exists m, m ∈ mtch a p /\ q ∈ mtch b m.
Proof. apply elem_of_flat_map. Qed.

Lemma mtch_Alt a b p q : q ∈ mtch (Alt a b) p <-> q ∈ mtch a p \/ q ∈ mtch b p.
Proof. apply elem_of_app. Qed.

Lemma mtch_Cls f p q :
  q ∈ mtch (Cls f) p <-> exists c s, rest p = String c s /\ f c = true /\ q = Pos (Some c) s.
Proof.
  simpl. destruct (rest p) as [|c s].
  - split; [by intros ?%not_elem_of_nil|by intros (? & ? & ? & _)].
  - destruct (f c) eqn:E; split.
    + intros ->%list_elem_of_singleton. by exists c, s.
    + intros (? & ? & [= <- <-] & _ & ->). by apply list_elem_of_singleton.
    + by intros ?%not_elem_of_nil.
    + intros (? & ? & [= <- <-] & ? & _). congruence.
Qed.

Lemma mtch_WordB p q :
  q ∈ mtch WordB p <-> word_before p <> word_after p /\ q = p.
Proof.
  simpl. destruct (word_before p), (word_after p); simpl;
    rewrite ?list_elem_of_singleton, ?elem_of_nil; naive_solver.
Qed.

(** A case-insensitive literal consumes exactly its text, up to case. *)
Lemma mtch_liti w p q :
  q ∈ mtch (liti w) p <-> exists v, toLowerCase v = toLowerCase w /\ consumes p v q.
Proof.
  revert p. induction w as [|c w IH]; intros p; cbn [liti].
  - simpl. rewrite list_elem_of_singleton. split.
    + intros ->. exists EmptyString. split; [done|apply consumes_refl].
    + intros (v & Hv & H1 & H2). destruct v; [|done]. simpl in *.
      destruct p, q; simpl in *; congruence.
  - rewrite mtch_Seq. split.
    + intros (m & Hm & Hq). apply mtch_Cls in Hm as (d & s & Hr & Hd%eqc_eq & ->).
      apply IH in Hq as (v & Hv & H1 & H2). simpl in *.
      exists (String d v). split; [|split].
      * unfold toLowerCase in *. simpl. congruence.
      * rewrite Hr, H1. done.
      * done.
    + intros (v & Hv & H1 & H2). destruct v as [|d v]; [done|].
      unfold toLowerCase in Hv. simpl in Hv. injection Hv as Hd Hv.
      exists (Pos (Some d) (v +:+ rest q)). split.
      * apply mtch_Cls. exists d, (v +:+ rest q). split; [done|]. split; [|done].
        by apply eqc_eq.
      * apply IH. exists v. split; [done|]. by split.
Qed.

Lemma mtch_alts rs p q : q ∈ mtch (alts rs) p <-> exists r, r ∈ rs /\ q ∈ mtch r p.
Proof.
  induction rs as [|r [|r' rs] IH]; cbn [alts].
  - split; [|by intros (? & ?%not_elem_of_nil & _)].
    intros H. apply mtch_Cls in H. naive_solver.
  - setoid_rewrite list_elem_of_singleton. naive_solver.
  - rewrite mtch_Alt, IH. setoid_rewrite (elem_of_cons _ _ r). naive_solver.
Qed.

Lemma elem_of_positions b s p :
  p ∈ positions_from b s <-> exists u, consumes (Pos b s) u p.
Proof.
  revert b. induction s as [|c s IH]; intros b; simpl; rewrite elem_of_cons.
  - rewrite elem_of_nil. split.
    + intros [->|[]]. exists EmptyString. apply consumes_refl.
    + intros (u & H1 & H2). left. destruct u; [|done]. simpl in *.
      destruct p; simpl in *; congruence.
  - rewrite IH. split.
    + intros [->|(u & H1 & H2)].
      * exists EmptyString. apply consumes_refl.
      * exists (String c u). simpl in *. split; simpl; [congruence|done].
    + intros (u & H1 & H2). destruct u as [|d u]; simpl in *.
      * left. destruct p; simpl in *; congruence.
      * right. injection H1 as <- H1. exists u. by split.
Qed.

Lemma test_spec r s :
  test r s = true <-> exists u p q, consumes (start_of s) u p /\ q ∈ mtch r p.
Proof.
  unfold test. rewrite existsb_exists. setoid_rewrite <- list_elem_of_In.
  setoid_rewrite elem_of_positions. split.
  - intros (p & (u & Hu) & Hm). destruct (mtch r p) as [|q qs] eqn:E; [done|].
    exists u, p, q. split; [done|]. rewrite E. left.
  - intros (u & p & q & Hu & Hq). exists p. split; [eauto|].
    by destruct (mtch r p); [apply not_elem_of_nil in Hq|].
Qed.

(** A word of [ws] stands in [s], with a boundary on both sides, in any case. *)
Definition boundary_at (p : pos) : Prop := word_before p <> word_after p.
Definition has_word (ws : list string) (s : string) : Prop :=
  exists u v w p q, w ∈ ws /\ toLowerCase v = toLowerCase w /\
    consumes (start_of s) u p /\ consumes p v q /\ boundary_at p /\ boundary_at q.

Lemma word_in_spec ws s : test (word_in ws) s = true <-> has_word ws s.
Proof.
  unfold word_in, has_word. rewrite test_spec. cbn [seqs]. split.
  - intros (u & p & q & Hu & Hq).
    apply mtch_Seq in Hq as (? & [Hb1 ->]%mtch_WordB & Hq).
    apply mtch_Seq in Hq as (m & Hm & [Hb2 ->]%mtch_WordB).
    apply mtch_alts in Hm as (r & (w & -> & Hw)%list_elem_of_fmap & Hm).
    apply mtch_liti in Hm as (v & Hv & Hc).
    by exists u, v, w, p, m.
  - intros (u & v & w & p & q & Hw & Hv & Hu & Hc & Hb1 & Hb2).
    exists u, p, q. split; [done|]. apply mtch_Seq. exists p. rewrite mtch_WordB.
    split; [done|]. apply mtch_Seq. exists q. rewrite mtch_WordB. split; [|done].
    apply mtch_alts. exists (liti w). split; [by apply list_elem_of_fmap; eauto|].
    apply mtch_liti. by exists v.
Qed.

(** A class is found exactly when one of its characters occurs. *)
Lemma test_Cls f s : test (Cls f) s = sexists f s.
Proof.
  apply eq_true_iff_eq. rewrite test_spec, sexists_true. split.
  - intros (u & p & q & [H1 _] & (c & b & Hr & Hf & _)%mtch_Cls).
    exists u, c, b. simpl in H1. by rewrite H1, Hr.
  - intros (u & c & b & -> & Hf). set (p := Pos (last_or None u) (String c b)).
    exists u, p, (Pos (Some c) b). split; [by split|]. apply mtch_Cls. by exists c, b.
Qed.

(** ** Enough fuel: iterations beyond the bound add nothing. *)
Lemma rep_loop_fuel body g :
  (forall p q, q ∈ body p -> plen q <= plen p) ->
  forall fuel fuel' mn mx p,
  mn + plen p < fuel -> fuel <= fuel' ->
  rep_loop body g fuel' mn mx p = rep_loop body g fuel mn mx p.
Proof.
  intros Hb. induction fuel as [|fuel IH]; intros fuel' mn mx p Hf Hle; [lia|].
  destruct fuel' as [|fuel']; [lia|]. cbn [rep_loop].
  assert (forall qs, (forall q, q ∈ qs -> q ∈ body p) ->
    flat_map (fun q => if (mn =? 0)%nat && (plen q =? plen p)%nat then []
                       else rep_loop body g fuel' (pred mn) (pred <$> mx) q) qs =
    flat_map (fun q => if (mn =? 0)%nat && (plen q =? plen p)%nat then []
                       else rep_loop body g fuel (pred mn) (pred <$> mx) q) qs) as Hmore.
  { induction qs as [|q qs IHq]; intros Hq; simpl; [done|].
    rewrite IHq by (intros; apply Hq; by right). f_equal.
    specialize (Hb p q (Hq q (list_elem_of_here _ _))).
    destruct (Nat.eqb_spec mn 0), (Nat.eqb_spec (plen q) (plen p)); simpl; try done;
      apply IH; lia. }
  by rewrite (Hmore (body p)).
Qed.

(** ** Replacing the runs of a class leaves none of its characters *)
Lemma mtch_plus_none f p :
  match rest p with String c _ => f c = false | EmptyString => True end ->
  mtch (plus (Cls f)) p = [].
Proof.
  unfold plus. cbn [mtch rep_loop]. destruct (rest p) as [|c s]; [done|]. intros ->. done.
Qed.

Lemma mtch_plus_some f p c s :
  rest p = String c s -> f c = true ->
  mtch (plus (Cls f)) p <> [] /\ forall q, q ∈ mtch (plus (Cls f)) p -> plen q < plen p.
Proof.
  intros Hr Hf.
  assert (mtch (plus (Cls f)) p =
    rep_loop (mtch (Cls f)) true (S (plen p)) 0 None (Pos (Some c) s)) as ->.
  { unfold plus. cbn [mtch]. cbn [Nat.add]. remember (S (plen p)) as fuel.
    cbn [rep_loop]. rewrite Hr, Hf. cbn [flat_map Nat.eqb andb pred fmap option_fmap option_map].
    by rewrite app_nil_r. }
  split.
  - cbn [rep_loop]. by destruct (flat_map _ _).
  - intros q Hq. apply (rep_loop_consumes (mtch (Cls f)) true) in Hq as [w Hw]; [|apply mtch_consumes].
    apply consumes_plen in Hw. unfold plen in *. rewrite Hr. simpl in *. lia.
Qed.

(** After [/[f]+/g] is replaced by [t], the characters of a class [g] within [f] are gone,
    unless [t] has them. *)
Lemma replace_class_only f (g : ascii -> bool) t s :
  (forall c, g c = true -> f c = true) -> sexists g t = false ->
  sexists g (replace_g (plus (Cls f)) t s) = false.
Proof.
  intros Hg Ht. unfold replace_g.
  enough (forall fuel p, plen p < fuel -> sexists g (replace_go fuel (plus (Cls f)) t p) = false) as H
    by (apply H; unfold plen; simpl; lia).
  induction fuel as [|fuel IH]; intros p Hp; [lia|]. cbn [replace_go].
  destruct (rest p) as [|c s'] eqn:Hr.
  - rewrite mtch_plus_none by (by rewrite Hr). done.
  - destruct (f c) eqn:Hf.
    + destruct (mtch_plus_some f p c s' Hr Hf) as [Hne Hlt].
      destruct (mtch (plus (Cls f)) p) as [|q qs]; [done|].
      specialize (Hlt q (list_elem_of_here _ _)).
      rewrite (proj2 (Nat.eqb_neq _ _)) by lia. rewrite sexists_app, Ht. apply IH. lia.
    + rewrite mtch_plus_none by (by rewrite Hr). cbn [sexists].
      destruct (g c) eqn:Hgc; [apply Hg in Hgc; congruence|]. apply IH.
      unfold plen in *. rewrite Hr in Hp. simpl in *. lia.
Qed.

Lemma replace_class_gone f t s :
  sexists f t = false -> sexists f (replace_g (plus (Cls f)) t s) = false.
Proof. by apply replace_class_only. Qed.

(** ** A text of the characters of a class only: [/^[f]{mn,mx}$/] *)
Definition within (mn : nat) (mx : option nat) (n : nat) : Prop :=
  mn <= n /\ match mx with Some m => n <= m | None => True end.

Lemma rep_loop_step f g fuel mn mx b s :
  rep_loop (mtch (Cls f)) g (S fuel) mn mx (Pos b s)
  = let more := match s with
                | String c s' => if f c && negb (bool_decide (mx = Some 0))
                                 then rep_loop (mtch (Cls f)) g fuel (pred mn) (pred <$> mx) (Pos (Some c) s') else []
                | EmptyString => []
                end in
    match mn with 0 => if g then more ++ [Pos b s] else Pos b s :: more | S _ => more end.
Proof.
  cbn zeta.
  assert ((match mx with Some 0 => [] | _ => flat_map (fun q => if (mn =? 0)%nat && (plen q =? plen (Pos b s))%nat then []
      else rep_loop (mtch (Cls f)) g fuel (pred mn) (pred <$> mx) q) (mtch (Cls f) (Pos b s)) end)
    = match s with String c s' => if f c && negb (bool_decide (mx = Some 0))
        then rep_loop (mtch (Cls f)) g fuel (pred mn) (pred <$> mx) (Pos (Some c) s') else [] | EmptyString => [] end) as <-; [|done].
  destruct s as [|c s]; [by destruct mx as [[]|]|]. cbn [mtch rest].
  destruct (f c); [|by destruct mx as [[]|]]. cbn [flat_map andb]. unfold plen. cbn [rest String.length].
  rewrite (proj2 (Nat.eqb_neq (String.length s) _)), andb_false_r, app_nil_r by lia. by destruct mx as [[]|].
Qed.

Lemma rep_to_end f g fuel mn mx b s : mn + String.length s < fuel ->
  (exists q, q ∈ rep_loop (mtch (Cls f)) g fuel mn mx (Pos b s) /\ rest q = EmptyString)
  <-> sforall f s = true /\ within mn mx (String.length s).
Proof.
  revert mn mx b s. induction fuel as [|fuel IH]; intros mn mx b s Hf; [lia|]. rewrite rep_loop_step. cbn zeta.
  destruct s as [|c s].
  - destruct mn as [|mn]; cbn [String.length]; unfold within.
    + split; [by destruct mx; repeat split; lia|]. intros _. exists (Pos b EmptyString). by destruct g; split; try constructor.
    + split; [by intros (q & Hq%elem_of_nil & _)|]. intros (_ & ? & _). lia.
  - rewrite sforall_cons. cbn [String.length] in *.
    assert ((exists q, q ∈ (if f c && negb (bool_decide (mx = Some 0))
        then rep_loop (mtch (Cls f)) g fuel (pred mn) (pred <$> mx) (Pos (Some c) s) else []) /\ rest q = EmptyString)
      <-> f c && sforall f s = true /\ within mn mx (S (String.length s))) as H.
    { destruct (f c); cbn [andb]; [|split; [by intros (q & Hq%elem_of_nil & _)|by intros []]].
      case_bool_decide as H0; cbn [negb]; [subst mx; split; [by intros (q & Hq%elem_of_nil & _)|intros (_ & _ & ?); lia]|].
      rewrite IH by lia. unfold within. destruct mx as [[|m]|]; cbn; [done| |]; split; intros (? & ? & ?); repeat split; try done; lia. }
    destruct mn as [|mn]; [|exact H]. rewrite <- H. split.
    + intros (q & Hq & Hr). exists q. split; [|done]. destruct g.
      * apply elem_of_app in Hq as [Hq|Hq%list_elem_of_singleton]; [done|by subst q].
      * apply elem_of_cons in Hq as [->|Hq]; [done|done].
    + intros (q & Hq & Hr). exists q. split; [|done]. destruct g; [apply elem_of_app; by left|by right].
Qed.

Lemma last_or_none b u : None = last_or b u -> u = EmptyString.
Proof.
  destruct u as [|c u]; [done|]. change (last_or b (String c u)) with (last_or (Some c) u). revert c.
  induction u as [|d u IH]; intros c; [done|]. change (last_or (Some c) (String d u)) with (last_or (Some d) u). intros H. by apply IH in H.
Qed.
Lemma test_run f g mn mx s :
  test (seqs [Bol; Rep g mn mx (Cls f); Eol]) s = true <-> sforall f s = true /\ within mn mx (String.length s).
Proof.
  rewrite test_spec, <- (rep_to_end f g (S (mn + String.length s)) mn mx None) by lia. split.
  - intros (u & p & q & [H1 H2] & H). cbn [seqs] in H. rewrite mtch_Seq in H. destruct H as (m & Hm & H).
    rewrite mtch_Seq in H. destruct H as (m' & Hm' & H).
    assert (Hp : p = start_of s /\ m = p).
    { cbn [mtch] in Hm. destruct p as [b t]. cbn in *. destruct b; [by apply elem_of_nil in Hm|]. apply list_elem_of_singleton in Hm as ->.
      apply last_or_none in H2 as ->. cbn in H1. by subst t. }
    destruct Hp as [-> ->]. exists m'. split; [exact Hm'|].
    cbn [mtch] in H. by destruct (rest m'); [|apply elem_of_nil in H].
  - intros (q & Hq & Hr). exists EmptyString, (start_of s), q. split; [by split|]. cbn [seqs]. rewrite mtch_Seq. exists (start_of s).
    split; [cbn; constructor|]. rewrite mtch_Seq. exists q. split; [exact Hq|]. cbn [mtch]. rewrite Hr. constructor.
Qed.
