(* ===== verification/JsBuffer.v ===== *)
(** Buffers of node: bytes, their UTF-8 text and their base64url text.

    A buffer is a [string] whose characters are its bytes.  Texts are those of JsString, so that UTF-8 needs one
    byte for a character below 128 and two for the others; other sequences of bytes stand for characters that no
    text of this development has, and are not decoded. *)
From S2P Require Import Prelude JsString JsRegex.
Open Scope N_scope.

Definition byte (n : N) : ascii := ascii_of_N n.

(** [Buffer.from(s, "utf8")] and [buffer.toString("utf8")]. *)
Fixpoint utf8_encode (s : string) : string :=
  match s with
  | EmptyString => EmptyString
  | String c s' =>
      let n := char_code c in
      if n <? 128 then String c (utf8_encode s')
      else String (byte (192 + n / 64)) (String (byte (128 + n mod 64)) (utf8_encode s'))
  end.
Fixpoint utf8_decode (b : string) : option string :=
  match b with
  | EmptyString => Some EmptyString
  | String c b' =>
      let n := char_code c in
      if n <? 128 then String c <$> utf8_decode b'
      else if (194 <=? n) && (n <=? 195) then
        match b' with
        | String d b'' =>
            let m := char_code d in
            if (128 <=? m) && (m <=? 191) then String (byte ((n - 192) * 64 + (m - 128))) <$> utf8_decode b'' else None
        | EmptyString => None
        end
      else None
  end.

(** [buffer.toString("base64url")]: three bytes are four digits; there is no padding. *)
Definition BASE64URL : string := "ABCDEFGHIJKLMNOPQRSTUVWXYZabcdefghijklmnopqrstuvwxyz0123456789-_".
Definition digit64 (n : N) : ascii := default "A"%char (String.get (N.to_nat n) BASE64URL).
Fixpoint base64url_encode (b : string) : string :=
  match b with
  | String b1 (String b2 (String b3 rest)) =>
      let '(x, y, z) := (char_code b1, char_code b2, char_code b3) in
      String (digit64 (x / 4)) (String (digit64 (x mod 4 * 16 + y / 16))
        (String (digit64 (y mod 16 * 4 + z / 64)) (String (digit64 (z mod 64)) (base64url_encode rest))))
  | String b1 (String b2 EmptyString) =>
      let '(x, y) := (char_code b1, char_code b2) in
      String (digit64 (x / 4)) (String (digit64 (x mod 4 * 16 + y / 16)) (String (digit64 (y mod 16 * 4)) EmptyString))
  | String b1 EmptyString =>
      let x := char_code b1 in String (digit64 (x / 4)) (String (digit64 (x mod 4 * 16)) EmptyString)
  | EmptyString => EmptyString
  end.

(** [Buffer.from(s, "base64url")] on a text of digits: bits that do not make a byte are dropped. *)
Fixpoint index64 (c : ascii) (alphabet : string) (n : N) : N :=
  match alphabet with
  | EmptyString => n
  | String d rest => if c =c d then n else index64 c rest (n + 1)
  end.
Definition value64 (c : ascii) : N := index64 c BASE64URL 0.
Fixpoint base64url_decode (s : string) : string :=
  match s with
  | String c1 (String c2 (String c3 (String c4 rest))) =>
      let '(u, v, w, x) := (value64 c1, value64 c2, value64 c3, value64 c4) in
      String (byte (u * 4 + v / 16)) (String (byte (v mod 16 * 16 + w / 4))
        (String (byte (w mod 4 * 64 + x)) (base64url_decode rest)))
  | String c1 (String c2 (String c3 EmptyString)) =>
      let '(u, v, w) := (value64 c1, value64 c2, value64 c3) in
      String (byte (u * 4 + v / 16)) (String (byte (v mod 16 * 16 + w / 4)) EmptyString)
  | String c1 (String c2 EmptyString) => String (byte (value64 c1 * 4 + value64 c2 / 16)) EmptyString
  | _ => EmptyString
  end.
Definition BASE64URL_PATTERN : re := seqs [Bol; plus (oneof BASE64URL); Eol].

(** *** UTF-8 is read back *)
Lemma char_code_bound c : char_code c < 256.
Proof. apply N_ascii_bounded. Qed.
Lemma char_code_byte n : n < 256 -> char_code (byte n) = n.
Proof. intros H. by apply N_ascii_embedding. Qed.
Lemma byte_char_code c : byte (char_code c) = c.
Proof. apply ascii_N_embedding. Qed.
Ltac div_mod := zify; Z.to_euclidean_division_equations; lia.

Lemma utf8_decode_encode s : utf8_decode (utf8_encode s) = Some s.
Proof.
  induction s as [|c s IH]; [done|]. cbn [utf8_encode]. pose proof (char_code_bound c) as Hc.
  destruct (N.ltb_spec (char_code c) 128) as [H|H]; cbn [utf8_decode].
  - rewrite (proj2 (N.ltb_lt _ _)) by done. by rewrite IH.
  - rewrite !char_code_byte by div_mod. rewrite (proj2 (N.ltb_ge _ _)) by div_mod.
    rewrite !(proj2 (N.leb_le _ _)) by div_mod. cbn [andb]. rewrite IH. cbn. do 2 f_equal.
    rewrite <- (byte_char_code c) at 3. f_equal. div_mod.
Qed.
Lemma utf8_encode_length s : String.length (utf8_encode s) = utf8_length s.
Proof. induction s as [|c s IH]; [done|]. cbn. destruct (_ <? _); cbn; by rewrite IH. Qed.

(** *** Base64url is read back *)
Lemma digit64_spec n : n < 64 -> value64 (digit64 n) = n /\ has_char (digit64 n) BASE64URL = true.
Proof.
  intros H. assert (forallb (fun n => (value64 (digit64 n) =? n) && has_char (digit64 n) BASE64URL) (map N.of_nat (seq 0 64)) = true) as Ha by by vm_compute.
  rewrite forallb_forall in Ha. specialize (Ha n). rewrite andb_true_iff, N.eqb_eq in Ha. apply Ha.
  apply in_map_iff. exists (N.to_nat n). rewrite N2Nat.id. split; [done|]. apply in_seq. lia.
Qed.
Lemma value64_digit64 n : n < 64 -> value64 (digit64 n) = n.
Proof. intros H. by apply digit64_spec. Qed.

(** Three bytes at a time. *)
Lemma by_three (P : string -> Prop) : P EmptyString -> (forall a, P (String a EmptyString)) ->
  (forall a b, P (String a (String b EmptyString))) -> (forall a b c s, P s -> P (String a (String b (String c s)))) ->
  forall s, P s.
Proof.
  intros H0 H1 H2 H3 s. enough (P s /\ (forall a, P (String a s)) /\ (forall a b, P (String a (String b s)))) by tauto.
  induction s as [|c s (IH & IH1 & IH2)]; [done|]. repeat split; auto.
Qed.
Ltac bytes_of := repeat match goal with |- context [char_code ?c] => lazymatch goal with
  | H : char_code c < 256 |- _ => fail | _ => pose proof (char_code_bound c) end end.
Lemma base64url_decode_encode b : base64url_decode (base64url_encode b) = b.
Proof.
  induction b as [|x|x y|x y z b IH] using by_three; [done|..]; cbn [base64url_encode]; bytes_of; cbn [base64url_decode];
    rewrite !value64_digit64 by div_mod; [| |rewrite IH]; repeat f_equal;
    match goal with |- byte _ = ?c => transitivity (byte (char_code c)); [f_equal; div_mod|apply byte_char_code] end.
Qed.
Lemma base64url_encode_digits b : sforall (fun c => has_char c BASE64URL) (base64url_encode b) = true.
Proof.
  assert (Hd : forall n s, n < 64 -> sforall (fun c => has_char c BASE64URL) s = true ->
    sforall (fun c => has_char c BASE64URL) (String (digit64 n) s) = true).
  { intros n s Hn Hs. rewrite sforall_cons, Hs, andb_true_r. by apply digit64_spec. }
  induction b as [|x|x y|x y z b IH] using by_three; [done|..]; cbn [base64url_encode]; bytes_of;
    repeat (apply Hd; [div_mod|]); done.
Qed.
(** Four digits stand for three bytes, rounded up. *)
Lemma base64url_encode_length b :
  (3 * String.length (base64url_encode b) <= 4 * String.length b + 2)%nat /\ (4 * String.length b <= 3 * String.length (base64url_encode b))%nat.
Proof. induction b as [|x|x y|x y z b IH] using by_three; cbn in *; lia. Qed.
Lemma base64url_encode_pattern b : test BASE64URL_PATTERN (base64url_encode b) = negb (sempty b).
Proof.
  apply eq_true_iff_eq. unfold BASE64URL_PATTERN, plus, oneof. rewrite test_run, base64url_encode_digits. unfold within.
  destruct b as [|x b]; [cbn; split; [intros (_ & ? & _); lia|done]|]. split; [done|]. intros _. split; [done|]. split; [|done].
  pose proof (proj2 (base64url_encode_length (String x b))). cbn [String.length] in *. lia.
Qed.

(** *** [atob] and the base64url of the edge *)
Definition BASE64 : string := "ABCDEFGHIJKLMNOPQRSTUVWXYZabcdefghijklmnopqrstuvwxyz0123456789+/".
Definition ascii_space (c : ascii) : bool :=
  let n := char_code c in (n =? 9) || (n =? 10) || (n =? 12) || (n =? 13) || (n =? 32).
Fixpoint sfilter (f : ascii -> bool) (s : string) : string :=
  match s with EmptyString => EmptyString | String c s' => if f c then String c (sfilter f s') else sfilter f s' end.
Definition drop_pad (s : string) : string := if endsWith s "==" then stake (String.length s - 2) s
  else if endsWith s "=" then stake (String.length s - 1) s else s.
Definition atob (data : string) : option string :=
  let s := sfilter (fun c => negb (ascii_space c)) data in
  let s := if (String.length s mod 4 =? 0)%nat then drop_pad s else s in
  if (String.length s mod 4 =? 1)%nat || negb (sforall (fun c => has_char c BASE64) s) then None
  else Some (base64url_decode (replace_char "/"%char "_"%char (replace_char "+"%char "-"%char s))).
Fixpoint pads (n : nat) : string := match n with O => EmptyString | S n => String "="%char (pads n) end.
Definition decodeBase64UrlBytes (v : string) : option string :=
  let normalized := replace_char "_"%char "/"%char (replace_char "-"%char "+"%char v) in
  atob (normalized +:+ pads ((4 - String.length normalized mod 4) mod 4)).
Definition base64UrlText (v : string) : string := base64url_encode (utf8_encode v).
Definition decodeBase64UrlText (v : string) : option string :=
  match decodeBase64UrlBytes v with Some b => utf8_decode b | None => None end.

Lemma sfilter_all f s : sforall f s = true -> sfilter f s = s.
Proof. induction s as [|c s IH]; [done|]. rewrite sforall_cons. cbn. intros [-> H]%andb_true_iff. by rewrite IH. Qed.
Lemma sforall_app f a b : sforall f (a +:+ b) = sforall f a && sforall f b.
Proof. induction a as [|c a IH]; [done|]. cbn [String.append]. by rewrite !sforall_cons, IH, andb_assoc. Qed.
Lemma sforall_smap f g s : sforall f (smap g s) = sforall (fun c => f (g c)) s.
Proof. induction s as [|c s IH]; [done|]. cbn [smap]. by rewrite !sforall_cons, IH. Qed.
Lemma sforall_imp f g s : (forall c, f c = true -> g c = true) -> sforall f s = true -> sforall g s = true.
Proof. intros H. induction s as [|c s IH]; [done|]. rewrite !sforall_cons, !andb_true_iff. intros []. auto. Qed.
Lemma smap_id g s : sforall (fun c => g c =c c) s = true -> smap g s = s.
Proof. induction s as [|c s IH]; [done|]. rewrite sforall_cons. cbn. intros [->%Ascii.eqb_eq H]%andb_true_iff. by rewrite IH. Qed.
Lemma smap_smap f g s : smap f (smap g s) = smap (fun c => f (g c)) s.
Proof. induction s as [|c s IH]; [done|]. cbn. by rewrite IH. Qed.

(** What holds of the 64 digits. *)
Lemma digits_all (f : ascii -> bool) : sforall f BASE64URL = true -> forall c, has_char c BASE64URL = true -> f c = true.
Proof.
  intros H c Hc. unfold has_char in Hc. revert H Hc. generalize BASE64URL as s. induction s as [|d s IH]; [done|].
  rewrite sforall_cons. cbn. intros [H1 H2]%andb_true_iff [->%Ascii.eqb_eq|H]%orb_true_iff; auto.
Qed.
Definition to_standard (c : ascii) : ascii := let c := if c =c "-"%char then "+"%char else c in if c =c "_"%char then "/"%char else c.
Definition to_url (c : ascii) : ascii := let c := if c =c "+"%char then "-"%char else c in if c =c "/"%char then "_"%char else c.
Lemma stake_app a b : stake (String.length a) (a +:+ b) = a.
Proof. induction a as [|c a IH]; [by destruct b|]. cbn. by rewrite IH. Qed.
Lemma stake_sdrop n s : stake n s +:+ sdrop n s = s.
Proof. revert n. induction s as [|c s IH]; intros [|n]; cbn; [done..|]. by rewrite IH. Qed.
Lemma sdrop_app a b : sdrop (String.length a) (a +:+ b) = b.
Proof. induction a as [|c a IH]; [by destruct b|]. exact IH. Qed.
Lemma endsWith_spec s p : endsWith s p = true <-> exists a, s = a +:+ p.
Proof.
  unfold endsWith. rewrite andb_true_iff, Nat.leb_le, String.eqb_eq. split.
  - intros [_ H]. exists (stake (String.length s - String.length p) s). rewrite <- H at 2. by rewrite stake_sdrop.
  - intros (a & ->). rewrite slength_app. split; [lia|]. replace (String.length a + String.length p - String.length p)%nat with (String.length a) by lia.
    apply sdrop_app.
Qed.
Lemma sapp_last a b c d : a +:+ str1 c = b +:+ str1 d -> a = b /\ c = d.
Proof.
  revert b. induction a as [|x a IH]; intros [|y b] H; cbn in H.
  - by injection H as ->.
  - injection H as -> H. destruct b; discriminate.
  - injection H as <- H. destruct a; discriminate.
  - injection H as <- H. by apply IH in H as [-> ->].
Qed.
(** Padding is dropped again. *)
Lemma drop_pad_pads s n : has_char "="%char s = false -> (n <= 2)%nat -> drop_pad (s +:+ pads n) = s.
Proof.
  intros Hs Hn. assert (Hend : forall a, s <> a +:+ str1 "="%char).
  { intros a ->. unfold has_char in Hs. rewrite sexists_app in Hs. cbn in Hs. by rewrite orb_true_r in Hs. }
  assert (H2 : forall x, endsWith x "==" = true -> exists a, x = (a +:+ str1 "="%char) +:+ str1 "="%char).
  { intros x (a & ->)%endsWith_spec. exists a. by rewrite sapp_assoc. }
  assert (H1 : forall x, endsWith x "=" = true -> exists a, x = a +:+ str1 "="%char) by (intros x (a & ->)%endsWith_spec; by exists a).
  unfold drop_pad. destruct n as [|[|[|n]]]; cbn [pads]; [| | |lia].
  - rewrite sapp_nil_r. destruct (endsWith s "==") eqn:E; [apply H2 in E as (a & E); by destruct (Hend (a +:+ str1 "="%char))|].
    destruct (endsWith s "=") eqn:E1; [apply H1 in E1 as (a & E1); by destruct (Hend a)|done].
  - change (s +:+ String "="%char EmptyString) with (s +:+ str1 "="%char). destruct (endsWith (s +:+ str1 "="%char) "==") eqn:E.
    { apply H2 in E as (a & [E _]%sapp_last). by destruct (Hend a). }
    assert (endsWith (s +:+ str1 "="%char) "=" = true) as -> by (apply endsWith_spec; by exists s).
    rewrite slength_app. cbn. rewrite Nat.add_sub. apply stake_app.
  - assert (endsWith (s +:+ String "="%char (String "="%char EmptyString)) "==" = true) as -> by (apply endsWith_spec; by exists s).
    rewrite slength_app. cbn. rewrite Nat.add_sub. apply stake_app.
Qed.
Lemma pads_length n : String.length (pads n) = n.
Proof. induction n as [|n IH]; cbn; congruence. Qed.
Lemma base64url_length_mod b : (String.length (base64url_encode b) mod 4 <> 1)%nat.
Proof.
  induction b as [|x|x y|x y z b IH] using by_three; cbn [base64url_encode String.length]; [intros H; vm_compute in H; discriminate..|].
  intros H. apply IH. etransitivity; [|exact H].
  replace (S (S (S (S (String.length (base64url_encode b)))))) with (String.length (base64url_encode b) + 1 * 4)%nat by lia.
  by rewrite Nat.Div0.mod_add.
Qed.

Lemma pad_count n : (n mod 4 <> 1)%nat -> ((4 - n mod 4) mod 4 <= 2)%nat /\ ((n + (4 - n mod 4) mod 4) mod 4 = 0)%nat.
Proof.
  assert (exists q r, n = (r + q * 4)%nat /\ (r < 4)%nat) as (q & r & -> & Hr).
  { exists (n / 4)%nat, (n mod 4)%nat. pose proof (Nat.div_mod n 4 ltac:(done)). pose proof (Nat.mod_upper_bound n 4 ltac:(done)). lia. }
  rewrite !Nat.Div0.mod_add.
  assert (forall k, ((r + k) mod 4 = 0)%nat -> ((r + q * 4 + k) mod 4 = 0)%nat) as Hk.
  { intros k H. replace (r + q * 4 + k)%nat with (r + k + q * 4)%nat by lia. by rewrite Nat.Div0.mod_add. }
  destruct r as [|[|[|[|r]]]]; [| | | |lia]; intros Hm; [|by destruct (Hm eq_refl)|..]; (split; [vm_compute; lia|by apply Hk]).
Qed.
Lemma decodeBase64UrlBytes_encode b : decodeBase64UrlBytes (base64url_encode b) = Some b.
Proof.
  unfold decodeBase64UrlBytes. set (v := base64url_encode b). pose proof (base64url_encode_digits b) as Hd. fold v in Hd.
  assert (Hall : forall f, sforall f BASE64URL = true -> sforall f v = true) by (intros f Hf; eapply sforall_imp; [|exact Hd]; by apply digits_all).
  assert (Hn : replace_char "_"%char "/"%char (replace_char "-"%char "+"%char v) = smap to_standard v) by (unfold replace_char; by rewrite smap_smap).
  rewrite Hn. set (s := smap to_standard v). assert (Hl : String.length s = String.length v) by apply slength_smap.
  assert (Hs : sforall (fun c => has_char c BASE64 && negb (ascii_space c) && negb (c =c "="%char)%char) s = true).
  { unfold s. rewrite sforall_smap. apply Hall. by vm_compute. }
  assert (Heq : has_char "="%char s = false).
  { unfold has_char. apply not_true_is_false. intros (u & c & w & Hu & Hc)%sexists_true. apply Ascii.eqb_eq in Hc as <-.
    rewrite Hu, sforall_app, sforall_cons, !andb_false_r in Hs. done. }
  set (n := ((4 - String.length s mod 4) mod 4)%nat). pose proof (base64url_length_mod b) as Hm. fold v in Hm. rewrite <- Hl in Hm.
  destruct (pad_count (String.length s) Hm) as [Hn2 Hmod]. fold n in Hn2, Hmod.
  unfold atob. rewrite sfilter_all.
  2: { rewrite sforall_app. apply andb_true_intro. split; [|by destruct n as [|[|[|n]]]; cbn; [..|lia]].
       eapply sforall_imp; [|exact Hs]. cbn beta. intros c [[_ ?]%andb_true_iff _]%andb_true_iff. done. }
  cbv zeta. rewrite slength_app, pads_length, Hmod, Nat.eqb_refl, drop_pad_pads by done.
  rewrite (proj2 (Nat.eqb_neq _ _) Hm). cbn [orb].
  assert (sforall (fun c => has_char c BASE64) s = true) as ->.
  { eapply sforall_imp; [|exact Hs]. cbn beta. by intros c [[? _]%andb_true_iff _]%andb_true_iff. }
  cbn [negb]. assert (replace_char "/"%char "_"%char (replace_char "+"%char "-"%char s) = v) as ->.
  { transitivity (smap to_url s); [unfold replace_char; by rewrite smap_smap|]. unfold s. rewrite smap_smap. apply smap_id, Hall. by vm_compute. }
  unfold v. by rewrite base64url_decode_encode.
Qed.
