(* ===== verification/JsUrl.v ===== *)
(** URLs and forms, as far as the sources read them.

    Parsing is the platform's: a component that parses URLs takes a function from texts to [Url]. *)
From S2P Require Import Prelude JsString.

(** The fields of a [URL] that are read. *)
Record Url := mkUrl {
  u_protocol : string;
  u_hostname : string;
  u_origin : string;
  u_pathname : string;
  u_username : string;
  u_password : string;
  u_search : string;
  u_hash : string;
}.

(** [URLSearchParams]: [get] gives the value of the first entry with the name. *)
Definition params : Type := list (string * string).
Definition params_get (name : string) (fields : params) : option string :=
  snd <$> find_first (fun e => e.1 =s name) fields.

Lemma params_get_in name fields v : params_get name fields = Some v -> (name, v) ∈ fields.
Proof.
  unfold params_get. intros ([n x] & H & E)%fmap_Some. cbn in E. subst v. apply find_first_some in H as [Hin Hn]. cbn in Hn.
  apply String.eqb_eq in Hn as ->. exact Hin.
Qed.
