(* ===== verification/JsMap.v ===== *)
(** JavaScript [Map]s with string keys, and stateful methods.

    A [Map] iterates in insertion order, and [set] on a present key keeps its
    place: [jsmap] is an association list with those operations.  [stm] is the
    monad of methods: they change the object they belong to and return or throw;
    the changes made before a [throw] stay. *)
From S2P Require Import Prelude Errors JsString.

Definition jsmap (A : Type) : Type := list (string * A).

Section JsMap.
Context {A : Type}.

Fixpoint jm_get (m : jsmap A) (k : string) : option A :=
  match m with
  | [] => None
  | (k', a) :: m' => if k =s k' then Some a else jm_get m' k
  end.
Definition jm_has (m : jsmap A) (k : string) : bool :=
  match jm_get m k with Some _ => true | None => false end.
Fixpoint jm_set (m : jsmap A) (k : string) (a : A) : jsmap A :=
  match m with
  | [] => [(k, a)]
  | (k', a') :: m' => if k =s k' then (k', a) :: m' else (k', a') :: jm_set m' k a
  end.
Definition jm_delete (m : jsmap A) (k : string) : jsmap A :=
  List.filter (fun e => negb (k =s e.1)) m.
Definition jm_keys (m : jsmap A) : list string := map fst m.
Definition jm_values (m : jsmap A) : list A := map snd m.
Definition jm_size (m : jsmap A) : nat := length m.

(** A map built by the operations has each key once. *)
Definition jm_wf (m : jsmap A) : Prop := NoDup (jm_keys m).

Lemma jm_get_set m k a k' : jm_get (jm_set m k a) k' = if k' =s k then Some a else jm_get m k'.
Proof.
  induction m as [|[k0 a0] m IH]; simpl; [done|].
  destruct (k =s k0) eqn:E; simpl.
  - apply String.eqb_eq in E as ->. by destruct (k' =s k0).
  - rewrite IH. destruct (k' =s k0) eqn:E1, (k' =s k) eqn:E2; try done.
    apply String.eqb_eq in E1 as ->. apply String.eqb_eq in E2 as ->. by rewrite String.eqb_refl in E.
Qed.

Lemma jm_get_delete m k k' : jm_get (jm_delete m k) k' = if k' =s k then None else jm_get m k'.
Proof.
  unfold jm_delete. induction m as [|[k0 a0] m IH]; simpl; [by destruct (k' =s k)|].
  destruct (k =s k0) eqn:E; simpl; rewrite IH.
  - apply String.eqb_eq in E as ->. by destruct (k' =s k0).
  - destruct (k' =s k0) eqn:E1, (k' =s k) eqn:E2; try done.
    apply String.eqb_eq in E1 as ->. apply String.eqb_eq in E2 as ->. by rewrite String.eqb_refl in E.
Qed.

Lemma jm_get_in m k a : jm_get m k = Some a -> (k, a) ∈ m.
Proof.
  induction m as [|[k0 a0] m IH]; simpl; [done|]. destruct (k =s k0) eqn:E; intros H.
  - apply String.eqb_eq in E as ->. simplify_eq. left.
  - right. auto.
Qed.

Lemma jm_in_keys m k a : (k, a) ∈ m -> k ∈ jm_keys m.
Proof. intros H. apply list_elem_of_fmap. by exists (k, a). Qed.

Lemma jm_in_get m k a : jm_wf m -> (k, a) ∈ m -> jm_get m k = Some a.
Proof.
  unfold jm_wf. induction m as [|[k0 a0] m IH]; simpl; intros Hwf Hin; [by apply not_elem_of_nil in Hin|].
  inversion Hwf as [|? ? Hn Hw]; subst. apply elem_of_cons in Hin as [[= <- <-]|Hin].
  - by rewrite String.eqb_refl.
  - destruct (k =s k0) eqn:E; [|by apply IH].
    apply String.eqb_eq in E as ->. exfalso. apply Hn. by eapply jm_in_keys.
Qed.

Lemma jm_get_none m k : jm_get m k = None <-> k ∉ jm_keys m.
Proof.
  induction m as [|[k0 a0] m IH]; simpl; [split; [intros _; apply not_elem_of_nil|done]|].
  rewrite not_elem_of_cons. destruct (k =s k0) eqn:E.
  - apply String.eqb_eq in E as ->. split; [done|]. by intros [? _].
  - apply String.eqb_neq in E. rewrite IH. split; [done|]. by intros [_ ?].
Qed.

Lemma jm_keys_set m k a : jm_keys (jm_set m k a) = if jm_has m k then jm_keys m else jm_keys m ++ [k].
Proof.
  unfold jm_has. induction m as [|[k0 a0] m IH]; simpl; [done|].
  destruct (k =s k0) eqn:E; simpl; [done|]. rewrite IH. by destruct (jm_get m k).
Qed.

Lemma jm_wf_set m k a : jm_wf m -> jm_wf (jm_set m k a).
Proof.
  unfold jm_wf. intros H. rewrite jm_keys_set. unfold jm_has. destruct (jm_get m k) eqn:E; [done|].
  apply jm_get_none in E. apply NoDup_app. split; [done|]. split.
  - intros x Hx ->%list_elem_of_singleton. done.
  - apply NoDup_singleton.
Qed.

Lemma jm_wf_filter (f : string * A -> bool) m : jm_wf m -> jm_wf (List.filter f m).
Proof.
  unfold jm_wf. induction m as [|[k a] m IH]; simpl; intros Hwf; [done|].
  inversion Hwf as [|? ? Hn Hw]; subst. destruct (f (k, a)); [|by apply IH].
  simpl. constructor; [|by apply IH]. intros Hin. apply Hn.
  apply list_elem_of_fmap in Hin as ([k' a'] & -> & Hin). apply list_elem_of_In, filter_In in Hin as [Hin _].
  apply list_elem_of_In in Hin. by eapply jm_in_keys.
Qed.

Lemma jm_get_filter (f : string * A -> bool) m k a :
  jm_wf m -> jm_get (List.filter f m) k = Some a <-> jm_get m k = Some a /\ f (k, a) = true.
Proof.
  intros Hwf. split.
  - intros H%jm_get_in. apply list_elem_of_In, filter_In in H as [H Hf]. split; [|done].
    apply jm_in_get; [done|]. by apply list_elem_of_In.
  - intros [H Hf]. apply jm_in_get; [by apply jm_wf_filter|]. apply list_elem_of_In, filter_In.
    split; [|done]. by apply list_elem_of_In, jm_get_in.
Qed.

Lemma jm_wf_delete m k : jm_wf m -> jm_wf (jm_delete m k).
Proof. apply jm_wf_filter. Qed.

Lemma jm_delete_fresh m k : jm_get m k = None -> jm_delete m k = m.
Proof.
  unfold jm_delete. induction m as [|[k0 a0] m IH]; simpl; [done|].
  destruct (k =s k0); [done|]. intros H. simpl. by rewrite IH.
Qed.

Lemma jm_keys_delete m k a : jm_wf m -> jm_get m k = Some a -> jm_keys m ≡ₚ k :: jm_keys (jm_delete m k).
Proof.
  unfold jm_wf. induction m as [|[k0 a0] m IH]; simpl; intros Hwf H; [done|].
  inversion Hwf as [|? ? Hn Hw]; subst. destruct (k =s k0) eqn:E; simpl.
  - apply String.eqb_eq in E as ->. apply jm_get_none in Hn. by rewrite jm_delete_fresh.
  - rewrite (IH Hw H). apply Permutation_swap.
Qed.

(** Taking out one entry, adding a new one, and splitting by a test. *)
Lemma jm_delete_perm m k a : jm_wf m -> jm_get m k = Some a -> m ≡ₚ (k, a) :: jm_delete m k.
Proof.
  unfold jm_wf. induction m as [|[k0 a0] m IH]; simpl; intros Hwf H; [done|].
  inversion Hwf as [|? ? Hn Hw]; subst. destruct (k =s k0) eqn:E; simpl.
  - apply String.eqb_eq in E as ->. apply jm_get_none in Hn. injection H as ->. by rewrite jm_delete_fresh.
  - rewrite (IH Hw H) at 1. apply Permutation_swap.
Qed.
Lemma jm_set_fresh m k a : jm_get m k = None -> jm_set m k a = m ++ [(k, a)].
Proof.
  induction m as [|[k0 a0] m IH]; simpl; [done|]. destruct (k =s k0); [done|]. intros H. by rewrite IH.
Qed.
Lemma jm_filter_perm (f : string * A -> bool) m : m ≡ₚ List.filter f m ++ List.filter (fun e => negb (f e)) m.
Proof.
  induction m as [|e m IH]; simpl; [done|]. destruct (f e); simpl; [by rewrite <- IH|]. rewrite IH at 1. apply Permutation_middle.
Qed.

Lemma jm_size_keys m : jm_size m = length (jm_keys m).
Proof. unfold jm_size, jm_keys. by rewrite length_map. Qed.

Lemma jm_size_delete m k : (jm_size (jm_delete m k) <= jm_size m)%nat.
Proof. unfold jm_size, jm_delete. induction m as [|e m IH]; simpl; [done|]. destruct (negb _); simpl; lia. Qed.

Lemma jm_size_set m k a :
  jm_size (jm_set m k a) = if jm_has m k then jm_size m else S (jm_size m).
Proof.
  unfold jm_size, jm_has. induction m as [|[k0 a0] m IH]; simpl; [done|].
  destruct (k =s k0); simpl; [done|]. rewrite IH. by destruct (jm_get m k).
Qed.
End JsMap.

#[export] Hint Resolve jm_wf_set jm_wf_delete : mcp.

(** *** Methods *)
Definition stm (S A : Type) : Type := S -> S * result exn A.

#[export] Instance stm_ret {S} : MRet (stm S) := fun A a s => (s, Ok a).
#[export] Instance stm_bind {S} : MBind (stm S) :=
  fun A B f m s => match m s with (s', Ok a) => f a s' | (s', Err e) => (s', Err e) end.

Definition st_get {S} : stm S S := fun s => (s, Ok s).
Definition st_put {S} (s : S) : stm S unit := fun _ => (s, Ok tt).
Definition st_throw {S A} (c : ErrorCode) (m : string) : stm S A := fun s => (s, throw c m).
Definition st_ok {S A} (a : A) : stm S A := fun s => (s, Ok a).
(** A function that does not touch the object. *)
Definition st_lift {S A} (r : result exn A) : stm S A := fun s => (s, r).

Lemma stm_bind_ok {S A B} (m : stm S A) (f : A -> stm S B) s s' b :
  (m ≫= f) s = (s', Ok b) <-> exists a s1, m s = (s1, Ok a) /\ f a s1 = (s', Ok b).
Proof. unfold mbind, stm_bind. destruct (m s) as [s1 [a|e]]; naive_solver. Qed.

(** A method keeps a property of the object, whether it returns or throws. *)
Definition st_preserves {S A} (I : S -> Prop) (m : stm S A) : Prop := forall s, I s -> I (m s).1.

Lemma preserves_bind {S A B} (I : S -> Prop) (m : stm S A) (f : A -> stm S B) :
  st_preserves I m -> (forall a, st_preserves I (f a)) -> st_preserves I (m ≫= f).
Proof.
  intros Hm Hf s Hs. unfold mbind, stm_bind. specialize (Hm s Hs).
  destruct (m s) as [s1 [a|e]]; simpl in *; [by apply Hf|done].
Qed.
Lemma preserves_get {S} (I : S -> Prop) : st_preserves I st_get.
Proof. by intros s. Qed.
Lemma preserves_throw {S A} (I : S -> Prop) c m : st_preserves I (st_throw (A := A) c m).
Proof. by intros s. Qed.
Lemma preserves_ok {S A} (I : S -> Prop) (a : A) : st_preserves I (st_ok a).
Proof. by intros s. Qed.
#[export] Hint Resolve preserves_get preserves_throw preserves_ok : mcp.

(** Run the methods a goal mentions. *)
Ltac st_run := cbv beta iota delta [mbind stm_bind st_get st_put st_ok st_throw st_lift]; cbn [fst snd].
