(* ===== verification/JsSort.v ===== *)
(** [Array.prototype.sort] with a comparator, and the removal of duplicates by a [Set].

    The standard requires a stable sort, and says what it gives when the comparator is
    consistent; for such a comparator the result is unique, so that the algorithm does not
    matter. *)
From S2P Require Import Prelude JsString.
From stdpp Require Import sorting.
Open Scope Z_scope.

Section Sort.
Context {A : Type} (compare : A -> A -> Z).

(** [x] goes behind the elements that do not come after it. *)
Fixpoint sort_insert_by (x : A) (xs : list A) : list A :=
  match xs with
  | [] => [x]
  | y :: rest => if compare y x <=? 0 then y :: sort_insert_by x rest else x :: xs
  end.
Definition js_sort (xs : list A) : list A := fold_left (fun sorted x => sort_insert_by x sorted) xs [].

Lemma sort_insert_by_perm x xs : sort_insert_by x xs ≡ₚ x :: xs.
Proof.
  induction xs as [|y rest IH]; [done|]. cbn. destruct (compare y x <=? 0); [|done]. rewrite IH. apply Permutation_swap.
Qed.

Lemma js_sort_perm xs : js_sort xs ≡ₚ xs.
Proof.
  unfold js_sort. rewrite <- (app_nil_r xs) at 2. generalize (@nil A) as acc.
  induction xs as [|x xs IH]; intros acc; [done|]. cbn. rewrite IH, sort_insert_by_perm. symmetry. apply Permutation_middle.
Qed.

Lemma elem_of_js_sort x xs : x ∈ js_sort xs <-> x ∈ xs.
Proof. by rewrite js_sort_perm. Qed.

(** A consistent comparator: the order that it describes is total and transitive. *)
Class Consistent := {
  compare_total : forall x y, 0 < compare x y -> compare y x <= 0;
  compare_trans : forall x y z, compare x y <= 0 -> compare y z <= 0 -> compare x z <= 0;
}.

Context `{Consistent}.
Definition sorted_before (x y : A) : Prop := compare x y <= 0.

Lemma sort_insert_by_sorted x xs : StronglySorted sorted_before xs -> StronglySorted sorted_before (sort_insert_by x xs).
Proof.
  induction 1 as [|y rest Hrest IH Hall]; [repeat constructor|]. cbn. destruct (Z.leb_spec (compare y x) 0) as [Hle|Hgt].
  - constructor; [done|]. rewrite Forall_forall in *. intros z Hz. rewrite sort_insert_by_perm in Hz.
    apply elem_of_cons in Hz as [->|Hz]; [done|by apply Hall].
  - constructor; [by constructor|]. apply compare_total in Hgt. constructor; [done|].
    eapply Forall_impl; [exact Hall|]. intros z Hz. by eapply compare_trans.
Qed.

Lemma js_sort_sorted xs : StronglySorted sorted_before (js_sort xs).
Proof.
  unfold js_sort. assert (StronglySorted sorted_before (@nil A)) as Hnil by constructor.
  revert Hnil. generalize (@nil A) as acc. induction xs as [|x xs IH]; intros acc Hacc; [done|].
  by apply IH, sort_insert_by_sorted.
Qed.

(** Where no two elements are in the same place the result does not depend on the order of
    the input. *)
Definition separated (xs : list A) : Prop :=
  forall x y, x ∈ xs -> y ∈ xs -> compare x y <= 0 -> compare y x <= 0 -> x = y.

Lemma js_sort_unique xs ys : separated xs -> xs ≡ₚ ys -> js_sort xs = js_sort ys.
Proof.
  intros Hsep Hp. apply (StronglySorted_unique_strong sorted_before); try apply js_sort_sorted.
  - intros x y Hx Hy. rewrite elem_of_js_sort in Hx, Hy. rewrite <- Hp in Hy. by apply Hsep.
  - by rewrite (js_sort_perm xs), (js_sort_perm ys).
Qed.
End Sort.

(** [[...new Set(values)].sort((left, right) => left.localeCompare(right))] *)
Section Unique.
Context (localeCompare : string -> string -> Z).
Definition uniqueSorted (values : list string) : list string := js_sort localeCompare (js_dedup values).

Lemma elem_of_uniqueSorted x values : x ∈ uniqueSorted values <-> x ∈ values.
Proof. unfold uniqueSorted. by rewrite elem_of_js_sort, elem_of_js_dedup. Qed.

Lemma NoDup_uniqueSorted values : NoDup (uniqueSorted values).
Proof. unfold uniqueSorted. rewrite js_sort_perm. apply NoDup_js_dedup. Qed.

(** Equal results come from equal sets, whatever the collation; the converse needs a
    collation that tells the values apart. *)
Lemma uniqueSorted_same xs ys : uniqueSorted xs = uniqueSorted ys -> forall x, x ∈ xs <-> x ∈ ys.
Proof. intros E x. by rewrite <- (elem_of_uniqueSorted x xs), E, elem_of_uniqueSorted. Qed.

Lemma same_uniqueSorted `{!Consistent localeCompare} xs ys :
  separated localeCompare xs -> (forall x, x ∈ xs <-> x ∈ ys) -> uniqueSorted xs = uniqueSorted ys.
Proof.
  intros Hsep Hset. apply js_sort_unique; [done| |].
  - intros x y Hx Hy. rewrite elem_of_js_dedup in Hx, Hy. by apply Hsep.
  - apply NoDup_Permutation; [apply NoDup_js_dedup..|]. intros x. by rewrite !elem_of_js_dedup.
Qed.

Lemma uniqueSorted_idem `{!Consistent localeCompare} xs :
  separated localeCompare xs -> uniqueSorted (uniqueSorted xs) = uniqueSorted xs.
Proof.
  intros Hsep. apply same_uniqueSorted; [|intros x; apply elem_of_uniqueSorted].
  intros x y Hx Hy. rewrite elem_of_uniqueSorted in Hx, Hy. by apply Hsep.
Qed.
End Unique.
