(* ===== verification/Idempotency.v ===== *)
(** Idempotent browser operations:
    services/browser-worker/services/browser-idempotency-registry.ts.

    [run] starts an operation once for a key and answers later calls of the same
    key with the same promise.  The entries are objects: the map and the handlers
    that settle an operation share them, so the model keeps them in a store
    ([objects], by handle) and the map refers to handles.  A handler still writes
    to an object that the map has dropped.  The promise of an operation settles in
    later turns of the event loop: [Invoke] calls the operation, [Settle] runs the
    handler of its outcome.  Every reading of the clock is an argument. *)
From S2P Require Import Prelude Errors JsString JsMap.
Open Scope Z_scope.

Module Idempotency.

Inductive Disposition := hit | miss | conflict | capacity | expiration.

#[export] Instance Disposition_eq_dec : EqDecision Disposition.
Proof. solve_decision. Defined.

(** How far the promise of an entry has come. *)
Inductive PromiseState (T : Type) := queued | invoked | fulfilled (value : T) | rejected (error : exn).
Arguments queued {T}.
Arguments invoked {T}.
Arguments fulfilled {T} value.
Arguments rejected {T} error.

(** [expiresAt] is infinite ([None]) until the operation settles. *)
Record IdempotencyEntry (T : Type) := mkEntry {
  fingerprint : string;
  expiresAt : option Z;
  settled : bool;
  value : PromiseState T;
}.
Arguments mkEntry {T}.
Arguments fingerprint {T}.
Arguments expiresAt {T}.
Arguments settled {T}.
Arguments value {T}.

Record Metrics := mkMetrics {
  m_entries : nat;
  hits : nat;
  misses : nat;
  conflicts : nat;
  evictions : nat;
  expirations : nat;
}.

#[export] Instance Metrics_eq_dec : EqDecision Metrics.
Proof. solve_decision. Defined.

Definition DEFAULT_TTL_MS : Z := 5 * 60 * 1000.
Definition DEFAULT_MAX_ENTRIES : Z := 4096.

(** The registry; [observed] are the calls of [onDisposition], whose errors are
    caught. *)
Record Registry (T : Type) := mkRegistry {
  objects : list (IdempotencyEntry T);
  entries : jsmap nat;
  counters : Metrics;
  observed : list Disposition;
}.
Arguments mkRegistry {T}.
Arguments objects {T}.
Arguments entries {T}.
Arguments counters {T}.
Arguments observed {T}.

Section Registry.
Context {T : Type} (ttlMs maxEntries : Z).
Notation Registry := (Registry T).
Notation IdempotencyEntry := (IdempotencyEntry T).

Definition new_registry : Registry := mkRegistry [] [] (mkMetrics 0 0 0 0 0 0) [].

(** [this.<counter> += 1; this.observe(d)]. *)
Definition count (d : Disposition) : stm Registry unit := fun r =>
  let c := counters r in
  let c' := match d with
            | hit => mkMetrics 0 (S (hits c)) (misses c) (conflicts c) (evictions c) (expirations c)
            | miss => mkMetrics 0 (hits c) (S (misses c)) (conflicts c) (evictions c) (expirations c)
            | conflict => mkMetrics 0 (hits c) (misses c) (S (conflicts c)) (evictions c) (expirations c)
            | expiration => mkMetrics 0 (hits c) (misses c) (conflicts c) (evictions c) (S (expirations c))
            | capacity => c
            end in
  (mkRegistry (objects r) (entries r) c' (observed r ++ [d]), Ok tt).

(** [entry.settled && entry.expiresAt <= now]. *)
Definition over (now : Z) (e : IdempotencyEntry) : bool :=
  settled e && match expiresAt e with Some t => t <=? now | None => false end.
Definition stale (now : Z) (store : list IdempotencyEntry) (h : nat) : bool :=
  match store !! h with Some e => over now e | None => false end.

(** [prune]: the loop over the entries of the map. *)
Definition delete_entry (key : string) : stm Registry unit := fun r =>
  (mkRegistry (objects r) (jm_delete (entries r) key) (counters r) (observed r), Ok tt).
Fixpoint prune_loop (now : Z) (es : jsmap nat) : stm Registry unit :=
  match es with
  | [] => st_ok tt
  | (key, h) :: es =>
      r ← st_get;
      _ ← (if stale now (objects r) h then _ ← delete_entry key; count expiration else st_ok tt);
      prune_loop now es
  end.
Definition prune (now : Z) : stm Registry unit :=
  r ← st_get; prune_loop now (entries r).

Definition ensureCapacity : stm Registry unit :=
  r ← st_get;
  if Z.of_nat (jm_size (entries r)) <? maxEntries then st_ok tt
  else
    _ ← count capacity;
    st_throw LIMIT_EXCEEDED
      "The browser idempotency registry is at capacity with unexpired operations.".

(** What [run] does with the operation it is given: call it at once, leave it and
    answer the promise of an entry, or start it as a new entry. *)
Inductive Run := CalledDirectly | Joined (handle : nat) | Started (handle : nat).

Definition no_key (key : option string) : bool :=
  match key with Some k => sempty k | None => true end.

Definition add_entry (key fp : string) : stm Registry Run := fun r =>
  let h := length (objects r) in
  (mkRegistry (objects r ++ [mkEntry fp None false queued]) (jm_set (entries r) key h)
     (counters r) (observed r), Ok (Started h)).

Definition run (key : option string) (fp : string) (now : Z) : stm Registry Run :=
  if no_key key then st_ok CalledDirectly
  else
    let key := default EmptyString key in
    _ ← prune now;
    r ← st_get;
    match jm_get (entries r) key with
    | Some h =>
        match objects r !! h with
        | Some existing =>
            if negb (fingerprint existing =s fp) then
              _ ← count conflict;
              st_throw IDEMPOTENCY_KEY_CONFLICT
                "The idempotency key is already associated with a different browser operation fingerprint."
            else
              _ ← count hit;
              st_ok (Joined h)
        | None => st_lift (Err (Native "TypeError"))
        end
    | None =>
        _ ← ensureCapacity;
        _ ← count miss;
        add_entry key fp
    end.

Definition snapshot (now : Z) : stm Registry Metrics :=
  _ ← prune now;
  r ← st_get;
  let c := counters r in
  st_ok (mkMetrics (jm_size (entries r)) (hits c) (misses c) (conflicts c) (evictions c) (expirations c)).
Definition size (now : Z) : stm Registry nat := m ← snapshot now; st_ok (m_entries m).

(** [.then(operation)]: the operation is called; and the two handlers of its
    outcome, with their reading of the clock. *)
Definition set_object (h : nat) (e : IdempotencyEntry) (r : Registry) : Registry :=
  mkRegistry (<[h := e]> (objects r)) (entries r) (counters r) (observed r).
Definition invoke (h : nat) (r : Registry) : option Registry :=
  e ← objects r !! h;
  match value e with
  | queued => Some (set_object h (mkEntry (fingerprint e) (expiresAt e) (settled e) invoked) r)
  | _ => None
  end.
Definition settle (h : nat) (now : Z) (outcome : result exn T) (r : Registry) : option Registry :=
  e ← objects r !! h;
  match value e with
  | invoked =>
      Some (set_object h (mkEntry (fingerprint e) (Some (now + ttlMs)) true
              (match outcome with Ok v => fulfilled v | Err x => rejected x end)) r)
  | _ => None
  end.

(** *** Histories: calls, turns of the event loop and readings of the metrics *)
Inductive Input :=
| Call (key : option string) (fp : string) (now : Z)
| Invoke (handle : nat)
| Settle (handle : nat) (now : Z) (outcome : result exn T)
| Read (now : Z).
Inductive Output := Answered (answer : result exn Run) | Shown (metrics : result exn Metrics) | Quiet.

Definition step (i : Input) (r : Registry) : option (Registry * Output) :=
  match i with
  | Call key fp now => let '(r', a) := run key fp now r in Some (r', Answered a)
  | Invoke h => r' ← invoke h r; Some (r', Quiet)
  | Settle h now outcome => r' ← settle h now outcome r; Some (r', Quiet)
  | Read now => let '(r', m) := snapshot now r in Some (r', Shown m)
  end.

(** [runs tr r]: the registry is [r] after the events of [tr]. *)
Inductive runs : list (Input * Output) -> Registry -> Prop :=
| runs_nil : runs [] new_registry
| runs_step tr r i r' o : runs tr r -> step i r = Some (r', o) -> runs (tr ++ [(i, o)]) r'.

(** The reading of the clock an event makes. *)
Definition reading (i : Input) : option Z :=
  match i with
  | Call key _ now => if no_key key then None else Some now
  | Invoke _ => None
  | Settle _ now _ => Some now
  | Read now => Some now
  end.

(** The operation of a handle settled at a time, and the clock was later read at
    or after the end of its life. *)
Definition settled_in (tr : list (Input * Output)) (h : nat) (t : Z) (later : list (Input * Output)) : Prop :=
  exists before outcome o, tr = before ++ (Settle h t outcome, o) :: later.
Definition released (tr : list (Input * Output)) (h : nat) : Prop :=
  exists t later i o u,
    settled_in tr h t later /\ (i, o) ∈ later /\ reading i = Some u /\ t + ttlMs <= u.
Definition started (tr : list (Input * Output)) (key fp : string) (h : nat) : Prop :=
  exists now, (Call (Some key) fp now, Answered (Ok (Started h))) ∈ tr.
End Registry.
Arguments Input T : clear implicits.

(** *** Pruning *)
Section Prune.
Context {T : Type} (ttlMs maxEntries : Z).
Notation Registry := (Registry T).

Definition fresh_entries (now : Z) (r : Registry) : jsmap nat :=
  List.filter (fun e => negb (stale now (objects r) e.2)) (entries r).

(** What the size and the counters of a registry keep in step. *)
Definition balanced (r : Registry) : Prop :=
  misses (counters r) = (jm_size (entries r) + expirations (counters r))%nat
  /\ misses (counters r) = length (objects r) /\ evictions (counters r) = 0%nat.

Lemma filter_delete (f : string * nat -> bool) m k h :
  jm_wf m -> jm_get m k = Some h -> f (k, h) = false ->
  List.filter f (jm_delete m k) = List.filter f m.
Proof.
  unfold jm_wf, jm_delete. induction m as [|[k0 h0] m IH]; simpl; intros Hw Hg Hf; [done|].
  inversion Hw as [|? ? Hn Hw']; subst. destruct (k =s k0) eqn:E; simpl.
  - apply String.eqb_eq in E as ->. simplify_eq. rewrite Hf.
    change (List.filter f (jm_delete m k0) = List.filter f m). rewrite jm_delete_fresh; [done|].
    by apply jm_get_none.
  - rewrite (IH Hw' Hg Hf). done.
Qed.

Lemma filter_all {A} (f : A -> bool) xs : (forall x, x ∈ xs -> f x = true) -> List.filter f xs = xs.
Proof.
  induction xs as [|x xs IH]; simpl; intros H; [done|].
  rewrite (H x), IH; [done| |left]. intros y Hy. apply H. by right.
Qed.

Lemma size_delete (m : jsmap nat) k h :
  jm_wf m -> jm_get m k = Some h -> jm_size m = S (jm_size (jm_delete m k)).
Proof. intros Hw Hg. rewrite !jm_size_keys, (jm_keys_delete m k h Hw Hg). done. Qed.

Lemma prune_loop_spec now es (r : Registry) :
  jm_wf (entries r) -> NoDup (jm_keys es) -> (forall k h, (k, h) ∈ es -> jm_get (entries r) k = Some h) ->
  (forall k h, jm_get (entries r) k = Some h -> stale now (objects r) h = true -> (k, h) ∈ es) ->
  exists r', prune_loop now es r = (r', Ok tt) /\ objects r' = objects r
    /\ entries r' = fresh_entries now r /\ (balanced r -> balanced r').
Proof.
  revert r. induction es as [|[k h] es IH]; intros r Hw Hnd Hin Hall; simpl; st_run.
  - exists r. split_and!; [done..| |done]. symmetry. apply filter_all. intros [k h] He. simpl.
    destruct (stale now (objects r) h) eqn:E; [|done].
    apply (jm_in_get _ _ _ Hw) in He. by apply Hall, not_elem_of_nil in He.
  - inversion Hnd as [|? ? Hn Hnd']; subst. destruct (stale now (objects r) h) eqn:Es; unfold delete_entry, count; st_run.
    + match goal with |- context [prune_loop now es ?x] => set (r1 := x) end.
      assert (Hg : jm_get (entries r) k = Some h) by (apply Hin; left).
      assert (Hkeep : forall k' h', (k', h') ∈ es -> jm_get (jm_delete (entries r) k) k' = Some h').
      { intros k' h' H'. rewrite jm_get_delete. destruct (k' =s k) eqn:E; [|apply Hin; by right].
        apply String.eqb_eq in E as ->. by apply jm_in_keys in H'. }
      destruct (IH r1) as (r' & H1 & H2 & H3 & H4); subst r1; simpl in *; auto with mcp.
      { intros k' h' H' Hs. rewrite jm_get_delete in H'. destruct (k' =s k) eqn:E; [done|].
        apply Hall in H'; [|done]. apply elem_of_cons in H' as [[= -> ->]|H']; [|done].
        by rewrite String.eqb_refl in E. }
      exists r'. rewrite H1. split_and!; [done|done|..].
      * rewrite H3. unfold fresh_entries. simpl. apply (filter_delete _ _ k h Hw Hg). simpl. by rewrite Es.
      * intros (B1 & B2 & B3). apply H4. unfold balanced; simpl.
        rewrite (size_delete _ k h Hw Hg) in B1. lia.
    + apply IH; auto; [intros; apply Hin; by right|].
      intros k' h' H' Hs. specialize (Hall k' h' H' Hs).
      apply elem_of_cons in Hall as [[= -> ->]|Hall]; [congruence|done].
Qed.

Lemma prune_spec now (r : Registry) :
  jm_wf (entries r) ->
  exists r', prune now r = (r', Ok tt) /\ objects r' = objects r
    /\ entries r' = fresh_entries now r /\ (balanced r -> balanced r').
Proof.
  intros Hw. apply prune_loop_spec; [done|done|..]; intros k h H.
  - by apply jm_in_get.
  - intros _. by apply jm_get_in.
Qed.

Lemma get_fresh now (r : Registry) k h :
  jm_wf (entries r) ->
  jm_get (fresh_entries now r) k = Some h <->
  jm_get (entries r) k = Some h /\ stale now (objects r) h = false.
Proof.
  intros Hw. unfold fresh_entries. set (f := fun e : string * nat => negb (stale now (objects r) e.2)).
  assert (Hw' : jm_wf (List.filter f (entries r))) by by apply jm_wf_filter. split.
  - intros H%jm_get_in%list_elem_of_In%filter_In. destruct H as [H Hf].
    apply list_elem_of_In in H. split; [by apply jm_in_get|]. by apply negb_true_iff.
  - intros [H Hf]. apply jm_in_get; [done|]. apply list_elem_of_In, filter_In. split.
    + by apply list_elem_of_In, jm_get_in.
    + unfold f. simpl. by rewrite Hf.
Qed.
End Prune.

(** *** The invariant of histories *)
Section Invariant.
Context {T : Type} (ttlMs maxEntries : Z).
Notation Registry := (Registry T).
Notation trace := (list (Input T * Output)).
Notation settled_in := (settled_in (T := T)).
Notation released := (released (T := T) ttlMs).

(** [st] are the operations started: key, fingerprint, handle. *)
Record Inv (st : string -> string -> nat -> Prop) (tr : trace) (r : Registry) : Prop := {
  i_wf : jm_wf (entries r);
  i_entry : forall k h, jm_get (entries r) k = Some h ->
    exists e, objects r !! h = Some e /\ st k (fingerprint e) h;
  i_started : forall k fp h, st k fp h ->
    exists e, objects r !! h = Some e /\ fingerprint e = fp
              /\ (jm_get (entries r) k = Some h \/ released tr h);
  i_settled : forall h e, objects r !! h = Some e -> settled e = true ->
    exists t later, settled_in tr h t later /\ expiresAt e = Some (t + ttlMs);
  i_past : forall h t later, settled_in tr h t later ->
    exists e, objects r !! h = Some e /\ settled e = true;
  i_phase : forall h e, objects r !! h = Some e ->
    settled e = match value e with queued | invoked => false | _ => true end;
  i_balanced : balanced r;
  i_bound : Z.of_nat (jm_size (entries r)) <= Z.max 0 maxEntries;
}.

(** **** Growing histories *)
Lemma settled_in_snoc (tr : trace) ev h t later :
  settled_in tr h t later -> settled_in (tr ++ [ev]) h t (later ++ [ev]).
Proof. intros (b & oc & o & ->). exists b, oc, o. by rewrite <- app_assoc. Qed.

Lemma settled_in_inv (tr : trace) i o h t later :
  settled_in (tr ++ [(i, o)]) h t later ->
  (exists later', settled_in tr h t later') \/ exists outcome, i = Settle h t outcome.
Proof.
  intros (b & oc & o' & E). destruct later as [|ev later] using rev_ind.
  - right. apply app_inj_tail in E as [_ [= -> _]]. by exists oc.
  - left. clear IHlater. exists later, b, oc, o'.
    change (b ++ (Settle h t oc, o') :: later ++ [ev]) with (b ++ ((Settle h t oc, o') :: later) ++ [ev]) in E.
    rewrite app_assoc in E. by apply app_inj_tail in E as [-> _].
Qed.

Lemma released_snoc tr ev h : released tr h -> released (tr ++ [ev]) h.
Proof.
  intros (t & later & i & o & u & H & Hin & Hr). exists t, (later ++ [ev]), i, o, u.
  split; [by apply settled_in_snoc|]. split; [|done]. apply elem_of_app. by left.
Qed.

Lemma released_now tr i o h t later u :
  settled_in tr h t later -> reading i = Some u -> t + ttlMs <= u -> released (tr ++ [(i, o)]) h.
Proof.
  intros H Hu Ht. exists t, (later ++ [(i, o)]), i, o, u. split; [by apply settled_in_snoc|].
  split; [|done]. apply elem_of_app. right. left.
Qed.

Definition no_settle (i : Input T) : Prop := match i with Settle _ _ _ => False | _ => True end.

Lemma inv_later st tr i o r : no_settle i -> Inv st tr r -> Inv st (tr ++ [(i, o)]) r.
Proof.
  intros Hi [? ? Hs Hst Hp ? ? ?]. split; try done.
  - intros k fp h H. destruct (Hs k fp h H) as (e & He & Hf & Hor). exists e. split_and!; [done|done|].
    destruct Hor; [by left|right; by apply released_snoc].
  - intros h e He Hse. destruct (Hst h e He Hse) as (t & later & H & Hx).
    eexists t, _. split; [by apply settled_in_snoc|done].
  - intros h t later [[l H]|[oc ->]]%settled_in_inv; [by eapply Hp|done].
Qed.

Lemma inv_prune st tr i o now r r' :
  no_settle i -> reading i = Some now -> Inv st tr r -> prune now r = (r', Ok tt) ->
  Inv st (tr ++ [(i, o)]) r'.
Proof.
  intros Hi Hr HI Hrun. pose proof HI as [Hw He Hs Hst Hp Hph Hb Hbd].
  destruct (prune_spec now r Hw) as (r1 & E & Ho & Hen & Hbal).
  assert (r1 = r') as -> by congruence. clear E Hrun.
  destruct (inv_later st tr i o r Hi HI) as [_ He1 Hs1 Hst1 Hp1 _ _ _].
  assert (Hw' : jm_wf (entries r')) by (rewrite Hen; by apply jm_wf_filter).
  split; rewrite ?Ho; auto.
  - intros k h H. rewrite Hen in H. apply get_fresh in H as [H _]; [|done]. by apply He.
  - intros k fp h H. destruct (Hs1 k fp h H) as (e & He' & Hf & Hor). exists e. split_and!; [done|done|].
    destruct Hor as [Hor|]; [|by right]. destruct (stale now (objects r) h) eqn:Es.
    + right. unfold stale in Es. rewrite He' in Es. apply andb_true_iff in Es as [Es1 Es2].
      destruct (Hst h e He' Es1) as (t & later & Ht & Hx). rewrite Hx in Es2.
      eapply released_now; [done..|]. by apply Z.leb_le.
    + left. rewrite Hen. by apply get_fresh.
  - rewrite Hen. unfold fresh_entries. pose proof (List.filter_length_le
      (fun e : string * nat => negb (stale now (objects r) e.2)) (entries r)). unfold jm_size in *. lia.
Qed.

(** Counting anything but a new or an expired entry. *)
Lemma inv_count st tr d r :
  d = hit \/ d = conflict \/ d = capacity -> Inv st tr r -> Inv st tr (count d r).1.
Proof. by intros [-> | [-> | ->]] [? ? ? ? ? ? ? ?]; split. Qed.

Lemma inv_equiv st st' tr r :
  (forall k fp h, st k fp h <-> st' k fp h) -> Inv st tr r -> Inv st' tr r.
Proof.
  intros H [? He Hs ? ? ? ? ?]. split; try done.
  - intros k h Hk. destruct (He k h Hk) as (e & ? & ?). exists e. split; [done|]. by apply H.
  - intros k fp h Hk. by apply Hs, H.
Qed.

Lemma lookup_new {A} (xs : list A) (x : A) n : (xs ++ [x]) !! n = if (n =? length xs)%nat then Some x else xs !! n.
Proof.
  destruct (Nat.eqb_spec n (length xs)) as [->|Hn].
  - rewrite lookup_app_r by lia. by rewrite Nat.sub_diag.
  - destruct (decide (n < length xs)%nat); [by rewrite lookup_app_l|].
    rewrite !lookup_ge_None_2; [done|lia|rewrite length_app; simpl; lia].
Qed.

Lemma inv_add st tr k fp r :
  jm_get (entries r) k = None -> Z.of_nat (jm_size (entries r)) < maxEntries -> Inv st tr r ->
  Inv (fun k' fp' h' => st k' fp' h' \/ (k', fp', h') = (k, fp, length (objects r))) tr
    (add_entry k fp (count miss r).1).1.
Proof.
  intros Hk Hcap [Hw He Hs Hst Hp Hph (B1 & B2 & B3) Hbd].
  assert (Hold : forall h e, objects r !! h = Some e -> (h =? length (objects r))%nat = false).
  { intros h e H%lookup_lt_Some. apply Nat.eqb_neq. lia. }
  split; simpl; auto with mcp.
  - intros k' h. rewrite jm_get_set. destruct (k' =s k) eqn:E.
    + intros [= <-]. apply String.eqb_eq in E as ->. eexists. rewrite lookup_new, Nat.eqb_refl.
      split; [done|]. by right.
    + intros H. destruct (He k' h H) as (e & H1 & H2). exists e. rewrite lookup_new, (Hold h e) by done. auto.
  - intros k' fp' h [H|[= -> -> ->]].
    + destruct (Hs k' fp' h H) as (e & H1 & H2 & Hor). exists e. rewrite lookup_new, (Hold h e) by done.
      split_and!; [done..|]. destruct Hor as [Hor|]; [left|by right]. rewrite jm_get_set.
      destruct (k' =s k) eqn:E; [|done]. apply String.eqb_eq in E as ->. congruence.
    + eexists. rewrite lookup_new, Nat.eqb_refl. split_and!; [done..|]. left.
      by rewrite jm_get_set, String.eqb_refl.
  - intros h e. rewrite lookup_new. destruct (h =? _)%nat; [by intros [= <-]|by apply Hst].
  - intros h t later H. destruct (Hp h t later H) as (e & H1 & H2). exists e.
    by rewrite lookup_new, (Hold h e).
  - intros h e. rewrite lookup_new. destruct (h =? _)%nat; [by intros [= <-]|by apply Hph].
  - unfold balanced; simpl. rewrite jm_size_set, length_app. unfold jm_has. rewrite Hk. simpl. lia.
  - rewrite jm_size_set. unfold jm_has. rewrite Hk. lia.
Qed.

(** Replacing an object that has not settled. *)
Lemma lookup_set (r : Registry) h e0 e h' :
  objects r !! h = Some e0 ->
  objects (set_object h e r) !! h' = if (h' =? h)%nat then Some e else objects r !! h'.
Proof.
  intros H. simpl. destruct (Nat.eqb_spec h' h) as [->|Hn].
  - apply list_lookup_insert_eq. by eapply lookup_lt_Some.
  - by apply list_lookup_insert_ne.
Qed.

Lemma inv_object st tr0 tr h e0 e r :
  Inv st tr0 r -> objects r !! h = Some e0 -> settled e0 = false -> fingerprint e = fingerprint e0 ->
  settled e = match value e with queued | invoked => false | _ => true end ->
  (settled e = true -> exists t later, settled_in tr h t later /\ expiresAt e = Some (t + ttlMs)) ->
  (forall t later, settled_in tr h t later -> settled e = true) ->
  (forall h' t later, h' <> h -> settled_in tr h' t later ->
     exists e, objects r !! h' = Some e /\ settled e = true) ->
  (forall k fp h', st k fp h' -> exists e, objects r !! h' = Some e /\ fingerprint e = fp
     /\ (jm_get (entries r) k = Some h' \/ released tr h')) ->
  (forall h' e, objects r !! h' = Some e -> settled e = true ->
     exists t later, settled_in tr h' t later /\ expiresAt e = Some (t + ttlMs)) ->
  Inv st tr (set_object h e r).
Proof.
  intros [Hw He _ _ _ Hph (B1 & B2 & B3) Hbd] H0 Hs0 Hfp Hph0 Hex Hse Hp Hst Hset.
  pose proof (fun h' => lookup_set r h e0 e h' H0) as Hl. simpl in Hl. split; simpl; auto.
  - intros k h' Hk. destruct (He k h' Hk) as (e' & H1 & H2). rewrite Hl.
    destruct (Nat.eqb_spec h' h) as [->|]; [|by eauto]. exists e. split; [done|].
    assert (e' = e0) as -> by congruence. by rewrite Hfp.
  - intros k fp h' Hk. destruct (Hst k fp h' Hk) as (e' & H1 & H2 & H3). rewrite Hl.
    destruct (Nat.eqb_spec h' h) as [->|]; [|by eauto]. exists e.
    assert (e' = e0) as -> by congruence. split_and!; [done|congruence|done].
  - intros h' e'. rewrite Hl. destruct (Nat.eqb_spec h' h) as [->|]; [|by apply Hset].
    intros [= <-]. apply Hex.
  - intros h' t later H. rewrite Hl. destruct (Nat.eqb_spec h' h) as [->|]; [|by eapply Hp].
    exists e. split; [done|]. by eapply Hse.
  - intros h' e'. rewrite Hl. destruct (Nat.eqb_spec h' h) as [->|]; [|by apply Hph]. by intros [= <-].
  - unfold balanced; simpl. rewrite length_insert. lia.
Qed.

Lemma inv_invoke st tr h r r' : Inv st tr r -> invoke h r = Some r' -> Inv st (tr ++ [(Invoke h, Quiet)]) r'.
Proof.
  intros HI H. unfold invoke in H. destruct (objects r !! h) as [e|] eqn:E; [|done]. simpl in H.
  destruct (value e) eqn:Ev; simplify_eq.
  assert (Hf : settled e = false) by (rewrite (i_phase _ _ _ HI h e E); by rewrite Ev).
  destruct (inv_later st tr (Invoke h) Quiet r I HI) as [_ _ Hs Hst Hp _ _ _].
  eapply inv_object; [done|done|done|done|simpl; by rewrite Hf|simpl; by rewrite Hf|..|done|done].
  - intros t later Hset. destruct (Hp h t later Hset) as (e' & ? & ?). congruence.
  - intros h' t later _ Hset. by eapply Hp.
Qed.

Lemma inv_settle st tr h now oc r r' :
  Inv st tr r -> settle ttlMs h now oc r = Some r' -> Inv st (tr ++ [(Settle h now oc, Quiet)]) r'.
Proof.
  intros HI H. unfold settle in H. destruct (objects r !! h) as [e|] eqn:E; [|done]. simpl in H.
  destruct (value e) eqn:Ev; simplify_eq. pose proof HI as [_ _ Hs Hst Hp Hph _ _].
  assert (Hf : settled e = false) by (rewrite (Hph h e E); by rewrite Ev).
  eapply inv_object; [done|done|done|done|simpl; by destruct oc|..].
  - intros _. exists now, []. split; [by exists tr, oc, Quiet|done].
  - done.
  - intros h' t later Hne [[l Hset]|[oc' [= ->]]]%settled_in_inv; [by eapply Hp|done].
  - intros k fp h' Hk. destruct (Hs k fp h' Hk) as (e' & ? & ? & Hor). exists e'. split_and!; [done..|].
    destruct Hor; [by left|right; by apply released_snoc].
  - intros h' e' Hh' Hse. destruct (Hst h' e' Hh' Hse) as (t & later & Ht & Hx).
    eexists t, _. split; [by apply settled_in_snoc|done].
Qed.

Lemma started_snoc (tr : trace) i o k fp h :
  started (tr ++ [(i, o)]) k fp h <->
  started tr k fp h \/ exists now, i = Call (Some k) fp now /\ o = Answered (Ok (Started h)).
Proof.
  unfold started. setoid_rewrite elem_of_app. setoid_rewrite list_elem_of_singleton. split.
  - intros (now & [H|[= <- <-]]); [left|right]; by exists now.
  - intros [[now H]|(now & -> & ->)]; exists now; auto.
Qed.

(** A step that starts nothing keeps what was started. *)
Lemma inv_quiet (tr : trace) i o r :
  (forall k fp now h, i = Call (Some k) fp now -> o <> Answered (Ok (Started h))) ->
  Inv (started tr) (tr ++ [(i, o)]) r -> Inv (started (tr ++ [(i, o)])) (tr ++ [(i, o)]) r.
Proof.
  intros Hq. apply inv_equiv. intros k fp h. rewrite started_snoc. split; [by left|].
  intros [H|(now & -> & ->)]; [done|]. by destruct (Hq k fp now h).
Qed.

(** What [run] does for a key, on a registry without ended entries [r1]. *)
Definition run_pruned (k fp : string) (r1 : Registry) : Registry * result exn Run :=
  match jm_get (entries r1) k with
  | Some h =>
      match objects r1 !! h with
      | Some existing =>
          if negb (fingerprint existing =s fp) then
            ((count conflict r1).1,
             throw IDEMPOTENCY_KEY_CONFLICT
               "The idempotency key is already associated with a different browser operation fingerprint.")
          else ((count hit r1).1, Ok (Joined h))
      | None => (r1, Err (Native "TypeError"))
      end
  | None =>
      if Z.of_nat (jm_size (entries r1)) <? maxEntries then
        ((add_entry k fp (count miss r1).1).1, Ok (Started (length (objects r1))))
      else
        ((count capacity r1).1,
         throw LIMIT_EXCEEDED "The browser idempotency registry is at capacity with unexpired operations.")
  end.

Lemma run_key k fp now (r r1 : Registry) :
  sempty k = false -> prune now r = (r1, Ok tt) -> run maxEntries (Some k) fp now r = run_pruned k fp r1.
Proof.
  intros Hk Hp. unfold run, run_pruned, no_key, ensureCapacity. rewrite Hk. cbn [default]. st_run. rewrite Hp. unfold id.
  destruct (jm_get (entries r1) k) as [h|] eqn:E.
  - destruct (objects r1 !! h) as [e|]; [|done]. by destruct (negb _).
  - by destruct (_ <? _).
Qed.

Lemma inv_call (tr : trace) key fp now r r' a :
  Inv (started tr) tr r -> run maxEntries key fp now r = (r', a) ->
  let ev := (Call key fp now, Answered a) in Inv (started (tr ++ [ev])) (tr ++ [ev]) r'.
Proof.
  intros HI Hrun ev. subst ev. destruct (no_key key) eqn:Hkey.
  { unfold run, st_ok in Hrun. rewrite Hkey in Hrun. simplify_eq. apply inv_quiet; [intros; congruence|].
    by apply inv_later. }
  destruct key as [k|]; [|done]. simpl in Hkey. destruct (prune_spec now r (i_wf _ _ _ HI)) as (r1 & Hp & _).
  rewrite (run_key k fp now r r1 Hkey Hp) in Hrun.
  assert (H1 : Inv (started tr) (tr ++ [(Call (Some k) fp now, Answered a)]) r1).
  { eapply inv_prune; [done| |done..]. simpl. by rewrite Hkey. }
  unfold run_pruned in Hrun. destruct (jm_get (entries r1) k) as [h|] eqn:Eg.
  - destruct (i_entry _ _ _ H1 k h Eg) as (e & He & _). rewrite He in Hrun.
    destruct (negb _); simplify_eq; apply inv_quiet; auto using inv_count; unfold throw; intros; congruence.
  - destruct (Z.ltb_spec (Z.of_nat (jm_size (entries r1))) maxEntries) as [Hc|Hc].
    + simplify_eq. eapply inv_equiv; [|by apply inv_add]. intros k' fp' h'. rewrite started_snoc.
      split; [intros [H|[= -> -> ->]]|intros [H|(? & [= <- <- ?] & [= <-])]]; eauto.
    + simplify_eq. apply inv_quiet; auto using inv_count; unfold throw; intros; congruence.
Qed.

Lemma run_started (tr : trace) k fp now r r' h :
  Inv (started tr) tr r -> run maxEntries (Some k) fp now r = (r', Ok (Started h)) ->
  exists r1, (forall o, Inv (started tr) (tr ++ [(Call (Some k) fp now, o)]) r1)
             /\ jm_get (entries r1) k = None.
Proof.
  intros HI Hrun. destruct (sempty k) eqn:Hkey.
  { unfold run in Hrun. simpl in Hrun. rewrite Hkey in Hrun. unfold st_ok in Hrun. congruence. }
  destruct (prune_spec now r (i_wf _ _ _ HI)) as (r1 & Hp & _). exists r1. split.
  - intros o. eapply inv_prune; [done| |done..]. simpl. by rewrite Hkey.
  - rewrite (run_key k fp now r r1 Hkey Hp) in Hrun. unfold run_pruned in Hrun.
    destruct (jm_get (entries r1) k) as [h'|]; [|done].
    destruct (objects r1 !! h'); [|done]. by destruct (negb _).
Qed.

Lemma registry_runs_inv tr r : runs ttlMs maxEntries tr r -> Inv (started tr) tr r.
Proof.
  induction 1 as [|tr r i r' o Hruns IH Hstep].
  - split; simpl; try done.
    + constructor.
    + intros k fp h [now H]. by apply not_elem_of_nil in H.
    + intros h t later (b & oc & o & H). by destruct b.
    + lia.
  - destruct i as [key fp now|h|h now oc|now]; simpl in Hstep.
    + destruct (run maxEntries key fp now r) as [r1 a] eqn:E. simplify_eq. by eapply inv_call.
    + destruct (invoke h r) eqn:E; simplify_eq/=. apply inv_quiet; [intros; congruence|]. by eapply inv_invoke.
    + destruct (settle ttlMs h now oc r) eqn:E; simplify_eq/=. apply inv_quiet; [intros; congruence|]. by eapply inv_settle.
    + unfold snapshot in Hstep. revert Hstep. st_run.
      destruct (prune_spec now r (i_wf _ _ _ IH)) as (r1 & Hp & _). rewrite Hp. intros [= <- <-].
      apply inv_quiet; [intros; congruence|]. by eapply inv_prune.
Qed.

Lemma started_key (tr : trace) r k fp h : runs ttlMs maxEntries tr r -> started tr k fp h -> sempty k = false.
Proof.
  induction 1 as [|tr r i r' o Hruns IH Hstep]; [intros [? H]; by apply not_elem_of_nil in H|].
  intros [H|(now & -> & ->)]%started_snoc; [by apply IH|]. simpl in Hstep.
  destruct (run maxEntries (Some k) fp now r) as [r1 a] eqn:E. simplify_eq.
  unfold run, st_ok in E. simpl in E. destruct (sempty k); congruence.
Qed.
End Invariant.

(** *** Properties *)
Section Properties.
Context {T : Type} (ttlMs maxEntries : Z).
Notation runs := (runs (T := T) ttlMs maxEntries).
Notation trace := (list (Input T * Output)).

(** C20.  An operation is not repeated: when two calls with the same key both
    start their operation, the operation of the first has settled, and the clock
    has since been read at or after the end of its life of [ttlMs], the reading
    of the second call included.  This is over any order of calls, turns and
    readings, with clocks that go back, results that are errors, and a full
    registry. *)
Theorem operation_not_repeated (tr : trace) k fp1 fp2 now h1 h2 r :
  runs (tr ++ [(Call (Some k) fp2 now, Answered (Ok (Started h2)))]) r ->
  started tr k fp1 h1 ->
  released ttlMs (tr ++ [(Call (Some k) fp2 now, Answered (Ok (Started h2)))]) h1.
Proof.
  intros H H1. inversion H as [|tr0 r0 i r' o Hr Hstep E]; [by destruct tr|].
  apply app_inj_tail in E as [-> [= -> ->]]. subst r'. simpl in Hstep.
  destruct (run maxEntries (Some k) fp2 now r0) as [r1 a] eqn:Erun. simplify_eq.
  edestruct (run_started (T := T) ttlMs) as (rp & HI & Hnone); [by eapply registry_runs_inv|exact Erun|].
  destruct (i_started _ _ _ _ _ (HI (Answered (Ok (Started h2)))) k fp1 h1 H1) as (e & _ & _ & [Hg|Hrel]); [congruence|done].
Qed.

(** While an operation has not settled every call with its key is answered
    with its promise, and with a different fingerprint is refused; whatever the
    clock says and also when the registry is full. *)
Theorem unfinished_operation_joined (tr : trace) r k fp h fp' now :
  runs tr r -> started tr k fp h -> (forall t later, ~ settled_in tr h t later) ->
  let answer := (run maxEntries (Some k) fp' now r).2 in
  (fp' = fp -> answer = Ok (Joined h)) /\ (fp' <> fp -> err_code answer = Some IDEMPOTENCY_KEY_CONFLICT).
Proof.
  intros H Hs Hno answer. pose proof (registry_runs_inv _ _ _ _ H) as HI. subst answer.
  destruct (i_started _ _ _ _ _ HI k fp h Hs) as (e & He & Hf & [Hg|(t & later & ? & ? & ? & Hset & _)]);
    [|by destruct (Hno t later)].
  assert (Hopen : settled e = false).
  { destruct (settled e) eqn:E; [|done].
    destruct (i_settled _ _ _ _ _ HI h e He E) as (t & later & Hset & _). by destruct (Hno t later). }
  destruct (prune_spec now r (i_wf _ _ _ _ _ HI)) as (r1 & Hp & Ho & Hen & _).
  rewrite (run_key _ k fp' now r r1 (started_key _ _ _ _ _ _ _ H Hs) Hp). unfold run_pruned.
  assert (Hg1 : jm_get (entries r1) k = Some h).
  { rewrite Hen. apply get_fresh; [apply HI|]. split; [done|]. unfold stale, over. by rewrite He, Hopen. }
  rewrite Hg1, Ho, He. destruct (String.eqb_spec (fingerprint e) fp') as [E|E]; simpl.
  - split; [done|]. congruence.
  - split; [congruence|done].
Qed.

(** What the registry keeps in step, after any history: every started
    operation was counted, is held or was expired, none is evicted, and the
    entries are never more than [maxEntries]. *)
Theorem idempotency_accounts (tr : trace) r :
  runs tr r ->
  misses (counters r) = length (objects r)
  /\ misses (counters r) = (jm_size (entries r) + expirations (counters r))%nat
  /\ evictions (counters r) = 0%nat
  /\ Z.of_nat (jm_size (entries r)) <= Z.max 0 maxEntries.
Proof. intros H. destruct (registry_runs_inv _ _ _ _ H) as [_ _ _ _ _ _ (? & ? & ?) ?]. auto. Qed.
End Properties.

(** *** A concrete history *)
Module Trial.
Fixpoint play {T} (ttl max : Z) (inputs : list (Input T)) (tr : list (Input T * Output)) (r : Registry T) :
    option (list (Input T * Output) * Registry T) :=
  match inputs with
  | [] => Some (tr, r)
  | i :: inputs => p ← step ttl max i r; play ttl max inputs (tr ++ [(i, p.2)]) p.1
  end.

Lemma play_runs {T} ttl max (inputs : list (Input T)) tr r tr' r' :
  runs ttl max tr r -> play ttl max inputs tr r = Some (tr', r') -> runs ttl max tr' r'.
Proof.
  revert tr r. induction inputs as [|i inputs IH]; simpl; intros tr r H E; [by simplify_eq|].
  destruct (step ttl max i r) as [[r1 o]|] eqn:Es; [|done]. simpl in E. eapply IH; [|exact E].
  by econstructor.
Qed.

Definition first : list (Input string) :=
  [Call (Some "a") "fill" 0; Invoke 0; Settle 0 10 (Ok "done"); Call (Some "a") "fill" 50;
   Call (Some "b") "click" 60].
Definition played (inputs : list (Input string)) :=
  default ([], new_registry) (play 100 1 inputs [] new_registry).

Lemma played_runs inputs :
  is_Some (play 100 1 inputs [] new_registry) -> runs 100 1 (played inputs).1 (played inputs).2.
Proof.
  intros [[tr r] H]. unfold played. rewrite H. simpl. eapply play_runs; [constructor|exact H].
Qed.

(** The second call is answered from the first, the third is refused while the
    registry is full, and the fourth starts again after the end of the life. *)
Definition repeated := first ++ [Call (Some "a") "fill" 110].
Example answers :
  map snd (played repeated).1 =
    [Answered (Ok (Started 0)); Quiet; Quiet; Answered (Ok (Joined 0));
     Answered (throw LIMIT_EXCEEDED
       "The browser idempotency registry is at capacity with unexpired operations.");
     Answered (Ok (Started 1))].
Proof. vm_compute. reflexivity. Qed.

Lemma operation_not_repeated_witness :
  released 100 (played repeated).1 0.
Proof.
  apply (operation_not_repeated 100 1 (played first).1 "a" "fill" "fill" 110 0 1 (played repeated).2).
  - apply (played_runs repeated). vm_compute. by eexists.
  - exists 0. vm_compute. left.
Defined.

Lemma unfinished_operation_joined_witness :
  let r := (played [Call (Some "a") "fill" 0; Invoke 0]).2 in
  (run 1 (Some "a") "fill" 1000000 r).2 = Ok (Joined 0)
  /\ err_code (run 1 (Some "a") "press" 1000000 r).2 = Some IDEMPOTENCY_KEY_CONFLICT.
Proof.
  split.
  - refine (proj1 (unfinished_operation_joined 100 1
      (played [Call (Some "a") "fill" 0; Invoke 0]).1 _ "a" "fill" 0 "fill" 1000000 _ _ _) eq_refl).
    + apply played_runs. vm_compute. by eexists.
    + exists 0. vm_compute. left.
    + intros t later (b & oc & o & E). vm_compute in E. destruct b as [|? [|? [|]]]; by simplify_eq.
  - refine (proj2 (unfinished_operation_joined 100 1
      (played [Call (Some "a") "fill" 0; Invoke 0]).1 _ "a" "fill" 0 "press" 1000000 _ _ _) _); [..|done].
    + apply played_runs. vm_compute. by eexists.
    + exists 0. vm_compute. left.
    + intros t later (b & oc & o & E). vm_compute in E. destruct b as [|? [|? [|]]]; by simplify_eq.
Defined.

Lemma idempotency_accounts_witness :
  misses (counters (played repeated).2) = 2%nat /\ Z.of_nat (jm_size (entries (played repeated).2)) <= 1.
Proof.
  assert (H : runs 100 1 (played repeated).1 (played repeated).2)
    by (apply played_runs; vm_compute; by eexists).
  destruct (idempotency_accounts 100 1 _ _ H) as (H1 & _ & _ & H4). split; [|exact H4].
  rewrite H1. vm_compute. reflexivity.
Defined.
End Trial.
End Idempotency.
