(* ===== verification/OperationQueue.v ===== *)
(** The queue of browser operations:
    services/browser-worker/services/browser-operation-queue.ts.

    [run] makes an operation wait for its turn among the operations of its key,
    then for one of [maxConcurrency] slots.  Every call of [run] is a ticket; the
    promises it waits for settle in later turns of the event loop, so a call is a
    sequence of steps and the steps of all calls interleave freely.  A ticket keeps
    the promise it waits for ([previous], the promise [current] of the ticket that
    was the tail of its key), whether its own [turn] was released and whether its
    own [current] has settled. *)
From S2P Require Import Prelude Errors JsString JsMap.
Open Scope Z_scope.

Module OperationQueue.

(** Where a call of [run] is: waiting for its turn; about to look for a slot;
    parked in [slotWaiters]; holding a slot, not yet resumed; in its task; rejected,
    about to clean up; ended. *)
Inductive Phase := Waiting | Checking | Parked | Granted | Running | Rejecting (error : exn) | Ended (end_ : result exn unit).

#[export] Instance Phase_eq_dec : EqDecision Phase.
Proof. solve_decision. Defined.

Record Ticket := mkTicket {
  key : string;
  previous : option nat;
  enqueuedAt : Z;
  maxQueueWaitMs : Z;
  signal : option AbortSignal;
  phase : Phase;
  turn_released : bool;
  current_settled : bool;
  cleanup : bool;
}.
Definition set_phase (p : Phase) (t : Ticket) : Ticket :=
  mkTicket (key t) (previous t) (enqueuedAt t) (maxQueueWaitMs t) (signal t) p
    (turn_released t) (current_settled t) (cleanup t).
Definition set_signal (s : AbortSignal) (t : Ticket) : Ticket :=
  mkTicket (key t) (previous t) (enqueuedAt t) (maxQueueWaitMs t) (Some s) (phase t)
    (turn_released t) (current_settled t) (cleanup t).
Definition set_settled (t : Ticket) : Ticket :=
  mkTicket (key t) (previous t) (enqueuedAt t) (maxQueueWaitMs t) (signal t) (phase t)
    (turn_released t) true (cleanup t).
Definition clear_cleanup (t : Ticket) : Ticket :=
  mkTicket (key t) (previous t) (enqueuedAt t) (maxQueueWaitMs t) (signal t) (phase t)
    (turn_released t) (current_settled t) false.

(** [slotWaiters] are the tickets whose [resume] is in the array. *)
Record Queue := mkQueue {
  tickets : list Ticket;
  tails : jsmap nat;
  slotWaiters : list nat;
  active : Z;
  queued : Z;
}.
Definition with_tickets (ts : list Ticket) (q : Queue) : Queue :=
  mkQueue ts (tails q) (slotWaiters q) (active q) (queued q).
Definition update (h : nat) (f : Ticket -> Ticket) (q : Queue) : Queue :=
  with_tickets (alter f h (tickets q)) q.

Section Queue.
Context (maxConcurrency : Z).

Definition empty_queue : Queue := mkQueue [] [] [] 0 0.
Definition queuedCount (q : Queue) : Z := queued q.

Definition cancelled_queued (s : option AbortSignal) : exn :=
  abortSignalError s "Browser operation was cancelled while queued.".
Definition cancelled_slot (s : option AbortSignal) : exn :=
  abortSignalError s "Browser operation was cancelled while waiting for a worker slot.".

(** The start of [run], up to [await waitForTurn]. *)
Definition enqueue (k : string) (now maxWait : Z) (s : option AbortSignal) (q : Queue) : Queue :=
  let h := length (tickets q) in
  let p := if is_aborted s then Rejecting (cancelled_queued s) else Waiting in
  mkQueue (tickets q ++ [mkTicket k (jm_get (tails q) k) now maxWait s p false false false])
    (jm_set (tails q) k h) (slotWaiters q) (active q) (queued q + 1).

(** The promise [previous] of a ticket has settled. *)
Definition settled_promise (ts : list Ticket) (p : option nat) : bool :=
  match p with
  | None => true
  | Some h => match ts !! h with Some t => current_settled t | None => false end
  end.

(** [previous] settles and [waitForTurn] resolves. *)
Definition take_turn (h : nat) (q : Queue) : option Queue :=
  t ← tickets q !! h;
  match phase t with
  | Waiting => if settled_promise (tickets q) (previous t) then Some (update h (set_phase Checking) q) else None
  | _ => None
  end.

(** A round of the loop of [acquireSlot]. *)
Definition acquireSlot (h : nat) (q : Queue) : option Queue :=
  t ← tickets q !! h;
  match phase t with
  | Checking =>
      Some (if active q <? maxConcurrency then
              let q' := update h (set_phase Granted) q in
              mkQueue (tickets q') (tails q') (slotWaiters q') (active q' + 1) (queued q')
            else if is_aborted (signal t) then
              update h (set_phase (Rejecting (cancelled_slot (signal t)))) q
            else
              let q' := update h (set_phase Parked) q in
              mkQueue (tickets q') (tails q') (slotWaiters q' ++ [h]) (active q') (queued q'))
  | _ => None
  end.

(** [releaseSlot]: the first waiter, if any, is resumed. *)
Definition releaseSlot (q : Queue) : Queue :=
  let n := Z.max 0 (active q - 1) in
  match slotWaiters q with
  | [] => mkQueue (tickets q) (tails q) [] n (queued q)
  | w :: ws => update w (set_phase Checking) (mkQueue (tickets q) (tails q) ws n (queued q))
  end.

(** [release?.()], then [cleanupTail]: the removal of the tail is scheduled only
    if the ticket is the tail at this moment. *)
Definition finish_ticket (is_tail : bool) (r : result exn unit) (t : Ticket) : Ticket :=
  mkTicket (key t) (previous t) (enqueuedAt t) (maxQueueWaitMs t) (signal t) (Ended r)
    true (current_settled t) is_tail.
Definition end_run (h : nat) (t : Ticket) (r : result exn unit) (q : Queue) : Queue :=
  update h (finish_ticket (bool_decide (jm_get (tails q) (key t) = Some h)) r) q.

Definition dequeued (q : Queue) : Queue :=
  mkQueue (tickets q) (tails q) (slotWaiters q) (active q) (queued q - 1).

(** The [catch] around the two waits. *)
Definition catch_wait (h : nat) (q : Queue) : option Queue :=
  t ← tickets q !! h;
  match phase t with
  | Rejecting e => Some (end_run h t (Err e) (dequeued q))
  | _ => None
  end.

Definition finally_run (h : nat) (t : Ticket) (r : result exn unit) (q : Queue) : Queue :=
  end_run h t r (releaseSlot q).

(** The slot is granted: the call resumes, checks the signal and the time it
    waited, and calls the task. *)
Definition start (h : nat) (now : Z) (q : Queue) : option Queue :=
  t ← tickets q !! h;
  match phase t with
  | Granted =>
      let q := dequeued q in
      Some (if is_aborted (signal t) then finally_run h t (Err (cancelled_queued (signal t))) q
            else if maxQueueWaitMs t <? now - enqueuedAt t then
              finally_run h t (throw BROWSER_WORKER_TIMEOUT
                "Browser operation expired while waiting for the shared browser session.") q
            else update h (set_phase Running) q)
  | _ => None
  end.

(** The task ends. *)
Definition task_ended (h : nat) (r : result exn unit) (q : Queue) : option Queue :=
  t ← tickets q !! h;
  match phase t with
  | Running => Some (finally_run h t r q)
  | _ => None
  end.

(** [current] settles: [previous.then(() => turn)]. *)
Definition settle_current (h : nat) (q : Queue) : option Queue :=
  t ← tickets q !! h;
  if turn_released t && negb (current_settled t) && settled_promise (tickets q) (previous t)
  then Some (update h set_settled q) else None.

(** The handler that [cleanupTail] leaves on [current]. *)
Definition remove_tail (h : nat) (q : Queue) : option Queue :=
  t ← tickets q !! h;
  if cleanup t && current_settled t then
    Some (mkQueue (alter clear_cleanup h (tickets q))
            (if bool_decide (jm_get (tails q) (key t) = Some h) then jm_delete (tails q) (key t) else tails q)
            (slotWaiters q) (active q) (queued q))
  else None.

(** The signal of a call is aborted: [onAbort] of [waitForTurn] or of
    [acquireSlot], whichever is listening. *)
Definition abort (h : nat) (reason : option AppError) (q : Queue) : option Queue :=
  t ← tickets q !! h;
  if is_aborted (signal t) then None
  else
    match signal t with
    | None => None
    | Some _ =>
        let s := mkSignal true reason in
        let q := update h (set_signal s) q in
        Some (match phase t with
              | Waiting => update h (set_phase (Rejecting (cancelled_queued (Some s)))) q
              | Parked =>
                  update h (set_phase (Rejecting (cancelled_slot (Some s))))
                    (mkQueue (tickets q) (tails q) (List.filter (fun w => negb (w =? h)%nat) (slotWaiters q))
                       (active q) (queued q))
              | _ => q
              end)
    end.

(** *** Steps *)
Inductive Step :=
| Enqueue (k : string) (now maxWait : Z) (s : option AbortSignal)
| Abort (h : nat) (reason : option AppError)
| TakeTurn (h : nat) | AcquireSlot (h : nat) | CatchWait (h : nat) | Start (h : nat) (now : Z)
| TaskEnded (h : nat) (r : result exn unit) | SettleCurrent (h : nat) | RemoveTail (h : nat).

Definition step (e : Step) (q : Queue) : option Queue :=
  match e with
  | Enqueue k now maxWait s => Some (enqueue k now maxWait s q)
  | Abort h reason => abort h reason q
  | TakeTurn h => take_turn h q
  | AcquireSlot h => acquireSlot h q
  | CatchWait h => catch_wait h q
  | Start h now => start h now q
  | TaskEnded h r => task_ended h r q
  | SettleCurrent h => settle_current h q
  | RemoveTail h => remove_tail h q
  end.

Inductive reachable : Queue -> Prop :=
| reachable_empty : reachable empty_queue
| reachable_step q e q' : reachable q -> step e q = Some q' -> reachable q'.
End Queue.

(** *** Counting phases *)
Definition holds (p : Phase) : bool := match p with Granted | Running => true | _ => false end.
Definition checks (p : Phase) : bool := match p with Checking => true | _ => false end.
Definition queues (p : Phase) : bool := match p with Running | Ended _ => false | _ => true end.
Definition past_turn (p : Phase) : bool :=
  match p with Checking | Parked | Granted | Running => true | _ => false end.
Definition is_ended (p : Phase) : bool := match p with Ended _ => true | _ => false end.

Definition count (P : Phase -> bool) (ph : list Phase) : Z := Z.of_nat (length (List.filter P ph)).

Lemma count_app P ph ph' : count P (ph ++ ph') = count P ph + count P ph'.
Proof. unfold count. rewrite List.filter_app, length_app. lia. Qed.

Lemma count_one P p : count P [p] = Z.b2z (P p).
Proof. unfold count. simpl. by destruct (P p). Qed.

Lemma count_insert P ph h p p' :
  ph !! h = Some p -> count P (<[h := p']> ph) = count P ph - Z.b2z (P p) + Z.b2z (P p').
Proof.
  unfold count. revert h. induction ph as [|x ph IH]; intros [|h] H; simplify_eq/=.
  - destruct (P p), (P p'); simpl; lia.
  - specialize (IH h H). destruct (P x); simpl; lia.
Qed.

Lemma count_nonneg P ph : 0 <= count P ph.
Proof. unfold count. lia. Qed.

Lemma count_pos P ph h p : ph !! h = Some p -> P p = true -> 1 <= count P ph.
Proof.
  unfold count. revert h. induction ph as [|x ph IH]; intros [|h] H HP; simplify_eq/=.
  - rewrite HP. simpl. lia.
  - specialize (IH h H HP). destruct (P x); simpl; lia.
Qed.

(** *** The slots *)
Section Slots.
Context (maxConcurrency : Z).

(** [active] counts the calls that hold a slot; the array of waiters holds the
    parked calls; and while one is parked every slot is held or about to be looked
    for by a call that was resumed. *)
Record Slots (ph : list Phase) (ws : list nat) (act qd : Z) : Prop := {
  s_active : act = count holds ph;
  s_bound : act <= Z.max 0 maxConcurrency;
  s_nodup : NoDup ws;
  s_parked : forall h, h ∈ ws <-> ph !! h = Some Parked;
  s_work : ws <> [] -> maxConcurrency <= act + count checks ph;
  s_queued : qd = count queues ph;
}.

Lemma parked_insert (ph : list Phase) (ws : list nat) h p p' :
  (forall h, h ∈ ws <-> ph !! h = Some Parked) -> ph !! h = Some p -> p <> Parked -> p' <> Parked ->
  forall h', h' ∈ ws <-> <[h := p']> ph !! h' = Some Parked.
Proof.
  intros Hp Hh H1 H2 h'. rewrite Hp. destruct (decide (h' = h)) as [->|Hn].
  - rewrite list_lookup_insert_eq by (by eapply lookup_lt_Some). naive_solver.
  - by rewrite list_lookup_insert_ne.
Qed.

Lemma slots_move ph ws act qd h p p' :
  Slots ph ws act qd -> ph !! h = Some p -> p <> Parked -> p' <> Parked ->
  act - Z.b2z (holds p) + Z.b2z (holds p') <= Z.max 0 maxConcurrency ->
  Z.b2z (holds p) + Z.b2z (checks p) <= Z.b2z (holds p') + Z.b2z (checks p')
    \/ (holds p = false /\ holds p' = false /\ maxConcurrency <= act) ->
  Slots (<[h := p']> ph) ws (act - Z.b2z (holds p) + Z.b2z (holds p'))
    (qd - Z.b2z (queues p) + Z.b2z (queues p')).
Proof.
  intros [Ha Hb Hn Hp Hw Hq] Hh H1 H2 Hb' Hs.
  split; [|done|done|by eapply parked_insert| |].
  - by rewrite (count_insert _ _ _ _ _ Hh), Ha.
  - intros Hne. specialize (Hw Hne). rewrite (count_insert _ _ _ _ _ Hh).
    pose proof (count_nonneg checks (<[h := p']> ph)) as Hc. rewrite (count_insert _ _ _ _ _ Hh) in Hc.
    destruct Hs as [Hs|(-> & -> & Hs)]; simpl; lia.
  - by rewrite (count_insert _ _ _ _ _ Hh), Hq.
Qed.

Lemma slots_park ph ws act qd h :
  Slots ph ws act qd -> ph !! h = Some Checking -> maxConcurrency <= act ->
  Slots (<[h := Parked]> ph) (ws ++ [h]) act qd.
Proof.
  intros [Ha Hb Hn Hp Hw Hq] Hh Hact. split; [|done|..].
  - rewrite (count_insert _ _ _ _ _ Hh). simpl. lia.
  - apply NoDup_app. split_and!; [done| |apply NoDup_singleton].
    intros x Hx ->%list_elem_of_singleton. apply Hp in Hx. congruence.
  - intros h'. rewrite elem_of_app, list_elem_of_singleton. destruct (decide (h' = h)) as [->|Hne].
    + rewrite list_lookup_insert_eq by (by eapply lookup_lt_Some). naive_solver.
    + rewrite list_lookup_insert_ne, Hp by done. naive_solver.
  - intros _. pose proof (count_nonneg checks (<[h := Parked]> ph)). lia.
  - rewrite (count_insert _ _ _ _ _ Hh). simpl. lia.
Qed.

Lemma slots_unpark ph ws act qd h e :
  Slots ph ws act qd -> ph !! h = Some Parked ->
  Slots (<[h := Rejecting e]> ph) (List.filter (fun w => negb (w =? h)%nat) ws) act qd.
Proof.
  intros [Ha Hb Hn Hp Hw Hq] Hh. split; [|done|..].
  - rewrite (count_insert _ _ _ _ _ Hh). simpl. lia.
  - clear -Hn. induction Hn as [|x ws Hx Hn IH]; simpl; [constructor|]. destruct (negb _); [|done].
    constructor; [|done]. intros [H _]%list_elem_of_In%filter_In. by apply Hx, list_elem_of_In.
  - intros h'. rewrite list_elem_of_In, filter_In, <- list_elem_of_In, Hp, negb_true_iff, Nat.eqb_neq.
    destruct (decide (h' = h)) as [->|Hne].
    + rewrite list_lookup_insert_eq by (by eapply lookup_lt_Some). naive_solver.
    + rewrite list_lookup_insert_ne by done. naive_solver.
  - intros Hne. rewrite (count_insert _ _ _ _ _ Hh). simpl. destruct ws; [done|]. specialize (Hw ltac:(done)). lia.
  - rewrite (count_insert _ _ _ _ _ Hh). simpl. lia.
Qed.

(** A call that holds a slot ends: the first waiter looks for a slot again. *)
Lemma slots_release ph ws act qd h p r :
  Slots ph ws act qd -> ph !! h = Some p -> holds p = true ->
  Slots (<[h := Ended r]> (match ws with [] => ph | w :: _ => <[w := Checking]> ph end))
    (tail ws) (Z.max 0 (act - 1)) (qd - Z.b2z (queues p)).
Proof.
  intros HS Hh Hp. pose proof HS as [Ha Hb Hn Hpk Hw Hq].
  assert (Hpos : 1 <= act) by (rewrite Ha; by eapply count_pos). rewrite Z.max_r by lia.
  assert (HpP : p <> Parked) by (by intros ->).
  destruct ws as [|w ws]; simpl.
  - replace (act - 1) with (act - Z.b2z (holds p) + Z.b2z (holds (Ended r))) by (rewrite Hp; simpl; lia).
    replace (qd - Z.b2z (queues p)) with (qd - Z.b2z (queues p) + Z.b2z (queues (Ended r))) by (simpl; lia).
    assert (Hlow : 0 <= Z.b2z (holds p)) by (destruct p; simpl; lia).
    split; [by rewrite (count_insert _ _ _ _ _ Hh), Ha|simpl; lia|done|by eapply parked_insert|done|].
    by rewrite (count_insert _ _ _ _ _ Hh), Hq.
  - inversion Hn as [|? ? Hnw Hn']; subst. assert (Hwp : ph !! w = Some Parked) by (apply Hpk; left).
    assert (Hne : w <> h) by congruence.
    assert (Hh' : <[w := Checking]> ph !! h = Some p) by (by rewrite list_lookup_insert_ne).
    specialize (Hw ltac:(done)).
    split; rewrite ?(count_insert _ _ _ _ _ Hh'), ?(count_insert _ _ _ _ _ Hwp), ?Hp; simpl; try lia; [done| |].
    + intros h'. destruct (decide (h' = h)) as [->|Hn1].
      { rewrite list_lookup_insert_eq by (by eapply lookup_lt_Some). split; [|done].
        intros Hin. assert (ph !! h = Some Parked) by (apply Hpk; by right). congruence. }
      rewrite list_lookup_insert_ne by done. destruct (decide (h' = w)) as [->|Hn2].
      { rewrite list_lookup_insert_eq by (by eapply lookup_lt_Some). by split. }
      rewrite list_lookup_insert_ne, <- Hpk, elem_of_cons by done. naive_solver.
    + destruct p; simpl in *; try done; lia.
Qed.
End Slots.

(** *** The turns *)
(** What the order of turns depends on: key, promise waited for, settled. *)
Notation skeleton := (string * option nat * bool)%type.
Definition bones (t : Ticket) : skeleton := (key t, previous t, current_settled t).
Definition promise_ok (sk : list skeleton) (p : option nat) : bool :=
  match p with
  | None => true
  | Some h => match sk !! h with Some (_, _, b) => b | None => false end
  end.

(** A ticket waits for the last earlier ticket of its key, or for nothing when
    those have all settled; [tails] holds the last ticket of a key, unless all
    have settled. *)
Record Chain (sk : list skeleton) (tl : jsmap nat) : Prop := {
  c_prev : forall h k p b, sk !! h = Some (k, Some p, b) ->
    (p < h)%nat /\ (exists pp b', sk !! p = Some (k, pp, b'))
    /\ forall h' p' b', sk !! h' = Some (k, p', b') -> (h' < h)%nat -> (h' <= p)%nat;
  c_none : forall h k b h' p', sk !! h = Some (k, None, b) -> (h' < h)%nat -> sk !! h' <> Some (k, p', false);
  c_settled : forall h k p h' p', sk !! h = Some (k, p, true) -> (h' < h)%nat -> sk !! h' <> Some (k, p', false);
  c_tail : forall k t, jm_get tl k = Some t ->
    (exists p b, sk !! t = Some (k, p, b)) /\ forall h p b, sk !! h = Some (k, p, b) -> (h <= t)%nat;
  c_free : forall k h p, jm_get tl k = None -> sk !! h <> Some (k, p, false);
}.

(** When the promise of a ticket has settled so have all earlier ones of its key. *)
Lemma chain_turn sk tl h k p b h' p' :
  Chain sk tl -> sk !! h = Some (k, p, b) -> promise_ok sk p = true -> (h' < h)%nat ->
  sk !! h' <> Some (k, p', false).
Proof.
  intros HC Hh Hp Hlt Hf. destruct p as [q|]; [|by eapply (c_none _ _ HC)].
  destruct (c_prev _ _ HC _ _ _ _ Hh) as (Hq & (pp & b' & Hqs) & Hmax). simpl in Hp. rewrite Hqs in Hp. subst b'.
  specialize (Hmax h' p' false Hf Hlt). destruct (decide (h' = q)) as [->|Hne]; [congruence|].
  eapply (c_settled _ _ HC q); [done| |done]. lia.
Qed.

Lemma lookup_snoc_some {A} (xs : list A) x h y :
  (xs ++ [x]) !! h = Some y <-> xs !! h = Some y \/ (h = length xs /\ x = y).
Proof. rewrite lookup_app_Some, list_lookup_singleton_Some. split.
  - intros [?|(? & ? & ->)]; [by left|]. right. split; [lia|done].
  - intros [?|[-> ->]]; [by left|]. right. split_and!; [lia|lia|done].
Qed.

Lemma chain_enqueue sk tl k :
  Chain sk tl -> Chain (sk ++ [(k, jm_get tl k, false)]) (jm_set tl k (length sk)).
Proof.
  intros [Hp Hn Hs Ht Hf]. assert (Hlt : forall h x, sk !! h = Some x -> (h < length sk)%nat) by (intros; by eapply lookup_lt_Some).
  split.
  - intros h k' p b [H|[-> [= -> E <-]]]%lookup_snoc_some.
    + destruct (Hp _ _ _ _ H) as (H1 & (pp & b' & H2) & H3). split_and!; [done| |].
      * exists pp, b'. apply lookup_snoc_some. by left.
      * intros h' p' b2 [H'|[-> _]]%lookup_snoc_some Hl; [by eapply H3|]. apply Hlt in H. lia.
    + destruct (Ht _ _ E) as [(pp & b' & H2) H3]. split_and!; [by eapply Hlt| |].
      * exists pp, b'. apply lookup_snoc_some. by left.
      * intros h' p' b2 [H'|[-> _]]%lookup_snoc_some Hl; [by eapply H3|lia].
  - intros h k' b h' p' [H|[-> [= -> E <-]]]%lookup_snoc_some Hl [H'|[-> _]]%lookup_snoc_some; try lia.
    + by eapply Hn.
    + apply Hlt in H. lia.
    + by eapply Hf.
  - intros h k' p h' p' [H|[-> [=]]]%lookup_snoc_some Hl [H'|[-> _]]%lookup_snoc_some.
    + by eapply Hs.
    + apply Hlt in H. lia.
  - intros k' t. rewrite jm_get_set. destruct (k' =s k) eqn:E.
    + apply String.eqb_eq in E as ->. intros [= <-]. split.
      * eexists _, _. apply lookup_snoc_some. by right.
      * intros h p b [H|[-> _]]%lookup_snoc_some; [apply Hlt in H; lia|lia].
    + intros H. destruct (Ht _ _ H) as [(p & b & H1) H2]. split.
      * exists p, b. apply lookup_snoc_some. by left.
      * intros h p' b' [H'|[-> [= -> _ _]]]%lookup_snoc_some; [by eapply H2|].
        by rewrite String.eqb_refl in E.
  - intros k' h p. rewrite jm_get_set. destruct (k' =s k) eqn:E; [done|].
    intros H [H'|[_ [= -> _]]]%lookup_snoc_some; [by eapply Hf|]. by rewrite String.eqb_refl in E.
Qed.

Lemma settle_lookup (sk : list skeleton) h k p h' x :
  sk !! h = Some (k, p, false) ->
  <[h := (k, p, true)]> sk !! h' = Some x <->
  (h' = h /\ x = (k, p, true)) \/ (h' <> h /\ sk !! h' = Some x).
Proof.
  intros H. destruct (decide (h' = h)) as [->|Hn].
  - rewrite list_lookup_insert_eq by (by eapply lookup_lt_Some). naive_solver.
  - rewrite list_lookup_insert_ne by done. naive_solver.
Qed.

Lemma chain_settle sk tl h k p :
  Chain sk tl -> sk !! h = Some (k, p, false) -> promise_ok sk p = true ->
  Chain (<[h := (k, p, true)]> sk) tl.
Proof.
  intros HC Hh Hok. pose proof HC as [Hp Hn Hs Ht Hf].
  assert (Hl : forall h' x, <[h := (k, p, true)]> sk !! h' = Some x ->
                 exists b, sk !! h' = Some (x.1, b) /\ (x.2 = false -> b = false)).
  { intros h' x H. apply settle_lookup in H as [[-> ->]|[_ H]]; [|destruct x as [x b]|done]; eauto. }
  assert (Hr : forall h' k' p' b, sk !! h' = Some (k', p', b) ->
                 exists b', <[h := (k, p, true)]> sk !! h' = Some (k', p', b')).
  { intros h' k' p' b H. destruct (decide (h' = h)) as [->|Hne].
    - exists true. apply settle_lookup; [done|]. left. split; congruence.
    - exists b. apply settle_lookup; [done|]. by right. }
  split.
  - intros h1 k1 p1 b1 (b & H1 & _)%Hl. simpl in H1. destruct (Hp _ _ _ _ H1) as (? & (pp & b' & H2) & H3).
    split_and!; [done| |].
    + destruct (Hr _ _ _ _ H2) as [b2 ?]. by exists pp, b2.
    + intros h' p' b2 (b3 & H4 & _)%Hl. by eapply H3.
  - intros h1 k1 b1 h' p' (b & H1 & _)%Hl Hlt (b2 & H2 & Hb2)%Hl. simpl in *.
    rewrite (Hb2 eq_refl) in H2. by eapply Hn.
  - intros h1 k1 p1 h' p' H1 Hlt (b2 & H2 & Hb2)%Hl. simpl in *. rewrite (Hb2 eq_refl) in H2.
    apply (settle_lookup _ _ _ _ _ _ Hh) in H1 as [[-> [= -> ->]]|[_ H1]].
    + by eapply (chain_turn _ _ _ _ _ _ _ _ HC Hh Hok Hlt).
    + by eapply Hs.
  - intros k1 t H. destruct (Ht _ _ H) as [(p1 & b1 & H1) H2]. split.
    + destruct (Hr _ _ _ _ H1) as [b2 ?]. by exists p1, b2.
    + intros h' p' b' (b2 & H3 & _)%Hl. by eapply H2.
  - intros k1 h' p' H (b2 & H2 & Hb2)%Hl. simpl in *. rewrite (Hb2 eq_refl) in H2. by eapply Hf.
Qed.

Lemma chain_remove sk tl h k p :
  Chain sk tl -> sk !! h = Some (k, p, true) -> jm_get tl k = Some h -> Chain sk (jm_delete tl k).
Proof.
  intros [Hp Hn Hs Ht Hf] Hh Hg. split; [done|done|done|..].
  - intros k' t. rewrite jm_get_delete. destruct (k' =s k); [done|]. by apply Ht.
  - intros k' h' p'. rewrite jm_get_delete. destruct (k' =s k) eqn:E; [|by apply Hf].
    apply String.eqb_eq in E as ->. intros _ H. destruct (Ht _ _ Hg) as [_ Hmax]. specialize (Hmax _ _ _ H).
    destruct (decide (h' = h)) as [->|]; [congruence|]. eapply Hs; [exact Hh| |exact H]. lia.
Qed.

(** *** The invariant *)
Section Invariant.
Context (maxConcurrency : Z).
Notation reachable := (reachable maxConcurrency).
Notation Slots := (Slots maxConcurrency).

Definition ticket_ok (sk : list skeleton) (t : Ticket) : Prop :=
  turn_released t = is_ended (phase t)
  /\ (current_settled t = true -> is_ended (phase t) = true)
  /\ (past_turn (phase t) = true -> promise_ok sk (previous t) = true).

Record Inv (q : Queue) : Prop := {
  q_chain : Chain (map bones (tickets q)) (tails q);
  q_tickets : Forall (ticket_ok (map bones (tickets q))) (tickets q);
  q_slots : Slots (map phase (tickets q)) (slotWaiters q) (active q) (queued q);
}.

Lemma settled_promise_bones ts p : settled_promise ts p = promise_ok (map bones ts) p.
Proof. destruct p as [h|]; [|done]. simpl. rewrite list_lookup_fmap. by destruct (ts !! h). Qed.

Lemma map_alter_same {A B} (g : A -> B) f h (xs : list A) :
  (forall x, g (f x) = g x) -> map g (alter f h xs) = map g xs.
Proof.
  intros Hg. apply list_eq. intros i. rewrite !list_lookup_fmap. destruct (decide (i = h)) as [->|Hn].
  - rewrite list_lookup_alter_eq. destruct (xs !! h); simpl; by rewrite ?Hg.
  - by rewrite list_lookup_alter_ne.
Qed.
Lemma map_alter_set {A B} (g : A -> B) f h (xs : list A) y :
  (forall x, xs !! h = Some x -> g (f x) = y) -> map g (alter f h xs) = <[h := y]> (map g xs).
Proof.
  intros Hg. apply list_eq. intros i. rewrite list_lookup_fmap. destruct (decide (i = h)) as [->|Hn].
  - rewrite list_lookup_alter_eq. destruct (xs !! h) as [x|] eqn:E; simpl.
    + rewrite list_lookup_insert_eq, Hg; [done..|]. rewrite length_map. by eapply lookup_lt_Some.
    + symmetry. apply list_lookup_insert_None. by rewrite list_lookup_fmap, E.
  - by rewrite list_lookup_alter_ne, list_lookup_insert_ne, list_lookup_fmap.
Qed.

(** A change of one ticket that keeps key, promises and the order of turns. *)
Lemma inv_change q h f p ws act qd :
  Inv q -> (forall t, bones (f t) = bones t) ->
  (forall t, tickets q !! h = Some t -> phase (f t) = p
     /\ (ticket_ok (map bones (tickets q)) t -> ticket_ok (map bones (tickets q)) (f t))) ->
  Slots (<[h := p]> (map phase (tickets q))) ws act qd ->
  Inv (mkQueue (alter f h (tickets q)) (tails q) ws act qd).
Proof.
  intros [Hc Ht Hs] Hb Hf HS. split; simpl; rewrite ?(map_alter_same bones f h _ Hb).
  - done.
  - apply Forall_alter; [done|]. intros t E Hok. by apply (Hf t E).
  - rewrite (map_alter_set phase f h _ p); [done|]. intros t E. by apply (Hf t E).
Qed.

Lemma phase_at (q : Queue) h t p : tickets q !! h = Some t -> phase t = p -> map phase (tickets q) !! h = Some p.
Proof. intros H <-. by rewrite list_lookup_fmap, H. Qed.

Lemma ok_phase sk t p :
  is_ended (phase t) = false -> is_ended p = false ->
  (past_turn p = true -> promise_ok sk (previous t) = true) -> ticket_ok sk t -> ticket_ok sk (set_phase p t).
Proof. unfold ticket_ok. simpl. intros H1 H2 H3 (Ha & Hb & Hc). rewrite H1 in *. rewrite H2. auto. Qed.

Lemma inv_enqueue k now maxWait sg q : Inv q -> Inv (enqueue k now maxWait sg q).
Proof.
  intros [Hc Ht Hs]. unfold enqueue. split; simpl.
  - rewrite map_app. simpl. unfold bones at 2. simpl. rewrite <- (length_map bones). by apply chain_enqueue.
  - rewrite map_app. apply Forall_app. split.
    + eapply Forall_impl; [exact Ht|]. intros t (H1 & H2 & H3). split_and!; [done|done|].
      intros Hp. specialize (H3 Hp). destruct (previous t) as [h|]; [|done]. simpl in *.
      destruct (map bones (tickets q) !! h) eqn:E; [|done]. by rewrite (lookup_app_l_Some _ _ _ _ E).
    + apply Forall_singleton. unfold ticket_ok; simpl. by destruct (is_aborted sg).
  - rewrite map_app. simpl. set (p := if is_aborted sg then _ else Waiting). destruct Hs as [H1 H2 H3 H4 H5 H6].
    assert (E : holds p = false /\ checks p = false /\ queues p = true /\ p <> Parked).
    { subst p. simpl. by destruct (is_aborted sg). }
    destruct E as (E1 & E2 & E3 & E4). split; rewrite ?count_app, ?count_one, ?E1, ?E2, ?E3; simpl; try lia; [done| |].
    + intros h. rewrite H4, lookup_snoc_some. naive_solver.
    + intros Hne. specialize (H5 Hne). lia.
Qed.

Lemma inv_take_turn h q q' : Inv q -> take_turn h q = Some q' -> Inv q'.
Proof.
  intros HI H. unfold take_turn in H. destruct (tickets q !! h) as [t|] eqn:Et; [|done]. simpl in H.
  destruct (phase t) eqn:Ep; try done. destruct (settled_promise _ _) eqn:Es; [|done]. simplify_eq.
  unfold update, with_tickets. pose proof (phase_at q h t _ Et Ep) as Hph.
  apply (inv_change q h (set_phase Checking) Checking); [done|done| |].
  - intros t' E. split; [done|]. simplify_eq. rewrite settled_promise_bones in Es.
    apply ok_phase; [by rewrite Ep|done|done].
  - pose proof (slots_move _ _ _ _ _ h Waiting Checking (q_slots _ HI) Hph) as HS.
    pose proof (s_bound _ _ _ _ _ (q_slots _ HI)).
    replace (active q) with (active q - 0 + 0) by lia. replace (queued q) with (queued q - 1 + 1) by lia.
    apply HS; simpl; try done; lia.
Qed.

Lemma inv_acquire h q q' : Inv q -> acquireSlot maxConcurrency h q = Some q' -> Inv q'.
Proof.
  intros HI H. unfold acquireSlot in H. destruct (tickets q !! h) as [t|] eqn:Et; [|done]. simpl in H.
  destruct (phase t) eqn:Ep; try done. pose proof (phase_at q h t _ Et Ep) as Hph.
  pose proof (q_slots _ HI) as HS. pose proof (s_bound _ _ _ _ _ HS).
  destruct (Z.ltb_spec (active q) maxConcurrency) as [Ha|Ha]; [|destruct (is_aborted (signal t)) eqn:Ea]; simplify_eq;
    unfold update, with_tickets; cbn [tickets tails slotWaiters active queued].
  - apply (inv_change q h (set_phase Granted) Granted); [done|done| |].
    + intros t' E. split; [done|]. simplify_eq. intros Hok. apply ok_phase; [by rewrite Ep|done| |done].
      intros _. apply Hok. by rewrite Ep.
    + replace (active q + 1) with (active q - 0 + 1) by lia. replace (queued q) with (queued q - 1 + 1) by lia.
      apply (slots_move _ _ _ _ _ h Checking Granted HS Hph); simpl; try done; lia.
  - apply (inv_change q h (set_phase (Rejecting (cancelled_slot (signal t)))) (Rejecting (cancelled_slot (signal t))));
      [done|done| |].
    + intros t' E. split; [done|]. simplify_eq. apply ok_phase; [by rewrite Ep|done|done].
    + replace (active q) with (active q - 0 + 0) by lia. replace (queued q) with (queued q - 1 + 1) by lia.
      apply (slots_move _ _ _ _ _ h Checking (Rejecting (cancelled_slot (signal t))) HS Hph); simpl; try done; lia.
  - apply (inv_change q h (set_phase Parked) Parked); [done|done| |].
    + intros t' E. split; [done|]. simplify_eq. intros Hok. apply ok_phase; [by rewrite Ep|done| |done].
      intros _. apply Hok. by rewrite Ep.
    + by apply slots_park.
Qed.

Lemma ok_finish sk b r t : ticket_ok sk t -> is_ended (phase t) = false -> ticket_ok sk (finish_ticket b r t).
Proof. by unfold ticket_ok. Qed.

Lemma inv_catch h q q' : Inv q -> catch_wait h q = Some q' -> Inv q'.
Proof.
  intros HI H. unfold catch_wait in H. destruct (tickets q !! h) as [t|] eqn:Et; [|done]. simpl in H.
  destruct (phase t) as [| | | | |e|] eqn:Ep; try done. pose proof (phase_at q h t _ Et Ep) as Hph.
  pose proof (q_slots _ HI) as HS. pose proof (s_bound _ _ _ _ _ HS). simplify_eq.
  unfold end_run, update, with_tickets, dequeued; cbn [tickets tails slotWaiters active queued].
  apply (inv_change q h _ (Ended (Err e))); [done|done| |].
  - intros t' E. split; [done|]. simplify_eq. intros Hok. apply ok_finish; [done|by rewrite Ep].
  - replace (active q) with (active q - 0 + 0) by lia. replace (queued q - 1) with (queued q - 1 + 0) by lia.
    apply (slots_move _ _ _ _ _ h (Rejecting e) (Ended (Err e)) HS Hph); simpl; try done; lia.
Qed.

(** The turns do not depend on the slots. *)
Lemma turns_change ts tl h f :
  Chain (map bones ts) tl /\ Forall (ticket_ok (map bones ts)) ts -> (forall t, bones (f t) = bones t) ->
  (forall t, ts !! h = Some t -> ticket_ok (map bones ts) t -> ticket_ok (map bones ts) (f t)) ->
  Chain (map bones (alter f h ts)) tl /\ Forall (ticket_ok (map bones (alter f h ts))) (alter f h ts).
Proof.
  intros [Hc Ht] Hb Hf. rewrite (map_alter_same bones f h _ Hb). split; [done|]. by apply Forall_alter.
Qed.

Lemma holds_open p : holds p = true -> is_ended p = false.
Proof. by destruct p. Qed.

(** The end of a call that holds a slot. *)
Lemma inv_finally q h t p r :
  Inv q -> tickets q !! h = Some t -> phase t = p -> holds p = true ->
  Inv (finally_run h t r
         (mkQueue (tickets q) (tails q) (slotWaiters q) (active q) (queued q - Z.b2z (queues p)))).
Proof.
  intros HI Et Ep Hp. pose proof HI as [Hc Ht HS]. pose proof (phase_at q h t _ Et Ep) as Hph.
  pose proof (slots_release _ _ _ _ _ h p r HS Hph Hp) as HS'.
  unfold finally_run, end_run, update, with_tickets, releaseSlot. cbn [tickets tails slotWaiters active queued].
  destruct (slotWaiters q) as [|w ws] eqn:Ew; cbn [tickets tails slotWaiters active queued tail] in *.
  - destruct (turns_change (tickets q) (tails q) h
      (finish_ticket (bool_decide (jm_get (tails q) (key t) = Some h)) r)) as [H1 H2]; [done|done| |].
    + intros t' E. simplify_eq. intros Hok. apply ok_finish; [done|]. by apply holds_open.
    + split; [done|done|]. simpl. by rewrite (map_alter_set phase _ h _ (Ended r)).
  - assert (Hw : map phase (tickets q) !! w = Some Parked) by (apply (s_parked _ _ _ _ _ HS); left).
    rewrite list_lookup_fmap in Hw. destruct (tickets q !! w) as [tw|] eqn:Etw; [|done]. simpl in Hw.
    assert (Hne : w <> h) by (intros ->; assert (p = Parked) as -> by congruence; done).
    destruct (turns_change (tickets q) (tails q) w (set_phase Checking)) as [H1 H2]; [done|done| |].
    { intros t' E Hok. assert (phase t' = Parked) as Ep' by congruence.
      apply ok_phase; [by rewrite Ep'|done| |done]. intros _. apply Hok. by rewrite Ep'. }
    destruct (turns_change (alter (set_phase Checking) w (tickets q)) (tails q) h
      (finish_ticket (bool_decide (jm_get (tails q) (key t) = Some h)) r)) as [H3 H4]; [done|done| |].
    { intros t' E. rewrite list_lookup_alter_ne in E by done. simplify_eq. intros Hok. apply ok_finish; [done|].
      by apply holds_open. }
    split; [done|done|]. simpl. rewrite (map_alter_set phase _ h _ (Ended r)) by done.
    by rewrite (map_alter_set phase _ w _ Checking).
Qed.

Lemma inv_start h now q q' : Inv q -> start h now q = Some q' -> Inv q'.
Proof.
  intros HI H. unfold start in H. destruct (tickets q !! h) as [t|] eqn:Et; [|done]. simpl in H.
  destruct (phase t) eqn:Ep; try done. pose proof (phase_at q h t _ Et Ep) as Hph.
  pose proof (q_slots _ HI) as HS. pose proof (s_bound _ _ _ _ _ HS).
  pose proof (fun r => inv_finally q h t Granted r HI Et Ep eq_refl) as Hfin.
  destruct (is_aborted (signal t)); [simplify_eq; apply Hfin|].
  destruct (_ <? _); simplify_eq; [apply Hfin|].
  unfold update, with_tickets, dequeued; cbn [tickets tails slotWaiters active queued].
  apply (inv_change q h (set_phase Running) Running); [done|done| |].
  - intros t' E. split; [done|]. simplify_eq. intros Hok. apply ok_phase; [by rewrite Ep|done| |done].
    intros _. apply Hok. by rewrite Ep.
  - replace (active q) with (active q - 1 + 1) by lia. replace (queued q - 1) with (queued q - 1 + 0) by lia.
    apply (slots_move _ _ _ _ _ h Granted Running HS Hph); simpl; try done; lia.
Qed.

Lemma inv_task_ended h r q q' : Inv q -> task_ended h r q = Some q' -> Inv q'.
Proof.
  intros HI H. unfold task_ended in H. destruct (tickets q !! h) as [t|] eqn:Et; [|done]. simpl in H.
  destruct (phase t) eqn:Ep; try done. simplify_eq.
  pose proof (inv_finally q h t Running r HI Et Ep eq_refl) as Hfin. simpl in Hfin. rewrite Z.sub_0_r in Hfin.
  by destruct q.
Qed.

Lemma promise_mono (sk : list skeleton) h k p q :
  sk !! h = Some (k, p, false) -> promise_ok sk q = true -> promise_ok (<[h := (k, p, true)]> sk) q = true.
Proof.
  intros Hh. destruct q as [h'|]; [|done]. simpl. destruct (decide (h' = h)) as [->|Hn].
  - by rewrite list_lookup_insert_eq by (by eapply lookup_lt_Some).
  - by rewrite list_lookup_insert_ne.
Qed.

Lemma inv_settle_current h q q' : Inv q -> settle_current h q = Some q' -> Inv q'.
Proof.
  intros [Hc Ht HS] H. unfold settle_current in H. destruct (tickets q !! h) as [t|] eqn:Et; [|done]. simpl in H.
  destruct (turn_released t) eqn:Er; [|done]. destruct (current_settled t) eqn:Ec; [done|].
  destruct (settled_promise _ _) eqn:Es; [|done]. simplify_eq/=. rewrite settled_promise_bones in Es.
  assert (Hb : map bones (tickets q) !! h = Some (key t, previous t, false)).
  { rewrite list_lookup_fmap, Et. simpl. unfold bones. by rewrite Ec. }
  unfold update, with_tickets. split; simpl; rewrite ?(map_alter_same phase set_settled) by done; [| |done].
  - rewrite (map_alter_set bones _ h _ (key t, previous t, true)); [by apply chain_settle|]. by intros t' [= <-]%(eq_trans (eq_sym Et)).
  - rewrite (map_alter_set bones _ h _ (key t, previous t, true)); [|by intros t' [= <-]%(eq_trans (eq_sym Et))].
    apply Forall_alter.
    + eapply Forall_impl; [exact Ht|]. intros t' (H1 & H2 & H3). split_and!; [done|done|].
      intros Hp. apply promise_mono; auto.
    + intros t' E (H1 & H2 & H3). simplify_eq. split_and!; [done| |done]. intros _. simpl. congruence.
Qed.

Lemma inv_remove_tail h q q' : Inv q -> remove_tail h q = Some q' -> Inv q'.
Proof.
  intros [Hc Ht HS] H. unfold remove_tail in H. destruct (tickets q !! h) as [t|] eqn:Et; [|done]. simpl in H.
  destruct (cleanup t); [|done]. destruct (current_settled t) eqn:Ec; [|done]. simplify_eq/=.
  destruct (turns_change (tickets q) (tails q) h clear_cleanup) as [H1 H2]; [done|done|by intros|].
  split; simpl; [|done|by rewrite (map_alter_same phase clear_cleanup)].
  case_bool_decide as Hg; [|done]. apply (chain_remove _ _ h _ (previous t)); [done| |done].
  rewrite (map_alter_same bones clear_cleanup) by done. rewrite list_lookup_fmap, Et. simpl. unfold bones. by rewrite Ec.
Qed.

Lemma inv_abort h reason q q' : Inv q -> abort h reason q = Some q' -> Inv q'.
Proof.
  intros HI H. unfold abort in H. destruct (tickets q !! h) as [t|] eqn:Et; [|done]. cbn [mbind option_bind] in H.
  destruct (is_aborted (signal t)); [done|]. destruct (signal t); [|done].
  cbv zeta in H. set (sg := mkSignal true reason) in H. pose proof HI as [Hc Ht HS].
  assert (H0 : Chain (map bones (tickets (update h (set_signal sg) q))) (tails q)
               /\ Forall (ticket_ok (map bones (tickets (update h (set_signal sg) q)))) (tickets (update h (set_signal sg) q)))
    by (by apply turns_change).
  assert (Hsig : map phase (tickets (update h (set_signal sg) q)) = map phase (tickets q))
    by (by apply map_alter_same).
  assert (Et' : tickets (update h (set_signal sg) q) !! h = Some (set_signal sg t))
    by (simpl; by rewrite list_lookup_alter_eq, Et).
  set (q1 := update h (set_signal sg) q) in *.
  assert (H1 : Inv q1) by (destruct H0; split; [done|done|]; by rewrite Hsig).
  clearbody q1. clear Hsig. destruct (phase t) eqn:Ep; injection H as <-; try done.
  - pose proof (phase_at q1 h _ Waiting Et' Ep) as Hph. pose proof (q_slots _ H1) as HS1.
    pose proof (s_bound _ _ _ _ _ HS1). unfold update at 1, with_tickets.
    set (p := Rejecting (cancelled_queued (Some sg))). apply (inv_change q1 h (set_phase p) p); [done|done| |].
    + intros t' E. split; [done|]. rewrite Et' in E. simplify_eq. apply ok_phase; [|done|done]. simpl. by rewrite Ep.
    + replace (active q1) with (active q1 - 0 + 0) by lia. replace (queued q1) with (queued q1 - 1 + 1) by lia.
      apply (slots_move _ _ _ _ _ h Waiting p HS1 Hph); simpl; try done; lia.
  - pose proof (phase_at q1 h _ Parked Et' Ep) as Hph. unfold update at 1, with_tickets; cbn [tickets tails active queued].
    set (p := Rejecting (cancelled_slot (Some sg))). apply (inv_change q1 h (set_phase p) p); [done|done| |].
    + intros t' E. split; [done|]. rewrite Et' in E. simplify_eq. apply ok_phase; [|done|done]. simpl. by rewrite Ep.
    + by apply (slots_unpark maxConcurrency _ _ _ _ h _ (q_slots _ H1)).
Qed.

Lemma step_inv e q q' : Inv q -> step maxConcurrency e q = Some q' -> Inv q'.
Proof.
  intros HI H. destruct e; simpl in H.
  - simplify_eq. by apply inv_enqueue.
  - by eapply inv_abort.
  - by eapply inv_take_turn.
  - by eapply inv_acquire.
  - by eapply inv_catch.
  - by eapply inv_start.
  - by eapply inv_task_ended.
  - by eapply inv_settle_current.
  - by eapply inv_remove_tail.
Qed.

Lemma queue_reachable_inv q : reachable q -> Inv q.
Proof.
  induction 1 as [|q e q' Hr IH Hs]; [|by eapply step_inv].
  split; simpl.
  - split; try done; intros; by rewrite lookup_nil in *.
  - constructor.
  - split; [done|apply Z.le_max_l|constructor| |done|done]. intros h. rewrite lookup_nil. split; [|done].
    intros H. by apply not_elem_of_nil in H.
Qed.
End Invariant.

(** *** Every call ends *)
Section Progress.
Context (maxConcurrency : Z).
Notation step := (step maxConcurrency).
Notation Inv := (Inv maxConcurrency).

(** The steps of the event loop and of the tasks, as opposed to new calls and
    aborted signals. *)
Definition internal (e : Step) : bool := match e with Enqueue _ _ _ _ | Abort _ _ => false | _ => true end.

Inductive internal_run : list Step -> Queue -> Queue -> Prop :=
| run_nil q : internal_run [] q q
| run_cons e es q q1 q' :
    internal e = true -> step e q = Some q1 -> internal_run es q1 q' -> internal_run (e :: es) q q'.

Definition phase_weight (p : Phase) : nat :=
  match p with
  | Waiting => 7 | Checking => 6 | Parked => 5 | Granted => 4 | Running => 3 | Rejecting _ => 2 | Ended _ => 0
  end.
Definition weight (t : Ticket) : nat :=
  (phase_weight (phase t) + (if current_settled t then 0 else 1) + (if cleanup t then 1 else 0))%nat.
Definition measure (q : Queue) : nat := sum_list_with weight (tickets q).

Lemma sum_alter {A} (w : A -> nat) f h xs x :
  xs !! h = Some x -> (sum_list_with w (alter f h xs) + w x = sum_list_with w xs + w (f x))%nat.
Proof.
  revert h. induction xs as [|y xs IH]; intros [|h] H; [done..| |].
  - injection H as ->. simpl. lia.
  - specialize (IH h H). change (alter f (S h) (y :: xs)) with (y :: alter f h xs). simpl. lia.
Qed.

Lemma finally_decreases q h t r :
  Inv q -> tickets q !! h = Some t -> holds (phase t) = true ->
  forall qd, (measure (finally_run h t r (mkQueue (tickets q) (tails q) (slotWaiters q) (active q) qd)) < measure q)%nat.
Proof.
  intros HI Et Hh qd. unfold finally_run, end_run, update, with_tickets, releaseSlot, measure. cbn [tickets slotWaiters].
  set (f := finish_ticket _ r).
  assert (Hf : forall t, (weight (f t) <= 1 + (if current_settled t then 0 else 1))%nat).
  { intros t'. unfold f, weight, finish_ticket; simpl. destruct (current_settled t'), (bool_decide _); lia. }
  assert (Hw : (3 + (if current_settled t then 0 else 1) <= weight t)%nat).
  { unfold weight. destruct (phase t); try done; simpl; lia. }
  destruct (slotWaiters q) as [|w ws] eqn:Ew; cbn [tickets tails slotWaiters active queued].
  - pose proof (sum_alter weight f h _ t Et). specialize (Hf t). lia.
  - unfold update, with_tickets. cbn [tickets].
    pose proof (s_parked _ _ _ _ _ (q_slots _ _ HI)) as Hp. specialize (Hp w). rewrite Ew, list_lookup_fmap in Hp.
    destruct (tickets q !! w) as [tw|] eqn:Etw; [|by destruct Hp as [Hp _]; specialize (Hp (list_elem_of_here _ _))].
    assert (Ep : phase tw = Parked) by (apply (inj Some), Hp; left).
    assert (Hne : h <> w) by (intros ->; simplify_eq; by rewrite Ep in Hh).
    pose proof (sum_alter weight (set_phase Checking) w _ tw Etw) as H1.
    assert (E2 : alter (set_phase Checking) w (tickets q) !! h = Some t) by (by rewrite list_lookup_alter_ne).
    pose proof (sum_alter weight f h _ t E2) as H2. specialize (Hf t).
    assert (weight (set_phase Checking tw) = S (weight tw)) by (unfold weight; simpl; by rewrite Ep). lia.
Qed.

Lemma move_decreases q h t p :
  tickets q !! h = Some t -> (phase_weight p < phase_weight (phase t))%nat ->
  (measure (update h (set_phase p) q) < measure q)%nat.
Proof.
  intros Et Hp. unfold measure. simpl. pose proof (sum_alter weight (set_phase p) h _ t Et) as H.
  unfold weight in H at 2 4. simpl in H. lia.
Qed.

Lemma step_decreases e q q' :
  Inv q -> internal e = true -> step e q = Some q' -> (measure q' < measure q)%nat.
Proof.
  intros HI Hi H. destruct e as [| |h|h|h|h now|h r|h|h]; try done; simpl in H;
    unfold take_turn, acquireSlot, catch_wait, start, task_ended, settle_current, remove_tail in H;
    (destruct (tickets q !! h) as [t|] eqn:Et; [|done]); cbn [mbind option_bind] in H.
  - destruct (phase t) eqn:Ep; try done. destruct (settled_promise _ _); simplify_eq.
    apply (move_decreases q h t); [done|]. rewrite Ep. simpl. lia.
  - destruct (phase t) eqn:Ep; try done. injection H as <-. destruct (_ <? _); [|destruct (is_aborted _)];
      apply (move_decreases q h t); try done; rewrite Ep; simpl; lia.
  - destruct (phase t) eqn:Ep; try done. injection H as <-. unfold measure. simpl.
    pose proof (sum_alter weight (finish_ticket (bool_decide (jm_get (tails q) (key t) = Some h)) (Err error)) h _ t Et) as H.
    unfold weight in H at 2 4. simpl in H. rewrite Ep in H. simpl in H. destruct (bool_decide _); lia.
  - destruct (phase t) eqn:Ep; try done. injection H as <-.
    assert (Hh : holds (phase t) = true) by (by rewrite Ep).
    destruct (is_aborted _); [by apply finally_decreases|]. destruct (_ <? _); [by apply finally_decreases|].
    apply (move_decreases (dequeued q) h t); [done|]. rewrite Ep. simpl. lia.
  - destruct (phase t) eqn:Ep; try done. injection H as <-.
    pose proof (finally_decreases q h t r HI Et) as Hd. rewrite Ep in Hd. specialize (Hd eq_refl (queued q)).
    by destruct q.
  - destruct (turn_released t); [|done]. destruct (current_settled t) eqn:Ec; [done|].
    destruct (settled_promise _ _); [|done]. simplify_eq/=. unfold measure. simpl.
    pose proof (sum_alter weight set_settled h _ t Et) as H. unfold weight in H at 2 4. simpl in H. rewrite Ec in H. lia.
  - destruct (cleanup t) eqn:Ecl; [|done]. destruct (current_settled t); [|done]. simplify_eq/=. unfold measure. simpl.
    pose proof (sum_alter weight clear_cleanup h _ t Et) as H. unfold weight in H at 2 4. simpl in H. rewrite Ecl in H. lia.
Qed.

(** An ended call that is still the tail of its key will remove it. *)
Definition Tidy (q : Queue) : Prop :=
  forall h t, tickets q !! h = Some t -> is_ended (phase t) = true ->
    jm_get (tails q) (key t) = Some h -> cleanup t = true.

Lemma tidy_alter (q : Queue) tl ws act qd h f :
  Tidy q ->
  (forall k h', jm_get tl k = Some h' -> jm_get (tails q) k = Some h') ->
  (forall t, tickets q !! h = Some t -> key (f t) = key t /\
     (is_ended (phase (f t)) = true -> jm_get tl (key t) = Some h -> cleanup (f t) = true)) ->
  Tidy (mkQueue (alter f h (tickets q)) tl ws act qd).
Proof.
  intros HT Htl Hf h' t H He Hg. simpl in *. destruct (decide (h' = h)) as [->|Hne].
  - rewrite list_lookup_alter_eq in H. destruct (tickets q !! h) as [t0|] eqn:E; [|done]. simplify_eq/=.
    destruct (Hf t0 eq_refl) as [Hk Hc]. rewrite Hk in Hg. by apply Hc.
  - rewrite list_lookup_alter_ne in H by done. by apply (HT h' t), Htl.
Qed.

Lemma tidy_finally q h t r qd :
  Tidy q -> tickets q !! h = Some t ->
  (forall w, w ∈ slotWaiters q -> map phase (tickets q) !! w = Some Parked) ->
  Tidy (finally_run h t r (mkQueue (tickets q) (tails q) (slotWaiters q) (active q) qd)).
Proof.
  intros HT Et Hp. unfold finally_run, end_run, releaseSlot, update, with_tickets. cbn [tickets tails slotWaiters active queued].
  assert (Hfin : forall (q1 : Queue) ws act, tails q1 = tails q -> Tidy q1 ->
    (forall t', tickets q1 !! h = Some t' -> key t' = key t) ->
    Tidy (mkQueue (alter (finish_ticket (bool_decide (jm_get (tails q) (key t) = Some h)) r) h (tickets q1))
            (tails q) ws act qd)).
  { intros q1 ws act E1 H1 Hk. apply (tidy_alter q1); [done|by rewrite E1|]. intros t' E. split; [done|].
    simpl. intros _ Hg. apply bool_decide_eq_true. by rewrite <- (Hk t' E). }
  destruct (slotWaiters q) as [|w ws]; cbn [tickets tails slotWaiters active queued].
  - refine (Hfin q [] (Z.max 0 (active q - 1)) _ _ _); [done|done|]. intros t' E. congruence.
  - refine (Hfin (mkQueue (alter (set_phase Checking) w (tickets q)) (tails q) ws (active q) qd) ws (Z.max 0 (active q - 1)) _ _ _); [done| |].
    + apply (tidy_alter q); [done|done|]. intros t' E. by split.
    + simpl. intros t' E. destruct (decide (h = w)) as [<-|Hn].
      * rewrite list_lookup_alter_eq, Et in E. by simplify_eq/=.
      * rewrite list_lookup_alter_ne in E by done. congruence.
Qed.

Lemma tidy_update q h f :
  Tidy q -> (forall t, tickets q !! h = Some t -> key (f t) = key t /\ is_ended (phase (f t)) = is_ended (phase t)
               /\ cleanup (f t) = cleanup t) -> Tidy (update h f q).
Proof.
  intros HT Hf. apply (tidy_alter q); [done|done|]. intros t E. destruct (Hf t E) as (H1 & H2 & H3).
  split; [done|]. rewrite H2, H3. intros He Hg. by eapply HT.
Qed.

Lemma tidy_move q h t p :
  Tidy q -> tickets q !! h = Some t -> is_ended (phase t) = false -> is_ended p = false ->
  Tidy (update h (set_phase p) q).
Proof. intros HT E H1 H2. apply tidy_update; [done|]. intros t' E'. simplify_eq. simpl. by rewrite H1, H2. Qed.

Lemma step_tidy e q q' : Inv q -> Tidy q -> step e q = Some q' -> Tidy q'.
Proof.
  intros HI HT H. assert (Hpk := s_parked _ _ _ _ _ (q_slots _ _ HI)).
  destruct e as [k now mw sg|h reason|h|h|h|h now|h r|h|h]; simpl in H.
  { injection H as <-. intros h t H He Hg. simpl in *. apply lookup_snoc_some in H as [H|[-> <-]].
    - rewrite jm_get_set in Hg. destruct (key t =s k) eqn:E; [|by eapply HT].
      apply lookup_lt_Some in H. simplify_eq. lia.
    - simpl in He. by destruct (is_aborted sg). }
  all: unfold abort, take_turn, acquireSlot, catch_wait, start, task_ended, settle_current, remove_tail in H;
    (destruct (tickets q !! h) as [t|] eqn:Et; [|done]); cbn [mbind option_bind] in H.
  - destruct (is_aborted (signal t)); [done|]. destruct (signal t); [|done]. cbv zeta in H.
    set (sg := mkSignal true reason) in H. set (q1 := update h (set_signal sg) q) in H.
    assert (H1 : Tidy q1) by (apply tidy_update; [done|by intros]).
    assert (E1 : tickets q1 !! h = Some (set_signal sg t)) by (simpl; by rewrite list_lookup_alter_eq, Et).
    destruct (phase t) eqn:Ep; injection H as <-; try done;
      (eapply tidy_move; [exact H1|exact E1|simpl; by rewrite Ep|done]).
  - destruct (phase t) eqn:Ep; try done. destruct (settled_promise _ _); simplify_eq.
    eapply tidy_move; [done|done|by rewrite Ep|done].
  - destruct (phase t) eqn:Ep; try done. injection H as <-.
    destruct (_ <? _); [|destruct (is_aborted _)];
      (eapply (tidy_move q h t); [done|done|by rewrite Ep|done]).
  - destruct (phase t) eqn:Ep; try done. injection H as <-. apply (tidy_alter q); [done|done|].
    intros t' E. simplify_eq. split; [done|]. simpl. intros _ Hg. by apply bool_decide_eq_true.
  - destruct (phase t) eqn:Ep; try done. injection H as <-.
    destruct (is_aborted _); [by apply tidy_finally; [..|intros w Hw; apply Hpk]|].
    destruct (_ <? _); [by apply tidy_finally; [..|intros w Hw; apply Hpk]|].
    eapply (tidy_move q h t); [done|done|by rewrite Ep|done].
  - destruct (phase t) eqn:Ep; try done. injection H as <-.
    pose proof (tidy_finally q h t r (queued q) HT Et (fun w => proj1 (Hpk w))). by destruct q.
  - destruct (_ && _); [|done]. injection H as <-. apply tidy_update; [done|by intros].
  - destruct (cleanup t && current_settled t); [|done]. injection H as <-. apply (tidy_alter q); [done|..].
    + intros k h'. case_bool_decide; [|done]. rewrite jm_get_delete. by destruct (k =s key t).
    + intros t' E. simplify_eq. split; [done|]. intros _ Hg. exfalso. revert Hg.
      case_bool_decide as Hb; [|done]. by rewrite jm_get_delete, String.eqb_refl.
Qed.

Lemma reachable_tidy q : reachable maxConcurrency q -> Tidy q.
Proof.
  induction 1 as [|q e q' Hr IH Hs]; [by intros h t|].
  eapply step_tidy; [by apply queue_reachable_inv|done|done].
Qed.

(** *** No call waits for ever *)
Definition quiet (q : Queue) : Prop := forall e, internal e = true -> step e q = None.

Lemma count_zero P ph : (forall h p, ph !! h = Some p -> P p = false) -> count P ph = 0.
Proof.
  unfold count. induction ph as [|x ph IH]; intros H; simpl; [done|].
  rewrite (H 0%nat x eq_refl). apply IH. intros h p Hp. by apply (H (S h)).
Qed.

(** Without a step to take, a call waits for its turn or has ended: a parked call
    would need a slot that is held, or looked for. *)
Lemma quiet_phases q h t :
  1 <= maxConcurrency -> Inv q -> quiet q -> tickets q !! h = Some t ->
  phase t = Waiting \/ is_ended (phase t) = true.
Proof.
  intros Hmax HI Hq. 
  assert (Hfree : forall h t, tickets q !! h = Some t ->
    phase t <> Checking /\ phase t <> Granted /\ phase t <> Running /\ forall e, phase t <> Rejecting e).
  { intros h' t' E. split_and!; [| | |intros e]; intros Ep.
    - specialize (Hq (AcquireSlot h') eq_refl). simpl in Hq. unfold acquireSlot in Hq. rewrite E in Hq. simpl in Hq.
      by rewrite Ep in Hq.
    - specialize (Hq (Start h' 0) eq_refl). simpl in Hq. unfold start in Hq. rewrite E in Hq. simpl in Hq.
      by rewrite Ep in Hq.
    - specialize (Hq (TaskEnded h' (Ok tt)) eq_refl). simpl in Hq. unfold task_ended in Hq. rewrite E in Hq.
      simpl in Hq. by rewrite Ep in Hq.
    - specialize (Hq (CatchWait h') eq_refl). simpl in Hq. unfold catch_wait in Hq. rewrite E in Hq. simpl in Hq.
      by rewrite Ep in Hq. }
  intros Et. destruct (Hfree h t Et) as (H1 & H2 & H3 & H4).
  destruct (phase t) as [| | | | |e|] eqn:Ep; auto; try done; [|by destruct (H4 e)]. exfalso.
  destruct (q_slots _ _ HI) as [Ha _ _ Hp Hw _].
  assert (Hin : h ∈ slotWaiters q) by (apply Hp; by eapply phase_at).
  specialize (Hw ltac:(intros E; rewrite E in Hin; by apply not_elem_of_nil in Hin)).
  rewrite Ha, !count_zero in Hw; [lia|..]; intros h' p; rewrite list_lookup_fmap; intros (t' & E & ->)%fmap_Some.
  all: destruct (Hfree h' t' E) as (? & ? & ? & ?); by destruct (phase t').
Qed.

(** Then every call has ended and settled its promise, in the order of the queue. *)
Lemma quiet_settled q h t :
  1 <= maxConcurrency -> Inv q -> quiet q -> tickets q !! h = Some t ->
  is_ended (phase t) = true /\ current_settled t = true.
Proof.
  intros Hmax HI Hq. revert t. induction h as [h IH] using lt_wf_ind. intros t Et.
  assert (Hprev : settled_promise (tickets q) (previous t) = true).
  { destruct (previous t) as [p|] eqn:Ep; [|done]. simpl.
    assert (Hb : map bones (tickets q) !! h = Some (key t, Some p, current_settled t))
      by (rewrite list_lookup_fmap, Et; unfold bones; simpl; by rewrite Ep).
    destruct (c_prev _ _ (q_chain _ _ HI) _ _ _ _ Hb) as (Hlt & (pp & b & Hp) & _).
    rewrite list_lookup_fmap in Hp. destruct (tickets q !! p) as [tp|] eqn:E; [|done]. by apply (IH p Hlt). }
  destruct (quiet_phases q h t Hmax HI Hq Et) as [Ep|He].
  - specialize (Hq (TakeTurn h) eq_refl). simpl in Hq. unfold take_turn in Hq. rewrite Et in Hq. simpl in Hq.
    by rewrite Ep, Hprev in Hq.
  - split; [done|]. destruct (current_settled t) eqn:Ec; [done|].
    specialize (Hq (SettleCurrent h) eq_refl). simpl in Hq. unfold settle_current in Hq. rewrite Et in Hq. simpl in Hq.
    assert (Hr : turn_released t = true).
    { pose proof (q_tickets _ _ HI) as Hall. rewrite Forall_lookup in Hall. destruct (Hall h t Et) as (-> & _). done. }
    by rewrite Hr, Ec, Hprev in Hq.
Qed.

Lemma quiet_tails q k : 1 <= maxConcurrency -> Inv q -> Tidy q -> quiet q -> jm_get (tails q) k = None.
Proof.
  intros Hmax HI HT Hq. destruct (jm_get (tails q) k) as [h|] eqn:E; [|done]. exfalso.
  destruct (c_tail _ _ (q_chain _ _ HI) _ _ E) as [(p & b & Hb) _].
  rewrite list_lookup_fmap in Hb. destruct (tickets q !! h) as [t|] eqn:Et; [|done]. simpl in Hb.
  unfold bones in Hb. injection Hb as Hk _ _. subst k.
  destruct (quiet_settled q h t Hmax HI Hq Et) as [He Hc].
  specialize (Hq (RemoveTail h) eq_refl). simpl in Hq. unfold remove_tail in Hq. rewrite Et in Hq. simpl in Hq.
  by rewrite (HT h t Et He E), Hc in Hq.
Qed.

Lemma run_inv es q q' :
  Inv q -> Tidy q -> internal_run es q q' ->
  Inv q' /\ Tidy q' /\ (length es + measure q' <= measure q)%nat.
Proof.
  intros HI HT H. induction H as [q|e es q q1 q' Hi Hs _ IH]; [split_and!; [done|done|simpl; lia]|].
  destruct IH as (H1 & H2 & H3); [by eapply step_inv|by eapply step_tidy|].
  split_and!; [done|done|]. pose proof (step_decreases _ _ _ HI Hi Hs). simpl. lia.
Qed.

Lemma measure_bound q : (measure q <= 9 * length (tickets q))%nat.
Proof.
  unfold measure. induction (tickets q) as [|t ts IH]; simpl; [lia|].
  assert (weight t <= 9)%nat by (unfold weight; destruct (phase t), (current_settled t), (cleanup t); simpl; lia). lia.
Qed.
End Progress.

(** *** Properties *)
Section Properties.
Context (maxConcurrency : Z).

(** C17.  Turns and slots.  Of two operations of the same key the later one leaves
    its wait only after the earlier one has ended, so the operations of a key run
    one at a time and in the order of their calls; and never more than
    [maxConcurrency] operations hold a slot. *)
Theorem queue_exclusive q :
  reachable maxConcurrency q ->
  (forall h1 h2 t1 t2, (h1 < h2)%nat -> tickets q !! h1 = Some t1 -> tickets q !! h2 = Some t2 ->
     key t1 = key t2 -> past_turn (phase t2) = true -> is_ended (phase t1) = true)
  /\ count holds (map phase (tickets q)) <= Z.max 0 maxConcurrency.
Proof.
  intros H%queue_reachable_inv. destruct H as [Hc Ht HS]. split.
  - intros h1 h2 t1 t2 Hlt E1 E2 Hk Hp. rewrite Forall_lookup in Ht.
    destruct (Ht h2 t2 E2) as (_ & _ & Hpr). destruct (Ht h1 t1 E1) as (_ & Hend & _). apply Hend.
    destruct (current_settled t1) eqn:Ec; [done|]. exfalso.
    refine (chain_turn _ _ h2 (key t2) (previous t2) (current_settled t2) h1 (previous t1) Hc _ (Hpr Hp) Hlt _).
    + by rewrite list_lookup_fmap, E2.
    + rewrite list_lookup_fmap, E1. simpl. unfold bones. by rewrite Ec, Hk.
  - rewrite <- (s_active _ _ _ _ _ HS). apply HS.
Qed.

(** C18.  No call waits for ever: whatever the order of the steps, at most nine
    steps for each call can be taken, a task that ends being one; and when none is
    left every call has ended, with its result or an error, the counters are back
    at zero and no key is remembered. *)
Theorem queue_drains q es q' :
  1 <= maxConcurrency -> reachable maxConcurrency q -> internal_run maxConcurrency es q q' ->
  (length es <= 9 * length (tickets q))%nat
  /\ (quiet maxConcurrency q' ->
      Forall (fun t => is_ended (phase t) = true) (tickets q')
      /\ active q' = 0 /\ queued q' = 0 /\ forall k, jm_get (tails q') k = None).
Proof.
  intros Hmax Hr Hrun.
  destruct (run_inv _ _ _ _ (queue_reachable_inv _ _ Hr) (reachable_tidy _ _ Hr) Hrun) as (HI & HT & Hm).
  split; [pose proof (measure_bound q); lia|]. intros Hq.
  assert (Hend : forall h t, tickets q' !! h = Some t -> is_ended (phase t) = true)
    by (intros h t E; by apply (quiet_settled _ _ _ _ Hmax HI Hq E)).
  assert (Hz : forall P : Phase -> bool, (forall r, P (Ended r) = false) -> count P (map phase (tickets q')) = 0).
  { intros P HP. apply count_zero. intros h p. rewrite list_lookup_fmap. intros (t & E & ->)%fmap_Some.
    specialize (Hend h t E). destruct (phase t); try done. }
  destruct (q_slots _ _ HI) as [Ha _ _ _ _ Hqd]. split_and!.
  - by apply Forall_lookup.
  - by rewrite Ha, Hz.
  - by rewrite Hqd, Hz.
  - intros k. by eapply quiet_tails.
Qed.
End Properties.

(** *** A concrete queue *)
Module Trial.
Fixpoint play (max : Z) (es : list Step) (q : Queue) : option Queue :=
  match es with
  | [] => Some q
  | e :: es => q1 ← step max e q; play max es q1
  end.
Lemma play_reachable max es q q' : reachable max q -> play max es q = Some q' -> reachable max q'.
Proof.
  revert q. induction es as [|e es IH]; simpl; intros q H E; [by simplify_eq|].
  destruct (step max e q) as [q1|] eqn:Es; [|done]. simpl in E. eapply IH; [|exact E]. by econstructor.
Qed.
Lemma play_internal max es q q' :
  forallb internal es = true -> play max es q = Some q' -> internal_run max es q q'.
Proof.
  revert q. induction es as [|e es IH]; simpl; intros q H E; [simplify_eq; constructor|].
  apply andb_true_iff in H as [He Hes]. destruct (step max e q) as [q1|] eqn:Es; [|done].
  econstructor; [done|done|]. by apply IH.
Qed.

(** Two operations of one tab and one of another, with one slot: the third parks
    while the first runs, and the second waits for its turn. *)
Definition calls : list Step :=
  [Enqueue "tab:1" 0 1000 None; Enqueue "tab:1" 1 1000 None; Enqueue "tab:2" 2 1000 (Some (mkSignal false None));
   TakeTurn 0; AcquireSlot 0; Start 0 5; TakeTurn 2; AcquireSlot 2].
Definition rest : list Step :=
  [TaskEnded 0 (Ok tt); SettleCurrent 0; TakeTurn 1; AcquireSlot 2; AcquireSlot 1; Start 2 6;
   TaskEnded 2 (Ok tt); AcquireSlot 1; Start 1 2000; SettleCurrent 2; RemoveTail 2; SettleCurrent 1; RemoveTail 1].
Definition busy : Queue := default empty_queue (play 1 calls empty_queue).
Definition drained : Queue := default empty_queue (play 1 rest busy).

Example busy_phases : map phase (tickets busy) = [Running; Waiting; Parked].
Proof. vm_compute. reflexivity. Qed.
(** The second one waited longer than it accepts. *)
Example drained_phases :
  map phase (tickets drained) =
    [Ended (Ok tt); Ended (throw BROWSER_WORKER_TIMEOUT
       "Browser operation expired while waiting for the shared browser session."); Ended (Ok tt)].
Proof. vm_compute. reflexivity. Qed.

Lemma busy_reachable : reachable 1 busy.
Proof. eapply (play_reachable 1 calls empty_queue); [constructor|]. vm_compute. reflexivity. Qed.

(** When the first operation has ended the second may take its turn. *)
Definition handed : Queue := default empty_queue (play 1 [TaskEnded 0 (Ok tt); SettleCurrent 0; TakeTurn 1] busy).
Lemma handed_reachable : reachable 1 handed.
Proof.
  eapply (play_reachable 1 [TaskEnded 0 (Ok tt); SettleCurrent 0; TakeTurn 1] busy); [exact busy_reachable|].
  vm_compute. reflexivity.
Qed.

Lemma queue_exclusive_witness :
  (exists t, tickets handed !! 0%nat = Some t /\ is_ended (phase t) = true)
  /\ count holds (map phase (tickets handed)) <= 1.
Proof.
  destruct (queue_exclusive 1 handed handed_reachable) as [H1 H2]. split; [|exact H2].
  eexists. split; [vm_compute; reflexivity|].
  eapply (H1 0%nat 1%nat); [lia|vm_compute; reflexivity..].
Defined.

Lemma queue_drains_witness :
  (length rest <= 27)%nat /\ active drained = 0 /\ jm_get (tails drained) "tab:1" = None.
Proof.
  destruct (queue_drains 1 busy rest drained) as [H1 H2]; [lia|exact busy_reachable| |].
  - apply play_internal; vm_compute; reflexivity.
  - split; [exact H1|]. destruct H2 as (_ & H3 & _ & H4); [|by split].
    intros e He. destruct e as [| |h|h|h|h now|h r|h|h]; try done; destruct h as [|[|[|h]]]; vm_compute; reflexivity.
Defined.
End Trial.
End OperationQueue.
