(* ===== verification/JsDate.v ===== *)
(** [new Date(t).toISOString()]: the proleptic Gregorian calendar on epoch milliseconds. *)
From Stdlib Require Import DecimalString.
From S2P Require Import Prelude JsString.
Open Scope Z_scope.

(** A number in decimal, with leading zeros up to a width. *)
Definition decimal_text (n : Z) : string := NilZero.string_of_uint (N.to_uint (Z.to_N n)).
Fixpoint zeros (n : nat) : string := match n with O => EmptyString | S n => String "0" (zeros n) end.
Definition padded (width : nat) (n : Z) : string :=
  let t := decimal_text n in zeros (width - String.length t) +:+ t.

(** Year, month and day of a day number counted from 1970-01-01. *)
Definition civil_from_days (days : Z) : Z * Z * Z :=
  let z := days + 719468 in
  let era := z / 146097 in
  let doe := z mod 146097 in
  let yoe := (doe - doe / 1460 + doe / 36524 - doe / 146096) / 365 in
  let doy := doe - (365 * yoe + yoe / 4 - yoe / 100) in
  let mp := (5 * doy + 2) / 153 in
  let d := doy - (153 * mp + 2) / 5 + 1 in
  let m := if mp <? 10 then mp + 3 else mp - 9 in
  (yoe + era * 400 + (if m <=? 2 then 1 else 0), m, d).

Definition year_text (y : Z) : string :=
  if (0 <=? y) && (y <=? 9999) then padded 4 y
  else if y <? 0 then "-" +:+ padded 6 (- y) else "+" +:+ padded 6 y.

Definition toISOString (t : Z) : string :=
  let '(y, m, d) := civil_from_days (t / 86400000) in
  let ms := t mod 86400000 in
  year_text y +:+ "-" +:+ padded 2 m +:+ "-" +:+ padded 2 d +:+ "T" +:+ padded 2 (ms / 3600000) +:+ ":"
  +:+ padded 2 (ms / 60000 mod 60) +:+ ":" +:+ padded 2 (ms / 1000 mod 60) +:+ "." +:+ padded 3 (ms mod 1000) +:+ "Z".

Example iso_epoch : toISOString 0 = "1970-01-01T00:00:00.000Z".
Proof. vm_compute. reflexivity. Qed.
Example iso_leap_day : toISOString 1709251199999 = "2024-02-29T23:59:59.999Z".
Proof. vm_compute. reflexivity. Qed.
Example iso_before_epoch : toISOString (-1) = "1969-12-31T23:59:59.999Z".
Proof. vm_compute. reflexivity. Qed.
