(* ===== verification/Json.v ===== *)
(** JavaScript values as JSON texts: [canonicalJson] of packages/mcp-core/src/browser-idempotency.ts with
    the fingerprints made of it, and the argument digests of packages/mcp-core/src/typed-confirmation.ts.

    Numbers are an interface: the language writes a finite number as a text that determines
    it ([JsNumberLaws]; [-0] and [0] are one number here, as they are in JSON).  SHA-256 is
    a parameter. *)
From Stdlib Require Import DecimalString DecimalZ Sorted.
From S2P Require Import Prelude Errors JsString.

Class JsNumber := {
  number : Type;
  isFinite : number -> bool;
  number_text : number -> string;
}.

(** The characters of the text of a finite number. *)
Definition number_char (c : ascii) : bool :=
  let n := char_code c in (48 <=? n)%N && (n <=? 57)%N || has_char c "+-.e".

Class JsNumberLaws (JN : JsNumber) := {
  number_text_inj : forall n m, isFinite n = true -> isFinite m = true -> number_text n = number_text m -> n = m;
  number_text_chars : forall n, isFinite n = true ->
    sempty (number_text n) = false /\ sforall number_char (number_text n) = true;
}.

(** Whole numbers, in decimal. *)
#[export] Instance whole_numbers : JsNumber := {|
  number := Z;
  isFinite := fun _ => true;
  number_text := fun z => NilZero.string_of_int (Z.to_int z);
|}.

Section Values.
Context `{JN : JsNumber}.

(** A value: [VObject] has its own enumerable entries, in their order, and whether its prototype is that
    of plain objects (or none); [VOther] is a function, a symbol or a big integer, by its [typeof]. *)
Inductive value :=
  | VUndefined
  | VNull
  | VBool (b : bool)
  | VNumber (n : number)
  | VString (s : string)
  | VArray (vs : list value)
  | VObject (plain : bool) (es : list (string * value))
  | VOther (kind : string).

Definition is_undefined (v : value) : bool := match v with VUndefined => true | _ => false end.

(** Induction through arrays and objects. *)
Fixpoint value_ind' (P : value -> Prop)
    (Hu : P VUndefined) (Hn : P VNull) (Hb : forall b, P (VBool b)) (Hm : forall n, P (VNumber n))
    (Hs : forall s, P (VString s)) (Ha : forall vs, Forall P vs -> P (VArray vs))
    (Ho : forall p es, Forall (fun e => P e.2) es -> P (VObject p es)) (Hx : forall k, P (VOther k))
    (v : value) : P v :=
  match v with
  | VUndefined => Hu | VNull => Hn | VBool b => Hb b | VNumber n => Hm n | VString s => Hs s
  | VArray vs =>
      Ha vs ((fix go vs := match vs return Forall P vs with
              | [] => List.Forall_nil P
              | v :: vs => @List.Forall_cons value P v vs (value_ind' P Hu Hn Hb Hm Hs Ha Ho Hx v) (go vs)
              end) vs)
  | VObject p es =>
      Ho p es ((fix go es := match es return Forall (fun e => P e.2) es with
                | [] => List.Forall_nil _
                | e :: es => @List.Forall_cons _ (fun e => P e.2) e es (value_ind' P Hu Hn Hb Hm Hs Ha Ho Hx e.2) (go es)
                end) es)
  | VOther k => Hx k
  end.

(** *** Strings in JSON *)
Definition hex_digit (n : N) : ascii := ascii_of_N (if (n <? 10)%N then 48 + n else 87 + n)%N.
(** One character of [JSON.stringify] of a string. *)
Definition json_char (c : ascii) : string :=
  if c =c DQ then String BSL (str1 DQ)
  else if c =c BSL then String BSL (str1 BSL)
  else
    let n := char_code c in
    if (n =? 8)%N then "\b" else if (n =? 12)%N then "\f" else if c =c LF then "\n"
    else if c =c CR then "\r" else if (n =? 9)%N then "\t"
    else if (n <? 32)%N then "\u00" +:+ String (hex_digit (n / 16)%N) (str1 (hex_digit (n mod 16)%N))
    else str1 c.
Fixpoint json_chars (s : string) : string :=
  match s with EmptyString => EmptyString | String c s => json_char c +:+ json_chars s end.
Definition json_string (s : string) : string := String DQ (json_chars s +:+ str1 DQ).

(** *** Canonical texts *)
(** [(left < right ? -1 : left > right ? 1 : 0)], stable. *)
Fixpoint insert_entry {A} (e : string * A) (es : list (string * A)) : list (string * A) :=
  match es with
  | [] => [e]
  | x :: rest => if String.leb x.1 e.1 then x :: insert_entry e rest else e :: es
  end.
Definition sort_entries {A} (es : list (string * A)) : list (string * A) :=
  fold_left (fun sorted e => insert_entry e sorted) es [].

(** Texts in order, or the first exception. *)
Fixpoint collect {A} (rs : list (result exn A)) : result exn (list A) :=
  match rs with
  | [] => Ok []
  | r :: rs => a ← r; l ← collect rs; Ok (a :: l)
  end.

Fixpoint canonicalJson (v : value) : result exn string :=
  match v with
  | VNull | VUndefined => Ok "null"%string
  | VString s => Ok (json_string s)
  | VBool b => Ok (if b then "true" else "false")%string
  | VNumber n => if isFinite n then Ok (number_text n) else Err (Native "TypeError")
  | VArray vs => texts ← collect (map canonicalJson vs); Ok ("[" +:+ join "," texts +:+ "]")
  | VObject _ es =>
      let entries := sort_entries
        (List.filter (fun e => negb (is_undefined e.2.1)) (map (fun e => (e.1, (e.2, canonicalJson e.2))) es)) in
      texts ← collect (map (fun e => t ← e.2.2; Ok (json_string e.1 +:+ ":" +:+ t)) entries);
      Ok ("{" +:+ join "," texts +:+ "}")
  | VOther _ => Err (Native "TypeError")
  end.

Section Fingerprints.
Context (sha256 : string -> string).

Definition createBrowserOperationFingerprint (operation : string) (input : value) : result exn string :=
  text ← canonicalJson (VObject true [("operation"%string, VString operation); ("input"%string, input)]);
  Ok (sha256 text).
Definition BROWSER_IDEMPOTENCY_VERSION : string := "browser-v2".
Definition createBrowserIdempotencyKey (invocationId fingerprint : string) : string :=
  sha256 (BROWSER_IDEMPOTENCY_VERSION +:+ String NUL (invocationId +:+ String NUL fingerprint)).

(** *** The digest of confirmed arguments *)
Fixpoint contains (s w : string) : bool :=
  startsWith s w || match s with EmptyString => false | String _ s => contains s w end.
Definition is_key_char (c : ascii) : bool :=
  let n := char_code c in ((97 <=? n) && (n <=? 122) || (48 <=? n) && (n <=? 57))%N.
Fixpoint keep_chars (f : ascii -> bool) (s : string) : string :=
  match s with
  | EmptyString => EmptyString
  | String c s => if f c then String c (keep_chars f s) else keep_chars f s
  end.
Definition normalizeSensitiveKey (key : string) : string := keep_chars is_key_char (toLowerCase key).
Definition isSensitiveFieldKey (key : string) : bool :=
  contains key "authorization" || (key =s "token") || endsWith key "token" || contains key "credential"
  || contains key "password" || contains key "secret" || endsWith key "apikey" || contains key "privatekey".

(** [result[key] = value] on a new object: the key [__proto__] sets the prototype and makes no entry. *)
Definition define_entry (key : string) (v : value) (es : list (string * value)) : list (string * value) :=
  if key =s "__proto__" then es else (key, v) :: es.

Fixpoint removeEphemeralAndRejectSensitive (v : value) : result exn value :=
  match v with
  | VArray vs => l ← collect (map removeEphemeralAndRejectSensitive vs); Ok (VArray l)
  | VObject plain es =>
      if negb plain then Err (Native "TypeError")
      else
        l ← (fix go (es : list (string * value)) : result exn (list (string * value)) :=
               match es with
               | [] => Ok []
               | e :: es =>
                   let key := normalizeSensitiveKey e.1 in
                   if key =s "confirmationid" then go es
                   else if isSensitiveFieldKey key then Err (Native "TypeError")
                   else
                     v ← removeEphemeralAndRejectSensitive e.2;
                     l ← go es;
                     Ok (define_entry e.1 v l)
               end) es;
        Ok (VObject true l)
  | _ => Ok v
  end.

Definition canonicalSourceControlArgumentsDigest (v : value) : result exn string :=
  canonicalValue ← removeEphemeralAndRejectSensitive v;
  text ← canonicalJson canonicalValue;
  Ok (sha256 text).
End Fingerprints.
End Values.

(** *** Sorting entries *)
Lemma leb_trans a b c : String.leb a b = true -> String.leb b c = true -> String.leb a c = true.
Proof.
  unfold String.leb. revert b c. induction a as [|x a IH]; intros [|y b] [|z c]; cbn [String.compare]; try done.
  unfold Ascii.compare. destruct (N.compare_spec (N_of_ascii x) (N_of_ascii y)) as [E1|E1|E1];
    destruct (N.compare_spec (N_of_ascii y) (N_of_ascii z)) as [E2|E2|E2]; try done;
    destruct (N.compare_spec (N_of_ascii x) (N_of_ascii z)) as [E3|E3|E3]; try done; try lia. apply IH.
Qed.

Section Sorting.
Context {A : Type}.
Implicit Types es : list (string * A).
Definition entry_le (x y : string * A) : Prop := String.leb x.1 y.1 = true.

Lemma insert_entry_perm e es : insert_entry e es ≡ₚ e :: es.
Proof.
  induction es as [|x es IH]; simpl; [done|]. destruct (String.leb _ _); [|done]. rewrite IH. apply Permutation_swap.
Qed.
Lemma insert_entry_sorted e es : StronglySorted entry_le es -> StronglySorted entry_le (insert_entry e es).
Proof.
  induction es as [|x es IH]; simpl; intros Hs; [repeat constructor|].
  inversion Hs as [|? ? Hs' Hx]; subst. destruct (String.leb x.1 e.1) eqn:E.
  - constructor; [by apply IH|]. rewrite insert_entry_perm. by constructor.
  - assert (entry_le e x) as Hex by (destruct (String.leb_total e.1 x.1); [done|congruence]).
    constructor; [done|]. constructor; [done|]. eapply Forall_impl; [exact Hx|]. intros y. by apply leb_trans.
Qed.
Lemma insert_entry_last e es : Forall (fun x => entry_le x e) es -> insert_entry e es = es ++ [e].
Proof. induction 1 as [|x es Hx _ IH]; simpl; [done|]. unfold entry_le in Hx. by rewrite Hx, IH. Qed.

Lemma sort_entries_perm es : sort_entries es ≡ₚ es.
Proof.
  unfold sort_entries. rewrite <- (app_nil_r es) at 2. generalize (@nil (string * A)) as acc.
  induction es as [|e es IH]; intros acc; simpl; [done|].
  rewrite IH, insert_entry_perm. symmetry. apply Permutation_middle.
Qed.
Lemma sort_entries_sorted es : StronglySorted entry_le (sort_entries es).
Proof.
  unfold sort_entries. assert (StronglySorted entry_le (@nil (string * A))) as H by constructor.
  revert H. generalize (@nil (string * A)) as acc. induction es as [|e es IH]; intros acc H; simpl; [done|].
  by apply IH, insert_entry_sorted.
Qed.
(** A sorted list is left as it is. *)
Lemma sort_entries_id es : StronglySorted entry_le es -> sort_entries es = es.
Proof.
  unfold sort_entries. change es with ([] ++ es) at 1 3. generalize (@nil (string * A)) as acc.
  induction es as [|e es IH]; intros acc H; simpl; [by rewrite app_nil_r|].
  assert (Forall (fun x => entry_le x e) acc) as Hl.
  { clear IH. induction acc as [|x acc IHa]; [constructor|]. inversion H as [|? ? Hs Hx]; subst.
    constructor; [|by apply IHa]. rewrite Forall_forall in Hx. apply Hx, elem_of_app. right. left. }
  rewrite (insert_entry_last e acc Hl), (IH (acc ++ [e])); [by rewrite <- app_assoc|by rewrite <- app_assoc].
Qed.
End Sorting.

(** Sorting looks at the keys only. *)
Lemma sort_entries_map {A B} (f : A -> B) (es : list (string * A)) :
  sort_entries (map (fun e => (e.1, f e.2)) es) = map (fun e => (e.1, f e.2)) (sort_entries es).
Proof.
  assert (Hi : forall e es, insert_entry (e.1, f e.2) (map (fun e => (e.1, f e.2)) es)
                            = map (fun e => (e.1, f e.2)) (insert_entry e es)).
  { intros e l. induction l as [|x l IH]; simpl; [done|]. rewrite IH. by destruct (String.leb _ _). }
  unfold sort_entries. change (@nil (string * B)) with (map (fun e => (e.1, f e.2)) (@nil (string * A))).
  generalize (@nil (string * A)) as acc. induction es as [|e es IH]; intros acc; simpl; [done|]. by rewrite Hi, IH.
Qed.

(** *** Reading a JSON string back *)
(** The character that a text begins with, and what follows it. *)
Definition unhex (c : ascii) : N := let n := char_code c in (if n <? 58 then n - 48 else n - 87)%N.
Definition decode_char (t : string) : option (ascii * string) :=
  match t with
  | EmptyString => None
  | String c t =>
      if c =c DQ then None
      else if negb (c =c BSL) then Some (c, t)
      else
        match t with
        | String "u" (String _ (String _ (String h (String l t)))) =>
            Some (ascii_of_N (unhex h * 16 + unhex l), t)
        | String "b" t => Some (ascii_of_N 8, t)
        | String "f" t => Some (ascii_of_N 12, t)
        | String "n" t => Some (LF, t)
        | String "r" t => Some (CR, t)
        | String "t" t => Some (ascii_of_N 9, t)
        | String c t => Some (c, t)
        | EmptyString => None
        end
  end.
Lemma decode_json_char c t : decode_char (json_char c +:+ t) = Some (c, t).
Proof. destruct c as [[] [] [] [] [] [] [] []]; vm_compute; reflexivity. Qed.

Lemma json_chars_prefix s s' x y :
  json_chars s +:+ String DQ x = json_chars s' +:+ String DQ y -> s = s' /\ x = y.
Proof.
  revert s'. induction s as [|c s IH]; intros [|c' s'] H; cbn [json_chars] in H.
  - by injection H as ->.
  - exfalso. rewrite sapp_assoc in H. apply (f_equal decode_char) in H. by rewrite decode_json_char in H.
  - exfalso. rewrite sapp_assoc in H. apply (f_equal decode_char) in H. by rewrite decode_json_char in H.
  - rewrite !sapp_assoc in H. apply (f_equal decode_char) in H. rewrite !decode_json_char in H.
    injection H as -> H. apply IH in H as [-> ->]. done.
Qed.
Lemma json_string_prefix s s' x y : json_string s +:+ x = json_string s' +:+ y -> s = s' /\ x = y.
Proof.
  unfold json_string. cbn [String.append]. intros H. injection H as H. rewrite !sapp_assoc in H.
  by apply json_chars_prefix in H.
Qed.

Lemma run_prefix f s s' x y :
  sforall f s = true -> sforall f s' = true ->
  (forall c r, x = String c r -> f c = false) -> (forall c r, y = String c r -> f c = false) ->
  s +:+ x = s' +:+ y -> s = s' /\ x = y.
Proof.
  unfold sforall. revert s'. induction s as [|c s IH]; intros [|c' s'] Hs Hs' Hx Hy H; cbn in *.
  - done.
  - subst x. specialize (Hx _ _ eq_refl). rewrite Hx in Hs'. done.
  - subst y. specialize (Hy _ _ eq_refl). rewrite Hy in Hs. done.
  - injection H as -> H. apply negb_true_iff, orb_false_iff in Hs as [_ Hs]. apply negb_true_iff, orb_false_iff in Hs' as [_ Hs'].
    destruct (IH s') as [-> ->]; try done; by apply negb_true_iff.
Qed.

(** *** Canonical texts determine values *)
Lemma collect_ok {A} (rs : list (result exn A)) l : collect rs = Ok l <-> Forall2 (fun r a => r = Ok a) rs l.
Proof.
  revert l. induction rs as [|r rs IH]; intros l; cbn [collect].
  - split; [intros [= <-]; constructor|]. intros H. by inversion H.
  - rewrite bind_ok. setoid_rewrite bind_ok. split.
    + intros (a & Ha & l' & Hl & [= <-]). constructor; [done|by apply IH].
    + intros H. inversion H as [|? a ? l' Ha Hl]; subst. exists a. split; [done|]. exists l'. split; [by apply IH|done].
Qed.

Section Canonical.
Context `{JN : JsNumber} {JL : JsNumberLaws JN}.

(** What JSON keeps of a value: no [undefined], plain objects, entries in the order of their keys. *)
Fixpoint normalize (v : value) : value :=
  match v with
  | VUndefined => VNull
  | VArray vs => VArray (map normalize vs)
  | VObject _ es =>
      VObject true (map (fun e => (e.1, e.2.2)) (sort_entries
        (List.filter (fun e => negb (is_undefined e.2.1)) (map (fun e => (e.1, (e.2, normalize e.2))) es))))
  | _ => v
  end.

(** The entries that are written, in order. *)
Definition written (es : list (string * value)) : list (string * value) :=
  sort_entries (List.filter (fun e => negb (is_undefined e.2)) es).
Definition entry_text (e : string * value) : result exn string :=
  t ← canonicalJson e.2; Ok (json_string e.1 +:+ ":" +:+ t).

Lemma written_with {B} (f : value -> B) es :
  sort_entries (List.filter (fun e : string * (value * B) => negb (is_undefined e.2.1))
                  (map (fun e => (e.1, (e.2, f e.2))) es))
  = map (fun e => (e.1, (e.2, f e.2))) (written es).
Proof.
  unfold written. rewrite <- (sort_entries_map (fun v => (v, f v))). f_equal.
  induction es as [|e es IH]; simpl; [done|]. rewrite IH. by destruct (is_undefined e.2).
Qed.

Lemma canonical_object p es :
  canonicalJson (VObject p es)
  = texts ← collect (map entry_text (written es)); Ok ("{" +:+ join "," texts +:+ "}").
Proof. cbn [canonicalJson]. rewrite written_with, map_map. done. Qed.
Lemma normalize_object p es :
  normalize (VObject p es) = VObject true (map (fun e => (e.1, normalize e.2)) (written es)).
Proof. cbn [normalize]. rewrite written_with, map_map. done. Qed.

Lemma written_forall (P : string * value -> Prop) es : Forall P es -> Forall P (written es).
Proof.
  intros H. unfold written. rewrite sort_entries_perm. induction H as [|e es He _ IH]; simpl; [constructor|].
  destruct (negb _); [by constructor|done].
Qed.

(** What follows an element is no part of a number. *)
Definition closing (x : string) : Prop := forall c r, x = String c r -> number_char c = false.

(** The kind of a value, and the kind that the first character of a text tells. *)
Inductive kind := knull | kbool | knumber | kstring | karray | kobject.
Definition kind_of (v : value) : option kind :=
  match v with
  | VUndefined | VNull => Some knull | VBool _ => Some kbool | VNumber _ => Some knumber | VString _ => Some kstring
  | VArray _ => Some karray | VObject _ _ => Some kobject | VOther _ => None
  end.
Definition kind_of_char (c : ascii) : option kind :=
  if number_char c then Some knumber
  else if c =c "n"%char then Some knull
  else if (c =c "t"%char) || (c =c "f"%char) then Some kbool
  else if c =c DQ then Some kstring
  else if c =c "["%char then Some karray
  else if c =c "{"%char then Some kobject else None.

Lemma canonical_kind v s : canonicalJson v = Ok s -> exists c r, s = String c r /\ kind_of_char c = kind_of v
  /\ kind_of v <> None.
Proof.
  destruct v as [| |b|n|s0|vs|p es|k]; intros H; try (injection H as <-; by eexists _, _).
  - destruct b; injection H as <-; by eexists _, _.
  - cbn in H. destruct (isFinite n) eqn:E; [|done]. injection H as <-.
    destruct (number_text_chars n E) as [Hs Hc]. destruct (number_text n) as [|c r]; [done|].
    exists c, r. split; [done|]. apply negb_true_iff, orb_false_iff in Hc as [Hc _]. apply negb_false_iff in Hc.
    unfold kind_of_char. by rewrite Hc.
  - apply bind_ok in H as (ts & _ & [= <-]). by eexists _, _.
  - rewrite canonical_object in H. apply bind_ok in H as (ts & _ & [= <-]). by eexists _, _.
  - done.
Qed.

(** No text of a value begins like the end of an array or of an object. *)
Lemma canonical_opening v s c0 : canonicalJson v = Ok s -> kind_of_char c0 = None ->
  exists c r, s = String c r /\ c <> c0.
Proof.
  intros H H0. destruct (canonical_kind v s H) as (c & r & -> & Hk & Hn). exists c, r. split; [done|].
  intros ->. congruence.
Qed.

Lemma same_kind v w s t x y :
  canonicalJson v = Ok s -> canonicalJson w = Ok t -> s +:+ x = t +:+ y -> kind_of v = kind_of w.
Proof.
  intros Hs Ht H. destruct (canonical_kind v s Hs) as (c & r & -> & Hk & _).
  destruct (canonical_kind w t Ht) as (d & q & -> & Hl & _). injection H as -> _. congruence.
Qed.

(** A list of texts between brackets is read back element by element. *)
Section Elements.
Context {A B : Type} (text : A -> result exn string) (norm : A -> B) (close : ascii).
Definition readable (a : A) : Prop := forall b s t x y,
  text a = Ok s -> text b = Ok t -> closing x -> closing y -> s +:+ x = t +:+ y -> norm a = norm b /\ x = y.
Hypothesis heads : forall a s, text a = Ok s -> exists c r, s = String c r /\ c <> close.
Hypothesis Hclose : number_char close = false.
Hypothesis Hcomma : close <> ","%char.

Lemma elements_read l m ts us x y :
  Forall readable l -> collect (map text l) = Ok ts -> collect (map text m) = Ok us ->
  join "," ts +:+ String close x = join "," us +:+ String close y -> map norm l = map norm m /\ x = y.
Proof.
  rewrite !collect_ok. intros Hl. revert m ts us. induction Hl as [|a l Ha Hl IH]; intros m ts us Ht Hu H.
  - inversion Ht; subst. destruct m as [|b m]; [inversion Hu; subst; injection H as ->; done|].
    inversion Hu as [|? t ? us' Eb Hu']; subst. destruct (heads b t Eb) as (c & r & -> & Hc).
    exfalso. destruct us'; injection H as H; congruence.
  - cbn [map] in Ht. inversion Ht as [|? s ? ts' Ea Ht']; subst. destruct m as [|b m].
    { inversion Hu; subst. destruct (heads a s Ea) as (c & r & -> & Hc). exfalso. destruct ts'; injection H as H; congruence. }
    cbn [map] in Hu. inversion Hu as [|? t ? us' Eb Hu']; subst.
    assert (Hcl : forall (z : string) l', closing (match l' with [] => String close z | _ => String "," (join "," l' +:+ String close z) end)).
    { intros z l' c r. destruct l'; intros [= <- _]; done. }
    assert (Hj : forall (u : string) l' z, join "," (u :: l') +:+ String close z
              = u +:+ (match l' with [] => String close z | _ => String "," (join "," l' +:+ String close z) end)).
    { intros u [|w l'] z; [done|]. rewrite join_cons, !sapp_assoc. done. }
    rewrite !Hj in H. destruct (Ha b s t _ _ Ea Eb (Hcl x ts') (Hcl y us') H) as [Hn Hr].
    cbn [map]. rewrite Hn. destruct ts' as [|s' ts'], us' as [|t' us'].
    + injection Hr as ->. inversion Ht' as [E|]; inversion Hu' as [E'|]; subst. destruct l, m; done.
    + exfalso. injection Hr as Hr _. done.
    + exfalso. injection Hr as Hr _. by apply Hcomma.
    + injection Hr as Hr. destruct (IH m _ _ Ht' Hu' Hr) as [-> ->]. done.
Qed.
End Elements.

Lemma entry_text_ok (e : string * value) s : entry_text e = Ok s <->
  exists t, canonicalJson e.2 = Ok t /\ s = json_string e.1 +:+ String ":" t.
Proof.
  unfold entry_text. rewrite bind_ok. split; intros (t & Ht & H); exists t; (split; [done|]); [by injection H as <-|by rewrite H].
Qed.

Lemma entry_readable (e : string * value) :
  readable canonicalJson normalize e.2 -> readable entry_text (fun e => (e.1, normalize e.2)) e.
Proof.
  intros He e' s t x y Hs Ht Hx Hy H. apply entry_text_ok in Hs as (s0 & Hs & ->). apply entry_text_ok in Ht as (t0 & Ht & ->).
  rewrite !sapp_assoc in H. apply json_string_prefix in H as [-> H]. injection H as H.
  by destruct (He e'.2 s0 t0 x y Hs Ht Hx Hy H) as [-> ->].
Qed.

Lemma canonical_read (v : value) : readable canonicalJson normalize v.
Proof.
  induction v as [| |b|n|s0|vs IH|p es IH|k] using value_ind'; intros w s t x y Hs Ht Hx Hy H;
    pose proof (same_kind _ w _ _ _ _ Hs Ht H) as Hk;
    destruct w as [| |b1|n1|s1|ws|q fs|k1]; try discriminate Hk; try discriminate Hs.
  1-4: injection Hs as <-; injection Ht as <-; by injection H as ->.
  - destruct b, b1; injection Hs as <-; injection Ht as <-; try discriminate H; by injection H as ->.
  - cbn in Hs, Ht. destruct (isFinite n) eqn:En; [|done]. destruct (isFinite n1) eqn:E1; [|done].
    injection Hs as <-. injection Ht as <-.
    destruct (number_text_chars n En) as [_ Hn], (number_text_chars n1 E1) as [_ Hn1].
    destruct (run_prefix number_char _ _ _ _ Hn Hn1 Hx Hy H) as [Hnt ->]. by rewrite (number_text_inj n n1 En E1 Hnt).
  - injection Hs as <-. injection Ht as <-. by apply (json_string_prefix s0 s1 x y) in H as [-> ->].
  - apply bind_ok in Hs as (ts & Hts & [= <-]). apply bind_ok in Ht as (us & Hus & [= <-]).
    injection H as H. rewrite !sapp_assoc in H.
    destruct (elements_read canonicalJson normalize "]" (fun a s1 Ha => canonical_opening a s1 "]" Ha eq_refl) eq_refl
                ltac:(discriminate) vs ws ts us x y IH Hts Hus H) as [Hn ->].
    cbn [normalize]. by rewrite Hn.
  - rewrite canonical_object in Hs, Ht. apply bind_ok in Hs as (ts & Hts & [= <-]). apply bind_ok in Ht as (us & Hus & [= <-]).
    injection H as H. rewrite !sapp_assoc in H.
    destruct (elements_read entry_text (fun e => (e.1, normalize e.2)) "}") with (l := written es) (m := written fs)
      (ts := ts) (us := us) (x := x) (y := y) as [Hn ->]; try done.
    + intros e s1 He. apply entry_text_ok in He as (t1 & _ & ->). by eexists _, _.
    + apply written_forall. eapply Forall_impl; [exact IH|]. intros e. apply entry_readable.
    + by rewrite !normalize_object, Hn.
Qed.

(** *** Normal forms have the same text *)
Lemma written_map (f : value -> value) es :
  (forall v, is_undefined (f v) = false) ->
  written (map (fun e => (e.1, f e.2)) (written es)) = map (fun e => (e.1, f e.2)) (written es).
Proof.
  intros Hf. unfold written at 1. assert (List.filter (fun e => negb (is_undefined e.2)) (map (fun e => (e.1, f e.2)) (written es))
    = map (fun e => (e.1, f e.2)) (written es)) as ->.
  { induction (written es) as [|e l IH]; simpl; [done|]. by rewrite Hf, IH. }
  rewrite sort_entries_map. f_equal. apply sort_entries_id. unfold written. apply sort_entries_sorted.
Qed.
Lemma normalize_defined v : is_undefined (normalize v) = false.
Proof. by destruct v. Qed.

Lemma canonical_normalize (v : value) : canonicalJson (normalize v) = canonicalJson v.
Proof.
  induction v as [| |b|n|s0|vs IH|p es IH|k] using value_ind'; try done.
  - cbn [normalize canonicalJson]. rewrite map_map. do 2 f_equal. by apply map_ext_Forall.
  - rewrite normalize_object, !canonical_object, (written_map normalize) by apply normalize_defined.
    rewrite map_map. do 2 f_equal. apply map_ext_Forall. apply written_forall in IH.
    eapply Forall_impl; [exact IH|]. intros e He. unfold entry_text. cbn [fst snd]. by rewrite He.
Qed.

Lemma same_text_same_value v w s t :
  canonicalJson v = Ok s -> canonicalJson w = Ok t -> s = t <-> normalize v = normalize w.
Proof using JL.
  intros Hv Hw. split.
  - intros ->. apply (canonical_read v w t t EmptyString EmptyString Hv Hw); done.
  - intros H. rewrite <- canonical_normalize in Hv, Hw. rewrite H in Hv. congruence.
Qed.

(** Two values have the same canonical text exactly when they are the same JSON value: the same up to the
    order of the entries and to entries that are undefined. *)
Theorem canonical_text_determines_value v w s t
    (Hv : canonicalJson v = Ok s) (Hw : canonicalJson w = Ok t) :
  s = t <-> normalize v = normalize w.
Proof using JL. by apply same_text_same_value. Qed.
End Canonical.

(** *** Fingerprints and digests *)
(** The two texts hashed are not a collision of SHA-256. *)
Definition no_collision (sha256 : string -> string) (a b : result exn string) : Prop :=
  forall s t, a = Ok s -> b = Ok t -> sha256 s = sha256 t -> s = t.

Section Digests.
Context `{JN : JsNumber} {JL : JsNumberLaws JN} (sha256 : string -> string).

Definition request (operation : string) (input : value) : value :=
  VObject true [("operation"%string, VString operation); ("input"%string, input)].

(** The fingerprint of a browser operation identifies the operation and its input as a JSON value. *)
Theorem fingerprint_identifies_operation o1 o2 i1 i2 f
    (Hsha : no_collision sha256 (canonicalJson (request o1 i1)) (canonicalJson (request o2 i2)))
    (H1 : createBrowserOperationFingerprint sha256 o1 i1 = Ok f)
    (H2 : createBrowserOperationFingerprint sha256 o2 i2 = Ok f) :
  o1 = o2 /\ normalize i1 = normalize i2.
Proof using JL.
  unfold createBrowserOperationFingerprint in *. apply bind_ok in H1 as (t1 & E1 & [= <-]).
  apply bind_ok in H2 as (t2 & E2 & [= H2]). symmetry in H2. apply (Hsha t1 t2 E1 E2) in H2 as ->.
  destruct (canonical_read _ _ _ _ EmptyString EmptyString E1 E2) as [E _]; [done..|].
  rewrite !normalize_object in E.
  assert (Hw : forall o i, map (fun e => (e.1, normalize e.2)) (written [("operation"%string, VString o); ("input"%string, i)])
               = if is_undefined i then [("operation"%string, VString o)]
                 else [("input"%string, normalize i); ("operation"%string, VString o)]).
  { intros o i. unfold written. cbn [List.filter is_undefined snd negb]. by destruct (is_undefined i). }
  rewrite !Hw in E. destruct (is_undefined i1) eqn:U1, (is_undefined i2) eqn:U2; try discriminate E.
  - injection E as ->. by destruct i1, i2.
  - by injection E as -> ->.
Qed.

(** C14.  Two requests have the same arguments digest exactly when their arguments are the same JSON value once the
    confirmation identifiers are taken out: a confirmation stands for these arguments and no
    others, and repeating a request with its confirmation keeps the digest. *)
Theorem arguments_digest_exact v w v' w'
    (Hv : removeEphemeralAndRejectSensitive v = Ok v') (Hw : removeEphemeralAndRejectSensitive w = Ok w')
    (Hok : is_ok (canonicalJson v') = true)
    (Hsha : no_collision sha256 (canonicalJson v') (canonicalJson w')) :
  canonicalSourceControlArgumentsDigest sha256 v = canonicalSourceControlArgumentsDigest sha256 w
  <-> normalize v' = normalize w'.
Proof using JL.
  unfold canonicalSourceControlArgumentsDigest. rewrite Hv, Hw. cbn [mbind result_bind].
  destruct (canonicalJson v') as [s|e] eqn:Es; [|done]. split.
  - destruct (canonicalJson w') as [t|e] eqn:Et; [|done]. intros [= E]. apply (Hsha s t eq_refl eq_refl) in E.
    by apply (same_text_same_value v' w' s t Es Et).
  - intros E. rewrite <- (canonical_normalize w'), <- E, canonical_normalize, Es. done.
Qed.
End Digests.

(** The entry of a confirmation identifier leaves no trace. *)
Lemma confirmation_id_ephemeral `{JN : JsNumber} p es1 es2 id v :
  normalizeSensitiveKey id = "confirmationid"%string ->
  removeEphemeralAndRejectSensitive (VObject p (es1 ++ (id, v) :: es2))
  = removeEphemeralAndRejectSensitive (VObject p (es1 ++ es2)).
Proof.
  intros Hid. cbn [removeEphemeralAndRejectSensitive]. destruct p; [|done]. cbn [negb]. f_equal.
  induction es1 as [|e es1 IH]; cbn [app].
  - cbn [fst]. by rewrite Hid.
  - destruct (normalizeSensitiveKey e.1 =s "confirmationid"); [exact IH|].
    destruct (isSensitiveFieldKey _); [done|]. cbn [mbind result_bind].
    destruct (removeEphemeralAndRejectSensitive e.2); [|done]. cbn [mbind result_bind]. by rewrite IH.
Qed.

(** *** Whole numbers *)
Lemma uint_chars d : sforall number_char (NilEmpty.string_of_uint d) = true.
Proof. induction d; cbn; try done; apply negb_true_iff; apply negb_true_iff in IHd; exact IHd. Qed.

Lemma to_int_not_nil z : Z.to_int z <> Decimal.Pos Decimal.Nil /\ Z.to_int z <> Decimal.Neg Decimal.Nil.
Proof.
  destruct z as [|p|p]; cbn; (split; [try discriminate|try discriminate]);
    intros [= H]; by apply DecimalPos.Unsigned.to_uint_nonnil in H.
Qed.

#[export] Instance whole_numbers_laws : JsNumberLaws whole_numbers.
Proof.
  split.
  - cbn. intros n m _ _ H. apply (f_equal NilZero.int_of_string) in H.
    destruct (to_int_not_nil n), (to_int_not_nil m). rewrite !NilZero.isi in H by done.
    injection H as H. by apply DecimalZ.to_int_inj in H.
  - intros z _. cbn. destruct (Z.to_int z) as [d|d]; destruct d; cbn; (split; [done|]); try done;
      apply negb_true_iff; cbn; apply negb_true_iff, uint_chars.
Qed.

(** *** Examples *)
Definition sample : value (JN := whole_numbers) :=
  VObject true [("b"%string, VArray [VNumber (-12)%Z; VUndefined; VBool true]); ("a"%string, VString "x\"); ("c"%string, VUndefined)].
Lemma sample_text :
  canonicalJson sample = Ok (join (str1 DQ) ["{"; "a"; ":"; "x\\"; ","; "b"; ":[-12,null,true]}"])%string.
Proof. vm_compute. reflexivity. Qed.

Lemma canonical_text_determines_value_witness :
  exists s, canonicalJson sample = Ok s /\
  (s = s <-> normalize sample = normalize (VObject false [("a"%string, VString "x\"); ("b"%string, VArray [VNumber (-12)%Z; VNull; VBool true])])).
Proof.
  destruct (canonicalJson sample) as [s|e] eqn:E; [|vm_compute in E; discriminate E]. exists s. split; [reflexivity|].
  apply (canonical_text_determines_value _ _ s s E). rewrite <- E. vm_compute. reflexivity.
Defined.

Definition plain_hash (s : string) : string := s.
Lemma plain_hash_free a b : no_collision plain_hash a b.
Proof. by intros s t. Qed.

Lemma fingerprint_identifies_operation_witness :
  exists f, createBrowserOperationFingerprint plain_hash "click" sample = Ok f /\ normalize sample = normalize sample.
Proof.
  destruct (createBrowserOperationFingerprint plain_hash "click" sample) as [f|e] eqn:E; [|vm_compute in E; discriminate E].
  exists f. split; [reflexivity|].
  exact (proj2 (fingerprint_identifies_operation plain_hash _ _ _ _ f (plain_hash_free _ _) E E)).
Defined.

Definition arguments (id : string) (branch : string) : value (JN := whole_numbers) :=
  VObject true [("branch"%string, VString branch); ("confirmationId"%string, VString id)].
Lemma arguments_digest_exact_witness :
  canonicalSourceControlArgumentsDigest plain_hash (arguments "1" "main")
  = canonicalSourceControlArgumentsDigest plain_hash (arguments "2" "main").
Proof.
  apply (arguments_digest_exact plain_hash (arguments "1" "main") (arguments "2" "main")
           (VObject true [("branch"%string, VString "main")]) (VObject true [("branch"%string, VString "main")]));
    [vm_compute; reflexivity..|apply plain_hash_free|vm_compute; reflexivity].
Defined.
