(* ===== verification/JsonText.v ===== *)
(** [JSON.stringify] and [JSON.parse]: how the file store of mutation receipts
    (services/workspace-agent/src/source-control/file-mutation-receipt-store.ts) writes and reads what it keeps.

    A text is read back to the value it was written from ([parse_text]).
    Entries of objects are kept in the order of own keys: array indices first,
    ascending, then the others as they came.  Escapes above [\u00ff] name no
    code unit of the strings modelled and are refused; values with a [toJSON]
    method are not modelled. *)
From Stdlib Require Import Sorted DecimalString DecimalZ.
From S2P Require Import Prelude Errors JsString Json.

(** ** Own keys in their order *)
Definition is_digit (c : ascii) : bool := ((48 <=? char_code c) && (char_code c <=? 57))%N.
Fixpoint decimal (acc : N) (s : string) : N :=
  match s with EmptyString => acc | String c s => decimal (acc * 10 + (char_code c - 48))%N s end.
(** An array index: the canonical decimal text of a number below 2^32 - 1. *)
Definition index_of (key : string) : option N :=
  match key with
  | EmptyString => None
  | String c t =>
      if sforall is_digit key && (negb (c =c "0") || sempty t) && (decimal 0 key <? 4294967295)%N
      then Some (decimal 0 key) else None
  end.
Definition key_before (a b : string) : bool :=
  match index_of a, index_of b with
  | Some i, Some j => (i <? j)%N
  | Some _, None => true
  | None, _ => false
  end.

(** Writing one own property. *)
Fixpoint obj_set {A} (key : string) (a : A) (es : list (string * A)) : list (string * A) :=
  match es with
  | [] => [(key, a)]
  | (k, b) :: rest =>
      if key =s k then (k, a) :: rest
      else if key_before key k then (key, a) :: es
      else (k, b) :: obj_set key a rest
  end.
(** The entries of an object after writing the given ones. *)
Definition object_entries {A} (es : list (string * A)) : list (string * A) :=
  fold_left (fun acc e => obj_set e.1 e.2 acc) es [].

Definition own_before {A} (x y : string * A) : Prop := x.1 <> y.1 /\ key_before y.1 x.1 = false.
Definition own_order {A} (es : list (string * A)) : Prop := StronglySorted own_before es.

Section Order.
Context {A : Type}.
Implicit Types es : list (string * A).

Lemma obj_set_last es e : Forall (fun x => own_before x e) es -> obj_set e.1 e.2 es = es ++ [e].
Proof.
  induction es as [|[k b] es IH]; simpl; intros H; [by destruct e|].
  inversion H as [|? ? [Hne Hb] Hes]; subst. simpl in *.
  assert (e.1 =s k = false) as -> by (apply String.eqb_neq; congruence). by rewrite Hb, IH.
Qed.

Lemma object_entries_own es : own_order es -> object_entries es = es.
Proof.
  unfold object_entries. assert (forall acc, own_order (acc ++ es) -> fold_left (fun acc e => obj_set e.1 e.2 acc) es acc = acc ++ es) as H.
  { induction es as [|e es IH]; intros acc H; cbn [fold_left]; [by rewrite app_nil_r|].
    rewrite obj_set_last.
    - rewrite IH; rewrite <- app_assoc; done.
    - clear IH. induction acc as [|x acc IH]; [constructor|]. inversion H as [|? ? Hs Hf]; subst.
      constructor; [|by apply IH]. apply Forall_app in Hf as [_ Hf]. by inversion Hf. }
  apply (H []).
Qed.

Lemma own_order_sublist es es' : es' `sublist_of` es -> own_order es -> own_order es'.
Proof.
  unfold own_order. induction 1 as [|x l1 l2 Hs IH|x l1 l2 Hs IH]; intros H; [constructor| |].
  - inversion H as [|? ? Ho Hf]; subst. constructor; [by apply IH|]. apply Forall_forall. intros y Hy.
    eapply Forall_forall in Hf; [exact Hf|]. by eapply sublist_subseteq.
  - inversion H; subst. by apply IH.
Qed.

Lemma own_order_keys {B} es (es' : list (string * B)) : map fst es = map fst es' -> own_order es -> own_order es'.
Proof.
  unfold own_order. revert es'. induction es as [|x es IH]; intros [|y es'] Hk H; try discriminate Hk; [constructor|].
  cbn [map] in Hk. injection Hk as Hxy Hk. inversion H as [|? ? Ho Hf]; subst. constructor; [by apply IH|].
  clear IH H Ho. revert es' Hk. induction Hf as [|z es [Hne Hb] Hf IH]; intros [|w es'] Hk; try discriminate Hk; [constructor|].
  cbn [map] in Hk. injection Hk as Hzw Hk. constructor; [|by apply IH].
  unfold own_before. by rewrite <- Hxy, <- Hzw.
Qed.
End Order.

(** ** Numbers in texts *)
(** The number that a number literal of JSON denotes. *)
Class JsNumberRead (JN : JsNumber) := { number_read : string -> option number }.
Class JsNumberReadLaws (JN : JsNumber) (JR : JsNumberRead JN) := {
  number_read_text : forall n, isFinite n = true -> number_read (number_text n) = Some n;
}.

(** *** [JSON.stringify] *)
Section Texts.
Context `{JN : JsNumber} `{JR : !JsNumberRead JN}.

(** [None] is the [undefined] that values without a text give. *)
Fixpoint JSON_stringify (v : value) : result exn (option string) :=
  match v with
  | VUndefined => Ok None
  | VNull => Ok (Some "null"%string)
  | VBool b => Ok (Some (if b then "true" else "false")%string)
  | VNumber n => Ok (Some (if isFinite n then number_text n else "null"%string))
  | VString s => Ok (Some (json_string s))
  | VArray vs =>
      texts ← collect (map JSON_stringify vs);
      Ok (Some ("[" +:+ join "," (map (default "null"%string) texts) +:+ "]"))
  | VObject _ es =>
      texts ← collect (map (fun e => t ← JSON_stringify e.2; Ok (e.1, t)) es);
      Ok (Some ("{" +:+ join "," (omap (fun e => (fun t => json_string e.1 +:+ ":" +:+ t) <$> e.2) texts) +:+ "}"))
  | VOther kind => if kind =s "bigint" then Err (Native "TypeError") else Ok None
  end.

(** *** [JSON.parse] *)
Definition is_json_space (c : ascii) : bool :=
  let n := char_code c in ((n =? 32) || (n =? 9) || (n =? 10) || (n =? 13))%N.
Fixpoint skip_ws (s : string) : string :=
  match s with
  | String c t => if is_json_space c then skip_ws t else s
  | EmptyString => EmptyString
  end.
(** What follows the character [c], if it comes next. *)
Definition token (c : ascii) (s : string) : option string :=
  match skip_ws s with
  | String d t => if c =c d then Some t else None
  | EmptyString => None
  end.
Definition hex_value (c : ascii) : option N :=
  let n := char_code c in
  if is_digit c then Some (n - 48)%N
  else if ((97 <=? n) && (n <=? 102))%N then Some (n - 87)%N
  else if ((65 <=? n) && (n <=? 70))%N then Some (n - 55)%N
  else None.
Definition unicode_escape (a b c d : ascii) : option ascii :=
  a ← hex_value a; b ← hex_value b; c ← hex_value c; d ← hex_value d;
  let n := (((a * 16 + b) * 16 + c) * 16 + d)%N in
  if (n <? 256)%N then Some (ascii_of_N n) else None.
Definition simple_escape (c : ascii) : option ascii :=
  if (c =c DQ) || (c =c BSL) || (c =c SLASH) then Some c
  else if c =c "b" then Some (ascii_of_N 8) else if c =c "f" then Some (ascii_of_N 12)
  else if c =c "n" then Some LF else if c =c "r" then Some CR
  else if c =c "t" then Some (ascii_of_N 9) else None.

Definition cons_char (c : option ascii) (r : option (string * string)) : option (string * string) :=
  c ← c; '(s, rest) ← r; Some (String c s, rest).
(** The rest of a string literal, to its closing quote. *)
Fixpoint read_chars (s : string) : option (string * string) :=
  match s with
  | EmptyString => None
  | String c t =>
      if c =c DQ then Some (EmptyString, t)
      else if c =c BSL then
        match t with
        | String e u =>
            if e =c "u" then
              match u with
              | String a (String b (String c (String d w))) => cons_char (unicode_escape a b c d) (read_chars w)
              | _ => None
              end
            else cons_char (simple_escape e) (read_chars u)
        | EmptyString => None
        end
      else if (char_code c <? 32)%N then None
      else cons_char (Some c) (read_chars t)
  end.
Fixpoint span (f : ascii -> bool) (s : string) : string * string :=
  match s with
  | String c t => if f c then let '(a, b) := span f t in (String c a, b) else (EmptyString, s)
  | EmptyString => (EmptyString, EmptyString)
  end.
Definition read_literal (s : string) : option (value * string) :=
  if startsWith s "true" then Some (VBool true, sdrop 4 s)
  else if startsWith s "false" then Some (VBool false, sdrop 5 s)
  else if startsWith s "null" then Some (VNull, sdrop 4 s)
  else let '(a, b) := span number_char s in n ← number_read a; Some (VNumber n, b).

Fixpoint parse_value (fuel : nat) (s : string) {struct fuel} : option (value * string) :=
  match fuel with
  | O => None
  | S fuel =>
      match token DQ s, token "[" s, token "{" s with
      | Some t, _, _ => '(k, r) ← read_chars t; Some (VString k, r)
      | _, Some t, _ =>
          match token "]" t with
          | Some r => Some (VArray [], r)
          | None => '(vs, r) ← parse_elements fuel t; Some (VArray vs, r)
          end
      | _, _, Some t =>
          match token "}" t with
          | Some r => Some (VObject true [], r)
          | None => '(es, r) ← parse_entries fuel t; Some (VObject true (object_entries es), r)
          end
      | _, _, _ => read_literal (skip_ws s)
      end
  end
with parse_elements (fuel : nat) (s : string) {struct fuel} : option (list value * string) :=
  match fuel with
  | O => None
  | S fuel =>
      '(v, r) ← parse_value fuel s;
      match token "," r with
      | Some r => '(vs, r) ← parse_elements fuel r; Some (v :: vs, r)
      | None => r ← token "]" r; Some ([v], r)
      end
  end
with parse_entries (fuel : nat) (s : string) {struct fuel} : option (list (string * value) * string) :=
  match fuel with
  | O => None
  | S fuel =>
      r ← token DQ s; '(k, r) ← read_chars r; r ← token ":" r;
      '(v, r) ← parse_value fuel r;
      match token "," r with
      | Some r => '(es, r) ← parse_entries fuel r; Some ((k, v) :: es, r)
      | None => r ← token "}" r; Some ([(k, v)], r)
      end
  end.

(** Twice the length of the text is fuel enough: [parse_fuel]. *)
Definition JSON_parse (s : string) : result exn value :=
  match parse_value (S (2 * String.length s)) s with
  | Some (v, r) => if sempty (skip_ws r) then Ok v else Err (Native "SyntaxError")
  | None => Err (Native "SyntaxError")
  end.
End Texts.

(** ** More fuel changes nothing *)
Section Fuel.
Context `{JN : JsNumber} `{JR : !JsNumberRead JN}.
Notation len := String.length.

Lemma skip_ws_len s : len (skip_ws s) <= len s.
Proof. induction s as [|c s IH]; simpl; [done|]. destruct (is_json_space c); simpl; lia. Qed.
Lemma token_len c s t : token c s = Some t -> len t < len s.
Proof.
  unfold token. pose proof (skip_ws_len s). destruct (skip_ws s) as [|d u]; [done|].
  destruct (c =c d); [|done]. intros [= ->]. simpl in *. lia.
Qed.
Lemma read_chars_len s : forall k r, read_chars s = Some (k, r) -> len r < len s.
Proof.
  assert (forall n s k r, len s <= n -> read_chars s = Some (k, r) -> len r < len s) as H; [|by eauto].
  clear. intros n. induction n as [|n IH]; intros [|c s] k r Hn H; simpl in Hn; try lia; try discriminate H.
  assert (forall x u, len u <= len s -> cons_char x (read_chars u) = Some (k, r) -> len r < len (String c s)) as Hc.
  { intros x u Hu Hx. destruct x; [|done]. destruct (read_chars u) as [[k' r']|] eqn:E; [|done].
    cbn in Hx. injection Hx as _ <-. apply IH in E; simpl; lia. }
  cbn [read_chars] in H. destruct (c =c DQ); [injection H as _ <-; simpl; lia|].
  destruct (c =c BSL); [|destruct (_ <? 32)%N; [done|by eapply Hc in H]].
  destruct s as [|e u]; [done|]. destruct (e =c "u"); [|eapply Hc in H; [done|simpl; lia]].
  destruct u as [|? [|? [|? [|? w]]]]; try done. eapply Hc in H; [done|simpl; lia].
Qed.
Lemma span_len f s : len (span f s).2 <= len s.
Proof. induction s as [|c s IH]; simpl; [done|]. destruct (f c); [|done]. destruct (span f s); simpl in *; lia. Qed.
Lemma sdrop_len n s : len (sdrop n s) <= len s.
Proof. revert s. induction n as [|n IH]; intros [|c s]; simpl; try lia. pose proof (IH s). lia. Qed.
Lemma read_literal_len s v r : read_literal s = Some (v, r) -> len r <= len s.
Proof.
  unfold read_literal. pose proof (sdrop_len 4 s). pose proof (sdrop_len 5 s). pose proof (span_len number_char s).
  repeat case_match; intros Hr; simplify_eq/=; try done.
  destruct (number_read _); [|done]. cbn in Hr. by injection Hr as _ <-.
Qed.

Ltac len_facts := repeat match goal with
  | H : token _ _ = Some _ |- _ => apply token_len in H
  | H : read_chars _ = Some _ |- _ => apply read_chars_len in H
  | H : _ ≫= _ = Some _ |- _ => apply bind_Some in H; destruct H as [? [? H]]
  | p : _ * _ |- _ => destruct p
  end; simplify_eq/=.

Lemma parse_shrinks n :
  (forall s v r, parse_value n s = Some (v, r) -> len r <= len s) /\
  (forall s vs r, parse_elements n s = Some (vs, r) -> len r <= len s) /\
  (forall s es r, parse_entries n s = Some (es, r) -> len r <= len s).
Proof.
  induction n as [|n (IHv & IHs & IHe)]; [repeat split; intros; done|]. split_and!; intros s v r H; simpl in H.
  - pose proof (skip_ws_len s).
    repeat case_match; simplify_eq; try (apply read_literal_len in H); len_facts;
      repeat match goal with E : parse_elements _ _ = Some _ |- _ => apply IHs in E
                       | E : parse_entries _ _ = Some _ |- _ => apply IHe in E end; lia.
  - apply bind_Some in H as ([w t] & Hw%IHv & H). case_match; len_facts;
      repeat match goal with E : parse_elements _ _ = Some _ |- _ => apply IHs in E end; lia.
  - apply bind_Some in H as (t0 & Ht0 & H). apply bind_Some in H as ([k t1] & Ht1 & H).
    apply bind_Some in H as (t2 & Ht2 & H). apply bind_Some in H as ([w t] & Hw%IHv & H). case_match; len_facts;
      repeat match goal with E : parse_entries _ _ = Some _ |- _ => apply IHe in E end; lia.
Qed.

Lemma parse_stable l : forall n m s, len s <= l ->
  (2 * l < n -> 2 * l < m -> parse_value n s = parse_value m s) /\
  (2 * l + 1 < n -> 2 * l + 1 < m -> parse_elements n s = parse_elements m s) /\
  (2 * l + 1 < n -> 2 * l + 1 < m -> parse_entries n s = parse_entries m s).
Proof.
  induction l as [l IH] using lt_wf_ind.
  assert (forall n m s, len s <= l -> 2 * l < n -> 2 * l < m -> parse_value n s = parse_value m s) as Hv.
  { intros [|n] [|m] s Hs Hn Hm; try lia. simpl.
    destruct (token DQ s); [done|]. destruct (token "[" s) as [t|] eqn:Ht.
    - apply token_len in Ht. destruct (token "]" t); [done|].
      by rewrite (proj1 (proj2 (IH (pred l) ltac:(lia) n m t ltac:(lia))) ltac:(lia) ltac:(lia)).
    - destruct (token "{" s) as [t|] eqn:Hb; [|done]. apply token_len in Hb. destruct (token "}" t); [done|].
      by rewrite (proj2 (proj2 (IH (pred l) ltac:(lia) n m t ltac:(lia))) ltac:(lia) ltac:(lia)). }
  intros n m s Hs. split; [by apply Hv|]. split; intros Hn Hm; destruct n as [|n], m as [|m]; try lia;
    simpl.
  - rewrite (Hv n m s) by lia. destruct (parse_value m s) as [[v r]|] eqn:E; [|done]. cbn.
    apply parse_shrinks in E. destruct (token "," r) as [t|] eqn:Ht; [|done]. apply token_len in Ht.
    by rewrite (proj1 (proj2 (IH (pred l) ltac:(lia) n m t ltac:(lia))) ltac:(lia) ltac:(lia)).
  - destruct (token DQ s) as [t0|] eqn:E0; [|done]. cbn. destruct (read_chars t0) as [[k t1]|] eqn:E1; [|done]. cbn.
    destruct (token ":" t1) as [t2|] eqn:E2; [|done]. cbn. len_facts.
    rewrite (Hv n m t2) by lia. destruct (parse_value m t2) as [[v r]|] eqn:E; [|done]. cbn.
    apply parse_shrinks in E. destruct (token "," r) as [t|] eqn:Ht; [|done]. apply token_len in Ht.
    by rewrite (proj2 (proj2 (IH (pred l) ltac:(lia) n m t ltac:(lia))) ltac:(lia) ltac:(lia)).
Qed.

(** The fuel of [JSON_parse] is enough: any more gives the same answer. *)
Lemma parse_fuel n s : 2 * len s < n -> parse_value n s = parse_value (S (2 * len s)) s.
Proof. intros H. apply (parse_stable (len s)); lia. Qed.
End Fuel.

(** ** A text is read back *)
Section Roundtrip.
Context `{JN : JsNumber} {JL : JsNumberLaws JN} {JR : JsNumberRead JN} {JRL : JsNumberReadLaws JN JR}.
Notation len := String.length.

(** What a text keeps of a value: no [undefined], no function, plain objects. *)
Fixpoint as_json (v : value) : option value :=
  match v with
  | VUndefined | VOther _ => None
  | VNumber n => Some (if isFinite n then v else VNull)
  | VArray vs => Some (VArray (map (fun v => default VNull (as_json v)) vs))
  | VObject _ es => Some (VObject true (omap (fun e => pair e.1 <$> as_json e.2) es))
  | _ => Some v
  end.
(** Every object lists its entries in the order of own keys. *)
Fixpoint well_formed (v : value) : Prop :=
  match v with
  | VArray vs => fold_right and True (map well_formed vs)
  | VObject _ es => own_order es /\ fold_right and True (map (fun e => well_formed e.2) es)
  | _ => True
  end.
Lemma fold_and {A} (P : A -> Prop) l : fold_right and True (map P l) <-> Forall P l.
Proof.
  induction l as [|a l IH]; simpl; [split; [constructor|done]|]. rewrite IH.
  split; [intros [? ?]; by constructor|]. intros H. by inversion H.
Qed.

(** *** Tokens *)
Lemma token_char c d t : is_json_space d = false -> token c (String d t) = if c =c d then Some t else None.
Proof. intros H. unfold token. simpl. by rewrite H. Qed.
Lemma read_json_char c t : read_chars (json_char c +:+ t) = cons_char (Some c) (read_chars t).
Proof. destruct c as [[] [] [] [] [] [] [] []]; vm_compute json_char; reflexivity. Qed.
Lemma read_json_chars s t : read_chars (json_chars s +:+ String DQ t) = Some (s, t).
Proof. induction s as [|c s IH]; [done|]. cbn [json_chars]. rewrite sapp_assoc, read_json_char, IH. done. Qed.
Lemma json_string_app s t : json_string s +:+ t = String DQ (json_chars s +:+ String DQ t).
Proof. unfold json_string. cbn [String.append]. by rewrite sapp_assoc. Qed.
Lemma span_app f s x : sforall f s = true -> (forall c r, x = String c r -> f c = false) -> span f (s +:+ x) = (s, x).
Proof.
  unfold sforall. induction s as [|c s IH]; cbn [String.append sexists span]; intros Hs Hx.
  - destruct x as [|c x]; [done|]. cbn [span]. by rewrite (Hx c x eq_refl).
  - apply negb_true_iff, orb_false_iff in Hs as [Hc Hs]. apply negb_false_iff in Hc. rewrite Hc, IH; [done| |done].
    by apply negb_true_iff.
Qed.

Definition opening (s : string) : Prop := exists c r, s = String c r /\ is_json_space c = false /\ c <> "]"%char.
Lemma number_opening n : isFinite n = true ->
  exists c r, number_text n = String c r /\ number_char c = true.
Proof.
  intros Hn. destruct (number_text_chars n Hn) as [He Hc]. destruct (number_text n) as [|c r]; [done|].
  exists c, r. split; [done|]. unfold sforall in Hc. cbn [sexists] in Hc.
  apply negb_true_iff, orb_false_iff in Hc as [Hc _]. by apply negb_false_iff in Hc.
Qed.
Definition number_start (c : ascii) : Prop :=
  is_json_space c = false /\ (DQ =c c) = false /\ ("["%char =c c) = false /\ ("{"%char =c c) = false /\ ("]"%char =c c) = false
  /\ (c =c "t") = false /\ (c =c "f") = false /\ (c =c "n") = false.
Lemma number_char_start c : number_char c = true -> number_start c.
Proof. destruct c as [[] [] [] [] [] [] [] []]; intros H; vm_compute in H; try discriminate H; vm_compute; done. Qed.

Lemma stringify_opening v t : JSON_stringify v = Ok t -> opening (default "null"%string t).
Proof.
  destruct v; cbn [JSON_stringify]; intros H; simplify_eq/=; try (by eexists _, _).
  - destruct b; by eexists _, _.
  - destruct (isFinite n) eqn:E; [|by eexists _, _].
    destruct (number_opening n E) as (c & r & -> & Hc). exists c, r.
    apply number_char_start in Hc as (? & _ & _ & _ & Hb & _). split_and!; [done..|].
    intros ->. done.
  - apply bind_ok in H as (ts & _ & [= <-]). by eexists _, _.
  - apply bind_ok in H as (ts & _ & [= <-]). by eexists _, _.
  - destruct (kind =s "bigint"); [done|]. injection H as <-. by eexists _, _.
Qed.

(** *** Values *)
Definition reads (v : value) : Prop := well_formed v -> forall t, JSON_stringify v = Ok t ->
  forall n x, len (default "null"%string t) < n -> closing x ->
  parse_value n (default "null"%string t +:+ x) = Some (default VNull (as_json v), x).

Lemma starts_app p x : startsWith (p +:+ x) p = true.
Proof. apply startsWith_spec. by exists x. Qed.
Lemma literal_read_back w v n x :
  (w, v) = ("null"%string, VNull) \/ (w, v) = ("true"%string, VBool true) \/ (w, v) = ("false"%string, VBool false) ->
  0 < n -> parse_value n (w +:+ x) = Some (v, x).
Proof.
  intros Hw Hn. destruct n as [|n]; [lia|]. pose proof (starts_app w x) as Hs.
  destruct Hw as [[= -> ->]|[[= -> ->]|[= -> ->]]]; simpl; unfold read_literal; cbn [String.append] in *; rewrite Hs; done.
Qed.
Lemma number_read_back m n x : isFinite m = true -> len (number_text m) < n -> closing x ->
  parse_value n (number_text m +:+ x) = Some (VNumber m, x).
Proof using JL JRL.
  intros Hm Hn Hx. destruct n as [|n]; [lia|].
  assert (read_literal (number_text m +:+ x) = Some (VNumber m, x)) as Hlit.
  { unfold read_literal. pose proof (span_app number_char (number_text m) x (proj2 (number_text_chars m Hm)) Hx) as Hspan.
    destruct (number_opening m Hm) as (c & r & E & Hc). rewrite E in *.
    apply number_char_start in Hc as (_ & _ & _ & _ & _ & Ht & Hf & Hl).
    apply eqc_neq in Ht, Hf, Hl. cbn [String.append] in *. unfold startsWith. cbn [String.prefix].
    repeat (destruct (ascii_dec _ _); [congruence|]). rewrite Hspan, <- E.
    by rewrite (number_read_text m Hm). }
  destruct (number_opening m Hm) as (c & r & E & Hc). rewrite E in *.
  apply number_char_start in Hc as (Hs & Hq & Hb & Ho & _). cbn [String.append] in *.
  simpl. rewrite !token_char by done. rewrite Hq, Hb, Ho. by rewrite Hs.
Qed.

Lemma string_read_back s n x : 0 < n -> parse_value n (json_string s +:+ x) = Some (VString s, x).
Proof. intros Hn. destruct n as [|n]; [lia|]. rewrite json_string_app. simpl. by rewrite read_json_chars. Qed.

Lemma parse_elements_more n s v r t : parse_value n s = Some (v, r) -> token "," r = Some t ->
  parse_elements (S n) s = '(vs, r) ← parse_elements n t; Some (v :: vs, r).
Proof. intros Hv Ht. simpl. rewrite Hv. cbn. by rewrite Ht. Qed.
Lemma parse_elements_last n s v r x : parse_value n s = Some (v, r) -> token "," r = None -> token "]" r = Some x ->
  parse_elements (S n) s = Some ([v], x).
Proof. intros Hv Ht Hx. simpl. rewrite Hv. cbn. by rewrite Ht, Hx. Qed.

Definition read_value (v : value) : value := default VNull (as_json v).
Definition written_text (t : option string) : string := default "null"%string t.

Lemma elements_read_back vs ts : Forall2 (fun v t => JSON_stringify v = Ok t) vs ts ->
  Forall reads vs -> Forall well_formed vs -> vs <> [] ->
  forall n x, len (join "," (map written_text ts)) + 1 < n ->
  parse_elements n (join "," (map written_text ts) +:+ String "]" x) = Some (map read_value vs, x).
Proof.
  induction 1 as [|v t vs ts Ht Hts IH]; intros Hr Hw Hne n x Hn; [done|].
  inversion Hr as [|? ? Hv Hvs]; subst. inversion Hw as [|? ? Wv Wvs]; subst.
  destruct n as [|n]; [lia|]. destruct Hts as [|v' t' vs ts Ht' Hts].
  - cbn [map join] in *. erewrite parse_elements_last; [done| | |].
    + apply Hv; [done..|unfold written_text in Hn; lia|]. intros c r [= <- _]. done.
    + done.
    + done.
  - cbn [map] in Hn |- *. rewrite join_cons in Hn |- *. rewrite !slength_app in Hn. rewrite !sapp_assoc.
    change (String.length ",") with 1 in Hn. unfold written_text in Hn at 1.
    erewrite parse_elements_more; [|apply Hv; [done..|lia|intros c r [= <- _]; done]|done].
    change (written_text t' :: map written_text ts) with (map written_text (t' :: ts)) in *.
    by rewrite IH by (done || lia).
Qed.

(** The texts of the entries written. *)
Definition pair_text (e : string * value) (t : string) : string := json_string e.1 +:+ ":" +:+ t.
Definition entry_texts (l : list (string * option string)) : list string :=
  omap (fun e => (fun t => json_string e.1 +:+ ":" +:+ t) <$> e.2) l.
Definition read_entries (es : list (string * value)) : list (string * value) :=
  omap (fun e => pair e.1 <$> as_json e.2) es.

Lemma stringify_none v : JSON_stringify v = Ok None <-> is_ok (JSON_stringify v) = true /\ as_json v = None.
Proof.
  destruct v; cbn; try by intuition congruence.
  - destruct (collect _); cbn; intuition congruence.
  - destruct (collect _); cbn; intuition congruence.
  - destruct (kind =s "bigint"); cbn; intuition congruence.
Qed.

Lemma parse_entries_more n s r k w u v y t : token DQ s = Some r -> read_chars r = Some (k, w) -> token ":" w = Some u ->
  parse_value n u = Some (v, y) -> token "," y = Some t ->
  parse_entries (S n) s = '(es, r) ← parse_entries n t; Some ((k, v) :: es, r).
Proof. intros H1 H2 H3 H4 H5. simpl. rewrite H1. cbn. rewrite H2. cbn. rewrite H3. cbn. rewrite H4. cbn. by rewrite H5. Qed.
Lemma parse_entries_last n s r k w u v y x : token DQ s = Some r -> read_chars r = Some (k, w) -> token ":" w = Some u ->
  parse_value n u = Some (v, y) -> token "," y = None -> token "}" y = Some x ->
  parse_entries (S n) s = Some ([(k, v)], x).
Proof. intros H1 H2 H3 H4 H5 H6. simpl. rewrite H1. cbn. rewrite H2. cbn. rewrite H3. cbn. rewrite H4. cbn. by rewrite H5, H6. Qed.

Lemma pair_text_app e t x : pair_text e t +:+ x = String DQ (json_chars e.1 +:+ String DQ (String ":" (t +:+ x))).
Proof. unfold pair_text. by rewrite !sapp_assoc, json_string_app. Qed.
Lemma pair_text_len e t : len t < len (pair_text e t).
Proof. unfold pair_text. rewrite !slength_app. change (len ":") with 1. lia. Qed.

Lemma entries_read_back (es : list (string * value)) :
  Forall (fun e => reads e.2) es -> Forall (fun e => well_formed e.2) es ->
  forall l, Forall2 (fun e o => JSON_stringify e.2 = Ok (Some o)) es l -> es <> [] ->
  forall n x, len (join "," (zip_with pair_text es l)) < n ->
  parse_entries n (join "," (zip_with pair_text es l) +:+ String "}" x)
  = Some (map (fun e => (e.1, read_value e.2)) es, x).
Proof.
  intros Hr Hw l H. revert Hr Hw. induction H as [|e t es l Ht Hes IH]; intros Hr Hw Hne n x Hn; [done|].
  inversion Hr as [|? ? Hv Hvs]; subst. inversion Hw as [|? ? Wv Wvs]; subst. pose proof (pair_text_len e t).
  destruct n as [|n]; [lia|]. destruct Hes as [|e' t' es l Ht' Hes].
  - cbn [zip_with join] in *. rewrite pair_text_app.
    etransitivity; [eapply parse_entries_last; [done|apply read_json_chars|done|..]|].
    { apply (Hv Wv (Some t) Ht); [cbn; lia|]. intros c r [= <- _]. done. } all: done.
  - cbn [zip_with] in Hn, IH |- *. rewrite join_cons in Hn |- *. rewrite !slength_app in Hn.
    change (len ",") with 1 in Hn. rewrite sapp_assoc, pair_text_app.
    etransitivity; [eapply parse_entries_more; [done|apply read_json_chars|done|..]|].
    { apply (Hv Wv (Some t) Ht); [cbn; lia|]. intros c r [= <- _]. done. } { done. }
    by rewrite IH by (done || lia).
Qed.

Lemma entries_written (es : list (string * value)) l :
  Forall2 (fun e r => (t ← JSON_stringify e.2; Ok (e.1, t)) = Ok r) es l ->
  exists es' ts, es' `sublist_of` es /\ Forall2 (fun e o => JSON_stringify e.2 = Ok (Some o)) es' ts
    /\ entry_texts l = zip_with pair_text es' ts
    /\ read_entries es = map (fun e => (e.1, read_value e.2)) es'.
Proof.
  induction 1 as [|[k v] [k' o] es l He Hes (es' & ts & Hs & Ht & El & Er)]; [by exists [], []; repeat constructor|].
  apply bind_ok in He as (o' & Ho & [= <- <-]). cbn [fst snd] in *. destruct o' as [t|].
  - exists ((k, v) :: es'), (t :: ts). split_and!; [exact (sublist_skip (k, v) _ _ Hs)|by apply Forall2_cons|unfold entry_texts in *; cbn; by f_equal|].
    unfold read_entries, read_value in *. cbn. destruct (as_json v) as [w|] eqn:E; [cbn; by f_equal|].
    assert (JSON_stringify v = Ok None) as H by (apply stringify_none; by rewrite Ho). congruence.
  - exists es', ts. split_and!; [by apply sublist_cons|done|done|]. unfold read_entries in *. cbn.
    apply stringify_none in Ho as [_ ->]. done.
Qed.

Lemma own_order_object (es es' : list (string * value)) : es' `sublist_of` es -> own_order es ->
  object_entries (map (fun e => (e.1, read_value e.2)) es') = map (fun e => (e.1, read_value e.2)) es'.
Proof.
  intros Hs Ho. apply object_entries_own. eapply own_order_keys; [|eapply own_order_sublist; [exact Hs|exact Ho]].
  rewrite map_map. done.
Qed.

Lemma empty_brackets n x : 0 < n -> parse_value n ("[]" +:+ x) = Some (VArray [], x) /\ parse_value n ("{}" +:+ x) = Some (VObject true [], x).
Proof. intros Hn. destruct n as [|n]; [lia|]. done. Qed.

Lemma array_read_back vs : Forall reads vs -> reads (VArray vs).
Proof.
  intros Hr Hw t Ht n x Hn Hx. cbn in Hw. rewrite fold_and in Hw. cbn [JSON_stringify] in Ht.
  apply bind_ok in Ht as (ts & Hts & [= <-]). apply collect_ok, Forall2_fmap_l in Hts. cbn [default from_option id] in *.
  destruct Hts as [|v t vs ts Ht Hts]; [apply empty_brackets; cbn in Hn; lia|].
  change (map (default "null"%string) (t :: ts)) with (map written_text (t :: ts)) in *.
  cbn [String.length] in Hn. rewrite slength_app in Hn. change (String.length "]") with 1 in Hn.
  destruct n as [|n]; [lia|]. cbn [String.append]. rewrite sapp_assoc. cbn [String.append].
  assert (opening (join "," (map written_text (t :: ts)) +:+ String "]" x)) as (c & r & E & Hc & Hne).
  { destruct (stringify_opening v t Ht) as (c & r & E & Hc). cbn [map]. unfold written_text at 1. rewrite E.
    destruct ts; cbn [map join]; eexists c, _; split; done || (cbn [String.append]; done). }
  pose proof (elements_read_back (v :: vs) (t :: ts) ltac:(by apply Forall2_cons) Hr Hw ltac:(done) n x ltac:(lia)) as He.
  rewrite E in *. simpl. rewrite token_char by done.
  assert (("]"%char =c c) = false) as -> by (apply eqc_neq; congruence). rewrite He. done.
Qed.

Lemma stringify_object p es : JSON_stringify (VObject p es)
  = texts ← collect (map (fun e => t ← JSON_stringify e.2; Ok (e.1, t)) es);
    Ok (Some ("{" +:+ join "," (entry_texts texts) +:+ "}")).
Proof. done. Qed.

Lemma object_read_back p es : Forall (fun e => reads e.2) es -> reads (VObject p es).
Proof.
  intros Hr Hw t Ht n x Hn Hx. cbn in Hw. rewrite fold_and in Hw. destruct Hw as [Ho Hw]. rewrite stringify_object in Ht.
  apply bind_ok in Ht as (l & Hl & Ht). symmetry in Ht. injection Ht as ->. apply collect_ok, Forall2_fmap_l in Hl.
  apply entries_written in Hl as (es' & ts & Hs & Hts & El & Er). rewrite El in *. clear El. cbn [default from_option id] in *.
  change (default VNull _) with (VObject true (read_entries es)). rewrite Er, <- (own_order_object es es') by done.
  eapply sublist_subseteq in Hs as Hsub. rewrite Forall_forall in Hr, Hw.
  assert (Forall (fun e => reads e.2) es') as Hr' by (apply Forall_forall; auto).
  assert (Forall (fun e => well_formed e.2) es') as Hw' by (apply Forall_forall; auto).
  cbn [String.length String.append] in Hn. rewrite slength_app in Hn. change (String.length "}") with 1 in Hn.
  destruct (decide (es' = [])) as [->|Hne]; [inversion Hts; subst; apply empty_brackets; lia|].
  destruct n as [|n]; [lia|]. cbn [String.append]. rewrite sapp_assoc. cbn [String.append].
  pose proof (entries_read_back es' Hr' Hw' ts Hts Hne n x ltac:(lia)) as He.
  assert (exists r, join "," (zip_with pair_text es' ts) +:+ String "}" x = String DQ r) as (r & E).
  { destruct Hts as [|[k v] t ? ? ? [|[k' v'] t' ? ? ? ?]]; [done|..]; cbn [zip_with join]; unfold pair_text; cbn [fst]; rewrite !sapp_assoc, json_string_app; eauto. }
  rewrite E in *. simpl. rewrite He. done.
Qed.

Lemma all_read v : reads v.
Proof using JL JRL.
  induction v as [| |b|m|s|vs IH|p es IH|k] using value_ind'; [| | | | |by apply array_read_back|by apply object_read_back|];
    intros _ t Ht n x Hn Hx; cbn [JSON_stringify] in Ht.
  - injection Ht as <-. apply literal_read_back; [by left|cbn in Hn; lia].
  - injection Ht as <-. apply literal_read_back; [by left|cbn in Hn; lia].
  - injection Ht as <-. apply literal_read_back; [destruct b; auto|cbn in Hn; lia].
  - injection Ht as <-. cbn [default from_option id as_json] in *. destruct (isFinite m) eqn:Hm; [by apply number_read_back|].
    apply literal_read_back; [by left|lia].
  - injection Ht as <-. apply string_read_back. cbn in Hn |- *. lia.
  - destruct (k =s "bigint"); [done|]. injection Ht as <-. apply literal_read_back; [by left|cbn in Hn; lia].
Qed.

Lemma parse_text v s x : well_formed v -> JSON_stringify v = Ok (Some s) -> closing x -> skip_ws x = EmptyString ->
  exists w, as_json v = Some w /\ JSON_parse (s +:+ x) = Ok w.
Proof using JL JRL.
  intros Hw Hs Hx He. pose proof (all_read v Hw (Some s) Hs) as Hr. cbn [default from_option id] in Hr.
  destruct (as_json v) as [w|] eqn:E.
  - exists w. split; [done|]. unfold JSON_parse. rewrite Hr; [|rewrite slength_app; lia|done]. cbn. by rewrite He.
  - assert (JSON_stringify v = Ok None) by (apply stringify_none; by rewrite Hs). congruence.
Qed.

End Roundtrip.

(** ** Whole numbers *)
#[export] Instance whole_numbers_read : JsNumberRead whole_numbers := {|
  number_read := fun s =>
    match NilZero.int_of_string s with
    | Some i => if number_text (JsNumber := whole_numbers) (Z.of_int i) =s s then Some (Z.of_int i) else None
    | None => None
    end;
|}.
#[export] Instance whole_numbers_read_laws : JsNumberReadLaws whole_numbers whole_numbers_read.
Proof.
  constructor. intros z _. cbn. destruct (to_int_not_nil z).
  rewrite NilZero.isi by done. rewrite DecimalZ.of_to. by rewrite String.eqb_refl.
Qed.

