(* ===== verification/Zod.v ===== *)
(** Schemas: the part of the Zod library that the contracts of the program are written in.

    The contracts of packages/mcp-core/src are translated to [schema], with one
    constructor for each combinator they use.  Zod itself is not part of the
    program: [Zod] is the parser it provides, as a function on schemas, and
    [ZodLaws] states what its documentation says of every combinator.  [run] is
    a parser with these laws ([run_zod]); that every parser with them agrees with
    it ([parse_run]) is what proofs about schemas use.  The texts that [z.uuid],
    [z.url] and [z.iso.datetime] accept are left to the parser ([format_ok]). *)
From S2P Require Import Prelude Errors JsString Json JsonText.
Open Scope Z_scope.

(** Whole numbers among the numbers of the language. *)
Class JsInteger (JN : JsNumber) := {
  integer_of : number -> option Z;
  of_integer : Z -> number;
  number_leb : Z -> number -> bool;
  number_geb : Z -> number -> bool;
}.
Class JsIntegerLaws (JN : JsNumber) (JI : JsInteger JN) := {
  integer_of_integer : forall z, integer_of (of_integer z) = Some z;
  integer_finite : forall n z, integer_of n = Some z -> isFinite n = true;
  number_leb_integer : forall z n i, integer_of n = Some i -> number_leb z n = (z <=? i);
  number_geb_integer : forall z n i, integer_of n = Some i -> number_geb z n = (i <=? z);
}.
#[export] Instance whole_integers : JsInteger whole_numbers :=
  Build_JsInteger whole_numbers (fun z : Z => Some z) (fun z : Z => z) (fun z (n : Z) => z <=? n) (fun z (n : Z) => n <=? z).
#[export] Instance whole_integers_laws : JsIntegerLaws whole_numbers whole_integers.
Proof. split; simpl; intros; simplify_eq; done. Qed.

Definition MAX_SAFE_INTEGER : Z := 9007199254740991.

Section Schemas.
Context `{JN : JsNumber} `{JI : !JsInteger JN}.

Inductive format := IsoDatetime | Uuid | Url.

(** [.min(n)], [.max(n)], [.trim()], a [.regex] or [.refine] with its test, a [.transform]. *)
Inductive text_step :=
  | MinLength (n : Z) | MaxLength (n : Z) | Trimmed | Satisfies (test : string -> bool) | Mapped (f : string -> string).
(** [.int()], [.min(z)], [.max(z)], [.positive()] on whole numbers is [AtLeast 1]. *)
Inductive number_check := Int | AtLeast (z : Z) | AtMost (z : Z).
Inductive literal := LText (s : string) | LBool (b : bool) | LInt (z : Z).

Inductive schema :=
  | ZString (steps : list text_step)
  | ZFormat (f : format)
  | ZNumber (checks : list number_check)
  | ZBoolean
  | ZLiteral (l : literal)
  | ZEnum (names : list string)
  | ZUnknown
  | ZArray (s : schema) (least most : option Z)
  | ZObject (strict : bool) (shape : list (string * schema))
  | ZOptional (s : schema)
  | ZNullable (s : schema)
  | ZDefault (s : schema) (d : value)
  | ZUnion (ss : list schema)
  | ZDiscriminated (key : string) (ss : list schema)
  | ZRefine (s : schema) (test : value -> bool).

Fixpoint schema_ind' (P : schema -> Prop)
    (Hs : forall st, P (ZString st)) (Hf : forall f, P (ZFormat f)) (Hn : forall c, P (ZNumber c)) (Hb : P ZBoolean)
    (Hl : forall l, P (ZLiteral l)) (He : forall ns, P (ZEnum ns)) (Hu : P ZUnknown)
    (Ha : forall s l m, P s -> P (ZArray s l m))
    (Ho : forall b shape, Forall (fun e => P e.2) shape -> P (ZObject b shape))
    (Hopt : forall s, P s -> P (ZOptional s)) (Hnull : forall s, P s -> P (ZNullable s))
    (Hd : forall s d, P s -> P (ZDefault s d)) (Hun : forall ss, Forall P ss -> P (ZUnion ss))
    (Hdu : forall k ss, Forall P ss -> P (ZDiscriminated k ss)) (Hr : forall s t, P s -> P (ZRefine s t))
    (s : schema) : P s :=
  let rec := schema_ind' P Hs Hf Hn Hb Hl He Hu Ha Ho Hopt Hnull Hd Hun Hdu Hr in
  match s with
  | ZString st => Hs st | ZFormat f => Hf f | ZNumber c => Hn c | ZBoolean => Hb | ZLiteral l => Hl l
  | ZEnum ns => He ns | ZUnknown => Hu | ZArray s l m => Ha s l m (rec s)
  | ZObject b shape =>
      Ho b shape ((fix go l := match l return Forall (fun e => P e.2) l with
                   | [] => List.Forall_nil _
                   | e :: l => @List.Forall_cons _ (fun e => P e.2) e l (rec e.2) (go l)
                   end) shape)
  | ZOptional s => Hopt s (rec s) | ZNullable s => Hnull s (rec s) | ZDefault s d => Hd s d (rec s)
  | ZUnion ss =>
      Hun ss ((fix go l := match l return Forall P l with
               | [] => List.Forall_nil _ | s :: l => @List.Forall_cons _ P s l (rec s) (go l) end) ss)
  | ZDiscriminated k ss =>
      Hdu k ss ((fix go l := match l return Forall P l with
                 | [] => List.Forall_nil _ | s :: l => @List.Forall_cons _ P s l (rec s) (go l) end) ss)
  | ZRefine s t => Hr s t (rec s)
  end.

(** *** The combinators *)
Fixpoint run_steps (steps : list text_step) (s : string) : option string :=
  match steps with
  | [] => Some s
  | MinLength n :: steps => if n <=? Z.of_nat (String.length s) then run_steps steps s else None
  | MaxLength n :: steps => if Z.of_nat (String.length s) <=? n then run_steps steps s else None
  | Trimmed :: steps => run_steps steps (trim s)
  | Satisfies test :: steps => if test s then run_steps steps s else None
  | Mapped f :: steps => run_steps steps (f s)
  end.
Definition number_check_ok (n : number) (c : number_check) : bool :=
  match c with
  | Int => match integer_of n with Some i => Z.abs i <=? MAX_SAFE_INTEGER | None => false end
  | AtLeast z => number_leb z n
  | AtMost z => number_geb z n
  end.
Definition literal_is (l : literal) (v : value) : bool :=
  match l, v with
  | LText s, VString t => s =s t
  | LBool b, VBool c => Bool.eqb b c
  | LInt z, VNumber n => bool_decide (integer_of n = Some z)
  | _, _ => false
  end.
(** The value of an own key, [undefined] when there is none. *)
Definition own (key : string) (es : list (string * value)) : option value :=
  snd <$> find_first (fun e => e.1 =s key) es.
Definition own_value (key : string) (es : list (string * value)) : value := default VUndefined (own key es).
Definition own_key (key : string) (es : list (string * value)) : bool :=
  match own key es with Some _ => true | None => false end.

Section Combinators.
Context (parse : schema -> value -> option value).

Definition parse_elements : schema -> list value -> option (list value) := fun s =>
  fix go vs := match vs with
               | [] => Some []
               | v :: vs => w ← parse s v; ws ← go vs; Some (w :: ws)
               end.
Definition parse_shape : list (string * schema) -> list (string * value) -> option (list (string * value)) :=
  fix go shape es :=
    match shape with
    | [] => Some []
    | (k, s) :: shape =>
        w ← parse s (own_value k es);
        ws ← go shape es;
        Some (if is_undefined w && negb (own_key k es) then ws else (k, w) :: ws)
    end.
Definition parse_first : list schema -> value -> option value :=
  fix go ss v :=
    match ss with
    | [] => None
    | s :: ss => match parse s v with Some w => Some w | None => go ss v end
    end.
(** The literal that an option of a discriminated union has under the key. *)
Fixpoint discriminator (key : string) (s : schema) : option literal :=
  match s with
  | ZObject _ shape =>
      match find_first (fun e => e.1 =s key) shape with Some (_, ZLiteral l) => Some l | _ => None end
  | ZRefine s _ => discriminator key s
  | _ => None
  end.
Definition selected (key : string) (v : value) (s : schema) : bool :=
  match discriminator key s with Some l => literal_is l v | None => false end.
Definition parse_selected (key : string) (v : value) : list schema -> value -> option value :=
  fix go ss v' :=
    match ss with
    | [] => None
    | s :: ss => if selected key v s then parse s v' else go ss v'
    end.
End Combinators.

Definition within (least most : option Z) (n : Z) : bool :=
  match least with Some l => l <=? n | None => true end && match most with Some m => n <=? m | None => true end.
Definition known_keys {A} (shape : list (string * A)) (es : list (string * value)) : bool :=
  forallb (fun e => existsb (fun k => e.1 =s k) (map fst shape)) es.

(** *** Schemas made of schemas *)
Definition strict (s : schema) : schema := match s with ZObject _ shape => ZObject true shape | _ => s end.
(** [s.extend(shape)]: [{ ...s.shape, ...shape }]. *)
Definition extend (s : schema) (shape : list (string * schema)) : schema :=
  match s with
  | ZObject b base => ZObject b (fold_left (fun acc e => obj_set e.1 e.2 acc) shape base)
  | _ => s
  end.
Definition shape_of (s : schema) (key : string) : schema :=
  match s with
  | ZObject _ shape => default (ZUnion []) (snd <$> find_first (fun e => e.1 =s key) shape)
  | _ => ZUnion []
  end.
Definition pick (s : schema) (keys : list string) : schema :=
  match s with ZObject b _ => ZObject b (map (fun k => (k, shape_of s k)) keys) | _ => s end.

(** *** What refinements look at *)
Definition field (key : string) (v : value) : value :=
  match v with VObject _ es => own_value key es | _ => VUndefined end.
Definition given (v : value) : bool := negb (is_undefined v).
Definition is_text (s : string) (v : value) : bool := match v with VString t => t =s s | _ => false end.
Definition same_text (v w : value) : bool := match v, w with VString s, VString t => s =s t | _, _ => false end.
Definition items (v : value) : list value := match v with VArray vs => vs | _ => [] end.
(** [v >= w] on whole numbers. *)
Definition at_least (v w : value) : bool :=
  match v, w with
  | VNumber n, VNumber m => match integer_of n, integer_of m with Some i, Some j => j <=? i | _, _ => false end
  | _, _ => false
  end.
Fixpoint distinct (f : string -> string) (vs : list value) : bool :=
  match vs with
  | [] => true
  | VString s :: vs => negb (existsb (fun v => match v with VString t => f s =s f t | _ => false end) vs) && distinct f vs
  | _ :: vs => distinct f vs
  end.

(** *** The parser *)
Class Zod := {
  format_ok : format -> string -> bool;
  zod_parse : schema -> value -> option value;
}.

Class ZodLaws (ZP : Zod) := {
  parse_ZString : forall st v, zod_parse (ZString st) v =
    match v with VString s => VString <$> run_steps st s | _ => None end;
  parse_ZFormat : forall f v, zod_parse (ZFormat f) v =
    match v with VString s => if format_ok f s then Some v else None | _ => None end;
  parse_ZNumber : forall cs v, zod_parse (ZNumber cs) v =
    match v with
    | VNumber n => if isFinite n && forallb (number_check_ok n) cs then Some v else None
    | _ => None
    end;
  parse_ZBoolean : forall v, zod_parse ZBoolean v = match v with VBool _ => Some v | _ => None end;
  parse_ZLiteral : forall l v, zod_parse (ZLiteral l) v = if literal_is l v then Some v else None;
  parse_ZEnum : forall ns v, zod_parse (ZEnum ns) v =
    match v with VString s => if includes ns s then Some v else None | _ => None end;
  parse_ZUnknown : forall v, zod_parse ZUnknown v = Some v;
  parse_ZArray : forall s l m v, zod_parse (ZArray s l m) v =
    match v with
    | VArray vs =>
        ws ← parse_elements zod_parse s vs;
        if within l m (Z.of_nat (length vs)) then Some (VArray ws) else None
    | _ => None
    end;
  parse_ZObject : forall strict shape v, zod_parse (ZObject strict shape) v =
    match v with
    | VObject _ es =>
        ws ← parse_shape zod_parse shape es;
        if strict && negb (known_keys shape es) then None else Some (VObject true ws)
    | _ => None
    end;
  parse_ZOptional : forall s v, zod_parse (ZOptional s) v =
    if is_undefined v then Some VUndefined else zod_parse s v;
  parse_ZNullable : forall s v, zod_parse (ZNullable s) v =
    match v with VNull => Some VNull | _ => zod_parse s v end;
  parse_ZDefault : forall s d v, zod_parse (ZDefault s d) v =
    if is_undefined v then Some d
    else w ← zod_parse s v; Some (if is_undefined w then d else w);
  parse_ZUnion : forall ss v, zod_parse (ZUnion ss) v = parse_first zod_parse ss v;
  parse_ZDiscriminated : forall key ss v, zod_parse (ZDiscriminated key ss) v =
    match v with
    | VObject _ es => parse_selected zod_parse key (own_value key es) ss v
    | _ => None
    end;
  parse_ZRefine : forall s test v, zod_parse (ZRefine s test) v =
    w ← zod_parse s v; if test w then Some w else None;
}.

(** *** A parser with these laws *)
Fixpoint run (format_ok : format -> string -> bool) (s : schema) (v : value) {struct s} : option value :=
  match s with
  | ZString st => match v with VString s => VString <$> run_steps st s | _ => None end
  | ZFormat f => match v with VString s => if format_ok f s then Some v else None | _ => None end
  | ZNumber cs =>
      match v with
      | VNumber n => if isFinite n && forallb (number_check_ok n) cs then Some v else None
      | _ => None
      end
  | ZBoolean => match v with VBool _ => Some v | _ => None end
  | ZLiteral l => if literal_is l v then Some v else None
  | ZEnum ns => match v with VString s => if includes ns s then Some v else None | _ => None end
  | ZUnknown => Some v
  | ZArray s l m =>
      match v with
      | VArray vs =>
          ws ← parse_elements (run format_ok) s vs;
          if within l m (Z.of_nat (length vs)) then Some (VArray ws) else None
      | _ => None
      end
  | ZObject strict shape =>
      match v with
      | VObject _ es =>
          ws ← parse_shape (run format_ok) shape es;
          if strict && negb (known_keys shape es) then None else Some (VObject true ws)
      | _ => None
      end
  | ZOptional s => if is_undefined v then Some VUndefined else run format_ok s v
  | ZNullable s => match v with VNull => Some VNull | _ => run format_ok s v end
  | ZDefault s d =>
      if is_undefined v then Some d
      else w ← run format_ok s v; Some (if is_undefined w then d else w)
  | ZUnion ss => parse_first (run format_ok) ss v
  | ZDiscriminated key ss =>
      match v with
      | VObject _ es => parse_selected (run format_ok) key (own_value key es) ss v
      | _ => None
      end
  | ZRefine s test => w ← run format_ok s v; if test w then Some w else None
  end.
Definition run_zod (ok : format -> string -> bool) : Zod := {| format_ok := ok; zod_parse := run ok |}.
#[export] Instance run_zod_laws ok : ZodLaws (run_zod ok).
Proof. by split. Qed.
End Schemas.

(** ** Every parser with the laws is this one *)
Section Agreement.
Context `{JN : JsNumber} `{JI : !JsInteger JN}.

Lemma elements_ext p q s vs : (forall v, p s v = q s v) -> parse_elements p s vs = parse_elements q s vs.
Proof. intros H. induction vs as [|v vs IH]; simpl; [done|]. by rewrite H, IH. Qed.
Lemma shape_ext p q shape es :
  Forall (fun e => forall v, p e.2 v = q e.2 v) shape -> parse_shape p shape es = parse_shape q shape es.
Proof. induction 1 as [|[k s] shape H _ IH]; simpl; [done|]. by rewrite H, IH. Qed.
Lemma first_ext p q ss v : Forall (fun s => forall v, p s v = q s v) ss -> parse_first p ss v = parse_first q ss v.
Proof. induction 1 as [|s ss H _ IH]; simpl; [done|]. by rewrite H, IH. Qed.
Lemma selected_ext p q k u ss v :
  Forall (fun s => forall v, p s v = q s v) ss -> parse_selected p k u ss v = parse_selected q k u ss v.
Proof. induction 1 as [|s ss H _ IH]; simpl; [done|]. by rewrite H, IH. Qed.

Lemma parse_run {ZP : Zod} {ZL : ZodLaws ZP} s v : zod_parse s v = run format_ok s v.
Proof.
  revert v. induction s as [st|f|cs| |l|ns| |s l m IH|b shape IH|s IH|s IH|s d IH|ss IH|k ss IH|s t IH] using schema_ind';
    intros v; cbn [run].
  - apply parse_ZString.
  - apply parse_ZFormat.
  - apply parse_ZNumber.
  - apply parse_ZBoolean.
  - apply parse_ZLiteral.
  - apply parse_ZEnum.
  - apply parse_ZUnknown.
  - rewrite parse_ZArray. destruct v; try done. by rewrite (elements_ext _ _ _ _ IH).
  - rewrite parse_ZObject. destruct v; try done. by rewrite (shape_ext _ _ _ _ IH).
  - by rewrite parse_ZOptional, IH.
  - rewrite parse_ZNullable. by destruct v.
  - by rewrite parse_ZDefault, IH.
  - by rewrite parse_ZUnion, (first_ext _ _ _ _ IH).
  - rewrite parse_ZDiscriminated. destruct v; try done. by rewrite (selected_ext _ _ _ _ _ _ IH).
  - by rewrite parse_ZRefine, IH.
Qed.
End Agreement.

(** ** Own keys *)
Section Keys.
Context `{JN : JsNumber}.
Implicit Types es : list (string * value).

Lemma own_cons k k' v es : own k ((k', v) :: es) = if k' =s k then Some v else own k es.
Proof. unfold own. simpl. by destruct (k' =s k). Qed.
Lemma own_none k es : own k es = None <-> k ∉ map fst es.
Proof.
  induction es as [|[k' v] es IH]; [split; [intros _; apply not_elem_of_nil|done]|].
  rewrite own_cons. simpl. rewrite not_elem_of_cons. destruct (String.eqb_spec k' k) as [->|Hn].
  - split; [done|]. by intros [? _].
  - rewrite IH. split; [|by intros [_ ?]]. intros H. split; [congruence|done].
Qed.
Lemma own_in k v es : own k es = Some v -> (k, v) ∈ es.
Proof.
  induction es as [|[k' v'] es IH]; [done|]. rewrite own_cons. destruct (String.eqb_spec k' k) as [->|Hn].
  - intros [= ->]. left.
  - intros H. right. by apply IH.
Qed.
Lemma known_keys_spec {A} (shape : list (string * A)) es :
  known_keys shape es = true <-> forall k, k ∈ map fst es -> k ∈ map fst shape.
Proof.
  unfold known_keys. rewrite forallb_forall. split.
  - intros H k Hk. apply list_elem_of_fmap in Hk as ([k' v] & -> & Hin). apply list_elem_of_In in Hin.
    specialize (H _ Hin). apply existsb_exists in H as (k & Hk & E). apply String.eqb_eq in E. simpl in *. subst k'.
    by apply list_elem_of_In.
  - intros H [k v] Hin. apply existsb_exists. exists k. rewrite String.eqb_refl. split; [|done].
    apply list_elem_of_In, H, list_elem_of_fmap. exists (k, v). split; [done|]. by apply list_elem_of_In.
Qed.
End Keys.

(** ** Texts that the steps leave alone *)
Section Stability.
Context `{JN : JsNumber} `{JI : !JsInteger JN} (ok : format -> string -> bool).
Notation run := (run ok).

Definition steps_stable (st : list text_step) : Prop :=
  forall s t, run_steps st s = Some t -> run_steps st t = Some t.
Definition is_check (s : text_step) : bool := match s with Trimmed | Mapped _ => false | _ => true end.

Lemma run_steps_app st1 st2 s : run_steps (st1 ++ st2) s = run_steps st1 s ≫= run_steps st2.
Proof.
  revert s. induction st1 as [|x st1 IH]; intros s; simpl; [done|]. destruct x; try by rewrite IH.
  - destruct (_ <=? _); [apply IH|done].
  - destruct (_ <=? _); [apply IH|done].
  - destruct (test s); [apply IH|done].
Qed.
Lemma checks_same st s t : forallb is_check st = true -> run_steps st s = Some t -> t = s.
Proof.
  induction st as [|x st IH]; simpl; intros H E; [congruence|]. apply andb_true_iff in H as [Hx H].
  destruct x; try done; case_match; try done; by apply IH.
Qed.
Lemma checks_stable st : forallb is_check st = true -> steps_stable st.
Proof. intros H s t E. pose proof (checks_same st s t H E) as ->. done. Qed.
(** A map first, whose values it leaves alone, and checks. *)
Lemma mapped_stable f st :
  (forall s, f (f s) = f s) -> forallb is_check st = true -> steps_stable (Mapped f :: st).
Proof. intros Hf H s t E. simpl in *. pose proof (checks_same st _ t H E) as ->. by rewrite Hf. Qed.
Lemma trimmed_stable st : forallb is_check st = true -> steps_stable (Trimmed :: st).
Proof. apply (mapped_stable trim), trim_idem. Qed.
(** Checks, then a map that keeps them. *)
Lemma map_last_stable f st :
  forallb is_check st = true -> (forall s, run_steps st s = Some s -> run_steps st (f s) = Some (f s) /\ f (f s) = f s) ->
  steps_stable (st ++ [Mapped f]).
Proof.
  intros H Hf s t. rewrite !run_steps_app. destruct (run_steps st s) as [u|] eqn:E; [|done]. simpl. intros [= <-].
  pose proof (checks_same st s u H E) as ->. destruct (Hf s E) as [-> Hff]. simpl. by rewrite Hff.
Qed.

Lemma shape_keys p shape es ws : parse_shape p shape es = Some ws -> forall k, k ∈ map fst ws -> k ∈ map fst shape.
Proof.
  revert ws. induction shape as [|[k s] shape IH]; simpl; intros ws E k' Hk; [by simplify_eq|].
  destruct (p s _) as [w|]; [|done]. simpl in E. destruct (parse_shape p shape es) as [ws'|] eqn:Es; [|done].
  simpl in E. destruct (_ && _); simplify_eq/=.
  - right. by eapply IH.
  - apply elem_of_cons in Hk as [->|Hk]; [left|right; by eapply IH].
Qed.

End Stability.

(** ** Values that arrive *)
Section Portability.
Context `{JN : JsNumber} `{JI : !JsInteger JN} {JL : JsIntegerLaws JN JI} (ok : format -> string -> bool).
Notation run := (run ok).

(** A schema that never answers [undefined]. *)
Fixpoint defined (s : schema) : bool :=
  match s with
  | ZOptional _ | ZUnknown => false
  | ZNullable s | ZRefine s _ => defined s
  | ZDefault _ d => negb (is_undefined d)
  | ZUnion ss | ZDiscriminated _ ss => forallb defined ss
  | _ => true
  end.
(** What a parser makes of data: finite numbers, no functions, entries in the order of own keys. *)
Fixpoint writable (v : value) : Prop :=
  match v with
  | VNumber n => isFinite n = true
  | VArray vs => fold_right and True (map writable vs)
  | VObject _ es => own_order es /\ fold_right and True (map (fun e => writable e.2) es)
  | VOther _ => False
  | _ => True
  end.
(** A test that does not tell a value from what JSON keeps of it. *)
Definition json_test (test : value -> bool) : Prop :=
  forall w w', writable w -> as_json w = Some w' -> test w = true -> test w' = true.

Fixpoint portable (s : schema) : Prop :=
  match s with
  | ZString st => steps_stable st
  | ZUnknown => False
  | ZArray s _ _ => portable s /\ defined s = true
  | ZOptional s | ZNullable s => portable s
  | ZObject _ shape => own_order shape /\ fold_right and True (map (fun e => portable e.2) shape)
  | ZDefault s d => portable s /\ run s d = Some d /\ as_json d = Some d /\ writable d
  | ZUnion ss =>
      fold_right and True (map portable ss) /\ forallb defined ss = true
      /\ (forall before s after v w w', ss = before ++ s :: after -> run s v = Some w -> as_json w = Some w' ->
          parse_first run before w' = None)
  | ZDiscriminated key ss => fold_right and True (map portable ss)
  | ZRefine s test => portable s /\ defined s = true /\ json_test test
  | _ => True
  end.

(** What arrives of a parsed value, and that the schema takes it as it is. *)
Definition arrives (s : schema) : Prop := forall v w, run s v = Some w ->
  writable w /\ match as_json w with
                   | Some w' => run s w' = Some w'
                   | None => w = VUndefined /\ run s VUndefined = Some VUndefined
                   end.

Lemma writable_array ws : writable (VArray ws) <-> Forall writable ws.
Proof. apply (fold_and writable). Qed.
Lemma writable_object p es : writable (VObject p es) <-> own_order es /\ Forall (fun e => writable e.2) es.
Proof. simpl. by rewrite (fold_and (fun e => writable e.2)). Qed.
Lemma writable_well_formed w : writable w -> well_formed w.
Proof.
  induction w as [| | | | |vs IH|p es IH|] using value_ind'; try done.
  - rewrite writable_array. intros H. apply (proj2 (fold_and well_formed vs)). rewrite Forall_forall in *. auto.
  - rewrite writable_object. intros [Ho H]. split; [done|]. apply (proj2 (fold_and (fun e => well_formed e.2) es)).
    rewrite Forall_forall in *. auto.
Qed.
Lemma writable_text w : writable w -> exists t, JSON_stringify w = Ok t.
Proof.
  assert (Hc : forall {A} (rs : list (result exn A)), Forall (fun r => exists a, r = Ok a) rs -> exists l, collect rs = Ok l).
  { intros A rs. induction 1 as [|r rs [a ->] _ [l IH]]; simpl; [by eexists|]. rewrite IH. by eexists. }
  induction w as [| | | | |vs IH|p es IH|] using value_ind'; intros H;
    [by eexists..| | |by destruct H].
  - apply writable_array in H. cbn [JSON_stringify]. destruct (Hc _ (map JSON_stringify vs)) as [l ->]; [|by eexists].
    apply Forall_map. rewrite Forall_forall in *. auto.
  - apply writable_object in H as [_ H]. cbn [JSON_stringify]. 
    destruct (Hc _ (map (fun e => t ← JSON_stringify e.2; Ok (e.1, t)) es)) as [l ->]; [|by eexists]. apply Forall_map. rewrite Forall_forall in *. intros e He. destruct (IH e He (H e He)) as [t ->]. by eexists.
Qed.
Lemma writable_kept w : writable w -> w <> VUndefined -> exists w', as_json w = Some w'.
Proof. destruct w; try done; by eexists. Qed.

Lemma as_json_defined v w : as_json v = Some w -> w <> VUndefined.
Proof. destruct v as [| | |n| | | |]; simpl; intros [= <-]; [done..|by destruct (isFinite n)|done|done|done]. Qed.
Lemma read_entries_keys k es : k ∈ map fst (read_entries es) -> k ∈ map fst es.
Proof.
  induction es as [|[k' v] es IH]; [done|]. unfold read_entries. simpl. destruct (as_json v); simpl.
  - intros [->|H]%elem_of_cons; [left|right; by apply IH].
  - intros H. right. by apply IH.
Qed.
Lemma own_read k es : NoDup (map fst es) -> own k (read_entries es) = own k es ≫= as_json.
Proof.
  induction es as [|[k' v] es IH]; simpl; intros Hd; [done|]. inversion Hd as [|? ? Hk Hd']; subst.
  specialize (IH Hd'). rewrite own_cons. unfold read_entries in *. simpl. destruct (String.eqb_spec k' k) as [->|Hn].
  - destruct (as_json v) as [w|] eqn:E; simpl; [by rewrite own_cons, String.eqb_refl|]. rewrite E.
    apply own_none. intros H%read_entries_keys. done.
  - destruct (as_json v); simpl; [|done]. rewrite own_cons. destruct (String.eqb_spec k' k); [done|]. done.
Qed.
Lemma own_value_read k es : NoDup (map fst es) -> own_value k (read_entries es) = default VUndefined (as_json (own_value k es)).
Proof. intros H. unfold own_value. rewrite own_read by done. by destruct (own k es). Qed.
Lemma own_order_nodup {A} (es : list (string * A)) : own_order es -> NoDup (map fst es).
Proof.
  induction 1 as [|e es H IH Hf]; simpl; constructor; [|done]. intros Hin%list_elem_of_fmap.
  destruct Hin as (x & E & Hx). rewrite Forall_forall in Hf. destruct (Hf x Hx). congruence.
Qed.

Lemma defined_parsed s v w : defined s = true -> run s v = Some w -> w <> VUndefined.
Proof.
  revert v w. induction s as [st|f|cs| |l|ns| |s l m IH|b shape IH|s IH|s IH|s d IH|ss IH|k ss IH|s t IH] using schema_ind';
    intros v w Hd E; cbn [run defined] in *; try done.
  - destruct v; try done. by destruct (run_steps st s) as [t|]; simplify_eq/=.
  - destruct v; try done. by destruct (ok f s); simplify_eq.
  - destruct v; try done. by destruct (_ && _); simplify_eq.
  - by destruct v; simplify_eq.
  - by destruct l, v; simpl in E; try done; case_match; simplify_eq.
  - destruct v; try done. by destruct (includes ns s); simplify_eq.
  - destruct v; try done. destruct (parse_elements _ _ _); simpl in E; [|done]. by destruct (within _ _ _); simplify_eq.
  - destruct v; try done. destruct (parse_shape _ _ _); simpl in E; [|done]. by destruct (_ && _); simplify_eq.
  - destruct v; by eauto || simplify_eq.
  - destruct (is_undefined v); [injection E as <-; by destruct d|]. destruct (run s v) as [u|]; simpl in E; [|done].
    destruct (is_undefined u) eqn:Eu; injection E as <-; [by destruct d|by destruct u].
  - induction IH as [|s ss Hs _ IH]; [done|]. simpl in *. apply andb_true_iff in Hd as [Hd Hds].
    destruct (run s v) as [u|] eqn:Eu; [simplify_eq; by eapply Hs|by apply IH].
  - destruct v; try done. set (u := own_value k es) in *. clearbody u.
    induction IH as [|s ss Hs _ IH]; [done|]. simpl in *. apply andb_true_iff in Hd as [Hd Hds].
    destruct (selected k u s); [by eapply Hs|by apply IH].
  - destruct (run s v) as [u|] eqn:Eu; simpl in E; [|done]. destruct (t u); simplify_eq. by eapply IH.
Qed.

Lemma elements_arrive s vs ws :
  arrives s -> defined s = true -> parse_elements run s vs = Some ws ->
  Forall writable ws /\ length ws = length vs
  /\ parse_elements run s (map (fun w => default VNull (as_json w)) ws) = Some (map (fun w => default VNull (as_json w)) ws).
Proof.
  intros Hs Hd. revert ws. induction vs as [|v vs IH]; simpl; intros ws E; [by simplify_eq|].
  destruct (run s v) as [w|] eqn:Ev; [|done]. simpl in E.
  destruct (parse_elements run s vs) as [ws'|] eqn:Es; [|done]. simplify_eq/=.
  destruct (IH _ eq_refl) as (H1 & H2 & H3). destruct (Hs v w Ev) as [Hw Ha].
  pose proof (defined_parsed s v w Hd Ev) as Hne.
  split_and!; [by constructor|by rewrite H2|]. destruct (as_json w) as [w'|]; [|by destruct Ha].
  simpl. by rewrite Ha, H3.
Qed.

(** Any object with what JSON keeps of the values parsed. *)
Lemma shape_arrives shape es ws es2 :
  NoDup (map fst shape) -> Forall (fun e => arrives e.2) shape -> parse_shape run shape es = Some ws ->
  (forall k, k ∈ map fst shape -> own k es2 = own k ws ≫= as_json) ->
  Forall (fun e => writable e.2) ws /\ parse_shape run shape es2 = Some (read_entries ws).
Proof.
  intros Hnd Hst. revert ws es2. induction Hst as [|[k s] shape Hs Hst IH]; simpl; intros ws es2 E Hag; [by simplify_eq|].
  inversion Hnd as [|? ? Hk Hnd']; subst.
  destruct (run s (own_value k es)) as [w|] eqn:Ew; [|done]. simpl in E, Hs.
  destruct (parse_shape run shape es) as [ws'|] eqn:Es; [|done]. simpl in E.
  assert (Hk' : own k ws' = None) by (apply own_none; intros Hin; by apply Hk, (shape_keys _ _ _ _ Es)).
  destruct (Hs _ _ Ew) as [Hw Ha]. assert (Hgone : own k es2 = None -> w = VUndefined /\ run s VUndefined = Some VUndefined ->
    own_value k es2 = VUndefined /\ own_key k es2 = false) by (intros Ho _; unfold own_value, own_key; by rewrite Ho).
  destruct (is_undefined w && negb (own_key k es)) eqn:Eu; simplify_eq.
  - apply andb_true_iff in Eu as [Ew' Ek]. destruct w; try done. simpl in Ha. destruct Hgone as [-> ->]; [|done|].
    { rewrite Hag, Hk'; [done|left]. }
    destruct (IH Hnd' _ es2 eq_refl) as [H1 H2]; [intros k' Hin; apply Hag; by right|].
    split; [done|]. destruct Ha as [_ ->]. simpl. by rewrite H2.
  - destruct (IH Hnd' _ es2 eq_refl) as [H1 H2].
    { intros k' Hin. rewrite Hag by (by right). rewrite own_cons. by destruct (String.eqb_spec k k') as [->|]. }
    split; [by constructor|]. unfold read_entries. simpl.
    assert (Ho : own k es2 = as_json w) by (rewrite Hag, own_cons, String.eqb_refl; [done|left]).
    destruct (as_json w) as [w'|] eqn:Ej; simpl.
    + unfold own_value, own_key. rewrite Ho. simpl. rewrite Ha. simpl. rewrite H2. simpl.
      by rewrite andb_false_r.
    + destruct (Hgone Ho Ha) as [-> ->]. destruct Ha as [_ ->]. simpl. by rewrite H2.
Qed.

Lemma shape_sublist p shape es ws : parse_shape p shape es = Some ws -> map fst ws `sublist_of` map fst shape.
Proof.
  revert ws. induction shape as [|[k s] shape IH]; simpl; intros ws E; [by simplify_eq|].
  destruct (p s _) as [w|]; [|done]. simpl in E. destruct (parse_shape p shape es) as [ws'|] eqn:Es; [|done].
  simpl in E. destruct (_ && _); simplify_eq/=; [by apply sublist_cons, IH|by apply sublist_skip, IH].
Qed.
Lemma own_order_shape {A B} (shape : list (string * A)) (ws : list (string * B)) :
  map fst ws `sublist_of` map fst shape -> own_order shape -> own_order ws.
Proof.
  intros Hs Ho. assert (H : own_order (map (fun k => (k, tt)) (map fst ws))).
  { eapply own_order_sublist; [apply (fmap_sublist (fun k => (k, tt)) _ _ Hs)|].
    eapply own_order_keys; [|exact Ho]. rewrite map_map. simpl. by rewrite map_id. }
  eapply own_order_keys; [|exact H]. rewrite map_map. simpl. by rewrite map_id.
Qed.

Lemma object_arrives strict shape :
  own_order shape -> Forall (fun e => arrives e.2) shape -> arrives (ZObject strict shape).
Proof.
  intros Ho Hs v w. cbn [run]. destruct v as [| | | | | |p es|]; try done.
  destruct (parse_shape run shape es) as [ws|] eqn:E; [|done]. cbn [mbind option_bind].
  destruct (strict && _); [done|]. intros [= <-]. pose proof (shape_sublist _ _ _ _ E) as Hsub.
  pose proof (own_order_shape _ _ Hsub Ho) as How. pose proof (own_order_nodup _ How) as Hnd.
  destruct (shape_arrives shape es ws (read_entries ws)) as [H1 H2]; [by apply own_order_nodup|done|done| |].
  { intros k _. by apply own_read. }
  split; [by apply writable_object|].
  change (as_json (VObject true ws)) with (Some (VObject true (read_entries ws))). cbn [run].
  rewrite H2. cbn [mbind option_bind].
  assert (known_keys shape (read_entries ws) = true) as ->.
  { apply known_keys_spec. intros k Hk%read_entries_keys. exact (shape_keys _ _ _ _ E k Hk). }
  by rewrite andb_false_r.
Qed.

(** The parsed value of a key. *)
Lemma shape_own p shape es ws k s :
  NoDup (map fst shape) -> parse_shape p shape es = Some ws -> (k, s) ∈ shape ->
  exists w, p s (own_value k es) = Some w
    /\ own k ws = if is_undefined w && negb (own_key k es) then None else Some w.
Proof.
  revert ws. induction shape as [|[k' s'] shape IH]; simpl; intros ws Hd E Hin; [by apply elem_of_nil in Hin|].
  inversion Hd as [|? ? Hk Hd']; subst.
  destruct (p s' (own_value k' es)) as [w|] eqn:Ew; [|done]. simpl in E.
  destruct (parse_shape p shape es) as [ws'|] eqn:Es; [|done]. simpl in E.
  apply elem_of_cons in Hin as [[= -> ->]|Hin].
  - exists w. split; [done|]. destruct (_ && _); injection E as <-.
    + apply own_none. intros H. apply Hk. exact (shape_keys _ _ _ _ Es _ H).
    + by rewrite own_cons, String.eqb_refl.
  - destruct (IH _ Hd' eq_refl Hin) as (w0 & H1 & H2). exists w0. split; [done|].
    assert (k' <> k) by (intros ->; apply Hk, list_elem_of_fmap; by exists (k, s)).
    destruct (is_undefined w && _); injection E as <-; [done|]. rewrite own_cons.
    by destruct (String.eqb_spec k' k).
Qed.

Lemma literal_json l v : literal_is l v = true -> as_json v = Some v /\ v <> VUndefined /\ writable v.
Proof.
  destruct l, v as [| | |n| | | |]; simpl; try done. intros H%bool_decide_eq_true. by rewrite (integer_finite n z).
Qed.
Lemma literal_parsed l v w : run (ZLiteral l) v = Some w -> w = v /\ literal_is l v = true.
Proof. cbn [run]. by destruct (literal_is l v); intros [= ->]. Qed.

Lemma refine_parsed s test v w : run (ZRefine s test) v = Some w -> run s v = Some w /\ test w = true.
Proof.
  cbn [run]. destruct (run s v) as [u|]; [|done]. cbn [mbind option_bind]. destruct (test u) eqn:E; [|done].
  by intros [= <-].
Qed.
Lemma object_parsed strict shape v w : run (ZObject strict shape) v = Some w ->
  exists p es ws, v = VObject p es /\ w = VObject true ws /\ parse_shape run shape es = Some ws
    /\ (strict = true -> known_keys shape es = true).
Proof.
  cbn [run]. destruct v as [| | | | | |p es|]; try done. destruct (parse_shape run shape es) as [ws|] eqn:E; [|done].
  cbn [mbind option_bind]. destruct (strict && negb (known_keys shape es)) eqn:Ek; [done|]. intros [= <-].
  exists p, es, ws. split_and!; [done..|]. intros ->. by apply negb_false_iff in Ek.
Qed.

(** The option that was selected is selected again. *)
Lemma discriminator_kept key s l p es w :
  portable s -> discriminator key s = Some l -> run s (VObject p es) = Some w ->
  exists ws, w = VObject true ws /\ NoDup (map fst ws) /\ own key ws = Some (own_value key es)
    /\ literal_is l (own_value key es) = true.
Proof.
  revert w. induction s as [| | | | | | | |b shape _| | | | | |s t IH] using schema_ind'; intros w Hp Hl; cbn [discriminator] in Hl; try done.
  - destruct Hp as [Ho _]. pose proof (own_order_nodup _ Ho) as Hnd.
    destruct (find_first _ shape) as [[k s]|] eqn:Ef; [|done]. destruct s; try done. injection Hl as ->.
    apply find_first_some in Ef as [Hin Hk]. simpl in Hk. apply String.eqb_eq in Hk as ->.
    cbn [run]. destruct (parse_shape run shape es) as [ws|] eqn:E; [|done]. cbn [mbind option_bind].
    destruct (_ && _); [done|]. intros [= <-]. exists ws.
    destruct (shape_own _ _ _ _ _ _ Hnd E Hin) as (w & [-> Hlit]%literal_parsed & Hown). split_and!; [done| |..|done].
    + apply own_order_nodup. eapply own_order_shape; [exact (shape_sublist _ _ _ _ E)|done].
    + rewrite Hown. destruct (literal_json _ _ Hlit) as (_ & Hne & _). by destruct (own_value key es).
  - destruct Hp as [Hp _]. cbn [run]. destruct (run s _) as [u|] eqn:E; [|done]. cbn [mbind option_bind].
    destruct (t u); [|done]. intros [= <-]. by apply IH.
Qed.

Lemma selected_option p key u ss v w :
  parse_selected p key u ss v = Some w ->
  exists s, s ∈ ss /\ selected key u s = true /\ p s v = Some w /\ forall v', parse_selected p key u ss v' = p s v'.
Proof.
  induction ss as [|s ss IH]; simpl; [done|]. destruct (selected key u s) eqn:E.
  - intros H. exists s. split_and!; [left|done..].
  - intros (s' & H1 & H2 & H3 & H4)%IH. exists s'. split_and!; [by right|done..].
Qed.

Lemma discriminated_parsed key ss v w :
  run (ZDiscriminated key ss) v = Some w ->
  exists p es s, v = VObject p es /\ s ∈ ss /\ selected key (own_value key es) s = true /\ run s v = Some w.
Proof.
  cbn [run]. destruct v as [| | | | | |p es|]; try done. intros (s & H1 & H2 & H3 & _)%selected_option.
  by exists p, es, s.
Qed.
Lemma discriminated_arrives key ss :
  Forall portable ss -> Forall arrives ss -> arrives (ZDiscriminated key ss).
Proof.
  intros Hp Ha v w. cbn [run]. destruct v as [| | | | | |p es|]; try done.
  intros (s & Hin & Hs & E & Hall)%selected_option. rewrite Forall_forall in Hp, Ha.
  destruct (Ha s Hin _ _ E) as [Hw Hj]. split; [done|]. unfold selected in Hs.
  destruct (discriminator key s) as [l|] eqn:El; [|done].
  destruct (discriminator_kept key s l p es w (Hp s Hin) El E) as (ws & -> & Hnd & Hown & Hl).
  change (as_json (VObject true ws)) with (Some (VObject true (read_entries ws))) in *. cbv beta iota in *.
  assert (own_value key (read_entries ws) = own_value key es) as ->.
  { rewrite own_value_read by done. unfold own_value at 1. rewrite Hown. simpl.
    unfold id. by destruct (literal_json _ _ Hl) as [-> _]. }
  by rewrite Hall.
Qed.

Lemma array_arrives s l m : arrives s -> defined s = true -> arrives (ZArray s l m).
Proof.
  intros Ha Hd v w. cbn [run]. destruct v as [| | | | |vs| |]; try done.
  destruct (parse_elements run s vs) as [ws|] eqn:E; [|done]. cbn [mbind option_bind].
  destruct (within _ _ _) eqn:Ew; [|done]. intros [= <-].
  destruct (elements_arrive s vs ws Ha Hd E) as (H1 & H2 & H3).
  split; [by apply writable_array|]. cbn [as_json run].
  rewrite H3. cbn [mbind option_bind]. by rewrite length_map, H2, Ew.
Qed.

Lemma optional_arrives s : arrives s -> arrives (ZOptional s).
Proof.
  intros Ha v w. cbn [run]. destruct (is_undefined v); [intros [= <-]; by split|]. intros E.
  destruct (Ha v w E) as [Hw Hj]. split; [done|]. destruct (as_json w) as [w'|] eqn:Ej; [|by destruct Hj].
  apply as_json_defined in Ej. by destruct w'.
Qed.
Lemma nullable_arrives s : arrives s -> arrives (ZNullable s).
Proof.
  intros Ha v w E.
  assert (H : v = VNull /\ w = VNull \/ run s v = Some w) by (destruct v; simpl in E; simplify_eq; auto).
  destruct H as [[-> ->]|H]; [by split|]. destruct (Ha v w H) as [Hw Hj]. split; [done|].
  destruct (as_json w) as [w'|]; [by destruct w'|done].
Qed.
Lemma default_arrives s d :
  arrives s -> run s d = Some d -> as_json d = Some d -> writable d -> arrives (ZDefault s d).
Proof.
  intros Ha Hd Hj Hw v w. pose proof (as_json_defined _ _ Hj) as Hne.
  assert (Hdd : run (ZDefault s d) d = Some d) by (cbn [run]; rewrite Hd; by destruct d).
  cbn [run]. destruct (is_undefined v); [intros [= <-]; by rewrite Hj|].
  destruct (run s v) as [u|] eqn:E; [|done]. cbn [mbind option_bind].
  destruct (is_undefined u) eqn:Eu; intros [= <-]; [by rewrite Hj|]. destruct (Ha v u E) as [Hwu Hju]. split; [done|].
  destruct (as_json u) as [u'|] eqn:Ej; [|destruct Hju as [-> _]; done].
  apply as_json_defined in Ej. assert (is_undefined u' = false) as -> by by destruct u'.
  rewrite Hju. cbn [mbind option_bind]. by destruct u'.
Qed.
Lemma refine_arrives s test : arrives s -> defined s = true -> json_test test -> arrives (ZRefine s test).
Proof.
  intros Ha Hd Ht v w. cbn [run]. destruct (run s v) as [u|] eqn:E; [|done]. cbn [mbind option_bind].
  destruct (test u) eqn:Et; [|done]. intros [= <-]. destruct (Ha v u E) as [Hw Hj]. split; [done|].
  destruct (as_json u) as [u'|] eqn:Ej; [|destruct Hj as [Hu _]; by destruct (defined_parsed s v u Hd E Hu)].
  rewrite Hj. cbn [mbind option_bind]. by rewrite (Ht u u' Hw).
Qed.
Lemma first_option p ss v w : parse_first p ss v = Some w ->
  exists before s after, ss = before ++ s :: after /\ p s v = Some w.
Proof.
  induction ss as [|s ss IH]; simpl; [done|]. destruct (p s v) as [u|] eqn:E.
  - intros [= <-]. by exists [], s, ss.
  - intros (b & s' & a & -> & H)%IH. by exists (s :: b), s', a.
Qed.
Lemma first_app p before s after v : parse_first p before v = None ->
  parse_first p (before ++ s :: after) v = match p s v with Some w => Some w | None => parse_first p after v end.
Proof. induction before as [|b before IH]; simpl; [done|]. by destruct (p b v). Qed.

Lemma checks_arrive cs : arrives (ZNumber cs).
Proof.
  intros v w. cbn [run]. destruct v as [| | |n| | | |]; try done.
  destruct (isFinite n && _) eqn:E; [|done]. intros [= <-]. cbn [as_json run].
  apply andb_true_iff in E as [Hf E]. rewrite Hf. cbv beta iota. by rewrite Hf, E.
Qed.

(** Whatever the format parser: what JSON keeps of a parsed value is parsed to itself. *)
Lemma portable_arrives s : portable s -> arrives s.
Proof.
  induction s as [st|f|cs| |l|ns| |s l m IH|b shape IH|s IH|s IH|s d IH|ss IH|k ss IH|s t IH] using schema_ind';
    cbn [portable]; intros Hp.
  - intros v w. cbn [run]. destruct v; try done. destruct (run_steps st s) as [t|] eqn:E; [|done].
    intros [= <-]. split; [done|]. cbn [as_json run]. by rewrite (Hp s t E).
  - intros v w. cbn [run]. destruct v; try done. destruct (ok f s) eqn:E; [|done]. intros [= <-].
    split; [done|]. cbn [as_json run]. by rewrite E.
  - apply checks_arrive.
  - intros v w. cbn [run]. destruct v; by intros [= <-].
  - intros v w [-> Hl]%literal_parsed. destruct (literal_json _ _ Hl) as (Hj & _ & Hw). rewrite Hj. cbn [run]. by rewrite Hl.
  - intros v w. cbn [run]. destruct v; try done. destruct (includes ns s) eqn:E; [|done]. intros [= <-].
    split; [done|]. cbn [as_json run]. by rewrite E.
  - done.
  - destruct Hp as [Hp Hd]. by apply array_arrives; [apply IH|].
  - destruct Hp as [Ho Hp]. rewrite (fold_and (fun e => portable e.2)) in Hp. apply object_arrives; [done|].
    rewrite Forall_forall in *. intros e He. apply IH; [done|by apply Hp].
  - by apply optional_arrives, IH.
  - by apply nullable_arrives, IH.
  - destruct Hp as (Hp & H1 & H2 & H3). by apply default_arrives; [apply IH|..].
  - destruct Hp as (Hp & Hd & Hu). rewrite fold_and in Hp. intros v w E.
    pose proof (defined_parsed (ZUnion ss) v w Hd E) as Hne. cbn [run] in E.
    destruct (first_option _ _ _ _ E) as (b & s & a & -> & Es). apply Forall_app in IH as [_ IH], Hp as [_ Hp].
    inversion IH as [|? ? Hs _]; subst. inversion Hp as [|? ? Hps _]; subst.
    destruct (Hs Hps v w Es) as [Hw Hj]. split; [done|]. cbn [run]. destruct (as_json w) as [w'|] eqn:Ej.
    + rewrite first_app by exact (Hu b s a v w w' eq_refl Es Ej). by rewrite Hj.
    + by destruct Hj.
  - rewrite fold_and in Hp. apply discriminated_arrives; [done|].
    rewrite Forall_forall in *. intros s Hs. apply IH; [done|by apply Hp].
  - destruct Hp as (Hp & Hd & Ht). by apply refine_arrives; [apply IH|..].
Qed.

(** *** Showing that a schema is portable *)
Definition plain_keys {A} (shape : list (string * A)) : bool :=
  bool_decide (NoDup (map fst shape)) && forallb (fun e => match index_of e.1 with None => true | Some _ => false end) shape.
Lemma plain_keys_order {A} (shape : list (string * A)) : plain_keys shape = true -> own_order shape.
Proof.
  unfold plain_keys. rewrite andb_true_iff, bool_decide_eq_true. intros [Hd Hf].
  induction shape as [|[k a] shape IH]; [constructor|]. simpl in *. inversion Hd as [|? ? Hk Hd']; subst.
  apply andb_true_iff in Hf as [Hi Hf]. constructor; [by apply IH|]. apply Forall_forall. intros [k' a'] Hin. split; simpl.
  - intros ->. apply Hk, list_elem_of_fmap. by exists (k', a').
  - unfold key_before. rewrite forallb_forall in Hf. specialize (Hf (k', a')). simpl in Hf.
    destruct (index_of k'); [|done]. by discriminate Hf; apply list_elem_of_In.
Qed.
Lemma portable_object b shape : plain_keys shape = true -> Forall (fun e => portable e.2) shape -> portable (ZObject b shape).
Proof.
  intros Hk H. split; [by apply plain_keys_order|]. exact (proj2 (fold_and (fun e => portable e.2) shape) H).
Qed.
Lemma portable_discriminated key ss : Forall portable ss -> portable (ZDiscriminated key ss).
Proof. exact (proj2 (fold_and portable ss)). Qed.
Lemma portable_array s l m : portable s -> defined s = true -> portable (ZArray s l m).
Proof. by split. Qed.
Lemma portable_default s d :
  portable s -> as_json d = Some d -> writable d -> run s d = Some d -> portable (ZDefault s d).
Proof. intros H1 H2 H3 H4. by split_and!. Qed.
Lemma portable_refine s test : portable s -> defined s = true -> json_test test -> portable (ZRefine s test).
Proof. intros H1 H2 H3. by split_and!. Qed.
Lemma portable_checks st : forallb is_check st = true -> portable (ZString st).
Proof. apply checks_stable. Qed.
Lemma portable_trimmed st : forallb is_check st = true -> portable (ZString (Trimmed :: st)).
Proof. apply trimmed_stable. Qed.
Lemma portable_optional s : portable s -> portable (ZOptional s).
Proof. done. Qed.
Lemma portable_nullable s : portable s -> portable (ZNullable s).
Proof. done. Qed.

Definition integer_check (z : Z) (c : number_check) : bool :=
  match c with Int => Z.abs z <=? MAX_SAFE_INTEGER | AtLeast m => m <=? z | AtMost m => z <=? m end.
Lemma portable_default_integer cs z :
  forallb (integer_check z) cs = true -> portable (ZDefault (ZNumber cs) (VNumber (of_integer z))).
Proof.
  intros H. pose proof (integer_of_integer z) as Hz. pose proof (integer_finite _ _ Hz) as Hf.
  apply portable_default; [done|cbn; by rewrite Hf|done|]. cbn [run]. rewrite Hf. simpl.
  assert (forallb (number_check_ok (of_integer z)) cs = true) as ->; [|done].
  apply forallb_forall. intros c Hc. rewrite forallb_forall in H. specialize (H c Hc).
  destruct c; cbn; [by rewrite Hz|by rewrite (number_leb_integer z0 _ z)|by rewrite (number_geb_integer z0 _ z)].
Qed.

(** *** Tests and JSON *)
Definition kept (v : value) : value := default VUndefined (as_json v).
Lemma field_json k w w' : writable w -> as_json w = Some w' -> field k w' = kept (field k w) /\ writable (field k w).
Proof.
  intros Hw E. destruct w as [| | |n|s|vs|p es|]; simpl in E; try (by simplify_eq); [by destruct (isFinite n); simplify_eq|].
  injection E as <-. apply writable_object in Hw as [Ho Hf]. cbn [field]. split.
  - apply own_value_read. by apply own_order_nodup.
  - unfold own_value. destruct (own k es) as [v|] eqn:E; [|done]. apply own_in in E. rewrite Forall_forall in Hf.
    exact (Hf _ E).
Qed.
Lemma given_kept v : writable v -> given (kept v) = given v.
Proof. destruct v as [| | |n| | | |]; try done. cbn. by intros ->. Qed.
Lemma text_kept s v : is_text s (kept v) = is_text s v.
Proof. destruct v as [| | |n| | | |]; try done. cbn. by destruct (isFinite n). Qed.
Lemma at_least_kept v w : writable v -> writable w -> at_least (kept v) (kept w) = at_least v w.
Proof. destruct v as [| | |n| | | |], w as [| | |m| | | |]; try done; cbn; intros Hn Hm;
  by rewrite ?Hn, ?Hm. Qed.
End Portability.

Create HintDb portable.

(** Goes through the constructors of a schema; what is left are the conditions on
    maps, refinements and defaults that computation does not settle. *)
Ltac portable_step :=
  lazymatch goal with
  | |- Forall _ [] => constructor
  | |- Forall _ (_ :: _) => constructor; cbn [snd]
  | |- Forall ?P ?l => let l' := eval hnf in l in progress change (Forall P l')
  | |- portable _ (ZObject _ _) => apply portable_object; [vm_compute; reflexivity|]
  | |- portable _ (ZDiscriminated _ _) => apply portable_discriminated
  | |- portable _ (ZArray _ _ _) => apply portable_array; [|reflexivity]
  | |- portable _ (ZOptional _) => apply portable_optional
  | |- portable _ (ZNullable _) => apply portable_nullable
  | |- portable _ (ZRefine _ _) => apply portable_refine; [|reflexivity|]
  | |- portable _ (ZDefault (ZNumber _) _) => apply portable_default_integer; reflexivity
  | |- portable _ (ZDefault _ _) => apply portable_default; [|reflexivity|exact I|reflexivity]
  | |- portable _ (ZString (Trimmed :: _)) => apply portable_trimmed; reflexivity
  | |- portable _ (ZString ?st) => first [apply portable_checks; reflexivity | idtac]
  | |- portable _ ZUnknown => fail
  | |- portable _ (ZNumber _) => exact I
  | |- portable _ (ZFormat _) => exact I
  | |- portable _ (ZLiteral _) => exact I
  | |- portable _ (ZEnum _) => exact I
  | |- portable _ ZBoolean => exact I
  | |- portable _ ?s => first [solve [auto with portable nocore] | let t := eval hnf in s in progress change s with t]
  end.
Ltac portable := repeat portable_step.
