(* ===== verification/Analysis.v ===== *)
(** Shell command analysis: services/workspace-agent/src/shell/command-analysis.ts.

    The lexical analyser that decides whether a command line is one plain
    invocation (an executable and its arguments) or uses shell features.  The
    scanners are the source's loops: one step per character, with the
    accumulator, the token flag and the quote as explicit state. *)
From S2P Require Import Prelude JsString.

Inductive ShellName := powershell | pwsh | cmd | wsl | git_bash.

#[export] Instance ShellName_eq_dec : EqDecision ShellName.
Proof. solve_decision. Defined.

Inductive DiagnosticCode := syntax_error | unsupported_construct | shell_unavailable.

Record ShellSyntaxDiagnostic := mkDiagnostic {
  diag_code : DiagnosticCode;
  diag_message : string;
}.

Inductive ShellCommandExecution :=
| argv_exec (executable : string) (argv : list string)
| script_exec (script : string).

Record ShellCommandAnalysis := mkAnalysis {
  an_shell : ShellName;
  valid : bool;
  execution : option ShellCommandExecution;
  diagnostics : list ShellSyntaxDiagnostic;
  usesShellFeatures : bool;
}.

(** [/[|&;<>`$*?{}()[\]#,@%\r\n]/u] *)
Definition POWERSHELL_UNSUPPORTED_UNQUOTED (c : ascii) : bool :=
  has_char c "|&;<>`$*?{}()[]#,@%" || (c =c CR) || (c =c LF).
(** [/[&|<>^()%!\r\n]/u] *)
Definition CMD_METACHARACTERS (c : ascii) : bool :=
  has_char c "&|<>^()%!" || (c =c CR) || (c =c LF).
(** [/[|&;<>`$*?{}()[\]\r\n]/u] *)
Definition POSIX_METACHARACTERS (c : ascii) : bool :=
  has_char c "|&;<>`$*?{}()[]" || (c =c CR) || (c =c LF).

Definition invalidAnalysis (shell : ShellName) (m : string) : ShellCommandAnalysis :=
  mkAnalysis shell false None [mkDiagnostic syntax_error m] true.

(** [isTokenBoundary(value[index + 1])] on the rest of the input. *)
Definition isTokenBoundary (after : string) : bool :=
  match after with EmptyString => true | String c _ => is_space c end.

Inductive Quote := single | double.

#[export] Instance Quote_eq_dec : EqDecision Quote.
Proof. solve_decision. Defined.

(** The local variables of the scanning loops. *)
Record Scan := mkScan {
  tokens : list string;
  token : string;
  tokenStarted : bool;
  quote : option Quote;
}.

Definition scan0 : Scan := mkScan [] EmptyString false None.
Definition push (c : ascii) (st : Scan) : Scan :=
  mkScan (tokens st) (token st +:+ str1 c) true (quote st).
Definition open_quote (q : option Quote) (st : Scan) : Scan :=
  mkScan (tokens st) (token st) true q.
Definition close_quote (st : Scan) : Scan :=
  mkScan (tokens st) (token st) (tokenStarted st) None.
(** The [flush] closure. *)
Definition flush (st : Scan) : Scan :=
  if tokenStarted st
  then mkScan (tokens st ++ [token st]) EmptyString false (quote st) else st.

(** The loop of [analyzeSimplePowerShellCommand]; [None] is its
    [return undefined]. *)
Fixpoint ps_scan (s : string) (st : Scan) {struct s} : option Scan :=
  match s with
  | EmptyString => Some st
  | String c s' =>
      match quote st with
      | Some single =>
          if c =c SQ then
            match s' with
            | String d s'' =>
                if d =c SQ then ps_scan s'' (push SQ st)
                else if isTokenBoundary s' then ps_scan s' (close_quote st) else None
            | EmptyString => Some (close_quote st)
            end
          else ps_scan s' (push c st)
      | Some double =>
          if c =c DQ then
            if isTokenBoundary s' then ps_scan s' (close_quote st) else None
          else if (c =c "$"%char) || (c =c BT) then None
          else ps_scan s' (push c st)
      | None =>
          if is_space c then ps_scan s' (flush st)
          else if (c =c SQ) || (c =c DQ) then
            if tokenStarted st then None
            else ps_scan s' (open_quote (Some (if c =c SQ then single else double)) st)
          else if POWERSHELL_UNSUPPORTED_UNQUOTED c then None
          else ps_scan s' (push c st)
      end
  end.

Definition argv_analysis (shell : ShellName) (executable : string) (argv : list string) :=
  mkAnalysis shell true (Some (argv_exec executable argv)) [] false.

Definition analyzeSimplePowerShellCommand (shell : ShellName) (command : string) :
    option ShellCommandAnalysis :=
  let value := trim command in
  if sempty value then Some (invalidAnalysis shell "Command must not be empty.")
  else
    match ps_scan value scan0 with
    | None => None
    | Some st =>
        match quote st with
        | Some _ => Some (invalidAnalysis shell "PowerShell command contains an unterminated quote.")
        | None =>
            match tokens (flush st) with
            | [] => Some (invalidAnalysis shell "Command executable is missing.")
            | executable :: argv =>
                if sempty executable
                then Some (invalidAnalysis shell "Command executable is missing.")
                else if executable =s "." then None
                else Some (argv_analysis shell executable argv)
            end
        end
    end.

Inductive Grammar := g_cmd | g_posix.

Definition is_posix (g : Grammar) : bool :=
  match g with g_posix => true | g_cmd => false end.
Definition quote_is (q : Quote) (o : option Quote) : bool := bool_decide (o = Some q).
(** [quote = quote === q ? undefined : q] *)
Definition toggle (q : Quote) (o : option Quote) : option Quote :=
  if quote_is q o then None else Some q.

(** The loop of [tokenize]; returns the final [escaped] and scan state. *)
Fixpoint tok_scan (g : Grammar) (s : string) (escaped : bool) (st : Scan) : bool * Scan :=
  match s with
  | EmptyString => (escaped, st)
  | String c s' =>
      if escaped then tok_scan g s' false (push c st)
      else if is_posix g && (c =c BSL) && negb (quote_is single (quote st)) then
        tok_scan g s' true (open_quote (quote st) st)
      else if is_posix g && (c =c SQ) && negb (quote_is double (quote st)) then
        tok_scan g s' false (open_quote (toggle single (quote st)) st)
      else if (c =c DQ) && negb (quote_is single (quote st)) then
        tok_scan g s' false (open_quote (toggle double (quote st)) st)
      else if bool_decide (quote st = None) && is_space c then
        tok_scan g s' false (flush st)
      else tok_scan g s' false (push c st)
  end.

(** [tokenize]: [Err] carries the error text. *)
Definition tokenize (value : string) (g : Grammar) : result string (list string) :=
  match tok_scan g value false scan0 with
  | (escaped, st) =>
      if escaped || bool_decide (quote st <> None)
      then Err "Command contains an unterminated escape or quote."
      else Ok (tokens (flush st))
  end.

Fixpoint contains_scan (pattern : ascii -> bool) (g : Grammar) (s : string)
    (escaped : bool) (q : option Quote) : bool :=
  match s with
  | EmptyString => false
  | String c s' =>
      if escaped then contains_scan pattern g s' false q
      else if is_posix g && (c =c BSL) && negb (quote_is single q) then
        contains_scan pattern g s' true q
      else if (c =c SQ) && negb (quote_is double q) && is_posix g then
        contains_scan pattern g s' false (toggle single q)
      else if (c =c DQ) && negb (quote_is single q) then
        contains_scan pattern g s' false (toggle double q)
      else if bool_decide (q = None) && pattern c then true
      else contains_scan pattern g s' false q
  end.

Definition containsUnquoted (value : string) (pattern : ascii -> bool) (g : Grammar) : bool :=
  contains_scan pattern g value false None.

Definition analyzeLexicalCommand (shell : ShellName) (command : string)
    (metacharacters : ascii -> bool) (g : Grammar) : ShellCommandAnalysis :=
  let trimmed := trim command in
  if sempty trimmed then invalidAnalysis shell "Command must not be empty."
  else
    match tokenize trimmed g with
    | Err m => invalidAnalysis shell m
    | Ok [] => invalidAnalysis shell "Command syntax is invalid."
    | Ok (executable :: argv) =>
        if containsUnquoted trimmed metacharacters g
        then mkAnalysis shell true (Some (script_exec command)) [] true
        else if sempty executable then invalidAnalysis shell "Command executable is missing."
        else argv_analysis shell executable argv
    end.

Definition is_powershell (shell : ShellName) : bool :=
  match shell with powershell | pwsh => true | _ => false end.

Definition analyzeSimpleShellCommand (shell : ShellName) (command : string) :
    option ShellCommandAnalysis :=
  if is_powershell shell then analyzeSimplePowerShellCommand shell command
  else if bool_decide (shell = cmd)
  then Some (analyzeLexicalCommand shell command CMD_METACHARACTERS g_cmd)
  else Some (analyzeLexicalCommand shell command POSIX_METACHARACTERS g_posix).

(** [analysis?.valid && analysis.execution?.kind === "argv"], as its clients
    test it: the invocation when the analysis is a plain one. *)
Definition argv_of (a : option ShellCommandAnalysis) : option (string * list string) :=
  match a with
  | Some an =>
      if valid an then
        match execution an with
        | Some (argv_exec x xs) => Some (x, xs)
        | _ => None
        end
      else None
  | None => None
  end.

(** ** Quoting: the inverse of the scanners *)
(** An argument as a single-quoted literal of each grammar. *)
Fixpoint ps_escape (w : string) : string :=
  match w with
  | EmptyString => EmptyString
  | String c w' => if c =c SQ then String SQ (String SQ (ps_escape w')) else String c (ps_escape w')
  end.
Fixpoint posix_escape (w : string) : string :=
  match w with
  | EmptyString => EmptyString
  | String c w' =>
      if c =c SQ then String SQ (String BSL (String SQ (String SQ (posix_escape w'))))
      else String c (posix_escape w')
  end.
Definition quoted (escape : string -> string) (w : string) : string :=
  String SQ (escape w +:+ str1 SQ).
Definition render (escape : string -> string) (ws : list string) : string :=
  join (str1 " "%char) (quoted escape <$> ws).

(** Characters that open a quote or an escape in a grammar. *)
Definition quoting_char (g : Grammar) (c : ascii) : bool :=
  (c =c DQ) || is_posix g && ((c =c SQ) || (c =c BSL)).

(** ** Trimming lemmas *)
Lemma sapp_cons c a b : String c a +:+ b = String c (a +:+ b).
Proof. done. Qed.

Lemma sempty_app_last a c : sempty (a +:+ str1 c) = false.
Proof. by destruct a. Qed.

Lemma trim_end_last a c : is_space c = false -> trim_end (a +:+ str1 c) = a +:+ str1 c.
Proof.
  intros Hc. induction a as [|d a IH]; simpl.
  - by rewrite Hc.
  - by rewrite IH, sempty_app_last.
Qed.

Lemma trim_fixed c a d :
  is_space c = false -> is_space d = false -> trim (String c (a +:+ str1 d)) = String c (a +:+ str1 d).
Proof.
  intros Hc Hd. unfold trim. cbn [trim_start]. rewrite Hc.
  by rewrite <- sapp_cons, trim_end_last.
Qed.

Lemma render_shape escape w ws :
  exists u, render escape (w :: ws) = String SQ (u +:+ str1 SQ).
Proof.
  revert w. induction ws as [|v ws IH]; intros w.
  - by exists (escape w).
  - destruct (IH v) as [u Hu].
    exists (escape w +:+ String SQ (String " "%char (String SQ u))).
    unfold render in *. rewrite !fmap_cons. rewrite fmap_cons in Hu.
    rewrite join_cons, Hu. unfold quoted, str1.
    rewrite !sapp_cons, !sapp_assoc. done.
Qed.

Lemma trim_render escape w ws : trim (render escape (w :: ws)) = render escape (w :: ws).
Proof. destruct (render_shape escape w ws) as [u ->]. by apply trim_fixed. Qed.

Lemma sempty_render escape w ws : sempty (render escape (w :: ws)) = false.
Proof. by destruct (render_shape escape w ws) as [u ->]. Qed.

Lemma render_cons escape w v ws :
  render escape (w :: v :: ws) = quoted escape w +:+ String " "%char (render escape (v :: ws)).
Proof. done. Qed.

(** ** PowerShell: scanning a quoted literal yields the literal *)
Lemma boundary_not_quote d s : isTokenBoundary (String d s) = true -> (d =c SQ) = false.
Proof. simpl. intros H. apply eqc_neq. intros ->. done. Qed.

Lemma ps_scan_quoted w s ts t :
  isTokenBoundary s = true ->
  ps_scan (ps_escape w +:+ String SQ s) (mkScan ts t true (Some single)) =
  ps_scan s (mkScan ts (t +:+ w) true None).
Proof.
  intros Hs. revert t. induction w as [|c w IH]; intros t; cbn [ps_escape].
  - cbn. destruct s as [|d s]; cbn.
    + by rewrite sapp_nil_r.
    + by rewrite (boundary_not_quote d s Hs), sapp_nil_r; cbn in Hs; rewrite Hs.
  - destruct (c =c SQ) eqn:E.
    + apply eqc_eq in E as ->. rewrite !sapp_cons. cbn. unfold push. simpl.
      rewrite IH. by rewrite sapp_assoc.
    + rewrite sapp_cons. cbn [ps_scan quote]. rewrite E. unfold push. simpl.
      rewrite IH. by rewrite sapp_assoc.
Qed.

Lemma ps_scan_render w ws ts :
  exists st, ps_scan (render ps_escape (w :: ws)) (mkScan ts EmptyString false None) = Some st /\
    quote st = None /\ tokens (flush st) = ts ++ w :: ws.
Proof.
  revert w ts. induction ws as [|v ws IH]; intros w ts.
  - unfold render, quoted, str1. simpl. unfold open_quote. simpl.
    rewrite ps_scan_quoted by done. eexists. split; [done|]. done.
  - destruct (IH v (ts ++ [w])) as (st & H1 & H2 & H3). rewrite render_cons.
    revert H1. generalize (render ps_escape (v :: ws)). intros r H1.
    unfold quoted, str1. rewrite sapp_cons, sapp_assoc.
    cbn. unfold open_quote. simpl. rewrite ps_scan_quoted by done.
    cbn. exists st. by rewrite H1, H3, <- app_assoc.
Qed.

(** ** POSIX: the same for the lexical scanners *)
Lemma tok_scan_quoted w s ts t :
  tok_scan g_posix (posix_escape w +:+ String SQ s) false (mkScan ts t true (Some single)) =
  tok_scan g_posix s false (mkScan ts (t +:+ w) true None).
Proof.
  revert t. induction w as [|c w IH]; intros t; cbn [posix_escape].
  - cbn. by rewrite sapp_nil_r.
  - destruct (c =c SQ) eqn:E.
    + apply eqc_eq in E as ->. rewrite !sapp_cons. cbn. unfold push, open_quote. simpl.
      rewrite IH. by rewrite sapp_assoc.
    + rewrite sapp_cons. cbn. rewrite E. unfold push. simpl.
      rewrite !andb_false_r. simpl. rewrite IH. by rewrite sapp_assoc.
Qed.

Lemma tok_scan_render w ws ts :
  exists st, tok_scan g_posix (render posix_escape (w :: ws)) false
               (mkScan ts EmptyString false None) = (false, st) /\
    quote st = None /\ tokens (flush st) = ts ++ w :: ws.
Proof.
  revert w ts. induction ws as [|v ws IH]; intros w ts.
  - unfold render, quoted, str1. simpl. unfold open_quote. simpl.
    rewrite tok_scan_quoted. eexists. split; [done|]. done.
  - destruct (IH v (ts ++ [w])) as (st & H1 & H2 & H3). rewrite render_cons.
    revert H1. generalize (render posix_escape (v :: ws)). intros r H1.
    unfold quoted, str1. rewrite sapp_cons, sapp_assoc.
    cbn. unfold open_quote. simpl. rewrite tok_scan_quoted.
    cbn. exists st. by rewrite H1, H3, <- app_assoc.
Qed.

Lemma contains_scan_quoted p w s :
  contains_scan p g_posix (posix_escape w +:+ String SQ s) false (Some single) =
  contains_scan p g_posix s false None.
Proof.
  induction w as [|c w IH]; cbn [posix_escape]; [done|].
  destruct (c =c SQ) eqn:E.
  - apply eqc_eq in E as ->. rewrite !sapp_cons. cbn. apply IH.
  - rewrite sapp_cons. cbn. rewrite E, !andb_false_r. simpl. apply IH.
Qed.

Lemma contains_scan_render p w ws :
  p " "%char = false -> containsUnquoted (render posix_escape (w :: ws)) p g_posix = false.
Proof.
  intros Hp. unfold containsUnquoted. revert w. induction ws as [|v ws IH]; intros w.
  - unfold render, quoted, str1. simpl. by rewrite contains_scan_quoted.
  - specialize (IH v). rewrite render_cons.
    revert IH. generalize (render posix_escape (v :: ws)). intros r IH.
    unfold quoted, str1. rewrite sapp_cons, sapp_assoc.
    cbn. rewrite contains_scan_quoted. cbn. by rewrite Hp.
Qed.

(** ** Plain command lines: the scanners are white-space splitting *)
Lemma words_aux_trim_start s : words (trim_start s) = words s.
Proof.
  unfold words. induction s as [|c s IH]; simpl; [done|].
  destruct (is_space c) eqn:E; simpl; [done|]. by rewrite E.
Qed.

Lemma words_aux_trim_end cur s : words_aux cur (trim_end s) = words_aux cur s.
Proof.
  revert cur. induction s as [|c s IH]; intros cur; simpl; [done|].
  destruct (sempty (trim_end s) && is_space c) eqn:E; simpl.
  - apply andb_true_iff in E as [E1%sempty_true E2]. rewrite E2.
    specialize (IH EmptyString). rewrite E1 in IH. simpl in IH. rewrite <- IH.
    by rewrite app_nil_r.
  - by rewrite !IH.
Qed.

Lemma words_trim s : words (trim s) = words s.
Proof.
  unfold trim. unfold words at 1. rewrite words_aux_trim_end. apply words_aux_trim_start.
Qed.

Lemma trim_start_head s c s' : trim_start s = String c s' -> is_space c = false.
Proof.
  induction s as [|d s IH]; simpl; [done|]. destruct (is_space d) eqn:E; [done|].
  by intros [= <- <-].
Qed.

Lemma words_aux_nonempty cur s : sempty cur = false -> words_aux cur s <> [].
Proof.
  revert cur. induction s as [|c s IH]; intros cur H; simpl; rewrite ?H; [done|].
  destruct (is_space c); [done|]. apply IH. by destruct cur.
Qed.

Lemma words_trim_nil s : sempty (trim s) = match words s with [] => true | _ => false end.
Proof.
  rewrite <- (words_trim s). unfold trim. destruct (trim_start s) as [|c t] eqn:E; [done|].
  apply trim_start_head in E. simpl. rewrite E, andb_false_r. unfold words. simpl.
  rewrite E. simpl.
  pose proof (words_aux_nonempty (str1 c) (trim_end t) eq_refl).
  by destruct (words_aux _ _).
Qed.

Lemma sexists_cons f c s : sexists f (String c s) = f c || sexists f s.
Proof. done. Qed.

(** The token flag says whether the accumulator holds something. *)
Lemma tok_scan_plain g s ts t b :
  sexists (quoting_char g) s = false -> b = negb (sempty t) ->
  exists st, tok_scan g s false (mkScan ts t b None) = (false, st) /\
    quote st = None /\ tokens (flush st) = ts ++ words_aux t s.
Proof.
  revert ts t b. induction s as [|c s IH]; intros ts t b; simpl.
  - intros _ ->. eexists. split; [done|]. split; [done|]. unfold flush. simpl.
    destruct t; simpl; [by rewrite app_nil_r|done].
  - intros [Hc Hs]%orb_false_iff ->. unfold quoting_char in Hc.
    apply orb_false_iff in Hc as [H1 H2]. rewrite H1. simpl.
    assert (is_posix g && (c =c BSL) = false /\ is_posix g && (c =c SQ) = false) as [-> ->].
    { destruct (is_posix g); [|done]. simpl in *. apply orb_false_iff in H2. tauto. }
    simpl. destruct (is_space c).
    + destruct (IH (if sempty t then ts else ts ++ [t]) EmptyString false Hs eq_refl)
        as (st & E1 & E2 & E3). exists st. split; [|split; [done|]].
      * rewrite <- E1. unfold flush. simpl. destruct t; done.
      * rewrite E3. destruct t; simpl; [done|]. by rewrite <- app_assoc.
    + destruct (IH ts (t +:+ str1 c) true Hs) as (st & E1 & E2 & E3).
      { by rewrite sempty_app_last. }
      exists st. unfold push. simpl. by rewrite E1.
Qed.

Lemma contains_scan_plain p g s :
  sexists (quoting_char g) s = false -> containsUnquoted s p g = sexists p s.
Proof.
  unfold containsUnquoted. induction s as [|c s IH]; simpl; [done|].
  intros [Hc Hs]%orb_false_iff. unfold quoting_char in Hc.
  apply orb_false_iff in Hc as [H1 H2]. rewrite H1. simpl.
  assert ((is_posix g && (c =c BSL) = false) /\ (c =c SQ) && is_posix g = false) as [-> H3].
  { destruct (is_posix g); simpl in *; [|by rewrite andb_false_r].
    apply orb_false_iff in H2 as [-> ->]. done. }
  rewrite !andb_true_r, H3. simpl.
  destruct (p c); simpl; [done|]. auto.
Qed.

Lemma ps_scan_plain s ts t b :
  sexists (fun c => (c =c SQ) || (c =c DQ)) s = false -> b = negb (sempty t) ->
  sexists (fun c => negb (is_space c) && POWERSHELL_UNSUPPORTED_UNQUOTED c) s = false ->
  exists st, ps_scan s (mkScan ts t b None) = Some st /\
    quote st = None /\ tokens (flush st) = ts ++ words_aux t s.
Proof.
  revert ts t b. induction s as [|c s IH]; intros ts t b; simpl.
  - intros _ -> _. eexists. split; [done|]. split; [done|]. unfold flush. simpl.
    destruct t; simpl; [by rewrite app_nil_r|done].
  - intros [Hc Hs]%orb_false_iff -> [Hu Hv]%orb_false_iff. rewrite Hc.
    destruct (is_space c); simpl in *.
    + destruct (IH (if sempty t then ts else ts ++ [t]) EmptyString false Hs eq_refl Hv)
        as (st & E1 & E2 & E3). exists st. split; [|split; [done|]].
      * rewrite <- E1. unfold flush. simpl. destruct t; done.
      * rewrite E3. destruct t; simpl; [done|]. by rewrite <- app_assoc.
    + rewrite Hu. destruct (IH ts (t +:+ str1 c) true Hs) as (st & E1 & E2 & E3); [|done|].
      { by rewrite sempty_app_last. }
      exists st. unfold push. simpl. by rewrite E1.
Qed.

(** ** The tokens are no longer than the command *)
Definition total (ws : list string) : nat := sum_list (S ∘ String.length <$> ws).
Definition weight (st : Scan) : nat := total (tokens st) + String.length (token st).

Lemma total_app us vs : total (us ++ vs) = total us + total vs.
Proof. unfold total. by rewrite fmap_app, sum_list_with_app. Qed.

Lemma total_cons w ws : total (w :: ws) = S (String.length w) + total ws.
Proof. done. Qed.

Lemma slength_join w ws : S (String.length (join " " (w :: ws))) = total (w :: ws).
Proof.
  revert w. induction ws as [|v ws IH]; intros w.
  - unfold total. simpl. lia.
  - rewrite join_cons, !slength_app, total_cons, <- IH. simpl String.length. lia.
Qed.

Lemma total_drop n ws : total (drop n ws) <= total ws.
Proof.
  rewrite <- (take_drop n ws) at 2. rewrite total_app. lia.
Qed.

Lemma weight_push c st : weight (push c st) = S (weight st).
Proof. unfold weight, push. simpl. rewrite slength_app. simpl. lia. Qed.
Lemma weight_flush st : weight (flush st) <= S (weight st).
Proof.
  unfold weight, flush. destruct (tokenStarted st); simpl; [|lia].
  rewrite total_app. unfold total at 2. simpl. lia.
Qed.

Lemma ps_scan_weight n s st st' :
  String.length s <= n -> ps_scan s st = Some st' -> weight st' <= weight st + String.length s.
Proof.
  revert s st. induction n as [|n IH]; intros [|c s] st Hn; cbn [ps_scan];
    try (simpl in Hn; lia); try (intros [= <-]; simpl; lia).
  simpl in *.
  assert (forall st1, ps_scan s st1 = Some st' -> weight st' <= weight st1 + String.length s)
    as IH1 by (intros; apply IH; [lia|done]).
  intros H. destruct (quote st) as [[]|].
  - destruct (c =c SQ).
    + destruct s as [|d s]; [simplify_eq; unfold weight; simpl; lia|].
      destruct (d =c SQ).
      * apply IH in H; [|simpl in *; lia]. rewrite weight_push in H. simpl. lia.
      * destruct (isTokenBoundary _); [|done]. apply IH1 in H. unfold weight in *. simpl in *. lia.
    + apply IH1 in H. rewrite weight_push in H. lia.
  - destruct (c =c DQ).
    + destruct (isTokenBoundary _); [|done]. apply IH1 in H. unfold weight in *. simpl in *. lia.
    + destruct (_ || _); [done|]. apply IH1 in H. rewrite weight_push in H. lia.
  - destruct (is_space c); [apply IH1 in H; pose proof (weight_flush st); lia|].
    destruct (_ || _).
    + destruct (tokenStarted st); [done|]. apply IH1 in H. unfold weight in *. simpl in *. lia.
    + destruct (POWERSHELL_UNSUPPORTED_UNQUOTED c); [done|].
      apply IH1 in H. rewrite weight_push in H. lia.
Qed.

(** The invocation an analysis finds is not longer than the command line. *)
Lemma powershell_argv_total sh command x xs :
  argv_of (analyzeSimplePowerShellCommand sh command) = Some (x, xs) ->
  x <> EmptyString /\ total (x :: xs) <= S (String.length command).
Proof.
  unfold analyzeSimplePowerShellCommand. intros H.
  destruct (sempty (trim command)); [done|].
  destruct (ps_scan (trim command) scan0) as [st|] eqn:E; [|done].
  destruct (quote st); [done|].
  destruct (tokens (flush st)) as [|y ys] eqn:Et; [done|].
  destruct (sempty y) eqn:Ey; [done|]. destruct (y =s "."); [done|].
  simpl in H. injection H as -> ->. split; [by intros ->|].
  apply (ps_scan_weight _ _ _ _ (le_n _)) in E. pose proof (weight_flush st) as Hf.
  pose proof (slength_trim command). unfold weight in *. rewrite Et in Hf.
  change (total (tokens scan0) + String.length (token scan0)) with 0 in E. lia.
Qed.

(** ** Properties *)
(** The shape every analysis has: an invalid one carries a diagnostic and no
    execution; a valid one carries an execution and no diagnostic, uses shell
    features exactly when it is a script, and an invocation names an executable. *)
Definition analysis_wf (a : ShellCommandAnalysis) : Prop :=
  match execution a with
  | None => valid a = false /\ diagnostics a <> [] /\ usesShellFeatures a = true
  | Some (argv_exec x _) =>
      valid a = true /\ diagnostics a = [] /\ usesShellFeatures a = false /\ x <> EmptyString
  | Some (script_exec _) => valid a = true /\ diagnostics a = [] /\ usesShellFeatures a = true
  end.

Lemma invalid_wf sh m : analysis_wf (invalidAnalysis sh m).
Proof. by repeat split. Qed.

Lemma argv_wf sh x xs : sempty x = false -> analysis_wf (argv_analysis sh x xs).
Proof. intros H. repeat split. by intros ->. Qed.

#[export] Hint Resolve invalid_wf argv_wf : mcp.

Lemma analyzePS_wf sh command a :
  analyzeSimplePowerShellCommand sh command = Some a -> analysis_wf a.
Proof.
  unfold analyzeSimplePowerShellCommand. intros H. step_in H; auto with mcp.
Qed.

Lemma analyzeLexical_wf sh command p g : analysis_wf (analyzeLexicalCommand sh command p g).
Proof.
  unfold analyzeLexicalCommand. repeat case_goal; auto with mcp. by repeat split.
Qed.

(** Every analysis the analyser returns, for every shell and every command
    line, is well formed: validity, diagnostics, execution and the shell-feature
    flag agree, and a plain invocation has a non-empty executable. *)
Theorem analysis_well_formed (shell : ShellName) (command : string) (a : ShellCommandAnalysis) :
  analyzeSimpleShellCommand shell command = Some a -> analysis_wf a.
Proof.
  unfold analyzeSimpleShellCommand. intros H.
  destruct (is_powershell shell); [by eapply analyzePS_wf|].
  case_bool_decide; simplify_eq; apply analyzeLexical_wf.
Qed.

Lemma analysis_well_formed_witness :
  analysis_wf (invalidAnalysis pwsh "Command must not be empty.").
Proof. apply (analysis_well_formed pwsh "  "). vm_compute. reflexivity. Defined.

(** PowerShell round trip: an invocation whose arguments are written as
    single-quoted literals (quotes doubled) is analysed back to exactly that
    executable and those arguments, whatever characters they hold. *)
Theorem powershell_quoting_roundtrip (shell : ShellName) (x : string) (xs : list string) :
  is_powershell shell = true -> x <> EmptyString -> x <> "." ->
  analyzeSimpleShellCommand shell (render ps_escape (x :: xs)) = Some (argv_analysis shell x xs).
Proof.
  intros Hp Hx Hd. unfold analyzeSimpleShellCommand, analyzeSimplePowerShellCommand.
  rewrite Hp, trim_render, sempty_render.
  destruct (ps_scan_render x xs []) as (st & E1 & E2 & E3).
  unfold scan0. rewrite E1, E2, E3. simpl.
  destruct (String.eqb_spec x "."); [done|]. by destruct x.
Qed.

Lemma powershell_quoting_roundtrip_witness :
  analyzeSimpleShellCommand pwsh (render ps_escape ["echo"; "it's; rm -rf"]) =
  Some (argv_analysis pwsh "echo" ["it's; rm -rf"]).
Proof. by apply (powershell_quoting_roundtrip pwsh "echo" ["it's; rm -rf"]). Defined.

(** POSIX round trip: the same for the wsl and git-bash grammar with
    single-quoted literals; in particular no metacharacter inside such a literal
    turns the invocation into a script. *)
Theorem posix_quoting_roundtrip (shell : ShellName) (x : string) (xs : list string) :
  shell = wsl \/ shell = git_bash -> x <> EmptyString ->
  analyzeSimpleShellCommand shell (render posix_escape (x :: xs)) = Some (argv_analysis shell x xs).
Proof.
  intros Hs Hx. unfold analyzeSimpleShellCommand.
  assert (is_powershell shell = false) as -> by (by destruct Hs as [->| ->]).
  rewrite bool_decide_eq_false_2 by (by destruct Hs as [->| ->]).
  unfold analyzeLexicalCommand, tokenize.
  rewrite trim_render, sempty_render, contains_scan_render by done.
  destruct (tok_scan_render x xs []) as (st & E1 & E2 & E3).
  unfold scan0. rewrite E1, E2, E3. simpl. by destruct x.
Qed.

Lemma posix_quoting_roundtrip_witness :
  analyzeSimpleShellCommand wsl (render posix_escape ["ls"; "a'b|c"]) =
  Some (argv_analysis wsl "ls" ["a'b|c"]).
Proof. apply (posix_quoting_roundtrip wsl "ls" ["a'b|c"]); [by left|done]. Defined.

(** The reference analysis of a command line without quoting characters. *)
Definition plain_reference (shell : ShellName) (command : string) (meta : ascii -> bool) :
    ShellCommandAnalysis :=
  match words command with
  | [] => invalidAnalysis shell "Command must not be empty."
  | x :: xs => if sexists meta (trim command)
               then mkAnalysis shell true (Some (script_exec command)) [] true
               else argv_analysis shell x xs
  end.

Lemma words_aux_head cur s x xs :
  words_aux cur s = x :: xs -> x <> EmptyString.
Proof.
  revert cur x xs. induction s as [|c s IH]; intros cur x xs; simpl.
  - destruct (sempty cur) eqn:E; [done|]. intros [= <- <-] ->. done.
  - destruct (is_space c); [|apply IH]. destruct (sempty cur) eqn:E; [apply IH|].
    intros [= <- <-] ->. done.
Qed.

(** On a command line with no quoting or escaping character, the lexical
    analyser equals its reference: the tokens are the white-space separated
    words, and the line is one invocation exactly when no metacharacter of the
    grammar occurs in it. *)
Theorem lexical_plain_reference (shell : ShellName) (command : string)
    (meta : ascii -> bool) (g : Grammar) :
  sexists (quoting_char g) command = false ->
  analyzeLexicalCommand shell command meta g = plain_reference shell command meta.
Proof.
  intros H. unfold analyzeLexicalCommand, plain_reference, tokenize.
  rewrite words_trim_nil. destruct (words command) as [|x xs] eqn:E; [done|].
  pose proof (sexists_trim _ _ H) as Ht.
  rewrite contains_scan_plain by done.
  destruct (tok_scan_plain g (trim command) [] EmptyString false Ht eq_refl)
    as (st & E1 & E2 & E3).
  unfold scan0. rewrite E1, E2, E3. simpl.
  fold (words (trim command)). rewrite words_trim, E.
  destruct (sexists meta (trim command)); [done|].
  apply words_aux_head in E. by destruct x.
Qed.

Lemma lexical_plain_reference_witness :
  analyzeLexicalCommand cmd "del  a.txt " CMD_METACHARACTERS g_cmd =
  plain_reference cmd "del  a.txt " CMD_METACHARACTERS.
Proof. by apply (lexical_plain_reference cmd "del  a.txt " CMD_METACHARACTERS g_cmd). Defined.

(** On an unquoted PowerShell line the tokens are the white-space separated
    words of the whole text, line breaks included: a line break, although it is
    listed among the unsupported characters and separates statements in
    PowerShell, never makes the line opaque. *)
Theorem powershell_plain_reference (shell : ShellName) (command : string) (x : string)
    (xs : list string) :
  is_powershell shell = true ->
  sexists (fun c => (c =c SQ) || (c =c DQ)) command = false ->
  sexists (fun c => negb (is_space c) && POWERSHELL_UNSUPPORTED_UNQUOTED c) command = false ->
  words command = x :: xs -> x <> "." ->
  analyzeSimpleShellCommand shell command = Some (argv_analysis shell x xs).
Proof.
  intros Hp Hq Hu Hw Hd. unfold analyzeSimpleShellCommand, analyzeSimplePowerShellCommand.
  rewrite Hp, words_trim_nil, Hw.
  destruct (ps_scan_plain (trim command) [] EmptyString false (sexists_trim _ _ Hq) eq_refl
              (sexists_trim _ _ Hu)) as (st & E1 & E2 & E3).
  unfold scan0. rewrite E1, E2, E3. simpl. fold (words (trim command)).
  rewrite words_trim, Hw. apply words_aux_head in Hw.
  destruct (String.eqb_spec x "."); [done|]. by destruct x.
Qed.

Lemma powershell_plain_reference_witness :
  analyzeSimpleShellCommand pwsh ("Get-Date" +:+ str1 LF +:+ "Remove-Item x") =
  Some (argv_analysis pwsh "Get-Date" ["Remove-Item"; "x"]).
Proof.
  by apply (powershell_plain_reference pwsh ("Get-Date" +:+ str1 LF +:+ "Remove-Item x")
              "Get-Date" ["Remove-Item"; "x"]).
Defined.
