(* ===== verification/Risk.v ===== *)
(** Command risk: services/workspace-agent/src/shell/command-risk.ts.

    The classifier that decides which command lines need a confirmation, and
    the recogniser of git pushes.  The regular expressions of the source are
    terms of [JsRegex.re], in the same order. *)
From S2P Require Import Prelude JsString JsRegex Analysis.

Record CommandRisk := mkRisk { destructive : bool; reasons : list string }.

Record GitPushIntent := mkPush {
  isPush : bool; targetsMain : bool; usesGitC : bool; usesMirror : bool;
}.

(** *** Reasons *)
Definition DELETE_REASON : string := "delete, remove or force-clean operation".
Definition WRITE_REASON : string := "move, overwrite or direct file write operation".
Definition REGISTRY_REASON : string := "registry modification or system configuration".
Definition DISK_BOOT_VOLUME_REASON : string := "disk, boot or volume operation".
Definition SERVICE_REASON : string := "service or process control".
Definition GIT_REASON : string := "destructive git operation".
Definition PUSH_REASON : string := "git push requires explicit user confirmation".
Definition DOCKER_REASON : string := "docker cleanup or volume-removing operation".
Definition PUBLISH_REASON : string := "publish, install or migration operation".
Definition REMOTE_REASON : string := "remote download execution or encoded command".
Definition PERMISSION_REASON : string := "permission or ownership change".
Definition CALL_REASON : string := "dynamic PowerShell call operator".
Definition EXTERNAL_PACKAGE_EXECUTION_REASON : string := "external package execution".
Definition EXTERNAL_DEPLOYMENT_REASON : string := "external deployment operation".

(** *** Executable sets *)
Definition FORMAT_EXECUTABLES : list string :=
  ["format"; "format.com"; "format.exe"; "format-volume"].
Definition DELETE_EXECUTABLES : list string :=
  ["remove-item"; "ri"; "rm"; "del"; "erase"; "rd"; "rmdir"; "unlink"; "shred"].
Definition WRITE_EXECUTABLES : list string :=
  ["move-item"; "mi"; "move"; "mv"; "set-content"; "sc"; "out-file"; "new-item"; "ni";
   "copy-item"; "copy"; "cp"; "cpi"; "tee"; "truncate"].
Definition REGISTRY_EXECUTABLES : list string :=
  ["reg"; "regedit"; "set-itemproperty"; "sp"; "new-itemproperty"; "remove-itemproperty"; "rp"].
Definition SERVICE_EXECUTABLES : list string :=
  ["stop-service"; "spsv"; "restart-service"; "rsv"; "set-service"; "stop-process"; "spps";
   "kill"; "taskkill"].
Definition PERMISSION_EXECUTABLES : list string :=
  ["chmod"; "chown"; "icacls"; "takeown"; "set-acl"].
Definition NESTED_SHELL_EXECUTABLES : list string :=
  ["powershell"; "powershell.exe"; "pwsh"; "pwsh.exe"; "cmd"; "cmd.exe"; "wsl"; "wsl.exe";
   "bash"; "sh"].

(** *** Expressions *)
(** [(?=\s|$)] *)
Definition space_or_end : re := Ahead true (Alt sp Eol).
(** [\bformat-volume\b|\bformat(?:\.com|\.exe)?(?=\s|$)] *)
Definition FORMAT_COMMAND_TEXT_PATTERN : re :=
  Alt (seqs [WordB; liti "format-volume"; WordB])
      (seqs [WordB; liti "format"; opt (Alt (liti ".com") (liti ".exe")); space_or_end]).
(** [(?:&&|\|\||[;|])\s*] *)
Definition separator : re := seqs [alts [lit "&&"; lit "||"; oneof ";|"]; star sp].
Definition POWERSHELL_FORMAT_SEGMENT_PATTERN : re :=
  seqs [alts [Bol; Cls (fun c => (c =c CR) || (c =c LF)); separator];
        opt (seqs [ch "&"%char; star sp]);
        Alt (liti "format-volume") (seqs [liti "format"; opt (Alt (liti ".com") (liti ".exe"))]);
        space_or_end].
(** [/[{}()]/u] *)
Definition POWERSHELL_AMBIGUOUS_SYNTAX_PATTERN (c : ascii) : bool := has_char c "{}()".
(** [[^;&|\r\n]] *)
Definition segment_char : re :=
  Cls (fun c => negb (has_char c ";&|" || (c =c CR) || (c =c LF))).
(** [git(?:\.exe)?] *)
Definition git_exe : re := seqs [liti "git"; opt (liti ".exe")].
(** The common head of the push expressions: start or separator, an optional
    call operator, [git] or [git.exe]. *)
Definition git_head : re :=
  seqs [Alt Bol separator; opt (seqs [ch "&"%char; star sp]); git_exe; WordB].

(** [words joined by \s+] *)
Definition spaced (a b : string) : re := seqs [liti a; plus sp; liti b].

Definition docker_verbs (between_down_and_v : re) : re :=
  alts [spaced "system" "prune"; spaced "volume" "prune"; spaced "image" "prune";
        spaced "container" "prune"; liti "rm"; liti "rmi";
        seqs [spaced "compose" "down"; WordB; between_down_and_v; sp; liti "-v"]].
Definition npm_verbs : re :=
  alts [liti "install"; liti "i"; liti "add"; liti "remove"; liti "publish"; spaced "audit" "fix"].
Definition ef_update : re :=
  seqs [WordB; liti "ef"; plus sp; liti "database"; plus sp; liti "update"; WordB].
(** [\b(r)\b] *)
Definition bounded (r : re) : re := seqs [WordB; r; WordB].
(** [r(?=[^;&|\r\n]{0,n} s)] *)
Definition followed (r : re) (n : nat) (s : re) : re :=
  seqs [r; Ahead true (seqs [upto n segment_char; s])].

Definition GIT_VERBS : list string :=
  ["reset"; "clean"; "checkout"; "restore"; "switch"; "rebase"].

Definition RISK_PATTERNS : list (string * re) :=
  [ (DELETE_REASON, word_in DELETE_EXECUTABLES);
    (WRITE_REASON, word_in WRITE_EXECUTABLES);
    (REGISTRY_REASON,
      alts [word_in REGISTRY_EXECUTABLES; seqs [WordB; liti "hklm:"]; seqs [WordB; liti "hkcu:"]]);
    (DISK_BOOT_VOLUME_REASON,
      bounded (alts [words_i ["diskpart"; "bcdedit"; "mountvol"; "manage-bde"];
                     seqs [liti "chkdsk"; plus sp; star dot; liti "/f"];
                     seqs [liti "dd"; plus sp; liti "if="]]));
    (SERVICE_REASON,
      bounded (alts [words_i SERVICE_EXECUTABLES;
                     seqs [liti "sc"; opt (liti ".exe"); plus sp; words_i ["delete"; "stop"; "config"]];
                     seqs [liti "net"; plus sp; words_i ["stop"; "start"]]]));
    (GIT_REASON, followed (bounded git_exe) 240 (word_in GIT_VERBS));
    (PUSH_REASON, followed git_head 240 (word_in ["push"]));
    (DOCKER_REASON,
      followed (bounded (seqs [liti "docker"; opt (liti ".exe")])) 240
        (bounded (docker_verbs (star segment_char))));
    (PUBLISH_REASON,
      alts [followed (word_in ["npm"; "pnpm"; "yarn"]) 200 (bounded npm_verbs);
            followed (word_in ["pip"; "pipx"]) 160 (word_in ["install"]);
            followed (word_in ["prisma"; "sequelize"; "typeorm"]) 160 (word_in ["migrate"]);
            followed (word_in ["dotnet"]) 200 ef_update]);
    (REMOTE_REASON,
      Alt (word_in ["invoke-expression"; "iex"; "encodedcommand"])
          (seqs [word_in ["curl"; "wget"; "invoke-webrequest"; "iwr"]; star dot; oneof "|;";
                 star dot; word_in ["sh"; "bash"; "powershell"; "pwsh"; "cmd"]]));
    (PERMISSION_REASON, word_in PERMISSION_EXECUTABLES);
    (CALL_REASON,
      seqs [Alt Bol (seqs [oneof ";|"; star sp]); ch "&"%char; star sp;
            alts [ch "$"%char; Cls (fun c => (c =c SQ) || (c =c DQ));
                  seqs [opt (ch "."%char); oneof "\/"]]]) ].

(** Start or space, an optional digit, one or two [>], spaces. *)
Definition redirect_head : re :=
  seqs [Alt Bol sp; opt digit; Rep true 1 (Some 2) (ch ">"%char); star sp].
Definition FILE_REDIRECTION_PATTERN : re :=
  seqs [redirect_head; Ahead false (seqs [ch "&"%char; digit]); Ahead true nsp].
Definition NULL_DEVICE_REDIRECTION_PATTERN : re :=
  seqs [redirect_head; words_i ["$null"; "nul"; "/dev/null"];
        Ahead true (alts [sp; Eol; oneof ";&|"])].
Definition GIT_PUSH_SEGMENT_PATTERN : re :=
  seqs [git_head; upto_lazy 1000 segment_char; word_in ["push"]; star segment_char].
Definition MAIN_REF_PATTERN : re :=
  seqs [Alt Bol (Cls (fun c => is_space c || has_char c ":+")); opt (liti "refs/heads/");
        liti "main"; Ahead true (Alt Eol (Cls (fun c => is_space c || (c =c ":"%char))))].
(** [(?:^|\s)w(?=$|\s)] *)
Definition flag_word (w : string) : re :=
  seqs [Alt Bol sp; liti w; Ahead true (Alt Eol sp)].

(** *** Text normalisation *)
Definition normalizeForRisk (shell : ShellName) (command : string) : string :=
  let normalized :=
    trim (replace_g (plus sp) " "
      (replace_g (seqs [ch BT; Cls (fun c => (c =c CR) || (c =c LF))]) " " command)) in
  if bool_decide (shell = cmd) then replace_g (ch "^"%char) EmptyString normalized
  else normalized.

Definition normalizeRiskExecutable (value : string) : string :=
  toLowerCase (after_last SLASH (replace_char BSL SLASH value)).

Definition normalizeExternalExecutable (value : string) : string :=
  replace_first (seqs [ch "."%char; words_i ["cmd"; "bat"; "exe"]; Eol]) EmptyString
    (normalizeRiskExecutable value).

(** *** Git pushes *)
Definition classifyGitPushIntent (shell : ShellName) (command : string) : GitPushIntent :=
  let normalized := normalizeForRisk shell command in
  match first_match GIT_PUSH_SEGMENT_PATTERN normalized with
  | None => mkPush false false false false
  | Some (p, q) =>
      let segment := between p q in
      (* [search] answers [-1] when nothing matches; [slice] counts from the end then *)
      let '(beforePush, pushArgs) :=
        match search (word_in ["push"]) segment with
        | Some pushIndex => (stake pushIndex segment, sdrop (pushIndex + 4) segment)
        | None => (stake (String.length segment - 1) segment, sdrop 3 segment)
        end in
      mkPush true
        (test (flag_word "--all") pushArgs || test MAIN_REF_PATTERN pushArgs)
        (test (seqs [Alt Bol sp; lit "-C"; Alt (ch "="%char) sp]) beforePush)
        (test (flag_word "--mirror") pushArgs)
  end.

Definition protectedGitPushReason (intent : GitPushIntent) : option string :=
  if negb (isPush intent) then None
  else if usesGitC intent then
    Some "git push with -C is blocked; use the command cwd so protected-branch policy can be enforced."
  else if usesMirror intent then
    Some "git push --mirror is blocked because it can mutate multiple remote refs outside the explicit branch contract."
  else None.

(** *** Execution-aware classification of one PowerShell invocation *)
Definition when (b : bool) (r : string) : list string := if b then [r] else [].

Definition classifySimplePowerShellRisk (shell : ShellName) (command : string) :
    option (list string) :=
  if negb (is_powershell shell) then None
  else
    match argv_of (analyzeSimplePowerShellCommand shell command) with
    | None => None
    | Some (raw, argv) =>
        let executable := normalizeRiskExecutable raw in
        if includes NESTED_SHELL_EXECUTABLES executable then None
        else
          let args := join " " argv in
          let is_git := includes ["git"; "git.exe"] executable in
          Some (
            when (includes DELETE_EXECUTABLES executable) DELETE_REASON ++
            when (includes WRITE_EXECUTABLES executable) WRITE_REASON ++
            when (includes REGISTRY_EXECUTABLES executable) REGISTRY_REASON ++
            when (includes SERVICE_EXECUTABLES executable) SERVICE_REASON ++
            when (includes PERMISSION_EXECUTABLES executable) PERMISSION_REASON ++
            when (is_git && test (word_in GIT_VERBS) args) GIT_REASON ++
            when (is_git && test (word_in ["push"]) args) PUSH_REASON ++
            when (includes ["docker"; "docker.exe"] executable &&
                  test (bounded (docker_verbs (star dot))) args) DOCKER_REASON ++
            when (includes ["npm"; "pnpm"; "yarn"] executable &&
                  test (bounded npm_verbs) args) PUBLISH_REASON ++
            when (includes ["pip"; "pipx"] executable &&
                  test (word_in ["install"]) args) PUBLISH_REASON ++
            when (includes ["prisma"; "sequelize"; "typeorm"] executable &&
                  test (word_in ["migrate"]) args) PUBLISH_REASON ++
            when (includes ["dotnet"] executable && test ef_update args) PUBLISH_REASON ++
            when (includes ["invoke-expression"; "iex"; "encodedcommand"] executable)
                 REMOTE_REASON)
    end.

(** *** External packages and deployments *)
Definition PACKAGE_RUNNER_OPTIONS_WITH_VALUE : list string :=
  ["--cache"; "--call"; "--node-options"; "--registry"; "--shell"; "--userconfig"; "-c"].

Record ExternalCommandInvocation := mkInvocation { inv_executable : string; inv_argv : list string }.
Record PackageRunnerAnalysis := mkRunner {
  hasPackageTarget : bool;
  invocation : option ExternalCommandInvocation;
}.

Definition stripArgumentSeparator (argv : list string) : list string :=
  match argv with
  | x :: xs => if x =s "--" then xs else argv
  | [] => []
  end.

(** The loop of [analyzePackageRunnerTail]; the flag is [hasExplicitPackageTarget]. *)
Fixpoint packageRunnerTail (explicit : bool) (argv : list string) : PackageRunnerAnalysis :=
  match argv with
  | [] => mkRunner explicit None
  | tok :: rest =>
      let lower := toLowerCase tok in
      if tok =s "--" then packageRunnerTail explicit rest
      else if (lower =s "--package") || (lower =s "-p") then
        match rest with
        | _ :: rest' => packageRunnerTail true rest'
        | [] => packageRunnerTail explicit rest
        end
      else if startsWith lower "--package=" || startsWith lower "-p=" then
        packageRunnerTail true rest
      else if includes PACKAGE_RUNNER_OPTIONS_WITH_VALUE lower then
        match rest with
        | _ :: rest' => packageRunnerTail explicit rest'
        | [] => packageRunnerTail explicit rest
        end
      else if startsWith tok "-" then packageRunnerTail explicit rest
      else mkRunner true (Some (mkInvocation tok (stripArgumentSeparator rest)))
  end.
Definition analyzePackageRunnerTail (argv : list string) : PackageRunnerAnalysis :=
  packageRunnerTail false argv.

Definition findRunnerVerb (argv : list string) (verb : string) : option nat :=
  find_index (fun v => toLowerCase v =s verb) argv.

Definition analyzePackageRunner (executable : string) (argv : list string) :
    option PackageRunnerAnalysis :=
  if includes ["npx"; "pnpx"; "bunx"] executable then Some (analyzePackageRunnerTail argv)
  else if executable =s "npm" then
    (fun i => analyzePackageRunnerTail (drop (S i) argv)) <$> findRunnerVerb argv "exec"
  else if (executable =s "pnpm") || (executable =s "yarn") then
    (fun i => analyzePackageRunnerTail (drop (S i) argv)) <$> findRunnerVerb argv "dlx"
  else None.

Definition isExternalDeploymentMutation (rawExecutable : string) (argv : list string) : bool :=
  let executable := normalizeExternalExecutable rawExecutable in
  let lowerArgs := toLowerCase <$> argv in
  let positionals :=
    List.filter (fun v => negb (v =s "--") && negb (startsWith v "-")) lowerArgs in
  if executable =s "vercel" then
    match argv with [] => true | _ => false end
    || includes lowerArgs "--prod" || includes positionals "deploy"
  else if executable =s "wrangler" then
    includes positionals "deploy" || includes positionals "publish"
  else if includes ["netlify"; "firebase"; "fly"] executable then includes positionals "deploy"
  else if executable =s "railway" then
    includes positionals "up" || includes positionals "deploy"
  else if executable =s "supabase" then
    match find_index (String.eqb "functions") positionals,
          find_index (String.eqb "deploy") positionals with
    | Some f, Some d => (f <? d)%nat
    | _, _ => false
    end
  else false.

Definition classifyExternalExecutionArgv (rawExecutable : string) (argv : list string) :
    list string :=
  if includes NESTED_SHELL_EXECUTABLES (normalizeRiskExecutable rawExecutable) then []
  else
    let executable := normalizeExternalExecutable rawExecutable in
    match analyzePackageRunner executable argv with
    | Some runner =>
        when (hasPackageTarget runner) EXTERNAL_PACKAGE_EXECUTION_REASON ++
        match invocation runner with
        | Some inv => when (isExternalDeploymentMutation (inv_executable inv) (inv_argv inv))
                           EXTERNAL_DEPLOYMENT_REASON
        | None => []
        end
    | None => when (isExternalDeploymentMutation executable argv) EXTERNAL_DEPLOYMENT_REASON
    end.

(** *** Splitting a command line into segments *)
Definition escapeCharacter (shell : ShellName) : ascii :=
  if is_powershell shell then BT else if bool_decide (shell = cmd) then "^"%char else BSL.

(** [flush]: the trimmed segment, kept when non-empty. *)
Definition flush_segment (segment : string) : list string :=
  let value := trim segment in if sempty value then [] else [value].

Fixpoint split_go (shell : ShellName) (s : string) (segment : string) (q : option Quote)
    (escaped : bool) {struct s} : list string :=
  match s with
  | EmptyString => flush_segment segment
  | String c s' =>
      let add := segment +:+ str1 c in
      if escaped then split_go shell s' add q false
      else if (c =c escapeCharacter shell) && negb (quote_is single q) then
        split_go shell s' add q true
      else if (c =c DQ) && negb (quote_is single q) then
        split_go shell s' add (toggle double q) false
      else if (c =c SQ) && negb (bool_decide (shell = cmd)) && negb (quote_is double q) then
        split_go shell s' add (toggle single q) false
      else if bool_decide (q = None) then
        if (c =c CR) || (c =c LF) then flush_segment segment ++ split_go shell s' EmptyString q false
        else if (c =c "&"%char) || (c =c "|"%char) then
          flush_segment segment ++
          match s' with
          | String d s'' =>
              if d =c c then split_go shell s'' EmptyString q false
              else split_go shell s' EmptyString q false
          | EmptyString => split_go shell s' EmptyString q false
          end
        else if (c =c ";"%char) && negb (bool_decide (shell = cmd)) then
          flush_segment segment ++ split_go shell s' EmptyString q false
        else split_go shell s' add q false
      else split_go shell s' add q false
  end.
Definition splitCommandSegments (shell : ShellName) (command : string) : list string :=
  split_go shell command EmptyString None false.

(** The body of the loop of [classifyExternalExecutionRisk] on one segment. *)
Definition classifySegment (shell : ShellName) (segment : string) : list string :=
  match argv_of (analyzeSimpleShellCommand shell segment) with
  | Some (x, xs) => classifyExternalExecutionArgv x xs
  | None =>
      match words segment with
      | x :: xs => classifyExternalExecutionArgv x xs
      | [] => []
      end
  end.
Definition classifyExternalExecutionRisk (shell : ShellName) (command : string) : list string :=
  match argv_of (analyzeSimpleShellCommand shell command) with
  | Some (x, xs) => classifyExternalExecutionArgv x xs
  | None => flat_map (classifySegment shell) (splitCommandSegments shell command)
  end.

(** *** Masking the quoted literals of PowerShell *)
(** From just after an opening single quote: the text consumed (closing quote
    included), what remains, and whether the literal was closed. *)
Fixpoint single_literal (s : string) : string * string * bool :=
  match s with
  | EmptyString => (EmptyString, EmptyString, false)
  | String c s' =>
      if c =c SQ then
        match s' with
        | String d s'' =>
            if d =c SQ then
              let '(l, r, b) := single_literal s'' in (String c (String d l), r, b)
            else (str1 c, s', true)
        | EmptyString => (str1 c, s', true)
        end
      else let '(l, r, b) := single_literal s' in (String c l, r, b)
  end.
(** From just after an opening double quote; the last flag is [inert]. *)
Fixpoint double_literal (s : string) : string * string * bool * bool :=
  match s with
  | EmptyString => (EmptyString, EmptyString, false, true)
  | String c s' =>
      if c =c BT then
        match s' with
        | String d s'' =>
            let '(l, r, b, _) := double_literal s'' in (String c (String d l), r, b, false)
        | EmptyString => (str1 c, EmptyString, false, false)
        end
      else if c =c "$"%char then
        let '(l, r, b, _) := double_literal s' in (String c l, r, b, false)
      else if c =c DQ then (str1 c, s', true, true)
      else let '(l, r, b, i) := double_literal s' in (String c l, r, b, i)
  end.
(** The outer loop; every iteration consumes a character, so the length of the
    input is enough fuel. *)
Fixpoint mask_go (fuel : nat) (value : string) : string :=
  match fuel with
  | 0 => value
  | S fuel' =>
      match value with
      | EmptyString => EmptyString
      | String c s =>
          if c =c SQ then
            let '(l, r, closed) := single_literal s in
            let literal := String c l in
            (if closed then spaces (String.length literal) else literal) +:+ mask_go fuel' r
          else if c =c DQ then
            let '(l, r, closed, inert) := double_literal s in
            let literal := String c l in
            (if closed && inert then spaces (String.length literal) else literal) +:+ mask_go fuel' r
          else String c (mask_go fuel' s)
      end
  end.
Definition maskPowerShellInertQuotedLiterals (shell : ShellName) (value : string) : string :=
  if is_powershell shell then mask_go (String.length value) value else value.

(** *** Redirections and disk formats *)
Definition containsFileRedirection (normalized : string) : bool :=
  test FILE_REDIRECTION_PATTERN (replace_g NULL_DEVICE_REDIRECTION_PATTERN " " normalized).

Definition commandAfterOption (argv : list string) (options : list string) : option string :=
  match find_index (fun v => includes options (toLowerCase v)) argv with
  | Some i => if (S i <? length argv)%nat then Some (join " " (drop (S i) argv)) else None
  | None => None
  end.

Definition nestedOpaqueFormatRisk (argv : list string) (options : list string) : bool :=
  match commandAfterOption argv options with
  | Some command => negb (sempty command) && test FORMAT_COMMAND_TEXT_PATTERN command
  | None => false
  end.

(** [containsDiskFormatCommand] and its helpers call each other: a nested
    PowerShell command is examined in turn.  The nested text is shorter than
    the command it comes from ([nested_shorter] below), so the length of the
    command bounds the nesting. *)
Fixpoint disk_format (fuel : nat) (shell : ShellName) (command normalized : string) : bool :=
  match fuel with
  | 0 => false
  | S fuel' =>
      if negb (test FORMAT_COMMAND_TEXT_PATTERN normalized) then false
      else if negb (is_powershell shell) then true
      else
        match argv_of (analyzeSimplePowerShellCommand shell command) with
        | Some (executable, argv) =>
            let normalizedExecutable := normalizeRiskExecutable executable in
            let nested (sh : ShellName) : bool :=
              match commandAfterOption argv ["-command"; "-c"] with
              | Some c => negb (sempty c) && disk_format fuel' sh c (normalizeForRisk sh c)
              | None => false
              end in
            if includes FORMAT_EXECUTABLES normalizedExecutable then true
            else if includes ["powershell"; "powershell.exe"] normalizedExecutable then
              nested powershell
            else if includes ["pwsh"; "pwsh.exe"] normalizedExecutable then nested pwsh
            else if includes ["cmd"; "cmd.exe"] normalizedExecutable then
              nestedOpaqueFormatRisk argv ["/c"; "/k"]
            else if includes ["bash"; "sh"; "wsl"; "wsl.exe"] normalizedExecutable then
              existsb (test FORMAT_COMMAND_TEXT_PATTERN) argv
            else false
        | None =>
            test POWERSHELL_FORMAT_SEGMENT_PATTERN command
            || sexists POWERSHELL_AMBIGUOUS_SYNTAX_PATTERN command
        end
  end.
Definition containsDiskFormatCommand (shell : ShellName) (command normalized : string) : bool :=
  disk_format (S (String.length command)) shell command normalized.

(** *** The classifier *)
Definition classifyCommandRisk (shell : ShellName) (command : string) : CommandRisk :=
  let normalized := normalizeForRisk shell command in
  let lexicalRiskText :=
    normalizeForRisk shell (maskPowerShellInertQuotedLiterals shell command) in
  let base :=
    match classifySimplePowerShellRisk shell command with
    | Some rs => rs
    | None => map fst (List.filter (fun e => test e.2 lexicalRiskText) RISK_PATTERNS)
    end in
  let rs := base ++ classifyExternalExecutionRisk shell command
            ++ when (containsDiskFormatCommand shell command normalized) DISK_BOOT_VOLUME_REASON
            ++ when (containsFileRedirection lexicalRiskText) WRITE_REASON in
  mkRisk (match rs with [] => false | _ => true end) (js_dedup rs).

(** ** Masking *)
(** [t] is [s] with some characters blanked. *)
Fixpoint masked (t s : string) : Prop :=
  match t, s with
  | EmptyString, EmptyString => True
  | String d t', String c s' => (d = c \/ d = " "%char) /\ masked t' s'
  | _, _ => False
  end.

Lemma masked_refl s : masked s s.
Proof. induction s; simpl; auto. Qed.
Lemma masked_app t s t' s' : masked t s -> masked t' s' -> masked (t +:+ t') (s +:+ s').
Proof.
  revert s. induction t as [|d t IH]; intros [|c s]; simpl; try done.
  intros [H1 H2] H3. auto.
Qed.
Lemma masked_spaces s : masked (spaces (String.length s)) s.
Proof. induction s; simpl; auto. Qed.
Lemma masked_length t s : masked t s -> String.length t = String.length s.
Proof.
  revert s. induction t as [|d t IH]; intros [|c s]; simpl; try done.
  intros [_ H]. by rewrite (IH s).
Qed.

#[export] Hint Resolve masked_refl masked_app masked_spaces : mcp.

Lemma single_literal_split n s l r b :
  String.length s <= n -> single_literal s = (l, r, b) -> s = l +:+ r.
Proof.
  revert s l r b. induction n as [|n IH]; intros [|c s] l r b Hn; simpl in *;
    try lia; try (by intros [= <- <- <-]).
  destruct (c =c SQ).
  - destruct s as [|d s]; [by intros [= <- <- <-]|].
    destruct (d =c SQ); [|by intros [= <- <- <-]].
    destruct (single_literal s) as [[l' r'] b'] eqn:E. intros [= <- <- <-].
    simpl in Hn. by rewrite (IH s l' r' b') at 1 by (done || lia).
  - destruct (single_literal s) as [[l' r'] b'] eqn:E. intros [= <- <- <-].
    by rewrite (IH s l' r' b') at 1 by (done || lia).
Qed.

Lemma double_literal_split n s l r b i :
  String.length s <= n -> double_literal s = (l, r, b, i) -> s = l +:+ r.
Proof.
  revert s l r b i. induction n as [|n IH]; intros [|c s] l r b i Hn; simpl in *;
    try lia; try (by intros [= <- <- <- <-]).
  destruct (c =c BT); [|destruct (c =c "$"%char); [|destruct (c =c DQ)]].
  - destruct s as [|d s]; [by intros [= <- <- <- <-]|].
    destruct (double_literal s) as [[[l' r'] b'] i'] eqn:E. intros [= <- <- <- <-].
    simpl in Hn. by rewrite (IH s l' r' b' i') at 1 by (done || lia).
  - destruct (double_literal s) as [[[l' r'] b'] i'] eqn:E. intros [= <- <- <- <-].
    by rewrite (IH s l' r' b' i') at 1 by (done || lia).
  - by intros [= <- <- <- <-].
  - destruct (double_literal s) as [[[l' r'] b'] i'] eqn:E. intros [= <- <- <- <-].
    by rewrite (IH s l' r' b' i') at 1 by (done || lia).
Qed.

Lemma mask_go_masked n s : String.length s <= n -> masked (mask_go n s) s.
Proof.
  revert s. induction n as [|n IH]; intros [|c s] Hn; simpl in *; try lia; auto with mcp.
  destruct (c =c SQ); [|destruct (c =c DQ)].
  - destruct (single_literal s) as [[l r] b] eqn:E.
    apply (single_literal_split _ _ _ _ _ (le_n _)) in E as ->.
    rewrite slength_app in Hn. rewrite <- sapp_cons. apply masked_app; [|apply IH; lia].
    destruct b; [apply (masked_spaces (String c l))|auto with mcp].
  - destruct (double_literal s) as [[[l r] b] i] eqn:E.
    apply (double_literal_split _ _ _ _ _ _ (le_n _)) in E as ->.
    rewrite slength_app in Hn. rewrite <- sapp_cons. apply masked_app; [|apply IH; lia].
    destruct (b && i); [apply (masked_spaces (String c l))|auto with mcp].
  - split; [by left|]. apply IH. lia.
Qed.

Lemma single_literal_escape w post :
  match post with String d _ => (d =c SQ) = false | EmptyString => True end ->
  single_literal (ps_escape w +:+ String SQ post) = (ps_escape w +:+ str1 SQ, post, true).
Proof.
  intros Hp. induction w as [|c w IH]; cbn [ps_escape].
  - simpl. destruct post as [|d post]; [done|]. by rewrite Hp.
  - destruct (c =c SQ) eqn:E.
    + rewrite !sapp_cons. cbn [single_literal]. rewrite eqc_refl, IH. done.
    + rewrite !sapp_cons. cbn [single_literal]. by rewrite E, IH.
Qed.

Lemma mask_go_enough n m s : String.length s <= n -> String.length s <= m -> mask_go n s = mask_go m s.
Proof.
  revert m s. induction n as [|n IH]; intros [|m] [|c s] Hn Hm; simpl in *; try lia; try done.
  destruct (c =c SQ); [|destruct (c =c DQ)].
  - destruct (single_literal s) as [[l r] b] eqn:E.
    apply (single_literal_split _ _ _ _ _ (le_n _)) in E as ->.
    rewrite slength_app in Hn, Hm. f_equal. apply IH; lia.
  - destruct (double_literal s) as [[[l r] b] i] eqn:E.
    apply (double_literal_split _ _ _ _ _ _ (le_n _)) in E as ->.
    rewrite slength_app in Hn, Hm. f_equal. apply IH; lia.
  - f_equal. apply IH; lia.
Qed.

Lemma mask_go_plain_prefix n pre s :
  sexists (fun c => (c =c SQ) || (c =c DQ)) pre = false -> String.length (pre +:+ s) <= n ->
  mask_go n (pre +:+ s) = pre +:+ mask_go (String.length s) s.
Proof.
  revert n. induction pre as [|c pre IH]; intros n Hq Hn.
  - apply mask_go_enough; simpl in *; lia.
  - simpl in Hq. apply orb_false_iff in Hq as [Hc Hq]. apply orb_false_iff in Hc as [H1 H2].
    destruct n as [|n]; simpl in Hn; [lia|]. simpl. rewrite H1, H2.
    rewrite IH; [done|done|lia].
Qed.

(** Masking keeps every position: the masked text has the same length, and
    each of its characters is the original one or a blank. *)
Theorem mask_preserves_positions (shell : ShellName) (value : string) :
  masked (maskPowerShellInertQuotedLiterals shell value) value /\
  String.length (maskPowerShellInertQuotedLiterals shell value) = String.length value.
Proof.
  assert (masked (maskPowerShellInertQuotedLiterals shell value) value) as H.
  { unfold maskPowerShellInertQuotedLiterals.
    destruct (is_powershell shell); [by apply mask_go_masked|apply masked_refl]. }
  split; [done|]. by apply masked_length.
Qed.

(** A closed single-quoted PowerShell literal is blanked entirely, whatever
    it contains, and the text around it is treated on its own. *)
Theorem mask_blanks_single_quoted (shell : ShellName) (pre w post : string) :
  is_powershell shell = true ->
  sexists (fun c => (c =c SQ) || (c =c DQ)) pre = false ->
  match post with String d _ => (d =c SQ) = false | EmptyString => True end ->
  maskPowerShellInertQuotedLiterals shell (pre +:+ quoted ps_escape w +:+ post) =
  pre +:+ spaces (String.length (quoted ps_escape w)) +:+
    maskPowerShellInertQuotedLiterals shell post.
Proof.
  intros Hs Hpre Hpost. unfold maskPowerShellInertQuotedLiterals. rewrite Hs.
  rewrite mask_go_plain_prefix by done. f_equal.
  assert (quoted ps_escape w +:+ post = String SQ (ps_escape w +:+ String SQ post)) as ->.
  { unfold quoted. by rewrite sapp_cons, sapp_assoc. }
  cbn [String.length mask_go]. rewrite eqc_refl, single_literal_escape by done.
  unfold quoted. f_equal. apply mask_go_enough; rewrite ?slength_app; simpl; lia.
Qed.

Lemma mask_blanks_single_quoted_witness :
  maskPowerShellInertQuotedLiterals pwsh ("echo " +:+ quoted ps_escape "rm x" +:+ "; ls") =
  "echo " +:+ spaces 6 +:+ "; ls".
Proof. by apply (mask_blanks_single_quoted pwsh "echo " "rm x" "; ls"). Defined.

(** ** Nested commands are shorter *)
Lemma find_index_lookup {A} (f : A -> bool) xs i :
  find_index f xs = Some i -> exists x, xs !! i = Some x /\ f x = true.
Proof.
  revert i. induction xs as [|x xs IH]; intros i; simpl; [done|].
  destruct (f x) eqn:E; [intros [= <-]; by exists x|].
  destruct (find_index f xs) as [j|]; simpl; [|done]. intros [= <-]. by apply IH.
Qed.

Lemma total_elem ws i w : ws !! i = Some w -> S (String.length w) + total (drop (S i) ws) <= total ws.
Proof.
  intros H. rewrite <- (take_drop_middle ws i w H) at 2.
  rewrite total_app, total_cons. lia.
Qed.

Lemma nested_shorter sh command x xs options c :
  argv_of (analyzeSimplePowerShellCommand sh command) = Some (x, xs) ->
  commandAfterOption xs options = Some c -> String.length c < String.length command.
Proof.
  intros Ha Hc. apply powershell_argv_total in Ha as [_ Ht]. rewrite total_cons in Ht.
  unfold commandAfterOption in Hc.
  destruct (find_index _ xs) as [i|] eqn:E; [|done].
  destruct (S i <? length xs)%nat eqn:El; [|done]. injection Hc as <-.
  apply find_index_lookup in E as (w & Hw & _). apply total_elem in Hw.
  apply Nat.ltb_lt in El.
  destruct (drop (S i) xs) as [|y ys] eqn:Ed.
  { apply (f_equal length) in Ed. rewrite length_drop in Ed. simpl in Ed. lia. }
  pose proof (slength_join y ys). lia.
Qed.

Lemma disk_format_fuel n m sh command normalized :
  String.length command < n -> String.length command < m ->
  disk_format n sh command normalized = disk_format m sh command normalized.
Proof.
  revert m sh command normalized. induction n as [|n IH]; intros [|m] sh command normalized Hn Hm;
    try lia. cbn [disk_format].
  destruct (negb (test _ normalized)); [done|]. destruct (negb (is_powershell sh)); [done|].
  destruct (argv_of _) as [[x xs]|] eqn:Ea; [|done]. cbv zeta.
  destruct (commandAfterOption xs ["-command"; "-c"]) as [c|] eqn:Ec; [|done].
  pose proof (nested_shorter _ _ _ _ _ _ Ea Ec).
  by rewrite !(IH m _ c) by lia.
Qed.

(** The nested examination terminates within the fuel: any fuel above the
    length of the command gives the answer of [containsDiskFormatCommand]. *)
Theorem disk_format_terminates (fuel : nat) (shell : ShellName) (command normalized : string) :
  String.length command < fuel ->
  disk_format fuel shell command normalized = containsDiskFormatCommand shell command normalized.
Proof. intros H. apply disk_format_fuel; [done|lia]. Qed.

Lemma disk_format_terminates_witness :
  disk_format 100 pwsh "pwsh -c format d:" "pwsh -c format d:" =
  containsDiskFormatCommand pwsh "pwsh -c format d:" "pwsh -c format d:".
Proof. apply (disk_format_terminates 100 pwsh). vm_compute. lia. Defined.

(** ** The classifier *)
Lemma elem_of_when b r x : x ∈ when b r <-> b = true /\ x = r.
Proof.
  destruct b; simpl; rewrite ?list_elem_of_singleton, ?elem_of_nil; naive_solver.
Qed.

Lemma elem_of_patterns r text :
  r ∈ map fst (List.filter (fun e : string * re => test e.2 text) RISK_PATTERNS) <->
  exists p, (r, p) ∈ RISK_PATTERNS /\ test p text = true.
Proof.
  rewrite list_elem_of_In, in_map_iff. setoid_rewrite filter_In.
  setoid_rewrite list_elem_of_In. split.
  - intros ([r' p] & <- & H). by exists p.
  - intros (p & H). by exists (r, p).
Qed.

Lemma classify_powershell_none sh command :
  is_powershell sh = false -> classifySimplePowerShellRisk sh command = None.
Proof. unfold classifySimplePowerShellRisk. by intros ->. Qed.

Lemma disk_format_lexical sh command normalized :
  is_powershell sh = false ->
  containsDiskFormatCommand sh command normalized = test FORMAT_COMMAND_TEXT_PATTERN normalized.
Proof.
  intros H. unfold containsDiskFormatCommand. cbn [disk_format]. rewrite H.
  by destruct (test _ _).
Qed.

(** A command line is destructive exactly when it has a reason, and the
    reasons are listed once each. *)
Theorem risk_reasons_consistent (shell : ShellName) (command : string) :
  (destructive (classifyCommandRisk shell command) = true <->
   reasons (classifyCommandRisk shell command) <> []) /\
  NoDup (reasons (classifyCommandRisk shell command)).
Proof.
  unfold classifyCommandRisk. cbv zeta. cbn [destructive reasons]. split; [|apply NoDup_js_dedup].
  by destruct (_ ++ _).
Qed.

(** Outside PowerShell the reasons are exactly those of the risk patterns
    that occur in the normalised text, of the external executions, of the disk
    format test and of the redirection test. *)
Theorem lexical_risk_reasons (shell : ShellName) (command reason : string) :
  is_powershell shell = false ->
  reason ∈ reasons (classifyCommandRisk shell command) <->
  (exists p, (reason, p) ∈ RISK_PATTERNS /\ test p (normalizeForRisk shell command) = true) \/
  reason ∈ classifyExternalExecutionRisk shell command \/
  (test FORMAT_COMMAND_TEXT_PATTERN (normalizeForRisk shell command) = true /\
   reason = DISK_BOOT_VOLUME_REASON) \/
  (containsFileRedirection (normalizeForRisk shell command) = true /\ reason = WRITE_REASON).
Proof.
  intros H. unfold classifyCommandRisk, maskPowerShellInertQuotedLiterals. cbv zeta.
  cbn [reasons]. rewrite H, classify_powershell_none, disk_format_lexical by done.
  by rewrite elem_of_js_dedup, !elem_of_app, elem_of_patterns, !elem_of_when.
Qed.

Lemma lexical_risk_reasons_witness :
  DELETE_REASON ∈ reasons (classifyCommandRisk cmd "del x").
Proof.
  apply (lexical_risk_reasons cmd "del x" DELETE_REASON eq_refl). left.
  exists (word_in DELETE_EXECUTABLES). split; [apply list_elem_of_here|vm_compute; reflexivity].
Defined.

(** No deletion escapes the lexical classifier: outside PowerShell, a
    command line whose normalised text has a deletion verb as a whole word, in any
    letter case and at any place, is destructive with the deletion reason. *)
Theorem lexical_delete_detected (shell : ShellName) (command : string) :
  is_powershell shell = false ->
  has_word DELETE_EXECUTABLES (normalizeForRisk shell command) ->
  destructive (classifyCommandRisk shell command) = true /\
  DELETE_REASON ∈ reasons (classifyCommandRisk shell command).
Proof.
  intros Hs Hw%word_in_spec.
  assert (DELETE_REASON ∈ reasons (classifyCommandRisk shell command)) as Hr.
  { unfold classifyCommandRisk, maskPowerShellInertQuotedLiterals. cbv zeta. cbn [reasons].
    rewrite Hs, classify_powershell_none by done.
    rewrite elem_of_js_dedup, elem_of_app, elem_of_patterns. left.
    eexists. split; [apply list_elem_of_here|done]. }
  split; [|done]. revert Hr. unfold classifyCommandRisk. cbv zeta. cbn [reasons destructive].
  destruct (_ ++ _); [by intros ?%not_elem_of_nil|done].
Qed.

Lemma lexical_delete_detected_witness :
  destructive (classifyCommandRisk git_bash "ls && /bin/RM -rf x") = true /\
  DELETE_REASON ∈ reasons (classifyCommandRisk git_bash "ls && /bin/RM -rf x").
Proof.
  apply (lexical_delete_detected git_bash "ls && /bin/RM -rf x" eq_refl).
  apply word_in_spec. vm_compute. reflexivity.
Defined.

(** ** Segments *)
Definition separator_char (shell : ShellName) (c : ascii) : bool :=
  (c =c CR) || (c =c LF) || (c =c "&"%char) || (c =c "|"%char)
  || (c =c ";"%char) && negb (bool_decide (shell = cmd)).
(** Characters that change the state of the splitter. *)
Definition splitter_quoting (shell : ShellName) (c : ascii) : bool :=
  (c =c escapeCharacter shell) || (c =c DQ) || (c =c SQ) && negb (bool_decide (shell = cmd)).

(** The maximal runs without a separator. *)
Fixpoint fields (sep : ascii -> bool) (cur s : string) : list string :=
  match s with
  | EmptyString => [cur]
  | String c s' => if sep c then cur :: fields sep EmptyString s'
                   else fields sep (cur +:+ str1 c) s'
  end.

Lemma split_go_plain n shell s cur :
  String.length s <= n -> sexists (splitter_quoting shell) s = false ->
  split_go shell s cur None false = flat_map flush_segment (fields (separator_char shell) cur s).
Proof.
  revert s cur. induction n as [|n IH]; intros [|c s] cur Hn Hq;
    try (simpl in *; lia); try (simpl; by rewrite app_nil_r).
  simpl in Hn, Hq. apply orb_false_iff in Hq as [Hc Hq].
  unfold splitter_quoting in Hc. apply orb_false_iff in Hc as [[H1 H2]%orb_false_iff H3].
  assert (forall cur, split_go shell s cur None false =
            flat_map flush_segment (fields (separator_char shell) cur s)) as IH1
    by (intros; apply IH; [lia|done]).
  cbn [split_go fields]. rewrite H1, H2, H3. simpl. unfold separator_char at 1.
  destruct (c =c CR) eqn:E1; [simpl; by rewrite IH1|].
  destruct (c =c LF) eqn:E2; [simpl; by rewrite IH1|]. simpl.
  assert (forall k, (c =c k) = true -> separator_char shell k = true ->
    match s with
    | String d s'' => if d =c c then split_go shell s'' EmptyString None false
                      else split_go shell s EmptyString None false
    | EmptyString => split_go shell s EmptyString None false
    end = flat_map flush_segment (fields (separator_char shell) EmptyString s)) as Hdouble.
  { intros k Hk Hsep. destruct s as [|d s]; [apply IH1|].
    destruct (d =c c) eqn:Ed; [|apply IH1].
    apply eqc_eq in Ed as ->. apply eqc_eq in Hk as ->. cbn [fields]. rewrite Hsep. simpl.
    simpl in Hn, Hq. apply orb_false_iff in Hq as [_ Hq]. apply IH; [lia|done]. }
  destruct (c =c "&"%char) eqn:E3.
  { simpl. by rewrite (Hdouble "&"%char). }
  destruct (c =c "|"%char) eqn:E4.
  { simpl. by rewrite (Hdouble "|"%char). }
  cbn [orb]. destruct ((c =c ";"%char) && negb (bool_decide (shell = cmd))); cbn [flat_map]; by rewrite IH1.
Qed.

(** Without quotes and escapes, the segments of a command line are the
    trimmed, non-empty runs between separators: line breaks, [&], [|], their
    doubled forms, and [;] outside cmd. *)
Theorem segments_plain_reference (shell : ShellName) (command : string) :
  sexists (splitter_quoting shell) command = false ->
  splitCommandSegments shell command =
  flat_map flush_segment (fields (separator_char shell) EmptyString command).
Proof. apply (split_go_plain _ _ _ _ (le_n _)). Qed.

Lemma segments_plain_reference_witness :
  splitCommandSegments pwsh "npx a && ls ; x" =
  flat_map flush_segment (fields (separator_char pwsh) EmptyString "npx a && ls ; x").
Proof. by apply (segments_plain_reference pwsh "npx a && ls ; x"). Defined.

(** ** PowerShell invocations are judged by their executable *)
Lemma external_argv_reasons x xs r :
  r ∈ classifyExternalExecutionArgv x xs ->
  r = EXTERNAL_PACKAGE_EXECUTION_REASON \/ r = EXTERNAL_DEPLOYMENT_REASON.
Proof.
  unfold classifyExternalExecutionArgv.
  destruct (includes _ _); [by intros ?%not_elem_of_nil|].
  destruct (analyzePackageRunner _ _) as [[h i]|]; simpl.
  - rewrite elem_of_app, elem_of_when. destruct i; rewrite ?elem_of_when, ?elem_of_nil; tauto.
  - rewrite elem_of_when. tauto.
Qed.

Lemma powershell_simple_risk sh command x xs :
  is_powershell sh = true ->
  argv_of (analyzeSimplePowerShellCommand sh command) = Some (x, xs) ->
  includes NESTED_SHELL_EXECUTABLES (normalizeRiskExecutable x) = false ->
  exists rs, classifySimplePowerShellRisk sh command = Some rs /\
    (DELETE_REASON ∈ rs <-> normalizeRiskExecutable x ∈ DELETE_EXECUTABLES).
Proof.
  intros Hs Ha Hn. unfold classifySimplePowerShellRisk. rewrite Hs, Ha, Hn. cbn [negb].
  eexists. split; [done|]. rewrite !elem_of_app, !elem_of_when, includes_spec.
  intuition discriminate.
Qed.

(** A plain PowerShell invocation is a deletion exactly when its executable
    is one, whatever its directory prefix and letter case; the contents of its
    arguments neither add nor hide the reason. *)
Theorem powershell_delete_by_executable (shell : ShellName) (command x : string) (xs : list string) :
  is_powershell shell = true ->
  argv_of (analyzeSimplePowerShellCommand shell command) = Some (x, xs) ->
  includes NESTED_SHELL_EXECUTABLES (normalizeRiskExecutable x) = false ->
  DELETE_REASON ∈ reasons (classifyCommandRisk shell command) <->
  normalizeRiskExecutable x ∈ DELETE_EXECUTABLES.
Proof.
  intros Hs Ha Hn. destruct (powershell_simple_risk _ _ _ _ Hs Ha Hn) as (rs & Hr & Hiff).
  unfold classifyCommandRisk. cbv zeta. cbn [reasons].
  rewrite elem_of_js_dedup, !elem_of_app, !elem_of_when, Hr, Hiff.
  unfold classifyExternalExecutionRisk, analyzeSimpleShellCommand. rewrite Hs, Ha.
  split; [|tauto]. intros [?|[[?|?]%external_argv_reasons|[[_ ?]|[_ ?]]]]; done.
Qed.

Lemma powershell_delete_by_executable_witness :
  DELETE_REASON ∈ reasons (classifyCommandRisk pwsh "C:\tools\RM 'a b' -Force") <->
  normalizeRiskExecutable "C:\tools\RM" ∈ DELETE_EXECUTABLES.
Proof.
  apply (powershell_delete_by_executable pwsh _ "C:\tools\RM" ["a b"; "-Force"]);
    vm_compute; reflexivity.
Defined.

(** ** Git pushes *)
(** The hard block on pushes: of the recognised pushes exactly those with
    [-C] before the verb or [--mirror] after it are refused, [-C] being reported
    first; nothing else is refused. *)
Theorem push_block_decision (shell : ShellName) (command : string) :
  let intent := classifyGitPushIntent shell command in
  (protectedGitPushReason intent <> None <-> usesGitC intent = true \/ usesMirror intent = true) /\
  (isPush intent = false ->
   targetsMain intent = false /\ usesGitC intent = false /\ usesMirror intent = false).
Proof.
  cbv zeta. unfold classifyGitPushIntent, protectedGitPushReason.
  destruct (first_match _ _) as [[p q]|]; [|simpl; intuition discriminate].
  destruct (search _ _); cbn [isPush usesGitC usesMirror targetsMain negb];
    (split; [|done]); repeat case_goal; intuition discriminate.
Qed.

(** ** Line breaks *)
Definition two_lines (a b : string) : string := a +:+ str1 LF +:+ b.

(** A deletion on the second line of a PowerShell command is not seen: the
    line break is a token boundary of the analyser but a statement separator of
    the shell. *)
Lemma powershell_line_break_hides_command :
  destructive (classifyCommandRisk pwsh "Remove-Item x -Recurse") = true /\
  destructive (classifyCommandRisk pwsh (two_lines "Get-Date" "Remove-Item x -Recurse")) = false.
Proof. vm_compute. done. Qed.

(** A push on the second line is not seen either, in any shell, because line
    breaks are turned into blanks before the push expressions are tried: neither the
    confirmation nor the hard block applies. *)
Lemma line_break_hides_push :
  destructive (classifyCommandRisk git_bash "git push --mirror") = true /\
  protectedGitPushReason (classifyGitPushIntent git_bash "git push --mirror") <> None /\
  destructive (classifyCommandRisk git_bash (two_lines "ls" "git push --mirror")) = false /\
  protectedGitPushReason (classifyGitPushIntent git_bash (two_lines "ls" "git push --mirror")) = None.
Proof. vm_compute. done. Qed.
