(* ===== verification/NodeEnv.v ===== *)
(** The runtime the Workspace Agent stands on: the [node:path] module as an
    interface, its POSIX implementation, and the file system as a parameter.

    [NodePath] is what the source uses of [node:path] and [process.platform];
    [PathLaws] is the documented behaviour its clients rely on.  [posixPath] is the
    POSIX flavour, defined on path segments, and satisfies the laws.  The file
    system is a record of the calls the source makes; every call may fail, and
    one authorization sees one state of it. *)
From S2P Require Import Prelude JsString.

(** A path segment that names something: not empty, not a dot segment, and
    without a separator. *)
Definition plain_segment (w : string) : bool :=
  negb (sempty w) && negb (w =s ".") && negb (w =s "..") && negb (has_char SLASH w).

Class NodePath := {
  isWindows : bool;
  path_sep : ascii;
  path_isAbsolute : string -> bool;
  path_resolve : string -> list string -> string;
  path_relative : string -> string -> string;
  path_dirname : string -> string;
  path_basename : string -> string;
}.

(** [path.posix.isAbsolute], [path.win32.isAbsolute] and [/^[a-zA-Z]:/]: these
    do not depend on the platform. *)
Definition posix_isAbsolute (p : string) : bool := startsWith p "/".
Definition is_letter (c : ascii) : bool :=
  let n := char_code c in ((65 <=? n) && (n <=? 90) || (97 <=? n) && (n <=? 122))%N.
Definition is_slash (c : ascii) : bool := (c =c SLASH) || (c =c BSL).
Definition has_drive (p : string) : bool :=
  match p with String c (String d _) => is_letter c && (d =c ":"%char) | _ => false end.
Definition win32_isAbsolute (p : string) : bool :=
  match p with
  | String c s =>
      is_slash c ||
      match s with String d (String e _) => is_letter c && (d =c ":"%char) && is_slash e | _ => false end
  | EmptyString => false
  end.

(** [path.posix.dirname]. *)
Definition posix_dirname (p : string) : string :=
  let fix strip (ws : list string) : list string :=
    match ws with EmptyString :: ws' => strip ws' | _ => ws end in
  match strip (rev (split_on SLASH p)) with
  | [] => if startsWith p "/" then "/" else "."
  | _ :: above =>
      match above with
      | [] => "."
      | [EmptyString] => "/"
      | [EmptyString; EmptyString] => "//"
      | _ => join "/" (rev above)
      end
  end.

(** *** The POSIX flavour *)
(** [normalizeString] on segments, for an absolute path. *)
Fixpoint norm_segs (acc : list string) (ws : list string) : list string :=
  match ws with
  | [] => acc
  | w :: ws' =>
      if sempty w || (w =s ".") then norm_segs acc ws'
      else if w =s ".." then norm_segs (removelast acc) ws'
      else norm_segs (acc ++ [w]) ws'
  end.
Definition segs (p : string) : list string := norm_segs [] (split_on SLASH p).
Definition of_segs (ws : list string) : string := String SLASH (join "/" ws).

(** [path.resolve(cwd, root, ...rest)]: an absolute operand restarts the path. *)
Fixpoint resolve_from (acc : list string) (ps : list string) : list string :=
  match ps with
  | [] => acc
  | p :: ps' =>
      resolve_from (if posix_isAbsolute p then norm_segs [] (split_on SLASH p)
                    else norm_segs acc (split_on SLASH p)) ps'
  end.

Fixpoint strip_common (us vs : list string) : list string * list string :=
  match us, vs with
  | u :: us', v :: vs' => if u =s v then strip_common us' vs' else (us, vs)
  | _, _ => (us, vs)
  end.

Definition posix_relative (cwd from to : string) : string :=
  let '(up, down) := strip_common (resolve_from (segs cwd) [from]) (resolve_from (segs cwd) [to]) in
  join "/" (replicate (length up) ".." ++ down).

Definition posix_basename (p : string) : string :=
  let fix strip (ws : list string) : list string :=
    match ws with EmptyString :: ws' => strip ws' | _ => ws end in
  match strip (rev (split_on SLASH p)) with [] => EmptyString | w :: _ => w end.

Definition posixPath (cwd : string) : NodePath := {|
  isWindows := false;
  path_sep := SLASH;
  path_isAbsolute := posix_isAbsolute;
  path_resolve := fun root rest => of_segs (resolve_from (segs cwd) (root :: rest));
  path_relative := posix_relative cwd;
  path_dirname := posix_dirname;
  path_basename := posix_basename;
|}.

(** *** The file system *)
Inductive FileKind := kind_file | kind_directory.

#[export] Instance FileKind_eq_dec : EqDecision FileKind.
Proof. solve_decision. Defined.

(** A directory entry of [readdir(..., { withFileTypes: true })]. *)
Record Dirent := mkDirent { de_name : string; de_symlink : bool }.

(** [None] is a rejected promise; [fs_stat] answers [Some None] for a path that
    is neither a regular file nor a directory. *)
Record FileSystem := mkFs {
  fs_realpath : string -> option string;
  fs_stat : string -> option (option FileKind);
  fs_is_symlink : string -> option bool;
  fs_readdir : string -> option (list Dirent);
}.

(** *** Containment *)
Section Containment.
Context {P : NodePath}.

Definition sep_string : string := str1 path_sep.

(** path-security.ts [isContained]. *)
Definition isContained (basePath targetPath : string) : bool :=
  let relative := path_relative basePath targetPath in
  sempty relative
  || (negb (startsWith relative (".." +:+ sep_string))
      && negb (relative =s "..")
      && negb (path_isAbsolute relative)).
End Containment.

(** The laws the authorization relies on: resolving plain segments against a
    root stays inside it, and containment is transitive. *)
Class PathLaws (P : NodePath) := {
  rooted : string -> Prop;
  absolute_known : forall p,
    path_isAbsolute p = true -> posix_isAbsolute p = true \/ win32_isAbsolute p = true;
  contained_self : forall r, rooted r -> isContained r r = true;
  contained_resolve : forall r ws,
    rooted r -> Forall (fun w => plain_segment w = true) ws ->
    isContained r (path_resolve r ws) = true;
  contained_trans : forall a b c,
    rooted a -> rooted b -> rooted c ->
    isContained a b = true -> isContained b c = true -> isContained a c = true;
}.

(** ** The POSIX flavour satisfies the laws *)
Lemma norm_segs_app acc us vs : norm_segs acc (us ++ vs) = norm_segs (norm_segs acc us) vs.
Proof.
  revert acc. induction us as [|u us IH]; intros acc; simpl; [done|].
  destruct (_ || _); [done|]. by destruct (u =s "..").
Qed.

Lemma plain_segment_spec w :
  plain_segment w = true <->
  sempty w = false /\ (w =s ".") = false /\ (w =s "..") = false /\ has_char SLASH w = false.
Proof.
  unfold plain_segment. rewrite !andb_true_iff, !negb_true_iff. tauto.
Qed.

Lemma norm_segs_plain acc ws :
  Forall (fun w => plain_segment w = true) ws -> norm_segs acc ws = acc ++ ws.
Proof.
  intros H. revert acc. induction H as [|w ws Hw _ IH]; intros acc; simpl.
  - by rewrite app_nil_r.
  - apply plain_segment_spec in Hw as (-> & -> & -> & _). simpl.
    by rewrite IH, <- app_assoc.
Qed.

Lemma Forall_removelast {A} (Q : A -> Prop) xs : Forall Q xs -> Forall Q (removelast xs).
Proof.
  intros H. induction H as [|x xs Hx Hxs IH]; [constructor|].
  destruct xs; simpl in *; constructor; auto.
Qed.

Lemma norm_segs_all_plain acc ws :
  Forall (fun w => plain_segment w = true) acc ->
  (forall w, w ∈ ws -> has_char SLASH w = false) ->
  Forall (fun w => plain_segment w = true) (norm_segs acc ws).
Proof.
  revert acc. induction ws as [|w ws IH]; intros acc Ha Hw; simpl; [done|].
  assert (forall v, v ∈ ws -> has_char SLASH v = false) as Hws.
  { intros v Hv. apply Hw. by right. }
  destruct (sempty w || (w =s ".")) eqn:E1; [by apply IH|].
  destruct (w =s "..") eqn:E2; [apply IH; [by apply Forall_removelast|done]|].
  apply IH; [|done]. apply Forall_app. split; [done|]. constructor; [|done].
  apply orb_false_iff in E1 as [? ?]. apply plain_segment_spec.
  split; [done|]. split; [done|]. split; [done|]. apply Hw. left.
Qed.

Lemma segs_plain p : Forall (fun w => plain_segment w = true) (segs p).
Proof. apply norm_segs_all_plain; [done|]. intros w. apply split_on_no_sep. Qed.

Lemma segs_of_segs ws : Forall (fun w => plain_segment w = true) ws -> segs (of_segs ws) = ws.
Proof.
  intros H. unfold segs, of_segs. cbn [split_on]. rewrite eqc_refl. cbn [norm_segs].
  cbn [sempty orb]. destruct ws as [|w ws]; [done|].
  change "/" with (str1 SLASH).
  rewrite split_on_join; [by apply norm_segs_plain|done|].
  intros x Hx. rewrite Forall_forall in H. by apply H, plain_segment_spec in Hx as (_ & _ & _ & ?).
Qed.

Lemma strip_common_spec us vs :
  exists ws, us = ws ++ (strip_common us vs).1 /\ vs = ws ++ (strip_common us vs).2.
Proof.
  revert vs. induction us as [|u us IH]; intros [|v vs]; try (by exists []).
  cbn [strip_common]. destruct (u =s v) eqn:E; [|by exists []].
  apply String.eqb_eq in E as ->. destruct (IH vs) as (ws & H1 & H2).
  exists (v :: ws). split; simpl; congruence.
Qed.

Lemma strip_common_prefix us ws : strip_common us (us ++ ws) = ([], ws).
Proof. induction us as [|u us IH]; simpl; [done|]. by rewrite String.eqb_refl. Qed.

Lemma split_join_plain ws :
  ws <> [] -> Forall (fun w => plain_segment w = true) ws -> split_on SLASH (join "/" ws) = ws.
Proof.
  intros Hne H. apply (split_on_join SLASH ws Hne). intros x Hx.
  rewrite Forall_forall in H. by apply H, plain_segment_spec in Hx as (_ & _ & _ & ?).
Qed.

(** A relative path of plain segments does not leave its base. *)
Lemma plain_join_inside ws :
  Forall (fun w => plain_segment w = true) ws ->
  join "/" ws = EmptyString \/
  startsWith (join "/" ws) "../" = false /\ (join "/" ws =s "..") = false /\
  posix_isAbsolute (join "/" ws) = false.
Proof.
  intros H. destruct ws as [|w ws]; [by left|]. right.
  pose proof (split_join_plain (w :: ws) ltac:(done) H) as Hs.
  apply Forall_cons_1 in H as [Hw _].
  apply plain_segment_spec in Hw as (H1 & H2 & H3 & H4).
  split; [|split].
  - apply not_true_iff_false. intros [t Ht]%startsWith_spec. rewrite Ht in Hs.
    change ("../" +:+ t) with (".." +:+ String SLASH t) in Hs.
    rewrite split_on_app in Hs by done. injection Hs as <- _. done.
  - apply not_true_iff_false. intros Ht%String.eqb_eq. rewrite Ht in Hs.
    injection Hs as <- _. done.
  - apply not_true_iff_false. intros [t Ht]%startsWith_spec. rewrite Ht in Hs.
    simpl in Hs. injection Hs as <- _. done.
Qed.

(** POSIX containment is the prefix order on segments. *)
Lemma posix_contained_iff cwd us vs :
  Forall (fun w => plain_segment w = true) us -> Forall (fun w => plain_segment w = true) vs ->
  isContained (P := posixPath cwd) (of_segs us) (of_segs vs) = true <-> us `prefix_of` vs.
Proof.
  intros Hu Hv. unfold isContained. cbn [path_relative path_sep path_isAbsolute posixPath].
  unfold posix_relative. cbn [resolve_from].
  assert (forall ws, posix_isAbsolute (of_segs ws) = true) as Habs.
  { intros ws. unfold posix_isAbsolute. apply startsWith_spec. by eexists. }
  rewrite !Habs. fold (segs (of_segs us)) (segs (of_segs vs)).
  rewrite !segs_of_segs by done.
  destruct (strip_common_spec us vs) as (ws & E1 & E2).
  destruct (strip_common us vs) as [up down] eqn:E. simpl in E1, E2.
  assert (Forall (fun w => plain_segment w = true) down) as Hd.
  { rewrite E2 in Hv. by apply Forall_app in Hv as [_ ?]. }
  split.
  - intros H. destruct up as [|u up]; [exists down; by rewrite E1, app_nil_r|]. exfalso.
    cbn [length replicate app] in H.
    destruct (replicate (length up) ".." ++ down) as [|x xs].
    + done.
    + rewrite join_cons in H.
      change (".." +:+ sep_string) with "../" in H.
      assert (startsWith (".." +:+ "/" +:+ join "/" (x :: xs)) "../" = true) as Hs
        by (apply startsWith_spec; by eexists).
      by rewrite Hs in H.
  - intros [k Hk]. rewrite Hk, strip_common_prefix in E. injection E as <- <-.
    cbn [length replicate app]. destruct (plain_join_inside k Hd) as [->|(H1 & H2 & H3)]; [done|].
    change (".." +:+ sep_string) with "../". rewrite H1, H2, H3. by rewrite orb_true_r.
Qed.

Lemma resolve_plain acc ws :
  Forall (fun w => plain_segment w = true) ws -> resolve_from acc ws = acc ++ ws.
Proof.
  intros H. revert acc. induction H as [|w ws Hw _ IH]; intros acc; simpl.
  - by rewrite app_nil_r.
  - pose proof Hw as Hw'. apply plain_segment_spec in Hw' as (H1 & _ & _ & H4).
    assert (posix_isAbsolute w = false) as ->.
    { apply not_true_iff_false. intros [t ->]%startsWith_spec. done. }
    rewrite (split_on_plain _ _ H4), norm_segs_plain, IH by (constructor; done || constructor).
    by rewrite <- app_assoc.
Qed.

(** A root of the POSIX flavour: an absolute path in normal form. *)
Definition posix_rooted (r : string) : Prop :=
  exists ws, r = of_segs ws /\ Forall (fun w => plain_segment w = true) ws.

#[export] Program Instance posix_laws (cwd : string) : PathLaws (posixPath cwd) := {|
  rooted := posix_rooted;
|}.
Next Obligation. by left. Qed.
Next Obligation.
  intros cwd r (ws & -> & H). by apply posix_contained_iff.
Qed.
Next Obligation.
  intros cwd r vs (ws & -> & H) Hv. cbn [path_resolve posixPath resolve_from].
  assert (posix_isAbsolute (of_segs ws) = true) as ->.
  { apply startsWith_spec. by eexists. }
  fold (segs (of_segs ws)). rewrite segs_of_segs, resolve_plain by done.
  apply posix_contained_iff; [done|by apply Forall_app|]. by exists vs.
Qed.
Next Obligation.
  intros cwd a b c (us & -> & Hu) (vs & -> & Hv) (ws & -> & Hw) H1 H2.
  apply (posix_contained_iff cwd) in H1, H2; try done.
  apply posix_contained_iff; [done..|]. by etrans.
Qed.

Example posix_resolve_example :
  path_resolve (NodePath := posixPath "/") "/srv/ws" ["src"; "a.ts"] = "/srv/ws/src/a.ts" /\
  isContained (P := posixPath "/") "/srv/ws" "/srv/ws/src" = true /\
  isContained (P := posixPath "/") "/srv/ws" "/srv/ws-2" = false /\
  isContained (P := posixPath "/") "/srv/ws" "/etc" = false /\
  posix_dirname "a/b/c" = "a/b" /\ posix_dirname "a" = ".".
Proof. vm_compute. done. Qed.
