(* ===== verification/Policy.v ===== *)
(** Workspace policies: the data of packages/mcp-core/src/policy.ts and of
    services/workspace-agent/src/internal-types.ts, and the permission table of
    services/workspace-agent/src/permission-profile.ts. *)
From S2P Require Import Prelude Errors JsString Analysis NodeEnv.

(** [supportedShells] *)
Definition supportedShells : list ShellName := [powershell; pwsh; cmd; wsl; git_bash].

Inductive PermissionProfile :=
| planning_readonly | planning_handoff | builder_review | restricted_area
| full_repo_readonly | full_repo_write.
Inductive ConfirmationMode := standard | trusted_workspace.
Inductive WorkspaceKind := repository | aggregate.

#[export] Instance PermissionProfile_eq_dec : EqDecision PermissionProfile.
Proof. solve_decision. Defined.
#[export] Instance ConfirmationMode_eq_dec : EqDecision ConfirmationMode.
Proof. solve_decision. Defined.
#[export] Instance WorkspaceKind_eq_dec : EqDecision WorkspaceKind.
Proof. solve_decision. Defined.

(** [WorkspaceLimits]: positive integers. *)
Record WorkspaceLimits := mkLimits {
  maxFileBytes : Z;
  maxSearchResults : Z;
  maxSearchSnippetBytes : Z;
  maxDiffBytes : Z;
  maxListedFiles : Z;
  maxDiscoveryDirectories : option Z;
  maxDiscoveryEntries : option Z;
  maxDiscoveryDurationMs : option Z;
}.

#[export] Instance WorkspaceLimits_eq_dec : EqDecision WorkspaceLimits.
Proof. solve_decision. Defined.

(** [WorkspacePolicy]; the source-control section is not modelled. *)
Record WorkspacePolicy := mkPolicy {
  wp_id : string;
  wp_name : string;
  wp_rootPath : string;
  wp_workspaceKind : option WorkspaceKind;
  wp_enabled : bool;
  wp_permissionProfile : PermissionProfile;
  wp_confirmationMode : ConfirmationMode;
  wp_allowedRoots : list string;
  wp_blockedGlobs : list string;
  wp_limits : WorkspaceLimits;
  wp_allowWrites : list string;
  wp_allowShell : list string;
  wp_allowedShells : list ShellName;
}.

(** [ResolvedAllowedRoot] and [ResolvedWorkspace]. *)
Record ResolvedAllowedRoot := mkRoot {
  ar_logicalPath : string;
  ar_absolutePath : string;
  ar_canonicalPath : string;
  ar_kind : FileKind;
}.

Record ResolvedWorkspace := mkWorkspace {
  ws_id : string;
  ws_name : string;
  ws_rootPath : string;
  ws_workspaceKind : option WorkspaceKind;
  ws_canonicalRootPath : string;
  ws_enabled : bool;
  ws_permissionProfile : PermissionProfile;
  ws_confirmationMode : ConfirmationMode;
  ws_allowedRoots : list ResolvedAllowedRoot;
  ws_blockedGlobs : list string;
  ws_limits : WorkspaceLimits;
  ws_allowWrites : list string;
  ws_allowShell : list string;
  ws_allowedShells : list ShellName;
}.

(** ** The permission table *)
Inductive WorkspaceOperation := op_list | op_read | op_search | op_diff | op_write | op_shell.

#[export] Instance WorkspaceOperation_eq_dec : EqDecision WorkspaceOperation.
Proof. solve_decision. Defined.

Definition operation_name (op : WorkspaceOperation) : string :=
  match op with
  | op_list => "list" | op_read => "read" | op_search => "search" | op_diff => "diff"
  | op_write => "write" | op_shell => "shell"
  end.

Definition readPermissions (p : PermissionProfile) : list WorkspaceOperation :=
  match p with
  | builder_review => [op_read; op_diff]
  | _ => [op_list; op_read; op_search; op_diff]
  end.
Definition writePermissions (p : PermissionProfile) : list WorkspaceOperation :=
  match p with full_repo_write => [op_write] | _ => [] end.
Definition shellPermissions (p : PermissionProfile) : list WorkspaceOperation :=
  match p with full_repo_write => [op_shell] | _ => [] end.

Definition assertPermission (profile : PermissionProfile) (operation : WorkspaceOperation) :
    result exn unit :=
  let allowed :=
    if bool_decide (operation = op_write) then includes (writePermissions profile) operation
    else if bool_decide (operation = op_shell) then includes (shellPermissions profile) operation
    else includes (readPermissions profile) operation in
  if allowed then Ok tt
  else throw PERMISSION_DENIED
         ("Permission profile does not allow " +:+ operation_name operation +:+ ".").

(** ** Properties *)
(** Only full-repo-write may write or run a shell; every profile may read
    and diff, and every profile but builder-review may list and search.  The refusal
    is always PERMISSION_DENIED. *)
Theorem permission_table (profile : PermissionProfile) (operation : WorkspaceOperation) :
  (assertPermission profile operation = Ok tt <->
   profile = full_repo_write \/
   operation = op_read \/ operation = op_diff \/
   (profile <> builder_review /\ (operation = op_list \/ operation = op_search))) /\
  (assertPermission profile operation = Ok tt \/
   err_code (assertPermission profile operation) = Some PERMISSION_DENIED).
Proof. destruct profile, operation; vm_compute; intuition (discriminate || auto). Qed.
