(* ===== verification/PathSecurity.v ===== *)
(** Path security: services/workspace-agent/src/path-security.ts.

    Logical paths are normalised and matched against the workspace policy;
    existing paths are then resolved and checked again on their canonical form.
    [glob] stands for the Minimatch test of a pattern on a path (the options are
    fixed by the source), [fs] for the file system and [P] for [node:path]. *)
From S2P Require Import Prelude Errors JsString Analysis NodeEnv Policy.

Section PathSecurity.
Context {P : NodePath}.
Context (glob : string -> string -> bool).
Context (fs : FileSystem).

Definition comparisonValue (value : string) : string :=
  if isWindows then toLowerCase value else value.

Definition logicalContains (basePath targetPath : string) : bool :=
  if basePath =s "." then true
  else
    let base := comparisonValue basePath in
    let target := comparisonValue targetPath in
    (target =s base) || startsWith target (base +:+ "/").

(** [/[. ]$/] on a segment. *)
Definition ends_dot_or_space (w : string) : bool := endsWith w "." || endsWith w " ".

(** The loop over the segments, with [outputSegments] as the accumulator. *)
Fixpoint normalize_segments (out : list string) (ws : list string) : result exn (list string) :=
  match ws with
  | [] => Ok out
  | segment :: ws' =>
      if sempty segment || (segment =s ".") then normalize_segments out ws'
      else if segment =s ".." then throw INVALID_PATH "Path traversal is not allowed."
      else if isWindows && (has_char ":"%char segment || ends_dot_or_space segment) then
        throw INVALID_PATH "Path contains an invalid Windows segment."
      else normalize_segments (out ++ [segment]) ws'
  end.

Definition is_absolute_input (input : string) : bool :=
  path_isAbsolute input || win32_isAbsolute input || posix_isAbsolute input
  || startsWith input (String BSL (str1 BSL)) || has_drive input.

Definition normalizeRelativePath (input : string) (allowDot : bool) : result exn string :=
  if sempty input || has_char NUL input then
    throw INVALID_PATH "Path must be a non-empty relative path."
  else if is_absolute_input input then
    throw INVALID_PATH "Absolute paths are not allowed."
  else
    let portable := replace_char BSL SLASH input in
    if startsWith portable "//" then throw INVALID_PATH "UNC paths are not allowed."
    else
      out ← normalize_segments [] (split_on SLASH portable);
      match out with
      | [] => if allowDot then Ok "."
              else throw INVALID_PATH "Path must identify a file or directory."
      | _ => Ok (join "/" out)
      end.

Definition toNativeAbsolute (rootPath relativePath : string) : string :=
  if relativePath =s "." then rootPath
  else path_resolve rootPath (split_on SLASH relativePath).

Definition env_templates : list string :=
  comparisonValue <$> [".env.example"; ".env.sample"; ".env.template"].
Definition isRealEnvironmentFile (relativePath : string) : bool :=
  let compared := comparisonValue (default EmptyString (last (split_on SLASH relativePath))) in
  (compared =s comparisonValue ".env")
  || startsWith compared (comparisonValue ".env.") && negb (includes env_templates compared).

(** *** class PathSecurity *)
Context (workspace : ResolvedWorkspace).

Definition candidate_of (relativePath : string) : string :=
  if relativePath =s "." then EmptyString else relativePath.

Definition matchedBlockedPattern (relativePath : string) : option string :=
  find_first (fun pattern => glob pattern (candidate_of relativePath)) (ws_blockedGlobs workspace).

(** [if (policyRule)]: an empty pattern is falsy. *)
Definition truthy (rule : option string) : option string :=
  match rule with Some r => if sempty r then None else Some r | None => None end.

Definition isBlocked (relativePath : string) : bool :=
  match matchedBlockedPattern relativePath with Some _ => true | None => false end.

(** [pattern.slice(0, -3)] of the patterns ending in [/**]. *)
Definition isSubtreeBlocked (relativePath : string) : bool :=
  existsb (fun pattern =>
      endsWith pattern "/**"
      && glob (stake (String.length pattern - 3) pattern) (candidate_of relativePath))
    (ws_blockedGlobs workspace).

Definition isWithinLogicalAllowedRoot (logicalPath : string) : bool :=
  existsb (fun root =>
      match ar_kind root with
      | kind_file => comparisonValue (ar_logicalPath root) =s comparisonValue logicalPath
      | kind_directory => logicalContains (ar_logicalPath root) logicalPath
      end) (ws_allowedRoots workspace).

Definition write_root_allows (logicalPath writeRoot : string) : bool :=
  if writeRoot =s "." then true
  else
    let root := comparisonValue writeRoot in
    let candidate := comparisonValue logicalPath in
    (candidate =s root) || startsWith candidate (root +:+ "/") || startsWith root (candidate +:+ "/").

Definition isAllowedWritePath (logicalPath : string) : bool :=
  match ws_allowWrites workspace with
  | [] => false
  | _ => existsb (write_root_allows logicalPath) (ws_allowWrites workspace)
  end.

Definition blockedPathError (logicalPath policyRule m : string) (operation : option string) : exn :=
  let safeAlternative :=
    if bool_decide (operation = Some "read_file") && isRealEnvironmentFile logicalPath
    then Some "run_workspace_validation(secret-scan)" else None in
  App (mkAppError BLOCKED_PATH m None
    (Some (mkDetails (Some logicalPath) (Some policyRule) operation
             (Some "blocked_by_workspace_policy") safeAlternative None None None None))).

Definition authorizeLogical (input : string) (allowDot : bool) (operation : option string) :
    result exn string :=
  logicalPath ← normalizeRelativePath input allowDot;
  match truthy (matchedBlockedPattern logicalPath) with
  | Some rule =>
      Err (blockedPathError logicalPath rule "Path is blocked by workspace policy." operation)
  | None =>
      if isWithinLogicalAllowedRoot logicalPath then Ok logicalPath
      else throw PATH_OUTSIDE_ALLOWED_ROOTS "Path is outside the workspace allowed roots."
  end.

Definition authorizeWriteLogical (input : string) : result exn string :=
  logicalPath ← normalizeRelativePath input false;
  if isBlocked logicalPath then throw BLOCKED_PATH "Path is blocked by workspace policy."
  else if negb (isWithinLogicalAllowedRoot logicalPath) then
    throw PATH_OUTSIDE_ALLOWED_ROOTS "Path is outside the workspace allowed roots."
  else if negb (isAllowedWritePath logicalPath) then
    throw WRITE_NOT_ALLOWED "Path is outside the workspace allowWrites policy."
  else Ok logicalPath.

(** [segments.slice(0, index).join("/")] for [1 <= index < segments.length]. *)
Definition proper_ancestors (logicalPath : string) : list string :=
  let segments := split_on SLASH logicalPath in
  (fun index => join "/" (take index segments)) <$> seq 1 (length segments - 1).

Definition assertCreatableAncestors (logicalPath : string) : result exn unit :=
  for_each (proper_ancestors logicalPath) (fun ancestor =>
    if isBlocked ancestor then throw BLOCKED_PATH "Path is blocked by workspace policy."
    else if isAllowedWritePath ancestor then Ok tt
    else throw WRITE_NOT_ALLOWED "Path is outside the workspace allowWrites policy.").

Record AuthorizedPath := mkAuthorized {
  ap_logicalPath : string;
  ap_absolutePath : string;
  ap_canonicalPath : string;
  ap_canonicalRelativePath : string;
  ap_kind : FileKind;
}.
Record AuthorizedWritePath := mkAuthorizedWrite {
  aw_logicalPath : string;
  aw_absolutePath : string;
  aw_created : bool;
}.

Definition authorizeWriteTarget (input : string) : result exn AuthorizedWritePath :=
  logicalPath ← authorizeWriteLogical input;
  let absolutePath := toNativeAbsolute (ws_rootPath workspace) logicalPath in
  (match fs_stat fs absolutePath with
             | Some (Some kind_file) => Ok false
             | Some _ => throw NOT_A_FILE "Requested path is not a file."
             | None => assertCreatableAncestors logicalPath ≫= fun _ => Ok true
             end : result exn bool) ≫= fun created : bool =>
  match fs_realpath fs (path_dirname absolutePath) with
  | None => if negb created then throw INVALID_PATH "Unable to resolve parent directory."
            else Ok (mkAuthorizedWrite logicalPath absolutePath created)
  | Some parentCanonical =>
      if negb (isContained (ws_canonicalRootPath workspace) parentCanonical) then
        throw PATH_OUTSIDE_WORKSPACE "Resolved parent path is outside the workspace."
      else if created then Ok (mkAuthorizedWrite logicalPath absolutePath created)
      else
        match fs_realpath fs absolutePath with
        | None => Err (Native "ENOENT")
        | Some canonicalPath =>
            if isContained (ws_canonicalRootPath workspace) canonicalPath
            then Ok (mkAuthorizedWrite logicalPath absolutePath created)
            else throw PATH_OUTSIDE_WORKSPACE "Resolved path is outside the workspace."
        end
  end.

Definition authorizeExistingInternal (input : string) (expectedKind : option FileKind)
    (allowDot enforceBlockedPolicy : bool) (operation : option string) : result exn AuthorizedPath :=
  logicalPath ← (if enforceBlockedPolicy then authorizeLogical input allowDot operation
                 else normalizeRelativePath input allowDot);
  if negb (isWithinLogicalAllowedRoot logicalPath) then
    throw PATH_OUTSIDE_ALLOWED_ROOTS "Path is outside the workspace allowed roots."
  else
  let absolutePath := toNativeAbsolute (ws_rootPath workspace) logicalPath in
  match fs_realpath fs absolutePath with
  | None => throw FILE_NOT_FOUND "Requested path does not exist."
  | Some canonicalPath =>
      if negb (isContained (ws_canonicalRootPath workspace) canonicalPath) then
        throw PATH_OUTSIDE_WORKSPACE "Resolved path is outside the workspace."
      else if negb (existsb (fun root => isContained (ar_canonicalPath root) canonicalPath)
                            (ws_allowedRoots workspace)) then
        throw PATH_OUTSIDE_ALLOWED_ROOTS "Resolved path is outside the workspace allowed roots."
      else
      let canonicalRelativePath :=
        join "/" (split_on path_sep (path_relative (ws_canonicalRootPath workspace) canonicalPath)) in
      let portableCanonicalPath :=
        if sempty canonicalRelativePath then "." else canonicalRelativePath in
      match truthy (if enforceBlockedPolicy then matchedBlockedPattern portableCanonicalPath else None) with
      | Some rule =>
          Err (blockedPathError logicalPath rule "Resolved path is blocked by workspace policy." operation)
      | None =>
          match fs_stat fs canonicalPath with
          | None => Err (Native "ENOENT")
          | Some None => throw INVALID_PATH "Path type is not supported."
          | Some (Some kind) =>
              if bool_decide (expectedKind = Some kind_file /\ kind <> kind_file) then
                throw NOT_A_FILE "Requested path is not a file."
              else if bool_decide (expectedKind = Some kind_directory /\ kind <> kind_directory) then
                throw NOT_A_DIRECTORY "Requested path is not a directory."
              else Ok (mkAuthorized logicalPath absolutePath canonicalPath portableCanonicalPath kind)
          end
      end
  end.

Definition authorizeExisting (input : string) (expectedKind : option FileKind) (allowDot : bool)
    (operation : option string) : result exn AuthorizedPath :=
  authorizeExistingInternal input expectedKind allowDot true operation.

Definition authorizeExistingForSecretScan (input : string) (expectedKind : option FileKind)
    (allowDot : bool) : result exn AuthorizedPath :=
  authorizeExistingInternal input expectedKind allowDot false None.

(** [isSymbolicLink]: [lstat] of a missing path rejects with a plain error. *)
Definition isSymbolicLink (input : string) : result exn bool :=
  logicalPath ← normalizeRelativePath input true;
  match fs_is_symlink fs (toNativeAbsolute (ws_rootPath workspace) logicalPath) with
  | Some b => Ok b
  | None => Err (Native "ENOENT")
  end.
End PathSecurity.

(** [resolveAllowedRoot] *)
Definition resolveAllowedRoot {P : NodePath} (fs : FileSystem)
    (canonicalWorkspaceRoot workspaceRoot configuredPath : string) : result exn ResolvedAllowedRoot :=
  logicalPath ← normalizeRelativePath configuredPath true;
  let absolutePath := toNativeAbsolute workspaceRoot logicalPath in
  match fs_realpath fs absolutePath with
  | None => throw POLICY_INVALID "An allowed root does not exist."
  | Some canonicalPath =>
      if negb (isContained canonicalWorkspaceRoot canonicalPath) then
        throw POLICY_INVALID "An allowed root resolves outside the workspace."
      else
        match fs_stat fs canonicalPath with
        | None => Err (Native "ENOENT")
        | Some None => throw POLICY_INVALID "An allowed root has an unsupported type."
        | Some (Some kind) => Ok (mkRoot logicalPath absolutePath canonicalPath kind)
        end
  end.

(** ** Normal forms *)
(** A segment the loop of [normalizeRelativePath] keeps. *)
Definition kept_segment {P : NodePath} (w : string) : Prop :=
  plain_segment w = true /\ (has_char BSL w = false /\ has_char NUL w = false) /\
  (isWindows = true -> has_char ":"%char w = false /\ ends_dot_or_space w = false).

(** The logical paths that authorization works with. *)
Definition canonical_logical {P : NodePath} (p : string) : Prop :=
  exists ws, ws <> [] /\ Forall kept_segment ws /\ split_on SLASH p = ws.

Section NormalForm.
Context {P : NodePath}.

Lemma normalize_segments_app out ws r :
  normalize_segments out ws = Ok r -> exists kept, r = out ++ kept /\
    Forall (fun w => w ∈ ws) kept /\
    Forall (fun w => sempty w = false /\ (w =s ".") = false /\ (w =s "..") = false /\
                     (isWindows = true -> has_char ":"%char w = false /\ ends_dot_or_space w = false)) kept.
Proof.
  revert out. induction ws as [|w ws IH]; intros out H; simpl in H.
  { exists []. simplify_eq. by rewrite app_nil_r. }
  destruct (sempty w || (w =s ".")) eqn:E1.
  { destruct (IH _ H) as (k & ? & Hin & ?). exists k. split_and!; [done| |done].
    eapply Forall_impl; [exact Hin|]. by right. }
  destruct (w =s "..") eqn:E2; [done|].
  destruct (isWindows && _) eqn:E3; [done|].
  destruct (IH _ H) as (k & -> & Hin & Hk). exists (w :: k).
  rewrite <- app_assoc. split_and!; [done| |].
  - constructor; [by left|]. eapply Forall_impl; [exact Hin|]. by right.
  - constructor; [|done]. apply orb_false_iff in E1 as [??]. split_and!; try done.
    intros Hw. rewrite Hw in E3. simpl in E3. by apply orb_false_iff in E3.
Qed.

Lemma normalize_ok input allowDot p :
  normalizeRelativePath input allowDot = Ok p ->
  (p = "." /\ allowDot = true) \/ canonical_logical p.
Proof.
  unfold normalizeRelativePath. intros H.
  destruct (sempty input || _) eqn:E0; [done|]. apply orb_false_iff in E0 as [_ HN].
  destruct (is_absolute_input input); [done|].
  destruct (startsWith _ "//"); [done|].
  apply bind_ok in H as (out & Hn & H).
  apply normalize_segments_app in Hn as (kept & Hkept & Hin & Hk).
  change (kept = out) in Hkept || (cbn in Hkept; symmetry in Hkept). subst out.
  destruct kept as [|k ks]; [left; by destruct allowDot; simplify_eq|]. right. simplify_eq.
  exists (k :: ks). split; [done|].
  assert (Forall kept_segment (k :: ks)) as Hall.
  { apply Forall_forall. intros w Hw. rewrite Forall_forall in Hin, Hk.
    specialize (Hin w Hw). destruct (Hk w Hw) as (? & ? & ? & ?).
    split_and!; [|eapply split_on_member_char; [exact Hin|by apply replace_char_gone]
                  |eapply split_on_member_char; [exact Hin|by apply has_char_replace]|done].
    apply plain_segment_spec. split_and!; try done. by eapply split_on_no_sep. }
  split; [done|]. apply (split_join_plain (k :: ks)); [done|].
  eapply Forall_impl; [exact Hall|]. by intros w [? _].
Qed.

Lemma canonical_plain p :
  canonical_logical p -> Forall (fun w => plain_segment w = true) (split_on SLASH p).
Proof.
  intros (ws & _ & H & ->). eapply Forall_impl; [exact H|]. by intros w [? _].
Qed.

Lemma normalize_segments_kept out ws :
  Forall kept_segment ws -> normalize_segments out ws = Ok (out ++ ws).
Proof.
  intros H. revert out. induction H as [|w ws (Hp & _ & Hwin) _ IH]; intros out; simpl.
  { by rewrite app_nil_r. }
  apply plain_segment_spec in Hp as (-> & -> & -> & _). cbn [orb].
  assert (isWindows && (has_char ":" w || ends_dot_or_space w) = false) as ->.
  { destruct isWindows; [|done]. destruct (Hwin eq_refl) as [-> ->]. done. }
  by rewrite IH, <- app_assoc.
Qed.
End NormalForm.

(** ** Normalisation and authorization *)
Section Theorems.
Context {P : NodePath} {L : PathLaws P}.

(** A path that the source's tests call absolute, among the normal forms, is one
    that carries a drive prefix. *)
Lemma canonical_not_absolute p :
  canonical_logical p -> has_drive p = false -> is_absolute_input p = false.
Proof.
  intros (ws & Hne & Hk & Hs) Hd. unfold is_absolute_input.
  destruct ws as [|w ws]; [done|]. apply Forall_cons_1 in Hk as [(Hp & [Hb _] & _) _].
  apply plain_segment_spec in Hp as (He & _ & _ & Hsl).
  destruct p as [|c p]; [by injection Hs as <- <-|].
  assert (c <> SLASH) as H1.
  { intros ->. cbn [split_on] in Hs. rewrite eqc_refl in Hs. by injection Hs as <- _. }
  assert (c <> BSL) as H2.
  { intros ->. cbn [split_on] in Hs. rewrite (proj2 (eqc_neq _ _) H1) in Hs.
    destruct (split_on SLASH p); injection Hs as <- _; unfold has_char in Hb; simpl in Hb; done. }
  assert (posix_isAbsolute (String c p) = false) as Hp1.
  { apply not_true_iff_false. intros [t Ht]%startsWith_spec. by injection Ht as ->. }
  assert (win32_isAbsolute (String c p) = false) as Hp2.
  { cbn [win32_isAbsolute]. unfold is_slash. rewrite (proj2 (eqc_neq _ _) H1), (proj2 (eqc_neq _ _) H2).
    cbn [has_drive] in Hd. destruct p as [|d [|e p]]; simpl in *; try done. by rewrite Hd. }
  rewrite Hp1, Hp2, Hd.
  destruct (path_isAbsolute (String c p)) eqn:E; [apply absolute_known in E as []; congruence|].
  cbn [orb]. rewrite orb_false_r.
  apply not_true_iff_false. intros [t Ht]%startsWith_spec. by injection Ht as ->.
Qed.

Lemma canonical_no_bsl p : canonical_logical p -> has_char BSL p = false.
Proof.
  intros (ws & Hne & Hk & Hs). rewrite <- (join_split_on SLASH p), Hs.
  apply has_char_join; [done|]. intros w Hw. rewrite Forall_forall in Hk. by apply Hk.
Qed.

Lemma canonical_no_nul p : canonical_logical p -> has_char NUL p = false.
Proof.
  intros (ws & Hne & Hk & Hs). rewrite <- (join_split_on SLASH p), Hs.
  apply has_char_join; [done|]. intros w Hw. rewrite Forall_forall in Hk. by apply Hk.
Qed.

Lemma normalize_canonical_same p allowDot :
  canonical_logical p -> has_drive p = false -> normalizeRelativePath p allowDot = Ok p.
Proof.
  intros Hp Hd. unfold normalizeRelativePath.
  pose proof Hp as (ws & Hne & Hk & Hs).
  rewrite canonical_no_nul, canonical_not_absolute by done.
  rewrite replace_char_id by (by apply canonical_no_bsl).
  assert (sempty p = false) as ->.
  { apply not_true_iff_false. intros ->%sempty_true. simpl in Hs. subst ws.
    apply Forall_cons_1 in Hk as [[H _] _]. done. }
  assert (startsWith p "//" = false) as ->.
  { apply not_true_iff_false. intros [t ->]%startsWith_spec. simpl in Hs. subst ws.
    apply Forall_cons_1 in Hk as [[H _] _]. done. }
  cbn [orb]. rewrite Hs, normalize_segments_kept by done.
  pose proof (join_split_on SLASH p) as Hj. rewrite Hs in Hj.
  destruct ws as [|w ws]; [done|]. cbn [app].
  change (Ok (E := exn) (join (str1 SLASH) (w :: ws)) = Ok p). by rewrite Hj.
Qed.

(** [normalizeRelativePath] answers a path in normal form: the dot (when it
    is allowed) or a slash-separated list of segments none of which is empty, a
    dot segment, or carries a backslash, a NUL or (on Windows) a colon or a
    trailing dot or blank; and a normal form without a drive prefix is
    normalised to itself, so authorizing an authorized path changes nothing. *)
Theorem normalize_relative_path_canonical input allowDot p :
  normalizeRelativePath input allowDot = Ok p ->
  ((p = "." /\ allowDot = true) \/ canonical_logical p) /\
  (has_drive p = false -> normalizeRelativePath p allowDot = Ok p).
Proof.
  intros [[-> ->]|Hp]%normalize_ok.
  - split; [by left|]. intros _. unfold normalizeRelativePath. simpl.
    assert (is_absolute_input "." = false) as ->; [|done].
    unfold is_absolute_input. simpl. rewrite !orb_false_r. apply not_true_iff_false.
    by intros [|]%absolute_known.
  - split; [by right|]. by apply normalize_canonical_same.
Qed.

(** An accepted relative path names an absolute path inside the root it is
    resolved against. *)
Theorem native_path_inside_root root input allowDot p :
  rooted root -> normalizeRelativePath input allowDot = Ok p ->
  isContained root (toNativeAbsolute root p) = true.
Proof.
  intros Hr [[-> _]|Hp]%normalize_ok; unfold toNativeAbsolute.
  - simpl. by apply contained_self.
  - destruct (p =s "."); [by apply contained_self|].
    apply contained_resolve; [done|]. by apply canonical_plain.
Qed.
End Theorems.

(** ** Authorization *)
Section Authorization.
Context {P : NodePath} {L : PathLaws P}.
Context (glob : string -> string -> bool) (fs : FileSystem) (workspace : ResolvedWorkspace).

(** The policy schema admits no empty pattern ([z.string().trim().min(1)]). *)
Definition globs_nonempty : Prop := EmptyString ∉ ws_blockedGlobs workspace.

(** What the policy says about a logical path, as propositions. *)
Definition blocked_by_policy (p : string) : Prop :=
  exists pattern, pattern ∈ ws_blockedGlobs workspace /\ glob pattern (candidate_of p) = true.
Definition inside_allowed_root (p : string) : Prop :=
  exists root, root ∈ ws_allowedRoots workspace /\
    match ar_kind root with
    | kind_file => comparisonValue (ar_logicalPath root) = comparisonValue p
    | kind_directory => logicalContains (ar_logicalPath root) p = true
    end.
Definition writable (p : string) : Prop :=
  exists root, root ∈ ws_allowWrites workspace /\ write_root_allows p root = true.

Lemma isBlocked_spec p : isBlocked glob workspace p = true <-> blocked_by_policy p.
Proof.
  unfold isBlocked, matchedBlockedPattern. destruct (find_first _ _) as [r|] eqn:E.
  - apply find_first_some in E as [??]. split; [|done]. intros _. by exists r.
  - rewrite find_first_none in E. split; [done|]. intros (r & Hr & Hg). by rewrite E in Hg.
Qed.

Lemma isBlocked_false p : isBlocked glob workspace p = false <-> ~ blocked_by_policy p.
Proof. rewrite <- isBlocked_spec. by destruct (isBlocked glob workspace p). Qed.

Lemma truthy_matched p :
  globs_nonempty ->
  match truthy (matchedBlockedPattern glob workspace p) with
  | Some rule => rule ∈ ws_blockedGlobs workspace /\ glob rule (candidate_of p) = true
  | None => ~ blocked_by_policy p
  end.
Proof.
  intros Hne. unfold truthy.
  destruct (matchedBlockedPattern _ _ _) as [r|] eqn:E.
  - apply find_first_some in E as [Hr Hg]. by destruct r.
  - rewrite <- isBlocked_false. unfold isBlocked. by rewrite E.
Qed.

Lemma isWithin_spec p : isWithinLogicalAllowedRoot workspace p = true <-> inside_allowed_root p.
Proof.
  unfold isWithinLogicalAllowedRoot, inside_allowed_root. rewrite existsb_exists.
  split; intros (r & Hr & H); exists r; rewrite list_elem_of_In in *;
    (split; [done|]); by destruct (ar_kind r); rewrite ?String.eqb_eq in *.
Qed.

Lemma isAllowedWritePath_spec p : isAllowedWritePath workspace p = true <-> writable p.
Proof.
  unfold isAllowedWritePath, writable.
  assert ((exists root, root ∈ ws_allowWrites workspace /\ write_root_allows p root = true) <->
          existsb (write_root_allows p) (ws_allowWrites workspace) = true) as ->.
  { rewrite existsb_exists. by setoid_rewrite list_elem_of_In. }
  by destruct (ws_allowWrites workspace).
Qed.

(** Reading is authorized for exactly the normalised paths that no pattern blocks
    and that lie in an allowed root. *)
Lemma authorizeLogical_ok input allowDot operation p :
  globs_nonempty ->
  authorizeLogical glob workspace input allowDot operation = Ok p <->
  normalizeRelativePath input allowDot = Ok p /\ ~ blocked_by_policy p /\ inside_allowed_root p.
Proof.
  intros Hne. unfold authorizeLogical. rewrite bind_ok. split.
  - intros (q & Hq & H). pose proof (truthy_matched q Hne) as Hb.
    destruct (truthy _); [done|].
    destruct (isWithinLogicalAllowedRoot workspace q) eqn:E; [|done].
    simplify_eq. by apply isWithin_spec in E.
  - intros (Hq & Hb & Hr%isWithin_spec). exists p. split; [done|].
    pose proof (truthy_matched p Hne) as Hm. destruct (truthy _) as [rule|].
    + exfalso. apply Hb. by exists rule.
    + by rewrite Hr.
Qed.

Lemma authorizeWriteLogical_ok input p :
  authorizeWriteLogical glob workspace input = Ok p <->
  normalizeRelativePath input false = Ok p /\
  ~ blocked_by_policy p /\ inside_allowed_root p /\ writable p.
Proof.
  unfold authorizeWriteLogical.
  rewrite bind_ok, <- isBlocked_false, <- isWithin_spec, <- isAllowedWritePath_spec. split.
  - intros (q & Hq & H). step_in H. repeat case_match; simplify_eq.
    by rewrite negb_false_iff in *.
  - intros (Hq & Hb & Hr & Hw). exists p. by rewrite Hb, Hr, Hw.
Qed.

Lemma truthy_ok_iff {A} p (f : string -> exn) (k : result exn A) (a : A) :
  globs_nonempty ->
  match truthy (matchedBlockedPattern glob workspace p) with
  | Some rule => Err (f rule) | None => k end = Ok a <->
  ~ blocked_by_policy p /\ k = Ok a.
Proof.
  intros Hne. pose proof (truthy_matched p Hne) as H. destruct (truthy _) as [rule|].
  - split; [done|]. intros [Hb _]. exfalso. apply Hb. by exists rule.
  - naive_solver.
Qed.

Lemma if_throw_iff {A} (b : bool) (e : exn) (k : result exn A) (a : A) :
  (if b then Err e else k) = Ok a <-> b = false /\ k = Ok a.
Proof. destruct b; naive_solver. Qed.

Definition portable_relative (canonicalPath : string) : string :=
  let r := join "/" (split_on path_sep (path_relative (ws_canonicalRootPath workspace) canonicalPath)) in
  if sempty r then "." else r.

(** C8.  A path is authorized for reading exactly when its normal form is not
    blocked and lies in an allowed root, it exists, its canonical path lies in the
    workspace and in an allowed root, the canonical path (as a path of the
    workspace) is not blocked either, and it is of the expected kind. *)
Theorem authorize_existing_exact input expectedKind allowDot operation a :
  globs_nonempty ->
  authorizeExisting glob fs workspace input expectedKind allowDot operation = Ok a <->
  (normalizeRelativePath input allowDot = Ok (ap_logicalPath a) /\
   ~ blocked_by_policy (ap_logicalPath a) /\ inside_allowed_root (ap_logicalPath a)) /\
  ap_absolutePath a = toNativeAbsolute (ws_rootPath workspace) (ap_logicalPath a) /\
  fs_realpath fs (ap_absolutePath a) = Some (ap_canonicalPath a) /\
  isContained (ws_canonicalRootPath workspace) (ap_canonicalPath a) = true /\
  (exists root, root ∈ ws_allowedRoots workspace /\
     isContained (ar_canonicalPath root) (ap_canonicalPath a) = true) /\
  ap_canonicalRelativePath a = portable_relative (ap_canonicalPath a) /\
  ~ blocked_by_policy (ap_canonicalRelativePath a) /\
  fs_stat fs (ap_canonicalPath a) = Some (Some (ap_kind a)) /\
  (expectedKind = None \/ expectedKind = Some (ap_kind a)).
Proof.
  intros Hne. rewrite <- authorizeLogical_ok with (operation := operation) by done.
  unfold authorizeExisting, authorizeExistingInternal. rewrite bind_ok.
  split.
  - intros (p & Hp & H). pose proof Hp as (_ & _ & Hin%isWithin_spec)%authorizeLogical_ok; [|done].
    apply if_throw_iff in H as [_ H].
    destruct (fs_realpath fs _) as [c|] eqn:Hc; [|done].
    apply if_throw_iff in H as [Hcont%negb_false_iff H].
    apply if_throw_iff in H as [Hroots%negb_false_iff H].
    apply truthy_ok_iff in H as [Hnb H]; [|done].
    destruct (fs_stat fs c) as [[k|]|] eqn:Hk; try done.
    apply if_throw_iff in H as [Hf%bool_decide_eq_false H].
    apply if_throw_iff in H as [Hd%bool_decide_eq_false H]. simplify_eq. simpl.
    split_and!; try done.
    + apply existsb_exists in Hroots as (r & Hr%list_elem_of_In & ?). by exists r.
    + destruct expectedKind as [[]|], k; try (by auto); exfalso; [apply Hf|apply Hd]; done.
  - destruct a as [p a c r k]; simpl.
    intros (Hp & -> & Hc & Hcont & (root & Hroot & Hr) & -> & Hnb & Hk & Hkind).
    exists p. split; [done|]. pose proof Hp as (_ & _ & Hin%isWithin_spec)%authorizeLogical_ok; [|done].
    apply if_throw_iff. rewrite Hin, Hc, Hcont. split; [done|]. cbn [negb].
    apply if_throw_iff. split.
    { apply negb_false_iff, existsb_exists. exists root. by rewrite <- list_elem_of_In. }
    apply truthy_ok_iff; [done|]. split; [done|]. rewrite Hk.
    apply if_throw_iff. split; [apply bool_decide_eq_false; naive_solver|].
    apply if_throw_iff. split; [apply bool_decide_eq_false; naive_solver|]. done.
Qed.

(** The error of an unauthorized write path. *)
Definition write_refusal (p : string) (c : ErrorCode) : Prop :=
  blocked_by_policy p /\ c = BLOCKED_PATH \/
  ~ blocked_by_policy p /\ ~ inside_allowed_root p /\ c = PATH_OUTSIDE_ALLOWED_ROOTS \/
  ~ blocked_by_policy p /\ inside_allowed_root p /\ ~ writable p /\ c = WRITE_NOT_ALLOWED.

Lemma normalize_error input allowDot e :
  normalizeRelativePath input allowDot = Err e -> err_code (@Err exn string e) = Some INVALID_PATH.
Proof.
  unfold normalizeRelativePath. intros H.
  destruct (sempty input || _); [by injection H as <-|].
  destruct (is_absolute_input _); [by injection H as <-|].
  destruct (startsWith _ _); [by injection H as <-|].
  apply bind_err in H as [H|(out & _ & H)]; [|destruct out; [destruct allowDot; [done|]|done]; by injection H as <-].
  revert H. generalize (@nil string). induction (split_on _ _) as [|w ws IH]; intros acc H; [done|].
  cbn [normalize_segments] in H. destruct (_ || _); [eauto|].
  destruct (w =s ".."); [by injection H as <-|].
  destruct (isWindows && _); [by injection H as <-|]. eauto.
Qed.

(** The write decision: an invalid path is refused as such; a valid one is
    refused with the first violated rule of the policy (blocked, outside every
    allowed root, outside the write roots), and authorized when there is none. *)
Theorem write_decision input :
  match authorizeWriteLogical glob workspace input with
  | Ok p => normalizeRelativePath input false = Ok p /\
            ~ blocked_by_policy p /\ inside_allowed_root p /\ writable p
  | Err e =>
      exists c, err_code (@Err exn string e) = Some c /\
        (normalizeRelativePath input false = Err e /\ c = INVALID_PATH \/
         exists p, normalizeRelativePath input false = Ok p /\ write_refusal p c)
  end.
Proof.
  destruct (authorizeWriteLogical _ _ _) as [p|e] eqn:H; [by apply authorizeWriteLogical_ok|].
  unfold authorizeWriteLogical in H. apply bind_err in H as [H|(p & Hp & H)].
  { exists INVALID_PATH. split; [by eapply normalize_error|]. by left. }
  unfold write_refusal. setoid_rewrite <- isBlocked_false.
  setoid_rewrite <- isBlocked_spec. setoid_rewrite <- isWithin_spec.
  setoid_rewrite <- isAllowedWritePath_spec.
  destruct (isBlocked glob workspace p) eqn:?; [|destruct (isWithinLogicalAllowedRoot workspace p) eqn:?;
    [destruct (isAllowedWritePath workspace p) eqn:?|]]; try done; injection H as <-;
    eexists; (split; [done|]); right; exists p; (split; [done|]); cbn [code];
    rewrite ?Heqb, ?Heqb0, ?Heqb1; [by left|right; right|right; left];
    split_and!; congruence || done.
Qed.

Lemma creatable_ancestors_ok p :
  assertCreatableAncestors glob workspace p = Ok tt <->
  forall q, q ∈ proper_ancestors p -> ~ blocked_by_policy q /\ writable q.
Proof.
  unfold assertCreatableAncestors. rewrite for_each_ok.
  setoid_rewrite <- isBlocked_false. setoid_rewrite <- isAllowedWritePath_spec.
  split; intros H q Hq; specialize (H q Hq);
    destruct (isBlocked glob workspace q), (isAllowedWritePath workspace q); naive_solver.
Qed.

(** C9.  A write target is authorized exactly when its normal form is authorized
    for writing and either it names an existing file whose parent and whose own
    canonical path lie in the workspace, or nothing exists there, every ancestor
    may be created, and the parent directory, when it can be resolved, lies in
    the workspace. *)
Theorem authorize_write_target_exact input w :
  authorizeWriteTarget glob fs workspace input = Ok w <->
  authorizeWriteLogical glob workspace input = Ok (aw_logicalPath w) /\
  aw_absolutePath w = toNativeAbsolute (ws_rootPath workspace) (aw_logicalPath w) /\
  (forall parent, fs_realpath fs (path_dirname (aw_absolutePath w)) = Some parent ->
     isContained (ws_canonicalRootPath workspace) parent = true) /\
  if aw_created w then
    fs_stat fs (aw_absolutePath w) = None /\
    (forall q, q ∈ proper_ancestors (aw_logicalPath w) -> ~ blocked_by_policy q /\ writable q)
  else
    fs_stat fs (aw_absolutePath w) = Some (Some kind_file) /\
    fs_realpath fs (path_dirname (aw_absolutePath w)) <> None /\
    exists c, fs_realpath fs (aw_absolutePath w) = Some c /\
      isContained (ws_canonicalRootPath workspace) c = true.
Proof.
  unfold authorizeWriteTarget. rewrite bind_ok. split.
  - intros (p & Hp & H). apply bind_ok in H as (created & Hc & H).
    assert (if created then fs_stat fs (toNativeAbsolute (ws_rootPath workspace) p) = None /\
              (forall q, q ∈ proper_ancestors p -> ~ blocked_by_policy q /\ writable q)
            else fs_stat fs (toNativeAbsolute (ws_rootPath workspace) p) = Some (Some kind_file)) as Hs.
    { destruct (fs_stat fs _) as [[[]|]|]; simplify_eq; [done|].
      apply bind_ok in Hc as ([] & Ha & ?). simplify_eq. split; [done|]. by apply creatable_ancestors_ok. }
    destruct (fs_realpath fs (path_dirname _)) as [parent|] eqn:Hpar.
    + apply if_throw_iff in H as [Hin%negb_false_iff H]. destruct created.
      * simplify_eq; simpl. naive_solver.
      * destruct (fs_realpath fs (toNativeAbsolute _ _)) as [c|] eqn:Hcan; [|done].
        destruct (isContained _ c) eqn:Hcc; simplify_eq; simpl. naive_solver.
    + destruct created; simplify_eq; simpl. naive_solver.
  - destruct w as [p a c]; simpl. intros (Hp & -> & Hpar & H). exists p. split; [done|].
    apply bind_ok. exists c. destruct c.
    + destruct H as [-> ->%creatable_ancestors_ok]. split; [done|].
      destruct (fs_realpath fs (path_dirname _)) as [parent|]; [|done]. by rewrite Hpar.
    + destruct H as (-> & Hne & c & -> & ->). split; [done|].
      destruct (fs_realpath fs (path_dirname _)) as [parent|]; [|done]. by rewrite Hpar.
Qed.
End Authorization.

(** ** A concrete workspace *)
Module Demo.
Definition posix : NodePath := posixPath "/".
Definition limits : WorkspaceLimits := mkLimits 1048576 100 200 65536 50 None None None.
Definition workspace (mode : ConfirmationMode) : ResolvedWorkspace :=
  mkWorkspace "w1" "Demo" "/srv/ws" (Some repository) "/srv/ws" true full_repo_write mode
    [mkRoot "." "/srv/ws" "/srv/ws" kind_directory] [".env"; "secrets/**"] limits
    ["src"] ["git"] [pwsh; git_bash].
(** Exact patterns, and [dir/**] for what lies under a directory. *)
Definition glob (pattern path : string) : bool :=
  if endsWith pattern "/**"
  then startsWith path (stake (String.length pattern - 2) pattern) else pattern =s path.
(** [/srv/ws/out] is a symbolic link to [/etc]. *)
Definition files : list string := 
  ["/srv/ws/src/a.ts"; "/srv/ws/src/c.ts"; "/srv/ws/src/lib/x.ts"; "/srv/ws/.env"; "/etc/passwd"].
Definition dirs : list string := ["/"; "/srv"; "/srv/ws"; "/srv/ws/src"; "/srv/ws/src/lib"; "/etc"].
Definition follow (p : string) : string :=
  if p =s "/srv/ws/src/out" then "/etc"
  else if startsWith p "/srv/ws/src/out/" then "/etc" +:+ sdrop 15 p else p.
Definition kind_of (p : string) : option FileKind :=
  if includes files p then Some kind_file else if includes dirs p then Some kind_directory else None.
Definition fs : FileSystem := mkFs
  (fun p => match kind_of (follow p) with Some _ => Some (follow p) | None => None end)
  (fun p => Some <$> kind_of (follow p))
  (fun p => if p =s "/srv/ws/src/out" then Some true else (fun _ => false) <$> kind_of (follow p))
  (fun p => if p =s "/srv/ws/src" then Some [mkDirent "a.ts" false; mkDirent "c.ts" false; mkDirent "lib" false; mkDirent "out" true]
            else if p =s "/srv/ws/src/lib" then Some [mkDirent "x.ts" false]
            else if p =s "/etc" then Some [mkDirent "passwd" false] else None).

Lemma rooted_ws : rooted (PathLaws := posix_laws "/") "/srv/ws".
Proof. exists ["srv"; "ws"]. split; [done|]. by repeat constructor. Defined.

Lemma demo_globs mode : globs_nonempty (workspace mode).
Proof. unfold globs_nonempty. cbn [ws_blockedGlobs workspace]. refine (bool_decide_unpack _ _). by vm_compute. Qed.

Lemma normalize_relative_path_canonical_witness :
  normalizeRelativePath (P := posix) "./src\b//c.ts" false = Ok "src/b/c.ts" /\
  normalizeRelativePath (P := posix) "src/b/c.ts" false = Ok "src/b/c.ts".
Proof.
  split; [by vm_compute|].
  apply (normalize_relative_path_canonical (L := posix_laws "/") "./src\b//c.ts" false "src/b/c.ts");
    by vm_compute.
Defined.

Lemma native_path_inside_root_witness :
  isContained (P := posix) "/srv/ws" (toNativeAbsolute (P := posix) "/srv/ws" "src/b/c.ts") = true.
Proof.
  apply (native_path_inside_root (L := posix_laws "/") "/srv/ws" "src/./b/c.ts" false).
  - apply rooted_ws.
  - by vm_compute.
Defined.

Lemma authorize_existing_exact_witness :
  exists a, authorizeExisting (P := posix) glob fs (workspace standard) "src/a.ts" (Some kind_file) false None
            = Ok a /\ ~ blocked_by_policy glob (workspace standard) (ap_canonicalRelativePath a).
Proof.
  exists (mkAuthorized "src/a.ts" "/srv/ws/src/a.ts" "/srv/ws/src/a.ts" "src/a.ts" kind_file).
  assert (authorizeExisting (P := posix) glob fs (workspace standard) "src/a.ts" (Some kind_file) false None
    = Ok (mkAuthorized "src/a.ts" "/srv/ws/src/a.ts" "/srv/ws/src/a.ts" "src/a.ts" kind_file)) as H
    by by vm_compute.
  split; [exact H|].
  by apply (authorize_existing_exact (P := posix) glob fs (workspace standard)
    "src/a.ts" (Some kind_file) false None _ (demo_globs standard)) in H as (_ & _ & _ & _ & _ & _ & ? & _).
Defined.

(** A link inside the workspace that leads out of it stops a write while the
    parent resolves, and does not when the parent is still to be created: the
    target is then authorized although its path leaves the workspace. *)
Lemma write_target_through_link :
  err_code (authorizeWriteTarget (P := posix) glob fs (workspace standard) "src/out/x") =
    Some PATH_OUTSIDE_WORKSPACE /\
  authorizeWriteTarget (P := posix) glob fs (workspace standard) "src/out/new/x" =
    Ok (mkAuthorizedWrite "src/out/new/x" "/srv/ws/src/out/new/x" true) /\
  fs_realpath fs "/srv/ws/src/out" = Some "/etc".
Proof. vm_compute. done. Qed.
End Demo.
