(* ===== verification/TrustedCritical.v ===== *)
(** Commands that a trusted workspace never runs unasked: the first half of
    services/workspace-agent/src/shell/trusted-workspace-authorization.ts
    ([trustedWorkspaceCriticalReason] and what it calls). *)
From S2P Require Import Prelude Errors JsString JsRegex Analysis NodeEnv.

(** *** Expressions *)
(** [\.(?:ps1|cmd|bat|sh|py|rb|pl)] *)
Definition script_extension : re :=
  seqs [ch "."%char; words_i ["ps1"; "cmd"; "bat"; "sh"; "py"; "rb"; "pl"]].
Definition python : re := seqs [liti "python"; opt (ch "3"%char)].

Definition TRUSTED_CRITICAL_CANDIDATE_PATTERN : re :=
  Alt (seqs [WordB;
         alts [words_i ["schtasks"; "scheduledtask"; "runas"; "sudo"; "start-process"; "cmdkey";
                 "vaultcmd"; "certutil"; "certreq"; "import-pfxcertificate"; "winget"; "choco";
                 "scoop"; "msiexec"; "start-service"; "restart-service"; "stop-service";
                 "set-service"; "powershell"; "pwsh"; "cmd"; "wsl"; "bash"; "sh"; "node"];
               python; words_i ["perl"; "ruby"; "docker"]];
         WordB])
      (seqs [script_extension; Alt sp Eol]).

(** The constant [boundary], and [[^;&|]]. *)
Definition boundary : re :=
  seqs [Alt Bol (seqs [oneof ";&|"; star sp]); opt (seqs [ch "&"%char; star sp])].
Definition same_command : re := noneof ";&|".
Definition exe : re := opt (liti ".exe").
(** [head\b[^;&|]{0,n} tail] *)
Definition reaching (head : re) (n : nat) (tail : re) : re :=
  seqs [head; WordB; upto n same_command; tail].

Definition SCHEDULED_TASK_TEXT : re :=
  seqs [boundary;
    Alt (seqs [reaching (seqs [liti "schtasks"; exe]) 240
                 (seqs [ch "/"%char; words_i ["create"; "delete"; "change"; "run"; "end"]]); WordB])
        (seqs [words_i ["register"; "unregister"; "set"; "start"; "stop"; "enable"; "disable"];
               liti "-scheduledtask"; WordB])].
Definition ELEVATION_TEXT : re :=
  seqs [boundary;
    alts [seqs [liti "runas"; exe]; liti "sudo";
          seqs [reaching (liti "start-process") 240
                  (seqs [sp; liti "-verb"; plus sp; liti "runas"]); WordB]]].
Definition CREDENTIAL_TEXT : re :=
  seqs [boundary; words_i ["cmdkey"; "vaultcmd"; "certutil"; "certreq"; "import-pfxcertificate"]; WordB].
Definition MACHINE_WIDE_TEXT : re :=
  seqs [boundary;
    alts [reaching (words_i ["winget"; "choco"]) 240 (word_in ["install"; "uninstall"; "upgrade"]);
          reaching (liti "scoop") 240 (word_in ["install"; "uninstall"; "update"]);
          reaching (liti "msiexec") 240
            (seqs [ch "/"%char; words_i ["i"; "x"; "package"; "uninstall"]; WordB])]].

Definition DOCKER_DIRECT : list string :=
  ["build"; "commit"; "cp"; "create"; "exec"; "export"; "import"; "kill"; "load"; "login"; "logout";
   "pause"; "pull"; "push"; "rename"; "restart"; "rm"; "rmi"; "run"; "save"; "start"; "stop"; "tag";
   "unpause"; "update"].
Definition DOCKER_CONTAINER : list string :=
  ["attach"; "commit"; "cp"; "create"; "exec"; "export"; "kill"; "pause"; "prune"; "rename";
   "restart"; "rm"; "run"; "start"; "stop"; "unpause"; "update"].
Definition DOCKER_COMPOSE : list string :=
  ["build"; "create"; "down"; "exec"; "kill"; "pause"; "pull"; "push"; "restart"; "rm"; "run";
   "start"; "stop"; "unpause"; "up"].
(** [namespaceMutations], in source order. *)
Definition namespaceMutations : list (string * list string) :=
  [("system", ["prune"]);
   ("volume", ["create"; "prune"; "rm"]);
   ("network", ["connect"; "create"; "disconnect"; "prune"; "rm"]);
   ("image", ["build"; "import"; "load"; "prune"; "pull"; "push"; "rm"; "tag"]);
   ("container", DOCKER_CONTAINER);
   ("compose", DOCKER_COMPOSE);
   ("context", ["create"; "import"; "rm"; "update"; "use"])].
Definition DOCKER_TEXT : re :=
  seqs [boundary; reaching (seqs [liti "docker"; exe]) 320 (word_in DOCKER_DIRECT)].
Definition DOCKER_NAMESPACE_TEXT : re :=
  seqs [boundary; reaching (seqs [liti "docker"; exe]) 320
    (seqs [WordB; alts ((fun e => seqs [liti e.1; plus sp; words_i e.2]) <$> namespaceMutations); WordB])].
Definition SERVICE_TEXT : re :=
  seqs [boundary; words_i ["start-service"; "restart-service"; "stop-service"; "set-service"]; WordB].
Definition NESTED_SHELL_TEXT : re :=
  seqs [boundary; reaching (seqs [words_i ["powershell"; "pwsh"; "cmd"; "wsl"; "bash"; "sh"]; exe]) 240
    (words_i ["-command"; "-c"; "/c"; "--exec"]); WordB].
Definition SCRIPT_TEXT : re :=
  seqs [boundary; plus (Cls (fun c => negb (is_space c || has_char c ";&|"))); script_extension; WordB].
Definition INTERPRETER_TEXT : re :=
  seqs [boundary; reaching (seqs [alts [liti "node"; python; liti "perl"; liti "ruby"]; exe]) 240
    (words_i ["-e"; "--eval"; "-c"]); WordB].

(** *** Reasons *)
Definition TASK_REASON : string := "Scheduled Task mutation requires explicit confirmation".
Definition ELEVATION_REASON : string := "elevation or UAC operation requires explicit confirmation".
Definition CREDENTIAL_REASON : string :=
  "credential or certificate operation requires explicit confirmation".
Definition INSTALL_REASON : string :=
  "machine-wide install or uninstall operation requires explicit confirmation".
Definition SERVICE_MUTATION_REASON : string := "Windows service mutation requires explicit confirmation".
Definition DOCKER_MUTATION_REASON : string :=
  "Docker mutation is outside trusted-workspace authorization".
Definition NESTED_REASON : string :=
  "nested shell execution cannot inherit trusted-workspace authorization".
Definition INTERPRETER_REASON : string :=
  "inline interpreter execution cannot inherit trusted-workspace authorization".
Definition SCRIPT_REASON : string :=
  "script execution cannot inherit trusted-workspace authorization".

(** *** Docker *)
Definition GLOBAL_VALUE_OPTIONS : list string :=
  ["--config"; "--context"; "-c"; "--host"; "-h"; "--log-level"; "-l"; "--tlscacert"; "--tlscert"; "--tlskey"].
Definition COMPOSE_VALUE_OPTIONS : list string :=
  ["-f"; "--file"; "-p"; "--project-name"; "--profile"; "--env-file"; "--project-directory"; "--parallel"].

(** The value found, and the arguments after it. *)
Fixpoint nextDockerPositional (valueOptions values : list string) {struct values} :
    option (string * list string) :=
  match values with
  | [] => None
  | value :: values' =>
      if includes valueOptions value then
        match values' with
        | [] => None
        | _ :: values'' => nextDockerPositional valueOptions values''
        end
      else if startsWith value "-" then nextDockerPositional valueOptions values'
      else Some (value, values')
  end.

(** [namespaceMutations[value]] is a lookup in a plain object: besides its own
    keys it finds the members of [Object.prototype], of which these two are in
    lower case; they have no [has] method. *)
Inductive PropertyLookup := own (verbs : list string) | inherited | missing.
Definition lookup_namespace (value : string) : PropertyLookup :=
  match find_first (fun e => e.1 =s value) namespaceMutations with
  | Some (_, verbs) => own verbs
  | None => if includes ["constructor"; "__proto__"] value then inherited else missing
  end.

Definition isDockerMutation (argv : list string) : result exn bool :=
  let values := toLowerCase <$> argv in
  match nextDockerPositional GLOBAL_VALUE_OPTIONS values with
  | None => Ok false
  | Some (primary, after) =>
      if includes DOCKER_DIRECT primary then Ok true
      else
        let secondary :=
          nextDockerPositional (if primary =s "compose" then COMPOSE_VALUE_OPTIONS else []) after in
        match lookup_namespace primary, secondary with
        | missing, _ => Ok false
        | _, None => Ok false
        | own verbs, Some (value, _) => Ok (includes verbs value)
        | inherited, Some _ => Err (Native "TypeError")
        end
  end.

(** *** The text fallback *)
Definition normalized_text (command : string) : string :=
  trim (replace_g (plus sp) " "
          (replace_g (seqs [ch BT; Cls (fun c => (c =c CR) || (c =c LF))]) " " command)).

(** The tests in order, with the reason of each. *)
Definition CRITICAL_TEXT : list (re * string) :=
  [(SCHEDULED_TASK_TEXT, TASK_REASON); (ELEVATION_TEXT, ELEVATION_REASON);
   (CREDENTIAL_TEXT, CREDENTIAL_REASON); (MACHINE_WIDE_TEXT, INSTALL_REASON);
   (DOCKER_TEXT, DOCKER_MUTATION_REASON); (DOCKER_NAMESPACE_TEXT, DOCKER_MUTATION_REASON);
   (SERVICE_TEXT, SERVICE_MUTATION_REASON); (NESTED_SHELL_TEXT, NESTED_REASON);
   (SCRIPT_TEXT, SCRIPT_REASON); (INTERPRETER_TEXT, INTERPRETER_REASON)].
Definition criticalReasonFromCommandText (command : string) : option string :=
  snd <$> find_first (fun e => test e.1 (normalized_text command)) CRITICAL_TEXT.

(** *** The decision on an analysed command *)
(** [!analysis || !analysis.valid || analysis.usesShellFeatures || kind !== "argv"]
    negated: the executable and its arguments. *)
Definition trusted_argv (analysis : option ShellCommandAnalysis) : option (string * list string) :=
  match analysis with
  | Some a =>
      if valid a && negb (usesShellFeatures a) then
        match execution a with Some (argv_exec x xs) => Some (x, xs) | _ => None end
      else None
  | None => None
  end.

Definition normalizeExecutable {P : NodePath} (value : string) : string :=
  toLowerCase (replace_first (seqs [ch "."%char; words_i ["exe"; "cmd"]; Eol]) EmptyString
                 (path_basename value)).

Definition slash_option (names : list string) : re := seqs [Bol; ch "/"%char; words_i names; Eol].

Fixpoint verb_runas (argv : list string) : bool :=
  match argv with
  | v :: ((w :: _) as argv') => ((v =s "-verb") && (w =s "runas")) || verb_runas argv'
  | _ => false
  end.

Definition SCHEDULED_TASK_COMMANDS : list string :=
  ["register-scheduledtask"; "unregister-scheduledtask"; "set-scheduledtask"; "start-scheduledtask";
   "stop-scheduledtask"; "enable-scheduledtask"; "disable-scheduledtask"].

(** The tests on an executable (normalised) and its lower-case arguments. *)
Definition criticalReasonFromArgv (rawExecutable executable : string) (argv : list string) :
    result exn (option string) :=
  let first := default EmptyString (head argv) in
  if test (seqs [script_extension; Eol]) rawExecutable then Ok (Some SCRIPT_REASON)
  else if (executable =s "schtasks")
          && existsb (test (slash_option ["create"; "delete"; "change"; "run"; "end"])) argv
  then Ok (Some TASK_REASON)
  else if includes SCHEDULED_TASK_COMMANDS executable then Ok (Some TASK_REASON)
  else if (executable =s "runas") || (executable =s "sudo")
          || ((executable =s "start-process") && verb_runas argv)
  then Ok (Some ELEVATION_REASON)
  else if includes ["cmdkey"; "vaultcmd"; "certutil"; "certreq"; "import-pfxcertificate"] executable
  then Ok (Some CREDENTIAL_REASON)
  else if (executable =s "winget") && includes ["install"; "uninstall"; "upgrade"] first
          || (executable =s "choco") && includes ["install"; "uninstall"; "upgrade"] first
          || (executable =s "scoop") && includes ["install"; "uninstall"; "update"] first
          || (executable =s "msiexec")
             && existsb (test (slash_option ["i"; "x"; "package"; "uninstall"])) argv
  then Ok (Some INSTALL_REASON)
  else if includes ["start-service"; "restart-service"; "stop-service"; "set-service"] executable
  then Ok (Some SERVICE_MUTATION_REASON)
  else
    (if executable =s "docker" then isDockerMutation argv else Ok false) ≫= fun docker : bool =>
    if docker then Ok (Some DOCKER_MUTATION_REASON)
    else if includes ["powershell"; "pwsh"; "cmd"; "wsl"; "bash"; "sh"] executable
            && existsb (includes ["-command"; "-c"; "/c"; "--exec"]) argv
    then Ok (Some NESTED_REASON)
    else if includes ["node"; "python"; "python3"; "perl"; "ruby"] executable
            && existsb (includes ["-e"; "--eval"; "-c"]) argv
    then Ok (Some INTERPRETER_REASON)
    else Ok None.

Definition trustedWorkspaceCriticalReason {P : NodePath} (shell : ShellName) (command : string) :
    result exn (option string) :=
  if negb (test TRUSTED_CRITICAL_CANDIDATE_PATTERN command) then Ok None
  else
    match trusted_argv (analyzeSimpleShellCommand shell command) with
    | None => Ok (criticalReasonFromCommandText command)
    | Some (rawExecutable, argv) =>
        criticalReasonFromArgv rawExecutable (normalizeExecutable rawExecutable) (toLowerCase <$> argv)
    end.

(** A reason is one of the nine texts, never the empty string. *)
Definition CRITICAL_REASONS : list string :=
  [TASK_REASON; ELEVATION_REASON; CREDENTIAL_REASON; INSTALL_REASON; SERVICE_MUTATION_REASON;
   DOCKER_MUTATION_REASON; NESTED_REASON; INTERPRETER_REASON; SCRIPT_REASON].

Lemma critical_reason_listed {P : NodePath} shell command reason :
  trustedWorkspaceCriticalReason shell command = Ok (Some reason) -> reason ∈ CRITICAL_REASONS.
Proof.
  assert (forall r, r ∈ CRITICAL_REASONS <-> includes CRITICAL_REASONS r = true) as Hspec
    by (intros; symmetry; apply includes_spec).
  rewrite Hspec. unfold trustedWorkspaceCriticalReason. intros H.
  destruct (negb _); [done|]. destruct (trusted_argv _) as [[raw argv]|].
  - unfold criticalReasonFromArgv in H.
    repeat (match type of H with (if ?b then _ else _) = _ => destruct b end; [by injection H as <-|]).
    apply bind_ok in H as (docker & _ & H).
    repeat (match type of H with (if ?b then _ else _) = _ => destruct b end; [by injection H as <-|]). done.
  - injection H as H. unfold criticalReasonFromCommandText in H.
    destruct (find_first _ CRITICAL_TEXT) as [[r t]|] eqn:E; [|done]. injection H as <-.
    apply find_first_some in E as [Hin _].
    assert (Forall (fun e => includes CRITICAL_REASONS e.2 = true) CRITICAL_TEXT) as Hall
      by (repeat constructor).
    rewrite Forall_forall in Hall. apply (Hall _ Hin).
Qed.

Lemma critical_reason_not_empty {P : NodePath} shell command :
  trustedWorkspaceCriticalReason shell command <> Ok (Some EmptyString).
Proof.
  intros H%critical_reason_listed. revert H. apply (bool_decide_eq_false_1 _). by vm_compute.
Qed.

(** ** Docker mutations are recognised behind options *)
(** A list of options: flags, and options that take a value with their value. *)
Inductive docker_options (valueOptions : list string) : list string -> Prop :=
| no_options : docker_options valueOptions []
| flag_option o opts :
    o ∉ valueOptions -> startsWith o "-" = true ->
    docker_options valueOptions opts -> docker_options valueOptions (o :: opts)
| value_option o v opts :
    o ∈ valueOptions ->
    docker_options valueOptions opts -> docker_options valueOptions (o :: v :: opts).

Lemma nextDockerPositional_spec vo values w after :
  nextDockerPositional vo values = Some (w, after) <->
  exists opts, values = opts ++ w :: after /\ docker_options vo opts /\
    w ∉ vo /\ startsWith w "-" = false.
Proof.
  split.
  - remember (length values) as n eqn:Hn. revert values Hn.
    induction (lt_wf n) as [n _ IH]. intros [|v vs] Hn H; [done|]. cbn [nextDockerPositional] in H.
    destruct (includes vo v) eqn:E.
    + destruct vs as [|x vs]; [done|].
      destruct (IH (length vs) ltac:(simpl in Hn; lia) vs eq_refl H) as (opts & -> & Ho & Hw).
      exists (v :: x :: opts). split_and!; try done; try apply Hw.
      constructor; [by apply includes_spec|done].
    + destruct (startsWith v "-") eqn:Es.
      * destruct (IH (length vs) ltac:(simpl in Hn; lia) vs eq_refl H) as (opts & -> & Ho & Hw).
        exists (v :: opts). split_and!; try done; try apply Hw.
        constructor; [by apply includes_false|done|done].
      * simplify_eq. exists []. split_and!; try done; [constructor|by apply includes_false].
  - intros (opts & -> & Ho & Hw & Hs). induction Ho as [|o opts Hn Hd _ IH|o v opts Hi _ IH];
      cbn [app nextDockerPositional].
    + apply includes_false in Hw. by rewrite Hw, Hs.
    + apply includes_false in Hn. by rewrite Hn, Hd.
    + apply includes_spec in Hi. by rewrite Hi.
Qed.

Definition namespace_options (ns : string) : list string :=
  if ns =s "compose" then COMPOSE_VALUE_OPTIONS else [].

(** The arguments of a docker command that changes something: after global
    options a mutating verb, or a namespace, its options and a mutating verb. *)
Definition docker_mutation (argv : list string) : Prop :=
  exists opts verb after, argv = opts ++ verb :: after /\
    docker_options GLOBAL_VALUE_OPTIONS opts /\
    (verb ∈ DOCKER_DIRECT \/
     exists verbs opts' sub after', (verb, verbs) ∈ namespaceMutations /\
       after = opts' ++ sub :: after' /\ docker_options (namespace_options verb) opts' /\ sub ∈ verbs).

Lemma namespace_own ns verbs :
  (ns, verbs) ∈ namespaceMutations -> lookup_namespace ns = own verbs /\
  Forall (fun v => v ∉ namespace_options ns /\ startsWith v "-" = false) verbs /\
  ns ∉ GLOBAL_VALUE_OPTIONS /\ startsWith ns "-" = false.
Proof.
  intros H. unfold namespaceMutations in H.
  repeat (apply elem_of_cons in H as [H|H];
    [injection H as -> ->; split; [reflexivity|];
     split; [refine (bool_decide_unpack _ _); by vm_compute|];
     split; [refine (bool_decide_unpack _ _); by vm_compute|reflexivity]|]).
  by apply not_elem_of_nil in H.
Qed.

Lemma direct_positional verb :
  verb ∈ DOCKER_DIRECT -> verb ∉ GLOBAL_VALUE_OPTIONS /\ startsWith verb "-" = false.
Proof.
  assert (Forall (fun v => v ∉ GLOBAL_VALUE_OPTIONS /\ startsWith v "-" = false) DOCKER_DIRECT) as H.
  { refine (bool_decide_unpack _ _). by vm_compute. }
  rewrite Forall_forall in H. apply H.
Qed.

Lemma isDockerMutation_complete argv :
  docker_mutation (toLowerCase <$> argv) -> isDockerMutation argv = Ok true.
Proof.
  intros (opts & verb & after & E & Ho & H). unfold isDockerMutation. rewrite E.
  assert (verb ∉ GLOBAL_VALUE_OPTIONS /\ startsWith verb "-" = false) as [Hv Hs].
  { destruct H as [H|(verbs & _ & _ & _ & (_ & _ & H)%namespace_own & _)]; [|done].
    by apply direct_positional. }
  rewrite (proj2 (nextDockerPositional_spec _ _ verb after)) by eauto.
  destruct H as [H%includes_spec|(verbs & opts' & sub & after' & Hns & -> & Ho' & Hsub)]; [by rewrite H|].
  destruct (includes DOCKER_DIRECT verb); [done|].
  apply namespace_own in Hns as (-> & Hall & _). rewrite Forall_forall in Hall.
  destruct (Hall sub Hsub).
  fold (namespace_options verb).
  rewrite (proj2 (nextDockerPositional_spec _ _ sub after')) by eauto.
  by apply includes_spec in Hsub as ->.
Qed.

(** A plain docker command that changes something (a mutating verb, or a
    namespace and its mutating verb, behind any options) always carries the docker
    reason, so a trusted workspace does not run it unasked. *)
Theorem docker_mutation_critical {P : NodePath} (shell : ShellName) (command raw : string)
    (args : list string) :
  test TRUSTED_CRITICAL_CANDIDATE_PATTERN command = true ->
  trusted_argv (analyzeSimpleShellCommand shell command) = Some (raw, args) ->
  normalizeExecutable raw = "docker" ->
  docker_mutation (toLowerCase <$> args) ->
  exists reason, trustedWorkspaceCriticalReason shell command = Ok (Some reason) /\
    (reason = DOCKER_MUTATION_REASON \/ reason = SCRIPT_REASON).
Proof.
  intros Hc Ha Hx Hd. unfold trustedWorkspaceCriticalReason. rewrite Hc, Ha, Hx. cbn [negb].
  unfold criticalReasonFromArgv.
  destruct (test (seqs [script_extension; Eol]) raw); [eauto|].
  change (includes SCHEDULED_TASK_COMMANDS "docker") with false.
  cbn [String.eqb Ascii.eqb Bool.eqb andb orb].
  rewrite isDockerMutation_complete.
  - by eexists; split; [reflexivity|left].
  - by rewrite toLowerCase_map_idem.
Qed.

Lemma docker_mutation_critical_witness :
  exists reason,
    trustedWorkspaceCriticalReason (P := posixPath "/") pwsh "docker --context prod compose -f a.yml up"
      = Ok (Some reason) /\ (reason = DOCKER_MUTATION_REASON \/ reason = SCRIPT_REASON).
Proof.
  apply (docker_mutation_critical (P := posixPath "/") pwsh "docker --context prod compose -f a.yml up"
           "docker" ["--context"; "prod"; "compose"; "-f"; "a.yml"; "up"]).
  - by vm_compute.
  - by vm_compute.
  - by vm_compute.
  - exists ["--context"; "prod"], "compose", ["-f"; "a.yml"; "up"]. split; [reflexivity|]. split.
    + apply value_option; [|apply no_options]. refine (bool_decide_unpack _ _). by vm_compute.
    + right. exists DOCKER_COMPOSE, ["-f"; "a.yml"], "up", [].
      split; [refine (bool_decide_unpack _ _); by vm_compute|]. split; [reflexivity|]. split.
      * apply value_option; [|apply no_options]. refine (bool_decide_unpack _ _). by vm_compute.
      * refine (bool_decide_unpack _ _). by vm_compute.
Defined.

(** The table lookup is not guarded against inherited members. *)
Lemma docker_inherited_member :
  trustedWorkspaceCriticalReason (P := posixPath "/") pwsh "docker constructor x" = Err (Native "TypeError").
Proof. by vm_compute. Qed.
