(* ===== verification/Trusted.v ===== *)
(** Trusted-workspace authorization: the second half of
    services/workspace-agent/src/shell/trusted-workspace-authorization.ts.

    In a trusted workspace a mutating command may run without a confirmation when
    every path it affects is literal, inside the workspace and authorized for
    writing.  [git] is the external program: what spawning it produces. *)
From S2P Require Import Prelude Errors JsString JsRegex Analysis NodeEnv Policy PathSecurity TrustedCritical.

Inductive TrustedDecision :=
| Execute
| ConfirmationRequired (reasons : list string)
| Blocked (code : ErrorCode) (reason : string).

#[export] Instance TrustedDecision_eq_dec : EqDecision TrustedDecision.
Proof. solve_decision. Defined.

Record MutablePath := mkMutable {
  mp_logicalPath : string;
  mp_kind : option FileKind;
  mp_canonicalPath : option string;
}.

(** *** runGit *)
Definition MAX_GIT_PREFLIGHT_BYTES : nat := 1000000.

(** What can happen to the child process. *)
Inductive GitEvent :=
| git_data (chunk : string)
| git_error
| git_close (exit : option Z)
| git_timer.

(** The handlers of [runGit] over the events in order of occurrence; only the
    first [finish] counts.  The timer always fires in the end. *)
Fixpoint run_git_events (stdout : string) (events : list GitEvent) : option string :=
  match events with
  | [] => None
  | git_data chunk :: es =>
      let stdout' := stdout +:+ chunk in
      if (MAX_GIT_PREFLIGHT_BYTES <? utf8_length stdout')%nat then None
      else run_git_events stdout' es
  | git_error :: _ => None
  | git_close code :: _ => if bool_decide (code = Some 0%Z) then Some stdout else None
  | git_timer :: _ => None
  end.

Section Trusted.
Context {P : NodePath}.
Context (glob : string -> string -> bool) (fs : FileSystem).
(** Spawning git in a directory: [None] when [spawn] throws. *)
Context (git : string -> list string -> option (list GitEvent)).

Definition runGit (cwd : string) (args : list string) : option string :=
  match git cwd args with
  | None => None
  | Some events => run_git_events EmptyString events
  end.

Record TrustedInput := mkInput {
  ti_workspace : ResolvedWorkspace;
  ti_shell : ShellName;
  ti_command : string;
  ti_logicalCwd : string;
  ti_absoluteCwd : string;
  ti_fallbackReasons : list string;
}.

Definition TRUSTED_FALLBACK_REASON : string :=
  "trusted-workspace could not prove that every command effect is local and authorized".

Definition confirmation (input : TrustedInput) : TrustedDecision :=
  ConfirmationRequired
    (match ti_fallbackReasons input with [] => [TRUSTED_FALLBACK_REASON] | rs => rs end).

(** [return confirmation(input)] inside the authorizers. *)
Definition ask (input : TrustedInput) : result exn TrustedDecision := Ok (confirmation input).

Definition decisionFromAuthorizationError (input : TrustedInput) (error : exn) : TrustedDecision :=
  match error with
  | App e =>
      if includes [BLOCKED_PATH; PATH_OUTSIDE_WORKSPACE; PATH_OUTSIDE_ALLOWED_ROOTS;
                   WRITE_NOT_ALLOWED; INVALID_PATH] (code e)
      then Blocked (code e) (message e)
      else confirmation input
  | Native _ => confirmation input
  end.

(** *** Operands *)
Definition isLiteralRelativeOperand (value : string) : bool :=
  if sempty value || startsWith value "~" || startsWith value ":" then false
  else if is_absolute_input value then false
  else
    let portable := replace_char BSL SLASH value in
    if includes (split_on SLASH portable) ".." then false
    else negb (sexists (fun c => has_char c "?*[]") portable).

Definition resolveLiteralLogical (logicalCwd operand : string) (allowDot : bool) : option string :=
  if negb (isLiteralRelativeOperand operand) && negb (allowDot && (operand =s ".")) then None
  else
    let portable := replace_char BSL SLASH operand in
    let combined := if logicalCwd =s "." then portable else logicalCwd +:+ "/" +:+ portable in
    match normalizeRelativePath combined allowDot with Ok p => Some p | Err _ => None end.

(** [authorizeExisting(logicalPath)] with its default arguments. *)
Definition existing (workspace : ResolvedWorkspace) (p : string) : result exn AuthorizedPath :=
  authorizeExisting glob fs workspace p None false None.

Definition subtree_blocked (m : string) : exn := app_error BLOCKED_PATH m.

(** [Ok None] is [return undefined]. *)
Definition authorizeExistingMutablePath (input : TrustedInput) (operand : string) :
    result exn (option MutablePath) :=
  let workspace := ti_workspace input in
  match resolveLiteralLogical (ti_logicalCwd input) operand false with
  | None => Ok None
  | Some logicalPath =>
      _ ← authorizeWriteLogical glob workspace logicalPath;
      if isSubtreeBlocked glob workspace logicalPath then
        Err (subtree_blocked "Target subtree is blocked by workspace policy.")
      else
        isSymbolicLink fs workspace logicalPath ≫= fun link : bool =>
        if link then Ok None
        else
          authorized ← existing workspace logicalPath;
          Ok (Some (mkMutable logicalPath (Some (ap_kind authorized)) (Some (ap_canonicalPath authorized))))
  end.

Definition authorizeMutableTarget (input : TrustedInput) (operand : string) :
    result exn (option MutablePath) :=
  let workspace := ti_workspace input in
  match resolveLiteralLogical (ti_logicalCwd input) operand false with
  | None => Ok None
  | Some logicalPath =>
      _ ← authorizeWriteLogical glob workspace logicalPath;
      if isSubtreeBlocked glob workspace logicalPath then
        Err (subtree_blocked "Target subtree is blocked by workspace policy.")
      else
        let missing :=
          _ ← authorizeExisting glob fs workspace (posix_dirname logicalPath) (Some kind_directory) true None;
          Ok (Some (mkMutable logicalPath None None)) in
        match existing workspace logicalPath with
        | Ok a =>
            match isSymbolicLink fs workspace logicalPath with
            | Ok true => Ok None
            | Ok false => Ok (Some (mkMutable logicalPath (Some (ap_kind a)) (Some (ap_canonicalPath a))))
            | Err e => if exn_has_code FILE_NOT_FOUND e then missing else Err e
            end
        | Err e => if exn_has_code FILE_NOT_FOUND e then missing else Err e
        end
  end.

(** *** The tree walk *)
(** The loop over the entries of one directory: [Ok None] is [return false];
    otherwise the count and the directories pushed, last pushed first. *)
Fixpoint walk_entries (workspace : ResolvedWorkspace) (directory : string) (entries : list Dirent)
    (count : Z) (stack : list (string * string)) : result exn (option (Z * list (string * string))) :=
  match entries with
  | [] => Ok (Some (count, stack))
  | entry :: entries' =>
      let count := (count + 1)%Z in
      if (maxListedFiles (ws_limits workspace) <? count)%Z then Ok None
      else
        let logicalPath := directory +:+ "/" +:+ de_name entry in
        _ ← authorizeWriteLogical glob workspace logicalPath;
        if isSubtreeBlocked glob workspace logicalPath then
          Err (subtree_blocked "Directory subtree is blocked by workspace policy.")
        else if de_symlink entry then Ok None
        else
          authorized ← existing workspace logicalPath;
          walk_entries workspace directory entries' count
            (match ap_kind authorized with
             | kind_directory => (logicalPath, ap_canonicalPath authorized) :: stack
             | kind_file => stack
             end)
  end.

(** The [while] loop on the stack of (logical, canonical) directories.  Every
    directory but the root is pushed by an entry that was counted, so one more
    round than the listing limit is enough fuel. *)
Fixpoint walk_tree (fuel : nat) (workspace : ResolvedWorkspace) (count : Z)
    (stack : list (string * string)) : result exn (option bool) :=
  match stack with
  | [] => Ok (Some true)
  | (logical, canonical) :: stack' =>
      match fuel with
      | 0 => Ok None
      | S fuel' =>
          match fs_readdir fs canonical with
          | None => Err (Native "ENOENT")
          | Some entries =>
              step ← walk_entries workspace logical entries count stack';
              match step with
              | None => Ok (Some false)
              | Some (count', stack'') => walk_tree fuel' workspace count' stack''
              end
          end
      end
  end.

Definition tree_fuel (workspace : ResolvedWorkspace) : nat :=
  S (Z.to_nat (maxListedFiles (ws_limits workspace))).

Definition authorizeMutableTree (workspace : ResolvedWorkspace) (root : MutablePath) : result exn bool :=
  match mp_kind root, truthy (mp_canonicalPath root) with
  | Some kind_directory, Some canonical =>
      r ← walk_tree (tree_fuel workspace) workspace 0 [(mp_logicalPath root, canonical)];
      Ok (default false r)
  | _, _ => Ok false
  end.

(** [(await readdir(path)).length > 0] *)
Definition directory_not_empty (canonicalPath : option string) : result exn bool :=
  match fs_readdir fs (default EmptyString canonicalPath) with
  | None => Err (Native "ENOENT")
  | Some entries => Ok (match entries with [] => false | _ => true end)
  end.

Definition is_directory (p : MutablePath) : bool := bool_decide (mp_kind p = Some kind_directory).
Definition is_file (p : MutablePath) : bool := bool_decide (mp_kind p = Some kind_file).

(** *** PowerShell *)
(** The argument loops; [None] is [return confirmation(input)]. *)
Fixpoint parse_remove (argv : list string) (target : option string) (recurse : bool) :
    option (option string * bool) :=
  match argv with
  | [] => Some (target, recurse)
  | token :: rest =>
      let lower := toLowerCase token in
      if includes ["-literalpath"; "-path"] lower then
        match target, rest with
        | None, t :: rest' => parse_remove rest' (Some t) recurse
        | _, _ => None
        end
      else if lower =s "-force" then parse_remove rest target recurse
      else if lower =s "-recurse" then parse_remove rest target true
      else if startsWith token "-" then None
      else match target with Some _ => None | None => parse_remove rest (Some token) recurse end
  end.

Definition authorizePowerShellRemove (input : TrustedInput) (argv : list string) :
    result exn TrustedDecision :=
  match parse_remove argv None false with
  | None => ask input
  | Some (target, recurse) =>
      match truthy target with
      | None => ask input
      | Some target =>
          resolved ← authorizeExistingMutablePath input target;
          match resolved with
          | None => ask input
          | Some resolved =>
              if negb (is_directory resolved) then Ok Execute
              else if isSubtreeBlocked glob (ti_workspace input) (mp_logicalPath resolved) then
                Err (subtree_blocked "Directory subtree is blocked by workspace policy.")
              else if recurse then
                authorizeMutableTree (ti_workspace input) resolved ≫= fun safeTree : bool =>
                if safeTree then Ok Execute else ask input
              else
                directory_not_empty (mp_canonicalPath resolved) ≫= fun non_empty : bool =>
                if non_empty then ask input else Ok Execute
          end
      end
  end.

Fixpoint parse_source_destination (argv : list string) (switches : list string)
    (source destination : option string) (positionals : list string) :
    option (option string * option string * list string) :=
  match argv with
  | [] => Some (source, destination, positionals)
  | token :: rest =>
      let lower := toLowerCase token in
      if includes ["-literalpath"; "-path"] lower then
        match source, rest with
        | None, t :: rest' => parse_source_destination rest' switches (Some t) destination positionals
        | _, _ => None
        end
      else if lower =s "-destination" then
        match destination, rest with
        | None, t :: rest' => parse_source_destination rest' switches source (Some t) positionals
        | _, _ => None
        end
      else if includes switches lower then
        parse_source_destination rest switches source destination positionals
      else if startsWith token "-" then None
      else parse_source_destination rest switches source destination (positionals ++ [token])
  end.

(** [x ??= positionals.shift()] *)
Definition or_shift (x : option string) (positionals : list string) : option string * list string :=
  match x, positionals with
  | Some _, _ => (x, positionals)
  | None, [] => (None, [])
  | None, p :: ps => (Some p, ps)
  end.

Definition parseSourceDestination (argv switches : list string) : option (string * string) :=
  match parse_source_destination argv switches None None [] with
  | None => None
  | Some (source, destination, positionals) =>
      let '(source, positionals) := or_shift source positionals in
      let '(destination, positionals) := or_shift destination positionals in
      match truthy source, truthy destination, positionals with
      | Some s, Some d, [] => Some (s, d)
      | _, _, _ => None
      end
  end.

Definition authorizeMoveLike (input : TrustedInput) (sourceOperand destinationOperand : string)
    (copy : bool) : result exn TrustedDecision :=
  source ← authorizeExistingMutablePath input sourceOperand;
  match source with
  | None => ask input
  | Some source =>
      (if is_directory source then
         if isSubtreeBlocked glob (ti_workspace input) (mp_logicalPath source) then
           Err (subtree_blocked "Directory subtree is blocked by workspace policy.")
         else authorizeMutableTree (ti_workspace input) source
       else Ok true) ≫= fun safeTree : bool =>
      if negb safeTree then ask input
      else
        destination ← authorizeMutableTarget input destinationOperand;
        match destination with
        | None => ask input
        | Some destination =>
            if is_directory destination then ask input
            else if is_directory source && is_file destination then ask input
            else if negb copy && (mp_logicalPath source =s mp_logicalPath destination) then ask input
            else Ok Execute
        end
  end.

Definition authorizePowerShellMove (input : TrustedInput) (argv : list string) :=
  match parseSourceDestination argv ["-force"] with
  | None => ask input
  | Some (s, d) => authorizeMoveLike input s d false
  end.
Definition authorizePowerShellCopy (input : TrustedInput) (argv : list string) :=
  match parseSourceDestination argv ["-force"] with
  | None => ask input
  | Some (s, d) => authorizeMoveLike input s d true
  end.

Fixpoint parse_set_content (argv : list string) (target positionalTarget : option string)
    (sawValue : bool) : option (option string) :=
  match argv with
  | [] => Some (match target with Some t => Some t | None => positionalTarget end)
  | token :: rest =>
      let lower := toLowerCase token in
      if includes ["-literalpath"; "-path"] lower then
        match target, rest with
        | None, t :: rest' => parse_set_content rest' (Some t) positionalTarget sawValue
        | _, _ => None
        end
      else if includes ["-value"; "-encoding"] lower then
        match rest with
        | [] => None
        | _ :: rest' => parse_set_content rest' target positionalTarget ((lower =s "-value") || sawValue)
        end
      else if includes ["-force"; "-nonewline"] lower then
        parse_set_content rest target positionalTarget sawValue
      else if startsWith token "-" then None
      else
        match truthy target, truthy positionalTarget with
        | None, None => parse_set_content rest target (Some token) sawValue
        | _, _ => parse_set_content rest target positionalTarget true
        end
  end.

Definition authorizePowerShellSetContent (input : TrustedInput) (argv : list string) :
    result exn TrustedDecision :=
  match parse_set_content argv None None false with
  | None => ask input
  | Some target =>
      match truthy target with
      | None => ask input
      | Some target =>
          destination ← authorizeMutableTarget input target;
          match destination with
          | None => ask input
          | Some destination => if is_directory destination then ask input else Ok Execute
          end
      end
  end.

Fixpoint parse_new_item (argv : list string) (target itemType : option string) :
    option (option string * option string) :=
  match argv with
  | [] => Some (target, itemType)
  | token :: rest =>
      let lower := toLowerCase token in
      if includes ["-literalpath"; "-path"] lower then
        match target, rest with
        | None, t :: rest' => parse_new_item rest' (Some t) itemType
        | _, _ => None
        end
      else if lower =s "-itemtype" then
        match rest with
        | [] => None
        | t :: rest' => parse_new_item rest' target (Some (toLowerCase t))
        end
      else if lower =s "-value" then
        match rest with [] => None | _ :: rest' => parse_new_item rest' target itemType end
      else if lower =s "-force" then parse_new_item rest target itemType
      else if startsWith token "-" then None
      else match target with Some _ => None | None => parse_new_item rest (Some token) itemType end
  end.

Definition item_kind (itemType : option string) : option FileKind :=
  match itemType with
  | Some t => if t =s "file" then Some kind_file
              else if t =s "directory" then Some kind_directory else None
  | None => None
  end.

Definition authorizePowerShellNewItem (input : TrustedInput) (argv : list string) :
    result exn TrustedDecision :=
  match parse_new_item argv None None with
  | None => ask input
  | Some (target, itemType) =>
      match truthy target, item_kind itemType with
      | Some target, Some kind =>
          destination ← authorizeMutableTarget input target;
          match destination with
          | None => ask input
          | Some destination =>
              if bool_decide (kind = kind_directory)
                 && isSubtreeBlocked glob (ti_workspace input) (mp_logicalPath destination) then
                Err (subtree_blocked "Directory subtree is blocked by workspace policy.")
              else if bool_decide (mp_kind destination <> None /\ mp_kind destination <> Some kind)
              then ask input
              else Ok Execute
          end
      | _, _ => ask input
      end
  end.

Definition isPowerShellCommand (rawExecutable canonical : string) (aliases : list string) : bool :=
  (rawExecutable =s canonical) || includes aliases rawExecutable.

Definition authorizePowerShellMutation (input : TrustedInput) (rawExecutable : string)
    (argv : list string) : result exn TrustedDecision :=
  let command := toLowerCase rawExecutable in
  if isPowerShellCommand command "remove-item" ["ri"; "rm"] then authorizePowerShellRemove input argv
  else if isPowerShellCommand command "move-item" ["mi"; "mv"] then authorizePowerShellMove input argv
  else if isPowerShellCommand command "copy-item" ["cpi"; "cp"] then authorizePowerShellCopy input argv
  else if (command =s "set-content") || (bool_decide (ti_shell input = powershell) && (command =s "sc"))
  then authorizePowerShellSetContent input argv
  else if isPowerShellCommand command "new-item" ["ni"] then authorizePowerShellNewItem input argv
  else ask input.

(** *** cmd *)
Definition without_option (name : string) (argv : list string) : list string :=
  List.filter (fun v => negb (test (slash_option [name]) v)) argv.

Definition authorizeCmdMutation (input : TrustedInput) (executable : string) (argv : list string) :
    result exn TrustedDecision :=
  if includes ["del"; "erase"] executable then
    match without_option "q" argv with
    | [a] =>
        if startsWith a "/" then ask input
        else
          target ← authorizeExistingMutablePath input a;
          match target with
          | Some t => if is_file t then Ok Execute else ask input
          | None => ask input
          end
    | _ => ask input
    end
  else if includes ["move"; "ren"; "rename"] executable then
    match without_option "y" argv with
    | [a; b] => authorizeMoveLike input a b false
    | _ => ask input
    end
  else if executable =s "copy" then
    match without_option "y" argv with
    | [a; b] => authorizeMoveLike input a b true
    | _ => ask input
    end
  else if includes ["rd"; "rmdir"] executable then
    let recurse := existsb (test (slash_option ["s"])) argv in
    match without_option "q" (without_option "s" argv) with
    | [a] =>
        target ← authorizeExistingMutablePath input a;
        match target with
        | None => ask input
        | Some t =>
            if negb (is_directory t) then ask input
            else if recurse then
              authorizeMutableTree (ti_workspace input) t ≫= fun safeTree : bool =>
              if safeTree then Ok Execute else ask input
            else
              directory_not_empty (mp_canonicalPath t) ≫= fun non_empty : bool =>
              if non_empty then ask input else Ok Execute
        end
    | _ => ask input
    end
  else ask input.

(** *** POSIX shells *)
(** [/^-[a-z]*r[a-z]*$/iu] and [/^-[a-z]*R[a-z]*$/u] *)
Definition recursive_flag (token : string) : bool :=
  let letters := star (Cls is_letter) in
  let lowers := star (Cls (fun c => is_letter c && negb (char_code c <? 97)%N)) in
  test (seqs [Bol; ch "-"%char; letters; chi "r"%char; letters; Eol]) token
  || test (seqs [Bol; ch "-"%char; lowers; ch "R"%char; lowers; Eol]) token.

(** The argument loop of [rm]. *)
Fixpoint parse_rm (argv : list string) (recurse : bool) (paths : list string) :
    option (bool * list string) :=
  match argv with
  | [] => Some (recurse, paths)
  | token :: rest =>
      if recursive_flag token then
        if test (seqs [Bol; ch "-"%char; plus (oneof "fRr"); Eol]) token
        then parse_rm rest true paths else None
      else if (token =s "-f") || (token =s "--") then parse_rm rest recurse paths
      else if startsWith token "-" then None
      else parse_rm rest recurse (paths ++ [token])
  end.

Definition authorizePosixMutation (input : TrustedInput) (executable : string) (argv : list string) :
    result exn TrustedDecision :=
  if executable =s "rm" then
    match parse_rm argv false [] with
    | Some (recurse, [p]) =>
        target ← authorizeExistingMutablePath input p;
        match target with
        | None => ask input
        | Some t =>
            if negb (is_directory t) then Ok Execute
            else if negb recurse then ask input
            else
              authorizeMutableTree (ti_workspace input) t ≫= fun safeTree : bool =>
              if safeTree then Ok Execute else ask input
        end
    | _ => ask input
    end
  else if executable =s "rmdir" then
    match argv with
    | [p] =>
        target ← authorizeExistingMutablePath input p;
        match target with
        | None => ask input
        | Some t =>
            if negb (is_directory t) then ask input
            else
              directory_not_empty (mp_canonicalPath t) ≫= fun non_empty : bool =>
              if non_empty then ask input else Ok Execute
        end
    | _ => ask input
    end
  else if includes ["mv"; "cp"] executable then
    match List.filter (fun v => negb (v =s "--") && negb (v =s "-f")) argv with
    | [a; b] =>
        if startsWith a "-" || startsWith b "-" then ask input
        else authorizeMoveLike input a b (executable =s "cp")
    | _ => ask input
    end
  else ask input.

(** *** git *)
Definition isTrustedWindowsGitInvocation (shell : ShellName) (rawExecutable : string) : bool :=
  if negb (includes [powershell; pwsh; cmd] shell) then false
  else includes ["git"; "git.exe"] (toLowerCase rawExecutable).

(** [args.indexOf("--")] with the parts before and after it. *)
Fixpoint split_separator (args : list string) : option (list string * list string) :=
  match args with
  | [] => None
  | a :: args' =>
      if a =s "--" then Some ([], args')
      else match split_separator args' with
           | Some (before, after) => Some (a :: before, after)
           | None => None
           end
  end.

Definition validateLiteralGitPathspecs (pathspecs : list string) (allowDot : bool) : bool :=
  match pathspecs with
  | [] => false
  | _ => forallb (fun v => if v =s "." then allowDot else isLiteralRelativeOperand v) pathspecs
  end.

(** [parseGitPathspecs] with [allowedOptions: []], as it is always called. *)
Definition parseGitPathspecs (args : list string) (allowDot : bool) : option (list string) :=
  let pathspecs :=
    match split_separator args with
    | Some ([], after) => Some after
    | Some (_ :: _, _) => None
    | None => if existsb (fun v => startsWith v "-") args then None else Some args
    end in
  match pathspecs with
  | Some ps => if validateLiteralGitPathspecs ps allowDot then Some ps else None
  | None => None
  end.

Definition gitAffectedSetIsExplicit (pathspecs affected : list string) : bool :=
  match affected with
  | [] => true
  | _ => forallb (includes (replace_char BSL SLASH <$> pathspecs)) affected
  end.

(** The non-empty names of one NUL-separated listing. *)
Definition listed_names (output : string) : list string :=
  replace_char BSL SLASH <$> List.filter (fun v => negb (sempty v)) (split_on NUL output).

Fixpoint collect_names (cwd : string) (commands : list (list string)) : option (list string) :=
  match commands with
  | [] => Some []
  | args :: commands' =>
      match runGit cwd args with
      | None => None
      | Some output => app (listed_names output) <$> collect_names cwd commands'
      end
  end.
Definition collectGitPaths (cwd : string) (commands : list (list string)) : option (list string) :=
  js_dedup <$> collect_names cwd commands.

Definition resolveGitRepository (input : TrustedInput) : result exn (option string) :=
  match runGit (ti_absoluteCwd input) ["rev-parse"; "--show-toplevel"] with
  | None => Ok None
  | Some output =>
      let root := ws_canonicalRootPath (ti_workspace input) in
      let canonicalTop := path_resolve (trim output) [] in
      if negb (isContained root canonicalTop) then
        throw PATH_OUTSIDE_WORKSPACE "Git repository root resolves outside the trusted workspace."
      else
        let relative := join "/" (split_on path_sep (path_relative root canonicalTop)) in
        Ok (Some (if sempty relative then "." else relative))
  end.

(** The body of the loop of [authorizeGitAffectedPaths]. *)
Definition authorize_affected (workspace : ResolvedWorkspace) (repoLogicalRoot : string)
    (requireExisting : bool) (relative : string) : result exn unit :=
  match resolveLiteralLogical repoLogicalRoot relative false with
  | None => throw INVALID_PATH "Git preflight returned an ambiguous path."
  | Some logical =>
      _ ← authorizeWriteLogical glob workspace logical;
      if isSubtreeBlocked glob workspace logical then
        throw BLOCKED_PATH "Git target subtree is blocked by workspace policy."
      else
        try_catch
          (_ ← existing workspace logical;
           isSymbolicLink fs workspace logical ≫= fun link : bool =>
           if link then throw INVALID_PATH "Git target is a symbolic link." else Ok tt)
          (fun error =>
             if negb requireExisting && exn_has_code FILE_NOT_FOUND error then Ok tt else Err error)
  end.
Definition authorizeGitAffectedPaths (workspace : ResolvedWorkspace) (repoLogicalRoot : string)
    (paths : list string) (requireExisting : bool) : result exn unit :=
  for_each paths (authorize_affected workspace repoLogicalRoot requireExisting).

Definition listing (command : list string) (pathspecs : list string) : list string :=
  command ++ ["--"] ++ pathspecs.
Definition diff_listing : list string -> list string :=
  listing ["diff"; "--name-only"; "-z"; "--no-relative"].
Definition cached_listing : list string -> list string :=
  listing ["diff"; "--cached"; "--name-only"; "-z"; "--no-relative"].
Definition others_listing : list string -> list string :=
  listing ["ls-files"; "--others"; "--exclude-standard"; "--full-name"; "-z"].

(** Collect the affected paths, authorize them, and go on with [k]. *)
Definition with_affected (input : TrustedInput) (repo : string) (commands : list (list string))
    (requireExisting : bool) (k : list string -> result exn TrustedDecision) :
    result exn TrustedDecision :=
  match collectGitPaths (ti_absoluteCwd input) commands with
  | None => ask input
  | Some affected =>
      _ ← authorizeGitAffectedPaths (ti_workspace input) repo affected requireExisting;
      k affected
  end.

Definition git_add (input : TrustedInput) (repo : string) (args : list string) :
    result exn TrustedDecision :=
  match parseGitPathspecs args true with
  | None => ask input
  | Some pathspecs =>
      with_affected input repo [diff_listing pathspecs; others_listing pathspecs] false
        (fun _ => Ok Execute)
  end.

Definition git_restore (input : TrustedInput) (repo : string) (args : list string) :
    result exn TrustedDecision :=
  let staged := includes args "--staged" in
  if existsb (fun v => (v =s "--worktree") || startsWith v "--source") args then ask input
  else
    match parseGitPathspecs (List.filter (fun v => negb (v =s "--staged")) args) staged with
    | None => ask input
    | Some pathspecs =>
        if negb staged && includes pathspecs "." then ask input
        else
          with_affected input repo
            [if staged then cached_listing pathspecs else diff_listing pathspecs] false
            (fun affected =>
               if negb staged && negb (gitAffectedSetIsExplicit pathspecs affected)
               then ask input else Ok Execute)
    end.

Definition git_reset (input : TrustedInput) (repo : string) (args : list string) :
    result exn TrustedDecision :=
  if existsb (includes ["--hard"; "--soft"; "--merge"; "--keep"]) args then ask input
  else
    match split_separator args with
    | None => ask input
    | Some (prefix, pathspecs) =>
        if existsb (fun v => negb (includes ["HEAD"; "--mixed"; "-q"] v)) prefix then ask input
        else if negb (validateLiteralGitPathspecs pathspecs false) then ask input
        else
          with_affected input repo [cached_listing pathspecs] false
            (fun affected =>
               if gitAffectedSetIsExplicit pathspecs affected then Ok Execute else ask input)
    end.

(** The loop over the pathspecs of [clean]: [Ok false] is
    [return confirmation(input)]. *)
Fixpoint clean_pathspecs (input : TrustedInput) (pathspecs : list string) : result exn bool :=
  match pathspecs with
  | [] => Ok true
  | pathspec :: rest =>
      let workspace := ti_workspace input in
      match resolveLiteralLogical (ti_logicalCwd input) pathspec false with
      | None => Ok false
      | Some logical =>
          _ ← authorizeWriteLogical glob workspace logical;
          let body : result exn bool :=
            a ← existing workspace logical;
            isSymbolicLink fs workspace logical ≫= fun link : bool =>
            if link then Ok false
            else match ap_kind a with
                 | kind_directory =>
                     authorizeMutableTree workspace
                       (mkMutable (ap_logicalPath a) (Some (ap_kind a)) (Some (ap_canonicalPath a)))
                 | kind_file => Ok true
                 end in
          try_catch body (fun error => if exn_has_code FILE_NOT_FOUND error then Ok true else Err error)
            ≫= fun go_on : bool =>
          if go_on then clean_pathspecs input rest else Ok false
      end
  end.

(** [/^-[fdn]+$/u] *)
Definition clean_flag : string -> bool := test (seqs [Bol; ch "-"%char; plus (oneof "fdn"); Eol]).

Definition git_clean (input : TrustedInput) (repo : string) (args : list string) :
    result exn TrustedDecision :=
  match split_separator args with
  | None => ask input
  | Some (flags, pathspecs) =>
      if negb (existsb (has_char "f"%char) flags)
         || existsb (sexists (fun c => has_char c "xX")) flags
         || existsb (fun v => negb (clean_flag v)) flags
         || negb (validateLiteralGitPathspecs pathspecs false)
      then ask input
      else
        with_affected input repo [others_listing pathspecs] true (fun _ =>
          clean_pathspecs input pathspecs ≫= fun safe : bool =>
          if safe then Ok Execute else ask input)
  end.

Definition authorizeGitMutation (input : TrustedInput) (argv : list string) :
    result exn TrustedDecision :=
  match argv with
  | [] => ask input
  | first :: args =>
      if startsWith first "-" then ask input
      else
        let subcommand := toLowerCase first in
        repo ← resolveGitRepository input;
        match repo with
        | None => ask input
        | Some repo =>
            if subcommand =s "add" then git_add input repo args
            else if subcommand =s "restore" then git_restore input repo args
            else if subcommand =s "reset" then git_reset input repo args
            else if subcommand =s "clean" then git_clean input repo args
            else ask input
        end
  end.

(** *** The decision *)
Definition authorize_mutation (input : TrustedInput) (rawExecutable : string) (argv : list string) :
    result exn TrustedDecision :=
  let executable := normalizeExecutable rawExecutable in
  if executable =s "git" then
    if isTrustedWindowsGitInvocation (ti_shell input) rawExecutable
    then authorizeGitMutation input argv else ask input
  else
    match ti_shell input with
    | powershell | pwsh => authorizePowerShellMutation input rawExecutable argv
    | cmd => authorizeCmdMutation input executable argv
    | wsl | git_bash => authorizePosixMutation input executable argv
    end.

Definition authorizeTrustedWorkspaceCommand (input : TrustedInput) : TrustedDecision :=
  match trusted_argv (analyzeSimpleShellCommand (ti_shell input) (ti_command input)) with
  | None => confirmation input
  | Some (rawExecutable, argv) =>
      match authorize_mutation input rawExecutable argv with
      | Ok decision => decision
      | Err error => decisionFromAuthorizationError input error
      end
  end.
End Trusted.

(** ** What a trusted execution guarantees *)
Section Guarantees.
Context {P : NodePath} {L : PathLaws P}.
Context (glob : string -> string -> bool) (fs : FileSystem).
Context (git : string -> list string -> option (list GitEvent)).
Context (input : TrustedInput).

(** A logical path the policy lets a command change. *)
Definition mutable_path (workspace : ResolvedWorkspace) (p : string) : Prop :=
  ~ blocked_by_policy glob workspace p /\ inside_allowed_root workspace p /\
  writable workspace p /\ isSubtreeBlocked glob workspace p = false.

(** The entries below a directory, through its subdirectories. *)
Inductive tree_entry (workspace : ResolvedWorkspace) : string -> string -> string -> Dirent -> Prop :=
| entry_here logical canonical entries e :
    fs_readdir fs canonical = Some entries -> e ∈ entries ->
    tree_entry workspace logical canonical (logical +:+ "/" +:+ de_name e) e
| entry_below logical canonical entries d a p e :
    fs_readdir fs canonical = Some entries -> d ∈ entries ->
    existing glob fs workspace (logical +:+ "/" +:+ de_name d) = Ok a ->
    ap_kind a = kind_directory ->
    tree_entry workspace (logical +:+ "/" +:+ de_name d) (ap_canonicalPath a) p e ->
    tree_entry workspace logical canonical p e.

(** Every entry of the tree may be changed, exists inside the workspace and is
    not a link. *)
Definition safe_entry (workspace : ResolvedWorkspace) (p : string) (e : Dirent) : Prop :=
  (exists p', authorizeWriteLogical glob workspace p = Ok p') /\
  isSubtreeBlocked glob workspace p = false /\ de_symlink e = false /\
  exists a, existing glob fs workspace p = Ok a.
Definition safe_tree (workspace : ResolvedWorkspace) (logical canonical : string) : Prop :=
  forall p e, tree_entry workspace logical canonical p e -> safe_entry workspace p e.

(** *** The walk *)
Lemma walk_entries_ok workspace dir entries count stack count' stack' :
  walk_entries glob fs workspace dir entries count stack = Ok (Some (count', stack')) ->
  (count <= count')%Z /\
  (count' = count \/ (count' <= maxListedFiles (ws_limits workspace))%Z) /\
  (Z.of_nat (length stack') - Z.of_nat (length stack) <= count' - count)%Z /\
  (forall x, x ∈ stack -> x ∈ stack') /\
  (forall e, e ∈ entries ->
     safe_entry workspace (dir +:+ "/" +:+ de_name e) e /\
     forall a, existing glob fs workspace (dir +:+ "/" +:+ de_name e) = Ok a ->
       ap_kind a = kind_directory -> (dir +:+ "/" +:+ de_name e, ap_canonicalPath a) ∈ stack').
Proof.
  revert count stack. induction entries as [|e es IH]; intros count stack H; cbn [walk_entries] in H.
  { simplify_eq. split_and!; try lia; try done. by intros e He%not_elem_of_nil. }
  destruct (_ <? _)%Z eqn:Hmax; [done|]. apply Z.ltb_ge in Hmax.
  apply bind_ok in H as (p' & Hw & H).
  destruct (isSubtreeBlocked _ _ _) eqn:Hsub; [done|].
  destruct (de_symlink e) eqn:Hlink; [done|].
  apply bind_ok in H as (a & Ha & H). apply IH in H as (H1 & H2 & H3 & H4 & H5).
  split_and!; [lia| | | |].
  - right. destruct H2; lia.
  - destruct (ap_kind a); simpl in H3; lia.
  - intros x Hx. apply H4. destruct (ap_kind a); [done|by right].
  - intros e' [->|He]%elem_of_cons; [|by apply H5]. split.
    + split_and!; eauto.
    + intros a' Ha' Hk. rewrite Ha in Ha'. injection Ha' as <-. apply H4. rewrite Hk. left.
Qed.

Lemma walk_tree_total fuel workspace count stack :
  (length stack + Z.to_nat (maxListedFiles (ws_limits workspace) - count) <= fuel)%nat ->
  walk_tree glob fs fuel workspace count stack <> Ok None.
Proof.
  revert count stack. induction fuel as [|fuel IH]; intros count stack Hf.
  { destruct stack; [done|simpl in Hf; lia]. }
  destruct stack as [|[logical canonical] stack]; [done|]. cbn [walk_tree].
  destruct (fs_readdir fs canonical) as [entries|]; [|done].
  destruct (walk_entries glob fs workspace logical entries count stack) as [[[count' stack']|]|e] eqn:E;
    [|done|done].
  cbn. apply IH. apply walk_entries_ok in E as (H1 & H2 & H3 & _).
  cbn [length] in Hf. destruct H2; lia.
Qed.

(** The walk of a directory tree ends: the listing limit bounds the number
    of directories visited, so the fuel given to the loop never runs out. *)
Theorem tree_walk_terminates workspace logical canonical :
  walk_tree glob fs (tree_fuel workspace) workspace 0 [(logical, canonical)] <> Ok None.
Proof. apply walk_tree_total. unfold tree_fuel. cbn [length]. lia. Qed.

Lemma walk_tree_safe fuel workspace count stack :
  walk_tree glob fs fuel workspace count stack = Ok (Some true) ->
  forall logical canonical, (logical, canonical) ∈ stack -> safe_tree workspace logical canonical.
Proof.
  revert count stack. induction fuel as [|fuel IH]; intros count stack H logical canonical Hin.
  { destruct stack as [|[]]; [by apply not_elem_of_nil in Hin|done]. }
  destruct stack as [|[l0 c0] stack]; [by apply not_elem_of_nil in Hin|]. cbn [walk_tree] in H.
  destruct (fs_readdir fs c0) as [entries|] eqn:Hread; [|done].
  apply bind_ok in H as ([[count' stack']|] & E & H); [|done].
  apply walk_entries_ok in E as (_ & _ & _ & Hsub & Hent).
  apply elem_of_cons in Hin as [[= -> ->]|Hin]; [|by eapply IH; eauto].
  intros p e He. inversion He as [? ? es ? Hr Hein|? ? es d a ? ? Hr Hd Ha Hk Hbelow]; subst;
    rewrite Hread in Hr; injection Hr as <-.
  - by apply Hent.
  - destruct (Hent _ Hd) as [_ Hpush]. eapply IH; [exact H| |exact Hbelow]. by apply Hpush.
Qed.

Lemma tree_safe workspace root :
  authorizeMutableTree glob fs workspace root = Ok true ->
  mp_kind root = Some kind_directory /\
  exists canonical, mp_canonicalPath root = Some canonical /\
    safe_tree workspace (mp_logicalPath root) canonical.
Proof.
  unfold authorizeMutableTree. intros H.
  destruct (mp_kind root) as [[]|]; try done.
  destruct (mp_canonicalPath root) as [[|c0 s0]|] eqn:Hc; try done. cbn [truthy sempty] in H.
  apply bind_ok in H as (r & Hr & H). injection H as H. destruct r as [[]|]; try done.
  split; [done|]. eexists; split; [done|]. eapply walk_tree_safe; [exact Hr|]. left.
Qed.

(** A directory is found safe only when it is one, and every entry below it,
    at any depth, may be written, is not in a blocked subtree, is not a link and
    resolves inside the workspace. *)
Theorem mutable_tree_safe workspace root :
  authorizeMutableTree glob fs workspace root = Ok true ->
  mp_kind root = Some kind_directory /\
  exists canonical, mp_canonicalPath root = Some canonical /\
    safe_tree workspace (mp_logicalPath root) canonical.
Proof. apply tree_safe. Qed.

(** *** Operands *)
(** The operand names a path of the workspace that may be changed. *)
Definition names_mutable (operand : string) (p : string) : Prop :=
  resolveLiteralLogical (ti_logicalCwd input) operand false = Some p /\
  mutable_path (ti_workspace input) p.

(** An operand that is removed, moved or copied: it exists inside the workspace,
    is not a link, and is fit for what is done with it. *)
Definition consumed (fit : string -> AuthorizedPath -> Prop) (operand : string) : Prop :=
  exists p a, names_mutable operand p /\
    isSymbolicLink fs (ti_workspace input) p = Ok false /\
    existing glob fs (ti_workspace input) p = Ok a /\ fit p a.
(** With everything below it, when it is a directory. *)
Definition whole (p : string) (a : AuthorizedPath) : Prop :=
  ap_kind a = kind_directory -> safe_tree (ti_workspace input) p (ap_canonicalPath a).
(** Alone: a directory has nothing below it. *)
Definition alone (p : string) (a : AuthorizedPath) : Prop :=
  ap_kind a = kind_directory -> fs_readdir fs (ap_canonicalPath a) = Some [].
Definition of_kind (k : FileKind) (p : string) (a : AuthorizedPath) : Prop := ap_kind a = k.
(** What is removed, recursively or not. *)
Definition removed (recurse : bool) : string -> AuthorizedPath -> Prop := if recurse then whole else alone.

(** An operand that is written: it exists inside the workspace, is not a link and
    is of a kind that may be written over, or it does not exist and its directory does,
    inside the workspace. *)
Definition produced (over : FileKind -> Prop) (operand : string) : Prop :=
  exists p, names_mutable operand p /\
    ((exists a, existing glob fs (ti_workspace input) p = Ok a /\
       isSymbolicLink fs (ti_workspace input) p = Ok false /\ over (ap_kind a)) \/
     exists d, authorizeExisting glob fs (ti_workspace input) (posix_dirname p)
                 (Some kind_directory) true None = Ok d).
(** A move or copy writes over a file at most, and never with a directory; a move
    changes the path. *)
Definition moved (copy : bool) (source destination : string) : Prop :=
  consumed whole source /\
  produced (fun k => k = kind_file /\ consumed (of_kind kind_file) source) destination /\
  (copy = false -> resolveLiteralLogical (ti_logicalCwd input) source false
                   <> resolveLiteralLogical (ti_logicalCwd input) destination false).

Lemma resolve_canonical cwd operand p :
  resolveLiteralLogical cwd operand false = Some p -> canonical_logical p.
Proof.
  unfold resolveLiteralLogical. intros H. destruct (_ && _); [done|].
  destruct (normalizeRelativePath _ _) as [q|e] eqn:E; [|done]. injection H as ->.
  by apply normalize_ok in E as [[_ ?]|?].
Qed.

(** A normal form is authorized as itself. *)
Lemma write_authorized_same workspace p q :
  canonical_logical p -> authorizeWriteLogical glob workspace p = Ok q ->
  ~ blocked_by_policy glob workspace p /\ inside_allowed_root workspace p /\ writable workspace p.
Proof.
  intros Hp (Hn & Hpol)%authorizeWriteLogical_ok. enough (q = p) as -> by done.
  destruct (has_drive p) eqn:Hd.
  - unfold normalizeRelativePath in Hn. destruct (sempty p || _); [done|].
    unfold is_absolute_input in Hn. by rewrite Hd, orb_true_r in Hn.
  - pose proof (normalize_canonical_same p false Hp Hd) as Hs. congruence.
Qed.

Lemma existing_mutable_some operand t :
  authorizeExistingMutablePath glob fs input operand = Ok (Some t) ->
  names_mutable operand (mp_logicalPath t) /\
  isSymbolicLink fs (ti_workspace input) (mp_logicalPath t) = Ok false /\
  exists a, existing glob fs (ti_workspace input) (mp_logicalPath t) = Ok a /\
    mp_kind t = Some (ap_kind a) /\ mp_canonicalPath t = Some (ap_canonicalPath a).
Proof.
  unfold authorizeExistingMutablePath. intros H.
  destruct (resolveLiteralLogical _ _ _) as [p|] eqn:Hr; [|done].
  apply bind_ok in H as (q & Hw & H).
  destruct (isSubtreeBlocked _ _ _) eqn:Hs; [done|].
  apply bind_ok in H as ([] & Hl & H); [done|].
  apply bind_ok in H as (a & Ha & H). simplify_eq. simpl.
  apply write_authorized_same in Hw as (?&?&?); [|by eapply resolve_canonical].
  split; [by split_and!|]. eauto.
Qed.

Lemma mutable_target_some operand t (over : FileKind -> Prop) :
  authorizeMutableTarget glob fs input operand = Ok (Some t) ->
  (forall k, mp_kind t = Some k -> over k) -> produced over operand.
Proof.
  unfold authorizeMutableTarget. intros H Hk.
  destruct (resolveLiteralLogical _ _ _) as [p|] eqn:Hr; [|done].
  apply bind_ok in H as (q & Hw & H).
  destruct (isSubtreeBlocked _ _ _) eqn:Hs; [done|].
  apply write_authorized_same in Hw as (?&?&?); [|by eapply resolve_canonical].
  exists p. split; [by split_and!|].
  destruct (existing glob fs (ti_workspace input) p) as [a|e] eqn:Ha.
  - destruct (isSymbolicLink fs (ti_workspace input) p) as [[]|e] eqn:Hl; [done|left|].
    + injection H as <-. eauto.
    + destruct (exn_has_code _ e); [|done]. apply bind_ok in H as (d & Hd & _). right. eauto.
  - destruct (exn_has_code _ e); [|done]. apply bind_ok in H as (d & Hd & _). right. eauto.
Qed.

Lemma mutable_target_logical operand t : authorizeMutableTarget glob fs input operand = Ok (Some t) ->
  resolveLiteralLogical (ti_logicalCwd input) operand false = Some (mp_logicalPath t).
Proof.
  unfold authorizeMutableTarget. destruct (resolveLiteralLogical _ _ _) as [p|]; [|done]. intros (q & _ & H)%bind_ok.
  destruct (isSubtreeBlocked _ _ _); [done|].
  destruct (existing glob fs (ti_workspace input) p) as [a|e]; [destruct (isSymbolicLink fs (ti_workspace input) p) as [[]|e]|]; simplify_eq/=; try done;
    (destruct (exn_has_code _ e); [|done]); apply bind_ok in H as (d & _ & H); by simplify_eq.
Qed.

(** *** How a command reads its arguments *)
(** A cmdlet: options with a value, flags and positional arguments, in any order;
    every argument is one of these. *)
Inductive cmdlet_args (valued flags : list string) :
    list string -> list (string * string) -> list string -> list string -> Prop :=
| args_nil : cmdlet_args valued flags [] [] [] []
| args_valued n v argv named given pos :
    includes valued (toLowerCase n) = true -> cmdlet_args valued flags argv named given pos ->
    cmdlet_args valued flags (n :: v :: argv) ((toLowerCase n, v) :: named) given pos
| args_flag f argv named given pos :
    includes flags (toLowerCase f) = true -> cmdlet_args valued flags argv named given pos ->
    cmdlet_args valued flags (f :: argv) named (toLowerCase f :: given) pos
| args_positional t argv named given pos :
    startsWith t "-" = false -> cmdlet_args valued flags argv named given pos ->
    cmdlet_args valued flags (t :: argv) named given (t :: pos).
(** The values of the options with these names. *)
Definition values (names : list string) (named : list (string * string)) : list string :=
  map snd (List.filter (fun e => includes names e.1) named).
Definition PATHS : list string := ["-literalpath"; "-path"].

(** *** What is executed *)
Definition is_powershell (shell : ShellName) : Prop := shell = powershell \/ shell = pwsh.
Definition is_posix (shell : ShellName) : Prop := shell = wsl \/ shell = git_bash.
(** The arguments of [cmd] that are not one of the switches. *)
Definition without (switches argv : list string) : list string := fold_right without_option argv switches.
Definition rm_option (t : string) : bool := recursive_flag t || (t =s "-f") || (t =s "--").

(** A command other than git with the operands that its shell reads in its
    arguments: each of them is authorized for what the command does with it. *)
Inductive executed_as : ShellName -> string -> list string -> Prop :=
| cmdlet_remove shell raw argv named given pos operand :
    is_powershell shell -> toLowerCase raw ∈ ["remove-item"; "ri"; "rm"] ->
    cmdlet_args PATHS ["-force"; "-recurse"] argv named given pos ->
    values PATHS named ++ pos = [operand] ->
    consumed (removed (includes given "-recurse")) operand ->
    executed_as shell raw argv
| cmdlet_move shell raw copy argv named given pos source destination paths places :
    is_powershell shell ->
    (toLowerCase raw, copy) ∈ [("move-item", false); ("mi", false); ("mv", false); ("copy-item", true); ("cpi", true); ("cp", true)] ->
    cmdlet_args (PATHS ++ ["-destination"]) ["-force"] argv named given pos ->
    values PATHS named = paths -> values ["-destination"] named = places ->
    (paths, places, pos) ∈ [([], [], [source; destination]); ([source], [], [destination]);
                            ([], [destination], [source]); ([source], [destination], [])] ->
    moved copy source destination -> executed_as shell raw argv
| cmdlet_set_content shell raw argv named given pos operand :
    is_powershell shell -> toLowerCase raw = "set-content" \/ (toLowerCase raw = "sc" /\ shell = powershell) ->
    cmdlet_args (PATHS ++ ["-value"; "-encoding"]) ["-force"; "-nonewline"] argv named given pos ->
    (values PATHS named = [operand] \/
     values PATHS named = [] /\ exists blank contents, pos = blank ++ operand :: contents /\ Forall (eq EmptyString) blank) ->
    produced (fun k => k = kind_file) operand -> executed_as shell raw argv
| cmdlet_new_item shell raw argv named given pos operand item kind :
    is_powershell shell -> toLowerCase raw ∈ ["new-item"; "ni"] ->
    cmdlet_args (PATHS ++ ["-itemtype"; "-value"]) ["-force"] argv named given pos ->
    values PATHS named ++ pos = [operand] ->
    last (values ["-itemtype"] named) = Some item ->
    (toLowerCase item, kind) ∈ [("file", kind_file); ("directory", kind_directory)] ->
    produced (fun k => k = kind) operand -> executed_as shell raw argv
| cmd_del raw argv operand :
    normalizeExecutable raw ∈ ["del"; "erase"] -> without ["q"] argv = [operand] ->
    startsWith operand "/" = false -> consumed (of_kind kind_file) operand -> executed_as cmd raw argv
| cmd_move raw copy argv source destination :
    (normalizeExecutable raw, copy) ∈ [("move", false); ("ren", false); ("rename", false); ("copy", true)] ->
    without ["y"] argv = [source; destination] -> moved copy source destination -> executed_as cmd raw argv
| cmd_rd raw argv operand :
    normalizeExecutable raw ∈ ["rd"; "rmdir"] -> without ["q"; "s"] argv = [operand] ->
    consumed (of_kind kind_directory) operand ->
    consumed (removed (existsb (test (slash_option ["s"])) argv)) operand -> executed_as cmd raw argv
| posix_rm shell raw argv operand :
    is_posix shell -> normalizeExecutable raw = "rm" ->
    List.filter (fun t => negb (rm_option t)) argv = [operand] -> startsWith operand "-" = false ->
    consumed (if existsb recursive_flag argv then whole else of_kind kind_file) operand ->
    executed_as shell raw argv
| posix_rmdir shell raw operand :
    is_posix shell -> normalizeExecutable raw = "rmdir" -> consumed (of_kind kind_directory) operand ->
    consumed alone operand -> executed_as shell raw [operand]
| posix_move shell raw copy argv source destination :
    is_posix shell -> (normalizeExecutable raw, copy) ∈ [("mv", false); ("cp", true)] ->
    List.filter (fun v => negb (v =s "--") && negb (v =s "-f")) argv = [source; destination] ->
    startsWith source "-" = false -> startsWith destination "-" = false ->
    moved copy source destination -> executed_as shell raw argv.

(** *** The argument loops read them so *)
(** One step of a loop over the arguments, knowing the claim for shorter lists. *)
Lemma argv_induction (R : list string -> Prop) :
  (forall argv, (forall argv', (length argv' < length argv)%nat -> R argv') -> R argv) ->
  forall argv, R argv.
Proof. exact (induction_ltof1 _ (@length string) R). Qed.

Lemma values_cons names n v named :
  values names ((n, v) :: named) = if includes names n then v :: values names named else values names named.
Proof. unfold values. cbn. by destruct (includes names n). Qed.
Lemma args_flag_named valued flags f fl argv named given pos : toLowerCase f = fl -> includes flags fl = true ->
  cmdlet_args valued flags argv named given pos -> cmdlet_args valued flags (f :: argv) named (fl :: given) pos.
Proof. intros <-. apply args_flag. Qed.
Lemma option_single {A} (o : option A) x l : option_list o = x :: l -> o = Some x /\ l = [].
Proof. destruct o; cbn; [|done]. by intros [= -> <-]. Qed.
Lemma includes_disjoint (xs ys : list string) x : includes xs x = true -> forallb (fun y => negb (includes xs y)) ys = true -> includes ys x = false.
Proof.
  intros Hx Hy. apply not_true_is_false. intros Hi. apply includes_spec in Hi.
  eapply forallb_forall in Hy; [|by apply list_elem_of_In]. by rewrite Hx in Hy.
Qed.
Lemma includes_app (xs ys : list string) x : includes (xs ++ ys) x = includes xs x || includes ys x.
Proof. apply eq_bool_prop_intro. rewrite orb_True. unfold includes. rewrite !bool_decide_spec. apply elem_of_app. Qed.
Lemma includes_cons (y : string) l x : includes (y :: l) x = (x =s y) || includes l x.
Proof.
  change (y :: l) with ([y] ++ l). rewrite includes_app. f_equal. apply eq_bool_prop_intro. unfold includes.
  rewrite bool_decide_spec, list_elem_of_singleton, Is_true_true, String.eqb_eq. done.
Qed.
Ltac named_option token v := match goal with Ha : cmdlet_args _ _ _ ?named ?given ?pos |- _ =>
  exists ((toLowerCase token, v) :: named), given, pos; split; [by constructor|rewrite !values_cons] end.
Ltac named_flag fl := match goal with Ha : cmdlet_args _ _ _ ?named ?given ?pos, E : (_ =s fl) = true |- _ =>
  exists named, (fl :: given), pos; apply String.eqb_eq in E; split; [by eapply args_flag_named|] end.
Ltac positional token := match goal with Ha : cmdlet_args _ _ _ ?named ?given ?pos |- _ =>
  exists named, given, (token :: pos); split; [by constructor|] end.

Lemma parse_remove_reads argv target r t r' :
  parse_remove argv target r = Some (t, r') ->
  exists named given pos, cmdlet_args PATHS ["-force"; "-recurse"] argv named given pos /\
    option_list t = option_list target ++ values PATHS named ++ pos /\ r' = r || includes given "-recurse".
Proof.
  revert target r. induction argv as [argv IH] using argv_induction. intros target r E.
  destruct argv as [|token rest]; cbn [parse_remove] in E.
  { injection E as <- <-. exists [], [], []. split; [constructor|]. by rewrite app_nil_r, orb_false_r. }
  destruct (includes _ (toLowerCase token)) eqn:Ep; fold PATHS in Ep.
  { destruct target, rest as [|v rest]; try discriminate E. apply IH in E as (named & given & pos & Ha & Et & Er); [|cbn; lia].
    named_option token v. by rewrite Ep. }
  destruct (toLowerCase token =s "-force") eqn:Ef.
  { apply IH in E as (named & given & pos & Ha & Et & Er); [|cbn; lia]. named_flag "-force". by rewrite includes_cons. }
  destruct (toLowerCase token =s "-recurse") eqn:Er.
  { apply IH in E as (named & given & pos & Ha & Et & Er'); [|cbn; lia]. named_flag "-recurse". split; [done|]. subst r'. rewrite includes_cons. by destruct r. }
  destruct (startsWith token "-") eqn:Es; [done|]. destruct target; [done|].
  apply IH in E as (named & given & pos & Ha & Et & Er'); [|cbn; lia]. positional token. split; [|done].
  rewrite Et. apply option_single in Et as [_ [-> ->]%app_nil]. done.
Qed.
Lemma parse_source_destination_reads argv s0 d0 ps s d ps' :
  parse_source_destination argv ["-force"] s0 d0 ps = Some (s, d, ps') ->
  exists named given pos, cmdlet_args (PATHS ++ ["-destination"]) ["-force"] argv named given pos /\
    option_list s = option_list s0 ++ values PATHS named /\ option_list d = option_list d0 ++ values ["-destination"] named /\
    ps' = ps ++ pos.
Proof.
  revert s0 d0 ps. induction argv as [argv IH] using argv_induction. intros s0 d0 ps E.
  destruct argv as [|token rest]; cbn [parse_source_destination] in E.
  { injection E as <- <- <-. exists [], [], []. split; [constructor|]. by rewrite !app_nil_r. }
  destruct (includes ["-literalpath"; "-path"] (toLowerCase token)) eqn:Ep; fold PATHS in Ep.
  { destruct s0, rest as [|v rest]; try discriminate E. apply IH in E as (named & given & pos & Ha & Es & Ed & Eps); [|cbn; lia].
    assert (includes ["-destination"] (toLowerCase token) = false) as En by by apply (includes_disjoint _ _ _ Ep).
    exists ((toLowerCase token, v) :: named), given, pos. split; [constructor; [by rewrite includes_app, Ep|done]|].
    rewrite !values_cons, En. by rewrite Ep. }
  destruct (toLowerCase token =s "-destination") eqn:Ed0.
  { destruct d0, rest as [|v rest]; try discriminate E. apply IH in E as (named & given & pos & Ha & Es & Ed & Eps); [|cbn; lia].
    apply String.eqb_eq in Ed0. exists ((toLowerCase token, v) :: named), given, pos.
    split; [constructor; [by rewrite Ed0|done]|]. by rewrite !values_cons, Ed0. }
  destruct (includes ["-force"] (toLowerCase token)) eqn:Ef.
  { apply IH in E as (named & given & pos & Ha & Es & Ed & Eps); [|cbn; lia]. exists named, (toLowerCase token :: given), pos.
    split; [by constructor|done]. }
  destruct (startsWith token "-") eqn:Es0; [done|].
  apply IH in E as (named & given & pos & Ha & Es & Ed & Eps); [|cbn; lia]. positional token. by rewrite Eps, <- app_assoc.
Qed.
(** The target of [Set-Content] among positional arguments: the first that is not empty. *)
Fixpoint first_positional (p : option string) (pos : list string) : option string :=
  match pos with
  | [] => p
  | t :: pos => first_positional (match truthy p with None => Some t | Some _ => p end) pos
  end.
Lemma parse_set_content_reads argv target p saw res :
  parse_set_content argv target p saw = Some res ->
  exists named given pos, cmdlet_args (PATHS ++ ["-value"; "-encoding"]) ["-force"; "-nonewline"] argv named given pos /\
    match option_list target ++ values PATHS named with
    | [] => res = first_positional p pos
    | [x] => res = Some x
    | _ => False
    end.
Proof.
  revert target p saw. induction argv as [argv IH] using argv_induction. intros target p saw E.
  destruct argv as [|token rest]; cbn [parse_set_content] in E.
  { injection E as <-. exists [], [], []. split; [constructor|]. by destruct target. }
  destruct (includes ["-literalpath"; "-path"] (toLowerCase token)) eqn:Ep; fold PATHS in Ep.
  { destruct target, rest as [|v rest]; try discriminate E. apply IH in E as (named & given & pos & Ha & Er); [|cbn; lia].
    exists ((toLowerCase token, v) :: named), given, pos. split; [constructor; [by rewrite includes_app, Ep|done]|].
    rewrite !values_cons. by rewrite Ep. }
  destruct (includes ["-value"; "-encoding"] (toLowerCase token)) eqn:Ev.
  { destruct rest as [|v rest]; [done|]. apply IH in E as (named & given & pos & Ha & Er); [|cbn; lia].
    exists ((toLowerCase token, v) :: named), given, pos. split; [constructor; [by rewrite includes_app, Ev, orb_true_r|done]|].
    rewrite !values_cons. by rewrite Ep. }
  destruct (includes ["-force"; "-nonewline"] (toLowerCase token)) eqn:Ef.
  { apply IH in E as (named & given & pos & Ha & Er); [|cbn; lia]. exists named, (toLowerCase token :: given), pos. split; [by constructor|done]. }
  destruct (startsWith token "-") eqn:Es; [done|].
  destruct (truthy target) as [x|] eqn:Et.
  { apply IH in E as (named & given & pos & Ha & Er); [|cbn; lia]. positional token. destruct target; [|done]. done. }
  destruct (truthy p) as [x|] eqn:Epp; (apply IH in E as (named & given & pos & Ha & Er); [|cbn; lia]); positional token;
    cbn [first_positional]; by rewrite Epp.
Qed.
Lemma first_positional_split p pos operand : truthy p = None -> truthy (first_positional p pos) = Some operand ->
  exists blank contents, pos = blank ++ operand :: contents /\ Forall (eq EmptyString) blank.
Proof.
  revert p. induction pos as [|t pos IH]; intros p Hp H; cbn in H; [congruence|]. rewrite Hp in H.
  destruct (truthy (Some t)) as [y|] eqn:Et.
  - assert (forall l q y, truthy q = Some y -> first_positional q l = q) as Hq.
    { induction l as [|u l IHl]; intros q z Hz; [done|]. cbn. rewrite Hz. by eapply IHl. }
    rewrite (Hq _ _ _ Et) in H. destruct t; [done|]. injection H as <-. by exists [], pos.
  - destruct (IH _ Et H) as (blank & contents & -> & Hb). exists (t :: blank), contents. split; [done|]. constructor; [by destruct t|done].
Qed.
Lemma parse_new_item_reads argv target item t i :
  parse_new_item argv target item = Some (t, i) ->
  exists named given pos, cmdlet_args (PATHS ++ ["-itemtype"; "-value"]) ["-force"] argv named given pos /\
    option_list t = option_list target ++ values PATHS named ++ pos /\
    i = match last (values ["-itemtype"] named) with Some x => Some (toLowerCase x) | None => item end.
Proof.
  revert target item. induction argv as [argv IH] using argv_induction. intros target item E.
  destruct argv as [|token rest]; cbn [parse_new_item] in E.
  { injection E as <- <-. exists [], [], []. split; [constructor|]. by rewrite app_nil_r. }
  destruct (includes ["-literalpath"; "-path"] (toLowerCase token)) eqn:Ep; fold PATHS in Ep.
  { destruct target, rest as [|v rest]; try discriminate E. apply IH in E as (named & given & pos & Ha & Et & Ei); [|cbn; lia].
    assert (includes ["-itemtype"] (toLowerCase token) = false) as En by by apply (includes_disjoint _ _ _ Ep).
    exists ((toLowerCase token, v) :: named), given, pos. split; [constructor; [by rewrite includes_app, Ep|done]|].
    rewrite !values_cons, En. by rewrite Ep. }
  destruct (toLowerCase token =s "-itemtype") eqn:Ety.
  { destruct rest as [|v rest]; [done|]. apply IH in E as (named & given & pos & Ha & Et & Ei); [|cbn; lia].
    apply String.eqb_eq in Ety. exists ((toLowerCase token, v) :: named), given, pos.
    split; [constructor; [by rewrite Ety|done]|]. rewrite !values_cons, Ety.
    split; [exact Et|]. rewrite Ei.
    replace (includes ["-itemtype"] "-itemtype") with true by done. rewrite last_cons. by destruct (last _). }
  destruct (toLowerCase token =s "-value") eqn:Ev.
  { destruct rest as [|v rest]; [done|]. apply IH in E as (named & given & pos & Ha & Et & Ei); [|cbn; lia].
    apply String.eqb_eq in Ev. exists ((toLowerCase token, v) :: named), given, pos.
    split; [constructor; [by rewrite Ev|done]|]. by rewrite !values_cons, Ev. }
  destruct (toLowerCase token =s "-force") eqn:Ef.
  { apply IH in E as (named & given & pos & Ha & Et & Ei); [|cbn; lia]. named_flag "-force". done. }
  destruct (startsWith token "-") eqn:Es; [done|]. destruct target; [done|].
  apply IH in E as (named & given & pos & Ha & Et & Ei); [|cbn; lia]. positional token. split; [|done].
  rewrite Et. apply option_single in Et as [_ [-> ->]%app_nil]. done.
Qed.

(** *** Each authorizer *)
Lemma ask_not_execute : ask input <> Ok Execute.
Proof. done. Qed.

(** What was resolved is fit for what is done with it. *)
Definition fits (t : MutablePath) (fit : string -> AuthorizedPath -> Prop) : Prop := forall a,
  mp_kind t = Some (ap_kind a) -> mp_canonicalPath t = Some (ap_canonicalPath a) -> fit (mp_logicalPath t) a.
Lemma consumed_intro operand t fit :
  authorizeExistingMutablePath glob fs input operand = Ok (Some t) -> fits t fit -> consumed fit operand.
Proof. intros (Hn & Hl & a & Ha & Hk & Hc)%existing_mutable_some Hf. exists (mp_logicalPath t), a. split_and!; auto. Qed.
Lemma fits_whole t :
  (is_directory t = true -> authorizeMutableTree glob fs (ti_workspace input) t = Ok true) -> fits t whole.
Proof.
  intros H a Hk Hc Hd. rewrite Hd in Hk. destruct (tree_safe (ti_workspace input) t (H (bool_decide_eq_true_2 _ Hk))) as (_ & c & Ec & Hs).
  rewrite Hc in Ec. by injection Ec as <-.
Qed.
Lemma fits_alone t : (is_directory t = true -> directory_not_empty fs (mp_canonicalPath t) = Ok false) -> fits t alone.
Proof.
  intros H a Hk Hc Hd. rewrite Hd in Hk. specialize (H (bool_decide_eq_true_2 _ Hk)). unfold directory_not_empty in H.
  rewrite Hc in H. cbn in H. destruct (fs_readdir fs (ap_canonicalPath a)) as [[|]|]; done.
Qed.
Lemma fits_kind t k : mp_kind t = Some k -> fits t (of_kind k).
Proof. intros H a Hk _. unfold of_kind. congruence. Qed.
Lemma is_file_kind t : is_file t = true <-> mp_kind t = Some kind_file.
Proof. apply bool_decide_eq_true. Qed.
Lemma is_directory_kind t : is_directory t = true <-> mp_kind t = Some kind_directory.
Proof. apply bool_decide_eq_true. Qed.
Lemma not_directory_file t a : mp_kind t = Some (ap_kind a) -> is_directory t = false -> mp_kind t = Some kind_file.
Proof. intros E H. apply bool_decide_eq_false in H. rewrite E in *. by destruct (ap_kind a). Qed.
(** A directory that is removed: with its tree, or only when it is empty. *)
Lemma fits_removed t (recurse : bool) :
  (is_directory t = true ->
   (if recurse then authorizeMutableTree glob fs (ti_workspace input) t ≫= fun safeTree : bool => if safeTree then Ok Execute else ask input
    else directory_not_empty fs (mp_canonicalPath t) ≫= fun non_empty : bool => if non_empty then ask input else Ok Execute) = Ok Execute) ->
  fits t (removed recurse).
Proof.
  intros H. destruct recurse; [apply fits_whole|apply fits_alone]; intros Hd; apply H in Hd; apply bind_ok in Hd as ([] & Hd & E); done.
Qed.

Lemma move_like_execute s d copy : authorizeMoveLike glob fs input s d copy = Ok Execute -> moved copy s d.
Proof.
  unfold authorizeMoveLike. intros H. apply bind_ok in H as ([t|] & Ht & H); [|done].
  apply bind_ok in H as ([] & Htree & H); [|done]. cbn [negb] in H. apply bind_ok in H as ([u|] & Hu & H); [|done].
  destruct (is_directory u) eqn:Hud; [done|]. destruct (is_directory t && is_file u) eqn:Htu; [done|].
  destruct (negb copy && _) eqn:Hsame; [done|]. unfold moved. split_and!.
  - eapply consumed_intro; [done|]. apply fits_whole. intros Hd. rewrite Hd in Htree. by destruct (isSubtreeBlocked _ _ _).
  - eapply mutable_target_some; [done|]. intros k Hk. assert (k = kind_file) as ->.
    { destruct k; [done|]. apply bool_decide_eq_false in Hud. congruence. }
    split; [done|]. apply is_file_kind in Hk. rewrite Hk, andb_true_r in Htu. eapply consumed_intro; [done|].
    apply existing_mutable_some in Ht as (_ & _ & a & _ & Ea & _). apply fits_kind. by eapply not_directory_file.
  - intros -> E. cbn in Hsame. apply String.eqb_neq in Hsame. apply Hsame.
    apply existing_mutable_some in Ht as [[E1 _] _]. apply mutable_target_logical in Hu. congruence.
Qed.

Lemma truthy_eq o t : truthy o = Some t -> o = Some t.
Proof. destruct o as [[|c r]|]; intros E; simplify_eq/=; done. Qed.
Lemma truthy_some o t : truthy o = Some t -> option_list o = [t].
Proof. destruct o as [[|c r]|]; intros E; simplify_eq/=; done. Qed.
Lemma remove_execute shell raw argv : is_powershell shell -> toLowerCase raw ∈ ["remove-item"; "ri"; "rm"] ->
  authorizePowerShellRemove glob fs input argv = Ok Execute -> executed_as shell raw argv.
Proof.
  intros Hsh Hraw. unfold authorizePowerShellRemove. intros H. destruct (parse_remove _ _ _) as [[target recurse]|] eqn:E; [|done].
  apply parse_remove_reads in E as (named & given & pos & Ha & Et & Er). destruct (truthy target) as [o|] eqn:Eo; [|done].
  apply truthy_some in Eo. rewrite Eo in Et. apply bind_ok in H as ([t|] & Ht & H); [|done].
  eapply cmdlet_remove; [done|done|exact Ha|symmetry; exact Et|]. eapply consumed_intro; [done|]. cbn in Er. subst recurse.
  apply fits_removed. intros Hd. rewrite Hd in H. cbn [negb] in H. by destruct (isSubtreeBlocked _ _ _).
Qed.
Lemma parseSourceDestination_reads argv s d : parseSourceDestination argv ["-force"] = Some (s, d) ->
  exists named given pos paths places, cmdlet_args (PATHS ++ ["-destination"]) ["-force"] argv named given pos /\
    values PATHS named = paths /\ values ["-destination"] named = places /\
    (paths, places, pos) ∈ [([], [], [s; d]); ([s], [], [d]); ([], [d], [s]); ([s], [d], [])].
Proof.
  unfold parseSourceDestination. destruct (parse_source_destination _ _ _ _ _) as [[[s0 d0] ps]|] eqn:E; [|done].
  apply parse_source_destination_reads in E as (named & given & pos & Ha & Es & Ed & ->). intros H.
  exists named, given, pos, (option_list s0), (option_list d0). split_and!; [done|by rewrite Es|by rewrite Ed|].
  cbn [app] in H. destruct (or_shift s0 pos) as [s1 p1] eqn:E1. destruct (or_shift d0 p1) as [d1 p2] eqn:E2.
  destruct (truthy s1) as [x|] eqn:T1; [|done]. destruct (truthy d1) as [y|] eqn:T2; [|done]. destruct p2; [|done]. injection H as -> ->.
  apply truthy_eq in T1 as ->. apply truthy_eq in T2 as ->.
  destruct s0 as [s0|], pos as [|q pos]; cbn in E1; simplify_eq; destruct d0 as [d0|]; cbn in E2; simplify_eq;
    try (destruct p1; simplify_eq); try (destruct pos; simplify_eq/=); cbn; rewrite !elem_of_cons; auto 6.
Qed.
Lemma move_execute shell raw copy argv : is_powershell shell ->
  (toLowerCase raw, copy) ∈ [("move-item", false); ("mi", false); ("mv", false); ("copy-item", true); ("cpi", true); ("cp", true)] ->
  match parseSourceDestination argv ["-force"] with None => ask input | Some (s, d) => authorizeMoveLike glob fs input s d copy end = Ok Execute ->
  executed_as shell raw argv.
Proof.
  intros Hsh Hraw H. destruct (parseSourceDestination argv _) as [[s d]|] eqn:E; [|done].
  apply parseSourceDestination_reads in E as (named & given & pos & paths & places & Ha & E1 & E2 & Hin).
  eapply cmdlet_move; eauto using move_like_execute.
Qed.
Lemma set_content_execute shell raw argv : is_powershell shell -> toLowerCase raw = "set-content" \/ (toLowerCase raw = "sc" /\ shell = powershell) ->
  authorizePowerShellSetContent glob fs input argv = Ok Execute -> executed_as shell raw argv.
Proof.
  intros Hsh Hraw. unfold authorizePowerShellSetContent. intros H.
  destruct (parse_set_content _ _ _ _) as [target|] eqn:E; [|done].
  apply parse_set_content_reads in E as (named & given & pos & Ha & Et). cbn [option_list app] in Et.
  destruct (truthy target) as [o|] eqn:Eo; [|done]. apply bind_ok in H as ([t|] & Ht & H); [|done].
  destruct (is_directory t) eqn:Hd; [done|]. eapply (cmdlet_set_content _ _ _ named given pos o); [done|done|exact Ha| |].
  - destruct (values PATHS named) as [|x [|]]; [right|left|done].
    + split; [done|]. apply (first_positional_split None); [done|by rewrite <- Et].
    + rewrite Et in Eo. destruct x; [done|]. by injection Eo as ->.
  - eapply mutable_target_some; [done|]. intros [] Hk; [done|]. apply bool_decide_eq_false in Hd. congruence.
Qed.
Lemma new_item_execute shell raw argv : is_powershell shell -> toLowerCase raw ∈ ["new-item"; "ni"] ->
  authorizePowerShellNewItem glob fs input argv = Ok Execute -> executed_as shell raw argv.
Proof.
  intros Hsh Hraw. unfold authorizePowerShellNewItem. intros H. destruct (parse_new_item _ _ _) as [[target item]|] eqn:E; [|done].
  apply parse_new_item_reads in E as (named & given & pos & Ha & Et & Ei). destruct (truthy target) as [o|] eqn:Eo; [|done].
  apply truthy_some in Eo. rewrite Eo in Et. destruct (last (values ["-itemtype"] named)) as [x|] eqn:El; [|by subst item].
  subst item. destruct (item_kind (Some (toLowerCase x))) as [kind|] eqn:Ek; [|done]. apply bind_ok in H as ([t|] & Ht & H); [|done].
  destruct (_ && isSubtreeBlocked _ _ _); [done|]. destruct (bool_decide _) eqn:Hb; [done|]. apply bool_decide_eq_false in Hb.
  eapply (cmdlet_new_item _ _ _ named given pos o x kind); [done|done|exact Ha|symmetry; exact Et|done| |].
  - unfold item_kind in Ek. destruct (String.eqb_spec (toLowerCase x) "file") as [->|]; [injection Ek as <-; by left|].
    destruct (String.eqb_spec (toLowerCase x) "directory") as [->|]; [injection Ek as <-; right; by left|done].
  - eapply mutable_target_some; [done|]. intros k Hk. destruct (decide (k = kind)) as [|Hne]; [done|]. destruct Hb. rewrite Hk.
    split; [done|congruence].
Qed.
Lemma powershell_command command canonical aliases :
  isPowerShellCommand command canonical aliases = true -> command ∈ canonical :: aliases.
Proof. intros [->%String.eqb_eq | H%includes_spec]%orb_true_iff; [by left|by right]. Qed.
Lemma powershell_execute shell raw argv : is_powershell shell -> ti_shell input = shell ->
  authorizePowerShellMutation glob fs input raw argv = Ok Execute -> executed_as shell raw argv.
Proof.
  intros Hsh Es. unfold authorizePowerShellMutation, authorizePowerShellMove, authorizePowerShellCopy. intros H.
  destruct (isPowerShellCommand _ "remove-item" _) eqn:E1; [apply powershell_command in E1; by apply remove_execute|].
  destruct (isPowerShellCommand _ "move-item" _) eqn:E2.
  { apply powershell_command in E2. apply (move_execute _ _ false); [done| |done]. revert E2. rewrite !elem_of_cons, !elem_of_nil. intros [-> | [-> | [-> | []]]]; auto 8. }
  destruct (isPowerShellCommand _ "copy-item" _) eqn:E3.
  { apply powershell_command in E3. apply (move_execute _ _ true); [done| |done]. revert E3. rewrite !elem_of_cons, !elem_of_nil. intros [-> | [-> | [-> | []]]]; auto 8. }
  destruct (_ || _) eqn:E4.
  { apply set_content_execute; [done| |done].
    apply orb_true_iff in E4 as [E4%String.eqb_eq | [E5%bool_decide_eq_true E4%String.eqb_eq]%andb_true_iff]; [by left|right; split; congruence]. }
  destruct (isPowerShellCommand _ "new-item" _) eqn:E5; [|done]. apply powershell_command in E5. by apply new_item_execute.
Qed.

Lemma cmd_execute raw argv :
  authorizeCmdMutation glob fs input (normalizeExecutable raw) argv = Ok Execute -> executed_as cmd raw argv.
Proof.
  unfold authorizeCmdMutation. intros H. destruct (includes ["del"; "erase"] _) eqn:E1.
  { apply includes_spec in E1. destruct (without_option "q" argv) as [|a [|]] eqn:E; try done. destruct (startsWith a "/") eqn:Ea; [done|].
    apply bind_ok in H as ([t|] & Ht & H); [|done]. destruct (is_file t) eqn:Hf; [|done]. apply is_file_kind in Hf.
    apply (cmd_del raw argv a); try done. eapply consumed_intro; [done|]. by apply fits_kind. }
  destruct (includes ["move"; "ren"; "rename"] _) eqn:E2.
  { apply includes_spec in E2. destruct (without_option "y" argv) as [|a [|b []]] eqn:E; try done.
    apply (cmd_move raw false argv a b); [|done|by apply move_like_execute]. revert E2. rewrite !elem_of_cons, !elem_of_nil. intros [-> | [-> | [-> | []]]]; auto 8. }
  destruct (_ =s "copy") eqn:E3.
  { apply String.eqb_eq in E3. destruct (without_option "y" argv) as [|a [|b []]] eqn:E; try done.
    apply (cmd_move raw true argv a b); [|done|by apply move_like_execute]. rewrite E3, !elem_of_cons. auto. }
  destruct (includes ["rd"; "rmdir"] _) eqn:E4; [|done]. apply includes_spec in E4.
  destruct (without_option "q" _) as [|a []] eqn:E; try done. apply bind_ok in H as ([t|] & Ht & H); [|done].
  destruct (is_directory t) eqn:Hd; [|done]. cbn [negb] in H. pose proof Hd as Hk. apply is_directory_kind in Hk.
  apply (cmd_rd raw argv a); [done|done| |]; (eapply consumed_intro; [done|]); [by apply fits_kind|]. by apply fits_removed.
Qed.

Lemma parse_rm_reads argv rec paths rec' paths' : parse_rm argv rec paths = Some (rec', paths') ->
  paths' = paths ++ List.filter (fun t => negb (rm_option t)) argv /\ rec' = rec || existsb recursive_flag argv
  /\ Forall (fun t => rm_option t = true \/ startsWith t "-" = false) argv.
Proof.
  revert rec paths. induction argv as [|token argv IH]; intros rec paths E; cbn [parse_rm] in E.
  { injection E as <- <-. rewrite app_nil_r, orb_false_r. done. }
  cbn [List.filter existsb]. unfold rm_option at 1.
  destruct (recursive_flag token) eqn:Er; cbn [orb negb].
  { destruct (test _ token); [|done]. apply IH in E as (-> & -> & Hf). split_and!; [done|by rewrite orb_true_r|].
    constructor; [left|done]. unfold rm_option. by rewrite Er. }
  destruct ((token =s "-f") || (token =s "--")) eqn:Eo.
  { apply IH in E as (-> & -> & Hf). split_and!; [done|done|]. constructor; [left|done]. unfold rm_option. by rewrite Er, <- orb_assoc, Eo. }
  destruct (startsWith token "-") eqn:Es; [done|]. apply IH in E as (-> & -> & Hf). rewrite <- app_assoc. split_and!; [done|done|].
  constructor; [by right|done].
Qed.
Lemma posix_execute shell raw argv : is_posix shell ->
  authorizePosixMutation glob fs input (normalizeExecutable raw) argv = Ok Execute -> executed_as shell raw argv.
Proof.
  intros Hsh. unfold authorizePosixMutation. intros H. destruct (_ =s "rm") eqn:E1.
  { apply String.eqb_eq in E1. destruct (parse_rm argv false []) as [[recurse [|p []]]|] eqn:E; try done.
    apply parse_rm_reads in E as (Ep & Er & Hf). cbn [app orb] in Ep, Er. apply bind_ok in H as ([t|] & Ht & H); [|done].
    apply (posix_rm shell raw argv p); [done|done|done| |].
    - assert (p ∈ List.filter (fun t => negb (rm_option t)) argv) as [Hp Ho]%list_elem_of_In%filter_In by (rewrite <- Ep; by left).
      eapply Forall_forall in Hf; [|by apply list_elem_of_In]. destruct Hf as [Hf|]; [by rewrite Hf in Ho|done].
    - eapply consumed_intro; [done|]. rewrite <- Er. apply existing_mutable_some in Ht as (_ & _ & a & _ & Ek & _).
      destruct (is_directory t) eqn:Hd; cbn [negb] in H.
      + destruct recurse; [|done]. apply fits_whole. intros _. by apply bind_ok in H as ([] & Hs & H).
      + pose proof (not_directory_file _ _ Ek Hd) as Hk. destruct recurse; [|by apply fits_kind]. apply fits_whole. congruence. }
  destruct (_ =s "rmdir") eqn:E2.
  { apply String.eqb_eq in E2. destruct argv as [|p []]; try done. apply bind_ok in H as ([t|] & Ht & H); [|done].
    destruct (is_directory t) eqn:Hd; [|done]. cbn [negb] in H.
    apply posix_rmdir; [done|done| |]; (eapply consumed_intro; [done|]); [by apply fits_kind, is_directory_kind|by apply (fits_removed t false)]. }
  destruct (includes ["mv"; "cp"] _) eqn:E3; [|done]. apply includes_spec in E3.
  destruct (List.filter _ argv) as [|a [|b []]] eqn:E; try done. destruct (startsWith a "-" || startsWith b "-") eqn:Ed; [done|].
  apply orb_false_iff in Ed as [??]. apply (posix_move shell raw (normalizeExecutable raw =s "cp") argv a b); try done; [|by apply move_like_execute].
  revert E3. rewrite !elem_of_cons, elem_of_nil. intros [-> | [-> | []]]; auto.
Qed.

(** *** git *)
(** A path git reports, relative to the repository: it may be changed, and it is
    no link when it exists; it must exist when [required]. *)
Definition affected_authorized (required : bool) (repo : string) (relative : string) : Prop :=
  exists p, resolveLiteralLogical repo relative false = Some p /\
    mutable_path (ti_workspace input) p /\
    ((exists a, existing glob fs (ti_workspace input) p = Ok a /\
        isSymbolicLink fs (ti_workspace input) p = Ok false) \/
     required = false /\ exists e, exn_has_code FILE_NOT_FOUND e = true /\
       (existing glob fs (ti_workspace input) p = Err e \/ isSymbolicLink fs (ti_workspace input) p = Err e)).
(** Every path that git lists for the pathspecs is authorized. *)
Definition listed (required : bool) (repo : string) (commands : list (list string)) (affected : list string) : Prop :=
  collectGitPaths git (ti_absoluteCwd input) commands = Some affected /\
  forall relative, relative ∈ affected -> affected_authorized required repo relative.
(** A pathspec of [git clean], relative to the working directory: what it names may be
    changed, with its tree; or it, or a part of its tree, does not exist. *)
Definition clean_authorized (pathspec : string) : Prop :=
  exists p, resolveLiteralLogical (ti_logicalCwd input) pathspec false = Some p /\
    ~ blocked_by_policy glob (ti_workspace input) p /\ inside_allowed_root (ti_workspace input) p /\
    writable (ti_workspace input) p /\
    ((exists a, existing glob fs (ti_workspace input) p = Ok a /\
        isSymbolicLink fs (ti_workspace input) p = Ok false /\
        (ap_kind a = kind_directory -> safe_tree (ti_workspace input) (ap_logicalPath a) (ap_canonicalPath a))) \/
     exists e, exn_has_code FILE_NOT_FOUND e = true /\
       (existing glob fs (ti_workspace input) p = Err e \/ isSymbolicLink fs (ti_workspace input) p = Err e \/
        exists a, existing glob fs (ti_workspace input) p = Ok a /\
          authorizeMutableTree glob fs (ti_workspace input)
            (mkMutable (ap_logicalPath a) (Some (ap_kind a)) (Some (ap_canonicalPath a))) = Err e)).
(** The pathspecs of a subcommand without options: all its arguments, after a separator if there is one. *)
Definition pathspecs_of (args pathspecs : list string) : Prop :=
  args = "--" :: pathspecs \/ args = pathspecs /\ forall a, a ∈ args -> startsWith a "-" = false.
(** They are literal and relative; [.] only where it is allowed. *)
Definition literal (dot : bool) (pathspecs : list string) : Prop :=
  pathspecs <> [] /\ forall v, v ∈ pathspecs -> (v = "." /\ dot = true) \/ (v <> "." /\ isLiteralRelativeOperand v = true).
Definition explicit (pathspecs affected : list string) : Prop :=
  forall relative, relative ∈ affected -> relative ∈ replace_char BSL SLASH <$> pathspecs.

Inductive git_executed (repo : string) : list string -> Prop :=
| git_adds first args pathspecs affected :
    toLowerCase first = "add" -> pathspecs_of args pathspecs -> literal true pathspecs ->
    listed false repo [diff_listing pathspecs; others_listing pathspecs] affected ->
    git_executed repo (first :: args)
| git_restores first args pathspecs affected :
    toLowerCase first = "restore" -> "--staged" ∉ args ->
    (forall a, a ∈ args -> a <> "--worktree" /\ startsWith a "--source" = false) ->
    pathspecs_of args pathspecs -> literal false pathspecs ->
    listed false repo [diff_listing pathspecs] affected -> explicit pathspecs affected ->
    git_executed repo (first :: args)
| git_unstages first args pathspecs affected :
    toLowerCase first = "restore" -> "--staged" ∈ args ->
    (forall a, a ∈ args -> a <> "--worktree" /\ startsWith a "--source" = false) ->
    pathspecs_of (List.filter (fun v => negb (v =s "--staged")) args) pathspecs -> literal true pathspecs ->
    listed false repo [cached_listing pathspecs] affected ->
    git_executed repo (first :: args)
| git_resets first flags pathspecs affected :
    toLowerCase first = "reset" -> (forall f, f ∈ flags -> f ∈ ["HEAD"; "--mixed"; "-q"]) -> literal false pathspecs ->
    listed false repo [cached_listing pathspecs] affected -> explicit pathspecs affected ->
    git_executed repo (first :: flags ++ "--" :: pathspecs)
| git_cleans first flags pathspecs affected :
    toLowerCase first = "clean" -> (forall f, f ∈ flags -> clean_flag f = true) ->
    (exists f, f ∈ flags /\ has_char "f"%char f = true) -> literal false pathspecs ->
    listed true repo [others_listing pathspecs] affected -> (forall v, v ∈ pathspecs -> clean_authorized v) ->
    git_executed repo (first :: flags ++ "--" :: pathspecs).

Lemma affected_ok repo required relative :
  authorize_affected glob fs (ti_workspace input) repo required relative = Ok tt ->
  affected_authorized required repo relative.
Proof.
  unfold authorize_affected. intros H.
  destruct (resolveLiteralLogical _ _ _) as [p|] eqn:Hr; [|done].
  apply bind_ok in H as (q & Hw & H). destruct (isSubtreeBlocked _ _ _) eqn:Hs; [done|].
  apply write_authorized_same in Hw as (?&?&?); [|by eapply resolve_canonical].
  exists p. split; [done|]. split; [by split_and!|].
  apply try_catch_ok in H as [H|(e & H & Hc)].
  - apply bind_ok in H as (a & Ha & H). apply bind_ok in H as ([] & Hl & H); [done|]. left. eauto.
  - destruct (negb required && exn_has_code FILE_NOT_FOUND e) eqn:E; [|done].
    apply andb_true_iff in E as [Hreq%negb_true_iff E]. right. split; [done|]. exists e. split; [done|].
    apply bind_err in H as [H|(a & _ & H)]; [by left|].
    apply bind_err in H as [H|([] & _ & H)]; [by right| |done]. injection H as <-. done.
Qed.
Lemma with_affected_execute repo commands required k :
  with_affected glob fs git input repo commands required k = Ok Execute ->
  exists affected, listed required repo commands affected /\ k affected = Ok Execute.
Proof.
  unfold with_affected. intros H. destruct (collectGitPaths _ _ _) as [affected|] eqn:Hc; [|done].
  apply bind_ok in H as ([] & Ha & H). exists affected. split; [|done]. split; [done|].
  unfold authorizeGitAffectedPaths in Ha. rewrite for_each_ok in Ha. intros relative Hin. eapply affected_ok. by apply Ha.
Qed.
Lemma validate_literal pathspecs dot : validateLiteralGitPathspecs pathspecs dot = true -> literal dot pathspecs.
Proof.
  unfold validateLiteralGitPathspecs. intros H. split; [by intros ->|]. intros v Hv.
  assert (forallb (fun v => if v =s "." then dot else isLiteralRelativeOperand v) pathspecs = true) as Hf by by destruct pathspecs.
  eapply forallb_forall in Hf; [|by apply list_elem_of_In]. destruct (String.eqb_spec v "."); [by left|by right].
Qed.
Lemma existsb_no {A} (f : A -> bool) xs x : existsb f xs = false -> x ∈ xs -> f x = false.
Proof. intros H Hx. apply not_true_is_false. intros E. rewrite (proj2 (existsb_exists f xs)) in H; [done|]. exists x. by rewrite <- list_elem_of_In. Qed.
Lemma split_separator_some args before after : split_separator args = Some (before, after) -> args = before ++ "--" :: after.
Proof.
  revert before. induction args as [|a args IH]; intros before H; cbn in H; [done|].
  destruct (String.eqb_spec a "--") as [->|]; [by injection H as <- <-|].
  destruct (split_separator args) as [[b c]|]; [|done]. injection H as <- <-. cbn. f_equal. by apply IH.
Qed.
Lemma parse_pathspecs_some args dot pathspecs : parseGitPathspecs args dot = Some pathspecs -> pathspecs_of args pathspecs /\ literal dot pathspecs.
Proof.
  unfold parseGitPathspecs. destruct (split_separator args) as [[[|b before] after]|] eqn:Es; [|done|].
  - apply split_separator_some in Es. destruct (validateLiteralGitPathspecs after dot) eqn:Ev; [|done]. intros [= <-].
    split; [by left|by apply validate_literal].
  - destruct (existsb _ args) eqn:Ee; [done|]. destruct (validateLiteralGitPathspecs args dot) eqn:Ev; [|done]. intros [= <-].
    split; [right|by apply validate_literal]. split; [done|]. intros a Ha. exact (existsb_no _ _ _ Ee Ha).
Qed.
Lemma explicit_all pathspecs affected : gitAffectedSetIsExplicit pathspecs affected = true -> explicit pathspecs affected.
Proof.
  unfold gitAffectedSetIsExplicit, explicit. intros H relative Hr. destruct affected as [|a l]; [by apply elem_of_nil in Hr|].
  apply includes_spec. eapply forallb_forall in H; [exact H|by apply list_elem_of_In].
Qed.
Lemma clean_pathspecs_ok pathspecs : clean_pathspecs glob fs input pathspecs = Ok true ->
  forall v, v ∈ pathspecs -> clean_authorized v.
Proof.
  induction pathspecs as [|pathspec rest IH]; intros H v Hv; [by apply elem_of_nil in Hv|]. cbn [clean_pathspecs] in H.
  destruct (resolveLiteralLogical _ _ _) as [p|] eqn:Hr; [|done]. apply bind_ok in H as (q & Hw & H).
  apply bind_ok in H as ([] & Hb & H); [|done]. apply elem_of_cons in Hv as [->|Hv]; [|by apply IH].
  apply write_authorized_same in Hw as (?&?&?); [|by eapply resolve_canonical]. exists p. split_and!; try done.
  apply try_catch_ok in Hb as [Hb|(e & Hb & Hc)].
  - left. apply bind_ok in Hb as (a & Ha & Hb). apply bind_ok in Hb as ([] & Hl & Hb); [done|]. exists a. split_and!; try done.
    intros Hk. rewrite Hk in Hb. apply tree_safe in Hb as (_ & c & Ec & Hs). cbn in Ec. by injection Ec as <-.
  - right. destruct (exn_has_code FILE_NOT_FOUND e) eqn:Ee; [|done]. exists e. split; [done|].
    apply bind_err in Hb as [Hb|(a & Ha & Hb)]; [by left|]. apply bind_err in Hb as [Hb|([] & _ & Hb)]; [by right; left|done|].
    right; right. exists a. split; [done|]. by destruct (ap_kind a).
Qed.

Lemma git_restore_execute repo first args : toLowerCase first = "restore" ->
  git_restore glob fs git input repo args = Ok Execute -> git_executed repo (first :: args).
Proof.
  intros Hf H. unfold git_restore in H. destruct (existsb _ args) eqn:Ew; [done|].
  destruct (parseGitPathspecs _ _) as [ps|] eqn:Hp; [|done]. apply parse_pathspecs_some in Hp as [Hps Hl].
  destruct (_ && includes ps ".") eqn:Edot; [done|].
  assert (Hw : forall a, a ∈ args -> a <> "--worktree" /\ startsWith a "--source" = false).
  { intros a Ha. pose proof (existsb_no _ _ _ Ew Ha) as [Hn Hs]%orb_false_iff. split; [by apply String.eqb_neq|done]. }
  destruct (includes args "--staged") eqn:Est; cbn [negb andb] in *; apply with_affected_execute in H as (affected & Ha & H).
  - apply includes_spec in Est. by eapply git_unstages.
  - apply includes_false in Est. destruct (gitAffectedSetIsExplicit ps affected) eqn:Ee; [|done]. apply explicit_all in Ee.
    assert (List.filter (fun v => negb (v =s "--staged")) args = args) as Eargs.
    { clear -Est. induction args as [|a args IH]; [done|]. apply not_elem_of_cons in Est as [Hn Est]. cbn.
      apply not_eq_sym, String.eqb_neq in Hn as ->. cbn. by rewrite IH. }
    rewrite Eargs in Hps. by eapply git_restores.
Qed.
Lemma git_reset_execute repo first args : toLowerCase first = "reset" ->
  git_reset glob fs git input repo args = Ok Execute -> git_executed repo (first :: args).
Proof.
  intros Hf H. unfold git_reset in H. destruct (existsb _ args); [done|].
  destruct (split_separator args) as [[prefix ps]|] eqn:Es; [|done]. apply split_separator_some in Es as ->.
  destruct (existsb _ prefix) eqn:Ep; [done|]. destruct (validateLiteralGitPathspecs ps false) eqn:Hp; [|done].
  apply validate_literal in Hp. apply with_affected_execute in H as (affected & Ha & H).
  destruct (gitAffectedSetIsExplicit ps affected) eqn:Ee; [|done]. apply explicit_all in Ee.
  eapply git_resets; try done. intros f Hin. apply includes_spec. apply negb_false_iff. exact (existsb_no _ _ _ Ep Hin).
Qed.
Lemma git_clean_execute repo first args : toLowerCase first = "clean" ->
  git_clean glob fs git input repo args = Ok Execute -> git_executed repo (first :: args).
Proof.
  intros Hf H. unfold git_clean in H. destruct (split_separator args) as [[flags ps]|] eqn:Es; [|done].
  apply split_separator_some in Es as ->. destruct (_ || _) eqn:Hp; [done|].
  apply orb_false_iff in Hp as [Hp Hv%negb_false_iff%validate_literal]. apply orb_false_iff in Hp as [Hp Hflags].
  apply orb_false_iff in Hp as [Hforce%negb_false_iff _]. apply with_affected_execute in H as (affected & Ha & H).
  apply bind_ok in H as ([] & Hc & H); [|done]. eapply git_cleans; try done.
  - intros f Hin. apply negb_false_iff. exact (existsb_no _ _ _ Hflags Hin).
  - apply existsb_exists in Hforce as (f & Hin%list_elem_of_In & Hc'). by exists f.
  - by apply clean_pathspecs_ok.
Qed.
Lemma git_execute argv :
  authorizeGitMutation glob fs git input argv = Ok Execute ->
  exists repo, resolveGitRepository git input = Ok (Some repo) /\ git_executed repo argv.
Proof.
  unfold authorizeGitMutation. intros H. destruct argv as [|first args]; [done|]. destruct (startsWith first "-"); [done|].
  apply bind_ok in H as ([repo|] & Hrepo & H); [|done]. exists repo. split; [done|].
  destruct (String.eqb_spec (toLowerCase first) "add") as [E|_].
  { unfold git_add in H. destruct (parseGitPathspecs args true) as [ps|] eqn:Hp; [|done].
    apply parse_pathspecs_some in Hp as [??]. apply with_affected_execute in H as (affected & Ha & _). by eapply git_adds. }
  destruct (String.eqb_spec (toLowerCase first) "restore") as [E|_]; [by apply git_restore_execute|].
  destruct (String.eqb_spec (toLowerCase first) "reset") as [E|_]; [by apply git_reset_execute|].
  destruct (String.eqb_spec (toLowerCase first) "clean") as [E|_]; [by apply git_clean_execute|done].
Qed.

(** *** The decision *)
(** A trusted workspace executes without asking only a plain invocation all of whose
    effects it could authorize.  A command other than git is one of the shell's own for removing, moving, copying or
    writing; every argument is an option of it or an operand, and every operand is authorized for what the command does
    with it.  For git it is one of four subcommands, its arguments are options that are allowed and literal pathspecs,
    and every path that git lists for them is authorized. *)
Theorem trusted_execution_authorized :
  authorizeTrustedWorkspaceCommand glob fs git input = Execute ->
  exists raw argv,
    trusted_argv (analyzeSimpleShellCommand (ti_shell input) (ti_command input)) = Some (raw, argv) /\
    (normalizeExecutable raw = "git" /\ isTrustedWindowsGitInvocation (ti_shell input) raw = true /\
       (exists repo, resolveGitRepository git input = Ok (Some repo) /\ git_executed repo argv) \/
     normalizeExecutable raw <> "git" /\ executed_as (ti_shell input) raw argv).
Proof.
  unfold authorizeTrustedWorkspaceCommand. intros H.
  destruct (trusted_argv _) as [[raw argv]|]; [|done]. exists raw, argv. split; [done|].
  destruct (authorize_mutation _ _ _ _ _ _) as [d|e] eqn:E.
  - subst d. unfold authorize_mutation in E.
    destruct (normalizeExecutable raw =s "git") eqn:Hg.
    + left. apply String.eqb_eq in Hg. destruct (isTrustedWindowsGitInvocation _ _); [|done].
      split_and!; try done. by apply git_execute.
    + right. apply String.eqb_neq in Hg. split; [done|].
      destruct (ti_shell input) eqn:Es; [apply powershell_execute..|by apply cmd_execute|apply posix_execute|apply posix_execute];
        unfold is_powershell, is_posix; auto.
  - destruct e as [e|w]; cbn in H; [destruct (includes _ _)|]; done.
Qed.

(** The authorizers answer with an execution or with the question. *)
Definition answers (r : result exn TrustedDecision) : Prop :=
  forall d, r = Ok d -> d = Execute \/ d = confirmation input.

Lemma answers_ask : answers (ask input).
Proof. intros d [= <-]. by right. Qed.
Lemma answers_execute : answers (Ok Execute).
Proof. intros d [= <-]. by left. Qed.
Lemma answers_err e : answers (Err e).
Proof. done. Qed.
Lemma answers_bind {A} (r : result exn A) k : (forall a, answers (k a)) -> answers (r ≫= k).
Proof. intros Hk d H. apply bind_ok in H as (a & _ & H). by eapply Hk. Qed.

Ltac answers_step :=
  first [ apply answers_ask | apply answers_execute | apply answers_err
        | apply answers_bind; intros ?
        | match goal with
          | |- answers (if ?b then _ else _) => destruct b
          | |- answers (match ?x with _ => _ end) => destruct x
          end ].

Lemma move_like_answers s d copy : answers (authorizeMoveLike glob fs input s d copy).
Proof. unfold authorizeMoveLike. repeat answers_step. Qed.

Lemma powershell_answers raw argv : answers (authorizePowerShellMutation glob fs input raw argv).
Proof.
  unfold authorizePowerShellMutation, authorizePowerShellMove, authorizePowerShellCopy,
    authorizePowerShellRemove, authorizePowerShellSetContent, authorizePowerShellNewItem.
  repeat first [apply move_like_answers|answers_step].
Qed.

Lemma cmd_answers executable argv : answers (authorizeCmdMutation glob fs input executable argv).
Proof. unfold authorizeCmdMutation. repeat first [apply move_like_answers|answers_step]. Qed.

Lemma posix_answers executable argv : answers (authorizePosixMutation glob fs input executable argv).
Proof. unfold authorizePosixMutation. repeat first [apply move_like_answers|answers_step]. Qed.

Lemma git_answers argv : answers (authorizeGitMutation glob fs git input argv).
Proof.
  unfold authorizeGitMutation, git_add, git_restore, git_reset, git_clean, with_affected.
  repeat answers_step.
Qed.

Lemma mutation_answers raw argv : answers (authorize_mutation glob fs git input raw argv).
Proof.
  unfold authorize_mutation.
  repeat first [apply git_answers|apply powershell_answers|apply cmd_answers|apply posix_answers|answers_step].
Qed.

(** The authorization always answers: it executes, asks with at least one
    reason, or blocks with the code of a policy violation; every other failure
    (a missing file, an unreadable directory, a failing git) asks. *)
Theorem trusted_decision_codes :
  match authorizeTrustedWorkspaceCommand glob fs git input with
  | Execute => True
  | ConfirmationRequired reasons =>
      reasons = match ti_fallbackReasons input with [] => [TRUSTED_FALLBACK_REASON] | rs => rs end
  | Blocked c _ =>
      c ∈ [BLOCKED_PATH; PATH_OUTSIDE_WORKSPACE; PATH_OUTSIDE_ALLOWED_ROOTS; WRITE_NOT_ALLOWED; INVALID_PATH]
  end.
Proof.
  unfold authorizeTrustedWorkspaceCommand.
  destruct (trusted_argv _) as [[raw argv]|]; [|done].
  destruct (authorize_mutation _ _ _ _ _ _) as [d|e] eqn:E.
  - by apply mutation_answers in E as [->| ->].
  - destruct e as [e|w]; cbn; [|done]. destruct (includes _ _) eqn:Hc; [|done].
    by apply includes_spec in Hc.
Qed.
End Guarantees.

(** ** Concrete executions *)
Module Trial.
Definition no_git (cwd : string) (args : list string) : option (list GitEvent) := None.
(** A repository at the workspace root with one modified file. *)
Definition one_file_git (cwd : string) (args : list string) : option (list GitEvent) :=
  match args with
  | "rev-parse" :: _ => Some [git_data ("/srv/ws" +:+ str1 LF); git_close (Some 0%Z)]
  | "diff" :: _ => Some [git_data ("src/a.ts" +:+ str1 NUL); git_close (Some 0%Z)]
  | _ => Some [git_close (Some 0%Z)]
  end.
Definition input (shell : ShellName) (command : string) : TrustedInput :=
  mkInput (Demo.workspace trusted_workspace) shell command "." "/srv/ws" ["reason"].
Definition run (shell : ShellName) (command : string) : TrustedDecision :=
  authorizeTrustedWorkspaceCommand (P := Demo.posix) Demo.glob Demo.fs one_file_git (input shell command).

Example run_examples :
  run pwsh "Remove-Item src/c.ts" = Execute /\
  run pwsh "Remove-Item -Recurse src/lib" = Execute /\
  run git_bash "rm -rf src/lib" = Execute /\
  run git_bash "rm -rf src" = ConfirmationRequired ["reason"] /\
  run pwsh "Remove-Item ../x" = ConfirmationRequired ["reason"] /\
  run pwsh "Remove-Item docs/x" = Blocked WRITE_NOT_ALLOWED "Path is outside the workspace allowWrites policy." /\
  run pwsh "git add src" = Execute /\
  run git_bash "git add src" = ConfirmationRequired ["reason"].
Proof. vm_compute. done. Qed.

Lemma trusted_execution_authorized_witness :
  run pwsh "git add src" = Execute /\
  exists raw argv,
    trusted_argv (analyzeSimpleShellCommand pwsh "git add src") = Some (raw, argv) /\
    (normalizeExecutable (P := Demo.posix) raw = "git" /\ isTrustedWindowsGitInvocation pwsh raw = true /\
       (exists repo, resolveGitRepository (P := Demo.posix) one_file_git (input pwsh "git add src") = Ok (Some repo) /\
          git_executed (P := Demo.posix) Demo.glob Demo.fs one_file_git (input pwsh "git add src") repo argv) \/
     normalizeExecutable (P := Demo.posix) raw <> "git" /\
       executed_as (P := Demo.posix) Demo.glob Demo.fs (input pwsh "git add src") pwsh raw argv).
Proof.
  assert (run pwsh "git add src" = Execute) as H by (vm_compute; reflexivity).
  split; [exact H|].
  apply (trusted_execution_authorized (P := Demo.posix) (L := posix_laws "/") Demo.glob Demo.fs one_file_git
    (input pwsh "git add src") H).
Defined.

Definition lib : MutablePath := mkMutable "src/lib" (Some kind_directory) (Some "/srv/ws/src/lib").
Lemma mutable_tree_safe_witness :
  authorizeMutableTree (P := Demo.posix) Demo.glob Demo.fs (Demo.workspace standard) lib = Ok true /\
  exists canonical, mp_canonicalPath lib = Some canonical /\
    safe_tree (P := Demo.posix) Demo.glob Demo.fs (Demo.workspace standard) "src/lib" canonical.
Proof.
  assert (authorizeMutableTree (P := Demo.posix) Demo.glob Demo.fs (Demo.workspace standard) lib = Ok true)
    as H by (vm_compute; reflexivity).
  split; [exact H|].
  apply (mutable_tree_safe (P := Demo.posix) Demo.glob Demo.fs (Demo.workspace standard) lib H).
Defined.

(** A double-quoted operand is taken literally, although a POSIX shell expands a
    command substitution inside double quotes. *)
Lemma substitution_is_taken_literally :
  run git_bash ("mv src/a.ts " +:+ str1 DQ +:+ "src/$(id)" +:+ str1 DQ) = Execute.
Proof. by vm_compute. Qed.
End Trial.
