(* ===== verification/Timeouts.v ===== *)
(** Deadlines: packages/mcp-core/src/timeout-policy.ts.

    Times are integers, in milliseconds of the epoch.  The clock is an argument. *)
From S2P Require Import Prelude Errors JsString JsRegex.
Open Scope Z_scope.

Definition QUICK_OPERATION_TIMEOUT_MS : Z := 60000.
Definition MAX_SYNCHRONOUS_OPERATION_TIMEOUT_MS : Z := 300000.
Definition MAX_BACKGROUND_OPERATION_TIMEOUT_MS : Z := 86400000.
Definition COMMAND_TERMINATION_GRACE_MS : Z := 30000.
Definition BACKGROUND_WAIT_COMPLETION_GRACE_MS : Z := 1000.

(** The instants that [toISOString] writes with a four-digit year, the only ones
    [z.iso.datetime] accepts. *)
Definition iso_datetime (t : Z) : bool := (-62167219200000 <=? t) && (t <=? 253402300799999).

(** [operationDeadlineSchema.parse]. *)
Definition deadline_schema (d : OperationDeadline) : bool :=
  (1 <=? requestedTimeoutMs d) && (requestedTimeoutMs d <=? MAX_BACKGROUND_OPERATION_TIMEOUT_MS)
  && (0 <=? effectiveTimeoutMs d) && iso_datetime (deadlineAt d).

Definition createOperationDeadline (requestedTimeout : Z) (upstream : option OperationDeadline) (now : Z) :
    result exn OperationDeadline :=
  let requested := Z.min (Z.max 1 requestedTimeout) MAX_BACKGROUND_OPERATION_TIMEOUT_MS in
  let requestedDeadline := now + requested in
  let deadline :=
    match upstream with
    | Some u => Z.min requestedDeadline (deadlineAt u)
    | None => requestedDeadline
    end in
  let d := mkDeadline (match upstream with Some u => requestedTimeoutMs u | None => requested end)
             (Z.max 0 (deadline - now)) deadline in
  if deadline_schema d then Ok d else Err (Native "ZodError").

Definition remainingOperationTimeMs (deadline : OperationDeadline) (now : Z) : Z :=
  Z.max 0 (deadlineAt deadline - now).

(** *** Redaction *)
(** [value.replace(re, f)] with the [g] flag, where the expression is [a]
    followed by [b]: [f] is given the text of [a] and of [b]. *)
Fixpoint replace_fn_go (fuel : nat) (a b : re) (f : string -> string -> string) (p : pos) : string :=
  match fuel with
  | O => rest p
  | S fuel' =>
      match find_first (fun m => match mtch b m with [] => false | _ => true end) (mtch a p) with
      | Some m =>
          match mtch b m with
          | q :: _ =>
              if (plen q =? plen p)%nat then
                f EmptyString EmptyString +:+
                match rest p with
                | EmptyString => EmptyString
                | String c s => String c (replace_fn_go fuel' a b f (Pos (Some c) s))
                end
              else f (between p m) (between m q) +:+ replace_fn_go fuel' a b f q
          | [] => rest p
          end
      | None =>
          match rest p with
          | EmptyString => EmptyString
          | String c s => String c (replace_fn_go fuel' a b f (Pos (Some c) s))
          end
      end
  end.
Definition replace_fn (a b : re) (f : string -> string -> string) (s : string) : string :=
  replace_fn_go (S (String.length s)) a b f (start_of s).
(** [$1] followed by a text, and a text alone. *)
Definition keep_first (t : string) : string -> string -> string := fun a _ => a +:+ t.
Definition replace_all (r : re) (t : string) : string -> string := replace_g r t.

Definition ident_char : re :=
  Cls (fun c => is_word_char c || (c =c "-"%char)).
Definition digits (n : nat) : re := Rep true 1 (Some n) digit.
Definition octets (n : nat) : re := Rep true n (Some n) (seqs [ch "."%char; digits 3]).
Definition key_words : list re :=
  [liti "token"; liti "secret"; liti "password"].
Definition api_key : re := seqs [liti "api"; opt (oneof "_-"); liti "key"].
Definition access_key : re := seqs [liti "access"; opt (oneof "_-"); liti "key"].
Definition not_space_or (s : string) : re := Cls (fun c => negb (is_space c || has_char c s)).

(** [[^/\s?#]+(?:\.local|\.internal)] and the private address ranges. *)
Definition private_host : re :=
  alts [liti "localhost";
        seqs [lit "127"; octets 3];
        seqs [lit "10"; octets 3];
        seqs [lit "192.168"; octets 2];
        seqs [lit "172."; alts [seqs [ch "1"%char; oneof "6789"]; seqs [ch "2"%char; digit];
                                seqs [ch "3"%char; oneof "01"]]; octets 2];
        seqs [plus (not_space_or "/?#"); Alt (liti ".local") (liti ".internal")]].
Definition https : re := seqs [liti "http"; opt (chi "s"%char); lit "://"].

Definition redactSensitiveText (value : string) : string :=
  let bearer :=
    replace_fn (seqs [WordB; liti "authorization"; star sp; ch ":"%char; star sp; liti "bearer"; plus sp])
      (plus nsp) (keep_first "[REDACTED]") in
  let assignments :=
    replace_fn (seqs [WordB; alts (key_words ++ [liti "passwd"; api_key; access_key]);
                      star sp; oneof ":="; star sp])
      (plus (not_space_or ",;")) (keep_first "[REDACTED]") in
  let parameters :=
    replace_fn (seqs [oneof "?&"; alts (key_words ++ [api_key; access_key]); ch "="%char])
      (plus (not_space_or "&#")) (keep_first "[REDACTED]") in
  let jwt_part := Rep true 10 None ident_char in
  let jwt :=
    replace_all (seqs [WordB; lit "eyJ"; jwt_part; ch "."%char; jwt_part; ch "."%char; jwt_part; WordB])
      "[REDACTED_JWT]" in
  let private_urls :=
    replace_all (seqs [https; private_host; opt (seqs [ch ":"%char; plus digit]);
                       opt (seqs [oneof "/?#"; star nsp])]) "[REDACTED_PRIVATE_URL]" in
  let queries :=
    replace_fn (seqs [https; plus (not_space_or "?#"); ch "?"%char]) (star (not_space_or "#"))
      (fun url _ => default EmptyString (head (split_on "?"%char url)) +:+ "?[REDACTED_QUERY]") in
  let profiles :=
    replace_all (seqs [WordB; Cls (fun c => ((65 <=? char_code c) && (char_code c <=? 90)
                                             || (97 <=? char_code c) && (char_code c <=? 122))%N);
                       lit ":\Users\"; plus (not_space_or "\")]) "%USERPROFILE%" in
  let homes := replace_all (seqs [lit "/home/"; plus (not_space_or "/")]) "%HOME%" in
  let runtime :=
    replace_all (seqs [star nsp; liti ".runtime-private"; opt (seqs [oneof "\/"; star nsp])])
      "[REDACTED_PRIVATE_PATH]" in
  runtime (homes (profiles (queries (private_urls (jwt (parameters (assignments (bearer value)))))))).

Definition sanitizeOperationDiagnostic (value : string) : string :=
  stake 500 (trim (replace_g (plus (Cls (fun c => (c =c CR) || (c =c LF) || (c =c "009"%char)))) " "
                     (redactSensitiveText value))).

(** *** Lifecycles *)
Record Terminal := mkTerminal {
  tm_layer : OperationTerminationLayer;
  tm_reason : OperationTerminalReason;
  tm_diagnostic : option string;
}.

(** [operationLifecycleSchema.parse]. *)
Definition lifecycle_schema (l : OperationLifecycle) : bool :=
  deadline_schema (lc_deadline l) && (0 <=? elapsedMs l)
  && match lc_diagnostic l with
     | Some d => (1 <=? Z.of_nat (String.length d)) && (Z.of_nat (String.length d) <=? 500)
     | None => true
     end
  && bool_decide (terminatedBy l = None <-> lc_reason l = None).

Definition createOperationLifecycle (deadline : OperationDeadline) (startedAt : Z)
    (terminal : option Terminal) (now : Z) : result exn OperationLifecycle :=
  let l := mkLifecycle deadline (Z.max 0 (now - startedAt)) (tm_layer <$> terminal) (tm_reason <$> terminal)
             (match terminal with Some t => sanitizeOperationDiagnostic <$> tm_diagnostic t | None => None end) in
  if lifecycle_schema l then Ok l else Err (Native "ZodError").

Example redact_examples :
  redactSensitiveText "GET https://example.com/a?token=abc done" = "GET https://example.com/a?[REDACTED_QUERY] done" /\
  redactSensitiveText "Authorization: Bearer abc.def x" = "Authorization: Bearer [REDACTED] x" /\
  redactSensitiveText "http://127.0.0.1:80/x and api-key = 12, C:\Users\me\a /home/me/b"
    = "[REDACTED_PRIVATE_URL] and api-key = [REDACTED], %USERPROFILE%\a %HOME%/b".
Proof. vm_compute. done. Qed.

(** A deadline is no later than the caller's and than the request. *)
Lemma deadline_facts requested upstream now d :
  createOperationDeadline requested upstream now = Ok d ->
  (forall u, upstream = Some u -> deadlineAt d <= deadlineAt u) /\
  (0 < requested -> deadlineAt d <= now + requested).
Proof.
  unfold createOperationDeadline, MAX_BACKGROUND_OPERATION_TIMEOUT_MS. intros H.
  destruct (deadline_schema _); [|done]. injection H as <-. cbn [deadlineAt].
  destruct upstream as [u|]; (split; [intros u' Hu; simplify_eq; lia|lia]).
Qed.

(** ** Properties *)
(** A deadline is never later than the caller's and never more than a day
    ahead, whatever was requested; what it grants is the time left until it; and a
    caller's deadline keeps the timeout first requested. *)
Theorem deadline_bounds requested upstream now d :
  createOperationDeadline requested upstream now = Ok d ->
  deadlineAt d <= now + MAX_BACKGROUND_OPERATION_TIMEOUT_MS /\
  (forall u, upstream = Some u -> deadlineAt d <= deadlineAt u /\ requestedTimeoutMs d = requestedTimeoutMs u) /\
  (0 < requested -> deadlineAt d <= now + requested) /\
  effectiveTimeoutMs d = remainingOperationTimeMs d now /\
  0 <= effectiveTimeoutMs d <= MAX_BACKGROUND_OPERATION_TIMEOUT_MS.
Proof.
  unfold createOperationDeadline, MAX_BACKGROUND_OPERATION_TIMEOUT_MS. intros H.
  destruct (deadline_schema _); [|done]. injection H as <-.
  unfold remainingOperationTimeMs. cbn [deadlineAt effectiveTimeoutMs requestedTimeoutMs].
  destruct upstream as [u|]; (split; [lia|]); (split; [naive_solver lia|]); (split; [lia|]); split; lia.
Qed.

Lemma deadline_bounds_witness :
  let u := mkDeadline 60000 30000 1030000 in
  exists d, createOperationDeadline 300000 (Some u) 1000000 = Ok d /\ deadlineAt d <= deadlineAt u.
Proof.
  intros u. exists (mkDeadline 60000 30000 1030000).
  assert (createOperationDeadline 300000 (Some u) 1000000 = Ok (mkDeadline 60000 30000 1030000)) as H
    by (vm_compute; reflexivity).
  split; [exact H|]. by apply (deadline_bounds 300000 (Some u) 1000000 _ H).
Defined.

(** A diagnostic that leaves the process is a single line of at most 500
    characters, whatever the input. *)
Theorem diagnostic_single_line value :
  (String.length (sanitizeOperationDiagnostic value) <= 500)%nat /\
  sexists (fun c => (c =c CR) || (c =c LF) || (c =c "009"%char)) (sanitizeOperationDiagnostic value) = false.
Proof.
  unfold sanitizeOperationDiagnostic. split; [apply slength_stake|].
  apply sexists_stake, sexists_trim. by apply replace_class_gone.
Qed.

(** A deadline is created for every request at a present-day clock. *)
Lemma deadline_created requested upstream now :
  0 <= now <= 253402214399999 ->
  (forall u, upstream = Some u -> deadline_schema u = true) ->
  exists d, createOperationDeadline requested upstream now = Ok d /\ deadline_schema d = true.
Proof.
  intros Hn Hu. unfold createOperationDeadline.
  match goal with |- exists d, (if deadline_schema ?x then _ else _) = _ /\ _ =>
    assert (deadline_schema x = true) as H; [|exists x; by rewrite H] end.
  unfold deadline_schema, iso_datetime, MAX_BACKGROUND_OPERATION_TIMEOUT_MS.
  cbn [requestedTimeoutMs effectiveTimeoutMs deadlineAt].
  destruct upstream as [u|].
  - specialize (Hu u eq_refl). unfold deadline_schema, iso_datetime, MAX_BACKGROUND_OPERATION_TIMEOUT_MS in Hu.
    rewrite !andb_true_iff, !Z.leb_le in *. lia.
  - rewrite !andb_true_iff, !Z.leb_le. lia.
Qed.
