(* ===== verification/CoreContracts.v ===== *)
(** The contracts the parts of the stack share: timeouts and deadlines
    (packages/mcp-core/src/timeout-policy.ts), serialized errors (errors.ts), the names of a policy
    (policy.ts), confirmations of commands (command-confirmation-contracts.ts) and background tasks
    (background-task-contracts.ts), as schemas. *)
From S2P Require Import Prelude Errors JsString Json JsonText Zod Timeouts.
Open Scope string_scope.
Open Scope list_scope.
Open Scope Z_scope.

(** *** Texts *)
(** [/^[class]{n}$/]. *)
Definition exactly (n : Z) (f : ascii -> bool) (s : string) : bool := (Z.of_nat (String.length s) =? n) && sforall f s.
(** [/^[first][rest]*$/]. *)
Definition headed (f g : ascii -> bool) (s : string) : bool :=
  match s with String c t => f c && sforall g t | EmptyString => false end.
Definition lower_letter (c : ascii) : bool := ((97 <=? char_code c) && (char_code c <=? 122))%N.
Definition letter (c : ascii) : bool := lower_letter c || ((65 <=? char_code c) && (char_code c <=? 90))%N.
Definition alphanumeric (c : ascii) : bool := letter c || is_digit c.
(** [[a-f0-9]], and the same with the [i] flag. *)
Definition hex (c : ascii) : bool := is_digit c || ((97 <=? char_code c) && (char_code c <=? 102))%N.
Definition hex_any_case (c : ascii) : bool := hex (lower_char c).
(** [[\u0000-\u001f\u007f]]. *)
Definition control (c : ascii) : bool := ((char_code c <=? 31) || (char_code c =? 127))%N.

Section Contracts.
Context `{JN : JsNumber} `{JI : !JsInteger JN}.

(** *** timeout-policy.ts *)
(** [terminatedBy] and [reason] come together. *)
Definition terminated_with_reason (v : value) : bool :=
  Bool.eqb (given (field "terminatedBy" v)) (given (field "reason" v)).
Definition operationTerminalReasonSchema : schema :=
  ZEnum ["timeout"; "cancelled"; "client_disconnected"; "upstream_timeout"; "process_failed"].
Definition operationTerminationLayerSchema : schema :=
  ZEnum ["chatgpt_tool"; "mcp_server"; "gateway"; "relay"; "workspace_agent"; "executor"; "child_process";
    "http_client"; "http_server"; "websocket"; "proxy"; "background_task_manager"; "external"].
Definition operationDeadlineSchema : schema :=
  ZObject true [
    ("requestedTimeoutMs", ZNumber [Int; AtLeast 1; AtMost MAX_BACKGROUND_OPERATION_TIMEOUT_MS]);
    ("effectiveTimeoutMs", ZNumber [Int; AtLeast 0]);
    ("deadlineAt", ZFormat IsoDatetime)].
Definition operationLifecycleSchema : schema :=
  ZRefine (ZObject true [
    ("requestedTimeoutMs", shape_of operationDeadlineSchema "requestedTimeoutMs");
    ("effectiveTimeoutMs", shape_of operationDeadlineSchema "effectiveTimeoutMs");
    ("deadlineAt", shape_of operationDeadlineSchema "deadlineAt");
    ("elapsedMs", ZNumber [Int; AtLeast 0]);
    ("terminatedBy", ZOptional operationTerminationLayerSchema);
    ("reason", ZOptional operationTerminalReasonSchema);
    ("diagnostic", ZOptional (ZString [MinLength 1; MaxLength 500]))]) terminated_with_reason.
Definition synchronousTimeoutMsSchema : schema :=
  ZDefault (ZNumber [Int; AtLeast 1;
    AtMost MAX_SYNCHRONOUS_OPERATION_TIMEOUT_MS]) (VNumber (of_integer QUICK_OPERATION_TIMEOUT_MS)).
Definition routableCommandTimeoutMsSchema : schema :=
  ZDefault (ZNumber [Int; AtLeast 1;
    AtMost MAX_BACKGROUND_OPERATION_TIMEOUT_MS]) (VNumber (of_integer QUICK_OPERATION_TIMEOUT_MS)).

(** *** errors.ts *)
Definition errorCodes : list string :=
  ["POLICY_INVALID"; "WORKSPACE_NOT_FOUND"; "WORKSPACE_DISABLED"; "PERMISSION_DENIED"; "WRITE_NOT_ALLOWED";
    "SHELL_NOT_ALLOWED"; "SHELL_FAILED"; "SHELL_UNAVAILABLE"; "COMMAND_CONFIRMATION_INVALID"; "INVALID_PATH";
    "PATH_OUTSIDE_WORKSPACE"; "PATH_OUTSIDE_ALLOWED_ROOTS"; "BLOCKED_PATH"; "FILE_NOT_FOUND"; "NOT_A_FILE";
    "NOT_A_DIRECTORY"; "FILE_TOO_LARGE"; "INVALID_UTF8"; "BINARY_FILE"; "LIMIT_EXCEEDED"; "NOT_GIT_REPOSITORY";
    "GIT_ERROR"; "SOURCE_CONTROL_CAPABILITY_DENIED"; "SOURCE_CONTROL_CONFIRMATION_INVALID";
    "SOURCE_CONTROL_IDEMPOTENCY_CONFLICT"; "SOURCE_CONTROL_RECONCILIATION_REQUIRED"; "GIT_HEAD_MISMATCH";
    "GIT_BRANCH_CONFLICT"; "GIT_INDEX_CHANGED"; "GIT_REMOTE_CHANGED"; "GIT_MERGE_NOT_FAST_FORWARD";
    "GIT_PROTECTED_BRANCH"; "AUDIT_FAILED"; "AGENT_UNAVAILABLE"; "AGENT_BUSY"; "AGENT_TIMEOUT";
    "OPERATION_CANCELLED"; "RELAY_PROTOCOL_ERROR"; "IDEMPOTENCY_KEY_CONFLICT"; "EXECUTION_NOT_FOUND";
    "EXECUTION_STATE_INVALID"; "EXECUTION_OUTCOME_UNKNOWN"; "AUTHENTICATION_FAILED"; "BROWSER_WORKER_UNAVAILABLE";
    "BROWSER_WORKER_TIMEOUT"; "BROWSER_DISCONNECTED"; "BROWSER_CONTEXT_RECOVERY_FAILED"; "TASK_SCOPE_REQUIRED";
    "TASK_NOT_FOUND"; "TASK_OWNERSHIP_MISMATCH"; "TASK_SUSPENDED"; "TASK_EXPIRED";
    "SITE_ACCESS_AUTHORIZATION_REQUIRED"; "SITE_ACCESS_GRANT_EXPIRED"; "SITE_NAVIGATION_BLOCKED";
    "SITE_POLICY_NOT_FOUND"; "SITE_PRODUCTION_BLOCKED"; "LOGIN_CREDENTIAL_UNAVAILABLE"; "LOGIN_CREDENTIALS_INVALID";
    "LOGIN_INTERACTION_REQUIRED"; "CREDENTIAL_BROKER_UNAVAILABLE"; "CREDENTIAL_BROKER_PROTOCOL_MISMATCH";
    "CREDENTIAL_BROKER_ACCESS_DENIED"; "BROWSER_CAPABILITY_UNSUPPORTED"; "BROWSER_OPERATION_MODE_UNSUPPORTED";
    "FRAME_NOT_FOUND"; "FRAME_NOT_READY"; "FRAME_CROSS_ORIGIN"; "LOCATOR_NOT_FOUND"; "LOCATOR_AMBIGUOUS";
    "LOCATOR_LOW_CONFIDENCE"; "NAVIGATION_TIMEOUT"; "STATE_NOT_REACHED"; "ACTION_BLOCKED_BY_POLICY";
    "CAPABILITY_UNSUPPORTED"; "TAB_NOT_FOUND"; "STALE_TAB_ID"; "TAB_NOT_OWNED"; "TAB_PROTECTED";
    "NAVIGATION_BLOCKED"; "AUTHENTICATION_REQUIRED"; "CAPTCHA_DETECTED"; "ACTION_REQUIRES_CONFIRMATION";
    "BROWSER_CONFIRMATION_INVALID"; "INVALID_ARGUMENT"; "INTERNAL_ERROR"].
Definition errorDetailsSchema : schema :=
  ZObject true [
    ("path", ZOptional (ZString []));
    ("policyRule", ZOptional (ZString []));
    ("operation", ZOptional (ZString []));
    ("reason", ZOptional (ZString []));
    ("safeAlternative", ZOptional (ZString []));
    ("retryable", ZOptional ZBoolean);
    ("retryAttempted", ZOptional ZBoolean);
    ("outcome", ZOptional (ZEnum ["not_started"; "unknown"]));
    ("connectionGeneration", ZOptional (ZNumber [Int; AtLeast 0]))].

(** *** policy.ts: names and limits *)
Definition supportedShells : list string :=
  ["powershell"; "pwsh"; "cmd"; "wsl"; "git-bash"].
Definition shellNameSchema : schema :=
  ZEnum supportedShells.
Definition permissionProfileSchema : schema :=
  ZEnum ["planning-readonly"; "planning-handoff"; "builder-review"; "restricted-area"; "full-repo-readonly";
    "full-repo-write"].
Definition confirmationModeSchema : schema :=
  ZEnum ["standard"; "trusted-workspace"].
Definition workspaceKindSchema : schema :=
  ZEnum ["repository"; "aggregate"].
Definition workspaceLimitsSchema : schema :=
  ZObject true [
    ("maxFileBytes", ZNumber [Int; AtLeast 1]);
    ("maxSearchResults", ZNumber [Int; AtLeast 1]);
    ("maxSearchSnippetBytes", ZNumber [Int; AtLeast 1]);
    ("maxDiffBytes", ZNumber [Int; AtLeast 1]);
    ("maxListedFiles", ZNumber [Int; AtLeast 1]);
    ("maxDiscoveryDirectories", ZOptional (ZNumber [Int; AtLeast 1]));
    ("maxDiscoveryEntries", ZOptional (ZNumber [Int; AtLeast 1]));
    ("maxDiscoveryDurationMs", ZOptional (ZNumber [Int; AtLeast 1]))].

(** *** command-confirmation-contracts.ts *)
Definition commandConfirmationRequiredResultSchema : schema :=
  ZObject true [
    ("status", ZLiteral (LText "confirmation_required"));
    ("shell", shellNameSchema);
    ("cwd", ZString []);
    ("confirmationId", ZString []);
    ("expiresAt", ZFormat IsoDatetime);
    ("reasons", ZArray (ZString [MinLength 1]) (Some 1%Z) None)].

(** *** background-task-contracts.ts *)
Definition not_blank (s : string) : bool := negb (sempty (trim s)).
Definition some_input (v : value) : bool :=
  match field "input" v with VString s => negb (sempty s) | _ => false end
  || match field "close" v with VBool b => b | _ => false end.
Definition workspaceIdSchema : schema :=
  ZString [Trimmed; MinLength 1].
Definition taskIdSchema : schema :=
  ZFormat Uuid.
Definition BACKGROUND_TASK_STATES : list string :=
  ["starting"; "running"; "succeeded"; "failed"; "cancelled"].
Definition backgroundTaskStateSchema : schema :=
  ZEnum BACKGROUND_TASK_STATES.
Definition backgroundTaskRunResultSchema : schema :=
  ZObject true [
    ("status", ZLiteral (LText "executed"));
    ("shell", shellNameSchema);
    ("cwd", ZString []);
    ("exitCode", ZNullable (ZNumber [Int]));
    ("stdout", ZString []);
    ("stderr", ZString []);
    ("timedOut", ZBoolean);
    ("lifecycle", ZOptional operationLifecycleSchema)].
Definition backgroundTaskRecordSchema : schema :=
  ZObject true [
    ("version", ZLiteral (LInt 1));
    ("id", taskIdSchema);
    ("workspaceId", workspaceIdSchema);
    ("operation", ZString [Trimmed; MinLength 1; MaxLength 128]);
    ("commandHash", ZString [Satisfies (exactly 64 hex)]);
    ("command", ZString [MinLength 1; MaxLength 32000]);
    ("shell", shellNameSchema);
    ("cwd", ZString [MinLength 1]);
    ("state", backgroundTaskStateSchema);
    ("createdAt", ZFormat IsoDatetime);
    ("startedAt", ZOptional (ZFormat IsoDatetime));
    ("completedAt", ZOptional (ZFormat IsoDatetime));
    ("timeoutMs", ZNumber [Int; AtLeast 30000; AtMost MAX_BACKGROUND_OPERATION_TIMEOUT_MS]);
    ("interactive", ZOptional (ZLiteral (LBool true)));
    ("pid", ZOptional (ZNumber [Int; AtLeast 1]));
    ("result", ZOptional backgroundTaskRunResultSchema);
    ("error", ZOptional (ZString []));
    ("lifecycle", ZOptional operationLifecycleSchema)].
Definition startBackgroundTaskInputSchema : schema :=
  ZObject true [
    ("workspaceId", workspaceIdSchema);
    ("operation", ZString [Trimmed; MinLength 1; MaxLength 128]);
    ("command", ZString [MinLength 1; MaxLength 32000; Satisfies not_blank]);
    ("shell", shellNameSchema);
    ("cwd", ZOptional (ZString [Trimmed; MinLength 1]));
    ("confirmationId", ZOptional (ZString [Trimmed; MinLength 1; MaxLength 128]));
    ("interactive", ZDefault ZBoolean (VBool false));
    ("timeoutMs", ZDefault (ZNumber [Int; AtLeast 30000;
      AtMost MAX_BACKGROUND_OPERATION_TIMEOUT_MS]) (VNumber (of_integer 120000)))].
Definition backgroundTaskStartedResultSchema : schema :=
  ZObject true [
    ("status", ZLiteral (LText "background_task_started"));
    ("task", backgroundTaskRecordSchema)].
Definition startBackgroundTaskResultSchema : schema :=
  ZDiscriminated "status" [
    backgroundTaskStartedResultSchema;
    commandConfirmationRequiredResultSchema].
Definition startBackgroundTaskMcpResultSchema : schema :=
  ZObject true [
    ("status", ZEnum ["background_task_started"; "confirmation_required"]);
    ("task", ZOptional backgroundTaskRecordSchema);
    ("shell", ZOptional shellNameSchema);
    ("cwd", ZOptional (ZString []));
    ("confirmationId", ZOptional (ZString []));
    ("expiresAt", ZOptional (ZFormat IsoDatetime));
    ("reasons", ZOptional (ZArray (ZString [MinLength 1]) None None))].
Definition getBackgroundTaskInputSchema : schema :=
  ZObject true [
    ("workspaceId", workspaceIdSchema);
    ("id", taskIdSchema)].
Definition getBackgroundTasksInputSchema : schema :=
  ZObject true [
    ("workspaceId", workspaceIdSchema);
    ("ids", ZArray taskIdSchema (Some 1%Z) (Some 20%Z))].
Definition waitBackgroundTaskInputSchema : schema :=
  ZObject true [
    ("workspaceId", workspaceIdSchema);
    ("id", taskIdSchema);
    ("timeoutMs", synchronousTimeoutMsSchema);
    ("maxBytes", ZDefault (ZNumber [Int; AtLeast 1; AtMost 1000000]) (VNumber (of_integer 100000)))].
Definition waitBackgroundTaskToolInputSchema : schema :=
  ZObject true [
    ("workspaceId", workspaceIdSchema);
    ("id", taskIdSchema);
    ("timeoutMs", ZDefault (ZNumber [Int; AtLeast 1; AtMost 30000]) (VNumber (of_integer 15000)));
    ("maxBytes", ZDefault (ZNumber [Int; AtLeast 1; AtMost 1000000]) (VNumber (of_integer 100000)))].
Definition listBackgroundTasksInputSchema : schema :=
  ZObject true [
    ("workspaceId", workspaceIdSchema);
    ("state", ZOptional backgroundTaskStateSchema)].
Definition cancelBackgroundTaskInputSchema : schema :=
  getBackgroundTaskInputSchema.
Definition readBackgroundTaskLogsInputSchema : schema :=
  ZObject true [
    ("workspaceId", workspaceIdSchema);
    ("id", taskIdSchema);
    ("maxBytes", ZDefault (ZNumber [Int; AtLeast 1; AtMost 1000000]) (VNumber (of_integer 100000)))].
Definition backgroundTaskResultSchema : schema :=
  ZObject true [
    ("task", ZNullable backgroundTaskRecordSchema)].
Definition backgroundTasksResultSchema : schema :=
  ZObject true [
    ("items", ZArray (ZObject true [
      ("id", taskIdSchema);
      ("task", ZNullable backgroundTaskRecordSchema)]) None None)].
Definition backgroundTaskListResultSchema : schema :=
  ZObject true [
    ("tasks", ZArray backgroundTaskRecordSchema None None)].
Definition backgroundTaskLogsResultSchema : schema :=
  ZObject true [
    ("id", taskIdSchema);
    ("stdout", ZString []);
    ("stderr", ZString []);
    ("stdoutBytes", ZNumber [Int; AtLeast 0]);
    ("stderrBytes", ZNumber [Int; AtLeast 0]);
    ("truncated", ZBoolean)].
Definition backgroundTaskLogsLookupResultSchema : schema :=
  ZObject true [
    ("logs", ZNullable backgroundTaskLogsResultSchema)].
Definition writeBackgroundTaskStdinInputSchema : schema :=
  ZRefine (ZObject true [
    ("workspaceId", workspaceIdSchema);
    ("id", taskIdSchema);
    ("input", ZDefault (ZString [MaxLength 64000]) (VString EmptyString));
    ("close", ZDefault ZBoolean (VBool false))]) some_input.
Definition backgroundTaskStdinResultSchema : schema :=
  ZObject true [
    ("task", ZNullable backgroundTaskRecordSchema);
    ("bytesWritten", ZNumber [Int; AtLeast 0]);
    ("stdinClosed", ZBoolean)].
Definition readBackgroundTaskOutputInputSchema : schema :=
  ZObject true [
    ("workspaceId", workspaceIdSchema);
    ("id", taskIdSchema);
    ("stdoutOffset", ZDefault (ZNumber [Int; AtLeast 0]) (VNumber (of_integer 0)));
    ("stderrOffset", ZDefault (ZNumber [Int; AtLeast 0]) (VNumber (of_integer 0)));
    ("maxBytes", ZDefault (ZNumber [Int; AtLeast 4; AtMost 1000000]) (VNumber (of_integer 256000)))].
Definition backgroundTaskOutputChunkSchema : schema :=
  ZObject true [
    ("content", ZString []);
    ("offset", ZNumber [Int; AtLeast 0]);
    ("nextOffset", ZNumber [Int; AtLeast 0]);
    ("totalBytes", ZNumber [Int; AtLeast 0]);
    ("eof", ZBoolean)].
Definition backgroundTaskOutputResultSchema : schema :=
  ZObject true [
    ("task", ZNullable backgroundTaskRecordSchema);
    ("stdout", ZNullable backgroundTaskOutputChunkSchema);
    ("stderr", ZNullable backgroundTaskOutputChunkSchema)].
Definition backgroundTaskWaitResultSchema : schema :=
  ZObject true [
    ("task", ZNullable backgroundTaskRecordSchema);
    ("logs", ZNullable backgroundTaskLogsResultSchema);
    ("timedOut", ZBoolean);
    ("elapsedMs", ZNumber [Int; AtLeast 0])].
End Contracts.
