(* ===== verification/GitContracts.v ===== *)
(** The contracts of source control: packages/mcp-core/src/source-control-contracts.ts, with the policy of a
    workspace (source-control-policy.ts, policy.ts) that is written in them. *)
From S2P Require Import Prelude Errors JsString JsRegex Json JsonText Zod Timeouts CoreContracts.
Open Scope string_scope.
Open Scope list_scope.
Open Scope Z_scope.

(** *** Texts *)
(** The condition of the [superRefine] of [gitBranchSchema]. *)
Definition branch_char (c : ascii) : bool := has_char c "~^:?*[]".
Definition branch_ok (value : string) : bool :=
  negb (sempty (trim value))
  && negb (startsWith value "-")
  && negb (sexists (fun c => is_space c || control c) value)
  && negb ((value =s "@") || startsWith value "/"
           || existsb (fun segment => startsWith segment ".") (split_on "/" value)
           || contains value ".." || contains value "@{" || contains value (str1 BSL)
           || sexists branch_char value || contains value "//" || endsWith value "." || endsWith value "/"
           || existsb (fun segment => endsWith (toLowerCase segment) ".lock") (split_on "/" value)).

Definition normalizeGitPath (value : string) : string :=
  join "/" (List.filter (fun segment => negb (segment =s ".")) (split_on "/" (replace_char BSL SLASH value))).
(** [/^\/?[a-z]:\//iu]. *)
Definition drive_path : re :=
  Seq Bol (Seq (Rep true 0 (Some 1%nat) (ch "/")) (Seq (Cls letter) (Seq (ch ":") (ch "/")))).
(** The condition of the [superRefine] of [gitPathSchema]. *)
Definition git_path_ok (value : string) : bool :=
  let normalized := normalizeGitPath value in
  let segments := split_on "/" normalized in
  negb (sempty normalized || (normalized =s ".") || startsWith normalized "/" || test drive_path normalized
        || startsWith normalized "//" || endsWith normalized "/" || contains normalized "//"
        || existsb (fun segment => segment =s "..") segments
        || existsb (fun segment => toLowerCase segment =s ".git") segments)
  && negb (sexists control normalized).

Definition no_nul (s : string) : bool := negb (has_char NUL s).
Definition remote_char (c : ascii) : bool := alphanumeric c || has_char c "._/-".
Definition remote_ok (s : string) : bool := negb (contains s "..") && negb (startsWith s "-").
(** [/^[a-zA-Z0-9](?:[a-zA-Z0-9-]*[a-zA-Z0-9])?$/u]. *)
Definition owner_name (s : string) : bool :=
  headed alphanumeric (fun c => alphanumeric c || (c =c "-")) s && negb (endsWith s "-").
(** [/^[a-zA-Z0-9._-]+$/u]. *)
Definition repository_char (c : ascii) : bool := alphanumeric c || has_char c "._-".
Definition repository_text (s : string) : bool := headed repository_char repository_char s.
Definition not_dots (s : string) : bool := negb (s =s ".") && negb (s =s "..").
Definition no_control_or_space (s : string) : bool := negb (sexists (fun c => control c || is_space c) s).

Section Contracts.
Context `{JN : JsNumber} `{JI : !JsInteger JN}.

(** The paths are texts, and all different. *)
Definition unique_paths (v : value) : bool := distinct (fun s => s) (items v).
Definition workspaceIdSchema : schema :=
  ZString [Trimmed; MinLength 1].
Definition rootSchema : schema :=
  ZString [Trimmed; MinLength 1; MaxLength 4096].
Definition confirmationIdSchema : schema :=
  ZString [MinLength 1; MaxLength 128].
Definition gitShaSchema : schema :=
  ZString [Satisfies (exactly 40 hex_any_case); Mapped toLowerCase].
Definition gitBranchSchema : schema :=
  ZString [MinLength 1; MaxLength 255; Satisfies branch_ok].
Definition gitPathSchema : schema :=
  ZString [MinLength 1; MaxLength 4096; Satisfies git_path_ok; Mapped normalizeGitPath].
Definition gitPathListSchema : schema :=
  ZRefine (ZArray gitPathSchema (Some 1%Z) (Some 200%Z)) unique_paths.
Definition commitMessageSchema : schema :=
  ZString [Trimmed; MinLength 1; MaxLength 4000; Satisfies no_nul].
Definition gitRemoteSchema : schema :=
  ZString [MinLength 1; MaxLength 255; Satisfies (headed alphanumeric remote_char); Satisfies remote_ok].
Definition githubOwnerSchema : schema :=
  ZString [MinLength 1; MaxLength 100; Satisfies owner_name].
Definition githubRepositoryNameSchema : schema :=
  ZString [MinLength 1; MaxLength 100; Satisfies repository_text; Satisfies not_dots].
(** The condition of the [superRefine] of [githubRepositoryFullNameSchema]. *)
Definition full_name_ok (value : string) : bool :=
  match split_on "/" value with
  | [owner; repository] =>
      match run (fun _ _ => true) githubOwnerSchema (VString owner),
            run (fun _ _ => true) githubRepositoryNameSchema (VString repository) with
      | Some _, Some _ => true
      | _, _ => false
      end
  | _ => false
  end.
Definition githubRepositoryFullNameSchema : schema :=
  ZString [MinLength 3; MaxLength 201; Satisfies full_name_ok].
Definition githubPullRefSchema : schema :=
  ZString [Trimmed; MinLength 1; MaxLength 255; Satisfies no_control_or_space].
Definition githubUrlSchema : schema :=
  ZFormat Url.
Definition githubVisibilitySchema : schema :=
  ZEnum ["private"; "public"; "internal"].
Definition githubPullRequestStateSchema : schema :=
  ZEnum ["open"; "closed"].
Definition githubMergeMethodSchema : schema :=
  ZEnum ["merge"; "squash"].
Definition sourceControlCapabilities : list string :=
  ["git.branch.write"; "git.index.write"; "git.commit.write"; "git.merge.write"; "git.remote.push";
    "github.repository.read"; "github.repository.create"; "github.pull_request.read"; "github.pull_request.create";
    "github.pull_request.merge"].
Definition sourceControlCapabilitySchema : schema :=
  ZEnum sourceControlCapabilities.
Definition sourceControlOperationNameSchema : schema :=
  ZEnum ["git_create_branch"; "git_stage_paths"; "git_unstage_paths"; "git_commit"; "git_merge_branch";
    "git_push_branch"; "github_get_repository"; "github_create_repository"; "github_get_pull_request";
    "github_create_pull_request"; "github_merge_pull_request"].
Definition confirmableSourceControlOperationNameSchema : schema :=
  ZEnum ["git_push_branch"; "github_create_repository"; "github_create_pull_request"; "github_merge_pull_request"].
Definition sourceControlConfirmationRequiredSchema : schema :=
  ZObject true [
    ("status", ZLiteral (LText "confirmation_required"));
    ("confirmationId", confirmationIdSchema);
    ("expiresAt", ZFormat IsoDatetime);
    ("operation", confirmableSourceControlOperationNameSchema);
    ("targetResource", ZString [MinLength 1; MaxLength 512])].
Definition gitCreateBranchInputSchema : schema :=
  ZObject true [
    ("workspaceId", workspaceIdSchema);
    ("root", ZOptional rootSchema);
    ("branch", gitBranchSchema);
    ("expectedHeadSha", gitShaSchema)].
Definition gitCreateBranchResultSchema : schema :=
  ZObject true [
    ("root", rootSchema);
    ("branch", gitBranchSchema);
    ("headSha", gitShaSchema)].
Definition gitStagePathsInputSchema : schema :=
  ZObject true [
    ("workspaceId", workspaceIdSchema);
    ("root", ZOptional rootSchema);
    ("paths", gitPathListSchema)].
Definition gitStagePathsResultSchema : schema :=
  ZObject true [
    ("root", rootSchema);
    ("headSha", gitShaSchema);
    ("indexTreeSha", gitShaSchema);
    ("paths", gitPathListSchema)].
Definition gitUnstagePathsInputSchema : schema :=
  ZObject true [
    ("workspaceId", workspaceIdSchema);
    ("root", ZOptional rootSchema);
    ("paths", gitPathListSchema);
    ("expectedHeadSha", gitShaSchema);
    ("expectedIndexTreeSha", gitShaSchema)].
Definition gitUnstagePathsResultSchema : schema :=
  ZObject true [
    ("root", rootSchema);
    ("headSha", gitShaSchema);
    ("indexTreeSha", gitShaSchema);
    ("paths", gitPathListSchema)].
Definition gitCommitInputSchema : schema :=
  ZObject true [
    ("workspaceId", workspaceIdSchema);
    ("root", ZOptional rootSchema);
    ("message", commitMessageSchema);
    ("expectedHeadSha", gitShaSchema);
    ("expectedIndexTreeSha", gitShaSchema)].
Definition gitCommitResultSchema : schema :=
  ZObject true [
    ("root", rootSchema);
    ("branch", gitBranchSchema);
    ("commitSha", gitShaSchema)].
Definition gitMergeBranchInputSchema : schema :=
  ZObject true [
    ("workspaceId", workspaceIdSchema);
    ("root", ZOptional rootSchema);
    ("sourceBranch", gitBranchSchema);
    ("expectedTargetHeadSha", gitShaSchema);
    ("expectedSourceHeadSha", gitShaSchema)].
Definition gitMergeBranchResultSchema : schema :=
  ZObject true [
    ("root", rootSchema);
    ("branch", gitBranchSchema);
    ("previousHeadSha", gitShaSchema);
    ("headSha", gitShaSchema);
    ("sourceHeadSha", gitShaSchema);
    ("fastForwarded", ZLiteral (LBool true))].
Definition gitPushBranchInputSchema : schema :=
  ZObject true [
    ("workspaceId", workspaceIdSchema);
    ("root", ZOptional rootSchema);
    ("branch", gitBranchSchema);
    ("expectedLocalSha", gitShaSchema);
    ("remote", ZDefault gitRemoteSchema (VString "origin"));
    ("expectedRemoteSha", ZOptional gitShaSchema);
    ("confirmationId", ZOptional confirmationIdSchema)].
Definition gitPushConfirmationRequiredSchema : schema :=
  extend sourceControlConfirmationRequiredSchema [
    ("operation", ZLiteral (LText "git_push_branch"))].
Definition gitPushBranchCompletedResultSchema : schema :=
  ZObject true [
    ("status", ZLiteral (LText "completed"));
    ("root", rootSchema);
    ("remote", gitRemoteSchema);
    ("branch", gitBranchSchema);
    ("localSha", gitShaSchema);
    ("remoteSha", gitShaSchema)].
Definition gitPushBranchResultSchema : schema :=
  ZDiscriminated "status" [
    gitPushConfirmationRequiredSchema;
    gitPushBranchCompletedResultSchema].
Definition githubGetRepositoryInputSchema : schema :=
  ZObject true [
    ("workspaceId", workspaceIdSchema);
    ("root", ZOptional rootSchema);
    ("owner", githubOwnerSchema);
    ("repository", githubRepositoryNameSchema)].
Definition githubRepositoryResultSchema : schema :=
  ZObject true [
    ("owner", githubOwnerSchema);
    ("name", githubRepositoryNameSchema);
    ("fullName", githubRepositoryFullNameSchema);
    ("defaultBranch", gitBranchSchema);
    ("visibility", githubVisibilitySchema);
    ("url", githubUrlSchema)].
Definition githubCreateRepositoryInputSchema : schema :=
  ZObject true [
    ("workspaceId", workspaceIdSchema);
    ("owner", githubOwnerSchema);
    ("name", githubRepositoryNameSchema);
    ("visibility", githubVisibilitySchema);
    ("description", ZOptional (ZString [MaxLength 350]));
    ("confirmationId", ZOptional confirmationIdSchema)].
Definition githubCreateRepositoryConfirmationRequiredSchema : schema :=
  extend sourceControlConfirmationRequiredSchema [
    ("operation", ZLiteral (LText "github_create_repository"))].
Definition githubCreateRepositoryCompletedResultSchema : schema :=
  extend githubRepositoryResultSchema [
    ("status", ZLiteral (LText "completed"))].
Definition githubCreateRepositoryResultSchema : schema :=
  ZDiscriminated "status" [
    githubCreateRepositoryConfirmationRequiredSchema;
    githubCreateRepositoryCompletedResultSchema].
Definition githubGetPullRequestInputSchema : schema :=
  ZObject true [
    ("workspaceId", workspaceIdSchema);
    ("root", ZOptional rootSchema);
    ("owner", githubOwnerSchema);
    ("repository", githubRepositoryNameSchema);
    ("pullNumber", ZNumber [Int; AtLeast 1])].
Definition githubPullRequestResultSchema : schema :=
  ZObject true [
    ("number", ZNumber [Int; AtLeast 1]);
    ("state", githubPullRequestStateSchema);
    ("title", ZString [MinLength 1; MaxLength 256]);
    ("url", githubUrlSchema);
    ("headSha", gitShaSchema);
    ("baseSha", gitShaSchema);
    ("merged", ZBoolean)].
Definition githubCreatePullRequestInputSchema : schema :=
  ZObject true [
    ("workspaceId", workspaceIdSchema);
    ("root", ZOptional rootSchema);
    ("owner", githubOwnerSchema);
    ("repository", githubRepositoryNameSchema);
    ("title", ZString [Trimmed; MinLength 1; MaxLength 256]);
    ("head", githubPullRefSchema);
    ("base", githubPullRefSchema);
    ("body", ZOptional (ZString [MaxLength 65536]));
    ("draft", ZDefault ZBoolean (VBool false));
    ("confirmationId", ZOptional confirmationIdSchema)].
Definition githubCreatePullRequestConfirmationRequiredSchema : schema :=
  extend sourceControlConfirmationRequiredSchema [
    ("operation", ZLiteral (LText "github_create_pull_request"))].
Definition githubCreatePullRequestCompletedResultSchema : schema :=
  extend githubPullRequestResultSchema [
    ("status", ZLiteral (LText "completed"))].
Definition githubCreatePullRequestResultSchema : schema :=
  ZDiscriminated "status" [
    githubCreatePullRequestConfirmationRequiredSchema;
    githubCreatePullRequestCompletedResultSchema].
Definition githubMergePullRequestInputSchema : schema :=
  ZObject true [
    ("workspaceId", workspaceIdSchema);
    ("root", ZOptional rootSchema);
    ("owner", githubOwnerSchema);
    ("repository", githubRepositoryNameSchema);
    ("pullNumber", ZNumber [Int; AtLeast 1]);
    ("expectedPullRequestHeadSha", gitShaSchema);
    ("mergeMethod", githubMergeMethodSchema);
    ("confirmationId", ZOptional confirmationIdSchema)].
Definition githubMergePullRequestConfirmationRequiredSchema : schema :=
  extend sourceControlConfirmationRequiredSchema [
    ("operation", ZLiteral (LText "github_merge_pull_request"))].
Definition githubMergePullRequestCompletedResultSchema : schema :=
  ZObject true [
    ("status", ZLiteral (LText "completed"));
    ("number", ZNumber [Int; AtLeast 1]);
    ("merged", ZBoolean);
    ("mergeSha", gitShaSchema)].
Definition githubMergePullRequestResultSchema : schema :=
  ZDiscriminated "status" [
    githubMergePullRequestConfirmationRequiredSchema;
    githubMergePullRequestCompletedResultSchema].

(** *** source-control-policy.ts *)
(** [addUniqueIssues] of the three lists: entries are compared without case. *)
Definition unique_policy_lists (v : value) : bool :=
  distinct toLowerCase (items (field "capabilities" v)) && distinct toLowerCase (items (field "accountOwners" v))
  && distinct toLowerCase (items (field "additionalRepositories" v)).
Definition sourceControlPolicySchema : schema :=
  ZRefine (ZObject true [
    ("capabilities", ZDefault (ZArray sourceControlCapabilitySchema None None) (VArray []));
    ("accountOwners", ZDefault (ZArray githubOwnerSchema None None) (VArray []));
    ("additionalRepositories", ZDefault (ZArray githubRepositoryFullNameSchema None None) (VArray []))])
      unique_policy_lists.

(** *** policy.ts *)
Definition workspace_id (s : string) : bool := headed alphanumeric (fun c => alphanumeric c || has_char c "._-") s.
Definition trusted_can_write (v : value) : bool :=
  negb (is_text "trusted-workspace" (field "confirmationMode" v) && negb (is_text "full-repo-write" (field "permissionProfile" v))).
Definition refineUniqueWorkspaceIds (v : value) : bool :=
  distinct (fun s => s) (map (field "id") (items (field "workspaces" v))).
Definition workspacePolicySchema : schema :=
  ZRefine (ZObject true [
    ("id", ZString [Trimmed; MinLength 1; Satisfies workspace_id]);
    ("name", ZString [Trimmed; MinLength 1]);
    ("rootPath", ZString [Trimmed; MinLength 1]);
    ("workspaceKind", ZOptional workspaceKindSchema);
    ("enabled", ZDefault ZBoolean (VBool true));
    ("permissionProfile", permissionProfileSchema);
    ("confirmationMode", ZDefault confirmationModeSchema (VString "standard"));
    ("allowedRoots", ZArray (ZString [Trimmed; MinLength 1]) (Some 1%Z) None);
    ("blockedGlobs", ZDefault (ZArray (ZString [Trimmed; MinLength 1]) None None) (VArray []));
    ("limits", workspaceLimitsSchema);
    ("allowWrites", ZDefault (ZArray (ZString [Trimmed; MinLength 1]) None None) (VArray []));
    ("allowShell", ZDefault (ZArray (ZString [Trimmed; MinLength 1]) None None) (VArray []));
    ("allowedShells", ZDefault (ZArray shellNameSchema None None) (VArray [VString "powershell"]));
    ("sourceControl", ZOptional sourceControlPolicySchema)]) trusted_can_write.
Definition loopbackBasePolicySchema : schema :=
  ZRefine (ZObject true [
    ("version", ZLiteral (LInt 1));
    ("workspaces", ZArray workspacePolicySchema None None)]) refineUniqueWorkspaceIds.
Definition policyFileSchema : schema :=
  ZRefine (ZObject true [
    ("version", ZLiteral (LInt 1));
    ("workspaces", ZArray workspacePolicySchema (Some 1%Z) None)]) refineUniqueWorkspaceIds.
End Contracts.

(** *** Normal forms of paths *)
Lemma startsWith_slash c s : startsWith (String c s) "/" = ("/" =c c)%char.
Proof. unfold startsWith. cbn [String.prefix]. destruct (ascii_dec "/" c) as [<-|H]; [by destruct s|]. symmetry. by apply eqc_neq. Qed.
Lemma endsWith_cons c s p : endsWith s p = true -> endsWith (String c s) p = true.
Proof.
  unfold endsWith. intros [H1 H2]%andb_true_iff. apply Nat.leb_le in H1. cbn [String.length].
  rewrite Nat.sub_succ_l by done. cbn [sdrop]. rewrite H2. apply andb_true_iff. split; [|done].
  apply Nat.leb_le. lia.
Qed.

(** An empty part between slashes shows at the ends or as two slashes. *)
Lemma empty_part s : EmptyString ∈ split_on "/" s ->
  sempty s || startsWith s "/" || endsWith s "/" || contains s "//" = true.
Proof.
  assert (H : forall s, (hd (str1 "x") (split_on "/" s) = EmptyString -> sempty s || startsWith s "/" = true)
                        /\ (EmptyString ∈ tl (split_on "/" s) -> endsWith s "/" || contains s "//" = true)).
  { clear s. induction s as [|c s [IH1 IH2]]; [split; [done|]; simpl; intros H; by apply elem_of_nil in H|].
    cbn [split_on]. destruct (c =c "/") eqn:Ec.
    - apply eqc_eq in Ec as ->. split; [intros _; by rewrite startsWith_slash|]. cbn [tl].
      destruct (split_on "/" s) as [|u us] eqn:Es; [intros H; by apply elem_of_nil in H|].
      intros [<-|H]%elem_of_cons.
      + specialize (IH1 eq_refl). destruct s as [|d s]; [done|]. cbn [sempty orb] in IH1.
        rewrite startsWith_slash in IH1. apply eqc_eq in IH1 as <-. apply orb_true_iff. right. cbn [contains].
        assert (startsWith (String "/" (String "/" s)) "//" = true) as -> by (apply startsWith_spec; by exists s). done.
      + specialize (IH2 H). apply orb_true_iff in IH2 as [IH2|IH2]; apply orb_true_iff.
        * left. by apply endsWith_cons.
        * right. cbn [contains]. rewrite IH2. apply orb_true_r.
    - destruct (split_on "/" s) as [|u us]; [split; [done|]; intros H; by apply elem_of_nil in H|].
      cbn [hd tl] in *. split; [done|]. intros H. specialize (IH2 H).
      apply orb_true_iff in IH2 as [IH2|IH2]; apply orb_true_iff.
      + left. by apply endsWith_cons.
      + right. cbn [contains]. rewrite IH2. apply orb_true_r. }
  destruct (H s) as [H1 H2]. destruct (split_on "/" s) as [|u us]; [intros Hin; by apply elem_of_nil in Hin|].
  intros [<-|Hin]%elem_of_cons.
  - by rewrite (H1 eq_refl).
  - specialize (H2 Hin). rewrite <- orb_assoc, H2. apply orb_true_r.
Qed.

Lemma split_member_chars f c s w : w ∈ split_on c s -> sexists f s = false -> sexists f w = false.
Proof.
  revert w. induction s as [|d s IH]; simpl; intros w Hw Hs; [by apply list_elem_of_singleton in Hw as ->|].
  apply orb_false_iff in Hs as [Hd Hs]. destruct (d =c c).
  - apply elem_of_cons in Hw as [->|Hw]; [done|by apply IH].
  - destruct (split_on c s) as [|u us]; [apply list_elem_of_singleton in Hw as ->; simpl; by rewrite Hd|].
    apply elem_of_cons in Hw as [->|Hw]; [|apply IH; [by right|done]]. simpl. rewrite Hd. simpl. apply IH; [left|done].
Qed.
Lemma existsb_false {A} (f : A -> bool) xs x : existsb f xs = false -> x ∈ xs -> f x = false.
Proof.
  intros H Hx. destruct (f x) eqn:E; [|done]. rewrite <- H. symmetry. apply existsb_exists.
  exists x. split; [by apply list_elem_of_In|done].
Qed.

Definition parts (value : string) : list string :=
  List.filter (fun segment => negb (segment =s ".")) (split_on "/" (replace_char BSL SLASH value)).
Lemma parts_plain value x : x ∈ parts value -> has_char "/" x = false /\ has_char BSL x = false /\ x <> ".".
Proof.
  intros [Hin Hx]%list_elem_of_In%filter_In. apply list_elem_of_In in Hin. apply negb_true_iff, String.eqb_neq in Hx.
  split_and!; [by eapply split_on_no_sep| |done]. eapply split_on_member_char; [exact Hin|]. by apply replace_char_gone.
Qed.
Lemma normalized_parts value : parts value <> [] -> split_on "/" (normalizeGitPath value) = parts value.
Proof. intros Hne. apply split_on_join; [done|]. intros x Hx. by apply parts_plain in Hx as [? _]. Qed.
Lemma normalized_no_backslash value : has_char BSL (normalizeGitPath value) = false.
Proof. apply has_char_join; [done|]. intros x Hx. by apply parts_plain in Hx as (_ & ? & _). Qed.

Lemma normalizeGitPath_idem value : normalizeGitPath (normalizeGitPath value) = normalizeGitPath value.
Proof.
  unfold normalizeGitPath at 1. rewrite replace_char_id by apply normalized_no_backslash.
  destruct (parts value) as [|p ps] eqn:E.
  - unfold normalizeGitPath. fold (parts value). by rewrite E.
  - rewrite normalized_parts by by rewrite E. change (normalizeGitPath value) with (join "/" (parts value)). f_equal.
    assert (H : forall xs, (forall x, x ∈ xs -> x <> ".") -> List.filter (fun x => negb (x =s ".")) xs = xs).
    { induction xs as [|x xs IH]; intros H; [done|]. simpl. rewrite IH by (intros y Hy; apply H; by right).
      assert (x =s "." = false) as ->; [|done]. apply String.eqb_neq, H. left. }
    apply H. intros x Hx. by apply parts_plain in Hx as (_ & _ & ?).
Qed.

Lemma joined_length xs f : (String.length (join "/" (List.filter f xs)) <= String.length (join "/" xs))%nat.
Proof.
  assert (Hc : forall x ys, String.length (join "/" (x :: ys)) = match ys with [] => String.length x | _ => String.length x + S (String.length (join "/" ys)) end%nat).
  { intros x [|y ys]; [done|]. rewrite join_cons, !slength_app. cbn. lia. }
  induction xs as [|x xs IH]; [done|]. cbn [List.filter]. rewrite (Hc x xs). destruct (f x).
  - rewrite Hc. destruct xs as [|y ys]; [simpl; lia|]. destruct (List.filter f (y :: ys)); lia.
  - destruct xs; [simpl; lia|lia].
Qed.
Lemma normalized_length value : (String.length (normalizeGitPath value) <= String.length value)%nat.
Proof.
  unfold normalizeGitPath. etrans; [apply joined_length|]. change "/" with (str1 "/"). rewrite join_split_on.
  unfold replace_char. by rewrite slength_smap.
Qed.

Lemma git_path_normalized value : git_path_ok value = true -> git_path_ok (normalizeGitPath value) = true.
Proof. unfold git_path_ok. by rewrite normalizeGitPath_idem. Qed.
Lemma git_path_nonempty value : git_path_ok value = true -> sempty (normalizeGitPath value) = false.
Proof.
  unfold git_path_ok. intros [H _]%andb_true_iff. apply negb_true_iff in H. by repeat apply orb_false_iff in H as [H _].
Qed.
Lemma git_path_steps : steps_stable [MinLength 1; MaxLength 4096; Satisfies git_path_ok; Mapped normalizeGitPath].
Proof.
  apply (map_last_stable normalizeGitPath [MinLength 1; MaxLength 4096; Satisfies git_path_ok]); [done|].
  intros s. cbn [run_steps]. destruct (1 <=? _) eqn:H1; [|done]. destruct (_ <=? 4096) eqn:H2; [|done].
  destruct (git_path_ok s) eqn:H3; [|done]. intros _. split; [|apply normalizeGitPath_idem].
  pose proof (git_path_nonempty s H3) as Hne. pose proof (normalized_length s) as Hlen.
  apply Z.leb_le in H1, H2. rewrite git_path_normalized by done.
  assert (1 <=? Z.of_nat (String.length (normalizeGitPath s)) = true) as ->.
  { apply Z.leb_le. destruct (normalizeGitPath s); [done|]. cbn [String.length]. lia. }
  assert (Z.of_nat (String.length (normalizeGitPath s)) <=? 4096 = true) as -> by (apply Z.leb_le; lia). done.
Qed.

Lemma hex_lower s : exactly 40 hex_any_case s = true -> exactly 40 hex_any_case (toLowerCase s) = true.
Proof.
  unfold exactly, toLowerCase, sforall. rewrite slength_smap. intros [-> H]%andb_true_iff. cbn [andb].
  apply negb_true_iff in H. apply negb_true_iff. induction s as [|c s IH]; [done|]. simpl in *.
  apply orb_false_iff in H as [Hc H]. rewrite (IH H), orb_false_r.
  unfold hex_any_case in *. by rewrite lower_char_idem.
Qed.
Lemma git_sha_steps : steps_stable [Satisfies (exactly 40 hex_any_case); Mapped toLowerCase].
Proof.
  apply (map_last_stable toLowerCase [Satisfies (exactly 40 hex_any_case)]); [done|].
  intros s. cbn [run_steps]. destruct (exactly 40 hex_any_case s) eqn:E; [|done]. intros _.
  by rewrite hex_lower, toLowerCase_idem by done.
Qed.

Section Portable.
Context `{JN : JsNumber} `{JI : !JsInteger JN} {JL : JsIntegerLaws JN JI} (ok : format -> string -> bool).

Lemma distinct_kept f vs : distinct f (map (fun v => default VNull (as_json v)) vs) = distinct f vs.
Proof.
  assert (Ht : forall v, match default VNull (as_json v) with VString s => Some s | _ => None end
                         = match v with VString s => Some s | _ => None end).
  { intros v. destruct v as [| | |n| | | |]; try done. cbn. by destruct (isFinite n). }
  assert (He : forall s vs, existsb (fun v => match v with VString t => f s =s f t | _ => false end)
                                (map (fun v => default VNull (as_json v)) vs)
                            = existsb (fun v => match v with VString t => f s =s f t | _ => false end) vs).
  { intros s. clear vs. induction vs as [|v vs IH]; [done|]. simpl. rewrite IH. f_equal. specialize (Ht v).
    destruct v as [| | |n| | | |], (default VNull (as_json _)); simplify_eq; done. }
  induction vs as [|v vs IH]; [done|]. simpl. specialize (Ht v).
  destruct v as [| | |n|s| | |], (default VNull (as_json _)) eqn:E; simplify_eq; cbn [distinct]; rewrite ?He, ?IH; done.
Qed.
Lemma items_json w w' : as_json w = Some w' -> items w' = map (fun v => default VNull (as_json v)) (items w).
Proof. destruct w as [| | |n| | | |]; simpl; intros [= <-]; try done. by destruct (isFinite n). Qed.
Lemma unique_paths_json : json_test unique_paths.
Proof. intros w w' _ E H. unfold unique_paths in *. rewrite (items_json w w' E). by rewrite distinct_kept. Qed.

Lemma gitShaSchema_portable : portable ok gitShaSchema.
Proof. exact git_sha_steps. Qed.
Lemma gitPathSchema_portable : portable ok gitPathSchema.
Proof. exact git_path_steps. Qed.
Lemma gitPathListSchema_portable : portable ok gitPathListSchema.
Proof.
  apply portable_refine; [|done|apply unique_paths_json]. apply portable_array; [|done]. apply gitPathSchema_portable.
Qed.

(** A git path is accepted only in a form without surprises: it is canonical, at
    most 4096 long, and none of its segments is empty, a dot or two dots or [.git] in
    any case, or contains a slash, a backslash or a control character. *)
Theorem git_path_safe {ZP : Zod} {ZL : ZodLaws ZP} v w :
  zod_parse gitPathSchema v = Some w ->
  exists p, w = VString p /\ normalizeGitPath p = p /\ Z.of_nat (String.length p) <= 4096
    /\ Forall (fun s => s <> EmptyString /\ s <> "." /\ s <> ".." /\ toLowerCase s <> ".git"
                        /\ has_char SLASH s = false /\ has_char BSL s = false /\ sexists control s = false)
         (split_on "/" p).
Proof.
  rewrite parse_run. cbn [gitPathSchema run]. destruct v as [| | | |s| | |]; try done. cbn [run_steps].
  destruct (1 <=? _); [|done]. destruct (_ <=? 4096) eqn:Hl; [|done]. destruct (git_path_ok s) eqn:Hok; [|done].
  intros [= <-]. exists (normalizeGitPath s). apply Z.leb_le in Hl. pose proof (normalized_length s).
  split_and!; [done|apply normalizeGitPath_idem|lia|].
  pose proof (git_path_nonempty s Hok) as Hne. unfold git_path_ok in Hok. apply andb_true_iff in Hok as [Hok Hc].
  apply negb_true_iff in Hok, Hc. rewrite !orb_false_iff in Hok. destruct Hok as ((((((((_ & _) & H1) & _) & _) & H2) & H3) & H4) & H5).
  assert (Hparts : parts s <> []) by (intros E; unfold normalizeGitPath in Hne; fold (parts s) in Hne; by rewrite E in Hne).
  apply Forall_forall. intros x Hx. pose proof Hx as Hx'. rewrite normalized_parts in Hx' by done.
  apply parts_plain in Hx' as (Hs & Hb & Hd). split_and!; try done.
  - intros ->. apply empty_part in Hx. by rewrite Hne, H1, H2, H3 in Hx.
  - intros ->. by apply (existsb_false _ _ _ H4) in Hx.
  - intros E. apply (existsb_false _ _ _ H5) in Hx. by rewrite E in Hx.
  - by eapply split_member_chars.
Qed.
End Portable.

Module Trial.
#[local] Instance any_zod : Zod := run_zod (fun _ _ => true).
Lemma git_path_safe_witness :
  exists p, VString "src/a.ts" = VString (JN := whole_numbers) p /\ normalizeGitPath p = p
    /\ Forall (fun s => s <> "..") (split_on "/" p).
Proof.
  destruct (git_path_safe (VString (String "." (String BSL "src/./a.ts"))) (VString "src/a.ts")) as (p & H1 & H2 & _ & H3);
    [vm_compute; reflexivity|].
  exists p. split_and!; [done..|]. eapply Forall_impl; [exact H3|]. by intros s (_ & _ & ? & _).
Defined.
End Trial.
