(* ===== verification/RelayContracts.v ===== *)
(** The contracts of the relay between the gateway and the agent: packages/mcp-core/src/contracts.ts.

    [relayRequestSchema] has one option for each operation, [relayAgentMessageSchema] is what the agent
    accepts, [relayResponseSchema] and [relayResultSchemas] what the gateway accepts. *)
From S2P Require Import Prelude Errors JsString JsRegex Json JsonText Zod Timeouts CoreContracts GitContracts.
Open Scope string_scope.
Open Scope list_scope.
Open Scope Z_scope.

Section Contracts.
Context `{JN : JsNumber} `{JI : !JsInteger JN}.

(** [endLine === undefined || (startLine !== undefined && endLine >= startLine)]. *)
Definition line_range (v : value) : bool :=
  negb (given (field "endLine" v))
  || given (field "startLine" v) && at_least (field "endLine" v) (field "startLine" v).
Definition paths_given (v : value) : bool :=
  negb (is_text "paths" (field "scope" v) && match items (field "paths" v) with [] => true | _ => false end).
Definition workspaceIdSchema : schema :=
  ZString [Trimmed; MinLength 1].
Definition relativePathSchema : schema :=
  ZString [MinLength 1].
Definition listFilesInputSchema : schema :=
  ZObject true [
    ("workspaceId", workspaceIdSchema);
    ("root", ZOptional relativePathSchema);
    ("glob", ZOptional (ZString [MinLength 1]))].
Definition listWorkspaceRootsInputSchema : schema :=
  ZObject true [
    ("workspaceId", workspaceIdSchema)].
Definition readFileInputSchema : schema :=
  ZRefine (ZObject true [
    ("workspaceId", workspaceIdSchema);
    ("path", relativePathSchema);
    ("startLine", ZOptional (ZNumber [Int; AtLeast 1]));
    ("endLine", ZOptional (ZNumber [Int; AtLeast 1]))]) line_range.
Definition readFilesItemInputSchema : schema :=
  ZRefine (ZObject true [
    ("path", relativePathSchema);
    ("startLine", ZOptional (ZNumber [Int; AtLeast 1]));
    ("endLine", ZOptional (ZNumber [Int; AtLeast 1]))]) line_range.
Definition readFilesInputSchema : schema :=
  ZObject true [
    ("workspaceId", workspaceIdSchema);
    ("items", ZArray readFilesItemInputSchema (Some 1%Z) (Some 20%Z))].
Definition readBinaryFileInputSchema : schema :=
  ZObject true [
    ("workspaceId", workspaceIdSchema);
    ("path", relativePathSchema)].
Definition writeFileInputSchema : schema :=
  ZObject true [
    ("workspaceId", workspaceIdSchema);
    ("path", relativePathSchema);
    ("content", ZString [])].
Definition writeFileResultSchema : schema :=
  ZObject true [
    ("path", ZString []);
    ("sizeBytes", ZNumber [Int; AtLeast 0]);
    ("created", ZBoolean)].
Definition textEncodingSchema : schema :=
  ZEnum ["utf-8"; "utf-16le"; "utf-16be"; "windows-1252"; "latin1"].
Definition lineEndingSchema : schema :=
  ZEnum ["lf"; "crlf"; "cr"; "mixed"; "none"].
Definition patchReplacementSchema : schema :=
  ZObject true [
    ("oldText", ZString [MinLength 1]);
    ("newText", ZString []);
    ("expectedCount", ZDefault (ZNumber [Int; AtLeast 1; AtMost 100]) (VNumber (of_integer 1)))].
Definition patchFileInputSchema : schema :=
  ZObject true [
    ("workspaceId", workspaceIdSchema);
    ("path", relativePathSchema);
    ("expectedSha256", ZString [Satisfies (exactly 64 hex_any_case)]);
    ("replacements", ZArray patchReplacementSchema (Some 1%Z) (Some 20%Z));
    ("dryRun", ZDefault ZBoolean (VBool false))].
Definition patchFileResultSchema : schema :=
  ZObject true [
    ("path", ZString []);
    ("sha256Before", ZString [Satisfies (exactly 64 hex)]);
    ("sha256After", ZString [Satisfies (exactly 64 hex)]);
    ("encoding", textEncodingSchema);
    ("lineEnding", lineEndingSchema);
    ("replacementsApplied", ZNumber [Int; AtLeast 0]);
    ("sizeBytes", ZNumber [Int; AtLeast 0]);
    ("changed", ZBoolean);
    ("dryRun", ZBoolean)].
Definition workspaceValidationNameSchema : schema :=
  ZEnum ["diff-check"; "legacy-format"; "legacy-compat"; "secret-scan"].
Definition workspaceValidationScopeSchema : schema :=
  ZEnum ["changes"; "paths"; "repository"].
Definition runWorkspaceValidationInputSchema : schema :=
  ZRefine (ZObject true [
    ("workspaceId", workspaceIdSchema);
    ("root", ZDefault relativePathSchema (VString "."));
    ("validation", workspaceValidationNameSchema);
    ("scope", ZDefault workspaceValidationScopeSchema (VString "changes"));
    ("paths", ZDefault (ZArray relativePathSchema None (Some 20%Z)) (VArray []));
    ("maxFindings", ZDefault (ZNumber [Int; AtLeast 1; AtMost 200]) (VNumber (of_integer 100)));
    ("timeoutMs", synchronousTimeoutMsSchema)]) paths_given.
Definition workspaceValidationFindingSchema : schema :=
  ZObject true [
    ("ruleId", ZString [MinLength 1]);
    ("severity", ZEnum ["info"; "warning"; "error"]);
    ("message", ZString [MinLength 1]);
    ("path", ZString [MinLength 1]);
    ("line", ZOptional (ZNumber [Int; AtLeast 1]));
    ("column", ZOptional (ZNumber [Int; AtLeast 1]));
    ("source", ZEnum ["git"; "format"; "ast-grep"; "gitleaks"]);
    ("fingerprint", ZOptional (ZString [MinLength 1]))].
Definition workspaceValidationToolSchema : schema :=
  ZObject true [
    ("name", ZString [MinLength 1]);
    ("version", ZOptional (ZString [MinLength 1]));
    ("available", ZBoolean)].
Definition runWorkspaceValidationResultSchema : schema :=
  ZObject true [
    ("workspaceId", ZString [MinLength 1]);
    ("root", ZString [MinLength 1]);
    ("validation", workspaceValidationNameSchema);
    ("scope", workspaceValidationScopeSchema);
    ("executed", ZBoolean);
    ("passed", ZBoolean);
    ("tool", workspaceValidationToolSchema);
    ("filesScanned", ZNumber [Int; AtLeast 0]);
    ("findings", ZArray workspaceValidationFindingSchema None None);
    ("findingsCount", ZNumber [Int; AtLeast 0]);
    ("truncated", ZBoolean);
    ("durationMs", ZNumber [Int; AtLeast 0]);
    ("issues", ZArray (ZString []) None None);
    ("warnings", ZArray (ZString []) None None)].
Definition commandExecutionCommonSchema : schema :=
  ZObject true [
    ("workspaceId", workspaceIdSchema);
    ("cwd", ZOptional relativePathSchema);
    ("timeoutMs", routableCommandTimeoutMsSchema);
    ("confirmationId", ZOptional (ZString [MinLength 1; MaxLength 128]))].
Definition directRunCommandInputSchema : schema :=
  strict (extend commandExecutionCommonSchema [
    ("command", ZString [MinLength 1; MaxLength 32000]);
    ("shell", shellNameSchema)]).
Definition runCommandInputSchema : schema :=
  directRunCommandInputSchema.
Definition runCommandToolInputSchema : schema :=
  runCommandInputSchema.
Definition commandExecutedResultSchema : schema :=
  ZObject true [
    ("status", ZLiteral (LText "executed"));
    ("shell", shellNameSchema);
    ("cwd", ZString []);
    ("exitCode", ZNullable (ZNumber [Int]));
    ("stdout", ZString []);
    ("stderr", ZString []);
    ("timedOut", ZBoolean);
    ("lifecycle", ZOptional operationLifecycleSchema)].
Definition commandBackgroundTaskResultSchema : schema :=
  backgroundTaskStartedResultSchema.
Definition runCommandResultSchema : schema :=
  ZDiscriminated "status" [
    commandExecutedResultSchema;
    commandConfirmationRequiredResultSchema;
    commandBackgroundTaskResultSchema].
Definition commandMcpOutputSchema : schema :=
  ZObject true [
    ("status", ZEnum ["executed"; "confirmation_required"; "background_task_started"]);
    ("shell", ZOptional shellNameSchema);
    ("cwd", ZOptional (ZString []));
    ("exitCode", ZOptional (ZNullable (ZNumber [Int])));
    ("stdout", ZOptional (ZString []));
    ("stderr", ZOptional (ZString []));
    ("timedOut", ZOptional ZBoolean);
    ("lifecycle", ZOptional operationLifecycleSchema);
    ("confirmationId", ZOptional (ZString []));
    ("expiresAt", ZOptional (ZFormat IsoDatetime));
    ("reasons", ZOptional (ZArray (ZString [MinLength 1]) None None));
    ("task", ZOptional backgroundTaskRecordSchema)].
Definition runCommandMcpResultSchema : schema :=
  commandMcpOutputSchema.
Definition searchFilesInputSchema : schema :=
  ZObject true [
    ("workspaceId", workspaceIdSchema);
    ("query", ZString [MinLength 1]);
    ("root", ZOptional relativePathSchema);
    ("glob", ZOptional (ZString [MinLength 1]));
    ("caseSensitive", ZDefault ZBoolean (VBool false))].
Definition searchFilesBatchItemInputSchema : schema :=
  ZObject true [
    ("query", ZString [MinLength 1]);
    ("root", ZOptional relativePathSchema);
    ("glob", ZOptional (ZString [MinLength 1]));
    ("caseSensitive", ZDefault ZBoolean (VBool false))].
Definition searchFilesBatchInputSchema : schema :=
  ZObject true [
    ("workspaceId", workspaceIdSchema);
    ("items", ZArray searchFilesBatchItemInputSchema (Some 1%Z) (Some 8%Z))].
Definition gitDiffModeSchema : schema :=
  ZEnum ["none"; "summary"; "full"].
Definition inspectGitInputSchema : schema :=
  ZObject true [
    ("workspaceId", workspaceIdSchema);
    ("root", ZDefault relativePathSchema (VString "."));
    ("diffMode", ZDefault gitDiffModeSchema (VString "summary"));
    ("paths", ZDefault (ZArray relativePathSchema None (Some 20%Z)) (VArray []));
    ("maxDiffBytes", ZDefault (ZNumber [Int; AtLeast 1; AtMost 1000000]) (VNumber (of_integer 40000)));
    ("timeoutMs", synchronousTimeoutMsSchema)].
Definition getWorkspaceContextInputSchema : schema :=
  ZObject true [
    ("workspaceId", workspaceIdSchema);
    ("root", ZOptional relativePathSchema)].
Definition instructionFileSchema : schema :=
  ZObject true [
    ("name", ZString []);
    ("path", ZString []);
    ("exists", ZLiteral (LBool true))].
Definition skillSummarySchema : schema :=
  ZObject true [
    ("name", ZString []);
    ("skillFilePath", ZString []);
    ("source", ZEnum ["project-cursor"; "project-pi"])].
Definition gitWorktreeHintSchema : schema :=
  ZObject true [
    ("isGitRepository", ZBoolean);
    ("currentBranch", ZOptional (ZString []));
    ("isDirty", ZOptional ZBoolean);
    ("suggestedWorktreeRoot", ZOptional (ZString []))].
Definition getWorkspaceContextResultSchema : schema :=
  ZObject true [
    ("workspaceId", ZString []);
    ("rootPath", ZString []);
    ("instructionFiles", ZArray instructionFileSchema None None);
    ("availableInstructionFiles", ZArray (ZString []) None None);
    ("skills", ZArray skillSummarySchema None None);
    ("git", gitWorktreeHintSchema)].
Definition workspaceSummarySchema : schema :=
  ZObject true [
    ("id", ZString []);
    ("name", ZString []);
    ("workspaceKind", ZOptional workspaceKindSchema);
    ("enabled", ZLiteral (LBool true));
    ("permissionProfile", permissionProfileSchema);
    ("confirmationMode", confirmationModeSchema);
    ("writesEnabled", ZBoolean);
    ("shellsEnabled", ZBoolean);
    ("allowedShells", ZArray shellNameSchema None None)].
Definition listWorkspacesResultSchema : schema :=
  ZArray workspaceSummarySchema None None.
Definition listFilesResultSchema : schema :=
  ZObject true [
    ("files", ZArray (ZString []) None None);
    ("truncated", ZBoolean)].
Definition listWorkspaceRootsResultSchema : schema :=
  ZObject true [
    ("roots", ZArray (ZString []) None None);
    ("truncated", ZBoolean)].
Definition readFileResultSchema : schema :=
  ZObject true [
    ("path", ZString []);
    ("content", ZString []);
    ("startLine", ZNumber [Int]);
    ("endLine", ZNumber [Int]);
    ("totalLines", ZNumber [Int; AtLeast 0]);
    ("sizeBytes", ZNumber [Int; AtLeast 0]);
    ("sha256", ZString [Satisfies (exactly 64 hex)]);
    ("encoding", textEncodingSchema);
    ("lineEnding", lineEndingSchema)].
Definition readFilesItemResultSchema : schema :=
  ZDiscriminated "status" [
    ZObject true [
      ("status", ZLiteral (LText "ok"));
      ("requestedPath", ZString []);
      ("result", readFileResultSchema)];
    ZObject true [
      ("status", ZLiteral (LText "error"));
      ("requestedPath", ZString []);
      ("error", ZObject true [
        ("code", ZEnum errorCodes);
        ("message", ZString [])])]].
Definition readFilesResultSchema : schema :=
  ZObject true [
    ("items", ZArray readFilesItemResultSchema None None)].
Definition readBinaryFileResultSchema : schema :=
  ZObject true [
    ("path", ZString []);
    ("contentBase64", ZString []);
    ("sizeBytes", ZNumber [Int; AtLeast 0]);
    ("sha256", ZString [Satisfies (exactly 64 hex)])].
Definition searchMatchSchema : schema :=
  ZObject true [
    ("path", ZString []);
    ("line", ZNumber [Int; AtLeast 1]);
    ("column", ZNumber [Int; AtLeast 1]);
    ("snippet", ZString [])].
Definition searchFilesResultSchema : schema :=
  ZObject true [
    ("matches", ZArray searchMatchSchema None None);
    ("truncated", ZBoolean);
    ("skippedFiles", ZNumber [Int; AtLeast 0])].
Definition searchFilesBatchItemResultSchema : schema :=
  ZDiscriminated "status" [
    ZObject true [
      ("status", ZLiteral (LText "ok"));
      ("query", ZString []);
      ("result", searchFilesResultSchema)];
    ZObject true [
      ("status", ZLiteral (LText "error"));
      ("query", ZString []);
      ("error", ZObject true [
        ("code", ZEnum errorCodes);
        ("message", ZString [])])]].
Definition searchFilesBatchResultSchema : schema :=
  ZObject true [
    ("items", ZArray searchFilesBatchItemResultSchema None None)].
Definition gitStatusEntrySchema : schema :=
  ZObject true [
    ("path", ZString []);
    ("indexStatus", ZString []);
    ("workTreeStatus", ZString []);
    ("originalPath", ZOptional (ZString []))].
Definition inspectGitResultSchema : schema :=
  ZObject true [
    ("workspaceId", workspaceIdSchema);
    ("root", ZString [MinLength 1]);
    ("branch", ZString [MinLength 1]);
    ("diffMode", gitDiffModeSchema);
    ("status", ZArray gitStatusEntrySchema None None);
    ("staged", ZString []);
    ("unstaged", ZString []);
    ("truncated", ZBoolean)].
Definition operationContextSchema : schema :=
  ZObject true [
    ("correlationId", ZOptional (ZString [MinLength 1; MaxLength 128]));
    ("invocationId", ZOptional (ZString [MinLength 1; MaxLength 128]));
    ("idempotencyKey", ZOptional (ZString [MinLength 1; MaxLength 128]));
    ("ownerScope", ZOptional (ZString [MinLength 1; MaxLength 256]));
    ("deadline", ZOptional operationDeadlineSchema)].
Definition relayOperationContextSchema : schema :=
  pick operationContextSchema ["correlationId"; "invocationId"; "idempotencyKey"; "ownerScope"].
(** The operations by name. *)
Definition sourceControlRelayOperations : list string :=
  ["gitCreateBranch"; "gitStagePaths"; "gitUnstagePaths"; "gitCommit"; "gitMergeBranch"; "gitPushBranch";
    "githubGetRepository"; "githubCreateRepository"; "githubGetPullRequest"; "githubCreatePullRequest";
    "githubMergePullRequest"].
Definition relayOperations : list string :=
  (["listWorkspaces"; "listWorkspaceRoots"; "listFiles"; "readFile"; "readBinaryFile"; "writeFile"; "patchFile";
    "runValidation"; "runCommand"; "searchFiles"; "inspectGit"; "getWorkspaceContext"; "startBackgroundTask";
    "getBackgroundTask"; "waitBackgroundTask"; "listBackgroundTasks"; "cancelBackgroundTask";
    "readBackgroundTaskLogs"; "writeBackgroundTaskStdin";
    "readBackgroundTaskOutput"] ++ sourceControlRelayOperations).
Definition relayOperationSchema : schema :=
  ZEnum relayOperations.
Definition relayRequestBase : list (string * schema) := [
    ("version", ZLiteral (LInt 1));
    ("type", ZLiteral (LText "request"));
    ("requestId", ZFormat Uuid);
    ("deadline", operationDeadlineSchema);
    ("context", ZOptional relayOperationContextSchema)].
Definition relayRequestSchema : schema :=
  ZDiscriminated "operation" [
    ZObject true (relayRequestBase ++ [
      ("operation", ZLiteral (LText "listWorkspaces"));
      ("input", ZObject true [])]);
    ZObject true (relayRequestBase ++ [
      ("operation", ZLiteral (LText "listWorkspaceRoots"));
      ("input", listWorkspaceRootsInputSchema)]);
    ZObject true (relayRequestBase ++ [
      ("operation", ZLiteral (LText "listFiles"));
      ("input", listFilesInputSchema)]);
    ZObject true (relayRequestBase ++ [
      ("operation", ZLiteral (LText "readFile"));
      ("input", readFileInputSchema)]);
    ZObject true (relayRequestBase ++ [
      ("operation", ZLiteral (LText "readBinaryFile"));
      ("input", readBinaryFileInputSchema)]);
    ZObject true (relayRequestBase ++ [
      ("operation", ZLiteral (LText "writeFile"));
      ("input", writeFileInputSchema)]);
    ZObject true (relayRequestBase ++ [
      ("operation", ZLiteral (LText "patchFile"));
      ("input", patchFileInputSchema)]);
    ZObject true (relayRequestBase ++ [
      ("operation", ZLiteral (LText "runValidation"));
      ("input", runWorkspaceValidationInputSchema)]);
    ZObject true (relayRequestBase ++ [
      ("operation", ZLiteral (LText "runCommand"));
      ("input", runCommandInputSchema)]);
    ZObject true (relayRequestBase ++ [
      ("operation", ZLiteral (LText "searchFiles"));
      ("input", searchFilesInputSchema)]);
    ZObject true (relayRequestBase ++ [
      ("operation", ZLiteral (LText "inspectGit"));
      ("input", inspectGitInputSchema)]);
    ZObject true (relayRequestBase ++ [
      ("operation", ZLiteral (LText "getWorkspaceContext"));
      ("input", getWorkspaceContextInputSchema)]);
    ZObject true (relayRequestBase ++ [
      ("operation", ZLiteral (LText "startBackgroundTask"));
      ("input", startBackgroundTaskInputSchema)]);
    ZObject true (relayRequestBase ++ [
      ("operation", ZLiteral (LText "getBackgroundTask"));
      ("input", getBackgroundTaskInputSchema)]);
    ZObject true (relayRequestBase ++ [
      ("operation", ZLiteral (LText "waitBackgroundTask"));
      ("input", waitBackgroundTaskInputSchema)]);
    ZObject true (relayRequestBase ++ [
      ("operation", ZLiteral (LText "listBackgroundTasks"));
      ("input", listBackgroundTasksInputSchema)]);
    ZObject true (relayRequestBase ++ [
      ("operation", ZLiteral (LText "cancelBackgroundTask"));
      ("input", cancelBackgroundTaskInputSchema)]);
    ZObject true (relayRequestBase ++ [
      ("operation", ZLiteral (LText "readBackgroundTaskLogs"));
      ("input", readBackgroundTaskLogsInputSchema)]);
    ZObject true (relayRequestBase ++ [
      ("operation", ZLiteral (LText "writeBackgroundTaskStdin"));
      ("input", writeBackgroundTaskStdinInputSchema)]);
    ZObject true (relayRequestBase ++ [
      ("operation", ZLiteral (LText "readBackgroundTaskOutput"));
      ("input", readBackgroundTaskOutputInputSchema)]);
    ZObject true (relayRequestBase ++ [
      ("operation", ZLiteral (LText "gitCreateBranch"));
      ("input", gitCreateBranchInputSchema)]);
    ZObject true (relayRequestBase ++ [
      ("operation", ZLiteral (LText "gitStagePaths"));
      ("input", gitStagePathsInputSchema)]);
    ZObject true (relayRequestBase ++ [
      ("operation", ZLiteral (LText "gitUnstagePaths"));
      ("input", gitUnstagePathsInputSchema)]);
    ZObject true (relayRequestBase ++ [
      ("operation", ZLiteral (LText "gitCommit"));
      ("input", gitCommitInputSchema)]);
    ZObject true (relayRequestBase ++ [
      ("operation", ZLiteral (LText "gitMergeBranch"));
      ("input", gitMergeBranchInputSchema)]);
    ZObject true (relayRequestBase ++ [
      ("operation", ZLiteral (LText "gitPushBranch"));
      ("input", gitPushBranchInputSchema)]);
    ZObject true (relayRequestBase ++ [
      ("operation", ZLiteral (LText "githubGetRepository"));
      ("input", githubGetRepositoryInputSchema)]);
    ZObject true (relayRequestBase ++ [
      ("operation", ZLiteral (LText "githubCreateRepository"));
      ("input", githubCreateRepositoryInputSchema)]);
    ZObject true (relayRequestBase ++ [
      ("operation", ZLiteral (LText "githubGetPullRequest"));
      ("input", githubGetPullRequestInputSchema)]);
    ZObject true (relayRequestBase ++ [
      ("operation", ZLiteral (LText "githubCreatePullRequest"));
      ("input", githubCreatePullRequestInputSchema)]);
    ZObject true (relayRequestBase ++ [
      ("operation", ZLiteral (LText "githubMergePullRequest"));
      ("input", githubMergePullRequestInputSchema)])].
Definition relayCancellationSchema : schema :=
  ZObject true [
    ("version", ZLiteral (LInt 1));
    ("type", ZLiteral (LText "cancel"));
    ("requestId", ZFormat Uuid);
    ("reason", ZEnum ["cancelled"; "client_disconnected"; "upstream_timeout"])].
Definition relayAgentMessageSchema : schema :=
  ZUnion [relayRequestSchema; relayCancellationSchema].
Definition serializedErrorSchema : schema :=
  ZObject true [
    ("code", ZEnum errorCodes);
    ("message", ZString []);
    ("lifecycle", ZOptional operationLifecycleSchema);
    ("details", ZOptional errorDetailsSchema)].
Definition relayResponseSchema : schema :=
  ZDiscriminated "ok" [
    ZObject true [
      ("version", ZLiteral (LInt 1));
      ("type", ZLiteral (LText "response"));
      ("requestId", ZFormat Uuid);
      ("ok", ZLiteral (LBool true));
      ("result", ZUnknown)];
    ZObject true [
      ("version", ZLiteral (LInt 1));
      ("type", ZLiteral (LText "response"));
      ("requestId", ZFormat Uuid);
      ("ok", ZLiteral (LBool false));
      ("error", serializedErrorSchema)]].
Definition agentHelloSchema : schema :=
  ZObject true [
    ("version", ZLiteral (LInt 1));
    ("type", ZLiteral (LText "hello"));
    ("agentId", ZString [MinLength 1; MaxLength 128]);
    ("capabilities", ZArray (ZString [MinLength 1; MaxLength 64]) (Some 1%Z) None)].
Definition relayResultSchemas : list (string * schema) := [
    ("listWorkspaces", listWorkspacesResultSchema);
    ("listWorkspaceRoots", listWorkspaceRootsResultSchema);
    ("listFiles", listFilesResultSchema);
    ("readFile", readFileResultSchema);
    ("readBinaryFile", readBinaryFileResultSchema);
    ("writeFile", writeFileResultSchema);
    ("patchFile", patchFileResultSchema);
    ("runValidation", runWorkspaceValidationResultSchema);
    ("runCommand", runCommandResultSchema);
    ("searchFiles", searchFilesResultSchema);
    ("inspectGit", inspectGitResultSchema);
    ("getWorkspaceContext", getWorkspaceContextResultSchema);
    ("startBackgroundTask", startBackgroundTaskResultSchema);
    ("getBackgroundTask", backgroundTaskResultSchema);
    ("waitBackgroundTask", backgroundTaskWaitResultSchema);
    ("listBackgroundTasks", backgroundTaskListResultSchema);
    ("cancelBackgroundTask", backgroundTaskResultSchema);
    ("readBackgroundTaskLogs", backgroundTaskLogsLookupResultSchema);
    ("writeBackgroundTaskStdin", backgroundTaskStdinResultSchema);
    ("readBackgroundTaskOutput", backgroundTaskOutputResultSchema);
    ("gitCreateBranch", gitCreateBranchResultSchema);
    ("gitStagePaths", gitStagePathsResultSchema);
    ("gitUnstagePaths", gitUnstagePathsResultSchema);
    ("gitCommit", gitCommitResultSchema);
    ("gitMergeBranch", gitMergeBranchResultSchema);
    ("gitPushBranch", gitPushBranchResultSchema);
    ("githubGetRepository", githubRepositoryResultSchema);
    ("githubCreateRepository", githubCreateRepositoryResultSchema);
    ("githubGetPullRequest", githubPullRequestResultSchema);
    ("githubCreatePullRequest", githubCreatePullRequestResultSchema);
    ("githubMergePullRequest", githubMergePullRequestResultSchema)].
End Contracts.

(** *** What JSON keeps of the values that refinements look at *)
Section Portable.
Context `{JN : JsNumber} `{JI : !JsInteger JN} {JL : JsIntegerLaws JN JI} (ok : format -> string -> bool).

Lemma line_range_json : json_test line_range.
Proof.
  intros w w' Hw E. unfold line_range.
  destruct (field_json "endLine" w w' Hw E) as [-> H1], (field_json "startLine" w w' Hw E) as [-> H2].
  by rewrite !given_kept, at_least_kept.
Qed.
Lemma paths_given_json : json_test paths_given.
Proof.
  intros w w' Hw E. unfold paths_given.
  destruct (field_json "scope" w w' Hw E) as [-> _], (field_json "paths" w w' Hw E) as [-> _]. rewrite text_kept.
  destruct (field "paths" w) as [| | |n| |[|v vs]| |]; try done. unfold kept. cbn. by destruct (isFinite n).
Qed.
Lemma some_input_json : json_test some_input.
Proof.
  intros w w' Hw E. unfold some_input.
  destruct (field_json "input" w w' Hw E) as [-> _], (field_json "close" w w' Hw E) as [-> _].
  destruct (field "input" w) as [| | |n| | | |], (field "close" w) as [| | |m| | | |]; try done;
    unfold kept; cbn; try destruct (isFinite n); try destruct (isFinite m); try done.
Qed.

#[local] Hint Resolve gitShaSchema_portable gitPathListSchema_portable : portable.
Lemma operationDeadlineSchema_portable : portable ok operationDeadlineSchema.
Proof. portable. Qed.
#[local] Hint Resolve operationDeadlineSchema_portable : portable.
Lemma relayOperationContextSchema_portable : portable ok relayOperationContextSchema.
Proof. portable. Qed.
#[local] Hint Resolve relayOperationContextSchema_portable : portable.

#[local] Hint Resolve line_range_json paths_given_json some_input_json : portable.
Lemma relayRequestSchema_portable : portable ok relayRequestSchema.
Proof. unfold relayRequestSchema. apply portable_discriminated. portable; auto with portable. Qed.
Lemma relayCancellationSchema_portable : portable ok relayCancellationSchema.
Proof. portable. Qed.

(** A cancellation is no request: it has no operation. *)
Lemma cancellation_no_request v w w' :
  run ok relayCancellationSchema v = Some w -> as_json w = Some w' -> run ok relayRequestSchema w' = None.
Proof.
  intros (p & es & ws & -> & -> & E & _)%object_parsed [= <-]. fold (read_entries ws). unfold relayRequestSchema. cbn [run].
  assert (own_value "operation" (read_entries ws) = VUndefined) as ->; [|reflexivity].
  unfold own_value. assert (own "operation" (read_entries ws) = None) as ->; [|done]. apply own_none.
  intros Hk%read_entries_keys. apply (shape_keys _ _ _ _ E) in Hk. revert Hk. clear.
  assert (H : bool_decide ("operation" ∈ ["version"; "type"; "requestId"; "reason"]) = false) by by vm_compute.
  by apply bool_decide_eq_false in H.
Qed.
Lemma relayAgentMessageSchema_portable : portable ok relayAgentMessageSchema.
Proof.
  refine (conj (conj relayRequestSchema_portable (conj relayCancellationSchema_portable I)) (conj eq_refl _)).
  intros before s after v w w' Hs Er Ej. destruct before as [|s1 [|s2 [|]]]; [done| |done..].
  injection Hs as <- <- _. cbn [parse_first]. by rewrite (cancellation_no_request v w w' Er Ej).
Qed.

(** What the agent accepts of a message is what the gateway parsed. *)
Lemma message_received s v w w' :
  s = relayRequestSchema \/ s = relayCancellationSchema -> run ok s v = Some w -> as_json w = Some w' ->
  run ok relayAgentMessageSchema w' = Some w'.
Proof.
  intros Hs E Ej. change (run ok relayAgentMessageSchema w')
    with (parse_first (run ok) [relayRequestSchema; relayCancellationSchema] w'). cbn [parse_first].
  destruct Hs as [-> | ->].
  - destruct (portable_arrives ok _ relayRequestSchema_portable v w E) as [_ H]. rewrite Ej in H. by rewrite H.
  - destruct (portable_arrives ok _ relayCancellationSchema_portable v w E) as [_ H]. rewrite Ej in H.
    by rewrite (cancellation_no_request v w w' E Ej), H.
Qed.
End Portable.

(** *** Requests and their operations *)
Section Requests.
Context `{JN : JsNumber} `{JI : !JsInteger JN}.

(** An option of the request schema. *)
Definition relay_option (e : string * schema) : schema :=
  ZObject true (relayRequestBase ++ [("operation", ZLiteral (LText e.1)); ("input", e.2)]).
(** The input schema of each operation. *)
Definition relayInputSchemas : list (string * schema) := [
   ("listWorkspaces", ZObject true []);
   ("listWorkspaceRoots", listWorkspaceRootsInputSchema);
   ("listFiles", listFilesInputSchema);
   ("readFile", readFileInputSchema);
   ("readBinaryFile", readBinaryFileInputSchema);
   ("writeFile", writeFileInputSchema);
   ("patchFile", patchFileInputSchema);
   ("runValidation", runWorkspaceValidationInputSchema);
   ("runCommand", runCommandInputSchema);
   ("searchFiles", searchFilesInputSchema);
   ("inspectGit", inspectGitInputSchema);
   ("getWorkspaceContext", getWorkspaceContextInputSchema);
   ("startBackgroundTask", startBackgroundTaskInputSchema);
   ("getBackgroundTask", getBackgroundTaskInputSchema);
   ("waitBackgroundTask", waitBackgroundTaskInputSchema);
   ("listBackgroundTasks", listBackgroundTasksInputSchema);
   ("cancelBackgroundTask", cancelBackgroundTaskInputSchema);
   ("readBackgroundTaskLogs", readBackgroundTaskLogsInputSchema);
   ("writeBackgroundTaskStdin", writeBackgroundTaskStdinInputSchema);
   ("readBackgroundTaskOutput", readBackgroundTaskOutputInputSchema);
   ("gitCreateBranch", gitCreateBranchInputSchema);
   ("gitStagePaths", gitStagePathsInputSchema);
   ("gitUnstagePaths", gitUnstagePathsInputSchema);
   ("gitCommit", gitCommitInputSchema);
   ("gitMergeBranch", gitMergeBranchInputSchema);
   ("gitPushBranch", gitPushBranchInputSchema);
   ("githubGetRepository", githubGetRepositoryInputSchema);
   ("githubCreateRepository", githubCreateRepositoryInputSchema);
   ("githubGetPullRequest", githubGetPullRequestInputSchema);
   ("githubCreatePullRequest", githubCreatePullRequestInputSchema);
   ("githubMergePullRequest", githubMergePullRequestInputSchema)].
Lemma relay_options : relayRequestSchema = ZDiscriminated "operation" (map relay_option relayInputSchemas).
Proof. reflexivity. Qed.

Lemma operations_of_requests : map fst relayInputSchemas = relayOperations.
Proof. vm_compute. reflexivity. Qed.
Lemma operations_of_results : map fst relayResultSchemas = map fst relayInputSchemas.
Proof. vm_compute. reflexivity. Qed.
Lemma operations_distinct : NoDup relayOperations.
Proof. apply (bool_decide_unpack _). vm_compute. exact I. Qed.

Lemma option_of_request ok key (options : list (string * schema)) v w :
  run ok (ZDiscriminated key (map relay_option options)) v = Some w ->
  exists p es op s, v = VObject p es /\ (op, s) ∈ options /\ run ok (relay_option (op, s)) (VObject p es) = Some w.
Proof.
  intros (p & es & o & -> & Hin & _ & E)%discriminated_parsed. apply list_elem_of_fmap in Hin as ([op s] & -> & Hin).
  by exists p, es, op, s.
Qed.
Lemma value_of_key {A B} op (xs : list (string * A)) (ys : list (string * B)) a :
  map fst ys = map fst xs -> (op, a) ∈ xs -> exists b, (op, b) ∈ ys.
Proof.
  intros E Hin. assert (H : op ∈ map fst ys) by (rewrite E; apply list_elem_of_fmap; by exists (op, a)).
  apply list_elem_of_fmap in H as ([k b] & -> & H). by exists b.
Qed.

Lemma option_parsed {JL : JsIntegerLaws JN JI} ok e p es w :
  run ok (relay_option e) (VObject p es) = Some w ->
  field "operation" w = VString e.1 /\ run ok e.2 (own_value "input" es) = Some (field "input" w)
  /\ field "requestId" w = own_value "requestId" es /\ exists ws, w = VObject true ws.
Proof.
  intros (p' & es' & ws & [= <- <-] & -> & E & _)%object_parsed. cbn [field].
  assert (Hnd : NoDup (map fst (relayRequestBase ++ [("operation", ZLiteral (LText e.1)); ("input", e.2)])))
    by (apply (bool_decide_unpack _); vm_compute; exact I).
  assert (Hown : forall k s, (k, s) ∈ relayRequestBase ++ [("operation", ZLiteral (LText e.1)); ("input", e.2)] ->
                 run ok s (own_value k es) = Some (own_value k ws)).
  { intros k s Hin. destruct (shape_own _ _ _ _ _ _ Hnd E Hin) as (u & Hu & Ho). unfold own_value at 2. rewrite Ho.
    destruct u; simpl; try done. by destruct (own_key k es). }
  split_and!; [| | |by eexists].
  - assert (H : run ok (ZLiteral (LText e.1)) (own_value "operation" es) = Some (own_value "operation" ws))
      by (apply Hown; do 5 right; left).
    apply literal_parsed in H as [-> H]. destruct (own_value "operation" es); try done. simpl in H. by apply String.eqb_eq in H as ->.
  - apply Hown. do 6 right. left.
  - assert (H : run ok (ZFormat Uuid) (own_value "requestId" es) = Some (own_value "requestId" ws))
      by (apply Hown; do 2 right; left).
    cbn [run] in H. destruct (own_value "requestId" es); try done. destruct (ok Uuid s); simplify_eq. congruence.
Qed.
End Requests.

(** *** Messages *)
Section Messages.
Context `{JN : JsNumber} {JNL : JsNumberLaws JN} {JR : JsNumberRead JN} {JRL : JsNumberReadLaws JN JR}.
Context {JI : JsInteger JN} {JIL : JsIntegerLaws JN JI} {ZP : Zod} {ZL : ZodLaws ZP}.

(** What is parsed before it is sent, and what it is parsed with on arrival. *)
Definition messages : list (schema * schema) :=
  [(relayRequestSchema, relayAgentMessageSchema); (relayCancellationSchema, relayAgentMessageSchema);
   (agentHelloSchema, agentHelloSchema)].

Lemma agentHelloSchema_portable ok : portable ok agentHelloSchema.
Proof. portable. Qed.
Lemma message_portable s r : (s, r) ∈ messages -> portable format_ok s /\ defined s = true.
Proof.
  intros H. repeat (apply elem_of_cons in H as [[= -> ->]|H]); [..|by apply elem_of_nil in H].
  - split; [apply relayRequestSchema_portable|reflexivity].
  - split; [apply relayCancellationSchema_portable|reflexivity].
  - split; [apply agentHelloSchema_portable|reflexivity].
Qed.
Lemma message_accepted s r v w w' : (s, r) ∈ messages ->
  run format_ok s v = Some w -> as_json w = Some w' -> run format_ok r w' = Some w'.
Proof.
  intros H E Ej. repeat (apply elem_of_cons in H as [[= -> ->]|H]); [..|by apply elem_of_nil in H].
  - apply (message_received format_ok relayRequestSchema v w w'); auto.
  - apply (message_received format_ok relayCancellationSchema v w w'); auto.
  - destruct (portable_arrives _ _ (agentHelloSchema_portable format_ok) v w E) as [_ Ha]. by rewrite Ej in Ha.
Qed.

(** C16.  Messages of the relay arrive: a request, a cancellation or a greeting that the
    sender parsed has a text; the text is read back to the value less its [undefined]
    entries, and the receiver's schema takes that value and leaves it as it is: no
    default is filled in, nothing is trimmed or dropped a second time. *)
Theorem relay_message_arrives s r v w :
  (s, r) ∈ messages -> zod_parse s v = Some w ->
  exists t w', JSON_stringify w = Ok (Some t) /\ as_json w = Some w' /\ JSON_parse t = Ok w'
    /\ zod_parse r w' = Some w'.
Proof.
  intros Hm. rewrite !parse_run. intros E. destruct (message_portable s r Hm) as [Hp Hd].
  destruct (portable_arrives format_ok s Hp v w E) as [Hw _]. pose proof (defined_parsed _ _ _ _ Hd E) as Hne.
  destruct (writable_kept w Hw Hne) as [w' Ej]. destruct (writable_text w Hw) as [[t|] Et].
  - destruct (parse_text w t EmptyString (writable_well_formed w Hw) Et) as (u & Eu & Ep); [done|done|].
    rewrite sapp_nil_r in Ep. exists t, w'. assert (u = w') as -> by congruence. split_and!; try done.
    rewrite parse_run. by eapply message_accepted.
  - apply stringify_none in Et as [_ Et]. congruence.
Qed.

(** A request names one of the operations, its input is what the schema of this
    operation makes of the input given, its identifier is the one given, and the
    operation has a result schema; the operations, the options of the request schema
    and the result schemas are the same, each once. *)
Theorem relay_request_typed v w :
  zod_parse relayRequestSchema v = Some w ->
  map fst relayInputSchemas = relayOperations /\ map fst relayResultSchemas = relayOperations /\ NoDup relayOperations
  /\ exists op s r, (op, s) ∈ relayInputSchemas /\ (op, r) ∈ relayResultSchemas
     /\ field "operation" w = VString op /\ zod_parse s (field "input" v) = Some (field "input" w)
     /\ field "requestId" w = field "requestId" v.
Proof.
  rewrite parse_run. intros E. rewrite relay_options in E.
  pose proof operations_of_results as Hr. pose proof operations_of_requests as Hi.
  split_and!; [done|congruence|apply operations_distinct|].
  apply option_of_request in E as (p & es & op & s & -> & Hin & E). apply option_parsed in E as (H1 & H2 & H3 & _).
  destruct (value_of_key op relayInputSchemas relayResultSchemas s Hr Hin) as [r Hr'].
  exists op, s, r. by rewrite parse_run.
Qed.
End Messages.

(** *** A request to write a file *)
Module Trial.
Definition any_format (f : format) (s : string) : bool := true.
#[local] Instance any_zod : Zod := run_zod any_format.
Definition deadline : value (JN := whole_numbers) :=
  VObject true [("deadlineAt", VString "2024-05-01T10:00:00.000Z"); ("requestedTimeoutMs", VNumber 60000); ("effectiveTimeoutMs", VNumber 59000)].
Definition request : value (JN := whole_numbers) :=
  VObject true [("version", VNumber 1); ("type", VString "request"); ("requestId", VString "id-1"); ("deadline", deadline);
    ("context", VObject true []); ("operation", VString "searchFiles");
    ("input", VObject true [("query", VString "TODO"); ("workspaceId", VString " main "); ("root", VUndefined)])].
Definition parsed : value (JN := whole_numbers) := default VUndefined (zod_parse relayRequestSchema request).

(** The workspace is trimmed and the default filled in. *)
Example parsed_input :
  field "input" parsed = VObject true [("workspaceId", VString "main"); ("query", VString "TODO"); ("root", VUndefined); ("caseSensitive", VBool false)].
Proof. vm_compute. reflexivity. Qed.

Lemma relay_message_arrives_witness :
  exists t w', JSON_stringify parsed = Ok (Some t) /\ as_json parsed = Some w' /\ JSON_parse t = Ok w'
    /\ zod_parse relayAgentMessageSchema w' = Some w'.
Proof.
  apply (relay_message_arrives relayRequestSchema relayAgentMessageSchema request parsed); [left|].
  vm_compute. reflexivity.
Defined.

Lemma relay_request_typed_witness :
  exists op s r, (op, s) ∈ relayInputSchemas /\ (op, r) ∈ relayResultSchemas /\ field "operation" parsed = VString op
    /\ zod_parse s (field "input" request) = Some (field "input" parsed).
Proof.
  destruct (relay_request_typed request parsed) as (_ & _ & _ & op & s & r & H1 & H2 & H3 & H4 & _); [vm_compute; reflexivity|].
  by exists op, s, r.
Defined.
End Trial.
