(* ===== verification/LegacyContracts.v ===== *)
(** The contracts of legacy pages: packages/mcp-core/src/legacy-browser-contracts.ts.

    [legacyFrameNodeSchema] refers to itself; the schema here is unfolded to a given depth of
    frames, below which nothing is accepted. *)
From S2P Require Import Prelude Errors JsString JsRegex Json JsonText Zod Timeouts CoreContracts.
Open Scope string_scope.
Open Scope list_scope.
Open Scope Z_scope.

(** [/^lref_[0-9a-f]{8}$/u]. *)
Definition legacy_ref (s : string) : bool := startsWith s "lref_" && exactly 8 hex (sdrop 5 s).

Section Contracts.
Context `{JN : JsNumber} `{JI : !JsInteger JN}.
Context (frame_depth : nat).

(** [Object.entries(locator).some(([key, value]) => key !== "exact" && value !== undefined)]. *)
Definition identifies (v : value) : bool :=
  match v with VObject _ es => existsb (fun e => negb (e.1 =s "exact") && given e.2) es | _ => false end.
Definition waits_for_something (v : value) : bool :=
  given (field "locator" v) || given (field "text" v) || is_text "ready" (field "state" v).
(** The two conditions of an assertion step. *)
Definition assertion_complete (v : value) : bool :=
  (is_text "frameReady" (field "condition" v) || given (field "locator" v))
  && (negb (is_text "textEquals" (field "condition" v) || is_text "textContains" (field "condition" v))
      || given (field "expected" v)).
Definition segments_flatten (v : value) : bool :=
  negb (given (field "segments" v))
  || (let flattened := flat_map (fun segment => items (field "path" segment)) (items (field "segments" v)) in
      let path := items (field "path" v) in
      (length flattened =? length path)%nat
      && forallb (fun p => same_text p.1 p.2) (combine flattened path)).
Definition tabIdSchema : schema :=
  ZString [MinLength 1; MaxLength 128].
Definition framePathSchema : schema :=
  ZArray (ZString [MinLength 1; MaxLength 200]) None (Some 16%Z).
Definition confirmationIdSchema : schema :=
  ZOptional (ZString [MinLength 1; MaxLength 128]).
Definition legacyPageProfileSchema : schema :=
  ZEnum ["modern"; "legacy-frames"; "legacy-table-layout"; "legacy-form-post"; "legacy-script-navigation"; "hybrid"].
Definition legacyFrameStatusSchema : schema :=
  ZEnum ["ready"; "not-ready"; "cross-origin"; "inaccessible"].
Fixpoint legacyFrameNodeSchema_at (depth : nat) : schema :=
  match depth with
  | O => ZUnion []
  | S depth =>
      ZObject true [
        ("path", framePathSchema);
        ("name", ZOptional (ZString [MaxLength 200]));
        ("id", ZOptional (ZString [MaxLength 200]));
        ("index", ZNumber [Int; AtLeast 0]);
        ("src", ZOptional (ZString [MaxLength 2000]));
        ("status", legacyFrameStatusSchema);
        ("readyState", ZOptional (ZString [MaxLength 50]));
        ("signature", ZString [MinLength 1; MaxLength 128]);
        ("children", ZArray (legacyFrameNodeSchema_at depth) None (Some 100%Z))]
  end.
Definition legacyFrameNodeSchema : schema := legacyFrameNodeSchema_at frame_depth.
Definition legacyTelemetrySchema : schema :=
  ZObject true [
    ("totalMs", ZNumber [AtLeast 0]);
    ("frameResolutionMs", ZOptional (ZNumber [AtLeast 0]));
    ("indexMs", ZOptional (ZNumber [AtLeast 0]));
    ("locatorMs", ZOptional (ZNumber [AtLeast 0]));
    ("interactionMs", ZOptional (ZNumber [AtLeast 0]));
    ("navigationMs", ZOptional (ZNumber [AtLeast 0]));
    ("candidateCount", ZOptional (ZNumber [Int; AtLeast 0]));
    ("cacheHit", ZOptional ZBoolean);
    ("cacheInvalidated", ZOptional ZBoolean);
    ("strategy", ZOptional (ZString [MaxLength 100]));
    ("retries", ZOptional (ZNumber [Int; AtLeast 0]))].
Definition legacyLocatorSchema : schema :=
  ZRefine (ZObject true [
    ("ref", ZOptional (ZString [Satisfies legacy_ref]));
    ("id", ZOptional (ZString [MinLength 1; MaxLength 256]));
    ("name", ZOptional (ZString [MinLength 1; MaxLength 256]));
    ("selector", ZOptional (ZString [MinLength 1; MaxLength 2000]));
    ("tag", ZOptional (ZString [MinLength 1; MaxLength 100]));
    ("type", ZOptional (ZString [MinLength 1; MaxLength 100]));
    ("role", ZOptional (ZString [MinLength 1; MaxLength 100]));
    ("href", ZOptional (ZString [MinLength 1; MaxLength 2000]));
    ("target", ZOptional (ZString [MinLength 1; MaxLength 256]));
    ("onclickSignature", ZOptional (ZString [MinLength 1; MaxLength 128]));
    ("text", ZOptional (ZString [MinLength 1; MaxLength 500]));
    ("exact", ZOptional ZBoolean);
    ("ancestorText", ZOptional (ZString [MinLength 1; MaxLength 500]));
    ("index", ZOptional (ZNumber [Int; AtLeast 0]))]) identifies.
Definition legacyDomIndexItemSchema : schema :=
  ZObject true [
    ("ref", ZString [MinLength 1; MaxLength 256]);
    ("tag", ZString [MinLength 1; MaxLength 100]);
    ("id", ZOptional (ZString [MaxLength 256]));
    ("name", ZOptional (ZString [MaxLength 256]));
    ("type", ZOptional (ZString [MaxLength 100]));
    ("role", ZOptional (ZString [MaxLength 100]));
    ("text", ZString [MaxLength 500]);
    ("href", ZOptional (ZString [MaxLength 2000]));
    ("target", ZOptional (ZString [MaxLength 256]));
    ("onclickSignature", ZOptional (ZString [MaxLength 128]));
    ("ariaLabel", ZOptional (ZString [MaxLength 500]));
    ("title", ZOptional (ZString [MaxLength 500]));
    ("alt", ZOptional (ZString [MaxLength 500]));
    ("visible", ZBoolean);
    ("enabled", ZBoolean);
    ("selector", ZString [MinLength 1; MaxLength 2000]);
    ("framePath", framePathSchema);
    ("ancestors", ZArray (ZString [MaxLength 300]) None (Some 6%Z))].
Definition browserProfilePageInputSchema : schema :=
  ZObject true [
    ("tabId", tabIdSchema);
    ("maxDepth", ZOptional (ZNumber [Int; AtLeast 0; AtMost 16]))].
Definition browserProfilePageResultSchema : schema :=
  ZObject true [
    ("tabId", tabIdSchema);
    ("profile", legacyPageProfileSchema);
    ("signals", ZObject true [
      ("frames", ZNumber [Int; AtLeast 0]);
      ("nestedFrames", ZNumber [Int; AtLeast 0]);
      ("layoutTables", ZNumber [Int; AtLeast 0]);
      ("inlineHandlers", ZNumber [Int; AtLeast 0]);
      ("hashLinks", ZNumber [Int; AtLeast 0]);
      ("targetedNavigation", ZNumber [Int; AtLeast 0]);
      ("postForms", ZNumber [Int; AtLeast 0])]);
    ("pageSignature", ZString [MinLength 1; MaxLength 128]);
    ("frameGraphSignature", ZString [MinLength 1; MaxLength 128]);
    ("frames", ZArray legacyFrameNodeSchema None (Some 100%Z));
    ("telemetry", legacyTelemetrySchema)].
Definition browserDomIndexInputSchema : schema :=
  ZObject true [
    ("tabId", tabIdSchema);
    ("framePath", ZOptional framePathSchema);
    ("rootSelector", ZOptional (ZString [MinLength 1; MaxLength 2000]));
    ("query", ZOptional (ZString [MinLength 1; MaxLength 500]));
    ("offset", ZOptional (ZNumber [Int; AtLeast 0; AtMost 1000000]));
    ("limit", ZOptional (ZNumber [Int; AtLeast 1; AtMost 2000]));
    ("visibleOnly", ZOptional ZBoolean)].
Definition browserDomIndexResultSchema : schema :=
  ZObject true [
    ("tabId", tabIdSchema);
    ("framePath", framePathSchema);
    ("pageSignature", ZString [MinLength 1; MaxLength 128]);
    ("frameGraphSignature", ZString [MinLength 1; MaxLength 128]);
    ("items", ZArray legacyDomIndexItemSchema None (Some 2000%Z));
    ("truncated", ZBoolean);
    ("offset", ZOptional (ZNumber [Int; AtLeast 0]));
    ("totalCount", ZOptional (ZNumber [Int; AtLeast 0]));
    ("nextOffset", ZOptional (ZNumber [Int; AtLeast 0]));
    ("telemetry", legacyTelemetrySchema)].
Definition legacyFrameStepBase : list (string * schema) := [
    ("framePath", ZOptional framePathSchema)].
Definition legacyFrameSequenceStepSchema : schema :=
  ZDiscriminated "action" [
    ZObject true ([
      ("action", ZLiteral (LText "index"))] ++ legacyFrameStepBase ++ [
      ("rootSelector", ZOptional (ZString [MinLength 1; MaxLength 2000]));
      ("query", ZOptional (ZString [MinLength 1; MaxLength 500]));
      ("offset", ZOptional (ZNumber [Int; AtLeast 0; AtMost 1000000]));
      ("limit", ZOptional (ZNumber [Int; AtLeast 1; AtMost 2000]));
      ("visibleOnly", ZOptional ZBoolean)]);
    ZObject true ([
      ("action", ZLiteral (LText "click"))] ++ legacyFrameStepBase ++ [
      ("locator", legacyLocatorSchema);
      ("confirmationId", confirmationIdSchema)]);
    ZObject true ([
      ("action", ZLiteral (LText "fill"))] ++ legacyFrameStepBase ++ [
      ("locator", legacyLocatorSchema);
      ("value", ZString [MaxLength 100000])]);
    ZObject true ([
      ("action", ZLiteral (LText "select"))] ++ legacyFrameStepBase ++ [
      ("locator", legacyLocatorSchema);
      ("value", ZString [MaxLength 10000])]);
    ZObject true ([
      ("action", ZLiteral (LText "press"))] ++ legacyFrameStepBase ++ [
      ("locator", ZOptional legacyLocatorSchema);
      ("key", ZString [MinLength 1; MaxLength 100]);
      ("mode", ZOptional (ZEnum ["dom"; "native"]));
      ("confirmationId", confirmationIdSchema)]);
    ZRefine (ZObject true ([
      ("action", ZLiteral (LText "waitFor"))] ++ legacyFrameStepBase ++ [
      ("locator", ZOptional legacyLocatorSchema);
      ("text", ZOptional (ZString [MinLength 1; MaxLength 10000]));
      ("state", ZOptional (ZEnum ["ready"; "exists"; "visible"; "hidden"]));
      ("timeoutMs", ZOptional (ZNumber [Int; AtLeast 1; AtMost 120000]))])) waits_for_something;
    ZObject true ([
      ("action", ZLiteral (LText "extract"))] ++ legacyFrameStepBase ++ [
      ("locator", ZOptional legacyLocatorSchema);
      ("format", ZOptional (ZEnum ["text"; "html"; "json"]))]);
    ZRefine (ZObject true ([
      ("action", ZLiteral (LText "assert"))] ++ legacyFrameStepBase ++ [
      ("locator", ZOptional legacyLocatorSchema);
      ("condition", ZEnum ["exists"; "visible"; "enabled"; "textEquals"; "textContains"; "frameReady"]);
      ("expected", ZOptional (ZString [MaxLength 10000]))])) assertion_complete].
Definition browserFrameSequenceInputSchema : schema :=
  ZObject true [
    ("tabId", tabIdSchema);
    ("steps", ZArray legacyFrameSequenceStepSchema (Some 1%Z) (Some 20%Z));
    ("timeoutMs", ZOptional (ZNumber [Int; AtLeast 1; AtMost 120000]))].
Definition browserFrameSequenceStepResultSchema : schema :=
  ZObject true [
    ("index", ZNumber [Int; AtLeast 0]);
    ("action", ZEnum ["index"; "click"; "fill"; "select"; "press"; "waitFor"; "extract"; "assert"]);
    ("completed", ZLiteral (LBool true));
    ("value", ZOptional ZUnknown);
    ("strategy", ZOptional (ZString [MaxLength 100]));
    ("ref", ZOptional (ZString [MaxLength 256]))].
Definition browserFrameSequenceResultSchema : schema :=
  ZObject true [
    ("tabId", tabIdSchema);
    ("completed", ZLiteral (LBool true));
    ("steps", ZArray browserFrameSequenceStepResultSchema None (Some 20%Z));
    ("telemetry", legacyTelemetrySchema)].
Definition legacyPathSchema : schema :=
  ZArray (ZString [MinLength 1; MaxLength 500]) (Some 1%Z) (Some 10%Z).
Definition legacyNavigationWaitSchema : schema :=
  ZRefine (ZObject true [
    ("framePath", ZOptional framePathSchema);
    ("locator", ZOptional legacyLocatorSchema);
    ("text", ZOptional (ZString [MinLength 1; MaxLength 10000]));
    ("state", ZOptional (ZEnum ["ready"; "exists"; "visible"; "hidden"]));
    ("timeoutMs", ZOptional (ZNumber [Int; AtLeast 1; AtMost 120000]))]) waits_for_something.
Definition legacyNavigationCheckpointSchema : schema :=
  ZDiscriminated "action" [
    ZRefine (ZObject true [
      ("action", ZLiteral (LText "waitFor"));
      ("framePath", ZOptional framePathSchema);
      ("locator", ZOptional legacyLocatorSchema);
      ("text", ZOptional (ZString [MinLength 1; MaxLength 10000]));
      ("state", ZOptional (ZEnum ["ready"; "exists"; "visible"; "hidden"]));
      ("timeoutMs", ZOptional (ZNumber [Int; AtLeast 1; AtMost 120000]))]) waits_for_something;
    ZObject true [
      ("action", ZLiteral (LText "extract"));
      ("framePath", ZOptional framePathSchema);
      ("locator", ZOptional legacyLocatorSchema);
      ("format", ZOptional (ZEnum ["text"; "html"; "json"]))];
    ZRefine (ZObject true [
      ("action", ZLiteral (LText "assert"));
      ("framePath", ZOptional framePathSchema);
      ("locator", ZOptional legacyLocatorSchema);
      ("condition", ZEnum ["exists"; "visible"; "enabled"; "textEquals"; "textContains"; "frameReady"]);
      ("expected", ZOptional (ZString [MaxLength 10000]))]) assertion_complete].
Definition legacyNavigationSegmentSchema : schema :=
  ZObject true [
    ("framePath", framePathSchema);
    ("path", legacyPathSchema);
    ("rootSelector", ZOptional (ZString [MinLength 1; MaxLength 2000]));
    ("targetFramePath", ZOptional framePathSchema);
    ("waitFor", ZOptional legacyNavigationWaitSchema)].
Definition browserNavigatePathInputSchema : schema :=
  ZRefine (ZObject true [
    ("tabId", tabIdSchema);
    ("path", legacyPathSchema);
    ("sourceFramePath", ZOptional framePathSchema);
    ("targetFramePath", ZOptional framePathSchema);
    ("segments", ZOptional (ZArray legacyNavigationSegmentSchema (Some 1%Z) (Some 10%Z)));
    ("checkpoint", ZOptional legacyNavigationCheckpointSchema);
    ("timeoutMs", ZOptional (ZNumber [Int; AtLeast 1; AtMost 120000]));
    ("confirmationId", confirmationIdSchema)]) segments_flatten.
Definition browserNavigatePathResultSchema : schema :=
  ZObject true [
    ("tabId", tabIdSchema);
    ("completed", ZLiteral (LBool true));
    ("path", ZArray (ZString [MinLength 1; MaxLength 500]) (Some 1%Z) (Some 10%Z));
    ("resolved", ZArray (ZObject true [
      ("level", ZNumber [Int; AtLeast 0]);
      ("label", ZString [MinLength 1; MaxLength 500]);
      ("ref", ZString [MinLength 1; MaxLength 256]);
      ("selector", ZString [MinLength 1; MaxLength 2000]);
      ("strategy", ZString [MinLength 1; MaxLength 100]);
      ("segment", ZOptional (ZNumber [Int; AtLeast 0]));
      ("framePath", ZOptional framePathSchema)]) None (Some 10%Z));
    ("destinationReady", ZBoolean);
    ("segments", ZOptional (ZArray (ZObject true [
      ("index", ZNumber [Int; AtLeast 0]);
      ("framePath", framePathSchema);
      ("path", legacyPathSchema);
      ("targetFramePath", ZOptional framePathSchema);
      ("destinationReady", ZBoolean);
      ("telemetry", legacyTelemetrySchema)]) None (Some 10%Z)));
    ("cache", ZObject true [
      ("hit", ZBoolean);
      ("revalidated", ZBoolean);
      ("invalidated", ZBoolean)]);
    ("checkpoint", ZOptional (ZObject true [
      ("step", browserFrameSequenceStepResultSchema);
      ("telemetry", legacyTelemetrySchema)]));
    ("telemetry", legacyTelemetrySchema)].
End Contracts.
