(* ===== verification/BrowserContracts.v ===== *)
(** The contracts of the browser worker: packages/mcp-core/src/browser-contracts.ts.

    Whether a text is a regular expression ([RegExp_valid]) and whether it is a date or a URL ([format_ok], which
    [browserOpenAuthorizedSiteToolResultSchema] needs because it parses inside its refinement) are
    parameters. *)
From S2P Require Import Prelude Errors JsString JsRegex Json JsonText Zod Timeouts CoreContracts LegacyContracts.
Open Scope string_scope.
Open Scope list_scope.
Open Scope Z_scope.

(** [/[\r\n\0]/]. *)
Definition line_or_nul (s : string) : bool := sexists (fun c => (c =c CR) || (c =c LF) || (c =c NUL)) s.
Definition one_line (s : string) : bool := negb (line_or_nul s).
Definition simple_filename (s : string) : bool :=
  negb (contains s "/") && negb (contains s (str1 BSL)) && negb (contains s "..") && negb (line_or_nul s).
(** [/^[^/\\\x00]+$/u]. *)
Definition file_name (s : string) : bool :=
  negb (sempty s) && sforall (fun c => negb ((c =c SLASH) || (c =c BSL) || (c =c NUL))) s.

Section Contracts.
Context `{JN : JsNumber} `{JI : !JsInteger JN}.
Context (frame_depth : nat) (RegExp_valid : string -> bool) (ok : format -> string -> bool).
Notation browserProfilePageResultSchema := (browserProfilePageResultSchema frame_depth).

Definition any_given (keys : list string) (v : value) : bool := existsb (fun k => given (field k v)) keys.
Definition both_or_none (j k : string) (v : value) : bool := Bool.eqb (given (field j v)) (given (field k v)).
(** The steps that wait wait for something. *)
Definition waits_complete (v : value) : bool :=
  forallb (fun step => negb (is_text "wait" (field "action" step)) || any_given ["timeoutMs"; "text"; "ref"] step)
    (items (field "steps" v)).
Definition distinct_file_names (v : value) : bool := distinct toLowerCase (map (field "name") (items (field "files" v))).
Definition browserOwnershipSchema : schema :=
  ZEnum ["user"; "mcp"].
Definition browserConnectionStateSchema : schema :=
  ZEnum ["disconnected"; "connecting"; "connected"].
Definition browserSnapshotKindSchema : schema :=
  ZEnum ["full"; "delta"; "unchanged"; "unavailable"].
Definition browserStateEventSchema : schema :=
  ZObject true [
    ("sequence", ZNumber [Int; AtLeast 0]);
    ("type", ZEnum ["console"; "pageerror"; "request"; "response"; "requestfailed"; "dialog"; "download";
      "filechooser"]);
    ("timestamp", ZFormat IsoDatetime);
    ("text", ZOptional (ZString [MaxLength 10000]));
    ("url", ZOptional (ZString [MaxLength 20000]));
    ("status", ZOptional (ZNumber [Int; AtLeast 100; AtMost 999]))].
Definition browserStateUpdateSchema : schema :=
  ZObject true [
    ("documentId", ZString [MinLength 1; MaxLength 128]);
    ("revision", ZNumber [Int; AtLeast 0]);
    ("baseRevision", ZOptional (ZNumber [Int; AtLeast 0]));
    ("kind", browserSnapshotKindSchema);
    ("snapshot", ZOptional (ZString [MaxLength 2000000]));
    ("events", ZOptional (ZArray browserStateEventSchema None (Some 500%Z)));
    ("refsValid", ZBoolean)].
Definition browserOperationTimingSchema : schema :=
  ZObject true [
    ("queueMs", ZOptional (ZNumber [AtLeast 0]));
    ("actionMs", ZNumber [AtLeast 0]);
    ("snapshotMs", ZNumber [AtLeast 0]);
    ("totalMs", ZNumber [AtLeast 0])].
Definition knownRevisionSchema : schema :=
  ZOptional (ZNumber [Int; AtLeast 0]).
Definition taskIdSchema : schema :=
  ZString [MinLength 1; MaxLength 128].
Definition browserTabLifecycleSchema : schema :=
  ZEnum ["task-scoped"; "persistent"; "external"].
Definition browserTabSchema : schema :=
  ZObject true [
    ("tabId", ZString [MinLength 1; MaxLength 128]);
    ("taskId", ZOptional taskIdSchema);
    ("lifecycle", ZOptional browserTabLifecycleSchema);
    ("ownership", browserOwnershipSchema);
    ("purpose", ZString [MinLength 1; MaxLength 200]);
    ("reusable", ZBoolean);
    ("protected", ZBoolean);
    ("sticky", ZBoolean);
    ("createdAt", ZString [MinLength 1]);
    ("lastUsedAt", ZString [MinLength 1]);
    ("url", ZOptional (ZFormat Url));
    ("requestedUrl", ZOptional (ZFormat Url));
    ("title", ZOptional (ZString [MaxLength 500]));
    ("lockedUrl", ZOptional (ZFormat Url))].
Definition browserStatusInputSchema : schema :=
  ZObject true [].
Definition browserIdempotencyMetricsSchema : schema :=
  ZObject true [
    ("entries", ZNumber [Int; AtLeast 0]);
    ("hits", ZNumber [Int; AtLeast 0]);
    ("misses", ZNumber [Int; AtLeast 0]);
    ("conflicts", ZNumber [Int; AtLeast 0]);
    ("evictions", ZNumber [Int; AtLeast 0]);
    ("expirations", ZNumber [Int; AtLeast 0])].
Definition browserContextRecoveryMetricsSchema : schema :=
  ZObject true [
    ("zeroPageDetections", ZNumber [Int; AtLeast 0]);
    ("contextRecoveriesAttempted", ZNumber [Int; AtLeast 0]);
    ("contextRecoveriesSucceeded", ZNumber [Int; AtLeast 0]);
    ("contextRecoveriesFailed", ZNumber [Int; AtLeast 0]);
    ("pagesRecreated", ZNumber [Int; AtLeast 0]);
    ("contextsRestarted", ZNumber [Int; AtLeast 0]);
    ("staleBindingsRemoved", ZNumber [Int; AtLeast 0]);
    ("staleReferencesRemoved", ZNumber [Int; AtLeast 0]);
    ("recoveryContentionCount", ZNumber [Int; AtLeast 0]);
    ("recoveryDurationMs", ZNumber [AtLeast 0])].
Definition browserStatusResultSchema : schema :=
  ZObject true [
    ("state", browserConnectionStateSchema);
    ("ready", ZBoolean);
    ("browser", ZLiteral (LText "chrome"));
    ("profile", ZEnum ["default"; "dedicated-persistent"]);
    ("autoLaunch", ZLiteral (LBool true));
    ("tabGroup", ZLiteral (LText "MCP"));
    ("edgeFallback", ZLiteral (LText "technical-necessity-only"));
    ("tabCount", ZNumber [Int; AtLeast 0]);
    ("taskCount", ZOptional (ZNumber [Int; AtLeast 0]));
    ("idempotency", ZOptional browserIdempotencyMetricsSchema);
    ("recovery", ZOptional browserContextRecoveryMetricsSchema);
    ("engine", ZOptional (ZLiteral (LText "playwright-direct")));
    ("engineVersion", ZOptional (ZString [MinLength 1; MaxLength 100]));
    ("protocolVersion", ZOptional (ZNumber [Int; AtLeast 1]));
    ("playwrightVersion", ZOptional (ZString [MinLength 1; MaxLength 100]));
    ("browserChannel", ZOptional (ZEnum ["chromium"; "chrome"]));
    ("chromiumRevision", ZOptional (ZString [MinLength 1; MaxLength 100]));
    ("capabilities", ZOptional (ZObject true [
      ("semanticSnapshots", ZBoolean);
      ("incrementalSnapshots", ZBoolean);
      ("actionState", ZBoolean);
      ("perTabConcurrency", ZBoolean);
      ("zeroPageRecovery", ZOptional ZBoolean);
      ("taskLifecycle", ZOptional ZBoolean)]))].
Definition browserConnectInputSchema : schema :=
  ZObject true [].
Definition browserConnectResultSchema : schema :=
  browserStatusResultSchema.
Definition browserTabsInputSchema : schema :=
  ZObject true [
    ("taskId", ZOptional taskIdSchema)].
Definition browserTabsResultSchema : schema :=
  ZObject true [
    ("tabs", ZArray browserTabSchema None (Some 100%Z))].
Definition browserOpenInputSchema : schema :=
  ZObject true [
    ("taskId", ZOptional taskIdSchema);
    ("url", ZOptional (ZFormat Url));
    ("purpose", ZOptional (ZString [MinLength 1; MaxLength 200]));
    ("reusable", ZOptional ZBoolean);
    ("protected", ZOptional ZBoolean);
    ("sticky", ZOptional ZBoolean);
    ("knownRevision", knownRevisionSchema)].
Definition browserTabResultSchema : schema :=
  ZObject true [
    ("tab", browserTabSchema);
    ("restoredFromCache", ZOptional ZBoolean);
    ("cacheAgeMs", ZOptional (ZNumber [Int; AtLeast 0]));
    ("state", ZOptional browserStateUpdateSchema);
    ("timing", ZOptional browserOperationTimingSchema)].
Definition tabIdSchema : schema :=
  ZString [MinLength 1; MaxLength 128].
Definition confirmationIdSchema : schema :=
  ZOptional (ZString [MinLength 1; MaxLength 128]).
Definition browserOpenAuthorizedSiteInputSchema : schema :=
  ZObject true [
    ("siteId", ZString [MinLength 1; MaxLength 128]);
    ("purpose", ZString [MinLength 1; MaxLength 200]);
    ("taskId", ZOptional taskIdSchema);
    ("confirmationId", ZOptional (ZString [MinLength 1; MaxLength 128]))].
Definition browserOpenAuthorizedSiteConfirmationResultSchema : schema :=
  ZObject true [
    ("status", ZLiteral (LText "confirmation_required"));
    ("taskId", taskIdSchema);
    ("siteId", ZString [MinLength 1; MaxLength 128]);
    ("confirmationId", ZString [MinLength 1; MaxLength 128]);
    ("expiresAt", ZFormat IsoDatetime);
    ("reasons", ZArray (ZString [MinLength 1]) (Some 1%Z) None)].
Definition browserAuthenticationStatusSchema : schema :=
  ZEnum ["not-required"; "session-reused"; "performed"; "interaction-required"; "failed"].
Definition browserAuthenticationReasonSchema : schema :=
  ZEnum ["mfa-or-captcha"; "credential-unavailable"; "broker-unavailable"; "broker-access-denied";
    "broker-protocol-mismatch"; "credentials-invalid"; "login-form-not-found"; "submit-outcome-unknown";
    "postcondition-not-reached"; "capability-unavailable"; "diagnostic-active"].
Definition browserOpenAuthorizedSiteOpenedResultSchema : schema :=
  ZObject true [
    ("status", ZLiteral (LText "opened"));
    ("taskId", taskIdSchema);
    ("tabId", tabIdSchema);
    ("authorization", ZObject true [
      ("status", ZLiteral (LText "granted"));
      ("expiresAt", ZFormat IsoDatetime)]);
    ("authentication", ZObject true [
      ("status", browserAuthenticationStatusSchema);
      ("reason", ZOptional browserAuthenticationReasonSchema)]);
    ("site", ZObject true [
      ("siteId", ZString [MinLength 1; MaxLength 128]);
      ("accessMode", ZLiteral (LText "business-read-only"))]);
    ("state", ZOptional browserStateUpdateSchema);
    ("timing", ZOptional browserOperationTimingSchema)].
Definition browserOpenAuthorizedSiteResultSchema : schema :=
  ZDiscriminated "status" [
    browserOpenAuthorizedSiteConfirmationResultSchema;
    browserOpenAuthorizedSiteOpenedResultSchema].
Definition browserOpenAuthorizedSiteToolResultSchema : schema :=
  ZRefine (ZObject true [
    ("status", ZEnum ["confirmation_required"; "opened"]);
    ("taskId", taskIdSchema);
    ("siteId", ZString [MinLength 1; MaxLength 128]);
    ("confirmationId", ZOptional (ZString [MinLength 1; MaxLength 128]));
    ("expiresAt", ZOptional (ZFormat IsoDatetime));
    ("reasons", ZOptional (ZArray (ZString [MinLength 1]) (Some 1%Z) None));
    ("tabId", ZOptional tabIdSchema);
    ("authorization", ZOptional (shape_of browserOpenAuthorizedSiteOpenedResultSchema "authorization"));
    ("authentication", ZOptional (shape_of browserOpenAuthorizedSiteOpenedResultSchema "authentication"));
    ("site", ZOptional (shape_of browserOpenAuthorizedSiteOpenedResultSchema "site"));
    ("state", ZOptional browserStateUpdateSchema);
    ("timing", ZOptional browserOperationTimingSchema)]) (fun result => match run ok
      browserOpenAuthorizedSiteResultSchema result with Some _ => true | None => false end).
Definition browserNavigateInputSchema : schema :=
  ZObject true [
    ("tabId", tabIdSchema);
    ("url", ZFormat Url);
    ("waitUntil", ZOptional (ZEnum ["commit"; "domcontentloaded"; "load"]));
    ("confirmationId", confirmationIdSchema);
    ("knownRevision", knownRevisionSchema)].
Definition browserSnapshotInputSchema : schema :=
  ZObject true [
    ("tabId", tabIdSchema);
    ("knownRevision", knownRevisionSchema);
    ("forceFull", ZOptional ZBoolean)].
Definition browserSnapshotResultSchema : schema :=
  ZObject true [
    ("tabId", tabIdSchema);
    ("url", ZFormat Url);
    ("title", ZOptional (ZString [MaxLength 500]));
    ("content", ZString [MaxLength 2000000]);
    ("refs", ZArray (ZObject true [
      ("ref", ZString [MinLength 1; MaxLength 128]);
      ("role", ZString [MinLength 1; MaxLength 100]);
      ("name", ZString [MaxLength 500])]) None (Some 10000%Z));
    ("state", ZOptional browserStateUpdateSchema);
    ("timing", ZOptional browserOperationTimingSchema)].
Definition browserClickInputSchema : schema :=
  ZObject true [
    ("tabId", tabIdSchema);
    ("ref", ZString [MinLength 1; MaxLength 128]);
    ("confirmationId", confirmationIdSchema);
    ("knownRevision", knownRevisionSchema)].
Definition browserFillInputSchema : schema :=
  ZObject true [
    ("tabId", tabIdSchema);
    ("ref", ZString [MinLength 1; MaxLength 128]);
    ("value", ZString [MaxLength 200000]);
    ("confirmationId", confirmationIdSchema);
    ("knownRevision", knownRevisionSchema)].
Definition browserPressInputSchema : schema :=
  ZObject true [
    ("tabId", tabIdSchema);
    ("key", ZString [MinLength 1; MaxLength 100]);
    ("confirmationId", confirmationIdSchema);
    ("knownRevision", knownRevisionSchema)].
Definition browserWaitInputSchema : schema :=
  ZRefine (ZObject true [
    ("tabId", tabIdSchema);
    ("timeoutMs", ZOptional (ZNumber [Int; AtLeast 1; AtMost 120000]));
    ("text", ZOptional (ZString [MinLength 1; MaxLength 10000]));
    ("ref", ZOptional (ZString [MinLength 1; MaxLength 128]));
    ("knownRevision", knownRevisionSchema)]) (any_given ["text"; "ref"; "timeoutMs"]).
Definition browserExtractionCompletionModeSchema : schema :=
  ZEnum ["visible"; "document"; "document-and-safe-pagination"].
Definition browserExtractionCompletenessSchema : schema :=
  ZObject true [
    ("status", ZEnum ["complete"; "partial"]);
    ("reason", ZEnum ["targeted"; "visible-only"; "end-of-document"; "pagination-end"; "pagination-available";
      "scroll-limit"; "page-limit"; "byte-limit"; "time-limit"; "no-progress"; "cycle"; "unsafe-pagination";
      "virtualized-content"]);
    ("mode", browserExtractionCompletionModeSchema);
    ("pages", ZNumber [Int; AtLeast 1; AtMost 100]);
    ("scrolls", ZNumber [Int; AtLeast 0; AtMost 10000]);
    ("bytes", ZNumber [Int; AtLeast 0]);
    ("paginationAvailable", ZOptional ZBoolean)].
Definition browserExtractInputSchema : schema :=
  ZObject true [
    ("tabId", tabIdSchema);
    ("ref", ZOptional (ZString [MinLength 1; MaxLength 128]));
    ("selector", ZOptional (ZString [MinLength 1; MaxLength 2000]));
    ("format", ZOptional (ZEnum ["text"; "html"; "json"]));
    ("completion", ZOptional browserExtractionCompletionModeSchema)].
Definition browserExtractResultSchema : schema :=
  ZObject true [
    ("tabId", tabIdSchema);
    ("format", ZEnum ["text"; "html"; "json"]);
    ("value", ZUnknown);
    ("completeness", ZOptional browserExtractionCompletenessSchema)].
Definition browserSequenceStepSchema : schema :=
  ZDiscriminated "action" [
    ZObject true [
      ("action", ZLiteral (LText "navigate"));
      ("url", ZFormat Url);
      ("waitUntil", ZOptional (ZEnum ["commit"; "domcontentloaded"; "load"]))];
    ZObject true [
      ("action", ZLiteral (LText "click"));
      ("ref", ZString [MinLength 1; MaxLength 128]);
      ("confirmationId", confirmationIdSchema)];
    ZObject true [
      ("action", ZLiteral (LText "fill"));
      ("ref", ZString [MinLength 1; MaxLength 128]);
      ("value", ZString [MaxLength 100000])];
    ZObject true [
      ("action", ZLiteral (LText "press"));
      ("key", ZString [MinLength 1; MaxLength 100]);
      ("confirmationId", confirmationIdSchema)];
    ZObject true [
      ("action", ZLiteral (LText "wait"));
      ("timeoutMs", ZOptional (ZNumber [Int; AtLeast 1; AtMost 120000]));
      ("text", ZOptional (ZString [MinLength 1; MaxLength 10000]));
      ("ref", ZOptional (ZString [MinLength 1; MaxLength 128]))];
    ZObject true [
      ("action", ZLiteral (LText "extract"));
      ("ref", ZOptional (ZString [MinLength 1; MaxLength 128]));
      ("selector", ZOptional (ZString [MinLength 1; MaxLength 2000]));
      ("format", ZOptional (ZEnum ["text"; "html"; "json"]));
      ("completion", ZOptional browserExtractionCompletionModeSchema)]].
Definition browserSequenceInputSchema : schema :=
  ZRefine (ZObject true [
    ("tabId", tabIdSchema);
    ("steps", ZArray browserSequenceStepSchema (Some 1%Z) (Some 20%Z));
    ("finalSnapshot", ZOptional ZBoolean);
    ("knownRevision", knownRevisionSchema)]) waits_complete.
Definition browserSequenceStepResultSchema : schema :=
  ZObject true [
    ("index", ZNumber [Int; AtLeast 0]);
    ("action", ZEnum ["navigate"; "click"; "fill"; "press"; "wait"; "extract"]);
    ("completed", ZLiteral (LBool true));
    ("value", ZOptional ZUnknown);
    ("completeness", ZOptional browserExtractionCompletenessSchema)].
Definition browserSequenceResultSchema : schema :=
  ZObject true [
    ("tabId", tabIdSchema);
    ("completed", ZLiteral (LBool true));
    ("steps", ZArray browserSequenceStepResultSchema None (Some 20%Z));
    ("snapshot", ZOptional browserSnapshotResultSchema);
    ("state", ZOptional browserStateUpdateSchema);
    ("timing", ZOptional browserOperationTimingSchema)].
Definition browserFrameNameSchema : schema :=
  ZString [MinLength 1; MaxLength 200].
Definition browserFrameSelectorSchema : schema :=
  ZString [MinLength 1; MaxLength 2000].
Definition browserFrameExtractInputSchema : schema :=
  ZObject true [
    ("tabId", tabIdSchema);
    ("frame", browserFrameNameSchema);
    ("selector", ZOptional browserFrameSelectorSchema);
    ("format", ZOptional (ZEnum ["text"; "html"; "json"]));
    ("completion", ZOptional (ZEnum ["visible"; "document"]))].
Definition browserFrameExtractResultSchema : schema :=
  ZObject true [
    ("tabId", tabIdSchema);
    ("frame", browserFrameNameSchema);
    ("format", ZEnum ["text"; "html"; "json"]);
    ("value", ZUnknown);
    ("completeness", ZOptional browserExtractionCompletenessSchema)].
Definition browserFrameClickInputSchema : schema :=
  ZRefine (ZObject true [
    ("tabId", tabIdSchema);
    ("frame", browserFrameNameSchema);
    ("selector", ZOptional browserFrameSelectorSchema);
    ("text", ZOptional (ZString [MinLength 1; MaxLength 500]));
    ("match", ZOptional (ZEnum ["exact"; "contains"]));
    ("index", ZOptional (ZNumber [Int; AtLeast 0]));
    ("confirmationId", confirmationIdSchema);
    ("knownRevision", knownRevisionSchema)]) (any_given ["selector"; "text"]).
Definition browserFrameFillInputSchema : schema :=
  ZObject true [
    ("tabId", tabIdSchema);
    ("frame", browserFrameNameSchema);
    ("selector", browserFrameSelectorSchema);
    ("value", ZString [MaxLength 200000]);
    ("confirmationId", confirmationIdSchema);
    ("knownRevision", knownRevisionSchema)].
Definition browserScreenshotInputSchema : schema :=
  ZObject true [
    ("tabId", tabIdSchema);
    ("fullPage", ZOptional ZBoolean)].
Definition browserScreenshotResultSchema : schema :=
  ZObject true [
    ("tabId", tabIdSchema);
    ("path", ZString [MinLength 1; MaxLength 4096]);
    ("sizeBytes", ZNumber [Int; AtLeast 0])].
Definition browserTabActionInputSchema : schema :=
  ZObject true [
    ("tabId", tabIdSchema)].
Definition browserCloseTabInputSchema : schema :=
  ZObject true [
    ("tabId", tabIdSchema);
    ("confirmationId", confirmationIdSchema)].
Definition browserFinishTaskInputSchema : schema :=
  ZObject true [
    ("taskId", ZOptional taskIdSchema)].
Definition browserFinishTaskResultSchema : schema :=
  ZObject true [
    ("completed", ZLiteral (LBool true));
    ("taskId", ZOptional taskIdSchema);
    ("closedTabs", ZNumber [Int; AtLeast 0]);
    ("browserClosed", ZBoolean)].
Definition browserDownloadInputSchema : schema :=
  ZRefine (ZObject true [
    ("tabId", tabIdSchema);
    ("ref", ZOptional (ZString [MinLength 1; MaxLength 128]));
    ("url", ZOptional (ZFormat Url));
    ("confirmationId", confirmationIdSchema)]) (any_given ["ref"; "url"]).
Definition browserDownloadResultSchema : schema :=
  ZObject true [
    ("tabId", tabIdSchema);
    ("path", ZString [MinLength 1; MaxLength 4096]);
    ("suggestedFilename", ZOptional (ZString [MinLength 1; MaxLength 500]));
    ("sizeBytes", ZOptional (ZNumber [Int; AtLeast 0]))].
Definition browserUploadFileSchema : schema :=
  ZObject true [
    ("name", ZString [Trimmed; MinLength 1; MaxLength 255; Satisfies file_name]);
    ("contentBase64", ZString [MaxLength 8388608]);
    ("mimeType", ZOptional (ZString [Trimmed; MinLength 1; MaxLength 255]))].
Definition browserUploadInputSchema : schema :=
  ZRefine (ZObject true [
    ("tabId", tabIdSchema);
    ("files", ZArray browserUploadFileSchema (Some 1%Z) (Some 10%Z));
    ("triggerRef", ZOptional (ZString [MinLength 1; MaxLength 128]));
    ("inputRef", ZOptional (ZString [MinLength 1; MaxLength 128]));
    ("selector", ZOptional (ZString [MinLength 1; MaxLength 2000]));
    ("confirmationId", confirmationIdSchema)]) distinct_file_names.
Definition browserUploadResultSchema : schema :=
  ZObject true [
    ("tabId", tabIdSchema);
    ("completed", ZLiteral (LBool true));
    ("fileCount", ZNumber [Int; AtLeast 1]);
    ("totalBytes", ZNumber [Int; AtLeast 0])].
Definition browserActionResultSchema : schema :=
  ZObject true [
    ("tabId", tabIdSchema);
    ("completed", ZLiteral (LBool true));
    ("state", ZOptional browserStateUpdateSchema);
    ("timing", ZOptional browserOperationTimingSchema)].
Definition browserConsoleLevelSchema : schema :=
  ZEnum ["error"; "warning"; "info"; "debug"].
Definition browserNetworkDetailSchema : schema :=
  ZEnum ["request"; "request-headers"; "request-body"; "response-headers"; "response-body"].
Definition browserArtifactKindSchema : schema :=
  ZEnum ["trace"; "video"; "pdf"].
Definition browserDiagnosticTextSchema : schema :=
  ZObject true [
    ("text", ZString [MaxLength 4194304]);
    ("truncated", ZBoolean);
    ("collectedAt", ZFormat IsoDatetime)].
Definition browserArtifactSchema : schema :=
  ZObject true [
    ("kind", browserArtifactKindSchema);
    ("path", ZString [MinLength 1; MaxLength 4096]);
    ("sizeBytes", ZNumber [Int; AtLeast 0]);
    ("createdAt", ZFormat IsoDatetime)].
Definition browserArtifactCollectionSchema : schema :=
  ZObject true [
    ("kind", browserArtifactKindSchema);
    ("files", ZArray browserArtifactSchema None (Some 5000%Z));
    ("totalBytes", ZNumber [Int; AtLeast 0]);
    ("createdAt", ZFormat IsoDatetime)].
Definition browserNetworkFilterSchema : schema :=
  ZString [MaxLength 500; Satisfies one_line; Satisfies RegExp_valid].
Definition browserArtifactFilenameSchema : schema :=
  ZString [MinLength 1; MaxLength 180; Satisfies simple_filename].
Definition browserConsoleInputSchema : schema :=
  ZObject true [
    ("tabId", tabIdSchema);
    ("level", ZOptional browserConsoleLevelSchema);
    ("clear", ZOptional ZBoolean)].
Definition browserConsoleResultSchema : schema :=
  strict (extend browserDiagnosticTextSchema [
    ("tabId", tabIdSchema)]).
Definition browserNetworkListInputSchema : schema :=
  ZObject true [
    ("tabId", tabIdSchema);
    ("includeStatic", ZOptional ZBoolean);
    ("filter", ZOptional browserNetworkFilterSchema);
    ("clear", ZOptional ZBoolean)].
Definition browserNetworkInspectInputSchema : schema :=
  ZObject true [
    ("tabId", tabIdSchema);
    ("index", ZNumber [Int; AtLeast 1]);
    ("detail", ZOptional browserNetworkDetailSchema)].
Definition browserNetworkResultSchema : schema :=
  strict (extend browserDiagnosticTextSchema [
    ("tabId", tabIdSchema)]).
Definition browserTraceInputSchema : schema :=
  ZObject true [
    ("tabId", tabIdSchema)].
Definition browserTraceStartResultSchema : schema :=
  ZObject true [
    ("tabId", tabIdSchema);
    ("active", ZLiteral (LBool true))].
Definition browserTraceStopResultSchema : schema :=
  strict (extend browserArtifactCollectionSchema [
    ("tabId", tabIdSchema);
    ("kind", ZLiteral (LText "trace"))]).
Definition browserVideoStartInputSchema : schema :=
  ZRefine (ZObject true [
    ("tabId", tabIdSchema);
    ("filename", ZOptional browserArtifactFilenameSchema);
    ("width", ZOptional (ZNumber [Int; AtLeast 64; AtMost 3840]));
    ("height", ZOptional (ZNumber [Int; AtLeast 64; AtMost 2160]))]) (both_or_none "width" "height").
Definition browserVideoStartResultSchema : schema :=
  ZObject true [
    ("tabId", tabIdSchema);
    ("path", ZString [MinLength 1; MaxLength 4096]);
    ("active", ZLiteral (LBool true))].
Definition browserVideoStopInputSchema : schema :=
  browserTraceInputSchema.
Definition browserVideoStopResultSchema : schema :=
  strict (extend browserArtifactSchema [
    ("tabId", tabIdSchema);
    ("kind", ZLiteral (LText "video"))]).
Definition browserPdfInputSchema : schema :=
  ZObject true [
    ("tabId", tabIdSchema);
    ("filename", ZOptional browserArtifactFilenameSchema)].
Definition browserPdfResultSchema : schema :=
  strict (extend browserArtifactSchema [
    ("tabId", tabIdSchema);
    ("kind", ZLiteral (LText "pdf"))]).
Definition browserDiagnosticsInputSchema : schema :=
  ZObject true [
    ("tabId", tabIdSchema);
    ("consoleLevel", ZOptional browserConsoleLevelSchema);
    ("includeStaticRequests", ZOptional ZBoolean);
    ("requestFilter", ZOptional browserNetworkFilterSchema);
    ("clearAfterRead", ZOptional ZBoolean)].
Definition browserDiagnosticsResultSchema : schema :=
  ZObject true [
    ("tabId", tabIdSchema);
    ("console", browserDiagnosticTextSchema);
    ("network", browserDiagnosticTextSchema);
    ("traceActive", ZBoolean);
    ("videoActive", ZBoolean);
    ("collectedAt", ZFormat IsoDatetime)].
Definition browserOperationSchema : schema :=
  ZEnum ["status"; "connect"; "tabs"; "open"; "openAuthorizedSite"; "navigate"; "snapshot"; "click"; "fill"; "press";
    "wait"; "extract"; "sequence"; "frameExtract"; "frameClick"; "frameFill"; "profilePage"; "domIndex";
    "frameSequence"; "navigatePath"; "screenshot"; "goBack"; "goForward"; "closeTab"; "finishTask"; "download";
    "upload"; "console"; "networkList"; "networkInspect"; "traceStart"; "traceStop"; "videoStart"; "videoStop";
    "pdf"; "diagnostics"].
Definition browserOperationRequestSchema : schema :=
  ZObject true [
    ("operation", browserOperationSchema);
    ("input", ZUnknown)].
Definition browserOperationResponseSchema : schema :=
  ZDiscriminated "ok" [
    ZObject true [
      ("ok", ZLiteral (LBool true));
      ("result", ZUnknown)];
    ZObject true [
      ("ok", ZLiteral (LBool false));
      ("error", ZObject true [
        ("code", ZEnum errorCodes);
        ("message", ZString [MinLength 1; MaxLength 2000]);
        ("lifecycle", ZOptional operationLifecycleSchema)])]].
Definition browserOperationInputSchemas : list (string * schema) := [
    ("status", browserStatusInputSchema);
    ("connect", browserConnectInputSchema);
    ("tabs", browserTabsInputSchema);
    ("open", browserOpenInputSchema);
    ("openAuthorizedSite", browserOpenAuthorizedSiteInputSchema);
    ("navigate", browserNavigateInputSchema);
    ("snapshot", browserSnapshotInputSchema);
    ("click", browserClickInputSchema);
    ("fill", browserFillInputSchema);
    ("press", browserPressInputSchema);
    ("wait", browserWaitInputSchema);
    ("extract", browserExtractInputSchema);
    ("sequence", browserSequenceInputSchema);
    ("frameExtract", browserFrameExtractInputSchema);
    ("frameClick", browserFrameClickInputSchema);
    ("frameFill", browserFrameFillInputSchema);
    ("profilePage", browserProfilePageInputSchema);
    ("domIndex", browserDomIndexInputSchema);
    ("frameSequence", browserFrameSequenceInputSchema);
    ("navigatePath", browserNavigatePathInputSchema);
    ("screenshot", browserScreenshotInputSchema);
    ("goBack", browserTabActionInputSchema);
    ("goForward", browserTabActionInputSchema);
    ("closeTab", browserCloseTabInputSchema);
    ("finishTask", browserFinishTaskInputSchema);
    ("download", browserDownloadInputSchema);
    ("upload", browserUploadInputSchema);
    ("console", browserConsoleInputSchema);
    ("networkList", browserNetworkListInputSchema);
    ("networkInspect", browserNetworkInspectInputSchema);
    ("traceStart", browserTraceInputSchema);
    ("traceStop", browserTraceInputSchema);
    ("videoStart", browserVideoStartInputSchema);
    ("videoStop", browserVideoStopInputSchema);
    ("pdf", browserPdfInputSchema);
    ("diagnostics", browserDiagnosticsInputSchema)].
Definition browserOperationResultSchemas : list (string * schema) := [
    ("status", browserStatusResultSchema);
    ("connect", browserConnectResultSchema);
    ("tabs", browserTabsResultSchema);
    ("open", browserTabResultSchema);
    ("openAuthorizedSite", browserOpenAuthorizedSiteResultSchema);
    ("navigate", browserTabResultSchema);
    ("snapshot", browserSnapshotResultSchema);
    ("click", browserActionResultSchema);
    ("fill", browserActionResultSchema);
    ("press", browserActionResultSchema);
    ("wait", browserActionResultSchema);
    ("extract", browserExtractResultSchema);
    ("sequence", browserSequenceResultSchema);
    ("frameExtract", browserFrameExtractResultSchema);
    ("frameClick", browserActionResultSchema);
    ("frameFill", browserActionResultSchema);
    ("profilePage", browserProfilePageResultSchema);
    ("domIndex", browserDomIndexResultSchema);
    ("frameSequence", browserFrameSequenceResultSchema);
    ("navigatePath", browserNavigatePathResultSchema);
    ("screenshot", browserScreenshotResultSchema);
    ("goBack", browserTabResultSchema);
    ("goForward", browserTabResultSchema);
    ("closeTab", browserActionResultSchema);
    ("finishTask", browserFinishTaskResultSchema);
    ("download", browserDownloadResultSchema);
    ("upload", browserUploadResultSchema);
    ("console", browserConsoleResultSchema);
    ("networkList", browserNetworkResultSchema);
    ("networkInspect", browserNetworkResultSchema);
    ("traceStart", browserTraceStartResultSchema);
    ("traceStop", browserTraceStopResultSchema);
    ("videoStart", browserVideoStartResultSchema);
    ("videoStop", browserVideoStopResultSchema);
    ("pdf", browserPdfResultSchema);
    ("diagnostics", browserDiagnosticsResultSchema)].
End Contracts.

(** *** Operations *)
Section Tables.
Context `{JN : JsNumber} `{JI : !JsInteger JN}.

(** The operations, the input schemas and the result schemas are the same, each once. *)
Lemma browser_operations_agree depth valid :
  browserOperationSchema = ZEnum (map fst (browserOperationInputSchemas valid))
  /\ map fst (browserOperationResultSchemas depth) = map fst (browserOperationInputSchemas valid)
  /\ NoDup (map fst (browserOperationInputSchemas valid)).
Proof. split_and!; [reflexivity|reflexivity|]. apply (bool_decide_unpack _). vm_compute. exact I. Qed.
End Tables.

(** *** The output of an authorized site *)
Section AuthorizedSite.
Context `{JN : JsNumber} `{JI : !JsInteger JN} {JL : JsIntegerLaws JN JI}.

(** The published schema asks for a [siteId] at the top, and the schema of opened sites,
    which is strict, has none there. *)
Lemma opened_without_site ok w p es :
  run ok browserOpenAuthorizedSiteOpenedResultSchema (VObject p es) = Some w -> own "siteId" es = None.
Proof.
  intros (p' & es' & ws & [= <- <-] & _ & _ & E)%object_parsed. specialize (E eq_refl). apply own_none. intros Hin.
  apply (proj1 (known_keys_spec _ es)) with (k := "siteId") in E; [|done]. revert E. clear.
  assert (H : bool_decide ("siteId" ∈ ["status"; "taskId"; "tabId"; "authorization"; "authentication"; "site"; "state"; "timing"]) = false)
    by by vm_compute. by apply bool_decide_eq_false in H.
Qed.

(** No result of [browser_open_authorized_site] that says [opened] passes the schema its
    tool publishes: what passes asks for a confirmation. *)
Theorem opened_site_rejected {ZP : Zod} {ZL : ZodLaws ZP} v w :
  zod_parse (browserOpenAuthorizedSiteToolResultSchema format_ok) v = Some w ->
  field "status" w = VString "confirmation_required".
Proof.
  rewrite parse_run. intros [H Ht]%refine_parsed. apply object_parsed in H as (p & es & ws & -> & -> & E & _).
  destruct (run format_ok browserOpenAuthorizedSiteResultSchema _) as [u|] eqn:Er; [|done]. clear Ht.
  apply discriminated_parsed in Er as (p' & es' & s & [= <- <-] & Hin & Hsel & Er).
  apply elem_of_cons in Hin as [->|Hin].
  - change (literal_is (LText "confirmation_required") (own_value "status" ws) = true) in Hsel. cbn [field].
    destruct (own_value "status" ws) as [| | | |t| | |]; try discriminate Hsel. cbn [literal_is] in Hsel.
    apply String.eqb_eq in Hsel. by rewrite Hsel.
  - apply elem_of_cons in Hin as [->|Hin]; [|by apply elem_of_nil in Hin]. apply opened_without_site in Er.
    edestruct (shape_own (run format_ok)) with (k := "siteId") as (x & Hx & Hown); [|exact E| |].
    + apply (bool_decide_unpack _). vm_compute. exact I.
    + do 2 right. left.
    + rewrite Er in Hown. cbn [run] in Hx. destruct (own_value "siteId" es); try done.
      destruct (run_steps _ s); simplify_eq/=.
Qed.
End AuthorizedSite.

Module Trial.
#[local] Instance any_zod : Zod := run_zod (fun _ _ => true).
Definition opened : value (JN := whole_numbers) :=
  VObject true [("status", VString "opened"); ("taskId", VString "t"); ("tabId", VString "1");
    ("authorization", VObject true [("status", VString "granted"); ("expiresAt", VString "2024-05-01T10:00:00.000Z")]);
    ("authentication", VObject true [("status", VString "not-required")]);
    ("site", VObject true [("siteId", VString "crm"); ("accessMode", VString "business-read-only")])].
(** The result is valid, and is refused with and without a [siteId]. *)
Example opened_is_valid : is_Some (zod_parse browserOpenAuthorizedSiteResultSchema opened).
Proof. vm_compute. by eexists. Qed.
Example opened_is_refused :
  zod_parse (browserOpenAuthorizedSiteToolResultSchema format_ok) opened = None
  /\ zod_parse (browserOpenAuthorizedSiteToolResultSchema format_ok)
       (match opened with VObject p es => VObject p (es ++ [("siteId", VString "crm")]) | v => v end) = None.
Proof. split; vm_compute; reflexivity. Qed.
Lemma opened_site_rejected_witness :
  let confirmation := VObject (JN := whole_numbers) true [("status", VString "confirmation_required"); ("taskId", VString "t");
    ("siteId", VString "crm"); ("confirmationId", VString "c"); ("expiresAt", VString "2024-05-01T10:00:00.000Z");
    ("reasons", VArray [VString "first use"])] in
  field "status" confirmation = VString "confirmation_required".
Proof.
  intros confirmation. apply (opened_site_rejected confirmation confirmation). vm_compute. reflexivity.
Defined.
End Trial.
