(* ===== verification/Confirmation.v ===== *)
(** One-shot confirmations.

    Three registries of the source work the same way: a confirmation is created
    for a binding (what exactly is confirmed), expires, and can be consumed once,
    for the same binding.  They are
    - [Command]: services/workspace-agent/src/shell/confirmation.ts;
    - [Browser]: services/browser-worker/domain/confirmation-registry.ts;
    - [Typed]: packages/mcp-core/src/typed-confirmation.ts.
    [OneShot] is the interface their clients rely on.  Identifiers come from
    [randomBytes] and are an input of [create]; every reading of the clock is an
    argument of its own. *)
From S2P Require Import Prelude Errors JsString JsRegex Analysis.
Open Scope Z_scope.

(** *** The registry of pending confirmations *)
Record PendingConfirmation (B : Type) := mkPending { pc_binding : B; pc_expiresAtMs : Z }.
Arguments mkPending {B} _ _.
Arguments pc_binding {B} _.
Arguments pc_expiresAtMs {B} _.

Notation Pending B := (gmap string (PendingConfirmation B)).

(** [safeEqual]: equality of the UTF-8 encodings, in constant time. *)
Definition safeEqual (left right : string) : bool := left =s right.

Section Registry.
Context {B : Type} (sameBinding : B -> B -> bool) (invalid : string -> exn).
Context (missing mismatch : string).

(** [pruneExpired], with its reading of the clock. *)
Definition pruneExpired (now : Z) (pending : Pending B) : Pending B :=
  filter (fun e => ~ (pc_expiresAtMs e.2 <= now)) pending.

Definition create_pending (ttlMs : Z) (id : string) (binding : B) (now1 now2 : Z) (pending : Pending B) :
    Pending B :=
  <[id := mkPending binding (now2 + ttlMs)]> (pruneExpired now1 pending).

Definition consume_pending (id : string) (binding : B) (now1 now2 : Z) (pending : Pending B) :
    Pending B * result exn unit :=
  let pending := pruneExpired now1 pending in
  match pending !! id with
  | None => (delete id pending, Err (invalid missing))
  | Some p =>
      if pc_expiresAtMs p <=? now2 then (delete id pending, Err (invalid missing))
      else if negb (sameBinding (pc_binding p) binding) then (pending, Err (invalid mismatch))
      else (delete id pending, Ok tt)
  end.
End Registry.

(** *** services/workspace-agent/src/shell/confirmation.ts *)
Inductive ExecutionContext := foreground | background.

#[export] Instance ExecutionContext_eq_dec : EqDecision ExecutionContext.
Proof. solve_decision. Defined.

Record CommandConfirmationBinding := mkCommandBinding {
  cb_workspaceId : string;
  cb_shell : ShellName;
  cb_cwd : string;
  cb_command : string;
  cb_executionContext : ExecutionContext;
  cb_operation : string;
  cb_interactive : bool;
}.

Module Command.
Definition DEFAULT_TTL_MS : Z := 10 * 60 * 1000.
Definition sameBinding (left right : CommandConfirmationBinding) : bool :=
  safeEqual (cb_workspaceId left) (cb_workspaceId right)
  && bool_decide (cb_shell left = cb_shell right)
  && safeEqual (cb_cwd left) (cb_cwd right)
  && safeEqual (cb_command left) (cb_command right)
  && bool_decide (cb_executionContext left = cb_executionContext right)
  && safeEqual (cb_operation left) (cb_operation right)
  && Bool.eqb (cb_interactive left) (cb_interactive right).
Definition create := create_pending (B := CommandConfirmationBinding) DEFAULT_TTL_MS.
Definition consume :=
  consume_pending sameBinding (app_error COMMAND_CONFIRMATION_INVALID)
    "Command confirmation is missing or expired." "Command confirmation does not match this command.".
End Command.

(** *** services/browser-worker/domain/confirmation-registry.ts *)
Inductive BrowserConfirmationCategory :=
| submit_form | publish_content | send_message | delete_or_cancel | purchase_or_payment
| change_credentials | accept_terms_or_contract | upload_file.

#[export] Instance BrowserConfirmationCategory_eq_dec : EqDecision BrowserConfirmationCategory.
Proof. solve_decision. Defined.

Record BrowserConfirmationBinding := mkBrowserBinding {
  bb_tabId : string;
  bb_origin : string;
  bb_url : string;
  bb_category : BrowserConfirmationCategory;
  bb_action : string;
  bb_target : string;
}.

Module Browser.
Definition DEFAULT_TTL_MS : Z := 10 * 60 * 1000.
Definition sameBinding (left right : BrowserConfirmationBinding) : bool :=
  safeEqual (bb_tabId left) (bb_tabId right)
  && safeEqual (bb_origin left) (bb_origin right)
  && safeEqual (bb_url left) (bb_url right)
  && bool_decide (bb_category left = bb_category right)
  && safeEqual (bb_action left) (bb_action right)
  && safeEqual (bb_target left) (bb_target right).
Definition create := create_pending (B := BrowserConfirmationBinding) DEFAULT_TTL_MS.
Definition consume :=
  consume_pending sameBinding (app_error BROWSER_CONFIRMATION_INVALID)
    "Browser confirmation is missing or expired." "Browser confirmation does not match this action.".
Definition clear (pending : Pending BrowserConfirmationBinding) : Pending BrowserConfirmationBinding := ∅.
(** The pruned registry, and the answer. *)
Definition hasPendingTabs (tabIds : list string) (now : Z) (pending : Pending BrowserConfirmationBinding) :
    Pending BrowserConfirmationBinding * bool :=
  let pending := pruneExpired now pending in
  (pending, existsb (fun p => includes tabIds (bb_tabId (pc_binding p.2))) (map_to_list pending)).
Definition discardTabs (tabIds : list string) (pending : Pending BrowserConfirmationBinding) :
    Pending BrowserConfirmationBinding :=
  filter (fun e => bb_tabId (pc_binding e.2) ∉ tabIds) pending.
End Browser.

(** *** packages/mcp-core/src/typed-confirmation.ts *)
(** [confirmableSourceControlOperationNameSchema] *)
Inductive ConfirmableOperation :=
| git_push_branch | github_create_repository | github_create_pull_request | github_merge_pull_request.

#[export] Instance ConfirmableOperation_eq_dec : EqDecision ConfirmableOperation.
Proof. solve_decision. Defined.

Record TypedConfirmationBinding := mkTypedBinding {
  tb_workspaceId : string;
  tb_operation : ConfirmableOperation;
  tb_targetResource : string;
  tb_canonicalArgumentsDigest : string;
}.

Module Typed.
Definition MAX_TYPED_CONFIRMATION_TTL_MS : Z := 10 * 60 * 1000.

(** The constructor: the TTL of the options, or the maximum. *)
Definition registry_ttl (ttlMs : option Z) : result exn Z :=
  let ttlMs := default MAX_TYPED_CONFIRMATION_TTL_MS ttlMs in
  if (ttlMs <=? 0) || (MAX_TYPED_CONFIRMATION_TTL_MS <? ttlMs) then Err (Native "RangeError") else Ok ttlMs.

Definition hex_digit (c : ascii) : bool := has_char c "abcdef0123456789".
(** [/^[a-f0-9]{64}$/u] *)
Definition SHA256_HEX : re := seqs [Bol; Rep true 64 (Some 64%nat) (Cls hex_digit); Eol].

Definition parseBinding (binding : TypedConfirmationBinding) : result exn TypedConfirmationBinding :=
  if sempty (trim (tb_workspaceId binding)) then Err (Native "TypeError")
  else if sempty (trim (tb_targetResource binding)) then Err (Native "TypeError")
  else if negb (test SHA256_HEX (tb_canonicalArgumentsDigest binding)) then Err (Native "TypeError")
  else Ok binding.

Definition sameBinding (left right : TypedConfirmationBinding) : bool :=
  safeEqual (tb_workspaceId left) (tb_workspaceId right)
  && bool_decide (tb_operation left = tb_operation right)
  && safeEqual (tb_targetResource left) (tb_targetResource right)
  && safeEqual (tb_canonicalArgumentsDigest left) (tb_canonicalArgumentsDigest right).

Definition create (ttlMs : Z) (id : string) (binding : TypedConfirmationBinding) (now1 now2 : Z)
    (pending : Pending TypedConfirmationBinding) : result exn (Pending TypedConfirmationBinding) :=
  (fun parsed => create_pending ttlMs id parsed now1 now2 pending) <$> parseBinding binding.

Definition consume (id : string) (binding : TypedConfirmationBinding) (now1 now2 : Z)
    (pending : Pending TypedConfirmationBinding) :
    Pending TypedConfirmationBinding * result exn unit :=
  match parseBinding binding with
  | Err e => (pending, Err e)
  | Ok parsed =>
      consume_pending sameBinding (app_error SOURCE_CONTROL_CONFIRMATION_INVALID)
        "Source-control confirmation is missing or expired."
        "Source-control confirmation does not match this typed operation." id parsed now1 now2 pending
  end.
End Typed.

(** *** The interface *)
(** What a registry offers, and the confirmations that stand in it: [live r id b e]
    says that [id] confirms [b] until the instant [e]. *)
Class OneShot (R B : Type) := {
  os_ttl : Z;
  os_empty : R;
  os_create : string -> B -> Z -> Z -> R -> R;
  os_consume : string -> B -> Z -> Z -> R -> R * result exn unit;
}.

Class OneShotLaws (R B : Type) `{OneShot R B} := {
  os_code : ErrorCode;
  confirmable : B -> Prop;
  live : R -> string -> B -> Z -> Prop;
  live_empty : forall id b e, ~ live os_empty id b e;
  live_create : forall id b t1 t2 r id' b' e,
    live (os_create id b t1 t2 r) id' b' e ->
    (id' = id /\ b' = b /\ e = t2 + os_ttl) \/ live r id' b' e;
  create_live : forall id b t1 t2 r,
    confirmable b -> live (os_create id b t1 t2 r) id b (t2 + os_ttl);
  live_consume : forall id b t1 t2 r id' b' e,
    live (os_consume id b t1 t2 r).1 id' b' e -> live r id' b' e;
  consume_succeeds : forall id b t1 t2 r,
    confirmable b ->
    (os_consume id b t1 t2 r).2 = Ok tt <-> exists e, live r id b e /\ t1 < e /\ t2 < e;
  consume_refuses : forall id b t1 t2 r,
    confirmable b ->
    (os_consume id b t1 t2 r).2 = Ok tt \/ err_code (os_consume id b t1 t2 r).2 = Some os_code;
  consume_spends : forall id b t1 t2 r b' e,
    (os_consume id b t1 t2 r).2 = Ok tt -> ~ live (os_consume id b t1 t2 r).1 id b' e;
}.

(** Registries over time: a sequence of creations and consumptions. *)
Inductive RegistryEvent (B : Type) :=
| Create (id : string) (binding : B) (now1 now2 : Z)
| Consume (id : string) (binding : B) (now1 now2 : Z).
Arguments Create {B} _ _ _ _.
Arguments Consume {B} _ _ _ _.

Definition apply_event {R B} `{OneShot R B} (r : R) (ev : RegistryEvent B) : R :=
  match ev with
  | Create id b t1 t2 => os_create id b t1 t2 r
  | Consume id b t1 t2 => (os_consume id b t1 t2 r).1
  end.
Definition after {R B} `{OneShot R B} (events : list (RegistryEvent B)) : R :=
  fold_left apply_event events os_empty.
Definition created {B} (events : list (RegistryEvent B)) : list string :=
  flat_map (fun ev => match ev with Create id _ _ _ => [id] | Consume _ _ _ _ => [] end) events.

#[export] Instance command_registry : OneShot (Pending CommandConfirmationBinding) CommandConfirmationBinding := {|
  os_ttl := Command.DEFAULT_TTL_MS; os_empty := ∅; os_create := Command.create; os_consume := Command.consume;
|}.
#[export] Instance browser_registry : OneShot (Pending BrowserConfirmationBinding) BrowserConfirmationBinding := {|
  os_ttl := Browser.DEFAULT_TTL_MS; os_empty := ∅; os_create := Browser.create; os_consume := Browser.consume;
|}.
(** A registry of typed confirmations, for a TTL its constructor accepts; a
    binding that is not well formed leaves it as it is. *)
Definition typed_registry (ttlMs : Z) :
    OneShot (Pending TypedConfirmationBinding) TypedConfirmationBinding := {|
  os_ttl := ttlMs; os_empty := ∅;
  os_create := fun id b t1 t2 r => match Typed.create ttlMs id b t1 t2 r with Ok r' => r' | Err _ => r end;
  os_consume := Typed.consume;
|}.

(** ** The registries satisfy the interface *)
Section PendingLaws.
Context {B : Type}.

Definition pending_live (pending : Pending B) (id : string) (b : B) (e : Z) : Prop :=
  pending !! id = Some (mkPending b e).

Lemma prune_lookup now (pending : Pending B) id p :
  pruneExpired now pending !! id = Some p <-> pending !! id = Some p /\ now < pc_expiresAtMs p.
Proof. unfold pruneExpired. rewrite map_lookup_filter_Some. simpl. naive_solver lia. Qed.

Lemma pending_create ttl id b t1 t2 (r : Pending B) id' b' e :
  pending_live (create_pending ttl id b t1 t2 r) id' b' e ->
  (id' = id /\ b' = b /\ e = t2 + ttl) \/ pending_live r id' b' e.
Proof.
  unfold pending_live, create_pending. rewrite lookup_insert_Some, prune_lookup. naive_solver.
Qed.

Lemma pending_created ttl id b t1 t2 (r : Pending B) :
  pending_live (create_pending ttl id b t1 t2 r) id b (t2 + ttl).
Proof. unfold pending_live, create_pending. apply lookup_insert_eq. Qed.

End PendingLaws.

Section RegistryLaws.
Context {B : Type} (sameBinding : B -> B -> bool) (invalid : string -> exn).
Context (missing mismatch : string).
Context (same_eq : forall a b, sameBinding a b = true <-> a = b).

(** The cases of a consumption. *)
Lemma consume_cases id b t1 t2 (r : Pending B) :
  let c := consume_pending sameBinding invalid missing mismatch id b t1 t2 r in
  (exists e, pending_live r id b e /\ t1 < e /\ t2 < e /\
     c = (delete id (pruneExpired t1 r), Ok tt)) \/
  ((forall e, pending_live r id b e -> e <= t1 \/ e <= t2) /\
   exists m r', c = (r', Err (invalid m)) /\ (r' = pruneExpired t1 r \/ r' = delete id (pruneExpired t1 r))).
Proof.
  cbn zeta. unfold consume_pending, pending_live.
  destruct (pruneExpired t1 r !! id) as [p|] eqn:E.
  - apply prune_lookup in E as [Hr Ht]. destruct (pc_expiresAtMs p <=? t2) eqn:Ht2.
    + right. apply Z.leb_le in Ht2. split; [|by eauto 6].
      intros e He. rewrite Hr in He. injection He as ->. simpl in *. lia.
    + apply Z.leb_gt in Ht2. destruct (sameBinding (pc_binding p) b) eqn:Es.
      * left. apply same_eq in Es as <-. exists (pc_expiresAtMs p). destruct p; simpl in *. naive_solver.
      * right. split; [|by eauto 6]. intros e He. rewrite Hr in He. injection He as ->. simpl in Es.
        by rewrite (proj2 (same_eq b b)) in Es.
  - right. split; [|by eauto 6]. intros e He.
    destruct (decide (e <= t1)); [by left|exfalso].
    assert (pruneExpired t1 r !! id = Some (mkPending b e)) as H by (apply prune_lookup; simpl; split; [done|lia]).
    congruence.
Qed.

Lemma consumed_live id b t1 t2 (r : Pending B) id' b' e :
  pending_live (consume_pending sameBinding invalid missing mismatch id b t1 t2 r).1 id' b' e ->
  pending_live r id' b' e.
Proof.
  intros H. assert (pending_live (pruneExpired t1 r) id' b' e -> pending_live r id' b' e) as Hp.
  { unfold pending_live. rewrite prune_lookup. naive_solver. }
  apply Hp. destruct (consume_cases id b t1 t2 r) as [(e' & _ & _ & _ & Hc)|(_ & m & r' & Hc & Hr)];
    rewrite Hc in H; simpl in H; [|destruct Hr as [->| ->]; [exact H|]];
    unfold pending_live in *; by apply lookup_delete_Some in H as [_ ?].
Qed.

Lemma consume_pending_ok id b t1 t2 (r : Pending B) :
  (consume_pending sameBinding invalid missing mismatch id b t1 t2 r).2 = Ok tt <->
  exists e, pending_live r id b e /\ t1 < e /\ t2 < e.
Proof.
  destruct (consume_cases id b t1 t2 r) as [(e & Hl & H1 & H2 & ->)|(Hn & m & r' & -> & _)]; simpl.
  - split; [|done]. eauto.
  - split; [done|]. intros (e & Hl & H1 & H2). destruct (Hn e Hl); lia.
Qed.

Lemma consume_pending_spends id b t1 t2 (r : Pending B) b' e :
  (consume_pending sameBinding invalid missing mismatch id b t1 t2 r).2 = Ok tt ->
  ~ pending_live (consume_pending sameBinding invalid missing mismatch id b t1 t2 r).1 id b' e.
Proof.
  destruct (consume_cases id b t1 t2 r) as [(e' & _ & _ & _ & ->)|(_ & m & r' & -> & _)]; simpl; [|done].
  intros _. unfold pending_live. by rewrite lookup_delete_eq.
Qed.
End RegistryLaws.

Ltac same_binding :=
  intros [] []; unfold Command.sameBinding, Browser.sameBinding, Typed.sameBinding, safeEqual; simpl;
  rewrite ?andb_true_iff, ?String.eqb_eq, ?bool_decide_eq_true, ?Bool.eqb_true_iff; split; [intuition congruence|injection 1; intros; subst; auto 10].
Lemma command_same a b : Command.sameBinding a b = true <-> a = b.
Proof. revert a b. same_binding. Qed.
Lemma browser_same a b : Browser.sameBinding a b = true <-> a = b.
Proof. revert a b. same_binding. Qed.
Lemma typed_same a b : Typed.sameBinding a b = true <-> a = b.
Proof. revert a b. same_binding. Qed.

Lemma parse_same b p : Typed.parseBinding b = Ok p -> p = b.
Proof.
  unfold Typed.parseBinding.
  destruct (sempty _); [done|]. destruct (sempty _); [done|]. destruct (negb _); [done|]. by intros [= ->].
Qed.

#[export] Program Instance command_laws :
  OneShotLaws (Pending CommandConfirmationBinding) CommandConfirmationBinding := {|
  os_code := COMMAND_CONFIRMATION_INVALID;
  confirmable := fun _ => True;
  live := pending_live;
|}.
Next Obligation. unfold pending_live. intros. simpl. by rewrite lookup_empty. Qed.
Next Obligation. intros * H. by apply pending_create in H. Qed.
Next Obligation. intros. apply pending_created. Qed.
Next Obligation. intros * H. exact (consumed_live _ _ _ _ command_same _ _ _ _ _ _ _ _ H). Qed.
Next Obligation. intros. exact (consume_pending_ok _ _ _ _ command_same _ _ _ _ _). Qed.
Next Obligation.
  intros id b t1 t2 r _.
  destruct (consume_cases Command.sameBinding (app_error COMMAND_CONFIRMATION_INVALID)
    "Command confirmation is missing or expired." "Command confirmation does not match this command."
    command_same id b t1 t2 r) as [(e & _ & _ & _ & Hc)|(_ & m & r' & Hc & _)];
    [left|right]; simpl; unfold Command.consume; by rewrite Hc.
Qed.
Next Obligation. intros * H. exact (consume_pending_spends _ _ _ _ command_same _ _ _ _ _ _ _ H). Qed.

#[export] Program Instance browser_laws :
  OneShotLaws (Pending BrowserConfirmationBinding) BrowserConfirmationBinding := {|
  os_code := BROWSER_CONFIRMATION_INVALID;
  confirmable := fun _ => True;
  live := pending_live;
|}.
Next Obligation. unfold pending_live. intros. simpl. by rewrite lookup_empty. Qed.
Next Obligation. intros * H. by apply pending_create in H. Qed.
Next Obligation. intros. apply pending_created. Qed.
Next Obligation. intros * H. exact (consumed_live _ _ _ _ browser_same _ _ _ _ _ _ _ _ H). Qed.
Next Obligation. intros. exact (consume_pending_ok _ _ _ _ browser_same _ _ _ _ _). Qed.
Next Obligation.
  intros id b t1 t2 r _.
  destruct (consume_cases Browser.sameBinding (app_error BROWSER_CONFIRMATION_INVALID)
    "Browser confirmation is missing or expired." "Browser confirmation does not match this action."
    browser_same id b t1 t2 r) as [(e & _ & _ & _ & Hc)|(_ & m & r' & Hc & _)];
    [left|right]; simpl; unfold Browser.consume; by rewrite Hc.
Qed.
Next Obligation. intros * H. exact (consume_pending_spends _ _ _ _ browser_same _ _ _ _ _ _ _ H). Qed.

#[export] Program Instance typed_laws (ttlMs : Z) :
  @OneShotLaws (Pending TypedConfirmationBinding) TypedConfirmationBinding (typed_registry ttlMs) := {|
  os_code := SOURCE_CONTROL_CONFIRMATION_INVALID;
  confirmable := fun b => Typed.parseBinding b = Ok b;
  live := pending_live;
|}.
Next Obligation. unfold pending_live. intros. simpl. by rewrite lookup_empty. Qed.
Next Obligation.
  intros ttlMs id b t1 t2 r id' b' e H. simpl in H. unfold Typed.create in H.
  destruct (Typed.parseBinding b) as [p|] eqn:E; simpl in H; [|by right].
  apply pending_create in H. enough (p = b) as -> by done. by apply parse_same.
Qed.
Next Obligation.
  intros ttlMs id b t1 t2 r H. simpl. unfold Typed.create. rewrite H. apply pending_created.
Qed.
Next Obligation.
  intros ttlMs id b t1 t2 r id' b' e H. simpl in H. unfold Typed.consume in H.
  destruct (Typed.parseBinding b); simpl in H; [|done]. exact (consumed_live _ _ _ _ typed_same _ _ _ _ _ _ _ _ H).
Qed.
Next Obligation.
  intros ttlMs id b t1 t2 r H. simpl. unfold Typed.consume. rewrite H.
  exact (consume_pending_ok _ _ _ _ typed_same _ _ _ _ _).
Qed.
Next Obligation.
  intros ttlMs id b t1 t2 r H. simpl. unfold Typed.consume. rewrite H.
  destruct (consume_cases Typed.sameBinding (app_error SOURCE_CONTROL_CONFIRMATION_INVALID)
    "Source-control confirmation is missing or expired."
    "Source-control confirmation does not match this typed operation."
    typed_same id b t1 t2 r) as [(e & _ & _ & _ & Hc)|(_ & m & r' & Hc & _)];
    [left|right]; by rewrite Hc.
Qed.
Next Obligation.
  intros ttlMs id b t1 t2 r b' e H. simpl in *. unfold Typed.consume in *.
  destruct (Typed.parseBinding b) as [p|] eqn:E; [|done].
  apply parse_same in E as ->. exact (consume_pending_spends _ _ _ _ typed_same _ _ _ _ _ _ _ H).
Qed.

(** ** Confirmations over time *)
Section Traces.
Context {R B : Type} `{Laws : OneShotLaws R B}.

Lemma after_app pre post : after (R := R) (B := B) (pre ++ post) = fold_left apply_event post (after pre).
Proof. unfold after. apply fold_left_app. Qed.

Lemma live_step r ev id (b : B) e :
  live (apply_event r ev) id b e ->
  live r id b e \/ exists t1 t2, ev = Create id b t1 t2 /\ e = t2 + os_ttl.
Proof.
  destruct ev as [id' b' t1 t2|id' b' t1 t2]; simpl; intros H1.
  - apply live_create in H1 as [(-> & -> & ->)|H1]; eauto.
  - left. by eapply live_consume.
Qed.

Lemma live_steps events r id (b : B) e :
  live (fold_left apply_event events r) id b e ->
  live r id b e \/ exists t1 t2, Create id b t1 t2 ∈ events /\ e = t2 + os_ttl.
Proof.
  revert r. induction events as [|ev events IH]; intros r Hl; [by left|].
  apply IH in Hl as [Hl|(t1 & t2 & Hin & ->)].
  - apply live_step in Hl as [?|(t1 & t2 & -> & ->)]; [by left|]. right. exists t1, t2. by split; [left|].
  - right. exists t1, t2. by split; [right|].
Qed.

Lemma created_in id (b : B) t1 t2 events : Create id b t1 t2 ∈ events -> id ∈ created events.
Proof.
  intros Hin%list_elem_of_In. unfold created. apply list_elem_of_In, in_flat_map.
  exists (Create id b t1 t2). split; [done|]. by left.
Qed.

(** Over any history of a registry whose identifiers are not reused, a
    consumption that succeeds was prepared: the confirmation was created before,
    for the same binding, and had not expired; and no later consumption of that
    identifier succeeds, for any binding. *)
Theorem confirmation_consumed_once (events pre post : list (RegistryEvent B)) id b t1 t2 :
  events = pre ++ Consume id b t1 t2 :: post ->
  NoDup (created events) ->
  confirmable b ->
  (os_consume id b t1 t2 (after (R := R) pre)).2 = Ok tt ->
  (exists u1 u2, Create id b u1 u2 ∈ pre /\ t2 < u2 + os_ttl) /\
  forall mid b' s1 s2 rest,
    post = mid ++ Consume id b' s1 s2 :: rest -> confirmable b' ->
    (os_consume id b' s1 s2 (after (R := R) (pre ++ Consume id b t1 t2 :: mid))).2 <> Ok tt.
Proof.
  intros -> Hnd Hb Hok. pose proof Hok as (e & Hl & _ & He)%consume_succeeds; [|done].
  assert (exists u1 u2, Create id b u1 u2 ∈ pre /\ e = u2 + os_ttl) as (u1 & u2 & Hin & ->).
  { unfold after in Hl. by apply live_steps in Hl as [Hl|?]; [apply live_empty in Hl|]. }
  split; [by exists u1, u2|]. intros mid b' s1 s2 rest -> Hb' Hok'.
  apply consume_succeeds in Hok' as (e' & Hl' & _ & _); [|done].
  rewrite after_app in Hl'. cbn [fold_left apply_event] in Hl'.
  apply live_steps in Hl' as [Hl'|(v1 & v2 & Hin' & _)].
  - by eapply consume_spends in Hl'.
  - apply created_in in Hin, Hin'. revert Hnd. unfold created. rewrite flat_map_app.
    intros (_ & Hdisj & _)%NoDup_app. apply (Hdisj id Hin).
    cbn [flat_map app]. rewrite flat_map_app. apply elem_of_app. by left.
Qed.
End Traces.

(** A confirmation of one command, used once and tried again. *)
Definition sample_binding : CommandConfirmationBinding :=
  mkCommandBinding "w1" pwsh "." "Remove-Item x" foreground "run_command" false.
Definition sample_history : list (RegistryEvent CommandConfirmationBinding) :=
  [Create "c1" sample_binding 0 0; Consume "c1" sample_binding 5 5; Consume "c1" sample_binding 6 6].

Lemma confirmation_consumed_once_witness :
  (exists u1 u2, Create "c1" sample_binding u1 u2 ∈ [Create "c1" sample_binding 0 0] /\ 5 < u2 + 600000) /\
  (os_consume (R := Pending CommandConfirmationBinding) "c1" sample_binding 6 6
     (after (firstn 2 sample_history))).2 <> Ok tt.
Proof.
  destruct (confirmation_consumed_once (R := Pending CommandConfirmationBinding)
    sample_history [Create "c1" sample_binding 0 0] [Consume "c1" sample_binding 6 6]
    "c1" sample_binding 5 5) as [H1 H2].
  - reflexivity.
  - refine (bool_decide_unpack _ _). by vm_compute.
  - exact I.
  - by vm_compute.
  - split; [exact H1|]. exact (H2 [] sample_binding 6 6 [] eq_refl I).
Defined.
