(* ===== verification/Receipts.v ===== *)
(** Receipts of source-control mutations: packages/mcp-core/src/mutation-receipts.ts, with the operation
    names of packages/mcp-core/src/source-control-contracts.ts.

    A receipt records, under an idempotency key, how far a mutation came; the
    transitions are pure functions on the receipt stored so far.
    [MutationReceiptStore] is the interface of the stores, [ReceiptStoreLaws] what
    their clients may rely on: each operation acts as its transition on the receipt
    of its key.  [InMemory] is the store that keeps them in a map; the store
    in files is in [ReceiptFiles].  A Zod error is [Native "ZodError"]. *)
From Stdlib Require Import DecimalString.
From S2P Require Import Prelude Errors JsString JsRegex JsMap Json JsonText Analysis Confirmation.

(** [sourceControlOperationNameSchema] *)
Inductive SourceControlOperationName :=
| op_git_create_branch | op_git_stage_paths | op_git_unstage_paths | op_git_commit | op_git_merge_branch
| op_git_push_branch | op_github_get_repository | op_github_create_repository | op_github_get_pull_request
| op_github_create_pull_request | op_github_merge_pull_request.

#[export] Instance SourceControlOperationName_eq_dec : EqDecision SourceControlOperationName.
Proof. solve_decision. Defined.

Definition operation_names : list (string * SourceControlOperationName) :=
  [("git_create_branch", op_git_create_branch); ("git_stage_paths", op_git_stage_paths);
   ("git_unstage_paths", op_git_unstage_paths); ("git_commit", op_git_commit);
   ("git_merge_branch", op_git_merge_branch); ("git_push_branch", op_git_push_branch);
   ("github_get_repository", op_github_get_repository); ("github_create_repository", op_github_create_repository);
   ("github_get_pull_request", op_github_get_pull_request);
   ("github_create_pull_request", op_github_create_pull_request);
   ("github_merge_pull_request", op_github_merge_pull_request)]%string.
Definition operation_name (o : SourceControlOperationName) : string :=
  match find_first (fun e => bool_decide (e.2 = o)) operation_names with Some e => e.1 | None => EmptyString end.

Record MutationReceiptIdentity := mkIdentity {
  mi_workspaceId : string;
  mi_operation : SourceControlOperationName;
  mi_targetResource : string;
  mi_canonicalArgumentsDigest : string;
  mi_idempotencyKey : string;
}.

#[export] Instance MutationReceiptIdentity_eq_dec : EqDecision MutationReceiptIdentity.
Proof. solve_decision. Defined.

Inductive MutationReceiptState := reserved | executing | completed | reconciliation_required.

#[export] Instance MutationReceiptState_eq_dec : EqDecision MutationReceiptState.
Proof. solve_decision. Defined.

Definition state_names : list (string * MutationReceiptState) :=
  [("reserved", reserved); ("executing", executing); ("completed", completed);
   ("reconciliation_required", reconciliation_required)]%string.
Definition state_name (s : MutationReceiptState) : string :=
  match find_first (fun e => bool_decide (e.2 = s)) state_names with Some e => e.1 | None => EmptyString end.

Section Receipts.
Context `{JN : JsNumber} `{JR : !JsNumberRead JN}.

Record MutationReceipt := mkReceipt {
  mr_identity : MutationReceiptIdentity;
  mr_state : MutationReceiptState;
  mr_result : option value;
}.
Inductive Disposition := execute | replay_completed | needs_reconciliation.
Record MutationReceiptReservation := mkReservation { disposition : Disposition; receipt : MutationReceipt }.

(** ** Schemas *)
Definition zod_error {A} : result exn A := Err (Native "ZodError").
(** [value[key]] of an own property. *)
Definition field (key : string) (es : list (string * value)) : option value :=
  snd <$> find_first (fun e => e.1 =s key) es.
(** [z.string().trim().min(1).max(n)] *)
Definition trimmed_text (max : option nat) (v : option value) : result exn string :=
  match v with
  | Some (VString s) =>
      let t := trim s in
      if sempty t || match max with Some n => (n <? String.length t)%nat | None => false end then zod_error else Ok t
  | _ => zod_error
  end.
(** [z.enum(names)] *)
Definition enum_text {A} (names : list (string * A)) (v : option value) : result exn A :=
  match v with
  | Some (VString s) =>
      match find_first (fun e => e.1 =s s) names with Some e => Ok e.2 | None => zod_error end
  | _ => zod_error
  end.
Definition digest_text (v : option value) : result exn string :=
  match v with
  | Some (VString s) => if test Typed.SHA256_HEX s then Ok s else zod_error
  | _ => zod_error
  end.

Definition IDENTITY_KEYS : list string :=
  ["workspaceId"; "operation"; "targetResource"; "canonicalArgumentsDigest"; "idempotencyKey"]%string.
(** [mutationReceiptIdentitySchema.parse] *)
Definition parse_identity (v : option value) : result exn MutationReceiptIdentity :=
  match v with
  | Some (VObject _ es) =>
      workspaceId ← trimmed_text None (field "workspaceId" es);
      operation ← enum_text operation_names (field "operation" es);
      targetResource ← trimmed_text (Some 512%nat) (field "targetResource" es);
      digest ← digest_text (field "canonicalArgumentsDigest" es);
      idempotencyKey ← trimmed_text (Some 512%nat) (field "idempotencyKey" es);
      if forallb (fun e => includes IDENTITY_KEYS e.1) es
      then Ok (mkIdentity workspaceId operation targetResource digest idempotencyKey) else zod_error
  | _ => zod_error
  end.

(** The objects that the records are. *)
Definition identity_value (i : MutationReceiptIdentity) : value :=
  VObject true [("workspaceId"%string, VString (mi_workspaceId i));
                ("operation"%string, VString (operation_name (mi_operation i)));
                ("targetResource"%string, VString (mi_targetResource i));
                ("canonicalArgumentsDigest"%string, VString (mi_canonicalArgumentsDigest i));
                ("idempotencyKey"%string, VString (mi_idempotencyKey i))].
Definition parseIdentity (i : MutationReceiptIdentity) : result exn MutationReceiptIdentity :=
  parse_identity (Some (identity_value i)).
Definition receipt_value (r : MutationReceipt) : value :=
  VObject true ([("identity"%string, identity_value (mr_identity r));
                 ("state"%string, VString (state_name (mr_state r)))]
                ++ match mr_result r with Some v => [("result"%string, v)] | None => [] end).

(** ** Public results *)
Definition isSensitiveReceiptField (key : string) : bool :=
  let normalized := normalizeSensitiveKey key in
  (normalized =s "confirmationid") || contains normalized "authorization" || (normalized =s "token")
  || endsWith normalized "token" || contains normalized "credential" || contains normalized "password"
  || contains normalized "secret" || endsWith normalized "apikey" || contains normalized "privatekey".

Definition invalidPublicResult {A} (path : list string) (reason : string) : result exn A :=
  let location := match path with [] => "result"%string | _ => ("result." +:+ join "." path)%string end in
  throw INVALID_ARGUMENT ("Mutation receipt " +:+ location +:+ " contains an invalid " +:+ reason +:+ ".").

Definition index_text (i : nat) : string := NilZero.string_of_uint (Nat.to_uint i).
(** [result[key] = value] on an object made by [{}]: [__proto__] is a setter, which changes the prototype. *)
Definition set_property (key : string) (v : value) (o : bool * list (string * value)) : bool * list (string * value) :=
  if key =s "__proto__" then
    match v with VArray _ | VObject _ _ => (false, o.2) | _ => o end
  else (o.1, obj_set key v o.2).

(** The loops over elements and entries. *)
Definition public_elements (parse : value -> list string -> result exn value) (path : list string) :=
  fix go (i : nat) (vs : list value) : result exn (list value) :=
    match vs with
    | [] => Ok []
    | v :: vs => a ← parse v (path ++ [index_text i]); l ← go (S i) vs; Ok (a :: l)
    end.
Definition public_entries (parse : value -> list string -> result exn value) (path : list string) :=
  fix go (es : list (string * value)) (o : bool * list (string * value)) : result exn (bool * list (string * value)) :=
    match es with
    | [] => Ok o
    | e :: es =>
        if isSensitiveReceiptField e.1 then invalidPublicResult (path ++ [e.1]) "sensitive field"
        else a ← parse e.2 (path ++ [e.1]); go es (set_property e.1 a o)
    end.

Fixpoint parsePublicResultValue (v : value) (path : list string) {struct v} : result exn value :=
  match v with
  | VNull | VString _ | VBool _ => Ok v
  | VNumber n => if isFinite n then Ok v else invalidPublicResult path "non-finite number"
  | VArray vs => l ← public_elements parsePublicResultValue path 0%nat vs; Ok (VArray l)
  | VObject false _ => invalidPublicResult path "unsupported object"
  | VObject true es => o ← public_entries parsePublicResultValue path es (true, []); Ok (VObject o.1 o.2)
  | VUndefined => invalidPublicResult path "unsupported undefined"
  | VOther kind => invalidPublicResult path ("unsupported " +:+ kind)
  end.
Definition parseMutationReceiptPublicResult (v : value) : result exn value := parsePublicResultValue v [].

(** ** Receipts from outside *)
Definition parseMutationReceipt (v : value) : result exn MutationReceipt :=
  match v with
  | VObject true record =>
      identity ← parse_identity (field "identity" record);
      state ← enum_text state_names (field "state" record);
      if existsb (fun e => negb (includes ["identity"; "state"; "result"]%string e.1)) record
      then throw INVALID_ARGUMENT "Mutation receipt contains unknown fields."
      else if bool_decide (state = completed) then
        match field "result" record with
        | None => throw INVALID_ARGUMENT "Completed mutation receipt is missing result."
        | Some r => p ← parseMutationReceiptPublicResult r; Ok (mkReceipt identity state (Some p))
        end
      else
        match field "result" record with
        | Some _ => throw INVALID_ARGUMENT "Non-completed mutation receipt cannot contain result."
        | None => Ok (mkReceipt identity state None)
        end
  | _ => throw INVALID_ARGUMENT "Mutation receipt must be an object."
  end.

(** [JSON.parse(JSON.stringify(receipt))]: the texts of the identity and the state are as they were, and an
    undefined result leaves no entry. *)
Definition cloneReceipt (r : MutationReceipt) : result exn MutationReceipt :=
  match mr_result r with
  | None => Ok r
  | Some v =>
      text ← JSON_stringify v;
      match text with
      | None => Ok (mkReceipt (mr_identity r) (mr_state r) None)
      | Some s => w ← JSON_parse s; Ok (mkReceipt (mr_identity r) (mr_state r) (Some w))
      end
  end.
Definition cloneReservation (r : MutationReceiptReservation) : result exn MutationReceiptReservation :=
  receipt ← cloneReceipt (receipt r); Ok (mkReservation (disposition r) receipt).

(** ** Transitions *)
Definition assertSameIdentity (existing requested : MutationReceiptIdentity) : result exn unit :=
  if negb (mi_workspaceId existing =s mi_workspaceId requested)
     || negb (bool_decide (mi_operation existing = mi_operation requested))
     || negb (mi_targetResource existing =s mi_targetResource requested)
     || negb (mi_canonicalArgumentsDigest existing =s mi_canonicalArgumentsDigest requested)
     || negb (mi_idempotencyKey existing =s mi_idempotencyKey requested)
  then throw SOURCE_CONTROL_IDEMPOTENCY_CONFLICT
    "The idempotency key is already associated with a different source-control mutation identity."
  else Ok tt.

Definition invalidTransition {A} (from to : MutationReceiptState) : result exn A :=
  throw EXECUTION_STATE_INVALID
    ("Mutation receipt cannot transition from " +:+ state_name from +:+ " to " +:+ state_name to +:+ ".").

Definition requireExistingReceipt (existing : option MutationReceipt) (identity : MutationReceiptIdentity) :
    result exn MutationReceipt :=
  match existing with
  | None => throw EXECUTION_STATE_INVALID "Mutation receipt does not exist for this idempotency key."
  | Some existing =>
      parsedIdentity ← parseIdentity identity;
      parsedExisting ← parseMutationReceipt (receipt_value existing);
      _ ← assertSameIdentity (mr_identity parsedExisting) parsedIdentity;
      Ok parsedExisting
  end.

Definition reserveMutationReceipt (existing : option MutationReceipt) (identity : MutationReceiptIdentity) :
    result exn MutationReceiptReservation :=
  parsedIdentity ← parseIdentity identity;
  match existing with
  | None => Ok (mkReservation execute (mkReceipt parsedIdentity reserved None))
  | Some existing =>
      parsedExisting ← parseMutationReceipt (receipt_value existing);
      _ ← assertSameIdentity (mr_identity parsedExisting) parsedIdentity;
      copy ← cloneReceipt parsedExisting;
      Ok (mkReservation
            (if bool_decide (mr_state parsedExisting = completed) then replay_completed else needs_reconciliation) copy)
  end.

Definition markMutationReceiptExecuting (existing : option MutationReceipt) (identity : MutationReceiptIdentity) :
    result exn MutationReceipt :=
  receipt ← requireExistingReceipt existing identity;
  if negb (bool_decide (mr_state receipt = reserved)) then invalidTransition (mr_state receipt) executing
  else Ok (mkReceipt (mr_identity receipt) executing None).

Definition markMutationReceiptReconciliationRequired (existing : option MutationReceipt)
    (identity : MutationReceiptIdentity) : result exn MutationReceipt :=
  receipt ← requireExistingReceipt existing identity;
  if bool_decide (mr_state receipt = reconciliation_required) then Ok receipt
  else if negb (bool_decide (mr_state receipt = executing)) then invalidTransition (mr_state receipt) reconciliation_required
  else Ok (mkReceipt (mr_identity receipt) reconciliation_required None).

Definition markMutationReceiptCompleted (existing : option MutationReceipt) (identity : MutationReceiptIdentity)
    (answer : value) : result exn MutationReceipt :=
  receipt ← requireExistingReceipt existing identity;
  if negb (bool_decide (mr_state receipt = executing)) && negb (bool_decide (mr_state receipt = reconciliation_required))
  then invalidTransition (mr_state receipt) completed
  else
    publicResult ← parseMutationReceiptPublicResult answer;
    Ok (mkReceipt (mr_identity receipt) completed (Some publicResult)).

(** ** Stores *)
(** The interface [MutationReceiptStore], and its operations as values. *)
Class MutationReceiptStore (S : Type) := {
  rs_reserve : MutationReceiptIdentity -> stm S MutationReceiptReservation;
  rs_markExecuting : MutationReceiptIdentity -> stm S MutationReceipt;
  rs_markReconciliationRequired : MutationReceiptIdentity -> stm S MutationReceipt;
  rs_markCompleted : MutationReceiptIdentity -> value -> stm S MutationReceipt;
  rs_get : string -> stm S (option MutationReceipt);
}.

(** *** class InMemoryMutationReceiptStore *)
End Receipts.
#[global] Arguments parseIdentity : simpl never.
#[global] Arguments parseMutationReceipt : simpl never.
#[global] Arguments receipt_value : simpl never.

Module InMemory.
Section InMemory.
Context `{JN : JsNumber} `{JR : !JsNumberRead JN}.
Definition Store : Type := jsmap MutationReceipt.
Definition reserve (identity : MutationReceiptIdentity) : stm Store MutationReceiptReservation :=
  parsedIdentity ← st_lift (parseIdentity identity);
  receipts ← st_get;
  let existing := jm_get receipts (mi_idempotencyKey parsedIdentity) in
  reservation ← st_lift (reserveMutationReceipt existing parsedIdentity);
  _ ← match disposition reservation with
      | execute =>
          copy ← st_lift (cloneReceipt (receipt reservation));
          st_put (jm_set receipts (mi_idempotencyKey parsedIdentity) copy)
      | _ => st_ok tt
      end;
  st_lift (cloneReservation reservation).

(** The three transitions do the same with their function. *)
Definition mark (transition : option MutationReceipt -> MutationReceiptIdentity -> result exn MutationReceipt)
    (identity : MutationReceiptIdentity) : stm Store MutationReceipt :=
  parsedIdentity ← st_lift (parseIdentity identity);
  receipts ← st_get;
  receipt ← st_lift (transition (jm_get receipts (mi_idempotencyKey parsedIdentity)) parsedIdentity);
  copy ← st_lift (cloneReceipt receipt);
  _ ← st_put (jm_set receipts (mi_idempotencyKey parsedIdentity) copy);
  st_lift (cloneReceipt receipt).
Definition markExecuting : MutationReceiptIdentity -> stm Store MutationReceipt := mark markMutationReceiptExecuting.
Definition markReconciliationRequired : MutationReceiptIdentity -> stm Store MutationReceipt :=
  mark markMutationReceiptReconciliationRequired.
Definition markCompleted (identity : MutationReceiptIdentity) (answer : value) : stm Store MutationReceipt :=
  mark (fun existing identity => markMutationReceiptCompleted existing identity answer) identity.
Definition get (idempotencyKey : string) : stm Store (option MutationReceipt) :=
  receipts ← st_get;
  match jm_get receipts idempotencyKey with
  | None => st_ok None
  | Some receipt => copy ← st_lift (cloneReceipt receipt); st_ok (Some copy)
  end.
End InMemory.
End InMemory.

(** ** Public results survive *)
Section Public.
Context `{JN : JsNumber} {JL : JsNumberLaws JN} {JR : JsNumberRead JN} {JRL : JsNumberReadLaws JN JR}.

(** A value that may be published: JSON, without sensitive fields. *)
Definition public_key (k : string) : Prop := isSensitiveReceiptField k = false /\ k <> "__proto__"%string.
Fixpoint public (v : value) : Prop :=
  match v with
  | VNull | VString _ | VBool _ => True
  | VNumber n => isFinite n = true
  | VArray vs => fold_right and True (map public vs)
  | VObject plain es =>
      plain = true /\ own_order es /\ fold_right and True (map (fun e => public_key e.1 /\ public e.2) es)
  | _ => False
  end.
Lemma public_array vs : public (VArray vs) <-> Forall public vs.
Proof. cbn. apply fold_and. Qed.
Lemma public_object p es :
  public (VObject p es) <-> p = true /\ own_order es /\ Forall (fun e => public_key e.1 /\ public e.2) es.
Proof. cbn. by rewrite fold_and. Qed.

Lemma public_well_formed v : public v -> well_formed v.
Proof.
  induction v as [| |b|m|s|vs IH|p es IH|k] using value_ind'; try done.
  - rewrite public_array. cbn. rewrite fold_and. intros H. apply Forall_forall. rewrite Forall_forall in IH, H. auto.
  - rewrite public_object. cbn. rewrite fold_and. intros (_ & Ho & H). split; [done|]. apply Forall_forall.
    rewrite Forall_forall in IH, H. intros e He. apply IH; [done|]. by apply H.
Qed.

(** Setting a key that comes after those present. *)
Lemma set_property_last k a b (es : list (string * value)) :
  k <> "__proto__"%string -> Forall (fun x => own_before x (k, a)) es -> set_property k a (b, es) = (b, es ++ [(k, a)]).
Proof.
  intros Hk H. unfold set_property. apply String.eqb_neq in Hk. rewrite Hk. cbn.
  by rewrite <- (obj_set_last es (k, a)).
Qed.

(** The two loops, on values whose parts are known. *)
Lemma public_elements_ok parse path i vs ws :
  public_elements parse path i vs = Ok ws <->
  Forall2 (fun e w => parse e.2 (path ++ [index_text e.1]) = Ok w) (zip (seq i (length vs)) vs) ws.
Proof.
  revert i ws. induction vs as [|v vs IH]; intros i ws; cbn.
  - split; [intros [= <-]; constructor|]. intros H. by inversion H.
  - rewrite bind_ok. setoid_rewrite bind_ok. split.
    + intros (a & Ha & l & Hl & [= <-]). apply Forall2_cons. split; [done|by apply IH].
    + intros H. inversion H as [|? a ? l Ha Hl]; subst. exists a. split; [done|]. exists l. split; [by apply IH|done].
Qed.

Lemma own_order_app_last (es es' : list (string * value)) k a :
  own_order (es ++ (k, a) :: es') -> Forall (fun x => own_before x (k, a)) es.
Proof.
  unfold own_order. induction es as [|x es IH]; cbn; intros H; [constructor|]. inversion H as [|? ? Hs Hf]; subst.
  constructor; [|by apply IH]. apply Forall_app in Hf as [_ Hf]. by inversion Hf.
Qed.

(** What the loop over entries makes: the entries kept, each parsed. *)
Lemma public_entries_ok parse path es b acc o :
  own_order (acc ++ es) ->
  public_entries parse path es (b, acc) = Ok o ->
  exists kept new, kept `sublist_of` es /\ o.2 = acc ++ new /\ map fst new = map fst kept
    /\ Forall2 (fun e w => parse e.2 (path ++ [e.1]) = Ok w.2) kept new
    /\ Forall (fun e => public_key e.1) kept
    /\ (Forall (fun e => e.1 <> "__proto__"%string) es -> kept = es /\ o.1 = b).
Proof.
  revert b acc. induction es as [|[k v] es IH]; intros b acc Ho H; cbn [public_entries] in H.
  - injection H as <-. exists [], []. cbn. rewrite app_nil_r. split_and!; try constructor; done.
  - destruct (isSensitiveReceiptField k) eqn:Hs; cbn [fst snd] in H; rewrite Hs in H; [done|].
    apply bind_ok in H as (a & Ha & H). destruct (decide (k = "__proto__"%string)) as [Hk|Hk].
    + assert (exists b', set_property k a (b, acc) = (b', acc)) as (b' & Hset).
      { unfold set_property. subst k. cbn. destruct a; eauto. }
      rewrite Hset in H. apply IH in H as (kept & new & Hsub & E2 & Ek & Hp & Hf & _);
        [|eapply own_order_sublist; [|exact Ho]; by apply sublist_app, sublist_cons].
      exists kept, new. split_and!; [by apply sublist_cons|done..|]. intros Hall. by inversion Hall.
    + rewrite set_property_last in H; [|done|].
      * apply IH in H as (kept & new & Hsub & E2 & Ek & Hp & Hf & Hall).
        -- exists ((k, v) :: kept), ((k, a) :: new). rewrite E2, <- app_assoc. split_and!; try done.
           ++ by apply sublist_skip.
           ++ cbn. by rewrite Ek.
           ++ by apply Forall2_cons.
           ++ by constructor.
           ++ intros Hnp. inversion Hnp; subst. destruct Hall as [-> ->]; done.
        -- rewrite <- app_assoc. cbn. eapply own_order_keys; [|exact Ho]. by rewrite !map_app.
      * apply own_order_app_last in Ho. eapply Forall_impl; [exact Ho|]. done.
Qed.
Lemma public_entries_public parse path es b acc :
  Forall (fun e => public_key e.1 /\ parse e.2 (path ++ [e.1]) = Ok e.2) es -> own_order (acc ++ es) ->
  public_entries parse path es (b, acc) = Ok (b, acc ++ es).
Proof.
  intros H. revert acc. induction H as [|[k v] es [[Hs Hk] Hp] _ IH]; intros acc Ho; cbn; [by rewrite app_nil_r|].
  cbn in *. rewrite Hs, Hp. cbn. rewrite set_property_last, IH, <- app_assoc; [done|by rewrite <- app_assoc|done|].
  by apply own_order_app_last in Ho.
Qed.

(** A public value is published as it is. *)
Lemma public_parsed v : public v -> forall path, parsePublicResultValue v path = Ok v.
Proof.
  induction v as [| |b|m|s|vs IH|p es IH|k] using value_ind'; try done.
  - cbn. by intros ->.
  - rewrite public_array. intros H path. cbn.
    assert (public_elements parsePublicResultValue path 0%nat vs = Ok vs) as ->; [|done].
    generalize 0%nat. induction H as [|v vs Hv Hvs IHvs]; intros i; cbn; [done|].
    inversion IH as [|? ? Hp Hps]; subst. rewrite Hp by done. cbn. by rewrite IHvs.
  - rewrite public_object. intros (-> & Ho & H) path. cbn.
    rewrite public_entries_public; [done| |done]. apply Forall_forall. intros e He.
    rewrite Forall_forall in IH, H. destruct (H e He). split; [done|]. by apply IH.
Qed.

Definition kept_text (w : value) : Prop :=
  exists u s, as_json w = Some u /\ public u /\ well_formed w /\ JSON_stringify w = Ok (Some s).

Lemma kept_array ws : Forall kept_text ws -> kept_text (VArray ws).
Proof.
  intros H. assert (exists us ts, map (fun v => default VNull (as_json v)) ws = us /\ Forall public us
    /\ Forall well_formed ws /\ collect (map JSON_stringify ws) = Ok ts) as (us & ts & E & Hp & Hw & Ec).
  { induction H as [|w ws (u & s & Hu & Hp & Hw & Hs) _ (us & ts & E & Hps & Hws & Ec)]; [by exists [], []|].
    eexists (u :: us), (Some s :: ts). cbn. rewrite Hu, Hs, E, Ec. cbn. split_and!; try constructor; done. }
  eexists (VArray us), _. cbn. rewrite E, Ec. cbn. rewrite !fold_and. done.
Qed.

Lemma kept_object p es : own_order es -> Forall (fun e => public_key e.1 /\ kept_text e.2) es -> kept_text (VObject p es).
Proof.
  intros Ho H. assert (exists us ts, omap (fun e => pair e.1 <$> as_json e.2) es = us /\ map fst us = map fst es
    /\ Forall (fun e => public_key e.1 /\ public e.2) us /\ Forall (fun e => well_formed e.2) es
    /\ collect (map (fun e => t ← JSON_stringify e.2; Ok (e.1, t)) es) = Ok ts) as (us & ts & E & Ek & Hp & Hw & Ec).
  { clear Ho. induction H as [|[k w] es [Hk (u & s & Hu & Hp & Hw & Hs)] _ (us & ts & E & Ek & Hps & Hws & Ec)];
      [exists [], []; split_and!; by try constructor|].
    exists ((k, u) :: us), ((k, Some s) :: ts). cbn in *. rewrite Hu, Hs, Ec. cbn. rewrite E, Ek. split_and!; try done; by constructor. }
  eexists (VObject true us), _. cbn [as_json JSON_stringify]. rewrite E, Ec. cbn [mbind result_bind].
  split; [done|]. rewrite public_object. cbn [well_formed]. rewrite fold_and.
  assert (own_order us) by (by eapply own_order_keys; [symmetry|]). split_and!; done.
Qed.

Lemma parsed_kept v : well_formed v -> forall path w, parsePublicResultValue v path = Ok w -> kept_text w.
Proof.
  induction v as [| |b|m|s|vs IH|p es IH|k] using value_ind'; intros Hwf path w H; cbn in H; try discriminate H.
  - injection H as <-. by eexists VNull, _.
  - injection H as <-. by eexists (VBool b), _.
  - destruct (isFinite m) eqn:Hm; [|done]. injection H as <-. eexists (VNumber m), _. cbn. by rewrite Hm.
  - injection H as <-. by eexists (VString s), _.
  - apply bind_ok in H as (ws & Hws & [= <-]). apply kept_array. apply public_elements_ok in Hws.
    cbn in Hwf. rewrite fold_and in Hwf. revert Hws. generalize 0%nat. revert ws.
    induction vs as [|v vs IHvs]; intros ws i H; cbn in H; inversion H as [|? ? ? ? Hv Hvs]; subst; constructor;
      inversion IH; inversion Hwf; subst; eauto.
  - destruct p; [|done]. apply bind_ok in H as (o & Ho & [= <-]). cbn in Hwf. rewrite fold_and in Hwf.
    destruct Hwf as [Hord Hwf].
    apply public_entries_ok in Ho as (kept & new & Hsub & -> & Ek & Hp & Hf & _); [|done]. cbn.
    apply kept_object; [eapply own_order_keys; [symmetry; exact Ek|by eapply own_order_sublist]|].
    apply sublist_subseteq in Hsub. clear Hord. revert Ek Hf.
    induction Hp as [|e x kept new Hex _ IHp]; intros Ek Hf; [constructor|]. cbn in Ek. injection Ek as Ex Ek.
    inversion Hf as [|? ? Hk Hks]; subst. rewrite Forall_forall in IH, Hwf. constructor.
    + split; [by rewrite Ex|]. assert (e ∈ es) as He by (apply Hsub; left). eapply IH; eauto.
    + apply IHp; [|done..]. intros y Hy. apply Hsub. by right.
Qed.

(** The copy of a parsed result is public. *)
Lemma json_copy w : kept_text w -> exists u s, JSON_stringify w = Ok (Some s) /\ JSON_parse s = Ok u /\ public u /\ as_json w = Some u.
Proof using JL JRL.
  intros (u & s & Hu & Hp & Hw & Hs). exists u, s.
  destruct (parse_text w s EmptyString Hw Hs) as (u' & Hu' & Hj); [done..|]. rewrite sapp_nil_r in Hj.
  rewrite Hu' in Hu. simplify_eq. done.
Qed.
Lemma public_kept v : public v -> kept_text v /\ as_json v = Some v.
Proof.
  intros H. pose proof (parsed_kept v (public_well_formed v H) [] v (public_parsed v H [])) as Hk. split; [done|].
  clear Hk. revert H. induction v as [| |b|m|s|vs IH|p es IH|k] using value_ind'; intros H; try done.
  - cbn in *. by rewrite H.
  - rewrite public_array in H. cbn. do 2 f_equal. induction H as [|v vs Hv Hvs IHvs]; cbn; [done|].
    inversion IH as [|? ? Hj Hjs]; subst. by rewrite Hj, IHvs.
  - rewrite public_object in H. destruct H as (-> & _ & H). cbn. do 2 f_equal.
    induction H as [|[k v] es [_ Hv] Hes IHes]; cbn; [done|].
    inversion IH as [|? ? Hj Hjs]; subst. cbn in *. rewrite Hj by done. cbn. by rewrite IHes.
Qed.
End Public.

(** ** Identities *)
Section Identities.
Context `{JN : JsNumber}.

Definition trim_identity (i : MutationReceiptIdentity) : MutationReceiptIdentity :=
  mkIdentity (trim (mi_workspaceId i)) (mi_operation i) (trim (mi_targetResource i))
    (mi_canonicalArgumentsDigest i) (trim (mi_idempotencyKey i)).
Definition valid_identity (i : MutationReceiptIdentity) : bool :=
  negb (sempty (trim (mi_workspaceId i)))
  && negb (sempty (trim (mi_targetResource i))) && (String.length (trim (mi_targetResource i)) <=? 512)%nat
  && test Typed.SHA256_HEX (mi_canonicalArgumentsDigest i)
  && negb (sempty (trim (mi_idempotencyKey i))) && (String.length (trim (mi_idempotencyKey i)) <=? 512)%nat.

Lemma operation_read o : enum_text (JN := JN) operation_names (Some (VString (operation_name o))) = Ok o.
Proof. by destruct o. Qed.
Lemma state_read s : enum_text (JN := JN) state_names (Some (VString (state_name s))) = Ok s.
Proof. by destruct s. Qed.

(** Parsing an identity trims it, or refuses it. *)
Lemma parseIdentity_spec i :
  parseIdentity (JN := JN) i = if valid_identity i then Ok (trim_identity i) else zod_error.
Proof.
  unfold parseIdentity, parse_identity, identity_value, valid_identity, field. cbn [find_first fst snd String.eqb Ascii.eqb Bool.eqb fmap option_fmap option_map].
  rewrite operation_read. unfold trimmed_text, digest_text.
  destruct (sempty (trim (mi_workspaceId i))); cbn [negb andb orb mbind result_bind]; [done|].
  rewrite !Nat.leb_antisym.
  destruct (sempty (trim (mi_targetResource i))); cbn [negb andb orb mbind result_bind]; [done|].
  destruct (512 <? String.length (trim (mi_targetResource i)))%nat; cbn [negb andb orb mbind result_bind]; [done|].
  destruct (test Typed.SHA256_HEX (mi_canonicalArgumentsDigest i)); cbn [negb andb orb mbind result_bind]; [|done].
  destruct (sempty (trim (mi_idempotencyKey i))); cbn [negb andb orb mbind result_bind]; [done|].
  destruct (512 <? String.length (trim (mi_idempotencyKey i)))%nat; cbn [negb andb orb mbind result_bind]; done.
Qed.

Definition canonical (i : MutationReceiptIdentity) : Prop := parseIdentity (JN := JN) i = Ok i.
Lemma parsed_canonical i j : parseIdentity (JN := JN) i = Ok j -> canonical j /\ j = trim_identity i.
Proof.
  unfold canonical. rewrite !parseIdentity_spec. destruct (valid_identity i) eqn:E; [|done]. intros [= <-]. split; [|done].
  assert (valid_identity (trim_identity i) = valid_identity i) as ->.
  { unfold valid_identity, trim_identity. cbn [mi_workspaceId mi_targetResource mi_idempotencyKey mi_operation mi_canonicalArgumentsDigest]. by rewrite !trim_idem. }
  rewrite E. unfold trim_identity. cbn [mi_workspaceId mi_targetResource mi_idempotencyKey mi_operation mi_canonicalArgumentsDigest]. by rewrite !trim_idem.
Qed.

Lemma same_identity a b : assertSameIdentity a b = Ok tt <-> a = b.
Proof.
  unfold assertSameIdentity. split.
  - destruct (_ || _) eqn:E; [done|]. intros _. repeat apply orb_false_iff in E as [E ?].
    repeat match goal with H : negb _ = false |- _ => apply negb_false_iff in H end.
    repeat match goal with H : (_ =s _) = true |- _ => apply String.eqb_eq in H end.
    repeat match goal with H : bool_decide _ = true |- _ => apply bool_decide_eq_true in H end.
    destruct a, b; cbn in *; congruence.
  - intros ->. rewrite !String.eqb_refl, bool_decide_true by done. done.
Qed.
Lemma same_identity_err a b e : assertSameIdentity a b = Err e -> exists m, e = app_error SOURCE_CONTROL_IDEMPOTENCY_CONFLICT m.
Proof. unfold assertSameIdentity. destruct (_ || _); [|done]. intros [= <-]. by eexists. Qed.
End Identities.

(** ** Receipts that are read back *)
Section Valid.
Context `{JN : JsNumber} {JL : JsNumberLaws JN} {JR : JsNumberRead JN} {JRL : JsNumberReadLaws JN JR}.

(** A receipt of the type: its identity canonical, a public result exactly when completed. *)
Definition receipt_ok (r : MutationReceipt) : Prop :=
  canonical (mr_identity r) /\
  match mr_state r with completed => exists v, mr_result r = Some v /\ public v | _ => mr_result r = None end.
(** Inputs that lose nothing: objects as the language makes them, without a [__proto__] entry. *)
Fixpoint tame (v : value) : Prop :=
  match v with
  | VArray vs => fold_right and True (map tame vs)
  | VObject _ es => own_order es /\ fold_right and True (map (fun e => e.1 <> "__proto__"%string /\ tame e.2) es)
  | _ => True
  end.

Lemma tame_well_formed v : tame v -> well_formed v.
Proof.
  induction v as [| |b|m|s|vs IH|p es IH|k] using value_ind'; try done; cbn; rewrite !fold_and.
  - intros H. apply Forall_forall. rewrite Forall_forall in IH, H. auto.
  - intros [Ho H]. split; [done|]. apply Forall_forall. rewrite Forall_forall in IH, H. intros e He. apply IH; [done|]. by apply H.
Qed.

(** Publishing a tame value changes nothing, and what is published is public. *)
Lemma tame_parsed v : tame v -> forall path w, parsePublicResultValue v path = Ok w -> w = v /\ public v.
Proof.
  induction v as [| |b|m|s|vs IH|p es IH|k] using value_ind'; intros Ht path w H; cbn in H; try discriminate H; try by simplify_eq.
  - cbn. destruct (isFinite m); by simplify_eq.
  - apply bind_ok in H as (ws & Hws & [= <-]). apply public_elements_ok in Hws. rewrite public_array.
    cbn in Ht. rewrite fold_and in Ht. enough (ws = vs /\ Forall public vs) as [-> ?] by done.
    revert Hws. generalize 0%nat. revert ws.
    induction vs as [|v vs IHvs]; intros ws i H; cbn in H; inversion H as [|? ? ? ? Hv Hvs]; subst; [done|].
    inversion IH as [|? ? Iv Ivs]; inversion Ht as [|? ? Tv Tvs]; subst.
    destruct (Iv Tv _ _ Hv) as [-> ?], (IHvs Ivs Tvs _ _ Hvs) as [-> ?]. split; [done|by constructor].
  - destruct p; [|done]. apply bind_ok in H as (o & Ho & [= <-]). cbn in Ht. rewrite fold_and in Ht.
    destruct Ht as [Hord Ht]. pose proof Hord as Hord'. rewrite public_object.
    apply public_entries_ok in Ho as (kept & new & Hsub & E2 & Ek & Hp & Hf & Hall); [|done].
    destruct Hall as [-> E1]; [eapply Forall_impl; [exact Ht|]; naive_solver|]. rewrite E1, E2. cbn.
    enough (new = es /\ Forall (fun e => public e.2) es) as [-> Hpub].
    { split_and!; [done..|]. apply Forall_and. done. }
    clear -IH Ht Ek Hp. induction Hp as [|[k v] [k' a] es new Hex _ IHp]; [done|]. cbn in *.
    injection Ek as -> Ek. inversion IH as [|? ? Iv Ivs]; inversion Ht as [|? ? [_ Tv] Tvs]; subst. cbn in *.
    destruct (Iv Tv _ _ Hex) as [-> ?], (IHp Ivs Tvs Ek) as [-> ?]. split; [done|by constructor].
Qed.
Lemma public_tame v : public v -> tame v.
Proof.
  induction v as [| |b|m|s|vs IH|p es IH|k] using value_ind'; try done.
  - rewrite public_array. cbn. rewrite fold_and. intros H. apply Forall_forall. rewrite Forall_forall in IH, H. auto.
  - rewrite public_object. cbn. rewrite fold_and. intros (_ & Ho & H). split; [done|]. apply Forall_forall.
    rewrite Forall_forall in IH, H. intros e He. destruct (H e He) as [[_ Hk] Hp]. auto.
Qed.


Lemma public_clone v : public v -> exists s, JSON_stringify v = Ok (Some s) /\ JSON_parse s = Ok v.
Proof using JL JRL.
  intros H. destruct (public_kept v H) as [Hk Hj]. destruct (json_copy v Hk) as (u & s & Hs & Hp & _ & Hu).
  exists s. rewrite Hj in Hu. by simplify_eq.
Qed.
Lemma receipt_clone r : receipt_ok r -> cloneReceipt r = Ok r.
Proof using JL JRL.
  intros [_ H]. unfold cloneReceipt. destruct r as [i st [v|]]; cbn in *; [|done].
  destruct st; try discriminate H. destruct H as (v' & [= <-] & Hp).
  destruct (public_clone v Hp) as (s & Hs & Hj). rewrite Hs. cbn. by rewrite Hj.
Qed.

(** A receipt of the type is read back as it is. *)
Lemma receipt_read r : receipt_ok r -> parseMutationReceipt (receipt_value r) = Ok r.
Proof.
  destruct r as [i st o]. intros [Hc Ho]. cbn in Hc, Ho. unfold parseMutationReceipt, receipt_value.
  destruct o as [v|]; cbn [mr_identity mr_state mr_result app];
    change (field "identity" _) with (Some (identity_value i));
    change (field "state" _) with (Some (VString (state_name st)));
    change (parse_identity (Some (identity_value i))) with (parseIdentity i); rewrite Hc; cbn [mbind result_bind];
    rewrite state_read; cbn [mbind result_bind].
  - destruct st; try discriminate Ho. destruct Ho as (v' & [= <-] & Hp). cbn.
    unfold parseMutationReceiptPublicResult. by rewrite (public_parsed v Hp).
  - destruct st; [done..|by destruct Ho as (? & ? & _)|done].
Qed.

Lemma identity_public i : public (identity_value i).
Proof.
  unfold identity_value. apply public_object. split; [done|]. split; [repeat constructor; done|].
  repeat constructor; vm_compute; done.
Qed.
(** A receipt is itself a public value, so its text is read back to it. *)
Lemma receipt_public r : receipt_ok r -> public (receipt_value r).
Proof.
  intros [_ Ho]. unfold receipt_value. pose proof (identity_public (mr_identity r)) as Hi.
  apply public_object. split; [done|]. destruct (mr_result r) as [v|]; cbn [app].
  - destruct (mr_state r); try discriminate Ho. destruct Ho as (v' & [= <-] & Hp).
    split; [repeat constructor; done|]. repeat constructor; try done; vm_compute; done.
  - split; [repeat constructor; done|]. repeat constructor; try done; vm_compute; done.
Qed.

(** What is read from outside, when its result is tame, is a receipt of the type. *)
Lemma parsed_identity_canonical v i : parse_identity v = Ok i -> canonical i.
Proof.
  destruct v as [v|]; [|done]. destruct v; try done. cbn. unfold canonical. rewrite parseIdentity_spec. intros H.
  repeat (apply bind_ok in H as (? & ? & H)). destruct (forallb _ _); [|done]. injection H as <-.
  repeat match goal with H : _ = Ok _ |- _ => unfold trimmed_text, enum_text, digest_text in H; step_in H end.
  unfold valid_identity, trim_identity. cbn [mi_workspaceId mi_targetResource mi_idempotencyKey mi_operation mi_canonicalArgumentsDigest].
  rewrite !trim_idem.
  repeat match goal with H : _ || _ = false |- _ => apply orb_false_iff in H as [? ?] end.
  rewrite !Nat.leb_antisym. repeat match goal with H : _ = _ :> bool |- _ => rewrite H; clear H end. done.
Qed.
End Valid.

(** ** Operations and the receipt of their key *)
Section Transitions.
Context `{JN : JsNumber} {JL : JsNumberLaws JN} {JR : JsNumberRead JN} {JRL : JsNumberReadLaws JN JR}.

Inductive StoreOp :=
| Reserve (i : MutationReceiptIdentity)
| MarkExecuting (i : MutationReceiptIdentity)
| MarkReconciliationRequired (i : MutationReceiptIdentity)
| MarkCompleted (i : MutationReceiptIdentity) (answer : value)
| Get (idempotencyKey : string).
Inductive Answer := AReservation (r : MutationReceiptReservation) | AReceipt (r : MutationReceipt) | AFound (r : option MutationReceipt).

Definition op_identity (op : StoreOp) : option MutationReceiptIdentity :=
  match op with
  | Reserve i | MarkExecuting i | MarkReconciliationRequired i | MarkCompleted i _ => Some i
  | Get _ => None
  end.
(** The key the operation acts on: that of the parsed identity. *)
Definition op_key (op : StoreOp) : result exn string :=
  match op with
  | Get k => Ok k
  | Reserve i | MarkExecuting i | MarkReconciliationRequired i | MarkCompleted i _ =>
      mi_idempotencyKey <$> parseIdentity i
  end.
(** The receipt to store, if any, and the answer. *)
Definition transition (op : StoreOp) (existing : option MutationReceipt) :
    result exn (option MutationReceipt * Answer) :=
  match op with
  | Reserve i =>
      r ← reserveMutationReceipt existing i;
      Ok (match disposition r with execute => Some (receipt r) | _ => None end, AReservation r)
  | MarkExecuting i => r ← markMutationReceiptExecuting existing i; Ok (Some r, AReceipt r)
  | MarkReconciliationRequired i => r ← markMutationReceiptReconciliationRequired existing i; Ok (Some r, AReceipt r)
  | MarkCompleted i v => r ← markMutationReceiptCompleted existing i v; Ok (Some r, AReceipt r)
  | Get _ => Ok (None, AFound existing)
  end.

Definition op_tame (op : StoreOp) : Prop := match op with MarkCompleted _ v => tame v | _ => True end.
(** The receipt of key [k], as the type has it. *)
Definition slot_ok (k : string) (r : option MutationReceipt) : Prop :=
  match r with Some r => receipt_ok r /\ mi_idempotencyKey (mr_identity r) = k | None => True end.

Lemma require_existing r i p : receipt_ok r -> parseIdentity i = Ok p ->
  requireExistingReceipt (Some r) i = (_ ← assertSameIdentity (mr_identity r) p; Ok r).
Proof. intros Hr Hi. unfold requireExistingReceipt. rewrite Hi. cbn [mbind result_bind]. by rewrite receipt_read. Qed.
Lemma reserve_existing r i p : receipt_ok r -> parseIdentity i = Ok p ->
  reserveMutationReceipt (Some r) i =
  (_ ← assertSameIdentity (mr_identity r) p;
   Ok (mkReservation (if bool_decide (mr_state r = completed) then replay_completed else needs_reconciliation) r)).
Proof using JL JRL.
  intros Hr Hi. unfold reserveMutationReceipt. rewrite Hi. cbn [mbind result_bind]. rewrite receipt_read by done.
  cbn [mbind result_bind]. by rewrite receipt_clone.
Qed.

(** Trimming the identity first changes nothing. *)
Lemma transition_trimmed op op' existing i p : parseIdentity i = Ok p -> op_identity op = Some i ->
  op' = match op with
        | Reserve _ => Reserve p | MarkExecuting _ => MarkExecuting p
        | MarkReconciliationRequired _ => MarkReconciliationRequired p
        | MarkCompleted _ v => MarkCompleted p v | Get k => Get k end ->
  transition op' existing = transition op existing.
Proof.
  intros Hi Hop ->. pose proof (parsed_canonical i p Hi) as [Hp _]. unfold canonical in Hp.
  destruct op; try discriminate Hop; injection Hop as ->; cbn;
    unfold reserveMutationReceipt, markMutationReceiptExecuting, markMutationReceiptReconciliationRequired,
      markMutationReceiptCompleted, requireExistingReceipt; destruct existing; by rewrite ?Hi, ?Hp.
Qed.

(** The stages of a receipt, in their order. *)
Definition stage (r : option MutationReceipt) : nat :=
  match r with
  | None => 0
  | Some r => match mr_state r with reserved => 1 | executing => 2 | reconciliation_required => 3 | completed => 4 end
  end.

(** What an operation does to the slot of its key: the type is kept, the identity stays, the stage grows; a
    mutation is granted only on an empty slot, and set going only once. *)
Lemma transition_slot op k existing new answer :
  op_tame op -> op_key op = Ok k -> slot_ok k existing -> transition op existing = Ok (new, answer) ->
  let after := match new with Some r => Some r | None => existing end in
  slot_ok k after /\ (stage existing <= stage after)%nat /\
  match op with
  | Reserve i =>
      exists r, answer = AReservation r /\
        match disposition r with
        | execute => existing = None /\ exists p, parseIdentity i = Ok p /\ new = Some (mkReceipt p reserved None) /\ receipt r = mkReceipt p reserved None
        | replay_completed => new = None /\ existing = Some (receipt r) /\ mr_state (receipt r) = completed /\ parseIdentity i = Ok (mr_identity (receipt r))
        | needs_reconciliation => new = None /\ existing = Some (receipt r) /\ mr_state (receipt r) <> completed
        end
  | MarkExecuting i => stage existing = 1%nat /\ stage after = 2%nat
  | MarkReconciliationRequired i => stage after = 3%nat
  | MarkCompleted i v => (2 <= stage existing)%nat /\ stage existing <> 4%nat /\ exists r, after = Some r /\ mr_result r = Some v /\ mr_state r = completed
      /\ parseIdentity i = Ok (mr_identity r)
  | Get _ => new = None /\ answer = AFound existing
  end.
Proof using JL JRL.
  intros Ht Hk Hs H. destruct op as [i|i|i|i v|k0]; cbn in Hk;
    try (destruct (parseIdentity i) as [p|] eqn:Hi; [|discriminate Hk]; injection Hk as <-;
         pose proof (parsed_canonical i p Hi) as [Hc _]); cbn in H.
  - apply bind_ok in H as (r & Hr & [= <- <-]). destruct existing as [x|].
    + destruct Hs as [Hx Hxk]. rewrite (reserve_existing x i p Hx Hi) in Hr. apply bind_ok in Hr as ([] & Hsame & [= <-]).
      apply same_identity in Hsame. cbn. destruct (bool_decide _) eqn:Eb; cbn.
      * apply bool_decide_eq_true in Eb. split_and!; [done..|]. eexists. split; [done|]. cbn. by rewrite Hsame.
      * apply bool_decide_eq_false in Eb. split_and!; [done..|]. eexists. split; [done|]. done.
    + unfold reserveMutationReceipt in Hr. rewrite Hi in Hr. cbn in Hr. injection Hr as <-. cbn.
      split; [by repeat split|]. split; [lia|]. eexists. split; [done|]. cbn. eauto.
  - apply bind_ok in H as (r & Hr & [= <- <-]). destruct existing as [x|]; [|done]. destruct Hs as [Hx Hxk].
    unfold markMutationReceiptExecuting in Hr. rewrite (require_existing x i p Hx Hi) in Hr.
    apply bind_ok in Hr as (y & Hy & Hr). apply bind_ok in Hy as ([] & Hsame & [= <-]).
    destruct (bool_decide _) eqn:Eb; [|done]. apply bool_decide_eq_true in Eb. injection Hr as <-. cbn. rewrite Eb.
    destruct Hx. split; [by repeat split|]. lia.
  - apply bind_ok in H as (r & Hr & [= <- <-]). destruct existing as [x|]; [|done]. destruct Hs as [Hx Hxk].
    unfold markMutationReceiptReconciliationRequired in Hr. rewrite (require_existing x i p Hx Hi) in Hr.
    apply bind_ok in Hr as (y & Hy & Hr). apply bind_ok in Hy as ([] & Hsame & [= <-]).
    destruct (bool_decide (_ = reconciliation_required)) eqn:Eb.
    + apply bool_decide_eq_true in Eb. injection Hr as <-. cbn. by rewrite Eb.
    + destruct (bool_decide (_ = executing)) eqn:Ee; [|done]. apply bool_decide_eq_true in Ee. injection Hr as <-. cbn.
      rewrite Ee. destruct Hx. split; [by repeat split|]. lia.
  - apply bind_ok in H as (r & Hr & [= <- <-]). destruct existing as [x|]; [|done]. destruct Hs as [Hx Hxk].
    unfold markMutationReceiptCompleted in Hr. rewrite (require_existing x i p Hx Hi) in Hr.
    apply bind_ok in Hr as (y & Hy & Hr). apply bind_ok in Hy as ([] & Hsame & [= <-]). apply same_identity in Hsame.
    destruct (_ && _) eqn:Eb; [done|]. apply bind_ok in Hr as (w & Hw & [= <-]).
    destruct (tame_parsed v Ht _ _ Hw) as [-> Hp]. cbn. destruct Hx as [Hxc Hxs].
    assert (mr_state x = executing \/ mr_state x = reconciliation_required) as Hst.
    { apply andb_false_iff in Eb as [Eb|Eb]; apply negb_false_iff, bool_decide_eq_true in Eb; auto. }
    assert (receipt_ok (mkReceipt (mr_identity x) completed (Some v))) by (split; cbn; eauto).
    destruct Hst as [E|E]; rewrite E; (split; [done|]); (split; [lia|]); (split; [lia|]); (split; [done|]);
      eexists; split_and!; try done; cbn; by rewrite Hsame.
  - injection Hk as ->. by injection H as <- <-.
Qed.
End Transitions.

(** ** What clients of a store rely on *)
Section Interface.
Context `{JN : JsNumber}.

Definition rs_apply {S} `{!MutationReceiptStore S} `{JR : !JsNumberRead JN} (op : StoreOp) : stm S Answer :=
  match op with
  | Reserve i => r ← rs_reserve i; st_ok (AReservation r)
  | MarkExecuting i => r ← rs_markExecuting i; st_ok (AReceipt r)
  | MarkReconciliationRequired i => r ← rs_markReconciliationRequired i; st_ok (AReceipt r)
  | MarkCompleted i v => r ← rs_markCompleted i v; st_ok (AReceipt r)
  | Get k => r ← rs_get k; st_ok (AFound r)
  end.

Definition view : Type := string -> option MutationReceipt.
Definition view_set (v : view) (k : string) (new : option MutationReceipt) : view :=
  fun k' => match new with Some r => if k' =s k then Some r else v k' | None => v k' end.
(** One operation on the receipts of a store: the transition of its key, or an error that changes nothing. *)
Definition acts `{JR : !JsNumberRead JN} (op : StoreOp) (v v' : view) (a : result exn Answer) : Prop :=
  match op_key op with
  | Err e => a = Err e /\ forall k, v' k = v k
  | Ok k =>
      match transition op (v k) with
      | Err e => a = Err e /\ forall k', v' k' = v k'
      | Ok (new, answer) => a = Ok answer /\ forall k', v' k' = view_set v k new k'
      end
  end.

Class ReceiptStoreLaws (S : Type) `{MS : !MutationReceiptStore S} `{JR : !JsNumberRead JN} := {
  rs_empty : S;
  rs_inv : S -> Prop;
  rs_view : S -> view;
  rs_empty_inv : rs_inv rs_empty;
  rs_empty_view : forall k, rs_view rs_empty k = None;
  rs_slots : forall s k, rs_inv s -> slot_ok k (rs_view s k);
  rs_acts : forall op s, rs_inv s -> op_tame op ->
    rs_inv (rs_apply op s).1 /\ acts op (rs_view s) (rs_view (rs_apply op s).1) (rs_apply op s).2;
}.
End Interface.

#[export] Instance in_memory_store `{JN : JsNumber} `{JR : !JsNumberRead JN} : MutationReceiptStore InMemory.Store := {|
  rs_reserve := InMemory.reserve;
  rs_markExecuting := InMemory.markExecuting;
  rs_markReconciliationRequired := InMemory.markReconciliationRequired;
  rs_markCompleted := InMemory.markCompleted;
  rs_get := InMemory.get;
|}.

Section InMemoryLaws.
Context `{JN : JsNumber} {JL : JsNumberLaws JN} {JR : JsNumberRead JN} {JRL : JsNumberReadLaws JN JR}.

Definition slots_ok (m : InMemory.Store) : Prop := forall k, slot_ok k (jm_get m k).

Lemma slots_set m r : slots_ok m -> receipt_ok r -> slots_ok (jm_set m (mi_idempotencyKey (mr_identity r)) r).
Proof. intros Hm Hr k. rewrite jm_get_set. destruct (k =s _) eqn:E; [|done]. apply String.eqb_eq in E as ->. done. Qed.

(** A transition that writes its receipt and answers it. *)
Lemma mark_acts f op i m (Hop : op_tame op) (Hm : slots_ok m) :
  op_key op = mi_idempotencyKey <$> parseIdentity i ->
  (forall p x, parseIdentity i = Ok p -> f x p = f x i) ->
  (forall x, transition op x = (r ← f x i; Ok (Some r, AReceipt r))) ->
  slots_ok ((r ← InMemory.mark f i; st_ok (AReceipt r)) m).1 /\
  acts op (jm_get m) (jm_get ((r ← InMemory.mark f i; st_ok (AReceipt r)) m).1) ((r ← InMemory.mark f i; st_ok (AReceipt r)) m).2.
Proof using JL JRL.
  intros Hk Hf Htr. unfold InMemory.mark, acts. rewrite Hk. st_run.
  destruct (parseIdentity i) as [p|e] eqn:Hi; cbn; [|done]. rewrite (Hf p) by done. rewrite Htr.
  pose proof (transition_slot op (mi_idempotencyKey p) (jm_get m (mi_idempotencyKey p))) as Hs. rewrite Htr in Hs.
  destruct (f (jm_get m (mi_idempotencyKey p)) i) as [r|e]; cbn; [|done].
  destruct (Hs (Some r) (AReceipt r)) as ([Hr Hrk] & _); [done|by rewrite Hk|apply Hm|done|].
  rewrite (receipt_clone r Hr). cbn. rewrite <- Hrk. split; [by apply slots_set|]. split; [done|].
  intros k'. by rewrite jm_get_set.
Qed.

Lemma in_memory_acts op m : slots_ok m -> op_tame op ->
  slots_ok (rs_apply op m).1 /\ acts op (jm_get m) (jm_get (rs_apply op m).1) (rs_apply op m).2.
Proof using JL JRL.
  intros Hm Ht. destruct op as [i|i|i|i v|k].
  - pose proof (transition_slot (Reserve i)) as Hs. unfold acts. cbn. unfold InMemory.reserve. st_run.
    destruct (parseIdentity i) as [p|e] eqn:Hi; cbn; [|done]. pose proof (parsed_canonical i p Hi) as [Hp _].
    assert (Hrr : forall x, reserveMutationReceipt x p = reserveMutationReceipt x i)
      by (intros x; unfold reserveMutationReceipt; by rewrite Hi, Hp).
    rewrite Hrr. set (x := jm_get m (mi_idempotencyKey p)) in *.
    specialize (Hs (mi_idempotencyKey p) x). cbn in Hs. rewrite Hi in Hs. cbn in Hs.
    destruct (reserveMutationReceipt x i) as [r|e] eqn:Er; cbn in *; [|done].
    destruct (Hs _ _ I eq_refl (Hm _) eq_refl) as (Hok & _ & r' & [= <-] & Hd). clear Hs.
    destruct r as [d r]. cbn in *. destruct d; cbn in *.
    + destruct Hok as [Hr Hrk]. unfold cloneReservation. cbn. rewrite (receipt_clone r Hr). cbn. rewrite <- Hrk.
      split; [by apply slots_set|]. split; [done|]. intros k'. by rewrite jm_get_set.
    + destruct Hd as (_ & Hd & _). rewrite Hd in Hok. destruct Hok as [Hr _].
      unfold cloneReservation. cbn. by rewrite (receipt_clone r Hr).
    + destruct Hd as (_ & Hd & _). rewrite Hd in Hok. destruct Hok as [Hr _].
      unfold cloneReservation. cbn. by rewrite (receipt_clone r Hr).
  - apply mark_acts; try done. intros p x Hi. pose proof (parsed_canonical i p Hi) as [Hp _].
    unfold markMutationReceiptExecuting, requireExistingReceipt. destruct x; by rewrite ?Hi, ?Hp.
  - apply mark_acts; try done. intros p x Hi. pose proof (parsed_canonical i p Hi) as [Hp _].
    unfold markMutationReceiptReconciliationRequired, requireExistingReceipt. destruct x; by rewrite ?Hi, ?Hp.
  - apply mark_acts; try done. intros p x Hi. pose proof (parsed_canonical i p Hi) as [Hp _].
    unfold markMutationReceiptCompleted, requireExistingReceipt. destruct x; by rewrite ?Hi, ?Hp.
  - unfold acts. cbn. unfold InMemory.get. st_run. pose proof (Hm k) as Hs. destruct (jm_get m k) as [r|] eqn:E; cbn; [|done].
    destruct Hs as [Hr _]. by rewrite (receipt_clone r Hr).
Qed.

#[export] Instance in_memory_laws : ReceiptStoreLaws InMemory.Store := {|
  rs_empty := []; rs_inv := slots_ok; rs_view := jm_get;
  rs_empty_inv := fun k => I; rs_empty_view := fun k => eq_refl;
  rs_slots := fun s k H => H k; rs_acts := in_memory_acts;
|}.
End InMemoryLaws.

(** ** Every store grants a mutation once *)
Section Traces.
Context `{JN : JsNumber} {JL : JsNumberLaws JN} {JR : JsNumberRead JN} {JRL : JsNumberReadLaws JN JR}.
Definition of_key (k : string) (op : StoreOp) : bool := match op_key op with Ok k' => k =s k' | Err _ => false end.
(** A reservation for [k] that lets the caller go on, and a mutation of [k] set going. *)
Definition grants (k : string) (o : StoreOp * result exn Answer) : bool :=
  match o with
  | (Reserve i, Ok (AReservation r)) => of_key k o.1 && match disposition r with execute => true | _ => false end
  | _ => false
  end.
Definition starts (k : string) (o : StoreOp * result exn Answer) : bool :=
  match o with (MarkExecuting i, Ok _) => of_key k o.1 | _ => false end.

Lemma acts_step op (v v' : view) a k :
  acts op v v' a -> op_tame op -> (forall k0, op_key op = Ok k0 -> slot_ok k0 (v k0)) ->
  (stage (v k) <= stage (v' k))%nat
  /\ (grants k (op, a) = true -> stage (v k) = 0%nat /\ (1 <= stage (v' k))%nat)
  /\ (starts k (op, a) = true -> stage (v k) = 1%nat /\ (2 <= stage (v' k))%nat)
  /\ (stage (v k) = 4%nat -> v' k = v k).
Proof using JL JRL.
  intros Ha Ht Hs. assert (forall e, a = Err e -> (forall k, v' k = v k) ->
      (stage (v k) <= stage (v' k))%nat
      /\ (grants k (op, a) = true -> stage (v k) = 0%nat /\ (1 <= stage (v' k))%nat)
      /\ (starts k (op, a) = true -> stage (v k) = 1%nat /\ (2 <= stage (v' k))%nat)
      /\ (stage (v k) = 4%nat -> v' k = v k)) as Hsame.
  { intros e -> Hv. rewrite Hv. split; [lia|]. split; [by destruct op|]. split; [by destruct op|done]. }
  unfold acts in Ha. destruct (op_key op) as [k0|e] eqn:Hk; [|destruct Ha; by eapply Hsame].
  destruct (transition op (v k0)) as [[new ans]|e] eqn:Htr; [|destruct Ha; by eapply Hsame].
  destruct Ha as [-> Hv]. destruct (transition_slot op k0 (v k0) new ans Ht Hk (Hs k0 eq_refl) Htr) as (_ & Hstage & Hop).
  assert (Hkk : of_key k op = (k =s k0)) by (unfold of_key; by rewrite Hk).
  rewrite Hv. unfold view_set. unfold grants, starts. cbn [fst]. rewrite Hkk.
  destruct (k =s k0) eqn:E.
  - apply String.eqb_eq in E as ->. cbv beta iota in *. set (w := match new with Some r => Some r | None => v k0 end) in *.
    split; [exact Hstage|].
    destruct op as [i|i|i|i x|k1].
    + destruct Hop as (r & -> & Hd). destruct r as [[] r]; cbn in *.
      * destruct Hd as (Hn & p & _ & -> & _). subst w. rewrite Hn in *. cbn in *. repeat split; intros; done || lia.
      * destruct Hd as (-> & Hn & _). subst w. repeat split; intros; done.
      * destruct Hd as (-> & Hn & _). subst w. repeat split; intros; done.
    + destruct Hop as [H1 H2]. repeat split; intros; try done; try lia.
    + repeat split; intros; try done; lia.
    + destruct Hop as (H1 & H2 & _). repeat split; intros; try done; lia.
    + destruct Hop as [-> ->]. repeat split; intros; done.
  - assert (match new with Some r => v k | None => v k end = v k) as -> by (by destruct new).
    split; [lia|]. destruct op, ans; cbn; repeat split; intros; done.
Qed.

Lemma acts_slots op (v v' : view) a k :
  acts op v v' a -> op_tame op -> (forall k0, op_key op = Ok k0 -> slot_ok k0 (v k0)) ->
  slot_ok k (v k) -> slot_ok k (v' k).
Proof using JL JRL.
  unfold acts. intros Ha Ht Hs Hk. destruct (op_key op) as [k0|e] eqn:Hop; [|destruct Ha as [_ ->]; done].
  destruct (transition op (v k0)) as [[new ans]|e] eqn:Htr; [|destruct Ha as [_ ->]; done]. destruct Ha as [_ ->].
  destruct (transition_slot op k0 (v k0) new ans Ht Hop (Hs k0 eq_refl) Htr) as (Hok & _). unfold view_set.
  destruct new as [r|]; [|done]. destruct (k =s k0) eqn:E; [|done]. by apply String.eqb_eq in E as ->.
Qed.

Context {S : Type} {MS : MutationReceiptStore (JN := JN) S} {SL : ReceiptStoreLaws (JR := JR) (MS := MS) S}.

(** The operations of a history, with their answers, and the store after them. *)
Fixpoint rs_trace (ops : list StoreOp) (s : S) : list (StoreOp * result exn Answer) :=
  match ops with
  | [] => []
  | op :: ops => (op, (rs_apply op s).2) :: rs_trace ops (rs_apply op s).1
  end.
Definition rs_after (ops : list StoreOp) (s : S) : S := fold_left (fun s op => (rs_apply op s).1) ops s.

Lemma trace_app ops ops' s : rs_trace (ops ++ ops') s = rs_trace ops s ++ rs_trace ops' (rs_after ops s).
Proof. revert s. induction ops as [|op ops IH]; intros s; cbn; [done|]. by rewrite IH. Qed.

Lemma after_inv ops s : Forall op_tame ops -> rs_inv s -> rs_inv (rs_after ops s).
Proof.
  revert s. induction ops as [|op ops IH]; intros s Ht Hs; [done|]. inversion Ht; subst. cbn. apply IH; [done|].
  by apply rs_acts.
Qed.

Lemma trace_stage ops s k : Forall op_tame ops -> rs_inv s ->
  let st := stage (rs_view s k) in let st' := stage (rs_view (rs_after ops s) k) in
  (st <= st')%nat
  /\ (length (List.filter (grants k) (rs_trace ops s)) <= if Nat.eqb st 0 then 1 else 0)%nat
  /\ (length (List.filter (starts k) (rs_trace ops s)) <= if Nat.leb st 1 then 1 else 0)%nat
  /\ (st = 4%nat -> rs_view (rs_after ops s) k = rs_view s k).
Proof using JL JRL.
  revert s. induction ops as [|op ops IH]; intros s Ht Hs; cbn zeta; [cbn; repeat split; lia|].
  inversion Ht as [|? ? Hop Hops]; subst. destruct (rs_acts op s Hs Hop) as [Hs' Ha].
  destruct (acts_step op _ _ _ k Ha Hop (fun k _ => rs_slots s k Hs)) as (H1 & Hg & Hst & H4).
  destruct (IH _ Hops Hs') as (I1 & Ig & Ist & I4). cbn [rs_trace rs_after fold_left List.filter].
  set (s1 := (rs_apply op s).1) in *. change (fold_left _ ops s1) with (rs_after ops s1).
  destruct (grants k (op, _)), (starts k (op, _)); cbn [length];
    repeat match goal with H : true = true -> _ |- _ => specialize (H eq_refl) end;
    repeat match goal with H : false = true -> _ |- _ => clear H end;
    repeat match goal with |- context [Nat.eqb ?a 0] => destruct (Nat.eqb_spec a 0) | H : context [Nat.eqb ?a 0] |- _ => destruct (Nat.eqb_spec a 0)
      | |- context [Nat.leb ?a 1] => destruct (Nat.leb_spec a 1) | H : context [Nat.leb ?a 1] |- _ => destruct (Nat.leb_spec a 1) end;
    split_and!; try lia; intros; try (rewrite I4; [by apply H4|rewrite H4; lia]).
Qed.
(** A mutation is granted once: over any calls of a receipt store, of any implementation, at most one reservation
    of a key lets its caller go on, and at most one mutation of the key is set going. *)
Theorem mutation_granted_once (ops : list StoreOp) (k : string) (Ht : Forall op_tame ops) :
  (length (List.filter (grants k) (rs_trace ops rs_empty)) <= 1)%nat /\
  (length (List.filter (starts k) (rs_trace ops rs_empty)) <= 1)%nat.
Proof using JL JRL SL.
  destruct (trace_stage ops rs_empty k Ht rs_empty_inv) as (_ & Hg & Hs & _).
  rewrite rs_empty_view in Hg, Hs. done.
Qed.

(** Receipts stay well typed: whatever is called, a receipt seen under a key carries that key in a canonical
    identity and a public result exactly when completed; it is parsed back to itself, also from its JSON text. *)
Theorem receipts_well_typed (ops : list StoreOp) (k : string) (r : MutationReceipt) (Ht : Forall op_tame ops)
    (Hr : rs_view (rs_after ops rs_empty) k = Some r) :
  mi_idempotencyKey (mr_identity r) = k /\ parseIdentity (mr_identity r) = Ok (mr_identity r)
  /\ (mr_state r = completed <-> mr_result r <> None)
  /\ parseMutationReceipt (receipt_value r) = Ok r
  /\ exists s, JSON_stringify (receipt_value r) = Ok (Some s) /\ JSON_parse s = Ok (receipt_value r).
Proof using JL JRL SL.
  pose proof (rs_slots _ k (after_inv ops _ Ht rs_empty_inv)) as Hs. rewrite Hr in Hs. destruct Hs as [Hok Hk].
  split; [done|]. split; [apply Hok|]. split.
  - destruct Hok as [_ Hok]. destruct (mr_state r); try (by rewrite Hok). by destruct Hok as (v & -> & _).
  - split; [by apply receipt_read|]. by apply public_clone, receipt_public.
Qed.

(** A completed mutation is replayed: once it was marked completed with a result, whatever is called after, the
    same request is answered with that result, and another request under its key is refused. *)
Theorem completed_replays (pre mid : list StoreOp) i v a (Ht : Forall op_tame (pre ++ MarkCompleted i v :: mid))
    (Ha : (rs_apply (MarkCompleted i v) (rs_after pre rs_empty)).2 = Ok a) :
  exists p, parseIdentity i = Ok p /\
  let s := rs_after (pre ++ MarkCompleted i v :: mid) rs_empty in
  forall j q, parseIdentity j = Ok q -> mi_idempotencyKey q = mi_idempotencyKey p ->
    if bool_decide (q = p)
    then (rs_apply (Reserve j) s).2 = Ok (AReservation (mkReservation replay_completed (mkReceipt p completed (Some v))))
    else err_code (rs_apply (Reserve j) s).2 = Some SOURCE_CONTROL_IDEMPOTENCY_CONFLICT.
Proof using JL JRL SL.
  apply Forall_app in Ht as [Hpre Ht]. inversion Ht as [|? ? Hv Hmid]; subst.
  pose proof (after_inv pre _ Hpre rs_empty_inv) as Hinv. set (s0 := rs_after pre rs_empty) in *.
  destruct (rs_acts (MarkCompleted i v) s0 Hinv Hv) as [Hinv1 Hact]. unfold acts in Hact. cbn [op_key] in Hact.
  destruct (parseIdentity i) as [p|e] eqn:Hi; cbn [fmap result_fmap] in Hact; [|destruct Hact; congruence]. exists p. split; [done|].
  set (k := mi_idempotencyKey p) in *.
  destruct (transition (MarkCompleted i v) (rs_view s0 k)) as [[new ans]|e] eqn:Htr; 
    [|destruct Hact; congruence]. destruct Hact as [_ Hview].
  destruct (transition_slot (MarkCompleted i v) k _ new ans Hv ltac:(cbn; by rewrite Hi) (rs_slots s0 k Hinv) Htr)
    as (Hslot & _ & _ & _ & r & Er & Hres & Hst & Hri). rewrite Hi in Hri. injection Hri as Hri.
  set (s1 := (rs_apply (MarkCompleted i v) s0).1) in *.
  assert (Hs1 : rs_view s1 k = Some r).
  { rewrite Hview. unfold view_set. destruct new; [by rewrite String.eqb_refl|done]. }
  destruct (trace_stage mid s1 k Hmid Hinv1) as (_ & _ & _ & H4). rewrite Hs1 in H4.
  specialize (H4 ltac:(cbn; by rewrite Hst)). intros s j q Hj Hq.
  assert (Hs : s = rs_after mid s1) by (unfold s, rs_after; by rewrite fold_left_app).
  destruct (rs_acts (Reserve j) s) as [_ Hact]; [rewrite Hs; by apply after_inv|done|].
  unfold acts in Hact. cbn [op_key] in Hact. rewrite Hj in Hact. cbn [fmap result_fmap] in Hact. rewrite Hq, Hs, H4 in Hact.
  rewrite Er in Hslot. destruct Hslot as [Hrok _].
  unfold transition in Hact. rewrite (reserve_existing r j q Hrok Hj) in Hact. rewrite <- Hs in Hact.
  rewrite (bool_decide_true (mr_state r = completed)) in Hact by done. destruct (decide (q = p)) as [Eq|Eq].
  - rewrite bool_decide_true by done. rewrite Eq, Hri in Hact.
    rewrite (proj2 (same_identity (mr_identity r) _) eq_refl) in Hact. destruct Hact as [-> _]. rewrite Hri.
    destruct r as [ri rs rr]. cbn in *. by subst.
  - rewrite bool_decide_false by done. destruct (assertSameIdentity (mr_identity r) q) as [[]|e] eqn:Es.
    + apply same_identity in Es. congruence.
    + cbn [mbind result_bind] in Hact. destruct Hact as [-> _]. apply same_identity_err in Es as [m ->]. done.
Qed.
End Traces.

(** ** A mutation, retried *)
Module Trial.
Definition digest : string := "0123456789abcdef0123456789abcdef0123456789abcdef0123456789abcdef".
Definition push : MutationReceiptIdentity := mkIdentity "w1" op_git_push_branch "git:w1:.:origin:refs/heads/x" digest "key-1".
Definition other : MutationReceiptIdentity := mkIdentity "w1" op_git_commit "git:w1:." digest "key-1".
Definition answer : value (JN := whole_numbers) :=
  VObject true [("status"%string, VString "completed"); ("ahead"%string, VNumber 2%Z)].
Definition retried : list (StoreOp (JN := whole_numbers)) :=
  [Reserve push; MarkExecuting push; Reserve push; MarkExecuting push; MarkCompleted push answer; Reserve push; Reserve other].

Lemma retried_tame : Forall op_tame retried.
Proof. repeat constructor; try exact I; done. Qed.
Lemma mutation_granted_once_witness :
  (length (List.filter (grants "key-1") (rs_trace (S := InMemory.Store) retried rs_empty)) <= 1)%nat /\
  (length (List.filter (starts "key-1") (rs_trace (S := InMemory.Store) retried rs_empty)) <= 1)%nat.
Proof. exact (mutation_granted_once (S := InMemory.Store) retried "key-1" retried_tame). Defined.

Lemma receipts_well_typed_witness :
  exists r, rs_view (rs_after (S := InMemory.Store) retried rs_empty) "key-1" = Some r
    /\ parseMutationReceipt (receipt_value r) = Ok r.
Proof.
  destruct (rs_view (rs_after (S := InMemory.Store) retried rs_empty) "key-1") as [r|] eqn:E; [|vm_compute in E; discriminate E].
  exists r. split; [reflexivity|].
  destruct (receipts_well_typed (S := InMemory.Store) retried "key-1" r retried_tame E) as (_ & _ & _ & H & _). exact H.
Defined.

Lemma completed_replays_witness :
  (rs_apply (Reserve push) (rs_after (S := InMemory.Store) (firstn 5 retried) rs_empty)).2
  = Ok (AReservation (mkReservation replay_completed (mkReceipt push completed (Some answer)))).
Proof.
  destruct (completed_replays (S := InMemory.Store) (firstn 4 retried) [] push answer
    (AReceipt (mkReceipt push completed (Some answer)))) as (p & Hp & H).
  - repeat constructor; try exact I; done.
  - vm_compute. reflexivity.
  - vm_compute in Hp. injection Hp as <-. specialize (H push push ltac:(vm_compute; reflexivity) eq_refl).
    rewrite bool_decide_true in H by reflexivity. exact H.
Defined.
End Trial.
