(* ===== verification/ReceiptFiles.v ===== *)
(** The store of mutation receipts in files:
    services/workspace-agent/src/source-control/file-mutation-receipt-store.ts.

    Calls with the same idempotency key run one after the other ([serialize]); each
    reads the file of its key, applies the transition of [Receipts] and, when that
    changes something, writes a temporary file and renames it over the old one.
    Calls with different keys interleave at every file operation, file operations
    may fail, and the process may stop at any point: [run] executes any such
    sequence of steps.  [file_store_refines] shows that for trimmed keys the answers are
    those of an atomic store.  The file system keeps the files by path; SHA-256 is a
    parameter.  A rename is atomic and a write that fails may leave anything in the temporary
    file. *)
From S2P Require Import Prelude Errors JsString JsMap Json JsonText Receipts.

Section FileStore.
Context `{JN : JsNumber} `{JR : !JsNumberRead JN}.
Context (sha256 : string -> string) (receiptDirectory pid : string).

(** *** Paths and contents *)
Definition receiptPath (idempotencyKey : string) : string :=
  receiptDirectory +:+ "/" +:+ sha256 idempotencyKey +:+ ".json".
Definition temporaryPath (targetPath random : string) : string :=
  targetPath +:+ ".tmp-" +:+ pid +:+ "-" +:+ random.

(** The text written for a receipt. *)
Definition receipt_content (receipt : MutationReceipt) : result exn string :=
  parsed ← parseMutationReceipt (receipt_value receipt);
  text ← JSON_stringify (receipt_value parsed);
  Ok (default "undefined"%string text +:+ str1 LF).
(** [readReceipt], from what the file holds. *)
Definition read_content (serialized : option string) : result exn (option MutationReceipt) :=
  match serialized with
  | None => Ok None
  | Some text =>
      match JSON_parse text with
      | Err _ => Err (Native "Error")
      | Ok parsed => r ← parseMutationReceipt parsed; Ok (Some r)
      end
  end.

(** *** Calls *)
(** Where a call is: it has yet to read, or it is writing the receipt that its answer waits for. *)
Inductive phase :=
| Reading
| EnsuringDirectory (receipt : MutationReceipt) (answer : Answer)
| WritingText (targetPath content : string) (answer : Answer)
| Renaming (temporary targetPath content : string) (answer : Answer)
| Removing (temporary : string) (error : exn).
Record PendingCall := mkCall { call_id : nat; call_op : StoreOp; call_phase : phase }.

Record FileStore := mkFileStore {
  files : gmap string string;
  queues : gmap string (list PendingCall);
}.

(** The key under which a call is queued and its receipt is read: not trimmed. *)
Definition queue_key (op : StoreOp) : string :=
  match op with
  | Get k => k
  | Reserve i | MarkExecuting i | MarkReconciliationRequired i | MarkCompleted i _ => mi_idempotencyKey i
  end.

(** The outcome of a file operation, with the random text drawn for a temporary file: done, or failed, with what
    a failed write left in the file. *)
Inductive IO := Done (random : string) | Fails (random : string) (error : exn) (partial : option string).

(** What a call comes to: it goes on, it answers, or it fails with the error of a file operation. *)
Inductive progress := Continue (p : phase) | Answers (a : result exn Answer) | FailsWith (e : exn).

(** [writeReceipt] up to its first file operation, or the answer of a call that writes nothing. *)
Definition after_read (op : StoreOp) (existing : result exn (option MutationReceipt)) : progress :=
  match (existing ← existing; transition op existing) with
  | Err e => Answers (Err e)
  | Ok (None, answer) => Answers (Ok answer)
  | Ok (Some receipt, answer) => Continue (EnsuringDirectory receipt answer)
  end.

(** One file operation of a call. *)
Definition advance (io : IO) (op : StoreOp) (p : phase) (fs : gmap string string) : gmap string string * progress :=
  match p, io with
  | Reading, Done _ => (fs, after_read op (read_content (fs !! receiptPath (queue_key op))))
  | Reading, Fails _ e _ => (fs, FailsWith e)
  | EnsuringDirectory receipt answer, Done _ =>
      match receipt_content receipt with
      | Err e => (fs, Answers (Err e))
      | Ok content => (fs, Continue (WritingText (receiptPath (mi_idempotencyKey (mr_identity receipt))) content answer))
      end
  | EnsuringDirectory _ _, Fails _ e _ => (fs, FailsWith e)
  | WritingText targetPath content answer, Done random =>
      let temporary := temporaryPath targetPath random in
      (<[temporary := content]> fs, Continue (Renaming temporary targetPath content answer))
  | WritingText targetPath content answer, Fails random e partial =>
      let temporary := temporaryPath targetPath random in
      (match partial with Some text => <[temporary := text]> fs | None => fs end, Continue (Removing temporary e))
  | Renaming temporary targetPath content answer, Done _ =>
      match fs !! temporary with
      | Some text => (<[targetPath := text]> (delete temporary fs), Answers (Ok answer))
      | None => (fs, Continue (Removing temporary (Native "ENOENT")))
      end
  | Renaming temporary targetPath content answer, Fails _ e _ => (fs, Continue (Removing temporary e))
  | Removing temporary e, Done _ => (delete temporary fs, FailsWith e)
  | Removing temporary e, Fails _ _ _ => (fs, FailsWith e)
  end.

(** *** The store *)
Inductive Step :=
| Call (id : nat) (op : StoreOp)
| Run (idempotencyKey : string) (io : IO)
| Crash.
Inductive Event :=
| Answered (id : nat) (op : StoreOp) (a : result exn Answer)
| IoFailed (id : nat) (op : StoreOp) (e : exn).

(** [serialize]: the call waits for those before it; a queue that becomes empty is dropped. *)
Definition enqueue (c : PendingCall) (s : FileStore) : FileStore :=
  let k := queue_key (call_op c) in
  mkFileStore (files s) (<[k := default [] (queues s !! k) ++ [c]]> (queues s)).
Definition set_queue (k : string) (q : list PendingCall) (s : FileStore) : FileStore :=
  mkFileStore (files s) (match q with [] => delete k (queues s) | _ => <[k := q]> (queues s) end).

Definition step (st : Step) (s : FileStore) : FileStore * list Event :=
  match st with
  | Call id op => (enqueue (mkCall id op Reading) s, [])
  | Crash => (mkFileStore (files s) ∅, [])
  | Run k io =>
      match queues s !! k with
      | Some (c :: rest) =>
          let '(fs, p) := advance io (call_op c) (call_phase c) (files s) in
          let s := mkFileStore fs (queues s) in
          match p with
          | Continue p => (set_queue k (mkCall (call_id c) (call_op c) p :: rest) s, [])
          | Answers a => (set_queue k rest s, [Answered (call_id c) (call_op c) a])
          | FailsWith e => (set_queue k rest s, [IoFailed (call_id c) (call_op c) e])
          end
      | _ => (s, [])
      end
  end.
Fixpoint run (steps : list Step) (s : FileStore) : FileStore * list Event :=
  match steps with
  | [] => (s, [])
  | st :: steps => let '(s, evs) := step st s in let '(s, evs') := run steps s in (s, evs ++ evs')
  end.
End FileStore.

(** ** The files are an atomic store *)
Section Refinement.
Context `{JN : JsNumber} {JL : JsNumberLaws JN} {JR : JsNumberRead JN} {JRL : JsNumberReadLaws JN JR}.
Context (sha256 : string -> string) (receiptDirectory pid : string).
(** SHA-256 in hexadecimal has 64 digits and does not collide on the keys that are used. *)
Context (used : string -> Prop).
Context (hash_length : forall k, String.length (sha256 k) = 64%nat).
Context (hash_distinct : forall a b, used a -> used b -> sha256 a = sha256 b -> a = b).

Notation target := (receiptPath sha256 receiptDirectory).
Notation temporary := (temporaryPath pid).
Notation advance := (advance sha256 receiptDirectory pid).
Notation step := (step sha256 receiptDirectory pid).
Notation run := (run sha256 receiptDirectory pid).

(** *** Paths *)
Lemma app_cancel a x y : a +:+ x = a +:+ y -> x = y.
Proof. induction a as [|c a IH]; cbn; [done|]. intros H. injection H as H. auto. Qed.
Lemma app_split a b x y : String.length a = String.length b -> a +:+ x = b +:+ y -> a = b /\ x = y.
Proof.
  revert b. induction a as [|c a IH]; intros [|d b] Hl H; cbn in *; try lia; [done|].
  injection H as -> H. destruct (IH b) as [-> ->]; [lia|done..].
Qed.
Lemma hash_split a b x y :
  receiptDirectory +:+ "/" +:+ sha256 a +:+ x = receiptDirectory +:+ "/" +:+ sha256 b +:+ y -> sha256 a = sha256 b /\ x = y.
Proof using hash_length.
  intros H. apply app_cancel in H. cbn in H. injection H as H. apply app_split in H; [done|]. by rewrite !hash_length.
Qed.
Lemma target_inj a b : used a -> used b -> target a = target b -> a = b.
Proof using hash_length hash_distinct. intros Ha Hb H. apply hash_split in H as [H _]. auto. Qed.
Lemma temporary_split a r : temporary (target a) r = receiptDirectory +:+ "/" +:+ sha256 a +:+ (".json.tmp-" +:+ pid +:+ "-" +:+ r).
Proof. unfold temporaryPath, receiptPath. by rewrite !sapp_assoc. Qed.
Lemma temporary_target a b r : temporary (target a) r <> target b.
Proof using hash_length. rewrite temporary_split. intros H. by apply hash_split in H as [_ H]. Qed.
Lemma temporary_inj a b r r' : used a -> used b -> temporary (target a) r = temporary (target b) r' -> a = b.
Proof using hash_length hash_distinct. intros Ha Hb. rewrite !temporary_split. intros H. apply hash_split in H as [H _]. auto. Qed.

(** *** What the files say *)
Definition file_view (fs : gmap string string) : view :=
  fun k => match read_content (fs !! target k) with Ok r => r | Err _ => None end.
Definition files_ok (fs : gmap string string) : Prop :=
  forall k, used k -> exists r, read_content (fs !! target k) = Ok r /\ slot_ok k r.

(** A receipt is written and read back. *)
Lemma content_read r : receipt_ok r -> exists text, receipt_content r = Ok text /\ read_content (Some text) = Ok (Some r).
Proof using JL JRL.
  intros Hr. destruct (public_clone _ (receipt_public r Hr)) as (s & Hs & _).
  destruct (parse_text _ s (str1 LF) (public_well_formed _ (receipt_public r Hr)) Hs) as (w & Hw & Hj); [intros c t [= <- _]; done|done|].
  destruct (public_kept _ (receipt_public r Hr)) as [_ Hk]. rewrite Hk in Hw. injection Hw as <-.
  exists (s +:+ str1 LF). unfold receipt_content, read_content. rewrite receipt_read by done. cbn [mbind result_bind].
  rewrite Hs. cbn [mbind result_bind default from_option id]. split; [done|]. rewrite Hj.
  by rewrite receipt_read by done.
Qed.

Definition call_ok (k : string) (c : PendingCall) : Prop :=
  queue_key (call_op c) = k /\ used k /\ op_tame (call_op c) /\ op_key (call_op c) = Ok k.
(** A call that is writing holds what its transition gave on the receipt in the file. *)
Definition writes (fs : gmap string string) (k : string) (op : StoreOp) (r : MutationReceipt) (a : Answer) : Prop :=
  transition op (file_view fs k) = Ok (Some r, a).
Definition phase_ok (fs : gmap string string) (k : string) (op : StoreOp) (p : phase) : Prop :=
  match p with
  | Reading => True
  | EnsuringDirectory r a => writes fs k op r a
  | WritingText t content a => t = target k /\ exists r, writes fs k op r a /\ receipt_content r = Ok content
  | Renaming tmp t content a =>
      t = target k /\ (exists random, tmp = temporary (target k) random) /\ fs !! tmp = Some content
      /\ exists r, writes fs k op r a /\ receipt_content r = Ok content
  | Removing tmp e => exists random, tmp = temporary (target k) random
  end.

(** The files of another key are left alone. *)
Definition agree (k : string) (fs fs' : gmap string string) : Prop :=
  fs' !! target k = fs !! target k /\ forall random, fs' !! temporary (target k) random = fs !! temporary (target k) random.
Lemma agree_view k fs fs' : agree k fs fs' -> file_view fs' k = file_view fs k.
Proof. unfold file_view. by intros [-> _]. Qed.
Lemma agree_phase k fs fs' op p : agree k fs fs' -> phase_ok fs k op p -> phase_ok fs' k op p.
Proof.
  intros Ha. pose proof (agree_view k fs fs' Ha) as Hv. destruct p; cbn; unfold writes; rewrite ?Hv; try done.
  intros (-> & (random & ->) & Hf & Hr). split; [done|]. split; [by exists random|]. split; [|done].
  destruct Ha as [_ Ha]. by rewrite Ha.
Qed.

Lemma advance_agree io op p fs k k' : phase_ok fs k op p -> queue_key op = k -> used k -> used k' -> k' <> k ->
  agree k' fs (advance io op p fs).1.
Proof using hash_length hash_distinct.
  intros Hp Hk Hu Hu' Hne.
  assert (Ht : forall fs random text, agree k' fs (<[temporary (target k) random := text]> fs)).
  { intros fs0 random text. split; [apply lookup_insert_ne, temporary_target|]. intros r. apply lookup_insert_ne.
    intros E. apply Hne. symmetry. by eapply temporary_inj. }
  assert (Hd : forall fs random, agree k' fs (delete (temporary (target k) random) fs)).
  { intros fs0 random. split; [apply lookup_delete_ne, temporary_target|]. intros r. apply lookup_delete_ne.
    intros E. apply Hne. symmetry. by eapply temporary_inj. }
  destruct p as [|r a|t content a|tmp t content a|tmp e], io as [random|random e' partial]; cbn; try done.
  - by destruct (receipt_content r).
  - destruct Hp as (-> & _). apply Ht.
  - destruct Hp as (-> & _). destruct partial; [apply Ht|done].
  - destruct Hp as (-> & (x & ->) & Hf & _). rewrite Hf. cbn. destruct (Hd fs x) as [H1 H2]. split.
    + rewrite lookup_insert_ne; [done|]. intros E. apply Hne. symmetry. by eapply target_inj.
    + intros r. rewrite lookup_insert_ne; [done|]. intros E. symmetry in E. by apply temporary_target in E.
  - destruct Hp as (x & ->). apply Hd.
Qed.
(** *** One file operation *)
Definition same_targets (fs fs' : gmap string string) : Prop := forall k, used k -> fs' !! target k = fs !! target k.
Definition same_view (v v' : view) : Prop := forall k, used k -> v' k = v k.
Lemma same_targets_ok fs fs' : same_targets fs fs' -> files_ok fs -> files_ok fs' /\ same_view (file_view fs) (file_view fs').
Proof. intros Hs Hf. split; intros k Hk; [rewrite Hs by done; by apply Hf|]. unfold file_view. by rewrite Hs. Qed.
Lemma temporary_same k random text fs : same_targets fs (<[temporary (target k) random := text]> fs).
Proof using hash_length. intros k' _. apply lookup_insert_ne, temporary_target. Qed.
Lemma delete_same k random fs : same_targets fs (delete (temporary (target k) random) fs).
Proof using hash_length. intros k' _. apply lookup_delete_ne, temporary_target. Qed.

(** The effect of an answered call: that of its operation on an atomic store. *)
Definition effect (op : StoreOp) (v v' : view) (a : result exn Answer) : Prop :=
  op_tame op /\ (exists k, op_key op = Ok k /\ used k) /\ exists w, acts op v w a /\ same_view w v'.
Definition progress_ok (fs : gmap string string) (k : string) (op : StoreOp) (o : gmap string string * progress) : Prop :=
  files_ok o.1 /\
  match o.2 with
  | Continue p => same_view (file_view fs) (file_view o.1) /\ phase_ok o.1 k op p
  | Answers a => effect op (file_view fs) (file_view o.1) a
  | FailsWith _ => same_view (file_view fs) (file_view o.1)
  end.

Lemma view_of fs k r : read_content (fs !! target k) = Ok r -> file_view fs k = r.
Proof. unfold file_view. by intros ->. Qed.
Lemma writes_ok fs k op r a : files_ok fs -> used k -> op_tame op -> op_key op = Ok k -> writes fs k op r a ->
  receipt_ok r /\ mi_idempotencyKey (mr_identity r) = k.
Proof using JL JRL.
  intros Hf Hk Ht Ho Hw. destruct (Hf k Hk) as (x & Hx & Hs).
  unfold writes in Hw. rewrite (view_of fs k x Hx) in Hw.
  by destruct (transition_slot op k x (Some r) a Ht Ho Hs Hw) as [? _].
Qed.

Lemma read_advance fs k op : files_ok fs -> used k -> op_tame op -> op_key op = Ok k ->
  progress_ok fs k op (fs, after_read op (read_content (fs !! target k))).
Proof.
  intros Hf Hk Ht Ho. split; [done|]. cbn [fst snd]. destruct (Hf k Hk) as (x & Hx & _).
  unfold after_read. rewrite Hx. cbn [mbind result_bind].
  assert (Hact : forall a v', acts op (file_view fs) v' a -> (forall k, v' k = file_view fs k) -> effect op (file_view fs) (file_view fs) a)
    by (intros a v' Ha Hv; split; [done|]; split; [by exists k|]; exists v'; split; [done|by intros k' _]).
  destruct (transition op x) as [[[r|] a]|e] eqn:E; cbn.
  - split; [done|]. unfold writes. by rewrite (view_of fs k x Hx).
  - eapply (Hact _ (file_view fs)); [|done]. unfold acts. by rewrite Ho, (view_of fs k x Hx), E.
  - eapply (Hact _ (file_view fs)); [|done]. unfold acts. by rewrite Ho, (view_of fs k x Hx), E.
Qed.

(** The rename is where a write takes effect. *)
Lemma rename_effect fs k op r a random content : files_ok fs -> used k -> op_tame op -> op_key op = Ok k ->
  writes fs k op r a -> receipt_content r = Ok content ->
  progress_ok fs k op (<[target k := content]> (delete (temporary (target k) random) fs), Answers (Ok a)).
Proof using JL JRL hash_length hash_distinct.
  intros Hf Hk Ht Ho Hw Hc. destruct (writes_ok fs k op r a) as [Hr Hrk]; try done.
  destruct (content_read r Hr) as (text & Htext & Hread). rewrite Hc in Htext. injection Htext as <-.
  pose proof (delete_same k random fs) as Hd. split.
  - intros k' Hk'. cbn [fst]. destruct (decide (k' = k)) as [->|Hne].
    + rewrite lookup_insert_eq. exists (Some r). done.
    + rewrite lookup_insert_ne by (intros E; apply Hne; symmetry; by eapply target_inj). rewrite Hd by done. by apply Hf.
  - cbn [fst snd]. split; [done|]. split; [by exists k|]. exists (view_set (file_view fs) k (Some r)). split.
    + unfold acts. rewrite Ho. unfold writes in Hw. by rewrite Hw.
    + intros k' Hk'. unfold view_set. destruct (k' =s k) eqn:E.
      * apply String.eqb_eq in E as ->. unfold file_view. by rewrite lookup_insert_eq, Hread.
      * apply String.eqb_neq in E. unfold file_view.
        rewrite lookup_insert_ne by (intros Et; apply E; symmetry; by eapply target_inj). by rewrite Hd.
Qed.

Lemma advance_ok io id op p fs k : phase_ok fs k op p -> call_ok k (mkCall id op p) -> files_ok fs ->
  progress_ok fs k op (advance io op p fs).
Proof using JL JRL hash_length hash_distinct.
  intros Hp (Hq & Hk & Ht & Ho) Hf. cbn in Hq, Ht, Ho.
  assert (Hw : forall r a fs', same_targets fs fs' -> writes fs k op r a -> writes fs' k op r a).
  { intros r a fs' Hs. unfold writes. destruct (same_targets_ok fs fs' Hs Hf) as [_ Hv]. by rewrite (Hv k Hk). }
  assert (Hstep : forall fs' pr, same_targets fs fs' ->
      match pr with Continue p => phase_ok fs' k op p | Answers _ => False | FailsWith _ => True end ->
      progress_ok fs k op (fs', pr)).
  { intros fs' pr Hs Hpr. destruct (same_targets_ok fs fs' Hs Hf) as [Hf' Hv]. split; [done|].
    destruct pr; cbn in *; done. }
  destruct p as [|r a|t content a|tmp t content a|tmp e], io as [random|random e' partial]; cbn [ReceiptFiles.advance].
  - rewrite Hq. by apply read_advance.
  - by apply Hstep.
  - destruct (writes_ok fs k op r a) as [Hr Hrk]; try done.
    destruct (content_read r Hr) as (content & Hc & _). rewrite Hc, Hrk. apply Hstep; [done|]. cbn. eauto.
  - by apply Hstep.
  - destruct Hp as (-> & r & Hwr & Hc). apply Hstep; [apply temporary_same|]. cbn.
    split; [done|]. split; [by exists random|]. split; [apply lookup_insert_eq|].
    exists r. split; [|done]. eapply Hw; [apply temporary_same|done].
  - destruct Hp as (-> & _). destruct partial; (apply Hstep; [apply temporary_same || done|by exists random]).
  - destruct Hp as (-> & (x & ->) & Hfile & r & Hwr & Hc). rewrite Hfile. by eapply rename_effect.
  - destruct Hp as (-> & (x & ->) & _). apply Hstep; [done|by exists x].
  - destruct Hp as (x & ->). apply Hstep; [apply delete_same|done].
  - by apply Hstep.
Qed.

(** *** Any sequence of steps *)
Definition store_ok (s : FileStore) : Prop :=
  files_ok (files s) /\
  forall k q, queues s !! k = Some q ->
    match q with
    | [] => False
    | c :: rest =>
        call_ok k c /\ phase_ok (files s) k (call_op c) (call_phase c)
        /\ Forall (fun c => call_ok k c /\ call_phase c = Reading) rest
    end.
(** The key of a call is the one its file has, so it is trimmed, and the result it stores has its own fields in the
    order of JavaScript and none called __proto__. *)
Definition step_input (st : Step) : Prop :=
  match st with Call id op => call_ok (queue_key op) (mkCall id op Reading) | _ => True end.

(** What the events did to the receipts: each answer is that of an atomic store, a failed file operation changed
    nothing. *)
Fixpoint atomic (evs : list Event) (v v' : view) : Prop :=
  match evs with
  | [] => same_view v v'
  | Answered _ op a :: evs => exists w, effect op v w a /\ atomic evs w v'
  | IoFailed _ _ _ :: evs => atomic evs v v'
  end.

Lemma effect_same op v w v' a : same_view v w -> effect op w v' a -> effect op v v' a.
Proof.
  intros Hs (Ht & (k & Hk & Hu) & w' & Ha & Hw). split; [done|]. split; [by exists k|]. unfold acts in *. rewrite Hk in *.
  rewrite <- (Hs k Hu) in *. destruct (transition op (w k)) as [[new ans]|e].
  - destruct Ha as [-> Hv]. exists (view_set v k new). split; [done|]. intros k' Hk'. rewrite (Hw k' Hk'), (Hv k').
    unfold view_set. rewrite (Hs k' Hk'). done.
  - destruct Ha as [-> Hv]. exists v. split; [done|]. intros k' Hk'. by rewrite (Hw k' Hk'), (Hv k'), (Hs k' Hk').
Qed.
Lemma atomic_same evs v w v' : same_view v w -> atomic evs w v' -> atomic evs v v'.
Proof.
  revert v w. induction evs as [|[id op a|id op e] evs IH]; cbn; intros v w Hs H.
  - intros k Hk. by rewrite (H k Hk), (Hs k Hk).
  - destruct H as (u & Hu & H). exists u. split; [by eapply effect_same|done].
  - by eapply IH.
Qed.
Lemma atomic_app evs evs' v w v' : atomic evs v w -> atomic evs' w v' -> atomic (evs ++ evs') v v'.
Proof.
  revert v. induction evs as [|[id op a|id op e] evs IH]; cbn; intros v H H'.
  - by eapply atomic_same.
  - destruct H as (u & Hu & H). exists u. eauto.
  - eauto.
Qed.

Lemma queue_set k q s k' : queues (set_queue k q s) !! k' =
  if decide (k' = k) then match q with [] => None | _ => Some q end else queues s !! k'.
Proof.
  unfold set_queue. destruct (decide (k' = k)) as [->|Hne]; destruct q; cbn.
  - apply lookup_delete_eq.
  - apply lookup_insert_eq.
  - by apply lookup_delete_ne.
  - by apply lookup_insert_ne.
Qed.

Lemma step_ok st s : store_ok s -> step_input st ->
  store_ok (step st s).1 /\ atomic (step st s).2 (file_view (files s)) (file_view (files (step st s).1)).
Proof using JL JRL hash_length hash_distinct.
  intros [Hf Hq] Hin. destruct st as [id op|k io|]; cbn [ReceiptFiles.step].
  - split; [|by intros k _]. split; [done|]. unfold enqueue. cbn. intros k q. rewrite lookup_insert_Some.
    intros [[<- <-]|[_ Hk]]; [|by apply Hq]. cbn in Hin.
    destruct (queues s !! queue_key op) as [q|] eqn:E; cbn; [|done].
    specialize (Hq _ _ E). destruct q as [|c rest]; [done|]. cbn. destruct Hq as (Hc & Hp & Hr).
    split; [done|]. split; [done|]. apply Forall_app. split; [done|]. by apply Forall_singleton.
  - destruct (queues s !! k) as [[|c rest]|] eqn:E; [by split|..]; [|by split].
    pose proof (Hq _ _ E) as (Hc & Hp & Hr). destruct c as [id op p]. cbn [call_op call_phase call_id] in *.
    pose proof (advance_ok io id op p (files s) k Hp Hc Hf) as [Hf' Hpr].
    destruct Hc as (Hqk & Hk & Ht & Ho). cbn in Hqk, Ht, Ho.
    assert (Hothers : forall k' q, k' <> k -> queues s !! k' = Some q ->
      match q with [] => False | c :: rest =>
        call_ok k' c /\ phase_ok (advance io op p (files s)).1 k' (call_op c) (call_phase c)
        /\ Forall (fun c => call_ok k' c /\ call_phase c = Reading) rest end).
    { intros k' q Hne Hk'. specialize (Hq _ _ Hk'). destruct q as [|c rest']; [done|].
      destruct Hq as (Hc' & Hp' & Hr'). split; [done|]. split; [|done]. eapply agree_phase; [|exact Hp'].
      destruct Hc' as (_ & Hu & _). by eapply advance_agree. }
    destruct (advance io op p (files s)) as [fs pr]. cbn [fst snd] in *.
    assert (Hnew : forall q, match q with [] => True | c :: rest' =>
        call_ok k c /\ phase_ok fs k (call_op c) (call_phase c) /\ Forall (fun c => call_ok k c /\ call_phase c = Reading) rest' end ->
      store_ok (set_queue k q (mkFileStore fs (queues s)))).
    { intros q Hqok. split; [unfold set_queue; by destruct q|]. intros k' q'. rewrite queue_set. cbn.
      destruct (decide (k' = k)) as [->|Hne].
      - destruct q; [done|]. intros [= <-]. unfold set_queue. done.
      - intros Hk'. specialize (Hothers k' q' Hne Hk'). unfold set_queue. by destruct q. }
    assert (Hrest : match rest with [] => True | c :: rest' =>
        call_ok k c /\ phase_ok fs k (call_op c) (call_phase c) /\ Forall (fun c => call_ok k c /\ call_phase c = Reading) rest' end).
    { destruct Hr as [|c' rest' [Hc' Hp'] Hr']; [done|]. by rewrite Hp'. }
    assert (Hfiles : forall q, files (set_queue k q (mkFileStore fs (queues s))) = fs) by (by intros []).
    destruct pr as [p'|a|e]; cbn [fst snd]; rewrite Hfiles.
    + destruct Hpr as [Hv Hp']. split; [|by cbn]. apply Hnew. done.
    + split; [by apply Hnew|]. cbn. exists (file_view fs). split; [done|by intros ??].
    + split; [by apply Hnew|]. done.
  - split; [|by intros ??]. split; [done|]. cbn. intros k q H. by rewrite lookup_empty in H.
Qed.

Lemma run_ok steps : forall s, store_ok s -> Forall step_input steps ->
  store_ok (run steps s).1 /\ atomic (run steps s).2 (file_view (files s)) (file_view (files (run steps s).1)).
Proof using JL JRL hash_length hash_distinct.
  induction steps as [|st steps IH]; intros s Hs Hin; cbn [ReceiptFiles.run]; [by split; [|intros ??]|].
  inversion Hin as [|? ? Hst Hsteps]; subst. destruct (step_ok st s Hs Hst) as [Hs1 Ha1].
  destruct (step st s) as [s1 evs]. cbn in Hs1, Ha1. destruct (IH s1 Hs1 Hsteps) as [Hs2 Ha2].
  destruct (run steps s1) as [s2 evs']. cbn in *. split; [done|]. by eapply atomic_app.
Qed.

Definition new_store (fs : gmap string string) : FileStore := mkFileStore fs ∅.
Lemma new_store_ok fs : files_ok fs -> store_ok (new_store fs).
Proof. intros H. split; [done|]. cbn. intros k q Hq. by rewrite lookup_empty in Hq. Qed.

(** C11.  The files are an atomic store: over any calls whose keys have no white space around them and whose results are
    values that an object of JSON holds ([step_input]), file failures and crashes of the process, interleaved in any
    way, each answer given is the one an atomic store gives to that call on the receipts that
    the answers before it left, a call that fails leaves the receipts as they are, and
    the files hold what the answers left.  With white space around a key it is false ([padded_key_loses_receipt]).
    SHA-256 has 64 hexadecimal digits and does not collide on the keys that are used. *)
Theorem file_store_refines (steps : list Step) (fs : gmap string string)
    (Hfs : files_ok fs) (Hin : Forall step_input steps) :
  atomic (run steps (new_store fs)).2 (file_view fs) (file_view (files (run steps (new_store fs)).1)).
Proof using JL JRL hash_length hash_distinct. by apply run_ok; [apply new_store_ok|]. Qed.

(** *** One grant, across crashes *)
Definition outcomes (evs : list Event) : list (StoreOp * result exn Answer) :=
  flat_map (fun ev => match ev with Answered _ op a => [(op, a)] | IoFailed _ _ _ => [] end) evs.
Definition slots_used (v : view) : Prop := forall k, used k -> slot_ok k (v k).

Lemma effect_step op v v' a k : used k -> slots_used v -> effect op v v' a ->
  slots_used v' /\ (stage (v k) <= stage (v' k))%nat
  /\ (grants k (op, a) = true -> stage (v k) = 0%nat /\ (1 <= stage (v' k))%nat)
  /\ (starts k (op, a) = true -> stage (v k) = 1%nat /\ (2 <= stage (v' k))%nat).
Proof using JL JRL.
  intros Hk Hv (Ht & (k0 & Hk0 & Hu) & w & Ha & Hw).
  assert (Hs0 : forall k1, op_key op = Ok k1 -> slot_ok k1 (v k1)) by (intros k1 E; rewrite Hk0 in E; injection E as <-; auto).
  split.
  - intros k1 Hk1. rewrite (Hw k1 Hk1). eapply acts_slots; eauto.
  - rewrite (Hw k Hk). destruct (acts_step op v w a k Ha Ht Hs0) as (H1 & H2 & H3 & _). done.
Qed.

Lemma atomic_stage evs v v' k : used k -> slots_used v -> atomic evs v v' ->
  (length (List.filter (grants k) (outcomes evs)) <= if Nat.eqb (stage (v k)) 0 then 1 else 0)%nat
  /\ (length (List.filter (starts k) (outcomes evs)) <= if Nat.leb (stage (v k)) 1 then 1 else 0)%nat.
Proof using JL JRL.
  intros Hk. revert v. induction evs as [|[id op a|id op e] evs IH]; cbn [atomic outcomes flat_map]; intros v Hv H.
  - cbn. lia.
  - destruct H as (w & Hw & H). destruct (effect_step op v w a k Hk Hv Hw) as (Hvw & H1 & Hg & Hs).
    destruct (IH w Hvw H) as [Ig Is]. cbn [app List.filter]. unfold outcomes in *.
    destruct (grants k (op, a)), (starts k (op, a)); cbn [length];
      repeat match goal with H : true = true -> _ |- _ => specialize (H eq_refl) end;
      destruct (Nat.eqb_spec (stage (v k)) 0), (Nat.eqb_spec (stage (w k)) 0),
        (Nat.leb_spec (stage (v k)) 1), (Nat.leb_spec (stage (w k)) 1); lia.
  - by apply IH.
Qed.

(** Whatever fails and whenever the process crashes and starts again on the files, at most one reservation of a
    key lets its caller go on and at most one mutation of the key is set going. *)
Theorem files_grant_once (steps : list Step) (fs : gmap string string) (k : string)
    (Hfs : files_ok fs) (Hin : Forall step_input steps) (Hk : used k) :
  (length (List.filter (grants k) (outcomes (run steps (new_store fs)).2)) <= 1)%nat /\
  (length (List.filter (starts k) (outcomes (run steps (new_store fs)).2)) <= 1)%nat.
Proof using JL JRL hash_length hash_distinct.
  destruct (run_ok steps _ (new_store_ok fs Hfs) Hin) as [_ Ha]. cbn [new_store files] in Ha.
  assert (Hv : slots_used (file_view fs)).
  { intros k' Hk'. destruct (Hfs k' Hk') as (r & Hr & Hs). by rewrite (view_of fs k' r Hr). }
  destruct (atomic_stage _ _ _ k Hk Hv Ha) as [Hg Hs].
  destruct (Nat.eqb _ 0), (Nat.leb _ 1); lia.
Qed.

(** *** Calls are answered *)
Definition event_id (ev : Event) : nat := match ev with Answered id _ _ | IoFailed id _ _ => id end.
Definition left_of (p : phase) : nat :=
  match p with Reading => 4 | EnsuringDirectory _ _ => 3 | WritingText _ _ _ => 2 | Renaming _ _ _ _ => 1 | Removing _ _ => 1 end.
Definition queue_left (q : list PendingCall) : nat := list_sum (map (fun c => left_of (call_phase c)) q).

Lemma queue_left_cons c q : queue_left (c :: q) = left_of (call_phase c) + queue_left q.
Proof. done. Qed.

(** A file operation that succeeds brings the call nearer to its end. *)
Lemma advance_left random op p fs k : phase_ok fs k op p ->
  match (advance (Done random) op p fs).2 with Continue p' => left_of p' < left_of p | _ => True end.
Proof.
  destruct p as [|r a|t content a|tmp t content a|tmp e]; cbn.
  - unfold after_read. destruct (_ ≫= _) as [[[r|] a]|e]; cbn; lia || done.
  - destruct (receipt_content r); cbn; lia || done.
  - lia.
  - intros (_ & (x & ->) & Hf & _). by rewrite Hf.
  - done.
Qed.

Lemma drain n : forall s k q random, store_ok s -> queues s !! k = Some q -> queue_left q <= n ->
  let o := run (replicate n (Run k (Done random))) s in
  queues o.1 !! k = None /\ map event_id o.2 = map call_id q.
Proof using JL JRL hash_length hash_distinct.
  assert (Hidle : forall n s k random, queues s !! k = None ->
    run (replicate n (Run k (Done random))) s = (s, [])).
  { clear n. intros n s k random H. induction n as [|n IH]; cbn; [done|]. rewrite H. by rewrite IH. }
  induction n as [|n IH]; intros s k q random Hs Hq Hn; cbn zeta.
  - pose proof (proj2 Hs k q Hq) as H. destruct q as [|c rest]; [done|].
    exfalso. rewrite queue_left_cons in Hn. destruct (call_phase c); cbn in Hn; lia.
  - destruct (step_ok (Run k (Done random)) s Hs I) as [Hs' _].
    pose proof (proj2 Hs k q Hq) as H. destruct q as [|c rest]; [done|]. destruct H as (Hc & Hp & Hr).
    pose proof (advance_left random (call_op c) (call_phase c) (files s) k Hp) as Hl.
    cbn [replicate ReceiptFiles.run]. revert Hs'. cbn [ReceiptFiles.step]. rewrite Hq.
    rewrite queue_left_cons in Hn.
    destruct (advance (Done random) (call_op c) (call_phase c) (files s)) as [fs pr]. cbn [snd] in Hl.
    assert (Hset : forall q, queues (set_queue k q (mkFileStore fs (queues s))) !! k = match q with [] => None | _ => Some q end).
    { intros q. rewrite queue_set. by destruct (decide (k = k)). }
    assert (Hnext : forall (ev : Event) s1, s1 = set_queue k rest (mkFileStore fs (queues s)) -> store_ok s1 -> event_id ev = call_id c ->
      1 <= left_of (call_phase c) ->
      queues (run (replicate n (Run k (Done random))) s1).1 !! k = None /\
      map event_id (ev :: (run (replicate n (Run k (Done random))) s1).2) = call_id c :: map call_id rest).
    { intros ev s1 -> Hs1 Hev H1. pose proof (Hset rest) as Hrest. destruct rest as [|c' rest'].
      - rewrite (Hidle n _ k random Hrest). cbn. split; [done|]. by rewrite Hev.
      - destruct (IH _ k _ random Hs1 Hrest) as [H2 H3]; [lia|]. split; [done|]. cbn [map]. by rewrite Hev, H3. }
    assert (1 <= left_of (call_phase c)) by (destruct (call_phase c); cbn; lia).
    destruct pr as [p'|a|e]; cbn [fst snd]; intros Hs1.
    + specialize (Hset (mkCall (call_id c) (call_op c) p' :: rest)). cbn in Hset.
      destruct (IH _ k _ random Hs1 Hset) as [H2 H3]; [rewrite queue_left_cons; cbn [call_phase]; lia|].
      destruct (run _ _) as [s2 evs] eqn:E in H2, H3 |- *. cbn in *. done.
    + destruct (Hnext (Answered (call_id c) (call_op c) a) _ eq_refl Hs1 eq_refl) as [H2 H3]; [done|].
      destruct (run _ _) as [s2 evs] eqn:E in H2, H3 |- *. cbn in *. done.
    + destruct (Hnext (IoFailed (call_id c) (call_op c) e) _ eq_refl Hs1 eq_refl) as [H2 H3]; [done|].
      destruct (run _ _) as [s2 evs] eqn:E in H2, H3 |- *. cbn in *. done.
Qed.

(** Every call ends: from any state the store can reach, at most four file operations for each call waiting under
    a key, if they succeed, end all of them, in the order in which they came. *)
Theorem file_calls_end (steps : list Step) (fs : gmap string string) (k random : string) (q : list PendingCall)
    (Hfs : files_ok fs) (Hin : Forall step_input steps) (Hq : queues (run steps (new_store fs)).1 !! k = Some q) :
  let o := run (replicate (4 * length q) (Run k (Done random))) (run steps (new_store fs)).1 in
  queues o.1 !! k = None /\ map event_id o.2 = map call_id q.
Proof using JL JRL hash_length hash_distinct.
  apply drain; [apply run_ok; [by apply new_store_ok|done]|done|].
  clear. induction q as [|c q IH]; [done|]. rewrite queue_left_cons. cbn [length]. destruct (call_phase c); cbn [left_of]; lia.
Qed.
End Refinement.

(** ** A push interrupted by a crash *)
Module FileTrial.
Definition padded_hash (k : string) : string := stake 64 (k +:+ spaces 64).
Lemma stake_exact n s : n <= String.length s -> String.length (stake n s) = n.
Proof. revert s. induction n as [|n IH]; intros [|c s] H; cbn in *; try lia. rewrite IH; lia. Qed.
Lemma padded_length k : String.length (padded_hash k) = 64.
Proof. apply stake_exact. rewrite slength_app, slength_spaces. lia. Qed.
Definition trial_keys (k : string) : Prop := k = "key-1"%string \/ k = "key-2"%string.
Lemma padded_distinct a b : trial_keys a -> trial_keys b -> padded_hash a = padded_hash b -> a = b.
Proof. intros [-> | ->] [-> | ->] H; vm_compute in H; congruence. Qed.

Notation trial_run := (run (JR := whole_numbers_read) padded_hash "/r" "7").
Notation ok := (Done "00ff").
(** Two pushes; the process stops when the first is about to rename the receipt of its execution, and the
    request is repeated. *)
Definition commit : MutationReceiptIdentity := mkIdentity "w1" op_git_commit "git:w1:." Trial.digest "key-2".
Definition crash_steps : list Step :=
  [Call 1 (Reserve Trial.push); Call 2 (Reserve commit); Run "key-1" ok; Run "key-2" ok; Run "key-1" ok; Run "key-1" ok;
   Run "key-2" (Fails "00ff" (Native "ENOSPC") None); Run "key-1" ok; Call 3 (MarkExecuting Trial.push);
   Run "key-1" ok; Run "key-1" ok; Run "key-1" ok; Crash; Call 4 (Reserve Trial.push); Run "key-1" ok].
Lemma crash_answers : outcomes (trial_run crash_steps (new_store ∅)).2 =
  [(Reserve Trial.push, Ok (AReservation (mkReservation execute (mkReceipt Trial.push reserved None))));
   (Reserve Trial.push, Ok (AReservation (mkReservation needs_reconciliation (mkReceipt Trial.push reserved None))))].
Proof. vm_compute. reflexivity. Qed.

Lemma crash_inputs : Forall (step_input trial_keys) crash_steps.
Proof.
  repeat (apply Forall_cons; split); try exact I; try (apply Forall_nil; exact I);
    (split; [reflexivity|]; split; [vm_compute; auto|]; split; [exact I|vm_compute; reflexivity]).
Qed.
Lemma no_files_ok : files_ok (JR := whole_numbers_read) padded_hash "/r" trial_keys ∅.
Proof. intros k _. rewrite lookup_empty. by exists None. Qed.

Lemma file_store_refines_witness :
  atomic trial_keys (trial_run crash_steps (new_store ∅)).2 (file_view padded_hash "/r" ∅)
    (file_view padded_hash "/r" (files (trial_run crash_steps (new_store ∅)).1)).
Proof.
  exact (file_store_refines padded_hash "/r" "7" trial_keys padded_length padded_distinct crash_steps ∅ no_files_ok crash_inputs).
Defined.
Lemma files_grant_once_witness :
  (length (List.filter (grants "key-1") (outcomes (trial_run crash_steps (new_store ∅)).2)) <= 1) /\
  (length (List.filter (starts "key-1") (outcomes (trial_run crash_steps (new_store ∅)).2)) <= 1).
Proof.
  exact (files_grant_once padded_hash "/r" "7" trial_keys padded_length padded_distinct crash_steps ∅ "key-1"
           no_files_ok crash_inputs (or_introl eq_refl)).
Defined.
Lemma file_calls_end_witness :
  map event_id (trial_run (replicate 8 (Run "key-1" ok)) (trial_run [Call 1 (Reserve Trial.push); Call 2 (Get "key-1")] (new_store ∅)).1).2
  = [1; 2].
Proof.
  refine (proj2 (file_calls_end padded_hash "/r" "7" trial_keys padded_length padded_distinct
    [Call 1 (Reserve Trial.push); Call 2 (Get "key-1")] ∅ "key-1" "00ff"
    [mkCall 1 (Reserve Trial.push) Reading; mkCall 2 (Get "key-1") Reading] no_files_ok _ _)).
  - repeat (apply Forall_cons; split); try (apply Forall_nil; exact I);
      (split; [reflexivity|]; split; [vm_compute; auto|]; split; [exact I|vm_compute; reflexivity]).
  - vm_compute. reflexivity.
Defined.

(** An idempotency key with white space around it is read under one path and written under another: the mutation is
    granted, never set going, and the receipt of the trimmed key, here a completed one, is lost. *)
Definition padded : MutationReceiptIdentity :=
  mkIdentity "w1" op_git_push_branch "git:w1:.:origin:refs/heads/x" Trial.digest " key-1".
Definition write_steps (id : nat) (op : StoreOp) : list Step := Call id op :: replicate 4 (Run (queue_key op) ok).
Lemma padded_key_loses_receipt :
  let s := (trial_run (write_steps 1 (Reserve Trial.push) ++ write_steps 2 (MarkExecuting Trial.push)
                       ++ write_steps 3 (MarkCompleted Trial.push Trial.answer)) (new_store ∅)).1 in
  let o := trial_run (write_steps 4 (Reserve padded) ++ write_steps 5 (MarkExecuting padded)) s in
  file_view padded_hash "/r" (files s) "key-1" = Some (mkReceipt Trial.push completed (Some Trial.answer))
  /\ map (fun x => err_code x.2) (outcomes o.2) = [None; Some EXECUTION_STATE_INVALID]
  /\ file_view padded_hash "/r" (files o.1) "key-1" = Some (mkReceipt Trial.push reserved None).
Proof. vm_compute. repeat split; reflexivity. Qed.
End FileTrial.
