(* ===== verification/ShellService.v ===== *)
(** The shell service: services/workspace-agent/src/shell/service.ts and
    shell/confirmation-policy.ts.

    A command is classified, its authorization decided, and, when a confirmation
    is needed, created or consumed, before anything runs.  The registry of
    confirmations is any [OneShot] registry.  What is handed to the process runner
    (not modelled) is the value [Launch]. *)
From S2P Require Import Prelude Errors JsString Analysis Risk NodeEnv Policy PathSecurity TrustedCritical Trusted Timeouts Confirmation.
Open Scope Z_scope.

(** *** confirmation-policy.ts *)
Inductive Authorization := auth_standard | auth_trusted.
Inductive CommandAuthorizationDecision :=
| decide_execute (authorization : Authorization)
| decide_confirm (reasons : list string)
| decide_blocked (code : ErrorCode) (reason : string).

Definition lift_trusted (d : TrustedDecision) : CommandAuthorizationDecision :=
  match d with
  | Execute => decide_execute auth_trusted
  | ConfirmationRequired reasons => decide_confirm reasons
  | Blocked c reason => decide_blocked c reason
  end.

(** *** The inputs *)
Record CommandInput := mkCommandInput {
  ci_shell : ShellName;
  ci_command : string;
  ci_cwd : option string;
  ci_timeoutMs : Z;
  ci_confirmationId : option string;
}.
Record CommandAuthorizationScope := mkScope {
  sc_executionContext : ExecutionContext;
  sc_operation : string;
  sc_interactive : bool;
}.
Record AuthorizedCommandExecution := mkExecution { ae_logicalCwd : string; ae_absoluteCwd : string }.
Record CommandConfirmationRequired := mkRequired {
  cr_shell : ShellName;
  cr_cwd : string;
  cr_confirmationId : string;
  cr_expiresAt : Z;
  cr_reasons : list string;
}.
Inductive Prepared :=
| authorized (execution : AuthorizedCommandExecution)
| confirmation_required (required : CommandConfirmationRequired).

(** What [runShellCommand] is called with. *)
Record Launch := mkLaunch {
  ln_shell : ShellName;
  ln_command : string;
  ln_execution : AuthorizedCommandExecution;
  ln_timeoutMs : Z;
  ln_deadline : option OperationDeadline;
}.
Inductive RunOutcome :=
| launched (launch : Launch)
| needs_confirmation (required : CommandConfirmationRequired).

Section ShellService.
Context {P : NodePath}.
Context (glob : string -> string -> bool) (fs : FileSystem).
Context (git : string -> list string -> option (list GitEvent)).
Context {R : Type} `{Registry : OneShot R CommandConfirmationBinding}.

Definition decideCommandAuthorization (workspace : ResolvedWorkspace) (shell : ShellName)
    (command logicalCwd absoluteCwd : string) (currentRequiresConfirmation : bool)
    (fallbackReasons : list string) : result exn CommandAuthorizationDecision :=
  if negb (bool_decide (ws_confirmationMode workspace = trusted_workspace)
           && bool_decide (ws_permissionProfile workspace = full_repo_write)) then
    Ok (if currentRequiresConfirmation then decide_confirm fallbackReasons
        else decide_execute auth_standard)
  else
    criticalReason ← trustedWorkspaceCriticalReason shell command;
    match truthy criticalReason with
    | Some reason => Ok (decide_confirm [reason])
    | None =>
        if negb currentRequiresConfirmation then Ok (decide_execute auth_standard)
        else Ok (lift_trusted (authorizeTrustedWorkspaceCommand glob fs git
                   (mkInput workspace shell command logicalCwd absoluteCwd fallbackReasons)))
    end.

(** *** service.ts *)
Definition shell_name (shell : ShellName) : string :=
  match shell with
  | powershell => "powershell" | pwsh => "pwsh" | cmd => "cmd" | wsl => "wsl" | git_bash => "git-bash"
  end.

Definition assertShellAllowed (workspace : ResolvedWorkspace) (shell : ShellName) : result exn unit :=
  match ws_allowShell workspace with
  | [] => throw SHELL_NOT_ALLOWED "Workspace policy does not allow shell execution."
  | _ =>
      if includes (ws_allowedShells workspace) shell then Ok tt
      else throw SHELL_NOT_ALLOWED
             ("Workspace policy does not allow the " +:+ shell_name shell +:+ " shell.")
  end.

Definition enforceGitPushPolicy (shell : ShellName) (command : string) : result exn unit :=
  let intent := classifyGitPushIntent shell command in
  if negb (isPush intent) then Ok tt
  else match truthy (protectedGitPushReason intent) with
       | Some reason => throw PERMISSION_DENIED reason
       | None => Ok tt
       end.

Definition isAllowedShellPath (workspace : ResolvedWorkspace) (logicalPath : string) : bool :=
  existsb (fun shellRoot => logicalContains shellRoot logicalPath) (ws_allowShell workspace).

Definition resolveShellCwd (workspace : ResolvedWorkspace) (inputCwd : option string) :
    result exn AuthorizedCommandExecution :=
  logicalPath ← normalizeRelativePath (default "." inputCwd) true;
  if negb (isAllowedShellPath workspace logicalPath) then
    throw SHELL_NOT_ALLOWED "Path is outside the workspace allowShell policy."
  else
    authorized ← authorizeExisting glob fs workspace logicalPath (Some kind_directory) true None;
    Ok (mkExecution (ap_logicalPath authorized) (ap_canonicalPath authorized)).

Definition INTERACTIVE_REASON : string := "interactive process grants persistent stdin access".

Definition binding_of (workspace : ResolvedWorkspace) (input : CommandInput)
    (scope : CommandAuthorizationScope) (cwd : string) : CommandConfirmationBinding :=
  mkCommandBinding (ws_id workspace) (ci_shell input) cwd (ci_command input)
    (sc_executionContext scope) (sc_operation scope) (sc_interactive scope).

(** Everything [prepareCommand] does before it looks at the confirmation: the
    authorized directory and the decision. *)
Definition decide_command (workspace : ResolvedWorkspace) (input : CommandInput)
    (signal : option AbortSignal) :
    result exn (AuthorizedCommandExecution * CommandAuthorizationDecision) :=
  _ ← assertShellAllowed workspace (ci_shell input);
  _ ← (if is_aborted signal then Err (abortSignalError signal "Command operation was cancelled.")
       else Ok tt);
  cwd ← resolveShellCwd workspace (ci_cwd input);
  _ ← enforceGitPushPolicy (ci_shell input) (ci_command input);
  let risk := classifyCommandRisk (ci_shell input) (ci_command input) in
  decision ← decideCommandAuthorization workspace (ci_shell input) (ci_command input)
               (ae_logicalCwd cwd) (ae_absoluteCwd cwd) (destructive risk) (reasons risk);
  match decision with
  | decide_blocked c reason => throw c reason
  | _ => Ok (cwd, decision)
  end.

(** The confirmation: create one when none is presented, consume it otherwise.
    [id] is the random identifier; [now1] and [now2] the two readings of the clock. *)
Definition confirm_command (r : R) (binding : CommandConfirmationBinding) (input : CommandInput)
    (cwd : AuthorizedCommandExecution) (reasons : list string) (id : string) (now1 now2 : Z) :
    R * result exn Prepared :=
  match truthy (ci_confirmationId input) with
  | None =>
      (os_create id binding now1 now2 r,
       Ok (confirmation_required
             (mkRequired (ci_shell input) (ae_logicalCwd cwd) id (now2 + os_ttl) reasons)))
  | Some presented =>
      let '(r', consumed) := os_consume presented binding now1 now2 r in
      (r', _ ← consumed; Ok (authorized cwd))
  end.

Definition prepareCommand (r : R) (workspace : ResolvedWorkspace) (input : CommandInput)
    (signal : option AbortSignal) (scope : CommandAuthorizationScope) (id : string) (now1 now2 : Z) :
    R * result exn Prepared :=
  match decide_command workspace input signal with
  | Err e => (r, Err e)
  | Ok (cwd, decision) =>
      let binding := binding_of workspace input scope (ae_logicalCwd cwd) in
      let required := match decision with decide_confirm reasons => Some reasons | _ => None end in
      if sc_interactive scope then
        confirm_command r binding input cwd
          (js_dedup (default [] required ++ [INTERACTIVE_REASON])) id now1 now2
      else
        match required with
        | Some reasons => confirm_command r binding input cwd reasons id now1 now2
        | None => (r, Ok (authorized cwd))
        end
  end.

Definition synchronousCommandDeadline (requestedTimeoutMs : Z) (upstream : option OperationDeadline)
    (startedAt lifecycleNow : Z) : result exn OperationDeadline :=
  if MAX_SYNCHRONOUS_OPERATION_TIMEOUT_MS <? requestedTimeoutMs then
    throw INVALID_ARGUMENT "Commands above 300 seconds must run through the BackgroundTaskManager."
  else
    deadline ← createOperationDeadline requestedTimeoutMs upstream startedAt;
    if remainingOperationTimeMs deadline startedAt <=? 0 then
      lifecycle ← createOperationLifecycle deadline startedAt
        (Some (mkTerminal layer_executor reason_timeout
                 (Some "The command executor received an expired deadline."))) lifecycleNow;
      Err (App (mkAppError AGENT_TIMEOUT "Command deadline has expired." (Some lifecycle) None))
    else Ok deadline.

(** [runCommand]; [launchNow] is the clock when the runner is called. *)
Definition runCommand (r : R) (workspace : ResolvedWorkspace) (input : CommandInput)
    (signal : option AbortSignal) (upstream : option OperationDeadline) (id : string)
    (startedAt lifecycleNow now1 now2 launchNow : Z) : R * result exn RunOutcome :=
  match synchronousCommandDeadline (ci_timeoutMs input) upstream startedAt lifecycleNow with
  | Err e => (r, Err e)
  | Ok deadline =>
      let '(r', prepared) :=
        prepareCommand r workspace input signal (mkScope foreground "run_command" false) id now1 now2 in
      (r', p ← prepared;
           Ok match p with
              | confirmation_required c => needs_confirmation c
              | authorized execution =>
                  launched (mkLaunch (ci_shell input) (ci_command input) execution
                              (remainingOperationTimeMs deadline launchNow) (Some deadline))
              end)
  end.

Definition runAuthorizedCommandToFiles (workspace : ResolvedWorkspace) (input : CommandInput)
    (signal : option AbortSignal) : result exn Launch :=
  _ ← assertShellAllowed workspace (ci_shell input);
  _ ← (if is_aborted signal then Err (abortSignalError signal "Command operation was cancelled.")
       else Ok tt);
  cwd ← resolveShellCwd workspace (ci_cwd input);
  _ ← enforceGitPushPolicy (ci_shell input) (ci_command input);
  Ok (mkLaunch (ci_shell input) (ci_command input) cwd (ci_timeoutMs input) None).

Definition authorizeBackgroundCommand (r : R) (workspace : ResolvedWorkspace) (input : CommandInput)
    (operation : string) (interactive : bool) (signal : option AbortSignal) (id : string)
    (now1 now2 : Z) : R * result exn Prepared :=
  prepareCommand r workspace input signal (mkScope background operation interactive) id now1 now2.
End ShellService.

(** ** What a prepared command guarantees *)
Section Guarantees.
Context {P : NodePath} {L : PathLaws P}.
Context (glob : string -> string -> bool) (fs : FileSystem).
Context (git : string -> list string -> option (list GitEvent)).
Context {R : Type} {Registry : OneShot R CommandConfirmationBinding}.
Context {Laws : OneShotLaws R CommandConfirmationBinding}.
Context (all_confirmable : forall b, confirmable b).

Definition trusted_mode (workspace : ResolvedWorkspace) : Prop :=
  ws_confirmationMode workspace = trusted_workspace /\ ws_permissionProfile workspace = full_repo_write.

Lemma decide_command_ok workspace input signal cwd decision :
  decide_command glob fs git workspace input signal = Ok (cwd, decision) ->
  ci_shell input ∈ ws_allowedShells workspace /\ ws_allowShell workspace <> [] /\
  is_aborted signal = false /\
  resolveShellCwd glob fs workspace (ci_cwd input) = Ok cwd /\
  enforceGitPushPolicy (ci_shell input) (ci_command input) = Ok tt /\
  decideCommandAuthorization glob fs git workspace (ci_shell input) (ci_command input)
    (ae_logicalCwd cwd) (ae_absoluteCwd cwd)
    (destructive (classifyCommandRisk (ci_shell input) (ci_command input)))
    (reasons (classifyCommandRisk (ci_shell input) (ci_command input))) = Ok decision /\
  (forall c m, decision <> decide_blocked c m).
Proof.
  unfold decide_command. intros H.
  apply bind_ok in H as ([] & Hshell & H). apply bind_ok in H as ([] & Hab & H).
  apply bind_ok in H as (cwd' & Hcwd & H). apply bind_ok in H as ([] & Hpush & H).
  apply bind_ok in H as (d & Hd & H).
  assert (cwd' = cwd /\ d = decision /\ forall c m, decision <> decide_blocked c m) as (-> & -> & Hb)
    by (destruct d; simplify_eq; split_and!; done).
  unfold assertShellAllowed in Hshell.
  destruct (ws_allowShell workspace); [done|].
  destruct (includes _ _) eqn:Hs; [|done]. apply includes_spec in Hs.
  destruct (is_aborted signal); [done|]. split_and!; done.
Qed.

(** Outside a trusted workspace a command is asked about exactly when it is
    destructive; inside one, only a critical reason or a mutation that could not be
    authorized is. *)
Lemma decision_standard workspace shell command logical absolute needs rs decision :
  decideCommandAuthorization glob fs git workspace shell command logical absolute needs rs = Ok decision ->
  ~ trusted_mode workspace ->
  decision = if needs then decide_confirm rs else decide_execute auth_standard.
Proof.
  unfold decideCommandAuthorization, trusted_mode. intros H Ht.
  assert (bool_decide (ws_confirmationMode workspace = trusted_workspace)
          && bool_decide (ws_permissionProfile workspace = full_repo_write) = false) as E.
  { apply not_true_iff_false. by rewrite andb_true_iff, !bool_decide_eq_true. }
  rewrite E in H. cbn [negb] in H. by simplify_eq.
Qed.

Lemma decision_trusted workspace shell command logical absolute rs decision :
  decideCommandAuthorization glob fs git workspace shell command logical absolute true rs = Ok decision ->
  trusted_mode workspace ->
  (exists reason, decision = decide_confirm [reason]) \/
  trustedWorkspaceCriticalReason shell command = Ok None /\
  decision = lift_trusted (authorizeTrustedWorkspaceCommand glob fs git
               (mkInput workspace shell command logical absolute rs)).
Proof.
  unfold decideCommandAuthorization. intros H [Hm Hp].
  rewrite !bool_decide_eq_true_2 in H by done. cbn [andb negb] in H.
  apply bind_ok in H as (reason & Hr & H). destruct reason as [[|c s]|]; cbn [truthy sempty] in H; simplify_eq.
  - (* no reason of the source is empty *)
    exfalso. revert Hr. apply critical_reason_not_empty.
  - left. eauto.
  - by right.
Qed.

Lemma confirm_command_cases (r : R) binding input cwd rs id now1 now2 :
  (truthy (ci_confirmationId input) = None /\
   confirm_command r binding input cwd rs id now1 now2 =
     (os_create id binding now1 now2 r,
      Ok (confirmation_required (mkRequired (ci_shell input) (ae_logicalCwd cwd) id (now2 + os_ttl) rs)))) \/
  (exists presented e, ci_confirmationId input = Some presented /\ live r presented binding e /\
     now1 < e /\ now2 < e /\
     confirm_command r binding input cwd rs id now1 now2 =
       ((os_consume presented binding now1 now2 r).1, Ok (authorized cwd)) /\
     forall b' e', ~ live (os_consume presented binding now1 now2 r).1 presented b' e') \/
  (exists presented, ci_confirmationId input = Some presented /\
     (confirm_command r binding input cwd rs id now1 now2).1 = (os_consume presented binding now1 now2 r).1 /\
     err_code (confirm_command r binding input cwd rs id now1 now2).2 = Some os_code).
Proof.
  unfold confirm_command.
  destruct (ci_confirmationId input) as [[|c s]|]; cbn [truthy sempty]; [by left| |by left].
  set (presented := String c s). right.
  destruct (os_consume presented binding now1 now2 r) as [r' consumed] eqn:E.
  destruct (consume_refuses presented binding now1 now2 r (all_confirmable binding)) as [Hok|Herr].
  - left. pose proof Hok as Hlive. apply consume_succeeds in Hlive as (e & Hl & H1 & H2); [|done].
    exists presented, e.
    assert (forall b' e', ~ live (os_consume presented binding now1 now2 r).1 presented b' e') as Hsp
      by (intros b' e'; by apply consume_spends).
    rewrite E in Hok. simpl in Hok. subst consumed. rewrite E in *. by split_and!.
  - right. exists presented. rewrite E in Herr. simpl in Herr.
    destruct consumed as [|ex]; [done|]. rewrite E. by split_and!.
Qed.

Lemma prepared_justified (r : R) workspace input signal scope id now1 now2 r' cwd :
  prepareCommand glob fs git r workspace input signal scope id now1 now2 = (r', Ok (authorized cwd)) ->
  ci_shell input ∈ ws_allowedShells workspace /\ is_aborted signal = false /\
  resolveShellCwd glob fs workspace (ci_cwd input) = Ok cwd /\
  enforceGitPushPolicy (ci_shell input) (ci_command input) = Ok tt /\
  ((exists presented e, ci_confirmationId input = Some presented /\
      live r presented (binding_of workspace input scope (ae_logicalCwd cwd)) e /\ now2 < e /\
      forall b' e', ~ live r' presented b' e') \/
   (sc_interactive scope = false /\ r' = r /\
     (destructive (classifyCommandRisk (ci_shell input) (ci_command input)) = false \/
      trusted_mode workspace /\
      authorizeTrustedWorkspaceCommand glob fs git
        (mkInput workspace (ci_shell input) (ci_command input) (ae_logicalCwd cwd) (ae_absoluteCwd cwd)
           (reasons (classifyCommandRisk (ci_shell input) (ci_command input)))) = Execute))).
Proof.
  unfold prepareCommand. intros H.
  destruct (decide_command _ _ _ _ _ _) as [[cwd' decision]|e] eqn:Hd; [|done].
  apply decide_command_ok in Hd as (Hs & _ & Hab & Hcwd & Hpush & Hdec & Hnb).
  assert (forall rs, confirm_command r (binding_of workspace input scope (ae_logicalCwd cwd')) input cwd' rs id
            now1 now2 = (r', Ok (authorized cwd)) -> cwd' = cwd /\
      exists presented e, ci_confirmationId input = Some presented /\
      live r presented (binding_of workspace input scope (ae_logicalCwd cwd')) e /\ now2 < e /\
      forall b' e', ~ live r' presented b' e') as Hconf.
  { intros rs Hc. destruct (confirm_command_cases r (binding_of workspace input scope (ae_logicalCwd cwd'))
      input cwd' rs id now1 now2) as [[_ E]|[(p & e & Hp & Hl & _ & H2 & E & Hsp)|(p & Hp & _ & E)]];
      rewrite Hc in E; [discriminate E| |discriminate E].
    injection E as -> ->. split; [done|]. by exists p, e. }
  destruct (sc_interactive scope) eqn:Hi.
  { apply Hconf in H as [-> H]. split_and!; try done. by left. }
  destruct decision as [a|rs|c m]; [|apply Hconf in H as [-> H]; split_and!; try done; by left|].
  - simplify_eq. split_and!; try done. right. split_and!; try done.
    destruct (destructive _) eqn:Hr; [right|by left].
    destruct (decide (ws_confirmationMode workspace = trusted_workspace /\
                      ws_permissionProfile workspace = full_repo_write)) as [Ht|Ht].
    + apply decision_trusted in Hdec as [(? & ?)|[_ Hdec]]; [done| |done]. split; [done|].
      by destruct (authorizeTrustedWorkspaceCommand _ _ _ _).
    + by apply decision_standard in Hdec.
  - by destruct (Hnb c m).
Qed.

(** A command is authorized to run only in an allowed shell, in an authorized
    directory, when it is no protected push, and either because a confirmation of
    exactly this command in this directory, context and operation stood, unexpired,
    and is now spent; or, for a command that is not interactive, because it is not
    destructive, or the workspace is trusted and every effect could be authorized. *)
Theorem prepared_execution_justified (r : R) workspace input signal scope id now1 now2 r' cwd :
  prepareCommand glob fs git r workspace input signal scope id now1 now2 = (r', Ok (authorized cwd)) ->
  ci_shell input ∈ ws_allowedShells workspace /\ is_aborted signal = false /\
  resolveShellCwd glob fs workspace (ci_cwd input) = Ok cwd /\
  enforceGitPushPolicy (ci_shell input) (ci_command input) = Ok tt /\
  ((exists presented e, ci_confirmationId input = Some presented /\
      live r presented (binding_of workspace input scope (ae_logicalCwd cwd)) e /\ now2 < e /\
      forall b' e', ~ live r' presented b' e') \/
   (sc_interactive scope = false /\ r' = r /\
     (destructive (classifyCommandRisk (ci_shell input) (ci_command input)) = false \/
      trusted_mode workspace /\
      authorizeTrustedWorkspaceCommand glob fs git
        (mkInput workspace (ci_shell input) (ci_command input) (ae_logicalCwd cwd) (ae_absoluteCwd cwd)
           (reasons (classifyCommandRisk (ci_shell input) (ci_command input)))) = Execute))).
Proof. apply prepared_justified. Qed.

Definition with_confirmation (input : CommandInput) (id : string) : CommandInput :=
  mkCommandInput (ci_shell input) (ci_command input) (ci_cwd input) (ci_timeoutMs input) (Some id).

(** A command answered with a confirmation request runs when it is repeated
    with that confirmation before it expires; the request names the directory, and
    gives at least the reasons of the decision. *)
Theorem confirmation_roundtrip (r : R) workspace input signal scope id now1 now2 r' required :
  prepareCommand glob fs git r workspace input signal scope id now1 now2 =
    (r', Ok (confirmation_required required)) ->
  id <> EmptyString ->
  cr_confirmationId required = id /\
  forall now1' now2' id', now1' < cr_expiresAt required -> now2' < cr_expiresAt required ->
    exists r'' cwd,
      prepareCommand glob fs git r' workspace (with_confirmation input id) signal scope id' now1' now2'
        = (r'', Ok (authorized cwd)) /\
      ae_logicalCwd cwd = cr_cwd required.
Proof.
  unfold prepareCommand. intros H Hid.
  change (decide_command glob fs git workspace (with_confirmation input id) signal)
    with (decide_command glob fs git workspace input signal).
  destruct (decide_command _ _ _ _ _ _) as [[cwd decision]|e]; [|done].
  change (binding_of workspace (with_confirmation input id) scope (ae_logicalCwd cwd))
    with (binding_of workspace input scope (ae_logicalCwd cwd)).
  set (b := binding_of workspace input scope (ae_logicalCwd cwd)) in *.
  assert (forall rs, confirm_command r b input cwd rs id now1 now2 = (r', Ok (confirmation_required required)) ->
    cr_confirmationId required = id /\ forall now1' now2' id' rs',
      now1' < cr_expiresAt required -> now2' < cr_expiresAt required ->
      exists r'', confirm_command r' b (with_confirmation input id) cwd rs' id' now1' now2'
        = (r'', Ok (authorized cwd)) /\ ae_logicalCwd cwd = cr_cwd required) as Hgo.
  { intros rs Hc.
    destruct (confirm_command_cases r b input cwd rs id now1 now2)
      as [[_ E]|[(p & e & _ & _ & _ & _ & E & _)|(p & _ & _ & E)]]; rewrite Hc in E; [|discriminate E|discriminate E].
    injection E as -> ->. split; [done|]. cbn [cr_expiresAt cr_cwd]. intros now1' now2' id' rs' H1 H2.
    unfold confirm_command. cbn [ci_confirmationId with_confirmation].
    destruct id as [|c0 s0]; [done|]. cbn [truthy sempty].
    assert ((os_consume (String c0 s0) b now1' now2' (os_create (String c0 s0) b now1 now2 r)).2 = Ok tt) as Hok.
    { apply consume_succeeds; [done|]. eexists. split; [by apply create_live|]. done. }
    destruct (os_consume _ _ _ _ _) as [r'' consumed]. simpl in Hok. subst consumed. eauto. }
  destruct (sc_interactive scope).
  - apply Hgo in H as [-> H]. split; [done|]. intros now1' now2' id' H1 H2.
    match goal with |- context [confirm_command r' b _ cwd ?rs _ _ _] =>
      destruct (H now1' now2' id' rs H1 H2) as (r'' & E & Hcwd) end.
    by exists r'', cwd.
  - destruct decision as [a|rs|c m]; [done| |done].
    apply Hgo in H as [-> H]. split; [done|]. intros now1' now2' id' H1 H2.
    match goal with |- context [confirm_command r' b _ cwd ?rs _ _ _] =>
      destruct (H now1' now2' id' rs H1 H2) as (r'' & E & Hcwd) end.
    by exists r'', cwd.
Qed.
End Guarantees.

(** ** Histories of calls *)
(** One call to [prepareCommand], with the state of the world it meets. *)
Record Call := mkCall {
  cl_fs : FileSystem;
  cl_git : string -> list string -> option (list GitEvent);
  cl_workspace : ResolvedWorkspace;
  cl_input : CommandInput;
  cl_signal : option AbortSignal;
  cl_scope : CommandAuthorizationScope;
  cl_id : string;
  cl_now1 : Z;
  cl_now2 : Z;
}.

Section Histories.
Context {P : NodePath} {L : PathLaws P}.
Context (glob : string -> string -> bool).
Context {R : Type} {Registry : OneShot R CommandConfirmationBinding}.
Context {Laws : OneShotLaws R CommandConfirmationBinding}.
Context (all_confirmable : forall b, confirmable b).

Definition respond (r : R) (c : Call) : R * result exn Prepared :=
  prepareCommand glob (cl_fs c) (cl_git c) r (cl_workspace c) (cl_input c) (cl_signal c) (cl_scope c)
    (cl_id c) (cl_now1 c) (cl_now2 c).
Definition served (calls : list Call) : R := fold_left (fun r c => (respond r c).1) calls os_empty.

(** The call asked for a confirmation of a binding, until an instant. *)
Definition asked (calls : list Call) (id : string) (b : CommandConfirmationBinding) (e : Z) : Prop :=
  exists before c later required,
    calls = before ++ c :: later /\
    (respond (served before) c).2 = Ok (confirmation_required required) /\
    cr_confirmationId required = id /\ cr_expiresAt required = e /\
    b = binding_of (cl_workspace c) (cl_input c) (cl_scope c) (cr_cwd required).

Lemma respond_live r c id b e :
  live (respond r c).1 id b e ->
  live r id b e \/
  exists required, (respond r c).2 = Ok (confirmation_required required) /\
    cr_confirmationId required = id /\ cr_expiresAt required = e /\
    b = binding_of (cl_workspace c) (cl_input c) (cl_scope c) (cr_cwd required).
Proof.
  unfold respond, prepareCommand.
  destruct (decide_command _ _ _ _ _ _) as [[cwd decision]|ex]; [|by left].
  set (bc := binding_of (cl_workspace c) (cl_input c) (cl_scope c) (ae_logicalCwd cwd)).
  assert (forall rs, live (confirm_command r bc (cl_input c) cwd rs (cl_id c) (cl_now1 c) (cl_now2 c)).1 id b e ->
    live r id b e \/
    exists required,
      (confirm_command r bc (cl_input c) cwd rs (cl_id c) (cl_now1 c) (cl_now2 c)).2
        = Ok (confirmation_required required) /\
      cr_confirmationId required = id /\ cr_expiresAt required = e /\
      b = binding_of (cl_workspace c) (cl_input c) (cl_scope c) (cr_cwd required)) as Hgo.
  { intros rs Hl.
    destruct (confirm_command_cases all_confirmable r bc (cl_input c) cwd rs (cl_id c) (cl_now1 c) (cl_now2 c))
      as [[_ E]|[(p & e' & _ & _ & _ & _ & E & _)|(p & _ & E & _)]].
    - rewrite E in Hl |- *. cbn in Hl. apply live_create in Hl as [(-> & -> & ->)|Hl]; [|by left]. right. by eexists.
    - left. rewrite E in Hl. by eapply live_consume.
    - left. rewrite E in Hl. by eapply live_consume. }
  destruct (sc_interactive (cl_scope c)); [apply Hgo|].
  destruct decision as [a|rs|cd m]; [by left|apply Hgo|by left].
Qed.

Lemma served_live calls id b e : live (served calls) id b e -> asked calls id b e.
Proof.
  induction calls as [|c calls IH] using rev_ind; intros Hl; [by apply live_empty in Hl|].
  unfold served in Hl. rewrite fold_left_app in Hl. cbn [fold_left] in Hl.
  apply respond_live in Hl as [Hl|(required & Hr & Hid & He & Hb)].
  - destruct (IH Hl) as (before & c' & later & required & -> & Hr).
    exists before, c', (later ++ [c]), required. by rewrite <- app_assoc.
  - exists calls, c, [], required. by split_and!.
Qed.

(** In a workspace that is not trusted, a destructive command runs only after
    an earlier call asked for its confirmation: the same workspace, shell,
    directory, command, context and operation, within the life of that request.
    The same holds of every interactive command, in any workspace. *)
Theorem destructive_run_was_asked calls c r' cwd :
  respond (served calls) c = (r', Ok (authorized cwd)) ->
  (destructive (classifyCommandRisk (ci_shell (cl_input c)) (ci_command (cl_input c))) = true /\
   ~ trusted_mode (cl_workspace c)) \/ sc_interactive (cl_scope c) = true ->
  exists id e, ci_confirmationId (cl_input c) = Some id /\ cl_now2 c < e /\
    asked calls id (binding_of (cl_workspace c) (cl_input c) (cl_scope c) (ae_logicalCwd cwd)) e.
Proof.
  intros H Hwhy. unfold respond in H.
  eapply (prepared_justified _ _ _ all_confirmable) in H as (_ & _ & _ & _ & [(id & e & Hid & Hl & He & _)|
    (Hi & _ & Hd)]).
  - exists id, e. split_and!; try done. by apply served_live.
  - exfalso. destruct Hwhy as [[Hdes Hnt]|Hint]; [|congruence].
    destruct Hd as [Hd|[Ht _]]; [congruence|done].
Qed.

(** A launched foreground command is given at most five minutes, at most what
    it asked for, and never more than what is left of the caller's deadline. *)
Theorem launch_bounds fs git r workspace input signal upstream id startedAt lifecycleNow now1 now2 launchNow r' launch :
  runCommand glob fs git r workspace input signal upstream id startedAt lifecycleNow now1 now2 launchNow
    = (r', Ok (launched launch)) ->
  startedAt <= launchNow -> 0 < ci_timeoutMs input ->
  ln_timeoutMs launch <= ci_timeoutMs input <= MAX_SYNCHRONOUS_OPERATION_TIMEOUT_MS /\
  (forall u, upstream = Some u -> ln_timeoutMs launch <= remainingOperationTimeMs u launchNow) /\
  ln_command launch = ci_command input /\ ln_shell launch = ci_shell input /\
  exists p, prepareCommand glob fs git r workspace input signal (mkScope foreground "run_command" false) id now1 now2
    = (p, Ok (authorized (ln_execution launch))).
Proof.
  unfold runCommand, synchronousCommandDeadline. intros H Hclock Hpos.
  destruct (MAX_SYNCHRONOUS_OPERATION_TIMEOUT_MS <? ci_timeoutMs input) eqn:Hmax; [done|].
  apply Z.ltb_ge in Hmax.
  destruct (createOperationDeadline _ _ _) as [d|] eqn:Hd; [|done]. cbn in H.
  destruct (remainingOperationTimeMs d startedAt <=? 0); [by destruct (createOperationLifecycle _ _ _ _)|].
  destruct (prepareCommand _ _ _ _ _ _ _ _ _ _ _) as [p prepared] eqn:Hp.
  injection H as -> H. destruct prepared as [[execution|c]|]; [|done..]. injection H as <-. cbn.
  destruct (deadline_facts _ _ _ _ Hd) as (Hu & Hr).
  split_and!; try done; [| |by exists r'].
  - unfold remainingOperationTimeMs. specialize (Hr Hpos). lia.
  - intros u Eu. unfold remainingOperationTimeMs. specialize (Hu u Eu). lia.
Qed.
End Histories.

(** ** A concrete service *)
Module Trial.
Notation registry := (Pending CommandConfirmationBinding).
Definition delete_input (confirmationId : option string) : CommandInput :=
  mkCommandInput pwsh "Remove-Item src/c.ts" (Some "src") 60000 confirmationId.
Definition foreground_scope : CommandAuthorizationScope := mkScope foreground "run_command" false.
Definition demo_workspace : ResolvedWorkspace :=
  mkWorkspace "w1" "Demo" "/srv/ws" (Some repository) "/srv/ws" true full_repo_write standard
    [mkRoot "." "/srv/ws" "/srv/ws" kind_directory] [".env"] Demo.limits ["src"] ["."] [pwsh].
Definition prepare (r : registry) (confirmationId : option string) (now : Z) :
    registry * result exn Prepared :=
  prepareCommand (P := Demo.posix) Demo.glob Demo.fs Trusted.Trial.no_git r demo_workspace (delete_input confirmationId)
    None foreground_scope "c1" now now.
Definition request : CommandConfirmationRequired :=
  mkRequired pwsh "src" "c1" 600000 ["delete, remove or force-clean operation"].
Definition executed : AuthorizedCommandExecution := mkExecution "src" "/srv/ws/src".
Definition asked_once : registry := (prepare ∅ None 0).1.

Lemma first_call : prepare ∅ None 0 = (asked_once, Ok (confirmation_required request)).
Proof. vm_compute. reflexivity. Defined.
Lemma second_call : (prepare asked_once (Some "c1") 5).2 = Ok (authorized executed).
Proof. vm_compute. reflexivity. Defined.
Lemma confirm_all (b : CommandConfirmationBinding) : confirmable b.
Proof. exact I. Defined.

Lemma prepared_execution_justified_witness :
  ci_shell (delete_input (Some "c1")) ∈ ws_allowedShells demo_workspace /\
  exists presented e, ci_confirmationId (delete_input (Some "c1")) = Some presented /\
    live asked_once presented (binding_of demo_workspace (delete_input (Some "c1")) foreground_scope "src") e.
Proof.
  assert (prepare asked_once (Some "c1") 5 = ((prepare asked_once (Some "c1") 5).1, Ok (authorized executed)))
    as H by (rewrite <- second_call; apply surjective_pairing).
  destruct (prepared_execution_justified (P := Demo.posix) Demo.glob Demo.fs Trusted.Trial.no_git confirm_all
    asked_once demo_workspace (delete_input (Some "c1")) None foreground_scope "c1" 5 5 _ executed H)
    as (Hs & _ & _ & _ & [(p & e & Hp & Hl & _)|(_ & _ & [Hd|[[Ht _] _]])]).
  - split; [exact Hs|]. exists p, e. split; [exact Hp|exact Hl].
  - exfalso. vm_compute in Hd. discriminate Hd.
  - exfalso. discriminate Ht.
Defined.

Lemma confirmation_roundtrip_witness :
  exists r'' cwd, prepare asked_once (Some "c1") 5 = (r'', Ok (authorized cwd)) /\ ae_logicalCwd cwd = "src".
Proof.
  destruct (confirmation_roundtrip (P := Demo.posix) Demo.glob Demo.fs Trusted.Trial.no_git confirm_all
    ∅ demo_workspace (delete_input None) None foreground_scope "c1" 0 0 asked_once request first_call)
    as [_ H]; [discriminate|].
  exact (H 5 5 "c1" eq_refl eq_refl).
Defined.

Definition call (confirmationId : option string) (now : Z) : Call :=
  mkCall Demo.fs Trusted.Trial.no_git demo_workspace (delete_input confirmationId) None foreground_scope "c1" now now.
Lemma destructive_run_was_asked_witness :
  exists id e, ci_confirmationId (cl_input (call (Some "c1") 5)) = Some id /\ 5 < e /\
    asked (P := Demo.posix) (R := registry) Demo.glob [call None 0] id
      (binding_of demo_workspace (delete_input (Some "c1")) foreground_scope "src") e.
Proof.
  apply (destructive_run_was_asked (P := Demo.posix) (R := registry) Demo.glob confirm_all
    [call None 0] (call (Some "c1") 5) (prepare asked_once (Some "c1") 5).1 executed).
  - vm_compute. reflexivity.
  - left. split; [vm_compute; reflexivity|]. intros [Ht _]. discriminate Ht.
Defined.

Lemma launch_bounds_witness :
  exists r' launch,
    runCommand (P := Demo.posix) Demo.glob Demo.fs Trusted.Trial.no_git asked_once demo_workspace
      (delete_input (Some "c1")) None None "c2" 5 5 5 5 5 = (r', Ok (launched launch)) /\
    ln_timeoutMs launch <= 60000.
Proof.
  set (launch := mkLaunch pwsh "Remove-Item src/c.ts" executed 60000 (Some (mkDeadline 60000 60000 60005))).
  set (r' := (prepare asked_once (Some "c1") 5).1).
  assert (runCommand (P := Demo.posix) Demo.glob Demo.fs Trusted.Trial.no_git asked_once demo_workspace
      (delete_input (Some "c1")) None None "c2" 5 5 5 5 5 = (r', Ok (launched launch))) as H
    by (vm_compute; reflexivity).
  exists r', launch. split; [exact H|].
  apply (launch_bounds (P := Demo.posix) Demo.glob Demo.fs Trusted.Trial.no_git asked_once
    demo_workspace (delete_input (Some "c1")) None None "c2" 5 5 5 5 5 r' launch H); [reflexivity..].
Defined.
End Trial.
