(* ===== verification/TaskRegistry.v ===== *)
(** The browser task registry: services/browser-worker/domain/browser-task-registry.ts.

    A task owns browser tabs on behalf of an owner scope, lives while it is used,
    and is finished or expired in two steps.  The registry keeps the tasks, the
    task of every tab and the leases in use.  Stored tasks are objects that the
    methods mutate and callers receive copies: a method that changes a copy leaves
    the registry as it is, as [acquireForTask] does.  [sha256] hashes an owner scope; random
    identifiers and every reading of the clock are arguments. *)
From S2P Require Import Prelude Errors JsString JsMap Timeouts.
Open Scope Z_scope.

Inductive BrowserTaskState := active | suspended | finishing | finished | expired.

#[export] Instance BrowserTaskState_eq_dec : EqDecision BrowserTaskState.
Proof. solve_decision. Defined.

Record BrowserTask := mkTask {
  taskId : string;
  ownerScopeHash : string;
  state : BrowserTaskState;
  tabIds : list string;
  createdAt : Z;
  lastActivityAt : Z;
  expiresAt : Z;
}.

#[export] Instance BrowserTask_eq_dec : EqDecision BrowserTask.
Proof. solve_decision. Defined.

Definition set_state (s : BrowserTaskState) (t : BrowserTask) : BrowserTask :=
  mkTask (taskId t) (ownerScopeHash t) s (tabIds t) (createdAt t) (lastActivityAt t) (expiresAt t).
Definition set_tabs (tabs : list string) (t : BrowserTask) : BrowserTask :=
  mkTask (taskId t) (ownerScopeHash t) (state t) tabs (createdAt t) (lastActivityAt t) (expiresAt t).
Definition set_times (last expires : Z) (t : BrowserTask) : BrowserTask :=
  mkTask (taskId t) (ownerScopeHash t) (state t) (tabIds t) (createdAt t) last expires.

(** [browserTaskSchema]: lengths, and dates with a four-digit year. *)
Definition short_text (s : string) : bool :=
  (1 <=? Z.of_nat (String.length s)) && (Z.of_nat (String.length s) <=? 128).
Definition task_schema (t : BrowserTask) : bool :=
  short_text (taskId t) && short_text (ownerScopeHash t) && forallb short_text (tabIds t)
  && (Z.of_nat (length (tabIds t)) <=? 500)
  && iso_datetime (createdAt t) && iso_datetime (lastActivityAt t) && iso_datetime (expiresAt t).

(** The registry.  [leases] are the leases handed out, oldest first: the task of
    each, and its [released] variable. *)
Record Registry := mkRegistry {
  tasks : jsmap BrowserTask;
  taskByTab : jsmap string;
  activeLeases : jsmap Z;
  leases : list (string * bool);
}.
Definition with_tasks (m : jsmap BrowserTask) (r : Registry) : Registry :=
  mkRegistry m (taskByTab r) (activeLeases r) (leases r).
Definition with_tabs (m : jsmap string) (r : Registry) : Registry :=
  mkRegistry (tasks r) m (activeLeases r) (leases r).

Definition DEFAULT_OWNER_SCOPE : string := "legacy-local".
Definition DEFAULT_TASK_TTL_MS : Z := 10 * 60 * 1000.

(** [context?.ownerScope]. *)
Definition ownerScope (context : option string) : string := default DEFAULT_OWNER_SCOPE context.

Definition isAccessibleState (s : BrowserTaskState) : bool := includes [active; suspended] s.

Section TaskRegistry.
Context (sha256 : string -> string) (ttlMs : Z).

Definition hashOwnerScope (value : string) : string := sha256 value.
Definition owner_hash (context : option string) : string := hashOwnerScope (ownerScope context).

(** *** The constructor *)
Definition load_tabs (id : string) (tabs : list string) (m : jsmap string) : jsmap string :=
  fold_left (fun m tab => if jm_has m tab then m else jm_set m tab id) tabs m.
Fixpoint load_tasks (initial : list BrowserTask) (r : Registry) : result exn Registry :=
  match initial with
  | [] => Ok r
  | t :: rest =>
      if task_schema t then
        load_tasks rest (mkRegistry (jm_set (tasks r) (taskId t) t)
                           (load_tabs (taskId t) (tabIds t) (taskByTab r)) (activeLeases r) (leases r))
      else Err (Native "ZodError")
  end.
Definition construct (initialTasks : list BrowserTask) : result exn Registry :=
  load_tasks initialTasks (mkRegistry [] [] [] []).

(** *** Private methods *)
Definition touched (now : Z) (extendExpiry : bool) (t : BrowserTask) : BrowserTask :=
  set_times now (if extendExpiry then now + ttlMs else expiresAt t) t.

(** Change the stored object under a key. *)
Definition update_task (key : string) (f : BrowserTask -> BrowserTask) : stm Registry unit := fun r =>
  (match jm_get (tasks r) key with
   | Some t => with_tasks (jm_set (tasks r) key (f t)) r
   | None => r
   end, Ok tt).

(** [touchTask] and [resume] on a stored task; they answer a copy. *)
Definition touchTask (key : string) (t : BrowserTask) (now : Z) (extendExpiry : bool) :
    stm Registry BrowserTask :=
  _ ← update_task key (touched now extendExpiry);
  st_ok (touched now extendExpiry t).
Definition resume (key : string) (t : BrowserTask) (now : Z) : stm Registry BrowserTask :=
  _ ← update_task key (fun t => touched now true (set_state active t));
  st_ok (touched now true (set_state active t)).

Definition requireOwnedTask (id ownerHash : string) (includeFinished resumeSuspended : bool) (now : Z) :
    stm Registry BrowserTask :=
  r ← st_get;
  match jm_get (tasks r) id with
  | None => st_throw TASK_NOT_FOUND "The browser task was not found."
  | Some task =>
      if negb (ownerScopeHash task =s ownerHash) then
        st_throw TASK_OWNERSHIP_MISMATCH "The browser task belongs to another owner scope."
      else if bool_decide (state task = expired) then
        st_throw TASK_EXPIRED "The browser task has expired."
      else if bool_decide (state task = finished) && negb includeFinished then
        st_throw TASK_NOT_FOUND "The browser task is already finished."
      else if bool_decide (state task = finishing) then
        st_throw TASK_SUSPENDED "The browser task is finishing."
      else if resumeSuspended && bool_decide (state task = suspended) then resume id task now
      else st_ok task
  end.

(** *** Reading *)
Definition snapshot (r : Registry) : list BrowserTask := jm_values (tasks r).
Definition taskIdForTab (tab : string) (r : Registry) : option string := jm_get (taskByTab r) tab.
Definition taskForTab (tab : string) (r : Registry) : option BrowserTask :=
  match jm_get (taskByTab r) tab with
  | Some id => if sempty id then None else jm_get (tasks r) id
  | None => None
  end.
Definition accessibleTasks (context : option string) (includeTerminal : bool) (r : Registry) :
    list BrowserTask :=
  List.filter (fun t => (ownerScopeHash t =s owner_hash context)
                        && (includeTerminal || isAccessibleState (state t))) (jm_values (tasks r)).
Definition leaseCount (id : string) (r : Registry) : Z := default 0 (jm_get (activeLeases r) id).
Definition expiredCandidates (now : Z) (r : Registry) : list BrowserTask :=
  List.filter (fun t => isAccessibleState (state t) && (leaseCount (taskId t) r =? 0)
                        && (expiresAt t <=? now)) (jm_values (tasks r)).

(** *** Tasks *)
Definition create (context : option string) (uuid : string) (now : Z) : stm Registry BrowserTask := fun r =>
  let task := mkTask ("task-" +:+ uuid) (owner_hash context) active [] now now (now + ttlMs) in
  if task_schema task then (with_tasks (jm_set (tasks r) (taskId task) task) r, Ok task)
  else (r, Err (Native "ZodError")).

Definition no_id (id : option string) : bool := match id with Some s => sempty s | None => true end.

Definition resolveForOpen (id : option string) (context : option string) (uuid : string) (now : Z) :
    stm Registry BrowserTask :=
  if negb (no_id id) then requireOwnedTask (default EmptyString id) (owner_hash context) false true now
  else
    r ← st_get;
    match List.filter (fun e => (ownerScopeHash e.2 =s owner_hash context)
                                && isAccessibleState (state e.2)) (tasks r) with
    | [] => create context uuid now
    | [(key, task)] => resume key task now
    | _ => st_throw TASK_SCOPE_REQUIRED
             "More than one browser task is accessible. Provide taskId explicitly."
    end.

Definition resolveScoped (id : option string) (context : option string) (includeFinished : bool) (now : Z) :
    stm Registry BrowserTask :=
  if negb (no_id id) then
    requireOwnedTask (default EmptyString id) (owner_hash context) includeFinished true now
  else
    r ← st_get;
    match List.filter (fun e => (ownerScopeHash e.2 =s owner_hash context)
                                && (isAccessibleState (state e.2)
                                    || includeFinished && bool_decide (state e.2 = finished))) (tasks r) with
    | [] => st_throw TASK_NOT_FOUND "No browser task is accessible."
    | [(key, task)] => if isAccessibleState (state task) then resume key task now else st_ok task
    | _ => st_throw TASK_SCOPE_REQUIRED
             "More than one browser task is accessible. Provide taskId explicitly."
    end.

Definition assertTabAccess (tab : string) (context : option string) (now : Z) : stm Registry BrowserTask :=
  r ← st_get;
  match jm_get (taskByTab r) tab with
  | Some id =>
      if sempty id then
        st_throw TASK_NOT_FOUND "The browser tab is not associated with a task."
      else requireOwnedTask id (owner_hash context) false true now
  | None => st_throw TASK_NOT_FOUND "The browser tab is not associated with a task."
  end.

(** *** Tabs *)
(** The part that [attachTab] and [attachExistingTab] share; [name] is the
    identifier compared and recorded. *)
Definition attach (key tab : string) (name : BrowserTask -> string) : stm Registry unit := fun r =>
  match jm_get (tasks r) key with
  | None => (r, Err (Native "TypeError"))
  | Some task =>
      let current := jm_get (taskByTab r) tab in
      if negb (no_id current) && negb (default EmptyString current =s name task) then
        (r, throw TASK_OWNERSHIP_MISMATCH "The browser tab already belongs to another task.")
      else
        let task' := if includes (tabIds task) tab then task else set_tabs (tabIds task ++ [tab]) task in
        (mkRegistry (jm_set (tasks r) key task') (jm_set (taskByTab r) tab (name task))
           (activeLeases r) (leases r), Ok tt)
  end.

Definition stored (key : string) : stm Registry BrowserTask := fun r =>
  match jm_get (tasks r) key with
  | Some t => (r, Ok t)
  | None => (r, throw TASK_NOT_FOUND "The browser task was not found.")
  end.

Definition attachTab (id tab : string) (context : option string) (now1 now2 : Z) : stm Registry BrowserTask :=
  _ ← requireOwnedTask id (owner_hash context) false true now1;
  _ ← attach id tab taskId;
  task ← stored id;
  touchTask id task now2 true.

Definition attachExistingTab (id tab : string) : stm Registry BrowserTask :=
  _ ← stored id;
  _ ← attach id tab (fun _ => id);
  stored id.

Definition detachTab (tab : string) (now : Z) : stm Registry unit := fun r =>
  match jm_get (taskByTab r) tab with
  | None => (r, Ok tt)
  | Some id =>
      if sempty id then (r, Ok tt)
      else
        let r := with_tabs (jm_delete (taskByTab r) tab) r in
        update_task id (fun t => touched now true
          (set_tabs (List.filter (fun c => negb (c =s tab)) (tabIds t)) t)) r
  end.

(** *** Leases *)
(** The answer carries the copy that [touchTask] touched and the handle of the
    lease; the stored task is touched only if it was suspended. *)
Definition issue_lease (task : BrowserTask) (now : Z) : stm Registry (BrowserTask * nat) := fun r =>
  (mkRegistry (tasks r) (taskByTab r)
     (jm_set (activeLeases r) (taskId task) (default 0 (jm_get (activeLeases r) (taskId task)) + 1))
     (leases r ++ [(taskId task, false)]),
   Ok (touched now true task, length (leases r))).
Definition acquireForTask (id : string) (context : option string) (now1 now2 : Z) :
    stm Registry (BrowserTask * nat) :=
  task ← requireOwnedTask id (owner_hash context) false true now1;
  issue_lease task now2.

Definition acquireForTab (tab : string) (context : option string) (now0 now1 now2 : Z) :
    stm Registry (BrowserTask * nat) :=
  task ← assertTabAccess tab context now0;
  acquireForTask (taskId task) context now1 now2.

(** The [release] function of the lease with a handle. *)
Definition release (handle : nat) (now : Z) : stm Registry unit := fun r =>
  match leases r !! handle with
  | None | Some (_, true) => (r, Ok tt)
  | Some (id, false) =>
      let remaining := Z.max 0 (default 1 (jm_get (activeLeases r) id) - 1) in
      let r := mkRegistry (tasks r) (taskByTab r)
                 (if remaining =? 0 then jm_delete (activeLeases r) id
                  else jm_set (activeLeases r) id remaining)
                 (<[handle := (id, true)]> (leases r)) in
      match jm_get (tasks r) id with
      | Some t => if isAccessibleState (state t) then update_task id (touched now true) r else (r, Ok tt)
      | None => (r, Ok tt)
      end
  end.

(** *** Finishing and expiring *)
Definition beginFinish (id : string) (context : option string) (now1 now2 : Z) : stm Registry BrowserTask :=
  _ ← requireOwnedTask id (owner_hash context) true false now1;
  task ← stored id;
  if bool_decide (state task = finished) then st_ok task
  else if bool_decide (state task = expired) then st_throw TASK_EXPIRED "The browser task has expired."
  else
    _ ← update_task id (set_state finishing);
    touchTask id (set_state finishing task) now2 false.

(** The common end of [completeFinish] and [markExpired]. *)
Definition close_task (final : BrowserTaskState) (id : string) (now : Z) : stm Registry BrowserTask := fun r =>
  match jm_get (tasks r) id with
  | None => (r, throw TASK_NOT_FOUND "The browser task was not found.")
  | Some task =>
      let task' := set_times now now (set_tabs [] (set_state final task)) in
      (mkRegistry (jm_set (tasks r) id task') (fold_left jm_delete (tabIds task) (taskByTab r))
         (activeLeases r) (leases r), Ok task')
  end.
Definition completeFinish : string -> Z -> stm Registry BrowserTask := close_task finished.
Definition markExpired : string -> Z -> stm Registry BrowserTask := close_task expired.

Definition beginExpiration (id : string) (now : Z) : stm Registry (option BrowserTask) := fun r =>
  match jm_get (tasks r) id with
  | None => (r, Ok None)
  | Some task =>
      if negb (isAccessibleState (state task)) then (r, Ok None)
      else if 0 <? leaseCount id r then (r, Ok None)
      else if now <? expiresAt task then (r, Ok None)
      else
        let task' := set_state finishing task in
        (with_tasks (jm_set (tasks r) id task') r, Ok (Some task'))
  end.

Definition restoreAfterFailedFinalization (id : string) (now : Z) : stm Registry (option BrowserTask) := fun r =>
  match jm_get (tasks r) id with
  | None => (r, Ok None)
  | Some task =>
      if negb (bool_decide (state task = finishing)) then (r, Ok None)
      else
        let task' := touched now true (set_state active task) in
        (with_tasks (jm_set (tasks r) id task') r, Ok (Some task'))
  end.
End TaskRegistry.

Section Invariant.
Context (sha256 : string -> string) (ttlMs : Z).

(** *** The invariant *)
Definition terminal (s : BrowserTaskState) : bool := includes [finished; expired] s.

(** Tasks are stored under their own identifier, and the index of tabs is the
    inverse of the tasks' tab lists. *)
Record Consistent (r : Registry) : Prop := {
  tasks_wf : jm_wf (tasks r);
  key_is_id : forall k t, jm_get (tasks r) k = Some t -> taskId t = k /\ k <> EmptyString;
  index_exact : forall tab k, jm_get (taskByTab r) tab = Some k <->
    exists t, jm_get (tasks r) k = Some t /\ tab ∈ tabIds t;
}.

(** The leases of a task that have not been released. *)
Definition outstanding (r : Registry) (id : string) : list (string * bool) :=
  List.filter (fun l => (l.1 =s id) && negb l.2) (leases r).

Definition LeasesOk (r : Registry) : Prop :=
  forall id, leaseCount id r = Z.of_nat (length (outstanding r id)).

Definition Inv (r : Registry) : Prop := Consistent r /\ LeasesOk r.

(** What later operations keep of a task: it stays, with its identifier, its owner
    and its date of creation, and a closed task stays closed. *)
Definition keeps (t t' : BrowserTask) : Prop :=
  taskId t' = taskId t /\ ownerScopeHash t' = ownerScopeHash t /\ createdAt t' = createdAt t
  /\ (terminal (state t) = true -> terminal (state t') = true).
Definition Evolves (r r' : Registry) : Prop :=
  forall k t, jm_get (tasks r) k = Some t -> exists t', jm_get (tasks r') k = Some t' /\ keeps t t'.

#[export] Instance keeps_preorder : PreOrder keeps.
Proof. split; [done|]. unfold keeps. intros x y z (?&?&?&?) (?&?&?&?). repeat split; try congruence. auto. Qed.
#[export] Instance Evolves_preorder : PreOrder Evolves.
Proof.
  split; [intros r k t H; by exists t|].
  intros r1 r2 r3 H12 H23 k t H. destruct (H12 k t H) as (t2 & H2 & K2).
  destruct (H23 k t2 H2) as (t3 & H3 & K3). exists t3. split; [done|by transitivity t2].
Qed.

(** A registry reached from one where the invariant holds. *)
Definition good (r r' : Registry) : Prop := Inv r' /\ Evolves r r'.
Definition st_good {A} (m : stm Registry A) : Prop := forall r, Inv r -> good r (m r).1.

Lemma good_refl r : Inv r -> good r r.
Proof. by split. Qed.
Lemma good_bind {A B} (m : stm Registry A) (f : A -> stm Registry B) :
  st_good m -> (forall a, st_good (f a)) -> st_good (m ≫= f).
Proof.
  intros Hm Hf r Hr. unfold mbind, stm_bind. destruct (Hm r Hr) as [H1 E1].
  destruct (m r) as [s1 [a|e]]; simpl in *; [|done]. destruct (Hf a s1 H1) as [H2 E2].
  split; [done|by transitivity s1].
Qed.

(** Every change of a stored task that keeps its tabs is of this shape. *)
Lemma change_task r k t t' :
  Inv r -> jm_get (tasks r) k = Some t -> tabIds t' = tabIds t -> keeps t t' ->
  good r (with_tasks (jm_set (tasks r) k t') r).
Proof.
  intros [[Hw Hk Hx] Hl] Ht Htabs Hkeep. split; [split; [split|]|]; simpl.
  - by apply jm_wf_set.
  - intros k0 t0. rewrite jm_get_set. destruct (k0 =s k) eqn:E; [|apply Hk].
    apply String.eqb_eq in E as ->. intros [= <-]. destruct Hkeep as (-> & _). by apply Hk.
  - intros tab k0. rewrite Hx, jm_get_set. destruct (k0 =s k) eqn:E; [|done].
    apply String.eqb_eq in E as ->. rewrite Ht.
    split; intros (x & [= <-] & Hin); eexists; (split; [done|]); congruence.
  - exact Hl.
  - intros k0 t0 H0. simpl. rewrite jm_get_set. destruct (k0 =s k) eqn:E; [|by exists t0].
    apply String.eqb_eq in E as ->. exists t'. split; [done|]. congruence.
Qed.

Lemma good_update_task k f :
  (forall t, tabIds (f t) = tabIds t) -> (forall t, keeps t (f t)) -> st_good (update_task k f).
Proof.
  intros Ht Hf r Hr. unfold update_task. simpl. destruct (jm_get (tasks r) k) as [t|] eqn:E; [|by apply good_refl].
  by apply (change_task r k t).
Qed.

Lemma good_touched k now ext : st_good (update_task k (touched ttlMs now ext)).
Proof. by apply good_update_task. Qed.

Lemma keeps_resumed now t : state t = suspended \/ state t = active -> keeps t (touched ttlMs now true (set_state active t)).
Proof. unfold keeps. by intros [-> | ->]. Qed.

Lemma good_resume k t0 now r :
  Inv r -> (forall t, jm_get (tasks r) k = Some t -> isAccessibleState (state t) = true) ->
  good r (resume ttlMs k t0 now r).1.
Proof.
  intros Hr Hs. unfold resume, update_task. st_run.
  destruct (jm_get (tasks r) k) as [t|] eqn:E; cbn [fst]; [|by apply good_refl].
  apply (change_task r k t); [done..|]. apply keeps_resumed.
  specialize (Hs t eq_refl). destruct (state t); naive_solver.
Qed.

Lemma good_requireOwnedTask id h fin res now : st_good (requireOwnedTask ttlMs id h fin res now).
Proof.
  intros r Hr. unfold requireOwnedTask. st_run. destruct (jm_get (tasks r) id) as [t|] eqn:E; [|by apply good_refl].
  destruct (negb _); [by apply good_refl|]. destruct (bool_decide (state t = expired)); [by apply good_refl|].
  destruct (_ && negb fin); [by apply good_refl|]. destruct (bool_decide (state t = finishing)); [by apply good_refl|].
  destruct res; cbn [andb]; [|by apply good_refl].
  case_bool_decide as Hs; [|by apply good_refl].
  apply good_resume; [done|]. intros t' Ht'. assert (t' = t) as -> by congruence. by rewrite Hs.
Qed.

(** An identifier not in use, as a fresh random one is. *)
Definition fresh_task (uuid : string) (r : Registry) : Prop := jm_get (tasks r) ("task-" +:+ uuid) = None.

Lemma good_create ctx uuid now r :
  Inv r -> fresh_task uuid r -> good r (create sha256 ttlMs ctx uuid now r).1.
Proof.
  intros Hr Hf. pose proof Hr as [[Hw Hk Hx] Hl]. unfold create.
  destruct (task_schema _); [|by apply good_refl]. cbn [fst taskId].
  split; [split; [split|exact Hl]|]; cbn [tasks taskByTab with_tasks].
  - by apply jm_wf_set.
  - intros k t. rewrite jm_get_set. destruct (k =s _) eqn:E; [|apply Hk].
    apply String.eqb_eq in E as ->. by intros [= <-].
  - intros tab k. rewrite Hx, jm_get_set. destruct (k =s _) eqn:E; [|done].
    apply String.eqb_eq in E as ->. rewrite Hf. split; intros (x & Hx1 & Hin); [done|].
    injection Hx1 as <-. by apply not_elem_of_nil in Hin.
  - intros k t Ht. cbn [tasks with_tasks]. rewrite jm_get_set. destruct (k =s _) eqn:E; [|by exists t].
    apply String.eqb_eq in E as ->. unfold fresh_task in Hf. congruence.
Qed.

Lemma filter_head {A} (f : A -> bool) l x rest : List.filter f l = x :: rest -> x ∈ l /\ f x = true.
Proof.
  intros H. assert (In x (List.filter f l)) as Hi by (rewrite H; by left).
  apply filter_In in Hi as [? ?]. split; [by apply list_elem_of_In|done].
Qed.

Lemma in_tasks r k t : Inv r -> (k, t) ∈ tasks r -> jm_get (tasks r) k = Some t.
Proof. intros [[Hw _ _] _] Hin. by apply jm_in_get. Qed.

Lemma good_resume_filtered f r k t now rest :
  Inv r -> List.filter f (tasks r) = (k, t) :: rest -> isAccessibleState (state t) = true ->
  good r (resume ttlMs k t now r).1.
Proof.
  intros Hr Hf Hs. apply filter_head in Hf as [Hin _]. apply (in_tasks r) in Hin; [|done].
  apply good_resume; [done|]. intros t' Ht'. assert (t' = t) as -> by congruence. done.
Qed.

Lemma good_resolveForOpen id ctx uuid now r :
  Inv r -> fresh_task uuid r -> good r (resolveForOpen sha256 ttlMs id ctx uuid now r).1.
Proof.
  intros Hr Hf. unfold resolveForOpen. destruct (negb (no_id id)); [by apply good_requireOwnedTask|]. st_run.
  destruct (List.filter _ _) as [|[k t] [|? ?]] eqn:E; [by apply good_create| |by apply good_refl].
  eapply good_resume_filtered; [done..|]. apply filter_head in E as [_ E]. by apply andb_prop in E as [_ E].
Qed.

Lemma good_resolveScoped id ctx fin now : st_good (resolveScoped sha256 ttlMs id ctx fin now).
Proof.
  intros r Hr. unfold resolveScoped. destruct (negb (no_id id)); [by apply good_requireOwnedTask|]. st_run.
  destruct (List.filter _ _) as [|[k t] [|? ?]] eqn:E; [by apply good_refl| |by apply good_refl].
  destruct (isAccessibleState (state t)) eqn:Es; [by eapply good_resume_filtered|by apply good_refl].
Qed.

Lemma good_assertTabAccess tab ctx now : st_good (assertTabAccess sha256 ttlMs tab ctx now).
Proof.
  intros r Hr. unfold assertTabAccess. st_run. destruct (jm_get (taskByTab r) tab); [|by apply good_refl].
  destruct (sempty s); [by apply good_refl|by apply good_requireOwnedTask].
Qed.

Lemma good_touchTask k t now ext : st_good (touchTask ttlMs k t now ext).
Proof. apply good_bind; [apply good_touched|]. intros a r Hr. by apply good_refl. Qed.

Lemma good_stored k : st_good (stored k).
Proof. intros r Hr. unfold stored. by destruct (jm_get (tasks r) k); apply good_refl. Qed.

Lemma index_task r tab k : Inv r -> jm_get (taskByTab r) tab = Some k ->
  exists t, jm_get (tasks r) k = Some t /\ tab ∈ tabIds t.
Proof. intros [[_ _ Hx] _]. apply Hx. Qed.

Lemma index_nonempty r tab k : Inv r -> jm_get (taskByTab r) tab = Some k -> sempty k = false.
Proof.
  intros Hr Hk. destruct (index_task r tab k Hr Hk) as (t & Ht & _).
  destruct Hr as [[_ Hid _] _]. apply Hid in Ht as [_ Hne]. by destruct k.
Qed.

Lemma good_attach k tab name : (forall t, taskId t = k -> name t = k) -> st_good (attach k tab name).
Proof.
  intros Hn r Hr. pose proof Hr as [[Hw Hk Hx] Hl]. unfold attach.
  destruct (jm_get (tasks r) k) as [t|] eqn:Et; [|by apply good_refl].
  destruct (Hk k t Et) as [Hid Hne]. rewrite (Hn t Hid).
  destruct (negb _ && negb _) eqn:Eb; [by apply good_refl|]. cbn [fst].
  assert (Hcur : forall k', jm_get (taskByTab r) tab = Some k' -> k' = k).
  { intros k' Hk'. rewrite Hk' in Eb. cbn [no_id default from_option id] in Eb.
    rewrite (index_nonempty r tab k' Hr Hk') in Eb. apply String.eqb_eq. by destruct (k' =s k). }
  set (t' := if includes (tabIds t) tab then t else set_tabs (tabIds t ++ [tab]) t).
  assert (Hin : forall x, x ∈ tabIds t' <-> x ∈ tabIds t \/ x = tab).
  { intros x. subst t'. destruct (includes (tabIds t) tab) eqn:Ei; cbn [tabIds set_tabs].
    - apply includes_spec in Ei. naive_solver.
    - by rewrite elem_of_app, list_elem_of_singleton. }
  assert (Hkp : keeps t t') by (subst t'; by destruct (includes _ _)).
  clearbody t'. split; [split; [split|exact Hl]|]; cbn [tasks taskByTab].
  - by apply jm_wf_set.
  - intros k0 t0. rewrite jm_get_set. destruct (k0 =s k) eqn:E; [|apply Hk].
    apply String.eqb_eq in E as ->. intros [= <-]. destruct Hkp as (-> & _). done.
  - intros x k0. rewrite !jm_get_set. destruct (x =s tab) eqn:Ext; destruct (k0 =s k) eqn:Ek.
    + apply String.eqb_eq in Ext as ->. apply String.eqb_eq in Ek as ->.
      split; [|done]. intros _. exists t'. rewrite Hin. by auto.
    + apply String.eqb_eq in Ext as ->. apply String.eqb_neq in Ek. split; [intros [= ->]; done|].
      intros H%Hx%Hcur. done.
    + apply String.eqb_eq in Ek as ->. apply String.eqb_neq in Ext. rewrite Hx.
      split; intros (y & Hy & Hiny).
      * exists t'. rewrite Hin. split; [done|]. left. congruence.
      * injection Hy as <-. exists t. split; [done|]. by apply Hin in Hiny as [|].
    + apply Hx.
  - intros k0 t0 H0. cbn [tasks]. rewrite jm_get_set. destruct (k0 =s k) eqn:E; [|by exists t0].
    apply String.eqb_eq in E as ->. exists t'. split; [done|]. congruence.
Qed.

Lemma good_attachTab id tab ctx n1 n2 : st_good (attachTab sha256 ttlMs id tab ctx n1 n2).
Proof.
  apply good_bind; [apply good_requireOwnedTask|]. intros _.
  apply good_bind; [by apply good_attach|]. intros _.
  apply good_bind; [apply good_stored|]. intros t. apply good_touchTask.
Qed.

Lemma good_attachExistingTab id tab : st_good (attachExistingTab id tab).
Proof.
  apply good_bind; [apply good_stored|]. intros _.
  apply good_bind; [by apply good_attach|]. intros _. apply good_stored.
Qed.

(** Tabs leave a task and the index together. *)
Lemma drop_tabs r k t t' m (gone : string -> Prop) :
  Inv r -> jm_get (tasks r) k = Some t -> keeps t t' ->
  (forall x, x ∈ tabIds t' <-> x ∈ tabIds t /\ ~ gone x) ->
  (forall x k', jm_get m x = Some k' <-> jm_get (taskByTab r) x = Some k' /\ ~ gone x) ->
  (forall x k', gone x -> jm_get (taskByTab r) x = Some k' -> k' = k) ->
  good r (mkRegistry (jm_set (tasks r) k t') m (activeLeases r) (leases r)).
Proof.
  intros [[Hw Hk Hx] Hl] Ht Hkp Hin Hm Hg. split; [split; [split|exact Hl]|]; cbn [tasks taskByTab].
  - by apply jm_wf_set.
  - intros k0 t0. rewrite jm_get_set. destruct (k0 =s k) eqn:E; [|apply Hk].
    apply String.eqb_eq in E as ->. intros [= <-]. destruct Hkp as (-> & _). by apply Hk.
  - intros x k0. rewrite Hm, jm_get_set. destruct (k0 =s k) eqn:E.
    + apply String.eqb_eq in E as ->. rewrite Hx. split.
      * intros ((y & Hy & Hiny) & Hng). exists t'. rewrite Hin. split; [done|]. split; [congruence|done].
      * intros (y & [= <-] & Hiny). apply Hin in Hiny as [Hiny Hng]. eauto.
    + rewrite Hx. split; [by intros [? _]|]. intros H. split; [done|]. intros Hgx.
      apply Hx in H. apply (Hg x k0 Hgx) in H as ->. by rewrite String.eqb_refl in E.
  - intros k0 t0 H0. cbn [tasks]. rewrite jm_get_set. destruct (k0 =s k) eqn:E; [|by exists t0].
    apply String.eqb_eq in E as ->. exists t'. split; [done|]. congruence.
Qed.

Lemma get_delete_some {A} (m : jsmap A) tab x a :
  jm_get (jm_delete m tab) x = Some a <-> jm_get m x = Some a /\ x <> tab.
Proof.
  rewrite jm_get_delete. destruct (x =s tab) eqn:E.
  - apply String.eqb_eq in E as ->. by split; [|intros [_ ?]].
  - apply String.eqb_neq in E. by split; [|intros [? _]].
Qed.

Lemma get_delete_all {A} tabs (m : jsmap A) x a :
  jm_get (fold_left jm_delete tabs m) x = Some a <-> jm_get m x = Some a /\ x ∉ tabs.
Proof.
  revert m. induction tabs as [|tab tabs IH]; intros m; simpl.
  - split; [by split; [|apply not_elem_of_nil]|by intros [? _]].
  - rewrite IH, get_delete_some, not_elem_of_cons. tauto.
Qed.

Lemma elem_filter_tab (l : list string) tab x :
  x ∈ List.filter (fun c => negb (c =s tab)) l <-> x ∈ l /\ x <> tab.
Proof.
  rewrite list_elem_of_In, filter_In, <- list_elem_of_In, negb_true_iff. by rewrite String.eqb_neq.
Qed.

Lemma good_detachTab tab now : st_good (detachTab ttlMs tab now).
Proof.
  intros r Hr. unfold detachTab. destruct (jm_get (taskByTab r) tab) as [k|] eqn:Ek; [|by apply good_refl].
  rewrite (index_nonempty r tab k Hr Ek). destruct (index_task r tab k Hr Ek) as (t & Ht & Hin).
  unfold update_task. cbn [tasks with_tabs fst]. rewrite Ht.
  apply (drop_tabs r k t _ _ (fun x => x = tab)); [done..| | |].
  - intros x. apply elem_filter_tab.
  - intros x k'. apply get_delete_some.
  - intros x k' -> H. congruence.
Qed.

Lemma good_close_task final id now : terminal final = true -> st_good (close_task final id now).
Proof.
  intros Hf r Hr. unfold close_task. destruct (jm_get (tasks r) id) as [t|] eqn:Et; [|by apply good_refl].
  apply (drop_tabs r id t _ _ (fun x => x ∈ tabIds t)); [done..| | | |].
  - by repeat split.
  - intros x. split; [by intros ?%not_elem_of_nil|naive_solver].
  - intros x k'. apply get_delete_all.
  - intros x k' Hin Hk'. destruct Hr as [[_ _ Hx] _].
    assert (jm_get (taskByTab r) x = Some id) by (apply Hx; eauto). congruence.
Qed.

(** A change of leases leaves the tasks alone. *)
Lemma good_leases r a l :
  Inv r -> LeasesOk (mkRegistry (tasks r) (taskByTab r) a l) ->
  good r (mkRegistry (tasks r) (taskByTab r) a l).
Proof. intros [[Hw Hk Hx] Hl] H. split; [split; [split|]|]; try done. intros k t Ht. by exists t. Qed.

Lemma good_issue_lease t now : st_good (issue_lease ttlMs t now).
Proof.
  intros r Hr. apply good_leases; [done|]. destruct Hr as [_ Hl]. intros id.
  specialize (Hl id). unfold leaseCount, outstanding in *. cbn [activeLeases leases].
  rewrite jm_get_set, List.filter_app, length_app. cbn [List.filter fst snd negb].
  destruct (id =s taskId t) eqn:E.
  - apply String.eqb_eq in E as ->. rewrite String.eqb_refl. cbn. lia.
  - rewrite String.eqb_sym, E. cbn. lia.
Qed.

Lemma good_acquireForTask id ctx n1 n2 : st_good (acquireForTask sha256 ttlMs id ctx n1 n2).
Proof. apply good_bind; [apply good_requireOwnedTask|]. intros t. apply good_issue_lease. Qed.

Lemma good_acquireForTab tab ctx n0 n1 n2 : st_good (acquireForTab sha256 ttlMs tab ctx n0 n1 n2).
Proof. apply good_bind; [apply good_assertTabAccess|]. intros t. apply good_acquireForTask. Qed.

Lemma outstanding_release r h id id' :
  leases r !! h = Some (id, false) ->
  (length (List.filter (fun l => (l.1 =s id') && negb l.2) (<[h := (id, true)]> (leases r)))
   + (if id =s id' then 1 else 0))%nat = length (outstanding r id').
Proof.
  unfold outstanding. intros H. pose proof (lookup_lt_Some _ _ _ H) as Hlt.
  rewrite <- (take_drop_middle _ _ _ H) at 2. rewrite insert_take_drop by done.
  rewrite !List.filter_app, !length_app. cbn [List.filter fst snd negb].
  rewrite andb_false_r, andb_true_r. destruct (id =s id'); cbn [length]; lia.
Qed.

Lemma good_release h now : st_good (release ttlMs h now).
Proof.
  intros r Hr. unfold release. destruct (leases r !! h) as [[id [|]]|] eqn:Eh; [by apply good_refl| |by apply good_refl].
  set (n := Z.max 0 _). set (r1 := mkRegistry _ _ _ _).
  assert (H1 : good r r1).
  { apply good_leases; [done|]. destruct Hr as [_ Hl]. intros id'. pose proof (Hl id') as Hid'.
    pose proof (outstanding_release r h id id' Eh) as Hc. unfold leaseCount in *. cbn [activeLeases].
    unfold outstanding at 1. cbn [leases].
    assert (jm_get (if n =? 0 then jm_delete (activeLeases r) id else jm_set (activeLeases r) id n) id'
            = if id' =s id then if n =? 0 then None else Some n else jm_get (activeLeases r) id') as ->.
    { destruct (n =? 0); [rewrite jm_get_delete|rewrite jm_get_set]; by destruct (id' =s id). }
    rewrite String.eqb_sym. destruct (id =s id') eqn:E; [|lia].
    apply String.eqb_eq in E as ->. subst n.
    destruct (jm_get (activeLeases r) id') as [c|]; cbn [default from_option Datatypes.id] in *; [|lia].
    destruct (Z.max 0 (c - 1) =? 0) eqn:Ez; cbn; lia. }
  destruct (jm_get (tasks r1) id) as [t|] eqn:Et; [|done].
  destruct (isAccessibleState _); [|done].
  destruct H1 as [H1 E1]. destruct (good_touched id now true r1 H1) as [H2 E2].
  split; [done|by transitivity r1].
Qed.

(** A task that is not closed begins to finish. *)
Lemma keeps_finishing t : terminal (state t) = false -> keeps t (set_state finishing t).
Proof. unfold keeps. intros ->. by repeat split. Qed.

Lemma good_beginFinish id ctx n1 n2 : st_good (beginFinish sha256 ttlMs id ctx n1 n2).
Proof.
  apply good_bind; [apply good_requireOwnedTask|]. intros _ r Hr. unfold stored. st_run.
  destruct (jm_get (tasks r) id) as [t|] eqn:Et; [|by apply good_refl]. st_run.
  case_bool_decide as H1; [by apply good_refl|]. case_bool_decide as H2; [by apply good_refl|].
  assert (Hf : good r (update_task id (set_state finishing) r).1).
  { unfold update_task. rewrite Et. apply (change_task r id t); [done..|]. apply keeps_finishing. by destruct (state t). }
  destruct (update_task id _ r) as [r1 [[]|e]] eqn:E1; [|done]. cbn [fst] in Hf.
  destruct Hf as [Hf1 Hf2]. destruct (good_touchTask id (set_state finishing t) n2 false r1 Hf1).
  split; [done|by transitivity r1].
Qed.

Lemma good_beginExpiration id now : st_good (beginExpiration id now).
Proof.
  intros r Hr. unfold beginExpiration. destruct (jm_get (tasks r) id) as [t|] eqn:Et; [|by apply good_refl].
  destruct (isAccessibleState (state t)) eqn:Es; [|by apply good_refl]. cbn [negb].
  destruct (0 <? _); [by apply good_refl|]. destruct (now <? _); [by apply good_refl|].
  apply (change_task r id t); [done..|]. apply keeps_finishing. by destruct (state t).
Qed.

Lemma good_restore id now : st_good (restoreAfterFailedFinalization ttlMs id now).
Proof.
  intros r Hr. unfold restoreAfterFailedFinalization.
  destruct (jm_get (tasks r) id) as [t|] eqn:Et; [|by apply good_refl].
  case_bool_decide as Es; [|by apply good_refl]. cbn [negb].
  apply (change_task r id t); [done..|]. unfold keeps. by rewrite Es.
Qed.

(** *** The registry as a transition system *)
(** One call of a public method that changes the registry, with the readings of the
    clock and the random identifier it draws. *)
Inductive op :=
  | Create (context : option string) (uuid : string) (now : Z)
  | ResolveForOpen (id context : option string) (uuid : string) (now : Z)
  | ResolveScoped (id context : option string) (includeFinished : bool) (now : Z)
  | AssertTabAccess (tab : string) (context : option string) (now : Z)
  | AttachTab (id tab : string) (context : option string) (now1 now2 : Z)
  | AttachExistingTab (id tab : string)
  | DetachTab (tab : string) (now : Z)
  | AcquireForTask (id : string) (context : option string) (now1 now2 : Z)
  | AcquireForTab (tab : string) (context : option string) (now0 now1 now2 : Z)
  | Release (handle : nat) (now : Z)
  | BeginFinish (id : string) (context : option string) (now1 now2 : Z)
  | CompleteFinish (id : string) (now : Z)
  | BeginExpiration (id : string) (now : Z)
  | RestoreAfterFailedFinalization (id : string) (now : Z)
  | MarkExpired (id : string) (now : Z).

Definition run_op (o : op) (r : Registry) : Registry :=
  match o with
  | Create ctx uuid now => (create sha256 ttlMs ctx uuid now r).1
  | ResolveForOpen id ctx uuid now => (resolveForOpen sha256 ttlMs id ctx uuid now r).1
  | ResolveScoped id ctx fin now => (resolveScoped sha256 ttlMs id ctx fin now r).1
  | AssertTabAccess tab ctx now => (assertTabAccess sha256 ttlMs tab ctx now r).1
  | AttachTab id tab ctx n1 n2 => (attachTab sha256 ttlMs id tab ctx n1 n2 r).1
  | AttachExistingTab id tab => (attachExistingTab id tab r).1
  | DetachTab tab now => (detachTab ttlMs tab now r).1
  | AcquireForTask id ctx n1 n2 => (acquireForTask sha256 ttlMs id ctx n1 n2 r).1
  | AcquireForTab tab ctx n0 n1 n2 => (acquireForTab sha256 ttlMs tab ctx n0 n1 n2 r).1
  | Release h now => (release ttlMs h now r).1
  | BeginFinish id ctx n1 n2 => (beginFinish sha256 ttlMs id ctx n1 n2 r).1
  | CompleteFinish id now => (completeFinish id now r).1
  | BeginExpiration id now => (beginExpiration id now r).1
  | RestoreAfterFailedFinalization id now => (restoreAfterFailedFinalization ttlMs id now r).1
  | MarkExpired id now => (markExpired id now r).1
  end.

(** Random identifiers do not repeat. *)
Definition op_fresh (o : op) (r : Registry) : Prop :=
  match o with
  | Create _ uuid _ | ResolveForOpen _ _ uuid _ => fresh_task uuid r
  | _ => True
  end.

Inductive steps : Registry -> Registry -> Prop :=
  | steps_refl r : steps r r
  | steps_op r o r' : op_fresh o r -> steps (run_op o r) r' -> steps r r'.

Lemma good_op o r : op_fresh o r -> Inv r -> good r (run_op o r).
Proof.
  intros Hf Hr. destruct o; cbn [run_op].
  - by apply good_create.
  - by apply good_resolveForOpen.
  - by apply good_resolveScoped.
  - by apply good_assertTabAccess.
  - by apply good_attachTab.
  - by apply good_attachExistingTab.
  - by apply good_detachTab.
  - by apply good_acquireForTask.
  - by apply good_acquireForTab.
  - by apply good_release.
  - by apply good_beginFinish.
  - by apply good_close_task.
  - by apply good_beginExpiration.
  - by apply good_restore.
  - by apply good_close_task.
Qed.

Lemma good_steps r r' : steps r r' -> Inv r -> good r r'.
Proof.
  induction 1 as [r|r o r' Hf _ IH]; intros Hr; [by apply good_refl|].
  destruct (good_op o r Hf Hr) as [H1 E1]. destruct (IH H1) as [H2 E2].
  split; [done|by transitivity (run_op o r)].
Qed.

(** *** Construction *)
(** Stored tasks with different identifiers share no tab; stored by the registry
    itself, they are: [snapshot] of a consistent registry. *)
Record Restorable (initial : list BrowserTask) : Prop := {
  ids_unique : NoDup (map taskId initial);
  tabs_disjoint : forall t1 t2 tab, t1 ∈ initial -> t2 ∈ initial -> tab ∈ tabIds t1 -> tab ∈ tabIds t2 -> t1 = t2;
}.

Lemma get_load_tabs id tabs m x :
  jm_get (load_tabs id tabs m) x =
  match jm_get m x with Some k => Some k | None => if includes tabs x then Some id else None end.
Proof.
  revert m. induction tabs as [|tab tabs IH]; intros m; cbn [load_tabs fold_left].
  - by destruct (jm_get m x).
  - unfold load_tabs in IH. rewrite IH. unfold jm_has, includes.
    assert (x <> tab -> bool_decide (x ∈ tab :: tabs) = bool_decide (x ∈ tabs)) as Hc.
    { intros Hne. apply bool_decide_ext. rewrite elem_of_cons. naive_solver. }
    destruct (jm_get m tab) as [k|] eqn:Et.
    + destruct (jm_get m x) eqn:Ex; [done|]. rewrite Hc; [done|congruence].
    + rewrite jm_get_set. destruct (x =s tab) eqn:E.
      * apply String.eqb_eq in E as ->. rewrite Et, bool_decide_true; [done|by left].
      * apply String.eqb_neq in E. by rewrite Hc.
Qed.

(** Loading one more task. *)
Definition load_task (t : BrowserTask) (r : Registry) : Registry :=
  mkRegistry (jm_set (tasks r) (taskId t) t) (load_tabs (taskId t) (tabIds t) (taskByTab r))
    (activeLeases r) (leases r).

Lemma load_task_inv t r :
  Inv r -> taskId t <> EmptyString -> jm_get (tasks r) (taskId t) = None ->
  (forall tab, tab ∈ tabIds t -> jm_get (taskByTab r) tab = None) -> Inv (load_task t r).
Proof.
  intros [[Hw Hk Hx] Hl] Hne Hnew Hd. split; [split|exact Hl]; cbn [tasks taskByTab load_task].
  - by apply jm_wf_set.
  - intros k t0. rewrite jm_get_set. destruct (k =s taskId t) eqn:E; [|apply Hk].
    apply String.eqb_eq in E as ->. by intros [= <-].
  - intros tab k. rewrite get_load_tabs, jm_get_set. specialize (Hx tab).
    destruct (k =s taskId t) eqn:E.
    + apply String.eqb_eq in E as ->.
      assert (jm_get (taskByTab r) tab <> Some (taskId t)) by (rewrite Hx; naive_solver).
      destruct (jm_get (taskByTab r) tab) as [k'|] eqn:Ei.
      * split; [congruence|]. intros (y & [= <-] & Hin). apply Hd in Hin. congruence.
      * destruct (includes (tabIds t) tab) eqn:Ein; [apply includes_spec in Ein|apply includes_false in Ein].
        -- split; [|done]. intros _. by exists t.
        -- split; [done|]. by intros (y & [= <-] & Hin).
    + apply String.eqb_neq in E. rewrite <- Hx. destruct (jm_get (taskByTab r) tab); [done|].
      destruct (includes _ _); [|done]. split; congruence.
Qed.

Lemma jm_set_new {A} (m : jsmap A) k a : jm_get m k = None -> jm_set m k a = m ++ [(k, a)].
Proof.
  induction m as [|[k0 a0] m IH]; simpl; [done|]. destruct (k =s k0); [done|]. intros H. by rewrite IH.
Qed.

Lemma task_schema_id t : task_schema t = true -> taskId t <> EmptyString.
Proof. unfold task_schema. intros H E. by rewrite E in H. Qed.

Lemma load_tasks_spec initial r :
  Inv r -> Restorable initial -> (forall t, t ∈ initial -> task_schema t = true) ->
  (forall t, t ∈ initial -> jm_get (tasks r) (taskId t) = None) ->
  (forall t tab, t ∈ initial -> tab ∈ tabIds t -> jm_get (taskByTab r) tab = None) ->
  exists r', load_tasks initial r = Ok r' /\ Inv r'
    /\ tasks r' = tasks r ++ map (fun t => (taskId t, t)) initial.
Proof.
  revert r. induction initial as [|t rest IH]; intros r Hr [Hu Hd] Hs Hid Htab; cbn [load_tasks].
  - exists r. by rewrite app_nil_r.
  - rewrite (Hs t) by left. inversion Hu as [|? ? Hn Hu']; subst.
    destruct (IH (load_task t r)) as (r' & Hl & Hr' & Ht').
    + apply load_task_inv; [done| | |]; [apply task_schema_id, Hs; left|apply Hid; left|].
      intros tab. apply Htab. left.
    + split; [done|]. intros t1 t2 tab H1 H2. apply Hd; by right.
    + intros t1 H1. apply Hs. by right.
    + intros t1 H1. cbn [tasks load_task]. rewrite jm_get_set. destruct (taskId t1 =s taskId t) eqn:E.
      * apply String.eqb_eq in E. exfalso. apply Hn. rewrite <- E. by apply list_elem_of_fmap_2.
      * apply Hid. by right.
    + intros t1 tab H1 Hin. cbn [taskByTab load_task]. rewrite get_load_tabs, (Htab t1 tab) by (done || by right).
      destruct (includes (tabIds t) tab) eqn:E; [|done]. apply includes_spec in E. exfalso. apply Hn.
      assert (t1 = t) as <- by (apply (Hd t1 t tab); [by right|left|done..]). by apply list_elem_of_fmap_2.
    + exists r'. split; [exact Hl|]. split; [done|]. rewrite Ht'. cbn [tasks load_task map].
      rewrite jm_set_new, <- app_assoc by (apply Hid; left). done.
Qed.

Lemma empty_inv : Inv (mkRegistry [] [] [] []).
Proof. split; [split|]; cbn; [constructor|done| |done]. intros tab k. split; [done|]. by intros (t & ? & _). Qed.

Lemma construct_spec initial :
  Restorable initial -> (forall t, t ∈ initial -> task_schema t = true) ->
  exists r, construct initial = Ok r /\ Inv r /\ tasks r = map (fun t => (taskId t, t)) initial.
Proof. intros Hr Hs. by apply (load_tasks_spec initial _ empty_inv Hr Hs). Qed.

Lemma snapshot_restorable r : Inv r -> Restorable (snapshot r).
Proof.
  intros [[Hw Hk Hx] _]. unfold snapshot, jm_values. split.
  - rewrite map_map. assert (map (fun e => taskId e.2) (tasks r) = jm_keys (tasks r)) as ->; [|done].
    apply map_ext_in. intros [k t] Hin. apply list_elem_of_In, jm_in_get, Hk in Hin; [|done]. by destruct Hin.
  - intros t1 t2 tab H1 H2 Hi1 Hi2.
    apply list_elem_of_fmap in H1 as ([k1 ?] & -> & H1). apply list_elem_of_fmap in H2 as ([k2 ?] & -> & H2).
    apply jm_in_get in H1; [|done]. apply jm_in_get in H2; [|done]. cbn in *.
    assert (jm_get (taskByTab r) tab = Some k1) by (apply Hx; eauto).
    assert (jm_get (taskByTab r) tab = Some k2) by (apply Hx; eauto). congruence.
Qed.

Lemma snapshot_keyed r : Inv r -> map (fun t => (taskId t, t)) (snapshot r) = tasks r.
Proof.
  intros [[Hw Hk _] _]. unfold snapshot, jm_values. rewrite map_map.
  rewrite <- (map_id (tasks r)) at 2. apply map_ext_in. intros [k t] Hin.
  apply list_elem_of_In, jm_in_get, Hk in Hin as [<- _]; done.
Qed.

Lemma load_tasks_schema initial r r' :
  load_tasks initial r = Ok r' -> forall t, t ∈ initial -> task_schema t = true.
Proof.
  revert r. induction initial as [|t0 rest IH]; cbn [load_tasks]; intros r H t Hin; [by apply not_elem_of_nil in Hin|].
  destruct (task_schema t0) eqn:E; [|done]. apply elem_of_cons in Hin as [->|Hin]; [done|by eapply IH].
Qed.

(** The registries a worker can have: loaded from stored tasks, then used. *)
Definition reachable (r : Registry) : Prop :=
  exists initial r0, Restorable initial /\ construct initial = Ok r0 /\ steps r0 r.

Lemma reachable_inv r : reachable r -> Inv r.
Proof.
  intros (initial & r0 & Hi & Hc & Hs).
  destruct (construct_spec initial Hi (load_tasks_schema _ _ _ Hc)) as (r1 & Hc1 & H1 & _).
  assert (r1 = r0) as -> by congruence. by apply (good_steps r0 r).
Qed.

(** The tabs of the tasks and the index of tabs agree after any sequence of calls: a tab
    is recorded for a task exactly when that task, stored under its own identifier,
    lists it, so no tab belongs to two tasks. *)
Theorem tab_index_exact r (H : reachable r) :
  (forall k t, jm_get (tasks r) k = Some t -> taskId t = k)
  /\ (forall tab k, taskIdForTab tab r = Some k <-> exists t, jm_get (tasks r) k = Some t /\ tab ∈ tabIds t)
  /\ (forall t1 t2 tab, t1 ∈ snapshot r -> t2 ∈ snapshot r -> tab ∈ tabIds t1 -> tab ∈ tabIds t2 -> t1 = t2).
Proof.
  apply reachable_inv in H as Hr. destruct (snapshot_restorable r Hr) as [_ Hd].
  destruct Hr as [[Hw Hk Hx] _]. split; [|by split]. intros k t Ht. by apply Hk in Ht as [].
Qed.

(** A task begins to expire exactly when it is open, its time is over and every lease taken
    on it has been released: the count kept per task is the number of leases in use
    after any sequence of calls.  It then keeps everything but its state, and in every other
    case nothing changes. *)
Theorem expiration_respects_leases r id now (H : reachable r) :
  beginExpiration id now r =
  match jm_get (tasks r) id with
  | Some t =>
      if isAccessibleState (state t) && bool_decide (outstanding r id = []) && (expiresAt t <=? now)
      then (with_tasks (jm_set (tasks r) id (set_state finishing t)) r, Ok (Some (set_state finishing t)))
      else (r, Ok None)
  | None => (r, Ok None)
  end.
Proof.
  apply reachable_inv in H as [_ Hl]. specialize (Hl id). unfold beginExpiration.
  destruct (jm_get (tasks r) id) as [t|]; [|done]. destruct (isAccessibleState (state t)); [|done]. cbn [negb andb].
  rewrite Hl. destruct (outstanding r id) as [|l rest].
  - cbn [length]. rewrite bool_decide_true by done. cbn [andb].
    destruct (now <? expiresAt t) eqn:E1, (expiresAt t <=? now) eqn:E2; lia || done.
  - by rewrite bool_decide_false.
Qed.

Lemma requireOwnedTask_closed id h res now r t :
  jm_get (tasks r) id = Some t -> terminal (state t) = true ->
  exists c m, requireOwnedTask ttlMs id h false res now r = (r, throw c m)
    /\ includes [TASK_NOT_FOUND; TASK_OWNERSHIP_MISMATCH; TASK_EXPIRED] c = true.
Proof.
  intros Ht Hs. unfold requireOwnedTask. st_run. rewrite Ht.
  destruct (negb _); [by eexists _, _|]. destruct (state t); try done; by eexists _, _.
Qed.

(** A task that was finished or expired is never used again: whatever calls follow, it
    keeps its owner and its date of creation, it stays closed, and a lease on it, a tab
    for it or an action in it is refused without any change. *)
Theorem closed_task_refused r r' id t ctx (Hr : reachable r) (Hs : steps r r')
    (Ht : jm_get (tasks r) id = Some t) (Hc : terminal (state t) = true) :
  (exists t', jm_get (tasks r') id = Some t' /\ ownerScopeHash t' = ownerScopeHash t
     /\ createdAt t' = createdAt t /\ terminal (state t') = true)
  /\ (forall n1 n2, (acquireForTask sha256 ttlMs id ctx n1 n2 r').1 = r'
        /\ is_ok (acquireForTask sha256 ttlMs id ctx n1 n2 r').2 = false)
  /\ (forall tab n1 n2, (attachTab sha256 ttlMs id tab ctx n1 n2 r').1 = r'
        /\ is_ok (attachTab sha256 ttlMs id tab ctx n1 n2 r').2 = false)
  /\ (forall tab n, taskIdForTab tab r' = Some id ->
        (assertTabAccess sha256 ttlMs tab ctx n r').1 = r'
        /\ is_ok (assertTabAccess sha256 ttlMs tab ctx n r').2 = false).
Proof.
  apply reachable_inv in Hr. destruct (good_steps r r' Hs Hr) as [Hr' He].
  destruct (He id t Ht) as (t' & Ht' & _ & Ho & Hcr & Hst). specialize (Hst Hc).
  split; [by exists t'|]. split; [|split].
  - intros n1 n2. unfold acquireForTask. st_run.
    destruct (requireOwnedTask_closed id (owner_hash sha256 ctx) true n1 r' t' Ht' Hst) as (c & m & -> & _). done.
  - intros tab n1 n2. unfold attachTab. st_run.
    destruct (requireOwnedTask_closed id (owner_hash sha256 ctx) true n1 r' t' Ht' Hst) as (c & m & -> & _). done.
  - intros tab n Hi. unfold assertTabAccess, taskIdForTab in *. st_run. rewrite Hi, (index_nonempty r' tab id Hr' Hi).
    destruct (requireOwnedTask_closed id (owner_hash sha256 ctx) true n r' t' Ht' Hst) as (c & m & -> & _). done.
Qed.

(** A tab action is accepted exactly when some task lists the tab, belongs to the caller's
    owner scope and is open; the answer is that task, made active and renewed if it was
    suspended.  A refusal changes nothing. *)
Theorem tab_access_exact r tab ctx now (H : reachable r) :
  match assertTabAccess sha256 ttlMs tab ctx now r with
  | (r', Ok t) => exists t0, jm_get (tasks r) (taskId t0) = Some t0 /\ tab ∈ tabIds t0
      /\ ownerScopeHash t0 = owner_hash sha256 ctx /\ isAccessibleState (state t0) = true
      /\ t = (if bool_decide (state t0 = suspended) then touched ttlMs now true (set_state active t0) else t0)
      /\ jm_get (tasks r') (taskId t0) = Some t
  | (r', Err _) => r' = r /\ forall t0, t0 ∈ snapshot r -> tab ∈ tabIds t0 ->
      ownerScopeHash t0 <> owner_hash sha256 ctx \/ isAccessibleState (state t0) = false
  end.
Proof.
  apply reachable_inv in H as Hr. pose proof Hr as [[Hw Hk Hx] _]. unfold assertTabAccess. st_run.
  assert (Hin : forall k t, (k, t) ∈ tasks r -> tab ∈ tabIds t -> jm_get (taskByTab r) tab = Some k).
  { intros k t Hkt Ht. apply Hx. exists t. by split; [apply in_tasks|]. }
  assert (Hown : forall k t0 t1, jm_get (taskByTab r) tab = Some k -> jm_get (tasks r) k = Some t1 ->
                 t0 ∈ snapshot r -> tab ∈ tabIds t0 -> t0 = t1).
  { intros k t0 t1 Hi Ht1 Hs Ht0. apply list_elem_of_fmap in Hs as ([k0 ?] & -> & Hs). cbn in *.
    pose proof (Hin _ _ Hs Ht0). apply in_tasks in Hs; [|done]. congruence. }
  destruct (jm_get (taskByTab r) tab) as [k|] eqn:Ei.
  2:{ split; [done|]. intros t0 Hs Ht0. apply list_elem_of_fmap in Hs as ([k0 ?] & -> & Hs). by apply Hin in Hs. }
  rewrite (index_nonempty r tab k Hr Ei). destruct (index_task r tab k Hr Ei) as (t & Ht & Htab).
  destruct (Hk k t Ht) as [Hid _]. unfold requireOwnedTask. st_run. rewrite Ht.
  assert (Hno : (ownerScopeHash t <> owner_hash sha256 ctx \/ isAccessibleState (state t) = false) ->
    r = r /\ forall t0, t0 ∈ snapshot r -> tab ∈ tabIds t0 ->
      ownerScopeHash t0 <> owner_hash sha256 ctx \/ isAccessibleState (state t0) = false).
  { intros Hn. split; [done|]. intros t0 Hs Ht0. by rewrite (Hown k t0 t eq_refl Ht Hs Ht0). }
  destruct (ownerScopeHash t =s _) eqn:Eo; cbn [negb].
  2:{ apply Hno. left. by apply String.eqb_neq. }
  apply String.eqb_eq in Eo.
  destruct (state t) eqn:Es; try (apply Hno; by right); cbn [bool_decide andb negb decide_rel].
  - exists t. rewrite Hid, Es. by repeat split.
  - unfold resume, update_task. st_run. exists t. rewrite Hid, Es, Ht.
    repeat split; [done..|]. cbn [tasks with_tasks]. by rewrite jm_get_set, String.eqb_refl.
Qed.

(** A restart from the stored tasks gives the registry back: the tasks in their order and
    the task of every tab; only the leases are gone. *)
Theorem restart_restores r (H : reachable r) (Hs : forallb task_schema (snapshot r) = true) :
  exists r', construct (snapshot r) = Ok r' /\ tasks r' = tasks r
    /\ (forall tab, taskIdForTab tab r' = taskIdForTab tab r)
    /\ (forall id, leaseCount id r' = 0).
Proof.
  apply reachable_inv in H as Hr.
  destruct (construct_spec (snapshot r) (snapshot_restorable r Hr)) as (r' & Hc & Hr' & Ht).
  { intros t Hin. rewrite forallb_forall in Hs. apply Hs. by apply list_elem_of_In. }
  rewrite (snapshot_keyed r Hr) in Ht. exists r'. split; [done|]. split; [done|]. split.
  - intros tab. destruct Hr as [[_ _ Hx] _], Hr' as [[_ _ Hx'] _]. unfold taskIdForTab.
    apply option_eq. intros k. by rewrite Hx, Hx', Ht.
  - intros id. revert Hc. unfold construct. intros Hc.
    assert (forall l r0 r1, load_tasks l r0 = Ok r1 -> activeLeases r1 = activeLeases r0) as Ha.
    { induction l as [|t l IH]; intros r0 r1; cbn [load_tasks]; [by intros [= ->]|].
      destruct (task_schema t); [|done]. intros Hl%IH. done. }
    unfold leaseCount. by rewrite (Ha _ _ _ Hc).
Qed.

(** Taking a lease on an active task leaves the stored tasks as they are: the copy that
    is touched is dropped, so the expiry is not renewed. *)
Lemma lease_does_not_renew r id ctx n1 n2 t :
  jm_get (tasks r) id = Some t -> state t = active -> ownerScopeHash t = owner_hash sha256 ctx ->
  tasks (acquireForTask sha256 ttlMs id ctx n1 n2 r).1 = tasks r.
Proof.
  intros Ht Hs Ho. unfold acquireForTask, requireOwnedTask. st_run. rewrite Ht, Ho, String.eqb_refl, Hs.
  reflexivity.
Qed.
End Invariant.

(** *** A trial run *)
Module Trial.
Definition hash (s : string) : string := s.
Definition ttl : Z := DEFAULT_TASK_TTL_MS.
Definition t0 : Z := 1700000000000.
Definition r0 : Registry := mkRegistry [] [] [] [].
Definition ops : list op := [
  Create (Some "alice") "1" t0;
  AttachTab "task-1" "tab-a" (Some "alice") (t0 + 1) (t0 + 2);
  Create (Some "bob") "2" (t0 + 3);
  AttachTab "task-2" "tab-b" (Some "bob") (t0 + 4) (t0 + 5);
  AcquireForTab "tab-a" (Some "alice") (t0 + 6) (t0 + 7) (t0 + 8)].
Definition run (os : list op) (r : Registry) : Registry := fold_left (fun r o => run_op hash ttl o r) os r.
Definition r1 : Registry := run ops r0.
Definition r2 : Registry := run [Release 0 (t0 + 9); BeginFinish "task-1" (Some "alice") (t0 + 10) (t0 + 11);
  CompleteFinish "task-1" (t0 + 12)] r1.
Definition r3 : Registry := run [RestoreAfterFailedFinalization "task-1" (t0 + 20)] r2.

Fixpoint all_fresh (os : list op) (r : Registry) : Prop :=
  match os with
  | [] => True
  | o :: os => op_fresh o r /\ all_fresh os (run_op hash ttl o r)
  end.
Lemma steps_run os r : all_fresh os r -> steps hash ttl r (run os r).
Proof.
  revert r. induction os as [|o os IH]; intros r; [intros _; apply steps_refl|].
  intros [Ho Hos]. apply (steps_op _ _ r o); [done|by apply IH].
Qed.
Lemma steps_trans r r' r'' : steps hash ttl r r' -> steps hash ttl r' r'' -> steps hash ttl r r''.
Proof. induction 1 as [|r o r' Ho Hs IH]; [done|]. intros H'. apply (steps_op _ _ r o); [done|auto]. Qed.

Lemma r1_reachable : reachable hash ttl r1.
Proof.
  exists [], r0. split; [split; [constructor|]|].
  - by intros t1 t2 tab ?%not_elem_of_nil.
  - split; [reflexivity|]. apply steps_run. vm_compute. by repeat split.
Qed.

Lemma r2_reachable : reachable hash ttl r2.
Proof.
  destruct r1_reachable as (i & r & Hi & Hc & Hs). exists i, r. split; [done|]. split; [done|].
  apply (steps_trans _ r1); [done|]. apply steps_run. vm_compute. by repeat split.
Qed.

Lemma r2_r3 : steps hash ttl r2 r3.
Proof. apply steps_run. by repeat split. Qed.
End Trial.

Lemma tab_index_exact_witness :
  taskIdForTab "tab-a" Trial.r1 = Some "task-1"%string /\
  (exists t, jm_get (tasks Trial.r1) "task-1" = Some t /\ ("tab-a" : string) ∈ tabIds t).
Proof.
  split; [reflexivity|].
  destruct (tab_index_exact Trial.hash Trial.ttl Trial.r1 Trial.r1_reachable) as (_ & Hi & _).
  apply (Hi "tab-a" "task-1"). reflexivity.
Defined.

Lemma expiration_respects_leases_witness :
  beginExpiration "task-1" (Trial.t0 + Trial.ttl * 2) Trial.r1 = (Trial.r1, Ok None).
Proof.
  rewrite (expiration_respects_leases Trial.hash Trial.ttl Trial.r1 "task-1" _ Trial.r1_reachable). reflexivity.
Defined.

Lemma closed_task_refused_witness :
  is_ok (acquireForTask Trial.hash Trial.ttl "task-1" (Some "alice"%string) 0 0 Trial.r3).2 = false.
Proof.
  destruct (jm_get (tasks Trial.r2) "task-1") as [t|] eqn:Et; [|discriminate Et].
  assert (terminal (state t) = true) as Hc by (injection Et as <-; reflexivity).
  destruct (closed_task_refused Trial.hash Trial.ttl Trial.r2 Trial.r3 "task-1" t (Some "alice"%string)
              Trial.r2_reachable Trial.r2_r3 Et Hc) as (_ & Ha & _).
  apply Ha.
Defined.

Lemma tab_access_exact_witness :
  match assertTabAccess Trial.hash Trial.ttl "tab-b" (Some "alice"%string) 0 Trial.r1 with
  | (_, Err _) => forall t0, t0 ∈ snapshot Trial.r1 -> ("tab-b" : string) ∈ tabIds t0 ->
      ownerScopeHash t0 <> owner_hash Trial.hash (Some "alice"%string) \/ isAccessibleState (state t0) = false
  | _ => False
  end.
Proof.
  pose proof (tab_access_exact Trial.hash Trial.ttl Trial.r1 "tab-b" (Some "alice"%string) 0 Trial.r1_reachable) as H.
  destruct (assertTabAccess _ _ _ _ _ _) as [r' [t|e]] eqn:E; [|apply H].
  assert (is_ok (assertTabAccess Trial.hash Trial.ttl "tab-b" (Some "alice"%string) 0 Trial.r1).2 = false) as Hb
    by reflexivity.
  rewrite E in Hb. discriminate Hb.
Defined.

Lemma restart_restores_witness :
  exists r', construct (snapshot Trial.r1) = Ok r' /\ taskIdForTab "tab-a" r' = Some "task-1"%string
    /\ leaseCount "task-1" r' = 0.
Proof.
  destruct (restart_restores Trial.hash Trial.ttl Trial.r1 Trial.r1_reachable) as (r' & Hc & _ & Hi & Hl); [reflexivity|].
  exists r'. split; [exact Hc|]. split; [rewrite Hi; reflexivity|apply Hl].
Defined.
