(* ===== verification/SitePolicy.v ===== *)
(** Private sites: services/browser-worker/domain/authorized-site-policy.ts.

    A policy names the origins of a private site, the origins that are never opened, and the
    requests and actions that an authenticated page may make.  The schemas are functions from
    what was given to what is kept, or a refusal; URL parsing ([origin_of], [url_of],
    [is_url]), the collation of [localeCompare] and Unicode normalization are parameters. *)
From S2P Require Import Prelude Errors JsString JsMap JsSort.
Open Scope Z_scope.

Module SitePolicy.

(** *** The data *)
Record AuthorizedSiteRequestRule := mkRule {
  methods : list string;
  pathname : string;
  queryKeys : list string;
  resourceTypes : option (list string);
  frames : option (list string);
  navigation : option bool;
  requiresSemanticPermit : bool;
}.

Inductive SemanticOperation := frame_click | frame_sequence_click.
#[export] Instance SemanticOperation_eq_dec : EqDecision SemanticOperation.
Proof. solve_decision. Defined.

Record AuthorizedSiteSemanticActionRule := mkAction {
  sa_operation : SemanticOperation;
  sa_framePath : list string;
  sa_selector : option string;
  sa_text : option string;
}.
Record AuthorizedSiteRequestPolicy := mkRequestPolicy {
  rules : list AuthorizedSiteRequestRule;
  semanticActions : list AuthorizedSiteSemanticActionRule;
}.
Inductive AccessMode := business_read_only.
Inductive LoginStrategy := login_none | credential_broker.

Record AuthorizedSitePolicy := mkPolicy {
  siteId : string;
  entryUrl : string;
  allowedOrigins : list string;
  p_deniedOrigins : list string;
  accessMode : AccessMode;
  loginStrategy : LoginStrategy;
  credentialAccountId : option string;
  requestPolicy : option AuthorizedSiteRequestPolicy;
}.

(** What the policy sees of a request and of an action. *)
Record AuthorizedSiteRequestDescriptor := mkDescriptor {
  d_origin : string;
  d_method : string;
  d_pathname : string;
  d_queryKeys : list string;
  d_resourceType : string;
  d_frame : string;
  d_navigation : bool;
  d_semanticPermit : bool;
}.
Record AuthorizedSiteSemanticActionDescriptor := mkActionDescriptor {
  ad_operation : SemanticOperation;
  ad_framePath : list string;
  ad_selector : option string;
  ad_text : option string;
}.

(** A site URL is denied, belongs to a policy, or is public. *)
Inductive ClassifiedSiteUrl :=
| denied_url (origin : string)
| private_url (origin : string) (policy : AuthorizedSitePolicy)
| public_url (origin : string).

(** What [new URL] makes of a text, as far as it is read here. *)
Record URL := mkURL { url_hostname : string; url_origin : string }.

Section SitePolicy.
Context (url_of : string -> option URL) (is_url : string -> bool).
Context (localeCompare : string -> string -> Z) (strip_marks : string -> string).
Context (with_hostname : string -> string -> string).

(** *** The schemas *)
Definition text_between (low high : Z) (s : string) : bool :=
  (low <=? Z.of_nat (String.length s)) && (Z.of_nat (String.length s) <=? high).
Definition size_between {A} (low high : Z) (xs : list A) : bool :=
  (low <=? Z.of_nat (length xs)) && (Z.of_nat (length xs) <=? high).

Definition exactOriginSchema (value : string) : option string := url_origin <$> url_of value.
Definition requestMethods : list string := ["GET"; "HEAD"; "POST"]%string.

Definition authorizedSiteRequestRuleSchema (r : AuthorizedSiteRequestRule) : option AuthorizedSiteRequestRule :=
  let names high o := match o with Some xs => size_between 1 20 xs && forallb (text_between 1 high) xs | None => true end in
  if forallb (includes requestMethods) (methods r) && size_between 1 3 (methods r)
     && text_between 1 2000 (pathname r) && startsWith (pathname r) "/"
     && forallb (text_between 1 128) (queryKeys r) && size_between 0 50 (queryKeys r)
     && names 50 (resourceTypes r) && names 120 (frames r)
  then Some (mkRule (uniqueSorted localeCompare (methods r)) (pathname r) (uniqueSorted localeCompare (queryKeys r))
               (uniqueSorted localeCompare <$> resourceTypes r) (uniqueSorted localeCompare <$> frames r)
               (navigation r) (requiresSemanticPermit r))
  else None.

Definition authorizedSiteSemanticActionRuleSchema (a : AuthorizedSiteSemanticActionRule) :
    option AuthorizedSiteSemanticActionRule :=
  let given (o : option string) : Z := if bool_decide (o = None) then 0 else 1 in
  let text high o := match o with Some s => text_between 1 high s | None => true end in
  if size_between 1 10 (sa_framePath a) && forallb (text_between 1 120) (sa_framePath a)
     && text 2000 (sa_selector a) && text 500 (sa_text a)
     && (given (sa_selector a) + given (sa_text a) =? 1)
  then Some a else None.

Definition authorizedSiteRequestPolicySchema (p : AuthorizedSiteRequestPolicy) : option AuthorizedSiteRequestPolicy :=
  if size_between 1 100 (rules p) && size_between 0 100 (semanticActions p) then
    rules ← mapM authorizedSiteRequestRuleSchema (rules p);
    actions ← mapM authorizedSiteSemanticActionRuleSchema (semanticActions p);
    Some (mkRequestPolicy rules actions)
  else None.

Definition authorizedSitePolicySchema (p : AuthorizedSitePolicy) : option AuthorizedSitePolicy :=
  if text_between 1 128 (siteId p) && is_url (entryUrl p)
     && size_between 1 20 (allowedOrigins p) && size_between 0 20 (p_deniedOrigins p)
     && match credentialAccountId p with Some s => text_between 1 128 s | None => true end
  then
    allowed ← mapM exactOriginSchema (allowedOrigins p);
    denied ← mapM exactOriginSchema (p_deniedOrigins p);
    requests ← match requestPolicy p with
               | Some r => Some <$> authorizedSiteRequestPolicySchema r
               | None => Some None
               end;
    Some (mkPolicy (siteId p) (entryUrl p) allowed denied (accessMode p) (loginStrategy p) (credentialAccountId p) requests)
  else None.

(** *** The registry *)
Record BrowserSitePolicyRegistry := mkRegistry {
  policies : jsmap AuthorizedSitePolicy;
  privateOrigins : jsmap AuthorizedSitePolicy;
  deniedOrigins : list string;
}.

(** The origin is private to another policy. *)
Definition taken (policy : AuthorizedSitePolicy) (origin : string) (m : jsmap AuthorizedSitePolicy) : bool :=
  match jm_get m origin with Some existing => negb (siteId existing =s siteId policy) | None => false end.
(** The loop over the origins of one policy. *)
Fixpoint add_origins (policy : AuthorizedSitePolicy) (origins : list string) (m : jsmap AuthorizedSitePolicy) :
    result exn (jsmap AuthorizedSitePolicy) :=
  match origins with
  | [] => Ok m
  | origin :: rest =>
      if taken policy origin m then
        throw POLICY_INVALID ("Private origin " ++ origin ++ " belongs to more than one site policy.")
      else add_origins policy rest (jm_set m origin policy)
  end.
Definition add_policy (value : AuthorizedSitePolicy) (r : BrowserSitePolicyRegistry) : result exn BrowserSitePolicyRegistry :=
  match authorizedSitePolicySchema value with
  | None => Err (Native "ZodError")
  | Some policy =>
      if jm_has (policies r) (siteId policy) then
        throw POLICY_INVALID ("Duplicate browser private-site policy " ++ siteId policy ++ ".")
      else
        private ← add_origins policy (allowedOrigins policy) (privateOrigins r);
        Ok (mkRegistry (jm_set (policies r) (siteId policy) policy) private
              (js_dedup (deniedOrigins r ++ p_deniedOrigins policy)))
  end.
Fixpoint add_policies (values : list AuthorizedSitePolicy) (r : BrowserSitePolicyRegistry) : result exn BrowserSitePolicyRegistry :=
  match values with
  | [] => Ok r
  | value :: rest => r ← add_policy value r; add_policies rest r
  end.
Definition new_registry (initialPolicies : list AuthorizedSitePolicy) : result exn BrowserSitePolicyRegistry :=
  add_policies initialPolicies (mkRegistry [] [] []).

Definition require (site : string) (r : BrowserSitePolicyRegistry) : result exn AuthorizedSitePolicy :=
  match jm_get (policies r) site with
  | Some policy => Ok policy
  | None => throw SITE_POLICY_NOT_FOUND "The requested private-site policy is not configured."
  end.
Definition classify (value : string) (r : BrowserSitePolicyRegistry) : result exn ClassifiedSiteUrl :=
  match url_of value with
  | None => Err (Native "TypeError")
  | Some url =>
      let origin := url_origin url in
      Ok (if includes (deniedOrigins r) origin then denied_url origin
          else match jm_get (privateOrigins r) origin with
               | Some policy => private_url origin policy
               | None => public_url origin
               end)
  end.
Definition privateOriginValues (r : BrowserSitePolicyRegistry) : list string := jm_keys (privateOrigins r).
Definition deniedOriginValues (r : BrowserSitePolicyRegistry) : list string := deniedOrigins r.
Definition publicCapabilities (r : BrowserSitePolicyRegistry) : list (string * AccessMode * LoginStrategy) :=
  map (fun p => (siteId p, accessMode p, loginStrategy p)) (jm_values (policies r)).

(** *** Requests and actions *)
Definition upper_char (c : ascii) : ascii :=
  let n := char_code c in if (97 <=? n)%N && (n <=? 122)%N then ascii_of_N (n - 32) else c.
(** [toUpperCase] on the names of methods. *)
Definition toUpperCase (s : string) : string := smap upper_char s.

Definition rule_allows (rule : AuthorizedSiteRequestRule) (d : AuthorizedSiteRequestDescriptor) : bool :=
  includes (methods rule) (toUpperCase (d_method d))
  && (pathname rule =s d_pathname d)
  && bool_decide (queryKeys rule = uniqueSorted localeCompare (d_queryKeys d))
  && match resourceTypes rule with Some types => includes types (d_resourceType d) | None => true end
  && match frames rule with Some frames => includes frames (d_frame d) | None => true end
  && match navigation rule with Some n => bool_decide (n = d_navigation d) | None => true end
  && (negb (requiresSemanticPermit rule) || d_semanticPermit d).
Definition isAuthorizedSiteRequestAllowed (policy : AuthorizedSitePolicy) (d : AuthorizedSiteRequestDescriptor) : bool :=
  match requestPolicy policy with
  | None => true
  | Some p => includes (allowedOrigins policy) (d_origin d) && existsb (fun rule => rule_allows rule d) (rules p)
  end.

(** [value ?? EmptyString], without marks, in lower case, with single spaces and trimmed. *)
Definition normalizeSemanticText (value : option string) : string :=
  join " " (words (toLowerCase (strip_marks (default EmptyString value)))).
Definition action_allows (rule : AuthorizedSiteSemanticActionRule) (d : AuthorizedSiteSemanticActionDescriptor) : bool :=
  bool_decide (sa_operation rule = ad_operation d)
  && bool_decide (sa_framePath rule = ad_framePath d)
  && (bool_decide (sa_selector rule = None) || bool_decide (sa_selector rule = ad_selector d))
  && (bool_decide (sa_text rule = None) || (normalizeSemanticText (sa_text rule) =s normalizeSemanticText (ad_text d))).
Definition isAuthorizedSiteSemanticActionAllowed (policy : AuthorizedSitePolicy) (d : AuthorizedSiteSemanticActionDescriptor) : bool :=
  existsb (fun rule => action_allows rule d)
    (match requestPolicy policy with Some p => semanticActions p | None => [] end).

(** The origin of the production site of a development host.  [with_hostname] is the origin
    of a URL after its hostname was set. *)
Definition deriveProductionOrigin (devUrl : URL) : option string :=
  if startsWith (toLowerCase (url_hostname devUrl)) "dev-"
  then Some (with_hostname (url_origin devUrl) (sdrop 4 (url_hostname devUrl)))
  else None.
End SitePolicy.

(** *** Classification *)
Section Classification.
Context (url_of : string -> option URL) (is_url : string -> bool) (localeCompare : string -> string -> Z).
Notation schema := (authorizedSitePolicySchema url_of is_url localeCompare).
Notation new_registry := (new_registry url_of is_url localeCompare).
Notation classify := (classify url_of).

(** A registry that holds the parsed policies [qs], in their order. *)
Record Holds (r : BrowserSitePolicyRegistry) (qs : list AuthorizedSitePolicy) : Prop := {
  h_policies : policies r = map (fun p => (siteId p, p)) qs;
  h_sites : NoDup (map siteId qs);
  h_private : forall o p, jm_get (privateOrigins r) o = Some p <-> p ∈ qs /\ o ∈ allowedOrigins p;
  h_denied : forall o, o ∈ deniedOrigins r <-> exists p, p ∈ qs /\ o ∈ p_deniedOrigins p;
}.

(** No origin is private to two policies. *)
Definition disjoint_origins (qs : list AuthorizedSitePolicy) : Prop :=
  forall p q o, p ∈ qs -> q ∈ qs -> o ∈ allowedOrigins p -> o ∈ allowedOrigins q -> p = q.

Lemma holds_disjoint r qs : Holds r qs -> disjoint_origins qs.
Proof.
  intros H p q o Hp Hq Ho Ho'. pose proof (proj2 (h_private r qs H o p) (conj Hp Ho)) as H1.
  pose proof (proj2 (h_private r qs H o q) (conj Hq Ho')) as H2. congruence.
Qed.

Lemma jm_has_keys {A} (f : A -> string) (qs : list A) k : jm_has (map (fun p => (f p, p)) qs) k = true <-> k ∈ map f qs.
Proof.
  unfold jm_has. pose proof (jm_get_none (map (fun p => (f p, p)) qs) k) as H. unfold jm_keys in H. rewrite map_map in H. cbn in H.
  destruct (jm_get _ k); split; try done; [|by intros []%H].
  intros _. apply dec_stable. intros Hn%H. done.
Qed.

Lemma taken_false p o m : taken p o m = false <-> forall e, jm_get m o = Some e -> siteId e = siteId p.
Proof.
  unfold taken. destruct (jm_get m o) as [e|]; [|done]. rewrite negb_false_iff, String.eqb_eq. split; [by intros E ? [= <-]|eauto].
Qed.

Lemma add_origins_accepts p os m :
  (exists m', add_origins p os m = Ok m') <-> (forall o e, o ∈ os -> jm_get m o = Some e -> siteId e = siteId p).
Proof.
  revert m. induction os as [|o os IH]; intros m; cbn [add_origins].
  { split; [by intros _ o e []%not_elem_of_nil|eauto]. }
  assert (Hset : (forall o' e, o' ∈ os -> jm_get (jm_set m o p) o' = Some e -> siteId e = siteId p) <->
                 (forall o' e, o' ∈ os -> o' <> o -> jm_get m o' = Some e -> siteId e = siteId p)).
  { setoid_rewrite jm_get_set. split; intros H o' e Ho'.
    - intros Hn He. apply (H o' e Ho'). by rewrite (proj2 (String.eqb_neq _ _) Hn).
    - destruct (String.eqb_spec o' o) as [->|Hn]; [by intros [= ->]|by apply H]. }
  destruct (taken p o m) eqn:E.
  - split; [by intros []|]. intros Hall. enough (taken p o m = false) by congruence.
    apply taken_false. intros e. apply Hall. left.
  - rewrite (IH (jm_set m o p)), Hset. rewrite taken_false in E. split.
    + intros H o' e [->|Ho']%elem_of_cons He; [by apply E|]. destruct (decide (o' = o)) as [->|]; [by apply E|by apply (H o')].
    + intros H o' e Ho' _. apply H. by right.
Qed.

Lemma add_origins_get p os m m' o :
  add_origins p os m = Ok m' -> jm_get m' o = if bool_decide (o ∈ os) then Some p else jm_get m o.
Proof.
  revert m. induction os as [|o1 os IH]; intros m; cbn [add_origins].
  { intros [= ->]. by rewrite bool_decide_false by apply not_elem_of_nil. }
  destruct (taken p o1 m); [done|]. intros H%IH. rewrite H, jm_get_set.
  destruct (bool_decide_reflect (o ∈ os)) as [Hi|Hn].
  - by rewrite bool_decide_true by (by right).
  - destruct (String.eqb_spec o o1) as [->|Hn'].
    + by rewrite bool_decide_true by left.
    + by rewrite bool_decide_false by (by intros [->|?]%elem_of_cons).
Qed.

Lemma add_policy_accepts r qs v :
  Holds r qs ->
  (exists r', add_policy url_of is_url localeCompare v r = Ok r') <->
  exists q, schema v = Some q /\ siteId q ∉ map siteId qs
       /\ forall p o, p ∈ qs -> o ∈ allowedOrigins p -> o ∉ allowedOrigins q.
Proof.
  intros H. unfold add_policy. destruct (schema v) as [q|]; [|split; [by intros []|by intros (? & ? & _)]].
  rewrite (h_policies r qs H). destruct (jm_has (map _ qs) (siteId q)) eqn:Eh.
  { apply jm_has_keys in Eh. split; [by intros []|]. by intros (? & [= <-] & ? & _). }
  assert (Hsite : siteId q ∉ map siteId qs) by (intros Hin%jm_has_keys; congruence).
  assert (Hadd : (exists m, add_origins q (allowedOrigins q) (privateOrigins r) = Ok m) <->
                 forall p o, p ∈ qs -> o ∈ allowedOrigins p -> o ∉ allowedOrigins q).
  { rewrite add_origins_accepts. split.
    - intros Hall p o Hp Ho Hq. assert (siteId p = siteId q) as Hs by (eapply (Hall o p Hq), (h_private r qs H); done).
      apply Hsite. rewrite <- Hs. change (map siteId qs) with (siteId <$> qs). by apply list_elem_of_fmap_2.
    - intros Hd o e Ho (He & Heo)%(h_private r qs H). by destruct (Hd e o He Heo). }
  split.
  - intros [r' Hr]. exists q. split_and!; [done..|]. apply Hadd. destruct (add_origins _ _ _) as [m|]; [by exists m|done].
  - intros (q' & [= <-] & _ & [m ->]%Hadd). cbn. eauto.
Qed.

Lemma add_policy_holds r qs v q r' :
  Holds r qs -> schema v = Some q -> add_policy url_of is_url localeCompare v r = Ok r' -> Holds r' (qs ++ [q]).
Proof.
  intros H Eq Hadd. destruct (proj1 (add_policy_accepts r qs v H) (ex_intro _ r' Hadd)) as (q' & Eq' & Hsite & Hdis).
  rewrite Eq in Eq'. injection Eq' as <-. unfold add_policy in Hadd. rewrite Eq, (h_policies r qs H) in Hadd.
  destruct (jm_has _ _) eqn:Eh in Hadd; [done|].
  destruct (add_origins q (allowedOrigins q) (privateOrigins r)) as [m|] eqn:Em; [|done]. injection Hadd as <-.
  pose proof (fun o => add_origins_get _ _ _ _ o Em) as Hget. split; cbn [policies privateOrigins deniedOrigins].
  - rewrite map_app. cbn. clear -Eh. induction (map (fun p => (siteId p, p)) qs) as [|[k v] m IH]; [done|].
    cbn in *. unfold jm_has in *. cbn in Eh. destruct (siteId q =s k); [done|]. by rewrite IH.
  - rewrite map_app. apply NoDup_app. split_and!; [apply (h_sites r qs H)| |apply NoDup_singleton].
    cbn. intros x Hx ->%list_elem_of_singleton. done.
  - intros o p. rewrite Hget. setoid_rewrite elem_of_app. setoid_rewrite list_elem_of_singleton.
    destruct (bool_decide_reflect (o ∈ allowedOrigins q)) as [Ho|Ho].
    + split; [by intros [= <-]; auto|]. intros [[Hp| ->] Hop]; [|done]. by destruct (Hdis p o Hp Hop).
    + rewrite (h_private r qs H). split; [intros []; auto|]. intros [[Hp| ->] Hop]; [done|done].
  - intros o. rewrite elem_of_js_dedup, elem_of_app, (h_denied r qs H). setoid_rewrite elem_of_app.
    setoid_rewrite list_elem_of_singleton. naive_solver.
Qed.

Lemma add_policies_spec vs r qs :
  Holds r qs ->
  ((exists r', add_policies url_of is_url localeCompare vs r = Ok r') <->
   exists new, mapM schema vs = Some new /\ NoDup (map siteId (qs ++ new)) /\ disjoint_origins (qs ++ new))
  /\ forall r' new, add_policies url_of is_url localeCompare vs r = Ok r' -> mapM schema vs = Some new -> Holds r' (qs ++ new).
Proof.
  revert r qs. induction vs as [|v vs IH]; intros r qs H; cbn [add_policies mapM].
  { split.
    - split; [|eauto]. intros _. exists []. rewrite app_nil_r. split_and!; [done|apply (h_sites r qs H)|by eapply holds_disjoint].
    - intros r' new [= <-] [= <-]. by rewrite app_nil_r. }
  destruct (add_policy _ _ _ v r) as [r1|err] eqn:E1; cbn [mbind result_bind].
  - destruct (proj1 (add_policy_accepts r qs v H) (ex_intro _ r1 E1)) as (q & Eq & _ & _).
    pose proof (add_policy_holds r qs v q r1 H Eq E1) as H1. destruct (IH r1 (qs ++ [q]) H1) as [HA HB].
    rewrite Eq. cbn [mbind option_bind]. split.
    + rewrite HA. split.
      * intros (new & -> & Hn & Hd). exists (q :: new). rewrite <- app_assoc in Hn, Hd. done.
      * intros (new & Hm & Hn & Hd). destruct (mapM schema vs) as [new'|]; [|done]. injection Hm as <-. exists new'.
        by rewrite <- app_assoc.
    + intros r' new Hr Hm. destruct (mapM schema vs) as [new'|] eqn:Em; [|done]. injection Hm as <-.
      specialize (HB r' new' Hr eq_refl). by rewrite <- app_assoc in HB.
  - split; [|done]. split; [by intros []|]. intros (new & Hm & Hn & Hd). exfalso.
    destruct (schema v) as [q|] eqn:Eq; [|done]. cbn in Hm. destruct (mapM schema vs) as [new'|]; [|done]. injection Hm as <-.
    assert (exists r', add_policy url_of is_url localeCompare v r = Ok r') as [r1 Hr]; [|congruence].
    apply (add_policy_accepts r qs v H). exists q. split; [done|]. split.
    + rewrite map_app in Hn. apply NoDup_app in Hn as (_ & Hn & _). intros Hin. apply (Hn _ Hin). left.
    + intros p o Hp Ho Hq. assert (p = q) as -> by (apply (Hd p q o); rewrite ?elem_of_app, ?elem_of_cons; auto).
      rewrite map_app in Hn. apply NoDup_app in Hn as (_ & Hn & _). apply (Hn (siteId q)); [|left].
      change (map siteId qs) with (siteId <$> qs). by apply list_elem_of_fmap_2.
Qed.

Lemma new_holds : Holds (mkRegistry [] [] []) [].
Proof.
  split; cbn; [done|apply NoDup_nil_2|..].
  - intros o p. split; [done|]. by intros [[]%not_elem_of_nil _].
  - intros o. split; [by intros []%not_elem_of_nil|]. by intros (p & []%not_elem_of_nil & _).
Qed.

(** [functional] A list of site policies is accepted exactly when every policy is well
    formed, no two have one identifier and no origin is private to two of them; a URL is then
    denied when any policy denies its origin, belongs to the policy that lists its origin
    otherwise, and is public when there is none: neither the order of the policies nor that
    of their origins matters. *)
Theorem site_registry_exact vs :
  ((exists r, new_registry vs = Ok r) <->
   exists qs, mapM schema vs = Some qs /\ NoDup (map siteId qs) /\ disjoint_origins qs)
  /\ forall r qs value c, new_registry vs = Ok r -> mapM schema vs = Some qs ->
     (classify value r = Ok c <-> exists url, url_of value = Some url /\
        let denied := exists q, q ∈ qs /\ url_origin url ∈ p_deniedOrigins q in
        match c with
        | denied_url o => o = url_origin url /\ denied
        | private_url o p => o = url_origin url /\ ~ denied /\ p ∈ qs /\ o ∈ allowedOrigins p
        | public_url o => o = url_origin url /\ ~ denied /\ forall p, p ∈ qs -> o ∉ allowedOrigins p
        end).
Proof.
  destruct (add_policies_spec vs _ [] new_holds) as [HA HB]. split; [exact HA|].
  intros r qs value c Hr Hm. pose proof (HB r qs Hr Hm) as H. cbn in H. unfold classify.
  destruct (url_of value) as [url|]; [|split; [done|by intros (? & ? & _)]]. cbn zeta.
  assert (Hden : includes (deniedOrigins r) (url_origin url) = true <-> exists q, q ∈ qs /\ url_origin url ∈ p_deniedOrigins q).
  { rewrite includes_spec. apply (h_denied r qs H). }
  split.
  - intros [= <-]. exists url. split; [done|]. destruct (includes _ _); [naive_solver|].
    destruct (jm_get (privateOrigins r) (url_origin url)) as [p|] eqn:Ep.
    + apply (h_private r qs H) in Ep. naive_solver.
    + split_and!; [done|naive_solver|]. intros p Hp Ho.
      assert (jm_get (privateOrigins r) (url_origin url) = Some p) by (by apply (h_private r qs H)). congruence.
  - intros (url' & [= <-] & Hc). f_equal. destruct (includes _ _); destruct c as [o|o p|o].
    + by destruct Hc as [-> _].
    + destruct Hc as (_ & [] & _). by apply Hden.
    + destruct Hc as (_ & [] & _). by apply Hden.
    + destruct Hc as [_ Hd%Hden]. done.
    + destruct Hc as (-> & _ & Hp). by apply (h_private r qs H) in Hp as ->.
    + destruct Hc as (-> & _ & Hn). destruct (jm_get _ _) as [p|] eqn:Ep; [|done].
      apply (h_private r qs H) in Ep as [Hp Ho]. by destruct (Hn p Hp).
Qed.

(** *** Requests *)
(** What a rule says of a request, with sets where the code compares sorted lists. *)
Record rule_permits (rule : AuthorizedSiteRequestRule) (d : AuthorizedSiteRequestDescriptor) : Prop := {
  rp_method : toUpperCase (d_method d) ∈ methods rule;
  rp_pathname : pathname rule = d_pathname d;
  rp_query : forall k, k ∈ queryKeys rule <-> k ∈ d_queryKeys d;
  rp_type : forall types, resourceTypes rule = Some types -> d_resourceType d ∈ types;
  rp_frame : forall names, frames rule = Some names -> d_frame d ∈ names;
  rp_navigation : forall n, navigation rule = Some n -> n = d_navigation d;
  rp_permit : requiresSemanticPermit rule = true -> d_semanticPermit d = true;
}.

Lemma rule_allows_spec rule d :
  rule_allows localeCompare rule d = true <->
  queryKeys rule = uniqueSorted localeCompare (d_queryKeys d) /\
  toUpperCase (d_method d) ∈ methods rule /\ pathname rule = d_pathname d
  /\ (forall types, resourceTypes rule = Some types -> d_resourceType d ∈ types)
  /\ (forall names, frames rule = Some names -> d_frame d ∈ names)
  /\ (forall n, navigation rule = Some n -> n = d_navigation d)
  /\ (requiresSemanticPermit rule = true -> d_semanticPermit d = true).
Proof.
  unfold rule_allows. rewrite !andb_true_iff, bool_decide_eq_true, String.eqb_eq, orb_true_iff, negb_true_iff, includes_spec.
  assert (Hopt : forall (o : option (list string)) x,
            match o with Some xs => includes xs x | None => true end = true <-> forall xs, o = Some xs -> x ∈ xs).
  { intros [xs|] x; [|by split]. rewrite includes_spec. split; [by intros H ? [= <-]|auto]. }
  assert (Hnav : match navigation rule with Some n => bool_decide (n = d_navigation d) | None => true end = true <->
                 forall n, navigation rule = Some n -> n = d_navigation d).
  { destruct (navigation rule) as [n|]; [|by split]. rewrite bool_decide_eq_true. split; [by intros H ? [= <-]|auto]. }
  rewrite !Hopt, Hnav. destruct (requiresSemanticPermit rule); naive_solver.
Qed.

Lemma rule_allows_permits rule d : rule_allows localeCompare rule d = true -> rule_permits rule d.
Proof.
  intros (Hq & Hm & Hp & Ht & Hf & Hn & Hs)%rule_allows_spec. split; try done.
  intros k. rewrite Hq. apply elem_of_uniqueSorted.
Qed.

(** The lists of keys of an accepted policy are sorted sets. *)
Lemma rule_keys_sorted given policy p rule :
  schema given = Some policy -> requestPolicy policy = Some p -> rule ∈ rules p ->
  exists ks, queryKeys rule = uniqueSorted localeCompare ks.
Proof.
  unfold authorizedSitePolicySchema. destruct (_ && _); [|done].
  destruct (mapM _ (allowedOrigins given)); [|done]. destruct (mapM _ (p_deniedOrigins given)); [|done]. cbn [mbind option_bind].
  destruct (requestPolicy given) as [g|]; [|by intros [= <-]].
  destruct (authorizedSiteRequestPolicySchema localeCompare g) as [p'|] eqn:E; [|done]. cbn. intros [= <-]. cbn. intros [= <-].
  unfold authorizedSiteRequestPolicySchema in E. destruct (_ && _); [|done].
  destruct (mapM _ (rules g)) as [rs|] eqn:Er; [|done]. cbn in E. destruct (mapM _ (semanticActions g)); [|done].
  injection E as <-. cbn. intros Hin. destruct (mapM_elem _ _ _ _ Er Hin) as (x & _ & Hx).
  unfold authorizedSiteRequestRuleSchema in Hx. destruct (_ && _); [|done]. injection Hx as <-. cbn. eauto.
Qed.

(** [safety] A page with a request policy makes only requests to an origin of the site
    that some rule of the policy describes: method, path, exactly the query keys, type, frame,
    navigation and permit.  Where the collation tells the query keys apart every such request
    is let through (authorized-site-policy.ts [isAuthorizedSiteRequestAllowed]). *)
Theorem site_request_exact given policy p d :
  schema given = Some policy -> requestPolicy policy = Some p ->
  let permitted := d_origin d ∈ allowedOrigins policy /\ exists rule, rule ∈ rules p /\ rule_permits rule d in
  (isAuthorizedSiteRequestAllowed localeCompare policy d = true -> permitted)
  /\ (Consistent localeCompare -> separated localeCompare (d_queryKeys d) -> permitted ->
      isAuthorizedSiteRequestAllowed localeCompare policy d = true).
Proof.
  intros Hs Hp. unfold isAuthorizedSiteRequestAllowed. rewrite Hp, andb_true_iff, includes_spec. split.
  - intros [Ho Hr]. split; [done|]. apply existsb_exists in Hr as (rule & Hin & Hr).
    exists rule. split; [by apply list_elem_of_In|by apply rule_allows_permits].
  - intros Hc Hsep [Ho (rule & Hin & [])]. split; [done|]. apply existsb_exists. exists rule.
    split; [by apply list_elem_of_In|]. apply rule_allows_spec. split; [|done].
    destruct (rule_keys_sorted given policy p rule Hs Hp Hin) as [ks Hks]. rewrite Hks. symmetry.
    apply same_uniqueSorted; [done|done|]. intros k. rewrite <- rp_query0, Hks. apply elem_of_uniqueSorted.
Qed.
End Classification.
End SitePolicy.
