(* ===== verification/SiteGrants.v ===== *)
(** Grants of private sites: services/browser-worker/domain/browser-site-grant-registry.ts.

    A task reaches a private site after its owner confirmed it: [createConfirmation] makes a
    confirmation of (task, owner, site, purpose), [confirm] spends it and grants the site to
    the task for ten minutes at most, [requireGrant] is what every access asks for.  A method
    changes the registry and returns or throws; random identifiers and readings of the clock
    are arguments, and dates are epoch milliseconds. *)
From S2P Require Import Prelude Errors JsString JsMap TaskRegistry SitePolicy.
Open Scope Z_scope.

Module SiteGrants.
Import SitePolicy.

Record PendingSiteConfirmation := mkPending {
  pc_taskId : string;
  pc_ownerScopeHash : string;
  pc_siteId : string;
  pc_purpose : string;
  pc_expiresAt : Z;
}.
Record BrowserSiteGrant := mkGrant {
  g_taskId : string;
  g_ownerScopeHash : string;
  g_siteId : string;
  g_allowedOrigins : list string;
  g_expiresAt : Z;
}.

Definition CONFIRMATION_TTL_MS : Z := 5 * 60 * 1000.
Definition GRANT_TTL_MS : Z := 10 * 60 * 1000.

Record Registry := mkGrants {
  pending : jsmap PendingSiteConfirmation;
  grants : jsmap BrowserSiteGrant;
}.
Definition new_registry : Registry := mkGrants [] [].

Definition grantKey (taskId siteId : string) : string := taskId +:+ String NUL siteId.

Definition pruneExpiredConfirmations (now : Z) (r : Registry) : Registry :=
  mkGrants (List.filter (fun e => negb (pc_expiresAt e.2 <=? now)) (pending r)) (grants r).
Definition pruneExpiredGrants (now : Z) (r : Registry) : Registry :=
  mkGrants (pending r) (List.filter (fun e => negb (g_expiresAt e.2 <=? now)) (grants r)).
Definition pruneExpired (now : Z) (r : Registry) : Registry := pruneExpiredGrants now (pruneExpiredConfirmations now r).

(** [createConfirmation]: the identifier is [site-confirm-] and a random UUID. *)
Definition createConfirmation (id : string) (task : BrowserTask) (policy : AuthorizedSitePolicy) (purpose : string)
    (now1 now2 : Z) (r : Registry) : Registry * PendingSiteConfirmation :=
  let r := pruneExpired now1 r in
  let confirmation := mkPending (taskId task) (ownerScopeHash task) (siteId policy) purpose (now2 + CONFIRMATION_TTL_MS) in
  (mkGrants (jm_set (pending r) id confirmation) (grants r), confirmation).

Definition matches (p : PendingSiteConfirmation) (task : BrowserTask) (policy : AuthorizedSitePolicy) (purpose : string) : bool :=
  (pc_taskId p =s taskId task) && (pc_ownerScopeHash p =s ownerScopeHash task)
  && (pc_siteId p =s siteId policy) && (pc_purpose p =s purpose).
Definition confirm (id : string) (task : BrowserTask) (policy : AuthorizedSitePolicy) (purpose : string)
    (now1 now2 : Z) (r : Registry) : Registry * result exn BrowserSiteGrant :=
  let r := pruneExpired now1 r in
  match jm_get (pending r) id with
  | None => (r, throw SITE_ACCESS_AUTHORIZATION_REQUIRED "The private-site confirmation is missing, expired or already consumed.")
  | Some p =>
      if negb (matches p task policy purpose) then
        (r, throw SITE_ACCESS_AUTHORIZATION_REQUIRED "The private-site confirmation does not match this task and purpose.")
      else
        let grant := mkGrant (taskId task) (ownerScopeHash task) (siteId policy) (allowedOrigins policy)
                       (Z.min (expiresAt task) (now2 + GRANT_TTL_MS)) in
        (mkGrants (jm_delete (pending r) id) (jm_set (grants r) (grantKey (taskId task) (siteId policy)) grant), Ok grant)
  end.

Definition requireGrant (task : BrowserTask) (policy : AuthorizedSitePolicy) (now1 now2 : Z) (r : Registry) :
    Registry * result exn BrowserSiteGrant :=
  let r := pruneExpiredConfirmations now1 r in
  let key := grantKey (taskId task) (siteId policy) in
  match jm_get (grants r) key with
  | None => (r, throw SITE_ACCESS_AUTHORIZATION_REQUIRED
                  "Use browser_open_authorized_site and confirm access before opening this private site.")
  | Some grant =>
      if negb (g_ownerScopeHash grant =s ownerScopeHash task) then
        (r, throw TASK_OWNERSHIP_MISMATCH "The private-site grant belongs to another owner scope.")
      else if g_expiresAt grant <=? now2 then
        (mkGrants (pending r) (jm_delete (grants r) key), throw SITE_ACCESS_GRANT_EXPIRED "The private-site grant has expired.")
      else (r, Ok grant)
  end.

Definition grantForTaskSite (taskId siteId : string) (now : Z) (r : Registry) : Registry * option BrowserSiteGrant :=
  let r := pruneExpired now r in (r, jm_get (grants r) (grantKey taskId siteId)).
Definition revokeTaskSite (taskId siteId : string) (r : Registry) : Registry * option BrowserSiteGrant :=
  let key := grantKey taskId siteId in
  match jm_get (grants r) key with
  | None => (r, None)
  | Some grant => (mkGrants (pending r) (jm_delete (grants r) key), Some grant)
  end.
Definition revokeTask (taskId : string) (r : Registry) : Registry * list BrowserSiteGrant :=
  (mkGrants (List.filter (fun e => negb (pc_taskId e.2 =s taskId)) (pending r))
            (List.filter (fun e => negb (g_taskId e.2 =s taskId)) (grants r)),
   map snd (List.filter (fun e => g_taskId e.2 =s taskId) (grants r))).
Definition activeGrants (now : Z) (r : Registry) : Registry * list BrowserSiteGrant :=
  let r := pruneExpired now r in (r, jm_values (grants r)).

(** *** Calls *)
Inductive Call :=
| CreateConfirmation (id : string) (task : BrowserTask) (policy : AuthorizedSitePolicy) (purpose : string) (now1 now2 : Z)
| Confirm (id : string) (task : BrowserTask) (policy : AuthorizedSitePolicy) (purpose : string) (now1 now2 : Z)
| RequireGrant (task : BrowserTask) (policy : AuthorizedSitePolicy) (now1 now2 : Z)
| GrantForTaskSite (taskId siteId : string) (now : Z)
| RevokeTaskSite (taskId siteId : string)
| RevokeTask (taskId : string)
| ActiveGrants (now : Z).
Definition call (c : Call) (r : Registry) : Registry :=
  match c with
  | CreateConfirmation id task policy purpose t1 t2 => (createConfirmation id task policy purpose t1 t2 r).1
  | Confirm id task policy purpose t1 t2 => (confirm id task policy purpose t1 t2 r).1
  | RequireGrant task policy t1 t2 => (requireGrant task policy t1 t2 r).1
  | GrantForTaskSite t s now => (grantForTaskSite t s now r).1
  | RevokeTaskSite t s => (revokeTaskSite t s r).1
  | RevokeTask t => (revokeTask t r).1
  | ActiveGrants now => (activeGrants now r).1
  end.
Definition calls (cs : list Call) : Registry := fold_left (fun r c => call c r) cs new_registry.

(** *** Where grants come from *)
Lemma grantKey_inj t s t' s' :
  has_char NUL t = false -> has_char NUL t' = false -> grantKey t s = grantKey t' s' -> t = t' /\ s = s'.
Proof.
  unfold grantKey, has_char. revert t'. induction t as [|c t IH]; intros [|c' t'] H H' E; cbn in *.
  - by injection E.
  - injection E as <- _. done.
  - injection E as -> _. done.
  - injection E as -> Ht. apply orb_false_iff in H as [_ H], H' as [_ H']. by destruct (IH t' H H' Ht) as [-> ->].
Qed.

(** The calls granted [g]: a confirmation of this task, owner and site was created, then
    confirmed in time for the same purpose, and nothing was revoked since. *)
Definition created (cs : list Call) (id : string) (p : PendingSiteConfirmation) : Prop :=
  exists task policy v1 v2, CreateConfirmation id task policy (pc_purpose p) v1 v2 ∈ cs
    /\ p = mkPending (taskId task) (ownerScopeHash task) (siteId policy) (pc_purpose p) (v2 + CONFIRMATION_TTL_MS).
Definition granted (cs : list Call) (g : BrowserSiteGrant) : Prop :=
  exists pre id task policy purpose u1 u2 post p,
    cs = pre ++ Confirm id task policy purpose u1 u2 :: post
    /\ (confirm id task policy purpose u1 u2 (calls pre)).2 = Ok g
    /\ g = mkGrant (taskId task) (ownerScopeHash task) (siteId policy) (allowedOrigins policy)
              (Z.min (expiresAt task) (u2 + GRANT_TTL_MS))
    /\ created pre id p
    /\ p = mkPending (taskId task) (ownerScopeHash task) (siteId policy) purpose (pc_expiresAt p) /\ u1 < pc_expiresAt p
    /\ RevokeTaskSite (taskId task) (siteId policy) ∉ post /\ RevokeTask (taskId task) ∉ post.

Record Inv (cs : list Call) (r : Registry) : Prop := {
  i_pending_wf : jm_wf (pending r);
  i_grants_wf : jm_wf (grants r);
  i_pending : forall id p, jm_get (pending r) id = Some p -> created cs id p;
  i_grants : forall k g, jm_get (grants r) k = Some g -> k = grantKey (g_taskId g) (g_siteId g) /\ granted cs g;
}.

Lemma matches_same p task policy purpose :
  matches p task policy purpose = true ->
  p = mkPending (taskId task) (ownerScopeHash task) (siteId policy) purpose (pc_expiresAt p).
Proof. unfold matches. rewrite !andb_true_iff, !String.eqb_eq. destruct p; cbn. by intros [[[-> ->] ->] ->]. Qed.

Lemma created_app cs c id p : created cs id p -> created (cs ++ [c]) id p.
Proof. intros (task & policy & v1 & v2 & Hin & E). exists task, policy, v1, v2. split; [apply elem_of_app; by left|done]. Qed.

Lemma granted_app cs c g :
  granted cs g -> c <> RevokeTaskSite (g_taskId g) (g_siteId g) -> c <> RevokeTask (g_taskId g) -> granted (cs ++ [c]) g.
Proof.
  intros (pre & id & task & policy & purpose & u1 & u2 & post & p & -> & Hok & Eg & Hc & Hm & Hu & H1 & H2) Hn1 Hn2.
  subst g. exists pre, id, task, policy, purpose, u1, u2, (post ++ [c]), p. rewrite <- app_assoc.
  split_and!; try done; rewrite elem_of_app, list_elem_of_singleton; intros [?|<-]; done.
Qed.

(** A registry that lost some of its entries. *)
Definition smaller (r' r : Registry) : Prop :=
  jm_wf (pending r') /\ jm_wf (grants r')
  /\ (forall id p, jm_get (pending r') id = Some p -> jm_get (pending r) id = Some p)
  /\ (forall k g, jm_get (grants r') k = Some g -> jm_get (grants r) k = Some g).

Lemma pruneExpired_smaller now r : jm_wf (pending r) -> jm_wf (grants r) -> smaller (pruneExpired now r) r.
Proof.
  intros H1 H2. split_and!; try by apply jm_wf_filter.
  - cbn. by intros id p [? _]%jm_get_filter.
  - cbn. by intros k g [? _]%jm_get_filter.
Qed.
Lemma smaller_trans a b c : smaller a b -> smaller b c -> smaller a c.
Proof. unfold smaller. naive_solver. Qed.

Lemma inv_smaller cs c r r' :
  Inv cs r -> smaller r' r ->
  (forall k g, jm_get (grants r') k = Some g -> c <> RevokeTaskSite (g_taskId g) (g_siteId g) /\ c <> RevokeTask (g_taskId g)) ->
  Inv (cs ++ [c]) r'.
Proof.
  intros [H1 H2 H3 H4] (S1 & S2 & S3 & S4) Hc. split; [done|done| |].
  - intros id p Hp. by apply created_app, H3, S3.
  - intros k g Hg. destruct (H4 k g (S4 k g Hg)) as [Hk Hgr]. split; [done|]. destruct (Hc k g Hg). by apply granted_app.
Qed.

Lemma inv_create cs id task policy purpose t1 t2 r :
  Inv cs r -> Inv (cs ++ [CreateConfirmation id task policy purpose t1 t2]) (createConfirmation id task policy purpose t1 t2 r).1.
Proof.
  intros HI. pose proof (pruneExpired_smaller t1 r (i_pending_wf _ _ HI) (i_grants_wf _ _ HI)) as Hs.
  assert (HP : Inv (cs ++ [CreateConfirmation id task policy purpose t1 t2]) (pruneExpired t1 r)) by (by eapply inv_smaller).
  destruct HP as [H1 H2 H3 H4]. split; cbn [createConfirmation fst pending grants]; [by apply jm_wf_set|done| |done].
  intros id' p. rewrite jm_get_set. destruct (String.eqb_spec id' id) as [->|]; [|apply H3].
  intros [= <-]. exists task, policy, t1, t2. split; [apply elem_of_app; right; left|done].
Qed.

Lemma inv_confirm cs id task policy purpose t1 t2 :
  Inv cs (calls cs) ->
  Inv (cs ++ [Confirm id task policy purpose t1 t2]) (confirm id task policy purpose t1 t2 (calls cs)).1.
Proof.
  intros HI. pose proof (pruneExpired_smaller t1 (calls cs) (i_pending_wf _ _ HI) (i_grants_wf _ _ HI)) as Hs.
  assert (HP : Inv (cs ++ [Confirm id task policy purpose t1 t2]) (pruneExpired t1 (calls cs))) by (by eapply inv_smaller).
  pose proof (eq_refl (confirm id task policy purpose t1 t2 (calls cs))) as Hcall. unfold confirm at 2 in Hcall.
  unfold confirm. destruct (jm_get (pending (pruneExpired t1 (calls cs))) id) as [p|] eqn:Ep; [|done].
  destruct (matches p task policy purpose) eqn:Em; [|done]. cbn [negb] in *. cbn [fst].
  destruct HP as [H1 H2 H3 H4]. split; cbn [pending grants]; [by apply jm_wf_delete|by apply jm_wf_set| |].
  - intros id' p'. rewrite jm_get_delete. destruct (id' =s id); [done|apply H3].
  - intros k g. rewrite jm_get_set. destruct (String.eqb_spec k (grantKey (taskId task) (siteId policy))) as [->|]; [|apply H4].
    intros [= <-]. split; [done|].
    exists cs, id, task, policy, purpose, t1, t2, [], p. split_and!; try apply not_elem_of_nil; try done.
    + by rewrite Hcall.
    + destruct Hs as (_ & _ & S3 & _). by apply (i_pending _ _ HI), S3.
    + by apply matches_same.
    + cbn in Ep. apply jm_get_filter in Ep as [_ Ep]; [|apply (i_pending_wf _ _ HI)]. cbn in Ep. lia.
Qed.

Lemma inv_calls cs : Inv cs (calls cs).
Proof.
  induction cs as [|c cs IH] using rev_ind; [split; cbn; [apply NoDup_nil_2..|done|done]|].
  unfold calls. rewrite fold_left_app. cbn [fold_left]. fold (calls cs). set (r := calls cs) in *.
  pose proof (i_pending_wf _ _ IH) as Hwp. pose proof (i_grants_wf _ _ IH) as Hwg.
  destruct c as [id task policy purpose t1 t2|id task policy purpose t1 t2|task policy t1 t2|t s now|t s|t|now]; cbn [call].
  - by apply inv_create.
  - by apply inv_confirm.
  - apply (inv_smaller cs _ r); [done| |done].
    assert (Hp : smaller (pruneExpiredConfirmations t1 r) r).
    { split_and!; cbn [fst grants pending pruneExpiredConfirmations]; [by apply jm_wf_filter|done| |done]. by intros id p [? _]%jm_get_filter. }
    unfold requireGrant. destruct (jm_get _ _); [|done]. destruct (negb _); [done|]. destruct (_ <=? _); [|done].
    eapply smaller_trans; [|exact Hp]. split_and!; cbn [fst grants pending pruneExpiredConfirmations]; [by apply jm_wf_filter|by apply jm_wf_delete|done|].
    intros k g. rewrite jm_get_delete. by destruct (k =s _).
  - apply (inv_smaller cs _ r); [done|by apply pruneExpired_smaller|done].
  - unfold revokeTaskSite. destruct (jm_get (grants r) (grantKey t s)) as [g0|] eqn:Eg; cbn [fst].
    + apply (inv_smaller cs _ r); [done| |].
      * split_and!; cbn [fst grants pending pruneExpiredConfirmations]; [done|by apply jm_wf_delete|done|]. intros k g. rewrite jm_get_delete. by destruct (k =s _).
      * cbn [grants]. intros k g. rewrite jm_get_delete. destruct (String.eqb_spec k (grantKey t s)) as [|Hn]; [done|]. intros Hg.
        split; [|done]. intros [= -> ->]. apply Hn. by apply (i_grants _ _ IH).
    + apply (inv_smaller cs _ r); [done|by split_and!|]. intros k g Hg. split; [|done]. intros [= -> ->].
      pose proof (proj1 (i_grants _ _ IH k g Hg)) as ->. congruence.
  - apply (inv_smaller cs _ r); [done| |].
    + split_and!; cbn [fst grants pending pruneExpiredConfirmations]; [by apply jm_wf_filter|by apply jm_wf_filter| |]; by intros k x [? _]%jm_get_filter.
    + cbn [fst revokeTask grants]. intros k g [_ Hf]%jm_get_filter; [|done]. split; [done|]. intros [= ->]. cbn in Hf. by rewrite String.eqb_refl in Hf.
  - apply (inv_smaller cs _ r); [done|by apply pruneExpired_smaller|done].
Qed.

(** [safety] A private site is used by a task only under a live grant that the calls so
    far gave: a confirmation of this task, owner, site and purpose was created and confirmed
    before it expired, the grant ends with the task and after ten minutes at the latest, and
    neither the task nor the site was revoked since ([requireGrant]). *)
Theorem required_grant_confirmed cs task policy t1 t2 r g :
  (forall c, c ∈ cs -> match c with Confirm _ task _ _ _ _ => has_char NUL (taskId task) = false | _ => True end) ->
  has_char NUL (taskId task) = false ->
  requireGrant task policy t1 t2 (calls cs) = (r, Ok g) ->
  t2 < g_expiresAt g /\ g_taskId g = taskId task /\ g_ownerScopeHash g = ownerScopeHash task /\ g_siteId g = siteId policy
  /\ granted cs g.
Proof.
  intros Htame Ht. unfold requireGrant. cbn [grants pruneExpiredConfirmations].
  destruct (jm_get (grants (calls cs)) _) as [g0|] eqn:Eg; [|done].
  destruct (String.eqb_spec (g_ownerScopeHash g0) (ownerScopeHash task)) as [Ho|]; [|done]. cbn [negb].
  destruct (Z.leb_spec (g_expiresAt g0) t2) as [|Hlt]; [done|]. intros [= <- <-].
  destruct (i_grants _ _ (inv_calls cs) _ _ Eg) as [Hk Hg].
  assert (has_char NUL (g_taskId g0) = false) as Ht0.
  { destruct Hg as (pre & id & task0 & policy0 & purpose & u1 & u2 & post & p & Hcs & _ & Hg & _). subst g0.
    specialize (Htame (Confirm id task0 policy0 purpose u1 u2)). apply Htame. subst cs. apply elem_of_app. right. left. }
  destruct (grantKey_inj _ _ _ _ Ht Ht0 Hk) as [-> ->]. done.
Qed.

(** *** A confirmation is spent once *)
Definition created_ids (cs : list Call) : list string :=
  omap (fun c => match c with CreateConfirmation id _ _ _ _ _ => Some id | _ => None end) cs.

Lemma created_in_ids cs id p : created cs id p -> id ∈ created_ids cs.
Proof. intros (task & policy & v1 & v2 & Hin & _). apply list_elem_of_omap. eexists. split; [exact Hin|done]. Qed.

(** No call but the creation of [id] makes [id] pending. *)
Lemma stays_spent c r id :
  jm_wf (pending r) -> jm_get (pending r) id = None ->
  match c with CreateConfirmation id' _ _ _ _ _ => id' <> id | _ => True end ->
  jm_get (pending (call c r)) id = None.
Proof.
  intros Hwf Hn Hc.
  assert (Hf : forall f, jm_get (List.filter f (pending r)) id = None).
  { intros f. destruct (jm_get (List.filter f (pending r)) id) eqn:E; [|done]. apply jm_get_filter in E as [E _]; [congruence|done]. }
  destruct c; cbn [call].
  - cbn [createConfirmation fst pending]. rewrite jm_get_set, (proj2 (String.eqb_neq _ _)) by congruence. apply Hf.
  - unfold confirm. destruct (jm_get (pending (pruneExpired _ _)) _); [|apply Hf]. destruct (negb _); [apply Hf|]. cbn [fst pending].
    rewrite jm_get_delete. destruct (id =s _); [done|apply Hf].
  - unfold requireGrant. destruct (jm_get (grants _) _); [|apply Hf]. destruct (negb _); [apply Hf|]. destruct (_ <=? _); apply Hf.
  - apply Hf.
  - unfold revokeTaskSite. by destruct (jm_get (grants r) _).
  - apply Hf.
  - apply Hf.
Qed.

(** [safety] A confirmation grants a site once: with identifiers that are not reused, after
    a [confirm] that succeeded none with the same identifier does, whoever asks. *)
Theorem site_confirmation_spent pre id task policy purpose t1 t2 mid task' policy' purpose' s1 s2 :
  NoDup (created_ids (pre ++ Confirm id task policy purpose t1 t2 :: mid)) ->
  is_ok (confirm id task policy purpose t1 t2 (calls pre)).2 = true ->
  is_ok (confirm id task' policy' purpose' s1 s2 (calls (pre ++ Confirm id task policy purpose t1 t2 :: mid))).2 = false.
Proof.
  intros Hnd Hok. set (c := Confirm id task policy purpose t1 t2) in *.
  assert (id ∈ created_ids pre /\ jm_get (pending (call c (calls pre))) id = None) as [Hin Hspent].
  { unfold c, call. unfold confirm in *. destruct (jm_get (pending (pruneExpired t1 (calls pre))) id) as [p|] eqn:Ep; [|done].
    destruct (negb _); [done|]. split; [|cbn [fst pending]; by rewrite jm_get_delete, String.eqb_refl].
    apply jm_get_filter in Ep as [Ep _]; [|apply (i_pending_wf _ _ (inv_calls pre))].
    by eapply created_in_ids, (i_pending _ _ (inv_calls pre)). }
  assert (Hmid : jm_get (pending (calls (pre ++ c :: mid))) id = None).
  { assert (Hfresh : id ∉ created_ids mid).
    { unfold created_ids in *. rewrite omap_app in Hnd. apply NoDup_app in Hnd as (_ & Hd & _). by apply Hd. }
    clear Hok Hnd. induction mid as [|m mid IH] using rev_ind; [by unfold calls; rewrite fold_left_app|].
    unfold created_ids in Hfresh, IH. rewrite omap_app, elem_of_app in Hfresh. assert (id ∉ created_ids mid) as Hm by (unfold created_ids; tauto). specialize (IH Hm).
    change (pre ++ c :: mid ++ [m]) with (pre ++ (c :: mid) ++ [m]). rewrite app_assoc. unfold calls. rewrite fold_left_app. cbn [fold_left].
    apply stays_spent; [apply (i_pending_wf _ _ (inv_calls (pre ++ c :: mid)))|exact IH|].
    destruct m; try done. intros ->. apply Hfresh. right. cbn. left. }
  unfold confirm. destruct (jm_get (pending (pruneExpired s1 _)) id) as [p|] eqn:Ep; [|done].
  apply jm_get_filter in Ep as [Ep _]; [congruence|]. apply (i_pending_wf _ _ (inv_calls _)).
Qed.
End SiteGrants.
