(* ===== verification/NetworkGuard.v ===== *)
(** What the browser may reach:
    services/browser-worker/drivers/direct/browser-network-guard-proxy.ts and the request gates of
    services/browser-worker/drivers/direct/direct-playwright-driver.ts.

    The proxy decides by host: private hosts are reached only while they are enabled.  The
    driver decides by page and origin ([guardRoute], [guardWebSocket]).  What follows a
    decision (sockets, pipes) is not modelled.  URL parsing is a parameter; the origins that the
    constructors are given parse, since the schema of a site policy made them. *)
From S2P Require Import Prelude Errors JsString JsMap JsSort SitePolicy.
Open Scope Z_scope.

Module NetworkGuard.
Import SitePolicy.

(** *** browser-network-guard-proxy.ts *)
(** An instant, or [Number.POSITIVE_INFINITY]. *)
Definition Expiry : Type := option Z.
Definition expired (now : Z) (e : Expiry) : bool := match e with Some t => t <=? now | None => false end.

(** What [new URL] makes of a text.  [n_port] is [None] for the empty string. *)
Record NetworkUrl := mkNetworkUrl { n_protocol : string; n_hostname : string; n_port : option Z; n_origin : string }.

Section Guard.
Context (new_URL : string -> option NetworkUrl).

(** [/^\[|\]$/g] and [/\.$/] removed, then lower case. *)
Definition strip_prefix (c : ascii) (s : string) : string :=
  match s with String d rest => if d =c c then rest else s | EmptyString => s end.
Fixpoint strip_suffix (c : ascii) (s : string) : string :=
  match s with
  | EmptyString => EmptyString
  | String d EmptyString => if d =c c then EmptyString else s
  | String d rest => String d (strip_suffix c rest)
  end.
Definition normalizeHost (value : string) : string :=
  toLowerCase (strip_suffix "." (strip_suffix "]" (strip_prefix "[" value))).
Definition originHost (origin : string) : result exn string :=
  match new_URL origin with
  | Some url => Ok (normalizeHost (n_hostname url))
  | None => Err (Native "TypeError")
  end.

Record BrowserNetworkGuardProxy := mkGuard {
  privateHosts : list string;
  deniedHosts : list string;
  enabledPrivateHosts : jsmap Expiry;
  quarantined : bool;
}.
Definition with_enabled (m : jsmap Expiry) (g : BrowserNetworkGuardProxy) : BrowserNetworkGuardProxy :=
  mkGuard (privateHosts g) (deniedHosts g) m (quarantined g).

Definition new_guard (privateOrigins deniedOrigins : list string) : result exn BrowserNetworkGuardProxy :=
  private ← mapM (M := result exn) originHost privateOrigins;
  denied ← mapM (M := result exn) originHost deniedOrigins;
  Ok (mkGuard (js_dedup private) (js_dedup denied) [] true).

Definition set_quarantine (q : bool) (g : BrowserNetworkGuardProxy) : BrowserNetworkGuardProxy :=
  mkGuard (privateHosts g) (deniedHosts g) (enabledPrivateHosts g) q.
Definition beginQuarantine : BrowserNetworkGuardProxy -> BrowserNetworkGuardProxy := set_quarantine true.
Definition endQuarantine : BrowserNetworkGuardProxy -> BrowserNetworkGuardProxy := set_quarantine false.
Definition stop (g : BrowserNetworkGuardProxy) : BrowserNetworkGuardProxy :=
  mkGuard (privateHosts g) (deniedHosts g) [] true.

(** [enableOrigin]; a date that was given is a time. *)
Definition enableOrigin (origin : string) (expiresAt : Expiry) (g : BrowserNetworkGuardProxy) : result exn BrowserNetworkGuardProxy :=
  host ← originHost origin;
  Ok (if negb (includes (privateHosts g) host) || includes (deniedHosts g) host then g
      else with_enabled (jm_set (enabledPrivateHosts g) host expiresAt) g).
Definition disableOrigin (origin : string) (g : BrowserNetworkGuardProxy) : result exn BrowserNetworkGuardProxy :=
  host ← originHost origin;
  Ok (with_enabled (jm_delete (enabledPrivateHosts g) host) g).

Definition isPrivateHostEnabled (host : string) (now : Z) (g : BrowserNetworkGuardProxy) : BrowserNetworkGuardProxy * bool :=
  if quarantined g then (g, false)
  else match jm_get (enabledPrivateHosts g) host with
       | None => (g, false)
       | Some e => if expired now e then (with_enabled (jm_delete (enabledPrivateHosts g) host) g, false) else (g, true)
       end.
Definition isHostAllowed (value : string) (now : Z) (g : BrowserNetworkGuardProxy) : BrowserNetworkGuardProxy * bool :=
  let host := normalizeHost value in
  if includes (deniedHosts g) host then (g, false)
  else if negb (includes (privateHosts g) host) then (g, true)
  else isPrivateHostEnabled host now g.
Definition isOriginEnabled (origin : string) (now : Z) (g : BrowserNetworkGuardProxy) :
    result exn (BrowserNetworkGuardProxy * bool) :=
  host ← originHost origin; Ok (isPrivateHostEnabled host now g).

(** [isAuthenticated]: the header is compared with the credentials of this process. *)
Definition isAuthenticated (authorizationHeader : string) (header : option string) : bool :=
  match header with Some value => negb (sempty value) && (value =s authorizationHeader) | None => false end.

Definition parseAuthority (value : option string) : option (string * Z) :=
  match value with
  | None => None
  | Some value =>
      if sempty value then None
      else
        url ← new_URL ("http://" ++ value);
        let port := default 443 (n_port url) in
        if (port <=? 0) || (65535 <? port) then None else Some (normalizeHost (n_hostname url), port)
  end.

(** What the proxy does with a request: an answer of its own, or a connection. *)
Inductive ProxyDecision := Answer (status : Z) | Connect (hostname : string) (port : Z).
Definition handleConnect (authorizationHeader : string) (header : option string) (target : option string) (now : Z)
    (g : BrowserNetworkGuardProxy) : BrowserNetworkGuardProxy * ProxyDecision :=
  if negb (isAuthenticated authorizationHeader header) then (g, Answer 407)
  else match parseAuthority target with
       | None => (g, Answer 403)
       | Some (hostname, port) =>
           let '(g, allowed) := isHostAllowed hostname now g in
           (g, if allowed then Connect hostname port else Answer 403)
       end.
Definition handleHttp (authorizationHeader : string) (header : option string) (url : option string) (now : Z)
    (g : BrowserNetworkGuardProxy) : BrowserNetworkGuardProxy * ProxyDecision :=
  if negb (isAuthenticated authorizationHeader header) then (g, Answer 407)
  else match new_URL (default EmptyString url) with
       | None => (g, Answer 400)
       | Some target =>
           if negb (n_protocol target =s "http:") then (g, Answer 403)
           else
             let '(g, allowed) := isHostAllowed (n_hostname target) now g in
             (g, if allowed then Connect (n_hostname target) (default 80 (n_port target)) else Answer 403)
       end.

(** *** direct-playwright-driver.ts *)
Context (set_protocol : NetworkUrl -> string -> NetworkUrl) (url_pathname : string -> string) (url_search_keys : string -> list string).
Context (localeCompare : string -> string -> Z).

Definition normalizeOrigin (value : string) : result exn string :=
  match new_URL value with Some url => Ok (toLowerCase (n_origin url)) | None => Err (Native "TypeError") end.
Definition networkOrigin (value : string) : option string :=
  match new_URL value with
  | None => None
  | Some url =>
      let url := if n_protocol url =s "wss:" then set_protocol url "https:" else url in
      let url := if n_protocol url =s "ws:" then set_protocol url "http:" else url in
      if negb (n_protocol url =s "http:") && negb (n_protocol url =s "https:") then None
      else Some (toLowerCase (n_origin url))
  end.

(** What the driver keeps of a page: the origins that it may reach, the policy of its
    requests and the permits that semantic actions hold. *)
Record Page := mkPage {
  pageAllowedOrigins : option (jsmap Expiry);
  pageRequestPolicy : option AuthorizedSitePolicy;
  pageSemanticPermitCount : option Z;
}.
Definition allowedOriginMap (origins : list string) (expiresAt : Expiry) : result exn (jsmap Expiry) :=
  origins ← mapM (M := result exn) normalizeOrigin origins;
  Ok (fold_left (fun m o => jm_set m o expiresAt) origins []).
Definition setActivePageAllowedOrigins (origins : list string) (expiresAt : Expiry) (p : Page) : result exn Page :=
  m ← allowedOriginMap origins expiresAt;
  Ok (mkPage (Some m) (pageRequestPolicy p) (pageSemanticPermitCount p)).
Definition setActivePageRequestPolicy (policy : option AuthorizedSitePolicy) (p : Page) : Page :=
  match policy ≫= requestPolicy with
  | None => mkPage (pageAllowedOrigins p) None None
  | Some _ => mkPage (pageAllowedOrigins p) policy None
  end.
Definition acquireActivePageSemanticRequestPermit (p : Page) : Page :=
  mkPage (pageAllowedOrigins p) (pageRequestPolicy p) (Some (default 0 (pageSemanticPermitCount p) + 1)).
(** The function that gives a permit back, once. *)
Definition release_permit (released : bool) (p : Page) : bool * Page :=
  if released then (true, p)
  else
    let current := default 0 (pageSemanticPermitCount p) in
    (true, mkPage (pageAllowedOrigins p) (pageRequestPolicy p) (if current <=? 1 then None else Some (current - 1))).

Record Origins := mkOrigins { dr_privateOrigins : list string; dr_deniedOrigins : list string }.
Inductive Classification := net_public | net_private | net_denied.
Definition classifyNetworkUrl (d : Origins) (value : string) : Classification :=
  match networkOrigin value with
  | None => net_public
  | Some origin =>
      if sempty origin then net_public
      else if includes (dr_deniedOrigins d) origin then net_denied
      else if includes (dr_privateOrigins d) origin then net_private else net_public
  end.
Definition pageAllowsOrigin (p : Page) (value : string) (now : Z) : bool :=
  match networkOrigin value with
  | None => false
  | Some origin =>
      match pageAllowedOrigins p ≫= fun m => jm_get m origin with
      | Some e => negb (expired now e)
      | None => false
      end
  end.
Definition urlAllowedByPolicy (p : Page) (policy : AuthorizedSitePolicy) (value method resourceType frame : string)
    (navigation : bool) (now : Z) : bool :=
  match new_URL value with
  | None => false
  | Some url =>
      pageAllowsOrigin p value now
      && isAuthorizedSiteRequestAllowed localeCompare policy
           (mkDescriptor (n_origin url) method (url_pathname value) (url_search_keys value) resourceType frame navigation
              (0 <? default 0 (pageSemanticPermitCount p)))
  end.

(** A request: its frame is named, or cannot be asked; so is its page. *)
Record Request := mkRequest {
  r_url : string;
  r_method : string;
  r_resourceType : string;
  r_frame : option string;
  r_navigation : bool;
}.
Definition requestAllowedByPolicy (p : Page) (policy : AuthorizedSitePolicy) (r : Request) (now : Z) : bool :=
  let frame := match r_frame r with Some name => trim name | None => EmptyString end in
  urlAllowedByPolicy p policy (r_url r) (r_method r) (r_resourceType r)
    (if sempty frame then "top"%string else frame) (r_navigation r) now.

(** [guardRoute]: whether the request continues. *)
Definition guardRoute (d : Origins) (page : option Page) (r : Request) (now : Z) : bool :=
  match classifyNetworkUrl d (r_url r) with
  | net_denied => false
  | classification =>
      match page ≫= pageRequestPolicy, page with
      | Some policy, Some p => requestAllowedByPolicy p policy r now
      | _, _ =>
          match classification with
          | net_public => true
          | _ => match page with Some p => pageAllowsOrigin p (r_url r) now | None => false end
          end
      end
  end.
(** [guardWebSocket]: whether the socket is connected. *)
Definition guardWebSocket (d : Origins) (p : Page) (url : string) (now : Z) : bool :=
  let classification := classifyNetworkUrl d url in
  let policyAllows := match pageRequestPolicy p with
                      | Some policy => urlAllowedByPolicy p policy url "GET" "websocket" "top" false now
                      | None => true
                      end in
  negb (match classification with net_denied => true | _ => false end
        || negb policyAllows
        || (match classification with net_private => true | _ => false end && negb (pageAllowsOrigin p url now))).

(** *** Facts *)
(** A parser of URLs drops the default port of [http], so a tunnel that is asked for port 80 of
    a host ([CONNECT host:80], which plain web sockets use) is connected to port 443. *)
Lemma connect_without_port value url :
  sempty value = false -> new_URL ("http://" ++ value) = Some url -> n_port url = None ->
  parseAuthority (Some value) = Some (normalizeHost (n_hostname url), 443).
Proof. intros Hv Hu Hp. unfold parseAuthority. rewrite Hv, Hu. cbn. by rewrite Hp. Qed.

(** Whatever the page and its policy, no request to a denied origin continues, and one to a
    private origin continues only on a page that has this origin, before it expires. *)
Theorem private_request_needs_page d page r now origin :
  guardRoute d page r now = true -> networkOrigin (r_url r) = Some origin -> sempty origin = false ->
  origin ∉ dr_deniedOrigins d
  /\ (origin ∈ dr_privateOrigins d -> exists p m e,
        page = Some p /\ pageAllowedOrigins p = Some m /\ jm_get m origin = Some e /\ expired now e = false).
Proof.
  unfold guardRoute, classifyNetworkUrl. intros H Ho He. rewrite Ho, He in H.
  destruct (includes (dr_deniedOrigins d) origin) eqn:Ed; [done|]. apply includes_false in Ed. split; [done|].
  intros Hp%includes_spec. rewrite Hp in H.
  assert (exists p, page = Some p /\ pageAllowsOrigin p (r_url r) now = true) as (p & -> & Ha).
  { destruct page as [p|]; [exists p; split; [done|]|done]. cbn in H. destruct (pageRequestPolicy p) as [policy|]; [|done].
    unfold requestAllowedByPolicy, urlAllowedByPolicy in H. destruct (new_URL (r_url r)); [|done]. by apply andb_prop in H as [H _]. }
  unfold pageAllowsOrigin in Ha. rewrite Ho in Ha. destruct (pageAllowedOrigins p) as [m|] eqn:Em; [|done]. cbn in Ha.
  destruct (jm_get m origin) as [e|] eqn:Ee; [|done]. exists p, m, e. split_and!; [done..|by apply negb_true_iff].
Qed.
End Guard.
End NetworkGuard.
