(* ===== verification/SiteAccess.v ===== *)
(** How the browser runtime opens private sites: the part of
    services/browser-worker/services/browser-runtime.ts that ties the site policies, the grants, the
    pages of the driver and the network guard together.

    A method is a sequence of steps on [Runtime]; where the source awaits the driver, the next
    step is an operation of its own ([begin_authorized_open], then [authorized_open_done] or
    [authorized_open_failed]).  Pages are named by number, and the page that is current is the driver's.
    Tasks, tabs and what the driver reports are inputs, and so are readings of the clock. *)
From S2P Require Import Prelude Errors JsString JsMap JsSort TaskRegistry SitePolicy SiteGrants NetworkGuard.
Open Scope Z_scope.

Module SiteAccess.
Import SitePolicy NetworkGuard.

(** An [openAuthorizedSite] that was confirmed and waits for its page. *)
Record Opening := mkOpening { o_task : BrowserTask; o_policy : AuthorizedSitePolicy; o_grant : SiteGrants.BrowserSiteGrant }.

Record Runtime := mkRuntime {
  siteGrants : SiteGrants.Registry;
  authenticatedSiteKeys : list string;
  guard : BrowserNetworkGuardProxy;
  pages : gmap nat Page;
  current : option nat;
  openings : list Opening;
}.
Definition with_grants (g : SiteGrants.Registry) (r : Runtime) : Runtime :=
  mkRuntime g (authenticatedSiteKeys r) (guard r) (pages r) (current r) (openings r).
Definition with_keys (ks : list string) (r : Runtime) : Runtime :=
  mkRuntime (siteGrants r) ks (guard r) (pages r) (current r) (openings r).
Definition with_guard (g : BrowserNetworkGuardProxy) (r : Runtime) : Runtime :=
  mkRuntime (siteGrants r) (authenticatedSiteKeys r) g (pages r) (current r) (openings r).
Definition with_pages (ps : gmap nat Page) (c : option nat) (r : Runtime) : Runtime :=
  mkRuntime (siteGrants r) (authenticatedSiteKeys r) (guard r) ps c (openings r).
Definition with_openings (os : list Opening) (r : Runtime) : Runtime :=
  mkRuntime (siteGrants r) (authenticatedSiteKeys r) (guard r) (pages r) (current r) os.

(** A call of the grant registry. *)
Definition on_grants {A} (f : SiteGrants.Registry -> SiteGrants.Registry * A) : stm Runtime A :=
  fun r => let '(g, a) := f (siteGrants r) in (with_grants g r, Ok a).
Definition on_grants_or_throw {A} (f : SiteGrants.Registry -> SiteGrants.Registry * result exn A) : stm Runtime A :=
  fun r => let '(g, a) := f (siteGrants r) in (with_grants g r, a).
(** A call of the driver that may throw before it changes anything. *)
Definition on_guard (f : BrowserNetworkGuardProxy -> result exn BrowserNetworkGuardProxy) : stm Runtime unit :=
  fun r => match f (guard r) with Ok g => (with_guard g r, Ok tt) | Err e => (r, Err e) end.
Definition catch_with {A} (m : stm Runtime A) (h : stm Runtime unit) : stm Runtime A :=
  fun r => match m r with
           | (r, Ok a) => (r, Ok a)
           | (r, Err e) => match h r with (r, Ok _) => (r, Err e) | (r, Err e) => (r, Err e) end
           end.

Definition modify (f : Runtime -> Runtime) : stm Runtime unit := fun r => (f r, Ok tt).

Section Runtime.
Context (new_URL : string -> option NetworkUrl) (sitePolicies : BrowserSitePolicyRegistry).

Definition url_of (value : string) : option URL := (fun u => mkURL (n_hostname u) (n_origin u)) <$> new_URL value.
Definition classify (value : string) : result exn ClassifiedSiteUrl := SitePolicy.classify url_of value sitePolicies.

Definition authenticatedSiteKey (taskId siteId : string) : string := taskId +:+ String NUL siteId.
Definition add_key (key : string) : stm Runtime unit :=
  modify (fun r => if includes (authenticatedSiteKeys r) key then r else with_keys (authenticatedSiteKeys r ++ [key]) r).
Definition delete_key (key : string) : stm Runtime unit :=
  modify (fun r => with_keys (List.filter (fun k => negb (k =s key)) (authenticatedSiteKeys r)) r).

(** *** Activation of private origins *)
Definition expiryByOrigin (grants : list SiteGrants.BrowserSiteGrant) : jsmap Z :=
  fold_left (fun m g =>
    fold_left (fun m origin => jm_set m origin (Z.max (default 0 (jm_get m origin)) (SiteGrants.g_expiresAt g)))
      (SiteGrants.g_allowedOrigins g) m) grants [].
Fixpoint activate (expiries : jsmap Z) (origins : list string) : stm Runtime unit :=
  match origins with
  | [] => st_ok tt
  | origin :: rest =>
      _ ← on_guard (match jm_get expiries origin with
                    | None => disableOrigin new_URL origin
                    | Some expiresAt => enableOrigin new_URL origin (Some expiresAt)
                    end);
      activate expiries rest
  end.
Definition syncPrivateOriginActivation (now : Z) : stm Runtime unit :=
  grants ← on_grants (SiteGrants.activeGrants now);
  activate (expiryByOrigin grants) (privateOriginValues sitePolicies).

(** *** Grants *)
Definition requireTargetGrant (task : BrowserTask) (targetUrl : string) (t1 t2 t3 : Z) :
    stm Runtime (option SiteGrants.BrowserSiteGrant) :=
  classified ← st_lift (classify targetUrl);
  match classified with
  | denied_url _ => st_throw SITE_PRODUCTION_BLOCKED "The requested site origin is permanently blocked by browser policy."
  | public_url _ => st_ok None
  | private_url _ policy =>
      catch_with (grant ← on_grants_or_throw (SiteGrants.requireGrant task policy t1 t2); st_ok (Some grant))
        (syncPrivateOriginActivation t3)
  end.

(** A call of the driver on its current page. *)
Definition on_page (f : Page -> result exn Page) : stm Runtime unit :=
  fun r => match current r ≫= fun c => pair c <$> pages r !! c with
           | None => (r, throw BROWSER_DISCONNECTED "The direct browser engine has no active page.")
           | Some (c, p) => match f p with
                            | Ok p => (with_pages (<[c := p]> (pages r)) (Some c) r, Ok tt)
                            | Err e => (r, Err e)
                            end
           end.
Definition applyActivePageGrant (grant : option SiteGrants.BrowserSiteGrant) : stm Runtime unit :=
  _ ← on_page (match grant with
               | Some g => setActivePageAllowedOrigins new_URL (SiteGrants.g_allowedOrigins g) (Some (SiteGrants.g_expiresAt g))
               | None => setActivePageAllowedOrigins new_URL [] None
               end);
  r ← st_get;
  policy ← match grant with
           | Some g =>
               if includes (authenticatedSiteKeys r) (authenticatedSiteKey (SiteGrants.g_taskId g) (SiteGrants.g_siteId g))
               then p ← st_lift (require (SiteGrants.g_siteId g) sitePolicies); st_ok (Some p)
               else st_ok None
           | None => st_ok None
           end;
  on_page (fun p => Ok (setActivePageRequestPolicy policy p)).

(** *** Opening an authorized site *)
(** Without a confirmation identifier: a confirmation is created. *)
Definition request_authorized_open (id site purpose : string) (task : BrowserTask) (t1 t2 : Z) :
    stm Runtime SiteGrants.PendingSiteConfirmation :=
  policy ← st_lift (require site sitePolicies);
  on_grants (SiteGrants.createConfirmation id task policy purpose t1 t2).
(** With one, up to [this.open]. *)
Definition begin_authorized_open (id site purpose : string) (task : BrowserTask) (t1 t2 t3 : Z) : stm Runtime unit :=
  policy ← st_lift (require site sitePolicies);
  grant ← on_grants_or_throw (SiteGrants.confirm id task policy purpose t1 t2);
  _ ← syncPrivateOriginActivation t3;
  _ ← match loginStrategy policy with
      | login_none => add_key (authenticatedSiteKey (taskId task) (siteId policy))
      | credential_broker => st_ok tt
      end;
  modify (fun r => with_openings (openings r ++ [mkOpening task policy grant]) r).
(** The page is open and authentication ended; [authenticated] when its status is
    performed, session-reused or not-required. *)
Definition authorized_open_done (o : Opening) (authenticated : bool) : stm Runtime unit :=
  if authenticated then
    _ ← add_key (authenticatedSiteKey (taskId (o_task o)) (siteId (o_policy o)));
    applyActivePageGrant (Some (o_grant o))
  else st_ok tt.
(** The [catch] of [openAuthorizedSite]. *)
Definition authorized_open_failed (o : Opening) (t : Z) : stm Runtime unit :=
  _ ← delete_key (authenticatedSiteKey (taskId (o_task o)) (siteId (o_policy o)));
  _ ← on_grants (SiteGrants.revokeTaskSite (taskId (o_task o)) (siteId (o_policy o)));
  syncPrivateOriginActivation t.

Definition revokeTaskSiteGrants (task : string) (t : Z) : stm Runtime unit :=
  _ ← modify (fun r => with_keys (List.filter (fun k => negb (startsWith k (task +:+ str1 NUL))) (authenticatedSiteKeys r)) r);
  _ ← on_grants (SiteGrants.revokeTask task);
  syncPrivateOriginActivation t.

(** *** Tabs *)
(** Where a persistent tab is restored: its URL with the origins of its grant, or a blank page. *)
Definition resolvePersistentRestoreTarget (task : option string) (targetUrl : string) (t : Z) :
    stm Runtime (string * option (list string * Z)) :=
  classified ← st_lift (classify targetUrl);
  match classified, task with
  | public_url _, _ => st_ok (targetUrl, None)
  | private_url _ policy, Some task =>
      grant ← on_grants (SiteGrants.grantForTaskSite task (siteId policy) t);
      st_ok (match grant with
             | Some g => (targetUrl, Some (SiteGrants.g_allowedOrigins g, SiteGrants.g_expiresAt g))
             | None => ("about:blank"%string, None)
             end)
  | _, _ => st_ok ("about:blank"%string, None)
  end.
Definition isBusinessReadOnlyTab (targetUrl : string) : result exn bool :=
  classified ← classify targetUrl;
  Ok (match classified with private_url _ policy => match accessMode policy with business_read_only => true end | _ => false end).
Definition authenticatedPolicyForTab (targetUrl : string) (task : option string) (r : Runtime) :
    result exn (option AuthorizedSitePolicy) :=
  classified ← classify targetUrl;
  Ok (match classified, task with
      | private_url _ policy, Some task =>
          if includes (authenticatedSiteKeys r) (authenticatedSiteKey task (siteId policy)) then Some policy else None
      | _, _ => None
      end).
(** Whether a permit is taken on the current page. *)
Definition acquireSemanticRequestPermit (strip_marks : string -> string) (targetUrl : string) (task : option string)
    (descriptors : list AuthorizedSiteSemanticActionDescriptor) : stm Runtime bool :=
  match descriptors with
  | [] => st_ok false
  | _ =>
      r ← st_get;
      policy ← st_lift (authenticatedPolicyForTab targetUrl task r);
      match policy with
      | Some policy =>
          if negb (bool_decide (requestPolicy policy = None))
             && forallb (isAuthorizedSiteSemanticActionAllowed strip_marks policy) descriptors
          then _ ← on_page (fun p => Ok (acquireActivePageSemanticRequestPermit p)); st_ok true
          else st_ok false
      | None => st_ok false
      end
  end.

Definition select_page (page : option nat) : stm Runtime unit :=
  fun r => match page ≫= fun p => pair p <$> pages r !! p with
           | Some (p, _) => (with_pages (pages r) (Some p) r, Ok tt)
           | None => (r, throw TAB_NOT_FOUND "The MCP tab does not have an active browser binding.")
           end.
(** [selectTab] with the enforcement of grants; the tab's page becomes current at the end
    ([page] is [None] when the tab has none). *)
Definition selectTab (task : option BrowserTask) (targetUrl : string) (page : option nat) (t1 t2 t3 : Z) : stm Runtime unit :=
  _ ← match task with
      | Some task => grant ← requireTargetGrant task targetUrl t1 t2 t3; applyActivePageGrant grant
      | None => st_ok tt
      end;
  select_page page.
(** A new page.  A popup starts with what its opener has. *)
Definition new_page (h : nat) (allowed : option (jsmap Expiry)) : stm Runtime unit :=
  modify (fun r => with_pages (<[h := mkPage allowed None None]> (pages r)) (Some h) r).
Definition newTabWithAllowedOrigins (h : nat) (origins : list string) (expiresAt : Expiry) : stm Runtime unit :=
  m ← st_lift (allowedOriginMap new_URL origins expiresAt); new_page h (Some m).
Definition popup (opener h : nat) : stm Runtime unit :=
  modify (fun r => match pages r !! opener with
                   | Some p => with_pages (<[h := p]> (pages r)) (current r) r
                   | None => r
                   end).
(** [open], for a tab that does not exist yet. *)
Definition open_tab (task : BrowserTask) (targetUrl : string) (h : nat) (t1 t2 t3 : Z) : stm Runtime unit :=
  grant ← requireTargetGrant task targetUrl t1 t2 t3;
  match grant with
  | Some g =>
      _ ← newTabWithAllowedOrigins h (SiteGrants.g_allowedOrigins g) (Some (SiteGrants.g_expiresAt g));
      applyActivePageGrant (Some g)
  | None => new_page h None
  end.

(** *** Operations *)
Inductive Op :=
| RequestOpen (id site purpose : string) (task : BrowserTask) (t1 t2 : Z)
| BeginOpen (id site purpose : string) (task : BrowserTask) (t1 t2 t3 : Z)
| OpenDone (i : nat) (authenticated : bool)
| OpenFailed (i : nat) (t : Z)
| Open (task : BrowserTask) (targetUrl : string) (h : nat) (t1 t2 t3 : Z)
| Select (task : option BrowserTask) (targetUrl : string) (page : option nat) (t1 t2 t3 : Z)
| RestoreTarget (task : option string) (targetUrl : string) (t : Z)
| RevokeTask (task : string) (t : Z)
| Sync (t : Z)
| Popup (opener h : nat)
| Traffic (host : string) (t : Z)
| SetQuarantine (quarantined : bool)
| StopGuard.

Definition readings (op : Op) : list Z :=
  match op with
  | RequestOpen _ _ _ _ t1 t2 => [t1; t2]
  | BeginOpen _ _ _ _ t1 t2 t3 | Open _ _ _ t1 t2 t3 | Select _ _ _ t1 t2 t3 => [t1; t2; t3]
  | OpenFailed _ t | RestoreTarget _ _ t | RevokeTask _ t | Sync t | Traffic _ t => [t]
  | OpenDone _ _ | Popup _ _ | SetQuarantine _ | StopGuard => []
  end.
(** The state after an operation, whether it returns or throws. *)
Definition run (op : Op) (r : Runtime) : Runtime :=
  match op with
  | RequestOpen id site purpose task t1 t2 => (request_authorized_open id site purpose task t1 t2 r).1
  | BeginOpen id site purpose task t1 t2 t3 => (begin_authorized_open id site purpose task t1 t2 t3 r).1
  | OpenDone i authenticated =>
      match openings r !! i with
      | Some o => (authorized_open_done o authenticated (with_openings (delete i (openings r)) r)).1
      | None => r
      end
  | OpenFailed i t =>
      match openings r !! i with
      | Some o => (authorized_open_failed o t (with_openings (delete i (openings r)) r)).1
      | None => r
      end
  | Open task url h t1 t2 t3 => (open_tab task url h t1 t2 t3 r).1
  | Select task url page t1 t2 t3 => (selectTab task url page t1 t2 t3 r).1
  | RestoreTarget task url t => (resolvePersistentRestoreTarget task url t r).1
  | RevokeTask task t => (revokeTaskSiteGrants task t r).1
  | Sync t => (syncPrivateOriginActivation t r).1
  | Popup opener h => (popup opener h r).1
  | Traffic host t => with_guard (isHostAllowed host t (guard r)).1 r
  | SetQuarantine q => with_guard (set_quarantine q (guard r)) r
  | StopGuard => with_guard (stop (guard r)) r
  end.

Definition new_runtime (g : BrowserNetworkGuardProxy) : Runtime := mkRuntime SiteGrants.new_registry [] g ∅ None [].
(** A clock that does not go back. *)
Fixpoint ascending (t : Z) (ts : list Z) : Prop :=
  match ts with [] => True | t' :: ts => t <= t' /\ ascending t' ts end.
Definition latest (t : Z) (ts : list Z) : Z := default t (list.last ts).
(** The runtime at the reading [t] of the clock. *)
Inductive reachable (g : BrowserNetworkGuardProxy) : Z -> Runtime -> Prop :=
| reachable_start t : 0 <= t -> reachable g t (new_runtime g)
| reachable_op t r op : reachable g t r -> ascending t (readings op) -> reachable g (latest t (readings op)) (run op r).
End Runtime.

(** *** Which origins are active *)
Section Activation.
Context (new_URL : string -> option NetworkUrl) (sitePolicies : BrowserSitePolicyRegistry).
Notation privates := (privateOriginValues sitePolicies).
Notation hostOf := (originHost new_URL).

Lemma inner_expiries e origins (m : jsmap Z) o :
  jm_get (fold_left (fun m origin => jm_set m origin (Z.max (default 0 (jm_get m origin)) e)) origins m) o =
  if bool_decide (o ∈ origins) then Some (Z.max (default 0 (jm_get m o)) e) else jm_get m o.
Proof.
  revert m. induction origins as [|x origins IH]; intros m; cbn [fold_left].
  { by rewrite bool_decide_false by apply not_elem_of_nil. }
  rewrite IH, jm_get_set. destruct (String.eqb_spec o x) as [->|Hn].
  - rewrite (bool_decide_true (x ∈ x :: origins)) by left. cbn [from_option]; unfold id. case_bool_decide; [f_equal; lia|done].
  - assert (bool_decide (o ∈ x :: origins) = bool_decide (o ∈ origins)) as ->; [|done].
    apply bool_decide_ext. rewrite elem_of_cons. naive_solver.
Qed.

(** The instant until which [gs] open an origin. *)
Lemma expiryByOrigin_spec gs o :
  match jm_get (expiryByOrigin gs) o with
  | None => forall g, g ∈ gs -> o ∉ SiteGrants.g_allowedOrigins g
  | Some x => 0 <= x /\ (forall g, g ∈ gs -> o ∈ SiteGrants.g_allowedOrigins g -> SiteGrants.g_expiresAt g <= x)
              /\ exists g, g ∈ gs /\ o ∈ SiteGrants.g_allowedOrigins g /\ x = Z.max 0 (SiteGrants.g_expiresAt g)
  end.
Proof.
  unfold expiryByOrigin. induction gs as [|g gs IH] using rev_ind; [by intros g []%not_elem_of_nil|].
  rewrite fold_left_app. cbn [fold_left]. rewrite inner_expiries. revert IH.
  match goal with |- context [jm_get ?m o] => generalize (jm_get m o) end. intros m IH.
  assert (Hin : forall g', g' ∈ gs ++ [g] <-> g' ∈ gs \/ g' = g) by (intros g'; by rewrite elem_of_app, list_elem_of_singleton).
  destruct (bool_decide_reflect (o ∈ SiteGrants.g_allowedOrigins g)) as [Ho|Ho].
  - destruct m as [x|]; cbn [from_option]; unfold id.
    + destruct IH as (H0 & Hle & g' & Hg' & Ho' & ->). split; [lia|]. split.
      * intros g1 [Hg1| ->]%Hin Ho1; [specialize (Hle g1 Hg1 Ho1)|]; lia.
      * destruct (Z.le_ge_cases (SiteGrants.g_expiresAt g) (Z.max 0 (SiteGrants.g_expiresAt g'))).
        -- exists g'. split_and!; [apply Hin; by left|done|lia].
        -- exists g. split_and!; [apply Hin; by right|done|lia].
    + split; [lia|]. split.
      * intros g1 [Hg1| ->]%Hin Ho1; [by destruct (IH g1 Hg1)|lia].
      * exists g. split_and!; [apply Hin; by right|done|lia].
  - destruct m as [x|].
    + destruct IH as (H0 & Hle & g' & Hg' & Ho' & ->). split_and!; [done| |exists g'; split_and!; [apply Hin; by left|done..]].
      intros g1 [Hg1| ->]%Hin Ho1; [by apply Hle|done].
    + intros g1 [Hg1| ->]%Hin; [by apply IH|done].
Qed.

(** The hosts that are enabled are private, and not denied. *)
Definition hosts_ok (g : BrowserNetworkGuardProxy) : Prop :=
  forall h e, jm_get (enabledPrivateHosts g) h = Some e -> h ∈ privateHosts g /\ h ∉ deniedHosts g.
Definition same_hosts (g' g : BrowserNetworkGuardProxy) : Prop :=
  privateHosts g' = privateHosts g /\ deniedHosts g' = deniedHosts g /\ quarantined g' = quarantined g.

Lemma with_guard_id r : with_guard (guard r) r = r.
Proof. by destruct r. Qed.

(** One origin is activated or not. *)
Lemma activate_one es o h r :
  hostOf o = Ok h -> hosts_ok (guard r) ->
  exists g', on_guard (match jm_get es o with None => disableOrigin new_URL o | Some x => enableOrigin new_URL o (Some x) end) r
             = (with_guard g' r, Ok tt)
    /\ same_hosts g' (guard r) /\ hosts_ok g'
    /\ (forall h', h' <> h -> jm_get (enabledPrivateHosts g') h' = jm_get (enabledPrivateHosts (guard r)) h')
    /\ jm_get (enabledPrivateHosts g') h =
         (if includes (privateHosts (guard r)) h && negb (includes (deniedHosts (guard r)) h)
          then Some <$> jm_get es o else None).
Proof.
  intros Ho Hok. unfold on_guard, enableOrigin, disableOrigin. rewrite Ho. cbn [mbind result_bind].
  assert (Hnone : includes (privateHosts (guard r)) h && negb (includes (deniedHosts (guard r)) h) = false ->
                  jm_get (enabledPrivateHosts (guard r)) h = None).
  { intros Hf. destruct (jm_get (enabledPrivateHosts (guard r)) h) as [e|] eqn:E; [|done]. destruct (Hok h e E) as [H1 H2].
    apply includes_spec in H1. apply includes_false in H2. by rewrite H1, H2 in Hf. }
  destruct (jm_get es o) as [x|].
  - assert (negb (includes (privateHosts (guard r)) h) || includes (deniedHosts (guard r)) h
            = negb (includes (privateHosts (guard r)) h && negb (includes (deniedHosts (guard r)) h))) as ->
      by (by destruct (includes (privateHosts _) h), (includes (deniedHosts _) h)).
    destruct (includes (privateHosts (guard r)) h && _) eqn:Ei; cbn [negb].
    + eexists. split; [reflexivity|]. cbn. split; [done|]. apply andb_prop in Ei as [E1 E2].
      split; [|split].
      * intros h' e. cbn. rewrite jm_get_set. destruct (String.eqb_spec h' h) as [->|]; [|apply Hok]. intros _.
        split; [by apply includes_spec|by apply includes_false, negb_true_iff].
      * intros h' Hn. by rewrite jm_get_set, (proj2 (String.eqb_neq _ _) Hn).
      * by rewrite jm_get_set, String.eqb_refl.
    + exists (guard r). split; [done|]. split_and!; [done..|]. by apply Hnone.
  - eexists. split; [reflexivity|]. cbn [with_enabled enabledPrivateHosts]. split; [done|]. split; [|split].
    + intros h' e. cbn [with_enabled enabledPrivateHosts]. rewrite jm_get_delete. destruct (h' =s h); [done|apply Hok].
    + intros h' Hn. by rewrite jm_get_delete, (proj2 (String.eqb_neq _ _) Hn).
    + rewrite jm_get_delete, String.eqb_refl. by destruct (_ && _).
Qed.

Lemma activate_spec es os r :
  (forall o, o ∈ os -> exists h, hostOf o = Ok h) -> hosts_ok (guard r) ->
  exists g', activate new_URL es os r = (with_guard g' r, Ok tt) /\ same_hosts g' (guard r) /\ hosts_ok g'
    /\ forall h e, jm_get (enabledPrivateHosts g') h = Some e ->
         (exists o x, o ∈ os /\ hostOf o = Ok h /\ jm_get es o = Some x /\ e = Some x)
         \/ jm_get (enabledPrivateHosts (guard r)) h = Some e /\ forall o, o ∈ os -> hostOf o <> Ok h.
Proof.
  revert r. induction os as [|o os IH]; intros r Hos Hok; cbn [activate].
  { exists (guard r). rewrite with_guard_id. split_and!; [done..|]. intros h e He. right.
    split; [done|]. by intros o []%not_elem_of_nil. }
  destruct (Hos o) as [h Ho]; [left|]. destruct (activate_one es o h r Ho Hok) as (g1 & E1 & Hsame1 & Hok1 & Hother & Hthis).
  destruct (IH (with_guard g1 r)) as (g' & E & Hsame & Hok' & Hg'); [by intros o' Ho'; apply Hos; right|exact Hok1|].
  exists g'. unfold mbind, stm_bind. rewrite E1, E. split; [done|].
  split; [unfold same_hosts in *; cbn in *; naive_solver congruence|]. split; [done|].
  intros h' e He. destruct (Hg' h' e He) as [(o' & x & Ho' & Hx)|[He1 Hno]].
  - left. exists o', x. split; [by right|done].
  - cbn [guard with_guard] in He1. destruct (decide (h' = h)) as [->|Hn].
    + rewrite Hthis in He1. destruct (_ && _); [|done]. apply fmap_Some in He1 as (x & Hx & ->).
      left. exists o, x. split; [left|done].
    + right. rewrite Hother in He1 by done. split; [done|]. intros o' [->|Ho']%elem_of_cons; [congruence|by apply Hno].
Qed.

(** *** The invariant *)
Context (Horigins : forall o, o ∈ privates -> exists h, hostOf o = Ok h).

Definition live (r : Runtime) (g : SiteGrants.BrowserSiteGrant) : Prop :=
  exists k, jm_get (SiteGrants.grants (siteGrants r)) k = Some g.
(** An enabled host has a grant of the registry that lists an origin of it, or its time is over. *)
Definition justified (t : Z) (r : Runtime) (h : string) (e : Expiry) : Prop :=
  (exists g o, live r g /\ o ∈ SiteGrants.g_allowedOrigins g /\ hostOf o = Ok h /\ e = Some (SiteGrants.g_expiresAt g))
  \/ exists x, e = Some x /\ x <= t.
Record Base (r : Runtime) : Prop := {
  b_calls : exists cs, siteGrants r = SiteGrants.calls cs;
  b_hosts : hosts_ok (guard r);
  b_private : forall h e, jm_get (enabledPrivateHosts (guard r)) h = Some e -> exists o, o ∈ privates /\ hostOf o = Ok h;
}.
Record Inv (t : Z) (r : Runtime) : Prop := {
  i_time : 0 <= t;
  i_base : Base r;
  i_justified : forall h e, jm_get (enabledPrivateHosts (guard r)) h = Some e -> justified t r h e;
}.

Lemma base_same r r' :
  Base r -> siteGrants r' = siteGrants r -> guard r' = guard r -> Base r'.
Proof. intros [H1 H2 H3] E1 E2. split; by rewrite ?E1, ?E2. Qed.
Lemma base_call c r : Base r -> Base (with_grants (SiteGrants.call c (siteGrants r)) r).
Proof.
  intros [[cs Hcs] H2 H3]. split; [|done|done]. exists (cs ++ [c]). cbn. rewrite Hcs. unfold SiteGrants.calls.
  by rewrite fold_left_app.
Qed.

(** The guard stays, the registry loses expired grants at most. *)
Lemma inv_weaken t t' r r' :
  Inv t r -> t <= t' -> Base r' -> guard r' = guard r ->
  (forall g, live r g -> live r' g \/ SiteGrants.g_expiresAt g <= t') -> Inv t' r'.
Proof.
  intros [H1 H2 H3] Ht Hb Hg Hl. split; [lia|done|]. intros h e. rewrite Hg. intros He.
  destruct (H3 h e He) as [(g & o & Hlive & Ho & Hh & ->)|(x & -> & Hx)]; [|right; exists x; split; [done|lia]].
  destruct (Hl g Hlive) as [Hl'|Hle]; [left; by exists g, o|right]. eauto.
Qed.
Lemma inv_same t t' r r' :
  Inv t r -> t <= t' -> siteGrants r' = siteGrants r -> guard r' = guard r -> Inv t' r'.
Proof.
  intros H Ht E1 E2. eapply inv_weaken; [exact H|done|by eapply base_same, E2; [apply (i_base _ _ H)|]|done|].
  intros g Hg. left. unfold live in *. by rewrite E1.
Qed.

Lemma live_pruned t r g : Base r -> live r g ->
  live (with_grants (SiteGrants.pruneExpired t (siteGrants r)) r) g \/ SiteGrants.g_expiresAt g <= t.
Proof.
  intros [[cs Hcs] _ _] [k Hk]. destruct (Z.le_gt_cases (SiteGrants.g_expiresAt g) t) as [|Hgt]; [by right|left].
  exists k. cbn. apply jm_get_filter.
  - rewrite Hcs. apply (SiteGrants.i_grants_wf _ _ (SiteGrants.inv_calls cs)).
  - split; [done|]. cbn. by apply negb_true_iff, Z.leb_gt.
Qed.

Lemma sync_inv t r :
  0 <= t -> Base r ->
  exists r', syncPrivateOriginActivation new_URL sitePolicies t r = (r', Ok tt) /\ Inv t r'
    /\ siteGrants r' = SiteGrants.pruneExpired t (siteGrants r) /\ openings r' = openings r.
Proof.
  intros Ht Hb.
  set (reg := SiteGrants.pruneExpired t (siteGrants r)). set (gs := jm_values (SiteGrants.grants reg)).
  destruct (activate_spec (expiryByOrigin gs) privates (with_grants reg r) Horigins) as (g' & E & Hsame & Hok & Hg');
    [exact (b_hosts _ Hb)|].
  exists (with_guard g' (with_grants reg r)). 
  split; [exact E|]. split; [|done].
  assert (Hcover : forall h e, jm_get (enabledPrivateHosts g') h = Some e ->
            exists o x, o ∈ privates /\ hostOf o = Ok h /\ jm_get (expiryByOrigin gs) o = Some x /\ e = Some x).
  { intros h e He. destruct (Hg' h e He) as [?|[He1 Hno]]; [done|]. destruct (b_private _ Hb h e He1) as (o & Ho & Hh).
    by destruct (Hno o Ho). }
  split; [done| |].
  - split; [|done|].
    + apply (b_calls _ (base_call (SiteGrants.ActiveGrants t) r Hb)).
    + intros h e He. destruct (Hcover h e He) as (o & x & Ho & Hh & _). by exists o.
  - intros h e He. destruct (Hcover h e He) as (o & x & Ho & Hh & Hx & ->).
    pose proof (expiryByOrigin_spec gs o) as Hs. rewrite Hx in Hs. destruct Hs as (_ & _ & g & Hg & Hog & ->).
    left. exists g, o. split; [|split; [done|split; [done|]]].
    + unfold gs, jm_values in Hg. apply list_elem_of_In, in_map_iff in Hg as ([k g1] & <- & Hin). exists k.
      cbn. apply jm_in_get; [|by apply list_elem_of_In]. destruct (b_calls _ Hb) as [cs Hcs].
      apply jm_wf_filter. rewrite Hcs. apply (SiteGrants.i_grants_wf _ _ (SiteGrants.inv_calls cs)).
    + f_equal. unfold gs, jm_values in Hg. apply list_elem_of_In, in_map_iff in Hg as ([k g1] & <- & Hin).
      apply filter_In in Hin as [_ Hf]. cbn in *. apply negb_true_iff, Z.leb_gt in Hf. lia.
Qed.

(** *** The operations *)
(** A method that touches neither the registry nor the guard. *)
Definition core_same {A} (m : stm Runtime A) : Prop :=
  forall r, siteGrants (m r).1 = siteGrants r /\ guard (m r).1 = guard r.
Lemma core_bind {A B} (m : stm Runtime A) (f : A -> stm Runtime B) :
  core_same m -> (forall a, core_same (f a)) -> core_same (m ≫= f).
Proof.
  intros Hm Hf r. unfold mbind, stm_bind. destruct (Hm r) as [E1 E2]. destruct (m r) as [r1 [a|e]]; cbn in *; [|done].
  destruct (Hf a r1) as [E3 E4]. split; congruence.
Qed.
Lemma core_ok {A} (a : A) : core_same (st_ok a).
Proof. by intros r. Qed.
Lemma core_lift {A} (x : result exn A) : core_same (st_lift x).
Proof. by intros r. Qed.
Lemma core_on_page f : core_same (on_page f).
Proof. intros r. unfold on_page. destruct (_ ≫= _) as [[c p]|]; [|done]. by destruct (f p). Qed.
Lemma core_apply g : core_same (applyActivePageGrant new_URL sitePolicies g).
Proof.
  unfold applyActivePageGrant. apply core_bind; [apply core_on_page|intros _]. apply core_bind; [by intros r|intros r].
  apply core_bind; [|intros p; apply core_on_page]. destruct g as [g|]; [|apply core_ok].
  destruct (includes _ _); [|apply core_ok]. apply core_bind; [apply core_lift|intros p; apply core_ok].
Qed.
Lemma core_add_key k : core_same (add_key k).
Proof. intros r. unfold add_key, modify. cbn. by destruct (includes _ _). Qed.

Lemma inv_core {A} (m : stm Runtime A) t t' r : core_same m -> Inv t r -> t <= t' -> Inv t' (m r).1.
Proof. intros Hm HI Ht. destruct (Hm r) as [E1 E2]. by eapply inv_same. Qed.

(** A call of the registry that removes nothing but expired entries. *)
Lemma inv_pruned t t1 c r :
  Inv t r -> t <= t1 ->
  SiteGrants.grants (SiteGrants.call c (siteGrants r)) = SiteGrants.grants (SiteGrants.pruneExpired t1 (siteGrants r)) ->
  Inv t1 (with_grants (SiteGrants.call c (siteGrants r)) r).
Proof.
  intros HI Ht Hg. eapply inv_weaken; [exact HI|done|by apply base_call, (i_base _ _ HI)|done|].
  intros g Hl. destruct (live_pruned t1 r g (i_base _ _ HI) Hl) as [[k Hk]|]; [left; exists k|by right].
  cbn in *. by rewrite Hg.
Qed.

Lemma inv_requireTarget t r task url t1 t2 t3 :
  Inv t r -> t <= t3 ->
  Inv t3 (requireTargetGrant new_URL sitePolicies task url t1 t2 t3 r).1.
Proof.
  intros HI Ht. unfold requireTargetGrant. unfold mbind at 1, stm_bind at 1, st_lift.
  destruct (classify new_URL sitePolicies url) as [[o|o policy|o]|e]; cbn [fst]; [|..]; try by (eapply inv_same; [exact HI|..]).
  pose proof (base_call (SiteGrants.RequireGrant task policy t1 t2) r (i_base _ _ HI)) as Hb. cbn [SiteGrants.call] in Hb.
  unfold catch_with, on_grants_or_throw, mbind, stm_bind, st_ok.
  destruct (SiteGrants.requireGrant task policy t1 t2 (siteGrants r)) as [reg [g|e]] eqn:E; cbn [fst] in Hb.
  - cbn [fst]. eapply inv_weaken; [exact HI|done|exact Hb|done|]. intros g' Hl. left. unfold live in *. cbn.
    unfold SiteGrants.requireGrant in E. destruct (jm_get _ _); [|done]. destruct (negb _); [done|].
    destruct (_ <=? t2); [done|]. injection E as <- _. exact Hl.
  - destruct (sync_inv t3 (with_grants reg r)) as (r' & -> & HI' & _); [pose proof (i_time _ _ HI); lia|exact Hb|done].
Qed.

Lemma inv_begin_open t r id site purpose task t1 t2 t3 :
  Inv t r -> t <= t1 -> t1 <= t3 ->
  Inv t3 (begin_authorized_open new_URL sitePolicies id site purpose task t1 t2 t3 r).1.
Proof.
  intros HI Ht Ht'. unfold begin_authorized_open. unfold mbind at 1, stm_bind at 1, st_lift.
  destruct (require site sitePolicies) as [policy|e]; [|by eapply inv_same; [exact HI|lia|..]].
  pose proof (base_call (SiteGrants.Confirm id task policy purpose t1 t2) r (i_base _ _ HI)) as Hb. cbn [SiteGrants.call] in Hb.
  pose proof (inv_pruned t t1 (SiteGrants.Confirm id task policy purpose t1 t2) r HI Ht) as Hp. cbn [SiteGrants.call] in Hp.
  unfold mbind at 1, stm_bind at 1, on_grants_or_throw.
  destruct (SiteGrants.confirm id task policy purpose t1 t2 (siteGrants r)) as [reg [g|e]] eqn:E; cbn [fst] in *.
  - unfold mbind at 1, stm_bind at 1.
    destruct (sync_inv t3 (with_grants reg r)) as (r' & -> & HI' & _); [pose proof (i_time _ _ HI); lia|exact Hb|].
    apply (inv_core _ t3); [|done|lia]. apply core_bind; [|intros _; by intros x].
    destruct (loginStrategy policy); [apply core_add_key|apply core_ok].
  - eapply inv_same; [apply Hp|lia|done|done]. unfold SiteGrants.confirm in E. destruct (jm_get _ _); [|by injection E as <- _].
    destruct (negb _); [by injection E as <- _|done].
Qed.

Lemma inv_after_revoke {A} t r (c : SiteGrants.Call) (f : SiteGrants.Registry -> SiteGrants.Registry * A) t' :
  0 <= t' -> Base r -> (forall reg, (f reg).1 = SiteGrants.call c reg) -> t <= t' ->
  Inv t' ((_ ← on_grants f; syncPrivateOriginActivation new_URL sitePolicies t') r).1.
Proof.
  intros H0 Hb Hf Ht. unfold mbind, stm_bind, on_grants. specialize (Hf (siteGrants r)).
  destruct (f (siteGrants r)) as [reg a]. cbn in Hf. subst reg.
  destruct (sync_inv t' (with_grants (SiteGrants.call c (siteGrants r)) r) H0) as (r' & E & HI & _); [by apply base_call|].
  by rewrite E.
Qed.

Lemma inv_failed t r o t' :
  Inv t r -> t <= t' -> Inv t' (authorized_open_failed new_URL sitePolicies o t' r).1.
Proof.
  intros HI Ht. unfold authorized_open_failed, delete_key, modify. unfold mbind at 1, stm_bind at 1.
  eapply (inv_after_revoke t _ (SiteGrants.RevokeTaskSite (taskId (o_task o)) (siteId (o_policy o)))); [|..|done|exact Ht].
  - pose proof (i_time _ _ HI). lia.
  - by eapply base_same; [apply (i_base _ _ HI)|..].
Qed.

Lemma inv_revoke t r task t' :
  Inv t r -> t <= t' -> Inv t' (revokeTaskSiteGrants new_URL sitePolicies task t' r).1.
Proof.
  intros HI Ht. unfold revokeTaskSiteGrants, modify. unfold mbind at 1, stm_bind at 1.
  eapply (inv_after_revoke t _ (SiteGrants.RevokeTask task)); [|..|done|exact Ht].
  - pose proof (i_time _ _ HI). lia.
  - by eapply base_same; [apply (i_base _ _ HI)|..].
Qed.

(** The guard loses hosts at most. *)
Lemma inv_guard t t' r g :
  Inv t r -> t <= t' -> privateHosts g = privateHosts (guard r) -> deniedHosts g = deniedHosts (guard r) ->
  (forall h e, jm_get (enabledPrivateHosts g) h = Some e -> jm_get (enabledPrivateHosts (guard r)) h = Some e) ->
  Inv t' (with_guard g r).
Proof.
  intros [H1 [Hc Hh Hp] H3] Ht E1 E2 Hsub. split; [lia|split; [done| |]|]; cbn.
  - intros h e He. rewrite E1, E2. by eapply Hh, Hsub.
  - intros h e He. by eapply Hp, Hsub.
  - intros h e He. destruct (H3 h e (Hsub h e He)) as [?|(x & -> & ?)]; [by left|right]. exists x. split; [done|lia].
Qed.

Lemma inv_open t r task url h t1 t2 t3 :
  Inv t r -> t <= t3 -> Inv t3 (open_tab new_URL sitePolicies task url h t1 t2 t3 r).1.
Proof.
  intros HI Ht. pose proof (inv_requireTarget t r task url t1 t2 t3 HI Ht) as HR. unfold open_tab.
  unfold mbind at 1, stm_bind at 1. destruct (requireTargetGrant _ _ _ _ _ _ _ r) as [r1 [g|e]]; [|done].
  apply (inv_core _ t3); [|exact HR|lia]. destruct g as [g|]; [|by intros x].
  apply core_bind; [|intros _; apply core_apply]. apply core_bind; [apply core_lift|intros m; by intros x].
Qed.

Lemma inv_select t r task url page t1 t2 t3 :
  Inv t r -> t <= t3 -> Inv t3 (selectTab new_URL sitePolicies task url page t1 t2 t3 r).1.
Proof.
  intros HI Ht. unfold selectTab.
  assert (Hp : core_same (select_page page)) by (intros x; unfold select_page; by destruct (_ ≫= _) as [[]|]).
  destruct task as [task|].
  - pose proof (inv_requireTarget t r task url t1 t2 t3 HI Ht) as HR. unfold mbind at 1 2, stm_bind at 1 2.
    destruct (requireTargetGrant _ _ _ _ _ _ _ r) as [r1 [g|e]]; [|done].
    pose proof (inv_core (applyActivePageGrant new_URL sitePolicies g) t3 t3 r1 (core_apply g) HR (Z.le_refl _)) as HA.
    destruct (applyActivePageGrant new_URL sitePolicies g r1) as [r2 [[]|e]]; [|done].
    by apply (inv_core _ t3); [|exact HA|].
  - apply (inv_core _ t); [|done|lia]. apply core_bind; [apply core_ok|done].
Qed.

Lemma latest_le t ts : ascending t ts -> t <= latest t ts.
Proof.
  unfold latest. revert t. induction ts as [|x ts IH]; intros t; cbn; [lia|]. intros [H1 H2]. specialize (IH x H2).
  destruct ts as [|y ts]; cbn in *; [lia|]. destruct (list.last (y :: ts)) eqn:E; [cbn in *; lia|].
  apply last_None in E. done.
Qed.

Lemma traffic_guard value now g :
  privateHosts (isHostAllowed value now g).1 = privateHosts g /\ deniedHosts (isHostAllowed value now g).1 = deniedHosts g
  /\ forall h e, jm_get (enabledPrivateHosts (isHostAllowed value now g).1) h = Some e -> jm_get (enabledPrivateHosts g) h = Some e.
Proof.
  unfold isHostAllowed, isPrivateHostEnabled. destruct (includes (deniedHosts g) _); [done|]. destruct (negb _); [done|].
  destruct (quarantined g); [done|]. destruct (jm_get _ _) as [e|]; [|done]. destruct (expired now e); [|done].
  split_and!; [done..|]. cbn [fst with_enabled enabledPrivateHosts]. intros h e'. rewrite jm_get_delete. by destruct (h =s _).
Qed.

Lemma inv_run t r op : Inv t r -> ascending t (readings op) -> Inv (latest t (readings op)) (run new_URL sitePolicies op r).
Proof.
  intros HI Ha. pose proof (latest_le _ _ Ha) as Hle.
  destruct op as [cid site purpose task t1 t2|cid site purpose task t1 t2 t3|i authenticated|i t0|task url h t1 t2 t3|task url page t1 t2 t3
    |task url t0|task t0|t0|opener h|host t0|q|]; cbn [readings run] in *; unfold latest in *; cbn [list.last from_option ascending] in *;
    unfold id in *.
  - unfold request_authorized_open. unfold mbind at 1, stm_bind at 1, st_lift.
    destruct (require site sitePolicies) as [policy|e]; [|by eapply inv_same; [exact HI|..]].
    eapply (inv_same t1); [|lia|..]; [eapply (inv_pruned t t1 (SiteGrants.CreateConfirmation cid task policy purpose t1 t2) r HI)|..]; try done; lia.
  - apply (inv_begin_open t); [done|lia..].
  - destruct (openings r !! i) as [o|]; [|done].
    assert (Ho : Inv t (with_openings (delete i (openings r)) r)) by (by eapply inv_same; [exact HI|..]).
    unfold authorized_open_done. destruct authenticated; [|done]. apply (inv_core _ t); [|done|lia].
    apply core_bind; [apply core_add_key|intros _; apply core_apply].
  - destruct (openings r !! i) as [o|]; [|by eapply inv_same; [exact HI|..]].
    apply (inv_failed t); [by eapply inv_same; [exact HI|..]|lia].
  - apply (inv_open t); [done|lia].
  - apply (inv_select t); [done|lia].
  - unfold resolvePersistentRestoreTarget. unfold mbind at 1, stm_bind at 1, st_lift.
    destruct (classify new_URL sitePolicies url) as [c|e]; [|by eapply inv_same; [exact HI|..]].
    destruct c as [o|o policy|o], task as [task|]; try by (eapply inv_same; [exact HI|..]).
    by apply (inv_pruned t t0 (SiteGrants.GrantForTaskSite task (siteId policy) t0) r HI).
  - by apply (inv_revoke t).
  - destruct (sync_inv t0 r) as (r' & -> & HI' & _); [pose proof (i_time _ _ HI); lia|apply (i_base _ _ HI)|done].
  - apply (inv_core _ t); [|done|lia]. intros x. unfold popup, modify. cbn. by destruct (pages x !! opener).
  - destruct (traffic_guard host t0 (guard r)) as (E1 & E2 & Hsub). by apply (inv_guard t).
  - by eapply (inv_guard t).
  - by eapply (inv_guard t).
Qed.

Lemma runtime_reachable_inv g t r :
  enabledPrivateHosts g = [] -> reachable new_URL sitePolicies g t r -> Inv t r.
Proof.
  intros Hg. induction 1 as [t Ht|t r op _ IH Ha]; [|by apply inv_run].
  split; [done|split|]; cbn.
  - by exists [].
  - intros h e. cbn. by rewrite Hg.
  - intros h e. by rewrite Hg.
  - intros h e. by rewrite Hg.
Qed.

Lemma host_allowed_cases value now g :
  (isHostAllowed value now g).2 = true ->
  normalizeHost value ∉ deniedHosts g /\ (normalizeHost value ∈ privateHosts g ->
    quarantined g = false /\ exists e, jm_get (enabledPrivateHosts g) (normalizeHost value) = Some e /\ expired now e = false).
Proof.
  unfold isHostAllowed. destruct (includes (deniedHosts g) _) eqn:Ed; [done|]. apply includes_false in Ed.
  destruct (includes (privateHosts g) _) eqn:Ep; cbn [negb]; [|intros _; split; [done|]; by apply includes_false in Ep].
  unfold isPrivateHostEnabled. destruct (quarantined g); [done|]. destruct (jm_get _ _) as [e|]; [|done].
  destruct (expired now e) eqn:Ee; [done|]. intros _. split; [done|]. intros _. split; [done|]. by exists e.
Qed.

(** *** Where the grants of a run come from *)
Definition runs (ops : list Op) (r : Runtime) : Runtime := fold_left (fun r op => run new_URL sitePolicies op r) ops r.
Lemma runs_snoc ops op r : runs (ops ++ [op]) r = run new_URL sitePolicies op (runs ops r).
Proof. unfold runs. by rewrite fold_left_app. Qed.
Lemma latest_cons t x xs : latest t (x :: xs) = latest x xs.
Proof. unfold latest. rewrite last_cons. by destruct (list.last xs). Qed.
Lemma ascending_app t xs ys : ascending t (xs ++ ys) <-> ascending t xs /\ ascending (latest t xs) ys.
Proof. revert t. induction xs as [|x xs IH]; intros t; [cbn; tauto|]. rewrite latest_cons. cbn. rewrite IH. tauto. Qed.
Lemma latest_app t xs ys : latest t (xs ++ ys) = latest (latest t xs) ys.
Proof. unfold latest. rewrite last_app. by destruct (list.last ys). Qed.
Lemma runs_reachable g t ops : 0 <= t -> ascending t (flat_map readings ops) ->
  reachable new_URL sitePolicies g (latest t (flat_map readings ops)) (runs ops (new_runtime g)).
Proof.
  intros H0. induction ops as [|op ops IH] using rev_ind; [by constructor|]. rewrite flat_map_app. cbn [flat_map].
  rewrite app_nil_r, ascending_app, latest_app, runs_snoc. intros [H1 H2]. constructor; [by apply IH|done].
Qed.

(** The operation takes the grant away in the state [r]: its task is finished, or an opening of its site by its task failed. *)
Definition revokes (r : Runtime) (op : Op) (gr : SiteGrants.BrowserSiteGrant) : Prop :=
  match op with
  | RevokeTask task _ => task = SiteGrants.g_taskId gr
  | OpenFailed i _ => exists o, openings r !! i = Some o
      /\ taskId (o_task o) = SiteGrants.g_taskId gr /\ siteId (o_policy o) = SiteGrants.g_siteId gr
  | _ => False
  end.
(** The confirmation was asked for, for this task, owner, site and purpose. *)
Definition asked (ops : list Op) (id : string) (p : SiteGrants.PendingSiteConfirmation) : Prop :=
  exists site task policy s1 s2, RequestOpen id site (SiteGrants.pc_purpose p) task s1 s2 ∈ ops
    /\ require site sitePolicies = Ok policy
    /\ p = SiteGrants.mkPending (taskId task) (ownerScopeHash task) (siteId policy) (SiteGrants.pc_purpose p) (s2 + SiteGrants.CONFIRMATION_TTL_MS).
(** The grant was given by an opening of the site with a confirmation that had been asked for and had not expired,
    and no operation after that revoked it. *)
Definition given (g : BrowserNetworkGuardProxy) (ops : list Op) (gr : SiteGrants.BrowserSiteGrant) : Prop :=
  exists pre id site purpose task t1 t2 t3 post policy p,
    ops = pre ++ BeginOpen id site purpose task t1 t2 t3 :: post
    /\ require site sitePolicies = Ok policy
    /\ gr = SiteGrants.mkGrant (taskId task) (ownerScopeHash task) (siteId policy) (allowedOrigins policy)
              (Z.min (expiresAt task) (t2 + SiteGrants.GRANT_TTL_MS))
    /\ asked pre id p
    /\ p = SiteGrants.mkPending (taskId task) (ownerScopeHash task) (siteId policy) purpose (SiteGrants.pc_expiresAt p)
    /\ t1 < SiteGrants.pc_expiresAt p
    /\ forall post1 op post2, post = post1 ++ op :: post2 ->
         ~ revokes (runs (pre ++ BeginOpen id site purpose task t1 t2 t3 :: post1) (new_runtime g)) op gr.

(** What an operation makes of the registry, but for entries that go. *)
Definition registry_after (op : Op) (r : Runtime) : SiteGrants.Registry :=
  match op with
  | RequestOpen id site purpose task t1 t2 =>
      match require site sitePolicies with
      | Ok policy => (SiteGrants.createConfirmation id task policy purpose t1 t2 (siteGrants r)).1
      | Err _ => siteGrants r
      end
  | BeginOpen id site purpose task t1 t2 _ =>
      match require site sitePolicies with
      | Ok policy => (SiteGrants.confirm id task policy purpose t1 t2 (siteGrants r)).1
      | Err _ => siteGrants r
      end
  | OpenFailed i _ =>
      match openings r !! i with
      | Some o => (SiteGrants.revokeTaskSite (taskId (o_task o)) (siteId (o_policy o)) (siteGrants r)).1
      | None => siteGrants r
      end
  | RevokeTask task _ => (SiteGrants.revokeTask task (siteGrants r)).1
  | _ => siteGrants r
  end.
Definition wf_registry (reg : SiteGrants.Registry) : Prop := jm_wf (SiteGrants.pending reg) /\ jm_wf (SiteGrants.grants reg).
Lemma base_wf r : Base r -> wf_registry (siteGrants r).
Proof. intros [[cs ->] _ _]. split; apply (SiteGrants.inv_calls cs). Qed.
Lemma smaller_refl reg : wf_registry reg -> SiteGrants.smaller reg reg.
Proof. by intros [? ?]. Qed.
Lemma prune_smaller t reg : wf_registry reg -> SiteGrants.smaller (SiteGrants.pruneExpired t reg) reg.
Proof. intros [? ?]. by apply SiteGrants.pruneExpired_smaller. Qed.
Lemma sync_smaller t r : 0 <= t -> Base r ->
  SiteGrants.smaller (siteGrants (syncPrivateOriginActivation new_URL sitePolicies t r).1) (siteGrants r).
Proof. intros H0 Hb. destruct (sync_inv t r H0 Hb) as (r' & -> & _ & E & _). cbn [fst]. rewrite E. by apply prune_smaller, base_wf. Qed.
Lemma require_smaller task policy t1 t2 reg : wf_registry reg -> SiteGrants.smaller (SiteGrants.requireGrant task policy t1 t2 reg).1 reg.
Proof.
  intros [H1 H2]. assert (Hp : SiteGrants.smaller (SiteGrants.pruneExpiredConfirmations t1 reg) reg).
  { split_and!; cbn [SiteGrants.grants SiteGrants.pending SiteGrants.pruneExpiredConfirmations]; [by apply jm_wf_filter|done| |done]. by intros id p [? _]%jm_get_filter. }
  unfold SiteGrants.requireGrant. destruct (jm_get _ _); [|done]. destruct (negb _); [done|]. destruct (_ <=? _); [|done].
  eapply SiteGrants.smaller_trans; [|exact Hp].
  split_and!; cbn [fst SiteGrants.grants SiteGrants.pending SiteGrants.pruneExpiredConfirmations]; [by apply jm_wf_filter|by apply jm_wf_delete|done|].
  intros k g. rewrite jm_get_delete. by destruct (k =s _).
Qed.
Lemma target_smaller task url t1 t2 t3 r : 0 <= t3 -> Base r ->
  SiteGrants.smaller (siteGrants (requireTargetGrant new_URL sitePolicies task url t1 t2 t3 r).1) (siteGrants r).
Proof.
  intros H0 Hb. pose proof (base_wf r Hb) as Hwf. unfold requireTargetGrant. unfold mbind at 1, stm_bind at 1, st_lift.
  destruct (classify new_URL sitePolicies url) as [[o|o policy|o]|e]; cbn [fst]; [by apply smaller_refl|..]; try by apply smaller_refl.
  pose proof (base_call (SiteGrants.RequireGrant task policy t1 t2) r Hb) as Hb'. cbn [SiteGrants.call] in Hb'.
  pose proof (require_smaller task policy t1 t2 (siteGrants r) Hwf) as Hs.
  unfold catch_with, on_grants_or_throw, mbind, stm_bind, st_ok.
  destruct (SiteGrants.requireGrant task policy t1 t2 (siteGrants r)) as [reg [g|e]]; cbn [fst] in *; [exact Hs|].
  pose proof (sync_smaller t3 (with_grants reg r) H0 Hb') as Hs'.
  destruct (syncPrivateOriginActivation _ _ _ _) as [r' [[]|e']]; cbn [fst] in *; by eapply SiteGrants.smaller_trans.
Qed.
Lemma core_registry {A} (m : stm Runtime A) r : core_same m -> siteGrants (m r).1 = siteGrants r.
Proof. intros H. apply H. Qed.
Lemma begin_smaller id site purpose task t1 t2 t3 r : 0 <= t3 -> Base r ->
  SiteGrants.smaller (siteGrants (begin_authorized_open new_URL sitePolicies id site purpose task t1 t2 t3 r).1)
    (registry_after (BeginOpen id site purpose task t1 t2 t3) r).
Proof.
  intros H0 Hb. unfold begin_authorized_open. cbn [registry_after]. unfold mbind at 1, stm_bind at 1, st_lift.
  destruct (require site sitePolicies) as [policy|e]; [|by apply smaller_refl, base_wf].
  pose proof (base_call (SiteGrants.Confirm id task policy purpose t1 t2) r Hb) as Hb'. cbn [SiteGrants.call] in Hb'.
  unfold mbind at 1, stm_bind at 1, on_grants_or_throw.
  destruct (SiteGrants.confirm id task policy purpose t1 t2 (siteGrants r)) as [reg [g|e]]; cbn [fst] in *; [|exact (smaller_refl _ (base_wf _ Hb'))].
  pose proof (sync_smaller t3 (with_grants reg r) H0 Hb') as Hs. unfold mbind at 1, stm_bind at 1.
  destruct (syncPrivateOriginActivation _ _ _ _) as [r' [[]|e]]; cbn [fst] in *; [|exact Hs].
  rewrite core_registry; [exact Hs|]. apply core_bind; [|intros _; by intros x]. destruct (loginStrategy policy); [apply core_add_key|apply core_ok].
Qed.
Lemma revoke_smaller {A} (c : SiteGrants.Call) (f : SiteGrants.Registry -> SiteGrants.Registry * A) t r :
  0 <= t -> Base r -> (forall reg, (f reg).1 = SiteGrants.call c reg) ->
  SiteGrants.smaller (siteGrants ((_ ← on_grants f; syncPrivateOriginActivation new_URL sitePolicies t) r).1) (f (siteGrants r)).1.
Proof.
  intros H0 Hb Hf. pose proof (base_call c r Hb) as Hb'. unfold mbind, stm_bind, on_grants. specialize (Hf (siteGrants r)).
  destruct (f (siteGrants r)) as [reg a]. cbn [fst] in *. subst reg. exact (sync_smaller t _ H0 Hb').
Qed.
Lemma run_registry t r op : Inv t r -> ascending t (readings op) ->
  SiteGrants.smaller (siteGrants (run new_URL sitePolicies op r)) (registry_after op r).
Proof.
  intros HI Ha. pose proof (i_base _ _ HI) as Hb. pose proof (base_wf r Hb) as Hwf. pose proof (i_time _ _ HI) as H0.
  pose proof (smaller_refl _ Hwf) as Hrefl.
  destruct op as [cid site purpose task t1 t2|cid site purpose task t1 t2 t3|i authenticated|i t0|task url h t1 t2 t3|task url page t1 t2 t3
    |task url t0|task t0|t0|opener h|host t0|q|]; cbn [readings run ascending] in *; try exact Hrefl.
  - unfold request_authorized_open. cbn [registry_after]. unfold mbind at 1, stm_bind at 1, st_lift.
    destruct (require site sitePolicies) as [policy|e]; [|exact Hrefl]. apply smaller_refl.
    exact (base_wf _ (base_call (SiteGrants.CreateConfirmation cid task policy purpose t1 t2) r Hb)).
  - apply begin_smaller; [lia|done].
  - destruct (openings r !! i) as [o|]; [|exact Hrefl]. unfold authorized_open_done. destruct authenticated; [|exact Hrefl].
    rewrite core_registry; [exact Hrefl|]. apply core_bind; [apply core_add_key|intros _; apply core_apply].
  - cbn [registry_after]. destruct (openings r !! i) as [o|]; [|exact Hrefl]. unfold authorized_open_failed, delete_key, modify.
    unfold mbind at 1, stm_bind at 1.
    refine (revoke_smaller (SiteGrants.RevokeTaskSite (taskId (o_task o)) (siteId (o_policy o))) _ t0 (with_keys _ (with_openings _ r)) _ _ _); [lia| |done].
    by eapply base_same; [exact Hb|..].
  - unfold open_tab. unfold mbind at 1, stm_bind at 1. pose proof (target_smaller task url t1 t2 t3 r ltac:(lia) Hb) as Hs.
    destruct (requireTargetGrant _ _ _ _ _ _ _ r) as [r1 [g|e]]; [|exact Hs]. rewrite core_registry; [exact Hs|].
    destruct g as [g|]; [|by intros x]. apply core_bind; [|intros _; apply core_apply]. apply core_bind; [apply core_lift|intros m; by intros x].
  - unfold selectTab. assert (Hp : core_same (select_page page)) by (intros x; unfold select_page; by destruct (_ ≫= _) as [[]|]).
    destruct task as [task|]; [|rewrite core_registry; [exact Hrefl|]; by apply core_bind; [apply core_ok|]].
    unfold mbind at 1 2, stm_bind at 1 2. pose proof (target_smaller task url t1 t2 t3 r ltac:(lia) Hb) as Hs.
    destruct (requireTargetGrant _ _ _ _ _ _ _ r) as [r1 [g|e]]; [|exact Hs].
    pose proof (core_registry (applyActivePageGrant new_URL sitePolicies g) r1 (core_apply g)) as E. cbn [fst] in Hs. rewrite <- E in Hs.
    destruct (applyActivePageGrant new_URL sitePolicies g r1) as [r2 [[]|e]]; [|exact Hs]. by rewrite core_registry.
  - unfold resolvePersistentRestoreTarget. unfold mbind at 1, stm_bind at 1, st_lift.
    destruct (classify new_URL sitePolicies url) as [c|e]; [|exact Hrefl].
    destruct c as [o|o policy|o], task as [task|]; try exact Hrefl. exact (prune_smaller t0 _ Hwf).
  - unfold revokeTaskSiteGrants, modify. unfold mbind at 1, stm_bind at 1.
    refine (revoke_smaller (SiteGrants.RevokeTask task) _ t0 (with_keys _ r) _ _ _); [lia| |done]. by eapply base_same; [exact Hb|..].
  - apply sync_smaller; [lia|done].
  - rewrite core_registry; [exact Hrefl|]. intros x. unfold popup, modify. cbn. by destruct (pages x !! opener).
Qed.

(** Where what the registry has comes from. *)
Definition traced (g : BrowserNetworkGuardProxy) (ops : list Op) (reg : SiteGrants.Registry) : Prop :=
  (forall id p, jm_get (SiteGrants.pending reg) id = Some p -> asked ops id p)
  /\ forall k gr, jm_get (SiteGrants.grants reg) k = Some gr ->
       k = SiteGrants.grantKey (SiteGrants.g_taskId gr) (SiteGrants.g_siteId gr) /\ given g ops gr.
Lemma asked_snoc ops op id p : asked ops id p -> asked (ops ++ [op]) id p.
Proof. intros (site & task & policy & s1 & s2 & H & Hr). exists site, task, policy, s1, s2. split; [apply elem_of_app; by left|done]. Qed.
Lemma given_snoc g ops op gr : given g ops gr -> ~ revokes (runs ops (new_runtime g)) op gr -> given g (ops ++ [op]) gr.
Proof.
  intros (pre & id & site & purpose & task & t1 & t2 & t3 & post & policy & p & -> & Hq & Hg & Ha & Hp & Ht & Hpost) Hn.
  exists pre, id, site, purpose, task, t1, t2, t3, (post ++ [op]), policy, p. rewrite <- app_assoc. split_and!; try done.
  intros post1 op' post2 E. destruct post2 as [|x post2 _] using rev_ind.
  - apply app_inj_tail in E as [-> ->]. exact Hn.
  - rewrite app_comm_cons, app_assoc in E. apply app_inj_tail in E as [-> ->]. by eapply Hpost.
Qed.
(** Entries go, and none of them that the operation revokes stays. *)
Lemma traced_smaller g ops op reg reg' : traced g ops reg -> SiteGrants.smaller reg' reg ->
  (forall k gr, jm_get (SiteGrants.grants reg') k = Some gr -> k = SiteGrants.grantKey (SiteGrants.g_taskId gr) (SiteGrants.g_siteId gr) ->
     ~ revokes (runs ops (new_runtime g)) op gr) -> traced g (ops ++ [op]) reg'.
Proof.
  intros [H1 H2] (_ & _ & S1 & S2) Hr. split.
  - intros id p Hp. by apply asked_snoc, H1, S1.
  - intros k gr Hk. destruct (H2 k gr (S2 k gr Hk)) as [E Hg]. split; [done|]. apply given_snoc; [done|by eapply Hr].
Qed.
Lemma traced_grows g ops reg reg' : traced g ops reg -> SiteGrants.smaller reg' reg -> traced g ops reg'.
Proof. intros [H1 H2] (_ & _ & S1 & S2). split; auto. Qed.
Lemma traced_after g ops op : let r := runs ops (new_runtime g) in Base r -> traced g ops (siteGrants r) -> traced g (ops ++ [op]) (registry_after op r).
Proof.
  intros r Hb HT. pose proof (base_wf r Hb) as Hwf. pose proof (smaller_refl _ Hwf) as Hrefl.
  destruct op as [cid site purpose task t1 t2|cid site purpose task t1 t2 t3|i authenticated|i t0|task url h t1 t2 t3|task url page t1 t2 t3
    |task url t0|task t0|t0|opener h|host t0|q|]; cbn [registry_after]; try (apply (traced_smaller g ops _ (siteGrants r)); [exact HT|exact Hrefl|by intros ? ? _ _ []]).
  - destruct (require site sitePolicies) as [policy|e] eqn:Er; [|apply (traced_smaller g ops _ (siteGrants r)); [exact HT|exact Hrefl|by intros ? ? _ _ []]].
    pose proof (traced_smaller g ops (RequestOpen cid site purpose task t1 t2) _ _ HT (prune_smaller t1 _ Hwf) ltac:(by intros ? ? _ _ [])) as [H1 H2].
    split; [|exact H2]. cbn [SiteGrants.createConfirmation fst SiteGrants.pending]. intros id p. rewrite jm_get_set.
    destruct (String.eqb_spec id cid) as [->|]; [|apply H1]. intros [= <-]. exists site, task, policy, t1, t2.
    split_and!; [apply elem_of_app; right; by left|done|done].
  - destruct (require site sitePolicies) as [policy|e] eqn:Er; [|apply (traced_smaller g ops _ (siteGrants r)); [exact HT|exact Hrefl|by intros ? ? _ _ []]].
    pose proof (traced_smaller g ops (BeginOpen cid site purpose task t1 t2 t3) _ _ HT (prune_smaller t1 _ Hwf) ltac:(by intros ? ? _ _ [])) as HP.
    unfold SiteGrants.confirm. destruct (jm_get _ cid) as [p|] eqn:Ep; [|exact HP]. destruct (SiteGrants.matches p task policy purpose) eqn:Em; [|exact HP].
    destruct HP as [H1 H2]. split; cbn [negb fst SiteGrants.pending SiteGrants.grants].
    + intros id' p'. rewrite jm_get_delete. destruct (id' =s cid); [done|apply H1].
    + intros k gr. rewrite jm_get_set. destruct (k =s _) eqn:Ek; [|apply H2]. apply String.eqb_eq in Ek. intros [= <-]. split; [done|].
      cbn in Ep. apply jm_get_filter in Ep as [Ep Hx]; [|apply Hwf].
      exists ops, cid, site, purpose, task, t1, t2, t3, [], policy, p. split_and!; try done; [by apply (proj1 HT)|by apply SiteGrants.matches_same|cbn in Hx; lia|].
      by intros [|] ? ?.
  - destruct (openings r !! i) as [o|] eqn:Eo; [|apply (traced_smaller g ops _ (siteGrants r)); [exact HT|exact Hrefl|];
      intros k gr _ _ (o' & Ho' & _); fold r in Ho'; congruence].
    unfold SiteGrants.revokeTaskSite. destruct (jm_get (SiteGrants.grants (siteGrants r)) _) as [g0|] eqn:Eg; cbn [fst].
    + apply (traced_smaller g ops _ (siteGrants r)); [exact HT| |].
      * split_and!; cbn [SiteGrants.grants SiteGrants.pending]; [apply Hwf|apply jm_wf_delete, Hwf|done|]. intros k gr. rewrite jm_get_delete. by destruct (k =s _).
      * cbn [SiteGrants.grants]. intros k gr. rewrite jm_get_delete. destruct (String.eqb_spec k (SiteGrants.grantKey (taskId (o_task o)) (siteId (o_policy o)))) as [|Hn]; [done|].
        intros _ -> (o' & Ho' & E1 & E2). fold r in Ho'. rewrite Eo in Ho'. injection Ho' as <-. by rewrite E1, E2 in Hn.
    + apply (traced_smaller g ops _ (siteGrants r)); [exact HT|exact Hrefl|]. intros k gr Hk -> (o' & Ho' & E1 & E2). fold r in Ho'.
      rewrite Eo in Ho'. injection Ho' as <-. rewrite E1, E2 in Eg. congruence.
  - apply (traced_smaller g ops _ (siteGrants r)); [exact HT| |].
    + destruct Hwf as [W1 W2]. split_and!; cbn [SiteGrants.revokeTask fst SiteGrants.grants SiteGrants.pending]; [by apply jm_wf_filter|by apply jm_wf_filter| |]; by intros k x [? _]%jm_get_filter.
    + cbn [fst SiteGrants.revokeTask SiteGrants.grants]. intros k gr [_ Hf]%jm_get_filter _ E; [|apply Hwf]. cbn in Hf, E. by rewrite E, String.eqb_refl in Hf.
Qed.
Lemma runs_traced g t ops : enabledPrivateHosts g = [] -> 0 <= t -> ascending t (flat_map readings ops) ->
  traced g ops (siteGrants (runs ops (new_runtime g))).
Proof.
  intros Hg H0. induction ops as [|op ops IH] using rev_ind; intros Ha; [done|]. rewrite flat_map_app in Ha. cbn [flat_map] in Ha.
  rewrite app_nil_r, ascending_app in Ha. destruct Ha as [H1 H2].
  pose proof (runtime_reachable_inv g _ _ Hg (runs_reachable g t ops H0 H1)) as HI. rewrite runs_snoc.
  eapply traced_grows; [|by apply (run_registry _ _ _ HI)]. apply traced_after; [apply (i_base _ _ HI)|by apply IH].
Qed.

(** C10.  [safety] After any operations of the runtime and at any later moment the browser
    reaches no denied host, and reaches a private host only under a grant that has not
    expired and that lists an origin of this host.  One of the operations gave the grant: it opened a site of the policy
    for a task, with a confirmation that an earlier operation had asked for, for the same task, owner, site and purpose,
    and that had not expired; the grant has the origins of that site, ends with the task and after ten minutes at the
    latest, and no operation after that one revoked the grants of the task or failed to open that site for it
    (browser-runtime.ts, browser-site-grant-registry.ts, browser-network-guard-proxy.ts). *)
Theorem private_host_needs_grant g t ops value now :
  enabledPrivateHosts g = [] -> 0 <= t -> ascending t (flat_map readings ops) -> latest t (flat_map readings ops) <= now ->
  (isHostAllowed value now (guard (runs ops (new_runtime g)))).2 = true ->
  normalizeHost value ∉ deniedHosts (guard (runs ops (new_runtime g)))
  /\ (normalizeHost value ∈ privateHosts (guard (runs ops (new_runtime g))) -> exists gr origin,
       origin ∈ SiteGrants.g_allowedOrigins gr /\ hostOf origin = Ok (normalizeHost value)
       /\ now < SiteGrants.g_expiresAt gr /\ given g ops gr).
Proof.
  intros Hg H0 Ha Ht Hal. set (r := runs ops (new_runtime g)) in *. pose proof (runtime_reachable_inv g _ _ Hg (runs_reachable g t ops H0 Ha)) as HI.
  destruct (host_allowed_cases value now (guard r) Hal) as [Hd Hp]. split; [done|].
  intros (_ & e & He & Hexp)%Hp. destruct (i_justified _ _ HI _ _ He) as [(gr & o & [k Hk] & Ho & Hh & ->)|(x & -> & Hx)].
  - exists gr, o. cbn in Hexp. apply Z.leb_gt in Hexp. split_and!; [done..|]. by eapply (runs_traced g t ops Hg H0 Ha).
  - cbn in Hexp. apply Z.leb_gt in Hexp. lia.
Qed.

(** *** Hosts that are shared *)
Definition activated (es : jsmap Z) (g : BrowserNetworkGuardProxy) (o h : string) : option Expiry :=
  if includes (privateHosts g) h && negb (includes (deniedHosts g) h) then Some <$> jm_get es o else None.

(** The last origin of a host decides: where an origin is the only one of its host that is
    its own state. *)
Lemma activate_exact es os r :
  (forall o, o ∈ os -> exists h, hostOf o = Ok h) -> hosts_ok (guard r) ->
  exists g', activate new_URL es os r = (with_guard g' r, Ok tt) /\ same_hosts g' (guard r)
    /\ (forall h, (forall o, o ∈ os -> hostOf o <> Ok h) ->
          jm_get (enabledPrivateHosts g') h = jm_get (enabledPrivateHosts (guard r)) h)
    /\ forall pre o post h, os = pre ++ o :: post -> hostOf o = Ok h -> (forall o', o' ∈ post -> hostOf o' <> Ok h) ->
          jm_get (enabledPrivateHosts g') h = activated es (guard r) o h.
Proof.
  revert r. induction os as [|o1 os IH]; intros r Hos Hok; cbn [activate].
  { exists (guard r). rewrite with_guard_id. split_and!; [done..|]. by intros [] ? ? ?. }
  destruct (Hos o1) as [h1 Ho1]; [left|]. destruct (activate_one es o1 h1 r Ho1 Hok) as (g1 & E1 & Hsame1 & Hok1 & Hother & Hthis).
  destruct (IH (with_guard g1 r)) as (g' & E & Hsame & Hkeep & Hlast); [by intros o' Ho'; apply Hos; right|exact Hok1|].
  exists g'. unfold mbind, stm_bind. rewrite E1, E. split; [done|]. unfold same_hosts in *. cbn [guard with_guard] in *.
  destruct Hsame as (S1 & S2 & S3), Hsame1 as (S4 & S5 & S6). split; [by rewrite S1, S2, S3|]. split.
  - intros h Hno. rewrite Hkeep by (intros o Ho; apply Hno; by right). apply Hother. intros ->. by apply (Hno o1); [left|].
  - intros [|x pre] o post h Eos Ho Hpost; cbn in Eos; injection Eos as -> ->.
    + rewrite Ho1 in Ho. injection Ho as <-. by rewrite Hkeep.
    + rewrite (Hlast pre o post h) by done. unfold activated. by rewrite S4, S5.
Qed.

(** Where two private origins share a host the last of them closes it, granted or not. *)
Lemma shared_host_closed es os r o h :
  (forall o, o ∈ os ++ [o] -> exists h, hostOf o = Ok h) -> hosts_ok (guard r) -> hostOf o = Ok h -> jm_get es o = None ->
  exists g', (activate new_URL es (os ++ [o]) r).1 = with_guard g' r /\ jm_get (enabledPrivateHosts g') h = None.
Proof.
  intros Hos Hok Ho Hn. destruct (activate_exact es (os ++ [o]) r) as (g' & E & _ & _ & Hlast).
  - intros o' Ho'. destruct (decide (o' = o)) as [->|]; [by exists h|]. apply Hos. 
    rewrite elem_of_app, list_elem_of_singleton in *. naive_solver.
  - done.
  - exists g'. rewrite E. split; [done|]. rewrite (Hlast os o [] h) by (done || (intros ? []%not_elem_of_nil)).
    unfold activated. rewrite Hn. by destruct (_ && _).
Qed.

(** [functional] Where no two private origins share a host, activation opens exactly the
    granted sites: once the guard is out of quarantine a private host that is not denied is
    reached exactly while some grant that lists its origin has not expired. *)
Theorem activation_exact g t r t' value origin now :
  enabledPrivateHosts g = [] -> reachable new_URL sitePolicies g t r -> t <= t' -> t' <= now ->
  (forall o o', o ∈ privates -> o' ∈ privates -> hostOf o = hostOf o' -> o = o') ->
  origin ∈ privates -> hostOf origin = Ok (normalizeHost value) ->
  normalizeHost value ∈ privateHosts (guard r) -> normalizeHost value ∉ deniedHosts (guard r) ->
  exists r', syncPrivateOriginActivation new_URL sitePolicies t' r = (r', Ok tt)
    /\ ((isHostAllowed value now (endQuarantine (guard r'))).2 = true <->
        exists grant, live r' grant /\ origin ∈ SiteGrants.g_allowedOrigins grant /\ now < SiteGrants.g_expiresAt grant).
Proof.
  intros Hg Hr Ht Hn Hdist Ho Hh Hp Hd. pose proof (runtime_reachable_inv g t r Hg Hr) as [H0 Hb _].
  set (reg := SiteGrants.pruneExpired t' (siteGrants r)). set (gs := jm_values (SiteGrants.grants reg)).
  destruct (activate_exact (expiryByOrigin gs) privates (with_grants reg r) Horigins) as (g' & E & (S1 & S2 & _) & _ & Hlast);
    [exact (b_hosts _ Hb)|].
  exists (with_guard g' (with_grants reg r)). split; [exact E|].
  assert (Hlive : forall gr, live (with_guard g' (with_grants reg r)) gr <-> gr ∈ gs).
  { intros gr. unfold gs, jm_values, live. cbn [siteGrants with_guard with_grants]. rewrite list_elem_of_In, in_map_iff.
    assert (Hwf : jm_wf (SiteGrants.grants reg)).
    { destruct (b_calls _ Hb) as [cs Hcs]. apply jm_wf_filter. rewrite Hcs. apply (SiteGrants.i_grants_wf _ _ (SiteGrants.inv_calls cs)). }
    split.
    - intros [k Hk]. exists (k, gr). split; [done|]. by apply list_elem_of_In, jm_get_in.
    - intros ([k x] & <- & Hin). exists k. apply jm_in_get; [done|by apply list_elem_of_In]. }
  assert (He : jm_get (enabledPrivateHosts g') (normalizeHost value) = Some <$> jm_get (expiryByOrigin gs) origin).
  { destruct (list_elem_of_split_r _ _ Ho) as (pre & post & Hs & Hnot). rewrite (Hlast pre origin post (normalizeHost value)); [|done..|].
    - unfold activated. cbn [guard with_grants]. apply includes_spec in Hp. apply includes_false in Hd. by rewrite Hp, Hd.
    - intros o' Ho' Hh'. apply Hnot. rewrite (Hdist origin o'); [done|done| |congruence].
      rewrite Hs. apply elem_of_app. right. by right. }
  unfold isHostAllowed. cbn [endQuarantine set_quarantine deniedHosts privateHosts guard with_guard].
  rewrite S1, S2. cbn [guard with_grants]. apply includes_spec in Hp. apply includes_false in Hd. rewrite Hp, Hd. cbn [negb].
  unfold isPrivateHostEnabled. cbn [endQuarantine set_quarantine quarantined enabledPrivateHosts]. rewrite He.
  setoid_rewrite Hlive. pose proof (expiryByOrigin_spec gs origin) as Hx.
  destruct (jm_get (expiryByOrigin gs) origin) as [x|]; cbn [fmap option_fmap option_map].
  - destruct Hx as (_ & Hle & gr & Hgr & Hogr & ->). cbn [expired].
    destruct (Z.leb_spec (Z.max 0 (SiteGrants.g_expiresAt gr)) now) as [Hlt|Hgt]; cbn [snd].
    + split; [done|]. intros (gr' & Hgr' & Ho' & Hnow). specialize (Hle gr' Hgr' Ho'). lia.
    + split; [|done]. intros _. exists gr. split_and!; [done..|lia].
  - cbn [snd]. split; [done|]. intros (gr & Hgr & Hogr & _). by destruct (Hx gr Hgr).
Qed.

(** [selectTab] applies the grant of its tab to the page that was current before. *)
Lemma select_grants_previous_page task url p1 p2 page1 t1 t2 t3 r r1 grant m :
  requireTargetGrant new_URL sitePolicies task url t1 t2 t3 r = (r1, Ok (Some grant)) ->
  current r1 = Some p1 -> p1 <> p2 -> pages r1 !! p1 = Some page1 -> is_Some (pages r1 !! p2) ->
  allowedOriginMap new_URL (SiteGrants.g_allowedOrigins grant) (Some (SiteGrants.g_expiresAt grant)) = Ok m ->
  includes (authenticatedSiteKeys r1) (authenticatedSiteKey (SiteGrants.g_taskId grant) (SiteGrants.g_siteId grant)) = false ->
  exists r2, selectTab new_URL sitePolicies (Some task) url (Some p2) t1 t2 t3 r = (r2, Ok tt) /\ current r2 = Some p2
    /\ pageAllowedOrigins <$> pages r2 !! p1 = Some (Some m) /\ pages r2 !! p2 = pages r1 !! p2.
Proof.
  intros HR Hc Hne Hp1 [page2 Hp2] Hm Hk. unfold selectTab. unfold mbind at 1 2, stm_bind at 1 2. rewrite HR.
  assert (HA : applyActivePageGrant new_URL sitePolicies (Some grant) r1 =
    (with_pages (<[p1 := mkPage (Some m) None None]> (pages r1)) (Some p1) r1, Ok tt)).
  { unfold applyActivePageGrant, mbind, stm_bind, on_page at 1. rewrite Hc. cbn [option_bind mbind]. rewrite Hp1.
    cbn [fmap option_fmap option_map]. unfold setActivePageAllowedOrigins. rewrite Hm. cbn [mbind result_bind st_get].
    cbn [authenticatedSiteKeys with_pages]. rewrite Hk. unfold st_ok, on_page. cbn [current with_pages pages mbind option_bind].
    rewrite lookup_insert_eq. cbn [fmap option_fmap option_map setActivePageRequestPolicy mbind option_bind pageAllowedOrigins].
    unfold with_pages. cbn. by rewrite insert_insert_eq. }
  rewrite HA. unfold select_page. cbn [mbind option_bind pages with_pages]. rewrite lookup_insert_ne by done. rewrite Hp2.
  cbn [fmap option_fmap option_map]. eexists. split; [reflexivity|]. cbn. split; [done|].
  by rewrite lookup_insert_eq, lookup_insert_ne, Hp2.
Qed.

(** A popup starts with the semantic permits of its opener, and giving a permit back
    reaches the opener only: the popup keeps it. *)
Lemma popup_keeps_permit r opener h p :
  pages r !! opener = Some p -> pageSemanticPermitCount p = Some 1 -> opener <> h ->
  exists r1, popup opener h r = (r1, Ok tt)
    /\ exists r2, on_page (fun p => Ok (release_permit false p).2) (with_pages (pages r1) (Some opener) r1) = (r2, Ok tt)
    /\ pageSemanticPermitCount <$> pages r2 !! opener = Some None /\ pageSemanticPermitCount <$> pages r2 !! h = Some (Some 1).
Proof.
  intros Hp Hc Hn. unfold popup, modify. rewrite Hp. eexists. split; [reflexivity|]. unfold on_page.
  cbn [current with_pages pages mbind option_bind]. rewrite lookup_insert_ne, Hp by done.
  cbn [fmap option_fmap option_map release_permit]. rewrite Hc. cbn. eexists. split; [reflexivity|]. cbn.
  rewrite lookup_insert_eq, lookup_insert_ne, lookup_insert_eq by done. by rewrite <- Hc.
Qed.
End Activation.

(** *** A run *)
Module Trial.
Definition web (value : string) : option NetworkUrl :=
  if startsWith value "https://crm.example" then Some (mkNetworkUrl "https:" "crm.example" None "https://crm.example")
  else if startsWith value "https://prod.example" then Some (mkNetworkUrl "https:" "prod.example" None "https://prod.example")
  else if startsWith value "https://news.example" then Some (mkNetworkUrl "https:" "news.example" None "https://news.example")
  else None.
(** A collation: the length of the texts. *)
Definition by_length (a b : string) : Z := Z.of_nat (String.length a) - Z.of_nat (String.length b).
#[export] Instance by_length_consistent : JsSort.Consistent by_length.
Proof. split; unfold by_length; lia. Qed.

Definition rule : AuthorizedSiteRequestRule :=
  mkRule ["POST"; "GET"; "GET"]%string "/orders" ["to"; "q"]%string None None None false.
Definition crm : AuthorizedSitePolicy :=
  mkPolicy "crm" "https://crm.example/home" ["https://crm.example/"]%string ["https://prod.example/"]%string
    business_read_only login_none None (Some (mkRequestPolicy [rule] [])).
Definition schema : AuthorizedSitePolicy -> option AuthorizedSitePolicy :=
  authorizedSitePolicySchema (url_of web) (fun _ => true) by_length.
Definition crm_policy : AuthorizedSitePolicy := default crm (schema crm).
Definition registry : BrowserSitePolicyRegistry :=
  match SitePolicy.new_registry (url_of web) (fun _ => true) by_length [crm] with Ok r => r | Err _ => mkRegistry [] [] [] end.

Lemma site_registry_exact_witness :
  classify web registry "https://prod.example/x" = Ok (denied_url "https://prod.example")
  /\ exists url, url_of web "https://crm.example/y" = Some url /\ "https://crm.example"%string = url_origin url /\
       ~ (exists q, q ∈ [crm_policy] /\ url_origin url ∈ p_deniedOrigins q) /\ crm_policy ∈ [crm_policy]
       /\ "https://crm.example"%string ∈ allowedOrigins crm_policy.
Proof.
  split; [by vm_compute|].
  apply (proj2 (site_registry_exact (url_of web) (fun _ => true) by_length [crm]) registry [crm_policy] "https://crm.example/y"
    (private_url "https://crm.example" crm_policy)); vm_compute; reflexivity.
Defined.

Definition descriptor : AuthorizedSiteRequestDescriptor :=
  mkDescriptor "https://crm.example" "get" "/orders" ["q"; "to"; "q"]%string "xhr" "top" false false.
Lemma site_request_exact_witness :
  isAuthorizedSiteRequestAllowed by_length crm_policy descriptor = true
  /\ d_origin descriptor ∈ allowedOrigins crm_policy.
Proof.
  split; [by vm_compute|].
  refine (proj1 (proj1 (site_request_exact (url_of web) (fun _ => true) by_length crm crm_policy
    (default (mkRequestPolicy [] []) (requestPolicy crm_policy)) descriptor _ _) _)); vm_compute; reflexivity.
Defined.

Definition the_guard : BrowserNetworkGuardProxy :=
  match new_guard web ["https://crm.example"]%string ["https://prod.example"]%string with
  | Ok g => endQuarantine g | Err _ => mkGuard [] [] [] true end.
Definition task : BrowserTask := mkTask "task-1" "owner" active [] 0 0 900000.
Definition r1 : Runtime := run web registry (RequestOpen "c1" "crm" "orders" task 1000 1000) (new_runtime the_guard).
Definition r2 : Runtime := run web registry (BeginOpen "c1" "crm" "orders" task 2000 2000 2000) r1.
Lemma reachable_r2 : reachable web registry the_guard 2000 r2.
Proof.
  apply (reachable_op web registry the_guard 1000 r1 (BeginOpen "c1" "crm" "orders" task 2000 2000 2000)); [|cbn; lia].
  apply (reachable_op web registry the_guard 0 (new_runtime the_guard) (RequestOpen "c1" "crm" "orders" task 1000 1000)); [|cbn; lia].
  by constructor.
Qed.
Lemma origins_parse o : o ∈ privateOriginValues registry -> exists h, originHost web o = Ok h.
Proof. intros ->%list_elem_of_singleton. by exists "crm.example"%string. Qed.

Definition opening : list Op := [RequestOpen "c1" "crm" "orders" task 1000 1000; BeginOpen "c1" "crm" "orders" task 2000 2000 2000].
Lemma private_host_needs_grant_witness :
  (isHostAllowed "CRM.example." 3000 (guard (runs web registry opening (new_runtime the_guard)))).2 = true
  /\ (isHostAllowed "crm.example" 3000 (guard (runs web registry (opening ++ [RevokeTask "task-1" 2500]) (new_runtime the_guard)))).2 = false
  /\ exists gr origin, origin ∈ SiteGrants.g_allowedOrigins gr /\ originHost web origin = Ok "crm.example"%string
       /\ 3000 < SiteGrants.g_expiresAt gr /\ given web registry the_guard opening gr.
Proof.
  split; [by vm_compute|]. split; [by vm_compute|].
  refine (proj2 (private_host_needs_grant web registry origins_parse the_guard 0 opening "CRM.example." 3000
    _ _ _ _ _) _); [reflexivity|lia|cbn; lia|cbn; lia|vm_compute; reflexivity|].
  apply (bool_decide_unpack _). vm_compute. exact I.
Defined.

Lemma activation_exact_witness :
  exists r', syncPrivateOriginActivation web registry 2500 r2 = (r', Ok tt)
    /\ ((isHostAllowed "crm.example" 3000 (endQuarantine (guard r'))).2 = true <->
        exists grant, live r' grant /\ "https://crm.example"%string ∈ SiteGrants.g_allowedOrigins grant
          /\ 3000 < SiteGrants.g_expiresAt grant).
Proof.
  apply (activation_exact web registry origins_parse the_guard 2000 r2 2500 "crm.example" "https://crm.example" 3000).
  - reflexivity.
  - exact reachable_r2.
  - lia.
  - lia.
  - by intros o o' ->%list_elem_of_singleton ->%list_elem_of_singleton.
  - apply (bool_decide_unpack _). vm_compute. exact I.
  - vm_compute. reflexivity.
  - apply (bool_decide_unpack _). vm_compute. exact I.
  - apply (bool_decide_unpack _). vm_compute. exact I.
Defined.

Definition history : list SiteGrants.Call :=
  [SiteGrants.CreateConfirmation "c1" task crm_policy "orders" 1000 1000; SiteGrants.Confirm "c1" task crm_policy "orders" 2000 2000].
Definition the_grant : SiteGrants.BrowserSiteGrant := SiteGrants.mkGrant "task-1" "owner" "crm" ["https://crm.example"]%string 602000.
Lemma required_grant_confirmed_witness :
  3000 < SiteGrants.g_expiresAt the_grant /\ SiteGrants.granted history the_grant.
Proof.
  destruct (SiteGrants.required_grant_confirmed history task crm_policy 3000 3000
    (SiteGrants.requireGrant task crm_policy 3000 3000 (SiteGrants.calls history)).1 the_grant) as (H1 & _ & _ & _ & H2).
  - intros c [->|[->|[]%not_elem_of_nil]%elem_of_cons]%elem_of_cons; [exact I|vm_compute; reflexivity].
  - reflexivity.
  - vm_compute. reflexivity.
  - exact (conj H1 H2).
Defined.
Lemma site_confirmation_spent_witness :
  is_ok (SiteGrants.confirm "c1" task crm_policy "orders" 2500 2500 (SiteGrants.calls (history ++ []))).2 = false.
Proof.
  apply (SiteGrants.site_confirmation_spent [SiteGrants.CreateConfirmation "c1" task crm_policy "orders" 1000 1000] "c1" task crm_policy
    "orders" 2000 2000 []).
  - apply (bool_decide_unpack _). vm_compute. exact I.
  - vm_compute. reflexivity.
Defined.
End Trial.
End SiteAccess.
