(* ===== verification/PolicyMerge.v ===== *)
(** Merging the workspace policies: packages/mcp-core/src/policy-merge.ts and
    packages/mcp-core/src/project-write-policy.ts.

    Explicit policy entries and the folders discovered in the editor become one list
    of workspaces.  SHA-256, the collation of [localeCompare] and the platform are
    parameters. *)
From Stdlib Require Import QArith.
From S2P Require Import Prelude Errors JsString JsRegex Analysis Policy JsMap.
Open Scope Z_scope.

Record DiscoveredWorkspaceCandidate := mkCandidate {
  cand_name : string;
  cand_rootPath : string;
  cand_canonicalRootPath : string;
  cand_trusted : bool;
}.
Record ExplicitPolicyInput := mkExplicit {
  ex_workspace : WorkspacePolicy;
  ex_canonicalRootPath : string;
}.

Inductive WorkspaceCatalogSource := explicit | discovered | deny_index.
Record WorkspaceCatalogEntryMeta := mkMeta {
  meta_source : WorkspaceCatalogSource;
  meta_id : string;
  meta_name : string;
  meta_rootPath : string;
  meta_canonicalRootPath : string;
  meta_trusted : bool;
  meta_enabled : bool;
}.

(** [Partial<WorkspaceLimits>] on the keys of [LIMIT_KEYS]: a finite number, or [None] for a
    missing one, [NaN] or an infinity. *)
Record LimitsOverride := mkOverride {
  ov_maxFileBytes : option Q;
  ov_maxSearchResults : option Q;
  ov_maxSearchSnippetBytes : option Q;
  ov_maxDiffBytes : option Q;
  ov_maxListedFiles : option Q;
}.

(** [MergeWorkspacePoliciesOptions]; [None] is [undefined]. *)
Record MergeOptions := mkOptions {
  includeOpenWorkspaces : option bool;
  alwaysExposeExplicit : option bool;
  requireTrustedWorkspace : option bool;
  discoveredLimitsOverride : option LimitsOverride;
  enableProjectWrites : option bool;
  projectRootPath : option string;
  enableDevelopmentWrites : option bool;
  developmentRootPath : option string;
}.

Definition DISCOVERED_WORKSPACE_LIMIT_CEILINGS : WorkspaceLimits :=
  mkLimits 64000 100 20000 500000 500 None None None.

Definition IMPLICIT_TECHNICAL_WORKSPACE_NAMES : list string :=
  ["build"; "coverage"; "dist"; "docker"; "node_modules"; "releases"; "runtime"; "test"; "tests";
   "temp"; "tmp"]%string.

(** *** Strings *)
(** [s.replace(/[f]+$/, empty)] and [s.replace(/^[f]+/, empty)]. *)
Fixpoint strip_end (f : ascii -> bool) (s : string) : string :=
  match s with
  | EmptyString => EmptyString
  | String c s' =>
      match strip_end f s' with
      | EmptyString => if f c then EmptyString else str1 c
      | r => String c r
      end
  end.
Fixpoint strip_start (f : ascii -> bool) (s : string) : string :=
  match s with
  | String c s' => if f c then strip_start f s' else s
  | EmptyString => s
  end.

Definition is_alnum_lower (c : ascii) : bool :=
  let n := char_code c in ((97 <=? n) && (n <=? 122) || (48 <=? n) && (n <=? 57))%N.
Definition is_id_char (c : ascii) : bool :=
  let n := char_code c in
  is_alnum_lower c || ((65 <=? n) && (n <=? 90))%N || has_char c "._-".

Definition slugify (value : string) : string :=
  let s := replace_g (plus (Cls (fun c => negb (is_alnum_lower c)))) "-" (toLowerCase (trim value)) in
  let slug := stake 32 (strip_end (Ascii.eqb "-") (strip_start (Ascii.eqb "-") s)) in
  if (0 <? Z.of_nat (String.length slug)) then slug else "workspace".

Definition leafName (filePath : string) : string :=
  let normalized := strip_end (Ascii.eqb SLASH) (replace_char BSL SLASH filePath) in
  if has_char SLASH normalized then after_last SLASH normalized else normalized.

Definition isImplicitTechnicalWorkspaceCandidate (candidate : DiscoveredWorkspaceCandidate) : bool :=
  existsb (fun name => startsWith name "." || includes IMPLICIT_TECHNICAL_WORKSPACE_NAMES name)
    (map (fun value => toLowerCase (trim value))
       [cand_name candidate; leafName (cand_rootPath candidate); leafName (cand_canonicalRootPath candidate)]).

(** *** Limits *)
(** [z.number().int()] *)
Definition integer_of (q : Q) : option Z :=
  if Qnum q mod Zpos (Qden q) =? 0 then Some (Qnum q / Zpos (Qden q)) else None.

Definition clamp_key (value : option Q) (ceiling : Z) : Q :=
  match value with
  | Some v => if negb (Qle_bool v 0) then (if Qle_bool v (inject_Z ceiling) then v else inject_Z ceiling)
              else inject_Z ceiling
  | None => inject_Z ceiling
  end.

(** [z.number().int().positive()] on a clamped value. *)
Definition parse_limit (v : Q) : result exn Z :=
  match integer_of v with
  | Some n => if 0 <? n then Ok n else Err (Native "ZodError")
  | None => Err (Native "ZodError")
  end.

Definition clampDiscoveredLimits (override : option LimitsOverride) : result exn WorkspaceLimits :=
  let C := DISCOVERED_WORKSPACE_LIMIT_CEILINGS in
  match override with
  | None => Ok C
  | Some o =>
      a ← parse_limit (clamp_key (ov_maxFileBytes o) (maxFileBytes C));
      b ← parse_limit (clamp_key (ov_maxSearchResults o) (maxSearchResults C));
      c ← parse_limit (clamp_key (ov_maxSearchSnippetBytes o) (maxSearchSnippetBytes C));
      d ← parse_limit (clamp_key (ov_maxDiffBytes o) (maxDiffBytes C));
      e ← parse_limit (clamp_key (ov_maxListedFiles o) (maxListedFiles C));
      Ok (mkLimits a b c d e None None None)
  end.

Section Merge.
Context (win32 : bool) (sha256 : string -> string) (localeCompare : string -> string -> Z).

Definition normalizePathKey (filePath : string) : string :=
  let normalized := strip_end (Ascii.eqb SLASH) (replace_char BSL SLASH filePath) in
  if win32 then toLowerCase normalized else normalized.
Definition canonicalPathKey (filePath : string) : string := normalizePathKey filePath.

Definition shortHash (value : string) : string := stake 8 (sha256 value).
Definition buildDiscoveredId (candidate : DiscoveredWorkspaceCandidate) : string :=
  let base := slugify (cand_name candidate) +:+ "-" +:+ shortHash (cand_canonicalRootPath candidate) in
  smap (fun c => if is_id_char c then c else "-"%char) base.

(** *** project-write-policy.ts *)
Definition isUnderConfiguredRoot (canonicalRootPath rootPath : string) : bool :=
  let rootKey := canonicalPathKey rootPath in
  let pathKey := canonicalPathKey canonicalRootPath in
  (pathKey =s rootKey) || startsWith pathKey (rootKey +:+ "/").

(** [enable && root && test(root)]: [undefined], [false] and the empty text are falsy. *)
Definition configured (enable : option bool) (root : option string) (test : string -> bool) : bool :=
  match enable, root with
  | Some true, Some r => negb (sempty r) && test r
  | _, _ => false
  end.

Definition isAutoWriteEligible (canonicalRootPath : string) (options : MergeOptions) : bool :=
  configured (enableProjectWrites options) (projectRootPath options) (isUnderConfiguredRoot canonicalRootPath)
  || configured (enableDevelopmentWrites options) (developmentRootPath options)
       (isUnderConfiguredRoot canonicalRootPath).

Definition isConfiguredProjectRoot (canonicalRootPath : string) (options : MergeOptions) : bool :=
  configured (enableProjectWrites options) (projectRootPath options)
    (fun root => canonicalPathKey canonicalRootPath =s canonicalPathKey root).

Definition withAutoWriteAccess (workspace : WorkspacePolicy) (canonicalRootPath : string)
    (options : MergeOptions) : WorkspacePolicy :=
  if negb (isAutoWriteEligible canonicalRootPath options) then workspace
  else
    mkPolicy (wp_id workspace) (wp_name workspace) (wp_rootPath workspace)
      (if isConfiguredProjectRoot canonicalRootPath options then Some aggregate else wp_workspaceKind workspace)
      (wp_enabled workspace) full_repo_write (wp_confirmationMode workspace) (wp_allowedRoots workspace)
      (wp_blockedGlobs workspace) (wp_limits workspace) ["."%string] ["."%string] supportedShells.

(** *** The merge *)
(** [Set.add] *)
Definition set_add (s : list string) (x : string) : list string := if includes s x then s else s ++ [x].

Definition createDiscoveredWorkspace (candidate : DiscoveredWorkspaceCandidate) (limits : WorkspaceLimits)
    (usedIds : list string) : WorkspacePolicy * list string :=
  let id := buildDiscoveredId candidate in
  let id := if includes usedIds id
            then id +:+ "-" +:+ shortHash (cand_canonicalRootPath candidate +:+ ":collision") else id in
  (mkPolicy id (cand_name candidate) (cand_rootPath candidate) (Some repository) true planning_readonly
     standard ["."%string] [] limits [] [] [powershell], set_add usedIds id).

(** What the first loop collects, and what the merge grows. *)
Record Index := mkIndex {
  explicitByPath : jsmap WorkspacePolicy;
  denyPaths : list string;
}.
Record Merging := mkMerging {
  merged : jsmap WorkspacePolicy;
  catalog : list WorkspaceCatalogEntryMeta;
  usedIds : list string;
}.

Definition index_entry (s : Index * Merging) (entry : ExplicitPolicyInput) : Index * Merging :=
  let '(ix, st) := s in
  let workspace := ex_workspace entry in
  let key := canonicalPathKey (ex_canonicalRootPath entry) in
  (mkIndex (jm_set (explicitByPath ix) key workspace)
     (if wp_enabled workspace then denyPaths ix else set_add (denyPaths ix) key),
   mkMerging (merged st)
     (if wp_enabled workspace then catalog st
      else catalog st ++ [mkMeta deny_index (wp_id workspace) (wp_name workspace) (wp_rootPath workspace)
                            (ex_canonicalRootPath entry) true false])
     (set_add (usedIds st) (wp_id workspace))).

Definition put (key : string) (w : WorkspacePolicy) (meta : WorkspaceCatalogEntryMeta) (ids : list string)
    (st : Merging) : Merging :=
  mkMerging (jm_set (merged st) key w) (catalog st ++ [meta]) ids.

Definition expose_discovered (options : MergeOptions) (limits : WorkspaceLimits) (ix : Index)
    (st : Merging) (candidate : DiscoveredWorkspaceCandidate) : Merging :=
  let path := cand_canonicalRootPath candidate in
  let key := canonicalPathKey path in
  if default true (requireTrustedWorkspace options) && negb (cand_trusted candidate) then st
  else if includes (denyPaths ix) key then st
  else
    match jm_get (explicitByPath ix) key with
    | Some w =>
        if wp_enabled w then
          put key (withAutoWriteAccess w path options)
            (mkMeta explicit (wp_id w) (wp_name w) (wp_rootPath w) path (cand_trusted candidate) true)
            (usedIds st) st
        else st
    | None =>
        if isImplicitTechnicalWorkspaceCandidate candidate then st
        else
          let '(created, ids) := createDiscoveredWorkspace candidate limits (usedIds st) in
          let w := withAutoWriteAccess created path options in
          put key w (mkMeta discovered (wp_id w) (wp_name w) (wp_rootPath w) path (cand_trusted candidate) true)
            ids st
    end.

Definition expose_explicit (options : MergeOptions) (st : Merging) (entry : ExplicitPolicyInput) : Merging :=
  let w := ex_workspace entry in
  let path := ex_canonicalRootPath entry in
  let key := canonicalPathKey path in
  if negb (wp_enabled w) then st
  else if jm_has (merged st) key then st
  else put key (withAutoWriteAccess w path options)
         (mkMeta explicit (wp_id w) (wp_name w) (wp_rootPath w) path true true) (usedIds st) st.

(** [Array.prototype.sort]: stable. *)
Fixpoint sort_insert (w : WorkspacePolicy) (ws : list WorkspacePolicy) : list WorkspacePolicy :=
  match ws with
  | [] => [w]
  | x :: rest => if localeCompare (wp_id x) (wp_id w) <=? 0 then x :: sort_insert w rest else w :: ws
  end.
Definition sort_by_id (ws : list WorkspacePolicy) : list WorkspacePolicy :=
  fold_left (fun sorted w => sort_insert w sorted) ws [].

Definition index_entries (entries : list ExplicitPolicyInput) : Index * Merging :=
  fold_left index_entry entries (mkIndex [] [], mkMerging [] [] []).

Definition merge_all (entries : list ExplicitPolicyInput) (found : list DiscoveredWorkspaceCandidate)
    (options : MergeOptions) (limits : WorkspaceLimits) : Merging :=
  let '(ix, st) := index_entries entries in
  let st := if default true (includeOpenWorkspaces options)
            then fold_left (expose_discovered options limits ix) found st else st in
  if default false (alwaysExposeExplicit options)
  then fold_left (expose_explicit options) entries st else st.

(** [policy.workspaces] and the catalog. *)
Definition mergeWorkspacePolicies (entries : list ExplicitPolicyInput)
    (found : list DiscoveredWorkspaceCandidate) (options : MergeOptions) :
    result exn (list WorkspacePolicy * list WorkspaceCatalogEntryMeta) :=
  limits ← clampDiscoveredLimits (discoveredLimitsOverride options);
  let st := merge_all entries found options limits in
  let workspaces := sort_by_id (jm_values (merged st)) in
  match workspaces with
  | [] => Err (Native "MERGE_EMPTY_POLICY: no workspaces available after merge")
  | _ => Ok (workspaces, catalog st)
  end.
End Merge.

(** *** Strings: what the helpers leave *)
Lemma strip_end_sexists f g s : sexists g s = false -> sexists g (strip_end f s) = false.
Proof.
  induction s as [|c s IH]; simpl; [done|]. intros [Hc Hs]%orb_false_iff. specialize (IH Hs).
  destruct (strip_end f s) as [|d r]; simpl in *; [|by rewrite Hc].
  destruct (f c); [done|]. simpl. by rewrite Hc.
Qed.
Lemma strip_start_sexists f g s : sexists g s = false -> sexists g (strip_start f s) = false.
Proof.
  induction s as [|c s IH]; simpl; [done|]. intros H. destruct (f c); [|done].
  apply orb_false_iff in H as [_ H]. auto.
Qed.
Lemma strip_start_head f s c r : strip_start f s = String c r -> f c = false.
Proof. induction s as [|d s IH]; simpl; [done|]. destruct (f d) eqn:E; [done|]. by intros [= -> ->]. Qed.
(** Removing a suffix keeps the first character that remains. *)
Lemma strip_end_head f s c r : strip_end f s = String c r -> exists r', s = String c r'.
Proof.
  destruct s as [|d s]; simpl; [done|]. destruct (strip_end f s) as [|e t].
  - destruct (f d); [done|]. intros [= -> _]. by eexists.
  - intros [= -> _]. by eexists.
Qed.
Lemma smap_id_on (f : ascii -> ascii) (g : ascii -> bool) s :
  (forall c, g c = true -> f c = c) -> sexists (fun c => negb (g c)) s = false -> smap f s = s.
Proof.
  intros Hf. induction s as [|c s IH]; simpl; [done|]. intros [Hc Hs]%orb_false_iff.
  apply negb_false_iff in Hc. by rewrite (Hf c Hc), IH.
Qed.

Lemma split_on_app_all c r t : split_on c (r +:+ String c t) = split_on c r ++ split_on c t.
Proof.
  induction r as [|d r IH]; simpl; [by rewrite eqc_refl|]. rewrite IH. destruct (d =c c); [done|].
  pose proof (split_on_nonempty c r). by destruct (split_on c r).
Qed.
Lemma join_app sep us vs : us <> [] -> vs <> [] -> join sep (us ++ vs) = join sep us +:+ sep +:+ join sep vs.
Proof.
  intros Hu Hv. induction us as [|u [|u' us] IH]; [done| |].
  - simpl. by destruct vs.
  - simpl app in *. rewrite !join_cons, IH by done. by rewrite !sapp_assoc.
Qed.

Section Properties.
Context (win32 : bool) (sha256 : string -> string) (localeCompare : string -> string -> Z).

(** A path counts as being under a configured root exactly when the segments of the
    root are the first segments of the path: a sibling whose name only starts like the
    root's is not under it. *)
Theorem configured_root_segments (path root : string) :
  isUnderConfiguredRoot win32 path root = true <->
  exists rest, split_on SLASH (canonicalPathKey win32 path) = split_on SLASH (canonicalPathKey win32 root) ++ rest.
Proof.
  unfold isUnderConfiguredRoot. generalize (canonicalPathKey win32 path), (canonicalPathKey win32 root).
  intros p r. rewrite orb_true_iff, String.eqb_eq, startsWith_spec. split.
  - intros [->|[t ->]]; [exists []; by rewrite app_nil_r|]. exists (split_on SLASH t).
    rewrite sapp_assoc. apply split_on_app_all.
  - intros [rest H]. pose proof (join_split_on SLASH p) as Hp. rewrite H in Hp. subst p.
    destruct rest as [|w ws]; [left; by rewrite app_nil_r, join_split_on|]. right.
    exists (join "/" (w :: ws)). rewrite join_app, join_split_on; [by rewrite sapp_assoc| |done].
    apply split_on_nonempty.
Qed.

(** The limit kept for a setting and its ceiling. *)
Definition clamped_to (n : Z) (setting : option Q * Z) : Prop :=
  let '(v, ceiling) := setting in
  0 < n <= ceiling /\
  ((exists q, v = Some q /\ (0 < q <= inject_Z ceiling)%Q /\ (inject_Z n == q)%Q)
   \/ n = ceiling /\ forall q, v = Some q -> (q <= 0)%Q \/ (inject_Z ceiling < q)%Q).

Lemma integer_of_some q n : integer_of q = Some n -> (inject_Z n == q)%Q.
Proof.
  unfold integer_of. destruct (_ =? 0) eqn:E; [|done]. intros [= <-]. apply Z.eqb_eq in E.
  unfold Qeq, inject_Z. cbn [Qnum Qden]. pose proof (Z.div_mod (Qnum q) (Zpos (Qden q))). nia.
Qed.

Lemma parse_clamped v c : 0 < c ->
  match parse_limit (clamp_key v c) with
  | Ok n => clamped_to n (v, c)
  | Err _ => exists q, v = Some q /\ (0 < q <= inject_Z c)%Q /\ integer_of q = None
  end.
Proof.
  intros Hc. assert (Hceil : parse_limit (inject_Z c) = Ok c).
  { unfold parse_limit, integer_of. cbn [Qnum Qden inject_Z]. rewrite Z.mod_1_r, Z.div_1_r. cbn [Z.eqb].
    by rewrite (proj2 (Z.ltb_lt 0 c)). }
  assert (Hdef : (forall q, v = Some q -> (q <= 0)%Q \/ (inject_Z c < q)%Q) -> clamped_to c (v, c)).
  { intros Hv. split; [lia|]. by right. }
  unfold clamp_key. destruct v as [q|].
  2:{ rewrite Hceil. by apply Hdef. }
  destruct (Qle_bool q 0) eqn:E0; cbn [negb].
  { rewrite Hceil. apply Hdef. intros ? [= <-]. left. by apply Qle_bool_iff. }
  assert (H0 : (0 < q)%Q) by (apply Qnot_le_lt; rewrite <- Qle_bool_iff; congruence).
  destruct (Qle_bool q (inject_Z c)) eqn:E1.
  2:{ rewrite Hceil. apply Hdef. intros ? [= <-]. right. apply Qnot_le_lt. rewrite <- Qle_bool_iff. congruence. }
  apply Qle_bool_iff in E1. unfold parse_limit. destruct (integer_of q) as [n|] eqn:En; [|by exists q].
  apply integer_of_some in En as Hn.
  assert (0 < n) by (rewrite Zlt_Qlt, Hn; exact H0).
  assert (n <= c) by (rewrite Zle_Qle, Hn; exact E1).
  rewrite (proj2 (Z.ltb_lt 0 n)) by done. split; [done|]. left. by exists q.
Qed.

(** The settings with their ceilings, in the order of [LIMIT_KEYS]. *)
Definition settings (override : option LimitsOverride) : list (option Q * Z) :=
  let o := default (mkOverride None None None None None) override in
  [(ov_maxFileBytes o, 64000); (ov_maxSearchResults o, 100); (ov_maxSearchSnippetBytes o, 20000);
   (ov_maxDiffBytes o, 500000); (ov_maxListedFiles o, 500)].
Definition limit_values (l : WorkspaceLimits) : list Z :=
  [maxFileBytes l; maxSearchResults l; maxSearchSnippetBytes l; maxDiffBytes l; maxListedFiles l].

(** The limits of discovered workspaces are positive and never above the ceilings: a
    setting replaces its ceiling exactly when it is a positive number not above it, and the
    settings are refused only for a fraction there. *)
Theorem discovered_limits_clamped (override : option LimitsOverride) :
  match clampDiscoveredLimits override with
  | Ok l => Forall2 clamped_to (limit_values l) (settings override)
  | Err _ => exists q c, (Some q, c) ∈ settings override /\ (0 < q <= inject_Z c)%Q /\ integer_of q = None
  end.
Proof.
  destruct override as [o|].
  2:{ assert (Hn : forall c, 0 < c -> clamped_to c (None, c)) by (intros c Hc; split; [lia|by right]).
      do 5 (constructor; [by apply Hn|]). constructor. }
  unfold clampDiscoveredLimits.
  assert (Hstep : forall {B} v c (f : Z -> result exn B) (P : result exn B -> Prop), 0 < c ->
    (forall n, clamped_to n (v, c) -> P (f n)) ->
    (forall e q, v = Some q -> (0 < q <= inject_Z c)%Q -> integer_of q = None -> P (Err e)) ->
    P (parse_limit (clamp_key v c) ≫= f)).
  { intros B v c f P Hc Hok Herr. pose proof (parse_clamped v c Hc) as H.
    destruct (parse_limit _) as [n|e]; [by apply Hok|]. destruct H as (q & H1 & H2 & H3). by apply (Herr e q). }
  do 5 (apply Hstep; [done| |intros ? q Hv Hq Hi; eexists q, _;
    split; [rewrite <- Hv; cbn; eauto 9 using list_elem_of_here, list_elem_of_further|done]]; intros ? ?).
  do 5 (constructor; [done|]). constructor.
Qed.

(** *** Identifiers *)
(** [workspacePolicySchema]'s pattern for [id]. *)
Definition id_schema (id : string) : bool :=
  match id with
  | String c s => (is_id_char c && negb (has_char c "._-")) && sforall is_id_char s
  | EmptyString => false
  end.

Lemma alnum_id c : is_alnum_lower c = true -> is_id_char c = true /\ has_char c "._-" = false.
Proof. destruct c as [[] [] [] [] [] [] [] []]; vm_compute; done. Qed.

Lemma sforall_sexists f s : sforall f s = true <-> sexists (fun c => negb (f c)) s = false.
Proof. unfold sforall. apply negb_true_iff. Qed.

Lemma slug_head value : exists c r, slugify value = String c r /\ is_alnum_lower c = true.
Proof.
  unfold slugify. set (raw := replace_g _ _ _). set (t := strip_end _ _).
  destruct t as [|c r] eqn:Et; [by eexists _, _|]. cbn [stake String.length]. cbn [Z.of_nat Z.ltb Z.compare].
  destruct (strip_end_head _ _ _ _ Et) as [r' Hs]. apply strip_start_head in Hs as Hd.
  eexists c, _. split; [done|].
  assert (Hraw : sexists (fun d => negb (is_alnum_lower d) && negb ("-"%char =c d)) raw = false).
  { apply replace_class_only; [|done]. intros d Hd'. by apply andb_prop in Hd' as [? _]. }
  apply (strip_start_sexists (Ascii.eqb "-")) in Hraw. rewrite Hs in Hraw. cbn [sexists] in Hraw.
  apply orb_false_iff in Hraw as [Hc _]. rewrite Hd in Hc. cbn [negb] in Hc. rewrite andb_true_r in Hc.
  by apply negb_false_iff.
Qed.

Lemma sanitize_id s : sforall is_id_char (smap (fun c => if is_id_char c then c else "-"%char) s) = true.
Proof.
  apply sforall_sexists. induction s as [|c s IH]; simpl; [done|]. rewrite IH, orb_false_r.
  destruct (is_id_char c) eqn:E; [by rewrite E|done].
Qed.

(** The identifier made for a discovered folder, whatever its name and path, is one the
    policy schema accepts, with the suffix added when it is taken too. *)
Theorem discovered_id_valid candidate limits ids
    (Hhex : forall v, sforall is_id_char (sha256 v) = true) :
  id_schema (wp_id (createDiscoveredWorkspace sha256 candidate limits ids).1) = true.
Proof.
  assert (Hb : exists c s, buildDiscoveredId sha256 candidate = String c s
            /\ is_id_char c = true /\ has_char c "._-" = false /\ sforall is_id_char s = true).
  { unfold buildDiscoveredId. destruct (slug_head (cand_name candidate)) as (c & r & -> & Hc).
    apply alnum_id in Hc as [Hc1 Hc2]. cbn [smap String.append]. rewrite Hc1.
    eexists c, _. repeat split; [done..|]. apply sanitize_id. }
  destruct Hb as (c & s & Hb & Hc1 & Hc2 & Hs). unfold createDiscoveredWorkspace. rewrite Hb.
  destruct (includes ids _); cbn [fst wp_id String.append id_schema].
  2:{ by rewrite Hc1, Hc2, Hs. }
  rewrite Hc1, Hc2. cbn [negb andb]. apply sforall_sexists. rewrite sexists_app.
  apply sforall_sexists in Hs. rewrite Hs. cbn [sexists String.append orb].
  unfold shortHash. rewrite sexists_stake; [done|]. apply sforall_sexists, Hhex.
Qed.

(** *** What is exposed *)
Lemma elem_of_set_add s x y : y ∈ set_add s x <-> y ∈ s \/ y = x.
Proof.
  unfold set_add. destruct (includes s x) eqn:E; [apply includes_spec in E; naive_solver|].
  by rewrite elem_of_app, list_elem_of_singleton.
Qed.

Definition key_of (e : ExplicitPolicyInput) : string := canonicalPathKey win32 (ex_canonicalRootPath e).
Definition key_of_candidate (c : DiscoveredWorkspaceCandidate) : string :=
  canonicalPathKey win32 (cand_canonicalRootPath c).

(** The explicit policy denies a folder, or names it. *)
Definition denied (entries : list ExplicitPolicyInput) (key : string) : Prop :=
  exists e, e ∈ entries /\ key_of e = key /\ wp_enabled (ex_workspace e) = false.
Definition named (entries : list ExplicitPolicyInput) (key : string) : Prop :=
  exists e, e ∈ entries /\ key_of e = key.

Record Indexed (entries : list ExplicitPolicyInput) (ix : Index) : Prop := {
  indexed_deny : forall key, key ∈ denyPaths ix <-> denied entries key;
  indexed_some : forall key w, jm_get (explicitByPath ix) key = Some w ->
    exists e, e ∈ entries /\ key_of e = key /\ ex_workspace e = w;
  indexed_none : forall key, jm_get (explicitByPath ix) key = None -> ~ named entries key;
}.

Lemma index_entries_spec entries :
  Indexed entries (index_entries win32 entries).1 /\ merged (index_entries win32 entries).2 = [].
Proof.
  unfold index_entries. induction entries as [|e entries IH] using rev_ind.
  - split; [split|done]; cbn; [|done|].
    + intros key. split; [by intros ?%not_elem_of_nil|]. by intros (e & ?%not_elem_of_nil & _).
    + intros key _ (e & ?%not_elem_of_nil & _). done.
  - rewrite fold_left_app. cbn [fold_left]. destruct (fold_left _ entries _) as [ix st]. cbn [fst snd] in IH.
    destruct IH as [[Hd Hs Hn] Hm]. split; [|done]. unfold index_entry. cbn [fst]. split; cbn [denyPaths explicitByPath].
    + intros key. unfold denied. setoid_rewrite elem_of_app. setoid_rewrite list_elem_of_singleton.
      destruct (wp_enabled (ex_workspace e)) eqn:Ee.
      * rewrite Hd. unfold denied. split; [naive_solver|]. intros (x & [Hx| ->] & H1 & H2); [eauto|congruence].
      * rewrite elem_of_set_add, Hd. unfold denied, key_of. split; [naive_solver|].
        intros (x & [Hx| ->] & H1 & H2); [left; eauto|by right].
    + intros key w. rewrite jm_get_set. destruct (key =s _) eqn:Ek.
      * apply String.eqb_eq in Ek as ->. intros [= <-]. exists e. split; [|done]. apply elem_of_app. right. by apply list_elem_of_singleton.
      * intros (x & Hx & H)%Hs. exists x. split; [|done]. apply elem_of_app. by left.
    + intros key. rewrite jm_get_set. destruct (key =s _) eqn:Ek; [done|]. intros Hnone (x & Hx & Hk).
      apply elem_of_app in Hx as [Hx|Hx%list_elem_of_singleton]; [by apply (Hn key Hnone); exists x|].
      subst x. unfold key_of in Hk. rewrite <- Hk, String.eqb_refl in Ek. done.
Qed.

Section Exposure.
Context (entries : list ExplicitPolicyInput) (found : list DiscoveredWorkspaceCandidate)
        (options : MergeOptions) (limits : WorkspaceLimits).

Definition trust_ok (c : DiscoveredWorkspaceCandidate) : Prop :=
  default true (requireTrustedWorkspace options) = true -> cand_trusted c = true.

(** An open folder is shown when it is trusted where that is required, not denied, and either named by
    the explicit policy or not a technical folder. *)
Definition opens (c : DiscoveredWorkspaceCandidate) : Prop :=
  trust_ok c /\ ~ denied entries (key_of_candidate c)
  /\ (named entries (key_of_candidate c) \/ isImplicitTechnicalWorkspaceCandidate c = false).

(** Where a workspace of the merged policy comes from. *)
Inductive origin (key : string) : WorkspacePolicy -> Prop :=
  | origin_explicit e path :
      e ∈ entries -> key_of e = key -> wp_enabled (ex_workspace e) = true -> canonicalPathKey win32 path = key ->
      origin key (withAutoWriteAccess win32 (ex_workspace e) path options)
  | origin_discovered c ids :
      c ∈ found -> key_of_candidate c = key -> trust_ok c -> ~ named entries key ->
      isImplicitTechnicalWorkspaceCandidate c = false ->
      origin key (withAutoWriteAccess win32 (createDiscoveredWorkspace sha256 c limits ids).1
                    (cand_canonicalRootPath c) options).

(** One step of a loop: it puts a workspace under the key, or leaves the map. *)
Definition stepped (key : string) (shown : Prop) (st st' : Merging) : Prop :=
  (shown /\ exists w, origin key w /\ merged st' = jm_set (merged st) key w)
  \/ (~ shown /\ merged st' = merged st).

Lemma discovered_step ix st c :
  Indexed entries ix -> c ∈ found ->
  stepped (key_of_candidate c) (opens c) st (expose_discovered win32 sha256 options limits ix st c).
Proof.
  intros [Hd Hs Hn] Hc. unfold expose_discovered, stepped, opens. fold (key_of_candidate c).
  destruct (default true (requireTrustedWorkspace options) && negb (cand_trusted c)) eqn:Et.
  { right. split; [|done]. apply andb_prop in Et as [E1 E2%negb_true_iff].
    intros (H & _). apply H in E1. congruence. }
  assert (Hok : trust_ok c).
  { intros H. rewrite H in Et. cbn in Et. by apply negb_false_iff. }
  destruct (includes (denyPaths ix) _) eqn:Ed.
  { apply includes_spec, Hd in Ed. right. split; [|done]. by intros (_ & ? & _). }
  apply includes_false in Ed. rewrite Hd in Ed.
  destruct (jm_get (explicitByPath ix) _) as [w|] eqn:Ew.
  - apply Hs in Ew as (e & He & Hk & <-). destruct (wp_enabled (ex_workspace e)) eqn:Een.
    + left. split; [split; [done|split; [done|left; by exists e]]|]. eexists. split; [|done].
      by apply origin_explicit.
    + exfalso. apply Ed. by exists e.
  - apply Hn in Ew. destruct (isImplicitTechnicalWorkspaceCandidate c) eqn:Ei.
    + right. split; [|done]. intros (_ & _ & [H|H]); [done|congruence].
    + pose proof (fun ids => origin_discovered (key_of_candidate c) c ids Hc eq_refl Hok Ew Ei) as Ho.
      specialize (Ho (usedIds st)). destruct (createDiscoveredWorkspace _ _ _ _) as [created ids'].
      left. split; [by auto|]. eexists. by split.
Qed.

Lemma explicit_step st e :
  e ∈ entries ->
  merged (expose_explicit win32 options st e) = merged st /\
    (wp_enabled (ex_workspace e) = true -> jm_has (merged st) (key_of e) = true)
  \/ wp_enabled (ex_workspace e) = true /\ exists w, origin (key_of e) w
     /\ merged (expose_explicit win32 options st e) = jm_set (merged st) (key_of e) w.
Proof.
  intros He. unfold expose_explicit. fold (key_of e).
  destruct (wp_enabled (ex_workspace e)) eqn:Ee; cbn [negb]; [|left; by split].
  destruct (jm_has (merged st) (key_of e)) eqn:Eh; [by left|].
  right. split; [done|]. eexists. split; [by apply origin_explicit|done].
Qed.

Lemma jm_has_set {A} (m : jsmap A) k a k' : jm_has (jm_set m k a) k' = (k' =s k) || jm_has m k'.
Proof. unfold jm_has. rewrite jm_get_set. by destruct (k' =s k). Qed.

(** What holds of the map while it grows: its keys are those shown so far. *)
Record Grown (shown : string -> Prop) (st : Merging) : Prop := {
  grown_origin : forall key w, jm_get (merged st) key = Some w -> origin key w;
  grown_keys : forall key, jm_has (merged st) key = true <-> shown key;
  grown_wf : jm_wf (merged st);
}.

Lemma grown_set shown st st' key w :
  Grown shown st -> origin key w -> merged st' = jm_set (merged st) key w ->
  Grown (fun k => shown k \/ k = key) st'.
Proof.
  intros [Ho Hk Hw] Hor Hm. split; rewrite Hm.
  - intros k x. rewrite jm_get_set. destruct (k =s key) eqn:E; [|apply Ho].
    apply String.eqb_eq in E as ->. by intros [= <-].
  - intros k. rewrite jm_has_set, orb_true_iff, String.eqb_eq, Hk. tauto.
  - by apply jm_wf_set.
Qed.

Lemma grown_ext shown shown' st st' :
  Grown shown st -> merged st' = merged st -> (forall k, shown k <-> shown' k) -> Grown shown' st'.
Proof. intros [Ho Hk Hw] Hm He. split; rewrite Hm; [done| |done]. intros k. by rewrite Hk, He. Qed.

Lemma discovered_loop ix st cs :
  Indexed entries ix -> (forall c, c ∈ cs -> c ∈ found) -> Grown (fun _ => False) st ->
  Grown (fun k => exists c, c ∈ cs /\ key_of_candidate c = k /\ opens c)
    (fold_left (expose_discovered win32 sha256 options limits ix) cs st).
Proof.
  intros Hix Hin Hst. induction cs as [|c cs IH] using rev_ind.
  - apply (grown_ext (fun _ => False) _ st); [done..|]. intros k. split; [done|].
    by intros (c & ?%not_elem_of_nil & _).
  - rewrite fold_left_app. cbn [fold_left]. specialize (IH (fun x Hx => Hin x (proj2 (elem_of_app _ _ _) (or_introl Hx)))).
    assert (c ∈ found) as Hc by (apply Hin, elem_of_app; right; by apply list_elem_of_singleton).
    destruct (discovered_step ix (fold_left (expose_discovered win32 sha256 options limits ix) cs st) c Hix Hc)
      as [(Ho & w & Hw & Hm)|(Ho & Hm)].
    + eapply grown_ext; [by eapply grown_set|done|]. intros k. setoid_rewrite elem_of_app.
      setoid_rewrite list_elem_of_singleton. split.
      * intros [(x & Hx & H)| ->]; [exists x; by auto|exists c; by auto].
      * intros (x & [Hx| ->] & Hk & H); [left; by exists x|by right].
    + eapply grown_ext; [exact IH|exact Hm|]. intros k. setoid_rewrite elem_of_app.
      setoid_rewrite list_elem_of_singleton. split; [naive_solver|].
      intros (x & [Hx| ->] & Hk & H); [by exists x|done].
Qed.

Lemma explicit_loop shown st es :
  (forall e, e ∈ es -> e ∈ entries) -> Grown shown st ->
  Grown (fun k => shown k \/ exists e, e ∈ es /\ key_of e = k /\ wp_enabled (ex_workspace e) = true)
    (fold_left (expose_explicit win32 options) es st).
Proof.
  intros Hin Hst. induction es as [|e es IH] using rev_ind.
  - apply (grown_ext shown _ st); [done..|]. intros k. split; [by left|].
    intros [H|(e & ?%not_elem_of_nil & _)]; done.
  - rewrite fold_left_app. cbn [fold_left]. specialize (IH (fun x Hx => Hin x (proj2 (elem_of_app _ _ _) (or_introl Hx)))).
    assert (e ∈ entries) as He by (apply Hin, elem_of_app; right; by apply list_elem_of_singleton).
    destruct (explicit_step (fold_left (expose_explicit win32 options) es st) e He)
      as [(Hm & Hh)|(Hen & w & Hw & Hm)].
    + eapply grown_ext; [exact IH|exact Hm|]. intros k. setoid_rewrite elem_of_app.
      setoid_rewrite list_elem_of_singleton. split; [naive_solver|].
      intros [H|(x & [Hx| ->] & Hk & H)]; [by left|right; by exists x|].
      apply Hh, (grown_keys _ _ IH) in H. by rewrite Hk in H.
    + eapply grown_ext; [by eapply grown_set|done|]. intros k. setoid_rewrite elem_of_app.
      setoid_rewrite list_elem_of_singleton. split.
      * intros [[H|(x & Hx & H)]| ->]; [by left|right; exists x; by auto|right; exists e; by auto].
      * intros [H|(x & [Hx| ->] & Hk & H)]; [by auto|left; right; by exists x|by right].
Qed.

(** The folders the merged policy shows. *)
Definition exposed (key : string) : Prop :=
  (default true (includeOpenWorkspaces options) = true
   /\ exists c, c ∈ found /\ key_of_candidate c = key /\ opens c)
  \/ (default false (alwaysExposeExplicit options) = true
      /\ exists e, e ∈ entries /\ key_of e = key /\ wp_enabled (ex_workspace e) = true).

Lemma merge_all_grown : Grown exposed (merge_all win32 sha256 entries found options limits).
Proof.
  unfold merge_all, exposed. destruct (index_entries_spec entries) as [Hix Hm].
  destruct (index_entries win32 entries) as [ix st]. cbn [fst snd] in *.
  assert (H0 : Grown (fun _ => False) st).
  { split; rewrite Hm; [done|done|constructor]. }
  assert (H1 : Grown (fun k => default true (includeOpenWorkspaces options) = true
                 /\ exists c, c ∈ found /\ key_of_candidate c = k /\ opens c)
           (if default true (includeOpenWorkspaces options)
            then fold_left (expose_discovered win32 sha256 options limits ix) found st else st)).
  { destruct (default true _).
    - refine (grown_ext _ _ _ _ (discovered_loop ix st found Hix (fun c Hc => Hc) H0) eq_refl _). intros k. tauto.
    - apply (grown_ext (fun _ => False) _ st); [done..|]. intros k. split; [done|]. by intros [? _]. }
  destruct (default false (alwaysExposeExplicit options)).
  - refine (grown_ext _ _ _ _ (explicit_loop _ _ entries (fun e He => He) H1) eq_refl _). intros k. tauto.
  - eapply grown_ext; [exact H1|done|]. intros k. split; [by left|]. by intros [?|[? _]].
Qed.

Lemma sort_insert_perm w ws : sort_insert localeCompare w ws ≡ₚ w :: ws.
Proof.
  induction ws as [|x ws IH]; simpl; [done|]. destruct (_ <=? 0); [|done]. rewrite IH. apply Permutation_swap.
Qed.
Lemma sort_by_id_perm ws : sort_by_id localeCompare ws ≡ₚ ws.
Proof.
  unfold sort_by_id. rewrite <- (app_nil_r ws) at 2. generalize (@nil WorkspacePolicy) as acc.
  induction ws as [|w ws IH]; intros acc; simpl; [done|].
  rewrite IH, sort_insert_perm. symmetry. apply Permutation_middle.
Qed.
End Exposure.

(** The merged policy has one workspace for each folder it shows, and it shows exactly the
    open folders that are trusted where that is required, not denied, and named or not
    technical, and, where that is asked for, every enabled entry.  It fails only when a
    limit is refused or no folder is left. *)
Theorem merge_exposes_exactly entries found options :
  match mergeWorkspacePolicies win32 sha256 localeCompare entries found options with
  | Ok (ws, _) => exists m : jsmap WorkspacePolicy, jm_wf m /\ ws ≡ₚ jm_values m
      /\ forall key, jm_has m key = true <-> exposed entries found options key
  | Err _ => is_ok (clampDiscoveredLimits (discoveredLimitsOverride options)) = false
      \/ forall key, ~ exposed entries found options key
  end.
Proof.
  unfold mergeWorkspacePolicies. destruct (clampDiscoveredLimits _) as [limits|e]; [|by left]. cbn.
  destruct (merge_all_grown entries found options limits) as [Ho Hk Hw].
  set (m := merged _) in *. pose proof (sort_by_id_perm (jm_values m)) as Hp.
  destruct (sort_by_id localeCompare (jm_values m)) as [|w ws].
  - right. apply Permutation_nil in Hp. intros key Hkey. apply Hk in Hkey. by destruct m as [|[? ?] ?].
  - exists m. done.
Qed.

(** C21.  Discovery never grants more than reading: a workspace of the merged policy is an enabled
    entry of the explicit policy, or a folder that no entry names, trusted where that is
    required, with the clamped limits and standard confirmation.  Beyond what an entry says,
    writing and running commands are given only under the configured write roots. *)
Theorem merge_least_privilege entries found options ws cat w
    (H : mergeWorkspacePolicies win32 sha256 localeCompare entries found options = Ok (ws, cat)) (Hw : w ∈ ws) :
  (exists e path, e ∈ entries /\ wp_enabled (ex_workspace e) = true
     /\ canonicalPathKey win32 path = key_of e /\ wp_id w = wp_id (ex_workspace e)
     /\ wp_confirmationMode w = wp_confirmationMode (ex_workspace e)
     /\ wp_allowedRoots w = wp_allowedRoots (ex_workspace e) /\ wp_blockedGlobs w = wp_blockedGlobs (ex_workspace e)
     /\ wp_limits w = wp_limits (ex_workspace e)
     /\ (isAutoWriteEligible win32 path options = false -> w = ex_workspace e))
  \/ (exists c, c ∈ found /\ trust_ok options c /\ ~ named entries (key_of_candidate c)
     /\ wp_rootPath w = cand_rootPath c /\ wp_confirmationMode w = standard
     /\ clampDiscoveredLimits (discoveredLimitsOverride options) = Ok (wp_limits w)
     /\ (isAutoWriteEligible win32 (cand_canonicalRootPath c) options = false ->
         wp_permissionProfile w = planning_readonly /\ wp_allowWrites w = [] /\ wp_allowShell w = [])).
Proof.
  revert H. unfold mergeWorkspacePolicies. destruct (clampDiscoveredLimits _) as [limits|e]; [|done]. cbn.
  destruct (merge_all_grown entries found options limits) as [Ho _ Hm].
  set (m := merged _) in *. pose proof (sort_by_id_perm (jm_values m)) as Hp.
  intros H. assert (Hin : w ∈ jm_values m).
  { rewrite <- Hp. destruct (sort_by_id localeCompare (jm_values m)); [done|]. by injection H as -> _. }
  apply list_elem_of_fmap in Hin as ([key w'] & -> & Hin). apply jm_in_get, Ho in Hin; [|done]. cbn [snd].
  destruct Hin as [e path He Hk Hen Hpath|c ids Hc Hk Ht Hn Hi]; unfold withAutoWriteAccess.
  - left. exists e, path. rewrite Hk. destruct (isAutoWriteEligible _ _ _); cbn [negb]; by repeat split.
  - right. exists c. subst key. destruct (isAutoWriteEligible _ _ _); cbn [negb]; by repeat split.
Qed.
End Properties.

(** *** A trial run *)
Module Trial.
Definition hash (s : string) : string := "0123456789abcdef".
Definition compare (a b : string) : Z := match String.compare a b with Lt => -1 | Eq => 0 | Gt => 1 end.
Definition policy (id : string) (enabled : bool) : WorkspacePolicy :=
  mkPolicy id id ("/srv/" +:+ id) None enabled planning_handoff standard ["."%string] []
    DISCOVERED_WORKSPACE_LIMIT_CEILINGS [] [] [powershell].
Definition entries : list ExplicitPolicyInput :=
  [mkExplicit (policy "app" true) "/srv/app"; mkExplicit (policy "private" false) "/srv/private"].
Definition found : list DiscoveredWorkspaceCandidate :=
  [mkCandidate "App" "/srv/app" "/srv/app" true; mkCandidate "Private" "/srv/private" "/srv/private" true;
   mkCandidate "Site" "/srv/site" "/srv/site/" true; mkCandidate "dist" "/srv/app/dist" "/srv/app/dist" true;
   mkCandidate "Other" "/srv/other" "/srv/other" false].
Definition options : MergeOptions :=
  mkOptions None None None (Some (mkOverride (Some (1000 # 1)) None None None None)) None None (Some true) (Some "/srv/si"%string).

Lemma trial_ids :
  match mergeWorkspacePolicies false hash compare entries found options with
  | Ok (ws, _) => map (fun w => (wp_id w, wp_permissionProfile w)) ws
                  = [("app"%string, planning_handoff); ("site-01234567"%string, planning_readonly)]
  | Err _ => False
  end.
Proof. vm_compute. reflexivity. Qed.
End Trial.

Lemma discovered_id_valid_witness :
  id_schema (wp_id (createDiscoveredWorkspace Trial.hash (mkCandidate " --My App!" "/x" "/x" true)
                      DISCOVERED_WORKSPACE_LIMIT_CEILINGS ["my-app-01234567"%string]).1) = true.
Proof. apply discovered_id_valid. intros v. vm_compute. reflexivity. Defined.

Lemma merge_least_privilege_witness :
  exists ws cat w, mergeWorkspacePolicies false Trial.hash Trial.compare Trial.entries Trial.found Trial.options
                   = Ok (ws, cat) /\ w ∈ ws
    /\ ((exists e, e ∈ Trial.entries /\ wp_id w = wp_id (ex_workspace e))
        \/ (exists c, c ∈ Trial.found /\ wp_rootPath w = cand_rootPath c)).
Proof.
  destruct (mergeWorkspacePolicies false Trial.hash Trial.compare Trial.entries Trial.found Trial.options)
    as [[[|w ws] cat]|e] eqn:E; [vm_compute in E; discriminate E| |vm_compute in E; discriminate E].
  exists (w :: ws), cat, w. split; [reflexivity|]. split; [left|].
  destruct (merge_least_privilege false Trial.hash Trial.compare Trial.entries Trial.found Trial.options
              (w :: ws) cat w E (list_elem_of_here _ _)) as [(e & p & H)|(c & H)].
  - left. exists e. split; apply H.
  - right. exists c. split; apply H.
Defined.
