(* ===== verification/RelayRequests.v ===== *)
(** The requests that the gateway relays to the Workspace Agent:
    services/mcp-gateway/src/relay/request-manager.ts, with
    packages/mcp-core/src/relay-retry-policy.ts.

    A call puts a request in the pending map, sends it and answers a promise; a
    response, a failed send, the timer, an abort or the end of the connection settles it.
    [Manager] keeps the pending map together with what is observable from outside:
    the frames sent and the promises settled, in order.  A promise is named by its
    request identifier, a socket and an abort signal by a number.  JSON values, the request and result
    schemas and the length of a frame are parameters; clock readings, identifiers
    and the generation are arguments.  Logging is left out. *)
From S2P Require Import Prelude Errors JsString JsMap Timeouts.
Open Scope Z_scope.

(** [relayOperations] *)
Inductive RelayOperation :=
  | listWorkspaces | listWorkspaceRoots | listFiles | readFile | readBinaryFile | writeFile | patchFile
  | runValidation | runCommand | searchFiles | inspectGit | getWorkspaceContext
  | startBackgroundTask | getBackgroundTask | waitBackgroundTask | listBackgroundTasks
  | cancelBackgroundTask | readBackgroundTaskLogs | writeBackgroundTaskStdin | readBackgroundTaskOutput
  | gitCreateBranch | gitStagePaths | gitUnstagePaths | gitCommit | gitMergeBranch | gitPushBranch
  | githubGetRepository | githubCreateRepository | githubGetPullRequest | githubCreatePullRequest
  | githubMergePullRequest.

#[export] Instance RelayOperation_eq_dec : EqDecision RelayOperation.
Proof. solve_decision. Defined.

Definition relay_name (o : RelayOperation) : string :=
  match o with
  | listWorkspaces => "listWorkspaces" | listWorkspaceRoots => "listWorkspaceRoots" | listFiles => "listFiles"
  | readFile => "readFile" | readBinaryFile => "readBinaryFile" | writeFile => "writeFile" | patchFile => "patchFile"
  | runValidation => "runValidation" | runCommand => "runCommand" | searchFiles => "searchFiles"
  | inspectGit => "inspectGit" | getWorkspaceContext => "getWorkspaceContext"
  | startBackgroundTask => "startBackgroundTask" | getBackgroundTask => "getBackgroundTask"
  | waitBackgroundTask => "waitBackgroundTask" | listBackgroundTasks => "listBackgroundTasks"
  | cancelBackgroundTask => "cancelBackgroundTask" | readBackgroundTaskLogs => "readBackgroundTaskLogs"
  | writeBackgroundTaskStdin => "writeBackgroundTaskStdin" | readBackgroundTaskOutput => "readBackgroundTaskOutput"
  | gitCreateBranch => "gitCreateBranch" | gitStagePaths => "gitStagePaths" | gitUnstagePaths => "gitUnstagePaths"
  | gitCommit => "gitCommit" | gitMergeBranch => "gitMergeBranch" | gitPushBranch => "gitPushBranch"
  | githubGetRepository => "githubGetRepository" | githubCreateRepository => "githubCreateRepository"
  | githubGetPullRequest => "githubGetPullRequest" | githubCreatePullRequest => "githubCreatePullRequest"
  | githubMergePullRequest => "githubMergePullRequest"
  end.

(** *** relay-retry-policy.ts *)
Definition RETRYABLE_RELAY_OPERATIONS : list RelayOperation :=
  [listWorkspaces; listWorkspaceRoots; listFiles; readFile; readBinaryFile; runValidation; searchFiles; inspectGit;
   getWorkspaceContext; getBackgroundTask; waitBackgroundTask; listBackgroundTasks; readBackgroundTaskLogs;
   githubGetRepository; githubGetPullRequest].
Definition isRetryableRelayOperation (o : RelayOperation) : bool := includes RETRYABLE_RELAY_OPERATIONS o.

Inductive AgentAvailabilityReason :=
  | agent_not_connected | relay_send_failed | agent_disconnected | gateway_shutdown | reconnect_timeout.
Definition availability_reason (r : AgentAvailabilityReason) : string :=
  match r with
  | agent_not_connected => "agent_not_connected" | relay_send_failed => "relay_send_failed"
  | agent_disconnected => "agent_disconnected" | gateway_shutdown => "gateway_shutdown"
  | reconnect_timeout => "reconnect_timeout"
  end.

Definition createAgentUnavailableDetails (operation : RelayOperation) (reason : AgentAvailabilityReason)
    (outcome : AgentAvailabilityOutcome) (connectionGeneration : Z) (retryAttempted : bool) : ErrorDetails :=
  mkDetails None None (Some (relay_name operation)) (Some (availability_reason reason)) None
    (Some (isRetryableRelayOperation operation)) (Some retryAttempted) (Some outcome) (Some connectionGeneration).

(** *** Requests, cancellations, responses *)
Record OperationContext := mkContext {
  correlationId : option string;
  invocationId : option string;
  idempotencyKey : option string;
  cx_ownerScope : option string;
  cx_deadline : option OperationDeadline;
  cx_signal : option nat;
}.

Inductive CancelReason := cancelled | client_disconnected | upstream_timeout.

Definition operationCompletionGraceMs (operation : RelayOperation) : Z :=
  match operation with
  | runCommand => COMMAND_TERMINATION_GRACE_MS
  | waitBackgroundTask => BACKGROUND_WAIT_COMPLETION_GRACE_MS
  | _ => 0
  end.

(** [PendingRequest], with the sender and the deadline that the callbacks of the call
    close over; the timer fires [timeoutAt] at the earliest. *)
Record PendingRequest := mkPending {
  operation : RelayOperation;
  generation : Z;
  startedAt : Z;
  timeoutAt : Z;
  deadline : OperationDeadline;
  sender : nat;
  signal : option nat;
}.

Section RelayRequests.
Context {J : Type}.

Record RelayRequest := mkRequest {
  rq_requestId : string;
  rq_deadline : OperationDeadline;
  rq_context : OperationContext;
  rq_operation : RelayOperation;
  rq_input : J;
}.
Inductive Frame :=
  | RequestFrame (r : RelayRequest)
  | CancelFrame (requestId : string) (reason : CancelReason).
Record RelayResponse := mkResponse {
  rs_requestId : string;
  rs_body : result AppError J;
}.

Context (relayRequestSchema : RelayRequest -> option RelayRequest) (byteLength : RelayRequest -> Z)
        (relayResultSchema : RelayOperation -> J -> option J).

Record Options := mkOpts {
  requestTimeoutMs : Z;
  maxConcurrency : Z;
  maxPayloadBytes : Z;
}.

(** [aborted_signals] are the signals aborted so far, each with its reason when that is an
    [AppError]. *)
Record Manager := mkManager {
  pending : jsmap PendingRequest;
  aborted_signals : list (nat * option AppError);
  frames : list (nat * Frame);
  settled : list (string * result exn J);
}.

Definition with_pending (p : jsmap PendingRequest) (m : Manager) : Manager :=
  mkManager p (aborted_signals m) (frames m) (settled m).
Definition send (socket : nat) (f : Frame) (m : Manager) : Manager :=
  mkManager (pending m) (aborted_signals m) (frames m ++ [(socket, f)]) (settled m).
Definition settle (requestId : string) (outcome : result exn J) (m : Manager) : Manager :=
  mkManager (pending m) (aborted_signals m) (frames m) (settled m ++ [(requestId, outcome)]).

(** [context.signal?.aborted] and [signal.reason]. *)
Definition abort_of (signal : option nat) (m : Manager) : option (option AppError) :=
  match signal with
  | Some s => snd <$> find_first (fun e => bool_decide (e.1 = s)) (aborted_signals m)
  | None => None
  end.

Definition size (m : Manager) : Z := Z.of_nat (jm_size (pending m)).

Definition takePending (requestId : string) (m : Manager) : Manager * option PendingRequest :=
  match jm_get (pending m) requestId with
  | None => (m, None)
  | Some p => (with_pending (jm_delete (pending m) requestId) m, Some p)
  end.

(** [pending.reject(...)] of a request taken out of the map. *)
Definition reject_with (requestId : string) (error : PendingRequest -> exn) (m : Manager) : Manager :=
  match takePending requestId m with
  | (m, Some p) => settle requestId (Err (error p)) m
  | (m, None) => m
  end.

Definition cancelPending (socket : nat) (requestId : string) (reason : CancelReason) (error : exn) (m : Manager) :
    Manager :=
  match takePending requestId m with
  | (m, Some _) => settle requestId (Err error) (send socket (CancelFrame requestId reason) m)
  | (m, None) => m
  end.

(** [new AppError(code, message, { lifecycle: createOperationLifecycle(...), details })]. *)
Definition terminal_error (c : ErrorCode) (msg : string) (deadline : OperationDeadline) (startedAt : Z)
    (layer : OperationTerminationLayer) (reason : OperationTerminalReason) (diagnostic : string)
    (details : option ErrorDetails) (now : Z) : result exn AppError :=
  l ← createOperationLifecycle deadline startedAt (Some (mkTerminal layer reason (Some diagnostic))) now;
  Ok (mkAppError c msg (Some l) details).

Definition relayInterruption (reason : option AppError) (deadline : OperationDeadline) (startedAt now : Z) :
    result exn (CancelReason * AppError) :=
  match reason with
  | Some error =>
      Ok (match lifecycle error ≫= lc_reason with
          | Some reason_timeout | Some reason_upstream_timeout => upstream_timeout
          | Some reason_cancelled => cancelled
          | Some reason_client_disconnected => client_disconnected
          | _ => if bool_decide (code error = AGENT_TIMEOUT) then upstream_timeout else cancelled
          end, error)
  | None =>
      error ← terminal_error OPERATION_CANCELLED
                "The MCP or HTTP client disconnected before the operation completed."
                deadline startedAt layer_mcp_server reason_client_disconnected
                "The upstream request ended before the relay operation completed." None now;
      Ok (client_disconnected, error)
  end.

(** [onAbort] of a request. *)
Definition onAbort (requestId : string) (p : PendingRequest) (reason : option AppError) (now : Z) (m : Manager) :
    result exn Manager :=
  interruption ← relayInterruption reason (deadline p) (startedAt p) now;
  Ok (cancelPending (sender p) requestId interruption.1 (App interruption.2) m).

(** *** call *)
(** The part of a context that is sent. *)
Definition relay_context (c : OperationContext) : OperationContext :=
  mkContext (correlationId c) (invocationId c) (idempotencyKey c) (cx_ownerScope c) None None.

(** The executor of the promise; an exception in it rejects the promise. *)
Definition execute (request payload : RelayRequest) (socket : nat) (sig : option nat) (gen startedAt now : Z)
    (m : Manager) : Manager :=
  let id := rq_requestId request in
  let operation := rq_operation request in
  let deadline := rq_deadline request in
  let remainingMs := remainingOperationTimeMs deadline startedAt in
  if remainingMs <=? 0 then
    settle id
      (match terminal_error AGENT_TIMEOUT "The relay request deadline has expired." deadline startedAt
               layer_gateway reason_upstream_timeout
               "Gateway received an already expired operation deadline." None now with
       | Ok e => Err (App e)
       | Err e => Err e
       end) m
  else
    let p := mkPending operation gen startedAt
               (startedAt + (remainingMs + operationCompletionGraceMs operation)) deadline socket sig in
    let m := with_pending (jm_set (pending m) id p) m in
    match abort_of (signal p) m with
    | Some reason =>
        match onAbort id p reason now m with
        | Ok m => m
        | Err e => settle id (Err e) m
        end
    | None => send socket (RequestFrame payload) m
    end.

(** [call]: throws, or answers the promise named by the identifier. *)
Definition call (options : Options) (socket : nat) (operation : RelayOperation) (input : J)
    (context : OperationContext) (gen : Z) (requestId : string) (now startedAt now' : Z) (m : Manager) :
    Manager * result exn string :=
  if size m >=? maxConcurrency options then
    (m, throw AGENT_BUSY "The local agent reached its concurrency limit.")
  else
    match (match cx_deadline context with
           | Some d => createOperationDeadline MAX_SYNCHRONOUS_OPERATION_TIMEOUT_MS (Some d) now
           | None => createOperationDeadline (requestTimeoutMs options) None now
           end) with
    | Err e => (m, Err e)
    | Ok d =>
        let request := mkRequest requestId d (relay_context context) operation input in
        match relayRequestSchema request with
        | None => (m, throw RELAY_PROTOCOL_ERROR "Relay request does not match the strict operation schema.")
        | Some payload =>
            if byteLength payload >? maxPayloadBytes options then
              (m, throw RELAY_PROTOCOL_ERROR "Relay request exceeds the payload limit.")
            else (execute request payload socket (cx_signal context) gen startedAt now' m, Ok requestId)
        end
    end.

(** *** The callbacks *)
(** The timer of a request. *)
Definition timeout_fired (requestId : string) (now : Z) (m : Manager) : Manager :=
  match jm_get (pending m) requestId with
  | None => m
  | Some p =>
      match terminal_error AGENT_TIMEOUT "The local agent did not respond in time." (deadline p) (startedAt p)
              layer_gateway reason_upstream_timeout
              "Gateway relay deadline expired while awaiting the Workspace Agent." None now with
      | Ok e => cancelPending (sender p) requestId upstream_timeout (App e) m
      | Err _ => m
      end
  end.

(** The callback of [send] with an error. *)
Definition send_failed (requestId : string) (now : Z) (m : Manager) : Manager :=
  match takePending requestId m with
  | (m', Some p) =>
      match terminal_error AGENT_UNAVAILABLE "Relay request could not be sent." (deadline p) (startedAt p)
              layer_websocket reason_client_disconnected
              "The relay WebSocket failed before the request was delivered."
              (Some (createAgentUnavailableDetails (operation p) relay_send_failed outcome_unknown (generation p) false))
              now with
      | Ok e => settle requestId (Err (App e)) m'
      | Err _ => m'
      end
  | (_, None) => m
  end.

(** The [abort] event of a signal: the listeners run in the order they were added. *)
Definition signal_aborted (s : nat) (reason : option AppError) (now : Z) (m : Manager) : Manager :=
  if bool_decide (abort_of (Some s) m = None) then
    let m := mkManager (pending m) (aborted_signals m ++ [(s, reason)]) (frames m) (settled m) in
    fold_left (fun m e =>
      if bool_decide (signal e.2 = Some s) then
        match onAbort e.1 e.2 reason now m with Ok m' => m' | Err _ => m end
      else m) (pending m) m
  else m.

Definition complete (response : RelayResponse) (m : Manager) : Manager :=
  match takePending (rs_requestId response) m with
  | (_, None) => m
  | (m', Some p) =>
      settle (rs_requestId response)
        match rs_body response with
        | Err error => Err (App (mkAppError (code error) (message error) (lifecycle error) (details error)))
        | Ok result =>
            match relayResultSchema (operation p) result with
            | None => throw RELAY_PROTOCOL_ERROR "The agent returned an invalid result."
            | Some data => Ok data
            end
        end m'
  end.

Definition unavailable (msg : string) (reason : AgentAvailabilityReason) (p : PendingRequest) : exn :=
  App (mkAppError AGENT_UNAVAILABLE msg None
         (Some (createAgentUnavailableDetails (operation p) reason outcome_unknown (generation p) false))).

Definition rejectAll (msg : string) (reason : AgentAvailabilityReason) (m : Manager) : Manager :=
  fold_left (fun m id => reject_with id (unavailable msg reason) m) (jm_keys (pending m)) m.

Definition rejectGeneration (gen : Z) (msg : string) (reason : AgentAvailabilityReason) (m : Manager) : Manager :=
  fold_left (fun m e => if negb (generation e.2 =? gen) then m else reject_with e.1 (unavailable msg reason) m)
    (pending m) m.
End RelayRequests.

(** *** The manager as a transition system *)
Section Events.
Context {J : Type}.
Context (relayRequestSchema : RelayRequest (J := J) -> option (RelayRequest (J := J)))
        (byteLength : RelayRequest (J := J) -> Z)
        (relayResultSchema : RelayOperation -> J -> option J) (options : Options).

Inductive event :=
  | Call (socket : nat) (operation : RelayOperation) (input : J) (context : OperationContext) (gen : Z)
      (requestId : string) (now startedAt now' : Z)
  | TimeoutFired (requestId : string) (now : Z)
  | SendFailed (requestId : string) (now : Z)
  | SignalAborted (s : nat) (reason : option AppError) (now : Z)
  | Complete (response : RelayResponse (J := J))
  | RejectAll (msg : string) (reason : AgentAvailabilityReason)
  | RejectGeneration (gen : Z) (msg : string) (reason : AgentAvailabilityReason).

(** The manager after an event, and the promise it made, with its operation. *)
Definition run_event (e : event) (m : Manager) : Manager (J := J) * list (string * RelayOperation) :=
  match e with
  | Call socket operation input context gen id now startedAt now' =>
      match call relayRequestSchema byteLength options socket operation input context gen id now startedAt now' m with
      | (m', Ok id) => (m', [(id, operation)])
      | (m', Err _) => (m', [])
      end
  | TimeoutFired id now => (timeout_fired id now m, [])
  | SendFailed id now => (send_failed id now m, [])
  | SignalAborted s reason now => (signal_aborted s reason now m, [])
  | Complete response => (complete relayResultSchema response m, [])
  | RejectAll msg reason => (rejectAll msg reason m, [])
  | RejectGeneration gen msg reason => (rejectGeneration gen msg reason m, [])
  end.

(** Random identifiers do not repeat, and the deadlines of callers are well formed. *)
Definition event_ok (e : event) (started : list (string * RelayOperation)) : Prop :=
  match e with
  | Call _ _ _ _ _ id _ _ _ => id ∉ map fst started
  | _ => True
  end.

(** The states the manager reaches, with the promises made on the way. *)
Inductive runs : list (string * RelayOperation) -> Manager (J := J) -> Prop :=
  | runs_start : runs [] (mkManager [] [] [] [])
  | runs_event started m e :
      runs started m -> event_ok e started ->
      runs (started ++ (run_event e m).2) (run_event e m).1.

(** The requests sent. *)
Definition requests (fs : list (nat * Frame (J := J))) : list string :=
  flat_map (fun f => match f.2 with RequestFrame r => [rq_requestId r] | CancelFrame _ _ => [] end) fs.

(** The promises not settled, and those settled. *)
Definition promises (m : Manager (J := J)) : list string := jm_keys (pending m) ++ map fst (settled m).

(** A pending request has a well-formed deadline, and its timer is set to the deadline and the grace
    of its operation. *)
Definition pending_ok (p : PendingRequest) : Prop :=
  deadline_schema (deadline p) = true
  /\ timeoutAt p = deadlineAt (deadline p) + operationCompletionGraceMs (operation p).

Record Inv (started : list (string * RelayOperation)) (m : Manager (J := J)) : Prop := {
  inv_wf : jm_wf (pending m);
  inv_unique : NoDup (map fst started);
  inv_promises : promises m ≡ₚ map fst started;
  inv_pending : forall id p, jm_get (pending m) id = Some p ->
    (id, operation p) ∈ started /\ pending_ok p;
  inv_settled : forall id v, (id, Ok v) ∈ settled m ->
    exists o r, (id, o) ∈ started /\ relayResultSchema o r = Some v;
  inv_sent : NoDup (requests (frames m)) /\ forall id, id ∈ requests (frames m) -> id ∈ map fst started;
  inv_size : size m <= Z.max 0 (maxConcurrency options);
}.

(** A pending request is taken out, frames are sent, and its promise is settled. *)
Definition finish (id : string) (outcome : result exn J) (fs : list (nat * Frame (J := J))) (m : Manager) : Manager :=
  mkManager (jm_delete (pending m) id) (aborted_signals m) (frames m ++ fs) (settled m ++ [(id, outcome)]).

Lemma inv_finish started m id p outcome fs :
  requests fs = [] -> Inv started m -> jm_get (pending m) id = Some p ->
  (forall v, outcome = Ok v -> exists r, relayResultSchema (operation p) r = Some v) ->
  Inv started (finish id outcome fs m).
Proof.
  intros Hfs [Hw Hu Hp Hpend Hs Hf Hz] Hid Ho. split; unfold finish; cbn [pending settled].
  - by apply jm_wf_delete.
  - done.
  - rewrite <- Hp. unfold promises. cbn [pending settled]. rewrite map_app. cbn [map fst].
    rewrite (jm_keys_delete _ _ _ Hw Hid). cbn [app]. rewrite (Permutation_app_comm (map fst (settled m)) [id]).
    cbn [app]. symmetry. apply Permutation_middle.
  - intros id' p'. rewrite jm_get_delete. destruct (id' =s id); [done|apply Hpend].
  - intros id' v Hin. apply elem_of_app in Hin as [Hin|Hin%list_elem_of_singleton]; [by apply Hs|].
    injection Hin as -> <-. destruct (Ho v eq_refl) as [r Hr]. exists (operation p), r. split; [by apply Hpend|done].
  - cbn [frames]. unfold requests in *. by rewrite flat_map_app, Hfs, app_nil_r.
  - unfold size in *. cbn [pending]. pose proof (jm_size_delete (pending m) id). lia.
Qed.

Lemma reject_with_spec id error m :
  reject_with id error m =
  match jm_get (pending m) id with Some p => finish id (Err (error p)) [] m | None => m end.
Proof.
  unfold reject_with, takePending, finish. destruct (jm_get (pending m) id); [|done].
  unfold settle, with_pending. cbn. by rewrite app_nil_r.
Qed.
Lemma cancelPending_spec socket id reason error m :
  cancelPending socket id reason error m =
  match jm_get (pending m) id with
  | Some p => finish id (Err error) [(socket, CancelFrame id reason)] m
  | None => m
  end.
Proof. unfold cancelPending, takePending, finish. by destruct (jm_get (pending m) id). Qed.

Lemma inv_reject started m id error : Inv started m -> Inv started (reject_with id error m).
Proof.
  intros H. rewrite reject_with_spec. destruct (jm_get (pending m) id) as [p|] eqn:E; [|done].
  by eapply inv_finish.
Qed.
Lemma inv_cancel started m socket id reason error :
  Inv started m -> Inv started (cancelPending socket id reason error m).
Proof.
  intros H. rewrite cancelPending_spec. destruct (jm_get (pending m) id) as [p|] eqn:E; [|done].
  by eapply inv_finish.
Qed.
Lemma inv_fold {A} started (f : Manager -> A -> Manager) l m :
  (forall m a, Inv started m -> Inv started (f m a)) -> Inv started m -> Inv started (fold_left f l m).
Proof. intros Hf. revert m. induction l as [|a l IH]; intros m H; [done|]. apply IH. by apply Hf. Qed.

Lemma inv_onAbort started m id p reason now m' :
  onAbort id p reason now m = Ok m' -> Inv started m -> Inv started m'.
Proof.
  unfold onAbort. intros H Hm. apply bind_ok in H as (i & _ & [= <-]). by apply inv_cancel.
Qed.

Lemma inv_abort_record started m a :
  Inv started m -> Inv started (mkManager (pending m) a (frames m) (settled m)).
Proof. intros [Hw Hu Hp Hpend Hs Hf Hz]. by split. Qed.

Lemma inv_complete started m response : Inv started m -> Inv started (complete relayResultSchema response m).
Proof.
  intros H. unfold complete, takePending. destruct (jm_get (pending m) _) as [p|] eqn:E; [|done].
  unfold settle, with_pending. cbn [pending aborted_signals frames settled].
  rewrite <- (app_nil_r (frames m)). apply (inv_finish started m _ p); [done..|].
  intros v. destruct (rs_body response) as [r|e]; [|done].
  destruct (relayResultSchema (operation p) r) as [d|] eqn:Ed; [|done]. intros [= <-]. by exists r.
Qed.

(** The errors of the manager are always made: their diagnostics are short texts. *)
Lemma terminal_error_made c msg d started layer reason diagnostic details now :
  deadline_schema d = true -> sempty (sanitizeOperationDiagnostic diagnostic) = false ->
  exists l, terminal_error c msg d started layer reason diagnostic details now = Ok (mkAppError c msg (Some l) details)
    /\ lc_reason l = Some reason.
Proof.
  intros Hd Hs. unfold terminal_error, createOperationLifecycle.
  set (l := mkLifecycle _ _ _ _ _). assert (lifecycle_schema l = true) as ->.
  { unfold lifecycle_schema. subst l. cbn [lc_deadline elapsedMs lc_diagnostic terminatedBy lc_reason fmap option_fmap option_map tm_layer tm_reason tm_diagnostic].
    rewrite Hd. assert (Hlen : (String.length (sanitizeOperationDiagnostic diagnostic) <= 500)%nat)
      by (unfold sanitizeOperationDiagnostic; apply slength_stake).
    destruct (sanitizeOperationDiagnostic diagnostic) as [|ch r]; [done|].
    rewrite bool_decide_true by (split; discriminate).
    rewrite !andb_true_iff, !Z.leb_le. cbn [String.length] in *. lia. }
  exists l. done.
Qed.

Lemma relayInterruption_made reason d started now :
  deadline_schema d = true -> exists r e, relayInterruption reason d started now = Ok (r, e).
Proof.
  intros Hd. unfold relayInterruption. destruct reason as [e|]; [by eexists _, _|].
  edestruct (terminal_error_made OPERATION_CANCELLED
    "The MCP or HTTP client disconnected before the operation completed." d started layer_mcp_server
    reason_client_disconnected "The upstream request ended before the relay operation completed." None now)
    as (l & -> & _); [done|vm_compute; done|]. by eexists _, _.
Qed.

Lemma onAbort_made id p reason now (m : Manager (J := J)) :
  deadline_schema (deadline p) = true ->
  exists r e, onAbort id p reason now m = Ok (cancelPending (sender p) id r (App e) m).
Proof.
  intros Hd. unfold onAbort. destruct (relayInterruption_made reason (deadline p) (startedAt p) now Hd) as (r & e & ->).
  by exists r, e.
Qed.

Lemma created_deadline_valid t up now d : createOperationDeadline t up now = Ok d -> deadline_schema d = true.
Proof.
  unfold createOperationDeadline. destruct (deadline_schema _) eqn:E; [|done]. by intros [= <-].
Qed.

Lemma elem_of_started (started : list (string * RelayOperation)) id o x :
  x ∈ map fst (started ++ [(id, o)]) <-> x ∈ map fst started \/ x = id.
Proof. rewrite map_app. cbn [map fst]. by rewrite elem_of_app, list_elem_of_singleton. Qed.

(** A promise that is settled at once. *)
Lemma inv_settle_new started m id o e :
  id ∉ map fst started -> Inv started m -> Inv (started ++ [(id, o)]) (settle id (Err e) m).
Proof.
  intros Hid [Hw Hu Hp Hpend Hs [Hf1 Hf2] Hz]. split; unfold settle; cbn [pending settled frames].
  - done.
  - rewrite map_app. apply NoDup_app. split; [done|]. split; [|apply NoDup_singleton].
    intros x Hx ->%list_elem_of_singleton. done.
  - unfold promises in *. cbn [pending settled]. rewrite !map_app. cbn [map fst]. by rewrite <- Hp, app_assoc.
  - intros id' p' H. apply Hpend in H as [H1 H2]. split; [|done]. apply elem_of_app. by left.
  - intros id' v [Hin|Hin%list_elem_of_singleton]%elem_of_app; [|done]. destruct (Hs id' v Hin) as (o' & r & H1 & H2).
    exists o', r. split; [|done]. apply elem_of_app. by left.
  - split; [done|]. intros x Hx. apply elem_of_started. left. by apply Hf2.
  - done.
Qed.

(** A promise that waits. *)
Lemma inv_wait_new started m id p fs :
  id ∉ map fst started -> pending_ok p -> size m < maxConcurrency options ->
  requests fs = [] \/ requests fs = [id] -> Inv started m ->
  Inv (started ++ [(id, operation p)])
    (mkManager (jm_set (pending m) id p) (aborted_signals m) (frames m ++ fs) (settled m)).
Proof.
  intros Hid Hd Hsz Hfs [Hw Hu Hp Hpend Hs [Hf1 Hf2] Hz].
  assert (Hnew : jm_has (pending m) id = false).
  { unfold jm_has. destruct (jm_get (pending m) id) as [p'|] eqn:E; [|done]. exfalso. apply Hid.
    apply Hpend in E as [E _]. by apply (list_elem_of_fmap_2 fst) in E. }
  split; cbn [pending settled frames].
  - by apply jm_wf_set.
  - rewrite map_app. apply NoDup_app. split; [done|]. split; [|apply NoDup_singleton].
    intros x Hx ->%list_elem_of_singleton. done.
  - unfold promises in *. cbn [pending settled]. rewrite jm_keys_set, Hnew, map_app. cbn [map fst].
    rewrite <- Hp, <- !app_assoc. apply Permutation_app_head, Permutation_app_comm.
  - intros id' p'. rewrite jm_get_set. destruct (id' =s id) eqn:E.
    + apply String.eqb_eq in E as ->. intros [= <-]. split; [|done]. apply elem_of_app. right. by apply list_elem_of_singleton.
    + intros H. apply Hpend in H as [H1 H2]. split; [|done]. apply elem_of_app. by left.
  - intros id' v Hin. destruct (Hs id' v Hin) as (o' & r & H1 & H2). exists o', r. split; [|done]. apply elem_of_app. by left.
  - unfold requests in *. rewrite flat_map_app. split.
    + destruct Hfs as [-> | ->]; [by rewrite app_nil_r|]. apply NoDup_app. split; [done|].
      split; [|apply NoDup_singleton]. intros x Hx ->%list_elem_of_singleton. by apply Hid, Hf2.
    + intros x Hx%elem_of_app. apply elem_of_started. destruct Hx as [Hx|Hx]; [left; by apply Hf2|right].
      destruct Hfs as [Hfs|Hfs]; rewrite Hfs in Hx; [by apply not_elem_of_nil in Hx|by apply list_elem_of_singleton].
  - unfold size in *. cbn [pending]. rewrite jm_size_set, Hnew. lia.
Qed.

Lemma inv_execute started m request payload socket sig gen t now :
  rq_requestId request ∉ map fst started -> deadline_schema (rq_deadline request) = true ->
  size m < maxConcurrency options -> rq_requestId payload = rq_requestId request -> Inv started m ->
  Inv (started ++ [(rq_requestId request, rq_operation request)]) (execute request payload socket sig gen t now m).
Proof.
  intros Hid Hd Hsz Hpay Hm. unfold execute. destruct (_ <=? 0) eqn:Er.
  { destruct (terminal_error _ _ _ _ _ _ _ _ _); by apply inv_settle_new. }
  set (p := mkPending _ _ _ _ _ _ _). set (m1 := with_pending _ m).
  assert (Hok : pending_ok p).
  { split; [done|]. cbn. unfold remainingOperationTimeMs in *. lia. }
  assert (H1 : Inv (started ++ [(rq_requestId request, operation p)]) m1).
  { replace m1 with (mkManager (pending m1) (aborted_signals m) (frames m ++ []) (settled m))
      by (unfold m1; cbn; by rewrite app_nil_r).
    apply inv_wait_new; auto. }
  destruct (abort_of (signal p) m1) as [reason|].
  - destruct (onAbort_made (rq_requestId request) p reason now m1 Hd) as (r & e & ->). by apply inv_cancel.
  - apply (inv_wait_new started m (rq_requestId request) p [(socket, RequestFrame payload)]); auto.
    right. cbn. by rewrite Hpay.
Qed.

Lemma call_cases requests_keep_id socket o input ctx gen id now t now' m :
  (forall r r', relayRequestSchema r = Some r' -> requests_keep_id r r') ->
  (exists e, call relayRequestSchema byteLength options socket o input ctx gen id now t now' m = (m, Err e))
  \/ exists d payload, let request := mkRequest id d (relay_context ctx) o input in
     size m < maxConcurrency options /\ deadline_schema d = true /\ requests_keep_id request payload
     /\ byteLength payload <= maxPayloadBytes options
     /\ call relayRequestSchema byteLength options socket o input ctx gen id now t now' m
        = (execute request payload socket (cx_signal ctx) gen t now' m, Ok id).
Proof.
  intros Hk. unfold call. rewrite Z.geb_leb. destruct (_ <=? size m) eqn:Es; [left; by eexists|].
  destruct (match cx_deadline ctx with Some d => _ | None => _ end) as [d|e] eqn:Ed; [|left; by eexists].
  assert (Hd : deadline_schema d = true) by (destruct (cx_deadline ctx); by eapply created_deadline_valid).
  destruct (relayRequestSchema _) as [payload|] eqn:Ep; [|left; by eexists].
  rewrite Z.gtb_ltb. destruct (_ <? byteLength payload) eqn:El; [left; by eexists|].
  right. exists d, payload. apply Hk in Ep. repeat split; try done; lia.
Qed.

(** [requestId] is a plain text in the schema: parsing keeps it. *)
Definition keeps_id (r r' : RelayRequest (J := J)) : Prop := rq_requestId r' = rq_requestId r.

Lemma inv_event started m e :
  (forall r r', relayRequestSchema r = Some r' -> keeps_id r r') ->
  event_ok e started -> Inv started m -> Inv (started ++ (run_event e m).2) (run_event e m).1.
Proof.
  intros Hk He Hm. destruct e as [socket o input ctx gen id now t now'|id now|id now|s reason now|response|msg reason|gen msg reason];
    cbn [run_event].
  { destruct (call_cases keeps_id socket o input ctx gen id now t now' m Hk)
      as [(e & ->)|(d & payload & Hsz & Hd & Hpay & _ & ->)]; cbn [fst snd]; [by rewrite app_nil_r|].
    by apply (inv_execute started m (mkRequest id d (relay_context ctx) o input)). }
  all: cbn [fst snd]; rewrite app_nil_r.
  - unfold timeout_fired. destruct (jm_get (pending m) id); [|done].
    destruct (terminal_error _ _ _ _ _ _ _ _ _); [|done]. by apply inv_cancel.
  - unfold send_failed, takePending. destruct (jm_get (pending m) id) as [p|] eqn:E; [|done].
    edestruct (terminal_error_made AGENT_UNAVAILABLE "Relay request could not be sent." (deadline p) (startedAt p)
      layer_websocket reason_client_disconnected "The relay WebSocket failed before the request was delivered.")
      as (l & -> & _); [by apply (inv_pending _ _ Hm) in E as (_ & ? & _)|vm_compute; done|].
    unfold settle, with_pending. cbn [pending aborted_signals frames settled].
    rewrite <- (app_nil_r (frames m)). by eapply inv_finish.
  - unfold signal_aborted. destruct (bool_decide _); [|done]. apply inv_fold; [|by apply inv_abort_record].
    intros m1 [id p] H1. destruct (bool_decide _); [|done]. cbn [fst snd].
    destruct (onAbort id p reason now m1) as [m2|] eqn:E2; [|done]. by eapply inv_onAbort.
  - by apply inv_complete.
  - unfold rejectAll. apply inv_fold; [|done]. intros m1 id H1. by apply inv_reject.
  - unfold rejectGeneration. apply inv_fold; [|done]. intros m1 [id p] H1. destruct (negb _); [done|]. by apply inv_reject.
Qed.

Lemma runs_inv started m :
  (forall r r', relayRequestSchema r = Some r' -> keeps_id r r') -> runs started m -> Inv started m.
Proof.
  intros Hk. induction 1 as [|started m e _ IH He]; [|by apply inv_event].
  split.
  - constructor.
  - constructor.
  - done.
  - done.
  - intros id v Hin. by apply not_elem_of_nil in Hin.
  - split; [constructor|]. intros id Hin. by apply not_elem_of_nil in Hin.
  - unfold size. cbn. lia.
Qed.

(** C15.  Every promise is settled at most once and none is lost: after any events the promises made
    are those pending and those settled, each once.  There are never more pending than the
    configured concurrency, no request is sent twice, and a value that resolves a promise
    was accepted by the result schema of the operation called. *)
Theorem promises_settle_once started m
    (Hk : forall r r', relayRequestSchema r = Some r' -> keeps_id r r') (H : runs started m) :
  NoDup (map fst started)
  /\ jm_keys (pending m) ++ map fst (settled m) ≡ₚ map fst started
  /\ size m <= Z.max 0 (maxConcurrency options)
  /\ NoDup (requests (frames m))
  /\ (forall id v, (id, Ok v) ∈ settled m -> exists o r, (id, o) ∈ started /\ relayResultSchema o r = Some v).
Proof. destruct (runs_inv started m Hk H) as [Hw Hu Hp Hpend Hs [Hf _] Hz]. done. Qed.

(** *** The end of a connection *)
Lemma jm_delete_middle {A} (pre post : jsmap A) id a :
  jm_wf (pre ++ (id, a) :: post) -> jm_delete (pre ++ (id, a) :: post) id = pre ++ post.
Proof.
  unfold jm_wf, jm_keys. rewrite map_app. cbn [map fst]. intros H.
  apply NoDup_app in H as (_ & Hd & Hn). inversion Hn as [|? ? Hn1 Hn2]; subst.
  unfold jm_delete. rewrite List.filter_app. cbn [List.filter fst]. rewrite String.eqb_refl. cbn [negb].
  fold (jm_delete pre id) (jm_delete post id). f_equal; apply jm_delete_fresh, jm_get_none; [|done].
  intros Hin. apply (Hd id Hin). left.
Qed.

Lemma reject_where (f : PendingRequest -> bool) error l pre (m : Manager (J := J)) :
  pending m = pre ++ l -> jm_wf (pending m) ->
  fold_left (fun m e => if negb (f e.2) then m else reject_with e.1 error m) l m
  = mkManager (pre ++ List.filter (fun e => negb (f e.2)) l) (aborted_signals m) (frames m)
      (settled m ++ map (fun e => (e.1, Err (error e.2))) (List.filter (fun e => f e.2) l)).
Proof.
  revert pre m. induction l as [|[id p] l IH]; intros pre m Hm Hw; cbn [fold_left].
  - cbn. rewrite <- Hm, app_nil_r. by destruct m.
  - cbn [fst snd List.filter]. destruct (f p) eqn:Ef; cbn [negb].
    + rewrite reject_with_spec, (jm_in_get _ id p Hw) by (rewrite Hm; apply elem_of_app; right; left).
      unfold finish. rewrite Hm, jm_delete_middle by (by rewrite <- Hm). rewrite app_nil_r.
      rewrite (IH pre); [|done|].
      * cbn [aborted_signals frames settled map fst snd]. by rewrite <- app_assoc.
      * cbn [pending]. unfold jm_wf, jm_keys in *. rewrite Hm, map_app in Hw. rewrite map_app.
        apply NoDup_app in Hw as (H1 & H2 & H3). apply NoDup_app. inversion H3; subst.
        split; [done|]. split; [|done]. intros x Hx Hx2. apply (H2 x Hx). by right.
    + rewrite (IH (pre ++ [(id, p)])); [|by rewrite <- app_assoc|done]. by rewrite <- app_assoc.
Qed.

(** When a connection ends, exactly the requests sent over it are rejected, in the order of their
    calls and each with the details of its own operation; the requests of other
    connections keep waiting, and nothing is sent. *)
Theorem rejectGeneration_exact started m gen msg reason
    (Hk : forall r r', relayRequestSchema r = Some r' -> keeps_id r r') (H : runs started m) :
  let mine := fun e : string * PendingRequest => generation e.2 =? gen in
  rejectGeneration gen msg reason m
  = mkManager (List.filter (fun e => negb (mine e)) (pending m)) (aborted_signals m) (frames m)
      (settled m ++ map (fun e => (e.1, Err (unavailable msg reason e.2))) (List.filter mine (pending m))).
Proof.
  apply runs_inv in H as [Hw _ _ _ _ _ _]; [|done]. cbn zeta.
  exact (reject_where (fun p => generation p =? gen) (unavailable msg reason) (pending m) [] m eq_refl Hw).
Qed.

(** *** Timers and aborts *)
Lemma abort_loop s reason now l (m : Manager (J := J)) id :
  (forall e, e ∈ l -> deadline_schema (deadline e.2) = true) ->
  jm_get (pending (fold_left (fun m e =>
      if bool_decide (signal e.2 = Some s) then
        match onAbort e.1 e.2 reason now m with Ok m' => m' | Err _ => m end
      else m) l m)) id
  = if existsb (fun e => (e.1 =s id) && bool_decide (signal e.2 = Some s)) l then None else jm_get (pending m) id.
Proof.
  revert m. induction l as [|[id1 p] l IH]; intros m Hl; cbn [fold_left existsb]; [done|].
  rewrite IH by (intros e He; apply Hl; by right). cbn [fst snd].
  destruct (bool_decide (signal p = Some s)); [|by rewrite andb_false_r].
  destruct (onAbort_made id1 p reason now m) as (r & e & ->); [by apply (Hl (id1, p)); left|].
  rewrite cancelPending_spec. destruct (existsb _ l); [by rewrite orb_true_r|]. rewrite orb_false_r, andb_true_r.
  destruct (jm_get (pending m) id1) as [p'|] eqn:E1.
  - cbn [finish pending]. rewrite jm_get_delete, String.eqb_sym. done.
  - destruct (id1 =s id) eqn:E; [|done]. by apply String.eqb_eq in E as <-.
Qed.

(** No promise waits for ever: the timer of a pending request, set to its deadline and the grace
    of its operation, settles it with AGENT_TIMEOUT and tells the agent to stop; and when
    a signal is aborted every request that carries it is settled, and no other. *)
Theorem pending_request_ends started m
    (Hk : forall r r', relayRequestSchema r = Some r' -> keeps_id r r') (H : runs started m) :
  (forall id p now, jm_get (pending m) id = Some p ->
     timeoutAt p = deadlineAt (deadline p) + operationCompletionGraceMs (operation p)
     /\ exists l, timeout_fired id now m
        = finish id (Err (App (mkAppError AGENT_TIMEOUT "The local agent did not respond in time." (Some l) None)))
            [(sender p, CancelFrame id upstream_timeout)] m)
  /\ (forall s reason now id, abort_of (Some s) m = None ->
     jm_get (pending (signal_aborted s reason now m)) id =
     match jm_get (pending m) id with
     | Some p => if bool_decide (signal p = Some s) then None else Some p
     | None => None
     end).
Proof.
  apply runs_inv in H as [Hw _ _ Hp _ _ _]; [|done]. split.
  - intros id p now E. destruct (Hp id p E) as (_ & Hd & Ht). split; [done|].
    unfold timeout_fired. rewrite E.
    edestruct (terminal_error_made AGENT_TIMEOUT "The local agent did not respond in time." (deadline p) (startedAt p)
      layer_gateway reason_upstream_timeout
      "Gateway relay deadline expired while awaiting the Workspace Agent." None now) as (l & -> & _);
      [done|vm_compute; done|]. exists l. by rewrite cancelPending_spec, E.
  - intros s reason now id Hs. unfold signal_aborted. rewrite bool_decide_true by done.
    rewrite abort_loop; cbn [pending].
    2:{ intros [id' p'] Hin. apply jm_in_get in Hin; [|done]. by apply Hp in Hin as (_ & ? & _). }
    destruct (jm_get (pending m) id) as [p|] eqn:E.
    + case_bool_decide as Hb.
      * destruct (existsb _ _) eqn:Ex; [done|]. exfalso.
        assert (existsb (fun e => (e.1 =s id) && bool_decide (signal e.2 = Some s)) (pending m) = true) as Hx.
        { apply existsb_exists. exists (id, p). split; [by apply list_elem_of_In, jm_get_in|]. cbn [fst snd].
          by rewrite String.eqb_refl, bool_decide_true. }
        congruence.
      * destruct (existsb _ _) eqn:Ex; [|done]. apply existsb_exists in Ex as ([id' p'] & Hin & Hx).
        apply andb_prop in Hx as [Hx1%String.eqb_eq Hx2%bool_decide_eq_true]. cbn [fst snd] in *. subst id'.
        apply list_elem_of_In, jm_in_get in Hin; [|done]. congruence.
    + by destruct (existsb _ _).
Qed.
End Events.

(** *** A trial run *)
Module Trial.
Definition schema (r : RelayRequest (J := string)) : option (RelayRequest (J := string)) :=
  if sempty (rq_input r) then None else Some r.
Definition bytes (r : RelayRequest (J := string)) : Z := Z.of_nat (String.length (rq_input r)).
Definition result_schema (o : RelayOperation) (v : string) : option string := if sempty v then None else Some v.
Definition options : Options := mkOpts 60000 3 100.
Definition context : OperationContext := mkContext None None None None None (Some 7%nat).
Definition t0 : Z := 1700000000000.
Definition events : list event := [
  Call 1 readFile "a"%string context 1 "r1" t0 t0 t0;
  Call 1 runCommand "b"%string (mkContext None None None None None None) 1 "r2" (t0 + 1) (t0 + 1) (t0 + 1);
  Call 2 listFiles "c"%string context 2 "r3" (t0 + 2) (t0 + 2) (t0 + 2);
  Complete (mkResponse "r1" (Ok "text"%string));
  Complete (mkResponse "r1" (Ok "again"%string))].
Fixpoint run (es : list event) (s : list (string * RelayOperation) * Manager (J := string)) :=
  match es with
  | [] => s
  | e :: es => let '(m, new) := run_event schema bytes result_schema options e s.2 in run es (s.1 ++ new, m)
  end.
Definition final := run events ([], mkManager [] [] [] []).

Fixpoint all_ok (es : list event) (s : list (string * RelayOperation) * Manager (J := string)) : bool :=
  match es with
  | [] => true
  | e :: es =>
      match e with Call _ _ _ _ _ id _ _ _ => negb (includes (map fst s.1) id) | _ => true end
      && all_ok es (s.1 ++ (run_event schema bytes result_schema options e s.2).2,
                    (run_event schema bytes result_schema options e s.2).1)
  end.
Lemma run_runs es s : all_ok es s = true -> runs schema bytes result_schema options s.1 s.2 ->
  runs schema bytes result_schema options (run es s).1 (run es s).2.
Proof.
  revert s. induction es as [|e es IH]; intros s; [done|]. intros [He Hes]%andb_prop Hs. cbn [run].
  assert (Hok : event_ok e s.1).
  { destruct e; try done. by apply includes_false, negb_true_iff. }
  pose proof (runs_event _ _ _ _ s.1 s.2 e Hs Hok) as H1.
  destruct (run_event schema bytes result_schema options e s.2) as [m new]. by apply IH.
Qed.
Lemma final_runs : runs schema bytes result_schema options final.1 final.2.
Proof. apply run_runs; [vm_compute; reflexivity|constructor]. Qed.
Lemma schema_keeps r r' : schema r = Some r' -> keeps_id r r'.
Proof. unfold schema, keeps_id. destruct (sempty _); [done|]. by intros [= <-]. Qed.

Lemma final_state :
  jm_keys (pending final.2) = ["r2"; "r3"]%string
  /\ settled final.2 = [("r1", Ok "text")]%string /\ requests (frames final.2) = ["r1"; "r2"; "r3"]%string.
Proof. vm_compute. done. Qed.
End Trial.

Lemma promises_settle_once_witness :
  NoDup (map fst Trial.final.1) /\ size Trial.final.2 <= 3.
Proof.
  destruct (promises_settle_once Trial.schema Trial.bytes Trial.result_schema Trial.options Trial.final.1 Trial.final.2
              Trial.schema_keeps Trial.final_runs) as (Hn & _ & Hs & _).
  split; [exact Hn|exact Hs].
Defined.

Lemma rejectGeneration_exact_witness :
  jm_keys (pending (rejectGeneration 1 "The local agent disconnected." agent_disconnected Trial.final.2)) = ["r3"%string].
Proof.
  rewrite (rejectGeneration_exact Trial.schema Trial.bytes Trial.result_schema Trial.options Trial.final.1 Trial.final.2
             1 "The local agent disconnected." agent_disconnected Trial.schema_keeps Trial.final_runs).
  vm_compute. reflexivity.
Defined.

Lemma pending_request_ends_witness :
  jm_get (pending (signal_aborted 7 None Trial.t0 Trial.final.2)) "r3" = None.
Proof.
  destruct (pending_request_ends Trial.schema Trial.bytes Trial.result_schema Trial.options Trial.final.1 Trial.final.2
              Trial.schema_keeps Trial.final_runs) as (_ & Ha).
  rewrite (Ha 7%nat None Trial.t0 "r3"%string) by (vm_compute; reflexivity). vm_compute. reflexivity.
Defined.
