(* ===== verification/RequestExecutor.v ===== *)
(** The agent's side of the relay: services/workspace-agent/src/connection/request-executor.ts
    and synchronous-shell-concurrency.ts.

    [execute] runs from its call to the dispatch ([begin_execute]) and from the end of the
    dispatch to its answer ([finish]); between them its timer, a cancellation or the end of
    the connection may abort its signal.  A call is kept with its controller, its timer and
    its lease; [activeRequests] refers to calls by handle.  What the dispatched operation
    does is an input, and so is every reading of the clock. *)
From S2P Require Import Prelude Errors JsString JsMap Timeouts RelayRequests.
Open Scope Z_scope.

Module RequestExecutor.

(** *** synchronous-shell-concurrency.ts *)
Definition DEFAULT_MAX_CONCURRENT_SYNCHRONOUS_SHELLS : Z := 4.
Definition MAX_CONCURRENT_SYNCHRONOUS_SHELLS : Z := 16.

Record SynchronousShellLease := mkLease { workspaceKey : string; holder : string; released : bool }.

(** The constructor, for whole numbers. *)
Definition shell_concurrency (maxConcurrent : option Z) : result exn Z :=
  let maxConcurrent := default DEFAULT_MAX_CONCURRENT_SYNCHRONOUS_SHELLS maxConcurrent in
  if (maxConcurrent <? 1) || (MAX_CONCURRENT_SYNCHRONOUS_SHELLS <? maxConcurrent) then
    throw INVALID_ARGUMENT "Synchronous shell concurrency must be an integer between 1 and 16."
  else Ok maxConcurrent.

Definition activeCount (activeByWorkspace : jsmap string) : nat := jm_size activeByWorkspace.
Definition acquire (maxConcurrent : Z) (key requestId : string) (activeByWorkspace : jsmap string) :
    result exn (jsmap string * SynchronousShellLease) :=
  if jm_has activeByWorkspace key then
    throw AGENT_BUSY "Another synchronous shell operation is already active for this workspace."
  else if maxConcurrent <=? Z.of_nat (jm_size activeByWorkspace) then
    throw AGENT_BUSY "The Workspace Agent synchronous shell concurrency limit is reached."
  else Ok (jm_set activeByWorkspace key requestId, mkLease key requestId false).
Definition release (l : SynchronousShellLease) (activeByWorkspace : jsmap string) :
    SynchronousShellLease * jsmap string :=
  if released l then (l, activeByWorkspace)
  else
    (mkLease (workspaceKey l) (holder l) true,
     if bool_decide (jm_get activeByWorkspace (workspaceKey l) = Some (holder l))
     then jm_delete activeByWorkspace (workspaceKey l) else activeByWorkspace).

(** *** request-executor.ts *)
Definition isSynchronousShellOperation (o : RelayOperation) : bool := bool_decide (o = runCommand).

Record Cancellation := mkCancellation {
  t_code : ErrorCode;
  t_message : string;
  t_layer : OperationTerminationLayer;
  t_diagnostic : string;
}.
Definition cancellationTerminal (reason : CancelReason) : Cancellation :=
  match reason with
  | upstream_timeout =>
      mkCancellation AGENT_TIMEOUT "The upstream Gateway deadline expired." layer_gateway
        "Gateway cancelled the active Agent request after its relay deadline expired."
  | client_disconnected =>
      mkCancellation OPERATION_CANCELLED "The MCP client disconnected before the operation completed." layer_mcp_server
        "The upstream MCP request was disconnected while the Agent operation was active."
  | cancelled =>
      mkCancellation OPERATION_CANCELLED "The operation was cancelled before completion." layer_workspace_agent
        "The active Agent request received an explicit cancellation."
  end.
Definition cancel_reason (reason : CancelReason) : OperationTerminalReason :=
  match reason with
  | upstream_timeout => reason_upstream_timeout
  | client_disconnected => reason_client_disconnected
  | cancelled => reason_cancelled
  end.

(** [error.toJSON()]: the lifecycle and the details are parsed. *)
Definition details_schema (d : ErrorDetails) : bool :=
  match ed_connectionGeneration d with Some g => 0 <=? g | None => true end.
Definition toJSON (e : AppError) : result exn AppError :=
  if match lifecycle e with Some l => lifecycle_schema l | None => true end
     && match details e with Some d => details_schema d | None => true end
  then Ok e else Err (Native "ZodError").

Section Executor.
Context {J : Type} (resolveWorkspaceConcurrencyKey : J -> result exn string) (maxConcurrent : Z).
Notation RelayRequest := (RelayRequest (J := J)).
Notation RelayResponse := (RelayResponse (J := J)).

Definition errorResponse (requestId : string) (error : AppError) : result exn RelayResponse :=
  e ← toJSON error; Ok (mkResponse requestId (Err e)).

(** Where a call of [execute] is: its operation is running, or its promise has settled. *)
Inductive Phase := Dispatching | Settled (answer : result exn RelayResponse).

Record Call := mkCall {
  request : RelayRequest;
  c_startedAt : Z;
  timer : option Z;
  controller : AbortSignal;
  lease : option SynchronousShellLease;
  phase : Phase;
}.
Definition requestId (c : Call) : string := rq_requestId (request c).

Record Executor := mkExecutor {
  calls : list Call;
  activeRequests : jsmap nat;
  activeByWorkspace : jsmap string;
}.
Definition new_executor : Executor := mkExecutor [] [] [].
Definition activeRequestCount (e : Executor) : nat := jm_size (activeRequests e).
Definition update (h : nat) (f : Call -> Call) (e : Executor) : Executor :=
  mkExecutor (alter f h (calls e)) (activeRequests e) (activeByWorkspace e).

(** A call that is answered before it is active. *)
Definition answer_at_once (r : RelayRequest) (startedAt : Z) (answer : result exn RelayResponse) (e : Executor) : Executor :=
  mkExecutor (calls e ++ [mkCall r startedAt None (mkSignal false None) None (Settled answer)])
    (activeRequests e) (activeByWorkspace e).

(** The lease of a shell operation. *)
Definition shell_lease (r : RelayRequest) (shells : jsmap string) :
    result exn (jsmap string * option SynchronousShellLease) :=
  if isSynchronousShellOperation (rq_operation r) then
    key ← resolveWorkspaceConcurrencyKey (rq_input r);
    p ← acquire maxConcurrent key (rq_requestId r) shells;
    Ok (p.1, Some p.2)
  else Ok (shells, None).

(** [execute], up to [await dispatchRelayRequest]. *)
Definition begin_execute (r : RelayRequest) (startedAt now : Z) (e : Executor) : Executor :=
  let remainingMs := remainingOperationTimeMs (rq_deadline r) startedAt in
  if remainingMs <=? 0 then
    answer_at_once r startedAt
      (error ← terminal_error AGENT_TIMEOUT "Relay request deadline has expired." (rq_deadline r) startedAt
                 layer_workspace_agent reason_timeout "Workspace Agent received an expired relay deadline." None now;
       errorResponse (rq_requestId r) error) e
  else
    match shell_lease r (activeByWorkspace e) with
    | Err error => answer_at_once r startedAt (errorResponse (rq_requestId r) (asAppError error)) e
    | Ok (shells, l) =>
        let watchdogMs := remainingMs + operationCompletionGraceMs (rq_operation r) in
        mkExecutor
          (calls e ++ [mkCall r startedAt (Some (startedAt + watchdogMs)) (mkSignal false None) l Dispatching])
          (jm_set (activeRequests e) (rq_requestId r) (length (calls e))) shells
    end.

(** The context that the operation is dispatched with. *)
Definition dispatch_context (c : Call) (signal : nat) : OperationContext :=
  let x := rq_context (request c) in
  mkContext (Some (default (requestId c) (correlationId x))) (invocationId x) (idempotencyKey x) (cx_ownerScope x)
    (Some (rq_deadline (request c))) (Some signal).

(** [execute], from the end of the dispatch: the answer, then [finally]. *)
Definition answer_of (c : Call) (outcome : result exn J) : result exn RelayResponse :=
  match outcome with
  | Ok result => Ok (mkResponse (requestId c) (Ok result))
  | Err error => errorResponse (requestId c) (asAppError error)
  end.
Definition finish (h : nat) (outcome : result exn J) (e : Executor) : option Executor :=
  c ← calls e !! h;
  match phase c with
  | Settled _ => None
  | Dispatching =>
      let p := match lease c with
               | Some l => let '(l, shells) := release l (activeByWorkspace e) in (Some l, shells)
               | None => (None, activeByWorkspace e)
               end in
      Some (mkExecutor
              (<[h := mkCall (request c) (c_startedAt c) None (controller c) p.1 (Settled (answer_of c outcome))]> (calls e))
              (jm_delete (activeRequests e) (requestId c)) p.2)
  end.

(** [controller.abort(error)]: an aborted signal keeps its reason. *)
Definition abort_signal (error : AppError) (c : Call) : Call :=
  if aborted (controller c) then c
  else mkCall (request c) (c_startedAt c) (timer c) (mkSignal true (Some error)) (lease c) (phase c).
Definition fire_timer (c : Call) : Call :=
  mkCall (request c) (c_startedAt c) None (controller c) (lease c) (phase c).

(** The timer of a call; nobody catches what its callback throws. *)
Definition timer_fired (h : nat) (now : Z) (e : Executor) : option (result exn Executor) :=
  c ← calls e !! h;
  at_ ← timer c;
  if now <? at_ then None
  else
    Some (error ← terminal_error AGENT_TIMEOUT "Relay request deadline has expired." (rq_deadline (request c)) (c_startedAt c)
                    layer_workspace_agent reason_timeout "Workspace Agent exhausted the remaining relay deadline." None now;
          Ok (update h (fun c => abort_signal error (fire_timer c)) e)).

Definition cancel (id : string) (reason : CancelReason) (now : Z) (e : Executor) : result exn Executor :=
  match jm_get (activeRequests e) id ≫= fun h => pair h <$> calls e !! h with
  | None => Ok e
  | Some (h, active) =>
      if aborted (controller active) then Ok e
      else
        let terminal := cancellationTerminal reason in
        error ← terminal_error (t_code terminal) (t_message terminal) (rq_deadline (request active)) (c_startedAt active)
                  (t_layer terminal) (cancel_reason reason) (t_diagnostic terminal) None now;
        Ok (update h (abort_signal error) e)
  end.

(** [abortAll]: the loop over the active requests. *)
Fixpoint abort_active (reason : string) (now : Z) (hs : list nat) (e : Executor) : result exn Executor :=
  match hs with
  | [] => Ok e
  | h :: hs =>
      e ← match calls e !! h with
          | Some active =>
              if aborted (controller active) then Ok e
              else
                error ← terminal_error AGENT_UNAVAILABLE "The Agent relay connection was closed."
                          (rq_deadline (request active)) (c_startedAt active)
                          layer_websocket reason_client_disconnected reason None now;
                Ok (update h (abort_signal error) e)
          | None => Ok e
          end;
      abort_active reason now hs e
  end.
Definition abortAll (reason : string) (now : Z) (e : Executor) : result exn Executor :=
  abort_active reason now (jm_values (activeRequests e)) e.

(** *** Steps *)
(** The requests were parsed, and no two that are active have one identifier (the gateway
    makes them with [randomUUID]). *)
Definition accepts (r : RelayRequest) (e : Executor) : Prop :=
  deadline_schema (rq_deadline r) = true
  /\ forall h c, calls e !! h = Some c -> phase c = Dispatching -> requestId c <> rq_requestId r.

Inductive Step :=
| Execute (r : RelayRequest) (startedAt now : Z)
| Finish (h : nat) (outcome : result exn J)
| TimerFired (h : nat) (now : Z)
| Cancel (id : string) (reason : CancelReason) (now : Z)
| AbortAll (reason : string) (now : Z).

Definition step (s : Step) (e e' : Executor) : Prop :=
  match s with
  | Execute r startedAt now => accepts r e /\ e' = begin_execute r startedAt now e
  | Finish h outcome => finish h outcome e = Some e'
  | TimerFired h now => timer_fired h now e = Some (Ok e')
  | Cancel id reason now => cancel id reason now e = Ok e'
  | AbortAll reason now => abortAll reason now e = Ok e'
  end.
Inductive reachable : Executor -> Prop :=
| reachable_new : reachable new_executor
| reachable_step s e e' : reachable e -> step s e e' -> reachable e'.
End Executor.

(** *** The invariant *)
Section Invariant.
Context {J : Type} (resolveWorkspaceConcurrencyKey : J -> result exn string) (maxConcurrent : Z).
Notation Executor := (Executor (J := J)).
Notation Call := (Call (J := J)).
Notation reachable := (reachable resolveWorkspaceConcurrencyKey maxConcurrent).

Definition running (c : Call) : bool := match phase c with Dispatching => true | Settled _ => false end.
Definition lease_key (c : Call) : option string := workspaceKey <$> lease c.

(** What the maps of an executor say of its calls.  A call that has settled has no timer. *)
Record Inv (e : Executor) : Prop := {
  i_requests_wf : jm_wf (activeRequests e);
  i_shells_wf : jm_wf (activeByWorkspace e);
  i_active : forall id h, jm_get (activeRequests e) id = Some h <->
    exists c, calls e !! h = Some c /\ running c = true /\ requestId c = id;
  i_shell : forall h c, calls e !! h = Some c -> running c = true ->
    if isSynchronousShellOperation (rq_operation (request c))
    then exists k, lease c = Some (mkLease k (requestId c) false) /\ jm_get (activeByWorkspace e) k = Some (requestId c)
    else lease c = None;
  i_holder : forall k id, jm_get (activeByWorkspace e) k = Some id ->
    exists h c, calls e !! h = Some c /\ running c = true /\ requestId c = id /\ lease_key c = Some k;
  i_size : Z.of_nat (jm_size (activeByWorkspace e)) <= Z.max 0 maxConcurrent;
  i_timer : forall h c at_, calls e !! h = Some c -> timer c = Some at_ ->
    running c = true /\ c_startedAt c < deadlineAt (rq_deadline (request c))
    /\ at_ = deadlineAt (rq_deadline (request c)) + operationCompletionGraceMs (rq_operation (request c));
  i_deadline : forall h c, calls e !! h = Some c -> running c = true -> deadline_schema (rq_deadline (request c)) = true;
}.

Lemma lookup_snoc {A} (xs : list A) x h y : (xs ++ [x]) !! h = Some y <-> xs !! h = Some y \/ h = length xs /\ y = x.
Proof.
  destruct (decide (h < length xs)%nat) as [Hlt|Hge].
  - rewrite lookup_app_l by done. split; [by left|]. intros [H|[-> _]]; [done|lia].
  - rewrite lookup_app_r by lia. split.
    + destruct (h - length xs)%nat eqn:E; simpl; [|done]. intros [= <-]. right. split; [lia|done].
    + intros [H|[-> ->]]; [apply lookup_lt_Some in H; lia|]. by rewrite Nat.sub_diag.
Qed.

(** A change of signals and timers keeps the invariant. *)
Lemma inv_update e h f :
  (forall c, request (f c) = request c /\ lease (f c) = lease c /\ phase (f c) = phase c /\ c_startedAt (f c) = c_startedAt c
             /\ (timer (f c) = timer c \/ timer (f c) = None)) ->
  Inv e -> Inv (update h f e).
Proof.
  intros Hf [H1 H2 H3 H4 H5 H6 H7 H8].
  assert (Hr : forall c, running (f c) = running c /\ requestId (f c) = requestId c /\ lease_key (f c) = lease_key c).
  { intros c. destruct (Hf c) as (E1 & E2 & E3 & _). unfold running, requestId, lease_key. by rewrite E1, E2, E3. }
  assert (Hl : forall h' c', calls (update h f e) !! h' = Some c' ->
             exists c, calls e !! h' = Some c /\ (c' = c \/ c' = f c)).
  { intros h' c'. simpl. destruct (decide (h' = h)) as [->|Hn].
    - rewrite list_lookup_alter_eq. intros (c & E & ->)%fmap_Some. exists c. auto.
    - rewrite list_lookup_alter_ne by done. intros E. exists c'. auto. }
  assert (Hu : forall h' c, calls e !! h' = Some c -> exists c', calls (update h f e) !! h' = Some c' /\ (c' = c \/ c' = f c)).
  { intros h' c E. simpl. destruct (decide (h' = h)) as [->|Hn].
    - rewrite list_lookup_alter_eq, E. exists (f c). auto.
    - rewrite list_lookup_alter_ne by done. exists c. auto. }
  split; cbn [activeRequests activeByWorkspace update]; try done.
  - intros id h'. rewrite H3. split.
    + intros (c & E & Hc & Hid). destruct (Hu h' c E) as (c' & E' & [-> | ->]); eexists; (split; [exact E'|]); [done|].
      destruct (Hr c) as (-> & -> & _). done.
    + intros (c' & E & Hc & Hid). destruct (Hl h' c' E) as (c & E' & [-> | ->]); exists c; [done|].
      destruct (Hr c) as (R1 & R2 & _). rewrite R1 in Hc. rewrite R2 in Hid. done.
  - intros h' c' E Hc. destruct (Hl h' c' E) as (c & E' & [-> | ->]); [by eapply H4|].
    destruct (Hr c) as (R1 & R2 & _), (Hf c) as (-> & -> & _). rewrite R1 in Hc. rewrite R2. by eapply H4.
  - intros k id Hk. destruct (H5 k id Hk) as (h' & c & E & Hc & Hid & Hkey). destruct (Hu h' c E) as (c' & E' & [-> | ->]).
    + by exists h', c.
    + exists h', (f c). destruct (Hr c) as (-> & -> & ->). done.
  - intros h' c' at_ E Ht. destruct (Hl h' c' E) as (c & E' & [-> | ->]); [by eapply H7|].
    destruct (Hr c) as (-> & _), (Hf c) as (-> & _ & _ & -> & [Ht'|Ht']); [|congruence]. rewrite Ht' in Ht. by eapply H7.
  - intros h' c' E Hc. destruct (Hl h' c' E) as (c & E' & [-> | ->]); [by eapply H8|].
    destruct (Hr c) as (R1 & _), (Hf c) as (-> & _). rewrite R1 in Hc. by eapply H8.
Qed.

Lemma inv_settled_call e c :
  running c = false -> timer c = None -> Inv e ->
  Inv (mkExecutor (calls e ++ [c]) (activeRequests e) (activeByWorkspace e)).
Proof.
  intros Hc Ht [H1 H2 H3 H4 H5 H6 H7 H8]. split; cbn [calls activeRequests activeByWorkspace]; try done.
  - intros id h. rewrite H3. setoid_rewrite lookup_snoc. split.
    + intros (x & E & Hx). exists x. auto.
    + intros (x & [E|[-> ->]] & Hx & Hid); [by exists x|congruence].
  - intros h x [E|[-> ->]]%lookup_snoc Hx; [by eapply H4|congruence].
  - intros k id Hk. destruct (H5 k id Hk) as (h & x & E & Hx). exists h, x. rewrite lookup_snoc. auto.
  - intros h x at_ [E|[-> ->]]%lookup_snoc Hx; [by eapply H7|congruence].
  - intros h x [E|[-> ->]]%lookup_snoc Hx; [by eapply H8|congruence].
Qed.

(** A call becomes active. *)
Lemma inv_active_call e c shells :
  Inv e -> running c = true -> (forall h x, calls e !! h = Some x -> running x = true -> requestId x <> requestId c) ->
  deadline_schema (rq_deadline (request c)) = true ->
  c_startedAt c < deadlineAt (rq_deadline (request c)) ->
  timer c = Some (deadlineAt (rq_deadline (request c)) + operationCompletionGraceMs (rq_operation (request c))) ->
  (if isSynchronousShellOperation (rq_operation (request c))
   then exists k, lease c = Some (mkLease k (requestId c) false) /\ shells = jm_set (activeByWorkspace e) k (requestId c)
        /\ jm_get (activeByWorkspace e) k = None /\ Z.of_nat (jm_size (activeByWorkspace e)) < maxConcurrent
   else lease c = None /\ shells = activeByWorkspace e) ->
  Inv (mkExecutor (calls e ++ [c]) (jm_set (activeRequests e) (requestId c) (length (calls e))) shells).
Proof.
  intros [H1 H2 H3 H4 H5 H6 H7 H8] Hc Hfresh Hd Hlt Ht Hshell.
  assert (Hk : forall k, jm_get shells k = jm_get (activeByWorkspace e) k
    \/ isSynchronousShellOperation (rq_operation (request c)) = true /\ jm_get shells k = Some (requestId c) /\ lease_key c = Some k
       /\ jm_get (activeByWorkspace e) k = None).
  { intros k. destruct (isSynchronousShellOperation _); [|destruct Hshell as [_ ->]; by left].
    destruct Hshell as (k' & Hl & -> & Hn & _). rewrite jm_get_set. destruct (String.eqb_spec k k') as [->|]; [|by left].
    right. unfold lease_key. by rewrite Hl. }
  split; cbn [calls activeRequests activeByWorkspace].
  - by apply jm_wf_set.
  - destruct (isSynchronousShellOperation _); [destruct Hshell as (k & _ & -> & _)|destruct Hshell as [_ ->]; done].
    by apply jm_wf_set.
  - intros id h. rewrite jm_get_set. setoid_rewrite lookup_snoc. destruct (String.eqb_spec id (requestId c)) as [->|Hn].
    + split; [intros [= <-]; exists c; auto|]. intros (x & [E|[-> ->]] & Hx & Hid); [|done].
      by destruct (Hfresh h x E Hx).
    + rewrite H3. split; [intros (x & E & Hx); exists x; auto|]. intros (x & [E|[-> ->]] & Hx & Hid); [by exists x|done].
  - intros h x [E|[-> ->]]%lookup_snoc Hx.
    + specialize (H4 h x E Hx). destruct (isSynchronousShellOperation (rq_operation (request x))); [|done].
      destruct H4 as (k & Hl & Hg). exists k. split; [done|].
      destruct (Hk k) as [->|(_ & _ & _ & Hn)]; [done|congruence].
    + destruct (isSynchronousShellOperation _); [|by destruct Hshell]. destruct Hshell as (k & Hl & -> & _).
      exists k. by rewrite jm_get_set, String.eqb_refl.
  - intros k id Hg. setoid_rewrite lookup_snoc. destruct (Hk k) as [E|(_ & E & Hl & _)]; rewrite E in Hg.
    + destruct (H5 k id Hg) as (h & x & Hx & ?). exists h, x. auto.
    + injection Hg as <-. exists (length (calls e)), c. auto.
  - destruct (isSynchronousShellOperation _); [|by destruct Hshell as [_ ->]].
    destruct Hshell as (k & _ & -> & Hn & Hs). pose proof (jm_size_set (activeByWorkspace e) k (requestId c)) as Hz.
    unfold jm_has in Hz. rewrite Hn in Hz. lia.
  - intros h x at_ [E|[-> ->]]%lookup_snoc Hx; [by eapply H7|]. split_and!; [done..|congruence].
  - intros h x [E|[-> ->]]%lookup_snoc Hx; [by eapply H8|done].
Qed.

Lemma inv_begin r startedAt now e :
  Inv e -> accepts r e -> Inv (begin_execute resolveWorkspaceConcurrencyKey maxConcurrent r startedAt now e).
Proof.
  intros HI [Hd Hf]. unfold begin_execute. destruct (_ <=? 0) eqn:Er; [by apply inv_settled_call|].
  unfold remainingOperationTimeMs in *. apply Z.leb_gt in Er.
  destruct (shell_lease _ _ r (activeByWorkspace e)) as [[shells l]|err] eqn:Es; [|by apply inv_settled_call].
  set (c := mkCall r startedAt _ _ l Dispatching). change (rq_requestId r) with (requestId c).
  apply inv_active_call; try done.
  - intros h x E Hx. apply (Hf h x E). unfold running in Hx. by destruct (phase x).
  - cbn. lia.
  - cbn. f_equal. lia.
  - cbn. unfold shell_lease in Es. destruct (isSynchronousShellOperation (rq_operation r)); [|by injection Es as <- <-].
    destruct (resolveWorkspaceConcurrencyKey (rq_input r)) as [k|]; [|done]. cbn [mbind result_bind] in Es.
    unfold acquire in Es. destruct (jm_has _ k) eqn:Eh; [done|]. destruct (maxConcurrent <=? _) eqn:Em; [done|].
    injection Es as <- <-. exists k. apply Z.leb_gt in Em. split_and!; [done..| |done].
    unfold jm_has in Eh. by destruct (jm_get _ k).
Qed.

Lemma running_unique e h h' c c' :
  Inv e -> calls e !! h = Some c -> running c = true -> calls e !! h' = Some c' -> running c' = true ->
  requestId c = requestId c' -> h = h'.
Proof.
  intros HI E Hc E' Hc' Hid.
  assert (H1 : jm_get (activeRequests e) (requestId c') = Some h) by (apply (i_active e HI); eauto).
  assert (H2 : jm_get (activeRequests e) (requestId c') = Some h') by (apply (i_active e HI); eauto).
  congruence.
Qed.

(** Releasing the lease of a running call: its key is free, the others are as they were. *)
Lemma release_lease e h c :
  Inv e -> calls e !! h = Some c -> running c = true ->
  let shells := match lease c with Some l => (release l (activeByWorkspace e)).2 | None => activeByWorkspace e end in
  jm_wf shells /\ (jm_size shells <= jm_size (activeByWorkspace e))%nat
  /\ forall k, jm_get shells k = if bool_decide (lease_key c = Some k) then None else jm_get (activeByWorkspace e) k.
Proof.
  intros HI E Hc. pose proof (i_shell e HI h c E Hc) as Hs. unfold lease_key.
  destruct (isSynchronousShellOperation _).
  - destruct Hs as (k & -> & Hk). cbn [release released workspaceKey holder snd fmap option_fmap option_map].
    rewrite bool_decide_true by done. split_and!.
    + apply jm_wf_delete, (i_shells_wf e HI).
    + apply jm_size_delete.
    + intros k'. rewrite jm_get_delete. destruct (String.eqb_spec k' k) as [->|Hn].
      * by rewrite bool_decide_true.
      * by rewrite bool_decide_false by congruence.
  - rewrite Hs. cbn. split_and!; [apply (i_shells_wf e HI)|done|]. intros k. by rewrite bool_decide_false.
Qed.

Lemma finish_spec h outcome e e' :
  finish h outcome e = Some e' ->
  exists c l, calls e !! h = Some c /\ running c = true
    /\ e' = mkExecutor (<[h := mkCall (request c) (c_startedAt c) None (controller c) l (Settled (answer_of c outcome))]> (calls e))
              (jm_delete (activeRequests e) (requestId c))
              (match lease c with Some l => (release l (activeByWorkspace e)).2 | None => activeByWorkspace e end).
Proof.
  unfold finish. destruct (calls e !! h) as [c|]; [|done]. cbn [mbind option_bind]. unfold running.
  destruct (phase c) eqn:Ep; [|done]. intros [= <-]. exists c.
  destruct (lease c) as [l|]; [destruct (release l (activeByWorkspace e)) as [l' shells]|];
    eexists; rewrite Ep; done.
Qed.

Lemma inv_finish_call h outcome e e' : Inv e -> finish h outcome e = Some e' -> Inv e'.
Proof.
  intros HI (c & l & E & Hc & ->)%finish_spec. destruct (release_lease e h c HI E Hc) as (Hwf & Hz & Hk).
  revert Hwf Hz Hk. set (shells := match lease c with _ => _ end). intros Hwf Hz Hk.
  set (c' := mkCall _ _ _ _ l _). assert (Hlen : (h < length (calls e))%nat) by (by apply lookup_lt_Some in E).
  assert (Hl : forall h' x, <[h:=c']> (calls e) !! h' = Some x <-> h' = h /\ x = c' \/ h' <> h /\ calls e !! h' = Some x).
  { intros h' x. destruct (decide (h' = h)) as [->|Hn].
    - rewrite list_lookup_insert_eq by done. split; [intros [= <-]; auto|]. by intros [[_ ->]|[? _]].
    - rewrite list_lookup_insert_ne by done. split; [auto|]. by intros [[? _]|[_ ?]]. }
  pose proof HI as [H1 H2 H3 H4 H5 H6 H7 H8].
  assert (Hne : forall h' x, h' <> h -> calls e !! h' = Some x -> running x = true -> requestId x <> requestId c).
  { intros h' x Hn Ex Hx Hid. apply Hn. by eapply running_unique. }
  split; cbn [calls activeRequests activeByWorkspace].
  - by apply jm_wf_delete.
  - done.
  - intros id h'. rewrite jm_get_delete. setoid_rewrite Hl. destruct (String.eqb_spec id (requestId c)) as [->|Hid].
    + split; [done|]. intros (x & [[-> ->]|[Hn Ex]] & Hx & Hid); [done|]. by destruct (Hne h' x Hn Ex Hx).
    + rewrite H3. split.
      * intros (x & Ex & Hx & <-). exists x. split; [|done]. right. split; [|done]. intros ->. congruence.
      * intros (x & [[-> ->]|[Hn Ex]] & Hx & Hid'); [done|]. by exists x.
  - intros h' x [[-> ->]|[Hn Ex]]%Hl Hx; [done|]. specialize (H4 h' x Ex Hx) as Hs.
    destruct (isSynchronousShellOperation _); [|done]. destruct Hs as (k & El & Eg). exists k. split; [done|].
    rewrite Hk, bool_decide_false; [done|]. intros Hck. unfold lease_key in Hck. specialize (H4 h c E Hc).
    destruct (isSynchronousShellOperation (rq_operation (request c))); [|rewrite H4 in Hck; done].
    destruct H4 as (k' & El' & Eg'). rewrite El' in Hck. injection Hck as <-. destruct (Hne h' x Hn Ex Hx). congruence.
  - intros k id. rewrite Hk. destruct (bool_decide_reflect (lease_key c = Some k)) as [|Hn]; [done|]. intros Hg.
    destruct (H5 k id Hg) as (h' & x & Ex & Hx & Hid & Hkx). exists h', x. rewrite Hl. split; [|done]. right.
    split; [|done]. intros ->. congruence.
  - lia.
  - intros h' x at_ [[-> ->]|[Hn Ex]]%Hl Ht; [done|]. by eapply H7.
  - intros h' x [[-> ->]|[Hn Ex]]%Hl Hx; [done|]. by eapply H8.
Qed.

Lemma inv_abort_signal h error e : Inv e -> Inv (update h (abort_signal error) e).
Proof.
  apply inv_update. intros c. unfold abort_signal. destruct (aborted (controller c)); cbn; auto 10.
Qed.

Lemma inv_timer h now e e' : Inv e -> timer_fired h now e = Some (Ok e') -> Inv e'.
Proof.
  intros HI. unfold timer_fired. destruct (calls e !! h) as [c|]; [|done]. cbn [mbind option_bind].
  destruct (timer c) as [t|]; [|done]. cbn [mbind option_bind]. destruct (now <? t); [done|].
  destruct (terminal_error _ _ _ _ _ _ _ _ _) as [error|]; [|done]. cbn [mbind result_bind]. intros [= <-].
  apply inv_update; [|done]. intros x. unfold abort_signal, fire_timer. cbn. destruct (aborted (controller x)); cbn; auto 10.
Qed.

Lemma inv_cancel_call id reason now e e' : Inv e -> cancel id reason now e = Ok e' -> Inv e'.
Proof.
  intros HI. unfold cancel. destruct (_ ≫= _) as [[h active]|]; [|by intros [= <-]].
  destruct (aborted _); [by intros [= <-]|]. destruct (terminal_error _ _ _ _ _ _ _ _ _) as [error|]; [|done].
  intros [= <-]. by apply inv_abort_signal.
Qed.

Lemma inv_abort_active reason now hs e e' : Inv e -> abort_active reason now hs e = Ok e' -> Inv e'.
Proof.
  revert e. induction hs as [|h hs IH]; intros e HI; cbn [abort_active]; [by intros [= <-]|].
  rewrite bind_ok. intros (e1 & H1 & H2). apply (IH e1); [|done]. revert H1.
  destruct (calls e !! h) as [c|]; [|by intros [= <-]]. destruct (aborted _); [by intros [= <-]|].
  destruct (terminal_error _ _ _ _ _ _ _ _ _) as [error|]; [|done]. intros [= <-]. by apply inv_abort_signal.
Qed.

Lemma executor_reachable_inv e : reachable e -> Inv e.
Proof.
  induction 1 as [|s e e' _ IH Hs].
  - split; cbn; try done; try lia; [apply NoDup_nil_2..|].
    intros id h. split; [done|]. by intros (c & Hc & _).
  - destruct s; cbn in Hs.
    + destruct Hs as [Ha ->]. by apply inv_begin.
    + by eapply inv_finish_call.
    + by eapply inv_timer.
    + by eapply inv_cancel_call.
    + by eapply inv_abort_active.
Qed.

(** *** The shells *)
Definition shell_keys (cs : list Call) : list string := omap (fun c => if running c then lease_key c else None) cs.

Lemma NoDup_omap_lookup {A B} (f : A -> option B) xs :
  (forall i j x y b, xs !! i = Some x -> xs !! j = Some y -> f x = Some b -> f y = Some b -> i = j) -> NoDup (omap f xs).
Proof.
  induction xs as [|x xs IH]; intros H; [apply NoDup_nil_2|].
  assert (Hr : NoDup (omap f xs)).
  { apply IH. intros i j a c b Hi Hj Ha Hc. specialize (H (S i) (S j) a c b Hi Hj Ha Hc). lia. }
  cbn. destruct (f x) as [b|] eqn:Ex; [|done]. apply NoDup_cons_2; [|done].
  intros (y & Hy & Ey)%list_elem_of_omap. apply list_elem_of_lookup in Hy as [j Hj].
  by specialize (H 0%nat (S j) x y b eq_refl Hj Ex Ey).
Qed.

Lemma running_lease e h c k :
  Inv e -> calls e !! h = Some c -> running c = true -> lease_key c = Some k ->
  lease c = Some (mkLease k (requestId c) false) /\ jm_get (activeByWorkspace e) k = Some (requestId c).
Proof.
  intros HI E Hc Hk. pose proof (i_shell e HI h c E Hc) as Hs. unfold lease_key in Hk.
  destruct (isSynchronousShellOperation _); [|by rewrite Hs in Hk].
  destruct Hs as (k' & El & Eg). rewrite El in Hk. by injection Hk as <-.
Qed.

Lemma shell_keys_in cs k : k ∈ shell_keys cs <-> exists h c, cs !! h = Some c /\ running c = true /\ lease_key c = Some k.
Proof.
  unfold shell_keys. rewrite list_elem_of_omap. split.
  - intros (c & [h Hh]%list_elem_of_lookup & Hc). exists h, c. by destruct (running c).
  - intros (h & c & Hh & Hc & Hk). exists c. rewrite Hc. split; [by eapply list_elem_of_lookup_2|done].
Qed.
Lemma shell_keys_held e k : Inv e -> k ∈ shell_keys (calls e) -> jm_has (activeByWorkspace e) k = true.
Proof.
  intros HI (h & c & E & Hc & Hk)%shell_keys_in. unfold jm_has. by destruct (running_lease e h c k HI E Hc Hk) as [_ ->].
Qed.
Lemma shell_keys_distinct e : Inv e -> NoDup (shell_keys (calls e)).
Proof.
  intros HI. apply NoDup_omap_lookup. intros i j x y k Hi Hj. destruct (running x) eqn:Ex; [|done].
  destruct (running y) eqn:Ey; [|done]. intros Hx Hy.
  destruct (running_lease e i x k HI Hi Ex Hx), (running_lease e j y k HI Hj Ey Hy).
  eapply (running_unique e); [done..|congruence].
Qed.
(** The lease of a call is for the workspace of its request. *)
Definition keyed (c : Call) : Prop :=
  match lease c with Some l => resolveWorkspaceConcurrencyKey (rq_input (request c)) = Ok (workspaceKey l) | None => True end.
Lemma keyed_update h f (e : Executor) : (forall c, request (f c) = request c /\ lease (f c) = lease c) ->
  Forall keyed (calls e) -> Forall keyed (calls (update h f e)).
Proof.
  intros Hf H. cbn. apply Forall_alter; [done|]. intros c _ Hc. unfold keyed. destruct (Hf c) as [-> ->]. exact Hc.
Qed.
Lemma keyed_abort h error (e : Executor) : Forall keyed (calls e) -> Forall keyed (calls (update h (abort_signal error) e)).
Proof. apply keyed_update. intros c. unfold abort_signal. by destruct (aborted (controller c)). Qed.
Lemma keyed_begin r startedAt now e :
  Forall keyed (calls e) -> Forall keyed (calls (begin_execute resolveWorkspaceConcurrencyKey maxConcurrent r startedAt now e)).
Proof.
  intros H. unfold begin_execute. destruct (_ <=? 0); [apply Forall_app_2; [done|by constructor]|].
  destruct (shell_lease _ _ r (activeByWorkspace e)) as [[shells l]|err] eqn:Es; (apply Forall_app_2; [done|]); constructor; try done.
  unfold keyed. cbn. unfold shell_lease in Es. destruct (isSynchronousShellOperation _); [|by injection Es as _ <-].
  destruct (resolveWorkspaceConcurrencyKey (rq_input r)) as [k|]; [|done]. cbn [mbind result_bind] in Es.
  unfold acquire in Es. destruct (jm_has _ k); [done|]. destruct (maxConcurrent <=? _); [done|]. by injection Es as _ <-.
Qed.
Lemma keyed_abort_active reason now hs (e e' : Executor) : abort_active reason now hs e = Ok e' -> Forall keyed (calls e) -> Forall keyed (calls e').
Proof.
  revert e. induction hs as [|h hs IH]; intros e; cbn [abort_active]; [by intros [= <-]|].
  rewrite bind_ok. intros (e1 & H1 & H2) H. apply (IH e1); [done|]. revert H1.
  destruct (calls e !! h) as [c|]; [|by intros [= <-]]. destruct (aborted _); [by intros [= <-]|].
  destruct (terminal_error _ _ _ _ _ _ _ _ _) as [error|]; [|done]. intros [= <-]. by apply keyed_abort.
Qed.
Lemma running_keyed e : reachable e -> Forall keyed (calls e).
Proof.
  induction 1 as [|s e e' _ IH Hs]; [constructor|]. destruct s; cbn in Hs.
  - destruct Hs as [_ ->]. by apply keyed_begin.
  - unfold finish in Hs. destruct (calls e !! h) as [c|] eqn:E; [|done]. cbn [mbind option_bind] in Hs. destruct (phase c); [|done].
    injection Hs as <-. cbn [calls]. apply Forall_insert; [done|]. pose proof (Forall_lookup_1 _ _ _ _ IH E) as Hc. unfold keyed in *. cbn.
    destruct (lease c) as [l|]; [|done]. unfold release. by destruct (released l).
  - unfold timer_fired in Hs. destruct (calls e !! h) as [c|]; [|done]. cbn [mbind option_bind] in Hs.
    destruct (timer c) as [t|]; [|done]. cbn [mbind option_bind] in Hs. destruct (now <? t); [done|].
    destruct (terminal_error _ _ _ _ _ _ _ _ _) as [error|]; [|done]. cbn [mbind result_bind] in Hs. injection Hs as <-.
    apply keyed_update; [|done]. intros x. unfold abort_signal, fire_timer. cbn. by destruct (aborted (controller x)).
  - unfold cancel in Hs. destruct (_ ≫= _) as [[h active]|]; [|by injection Hs as <-].
    destruct (aborted _); [by injection Hs as <-|]. destruct (terminal_error _ _ _ _ _ _ _ _ _) as [error|]; [|done].
    injection Hs as <-. by apply keyed_abort.
  - by eapply keyed_abort_active.
Qed.

(** A running shell operation. *)
Definition running_shell (c : Call) : bool := running c && isSynchronousShellOperation (rq_operation (request c)).
(** A running shell holds the unreleased lease of the workspace that its request names. *)
Lemma running_shell_lease e h c : reachable e -> calls e !! h = Some c -> running_shell c = true ->
  exists k, resolveWorkspaceConcurrencyKey (rq_input (request c)) = Ok k
    /\ lease c = Some (mkLease k (requestId c) false) /\ jm_get (activeByWorkspace e) k = Some (requestId c).
Proof.
  intros Hr E [Hc Ho]%andb_true_iff. pose proof (i_shell e (executor_reachable_inv e Hr) h c E Hc) as Hs. rewrite Ho in Hs.
  destruct Hs as (k & El & Eg). pose proof (Forall_lookup_1 _ _ _ _ (running_keyed e Hr) E) as Hk. unfold keyed in Hk.
  rewrite El in Hk. by exists k.
Qed.
Lemma shell_keys_length e : reachable e -> length (List.filter running_shell (calls e)) = length (shell_keys (calls e)).
Proof.
  intros Hr. pose proof (i_shell e (executor_reachable_inv e Hr)) as H. revert H. generalize (calls e). unfold running_shell, shell_keys. clear.
  induction l as [|c l IH]; intros H; [done|]. cbn. specialize (IH (fun h => H (S h))). specialize (H 0%nat c eq_refl).
  destruct (running c); cbn [andb]; [|done]. specialize (H eq_refl). unfold lease_key.
  destruct (isSynchronousShellOperation _); [destruct H as (k & -> & _); cbn; by rewrite IH|by rewrite H].
Qed.

(** C19.  [safety] At any moment of any run two running shell operations are of different
    workspaces: the keys that the agent resolves their inputs to are different.  Each holds the unreleased lease of its
    workspace, there are no more than the configured limit, and a lease that is held is of a shell that runs in that
    workspace (request-executor.ts [execute], SynchronousShellConcurrency). *)
Theorem running_shells_exclusive e :
  reachable e ->
  (forall h h' c c', calls e !! h = Some c -> calls e !! h' = Some c' -> running_shell c = true -> running_shell c' = true -> h <> h' ->
     resolveWorkspaceConcurrencyKey (rq_input (request c)) <> resolveWorkspaceConcurrencyKey (rq_input (request c')))
  /\ Z.of_nat (length (List.filter running_shell (calls e))) <= Z.max 0 maxConcurrent
  /\ (forall h c, calls e !! h = Some c -> running_shell c = true ->
       exists k, resolveWorkspaceConcurrencyKey (rq_input (request c)) = Ok k
         /\ lease c = Some (mkLease k (requestId c) false) /\ jm_get (activeByWorkspace e) k = Some (requestId c))
  /\ (forall k id, jm_get (activeByWorkspace e) k = Some id ->
       exists h c, calls e !! h = Some c /\ running_shell c = true /\ requestId c = id
         /\ resolveWorkspaceConcurrencyKey (rq_input (request c)) = Ok k).
Proof.
  intros Hr. pose proof (executor_reachable_inv e Hr) as HI. split_and!.
  - intros h h' c c' E E' Hc Hc' Hn Ek. apply Hn.
    destruct (running_shell_lease e h c Hr E Hc) as (k & K1 & _ & G1), (running_shell_lease e h' c' Hr E' Hc') as (k' & K2 & _ & G2).
    apply andb_true_iff in Hc as [Hc _], Hc' as [Hc' _]. apply (running_unique e h h' c c' HI E Hc E' Hc'). congruence.
  - rewrite (shell_keys_length e Hr). transitivity (Z.of_nat (jm_size (activeByWorkspace e))); [|apply (i_size e HI)].
    apply inj_le. rewrite jm_size_keys. apply submseteq_length, NoDup_submseteq; [by apply shell_keys_distinct|].
    intros k Hk%shell_keys_held; [|done]. unfold jm_has in Hk. apply dec_stable. rewrite <- jm_get_none. by destruct (jm_get _ k).
  - intros h c. by apply running_shell_lease.
  - intros k id Hg. destruct (i_holder e HI k id Hg) as (h & c & E & Hc & Hid & Hk). exists h, c. split; [done|].
    assert (Ho : isSynchronousShellOperation (rq_operation (request c)) = true).
    { pose proof (i_shell e HI h c E Hc) as Hs. unfold lease_key in Hk. by destruct (isSynchronousShellOperation _); [|rewrite Hs in Hk]. }
    split; [by apply andb_true_iff|]. split; [done|]. pose proof (Forall_lookup_1 _ _ _ _ (running_keyed e Hr) E) as Hkey.
    unfold keyed in Hkey. unfold lease_key in Hk. destruct (lease c) as [l|]; [|done]. injection Hk as <-. exact Hkey.
Qed.

(** *** Nothing is left behind *)
Definition running_count (e : Executor) : nat := length (List.filter running (calls e)).

Lemma jm_size_injection (m : jsmap nat) (p : Call -> bool) (cs : list Call) :
  jm_wf m ->
  (forall id h, jm_get m id = Some h <-> exists c, cs !! h = Some c /\ p c = true /\ requestId c = id) ->
  (forall i j x y, cs !! i = Some x -> cs !! j = Some y -> p x = true -> p y = true -> requestId x = requestId y -> i = j) ->
  jm_size m = length (List.filter p cs).
Proof.
  intros Hwf Hm Hinj. rewrite jm_size_keys.
  assert (Hids : omap (fun c => if p c then Some (requestId c) else None) cs = map requestId (List.filter p cs)).
  { clear. induction cs as [|c cs IH]; [done|]. cbn. destruct (p c); cbn; by rewrite <- IH. }
  rewrite <- (length_map requestId (List.filter p cs)), <- Hids. apply Permutation_length, NoDup_Permutation; [done| |].
  - apply NoDup_omap_lookup. intros i j x y id Hi Hj. destruct (p x) eqn:Ex; [|done]. destruct (p y) eqn:Ey; [|done].
    intros [= <-] [= Hid]. by eapply (Hinj i j x y).
  - intros id. rewrite list_elem_of_omap. split.
    + intros Hid. destruct (jm_get m id) as [h|] eqn:Eg; [|by apply jm_get_none in Eg].
      apply Hm in Eg as (c & E & Hc & <-). exists c. rewrite Hc. split; [by eapply list_elem_of_lookup_2|done].
    + intros (c & [h Hh]%list_elem_of_lookup & Hc). destruct (p c) eqn:Ep; [|done]. injection Hc as <-.
      apply dec_stable. rewrite <- jm_get_none. assert (jm_get m (requestId c) = Some h) as -> by (apply Hm; eauto). done.
Qed.

(** [invariant] The active requests of an executor are exactly its running calls: none
    is forgotten and none is left behind, and when no call runs no shell lease is held. *)
Theorem executor_tracks_running e :
  reachable e ->
  activeRequestCount e = running_count e
  /\ (forall id h, jm_get (activeRequests e) id = Some h <->
       exists c, calls e !! h = Some c /\ running c = true /\ requestId c = id)
  /\ (running_count e = 0%nat -> activeRequests e = [] /\ activeByWorkspace e = []).
Proof.
  intros HI%executor_reachable_inv.
  assert (Hn : activeRequestCount e = running_count e).
  { apply jm_size_injection; [apply (i_requests_wf e HI)|apply (i_active e HI)|].
    intros i j x y Hi Hj Hx Hy. by eapply running_unique. }
  split_and!; [done|apply (i_active e HI)|]. intros H0. rewrite H0 in Hn. unfold activeRequestCount, jm_size in Hn.
  apply nil_length_inv in Hn. split; [done|]. destruct (activeByWorkspace e) as [|[k id] m] eqn:Em; [done|exfalso].
  destruct (i_holder e HI k id) as (h & c & E & Hc & _); [rewrite Em; cbn; by rewrite String.eqb_refl|].
  assert (jm_get (activeRequests e) (requestId c) = Some h) as Ha by (apply (i_active e HI); eauto). by rewrite Hn in Ha.
Qed.

(** A shell operation that ends frees its workspace: its call is answered
    with what the operation gave, and the next shell operation of the workspace is admitted. *)
Theorem finished_shell_frees e h c k outcome id :
  reachable e -> 1 <= maxConcurrent ->
  calls e !! h = Some c -> running c = true -> lease_key c = Some k ->
  exists e' c' shells, finish h outcome e = Some e' /\ calls e' !! h = Some c' /\ phase c' = Settled (answer_of c outcome)
    /\ acquire maxConcurrent k id (activeByWorkspace e') = Ok (shells, mkLease k id false).
Proof.
  intros HI%executor_reachable_inv Hmax E Hc Hk.
  destruct (running_lease e h c k HI E Hc Hk) as [El Eg].
  assert (exists e', finish h outcome e = Some e') as [e' He].
  { unfold finish. rewrite E. cbn. unfold running in Hc. destruct (phase c); [|done]. eauto. }
  exists e'. pose proof He as (c0 & l & E0 & _ & ->)%finish_spec. rewrite E0 in E. injection E as ->.
  eexists _, _. split; [exact He|]. rewrite El. cbn [calls activeByWorkspace release released workspaceKey holder snd].
  rewrite Eg, bool_decide_true by done. split.
  - rewrite list_lookup_insert_eq; [done|]. by apply lookup_lt_Some in E0.
  - split; [done|]. unfold acquire, jm_has. rewrite jm_get_delete, String.eqb_refl.
    pose proof (jm_keys_delete _ k _ (i_shells_wf e HI) Eg) as Hp%Permutation_length. cbn [length] in Hp.
    pose proof (i_size e HI) as Hz. rewrite jm_size_keys in Hz.
    assert (maxConcurrent <=? Z.of_nat (jm_size (jm_delete (activeByWorkspace e) k)) = false) as ->
      by (apply Z.leb_gt; rewrite jm_size_keys; lia).
    done.
Qed.

(** *** Aborts *)
(** An abort of a call with an error of code [c] that ended for [reason]: an earlier abort
    keeps its error, and the call is otherwise as it was. *)
Definition aborted_with (c : ErrorCode) (reason : OperationTerminalReason) (x x' : Call) : Prop :=
  if aborted (controller x) then x' = x
  else exists error, x' = abort_signal error x /\ code error = c /\ lifecycle error ≫= lc_reason = Some reason.

Lemma aborted_with_aborted c reason x x' : aborted_with c reason x x' -> aborted (controller x') = true.
Proof.
  unfold aborted_with. destruct (aborted (controller x)) eqn:Ea; [by intros ->|].
  intros (error & -> & _). unfold abort_signal. by rewrite Ea.
Qed.

Lemma abort_active_spec reason now hs e :
  NoDup hs -> sempty (sanitizeOperationDiagnostic reason) = false ->
  (forall h c, h ∈ hs -> calls e !! h = Some c -> deadline_schema (rq_deadline (request c)) = true) ->
  exists e', abort_active reason now hs e = Ok e'
    /\ activeRequests e' = activeRequests e /\ activeByWorkspace e' = activeByWorkspace e
    /\ forall h, (h ∈ hs -> forall c, calls e !! h = Some c -> exists c', calls e' !! h = Some c'
                    /\ aborted_with AGENT_UNAVAILABLE reason_client_disconnected c c')
             /\ (h ∉ hs -> calls e' !! h = calls e !! h).
Proof.
  intros Hnd Hs. revert e. induction Hnd as [|h hs Hn Hnd IH]; intros e Hd; cbn [abort_active].
  { exists e. split_and!; [done..|]. intros h. split; [by intros ?%not_elem_of_nil|done]. }
  assert (exists e1, (match calls e !! h with
          | Some active => if aborted (controller active) then Ok e
              else error ← terminal_error AGENT_UNAVAILABLE "The Agent relay connection was closed."
                     (rq_deadline (request active)) (c_startedAt active) layer_websocket reason_client_disconnected reason None now;
                   Ok (update h (abort_signal error) e)
          | None => Ok e end) = Ok e1
    /\ activeRequests e1 = activeRequests e /\ activeByWorkspace e1 = activeByWorkspace e
    /\ (forall c, calls e !! h = Some c -> exists c', calls e1 !! h = Some c'
          /\ aborted_with AGENT_UNAVAILABLE reason_client_disconnected c c')
    /\ forall h', h' <> h -> calls e1 !! h' = calls e !! h') as (e1 & -> & E1 & E2 & Hh & Ho).
  { destruct (calls e !! h) as [c|] eqn:E; [|exists e; by rewrite E].
    unfold aborted_with. destruct (aborted (controller c)) eqn:Ea.
    { exists e. split_and!; [done..| |done]. intros ? [= <-]. rewrite Ea. eauto. }
    edestruct (terminal_error_made AGENT_UNAVAILABLE "The Agent relay connection was closed." (rq_deadline (request c))
      (c_startedAt c) layer_websocket reason_client_disconnected reason None now) as (l & -> & Hl); [|exact Hs|].
    { apply (Hd h); [by left|done]. }
    cbn [mbind result_bind]. eexists. split; [done|]. cbn. split_and!; [done..| |].
    - intros ? [= <-]. rewrite Ea. rewrite list_lookup_alter_eq, E. eexists. split; [done|]. eexists. split; [done|]. done.
    - intros h' Hne. by rewrite list_lookup_alter_ne by done. }
  cbn [mbind result_bind]. destruct (IH e1) as (e' & He' & A1 & A2 & A3).
  { intros h' c Hin. rewrite Ho by (by intros ->). apply Hd. by right. }
  exists e'. split_and!; [done|congruence..|]. intros h'. destruct (A3 h') as [B1 B2]. rewrite elem_of_cons. split.
  - intros [->|Hin] c E; [|apply B1; [done|]; by rewrite Ho by (by intros ->)].
    rewrite B2 by done. by apply Hh.
  - intros Hni. rewrite B2 by tauto. apply Ho. tauto.
Qed.

Lemma active_handles e :
  Inv e -> NoDup (jm_values (activeRequests e))
  /\ forall h, h ∈ jm_values (activeRequests e) <-> exists c, calls e !! h = Some c /\ running c = true.
Proof.
  intros HI. assert (Hin : forall i k h, activeRequests e !! i = Some (k, h) -> jm_get (activeRequests e) k = Some h).
  { intros i k h Hi. apply jm_in_get; [apply (i_requests_wf e HI)|]. by eapply list_elem_of_lookup_2. }
  unfold jm_values. change (map snd) with (fmap (M := list) (@snd string nat)). split.
  - apply NoDup_alt. intros i j h. rewrite !list_lookup_fmap.
    intros ([k1 h1] & E1 & ->)%fmap_Some ([k2 h2] & E2 & Hh)%fmap_Some. cbn in Hh. subst h2.
    pose proof (proj1 (i_active e HI k1 h1) (Hin i k1 h1 E1)) as (c & Ec & _ & Hk1).
    pose proof (proj1 (i_active e HI k2 h1) (Hin j k2 h1 E2)) as (c2 & Ec2 & _ & Hk2).
    eapply (proj1 (NoDup_alt _) (i_requests_wf e HI) i j k1); unfold jm_keys;
      change (map fst) with (fmap (M := list) (@fst string nat)); rewrite list_lookup_fmap, ?E1, ?E2; cbn; congruence.
  - intros h. rewrite list_elem_of_fmap. split.
    + intros ([k h'] & -> & [i Hi]%list_elem_of_lookup). apply Hin in Hi. apply (i_active e HI) in Hi as (c & Ec & Hc & _).
      by exists c.
    + intros (c & Ec & Hc). exists (requestId c, h). split; [done|]. apply jm_get_in, (i_active e HI). eauto.
Qed.

(** [error] Closing the connection aborts every running call, with the error of a closed
    connection unless an earlier abort gave another, and changes nothing else; it does not
    fail for a reason that is not blank (request-executor.ts [abortAll]). *)
Theorem abortAll_aborts_running reason now e :
  reachable e -> sempty (sanitizeOperationDiagnostic reason) = false ->
  exists e', abortAll reason now e = Ok e'
    /\ activeRequests e' = activeRequests e /\ activeByWorkspace e' = activeByWorkspace e
    /\ forall h c, calls e !! h = Some c -> exists c', calls e' !! h = Some c'
         /\ if running c then aborted_with AGENT_UNAVAILABLE reason_client_disconnected c c' /\ aborted (controller c') = true
            else c' = c.
Proof.
  intros HI%executor_reachable_inv Hs. destruct (active_handles e HI) as [Hnd Hin].
  destruct (abort_active_spec reason now (jm_values (activeRequests e)) e Hnd Hs) as (e' & He & E1 & E2 & Hc).
  { intros h c (c1 & Ec1 & Hr)%Hin Ec. rewrite Ec in Ec1. injection Ec1 as <-. by apply (i_deadline e HI h). }
  exists e'. split_and!; [done..|]. intros h c Ec. destruct (Hc h) as [B1 B2].
  destruct (running c) eqn:Er.
  - destruct (B1 (proj2 (Hin h) (ex_intro _ c (conj Ec Er))) c Ec) as (c' & Ec' & Ha).
    exists c'. split; [done|]. split; [done|]. by eapply aborted_with_aborted.
  - exists c. split; [|done]. rewrite B2; [done|]. intros (c1 & Ec1 & Hr)%Hin. congruence.
Qed.

Lemma cancel_diagnostic reason :
  sempty (sanitizeOperationDiagnostic (t_diagnostic (cancellationTerminal reason))) = false.
Proof. by destruct reason; vm_compute. Qed.

(** A cancellation aborts the running call it names and no other, with the
    error of its reason; it does nothing when no running call has the identifier
    (request-executor.ts [cancel]). *)
Theorem cancel_aborts_named id reason now e :
  reachable e ->
  exists e', cancel id reason now e = Ok e'
    /\ activeRequests e' = activeRequests e /\ activeByWorkspace e' = activeByWorkspace e
    /\ forall h c, calls e !! h = Some c -> exists c', calls e' !! h = Some c'
         /\ if running c && (requestId c =s id)
            then aborted_with (t_code (cancellationTerminal reason)) (cancel_reason reason) c c' else c' = c.
Proof.
  intros HI%executor_reachable_inv. unfold cancel.
  assert (Hother : forall h c, jm_get (activeRequests e) id <> Some h -> calls e !! h = Some c ->
                     running c && (requestId c =s id) = false).
  { intros h c Hn Ec. destruct (running c) eqn:Er; [|done]. destruct (String.eqb_spec (requestId c) id) as [Hid|]; [|done].
    destruct Hn. apply (i_active e HI). eauto. }
  destruct (jm_get (activeRequests e) id) as [h|] eqn:Eh; cbn [mbind option_bind].
  2: { exists e. split_and!; [done..|]. intros h c Ec. exists c. by rewrite (Hother h c). }
  pose proof (proj1 (i_active e HI id h) Eh) as (c & Ec & Hr & Hid). rewrite Ec. cbn [fmap option_fmap option_map].
  assert (Hthis : running c && (requestId c =s id) = true) by (by rewrite Hr, Hid, String.eqb_refl).
  destruct (aborted (controller c)) eqn:Ea.
  { exists e. split_and!; [done..|]. intros h' c' Ec'. exists c'. split; [done|].
    destruct (decide (h' = h)) as [->|Hn]; [|rewrite (Hother h' c'); congruence].
    rewrite Ec in Ec'. injection Ec' as <-. rewrite Hthis. unfold aborted_with. by rewrite Ea. }
  edestruct (terminal_error_made (t_code (cancellationTerminal reason)) (t_message (cancellationTerminal reason))
    (rq_deadline (request c)) (c_startedAt c) (t_layer (cancellationTerminal reason)) (cancel_reason reason)
    (t_diagnostic (cancellationTerminal reason)) None now) as (l & -> & Hl);
    [by apply (i_deadline e HI h)|apply cancel_diagnostic|].
  cbn [mbind result_bind]. eexists. split_and!; [done..|]. cbn. intros h' c' Ec'.
  destruct (decide (h' = h)) as [->|Hn].
  - rewrite list_lookup_alter_eq, Ec'. rewrite Ec in Ec'. injection Ec' as <-. eexists. split; [done|]. rewrite Hthis.
    unfold aborted_with. rewrite Ea. eexists. split; [done|]. done.
  - rewrite list_lookup_alter_ne by done. exists c'. rewrite (Hother h' c'); [done|congruence|done].
Qed.

Lemma completion_grace_nonneg o : 0 <= operationCompletionGraceMs o.
Proof. by destruct o. Qed.

(** The watchdog of a call fires only while the call runs, and not before the
    deadline of its request; it always aborts, with a timeout (request-executor.ts [execute]). *)
Theorem watchdog_after_deadline h now e r :
  reachable e -> timer_fired h now e = Some r ->
  exists c c' e', r = Ok e' /\ calls e !! h = Some c /\ running c = true /\ deadlineAt (rq_deadline (request c)) <= now
    /\ calls e' !! h = Some c' /\ timer c' = None /\ aborted_with AGENT_TIMEOUT reason_timeout (fire_timer c) c'
    /\ aborted (controller c') = true.
Proof.
  intros HI%executor_reachable_inv. unfold timer_fired. destruct (calls e !! h) as [c|] eqn:Ec; [|done].
  cbn [mbind option_bind]. destruct (timer c) as [t|] eqn:Et; [|done]. cbn [mbind option_bind].
  destruct (i_timer e HI h c t Ec Et) as (Hr & Hlt & ->). destruct (Z.ltb_spec now (deadlineAt (rq_deadline (request c)) + operationCompletionGraceMs (rq_operation (request c)))) as [|Hle]; [done|].
  edestruct (terminal_error_made AGENT_TIMEOUT "Relay request deadline has expired." (rq_deadline (request c)) (c_startedAt c)
    layer_workspace_agent reason_timeout "Workspace Agent exhausted the remaining relay deadline." None now) as (l & -> & Hl);
    [by apply (i_deadline e HI h)|by vm_compute|].
  cbn [mbind result_bind]. intros [= <-]. pose proof (completion_grace_nonneg (rq_operation (request c))) as Hg.
  eexists c, _, _. split; [done|]. cbn [calls update]. rewrite list_lookup_alter_eq, Ec. split; [done|]. split; [done|].
  split; [lia|]. split; [done|]. unfold aborted_with, abort_signal, fire_timer. cbn [controller].
  destruct (aborted (controller c)) eqn:Ea; [by rewrite ?Ea|]. split_and!; [done| |done]. eexists. split; [done|]. done.
Qed.
End Invariant.

(** *** A run *)
Module Trial.
Definition key (workspaceId : string) : result exn string :=
  if sempty workspaceId then throw INVALID_ARGUMENT "No workspace." else Ok workspaceId.
Definition t0 : Z := 1700000000000.
Definition deadline : OperationDeadline := mkDeadline 60000 60000 (t0 + 60000).
Definition context : OperationContext := mkContext None None None None None None.
Definition req (id : string) (o : RelayOperation) (workspace : string) : RelayRequest (J := string) :=
  mkRequest id deadline context o workspace.
Definition begin (id : string) (o : RelayOperation) (workspace : string) : Executor -> Executor :=
  begin_execute key 2 (req id o workspace) t0 t0.
Definition e1 : Executor := begin "r1" runCommand "alpha" new_executor.
Definition e2 : Executor := begin "r2" readFile "alpha" e1.
Definition e3 : Executor := begin "r3" runCommand "alpha" e2.
Definition e4 : Executor := begin "r4" runCommand "beta" e3.
Definition e5 : Executor := default e4 (finish 1 (Ok "text"%string) e4).

Lemma fresh id o w e :
  forallb (fun c => negb (running c) || negb (requestId c =s id)) (calls e) = true -> accepts (req id o w) e.
Proof.
  intros H. split; [by vm_compute|]. intros h c E Hp Hid. rewrite forallb_forall in H.
  specialize (H c). rewrite <- list_elem_of_In in H. specialize (H (list_elem_of_lookup_2 _ _ _ E)).
  unfold running in H. rewrite Hp, Hid, String.eqb_refl in H. done.
Qed.
Lemma reachable_e5 : reachable key 2 e5.
Proof.
  apply (reachable_step _ _ (Finish 1 (Ok "text"%string)) e4); [|by vm_compute].
  apply (reachable_step _ _ (Execute (req "r4" runCommand "beta") t0 t0) e3); [|split; [by apply fresh|done]].
  apply (reachable_step _ _ (Execute (req "r3" runCommand "alpha") t0 t0) e2); [|split; [by apply fresh|done]].
  apply (reachable_step _ _ (Execute (req "r2" readFile "alpha") t0 t0) e1); [|split; [by apply fresh|done]].
  apply (reachable_step _ _ (Execute (req "r1" runCommand "alpha") t0 t0) new_executor); [|split; [by apply fresh|done]].
  constructor.
Qed.

Lemma running_shells_exclusive_witness :
  shell_keys (calls e5) = ["alpha"; "beta"]%string /\ Z.of_nat (length (List.filter running_shell (calls e5))) <= 2
  /\ exists h c, calls e5 !! h = Some c /\ running_shell c = true /\ requestId c = "r1"%string /\ key (rq_input (request c)) = Ok "alpha"%string.
Proof.
  destruct (running_shells_exclusive key 2 e5 reachable_e5) as (_ & H1 & _ & H2). split; [by vm_compute|]. split; [exact H1|].
  apply H2. vm_compute. reflexivity.
Defined.

Lemma executor_tracks_running_witness : running_count e5 = 2%nat /\ activeRequestCount e5 = running_count e5.
Proof. split; [by vm_compute|]. apply (executor_tracks_running key 2 e5 reachable_e5). Defined.

Definition first : Call (J := string) :=
  mkCall (req "r1" runCommand "alpha") t0 (Some (t0 + 90000)) (mkSignal false None)
    (Some (mkLease "alpha" "r1" false)) Dispatching.
Lemma finished_shell_frees_witness :
  exists e' c' shells, finish 0 (Ok "done"%string) e5 = Some e' /\ calls e' !! 0%nat = Some c'
    /\ phase c' = Settled (Ok (mkResponse "r1" (Ok "done"%string)))
    /\ acquire 2 "alpha" "r5" (activeByWorkspace e') = Ok (shells, mkLease "alpha" "r5" false).
Proof.
  apply (finished_shell_frees key 2 e5 0 first "alpha" (Ok "done"%string) "r5" reachable_e5);
    [lia|vm_compute; reflexivity..].
Defined.

Lemma abortAll_aborts_running_witness :
  exists e', abortAll "Agent relay connection closed." (t0 + 1) e5 = Ok e' /\ activeRequests e' = activeRequests e5.
Proof.
  destruct (abortAll_aborts_running key 2 "Agent relay connection closed." (t0 + 1) e5 reachable_e5) as (e' & He & Ha & _);
    [vm_compute; reflexivity|]. exact (ex_intro _ e' (conj He Ha)).
Defined.

(** A cancelled call is aborted by the cancellation and keeps its error when the connection closes. *)
Example cancelled_then_closed :
  (e ← cancel "r1" cancelled (t0 + 5) e5; e ← abortAll "closed" (t0 + 6) e;
   Ok (map (fun c => (requestId c, code <$> abort_reason (controller c))) (calls e)))
  = Ok [("r1"%string, Some OPERATION_CANCELLED); ("r2"%string, None); ("r3"%string, None); ("r4"%string, Some AGENT_UNAVAILABLE)].
Proof. by vm_compute. Qed.
End Trial.
End RequestExecutor.
