(* ===== verification/SourceControl.v ===== *)
(** Source-control mutations: who may ask for one, and how it runs at most once.

    - [assertSourceControlCapability], [assertTypedGitBranchMutationAllowed]:
      packages/mcp-core/src/source-control-policy.ts;
    - the mutations that the agent offers and [executeSourceControlMutation] with its helpers:
      services/workspace-agent/src/local-agent.ts; the executor of remote workspaces
      (services/workspace-agent/src/remote/ssh-workspace-executor.ts, [executeGitHubMutation]) has
      the same body without the branch check.

    A call of [executeSourceControlMutation] advances from one [await] to the next
    ([advance_call]); any number of calls interleave there, and the process may crash,
    which loses the calls and the confirmations but not the receipts.  The receipt store is any store that satisfies
    [Receipts.ReceiptStoreLaws], one for each workspace.  The back ends, the result schemas and SHA-256 are parameters; audit
    metadata is left out. *)
From S2P Require Import Prelude Errors JsString JsMap JsDate Json JsonText Analysis NodeEnv Policy Confirmation Receipts RelayRequests.
Open Scope Z_scope.

(** ** packages/mcp-core/src/source-control-policy.ts *)
Inductive SourceControlCapability :=
| git_branch_write | git_index_write | git_commit_write | git_merge_write | git_remote_push
| github_repository_read | github_repository_create | github_pull_request_read | github_pull_request_create
| github_pull_request_merge.

#[export] Instance SourceControlCapability_eq_dec : EqDecision SourceControlCapability.
Proof. solve_decision. Defined.

Record SourceControlPolicy := mkSourceControlPolicy {
  capabilities : list SourceControlCapability;
  accountOwners : list string;
  additionalRepositories : list string;
}.

(** The part of a workspace that source control reads. *)
Record SourceControlWorkspace := mkSourceControlWorkspace {
  sw_id : string;
  sw_permissionProfile : PermissionProfile;
  sw_confirmationMode : ConfirmationMode;
  sw_sourceControl : option SourceControlPolicy;
}.

Definition denySourceControl {A} (m : string) : result exn A := throw SOURCE_CONTROL_CAPABILITY_DENIED m.
Definition normalizeTarget (value : string) : string := toLowerCase value.
(** [capability.startsWith("github.")] *)
Definition is_github (c : SourceControlCapability) : bool :=
  match c with
  | git_branch_write | git_index_write | git_commit_write | git_merge_write | git_remote_push => false
  | _ => true
  end.

Definition assertSourceControlCapability (workspace : SourceControlWorkspace) (capability : SourceControlCapability)
    (repository canonicalRepository accountOwner : option string) (mutation : bool) : result exn unit :=
  match sw_sourceControl workspace with
  | None => denySourceControl "Source-control capability is not authorized for this workspace."
  | Some configured =>
      if negb (includes (capabilities configured) capability)
      then denySourceControl "Source-control capability is not authorized for this workspace."
      else if mutation && negb (bool_decide (sw_permissionProfile workspace = full_repo_write))
      then denySourceControl "Workspace policy does not allow source-control mutation."
      else if bool_decide (capability = github_repository_create) && bool_decide (accountOwner = None)
      then denySourceControl "GitHub account owner is required for repository creation authorization."
      else if is_github capability && negb (bool_decide (capability = github_repository_create))
              && bool_decide (repository = None)
      then denySourceControl "GitHub repository target is required for source-control authorization."
      else
        _ ← (match repository with
             | None => Ok tt
             | Some repo =>
                 let requested := normalizeTarget repo in
                 let canonical := normalizeTarget <$> canonicalRepository in
                 let additional := map normalizeTarget (additionalRepositories configured) in
                 if negb (bool_decide (Some requested = canonical)) && negb (includes additional requested)
                 then denySourceControl "Source-control repository target is not authorized." else Ok tt
             end : result exn unit);
        match accountOwner with
        | None => Ok tt
        | Some owner =>
            if negb (includes (map normalizeTarget (accountOwners configured)) (normalizeTarget owner))
            then denySourceControl "GitHub account owner is not authorized for repository creation." else Ok tt
        end
  end.

Definition isProtectedMain (value : option string) : bool :=
  match value with Some v => toLowerCase v =s "main" | None => false end.
Definition assertTypedGitBranchMutationAllowed (operation : SourceControlOperationName) (currentBranch : option string) :
    result exn unit :=
  let currentIsMain := isProtectedMain currentBranch in
  if bool_decide (operation = op_git_commit) && currentIsMain
     || bool_decide (operation = op_git_merge_branch) && currentIsMain
  then throw GIT_PROTECTED_BRANCH "The protected main branch cannot be mutated by this typed Git operation."
  else Ok tt.

(** ** services/workspace-agent/src/local-agent.ts *)
Section SourceControl.
Context `{JN : JsNumber} `{JR : !JsNumberRead JN}.

(** *** The helpers *)
Definition readConfirmationId (input : value) : option string :=
  match input with
  | VObject _ es =>
      match field "confirmationId" es with
      | Some (VString s) => if sempty s then None else Some s
      | _ => None
      end
  | _ => None
  end.

Definition deriveSourceControlIdempotencyKey (input : value) (context : OperationContext) : result exn string :=
  match idempotencyKey context, readConfirmationId input, invocationId context, correlationId context with
  | Some v, _, _, _ | None, Some v, _, _ | None, None, Some v, _ | None, None, None, Some v => Ok v
  | None, None, None, None =>
      throw INVALID_ARGUMENT
        "Source-control mutation requires an idempotency, invocation, correlation or confirmation identity."
  end.

Definition sourceControlConfirmationOperation (workspace : SourceControlWorkspace) (operation : ConfirmableOperation)
    (sourceBranch : option string) : option ConfirmableOperation :=
  let trusted := bool_decide (sw_confirmationMode workspace = trusted_workspace)
                 && bool_decide (sw_permissionProfile workspace = full_repo_write) in
  let trustedFeatureFlow := bool_decide (operation = git_push_branch)
                            || bool_decide (operation = github_create_pull_request) in
  let sourceIsProtectedMain := isProtectedMain sourceBranch in
  if trusted && trustedFeatureFlow && negb (sempty (default EmptyString sourceBranch)) && negb sourceIsProtectedMain
  then None else Some operation.

Definition localGitRepositoryTarget (workspaceId root : string) : string :=
  "git:" +:+ workspaceId +:+ ":" +:+ root.

(** *** The mutations on offer *)
(** The options of [executeSourceControlMutation].  [m_checksBranch] is whether [beforeReceipt] reads the current branch and refuses
    the protected one. *)
Record Mutation := mkMutation {
  m_workspace : SourceControlWorkspace;
  m_operation : SourceControlOperationName;
  m_confirmableOperation : option ConfirmableOperation;
  m_capability : SourceControlCapability;
  m_repository : option string;
  m_canonicalRepositoryAlreadyAuthorized : bool;
  m_accountOwner : option string;
  m_targetResource : string;
  m_input : value;
  m_context : OperationContext;
  m_checksBranch : bool;
  m_resultSchema : value -> result exn value;
}.

(** The parsed inputs, field by field in the order of their schemas. *)
Inductive Request :=
| GitCreateBranch (root : option string) (branch expectedHeadSha : string)
| GitStagePaths (root : option string) (paths : list string)
| GitUnstagePaths (root : option string) (paths : list string) (expectedHeadSha expectedIndexTreeSha : string)
| GitCommit (root : option string) (commitMessage expectedHeadSha expectedIndexTreeSha : string)
| GitMergeBranch (root : option string) (sourceBranch expectedTargetHeadSha expectedSourceHeadSha : string)
| GitPushBranch (root : option string) (branch expectedLocalSha remote : string) (expectedRemoteSha confirmationId : option string)
| GithubCreateRepository (owner name visibility : string) (description confirmationId : option string)
| GithubCreatePullRequest (root : option string) (owner repository title head base : string) (body : option string)
    (draft : bool) (confirmationId : option string)
| GithubMergePullRequest (root : option string) (owner repository : string) (pullNumber : number)
    (expectedPullRequestHeadSha mergeMethod : string) (confirmationId : option string).

Definition text (key s : string) : list (string * value) := [(key, VString s)].
Definition optional (key : string) (s : option string) : list (string * value) :=
  match s with Some s => [(key, VString s)] | None => [] end.
Definition texts (key : string) (ss : list string) : list (string * value) := [(key, VArray (map VString ss))].
(** The parsed input as the object that is digested. *)
Definition input_of (workspaceId : string) (r : Request) : value :=
  VObject true (text "workspaceId" workspaceId ++
    match r with
    | GitCreateBranch root branch h => optional "root" root ++ text "branch" branch ++ text "expectedHeadSha" h
    | GitStagePaths root paths => optional "root" root ++ texts "paths" paths
    | GitUnstagePaths root paths h t =>
        optional "root" root ++ texts "paths" paths ++ text "expectedHeadSha" h ++ text "expectedIndexTreeSha" t
    | GitCommit root m h t =>
        optional "root" root ++ text "message" m ++ text "expectedHeadSha" h ++ text "expectedIndexTreeSha" t
    | GitMergeBranch root s h t =>
        optional "root" root ++ text "sourceBranch" s ++ text "expectedTargetHeadSha" h ++ text "expectedSourceHeadSha" t
    | GitPushBranch root branch l remote r c =>
        optional "root" root ++ text "branch" branch ++ text "expectedLocalSha" l ++ text "remote" remote
        ++ optional "expectedRemoteSha" r ++ optional "confirmationId" c
    | GithubCreateRepository owner name v d c =>
        text "owner" owner ++ text "name" name ++ text "visibility" v ++ optional "description" d
        ++ optional "confirmationId" c
    | GithubCreatePullRequest root owner repo title head base body draft c =>
        optional "root" root ++ text "owner" owner ++ text "repository" repo ++ text "title" title
        ++ text "head" head ++ text "base" base ++ optional "body" body ++ [("draft"%string, VBool draft)]
        ++ optional "confirmationId" c
    | GithubMergePullRequest root owner repo n h mm c =>
        optional "root" root ++ text "owner" owner ++ text "repository" repo ++ [("pullNumber"%string, VNumber n)]
        ++ text "expectedPullRequestHeadSha" h ++ text "mergeMethod" mm ++ optional "confirmationId" c
    end).

(** The bodies of [gitCreateBranch] to [githubMergePullRequest]: the options that each passes on. *)
Section Methods.
Context (schemas : SourceControlOperationName -> value -> result exn value).
Context (workspace : SourceControlWorkspace) (context : OperationContext).

(** The options that the mutations of the local repository share. *)
Definition local_mutation (request : Request) (operation : SourceControlOperationName)
    (capability : SourceControlCapability) (root : option string) (checksBranch : bool) : Mutation :=
  mkMutation workspace operation None capability None false None
    (localGitRepositoryTarget (sw_id workspace) (default "."%string root)) (input_of (sw_id workspace) request)
    context checksBranch (schemas operation).
Definition gitCreateBranch_mutation root branch expectedHeadSha : Mutation :=
  local_mutation (GitCreateBranch root branch expectedHeadSha) op_git_create_branch git_branch_write root false.
Definition gitStagePaths_mutation root paths : Mutation :=
  local_mutation (GitStagePaths root paths) op_git_stage_paths git_index_write root false.
Definition gitUnstagePaths_mutation root paths expectedHeadSha expectedIndexTreeSha : Mutation :=
  local_mutation (GitUnstagePaths root paths expectedHeadSha expectedIndexTreeSha) op_git_unstage_paths git_index_write root false.
Definition gitCommit_mutation root commitMessage expectedHeadSha expectedIndexTreeSha : Mutation :=
  local_mutation (GitCommit root commitMessage expectedHeadSha expectedIndexTreeSha) op_git_commit git_commit_write root true.
Definition gitMergeBranch_mutation root sourceBranch expectedTargetHeadSha expectedSourceHeadSha : Mutation :=
  local_mutation (GitMergeBranch root sourceBranch expectedTargetHeadSha expectedSourceHeadSha)
    op_git_merge_branch git_merge_write root true.
Definition gitPushBranch_mutation root branch expectedLocalSha remote expectedRemoteSha confirmationId : Mutation :=
  let targetResource := localGitRepositoryTarget (sw_id workspace) (default "."%string root)
                        +:+ ":" +:+ remote +:+ ":refs/heads/" +:+ branch in
  mkMutation workspace op_git_push_branch (sourceControlConfirmationOperation workspace git_push_branch (Some branch))
    git_remote_push None false None targetResource
    (input_of (sw_id workspace) (GitPushBranch root branch expectedLocalSha remote expectedRemoteSha confirmationId))
    context false (schemas op_git_push_branch).
Definition githubCreateRepository_mutation owner name visibility description confirmationId : Mutation :=
  mkMutation workspace op_github_create_repository (Some github_create_repository) github_repository_create None false
    (Some owner) ("github:" +:+ owner +:+ "/" +:+ name)
    (input_of (sw_id workspace) (GithubCreateRepository owner name visibility description confirmationId))
    context false (schemas op_github_create_repository).
Definition githubCreatePullRequest_mutation root owner repo title head base body draft confirmationId : Mutation :=
  let repository := owner +:+ "/" +:+ repo in
  mkMutation workspace op_github_create_pull_request
    (sourceControlConfirmationOperation workspace github_create_pull_request (Some head))
    github_pull_request_create (Some repository) true None
    ("github:" +:+ repository +:+ ":pulls:" +:+ head +:+ "->" +:+ base)
    (input_of (sw_id workspace) (GithubCreatePullRequest root owner repo title head base body draft confirmationId))
    context false (schemas op_github_create_pull_request).
Definition githubMergePullRequest_mutation root owner repo pullNumber expectedPullRequestHeadSha mergeMethod confirmationId : Mutation :=
  let repository := owner +:+ "/" +:+ repo in
  mkMutation workspace op_github_merge_pull_request (Some github_merge_pull_request) github_pull_request_merge
    (Some repository) true None ("github:" +:+ repository +:+ ":pull/" +:+ number_text pullNumber)
    (input_of (sw_id workspace)
       (GithubMergePullRequest root owner repo pullNumber expectedPullRequestHeadSha mergeMethod confirmationId))
    context false (schemas op_github_merge_pull_request).

Definition mutation_of (request : Request) : Mutation :=
  match request with
  | GitCreateBranch root b h => gitCreateBranch_mutation root b h
  | GitStagePaths root ps => gitStagePaths_mutation root ps
  | GitUnstagePaths root ps h t => gitUnstagePaths_mutation root ps h t
  | GitCommit root m h t => gitCommit_mutation root m h t
  | GitMergeBranch root b h t => gitMergeBranch_mutation root b h t
  | GitPushBranch root b l remote r c => gitPushBranch_mutation root b l remote r c
  | GithubCreateRepository owner name v d c => githubCreateRepository_mutation owner name v d c
  | GithubCreatePullRequest root owner repo title head base body draft c =>
      githubCreatePullRequest_mutation root owner repo title head base body draft c
  | GithubMergePullRequest root owner repo n h mm c => githubMergePullRequest_mutation root owner repo n h mm c
  end.
End Methods.

(** [assertGitHubRepositoryCapability]: the repository that the origin names counts only where the policy lists no such repository. *)
Definition assertGitHubRepositoryCapability (workspace : SourceControlWorkspace) (capability : SourceControlCapability)
    (repository : string) (mutation : bool) (canonicalGitHubRepository : option string) : result exn unit :=
  let configuredAdditional :=
    match sw_sourceControl workspace with
    | Some sc => existsb (fun candidate => toLowerCase candidate =s toLowerCase repository) (additionalRepositories sc)
    | None => false
    end in
  let canonicalRepository := if configuredAdditional then None else canonicalGitHubRepository in
  assertSourceControlCapability workspace capability (Some repository) canonicalRepository None mutation.

(** *** executeSourceControlMutation *)
(** Where a call is: the operation it awaits. *)
Inductive call_phase :=
| Checking
| Getting (i : MutationReceiptIdentity)
| ReservingKnown (i : MutationReceiptIdentity)
| ReservingNew (i : MutationReceiptIdentity)
| Marking (i : MutationReceiptIdentity)
| Invoking (i : MutationReceiptIdentity)
| Completing (i : MutationReceiptIdentity) (result : value)
| Reconciling (i : MutationReceiptIdentity) (error : exn).

(** What a call meets when it goes on: the current branch, the answer of the back end, the identifier drawn for a
    confirmation and the clock. *)
Record Env := mkEnv {
  e_branch : result exn string;
  e_backend : result exn value;
  e_confirmationId : string;
  e_now1 : Z;
  e_now2 : Z;
}.
Inductive call_progress := Goes (p : call_phase) | Ends (r : result exn value).

Definition reconciliationRequired {A} : result exn A :=
  throw SOURCE_CONTROL_RECONCILIATION_REQUIRED
    "The source-control mutation requires reconciliation before another backend invocation.".
Definition binding_of (m : Mutation) (op : ConfirmableOperation) (i : MutationReceiptIdentity) : TypedConfirmationBinding :=
  mkTypedBinding (sw_id (m_workspace m)) op (m_targetResource m) (mi_canonicalArgumentsDigest i).
Definition confirmable_name (op : ConfirmableOperation) : string :=
  match op with
  | git_push_branch => "git_push_branch" | github_create_repository => "github_create_repository"
  | github_create_pull_request => "github_create_pull_request" | github_merge_pull_request => "github_merge_pull_request"
  end.
Definition confirmation_required (id : string) (expiresAtMs : Z) (op : ConfirmableOperation) (targetResource : string) : value :=
  VObject true (text "status" "confirmation_required" ++ text "confirmationId" id
    ++ text "expiresAt" (toISOString expiresAtMs) ++ text "operation" (confirmable_name op)
    ++ text "targetResource" targetResource).

Section Calls.
Context (sha256 : string -> string) (ttlMs : Z).
Context {S : Type} `{MS : !MutationReceiptStore S}.

Definition identity_of (m : Mutation) : result exn MutationReceiptIdentity :=
  digest ← canonicalSourceControlArgumentsDigest sha256 (m_input m);
  key ← deriveSourceControlIdempotencyKey (m_input m) (m_context m);
  Ok (mkIdentity (sw_id (m_workspace m)) (m_operation m) (m_targetResource m) digest key).

(** The confirmation that a mutation needs, between the reading of the receipt and the reservation. *)
Definition confirm_mutation (m : Mutation) (i : MutationReceiptIdentity) (env : Env)
    (pending : Pending TypedConfirmationBinding) : Pending TypedConfirmationBinding * call_progress :=
  match m_confirmableOperation m with
  | None => (pending, Goes (ReservingNew i))
  | Some op =>
      let binding := binding_of m op i in
      match readConfirmationId (m_input m) with
      | None =>
          match Typed.create ttlMs (e_confirmationId env) binding (e_now1 env) (e_now2 env) pending with
          | Err e => (pending, Ends (Err e))
          | Ok pending =>
              (pending, Ends (m_resultSchema m
                (confirmation_required (e_confirmationId env) (e_now2 env + ttlMs) op (m_targetResource m))))
          end
      | Some id =>
          match Typed.consume id binding (e_now1 env) (e_now2 env) pending with
          | (pending, Err e) => (pending, Ends (Err e))
          | (pending, Ok _) => (pending, Goes (ReservingNew i))
          end
      end
  end.

(** [const reservation = await store.reserve(identity)], and what follows it. *)
Definition after_reserve (m : Mutation) (r : MutationReceiptReservation) (go : call_progress) : call_progress :=
  match disposition r with
  | replay_completed => Ends (m_resultSchema m (default VUndefined (mr_result (receipt r))))
  | needs_reconciliation => Ends reconciliationRequired
  | Receipts.execute => go
  end.

(** From one [await] to the next. *)
Definition advance_call (m : Mutation) (p : call_phase) (env : Env) (store : S)
    (pending : Pending TypedConfirmationBinding) : S * Pending TypedConfirmationBinding * call_progress :=
  match p with
  | Checking =>
      match (_ ← (if m_checksBranch m
                  then branch ← e_branch env; assertTypedGitBranchMutationAllowed (m_operation m) (Some branch)
                  else Ok tt);
             identity_of m) with
      | Err e => (store, pending, Ends (Err e))
      | Ok i => (store, pending, Goes (Getting i))
      end
  | Getting i =>
      match rs_get (mi_idempotencyKey i) store with
      | (store, Err e) => (store, pending, Ends (Err e))
      | (store, Ok (Some _)) => (store, pending, Goes (ReservingKnown i))
      | (store, Ok None) => let '(pending, p) := confirm_mutation m i env pending in (store, pending, p)
      end
  | ReservingKnown i =>
      match rs_reserve i store with
      | (store, Err e) => (store, pending, Ends (Err e))
      | (store, Ok r) => (store, pending, after_reserve m r (Ends reconciliationRequired))
      end
  | ReservingNew i =>
      match rs_reserve i store with
      | (store, Err e) => (store, pending, Ends (Err e))
      | (store, Ok r) => (store, pending, after_reserve m r (Goes (Marking i)))
      end
  | Marking i =>
      match rs_markExecuting i store with
      | (store, Err e) => (store, pending, Ends (Err e))
      | (store, Ok _) => (store, pending, Goes (Invoking i))
      end
  | Invoking i =>
      match (v ← e_backend env; m_resultSchema m v) with
      | Err e => (store, pending, Goes (Reconciling i e))
      | Ok r => (store, pending, Goes (Completing i r))
      end
  | Completing i r =>
      match rs_markCompleted i r store with
      | (store, Err e) => (store, pending, Goes (Reconciling i e))
      | (store, Ok _) => (store, pending, Ends (Ok r))
      end
  | Reconciling i e => ((rs_markReconciliationRequired i store).1, pending, Ends (Err e))
  end.

(** *** Any number of calls *)
Record World := mkWorld {
  w_stores : gmap string S;
  w_pending : Pending TypedConfirmationBinding;
  w_calls : gmap nat (Mutation * call_phase);
}.
(** A call begins, goes on, or the process crashes: the calls and the confirmations are lost. *)
Inductive Input := Ask (id : nat) (m : Mutation) (origin : option string) | Resume (id : nat) (env : Env) | ProcessCrash.
(** The back end is invoked, or the caller is answered. *)
Inductive Output :=
| Invoked (id : nat) (m : Mutation) (i : MutationReceiptIdentity)
| Replied (id : nat) (m : Mutation) (r : result exn value).

(** [mutationReceiptStoreFor] *)
Definition store_for `{JR' : !JsNumberRead JN} {SL : ReceiptStoreLaws (JR := JR') S} (workspaceId : string) (w : World) : S :=
  default rs_empty (w_stores w !! workspaceId).

(** The first check of a mutation: by its method, with the repository that the origin names, or by
    [executeSourceControlMutation]. *)
Definition authorize_call (m : Mutation) (origin : option string) : result exn unit :=
  if m_canonicalRepositoryAlreadyAuthorized m
  then match m_repository m with
       | Some repo => assertGitHubRepositoryCapability (m_workspace m) (m_capability m) repo true origin
       | None => Ok tt
       end
  else assertSourceControlCapability (m_workspace m) (m_capability m) (m_repository m) None (m_accountOwner m) true.

Definition world_step {SL : ReceiptStoreLaws S} (input : Input) (w : World) : World * list Output :=
  match input with
  | Ask id m origin =>
      match w_calls w !! id with
      | Some _ => (w, [])
      | None =>
          match authorize_call m origin with
          | Err e => (w, [Replied id m (Err e)])
          | Ok _ => (mkWorld (w_stores w) (w_pending w) (<[id := (m, Checking)]> (w_calls w)), [])
          end
      end
  | Resume id env =>
      match w_calls w !! id with
      | None => (w, [])
      | Some (m, p) =>
          let ws := sw_id (m_workspace m) in
          let '(store, pending, o) := advance_call m p env (store_for ws w) (w_pending w) in
          let stores := <[ws := store]> (w_stores w) in
          match o with
          | Goes p' =>
              (mkWorld stores pending (<[id := (m, p')]> (w_calls w)),
               match p' with Invoking i => [Invoked id m i] | _ => [] end)
          | Ends r => (mkWorld stores pending (delete id (w_calls w)), [Replied id m r])
          end
      end
  | ProcessCrash => (mkWorld (w_stores w) ∅ ∅, [])
  end.
Fixpoint world_run {SL : ReceiptStoreLaws S} (inputs : list Input) (w : World) : World * list Output :=
  match inputs with
  | [] => (w, [])
  | input :: inputs =>
      let '(w, out) := world_step input w in let '(w, out') := world_run inputs w in (w, out ++ out')
  end.
Definition world_empty : World := mkWorld ∅ ∅ ∅.
End Calls.
End SourceControl.

(** ** At most once *)
Section Safety.
Context `{JN : JsNumber} {JL : JsNumberLaws JN} {JR : JsNumberRead JN} {JRL : JsNumberReadLaws JN JR}.
Context (sha256 : string -> string) (ttlMs : Z).
Context {S : Type} {MS : MutationReceiptStore (JN := JN) S} {SL : ReceiptStoreLaws (JR := JR) (MS := MS) S}.
Notation advance_call := (advance_call sha256 ttlMs).
Notation world_step := (world_step sha256 ttlMs).
Notation world_run := (world_run sha256 ttlMs).

(** The result schemas let through objects of JSON without a [__proto__] entry. *)
Definition schema_tame (m : Mutation) : Prop := forall v r, m_resultSchema m v = Ok r -> tame r.
Definition input_tame (x : Input) : Prop := match x with Ask _ m _ => schema_tame m | _ => True end.

(** The states that operations leave. *)
Lemma apply_state op (s : S) : (rs_apply op s).1 =
  match op with
  | Reserve i => (rs_reserve i s).1 | MarkExecuting i => (rs_markExecuting i s).1
  | MarkReconciliationRequired i => (rs_markReconciliationRequired i s).1
  | MarkCompleted i v => (rs_markCompleted i v s).1 | Get k => (rs_get k s).1
  end.
Proof.
  destruct op as [i|i|i|i v|k]; unfold rs_apply, mbind, stm_bind;
    [destruct (rs_reserve i s) as [? []]|destruct (rs_markExecuting i s) as [? []]
    |destruct (rs_markReconciliationRequired i s) as [? []]|destruct (rs_markCompleted i v s) as [? []]
    |destruct (rs_get k s) as [? []]]; done.
Qed.
Lemma one_op op (s : S) : op_tame op ->
  let s' := match op with
            | Reserve i => (rs_reserve i s).1 | MarkExecuting i => (rs_markExecuting i s).1
            | MarkReconciliationRequired i => (rs_markReconciliationRequired i s).1
            | MarkCompleted i v => (rs_markCompleted i v s).1 | Get k => (rs_get k s).1
            end in
  s' = s \/ exists op, op_tame op /\ s' = (rs_apply op s).1.
Proof. intros Ht s'. right. exists op. split; [done|]. by rewrite apply_state. Qed.
Lemma apply_marked i (s : S) r : (rs_markExecuting i s).2 = Ok r -> exists a, (rs_apply (MarkExecuting i) s).2 = Ok a.
Proof. unfold rs_apply, mbind, stm_bind. destruct (rs_markExecuting i s) as [? []]; [|done]. eauto. Qed.

(** A step of a call is at most one operation of the store. *)
Definition phase_tame (p : call_phase) : Prop := match p with Completing _ r => tame r | _ => True end.
Lemma advance_acts m p env store pending : schema_tame m -> phase_tame p ->
  let o := advance_call m p env store pending in
  (o.1.1 = store \/ exists op, op_tame op /\ o.1.1 = (rs_apply op store).1)
  /\ match o.2 with
     | Goes (Invoking i) => exists a, o.1.1 = (rs_apply (MarkExecuting i) store).1
         /\ (rs_apply (MarkExecuting i) store).2 = Ok a
     | Goes p' => phase_tame p'
     | Ends _ => True
     end.
Proof.
  intros Hm Hp. destruct p as [|i|i|i|i|i|i r|i e]; cbn zeta; unfold SourceControl.advance_call.
  - destruct (_ ≫= _); cbn; auto.
  - pose proof (one_op (Get (mi_idempotencyKey i)) store I) as E. cbn in E.
    destruct (rs_get (mi_idempotencyKey i) store) as [s' [[x|]|e]]; cbn in *; [done| |done].
    unfold confirm_mutation. destruct (m_confirmableOperation m) as [op|]; [|done].
    destruct (readConfirmationId (m_input m)); [destruct (Typed.consume _ _ _ _ _) as [? []]|destruct (Typed.create _ _ _ _ _ _)];
      done.
  - pose proof (one_op (Reserve i) store I) as E. cbn in E.
    destruct (rs_reserve i store) as [s' [r|e]]; cbn in *; [|done].
    unfold after_reserve. by destruct (disposition r).
  - pose proof (one_op (Reserve i) store I) as E. cbn in E.
    destruct (rs_reserve i store) as [s' [r|e]]; cbn in *; [|done].
    unfold after_reserve. by destruct (disposition r).
  - pose proof (one_op (MarkExecuting i) store I) as E. cbn in E. pose proof (apply_state (MarkExecuting i) store) as Es.
    pose proof (apply_marked i store) as Em. cbn in Es.
    destruct (rs_markExecuting i store) as [s' [r|e]]; cbn in *; [|done]. split; [done|].
    destruct (Em r eq_refl) as [a Ha]. by exists a.
  - destruct (e_backend env) as [v|e]; cbn; [|auto]. destruct (m_resultSchema m v) as [r|e] eqn:Er; cbn; [|auto].
    split; [auto|]. by eapply Hm.
  - pose proof (one_op (MarkCompleted i r) store Hp) as E. cbn in E.
    by destruct (rs_markCompleted i r store) as [s' [x|e]].
  - pose proof (one_op (MarkReconciliationRequired i) store I) as E. by cbn in E.
Qed.

Definition world_ok (w : World) : Prop :=
  (forall ws s, w_stores w !! ws = Some s -> rs_inv s)
  /\ (forall id m p, w_calls w !! id = Some (m, p) -> schema_tame m /\ phase_tame p).
Lemma store_inv ws w : world_ok w -> rs_inv (store_for ws w).
Proof. intros [Hs _]. unfold store_for. destruct (w_stores w !! ws) eqn:E; [by eapply Hs|apply rs_empty_inv]. Qed.

(** The stage of a key in a workspace. *)
Definition key_stage (ws k : string) (w : World) : nat := stage (rs_view (store_for ws w) k).
Definition invokes (ws k : string) (o : Output) : bool :=
  match o with Invoked _ m i => (sw_id (m_workspace m) =s ws) && of_key k (MarkExecuting i) | Replied _ _ _ => false end.
Definition invocations (ws k : string) (out : list Output) : nat := length (List.filter (invokes ws k) out).

Lemma op_stage op (s : S) k : op_tame op -> rs_inv s ->
  rs_inv (rs_apply op s).1 /\ (stage (rs_view s k) <= stage (rs_view (rs_apply op s).1 k))%nat
  /\ (forall i a, op = MarkExecuting i -> (rs_apply op s).2 = Ok a -> of_key k op = true ->
      stage (rs_view s k) = 1%nat /\ (2 <= stage (rs_view (rs_apply op s).1 k))%nat).
Proof using JL JRL.
  intros Ht Hs. destruct (rs_acts op s Hs Ht) as [Hs' Ha]. split; [done|].
  destruct (acts_step op _ _ _ k Ha Ht (fun k _ => rs_slots s k Hs)) as (H1 & _ & H3 & _). split; [done|].
  intros i a -> Ea Hk. apply H3. rewrite Ea. cbn. exact Hk.
Qed.

Lemma step_stage x w ws k : world_ok w -> input_tame x ->
  let o := world_step x w in
  world_ok o.1 /\ (key_stage ws k w <= key_stage ws k o.1)%nat
  /\ (invocations ws k o.2 <= 1)%nat
  /\ (invocations ws k o.2 = 1%nat -> (key_stage ws k w <= 1)%nat /\ (2 <= key_stage ws k o.1)%nat).
Proof using JL JRL.
  intros Hw Hx. destruct x as [id m origin|id env|]; cbn [SourceControl.world_step].
  - destruct (w_calls w !! id) eqn:E; [cbn; split_and!; done || lia|].
    destruct (authorize_call m origin); cbn; (split; [|split; [done|split; [lia|done]]]).
    + destruct Hw as [H1 H2]. split; [done|]. intros id' m' p'. cbn. rewrite lookup_insert_Some.
      intros [[<- [= <- <-]]|[_ Hc]]; [done|by eapply H2].
    + done.
  - destruct (w_calls w !! id) as [[m p]|] eqn:E; [|cbn; split_and!; done || lia].
    destruct (proj2 Hw id m p E) as [Hm Hp]. set (ws' := sw_id (m_workspace m)).
    pose proof (store_inv ws' w Hw) as Hinv.
    destruct (advance_acts m p env (store_for ws' w) (w_pending w) Hm Hp) as [Hs Ho].
    destruct (advance_call m p env (store_for ws' w) (w_pending w)) as [[store pending] o]. cbn [fst snd] in Hs, Ho.
    assert (Hst : rs_inv store /\ forall k, (stage (rs_view (store_for ws' w) k) <= stage (rs_view store k))%nat).
    { destruct Hs as [->|(op & Hop & ->)]; [by split; [|lia]|].
      split; [by apply (op_stage op _ k)|]. intros k0. by apply (op_stage op _ k0). }
    destruct Hst as [Hstore Hmono].
    assert (Hks : forall calls, key_stage ws k (mkWorld (<[ws':=store]> (w_stores w)) pending calls)
        = if decide (ws = ws') then stage (rs_view store k) else key_stage ws k w).
    { intros calls. unfold key_stage, store_for. cbn. destruct (decide (ws = ws')) as [->|Hne].
      - by rewrite lookup_insert_eq.
      - by rewrite lookup_insert_ne. }
    assert (Hle : (key_stage ws k w <= if decide (ws = ws') then stage (rs_view store k) else key_stage ws k w)%nat).
    { destruct (decide (ws = ws')) as [->|]; [apply Hmono|lia]. }
    assert (Hstores : forall ws0 s0, <[ws':=store]> (w_stores w) !! ws0 = Some s0 -> rs_inv s0).
    { intros ws0 s0. rewrite lookup_insert_Some. intros [[_ <-]|[_ H]]; [done|by eapply (proj1 Hw)]. }
    destruct o as [p'|r]; cbn [fst snd]; rewrite Hks.
    + split.
      { split; [done|]. intros id' m' q. cbn. rewrite lookup_insert_Some.
        intros [[<- [= <- <-]]|[_ Hc]]; [|by eapply (proj2 Hw)]. split; [done|]. by destruct p'. }
      split; [done|]. destruct p'; try (cbn; split; [lia|done]). destruct Ho as (a & Hst & Ha).
      unfold invocations. cbn [List.filter invokes]. fold ws'. destruct ((ws' =s ws) && of_key k (MarkExecuting i)) eqn:Ei;
        [|cbn; split; [lia|done]]. split; [done|]. intros _. apply andb_true_iff in Ei as [Ews Ek].
      apply String.eqb_eq in Ews. subst ws. rewrite decide_True by done.
      destruct (op_stage (MarkExecuting i) (store_for ws' w) k I Hinv) as (_ & _ & H3).
      destruct (H3 i a eq_refl Ha Ek) as [H1 H2]. rewrite Hst. unfold key_stage. lia.
    + split; [|split; [done|split; [cbn; lia|done]]]. split; [done|]. intros id' m' q. cbn. rewrite lookup_delete_Some.
      intros [_ Hc]. by eapply (proj2 Hw).
  - cbn. split; [|split; [done|split; [lia|done]]]. destruct Hw as [H1 _]. split; [done|].
    intros id m p Hl. cbn [w_calls] in Hl. by apply lookup_empty_Some in Hl.
Qed.

Lemma run_stage inputs : forall w ws k, world_ok w -> Forall input_tame inputs ->
  world_ok (world_run inputs w).1 /\ (key_stage ws k w <= key_stage ws k (world_run inputs w).1)%nat
  /\ (invocations ws k (world_run inputs w).2 <= if Nat.leb (key_stage ws k w) 1 then 1 else 0)%nat.
Proof using JL JRL.
  induction inputs as [|x inputs IH]; intros w ws k Hw Hin; cbn [SourceControl.world_run]; [cbn; split_and!; done || lia|].
  inversion Hin as [|? ? Hx Hxs]; subst. destruct (step_stage x w ws k Hw Hx) as (Hw1 & H1 & H2 & H3).
  destruct (world_step x w) as [w1 out]. cbn [fst snd] in *. destruct (IH w1 ws k Hw1 Hxs) as (Hw2 & I1 & I2).
  destruct (world_run inputs w1) as [w2 out']. cbn [fst snd] in *. split; [done|]. split; [lia|].
  assert (invocations ws k (out ++ out') = invocations ws k out + invocations ws k out')%nat as ->.
  { unfold invocations. by rewrite List.filter_app, length_app. }
  destruct (Nat.leb_spec (key_stage ws k w) 1), (Nat.leb_spec (key_stage ws k w1) 1);
    destruct (decide (invocations ws k out = 1%nat)) as [E|E]; try (specialize (H3 E)); lia.
Qed.

(** C1.  A source-control mutation reaches its back end at most once for an idempotency key of a workspace: however many
    calls carry the key, however they interleave, whatever fails, and also when the process crashes in between and
    starts again on the stored receipts. *)
Theorem backend_at_most_once (inputs : list Input) (ws k : string) (Hin : Forall input_tame inputs) :
  (invocations ws k (world_run inputs world_empty).2 <= 1)%nat.
Proof using JL JRL.
  assert (world_ok world_empty) as Hw.
  { split; [intros ws0 s0 Hl|intros id0 m0 p0 Hl]; cbn [world_empty w_stores w_calls] in Hl; by apply lookup_empty_Some in Hl. }
  destruct (run_stage inputs world_empty ws k Hw Hin) as (_ & _ & H). destruct (Nat.leb _ 1); lia.
Qed.
End Safety.

(** ** Authorized and confirmed *)
Section Justified.
Context `{JN : JsNumber} {JR : JsNumberRead JN}.
Context (sha256 : string -> string) (ttlMs : Z).
Context {S : Type} {MS : MutationReceiptStore (JN := JN) S} {SL : ReceiptStoreLaws (JR := JR) (MS := MS) S}.
Notation advance_call := (advance_call sha256 ttlMs).
Notation world_step := (world_step sha256 ttlMs).
Notation world_run := (world_run sha256 ttlMs).
Notation identity_of := (identity_of sha256).

(** *** The registry of confirmations *)
Lemma typed_created id b t1 t2 r r' id' b' e : Typed.create ttlMs id b t1 t2 r = Ok r' ->
  pending_live r' id' b' e -> (id' = id /\ b' = b /\ e = t2 + ttlMs) \/ pending_live r id' b' e.
Proof.
  intros Hc Hl. pose proof (live_create (OneShotLaws := typed_laws ttlMs) id b t1 t2 r id' b' e) as H.
  cbn in H. rewrite Hc in H. by apply H.
Qed.
Lemma typed_consumed id b t1 t2 r id' b' e :
  pending_live (Typed.consume id b t1 t2 r).1 id' b' e -> pending_live r id' b' e.
Proof. apply (live_consume (OneShotLaws := typed_laws ttlMs)). Qed.
Lemma typed_consume_live id b t1 t2 r : (Typed.consume id b t1 t2 r).2 = Ok tt -> exists e, pending_live r id b e /\ t2 < e.
Proof.
  intros H. assert (Typed.parseBinding b = Ok b) as Hb.
  { unfold Typed.consume in H. destruct (Typed.parseBinding b) eqn:E; [|done]. f_equal. by apply parse_same. }
  apply (consume_succeeds (OneShotLaws := typed_laws ttlMs) id b t1 t2 r Hb) in H as (e & Hl & _ & He). by exists e.
Qed.

(** *** What a call has passed *)
Definition branch_checked (m : Mutation) (id : nat) (inputs : list Input) : Prop :=
  m_checksBranch m = true ->
  exists env branch, Resume id env ∈ inputs /\ e_branch env = Ok branch
    /\ assertTypedGitBranchMutationAllowed (m_operation m) (Some branch) = Ok tt.
Definition authorized (m : Mutation) (id : nat) (inputs : list Input) : Prop :=
  exists origin, Ask id m origin ∈ inputs /\ authorize_call m origin = Ok tt.
(** An earlier answer offered the confirmation [cid] of [b]. *)
Definition offered (cid : string) (b : TypedConfirmationBinding) (out : list Output) : Prop :=
  exists id m i op expires, m_confirmableOperation m = Some op /\ identity_of m = Ok i /\ b = binding_of m op i
    /\ Replied id m (m_resultSchema m (confirmation_required cid expires op (m_targetResource m))) ∈ out.
Definition confirmed (m : Mutation) (i : MutationReceiptIdentity) (out : list Output) : Prop :=
  forall op, m_confirmableOperation m = Some op ->
  exists cid, readConfirmationId (m_input m) = Some cid /\ offered cid (binding_of m op i) out.

Definition justified (id : nat) (m : Mutation) (i : MutationReceiptIdentity) (inputs : list Input) (out : list Output) : Prop :=
  authorized m id inputs /\ branch_checked m id inputs /\ identity_of m = Ok i /\ confirmed m i out.
Definition phase_justified (id : nat) (m : Mutation) (p : call_phase) (inputs : list Input) (out : list Output) : Prop :=
  match p with
  | Checking => authorized m id inputs
  | Getting i | ReservingKnown i => authorized m id inputs /\ branch_checked m id inputs /\ identity_of m = Ok i
  | ReservingNew i | Marking i | Invoking i | Completing i _ | Reconciling i _ => justified id m i inputs out
  end.
Definition pending_offered (pending : Pending TypedConfirmationBinding) (out : list Output) : Prop :=
  forall cid b e, pending_live pending cid b e -> offered cid b out.

Lemma offered_mono cid b out out' : offered cid b out -> offered cid b (out ++ out').
Proof. intros (id & m & i & op & x & H1 & H2 & H3 & H4). exists id, m, i, op, x. split_and!; try done. apply elem_of_app. by left. Qed.
Lemma justified_mono id m i inputs inputs' out out' :
  justified id m i inputs out -> justified id m i (inputs ++ inputs') (out ++ out').
Proof.
  intros ((o & Ho & Ha) & Hb & Hi & Hc). split_and!; [exists o; split; [apply elem_of_app; by left|done]| |done|].
  - intros Hm. destruct (Hb Hm) as (env & br & H1 & H2). exists env, br. split; [apply elem_of_app; by left|done].
  - intros op Hop. destruct (Hc op Hop) as (cid & H1 & H2). exists cid. split; [done|by apply offered_mono].
Qed.
Lemma phase_justified_mono id m p inputs inputs' out out' :
  phase_justified id m p inputs out -> phase_justified id m p (inputs ++ inputs') (out ++ out').
Proof.
  assert (Ha : forall m, authorized m id inputs -> authorized m id (inputs ++ inputs')).
  { intros m0 (o & Ho & Hx). exists o. split; [apply elem_of_app; by left|done]. }
  assert (Hb : forall m, branch_checked m id inputs -> branch_checked m id (inputs ++ inputs')).
  { intros m0 Hm0 Hx. destruct (Hm0 Hx) as (env & br & H1 & H2). exists env, br. split; [apply elem_of_app; by left|done]. }
  destruct p; cbn; try apply justified_mono; intuition.
Qed.
Lemma pending_offered_mono pending out out' : pending_offered pending out -> pending_offered pending (out ++ out').
Proof. intros H cid b e Hl. apply offered_mono. by eapply H. Qed.

(** One step of a call. *)
Lemma advance_justified id m p env store pending inputs out :
  phase_justified id m p inputs out -> pending_offered pending out -> Resume id env ∈ inputs ->
  let o := advance_call m p env store pending in
  let replied := match o.2 with Ends r => [Replied id m r] | Goes _ => [] end in
  pending_offered o.1.2 (out ++ replied)
  /\ match o.2 with Goes p' => phase_justified id m p' inputs out | Ends _ => True end.
Proof.
  intros Hp Hpend Hin. pose proof (fun l => pending_offered_mono pending out l Hpend) as Hmono.
  destruct p as [|i|i|i|i|i|i r|i e]; cbn zeta; unfold SourceControl.advance_call; cbn in Hp.
  - destruct (_ ≫= _) as [i|e] eqn:E; cbn; [|auto]. split; [auto|].
    apply bind_ok in E as ([] & Hb & Hi). split; [done|]. split; [|done]. intros Hm. rewrite Hm in Hb.
    apply bind_ok in Hb as (br & Hbr & Ha). eauto.
  - destruct (rs_get (mi_idempotencyKey i) store) as [s' [[x|]|e]]; cbn; [auto| |auto].
    destruct Hp as (Ha & Hb & Hi). unfold confirm_mutation. destruct (m_confirmableOperation m) as [op|] eqn:Eop.
    + destruct (readConfirmationId (m_input m)) as [cid|] eqn:Ec.
      * pose proof (typed_consume_live cid (binding_of m op i) (e_now1 env) (e_now2 env) pending) as Hlive.
        pose proof (typed_consumed cid (binding_of m op i) (e_now1 env) (e_now2 env) pending) as Hcons.
        destruct (Typed.consume _ _ _ _ _) as [pending' [[]|e]]; cbn in *.
        -- destruct (Hlive eq_refl) as (e & Hl & _). rewrite app_nil_r. split; [intros cid' b' e' Hl'; eauto|].
           split; [done|]. split; [done|]. split; [done|]. intros op' Hop'. rewrite Eop in Hop'. simplify_eq.
           exists cid. split; [done|]. by eapply Hpend.
        -- split; [|done]. intros cid' b' e' Hl'. apply offered_mono. eauto.
      * destruct (Typed.create _ _ _ _ _ _) as [pending'|e] eqn:Et; cbn; [|auto]. split; [|done].
        intros cid' b' e' Hl. eapply typed_created in Hl as [(-> & -> & ->)|Hl]; [| |exact Et].
        -- exists id, m, i, op, (e_now2 env + ttlMs). split_and!; try done. apply elem_of_app. right. by left.
        -- apply offered_mono. by eapply Hpend.
    + cbn. split; [auto|]. split_and!; try done. intros op Hop. congruence.
  - destruct (rs_reserve i store) as [s' [r|e]]; cbn; [|auto]. unfold after_reserve. destruct (disposition r); cbn; auto.
  - destruct (rs_reserve i store) as [s' [r|e]]; cbn; [|auto]. unfold after_reserve. destruct (disposition r); cbn; auto.
  - destruct (rs_markExecuting i store) as [s' [r|e]]; cbn; auto.
  - destruct (_ ≫= _) as [r|e]; cbn; auto.
  - destruct (rs_markCompleted i r store) as [s' [x|e]]; cbn; auto.
  - cbn. auto.
Qed.

(** *** The whole history *)
Definition history_ok (inputs : list Input) (out : list Output) (w : World (S := S)) : Prop :=
  (forall id m p, w_calls w !! id = Some (m, p) -> phase_justified id m p inputs out)
  /\ pending_offered (w_pending w) out
  /\ (forall pre id m i post, out = pre ++ Invoked id m i :: post -> justified id m i inputs pre).

Lemma invoked_last out id m i pre id' m' i' post :
  out ++ [Invoked id m i] = pre ++ Invoked id' m' i' :: post ->
  (exists post', out = pre ++ Invoked id' m' i' :: post') \/ (pre = out /\ id' = id /\ m' = m /\ i' = i).
Proof.
  destruct post as [|x post _] using rev_ind; intros H.
  - apply app_inj_tail in H as [-> [= -> -> ->]]. auto.
  - left. rewrite app_comm_cons, app_assoc in H. apply app_inj_tail in H as [-> _]. eauto.
Qed.
Lemma replied_last out id m r pre id' m' i' post :
  out ++ [Replied id m r] = pre ++ Invoked id' m' i' :: post -> exists post', out = pre ++ Invoked id' m' i' :: post'.
Proof.
  destruct post as [|x post _] using rev_ind; intros H.
  - by apply app_inj_tail in H as [_ ?].
  - rewrite app_comm_cons, app_assoc in H. apply app_inj_tail in H as [-> _]. eauto.
Qed.

Lemma history_step x w inputs out : history_ok inputs out w ->
  history_ok (inputs ++ [x]) (out ++ (world_step x w).2) (world_step x w).1.
Proof.
  intros (Hc & Hp & Hi). assert (Hi' : forall pre id m i post, out = pre ++ Invoked id m i :: post ->
    justified id m i (inputs ++ [x]) pre).
  { intros pre id m i post E. rewrite <- (app_nil_r pre). apply justified_mono. by eapply Hi. }
  assert (Hquiet : forall w', (forall id m p, w_calls w' !! id = Some (m, p) -> phase_justified id m p (inputs ++ [x]) (out ++ [])) ->
    pending_offered (w_pending w') out -> history_ok (inputs ++ [x]) (out ++ []) w').
  { intros w' H1 H2. rewrite app_nil_r in *. done. }
  assert (Hreply : forall w' id m r, (forall id m p, w_calls w' !! id = Some (m, p) -> w_calls w !! id = Some (m, p)) ->
    pending_offered (w_pending w') (out ++ [Replied id m r]) -> history_ok (inputs ++ [x]) (out ++ [Replied id m r]) w').
  { intros w' id m r H1 H2. split; [|split; [done|]].
    - intros id' m' p' H. apply phase_justified_mono. by apply Hc, H1.
    - intros pre id' m' i post E. apply replied_last in E as [post' E]. by eapply Hi'. }
  assert (Hmono : forall id m p, w_calls w !! id = Some (m, p) -> phase_justified id m p (inputs ++ [x]) (out ++ []))
    by (intros id m p H; apply phase_justified_mono; by apply Hc).
  destruct x as [id m origin|id env|]; cbn [SourceControl.world_step].
  - destruct (w_calls w !! id) eqn:E; [by apply Hquiet|]. destruct (authorize_call m origin) as [[]|e] eqn:Ea; cbn [fst snd].
    + apply Hquiet; [|done]. intros id' m' p'. cbn. rewrite lookup_insert_Some.
      intros [[<- [= <- <-]]|[_ H]]; [|by apply Hmono]. exists origin. split; [apply elem_of_app; right; by left|]. done.
    + apply Hreply; [done|]. cbn. by apply pending_offered_mono.
  - destruct (w_calls w !! id) as [[m p]|] eqn:E; [|by apply Hquiet].
    pose proof (advance_justified id m p env (store_for (sw_id (m_workspace m)) w) (w_pending w) (inputs ++ [Resume id env]) out) as Hadv.
    assert (Hp' : phase_justified id m p (inputs ++ [Resume id env]) out) by (rewrite <- (app_nil_r out); by apply Hmono).
    specialize (Hadv Hp' Hp ltac:(apply elem_of_app; right; by left)).
    destruct (advance_call m p env (store_for (sw_id (m_workspace m)) w) (w_pending w)) as [[store pending] [p'|r]];
      cbn [fst snd] in *; destruct Hadv as [Hpend Hph].
    + rewrite app_nil_r in Hpend. assert (Hcalls : forall out', (forall id' m' q, <[id:=(m, p')]> (w_calls w) !! id' = Some (m', q) ->
        phase_justified id' m' q (inputs ++ [Resume id env]) (out ++ out'))).
      { intros out' id' m' q. rewrite lookup_insert_Some. intros [[<- [= <- <-]]|[_ H]].
        - rewrite <- (app_nil_r (inputs ++ _)). by apply phase_justified_mono.
        - apply phase_justified_mono. by apply Hc. }
      destruct p' as [|i|i|i|i|i|i r|i e]; try (apply Hquiet; [by apply Hcalls|done]).
      split; [by apply Hcalls|]. split; [by apply pending_offered_mono|].
      intros pre id' m' i' post Eo. apply invoked_last in Eo as [[post' Eo]|(-> & -> & -> & ->)]; [by eapply Hi'|done].
    + apply Hreply; [|done]. cbn. intros id' m' q. rewrite lookup_delete_Some. by intros [_ H].
  - apply Hquiet; cbn; [intros ? ? ? H; by apply lookup_empty_Some in H|].
    intros cid b e H. by apply lookup_empty_Some in H.
Qed.

Lemma history_run inputs' : forall inputs out w, history_ok inputs out w ->
  history_ok (inputs ++ inputs') (out ++ (world_run inputs' w).2) (world_run inputs' w).1.
Proof.
  induction inputs' as [|x inputs' IH]; intros inputs out w H; cbn [SourceControl.world_run]; [by rewrite !app_nil_r|].
  pose proof (history_step x w inputs out H) as H1. destruct (world_step x w) as [w1 out1]. cbn [fst snd] in H1.
  specialize (IH _ _ _ H1). destruct (world_run inputs' w1) as [w2 out2]. cbn [fst snd] in *.
  by rewrite <- !app_assoc in IH.
Qed.

(** C6.  The back end is reached only by a mutation that was authorized for its workspace, repository and account, on a
    branch that the operation may change, under the identity of exactly these arguments; and if
    the mutation is to be confirmed, its caller sent back a confirmation that an earlier answer offered for the same
    operation, target and arguments in the same workspace. *)
Theorem backend_justified (inputs : list Input) id m i pre post
    (Hout : (world_run inputs world_empty).2 = pre ++ Invoked id m i :: post) :
  (exists origin, Ask id m origin ∈ inputs /\ authorize_call m origin = Ok tt)
  /\ (m_checksBranch m = true -> exists env branch, Resume id env ∈ inputs /\ e_branch env = Ok branch
       /\ assertTypedGitBranchMutationAllowed (m_operation m) (Some branch) = Ok tt)
  /\ identity_of m = Ok i
  /\ (forall op, m_confirmableOperation m = Some op ->
       exists cid, readConfirmationId (m_input m) = Some cid /\ offered cid (binding_of m op i) pre).
Proof.
  assert (H0 : history_ok [] [] world_empty).
  { split; [|split].
    - intros id0 m0 p0 Hl. cbn [world_empty w_calls] in Hl. by apply lookup_empty_Some in Hl.
    - intros cid b e Hl. cbn [world_empty w_pending] in Hl. by apply lookup_empty_Some in Hl.
    - intros pre0 id0 m0 i0 post0 E. by destruct pre0. }
  destruct (history_run inputs [] [] _ H0) as (_ & _ & H). cbn [app] in H. exact (H pre id m i post Hout).
Qed.
End Justified.

(** ** What is authorized and what is confirmed *)
Lemma guard_ok (g : bool) m (k : result exn unit) : (if g then denySourceControl m else k) = Ok tt <-> g = false /\ k = Ok tt.
Proof. destruct g; unfold denySourceControl, throw; naive_solver. Qed.
Lemma bind_unit_ok (r k : result exn unit) : (r ≫= fun _ => k) = Ok tt <-> r = Ok tt /\ k = Ok tt.
Proof. rewrite bind_ok. split; [intros ([] & ? & ?); done|intros [? ?]; by exists tt]. Qed.
Lemma target_listed l x : includes (map normalizeTarget l) (normalizeTarget x) = true
  <-> exists y, y ∈ l /\ toLowerCase x = toLowerCase y.
Proof. rewrite includes_spec, list_elem_of_fmap. unfold normalizeTarget. naive_solver. Qed.
Lemma capability_error w capability repo canonical owner mutation :
  let r := assertSourceControlCapability w capability repo canonical owner mutation in
  r = Ok tt \/ err_code r = Some SOURCE_CONTROL_CAPABILITY_DENIED.
Proof.
  cbn zeta. unfold assertSourceControlCapability, denySourceControl.
  repeat match goal with |- context [if ?b then _ else _] => destruct b | |- context [match ?x with _ => _ end] => destruct x end;
    cbn; auto.
Qed.

(** The capability check lets a request through exactly when the workspace lists the capability, a mutation has the writing
    profile, the target is named where one is needed, the repository is listed or is the one the
    origin names, and the account is listed; otherwise it is denied with the capability error. *)
Theorem capability_exact w capability repo canonical owner mutation :
  let r := assertSourceControlCapability w capability repo canonical owner mutation in
  (r = Ok tt <->
   exists policy, sw_sourceControl w = Some policy /\ capability ∈ capabilities policy
   /\ (mutation = true -> sw_permissionProfile w = full_repo_write)
   /\ (capability = github_repository_create -> owner <> None)
   /\ (is_github capability = true -> capability <> github_repository_create -> repo <> None)
   /\ (forall target, repo = Some target ->
        (exists origin, canonical = Some origin /\ toLowerCase target = toLowerCase origin)
        \/ exists listed, listed ∈ additionalRepositories policy /\ toLowerCase target = toLowerCase listed)
   /\ (forall account, owner = Some account ->
        exists listed, listed ∈ accountOwners policy /\ toLowerCase account = toLowerCase listed))
  /\ (r = Ok tt \/ err_code r = Some SOURCE_CONTROL_CAPABILITY_DENIED).
Proof.
  cbn zeta. split; [|apply capability_error]. unfold assertSourceControlCapability.
  destruct (sw_sourceControl w) as [policy|]; [|split; [done|by intros (? & ? & _)]].
  rewrite !guard_ok, bind_unit_ok, negb_false_iff, includes_spec, !andb_false_iff, !negb_false_iff, !bool_decide_eq_false,
    !bool_decide_eq_true.
  assert (Hrepo : forall r : result exn unit, r = match repo with
      | None => Ok tt
      | Some x => if negb (bool_decide (Some (normalizeTarget x) = normalizeTarget <$> canonical))
                     && negb (includes (map normalizeTarget (additionalRepositories policy)) (normalizeTarget x))
                  then denySourceControl "Source-control repository target is not authorized." else Ok tt end ->
      (r = Ok tt <-> forall target, repo = Some target ->
        (exists origin, canonical = Some origin /\ toLowerCase target = toLowerCase origin)
        \/ exists listed, listed ∈ additionalRepositories policy /\ toLowerCase target = toLowerCase listed)).
  { intros r ->. destruct repo as [x|]; [|naive_solver].
    rewrite guard_ok, andb_false_iff, !negb_false_iff, bool_decide_eq_true, target_listed.
    unfold normalizeTarget. split.
    - intros [[H|H] _] t [= <-]; [left|by right]. destruct canonical as [c|]; [|done]. injection H as H. by exists c.
    - intros H. split; [|done]. destruct (H x eq_refl) as [(o & -> & E)|Hl]; [left; cbn; by rewrite E|by right]. }
  rewrite (Hrepo _ eq_refl). clear Hrepo.
  assert (Howner : (match owner with
      | None => Ok tt
      | Some x => if negb (includes (map normalizeTarget (accountOwners policy)) (normalizeTarget x))
                  then denySourceControl "GitHub account owner is not authorized for repository creation." else Ok tt end : result exn unit)
      = Ok tt <-> forall account, owner = Some account ->
        exists listed, listed ∈ accountOwners policy /\ toLowerCase account = toLowerCase listed).
  { destruct owner as [x|]; [|naive_solver]. rewrite guard_ok, negb_false_iff, target_listed. naive_solver. }
  rewrite Howner. clear Howner. split.
  - intros (H1 & H2 & H3 & H4 & H5 & H6). exists policy. split_and!; try done; intros; intuition congruence.
  - intros (p & [= <-] & H1 & H2 & H3 & H4 & H5 & H6). split; [done|]. split; [destruct mutation; auto|].
    split; [destruct (decide (capability = github_repository_create)); auto|].
    split; [|done]. destruct (is_github capability); [|auto].
    destruct (decide (capability = github_repository_create)); auto.
Qed.

(** The operation that leaves the machine by a request, if any, and the branch it takes there. *)
Section Requests.
Context `{JN : JsNumber}.
Definition remote_operation (r : Request) : option (ConfirmableOperation * option string) :=
  match r with
  | GitPushBranch _ branch _ _ _ _ => Some (git_push_branch, Some branch)
  | GithubCreateRepository _ _ _ _ _ => Some (github_create_repository, None)
  | GithubCreatePullRequest _ _ _ _ head _ _ _ _ => Some (github_create_pull_request, Some head)
  | GithubMergePullRequest _ _ _ _ _ _ _ => Some (github_merge_pull_request, None)
  | _ => None
  end.

(** Which mutations are confirmed: those that leave the machine, except that a trusted workspace that may write pushes
    a branch and opens a pull request from it without asking when the branch is named and is not main. *)
Theorem confirmation_required_exactly schemas w cx r :
  m_confirmableOperation (mutation_of schemas w cx r) =
  match remote_operation r with
  | None => None
  | Some (op, branch) =>
      if bool_decide (sw_confirmationMode w = trusted_workspace /\ sw_permissionProfile w = full_repo_write)
         && match branch with Some b => negb (sempty b) && negb (toLowerCase b =s "main") | None => false end
      then None else Some op
  end.
Proof.
  assert (H : forall op b, op = git_push_branch \/ op = github_create_pull_request ->
    sourceControlConfirmationOperation w op (Some b) =
    if bool_decide (sw_confirmationMode w = trusted_workspace /\ sw_permissionProfile w = full_repo_write)
       && (negb (sempty b) && negb (toLowerCase b =s "main")) then None else Some op).
  { intros op b Hop. unfold sourceControlConfirmationOperation. cbn [default from_option id isProtectedMain].
    destruct (decide (sw_confirmationMode w = trusted_workspace)) as [E1|E1], (decide (sw_permissionProfile w = full_repo_write)) as [E2|E2];
      repeat first [rewrite (bool_decide_true (sw_confirmationMode w = trusted_workspace)) by done
                   |rewrite (bool_decide_false (sw_confirmationMode w = trusted_workspace)) by done
                   |rewrite (bool_decide_true (sw_permissionProfile w = full_repo_write)) by done
                   |rewrite (bool_decide_false (sw_permissionProfile w = full_repo_write)) by done
                   |rewrite (bool_decide_true (_ /\ _)) by done
                   |rewrite (bool_decide_false (_ /\ _)) by naive_solver];
      destruct Hop as [-> | ->], (sempty b), (toLowerCase b =s "main"); done. }
  destruct r; cbn; try done; rewrite ?H by auto; rewrite ?andb_false_r; done.
Qed.
End Requests.

(** ** Calls end, and completed mutations are replayed *)
Section Liveness.
Context `{JN : JsNumber} {JL : JsNumberLaws JN} {JR : JsNumberRead JN} {JRL : JsNumberReadLaws JN JR}.
Context (sha256 : string -> string) (ttlMs : Z).
Context {S : Type} {MS : MutationReceiptStore (JN := JN) S} {SL : ReceiptStoreLaws (JR := JR) (MS := MS) S}.
Notation advance_call := (advance_call sha256 ttlMs).
Notation world_step := (world_step sha256 ttlMs).
Notation world_run := (world_run sha256 ttlMs).

(** C12.  A repeated request is answered with the stored result: when the receipt of its key says that the same mutation was
    completed, the call neither asks for a confirmation nor reaches the back end. *)
Theorem repeated_mutation_replayed (w : World (S := S)) id m origin i v env1 env2 env3
    (Hinv : rs_inv (store_for (sw_id (m_workspace m)) w)) (Hnew : w_calls w !! id = None)
    (Hauth : authorize_call m origin = Ok tt)
    (Hbranch : m_checksBranch m = true -> exists branch, e_branch env1 = Ok branch
       /\ assertTypedGitBranchMutationAllowed (m_operation m) (Some branch) = Ok tt)
    (Hid : identity_of sha256 m = Ok i) (Hparse : parseIdentity i = Ok i)
    (Hdone : rs_view (store_for (sw_id (m_workspace m)) w) (mi_idempotencyKey i) = Some (mkReceipt i completed (Some v))) :
  (world_run [Ask id m origin; Resume id env1; Resume id env2; Resume id env3] w).2 = [Replied id m (m_resultSchema m v)].
Proof using JL JRL.
  set (ws := sw_id (m_workspace m)) in *. set (s0 := store_for ws w) in *.
  assert (Hget : exists s1, rs_get (mi_idempotencyKey i) s0 = (s1, Ok (Some (mkReceipt i completed (Some v))))
      /\ rs_inv s1 /\ rs_view s1 (mi_idempotencyKey i) = Some (mkReceipt i completed (Some v))).
  { destruct (rs_acts (Get (mi_idempotencyKey i)) s0 Hinv I) as [H1 H2]. revert H1 H2. unfold rs_apply, acts, mbind, stm_bind. cbn.
    rewrite Hdone. destruct (rs_get (mi_idempotencyKey i) s0) as [s1 [x|e]]; cbn; intros H1 [Hx Hv]; [|done].
    injection Hx as ->. exists s1. split_and!; [done..|]. rewrite Hv. unfold view_set. exact Hdone. }
  destruct Hget as (s1 & Hget & Hs1 & Hv1).
  assert (Hres : exists s2, rs_reserve i s1 = (s2, Ok (mkReservation replay_completed (mkReceipt i completed (Some v))))).
  { destruct (rs_acts (Reserve i) s1 Hs1 I) as [_ H2]. pose proof (rs_slots s1 (mi_idempotencyKey i) Hs1) as Hslot.
    rewrite Hv1 in Hslot. destruct Hslot as [Hok _]. revert H2.
    unfold rs_apply, acts, mbind, stm_bind. cbn [op_key]. rewrite Hparse. cbn [fmap result_fmap]. rewrite Hv1. cbn [transition].
    rewrite (reserve_existing _ i i Hok Hparse). cbn [mr_identity mr_state]. rewrite (proj2 (same_identity i i) eq_refl).
    rewrite bool_decide_true by done. cbn [mbind result_bind disposition].
    destruct (rs_reserve i s1) as [s2 [x|e]]; cbn; intros [Hx _]; [|done]. injection Hx as ->. by exists s2. }
  destruct Hres as (s2 & Hres).
  cbn [SourceControl.world_run SourceControl.world_step]. rewrite Hnew, Hauth.
  cbn [w_calls w_stores w_pending SourceControl.advance_call]. rewrite lookup_insert_eq.
  assert (Hcheck : (_ ← (if m_checksBranch m then branch ← e_branch env1; assertTypedGitBranchMutationAllowed (m_operation m) (Some branch)
                   else Ok tt); identity_of sha256 m) = Ok i).
  { destruct (m_checksBranch m); [|done]. destruct Hbranch as (b & Hb & Ha); [done|]. rewrite Hb. cbn. by rewrite Ha. }
  cbn [SourceControl.advance_call]. rewrite Hcheck. cbn [w_calls w_stores w_pending]. rewrite lookup_insert_eq.
  fold ws. cbn [SourceControl.advance_call].
  assert (Hfor : forall s st pd cs, store_for ws (mkWorld (<[ws := s]> st) pd cs) = s)
    by (intros; unfold store_for; cbn [w_stores]; by rewrite lookup_insert_eq).
  change (store_for ws (mkWorld (w_stores w) (w_pending w) _)) with s0.
  rewrite Hfor, Hget. cbn [w_calls w_stores w_pending]. rewrite lookup_insert_eq.
  fold ws. cbn [SourceControl.advance_call]. rewrite Hfor, Hres. done.
Qed.
End Liveness.

(** ** A push that is asked for, confirmed, retried and replayed *)
Module PushTrial.
#[local] Existing Instance whole_numbers.
Definition trial_sha (s : string) : string := Receipts.Trial.digest.
(** A result schema: the status, and the confirmation identifier if there is one. *)
Definition status_schema (v : value) : result exn value :=
  match v with
  | VObject true es =>
      match field "status" es with
      | Some (VString s) =>
          Ok (VObject true (text "status" s ++ match field "confirmationId" es with
                                               | Some (VString c) => text "confirmationId" c | _ => [] end))
      | _ => zod_error
      end
  | _ => zod_error
  end.
Definition policy : SourceControlPolicy := mkSourceControlPolicy [git_remote_push; git_commit_write] [] [].
Definition home : SourceControlWorkspace := mkSourceControlWorkspace "w1" full_repo_write standard (Some policy).
Definition cx : OperationContext := mkContext None None (Some "key-1"%string) None None None.
Definition push (confirmation : option string) : Mutation :=
  mutation_of (fun _ => status_schema) home cx (GitPushBranch None "main" "a" "origin" None confirmation).
Definition env : Env := mkEnv (Ok "topic"%string) (Ok (VObject true (text "status" "completed"))) "c1" 5 5.
Definition pushed : list Input :=
  [Ask 1 (push None) None; Resume 1 env; Resume 1 env;
   Ask 2 (push (Some "c1"%string)) None; Ask 3 (push (Some "c1"%string)) None;
   Resume 2 env; Resume 3 env; Resume 2 env; Resume 3 env; Resume 2 env; Resume 2 env; Resume 2 env; Resume 2 env].
Notation trial_run := (world_run (S := InMemory.Store) trial_sha 600000).

Lemma pushed_outputs : (trial_run pushed world_empty).2 =
  [Replied 1 (push None) (Ok (VObject true (text "status" "confirmation_required" ++ text "confirmationId" "c1")));
   Replied 3 (push (Some "c1"%string)) (throw SOURCE_CONTROL_CONFIRMATION_INVALID "Source-control confirmation is missing or expired.");
   Invoked 2 (push (Some "c1"%string)) (mkIdentity "w1" op_git_push_branch "git:w1:.:origin:refs/heads/main" Receipts.Trial.digest "key-1");
   Replied 2 (push (Some "c1"%string)) (Ok (VObject true (text "status" "completed")))].
Proof. vm_compute. reflexivity. Qed.

Lemma status_tame v r : status_schema v = Ok r -> tame r.
Proof.
  unfold status_schema. destruct v as [| | | | | |[] es|]; try done. destruct (field "status" es) as [[| | | |s| | |]|]; try done.
  intros [= <-]. destruct (field "confirmationId" es) as [[| | | |c| | |]|]; cbn; split; repeat constructor; done.
Qed.
Lemma pushed_tame : Forall input_tame pushed.
Proof. repeat (apply Forall_cons; split); try exact I; try (apply Forall_nil; exact I); intros v r; apply status_tame. Qed.
Lemma backend_at_most_once_witness : (invocations "w1" "key-1" (trial_run pushed world_empty).2 <= 1)%nat.
Proof. exact (backend_at_most_once trial_sha 600000 (S := InMemory.Store) pushed "w1" "key-1" pushed_tame). Defined.

Definition invoked_identity : MutationReceiptIdentity :=
  mkIdentity "w1" op_git_push_branch "git:w1:.:origin:refs/heads/main" Receipts.Trial.digest "key-1".
Lemma backend_justified_witness :
  authorize_call (push (Some "c1"%string)) None = Ok tt /\
  exists cid, readConfirmationId (m_input (push (Some "c1"%string))) = Some cid
    /\ offered trial_sha cid (binding_of (push (Some "c1"%string)) git_push_branch invoked_identity)
         (firstn 2 (trial_run pushed world_empty).2).
Proof.
  destruct (backend_justified trial_sha 600000 (S := InMemory.Store) pushed 2 (push (Some "c1"%string)) invoked_identity
    (firstn 2 (trial_run pushed world_empty).2) (skipn 3 (trial_run pushed world_empty).2)) as (_ & _ & _ & H).
  - vm_compute. reflexivity.
  - split; [vm_compute; reflexivity|]. apply (H git_push_branch). vm_compute. reflexivity.
Defined.

Lemma repeated_mutation_replayed_witness :
  (trial_run [Ask 9 (push None) None; Resume 9 env; Resume 9 env; Resume 9 env] (trial_run pushed world_empty).1).2
  = [Replied 9 (push None) (status_schema (VObject true (text "status" "completed")))].
Proof.
  apply (repeated_mutation_replayed trial_sha 600000 (S := InMemory.Store) (trial_run pushed world_empty).1 9 (push None) None
    invoked_identity (VObject true (text "status" "completed"))).
  - assert (E : store_for (S := InMemory.Store) "w1" (trial_run pushed world_empty).1
      = [("key-1"%string, mkReceipt invoked_identity completed (Some (VObject true (text "status" "completed"))))])
      by (vm_compute; reflexivity).
    change (sw_id (m_workspace (push None))) with "w1"%string. rewrite E. intros k. cbn [jm_get].
    destruct (k =s "key-1") eqn:Ek; [|exact I]. apply String.eqb_eq in Ek as ->. split; [|reflexivity].
    split; [vm_compute; reflexivity|]. exists (VObject true (text "status" "completed")). split; [reflexivity|].
    apply public_object. split; [reflexivity|]. split; [repeat constructor|]. repeat constructor; vm_compute; done.
  - vm_compute. reflexivity.
  - vm_compute. reflexivity.
  - intros H. vm_compute in H. discriminate H.
  - vm_compute. reflexivity.
  - vm_compute. reflexivity.
  - vm_compute. reflexivity.
Defined.
End PushTrial.
