(* ===== verification/AgentRelay.v ===== *)
(** The gateway's end of the relay: services/mcp-gateway/src/relay/service.ts.

    One agent connects over a WebSocket, says hello, answers requests and is kept
    alive by pings; [call] sends a request when the agent is ready, and for an operation that only
    reads waits for a reconnection and tries once more.  A socket is named by its generation: the
    number of the connection it came with.  What happens later (a message, a close, a timer, an
    abort, the resumption of a call) is an operation of its own, so that every order of
    events is a sequence of operations.  The [ws] library, URL parsing, SHA-256, the schemas and JSON are
    parameters; logging is left out. *)
From S2P Require Import Prelude Errors JsString JsMap Timeouts RelayRequests.
Open Scope Z_scope.

Definition DEFAULT_RECONNECT_GRACE_MS : Z := 3000.

Record AgentRelayOptions := mkRelayOptions {
  agentId : string;
  tokenSha256 : string;
  manager_options : Options;
  allowedOrigins : option (list string);
  reconnectGrace : option Z;
}.

(** [relayOperations]: the keys of [relayResultSchemas]. *)
Definition relayOperations : list RelayOperation :=
  [listWorkspaces; listWorkspaceRoots; listFiles; readFile; readBinaryFile; writeFile; patchFile;
   runValidation; runCommand; searchFiles; inspectGit; getWorkspaceContext; startBackgroundTask;
   getBackgroundTask; waitBackgroundTask; listBackgroundTasks; cancelBackgroundTask; readBackgroundTaskLogs;
   writeBackgroundTaskStdin; readBackgroundTaskOutput; gitCreateBranch; gitStagePaths; gitUnstagePaths;
   gitCommit; gitMergeBranch; gitPushBranch; githubGetRepository; githubCreateRepository;
   githubGetPullRequest; githubCreatePullRequest; githubMergePullRequest].

Inductive ReadyState := OPEN | CLOSING | CLOSED.
#[export] Instance ReadyState_eq_dec : EqDecision ReadyState.
Proof. solve_decision. Defined.

(** [ReadyWaiter], named by the call it resumes; its timer fires [w_expires] at the earliest. *)
Record ReadyWaiter := mkWaiter {
  w_call : nat;
  minimumGeneration : nat;
  w_expires : Z;
  w_signal : option nat;
}.

(** *** The upgrade request *)
Inductive Header := absent | single (value : string) | several (values : list string).
Definition singleHeader (h : Header) : option string := match h with single v => Some v | _ => None end.

(** [up_url] is the parsed address: path, query and fragment; [None] when [new URL] throws. *)
Record Upgrade := mkUpgrade {
  up_url : option (string * string * string);
  up_origin : Header;
  up_agent_id : Header;
  up_authorization : Header;
}.

Section AgentRelay.
Context {J : Type}.
Context (relayRequestSchema : RelayRequest (J := J) -> option (RelayRequest (J := J)))
        (byteLength : RelayRequest (J := J) -> Z)
        (relayResultSchema : RelayOperation -> J -> option J)
        (agentHelloSchema : J -> option (string * list string))
        (relayResponseSchema : J -> option (RelayResponse (J := J)))
        (sha256 fromHex : string -> string).
Context (options : AgentRelayOptions).

(** [readyStates] holds the state of each socket, [intervals] the timers that tick with the socket of
    each, [resumed] the waits that ended, [pinged] the sockets pinged. *)
Record AgentRelay := mkRelay {
  requestManager : Manager (J := J);
  readyWaiters : list ReadyWaiter;
  socket : option nat;
  ready : bool;
  heartbeat : option nat;
  alive : bool;
  connectionGeneration : nat;
  closed : bool;
  readyStates : list ReadyState;
  intervals : list (nat * nat);
  next_interval : nat;
  resumed : list (nat * bool);
}.

Definition initial : AgentRelay :=
  mkRelay (mkManager [] [] [] []) [] None false None false 0 false [] [] 0 [].

Definition with_manager (m : Manager) (r : AgentRelay) : AgentRelay :=
  mkRelay m (readyWaiters r) (socket r) (ready r) (heartbeat r) (alive r) (connectionGeneration r) (closed r)
    (readyStates r) (intervals r) (next_interval r) (resumed r).
Definition with_waiters (ws : list ReadyWaiter) (done : list (nat * bool)) (r : AgentRelay) : AgentRelay :=
  mkRelay (requestManager r) ws (socket r) (ready r) (heartbeat r) (alive r) (connectionGeneration r) (closed r)
    (readyStates r) (intervals r) (next_interval r) done.
Definition with_socket (s : option nat) (rdy : bool) (r : AgentRelay) : AgentRelay :=
  mkRelay (requestManager r) (readyWaiters r) s rdy (heartbeat r) (alive r) (connectionGeneration r) (closed r)
    (readyStates r) (intervals r) (next_interval r) (resumed r).
Definition with_heartbeat (h : option nat) (live : list (nat * nat)) (r : AgentRelay) : AgentRelay :=
  mkRelay (requestManager r) (readyWaiters r) (socket r) (ready r) h (alive r) (connectionGeneration r) (closed r)
    (readyStates r) live (next_interval r) (resumed r).
Definition with_alive (a : bool) (r : AgentRelay) : AgentRelay :=
  mkRelay (requestManager r) (readyWaiters r) (socket r) (ready r) (heartbeat r) a (connectionGeneration r) (closed r)
    (readyStates r) (intervals r) (next_interval r) (resumed r).
Definition with_states (st : list ReadyState) (r : AgentRelay) : AgentRelay :=
  mkRelay (requestManager r) (readyWaiters r) (socket r) (ready r) (heartbeat r) (alive r) (connectionGeneration r)
    (closed r) st (intervals r) (next_interval r) (resumed r).

(** Sockets are numbered from 1. *)
Definition readyState (s : nat) (r : AgentRelay) : ReadyState := default CLOSED (readyStates r !! (s - 1)%nat).
Definition set_readyState (s : nat) (st : ReadyState) (r : AgentRelay) : AgentRelay :=
  with_states (<[(s - 1)%nat := st]> (readyStates r)) r.
(** [socket.close()] and [socket.terminate()]: an open socket starts to close. *)
Definition close_socket (s : nat) (r : AgentRelay) : AgentRelay :=
  if bool_decide (readyState s r = OPEN) then set_readyState s CLOSING r else r.

Definition isOpen (r : AgentRelay) : bool :=
  match socket r with Some s => bool_decide (readyState s r = OPEN) | None => false end.
Definition isConnected (r : AgentRelay) : bool := ready r && isOpen r.

(** *** Upgrades *)
Definition isOriginAllowed (request : Upgrade) : bool :=
  match up_origin request with
  | absent => true
  | h => match singleHeader h with
         | Some origin => match allowedOrigins options with Some os => includes os origin | None => false end
         | None => false
         end
  end.
Definition authenticate (request : Upgrade) : bool :=
  match singleHeader (up_agent_id request), singleHeader (up_authorization request) with
  | Some id, Some authorization =>
      if negb (id =s agentId options) || negb (startsWith authorization "Bearer ") then false
      else
        let token := sdrop (String.length "Bearer ") authorization in
        let actualHash := sha256 token in
        let expectedHash := fromHex (tokenSha256 options) in
        (String.length actualHash =? String.length expectedHash)%nat && (actualHash =s expectedHash)
  | _, _ => false
  end.

(** [acceptConnection]: [alive] starts true, the hello is awaited. *)
Definition acceptConnection (r : AgentRelay) : AgentRelay :=
  let gen := S (connectionGeneration r) in
  mkRelay (requestManager r) (readyWaiters r) (Some gen) false (heartbeat r) true gen (closed r)
    (readyStates r ++ [OPEN]) (intervals r) (next_interval r) (resumed r).

(** [handleUpgrade]: the status of a refusal, or the connection. *)
Definition handleUpgrade (request : Upgrade) (r : AgentRelay) : AgentRelay * option Z :=
  match up_url request with
  | None => (r, Some 400)
  | Some (pathname, search, hash) =>
      if negb (pathname =s "/agent") || negb (sempty search) || negb (sempty hash) then (r, Some 404)
      else if negb (isOriginAllowed request) then (r, Some 403)
      else if negb (authenticate request) then (r, Some 401)
      else if (match socket r with
               | Some s => bool_decide (readyState s r = OPEN)
               | None => false
               end) then (r, Some 409)
      else if closed r then (r, Some 503)
      else (acceptConnection r, None)
  end.

(** *** Waiters *)
Definition finish_waiter (w : ReadyWaiter) (ready : bool) (r : AgentRelay) : AgentRelay :=
  if existsb (fun x => bool_decide (w_call x = w_call w)) (readyWaiters r) then
    with_waiters (List.filter (fun x => negb (bool_decide (w_call x = w_call w))) (readyWaiters r))
      (resumed r ++ [(w_call w, ready)]) r
  else r.
Definition resolveReadyWaiters (r : AgentRelay) : AgentRelay :=
  if negb (isConnected r) then r
  else fold_left (fun r w => if (minimumGeneration w <=? connectionGeneration r)%nat then finish_waiter w true r else r)
         (readyWaiters r) r.
Definition resolveAllReadyWaiters (ready : bool) (r : AgentRelay) : AgentRelay :=
  fold_left (fun r w => finish_waiter w ready r) (readyWaiters r) r.

Definition reconnectGraceMs : Z :=
  Z.max 1 (Z.min (default DEFAULT_RECONNECT_GRACE_MS (reconnectGrace options))
                 (requestTimeoutMs (manager_options options))).
Definition reconnectWaitMs (context : OperationContext) (now : Z) : Z :=
  let bounded := Z.min reconnectGraceMs (requestTimeoutMs (manager_options options)) in
  match cx_deadline context with
  | None => bounded
  | Some d => Z.max 0 (Z.min bounded (remainingOperationTimeMs d now))
  end.

Definition signal_is_aborted (context : OperationContext) (r : AgentRelay) : bool :=
  match abort_of (cx_signal context) (requestManager r) with Some _ => true | None => false end.

(** [waitForReadyGeneration]: an answer known at once, or [None] and a waiter. *)
Definition waitForReadyGeneration (id : nat) (minimum : nat) (context : OperationContext) (now : Z)
    (r : AgentRelay) : AgentRelay * option bool :=
  if isConnected r && (minimum <=? connectionGeneration r)%nat then (r, Some true)
  else if closed r || signal_is_aborted context r then (r, Some false)
  else
    let waitMs := reconnectWaitMs context now in
    if waitMs <=? 0 then (r, Some false)
    else
      let w := mkWaiter id minimum (now + waitMs) (cx_signal context) in
      (resolveReadyWaiters (with_waiters (readyWaiters r ++ [w]) (resumed r) r), None).

(** *** Heartbeats *)
Definition clear_heartbeat (r : AgentRelay) : AgentRelay :=
  match heartbeat r with
  | Some h => with_heartbeat None (List.filter (fun e => negb (bool_decide (e.1 = h))) (intervals r)) r
  | None => r
  end.
(** [setInterval]: a new timer; what [heartbeat] held before is overwritten. *)
Definition startHeartbeat (s : nat) (r : AgentRelay) : AgentRelay :=
  let h := next_interval r in
  mkRelay (requestManager r) (readyWaiters r) (socket r) (ready r) (Some h) (alive r) (connectionGeneration r)
    (closed r) (readyStates r) (intervals r ++ [(h, s)]) (S h) (resumed r).
(** One tick of a timer: the socket of a peer that did not answer is terminated, else it is pinged. *)
Definition heartbeat_tick (h : nat) (r : AgentRelay) : AgentRelay :=
  match find_first (fun e => bool_decide (e.1 = h)) (intervals r) with
  | None => r
  | Some (_, s) => if negb (alive r) then close_socket s r else with_alive false r
  end.
(** A [pong] on any socket. *)
Definition pong (r : AgentRelay) : AgentRelay := with_alive true r.
(** The hello timer of a socket. *)
Definition hello_timeout (s : nat) (r : AgentRelay) : AgentRelay :=
  if negb (ready r) then close_socket s r else r.

(** *** Messages *)
(** A message: binary or text, its length, and its JSON value if it parses. *)
Record Message := mkMessage { isBinary : bool; msg_length : Z; msg_value : option J }.

Definition handleMessage (s : nat) (msg : Message) (r : AgentRelay) : AgentRelay :=
  if isBinary msg then close_socket s r
  else if msg_length msg >? maxPayloadBytes (manager_options options) then close_socket s r
  else
    match msg_value msg with
    | None => close_socket s r
    | Some value =>
        if negb (ready r) then
          match agentHelloSchema value with
          | None => close_socket s r
          | Some (id, capabilities) =>
              if negb (id =s agentId options) then close_socket s r
              else if negb (forallb (fun o => includes capabilities (relay_name o)) relayOperations) then
                close_socket s r
              else resolveReadyWaiters (startHeartbeat s (with_socket (socket r) true r))
          end
        else
          match relayResponseSchema value with
          | None => close_socket s r
          | Some response => with_manager (complete relayResultSchema response (requestManager r)) r
          end
    end.

(** The peer starts to close. *)
Definition peer_closing (s : nat) (r : AgentRelay) : AgentRelay := close_socket s r.
(** The [close] event of a socket. *)
Definition socket_closed (s : nat) (r : AgentRelay) : AgentRelay :=
  let r := set_readyState s CLOSED r in
  let r := if bool_decide (socket r = Some s) then clear_heartbeat (with_socket None false r) else r in
  with_manager (rejectGeneration (Z.of_nat s) "The local agent disconnected." agent_disconnected (requestManager r)) r.

(** [close] *)
Definition close (r : AgentRelay) : AgentRelay :=
  if closed r then r
  else
    let r := mkRelay (requestManager r) (readyWaiters r) (socket r) (ready r) (heartbeat r) (alive r)
               (connectionGeneration r) true (readyStates r) (intervals r) (next_interval r) (resumed r) in
    let r := resolveAllReadyWaiters false (clear_heartbeat r) in
    let r := with_manager (rejectAll "The gateway is shutting down." gateway_shutdown (requestManager r)) r in
    let r := match socket r with Some s => close_socket s r | None => r end in
    with_socket None false r.

(** The events of the request manager and of the signals. *)
Definition request_timeout (id : string) (now : Z) (r : AgentRelay) : AgentRelay :=
  with_manager (timeout_fired id now (requestManager r)) r.
Definition request_send_failed (id : string) (now : Z) (r : AgentRelay) : AgentRelay :=
  with_manager (send_failed id now (requestManager r)) r.
Definition waiter_timeout (w : ReadyWaiter) (r : AgentRelay) : AgentRelay := finish_waiter w false r.
Definition abort_signal (s : nat) (reason : option AppError) (now : Z) (r : AgentRelay) : AgentRelay :=
  let r := with_manager (signal_aborted s reason now (requestManager r)) r in
  fold_left (fun r w => if bool_decide (w_signal w = Some s) then finish_waiter w false r else r) (readyWaiters r) r.

(** *** Calls *)
(** A call of [call]: its arguments and its local variables; [attempts] are the promises it has been
    given by the request manager so far. *)
Record RelayCall := mkCall {
  cl_id : nat;
  cl_operation : RelayOperation;
  cl_input : J;
  cl_context : OperationContext;
  recoveryAttempted : bool;
  outcome : AgentAvailabilityOutcome;
  attempts : list string;
}.
(** Where it is: at the head of the loop, waiting for a reconnection, waiting for a response with the generation
    of the attempt, or done. *)
Inductive Phase :=
  | Looping
  | AwaitReady
  | AwaitResponse (requestId : string) (attemptedGeneration : nat)
  | Done (r : result exn J).

Definition unavailable_error (c : RelayCall) (msg : string) (reason : AgentAvailabilityReason)
    (o : AgentAvailabilityOutcome) (retried : bool) (r : AgentRelay) : exn :=
  App (mkAppError AGENT_UNAVAILABLE msg None
         (Some (createAgentUnavailableDetails (cl_operation c) reason o (Z.of_nat (connectionGeneration r)) retried))).
Definition not_reconnected (c : RelayCall) (r : AgentRelay) : result exn J :=
  Err (unavailable_error c "The local agent did not reconnect in time." reconnect_timeout (outcome c) true r).

Definition recovering (c : RelayCall) (o : AgentAvailabilityOutcome) : RelayCall :=
  mkCall (cl_id c) (cl_operation c) (cl_input c) (cl_context c) true o (attempts c).

(** [recovered = await this.waitForReadyGeneration(...)] *)
Definition await_recovery (c : RelayCall) (minimum : nat) (now : Z) (r : AgentRelay) : AgentRelay * (RelayCall * Phase) :=
  match waitForReadyGeneration (cl_id c) minimum (cl_context c) now r with
  | (r, Some true) => (r, (c, Looping))
  | (r, Some false) => (r, (c, Done (not_reconnected c r)))
  | (r, None) => (r, (c, AwaitReady))
  end.

(** The wait of a call ended. *)
Definition resume_call (c : RelayCall) (recovered : bool) (r : AgentRelay) : RelayCall * Phase :=
  if recovered then (c, Looping) else (c, Done (not_reconnected c r)).

(** The [catch] of an attempt. *)
Definition attempt_failed (c : RelayCall) (attemptedGeneration : nat) (error : exn) (now : Z) (r : AgentRelay) :
    AgentRelay * (RelayCall * Phase) :=
  let appError := asAppError error in
  if negb (bool_decide (code appError = AGENT_UNAVAILABLE)) then (r, (c, Done (Err (App appError))))
  else
    let o := default outcome_unknown (details appError ≫= ed_outcome) in
    if negb (isRetryableRelayOperation (cl_operation c)) || recoveryAttempted c
       || bool_decide (details appError ≫= ed_reason = Some (availability_reason gateway_shutdown))
       || signal_is_aborted (cl_context c) r then
      (r, (c, Done (Err (App
        (match recoveryAttempted c, details appError with
         | true, Some d =>
             mkAppError (code appError) (message appError) (lifecycle appError)
               (Some (mkDetails (ed_path d) (ed_policyRule d) (ed_operation d) (ed_reason d) (ed_safeAlternative d)
                        (ed_retryable d) (Some true) (ed_outcome d) (ed_connectionGeneration d)))
         | _, _ => appError
         end)))))
    else await_recovery (recovering c o) (S attemptedGeneration) now r.

(** One turn of the loop, up to the next [await]. *)
Definition call_turn (c : RelayCall) (requestId : string) (now startedAt now' : Z) (r : AgentRelay) :
    AgentRelay * (RelayCall * Phase) :=
  if closed r then
    (r, (c, Done (Err (unavailable_error c "The gateway is shutting down." gateway_shutdown (outcome c)
                         (recoveryAttempted c) r))))
  else if isConnected r then
    match call relayRequestSchema byteLength (manager_options options) (default 0%nat (socket r)) (cl_operation c)
            (cl_input c) (cl_context c) (Z.of_nat (connectionGeneration r)) requestId now startedAt now'
            (requestManager r) with
    | (m, Ok id) =>
        (with_manager m r,
         (mkCall (cl_id c) (cl_operation c) (cl_input c) (cl_context c) (recoveryAttempted c) (outcome c)
            (attempts c ++ [id]), AwaitResponse id (connectionGeneration r)))
    | (m, Err e) => attempt_failed c (connectionGeneration r) e now' (with_manager m r)
    end
  else if negb (isRetryableRelayOperation (cl_operation c)) || recoveryAttempted c
          || signal_is_aborted (cl_context c) r then
    (r, (c, Done (Err (unavailable_error c "The local agent is unavailable."
           (if recoveryAttempted c then reconnect_timeout else agent_not_connected) (outcome c)
           (recoveryAttempted c) r))))
  else
    await_recovery (recovering c (outcome c))
      (if isOpen r then connectionGeneration r else S (connectionGeneration r)) now r.

(** The promise of an attempt was settled. *)
Definition response_arrived (c : RelayCall) (attemptedGeneration : nat) (settlement : result exn J) (now : Z)
    (r : AgentRelay) : AgentRelay * (RelayCall * Phase) :=
  match settlement with
  | Ok v => (r, (c, Done (Ok v)))
  | Err e => attempt_failed c attemptedGeneration e now r
  end.
End AgentRelay.

(** *** The life of a call *)
Section Calls.
Context {J : Type}.
Context (relayRequestSchema : RelayRequest (J := J) -> option (RelayRequest (J := J)))
        (byteLength : RelayRequest (J := J) -> Z)
        (relayResultSchema : RelayOperation -> J -> option J)
        (sha256 fromHex : string -> string)
        (options : AgentRelayOptions).

(** One step of a call, whatever happened to the relay and whatever answer came in between. *)
Inductive call_step : RelayCall (J := J) * Phase (J := J) -> RelayCall (J := J) * Phase (J := J) -> Prop :=
  | step_turn c r requestId now startedAt now' :
      call_step (c, Looping)
        (call_turn relayRequestSchema byteLength options c requestId now startedAt now' r).2
  | step_resume c recovered r : call_step (c, AwaitReady) (resume_call c recovered r)
  | step_response c id gen settlement now r :
      call_step (c, AwaitResponse id gen) (response_arrived options c gen settlement now r).2.

Inductive call_steps : nat -> RelayCall (J := J) * Phase (J := J) -> RelayCall (J := J) * Phase (J := J) -> Prop :=
  | calls_none s : call_steps 0 s s
  | calls_step n s s' s'' : call_steps n s s' -> call_step s' s'' -> call_steps (S n) s s''.

Definition fresh_call (id : nat) (o : RelayOperation) (input : J) (context : OperationContext) : RelayCall :=
  mkCall id o input context false outcome_not_started [].

(** The steps a call may still make. *)
Definition remaining (s : RelayCall (J := J) * Phase (J := J)) : nat :=
  match s.2, recoveryAttempted s.1 with
  | Done _, _ => 0
  | AwaitResponse _ _, true => 1
  | Looping, true => 2
  | AwaitReady, true => 3
  | AwaitResponse _ _, false => 4
  | Looping, false => 5
  | AwaitReady, false => 6
  end%nat.
(** The attempts it may have made. *)
Definition allowed (s : RelayCall (J := J) * Phase (J := J)) : Prop :=
  (recoveryAttempted s.1 = true -> isRetryableRelayOperation (cl_operation s.1) = true)
  /\ (length (attempts s.1) <= match s.2, recoveryAttempted s.1 with
      | Done _, true | AwaitResponse _ _, true => 2
      | Looping, false | AwaitReady, false => 0
      | _, _ => 1
      end)%nat.

(** Compare the counts of a call before and after a step. *)
Ltac step_counts c :=
  unfold allowed, remaining in *;
  cbn [fst snd recoveryAttempted attempts cl_operation] in *; destruct (recoveryAttempted c);
  repeat split; first [done | lia | idtac].

Lemma await_recovery_cases (c : RelayCall (J := J)) min now (r : AgentRelay (J := J)) :
  let '(c', ph) := (await_recovery options c min now r).2 in
  c' = c /\ (ph = Looping \/ ph = AwaitReady \/ exists res, ph = Done res).
Proof.
  unfold await_recovery. destruct (waitForReadyGeneration _ _ _ _ _ _) as [r' [[|]|]]; cbn; eauto.
Qed.

Lemma attempt_failed_cases (c : RelayCall (J := J)) gen e now (r : AgentRelay (J := J)) :
  let '(c', ph) := (attempt_failed options c gen e now r).2 in
  (c' = c /\ exists res, ph = Done res)
  \/ (recoveryAttempted c = false /\ isRetryableRelayOperation (cl_operation c) = true
      /\ exists o, c' = recovering c o /\ (ph = Looping \/ ph = AwaitReady \/ exists res, ph = Done res)).
Proof.
  unfold attempt_failed. destruct (negb (bool_decide (code (asAppError e) = AGENT_UNAVAILABLE))); cbn; [eauto|].
  destruct (isRetryableRelayOperation (cl_operation c)) eqn:Er; cbn [negb orb]; [|cbn; eauto].
  destruct (recoveryAttempted c) eqn:Ea; cbn [orb]; [cbn; eauto|].
  destruct (_ || _); [cbn; eauto|].
  set (o := default _ _). pose proof (await_recovery_cases (recovering c o) (S gen) now r) as H.
  destruct (await_recovery _ _ _ _ _) as [r' [c' ph]]. cbn in *. destruct H as [-> H]. right. eauto 6.
Qed.

Lemma call_step_decreases s s' : call_step s s' -> allowed s -> (remaining s' < remaining s)%nat /\ allowed s'
  /\ cl_operation s'.1 = cl_operation s.1.
Proof.
  intros H [Hr Hn]. destruct H as [c r id now t now'|c b r|c id gen st now r]; cbn [fst snd] in *.
  - unfold call_turn. destruct (closed r).
    { step_counts c. }
    destruct (isConnected r).
    + destruct (call _ _ _ _ _ _ _ _ _ _ _ _ _) as [m [id'|e]]; cbn [fst snd].
      * unfold allowed, remaining. cbn [fst snd recoveryAttempted attempts cl_operation]. rewrite length_app. cbn [length].
        step_counts c.
      * pose proof (attempt_failed_cases c (connectionGeneration r) e now' (with_manager m r)) as H.
        destruct (attempt_failed _ _ _ _ _ _) as [r' [c' ph]]. cbn [fst snd] in *. unfold allowed, remaining. cbn [fst snd].
        destruct H as [(-> & res & ->)|(Ha & Hret & o & -> & H)].
        { step_counts c. }
        cbn [recovering recoveryAttempted attempts cl_operation] in *. rewrite Ha in *.
        destruct H as [-> |[-> |[res ->]]]; repeat split; try done; lia.
    + destruct (negb (isRetryableRelayOperation (cl_operation c)) || recoveryAttempted c || _) eqn:Eb; cbn [fst snd].
      { step_counts c. }
      apply orb_false_iff in Eb as [[Eb1%negb_false_iff Eb2]%orb_false_iff _].
      match goal with |- context [await_recovery options ?c1 ?mn now r] =>
        pose proof (await_recovery_cases c1 mn now r) as H; destruct (await_recovery options c1 mn now r) as [r' [c' ph]] end.
      cbn [fst snd] in *. destruct H as [-> H]. unfold allowed, remaining.
      cbn [fst snd recovering recoveryAttempted attempts cl_operation] in *. rewrite Eb2 in *.
      destruct H as [-> |[-> |[res ->]]]; repeat split; try done; lia.
  - unfold resume_call. destruct b; step_counts c.
  - unfold response_arrived. destruct st as [v|e].
    { step_counts c. }
    pose proof (attempt_failed_cases c gen e now r) as H.
    destruct (attempt_failed _ _ _ _ _ _) as [r' [c' ph]]. cbn [fst snd] in *. unfold allowed, remaining. cbn [fst snd].
    destruct H as [(-> & res & ->)|(Ha & Hret & o & -> & H)].
    { step_counts c. }
    cbn [recovering recoveryAttempted attempts cl_operation] in *. rewrite Ha in *.
    destruct H as [-> |[-> |[res ->]]]; repeat split; try done; lia.
Qed.

(** A call ends after at most five steps, whatever the relay does and the agent answers, and a request is
    tried again only once and only when its operation is one that reads: an operation
    that changes something is never sent twice. *)
Theorem call_attempts_bounded n id o input context c ph
    (H : call_steps n (fresh_call id o input context, Looping) (c, ph)) :
  (n <= 5)%nat
  /\ (length (attempts c) <= if isRetryableRelayOperation o then 2 else 1)%nat.
Proof.
  assert (Hs : forall n s s', call_steps n s s' -> allowed s ->
            (n + remaining s' <= remaining s)%nat /\ allowed s' /\ cl_operation s'.1 = cl_operation s.1).
  { intros n0 s s'. induction 1 as [s|n0 s s1 s2 _ IH Hstep]; intros Ha; [repeat split; try apply Ha; lia|].
    destruct (IH Ha) as (H1 & H2 & H3). destruct (call_step_decreases s1 s2 Hstep H2) as (H4 & H5 & H6).
    repeat split; [lia|apply H5|apply H5|congruence]. }
  destruct (Hs n _ _ H) as (Hn & [Hr Hl] & Ho); [split; cbn; [done|lia]|]. cbn [fst snd] in *. cbn in Hn, Ho.
  split; [lia|]. rewrite Ho in Hr. destruct (isRetryableRelayOperation o).
  - destruct ph, (recoveryAttempted c); lia.
  - destruct (recoveryAttempted c); [by specialize (Hr eq_refl)|]. destruct ph; lia.
Qed.
End Calls.

(** *** Connections *)
Section Connections.
Context {J : Type}.
Context (sha256 fromHex : string -> string) (options : AgentRelayOptions).

(** An upgrade opens a connection exactly when it asks for /agent without query or fragment, comes from no
    origin or an allowed one, names this agent with a bearer token of the configured
    hash, and no other connection is open; the new connection is then the current one and
    has yet to say hello.  A refused upgrade changes nothing. *)
Theorem upgrade_accepted_exactly request (r : AgentRelay (J := J)) :
  match handleUpgrade sha256 fromHex options request r with
  | (r', None) =>
      up_url request = Some ("/agent", "", "")%string
      /\ (up_origin request = absent
          \/ exists o os, up_origin request = single o /\ allowedOrigins options = Some os /\ o ∈ os)
      /\ (exists token, up_authorization request = single ("Bearer " +:+ token)
          /\ sha256 token = fromHex (tokenSha256 options))
      /\ up_agent_id request = single (agentId options)
      /\ isOpen r = false /\ closed r = false
      /\ r' = acceptConnection r /\ ready r' = false /\ socket r' = Some (S (connectionGeneration r))
  | (r', Some status) => r' = r /\ includes [400; 404; 403; 401; 409; 503] status = true
  end.
Proof.
  unfold handleUpgrade. destruct (up_url request) as [[[path query] hash]|]; [|done].
  destruct (path =s "/agent") eqn:Ep; cbn [negb orb]; [|done]. apply String.eqb_eq in Ep as ->.
  destruct (sempty query) eqn:Eq; cbn [negb orb]; [|done]. apply sempty_true in Eq as ->.
  destruct (sempty hash) eqn:Eh; cbn [negb]; [|done]. apply sempty_true in Eh as ->.
  destruct (isOriginAllowed options request) eqn:Eo; cbn [negb]; [|done].
  destruct (authenticate sha256 fromHex options request) eqn:Ea; cbn [negb]; [|done].
  destruct (match socket r with Some s => _ | None => _ end) eqn:Es; [done|].
  destruct (closed r) eqn:Ec; [done|]. repeat split; try done.
  - unfold isOriginAllowed in Eo. destruct (up_origin request) as [|o|os]; [by left| |done]. cbn in Eo.
    destruct (allowedOrigins options) as [os|]; [|done]. apply includes_spec in Eo. right. by exists o, os.
  - unfold authenticate in Ea. destruct (up_agent_id request) as [|i|]; cbn in Ea; try done.
    destruct (up_authorization request) as [|a|]; cbn [singleHeader] in Ea; try done.
    destruct (i =s agentId options); [|done]. destruct (startsWith a "Bearer ") eqn:Eb; [|done].
    apply startsWith_spec in Eb as [token ->]. cbn [negb orb] in Ea. apply andb_prop in Ea as [_ Ea%String.eqb_eq].
    by exists token.
  - unfold authenticate in Ea. destruct (up_agent_id request) as [|i|]; cbn in Ea; try done.
    destruct (up_authorization request) as [|a|]; cbn [singleHeader] in Ea; try done.
    destruct (i =s agentId options) eqn:Ei; [|done]. by apply String.eqb_eq in Ei as ->.
Qed.

(** *** Shutting down *)
Lemma finish_waiter_other w b (r : AgentRelay (J := J)) :
  requestManager (finish_waiter w b r) = requestManager r /\ closed (finish_waiter w b r) = closed r
  /\ socket (finish_waiter w b r) = socket r /\ (forall x, x ∈ resumed r -> x ∈ resumed (finish_waiter w b r)).
Proof.
  unfold finish_waiter. destruct (existsb _ _); cbn; repeat split; try done. intros x Hx. apply elem_of_app. by left.
Qed.

Lemma finish_waiters_spec (b : bool) l (r : AgentRelay (J := J)) :
  (forall w, w ∈ readyWaiters r -> w ∈ l) ->
  let r' := fold_left (fun r w => finish_waiter w b r) l r in
  readyWaiters r' = [] /\ (forall w, w ∈ readyWaiters r -> (w_call w, b) ∈ resumed r')
  /\ requestManager r' = requestManager r /\ closed r' = closed r /\ socket r' = socket r
  /\ (forall x, x ∈ resumed r -> x ∈ resumed r').
Proof.
  revert r. induction l as [|w l IH]; intros r Hl; cbn zeta; cbn [fold_left].
  - assert (readyWaiters r = []) as E.
    { destruct (readyWaiters r) as [|w ws]; [done|]. exfalso. apply (not_elem_of_nil w), Hl. left. }
    repeat split; try done. intros w. rewrite E. by intros ?%not_elem_of_nil.
  - destruct (finish_waiter_other w b r) as (H1 & H2 & H3 & H4).
    assert (Hw : forall x, x ∈ readyWaiters (finish_waiter w b r) -> x ∈ l /\ x ∈ readyWaiters r /\ w_call x <> w_call w).
    { intros x. unfold finish_waiter. destruct (existsb _ _) eqn:Ex; cbn [readyWaiters with_waiters].
      - rewrite list_elem_of_In, filter_In, <- list_elem_of_In, negb_true_iff, bool_decide_eq_false.
        intros [Hx Hne]. split; [|done]. apply Hl, elem_of_cons in Hx as [->|Hx]; [congruence|done].
      - intros Hx. assert (w_call x <> w_call w) as Hne.
        { intros E. assert (existsb (fun y => bool_decide (w_call y = w_call w)) (readyWaiters r) = true) as Hb; [|congruence].
          apply existsb_exists. exists x. split; [by apply list_elem_of_In|by apply bool_decide_eq_true]. }
        split; [|done]. apply Hl, elem_of_cons in Hx as [->|Hx]; [congruence|done]. }
    destruct (IH (finish_waiter w b r)) as (I1 & I2 & I3 & I4 & I5 & I6).
    { intros x Hx. by apply Hw. }
    repeat split; [done| |congruence..|intros x Hx; by apply I6, H4].
    intros x Hx. destruct (decide (w_call x = w_call w)) as [E|E].
    + apply I6. unfold finish_waiter. rewrite (proj2 (existsb_exists _ _)).
      * cbn. rewrite E. apply elem_of_app. right. by apply list_elem_of_singleton.
      * exists x. split; [by apply list_elem_of_In|by apply bool_decide_eq_true].
    + apply I2. unfold finish_waiter. destruct (existsb _ _); [|done]. cbn [readyWaiters with_waiters].
      rewrite list_elem_of_In, filter_In, <- list_elem_of_In. split; [done|]. by rewrite bool_decide_false.
Qed.

Lemma rejectAll_spec msg reason (m : Manager (J := J)) :
  jm_wf (pending m) ->
  rejectAll msg reason m = mkManager [] (aborted_signals m) (frames m)
    (settled m ++ map (fun e => (e.1, Err (unavailable msg reason e.2))) (pending m)).
Proof.
  unfold rejectAll. destruct m as [p a f s]. cbn [pending aborted_signals frames settled]. revert s.
  induction p as [|[id q] p IH]; intros s Hw; cbn [jm_keys map fold_left fst].
  - by rewrite app_nil_r.
  - rewrite reject_with_spec. cbn [pending jm_get]. rewrite String.eqb_refl. unfold finish. cbn [pending aborted_signals frames settled].
    pose proof (jm_delete_middle [] p id q Hw) as Hd. cbn [app] in Hd. rewrite Hd, app_nil_r.
    unfold jm_keys in IH. rewrite IH.
    + cbn [map fst snd]. by rewrite <- app_assoc.
    + unfold jm_wf, jm_keys in Hw. by inversion Hw.
Qed.

(** Shutting down leaves no one waiting: every pending request is rejected as unavailable because of the shutdown,
    every call that waits for a reconnection is told there is none, and any call that goes
    on or starts afterwards ends at once with the same error, without a request being sent. *)
Theorem shutdown_releases_all schema bytes (r : AgentRelay (J := J))
    (Hopen : closed r = false) (Hw : jm_wf (pending (requestManager r))) :
  let r' := close r in
  pending (requestManager r') = [] /\ readyWaiters r' = []
  /\ settled (requestManager r') = settled (requestManager r)
     ++ map (fun e => (e.1, Err (unavailable "The gateway is shutting down." gateway_shutdown e.2)))
          (pending (requestManager r))
  /\ (forall w, w ∈ readyWaiters r -> (w_call w, false) ∈ resumed r')
  /\ forall c id now startedAt now',
     call_turn schema bytes options c id now startedAt now' r'
     = (r', (c, Done (Err (unavailable_error c "The gateway is shutting down." gateway_shutdown (outcome c)
                             (recoveryAttempted c) r')))).
Proof.
  cbn zeta. unfold close. rewrite Hopen.
  set (r0 := mkRelay _ _ _ _ _ _ _ _ _ _ _ _). set (r1 := clear_heartbeat r0).
  assert (H1 : requestManager r1 = requestManager r /\ readyWaiters r1 = readyWaiters r /\ closed r1 = true).
  { unfold r1, clear_heartbeat. by destruct (heartbeat r0). }
  destruct H1 as (Hm1 & Hw1 & Hc1).
  destruct (finish_waiters_spec false (readyWaiters r1) r1 (fun w H => H)) as (W1 & W2 & W3 & W4 & W5 & _).
  fold (resolveAllReadyWaiters false r1) in W1, W2, W3, W4, W5.
  set (r2 := resolveAllReadyWaiters false r1) in *.
  set (r3 := with_manager _ r2). set (r4 := match socket r3 with Some s => _ | None => _ end).
  assert (H4 : requestManager r4 = requestManager r3 /\ readyWaiters r4 = readyWaiters r3 /\ closed r4 = closed r3
               /\ resumed r4 = resumed r3).
  { unfold r4. destruct (socket r3) as [s|]; [|done]. unfold close_socket. by destruct (bool_decide _). }
  destruct H4 as (A1 & A2 & A3 & A4). cbn [requestManager readyWaiters resumed closed with_socket].
  assert (Hm3 : requestManager r3 = rejectAll "The gateway is shutting down." gateway_shutdown (requestManager r)).
  { unfold r3. cbn [requestManager with_manager]. by rewrite W3, Hm1. }
  rewrite A1, A2, A4, Hm3, rejectAll_spec by done. cbn [pending settled].
  split; [done|]. split; [exact W1|]. split; [done|]. split.
  - intros w Hin. apply W2. by rewrite Hw1.
  - intros c id now st now'. unfold call_turn. cbn [closed with_socket]. rewrite A3. unfold r3.
    cbn [closed with_manager]. rewrite W4, Hc1. done.
Qed.
End Connections.

(** *** A trial run *)
Module RelayTrial.
Definition options : AgentRelayOptions :=
  mkRelayOptions "agent" "hash" (mkOpts 60000 2 1000) (Some ["https://app.example"%string]) None.
Definition hello (v : string) : option (string * list string) :=
  if v =s "hello" then Some ("agent"%string, map relay_name relayOperations) else None.
Definition response (v : string) : option (RelayResponse (J := string)) := None.
Definition text (v : string) : Message (J := string) := mkMessage false 10 (Some v).
Definition message (s : nat) (v : string) : AgentRelay -> AgentRelay :=
  handleMessage RelayRequests.Trial.result_schema hello response options s (text v).
Definition t0 : Z := 1700000000000.
Definition context : OperationContext := mkContext None None None None None None.

(** The agent connects and says hello. *)
Definition connected : AgentRelay := message 1 "hello" (acceptConnection initial).
Definition start : RelayCall (J := string) * Phase (J := string) :=
  (fresh_call 5 readFile "a"%string context, Looping).
Definition turn (id : string) (c : RelayCall) (r : AgentRelay) :=
  call_turn RelayRequests.Trial.schema RelayRequests.Trial.bytes options c id t0 t0 t0 r.
Definition asked := turn "r1" start.1 connected.
(** The connection is lost, and the call waits for the next one. *)
Definition lost : AgentRelay := socket_closed 1 asked.1.
Definition recovery :=
  response_arrived options asked.2.1 1 (Err (unavailable "The local agent disconnected." agent_disconnected
    (mkPending readFile 1 t0 t0 (mkDeadline 1 1 t0) 1 None))) t0 lost.

Lemma recovery_waits :
  recovery.2.2 = AwaitReady /\ readyWaiters recovery.1 = [mkWaiter 5 2 (t0 + 3000) None]
  /\ resumed (message 2 "hello" (acceptConnection recovery.1)) = [(5%nat, true)].
Proof. vm_compute. done. Qed.

(** The timer of a connection that was still closing when the next one was accepted is never stopped: it
    goes on marking the peer as silent, and the timer of the new connection then ends that
    connection although its agent answered every ping. *)
Definition replaced : AgentRelay :=
  message 2 "hello" (socket_closed 1 (acceptConnection (peer_closing 1 connected))).
Lemma stale_heartbeat_ends_connection :
  intervals replaced = [(0, 1); (1, 2)]%nat /\ heartbeat replaced = Some 1%nat
  /\ readyState 2 (pong (heartbeat_tick 1 replaced)) = OPEN
  /\ readyState 2 (heartbeat_tick 1 (heartbeat_tick 0 (pong (heartbeat_tick 1 replaced)))) = CLOSING.
Proof. vm_compute. done. Qed.
End RelayTrial.

Lemma call_attempts_bounded_witness :
  exists c ph, call_steps RelayRequests.Trial.schema RelayRequests.Trial.bytes RelayTrial.options 2
    RelayTrial.start (c, ph) /\ attempts c = ["r1"%string] /\ (length (attempts c) <= 2)%nat.
Proof.
  exists RelayTrial.recovery.2.1, RelayTrial.recovery.2.2.
  assert (H : call_steps RelayRequests.Trial.schema RelayRequests.Trial.bytes RelayTrial.options 2
                RelayTrial.start (RelayTrial.recovery.2.1, RelayTrial.recovery.2.2)).
  { assert (E : RelayTrial.asked.2 = (RelayTrial.asked.2.1, AwaitResponse "r1" 1)) by (vm_compute; reflexivity).
    rewrite <- surjective_pairing.
    apply (calls_step _ _ _ 1 _ RelayTrial.asked.2).
    - eapply calls_step; [apply calls_none|].
      exact (step_turn _ _ RelayTrial.options RelayTrial.start.1 RelayTrial.connected "r1" RelayTrial.t0 RelayTrial.t0 RelayTrial.t0).
    - rewrite E. exact (step_response _ _ RelayTrial.options RelayTrial.asked.2.1 "r1" 1 _ RelayTrial.t0 RelayTrial.lost). }
  split; [exact H|]. split; [vm_compute; reflexivity|].
  exact (proj2 (call_attempts_bounded _ _ _ 2 5 readFile "a"%string RelayTrial.context _ _ H)).
Defined.

Lemma shutdown_releases_all_witness :
  pending (requestManager (close RelayTrial.asked.1)) = [] /\ readyWaiters (close RelayTrial.recovery.1) = [].
Proof.
  split.
  - destruct (shutdown_releases_all RelayTrial.options RelayRequests.Trial.schema RelayRequests.Trial.bytes
                RelayTrial.asked.1) as (H & _); [reflexivity| |exact H].
    unfold jm_wf. refine (bool_decide_unpack _ _). vm_compute. exact I.
  - destruct (shutdown_releases_all RelayTrial.options RelayRequests.Trial.schema RelayRequests.Trial.bytes
                RelayTrial.recovery.1) as (_ & H & _); [reflexivity| |exact H].
    unfold jm_wf. refine (bool_decide_unpack _ _). vm_compute. exact I.
Defined.
