(* ===== verification/EdgeProtocol.v ===== *)
(** The messages between the edge and its connectors: packages/edge-protocol/src/index.ts and
    services/mcp-edge-gateway/src/protocol.ts.

    Messages are inductive types; the parsers read them from a text by [JSON_parse], and
    [edge_message_value] and [connector_message_value] are the objects that the senders write
    (services/mcp-edge-gateway/src/mcp-session.ts and services/mcp-gateway/src/edge/connector.ts).
    URL parsing and [Date.parse] belong to the platform ([EdgePlatform]). *)
From S2P Require Import Prelude Errors JsString JsRegex JsMap JsDate Json JsonText Zod.
Open Scope Z_scope.

(** [new URL(path, "https://edge.invalid").pathname], and [Date.parse] in milliseconds. *)
Class EdgePlatform := {
  new_URL_pathname : string -> option string;
  Date_parse : string -> option Z;
}.

Module EdgeProtocol.

Definition EDGE_PROTOCOL_VERSION : Z := 3.
Definition LEGACY_EDGE_PROTOCOL_VERSION : Z := 2.
Definition EDGE_RELAY_TIMEOUT_MS : Z := 330000.
Definition MAX_EDGE_REQUEST_BODY_BYTES : Z := 4 * 1024 * 1024.
Definition MAX_EDGE_RESPONSE_BODY_BYTES : Z := 4 * 1024 * 1024.

(** *** The data *)
Record AuthenticatedEdgePrincipal := mkPrincipal {
  subject : string;
  scopes : list string;
  ownerScope : option string;
}.
Record ConnectorRuntimeIdentity := mkRuntime {
  connectorInstanceId : string;
  connectionGeneration : Z;
  processStartedAt : string;
  catalogContractRevision : string;
  toolSetRevision : string;
  toolCount : Z;
  serverVersion : string;
  nodePid : Z;
  hostPid : Z;
}.
Inductive CancelReason := timeout | client_disconnected | connector_replaced.
#[export] Instance CancelReason_eq_dec : EqDecision CancelReason.
Proof. solve_decision. Defined.

Inductive EdgeToConnectorMessage :=
| edge_hello
| http_request (requestId method path : string) (headers : list (string * string)) (body : string)
    (principal : AuthenticatedEdgePrincipal)
| http_cancel (requestId : string) (reason : CancelReason).
Inductive ConnectorToEdgeMessage :=
| connector_ready (runtime : option ConnectorRuntimeIdentity)
| http_response (requestId : string) (status : Z) (headers : option (list (string * string))) (body : string).

(** *** Routes *)
Definition upper_char (c : ascii) : ascii :=
  let n := char_code c in if ((97 <=? n) && (n <=? 122))%N then ascii_of_N (n - 32) else c.
(** [s.toUpperCase()] on the letters of methods. *)
Definition toUpperCase (s : string) : string := smap upper_char s.
Definition isEdgeHttpMethod (value : string) : bool := (value =s "GET") || (value =s "POST") || (value =s "DELETE").
Definition MCP_PATH : string := "/mcp".
Definition OAUTH_POST_PATHS : list string := ["/token"; "/register"; "/revoke"].
Definition METADATA_PATHS : list string :=
  ["/.well-known/oauth-authorization-server"; "/.well-known/oauth-protected-resource";
   "/.well-known/oauth-protected-resource/mcp"].

Section Routes.
Context `{EP : EdgePlatform}.

Definition pathnameFromEdgePath (path : string) : option string :=
  if negb (startsWith path "/") || startsWith path "//" then None else new_URL_pathname path.

Definition isAllowedEdgeRequest (method path : string) : bool :=
  let m := toUpperCase method in
  if negb (isEdgeHttpMethod m) then false
  else match pathnameFromEdgePath path with
  | None => false
  | Some pathname =>
      if pathname =s MCP_PATH then (m =s "POST") || (m =s "GET") || (m =s "DELETE")
      else if pathname =s "/authorize" then (m =s "GET") || (m =s "POST")
      else if includes METADATA_PATHS pathname then m =s "GET"
      else if includes OAUTH_POST_PATHS pathname then m =s "POST"
      else false
  end.
End Routes.

Definition utf8ByteLength (value : string) : Z := Z.of_nat (utf8_length value).

(** *** Texts of identities *)
Definition hex : string := "0123456789abcdef".
Definition isSha256Hex (value : string) : bool :=
  test (seqs [Bol; Rep true 64 (Some 64%nat) (oneof hex); Eol]) value.
Definition hex_i (n : nat) : re := Rep true n (Some n) (oneof "0123456789abcdefABCDEF").
Definition isUuid (value : string) : bool :=
  test (seqs [Bol; hex_i 8; ch "-"; hex_i 4; ch "-"; oneof "12345678"; hex_i 3; ch "-"; oneof "89abAB"; hex_i 3; ch "-";
              hex_i 12; Eol]) value.
Definition isIsoTimestamp `{EdgePlatform} (value : string) : bool :=
  if sempty value || (64 <? String.length value)%nat then false
  else match Date_parse value with Some parsed => toISOString parsed =s value | None => false end.

Section Parsers.
Context `{JN : JsNumber} `{JR : !JsNumberRead JN} `{JI : !JsInteger JN} `{EP : EdgePlatform}.

Definition isRecord (v : value) : option (list (string * value)) :=
  match v with VObject _ es => Some es | _ => None end.
Definition parseRecord (text : string) : option (list (string * value)) :=
  match JSON_parse text with Ok v => isRecord v | Err _ => None end.

(** [Object.keys(value).sort()] is the given list. *)
Definition has_keys (es : list (string * value)) (allowedKeys : list string) : bool :=
  bool_decide (map fst (sort_entries es) = allowedKeys).
Definition text_of (v : value) : option string := match v with VString s => Some s | _ => None end.
Definition nonempty_text (v : value) : option string :=
  match v with VString s => if sempty s then None else Some s | _ => None end.
Definition within_length (n : nat) (s : string) : bool := negb (sempty s) && (String.length s <=? n)%nat.
(** A text of one to [n] characters. *)
Definition bounded_text (n : nat) (v : value) : option string :=
  match v with VString s => if within_length n s then Some s else None | _ => None end.
Definition safe_positive (z : Z) : bool := (z <=? MAX_SAFE_INTEGER) && (0 <? z).
Definition isPositiveSafeInteger (v : value) : option Z :=
  match v with
  | VNumber n => match integer_of n with Some z => if safe_positive z then Some z else None | None => None end
  | _ => None
  end.
Definition checked_text (f : string -> bool) (v : value) : option string :=
  match v with VString s => if f s then Some s else None | _ => None end.

(** [isStringRecord], with the entries. *)
Definition isStringRecord (v : value) : option (list (string * string)) :=
  es ← isRecord v; mapM (fun e => pair e.1 <$> text_of e.2) es.

Definition reason_text (r : CancelReason) : string :=
  match r with timeout => "timeout" | client_disconnected => "client_disconnected" | connector_replaced => "connector_replaced" end.
Definition isCancelReason (v : value) : option CancelReason :=
  s ← text_of v;
  if s =s "timeout" then Some timeout
  else if s =s "client_disconnected" then Some client_disconnected
  else if s =s "connector_replaced" then Some connector_replaced else None.

Definition parse_scopes (v : value) : option (list string) :=
  match v with
  | VArray vs =>
      if (length vs =? 0)%nat || (64 <? length vs)%nat then None else
      scopes ← mapM (bounded_text 256) vs;
      if negb (length (js_dedup scopes) =? length scopes)%nat then None else Some scopes
  | _ => None
  end.
Definition parseAuthenticatedEdgePrincipal (v : value) : option AuthenticatedEdgePrincipal :=
  es ← isRecord v;
  let owner := own_value "ownerScope" es in
  let allowedKeys := if is_undefined owner then ["scopes"; "subject"] else ["ownerScope"; "scopes"; "subject"] in
  if negb (has_keys es allowedKeys) then None else
  subject ← bounded_text 512 (own_value "subject" es);
  scopes ← parse_scopes (own_value "scopes" es);
  if is_undefined owner then Some (mkPrincipal subject scopes None)
  else owner ← bounded_text 256 owner; Some (mkPrincipal subject scopes (Some owner)).

Definition RUNTIME_KEYS : list string :=
  ["catalogContractRevision"; "connectionGeneration"; "connectorInstanceId"; "hostPid"; "nodePid"; "processStartedAt";
   "serverVersion"; "toolCount"; "toolSetRevision"; "version"].
Definition parseConnectorRuntimeIdentity (v : value) : option ConnectorRuntimeIdentity :=
  es ← isRecord v;
  if negb (has_keys es RUNTIME_KEYS) then None
  else if negb (literal_is (LInt 1) (own_value "version" es)) then None else
  connectorInstanceId ← checked_text isUuid (own_value "connectorInstanceId" es);
  connectionGeneration ← isPositiveSafeInteger (own_value "connectionGeneration" es);
  processStartedAt ← checked_text isIsoTimestamp (own_value "processStartedAt" es);
  catalogContractRevision ← checked_text isSha256Hex (own_value "catalogContractRevision" es);
  toolSetRevision ← checked_text isSha256Hex (own_value "toolSetRevision" es);
  toolCount ← isPositiveSafeInteger (own_value "toolCount" es);
  serverVersion ← bounded_text 256 (own_value "serverVersion" es);
  nodePid ← isPositiveSafeInteger (own_value "nodePid" es);
  hostPid ← isPositiveSafeInteger (own_value "hostPid" es);
  Some (mkRuntime connectorInstanceId connectionGeneration processStartedAt catalogContractRevision toolSetRevision
          toolCount serverVersion nodePid hostPid).

(** The message is of the version and says its type. *)
Definition message_type (version : Z) (es : list (string * value)) : option string :=
  if negb (literal_is (LInt version) (own_value "protocolVersion" es)) then None
  else text_of (own_value "type" es).

Definition parseEdgeToConnectorMessage (text : string) : option EdgeToConnectorMessage :=
  parsed ← parseRecord text;
  type ← message_type EDGE_PROTOCOL_VERSION parsed;
  if type =s "edge-hello" then Some edge_hello
  else if type =s "http-cancel" then
    requestId ← nonempty_text (own_value "requestId" parsed);
    reason ← isCancelReason (own_value "reason" parsed);
    Some (http_cancel requestId reason)
  else if negb (type =s "http-request") then None
  else
    requestId ← nonempty_text (own_value "requestId" parsed);
    method ← text_of (own_value "method" parsed);
    path ← text_of (own_value "path" parsed);
    if negb (isAllowedEdgeRequest method path) then None else
    headers ← isStringRecord (own_value "headers" parsed);
    body ← text_of (own_value "body" parsed);
    principal ← parseAuthenticatedEdgePrincipal (own_value "principal" parsed);
    Some (http_request requestId (toUpperCase method) path headers body principal).

(** The status of a response: a whole number of three digits up to 599. *)
Definition response_status (v : value) : option Z :=
  match v with
  | VNumber n => match integer_of n with
                 | Some z => if (z <? 100) || (599 <? z) then None else Some z
                 | None => None
                 end
  | _ => None
  end.
Definition optional_headers (v : value) : option (option (list (string * string))) :=
  if is_undefined v then Some None else Some <$> isStringRecord v.
Definition parse_response (parsed : list (string * value)) : option ConnectorToEdgeMessage :=
  requestId ← nonempty_text (own_value "requestId" parsed);
  status ← response_status (own_value "status" parsed);
  body ← text_of (own_value "body" parsed);
  headers ← optional_headers (own_value "headers" parsed);
  Some (http_response requestId status headers body).

Definition parseConnectorToEdgeMessage (text : string) : option ConnectorToEdgeMessage :=
  parsed ← parseRecord text;
  type ← message_type EDGE_PROTOCOL_VERSION parsed;
  if type =s "connector-ready" then
    let runtime := own_value "runtime" parsed in
    if is_undefined runtime then Some (connector_ready None)
    else runtime ← parseConnectorRuntimeIdentity runtime; Some (connector_ready (Some runtime))
  else if negb (type =s "http-response") then None
  else parse_response parsed.

Definition parseLegacyConnectorToEdgeMessage (text : string) : option ConnectorToEdgeMessage :=
  parsed ← parseRecord text;
  type ← message_type LEGACY_EDGE_PROTOCOL_VERSION parsed;
  if type =s "connector-ready" then
    if has_keys parsed ["protocolVersion"; "type"] then Some (connector_ready None) else None
  else if negb (type =s "http-response") then None
  else
    response ← parse_response parsed;
    let allowed := if is_undefined (own_value "headers" parsed) then ["body"; "protocolVersion"; "requestId"; "status"; "type"]
                   else ["body"; "headers"; "protocolVersion"; "requestId"; "status"; "type"] in
    if has_keys parsed allowed then Some response else None.
End Parsers.

(** *** Messages as objects *)
Section Values.
Context `{JN : JsNumber} `{JI : !JsInteger JN}.

Definition int (z : Z) : value := VNumber (of_integer z).
Definition record_value (entries : list (string * string)) : value :=
  VObject true (map (fun e => (e.1, VString e.2)) entries).
Definition principal_value (p : AuthenticatedEdgePrincipal) : value :=
  VObject true ([("subject", VString (subject p)); ("scopes", VArray (map VString (scopes p)))]
    ++ match ownerScope p with Some o => [("ownerScope", VString o)] | None => [] end).
(** [{ ...options.runtimeIdentity, connectionGeneration }]. *)
Definition runtime_value (r : ConnectorRuntimeIdentity) : value :=
  VObject true [("version", int 1); ("connectorInstanceId", VString (connectorInstanceId r));
    ("processStartedAt", VString (processStartedAt r));
    ("catalogContractRevision", VString (catalogContractRevision r)); ("toolSetRevision", VString (toolSetRevision r));
    ("toolCount", int (toolCount r)); ("serverVersion", VString (serverVersion r)); ("nodePid", int (nodePid r));
    ("hostPid", int (hostPid r)); ("connectionGeneration", int (connectionGeneration r))].

(** What the edge sends in a protocol version: requests of version 2 have no principal. *)
Definition edge_message_value (version : Z) (m : EdgeToConnectorMessage) : value :=
  match m with
  | edge_hello => VObject true [("type", VString "edge-hello"); ("protocolVersion", int version)]
  | http_request requestId method path headers body principal =>
      VObject true ([("type", VString "http-request"); ("protocolVersion", int version);
        ("requestId", VString requestId); ("method", VString method); ("path", VString path);
        ("headers", record_value headers); ("body", VString body)]
        ++ if version =? LEGACY_EDGE_PROTOCOL_VERSION then [] else [("principal", principal_value principal)])
  | http_cancel requestId reason =>
      VObject true [("type", VString "http-cancel"); ("protocolVersion", int version);
        ("requestId", VString requestId); ("reason", VString (reason_text reason))]
  end.
(** What a connector sends. *)
Definition connector_message_value (version : Z) (m : ConnectorToEdgeMessage) : value :=
  match m with
  | connector_ready runtime =>
      VObject true ([("type", VString "connector-ready"); ("protocolVersion", int version)]
        ++ match runtime with Some r => [("runtime", runtime_value r)] | None => [] end)
  | http_response requestId status headers body =>
      VObject true ([("type", VString "http-response"); ("protocolVersion", int version);
        ("requestId", VString requestId); ("status", int status)]
        ++ match headers with Some h => [("headers", record_value h)] | None => [] end
        ++ [("body", VString body)])
  end.
End Values.

(** *** Well-formed messages *)
Section Valid.
Context `{EP : EdgePlatform}.

Definition valid_scopes (scopes : list string) : bool :=
  negb (length scopes =? 0)%nat && (length scopes <=? 64)%nat
  && forallb (within_length 256) scopes && bool_decide (NoDup scopes).
Definition valid_principal (p : AuthenticatedEdgePrincipal) : bool :=
  within_length 512 (subject p) && valid_scopes (scopes p)
  && match ownerScope p with Some o => within_length 256 o | None => true end.
Definition valid_runtime (r : ConnectorRuntimeIdentity) : bool :=
  isUuid (connectorInstanceId r) && safe_positive (connectionGeneration r) && isIsoTimestamp (processStartedAt r)
  && isSha256Hex (catalogContractRevision r) && isSha256Hex (toolSetRevision r) && safe_positive (toolCount r)
  && within_length 256 (serverVersion r) && safe_positive (nodePid r) && safe_positive (hostPid r).
Definition valid_edge_message (m : EdgeToConnectorMessage) : bool :=
  match m with
  | edge_hello => true
  | http_request requestId method path _ _ principal =>
      negb (sempty requestId) && isAllowedEdgeRequest method path && valid_principal principal
  | http_cancel requestId _ => negb (sempty requestId)
  end.
Definition valid_connector_message (m : ConnectorToEdgeMessage) : bool :=
  match m with
  | connector_ready runtime => match runtime with Some r => valid_runtime r | None => true end
  | http_response requestId status _ _ => negb (sempty requestId) && (100 <=? status) && (status <=? 599)
  end.
End Valid.

Definition edge_headers (m : EdgeToConnectorMessage) : list (string * string) :=
  match m with http_request _ _ _ headers _ _ => headers | _ => [] end.
Definition connector_headers (m : ConnectorToEdgeMessage) : list (string * string) :=
  match m with http_response _ _ headers _ => default [] headers | _ => [] end.
(** The method arrives in capitals. *)
Definition normal_message (m : EdgeToConnectorMessage) : EdgeToConnectorMessage :=
  match m with
  | http_request requestId method path headers body principal =>
      http_request requestId (toUpperCase method) path headers body principal
  | _ => m
  end.

(** *** Headers, connector URLs and tokens: protocol.ts *)
Definition REQUEST_HEADER_ALLOWLIST : list string :=
  ["accept"; "content-type"; "mcp-protocol-version"; "mcp-session-id"; "origin"; "x-openai-session"; "x-openai-subject"].
Definition LEGACY_REQUEST_HEADER_ALLOWLIST : list string :=
  ["accept"; "authorization"; "content-type"; "mcp-protocol-version"; "mcp-session-id"; "origin"].
Definition RESPONSE_HEADER_ALLOWLIST : list string :=
  ["allow"; "cache-control"; "content-type"; "location"; "mcp-protocol-version"; "mcp-session-id"; "origin";
   "retry-after"; "www-authenticate"].

(** The object made of [headers.entries()]. *)
Definition collectAllowedHeaders (entries : list (string * string)) (allowlist : list string) : list (string * string) :=
  fold_left (fun result e =>
    let normalized := toLowerCase e.1 in
    if includes allowlist normalized then obj_set normalized e.2 result else result) entries [].
Definition collectAllowedRequestHeaders (entries : list (string * string)) : list (string * string) :=
  collectAllowedHeaders entries REQUEST_HEADER_ALLOWLIST.
Definition collectLegacyAllowedRequestHeaders (entries : list (string * string)) : list (string * string) :=
  collectAllowedHeaders entries LEGACY_REQUEST_HEADER_ALLOWLIST.

(** [new Headers()] with [set], which throws on a value that no header can have ([header_value]);
    the names are those of an allow list, in small letters. *)
Section HeaderObjects.
Context (header_value : string -> bool).
Definition headers_set (name val : string) (h : jsmap string) : result exn (jsmap string) :=
  if header_value val then Ok (jm_set h name val) else Err (Native "TypeError").
Fixpoint collect_headers (allowlist : list string) (entries : list (string * string)) (h : jsmap string) : result exn (jsmap string) :=
  match entries with
  | [] => Ok h
  | (name, val) :: rest =>
      let normalized := toLowerCase name in
      h ← (if includes allowlist normalized then headers_set normalized val h else Ok h);
      collect_headers allowlist rest h
  end.
Definition collectAllowedResponseHeaders (headers : option (list (string * string))) : result exn (jsmap string) :=
  match headers with
  | None => Ok []
  | Some entries => collect_headers RESPONSE_HEADER_ALLOWLIST entries []
  end.
End HeaderObjects.

(** What is read of the URL of a connector. *)
Record ConnectorUrl := mkConnectorUrl { c_pathname : string; c_hash : string; c_searchParams : list (string * string) }.
Definition resolveConnectorProtocol (url : ConnectorUrl) (cutoverComplete : bool) : option Z :=
  if negb (c_pathname url =s "/connector") || negb (sempty (c_hash url)) then None else
  let requested := snd <$> find_first (fun e => e.1 =s "protocol") (c_searchParams url) in
  match requested with
  | Some v => if (v =s "3") && (length (c_searchParams url) =? 1)%nat then Some EDGE_PROTOCOL_VERSION else None
  | None => if cutoverComplete then None else Some LEGACY_EDGE_PROTOCOL_VERSION
  end.

Section Tokens.
Context (sha256 : string -> list N).
(** The bytes that differ, or-ed; past the end of the second digest a byte is compared with nothing. *)
Fixpoint digest_difference (supplied expected : list N) : N :=
  match supplied with
  | [] => 0%N
  | b :: rest => N.lor (N.lxor b (default 0%N (head expected))) (digest_difference rest (tail expected))
  end.
Definition connectorTokenMatches (authorizationHeader : option string) (expectedToken : string) : bool :=
  match authorizationHeader with
  | None => false
  | Some h =>
      if negb (startsWith h "Bearer ") then false else
      let suppliedToken := sdrop 7 h in
      if sempty suppliedToken then false
      else (digest_difference (sha256 suppliedToken) (sha256 expectedToken) =? 0)%N
  end.
End Tokens.

(** *** Objects that arrive as they are *)
Section Arrival.
Context `{JN : JsNumber} {JL : JsNumberLaws JN} {JR : JsNumberRead JN} {JRL : JsNumberReadLaws JN JR}.
Context {JI : JsInteger JN} {JIL : JsIntegerLaws JN JI}.

Definition arrives_same (v : value) : Prop := writable v /\ as_json v = Some v.

Lemma same_text s : arrives_same (VString s).
Proof. done. Qed.
Lemma same_int z : arrives_same (int z).
Proof using JIL. pose proof (integer_finite _ _ (integer_of_integer z)) as H. split; cbn; by rewrite H. Qed.
Lemma same_array vs : Forall arrives_same vs -> arrives_same (VArray vs).
Proof.
  intros H. split; [apply writable_array; eapply Forall_impl; [exact H|by intros v []]|]. cbn. do 2 f_equal.
  rewrite <- (map_id vs) at 2. apply map_ext_Forall. eapply Forall_impl; [exact H|]. by intros v [_ ->].
Qed.
Lemma same_object es : own_order es -> Forall (fun e => arrives_same e.2) es -> arrives_same (VObject true es).
Proof.
  intros Ho H. split; [apply writable_object; split; [done|]; eapply Forall_impl; [exact H|by intros v []]|].
  cbn. do 2 f_equal. induction H as [|[k v] es [_ E] H IH]; [done|]. cbn in *. rewrite E. cbn. f_equal.
  apply IH. by inversion Ho.
Qed.
Lemma same_texts ss : arrives_same (VArray (map VString ss)).
Proof. apply same_array, Forall_fmap, Forall_true. intros s. apply same_text. Qed.
Lemma same_record entries : own_order entries -> arrives_same (record_value entries).
Proof.
  intros H. apply same_object; [|apply Forall_fmap, Forall_true; intros; apply same_text].
  eapply own_order_keys; [|exact H]. by rewrite map_map.
Qed.
Lemma arrival v : arrives_same v -> exists t, JSON_stringify v = Ok (Some t) /\ JSON_parse t = Ok v.
Proof using JL JRL.
  intros [Hw Hj]. destruct (writable_text v Hw) as [[t|] Et]; [|apply stringify_none in Et as [_ Et]; congruence].
  destruct (parse_text v t EmptyString (writable_well_formed v Hw) Et) as (w & Ew & Ep); [done..|].
  rewrite sapp_nil_r in Ep. exists t. split; [done|]. congruence.
Qed.
End Arrival.
Create HintDb edge.
#[export] Hint Resolve same_text same_int same_texts same_record : edge.

(** An object with the given keys, in whose entries there is nothing left to find. *)
Ltac same_fields := apply same_object; [apply plain_keys_order; reflexivity|cbn [app]; repeat first [apply Forall_cons_2 | apply Forall_nil_2]; cbn [snd]; auto with edge].

(** Reads the fields of an object that is written out. *)
Ltac read_fields := unfold own_value, own; simpl.

Section Messages.
Context `{JN : JsNumber} {JL : JsNumberLaws JN} {JR : JsNumberRead JN} {JRL : JsNumberReadLaws JN JR}.
Context {JI : JsInteger JN} {JIL : JsIntegerLaws JN JI} {EP : EdgePlatform}.

Lemma same_principal p : arrives_same (principal_value p).
Proof. unfold principal_value. destruct (ownerScope p); same_fields. Qed.
Lemma same_runtime r : arrives_same (runtime_value r).
Proof using JIL. same_fields. Qed.
#[local] Hint Resolve same_principal same_runtime : edge.

Lemma edge_message_same version m : own_order (edge_headers m) -> arrives_same (edge_message_value version m).
Proof using JIL.
  destruct m as [|id me pa h b p|id r]; cbn [edge_headers edge_message_value]; intros H; [same_fields| |same_fields].
  destruct (version =? _); same_fields.
Qed.
Lemma connector_message_same version m : own_order (connector_headers m) -> arrives_same (connector_message_value version m).
Proof using JIL.
  destruct m as [[r|]|id s [h|] b]; cbn [connector_headers connector_message_value default from_option]; intros H; same_fields.
Qed.

(** *** What the parsers make of the fields *)
Lemma version_of z z' : literal_is (LInt z) (int z') = bool_decide (z' = z).
Proof using JIL. cbn. rewrite integer_of_integer. apply bool_decide_ext. naive_solver. Qed.
Lemma positive_of z : isPositiveSafeInteger (int z) = if safe_positive z then Some z else None.
Proof using JIL. cbn. by rewrite integer_of_integer. Qed.
Lemma record_of entries : isStringRecord (record_value entries) = Some entries.
Proof.
  cbn. induction entries as [|[k s] entries IH]; [done|]. cbn. unfold isStringRecord in IH. cbn in IH. by rewrite IH.
Qed.
Lemma bounded_texts_of n ss : mapM (bounded_text n) (map VString ss) = if forallb (within_length n) ss then Some ss else None.
Proof.
  induction ss as [|s ss IH]; [done|]. cbn. destruct (within_length n s); [|done]. cbn. rewrite IH. by destruct (forallb _ ss).
Qed.
Lemma dedup_shorter (ss : list string) : (length (js_dedup ss) <= length ss)%nat.
Proof. induction ss as [|s ss IH]; [done|]. cbn. pose proof (length_filter (fun y => y <> s) (js_dedup ss)). lia. Qed.
Lemma filter_kept (x : string) (ss : list string) : x ∉ ss -> filter (fun y => y <> x) ss = ss.
Proof.
  induction ss as [|s ss IH]; [done|]. rewrite not_elem_of_cons. intros [Hx H].
  rewrite filter_cons_True by done. by rewrite IH.
Qed.
Lemma dedup_same (ss : list string) : length (js_dedup ss) = length ss <-> NoDup ss.
Proof.
  induction ss as [|s ss IH]; [split; [constructor|done]|]. cbn. rewrite NoDup_cons, <- IH.
  pose proof (dedup_shorter ss) as Hs. pose proof (length_filter (fun y => y <> s) (js_dedup ss)) as Hf.
  split.
  - intros H. split; [|lia]. rewrite <- elem_of_js_dedup. intros Hin.
    assert (length (filter (fun y => y <> s) (js_dedup ss)) < length (js_dedup ss))%nat; [|lia].
    eapply length_filter_lt; [exact Hin|]. by intros [].
  - intros [Hn H]. rewrite filter_kept; [lia|]. by rewrite elem_of_js_dedup.
Qed.
Lemma dedup_length (ss : list string) : (length (js_dedup ss) =? length ss)%nat = bool_decide (NoDup ss).
Proof. apply eq_true_iff_eq. rewrite Nat.eqb_eq, bool_decide_eq_true. apply dedup_same. Qed.

Lemma bounded_of n s : bounded_text n (VString s) = if within_length n s then Some s else None.
Proof. done. Qed.
Lemma scopes_of sc : parse_scopes (VArray (map VString sc)) = if valid_scopes sc then Some sc else None.
Proof.
  unfold parse_scopes, valid_scopes. rewrite length_map. destruct (length sc =? 0)%nat; [done|].
  rewrite Nat.ltb_antisym. destruct (length sc <=? 64)%nat; [|done]. cbn [negb orb andb]. rewrite bounded_texts_of.
  destruct (forallb _ sc); [|done]. cbn [mbind option_bind andb]. rewrite dedup_length. by destruct (bool_decide _).
Qed.
#[local] Arguments literal_is : simpl never.
#[local] Arguments int : simpl never.
#[local] Arguments isPositiveSafeInteger : simpl never.
#[local] Arguments checked_text : simpl never.
#[local] Arguments bounded_text : simpl never.
#[local] Arguments within_length : simpl never.
#[local] Arguments parse_scopes : simpl never.
Lemma principal_of p : parseAuthenticatedEdgePrincipal (principal_value p) = if valid_principal p then Some p else None.
Proof.
  destruct p as [su sc [o|]]; unfold parseAuthenticatedEdgePrincipal, principal_value, valid_principal; read_fields;
    rewrite !bounded_of, scopes_of; repeat (case_match; simplify_eq/=; try done).
Qed.
Lemma runtime_of r : parseConnectorRuntimeIdentity (runtime_value r) = if valid_runtime r then Some r else None.
Proof using JIL.
  destruct r as [id g t c ts n v np hp]. unfold parseConnectorRuntimeIdentity, runtime_value, valid_runtime; read_fields.
  rewrite !positive_of, version_of, bounded_of. simpl. unfold checked_text. repeat (case_match; simplify_eq/=; try done).
Qed.
Lemma reason_of r : isCancelReason (VString (reason_text r)) = Some r.
Proof. by destruct r. Qed.
Lemma nonempty_of s : nonempty_text (VString s) = if sempty s then None else Some s.
Proof. done. Qed.
Lemma status_of z : response_status (int z) = if (100 <=? z) && (z <=? 599) then Some z else None.
Proof using JIL.
  unfold int. cbn. rewrite integer_of_integer, Z.ltb_antisym, (Z.ltb_antisym z 599). by destruct (100 <=? z), (z <=? 599).
Qed.
Lemma optional_headers_of (h : option (list (string * string))) :
  optional_headers (match h with Some h => record_value h | None => VUndefined end) = Some h.
Proof. destruct h as [h|]; [|done]. unfold optional_headers. rewrite record_of. done. Qed.
Lemma parsed_record t es : JSON_parse t = Ok (VObject true es) -> parseRecord t = Some es.
Proof. unfold parseRecord. by intros ->. Qed.

#[local] Arguments nonempty_text : simpl never.
#[local] Arguments isCancelReason : simpl never.
#[local] Arguments isStringRecord : simpl never.
#[local] Arguments record_value : simpl never.
#[local] Arguments response_status : simpl never.
#[local] Arguments optional_headers : simpl never.
#[local] Arguments principal_value : simpl never.
#[local] Arguments runtime_value : simpl never.
#[local] Arguments parseAuthenticatedEdgePrincipal : simpl never.
#[local] Arguments parseConnectorRuntimeIdentity : simpl never.
#[local] Arguments isAllowedEdgeRequest : simpl never.

(** [roundtrip] What the edge writes, the connector reads: every message has a text,
    and the text is read back to the same message (its method in capitals) exactly when its
    identifier is not empty, its route is allowed and its principal is well formed. *)
Theorem edge_message_arrives m : own_order (edge_headers m) ->
  exists t, JSON_stringify (edge_message_value EDGE_PROTOCOL_VERSION m) = Ok (Some t)
    /\ parseEdgeToConnectorMessage t = if valid_edge_message m then Some (normal_message m) else None.
Proof using JL JRL JIL.
  intros Ho. destruct (arrival _ (edge_message_same EDGE_PROTOCOL_VERSION m Ho)) as (t & Et & Ep). exists t. split; [done|]. clear Et.
  unfold parseEdgeToConnectorMessage, message_type.
  destruct m as [|id me pa h b p|id r]; apply parsed_record in Ep as ->; read_fields; rewrite version_of; simpl; [done| |].
  - rewrite nonempty_of, record_of, principal_of. by destruct (sempty id), (isAllowedEdgeRequest me pa), (valid_principal p).
  - rewrite nonempty_of, reason_of. by destruct (sempty id).
Qed.

(** [roundtrip] What a connector writes, the edge reads: a text of version 3 is read back to
    the same message exactly when it is well formed, one of version 2 when it also says no
    runtime; neither parser takes a message of the other version. *)
Theorem connector_message_arrives m : own_order (connector_headers m) ->
  (exists t, JSON_stringify (connector_message_value EDGE_PROTOCOL_VERSION m) = Ok (Some t)
     /\ parseConnectorToEdgeMessage t = (if valid_connector_message m then Some m else None)
     /\ parseLegacyConnectorToEdgeMessage t = None)
  /\ (exists t, JSON_stringify (connector_message_value LEGACY_EDGE_PROTOCOL_VERSION m) = Ok (Some t)
     /\ parseConnectorToEdgeMessage t = None
     /\ parseLegacyConnectorToEdgeMessage t
        = match m with
          | connector_ready (Some _) => None
          | _ => if valid_connector_message m then Some m else None
          end).
Proof using JL JRL JIL.
  intros Ho. unfold parseConnectorToEdgeMessage, parseLegacyConnectorToEdgeMessage, message_type, parse_response.
  split; [set (v := EDGE_PROTOCOL_VERSION)|set (v := LEGACY_EDGE_PROTOCOL_VERSION)];
    destruct (arrival _ (connector_message_same v m Ho)) as (t & Et & Ep); exists t; (split; [done|]); subst v;
    clear Et; destruct m as [[r|]|id s [h|] b]; apply parsed_record in Ep as ->; read_fields; rewrite !version_of; simpl;
    rewrite ?runtime_of, ?nonempty_of, ?status_of, ?(optional_headers_of (Some h)), ?(optional_headers_of None);
    try destruct (valid_runtime r); try destruct (sempty id), (100 <=? s), (s <=? 599); done.
Qed.

(** *** What is accepted *)
Lemma bounded_some n v s : bounded_text n v = Some s -> within_length n s = true.
Proof. destruct v; try done. unfold bounded_text. intros H. by step_in H. Qed.
Lemma nonempty_some v s : nonempty_text v = Some s -> sempty s = false.
Proof. destruct v; try done. unfold nonempty_text. intros H. by step_in H. Qed.
Lemma checked_some f v s : checked_text f v = Some s -> f s = true.
Proof. destruct v; try done. unfold checked_text. intros H. by step_in H. Qed.
Lemma positive_some v z : isPositiveSafeInteger v = Some z -> safe_positive z = true.
Proof. destruct v; try done. unfold isPositiveSafeInteger. intros H. by step_in H. Qed.
Lemma status_some v z : response_status v = Some z -> (100 <=? z) && (z <=? 599) = true.
Proof.
  destruct v; try done. unfold response_status. intros H. step_in H.
  match goal with E : _ || _ = false |- _ => apply orb_false_iff in E end. lia.
Qed.
Lemma scopes_some v ss : parse_scopes v = Some ss -> valid_scopes ss = true.
Proof.
  destruct v as [| | | | |vs| |]; try done. unfold parse_scopes, valid_scopes. intros H.
  destruct (_ || _) eqn:E in H; [done|]. apply bind_Some in H as (ss' & Em & H).
  destruct (_ =? _)%nat eqn:E0 in H; simplify_eq/=.
  apply mapM_Some in Em as Hf. apply Forall2_length in Hf as Hl. rewrite <- Hl, <- dedup_length.
  apply orb_false_iff in E as [-> E2]. rewrite Nat.ltb_antisym in E2. apply negb_false_iff in E2 as ->. rewrite E0.
  cbn. rewrite andb_true_r. apply forallb_forall. intros s Hs%list_elem_of_In.
  apply list_elem_of_lookup in Hs as [i Hi]. destruct (Forall2_lookup_r _ _ _ _ _ Hf Hi) as (v & _ & Hv).
  by eapply bounded_some.
Qed.
Lemma principal_some v p : parseAuthenticatedEdgePrincipal v = Some p -> valid_principal p = true.
Proof.
  unfold parseAuthenticatedEdgePrincipal, valid_principal. destruct v; try done. cbn [isRecord mbind option_bind].
  intros H. case_hyp H; [done|]. repeat (apply bind_Some in H as (? & ? & H)).
  assert (valid_scopes (scopes p) = true /\ within_length 512 (subject p) = true) as [-> ->].
  { case_hyp H; [|apply bind_Some in H as (? & ? & H)]; simplify_eq/=; eauto using scopes_some, bounded_some. }
  cbn. case_hyp H; [by simplify_eq|]. apply bind_Some in H as (? & ? & H). simplify_eq/=. by eapply bounded_some.
Qed.
Lemma runtime_some v r : parseConnectorRuntimeIdentity v = Some r -> valid_runtime r = true.
Proof.
  unfold parseConnectorRuntimeIdentity, valid_runtime. destruct v; try done. cbn [isRecord mbind option_bind].
  intros H. do 2 (case_hyp H; [done|]). repeat (apply bind_Some in H as (? & ? & H)). injection H as <-.
  cbn [connectorInstanceId connectionGeneration processStartedAt catalogContractRevision toolSetRevision toolCount serverVersion nodePid hostPid].
  rewrite !andb_true_iff. split_and!;
    lazymatch goal with
    | |- within_length _ _ = true => eapply bounded_some; eassumption
    | |- safe_positive _ = true => eapply positive_some; eassumption
    | H : checked_text ?f _ = Some ?x |- ?f ?x = true => exact (checked_some _ _ _ H)
    end.
Qed.
Lemma upper_idem s : toUpperCase (toUpperCase s) = toUpperCase s.
Proof.
  unfold toUpperCase. induction s as [|c s IH]; [done|]. cbn. rewrite IH. f_equal.
  destruct c as [[] [] [] [] [] [] [] []]; reflexivity.
Qed.
Lemma allowed_upper me pa : isAllowedEdgeRequest (toUpperCase me) pa = isAllowedEdgeRequest me pa.
Proof. unfold isAllowedEdgeRequest. by rewrite upper_idem. Qed.
Lemma response_some es m : parse_response es = Some m -> valid_connector_message m = true.
Proof.
  unfold parse_response. intros H. repeat (apply bind_Some in H as (? & ? & H)). simplify_eq/=.
  apply nonempty_some in H0 as ->. eapply status_some in H1 as E. by rewrite <- andb_assoc, E.
Qed.

Lemma edge_parsed_valid t m : parseEdgeToConnectorMessage t = Some m -> valid_edge_message m = true /\ normal_message m = m.
Proof.
  intros H. unfold parseEdgeToConnectorMessage in H. do 2 (apply bind_Some in H as (? & _ & H)).
  case_hyp H; [by simplify_eq|]. case_hyp H.
  + apply bind_Some in H as (? & ?%nonempty_some & H). apply bind_Some in H as (? & ? & H). simplify_eq/=. by rewrite H0.
  + case_hyp H; [done|]. apply bind_Some in H as (id & ?%nonempty_some & H).
    apply bind_Some in H as (me & _ & H). apply bind_Some in H as (pa & _ & H).
    destruct (isAllowedEdgeRequest me pa) eqn:Ea; [|done]. do 2 (apply bind_Some in H as (? & _ & H)).
    apply bind_Some in H as (p & ?%principal_some & H). simplify_eq/=. rewrite allowed_upper, upper_idem, Ea.
    split; [|done]. by apply andb_true_intro; split; [rewrite H0|].
Qed.

(** [type] Nothing else gets in: whatever the text, a message that a parser takes is well
    formed; in particular a request names an allowed route in capitals and a principal with
    one to 64 distinct scopes. *)
Theorem accepted_messages_valid t :
  (forall m, parseEdgeToConnectorMessage t = Some m -> valid_edge_message m = true /\ normal_message m = m)
  /\ (forall m, parseConnectorToEdgeMessage t = Some m \/ parseLegacyConnectorToEdgeMessage t = Some m ->
        valid_connector_message m = true).
Proof.
  split.
  - apply edge_parsed_valid.
  - intros m [H|H]; [unfold parseConnectorToEdgeMessage in H|unfold parseLegacyConnectorToEdgeMessage in H];
      do 2 (apply bind_Some in H as (? & _ & H)); case_hyp H.
    + case_hyp H; [by simplify_eq|]. apply bind_Some in H as (? & ?%runtime_some & H). by simplify_eq/=.
    + case_hyp H; [done|]. by eapply response_some.
    + case_hyp H; by simplify_eq.
    + case_hyp H; [done|]. apply bind_Some in H as (? & ?%response_some & H). case_hyp H; by simplify_eq.
Qed.
End Messages.

(** *** Headers that are passed on *)
Lemma obj_set_own_order {A} k (a : A) es : index_of k = None -> own_order es -> own_order (obj_set k a es).
Proof.
  intros Hk. unfold own_order. assert (Hb : forall x, key_before k x = false) by (intros x; unfold key_before; by rewrite Hk).
  induction 1 as [|[k' b] es Hs IH Hf]; cbn; [repeat constructor|]. rewrite Hb.
  destruct (String.eqb_spec k k') as [->|Hne]; constructor; try done.
  clear IH Hs. induction Hf as [|[k2 c] es H Hf IH]; cbn; [repeat constructor; done|]. rewrite Hb.
  destruct (String.eqb_spec k k2) as [->|]; constructor; try done.
Qed.
Lemma obj_set_keys {A} k (a : A) es x : x ∈ map fst (obj_set k a es) -> x = k \/ x ∈ map fst es.
Proof.
  induction es as [|[k' b] es IH]; cbn; [by intros ->%list_elem_of_singleton; left|].
  destruct (String.eqb_spec k k') as [->|]; [by right|]. destruct (key_before k k'); cbn; rewrite !elem_of_cons; naive_solver.
Qed.

Lemma collected_headers allowlist entries : forallb (fun k => bool_decide (index_of k = None)) allowlist = true ->
  own_order (collectAllowedHeaders entries allowlist)
  /\ forall k, k ∈ map fst (collectAllowedHeaders entries allowlist) -> k ∈ allowlist.
Proof.
  intros Ha. unfold collectAllowedHeaders.
  assert (H : own_order (@nil (string * string)) /\ forall k, k ∈ map fst (@nil (string * string)) -> k ∈ allowlist)
    by (split; [constructor|intros k H; by apply elem_of_nil in H]).
  revert H. generalize (@nil (string * string)) as acc.
  induction entries as [|e entries IH]; intros acc [Ho Hk]; [done|]. cbn [fold_left]. apply IH.
  destruct (includes allowlist _) eqn:E; [|done]. apply includes_spec in E. split.
  - apply obj_set_own_order; [|done]. rewrite forallb_forall in Ha. apply list_elem_of_In, Ha in E. by apply bool_decide_eq_true in E.
  - intros k [->|H]%obj_set_keys; auto.
Qed.
Lemma request_headers_own entries : own_order (collectAllowedRequestHeaders entries).
Proof. by apply collected_headers. Qed.
Lemma legacy_headers_own entries : own_order (collectLegacyAllowedRequestHeaders entries).
Proof. by apply collected_headers. Qed.
(** Credentials of the client never reach a connector of the current version. *)
Lemma request_headers_safe entries k :
  k ∈ map fst (collectAllowedRequestHeaders entries) -> k ∈ REQUEST_HEADER_ALLOWLIST /\ k <> "authorization" /\ k <> "cookie".
Proof.
  intros H. apply collected_headers in H; [|done]. split; [done|].
  split; intros ->; by apply (bool_decide_eq_true_2 _) in H.
Qed.

(** *** Tokens *)
Lemma digest_difference_zero supplied expected : length supplied = length expected ->
  digest_difference supplied expected = 0%N <-> supplied = expected.
Proof.
  revert expected. induction supplied as [|b supplied IH]; intros [|c expected] Hl; try done. cbn.
  rewrite N.lor_eq_0_iff, N.lxor_eq_0_iff, IH by (cbn in Hl; lia). naive_solver.
Qed.
(** [functional] An authorization header is accepted exactly when it is [Bearer] and a text that is
    not empty and whose digest is that of the expected token. *)
Theorem connector_token_exact (sha256 : string -> list N) (Hl : forall s t, length (sha256 s) = length (sha256 t)) h expectedToken :
  connectorTokenMatches sha256 h expectedToken = true
  <-> exists t, h = Some ("Bearer " +:+ t) /\ t <> EmptyString /\ sha256 t = sha256 expectedToken.
Proof.
  unfold connectorTokenMatches. destruct h as [h|]; [|split; [done|by intros (? & ? & _)]].
  destruct (startsWith h "Bearer ") eqn:Es; cbn [negb].
  - apply startsWith_spec in Es as [t ->]. change (sdrop 7 ("Bearer " +:+ t)) with t.
    destruct (sempty t) eqn:Et; [apply sempty_true in Et as ->; split; [done|]; intros (t & [= <-] & ? & _); done|].
    rewrite N.eqb_eq, digest_difference_zero by done. split; [intros H; exists t; split_and!; [done| |done]; by intros ->|].
    by intros (t' & [= <-] & _ & H).
  - split; [done|]. intros (t & Eh & _). assert (startsWith h "Bearer " = true) as Ht; [|by rewrite Es in Ht].
    apply startsWith_spec. exists t. congruence.
Qed.

(** *** A call of a tool through the edge *)
Module Trial.
#[local] Instance platform : EdgePlatform := {|
  new_URL_pathname := fun p => Some p;
  Date_parse := fun s => if s =s "2024-05-01T10:00:00.000Z" then Some 1714557600000 else None;
|}.
Definition caller : AuthenticatedEdgePrincipal := mkPrincipal "owner" ["workspaces:read"; "workspaces:write"] None.
Definition call : EdgeToConnectorMessage :=
  http_request "id-1" "POST" "/mcp" (collectAllowedRequestHeaders [("Accept", "*/*"); ("Cookie", "a=b"); ("Origin", "x")])
    "{}" caller.
Definition revision (c : ascii) : string := String.concat EmptyString (repeat (str1 c) 64).
Definition runtime : ConnectorRuntimeIdentity :=
  mkRuntime "123e4567-e89b-42d3-a456-426614174000" 1 "2024-05-01T10:00:00.000Z" (revision "a") (revision "b") 12 "1.0.0" 100 99.
Definition ready : ConnectorToEdgeMessage := connector_ready (Some runtime).

Example call_headers : edge_headers call = [("accept", "*/*"); ("origin", "x")].
Proof. vm_compute. reflexivity. Qed.
Lemma edge_message_arrives_witness :
  exists t, JSON_stringify (JN := whole_numbers) (edge_message_value EDGE_PROTOCOL_VERSION call) = Ok (Some t)
    /\ parseEdgeToConnectorMessage t = Some call.
Proof.
  destruct (edge_message_arrives (JN := whole_numbers) call) as (t & Et & Ep); [apply request_headers_own|].
  exists t. split; [exact Et|]. rewrite Ep. vm_compute. reflexivity.
Defined.
Lemma connector_message_arrives_witness :
  exists t, JSON_stringify (JN := whole_numbers) (connector_message_value EDGE_PROTOCOL_VERSION ready) = Ok (Some t)
    /\ parseConnectorToEdgeMessage t = Some ready /\ parseLegacyConnectorToEdgeMessage t = None.
Proof.
  destruct (connector_message_arrives (JN := whole_numbers) ready) as [(t & Et & Ep & El) _]; [constructor|].
  exists t. split; [exact Et|]. split; [rewrite Ep; vm_compute; reflexivity|exact El].
Defined.
Lemma connector_token_exact_witness :
  connectorTokenMatches (fun s => [char_code (default NUL (String.get 0 s))]) (Some "Bearer secret") "secret" = true.
Proof. apply (connector_token_exact (fun s => [char_code (default NUL (String.get 0 s))])); [done|]. by exists "secret"%string. Defined.
End Trial.
End EdgeProtocol.
