(* ===== verification/EdgeRollout.v ===== *)
(** Contract revisions at the edge: services/mcp-edge-gateway/src/contract-compatibility.ts, and the choice
    between connectors: services/mcp-edge-gateway/src/connector-handover.ts.

    A revision is active, a second may be the candidate or the one that was active before; the state
    is kept in storage and read back as a value.  [EXPECTED] is the revision of the build, which
    belongs to the generated tool manifest; the collation of [localeCompare] is a parameter. *)
From S2P Require Import Prelude Errors JsString JsRegex JsSort Json JsonText Zod EdgeProtocol.
Import EdgeProtocol.
Open Scope Z_scope.

Module EdgeRollout.

(** *** The state *)
Record McpContractRolloutStateV1 := mkState {
  activeContractRevision : string;
  candidateContractRevision : option string;
  previousContractRevision : option string;
  preparedAt : option string;
  promotedAt : option string;
}.
#[export] Instance state_eq_dec : EqDecision McpContractRolloutStateV1.
Proof. solve_decision. Defined.

Inductive PromotionCode := build_contract_mismatch | active_contract_mismatch | candidate_contract_mismatch | candidate_not_ready.
Inductive RollbackCode := r_build_contract_mismatch | r_active_contract_mismatch | previous_contract_mismatch | previous_not_ready.
(** [Ok (state, already)] or the code. *)
Notation PromotionResult := (result PromotionCode (McpContractRolloutStateV1 * bool)).
Notation RollbackResult := (result RollbackCode (McpContractRolloutStateV1 * bool)).

(** [/^[0-9a-f]{64}$/u] *)
Definition CONTRACT_REVISION_PATTERN : re := seqs [Bol; Rep true 64 (Some 64%nat) (oneof hex); Eol].
Definition isMcpContractRevision (revision : string) : bool := test CONTRACT_REVISION_PATTERN revision.
Definition is_revision (revision : option string) : bool :=
  match revision with Some r => isMcpContractRevision r | None => false end.

(** A revision that is not the active one. *)
Definition other_revision (active : string) (revision : option string) : bool :=
  match revision with Some r => isMcpContractRevision r && negb (r =s active) | None => true end.
Definition valid_state (s : McpContractRolloutStateV1) : bool :=
  isMcpContractRevision (activeContractRevision s)
  && other_revision (activeContractRevision s) (candidateContractRevision s)
  && other_revision (activeContractRevision s) (previousContractRevision s).

Section Stored.
Context `{JN : JsNumber} `{JI : !JsInteger JN}.
(** What is in storage: nothing, a state, or something else.  The times are kept as they are; nothing reads them. *)
Definition optional_text (v : value) : option (option string) :=
  match v with VUndefined => Some None | VString s => Some (Some s) | _ => None end.
Definition kept_text (v : value) : option string := match v with VString s => Some s | _ => None end.
Definition isMcpContractRolloutState (v : value) : option McpContractRolloutStateV1 :=
  match v with
  | VObject _ es =>
      if negb (literal_is (LInt 1) (own_value "version" es)) then None else
      active ← text_of (own_value "activeContractRevision" es);
      candidate ← optional_text (own_value "candidateContractRevision" es);
      previous ← optional_text (own_value "previousContractRevision" es);
      let s := mkState active candidate previous (kept_text (own_value "preparedAt" es)) (kept_text (own_value "promotedAt" es)) in
      if valid_state s then Some s else None
  | _ => None
  end.
Definition optional_entry (key : string) (s : option string) : list (string * value) :=
  match s with Some s => [(key, VString s)] | None => [] end.
(** A state as the object that is written to storage. *)
Definition state_value (s : McpContractRolloutStateV1) : value :=
  VObject true ([("version", int 1); ("activeContractRevision", VString (activeContractRevision s))]
    ++ optional_entry "candidateContractRevision" (candidateContractRevision s)
    ++ optional_entry "previousContractRevision" (previousContractRevision s)
    ++ optional_entry "preparedAt" (preparedAt s) ++ optional_entry "promotedAt" (promotedAt s)).
End Stored.

Section Build.
Context (EXPECTED : string).

(** [current] is the state that was read, when it is one. *)
Definition reconcileMcpContractRolloutState (current : option McpContractRolloutStateV1)
    (observedRuntimeRevision : option string) (now : string) : McpContractRolloutStateV1 * bool :=
  match current with
  | Some s =>
      if bool_decide (candidateContractRevision s <> None) || (activeContractRevision s =s EXPECTED) then (s, false)
      else (mkState (activeContractRevision s) (Some EXPECTED) (previousContractRevision s) (Some now) (promotedAt s), true)
  | None =>
      match observedRuntimeRevision with
      | Some r =>
          if isMcpContractRevision r && negb (r =s EXPECTED) then (mkState r (Some EXPECTED) None (Some now) None, true)
          else (mkState EXPECTED None None None None, true)
      | None => (mkState EXPECTED None None None None, true)
      end
  end.

Definition isExpectedContractPrepared (s : McpContractRolloutStateV1) : bool :=
  (activeContractRevision s =s EXPECTED) || bool_decide (candidateContractRevision s = Some EXPECTED).

Definition isConnectorContractCompatible (runtime : option ConnectorRuntimeIdentity) (s : McpContractRolloutStateV1) : bool :=
  match runtime with
  | None => false
  | Some r =>
      let revision := catalogContractRevision r in
      if negb (isMcpContractRevision revision) then false
      else (revision =s activeContractRevision s) || bool_decide (candidateContractRevision s = Some revision)
  end.

Definition promoteMcpContractRolloutState (s : McpContractRolloutStateV1) (expectedActive expectedCandidate : string)
    (candidateReadyRevision : option string) (now : string) : PromotionResult :=
  if negb (expectedCandidate =s EXPECTED) then Err build_contract_mismatch
  else if (activeContractRevision s =s expectedCandidate) && bool_decide (candidateContractRevision s = None) then Ok (s, true)
  else if negb (activeContractRevision s =s expectedActive) then Err active_contract_mismatch
  else if negb (bool_decide (candidateContractRevision s = Some expectedCandidate)) then Err candidate_contract_mismatch
  else if negb (bool_decide (candidateReadyRevision = Some expectedCandidate)) then Err candidate_not_ready
  else Ok (mkState expectedCandidate None (Some (activeContractRevision s)) None (Some now), false).

Definition rollbackMcpContractRolloutState (s : McpContractRolloutStateV1) (expectedActive expectedPrevious : string)
    (previousReadyRevision : option string) (now : string) : RollbackResult :=
  if negb (expectedActive =s EXPECTED) then Err r_build_contract_mismatch
  else if (activeContractRevision s =s expectedPrevious) && bool_decide (candidateContractRevision s = Some expectedActive)
  then Ok (s, true)
  else if negb (activeContractRevision s =s expectedActive) then Err r_active_contract_mismatch
  else if negb (bool_decide (previousContractRevision s = Some expectedPrevious)) then Err previous_contract_mismatch
  else if negb (bool_decide (previousReadyRevision = Some expectedPrevious)) then Err previous_not_ready
  else Ok (mkState expectedPrevious (Some expectedActive) None (Some now) None, false).
End Build.

(** *** Which of two connectors *)
Section Handover.
Context `{EP : EdgePlatform} (localeCompare : string -> string -> Z).

Definition started (r : option ConnectorRuntimeIdentity) : option Z := Date_parse (from_option processStartedAt EmptyString r).
Definition isPreferredConnectorRuntime (candidate current : option ConnectorRuntimeIdentity) : bool :=
  match started candidate, started current with
  | Some a, Some b =>
      if negb (a =? b) then b <? a
      else
        let candidateId := from_option connectorInstanceId EmptyString candidate in
        let currentId := from_option connectorInstanceId EmptyString current in
        if candidateId =s currentId
        then from_option connectionGeneration 0 current <? from_option connectionGeneration 0 candidate
        else 0 <? localeCompare candidateId currentId
  | Some _, None => true
  | None, _ => false
  end.
End Handover.

Definition selectPreferredConnectorProtocol (v3Ready legacyReady : bool) : option Z :=
  if v3Ready then Some EDGE_PROTOCOL_VERSION else if legacyReady then Some LEGACY_EDGE_PROTOCOL_VERSION else None.

(** *** Storage *)
Section StoredStates.
Context `{JN : JsNumber} {JI : JsInteger JN} {JIL : JsIntegerLaws JN JI}.
#[local] Arguments literal_is : simpl never.
#[local] Arguments int : simpl never.
#[local] Arguments valid_state : simpl never.

(** A state that was written is read back exactly when it is valid. *)
Lemma state_read_back s : isMcpContractRolloutState (state_value s) = if valid_state s then Some s else None.
Proof using JIL.
  destruct s as [a [c|] [p|] [t|] [u|]]; unfold isMcpContractRolloutState, state_value; read_fields; by rewrite version_of.
Qed.
Lemma stored_state_valid v s : isMcpContractRolloutState v = Some s -> valid_state s = true.
Proof.
  destruct v as [| | | | | |p es|]; try done. unfold isMcpContractRolloutState. intros H. destruct (negb _); [done|].
  do 3 (apply bind_Some in H as (? & _ & H)). cbv zeta in H. destruct (valid_state _) eqn:E; by simplify_eq.
Qed.
End StoredStates.

Section Rollout.
Context (EXPECTED : string) (HE : isMcpContractRevision EXPECTED = true).
Notation promote := (promoteMcpContractRolloutState EXPECTED).
Notation rollback := (rollbackMcpContractRolloutState EXPECTED).
Notation reconcile := (reconcileMcpContractRolloutState EXPECTED).
#[local] Arguments isMcpContractRevision : simpl never.

Lemma other_revision_spec a o : other_revision a o = true <->
  forall r, o = Some r -> isMcpContractRevision r = true /\ r <> a.
Proof.
  unfold other_revision. destruct o as [r|]; [|by split]. rewrite andb_true_iff, negb_true_iff, String.eqb_neq.
  split; [by intros H ? [= <-]|]. intros H. by apply H.
Qed.
Lemma valid_state_spec s : valid_state s = true <->
  isMcpContractRevision (activeContractRevision s) = true
  /\ (forall r, candidateContractRevision s = Some r \/ previousContractRevision s = Some r ->
        isMcpContractRevision r = true /\ r <> activeContractRevision s).
Proof.
  unfold valid_state. rewrite !andb_true_iff, !other_revision_spec. split.
  - intros [[Hv Hc] Hp]. split; [done|]. intros r [H|H]; auto.
  - intros [Hv H]. split_and!; auto.
Qed.

Lemma reconciled_state current observed now : (forall s, current = Some s -> valid_state s = true) ->
  valid_state (reconcile current observed now).1 = true
  /\ (candidateContractRevision (reconcile current observed now).1 <> None
      \/ activeContractRevision (reconcile current observed now).1 = EXPECTED).
Proof using HE.
  intros Hc. unfold reconcile. destruct current as [c|].
  - specialize (Hc c eq_refl). destruct (_ || _) eqn:E; cbn [fst].
    + apply orb_true_iff in E as [E%bool_decide_eq_true|E%String.eqb_eq]; auto.
    + apply orb_false_iff in E as [Ec Ea]. split; [|by left].
      apply valid_state_spec in Hc as [Hv Ho]. apply valid_state_spec. cbn. apply String.eqb_neq in Ea.
      split; [done|]. intros r [[= <-]|H]; [by split|auto].
  - destruct observed as [r|]; [destruct (_ && _) eqn:E|]; cbn [fst]; (split; [apply valid_state_spec; cbn|auto]); [|naive_solver..].
    apply andb_true_iff in E as [E Hn]. apply negb_true_iff, String.eqb_neq in Hn. split; [done|]. naive_solver.
Qed.
(** The state after a promotion or a rollback: valid, and with a candidate or the build's own revision. *)
Lemma promoted_state s expectedActive other ready now s' b : valid_state s = true ->
  promote s expectedActive other ready now = Ok (s', b) ->
  (b = true -> s' = s) /\ valid_state s' = true
  /\ (candidateContractRevision s' <> None \/ activeContractRevision s' = EXPECTED).
Proof using HE.
  intros Hs H. unfold promote in H. pose proof (proj1 (valid_state_spec s) Hs) as [Hv Ho].
  step_in H; repeat match goal with H : negb _ = false |- _ => apply negb_false_iff in H end;
    rewrite ?andb_true_iff, ?String.eqb_eq, ?bool_decide_eq_true in *; subst.
  - split_and!; [done..|]. right. tauto.
  - split_and!; [done| |by right]. apply valid_state_spec. cbn. split; [done|]. intros r [?|[= <-]]; [done|].
    split; [done|]. destruct (Ho EXPECTED); [by left|]. congruence.
Qed.
Lemma rolled_back_state s expectedActive other ready now s' b : valid_state s = true ->
  rollback s expectedActive other ready now = Ok (s', b) ->
  (b = true -> s' = s) /\ valid_state s' = true
  /\ (candidateContractRevision s' <> None \/ activeContractRevision s' = EXPECTED).
Proof using HE.
  intros Hs H. unfold rollback in H. pose proof (proj1 (valid_state_spec s) Hs) as [Hv Ho].
  step_in H; repeat match goal with H : negb _ = false |- _ => apply negb_false_iff in H end;
    rewrite ?andb_true_iff, ?String.eqb_eq, ?bool_decide_eq_true in *; subst.
  - split_and!; [done..|]. left. match goal with H : _ /\ _ |- _ => destruct H as [_ ->] end. done.
  - destruct (Ho other) as [Hr Hn]; [by right|]. split_and!; [done| |by left]. apply valid_state_spec. cbn.
    split; [done|]. intros r [[= <-]|?]; [|done]. split; [done|congruence].
Qed.

(** [invariant] Whatever state was kept, the states that starting, promoting and rolling back
    leave are valid, so that they are recognised in storage the next time: the active revision
    is a revision, and neither the candidate nor the previous one is the active one.
    Starting leaves the active revision of a valid state alone. *)
Theorem rollout_states_valid current observed s now expectedActive other ready :
  (forall s, current = Some s -> valid_state s = true) -> valid_state s = true ->
  valid_state (reconcile current observed now).1 = true
  /\ (forall s', current = Some s' -> activeContractRevision (reconcile current observed now).1 = activeContractRevision s')
  /\ (forall s' b, promote s expectedActive other ready now = Ok (s', b) -> valid_state s' = true)
  /\ (forall s' b, rollback s expectedActive other ready now = Ok (s', b) -> valid_state s' = true).
Proof using HE.
  intros Hc Hs. split_and!.
  - by apply reconciled_state.
  - intros s' ->. unfold reconcile. by destruct (_ || _).
  - intros s' b H. by apply (promoted_state s expectedActive other ready now s' b).
  - intros s' b H. by apply (rolled_back_state s expectedActive other ready now s' b).
Qed.

(** [functional] A promotion changes the state exactly when the build's own revision is asked for, the active
    revision is the one the caller expects, this revision is the prepared candidate and the
    connector that would serve it is ready; it is a repetition exactly when the revision is
    active and nothing is prepared.  A rollback to the revision that was active before
    restores the active revision and the candidate, and the same promotion can be made again. *)
Theorem promotion_exact s a c ready now (Hv : valid_state s = true) :
  (forall s', promote s a c ready now = Ok (s', false) <->
     c = EXPECTED /\ a = activeContractRevision s /\ candidateContractRevision s = Some c /\ ready = Some c
     /\ s' = mkState c None (Some a) None (Some now))
  /\ (forall s', promote s a c ready now = Ok (s', true) <->
     s' = s /\ c = EXPECTED /\ activeContractRevision s = c /\ candidateContractRevision s = None)
  /\ (forall s' later, promote s a c ready now = Ok (s', false) ->
     exists s'', rollback s' c a (Some a) later = Ok (s'', false)
       /\ activeContractRevision s'' = activeContractRevision s
       /\ candidateContractRevision s'' = candidateContractRevision s
       /\ promote s'' a c ready now = Ok (s', false)).
Proof.
  clear HE. assert (Hp : forall s', promote s a c ready now = Ok (s', false) <->
     c = EXPECTED /\ a = activeContractRevision s /\ candidateContractRevision s = Some c /\ ready = Some c
     /\ s' = mkState c None (Some a) None (Some now)).
  { intros s'. unfold promote. destruct (String.eqb_spec c EXPECTED) as [->|]; cbn [negb]; [|naive_solver].
    destruct (candidateContractRevision s) as [d|] eqn:Ed.
    - rewrite bool_decide_false, andb_false_r by done. destruct (String.eqb_spec (activeContractRevision s) a) as [<-|]; cbn [negb]; [|naive_solver].
      repeat case_bool_decide; naive_solver.
    - rewrite bool_decide_true, andb_true_r by done. repeat (case_match; try done); naive_solver. }
  split_and!; [exact Hp| |].
  - intros s'. unfold promote. destruct (String.eqb_spec c EXPECTED) as [->|]; cbn [negb]; [|naive_solver].
    destruct (String.eqb_spec (activeContractRevision s) EXPECTED) as [Ha|Ha]; cbn [andb];
      [|split; [intros H; repeat case_match; simplify_eq|naive_solver]].
    destruct (candidateContractRevision s) as [d|] eqn:Ed; [|rewrite bool_decide_true by done; naive_solver].
    rewrite bool_decide_false by done. split; [intros H; repeat case_match; simplify_eq|naive_solver].
  - intros s' later (-> & -> & Ec & -> & ->)%Hp. apply valid_state_spec in Hv as [_ Ho].
    destruct (Ho EXPECTED) as [_ Hn]; [by left|]. unfold rollback, promote. cbn.
    rewrite !String.eqb_refl. cbn. rewrite (bool_decide_false (None = Some EXPECTED)), andb_false_r by done.
    rewrite bool_decide_true by done. cbn. eexists. split; [done|]. cbn. rewrite !String.eqb_refl. cbn.
    rewrite (proj2 (String.eqb_neq _ _)) by congruence. cbn. by rewrite bool_decide_true.
Qed.

(** A candidate of another build is not replaced: neither operation of this build moves the state. *)
Lemma foreign_candidate_kept s observed now a c ready : candidateContractRevision s = Some c -> c <> EXPECTED ->
  activeContractRevision s <> EXPECTED ->
  reconcile (Some s) observed now = (s, false)
  /\ (forall d, is_ok (promote s a d ready now) = false) /\ (forall p, is_ok (rollback s a p ready now) = false).
Proof.
  intros Hc Hn Ha. unfold reconcile, promote, rollback. rewrite Hc. split_and!; [done|intros d|intros p].
  - destruct (String.eqb_spec d EXPECTED) as [->|]; [|done]. rewrite bool_decide_false, andb_false_r by done. cbn.
    rewrite (bool_decide_false (Some c = Some EXPECTED)) by congruence. by destruct (_ =s a).
  - destruct (String.eqb_spec a EXPECTED) as [->|]; [|done]. cbn. rewrite bool_decide_false by congruence.
    rewrite andb_false_r. by rewrite (proj2 (String.eqb_neq _ _)).
Qed.
End Rollout.

(** *** The order of connectors *)
Section Order.
Context `{EP : EdgePlatform} (localeCompare : string -> string -> Z) {LC : Consistent localeCompare}.
Notation preferred := (isPreferredConnectorRuntime localeCompare).

Lemma preferred_irrefl r : preferred r r = false.
Proof. unfold preferred. destruct (started r); [|done]. rewrite Z.eqb_refl, String.eqb_refl. cbn. apply Z.ltb_irrefl. Qed.

Lemma preferred_trans a b c : preferred a b = true -> preferred b c = true -> preferred a c = true.
Proof using LC.
  unfold preferred. destruct (started a) as [x|]; [|done]. destruct (started b) as [y|]; [|done].
  destruct (started c) as [z|]; [|done].
  destruct (Z.eqb_spec x y) as [->|Hxy], (Z.eqb_spec y z) as [->|Hyz]; rewrite ?Z.eqb_refl; cbn [negb].
  2: { by intros _ H. }
  2: { intros H _. by rewrite (proj2 (Z.eqb_neq x z)). }
  2: { rewrite !Z.ltb_lt. intros. rewrite (proj2 (Z.eqb_neq x z)) by lia. apply Z.ltb_lt. lia. }
  set (i := from_option connectorInstanceId EmptyString a). set (j := from_option connectorInstanceId EmptyString b).
  set (k := from_option connectorInstanceId EmptyString c).
  destruct (String.eqb_spec i j) as [->|Hij], (String.eqb_spec j k) as [->|Hjk]; rewrite ?String.eqb_refl; rewrite !Z.ltb_lt.
  - lia.
  - done.
  - intros H _. rewrite (proj2 (String.eqb_neq i k)) by done. by apply Z.ltb_lt.
  - intros H1 H2. destruct (String.eqb_spec i k) as [->|Hik].
    + apply (compare_total localeCompare) in H2. lia.
    + apply Z.ltb_lt. destruct (Z.lt_ge_cases 0 (localeCompare i k)) as [|Hle]; [done|].
      apply (compare_total localeCompare) in H2. pose proof (compare_trans localeCompare _ _ _ Hle H2). lia.
Qed.
End Order.

(** *** A new build *)
Module Trial.
Definition old : string := EdgeProtocol.Trial.revision "0".
Definition new : string := EdgeProtocol.Trial.revision "1".
Definition prepared : McpContractRolloutStateV1 := mkState old (Some new) None (Some "t1"%string) None.

Lemma rollout_states_valid_witness :
  valid_state (reconcileMcpContractRolloutState new (Some (mkState old None None None None)) None "t1").1 = true
  /\ forall s' b, promoteMcpContractRolloutState new prepared old new (Some new) "t2" = Ok (s', b) -> valid_state s' = true.
Proof.
  destruct (rollout_states_valid new ltac:(vm_compute; reflexivity) (Some (mkState old None None None None)) None prepared "t1" old new (Some new))
    as (H & _); [intros s [= <-]; vm_compute; reflexivity|vm_compute; reflexivity|]. split; [exact H|].
  destruct (rollout_states_valid new ltac:(vm_compute; reflexivity) None None prepared "t2" old new (Some new))
    as (_ & _ & Hp & _); [done|vm_compute; reflexivity|exact Hp].
Defined.
Lemma promotion_exact_witness :
  promoteMcpContractRolloutState new prepared old new (Some new) "t2" = Ok (mkState new None (Some old) None (Some "t2"%string), false).
Proof.
  apply (promotion_exact new prepared old new (Some new) "t2"); [vm_compute; reflexivity|]. split_and!; reflexivity.
Defined.
End Trial.
End EdgeRollout.
