(* ===== verification/EdgeTelemetry.v ===== *)
(** What the edge remembers of its connectors: services/mcp-edge-gateway/src/connector-telemetry.ts, and what
    its health check shows: services/mcp-edge-gateway/src/health.ts.

    The store applies one event after the other ([ConnectorTelemetryStore.record] waits for the queue), so
    that what is kept is the fold of the events ([recorded]). *)
From S2P Require Import Prelude Errors JsString Json JsonText Zod EdgeProtocol.
Import EdgeProtocol.
Open Scope Z_scope.

Module EdgeTelemetry.

Inductive DisconnectSource := source_close | source_error.

Record EdgeRuntimeTelemetryV1 := mkTelemetry {
  t_connectorInstanceId : option string;
  t_connectionGeneration : option Z;
  t_processStartedAt : option string;
  t_catalogContractRevision : option string;
  t_toolSetRevision : option string;
  t_toolCount : option Z;
  t_serverVersion : option string;
  t_nodePid : option Z;
  t_hostPid : option Z;
  readySince : option string;
  reconnectGraceStartedAt : option string;
  reconnectGraceGeneration : option Z;
  lastDisconnectedAt : option string;
  lastDisconnectedGeneration : option Z;
  lastDisconnectWasReady : option bool;
  lastDisconnectSource : option DisconnectSource;
  lastDisconnectCode : option Z;
  lastDisconnectWasClean : option bool;
  lastRequestAt : option string;
  lastSuccessfulRequestAt : option string;
  lastRequestId : option string;
  readyCount : Z;
  disconnectCount : Z;
  relayedRequestCount : Z;
  successfulResponseCount : Z;
}.

Record Disconnect := mkDisconnect {
  d_connectionGeneration : option Z;
  d_wasReady : option bool;
  d_source : option DisconnectSource;
  d_closeCode : option Z;
  d_wasClean : option bool;
}.
Inductive ConnectorTelemetryEvent :=
| ev_ready (at_ : string) (runtime : option ConnectorRuntimeIdentity)
| ev_disconnected (at_ : string) (d : Disconnect)
| ev_request (at_ : string) (requestId : string)
| ev_response (at_ : string) (requestId : string).

Definition createEmptyConnectorTelemetry : EdgeRuntimeTelemetryV1 :=
  mkTelemetry None None None None None None None None None None None None None None None None None None None None None 0 0 0 0.

(** The identity of the previous connector and its grace are dropped. *)
Definition applyReady (c : EdgeRuntimeTelemetryV1) (at_ : string) (runtime : option ConnectorRuntimeIdentity) : EdgeRuntimeTelemetryV1 :=
  mkTelemetry (connectorInstanceId <$> runtime) (connectionGeneration <$> runtime) (processStartedAt <$> runtime)
    (catalogContractRevision <$> runtime) (toolSetRevision <$> runtime) (toolCount <$> runtime) (serverVersion <$> runtime)
    (nodePid <$> runtime) (hostPid <$> runtime) (Some at_) None None (lastDisconnectedAt c) (lastDisconnectedGeneration c)
    (lastDisconnectWasReady c) (lastDisconnectSource c) (lastDisconnectCode c) (lastDisconnectWasClean c) (lastRequestAt c)
    (lastSuccessfulRequestAt c) (lastRequestId c) (readyCount c + 1) (disconnectCount c) (relayedRequestCount c)
    (successfulResponseCount c).

Definition isLegacyDisconnect (d : Disconnect) : bool :=
  bool_decide (d_connectionGeneration d = None) && bool_decide (d_wasReady d = None)
  && match d_source d with None => true | Some _ => false end.
Definition disconnectsCurrentReady (c : EdgeRuntimeTelemetryV1) (d : Disconnect) : bool :=
  bool_decide (readySince c <> None)
  && (bool_decide (t_connectionGeneration c = None) || bool_decide (d_connectionGeneration d = t_connectionGeneration c)
      || isLegacyDisconnect d).
Definition startsReconnectGrace (c : EdgeRuntimeTelemetryV1) (d : Disconnect) : bool :=
  bool_decide (readySince c <> None) && bool_decide (t_connectionGeneration c <> None)
  && bool_decide (d_connectionGeneration d = t_connectionGeneration c) && bool_decide (d_wasReady d = Some true).

Definition apply_disconnected (c : EdgeRuntimeTelemetryV1) (at_ : string) (d : Disconnect) : EdgeRuntimeTelemetryV1 :=
  mkTelemetry (t_connectorInstanceId c) (t_connectionGeneration c) (t_processStartedAt c) (t_catalogContractRevision c)
    (t_toolSetRevision c) (t_toolCount c) (t_serverVersion c) (t_nodePid c) (t_hostPid c)
    (if disconnectsCurrentReady c d then None else readySince c)
    (if startsReconnectGrace c d then Some at_ else reconnectGraceStartedAt c)
    (if startsReconnectGrace c d then d_connectionGeneration d else reconnectGraceGeneration c)
    (Some at_) (d_connectionGeneration d) (d_wasReady d) (d_source d) (d_closeCode d) (d_wasClean d)
    (lastRequestAt c) (lastSuccessfulRequestAt c) (lastRequestId c)
    (readyCount c) (disconnectCount c + 1) (relayedRequestCount c) (successfulResponseCount c).

Definition apply_request (c : EdgeRuntimeTelemetryV1) (at_ requestId : string) : EdgeRuntimeTelemetryV1 :=
  mkTelemetry (t_connectorInstanceId c) (t_connectionGeneration c) (t_processStartedAt c) (t_catalogContractRevision c)
    (t_toolSetRevision c) (t_toolCount c) (t_serverVersion c) (t_nodePid c) (t_hostPid c) (readySince c)
    (reconnectGraceStartedAt c) (reconnectGraceGeneration c) (lastDisconnectedAt c) (lastDisconnectedGeneration c)
    (lastDisconnectWasReady c) (lastDisconnectSource c) (lastDisconnectCode c) (lastDisconnectWasClean c)
    (Some at_) (lastSuccessfulRequestAt c) (Some requestId)
    (readyCount c) (disconnectCount c) (relayedRequestCount c + 1) (successfulResponseCount c).
Definition apply_response (c : EdgeRuntimeTelemetryV1) (at_ : string) : EdgeRuntimeTelemetryV1 :=
  mkTelemetry (t_connectorInstanceId c) (t_connectionGeneration c) (t_processStartedAt c) (t_catalogContractRevision c)
    (t_toolSetRevision c) (t_toolCount c) (t_serverVersion c) (t_nodePid c) (t_hostPid c) (readySince c)
    (reconnectGraceStartedAt c) (reconnectGraceGeneration c) (lastDisconnectedAt c) (lastDisconnectedGeneration c)
    (lastDisconnectWasReady c) (lastDisconnectSource c) (lastDisconnectCode c) (lastDisconnectWasClean c)
    (lastRequestAt c) (Some at_) (lastRequestId c)
    (readyCount c) (disconnectCount c) (relayedRequestCount c) (successfulResponseCount c + 1).

Definition applyConnectorTelemetryEvent (c : EdgeRuntimeTelemetryV1) (e : ConnectorTelemetryEvent) : EdgeRuntimeTelemetryV1 :=
  match e with
  | ev_ready at_ runtime => applyReady c at_ runtime
  | ev_disconnected at_ d => apply_disconnected c at_ d
  | ev_request at_ requestId => apply_request c at_ requestId
  | ev_response at_ _ => apply_response c at_
  end.
Definition recorded (events : list ConnectorTelemetryEvent) : EdgeRuntimeTelemetryV1 :=
  fold_left applyConnectorTelemetryEvent events createEmptyConnectorTelemetry.

(** *** Health *)
Record EdgeSessionHealth := mkSessionHealth {
  controlPlaneReady : bool;
  executionPlaneReady : bool;
  connectorReady : bool;
  contractCompatible : bool;
  h_activeContractRevision : option string;
  h_candidateContractRevision : option string;
  h_candidateConnectorReady : option bool;
  h_candidateRuntime : option ConnectorRuntimeIdentity;
  h_runtimeTelemetry : option EdgeRuntimeTelemetryV1;
}.
Record PublicEdgeCandidateRuntimeHealth := mkCandidateHealth {
  ch_connectorInstanceId : string;
  ch_connectionGeneration : Z;
  ch_catalogContractRevision : string;
  ch_toolSetRevision : string;
  ch_toolCount : Z;
  ch_serverVersion : string;
}.
Record PublicEdgeRuntimeHealth := mkRuntimeHealth {
  rh_connectorInstanceId : option string;
  rh_connectionGeneration : option Z;
  rh_catalogContractRevision : option string;
  rh_toolSetRevision : option string;
  rh_toolCount : option Z;
  rh_serverVersion : option string;
  rh_readySince : option string;
  rh_lastRequestAt : option string;
  rh_lastSuccessfulRequestAt : option string;
  rh_readyCount : Z;
  rh_disconnectCount : Z;
}.
Record EdgeHealth := mkHealth {
  statusCode : Z;
  edgeEnabled : bool;
  hb_controlPlaneReady : bool;
  hb_executionPlaneReady : bool;
  hb_connectorReady : bool;
  hb_contractCompatible : bool;
  expectedContractRevision : string;
  hb_activeContractRevision : string;
  hb_candidate : option (string * bool * option PublicEdgeCandidateRuntimeHealth);
  hb_runtime : option PublicEdgeRuntimeHealth;
}.

Definition toPublicCandidateRuntimeHealth (r : ConnectorRuntimeIdentity) : PublicEdgeCandidateRuntimeHealth :=
  mkCandidateHealth (connectorInstanceId r) (connectionGeneration r) (catalogContractRevision r) (toolSetRevision r)
    (toolCount r) (serverVersion r).
Definition toPublicRuntimeHealth (t : EdgeRuntimeTelemetryV1) : PublicEdgeRuntimeHealth :=
  mkRuntimeHealth (t_connectorInstanceId t) (t_connectionGeneration t) (t_catalogContractRevision t) (t_toolSetRevision t)
    (t_toolCount t) (t_serverVersion t) (readySince t) (lastRequestAt t) (lastSuccessfulRequestAt t)
    (readyCount t) (disconnectCount t).
Definition createEdgeHealthStatus (EXPECTED : string) (enabled : bool) (s : EdgeSessionHealth) : EdgeHealth :=
  let ready := enabled && controlPlaneReady s in
  mkHealth (if ready then 200 else 503) enabled ready (ready && executionPlaneReady s) (connectorReady s) (contractCompatible s)
    EXPECTED (default EXPECTED (h_activeContractRevision s))
    ((fun c => (c, bool_decide (h_candidateConnectorReady s = Some true), toPublicCandidateRuntimeHealth <$> h_candidateRuntime s))
      <$> h_candidateContractRevision s)
    (toPublicRuntimeHealth <$> h_runtimeTelemetry s).

(** *** What the counters and the grace mean *)
Definition count (f : ConnectorTelemetryEvent -> bool) (events : list ConnectorTelemetryEvent) : Z :=
  Z.of_nat (length (List.filter f events)).
Definition is_ready_event (e : ConnectorTelemetryEvent) : bool := match e with ev_ready _ _ => true | _ => false end.
Definition is_disconnect_event (e : ConnectorTelemetryEvent) : bool := match e with ev_disconnected _ _ => true | _ => false end.
Definition is_request_event (e : ConnectorTelemetryEvent) : bool := match e with ev_request _ _ => true | _ => false end.
Definition is_response_event (e : ConnectorTelemetryEvent) : bool := match e with ev_response _ _ => true | _ => false end.

Lemma recorded_last events e : recorded (events ++ [e]) = applyConnectorTelemetryEvent (recorded events) e.
Proof. unfold recorded. by rewrite fold_left_app. Qed.
Lemma count_last f events e : count f (events ++ [e]) = count f events + (if f e then 1 else 0).
Proof. unfold count. rewrite List.filter_app, length_app. cbn. destruct (f e); cbn; lia. Qed.

(** The counters count. *)
Lemma telemetry_counts events :
  readyCount (recorded events) = count is_ready_event events
  /\ disconnectCount (recorded events) = count is_disconnect_event events
  /\ relayedRequestCount (recorded events) = count is_request_event events
  /\ successfulResponseCount (recorded events) = count is_response_event events.
Proof.
  induction events as [|e events IH] using rev_ind; [done|]. destruct IH as (H1 & H2 & H3 & H4).
  rewrite recorded_last, !count_last. destruct e; cbn; rewrite ?H1, ?H2, ?H3, ?H4; split_and!; lia.
Qed.

(** A grace stands exactly for the current connector: it was ready, it named a generation, and since it became
    ready a disconnection of this generation was recorded. *)
Definition grace_stands (t : EdgeRuntimeTelemetryV1) : Prop :=
  (reconnectGraceStartedAt t <> None /\ reconnectGraceGeneration t = t_connectionGeneration t /\ t_connectionGeneration t <> None
   /\ readySince t = None)
  \/ (reconnectGraceStartedAt t = None /\ reconnectGraceGeneration t = None).
(** [invariant] Whatever events were recorded, a grace period is one of the connector that is current: it was
    ready, it gave its generation and is not ready any more.  A connector that becomes ready ends it. *)
Theorem grace_of_current events :
  grace_stands (recorded events)
  /\ (forall at_ runtime, reconnectGraceStartedAt (recorded (events ++ [ev_ready at_ runtime])) = None)
  /\ forall at_ d, reconnectGraceStartedAt (recorded (events ++ [ev_disconnected at_ d])) = Some at_ ->
       reconnectGraceStartedAt (recorded events) = Some at_
       \/ d_wasReady d = Some true /\ d_connectionGeneration d = t_connectionGeneration (recorded events)
          /\ readySince (recorded events) <> None.
Proof.
  split_and!.
  - induction events as [|e events IH] using rev_ind; [by right|]. rewrite recorded_last.
    destruct e as [at_ r|at_ d|at_ i|at_ i]; cbn; [by right| |exact IH..].
    unfold grace_stands, apply_disconnected in *. cbn.
    destruct (startsReconnectGrace _ d) eqn:E.
    + left. unfold startsReconnectGrace in E. rewrite !andb_true_iff, !bool_decide_eq_true in E. destruct E as [[[Hr Hg] He] _].
      split_and!; [done|congruence|done|]. unfold disconnectsCurrentReady. rewrite (bool_decide_true (readySince _ <> None)) by done.
      rewrite (bool_decide_true (d_connectionGeneration d = _)) by done. by rewrite orb_true_r.
    + destruct IH as [(H1 & H2 & H3 & H4)|[H1 H2]]; [left|by right]. split_and!; [done..|]. rewrite H4. by destruct (disconnectsCurrentReady _ _).
  - intros at_ r. by rewrite recorded_last.
  - intros at_ d. rewrite recorded_last. cbn. destruct (startsReconnectGrace _ d) eqn:E; [|by left]. intros _. right.
    unfold startsReconnectGrace in E. rewrite !andb_true_iff, !bool_decide_eq_true in E. tauto.
Qed.
End EdgeTelemetry.
