(* ===== verification/EdgeSession.v ===== *)
(** The session of the edge: services/mcp-edge-gateway/src/mcp-session.ts.

    [McpSession] is the durable object that all connectors and all relayed requests of the edge share.  [Session] is
    its state: the sockets in the order in which they were accepted, with the attachment each carries, the
    pending relays, the rollout and what is in storage.  Each handler is a function on the session; [step]
    is one event that the platform delivers (a connection, a message, a close, a timer, an abort, a
    request of an operator), and [reachable] is what events in any order lead to.

    [resolve] is recorded: [settled] is the list of the promises that were resolved, with their responses, and
    [lost] the ones whose handler threw after it had taken the entry out of the map.
    The constructor of [Response] and [Headers.set] belong to the platform: they are parameters and may throw. *)
From S2P Require Import Prelude Errors JsString JsMap JsSort Json JsonText Zod EdgeProtocol EdgeRollout EdgeTelemetry.
Import EdgeProtocol EdgeRollout EdgeTelemetry.
Open Scope Z_scope.

Module EdgeSession.

Definition EDGE_CONNECTOR_RECONNECT_GRACE_MS : Z := 3000.
Definition EDGE_CONNECTOR_RECONNECT_POLL_MS : Z := 50.

(** *** Attachments *)
Record ConnectorAttachment := mkAttachment {
  ready : bool;
  protocolVersion : Z;
  a_connectionGeneration : option Z;
  contractCompatible : option bool;
  disconnectRecorded : option bool;
  runtime : option ConnectorRuntimeIdentity;
}.
Definition with_ready (b : bool) (recorded : option bool) (a : ConnectorAttachment) : ConnectorAttachment :=
  mkAttachment b (protocolVersion a) (a_connectionGeneration a) (contractCompatible a) recorded (runtime a).
Definition with_compatible (b : bool) (a : ConnectorAttachment) : ConnectorAttachment :=
  mkAttachment (ready a) (protocolVersion a) (a_connectionGeneration a) (Some b) (disconnectRecorded a) (runtime a).

(** A connector's socket: its attachment, whether its [readyState] is [OPEN], whether [getWebSockets] lists it, the
    codes it was closed with and what was sent on it, each message with its protocol version. *)
Record Socket := mkSocket {
  attachment : option ConnectorAttachment;
  is_open : bool;
  listed : bool;
  closed_with : list Z;
  sent : list (Z * EdgeToConnectorMessage);
}.
Definition set_attachment (a : ConnectorAttachment) (s : Socket) : Socket :=
  mkSocket (Some a) (is_open s) (listed s) (closed_with s) (sent s).
Definition close_socket (code : Z) (s : Socket) : Socket :=
  mkSocket (attachment s) false (listed s) (closed_with s ++ [code]) (sent s).
Definition send_on (version : Z) (m : EdgeToConnectorMessage) (s : Socket) : Socket :=
  mkSocket (attachment s) (is_open s) (listed s) (closed_with s) (sent s ++ [(version, m)]).

(** *** Responses *)
Inductive EdgeResponse :=
| json_error (error : string) (status : Z)
| no_body (status : Z)
| agent_unavailable (body : string)
| relayed (body : string) (status : Z) (headers : jsmap string).

Record PendingRelay := mkRelay {
  p_promise : nat;
  p_connector : nat;
  p_version : Z;
  p_unavailable : option EdgeResponse;
}.
(** A legacy request whose body is still being read. *)
Record Reading := mkReading {
  rd_promise : nat;
  rd_connector : nat;
  rd_method : string;
  rd_path : string;
  rd_headers : list (string * string);
}.

Record Session := mkSession {
  sockets : list Socket;
  pending : jsmap PendingRelay;
  reading : list Reading;
  promises : nat;
  settled : list (nat * EdgeResponse);
  lost : list nat;
  rollout : McpContractRolloutStateV1;
  catalogs : list string;
  activeMcpCatalog : option string;
  v3CutoverComplete : bool;
  cutoverStored : bool;
  telemetry : EdgeRuntimeTelemetryV1;
}.
Definition with_sockets (f : list Socket -> list Socket) (s : Session) : Session :=
  mkSession (f (sockets s)) (pending s) (reading s) (promises s) (settled s) (lost s) (rollout s) (catalogs s)
    (activeMcpCatalog s) (v3CutoverComplete s) (cutoverStored s) (telemetry s).
Definition with_pending (p : jsmap PendingRelay) (s : Session) : Session :=
  mkSession (sockets s) p (reading s) (promises s) (settled s) (lost s) (rollout s) (catalogs s)
    (activeMcpCatalog s) (v3CutoverComplete s) (cutoverStored s) (telemetry s).
Definition with_reading (r : list Reading) (s : Session) : Session :=
  mkSession (sockets s) (pending s) r (promises s) (settled s) (lost s) (rollout s) (catalogs s)
    (activeMcpCatalog s) (v3CutoverComplete s) (cutoverStored s) (telemetry s).
Definition resolve (promise : nat) (r : EdgeResponse) (s : Session) : Session :=
  mkSession (sockets s) (pending s) (reading s) (promises s) (settled s ++ [(promise, r)]) (lost s) (rollout s) (catalogs s)
    (activeMcpCatalog s) (v3CutoverComplete s) (cutoverStored s) (telemetry s).
Definition lose (promise : nat) (s : Session) : Session :=
  mkSession (sockets s) (pending s) (reading s) (promises s) (settled s) (lost s ++ [promise]) (rollout s) (catalogs s)
    (activeMcpCatalog s) (v3CutoverComplete s) (cutoverStored s) (telemetry s).
Definition new_promise (s : Session) : Session :=
  mkSession (sockets s) (pending s) (reading s) (S (promises s)) (settled s) (lost s) (rollout s) (catalogs s)
    (activeMcpCatalog s) (v3CutoverComplete s) (cutoverStored s) (telemetry s).
Definition record_event (e : ConnectorTelemetryEvent) (s : Session) : Session :=
  mkSession (sockets s) (pending s) (reading s) (promises s) (settled s) (lost s) (rollout s) (catalogs s)
    (activeMcpCatalog s) (v3CutoverComplete s) (cutoverStored s) (applyConnectorTelemetryEvent (telemetry s) e).
Definition cut_over (memory stored : bool) (s : Session) : Session :=
  mkSession (sockets s) (pending s) (reading s) (promises s) (settled s) (lost s) (rollout s) (catalogs s)
    (activeMcpCatalog s) (v3CutoverComplete s || memory) (cutoverStored s || stored) (telemetry s).
Definition roll (r : McpContractRolloutStateV1) (catalog : option string) (s : Session) : Session :=
  mkSession (sockets s) (pending s) (reading s) (promises s) (settled s) (lost s) r (catalogs s)
    catalog (v3CutoverComplete s) (cutoverStored s) (telemetry s).
Definition on_socket (i : nat) (f : Socket -> Socket) (s : Session) : Session := with_sockets (alter f i) s.
Definition attachment_of (s : Session) (i : nat) : option ConnectorAttachment := sockets s !! i ≫= attachment.

Section EdgeSession.
Context `{JN : JsNumber} `{JR : !JsNumberRead JN} `{JI : !JsInteger JN} `{EP : EdgePlatform}.
Context (EXPECTED : string) (localeCompare : string -> string -> Z).
(** [Headers.set] takes the value; [new Response(body, { status, headers })] returns. *)
Context (header_value : string -> bool) (response_ok : string -> Z -> jsmap string -> bool).

(** *** Reading an attachment *)
Definition is_safe (z : Z) : bool := (- MAX_SAFE_INTEGER <=? z) && (z <=? MAX_SAFE_INTEGER).
Definition safe_integer (v : value) : option Z :=
  match v with
  | VNumber n => match integer_of n with Some z => if is_safe z then Some z else None | None => None end
  | _ => None
  end.
(** [isConnectorRuntimeIdentity], with the runtime. *)
Definition isConnectorRuntimeIdentity (v : value) : option ConnectorRuntimeIdentity :=
  es ← isRecord v;
  if negb (literal_is (LInt 1) (own_value "version" es)) then None else
  id ← text_of (own_value "connectorInstanceId" es);
  generation ← safe_integer (own_value "connectionGeneration" es);
  startedAt ← text_of (own_value "processStartedAt" es);
  contract ← text_of (own_value "catalogContractRevision" es);
  toolSet ← text_of (own_value "toolSetRevision" es);
  tools ← safe_integer (own_value "toolCount" es);
  version ← text_of (own_value "serverVersion" es);
  node ← safe_integer (own_value "nodePid" es);
  host ← safe_integer (own_value "hostPid" es);
  Some (mkRuntime id generation startedAt contract toolSet tools version node host).
Definition bool_of (v : value) : option bool := match v with VBool b => Some b | _ => None end.
(** A field that may be left out or [undefined]. *)
Definition optional {A} (read : value -> option A) (v : value) : option (option A) :=
  if is_undefined v then Some None else Some <$> read v.
Definition readConnectorAttachment (v : value) : option ConnectorAttachment :=
  es ← isRecord v;
  if negb (is_text "connector" (own_value "role" es)) then None else
  ready ← bool_of (own_value "ready" es);
  version ← match own_value "protocolVersion" es with VNumber n => integer_of n | _ => None end;
  generation ← optional isPositiveSafeInteger (own_value "connectionGeneration" es);
  compatible ← optional bool_of (own_value "contractCompatible" es);
  runtime ← optional isConnectorRuntimeIdentity (own_value "runtime" es);
  recorded ← optional bool_of (own_value "disconnectRecorded" es);
  Some (mkAttachment ready version generation compatible recorded runtime).
(** What [serializeAttachment] is given. *)
Definition attachment_value (a : ConnectorAttachment) : value :=
  VObject true ([("role", VString "connector"); ("ready", VBool (ready a)); ("protocolVersion", int (protocolVersion a))]
    ++ match a_connectionGeneration a with Some g => [("connectionGeneration", int g)] | None => [] end
    ++ match contractCompatible a with Some b => [("contractCompatible", VBool b)] | None => [] end
    ++ match runtime a with Some r => [("runtime", runtime_value r)] | None => [] end
    ++ match disconnectRecorded a with Some b => [("disconnectRecorded", VBool b)] | None => [] end).

(** *** Selection *)
Definition isPreferredConnectorAttachment (candidate current : ConnectorAttachment) : bool :=
  if negb (protocolVersion candidate =? EDGE_PROTOCOL_VERSION) || negb (protocolVersion current =? EDGE_PROTOCOL_VERSION) then false
  else isPreferredConnectorRuntime localeCompare (runtime candidate) (runtime current).

Record Wanted := mkWanted {
  w_version : option Z;
  w_compatible : bool;
  w_closing : option (nat * ConnectorAttachment);
  w_revision : option string;
}.
Definition eligible (w : Wanted) (i : nat) (s : Socket) : option ConnectorAttachment :=
  if negb (listed s) then None else
  let closing := match w_closing w with Some (j, a) => if (i =? j)%nat then Some a else None | None => None end in
  match (match closing with Some a => Some a | None => attachment s end) with
  | None => None
  | Some a =>
      let legacy := protocolVersion a =? LEGACY_EDGE_PROTOCOL_VERSION in
      if negb (ready a)
         || match w_version w with Some v => negb (protocolVersion a =? v) | None => false end
         || w_compatible w && negb legacy && negb (bool_decide (contractCompatible a = Some true))
         || match w_revision w with
            | Some r => negb legacy && negb (bool_decide (catalogContractRevision <$> runtime a = Some r))
            | None => false
            end
         || bool_decide (closing = None) && negb (is_open s)
      then None else Some a
  end.
Fixpoint select_from (w : Wanted) (i : nat) (ss : list Socket) (selected : option (nat * ConnectorAttachment)) :
    option (nat * ConnectorAttachment) :=
  match ss with
  | [] => selected
  | s :: rest =>
      select_from w (S i) rest
        (match eligible w i s with
         | None => selected
         | Some a =>
             match selected with
             | None => Some (i, a)
             | Some (_, b) => if isPreferredConnectorAttachment a b then Some (i, a) else selected
             end
         end)
  end.
Definition selectReadyConnector (w : Wanted) (s : Session) : option nat := fst <$> select_from w 0 (sockets s) None.

Definition getReadyConnector (version : option Z) (s : Session) : option nat :=
  selectReadyConnector (mkWanted version false None None) s.
Definition preferred_of (v3 legacy : option nat) : option nat :=
  match selectPreferredConnectorProtocol (bool_decide (v3 <> None)) (bool_decide (legacy <> None)) with
  | Some v => if v =? EDGE_PROTOCOL_VERSION then v3 else if v =? LEGACY_EDGE_PROTOCOL_VERSION then legacy else None
  | None => None
  end.
Definition getPreferredReadyConnector (s : Session) : option nat :=
  preferred_of (getReadyConnector (Some EDGE_PROTOCOL_VERSION) s) (getReadyConnector (Some LEGACY_EDGE_PROTOCOL_VERSION) s).
Definition getExecutionReadyConnector (version : Z) (s : Session) : option nat :=
  selectReadyConnector (mkWanted (Some version) true None
    (if version =? LEGACY_EDGE_PROTOCOL_VERSION then None else Some (activeContractRevision (rollout s)))) s.
Definition getReadyConnectorForContractRevision (revision : string) (s : Session) : option nat :=
  selectReadyConnector (mkWanted (Some EDGE_PROTOCOL_VERSION) false None (Some revision)) s.
Definition getPreferredExecutionReadyConnector (closing : option (nat * ConnectorAttachment)) (s : Session) : option nat :=
  preferred_of
    (selectReadyConnector (mkWanted (Some EDGE_PROTOCOL_VERSION) true closing (Some (activeContractRevision (rollout s)))) s)
    (selectReadyConnector (mkWanted (Some LEGACY_EDGE_PROTOCOL_VERSION) true closing None) s).
Definition getExecutionReadyConnectorGeneration (s : Session) : option Z :=
  i ← getExecutionReadyConnector EDGE_PROTOCOL_VERSION s; a ← attachment_of s i; a_connectionGeneration a.

(** *** Starting *)
(** The constructor: the snapshot of the build is stored, the rollout is reconciled with the revision that the
    telemetry knows, and the catalog of the active revision is read. *)
Definition active_catalog (r : McpContractRolloutStateV1) (stored : list string) : option string :=
  if includes stored (activeContractRevision r) then Some (activeContractRevision r) else None.
Definition start (kept : option McpContractRolloutStateV1) (snapshots : list string) (t : EdgeRuntimeTelemetryV1)
    (cutover : bool) (attached : list Socket) (now : string) : Session :=
  let stored := snapshots ++ [EXPECTED] in
  let r := (reconcileMcpContractRolloutState EXPECTED kept (t_catalogContractRevision t) now).1 in
  mkSession attached [] [] 0 [] [] r stored (active_catalog r stored) false cutover t.

(** The object is evicted from memory and started again: sockets and storage stay. *)
Definition evict (now : string) (s : Session) : Session :=
  let s' := start (Some (rollout s)) (catalogs s) (telemetry s) (cutoverStored s) (sockets s) now in
  mkSession (sockets s') (pending s') (reading s') (promises s) (settled s) (lost s) (rollout s') (catalogs s')
    (activeMcpCatalog s') (v3CutoverComplete s') (cutoverStored s') (telemetry s').

(** *** Connecting *)
Inductive UpgradeAnswer := refused (error : string) (status : Z) | switching.
Definition handleConnectorUpgrade (websocket : bool) (url : ConnectorUrl) (s : Session) : Session * UpgradeAnswer :=
  if negb websocket then (s, refused "websocket_required" 426) else
  let persistedCutover := v3CutoverComplete s || cutoverStored s in
  let s := cut_over persistedCutover false s in
  match resolveConnectorProtocol url persistedCutover with
  | None => (s, refused "connector_protocol_not_allowed" 409)
  | Some version =>
      let server := mkSocket (Some (mkAttachment false version None None (Some false) None)) true true [] [(version, edge_hello)] in
      (with_sockets (fun ss => ss ++ [server]) s, switching)
  end.

(** *** Messages of a connector *)
Definition connector_became_ready (i : nat) (version : Z) (r : option ConnectorRuntimeIdentity) (now : string) (s : Session) : Session :=
  let compatible := (version =? LEGACY_EDGE_PROTOCOL_VERSION) || isConnectorContractCompatible r (rollout s) in
  let s := on_socket i (set_attachment (mkAttachment true version (connectionGeneration <$> r) (Some compatible) (Some false) r)) s in
  let s := if bool_decide (getPreferredExecutionReadyConnector None s = Some i) then record_event (ev_ready now r) s else s in
  if version =? EDGE_PROTOCOL_VERSION then cut_over true true s else s.

Definition response_headers (headers : jsmap string) : result exn (jsmap string) :=
  headers ← (if jm_has headers "content-type" then Ok headers
             else headers_set header_value "content-type" "application/json; charset=utf-8" headers);
  headers_set header_value "cache-control" "no-store" headers.
Definition new_Response (body : string) (status : Z) (headers : jsmap string) : result exn EdgeResponse :=
  if response_ok body status headers then Ok (relayed body status headers) else Err (Native "TypeError").

Definition response_of (body : string) (status : Z) (headers : option (list (string * string))) : result exn EdgeResponse :=
  headers ← collectAllowedResponseHeaders header_value headers;
  headers ← response_headers headers;
  new_Response body status headers.
Definition connector_responded (version : Z) (requestId : string) (status : Z) (headers : option (list (string * string)))
    (body now : string) (s : Session) : Session :=
  match jm_get (pending s) requestId with
  | None => s
  | Some p =>
      let s := with_pending (jm_delete (pending s) requestId) s in
      if MAX_EDGE_RESPONSE_BODY_BYTES <? utf8ByteLength body then
        resolve (p_promise p) (json_error "connector_response_too_large" 502) s
      else
        let s := if version =? EDGE_PROTOCOL_VERSION then record_event (ev_response now requestId) s else s in
        match response_of body status headers with
        | Ok r => resolve (p_promise p) r s
        | Err _ => lose (p_promise p) s
        end
  end.

Definition webSocketMessage (i : nat) (message : option string) (now : string) (s : Session) : Session :=
  match message with
  | None => on_socket i (close_socket 1003) s
  | Some text =>
      match attachment_of s i with
      | None => on_socket i (close_socket 1008) s
      | Some a =>
          match (if protocolVersion a =? LEGACY_EDGE_PROTOCOL_VERSION then parseLegacyConnectorToEdgeMessage text
                 else if protocolVersion a =? EDGE_PROTOCOL_VERSION then parseConnectorToEdgeMessage text else None) with
          | None => on_socket i (close_socket 1008) s
          | Some (connector_ready r) => connector_became_ready i (protocolVersion a) r now s
          | Some (http_response requestId status headers body) =>
              connector_responded (protocolVersion a) requestId status headers body now s
          end
      end
  end.

(** *** The end of a connection *)
Definition recordConnectorDisconnect (i : nat) (source : DisconnectSource) (code : option Z) (clean : option bool) (now : string)
    (s : Session) : Session :=
  match attachment_of s i with
  | None => s
  | Some a =>
      if bool_decide (disconnectRecorded a = Some true) then s else
      let wasSelected := bool_decide (getPreferredExecutionReadyConnector (Some (i, a)) s = Some i) in
      let s := on_socket i (set_attachment (with_ready false (Some true) a)) s in
      if negb wasSelected then s else
      let s := record_event (ev_disconnected now (mkDisconnect (a_connectionGeneration a) (Some (ready a)) (Some source) code clean)) s in
      match getPreferredExecutionReadyConnector None s with
      | None => s
      | Some j => record_event (ev_ready now (attachment_of s j ≫= runtime)) s
      end
  end.
Definition is_of (c : nat) (e : string * PendingRelay) : bool := (p_connector e.2 =? c)%nat.
Definition failed (reason : string) (p : PendingRelay) : EdgeResponse := default (json_error reason 503) (p_unavailable p).
(** In the order of the map. *)
Definition failPendingRequestsForConnector (c : nat) (reason : string) (s : Session) : Session :=
  let failing := List.filter (is_of c) (pending s) in
  let s := with_pending (List.filter (fun e => negb (is_of c e)) (pending s)) s in
  fold_left (fun s e => resolve (p_promise e.2) (failed reason e.2) s) failing s.
Definition webSocketClose (i : nat) (code : Z) (clean : bool) (now : string) (s : Session) : Session :=
  failPendingRequestsForConnector i "connector_disconnected" (recordConnectorDisconnect i source_close (Some code) (Some clean) now s).
Definition webSocketError (i : nat) (now : string) (s : Session) : Session :=
  failPendingRequestsForConnector i "connector_error" (recordConnectorDisconnect i source_error None None now s).

(** *** Relaying *)
Record EdgeRequest := mkRequest { q_method : string; q_path : string; q_headers : list (string * string) }.

(** The executor of the promise: the entry is made, then the request is sent.  [send] throws on a socket that is not
    open, and may throw otherwise; the entry is then taken out again. *)
Definition start_relay (requestId : string) (p : PendingRelay) (m : EdgeToConnectorMessage) (sends : bool) (s : Session) : Session :=
  if sends && from_option is_open false (sockets s !! p_connector p) then on_socket (p_connector p) (send_on (p_version p) m) (with_pending (jm_set (pending s) requestId p) s)
  else resolve (p_promise p) (default (json_error "connector_send_failed" 503) (p_unavailable p)) s.

Definition relayAuthenticatedRequest (q : EdgeRequest) (body : string) (principal : AuthenticatedEdgePrincipal)
    (unavailable : option EdgeResponse) (requestId : string) (sends : bool) (now : string) (s : Session) : Session :=
  let promise := promises s in
  let s := new_promise s in
  match getExecutionReadyConnector EDGE_PROTOCOL_VERSION s with
  | None => resolve promise (default (json_error "connector_unavailable" 503) unavailable) s
  | Some c =>
      if negb (isAllowedEdgeRequest (q_method q) (q_path q)) then resolve promise (json_error "edge_route_not_allowed" 404) s
      else if MAX_EDGE_REQUEST_BODY_BYTES <? utf8ByteLength body then resolve promise (json_error "request_too_large" 413) s
      else
        let m := http_request requestId (q_method q) (q_path q) (collectAllowedRequestHeaders (q_headers q)) body principal in
        start_relay requestId (mkRelay promise c EDGE_PROTOCOL_VERSION unavailable) m sends (record_event (ev_request now requestId) s)
  end.

(** [relayLegacyRequest] up to [await request.text()], and from there. *)
Definition begin_legacy (q : EdgeRequest) (c : nat) (s : Session) : Session :=
  let promise := promises s in
  let s := new_promise s in
  if negb (isAllowedEdgeRequest (q_method q) (q_path q)) then resolve promise (json_error "edge_route_not_allowed" 404) s
  else with_reading (reading s ++ [mkReading promise c (q_method q) (q_path q) (q_headers q)]) s.
Definition no_principal : AuthenticatedEdgePrincipal := mkPrincipal EmptyString [] None.
Definition legacy_body_read (n : nat) (text requestId : string) (sends : bool) (s : Session) : Session :=
  match reading s !! n with
  | None => s
  | Some r =>
      let s := with_reading (take n (reading s) ++ drop (S n) (reading s)) s in
      let body := if rd_method r =s "GET" then EmptyString else text in
      if MAX_EDGE_REQUEST_BODY_BYTES <? utf8ByteLength body then resolve (rd_promise r) (json_error "request_too_large" 413) s
      else
        start_relay requestId (mkRelay (rd_promise r) (rd_connector r) LEGACY_EDGE_PROTOCOL_VERSION None)
          (http_request requestId (rd_method r) (rd_path r) (collectLegacyAllowedRequestHeaders (rd_headers r)) body no_principal) sends s
  end.

(** [finishWithCancellation]: the timer and the abort of the client. *)
Definition sendCancellation (p : PendingRelay) (requestId : string) (reason : CancelReason) (sends : bool) (s : Session) : Session :=
  match sockets s !! p_connector p with
  | Some socket => if is_open socket && sends then on_socket (p_connector p) (send_on (p_version p) (http_cancel requestId reason)) s else s
  | None => s
  end.
Definition finishWithCancellation (requestId : string) (reason : CancelReason) (response : EdgeResponse) (sends : bool) (s : Session) : Session :=
  match jm_get (pending s) requestId with
  | None => s
  | Some p =>
      let s := sendCancellation p requestId reason sends (with_pending (jm_delete (pending s) requestId) s) in
      resolve (p_promise p) response s
  end.
Definition relay_timed_out (requestId : string) := finishWithCancellation requestId timeout (json_error "connector_timeout" 504).
Definition client_aborted (requestId : string) := finishWithCancellation requestId client_disconnected (no_body 499).

(** *** Where a request goes *)
Inductive Route := to_legacy (c : nat) | not_configured | to_control_plane.
Definition handleAllowedRequest (configured : bool) (s : Session) : Route :=
  match getPreferredExecutionReadyConnector None s with
  | Some c =>
      if bool_decide (protocolVersion <$> attachment_of s c = Some LEGACY_EDGE_PROTOCOL_VERSION) then to_legacy c
      else if configured && bool_decide (activeMcpCatalog s <> None) then to_control_plane else not_configured
  | None => if configured && bool_decide (activeMcpCatalog s <> None) then to_control_plane else not_configured
  end.

(** [waitForExecutionReconnect]: what one turn of the loop finds. *)
Inductive Wait := reconnected | given_up | sleep (ms : Z).
Definition reconnect_deadline (s : Session) : option Z :=
  match reconnectGraceStartedAt (telemetry s), reconnectGraceGeneration (telemetry s) with
  | Some at_, Some g =>
      if negb (bool_decide (t_connectionGeneration (telemetry s) = Some g)) then None
      else (fun d => d + EDGE_CONNECTOR_RECONNECT_GRACE_MS) <$> Date_parse at_
  | _, _ => None
  end.
Definition wait_turn (deadline now now' : Z) (s : Session) : Wait :=
  if bool_decide (getExecutionReadyConnector EDGE_PROTOCOL_VERSION s <> None) then reconnected
  else if now <? deadline then sleep (Z.max 1 (Z.min EDGE_CONNECTOR_RECONNECT_POLL_MS (deadline - now')))
  else given_up.

Fixpoint wait_loop (deadline : Z) (clock : nat -> Z * Z) (sessions : nat -> Session) (fuel n : nat) : option (nat * bool) :=
  match fuel with
  | O => None
  | S fuel =>
      match wait_turn deadline (clock n).1 (clock n).2 (sessions n) with
      | reconnected => Some (n, true)
      | given_up => Some (n, false)
      | sleep _ => wait_loop deadline clock sessions fuel (S n)
      end
  end.

(** *** Rollout *)
Definition refresh (r : McpContractRolloutStateV1) (s : Socket) : Socket :=
  if negb (listed s) then s else
  match attachment s with
  | None => s
  | Some a => set_attachment (with_compatible ((protocolVersion a =? LEGACY_EDGE_PROTOCOL_VERSION)
                                || isConnectorContractCompatible (runtime a) r) a) s
  end.
Definition refreshOpenConnectorContractCompatibility (s : Session) : Session := with_sockets (map (refresh (rollout s))) s.
Definition ready_revision (revision : string) (s : Session) : option string :=
  i ← getReadyConnectorForContractRevision revision s; a ← attachment_of s i; r ← runtime a; Some (catalogContractRevision r).

Inductive RolloutAnswer :=
| rollout_invalid | rollout_conflict | snapshot_unavailable | rollout_done (already : bool) (active : string) (candidate : option string).
(** The two keys of the input are the only ones and are revisions. *)
Definition rollout_input (key1 key2 : string) (input : value) : option (string * string) :=
  es ← isRecord input;
  if negb (has_keys es [key1; key2]) then None else
  a ← checked_text isMcpContractRevision (own_value key1 es);
  b ← checked_text isMcpContractRevision (own_value key2 es);
  Some (a, b).
Definition rollout_moved (already : bool) (r : McpContractRolloutStateV1) (s : Session) : Session * RolloutAnswer :=
  let finish s := (refreshOpenConnectorContractCompatibility s,
                   rollout_done already (activeContractRevision (rollout s)) (candidateContractRevision (rollout s))) in
  if already then finish s
  else match active_catalog r (catalogs s) with
       | None => (s, snapshot_unavailable)
       | Some catalog => finish (roll r (Some catalog) s)
       end.
Definition promoteContractRolloutResult (input : value) (now : string) (s : Session) : Session * RolloutAnswer :=
  match rollout_input "expectedActiveContractRevision" "expectedCandidateContractRevision" input with
  | None => (s, rollout_invalid)
  | Some (active, candidate) =>
      match promoteMcpContractRolloutState EXPECTED (rollout s) active candidate (ready_revision candidate s) now with
      | Err _ => (s, rollout_conflict)
      | Ok (r, already) => rollout_moved already r s
      end
  end.
Definition rollbackContractRolloutResult (input : value) (now : string) (s : Session) : Session * RolloutAnswer :=
  match rollout_input "expectedActiveContractRevision" "expectedPreviousContractRevision" input with
  | None => (s, rollout_invalid)
  | Some (active, previous) =>
      match rollbackMcpContractRolloutState EXPECTED (rollout s) active previous (ready_revision previous s) now with
      | Err _ => (s, rollout_conflict)
      | Ok (r, already) => rollout_moved already r s
      end
  end.

(** *** Status *)
(** The telemetry with the identity of the selected connector. *)
Definition with_identity (r : ConnectorRuntimeIdentity) (t : EdgeRuntimeTelemetryV1) : EdgeRuntimeTelemetryV1 :=
  mkTelemetry (Some (connectorInstanceId r)) (Some (connectionGeneration r)) (Some (processStartedAt r))
    (Some (catalogContractRevision r)) (Some (toolSetRevision r)) (Some (toolCount r)) (Some (serverVersion r))
    (Some (nodePid r)) (Some (hostPid r)) (readySince t) (reconnectGraceStartedAt t) (reconnectGraceGeneration t)
    (lastDisconnectedAt t) (lastDisconnectedGeneration t) (lastDisconnectWasReady t) (lastDisconnectSource t)
    (lastDisconnectCode t) (lastDisconnectWasClean t) (lastRequestAt t) (lastSuccessfulRequestAt t) (lastRequestId t)
    (readyCount t) (disconnectCount t) (relayedRequestCount t) (successfulResponseCount t).
Definition getStatus (configured : bool) (s : Session) : EdgeSessionHealth :=
  let execution := getPreferredExecutionReadyConnector None s in
  let candidate := candidateContractRevision (rollout s) ≫= fun c => getReadyConnectorForContractRevision c s in
  let connector := match execution with Some c => Some c | None => getPreferredReadyConnector s end in
  let a := connector ≫= attachment_of s in
  let legacy := bool_decide (protocolVersion <$> a = Some LEGACY_EDGE_PROTOCOL_VERSION) in
  let controlPlane := legacy || configured && bool_decide (activeMcpCatalog s <> None) in
  mkSessionHealth controlPlane (controlPlane && bool_decide (execution <> None)) (bool_decide (connector <> None))
    (legacy || bool_decide (a ≫= contractCompatible = Some true))
    (Some (activeContractRevision (rollout s))) (candidateContractRevision (rollout s)) (Some (bool_decide (candidate <> None)))
    (c ← candidate; a ← attachment_of s c; runtime a)
    (Some (match a ≫= runtime with Some r => with_identity r (telemetry s) | None => telemetry s end)).

(** *** Events *)
Inductive Step :=
| Upgrade (websocket : bool) (url : ConnectorUrl)
| Message (i : nat) (message : option string) (now : string)
| Closing (i : nat)
| Unlisted (i : nat)
| Closed (i : nat) (code : Z) (clean : bool) (now : string)
| Failed (i : nat) (now : string)
| Relay (q : EdgeRequest) (body : string) (principal : AuthenticatedEdgePrincipal) (unavailable : option EdgeResponse)
    (requestId : string) (sends : bool) (now : string)
| Request (q : EdgeRequest) (configured : bool)
| BodyRead (n : nat) (text requestId : string) (sends : bool)
| TimedOut (requestId : string) (sends : bool)
| Aborted (requestId : string) (sends : bool)
| Promote (input : value) (now : string)
| Rollback (input : value) (now : string)
| Evict (now : string).

(** [crypto.randomUUID()] does not repeat the identifier of a pending relay; a socket leaves the list after it was
    open; the object is evicted only when no request is in it. *)
Definition fresh (requestId : string) (s : Session) : Prop := jm_get (pending s) requestId = None.
Definition accepts (e : Step) (s : Session) : Prop :=
  match e with
  | Relay _ _ _ _ requestId _ _ | BodyRead _ _ requestId _ => fresh requestId s
  | Unlisted i => forall socket, sockets s !! i = Some socket -> is_open socket = false
  | Evict _ => pending s = [] /\ reading s = []
  | _ => True
  end.
Definition step (e : Step) (s : Session) : Session :=
  match e with
  | Upgrade websocket url => (handleConnectorUpgrade websocket url s).1
  | Message i message now => webSocketMessage i message now s
  | Closing i => on_socket i (fun k => mkSocket (attachment k) false (listed k) (closed_with k) (sent k)) s
  | Unlisted i => on_socket i (fun k => mkSocket (attachment k) (is_open k) false (closed_with k) (sent k)) s
  | Closed i code clean now => webSocketClose i code clean now s
  | Failed i now => webSocketError i now s
  | Relay q body principal unavailable requestId sends now =>
      relayAuthenticatedRequest q body principal unavailable requestId sends now s
  | Request q configured => match handleAllowedRequest configured s with to_legacy c => begin_legacy q c s | _ => s end
  | BodyRead n text requestId sends => legacy_body_read n text requestId sends s
  | TimedOut requestId sends => relay_timed_out requestId sends s
  | Aborted requestId sends => client_aborted requestId sends s
  | Promote input now => (promoteContractRolloutResult input now s).1
  | Rollback input now => (rollbackContractRolloutResult input now s).1
  | Evict now => evict now s
  end.
Inductive reachable (s0 : Session) : Session -> Prop :=
| reach_start : reachable s0 s0
| reach_step s e : reachable s0 s -> accepts e s -> reachable s0 (step e s).
End EdgeSession.

(** *** What an attachment keeps *)
Definition safe_runtime (r : ConnectorRuntimeIdentity) : bool :=
  is_safe (connectionGeneration r) && is_safe (toolCount r) && is_safe (nodePid r) && is_safe (hostPid r).
Definition safe_attachment (a : ConnectorAttachment) : bool :=
  match a_connectionGeneration a with Some g => safe_positive g | None => true end
  && match runtime a with Some r => safe_runtime r | None => true end.
Section Attachments.
Context `{JN : JsNumber} {JI : JsInteger JN} {JIL : JsIntegerLaws JN JI}.
#[local] Arguments literal_is : simpl never.
#[local] Arguments int : simpl never.
#[local] Arguments isPositiveSafeInteger : simpl never.
#[local] Arguments safe_integer : simpl never.
#[local] Arguments runtime_value : simpl never.
#[local] Arguments isConnectorRuntimeIdentity : simpl never.
#[local] Arguments is_safe : simpl never.
#[local] Arguments safe_positive : simpl never.

Lemma safe_integer_of z : safe_integer (int z) = if is_safe z then Some z else None.
Proof using JIL. unfold int, safe_integer. by rewrite integer_of_integer. Qed.
Lemma attached_runtime_of r : isConnectorRuntimeIdentity (runtime_value r) = if safe_runtime r then Some r else None.
Proof using JIL.
  destruct r as [id g st c ts n v np hp]. unfold isConnectorRuntimeIdentity, runtime_value, safe_runtime; read_fields.
  rewrite !safe_integer_of, version_of. simpl. by destruct (is_safe g), (is_safe n), (is_safe np), (is_safe hp).
Qed.
(** What this class attaches to a socket it reads back after the object was evicted: a connector's runtime has
    positive safe integers ([valid_runtime]). *)
Lemma attachment_read_back a : readConnectorAttachment (attachment_value a) = if safe_attachment a then Some a else None.
Proof using JIL.
  destruct a as [rd v [g|] [c|] [d|] [r|]]; unfold readConnectorAttachment, attachment_value, safe_attachment, optional; read_fields;
    rewrite ?positive_of, ?attached_runtime_of; unfold int; rewrite integer_of_integer; simpl;
    try destruct (safe_positive g); try destruct (safe_runtime r); done.
Qed.
End Attachments.

(** *** Promises *)
(** Every promise that was made, wherever it is; [owing ps s]: besides, [ps] are in the hands of the handler. *)
Definition accounted (s : Session) : list nat :=
  map fst (settled s) ++ lost s ++ map (fun e => p_promise e.2) (pending s) ++ map rd_promise (reading s).
Definition owing (ps : list nat) (s : Session) : Prop :=
  jm_wf (pending s) /\ ps ++ accounted s ≡ₚ seq 0 (promises s).

Section Promises.
Context `{JN : JsNumber} `{JR : !JsNumberRead JN} `{JI : !JsInteger JN} `{EP : EdgePlatform}.
Context (EXPECTED : string) (localeCompare : string -> string -> Z).
Context (header_value : string -> bool) (response_ok : string -> Z -> jsmap string -> bool).
Notation step := (step EXPECTED localeCompare header_value response_ok).

Lemma owing_new ps s : owing ps s -> owing (promises s :: ps) (new_promise s).
Proof.
  intros [Hw H]. split; [done|]. cbn [promises new_promise]. rewrite seq_S, <- H.
  change (accounted (new_promise s)) with (accounted s). apply Permutation_cons_append.
Qed.
Lemma owing_resolve p ps r s : owing (p :: ps) s -> owing ps (resolve p r s).
Proof.
  intros [Hw H]. split; [done|]. rewrite <- H. unfold accounted. cbn. rewrite map_app. cbn.
  rewrite <- !app_assoc. cbn. by rewrite Permutation_middle, !Permutation_middle.
Qed.
Lemma owing_lose p ps s : owing (p :: ps) s -> owing ps (lose p s).
Proof.
  intros [Hw H]. split; [done|]. rewrite <- H. unfold accounted. cbn. rewrite <- !app_assoc. cbn.
  by rewrite <- !Permutation_middle.
Qed.
Lemma owing_take ps s requestId p : jm_get (pending s) requestId = Some p -> owing ps s ->
  owing (p_promise p :: ps) (with_pending (jm_delete (pending s) requestId) s).
Proof.
  intros Hp [Hw H]. split; [by apply jm_wf_delete|]. rewrite <- H. unfold accounted. cbn.
  rewrite (jm_delete_perm (pending s) requestId p) at 2 by done. cbn. by rewrite <- !Permutation_middle.
Qed.
Lemma owing_put ps s requestId p : jm_get (pending s) requestId = None -> owing (p_promise p :: ps) s ->
  owing ps (with_pending (jm_set (pending s) requestId p) s).
Proof.
  intros Hp [Hw H]. split; [by apply jm_wf_set|]. rewrite <- H. unfold accounted. cbn.
  rewrite jm_set_fresh, map_app by done. cbn. rewrite <- !app_assoc. cbn. by rewrite <- !Permutation_middle.
Qed.
Lemma owing_read ps s r : owing (rd_promise r :: ps) s -> owing ps (with_reading (reading s ++ [r]) s).
Proof.
  intros [Hw H]. split; [done|]. rewrite <- H. unfold accounted. cbn. rewrite map_app. cbn.
  rewrite !app_assoc, <- Permutation_cons_append. by rewrite !app_comm_cons, <- !app_assoc.
Qed.
Lemma owing_unread ps s n r : reading s !! n = Some r -> owing ps s ->
  owing (rd_promise r :: ps) (with_reading (take n (reading s) ++ drop (S n) (reading s)) s).
Proof.
  intros Hr [Hw H]. split; [done|]. rewrite <- H. unfold accounted. cbn.
  rewrite <- (take_drop_middle (reading s) n r) at 3 by done. rewrite !map_app. cbn. by rewrite <- !Permutation_middle.
Qed.

Lemma owing_start_relay requestId p m sends ps s : fresh requestId s -> owing (p_promise p :: ps) s ->
  owing ps (start_relay requestId p m sends s).
Proof.
  intros Hf H. unfold start_relay. destruct (_ && _); [|by apply owing_resolve]. by apply (owing_put ps s requestId p).
Qed.
Lemma owing_finish requestId reason response sends s : owing [] s -> owing [] (finishWithCancellation requestId reason response sends s).
Proof.
  intros H. unfold finishWithCancellation. destruct (jm_get (pending s) requestId) as [p|] eqn:E; [|done].
  apply owing_resolve. unfold sendCancellation. pose proof (owing_take [] s requestId p E H) as H'.
  destruct (sockets _ !! _); [|done]. by destruct (_ && _).
Qed.
Lemma perm_pull {A} (a b c d e : list A) : a ++ b ++ c ++ d ++ e ≡ₚ b ++ c ++ (a ++ d) ++ e.
Proof. rewrite <- (app_assoc a d e), (app_assoc b c (d ++ e)), (app_assoc b c (a ++ _)). apply Permutation_app_swap_app. Qed.
Lemma owing_failing c reason s : owing [] s -> owing [] (failPendingRequestsForConnector c reason s).
Proof.
  intros [Hw H]. unfold failPendingRequestsForConnector.
  assert (Hg : forall (l : list (string * PendingRelay)) s, owing (map (fun e => p_promise e.2) l) s ->
    owing [] (fold_left (fun s e => resolve (p_promise e.2) (failed reason e.2) s) l s)).
  { induction l as [|e l IH]; intros s' Ho; [done|]. cbn. apply IH. by apply owing_resolve. }
  apply Hg. split; [by apply jm_wf_filter|]. rewrite <- H. unfold accounted. cbn.
  rewrite (jm_filter_perm (is_of c) (pending s)) at 3. rewrite map_app. apply perm_pull.
Qed.
Lemma owing_disconnect i source code clean now s : owing [] s -> owing [] (recordConnectorDisconnect localeCompare i source code clean now s).
Proof.
  intros H. unfold recordConnectorDisconnect. destruct (attachment_of s i); [|done]. destruct (bool_decide _); [done|].
  cbv zeta. destruct (negb _); [done|]. by case_match.
Qed.
Lemma owing_message i message now s : owing [] s ->
  owing [] (webSocketMessage localeCompare header_value response_ok i message now s).
Proof.
  intros H. unfold webSocketMessage. destruct message as [text|]; [|done]. destruct (attachment_of s i) as [a|]; [|done].
  destruct (if _ =? _ then _ else _) as [[r|id st h b]|]; [| |done].
  - unfold connector_became_ready. cbv zeta. by destruct (bool_decide _), (_ =? _).
  - unfold connector_responded. destruct (jm_get (pending s) id) as [p|] eqn:E; [|done].
    pose proof (owing_take [] s id p E H) as H'. destruct (_ <? _); [by apply owing_resolve|]. cbv zeta.
    assert (H2 : owing [p_promise p] (if protocolVersion a =? EDGE_PROTOCOL_VERSION then
      record_event (ev_response now id) (with_pending (jm_delete (pending s) id) s) else with_pending (jm_delete (pending s) id) s))
      by (by destruct (_ =? _)).
    destruct (response_of _ _ _ _ _); [by apply owing_resolve|by apply owing_lose].
Qed.

Lemma step_promises e s : accepts e s -> owing [] s -> owing [] (step e s).
Proof.
  intros Ha H. destruct e; cbn [EdgeSession.step accepts] in *; try exact H.
  - unfold handleConnectorUpgrade. destruct websocket; [|done]. cbv zeta. cbn. by destruct (resolveConnectorProtocol _ _).
  - by apply owing_message.
  - by apply owing_failing, owing_disconnect.
  - by apply owing_failing, owing_disconnect.
  - unfold relayAuthenticatedRequest. pose proof (owing_new [] s H) as H'. cbv zeta.
    destruct (getExecutionReadyConnector _ _ _); [|by apply owing_resolve]. destruct (negb _); [by apply owing_resolve|].
    destruct (_ <? _); [by apply owing_resolve|]. by apply owing_start_relay.
  - destruct (handleAllowedRequest _ _ _) as [c| |]; [|done..]. unfold begin_legacy. pose proof (owing_new [] s H) as H'. cbv zeta.
    destruct (negb _); [by apply owing_resolve|]. by apply (owing_read [] (new_promise s) (mkReading (promises s) c _ _ _)).
  - unfold legacy_body_read. destruct (reading s !! n) as [r|] eqn:E; [|done]. pose proof (owing_unread [] s n r E H) as H'. cbv zeta.
    destruct (_ <? _); [by apply owing_resolve|]. by apply owing_start_relay.
  - by apply owing_finish.
  - by apply owing_finish.
  - unfold promoteContractRolloutResult, rollout_moved. repeat case_match; done.
  - unfold rollbackContractRolloutResult, rollout_moved. repeat case_match; done.
  - destruct Ha as [Hp Hr], H as [_ H]. split; [constructor|]. rewrite <- H. unfold accounted. by rewrite Hp, Hr.
Qed.
End Promises.

(** *** Which connector is selected *)
Section Selection.
Context `{EP : EdgePlatform} (localeCompare : string -> string -> Z) {LC : Consistent localeCompare}.
Notation better := (isPreferredConnectorAttachment localeCompare).
Notation select_from := (select_from localeCompare).

Lemma better_trans a b c : better a b = true -> better b c = true -> better a c = true.
Proof using LC.
  unfold better. destruct (protocolVersion a =? _), (protocolVersion b =? _), (protocolVersion c =? _); cbn; try done.
  by apply preferred_trans.
Qed.
Lemma select_chain w ss : forall i k c a b, select_from w i ss (Some (c, b)) = Some (k, a) -> (k, a) = (c, b) \/ better a b = true.
Proof using LC.
  induction ss as [|s ss IH]; intros i k c a b; cbn; [intros [= <- <-]; by left|].
  destruct (eligible w i s) as [d|]; [|apply IH]. destruct (better d b) eqn:E; [|apply IH]. intros H.
  apply IH in H as [[= -> ->]|H]; right; [done|by eapply better_trans].
Qed.
(** Nothing that could have been selected is better than what was selected. *)
Lemma select_best w ss : forall i sel k a, select_from w i ss sel = Some (k, a) ->
  (forall c b, sel = Some (c, b) -> better b a = false)
  /\ forall j s b, ss !! j = Some s -> eligible w (i + j) s = Some b -> better b a = false.
Proof using LC.
  assert (Hirr : forall a, better a a = false).
  { intros a. unfold better. destruct (negb _ || negb _); [done|]. apply preferred_irrefl. }
  induction ss as [|s ss IH]; intros i sel k a H; cbn in H; [subst; split; [intros c b [= -> ->]; apply Hirr|done]|].
  pose proof H as Hc. apply IH in H as [H1 H2]. split.
  - intros c b ->. destruct (eligible w i s) as [d|]; [|by eapply H1]. destruct (better d b) eqn:E; [|by eapply H1].
    destruct (better b a) eqn:Eb; [|done].
    pose proof (better_trans _ _ _ E Eb) as Ht. rewrite (H1 i d eq_refl) in Ht. done.
  - intros [|j] s' b Hs He; cbn in Hs.
    + injection Hs as <-. rewrite Nat.add_0_r in He. rewrite He in H1, Hc. destruct sel as [[c d]|]; [|by eapply H1].
      destruct (better b d) eqn:E; [by eapply H1|]. destruct (better b a) eqn:Eb; [|done].
      apply select_chain in Hc as [[= -> ->]|Hc]; [congruence|]. pose proof (better_trans _ _ _ Eb Hc). congruence.
    + eapply H2; [exact Hs|]. by rewrite Nat.add_succ_r in He.
Qed.
Lemma select_one w ss : forall i sel k a, select_from w i ss sel = Some (k, a) ->
  sel = Some (k, a) \/ exists j s, k = (i + j)%nat /\ ss !! j = Some s /\ eligible w k s = Some a.
Proof.
  induction ss as [|s ss IH]; intros i sel k a H; cbn in H; [by left|]. apply IH in H as [H|(j & s' & -> & Hs & He)].
  - destruct (eligible w i s) as [d|] eqn:E; [|by left].
    assert (sel = Some (k, a) \/ (i, d) = (k, a)) as [|[= -> ->]] by (destruct sel as [[c b]|]; [destruct (better d b)|]; naive_solver); [by left|].
    right. exists 0%nat, s. by rewrite Nat.add_0_r.
  - right. exists (S j), s'. rewrite Nat.add_succ_r. by split_and!.
Qed.
Lemma select_none w ss : forall i sel, select_from w i ss sel = None ->
  sel = None /\ forall j s, ss !! j = Some s -> eligible w (i + j) s = None.
Proof.
  induction ss as [|s ss IH]; intros i sel H; cbn in H; [by split|]. apply IH in H as [H1 H2].
  destruct (eligible w i s) as [d|] eqn:E; [by destruct sel as [[c b]|]; [destruct (better d b)|]|]. split; [done|].
  intros [|j] s' Hs; cbn in Hs; [injection Hs as <-; by rewrite Nat.add_0_r|]. rewrite Nat.add_succ_r. by apply (H2 j).
Qed.

Lemma selected_spec w s :
  match selectReadyConnector localeCompare w s with
  | Some i => exists k a, sockets s !! i = Some k /\ eligible w i k = Some a
      /\ forall j k' b, sockets s !! j = Some k' -> eligible w j k' = Some b -> better b a = false
  | None => forall j k, sockets s !! j = Some k -> eligible w j k = None
  end.
Proof using LC.
  unfold selectReadyConnector. destruct (select_from w 0 (sockets s) None) as [[i a]|] eqn:E; cbn.
  - pose proof (select_best _ _ _ _ _ _ E) as [_ Hb]. apply select_one in E as [?|(j & k & -> & Hk & He)]; [done|].
    exists k, a. cbn in *. by split_and!.
  - by apply select_none in E as [_ H].
Qed.
End Selection.

(** *** Attachments and the rollout *)
(** A listed connector that is ready carries whether its revision is a current one. *)
Definition flag (r : McpContractRolloutStateV1) (a : ConnectorAttachment) : bool :=
  (protocolVersion a =? LEGACY_EDGE_PROTOCOL_VERSION) || isConnectorContractCompatible (runtime a) r.
Definition flagged (r : McpContractRolloutStateV1) (k : Socket) : Prop :=
  listed k = true -> forall a, attachment k = Some a -> ready a = true -> contractCompatible a = Some (flag r a).
(** Versions 2 and 3 only; a ready connector of version 3 has completed the cutover, and one whose disconnection was
    recorded is not ready. *)
Definition versioned (cutover : bool) (k : Socket) : Prop :=
  forall a, attachment k = Some a ->
    (protocolVersion a = EDGE_PROTOCOL_VERSION \/ protocolVersion a = LEGACY_EDGE_PROTOCOL_VERSION)
    /\ (disconnectRecorded a = Some true -> ready a = false)
    /\ (ready a = true -> protocolVersion a = EDGE_PROTOCOL_VERSION -> cutover = true).
Record Coherent (EXPECTED : string) (s : Session) : Prop := {
  co_flags : Forall (flagged (rollout s)) (sockets s);
  co_versions : Forall (versioned (cutoverStored s)) (sockets s);
  co_valid : valid_state (rollout s) = true;
  co_prepared : candidateContractRevision (rollout s) <> None \/ activeContractRevision (rollout s) = EXPECTED;
  co_catalog : activeMcpCatalog s = active_catalog (rollout s) (catalogs s);
  co_build : EXPECTED ∈ catalogs s;
  co_cutover : v3CutoverComplete s = true -> cutoverStored s = true;
}.

(** A connector that may serve requests: its socket is listed and open, it said that it is ready, and its runtime has
    the active revision. *)
Definition serving (s : Session) (i : nat) (r : ConnectorRuntimeIdentity) : Prop :=
  exists k a, sockets s !! i = Some k /\ listed k = true /\ is_open k = true /\ attachment k = Some a /\ ready a = true
    /\ protocolVersion a = EDGE_PROTOCOL_VERSION /\ runtime a = Some r
    /\ catalogContractRevision r = activeContractRevision (rollout s).

Section Connectors.
Context `{JN : JsNumber} `{JR : !JsNumberRead JN} `{JI : !JsInteger JN} `{EP : EdgePlatform}.
Context (EXPECTED : string) (HE : isMcpContractRevision EXPECTED = true) (localeCompare : string -> string -> Z).
Context (header_value : string -> bool) (response_ok : string -> Z -> jsmap string -> bool).
Notation step := (step EXPECTED localeCompare header_value response_ok).
Notation Coherent := (Coherent EXPECTED).

Lemma coherent_socket i f s : Coherent s ->
  (forall k, sockets s !! i = Some k -> flagged (rollout s) k -> flagged (rollout s) (f k)) ->
  (forall k, sockets s !! i = Some k -> versioned (cutoverStored s) k -> versioned (cutoverStored s) (f k)) -> Coherent (on_socket i f s).
Proof. intros [] Hf Hv. constructor; cbn; try done; by apply Forall_alter. Qed.
(** Events that leave the attachment of the socket alone. *)
Lemma coherent_quiet i f s : (forall k, attachment (f k) = attachment k /\ (listed (f k) = true -> listed k = true)) ->
  Coherent s -> Coherent (on_socket i f s).
Proof.
  intros Hf H. apply coherent_socket; [done|..]; intros k _; unfold flagged, versioned; destruct (Hf k) as [-> Hl]; auto.
Qed.
Lemma coherent_failing c reason s : Coherent s -> Coherent (failPendingRequestsForConnector c reason s).
Proof.
  intros H. unfold failPendingRequestsForConnector. generalize (List.filter (is_of c) (pending s)) as l.
  assert (Coherent (with_pending (List.filter (fun e => negb (is_of c e)) (pending s)) s)) as H' by (by destruct H).
  revert H'. generalize (with_pending (List.filter (fun e => negb (is_of c e)) (pending s)) s) as s'.
  intros s' H' l. revert s' H'. induction l as [|e l IH]; intros s' H'; [done|]. cbn. apply IH. by destruct H'.
Qed.
Lemma coherent_disconnect i source code clean now s : Coherent s -> Coherent (recordConnectorDisconnect localeCompare i source code clean now s).
Proof.
  intros H. unfold recordConnectorDisconnect. destruct (attachment_of s i) as [a|] eqn:Ea; [|done]. destruct (bool_decide _); [done|].
  cbv zeta. set (s1 := on_socket _ _ s). assert (Coherent s1) as H1.
  { subst s1. apply bind_Some in Ea as (k0 & Hk0 & Ha). apply coherent_socket; [done|..]; intros k Hk; simplify_eq.
    - intros _ _ b [= <-] Hr. done.
    - intros Hv b [= <-]. cbn. destruct (Hv a Ha) as [? _]. by split_and!. }
  destruct (negb _); [done|]. destruct (getPreferredExecutionReadyConnector _ _ _); by destruct H1.
Qed.
Lemma coherent_message i message now s : Coherent s -> Coherent (webSocketMessage localeCompare header_value response_ok i message now s).
Proof.
  intros H. unfold webSocketMessage.
  assert (Hc : forall code, Coherent (on_socket i (close_socket code) s)) by (intros; by apply coherent_quiet).
  destruct message as [text|]; [|done]. destruct (attachment_of s i) as [a|] eqn:Ea; [|done].
  destruct (if _ =? _ then _ else _) as [[r|id st h b]|] eqn:Ep; [| |done].
  - assert (Hv : versioned (cutoverStored s) (from_option id (mkSocket None false false [] []) (sockets s !! i))).
    { apply bind_Some in Ea as (k & Hk & _). rewrite Hk. cbn. eapply Forall_lookup_1; [apply (co_versions _ _ H)|done]. }
    apply bind_Some in Ea as (k & Hk & Ha). rewrite Hk in Hv. cbn in Hv. destruct (Hv a Ha) as [Hver _].
    unfold connector_became_ready. cbv zeta. set (s1 := on_socket _ _ s).
    assert (Hf : Forall (flagged (rollout s)) (sockets s1)).
    { subst s1. cbn. apply Forall_alter; [apply (co_flags _ _ H)|]. intros k' _ _ _ b [= <-] _. done. }
    assert (Hw : Forall (versioned (cutoverStored s || (protocolVersion a =? EDGE_PROTOCOL_VERSION))) (sockets s1)).
    { subst s1. cbn. apply Forall_alter.
      - eapply Forall_impl; [apply (co_versions _ _ H)|]. intros k' Hk' b Hb. destruct (Hk' b Hb) as (? & ? & Hr). split_and!; [done..|].
        intros ? ?. by rewrite Hr.
      - intros k' _ _ b [= <-]. cbn. split_and!; [done..|]. intros _ ->. by rewrite orb_true_r. }
    destruct (bool_decide _), (protocolVersion a =? EDGE_PROTOCOL_VERSION);
      (destruct H; constructor; cbn; rewrite ?orb_true_r, ?orb_false_r in *; try done).
  - unfold connector_responded. destruct (jm_get (pending s) id) as [p|]; [|done]. cbv zeta.
    destruct (_ <? _); [by destruct H|].
    destruct (response_of _ _ _ _ _), (protocolVersion a =? EDGE_PROTOCOL_VERSION); by destruct H.
Qed.
Lemma coherent_relay requestId p m sends s : Coherent s -> Coherent (start_relay requestId p m sends s).
Proof.
  intros H. unfold start_relay. destruct (_ && _); [|by destruct H]. apply coherent_quiet; [done|by destruct H].
Qed.
Lemma coherent_finish requestId reason response sends s : Coherent s -> Coherent (finishWithCancellation requestId reason response sends s).
Proof.
  intros H. unfold finishWithCancellation, sendCancellation. destruct (jm_get (pending s) requestId) as [p|]; [|done].
  assert (Coherent (with_pending (jm_delete (pending s) requestId) s)) as H' by (by destruct H). cbv zeta.
  destruct (sockets _ !! _); [|by destruct H']. destruct (_ && _); [|by destruct H'].
  assert (Coherent (on_socket (p_connector p) (send_on (p_version p) (http_cancel requestId reason)) (with_pending (jm_delete (pending s) requestId) s)))
    as H2 by (by apply coherent_quiet). by destruct H2.
Qed.
Lemma reconcile_settled r observed now : candidateContractRevision r <> None \/ activeContractRevision r = EXPECTED ->
  reconcileMcpContractRolloutState EXPECTED (Some r) observed now = (r, false).
Proof.
  intros H. unfold reconcileMcpContractRolloutState. destruct H as [H| ->]; [by rewrite (bool_decide_true _ H)|].
  by rewrite String.eqb_refl, orb_true_r.
Qed.
Lemma refresh_flagged r k : flagged r (refresh r k).
Proof.
  unfold refresh, flagged. destruct (listed k) eqn:El; cbn [negb]; [|by rewrite El].
  destruct (attachment k) as [a|] eqn:Ea; [|by rewrite Ea]. by intros _ b [= <-] _.
Qed.
Lemma refresh_versioned r c k : versioned c k -> versioned c (refresh r k).
Proof.
  unfold refresh. destruct (listed k); cbn [negb]; [|done]. destruct (attachment k) as [a|] eqn:Ea; [|done].
  intros Hk b [= <-]. by apply (Hk a).
Qed.
Lemma coherent_rolled r catalog s : Coherent s -> valid_state r = true ->
  candidateContractRevision r <> None \/ activeContractRevision r = EXPECTED -> active_catalog r (catalogs s) = catalog ->
  Coherent (refreshOpenConnectorContractCompatibility (roll r catalog s)).
Proof.
  intros [] Hv Hp Hc. constructor; cbn; try done.
  - apply Forall_fmap, Forall_true. intros k. apply refresh_flagged.
  - apply Forall_fmap. eapply Forall_impl; [exact co_versions0|]. intros k. apply refresh_versioned.
Qed.
Lemma coherent_moved already r s : Coherent s -> (already = true -> r = rollout s) -> valid_state r = true ->
  candidateContractRevision r <> None \/ activeContractRevision r = EXPECTED -> Coherent (rollout_moved already r s).1.
Proof.
  intros H Ha Hv Hp. unfold rollout_moved. destruct already; cbn [fst].
  - specialize (Ha eq_refl) as ->. pose proof (coherent_rolled (rollout s) (activeMcpCatalog s) s H Hv Hp) as Hr.
    assert (roll (rollout s) (activeMcpCatalog s) s = s) as E by (by destruct s). rewrite E in Hr. apply Hr. symmetry. apply H.
  - destruct (active_catalog r (catalogs s)) as [c|] eqn:Ec; [|done]. by apply coherent_rolled.
Qed.

Lemma step_coherent e s : accepts e s -> Coherent s -> Coherent (step e s).
Proof using HE.
  intros Ha H. destruct e; cbn [EdgeSession.step accepts] in *.
  - unfold handleConnectorUpgrade. destruct websocket; [|done]. cbv zeta. cbn [negb].
    assert (Coherent (cut_over (v3CutoverComplete s || cutoverStored s) false s)) as H1.
    { destruct H; constructor; cbn; rewrite ?orb_false_r; try done. intros Hc. destruct (v3CutoverComplete s); cbn in *; auto. }
    destruct (resolveConnectorProtocol _ _) as [v|] eqn:Ev; [|done]. cbn [fst].
    assert (v = EDGE_PROTOCOL_VERSION \/ v = LEGACY_EDGE_PROTOCOL_VERSION) as Hver
      by (unfold resolveConnectorProtocol in Ev; repeat case_match; simplify_eq; auto).
    destruct H1; constructor; cbn; try done; apply Forall_app; (split; [done|]); apply Forall_singleton.
    + by intros _ b [= <-].
    + intros b [= <-]. by split_and!.
  - by apply coherent_message.
  - by apply coherent_quiet.
  - by apply coherent_quiet.
  - by apply coherent_failing, coherent_disconnect.
  - by apply coherent_failing, coherent_disconnect.
  - unfold relayAuthenticatedRequest. assert (Coherent (new_promise s)) as H1 by (by destruct H). cbv zeta.
    destruct (getExecutionReadyConnector _ _ _); [|by destruct H1]. destruct (negb _); [by destruct H1|].
    destruct (_ <? _); [by destruct H1|]. apply coherent_relay. by destruct H1.
  - destruct (handleAllowedRequest _ _ _) as [c| |]; [|done..]. unfold begin_legacy. cbv zeta. destruct (negb _); by destruct H.
  - unfold legacy_body_read. destruct (reading s !! n) as [r|]; [|done]. cbv zeta. destruct (_ <? _); [by destruct H|].
    apply coherent_relay. by destruct H.
  - by apply coherent_finish.
  - by apply coherent_finish.
  - unfold promoteContractRolloutResult. destruct (rollout_input _ _ _) as [[a c]|]; [|done].
    destruct (promoteMcpContractRolloutState _ _ _ _ _ _) as [[r already]|] eqn:E; [|done].
    destruct (promoted_state EXPECTED HE _ _ _ _ _ _ _ (co_valid _ _ H) E) as (? & ? & ?). by apply coherent_moved.
  - unfold rollbackContractRolloutResult. destruct (rollout_input _ _ _) as [[a c]|]; [|done].
    destruct (rollbackMcpContractRolloutState _ _ _ _ _ _) as [[r already]|] eqn:E; [|done].
    destruct (rolled_back_state EXPECTED HE _ _ _ _ _ _ _ (co_valid _ _ H) E) as (? & ? & ?). by apply coherent_moved.
  - unfold evict, start. destruct H. rewrite reconcile_settled by done. constructor; cbn; try done.
    apply elem_of_app. right. by apply list_elem_of_singleton.
Qed.

Lemma start_coherent kept snapshots t cutover now : (forall r, kept = Some r -> valid_state r = true) ->
  Coherent (start EXPECTED kept snapshots t cutover [] now).
Proof using HE.
  intros Hk. destruct (reconciled_state EXPECTED HE kept (t_catalogContractRevision t) now Hk) as [Hv Hp].
  constructor; cbn; try done. apply elem_of_app. right. by apply list_elem_of_singleton.
Qed.
Lemma reachable_coherent s0 s : Coherent s0 -> reachable EXPECTED localeCompare header_value response_ok s0 s -> Coherent s.
Proof using HE. intros H0. induction 1 as [|s e Hr IH Ha]; [done|]. by apply step_coherent. Qed.
Lemma collected_ok (Hh : forall v, header_value v = true) allow entries : forall h, is_ok (collect_headers header_value allow entries h) = true.
Proof.
  induction entries as [|[k v] entries IH]; intros h; [done|]. cbn. unfold headers_set. rewrite Hh. by destruct (includes _ _); apply IH.
Qed.
Lemma response_made (Hh : forall v, header_value v = true) (Hok : forall b st h, response_ok b st h = true) b st h :
  is_ok (response_of header_value response_ok b st h) = true.
Proof.
  unfold response_of. assert (is_ok (collectAllowedResponseHeaders header_value h) = true) as Hc
    by (destruct h; [by apply collected_ok|done]).
  destruct (collectAllowedResponseHeaders _ _) as [hs|]; [|done]. cbn. unfold response_headers, headers_set. rewrite !Hh.
  destruct (jm_has hs _); cbn; unfold new_Response; by rewrite Hok.
Qed.
(** Goes backwards through the changes that made a session, one hypothesis on a change at a time. *)
Ltac last_change t :=
  lazymatch t with
  | with_sockets _ ?u => u | with_pending _ ?u => u | with_reading _ ?u => u | resolve _ _ ?u => u | lose _ ?u => u
  | new_promise ?u => u | record_event _ ?u => u | cut_over _ _ ?u => u | roll _ _ ?u => u | evict _ _ ?u => u
  end.
Ltac changes :=
  unfold on_socket;
  repeat first
    [ assumption
    | match goal with H : forall s, ?R s s |- ?R ?s ?s => exact (H s) end
    | match goal with
      | Htr : forall s1 s2 s3, ?R s1 s2 -> ?R s2 s3 -> ?R s1 s3 |- ?R _ ?t =>
          let u := last_change t in apply (Htr _ u t); [|solve [match goal with H : _ |- _ => apply H end]]
      end ].
(** What holds of every change that the handlers are made of holds of every event. *)
Lemma step_related (R : Session -> Session -> Prop) :
  (forall s, R s s) -> (forall s1 s2 s3, R s1 s2 -> R s2 s3 -> R s1 s3) ->
  (forall f s, R s (with_sockets f s)) -> (forall p s, R s (with_pending p s)) -> (forall r s, R s (with_reading r s)) ->
  (forall p r s, R s (resolve p r s)) -> (forall s, R s (new_promise s)) -> (forall ev s, R s (record_event ev s)) ->
  (forall m k s, R s (cut_over m k s)) -> (forall r c s, R s (roll r c s)) -> (forall now s, R s (evict EXPECTED now s)) ->
  (forall p s, R s (lose p s)) \/ (forall b st h, is_ok (response_of header_value response_ok b st h) = true) ->
  forall e s, R s (step e s).
Proof.
  intros Hrefl Htr Hso Hpe Hre Hrs Hnp Hev Hcu Hro Hevi Hlo.
  assert (Hfold : forall reason (l : list (string * PendingRelay)) s1 s2, R s1 s2 ->
    R s1 (fold_left (fun s e => resolve (p_promise e.2) (failed reason e.2) s) l s2)).
  { intros reason l. induction l as [|e l IH]; intros s1 s2 H; [done|]. cbn. apply IH. exact (Htr _ _ _ H (Hrs _ _ _)). }
  assert (Hdis : forall i source code clean now s, R s (recordConnectorDisconnect localeCompare i source code clean now s)).
  { intros. unfold recordConnectorDisconnect. destruct (attachment_of s i); [|done]. destruct (bool_decide _); [done|]. cbv zeta.
    destruct (negb _); [|destruct (getPreferredExecutionReadyConnector _ _ _)]; changes. }
  assert (Hrel : forall requestId p m sends s1 s2, R s1 s2 -> R s1 (start_relay requestId p m sends s2))
    by (intros; unfold start_relay; destruct (_ && _); changes).
  assert (Hfin : forall requestId reason response sends s, R s (finishWithCancellation requestId reason response sends s)).
  { intros. unfold finishWithCancellation, sendCancellation. destruct (jm_get _ _); [|done]. cbv zeta.
    destruct (sockets _ !! _); [destruct (_ && _)|]; changes. }
  assert (Hmov : forall already r s, R s (rollout_moved already r s).1).
  { intros. unfold rollout_moved, refreshOpenConnectorContractCompatibility. destruct already; cbn [fst]; [changes|].
    destruct (active_catalog _ _); cbn [fst]; changes. }
  intros e s. destruct e; cbn [EdgeSession.step]; try changes.
  - unfold handleConnectorUpgrade. destruct websocket; cbv zeta; cbn [negb fst]; [|changes].
    destruct (resolveConnectorProtocol _ _); cbn [fst]; changes.
  - unfold webSocketMessage. destruct message as [text|]; [|changes]. destruct (attachment_of s i) as [a|]; [|changes].
    destruct (if _ =? _ then _ else _) as [[r|id st h b]|]; [| |changes].
    + unfold connector_became_ready. cbv zeta. destruct (bool_decide _), (protocolVersion a =? EDGE_PROTOCOL_VERSION); changes.
    + unfold connector_responded. destruct (jm_get (pending s) id) as [p|]; [|done]. cbv zeta. destruct (_ <? _); [changes|].
      destruct Hlo as [Hlo|Hlo]; [|specialize (Hlo b st h)]; destruct (response_of _ _ _ _ _); try done;
        destruct (protocolVersion a =? EDGE_PROTOCOL_VERSION); changes.
  - unfold webSocketClose, failPendingRequestsForConnector. apply Hfold. eapply Htr; [apply Hdis|apply Hpe].
  - unfold webSocketError, failPendingRequestsForConnector. apply Hfold. eapply Htr; [apply Hdis|apply Hpe].
  - unfold relayAuthenticatedRequest. cbv zeta. destruct (getExecutionReadyConnector _ _ _); [|changes]. destruct (negb _); [changes|].
    destruct (_ <? _); [|apply Hrel]; changes.
  - destruct (handleAllowedRequest _ _ _); [|changes..]. unfold begin_legacy. cbv zeta. destruct (negb _); changes.
  - unfold legacy_body_read. destruct (reading s !! n); [|done]. cbv zeta. destruct (_ <? _); [|apply Hrel]; changes.
  - apply Hfin.
  - apply Hfin.
  - unfold promoteContractRolloutResult. destruct (rollout_input _ _ _) as [[? ?]|]; [|done].
    destruct (promoteMcpContractRolloutState _ _ _ _ _ _) as [[? ?]|]; [apply Hmov|done].
  - unfold rollbackContractRolloutResult. destruct (rollout_input _ _ _) as [[? ?]|]; [|done].
    destruct (rollbackMcpContractRolloutState _ _ _ _ _ _) as [[? ?]|]; [apply Hmov|done].
Qed.
(** Only a response that the platform refuses loses a promise; a cutover stays. *)
Lemma step_lost e s (Hh : forall v, header_value v = true) (Hok : forall b st h, response_ok b st h = true) : lost (step e s) = lost s.
Proof.
  apply (step_related (fun s s' => lost s' = lost s)); try done; [congruence|]. right. intros. by apply response_made.
Qed.
Lemma step_cutover e s : cutoverStored s = true -> cutoverStored (step e s) = true.
Proof.
  apply (step_related (fun s s' => cutoverStored s = true -> cutoverStored s' = true)); try done; [auto| |by left].
  intros m k s' H. cbn. by rewrite H.
Qed.

(** *** The end of a connection *)
Lemma failing_exact i reason s :
  let s' := failPendingRequestsForConnector i reason s in
  pending s' = List.filter (fun e => negb (p_connector e.2 =? i)%nat) (pending s)
  /\ settled s' = settled s ++ map (fun e => (p_promise e.2, failed reason e.2)) (List.filter (fun e => (p_connector e.2 =? i)%nat) (pending s))
  /\ sockets s' = sockets s /\ rollout s' = rollout s.
Proof.
  cbv zeta. unfold failPendingRequestsForConnector. fold (is_of i).
  set (s1 := with_pending _ s). assert (Hg : forall (l : list (string * PendingRelay)) s1,
    let s' := fold_left (fun s e => resolve (p_promise e.2) (failed reason e.2) s) l s1 in
    pending s' = pending s1 /\ settled s' = settled s1 ++ map (fun e => (p_promise e.2, failed reason e.2)) l
    /\ sockets s' = sockets s1 /\ rollout s' = rollout s1).
  { induction l as [|e l IH]; intros s2; cbn; [by rewrite app_nil_r|]. destruct (IH (resolve (p_promise e.2) (failed reason e.2) s2)) as (-> & -> & -> & ->).
    cbn. by rewrite <- app_assoc. }
  destruct (Hg (List.filter (is_of i) (pending s)) s1) as (-> & -> & -> & ->). done.
Qed.
Lemma disconnect_recorded i source code clean now s : Coherent s ->
  let s1 := recordConnectorDisconnect localeCompare i source code clean now s in
  pending s1 = pending s /\ settled s1 = settled s /\ (forall r, ~ serving s1 i r)
  /\ (forall j, j <> i -> attachment_of s1 j = attachment_of s j).
Proof.
  intros H. cbv zeta. unfold recordConnectorDisconnect. destruct (attachment_of s i) as [a|] eqn:Ea.
  2: { split_and!; [done..| |done]. intros r (k & b & Hk & _ & _ & Hb & _). unfold attachment_of in Ea. rewrite Hk in Ea. cbn in Ea. congruence. }
  apply bind_Some in Ea as (k & Hk & Ha). case_bool_decide as Hrec.
  - split_and!; [done..| |done]. intros r (k' & b & Hk' & _ & _ & Hb & Hr & _). simplify_eq.
    destruct (Forall_lookup_1 _ _ _ _ (co_versions _ _ H) Hk _ Ha) as (_ & Hn & _). rewrite Hn in Hr; done.
  - cbv zeta. set (s1 := on_socket _ _ s).
    assert (Hs1 : (forall r, ~ serving s1 i r) /\ (forall j, j <> i -> attachment_of s1 j = attachment_of s j)).
    { subst s1. split.
      - intros r (k' & b & Hk' & _ & _ & Hb & Hr & _). cbn in Hk'. rewrite list_lookup_alter_eq, Hk in Hk'. cbn in Hk'. simplify_eq/=. 
      - intros j Hj. unfold attachment_of. cbn. by rewrite list_lookup_alter_ne. }
    destruct (negb _); [by destruct Hs1|]. destruct (getPreferredExecutionReadyConnector _ _ _); by destruct Hs1.
Qed.

(** The timer of a relay answers it. *)
Lemma relay_times_out requestId p sends s : jm_wf (pending s) -> jm_get (pending s) requestId = Some p ->
  let s' := step (TimedOut requestId sends) s in
  jm_get (pending s') requestId = None /\ settled s' = settled s ++ [(p_promise p, json_error "connector_timeout" 504)].
Proof.
  intros Hw Hp. cbn [EdgeSession.step]. unfold relay_timed_out, finishWithCancellation, sendCancellation. rewrite Hp. cbv zeta.
  destruct (sockets _ !! _); [destruct (_ && _)|]; cbn; by rewrite jm_get_delete, String.eqb_refl.
Qed.

(** *** Waiting *)
Lemma wait_enough deadline clock sessions :
  (forall n, (clock n).1 <= (clock n).2
     /\ forall ms, wait_turn localeCompare deadline (clock n).1 (clock n).2 (sessions n) = sleep ms -> (clock n).2 + ms <= (clock (S n)).1) ->
  forall fuel n, deadline - (clock n).1 < Z.of_nat fuel -> 0 < Z.of_nat fuel ->
  exists m b, wait_loop localeCompare deadline clock sessions fuel n = Some (m, b).
Proof.
  intros Hc. induction fuel as [|fuel IH]; intros n Hd Hf; [lia|]. cbn [wait_loop]. destruct (Hc n) as [Hle Hms].
  destruct (wait_turn _ _ _ _ _) as [| |ms] eqn:E; [by do 2 eexists..|]. specialize (Hms ms eq_refl).
  unfold wait_turn in E. destruct (bool_decide _); [done|]. destruct (Z.ltb_spec (clock n).1 deadline); [|done]. injection E as <-.
  apply IH; lia.
Qed.
Lemma wait_decides deadline clock sessions fuel : forall n m b, wait_loop localeCompare deadline clock sessions fuel n = Some (m, b) ->
  if b then getExecutionReadyConnector localeCompare EDGE_PROTOCOL_VERSION (sessions m) <> None
  else getExecutionReadyConnector localeCompare EDGE_PROTOCOL_VERSION (sessions m) = None /\ deadline <= (clock m).1.
Proof.
  induction fuel as [|fuel IH]; intros n m b H; [done|]. cbn [wait_loop] in H. destruct (wait_turn _ _ _ _ _) as [| |ms] eqn:E; [| |by eapply IH].
  - injection H as <- <-. unfold wait_turn in E. case_bool_decide; [done|]. by destruct (_ <? _).
  - injection H as <- <-. unfold wait_turn in E. case_bool_decide as Hb; [done|]. destruct (Z.ltb_spec (clock n).1 deadline); [done|].
    split; [|done]. destruct (getExecutionReadyConnector _ _ _); [by destruct Hb|done].
Qed.

(** *** The cutover *)
Lemma protocol_after_cutover url v : resolveConnectorProtocol url true = Some v ->
  c_pathname url = "/connector"%string /\ c_searchParams url = [("protocol", "3")]%string /\ v = EDGE_PROTOCOL_VERSION.
Proof.
  unfold resolveConnectorProtocol. destruct (String.eqb_spec (c_pathname url) "/connector") as [->|]; [|done]. cbn [negb orb].
  destruct (negb _); [done|]. destruct (c_searchParams url) as [|[k u] rest]; [done|]. cbn.
  destruct (String.eqb_spec k "protocol") as [->|].
  - cbn. destruct (String.eqb_spec u "3") as [->|]; [|done]. cbn. destruct rest; cbn; [|done]. by intros [= <-].
  - destruct (find_first _ rest) as [[k' u']|] eqn:E; cbn; [|done]. destruct (u' =s "3"); [|done]. cbn. destruct rest; [done|]. done.
Qed.
End Connectors.

(** *** The properties *)
Section Properties.
Context `{JN : JsNumber} `{JR : !JsNumberRead JN} `{JI : !JsInteger JN} `{EP : EdgePlatform}.
Context (EXPECTED : string) (HE : isMcpContractRevision EXPECTED = true) (localeCompare : string -> string -> Z).
Context {LC : Consistent localeCompare}.
Context (header_value : string -> bool) (response_ok : string -> Z -> jsmap string -> bool).
Notation step := (step EXPECTED localeCompare header_value response_ok).
Notation reachable := (reachable EXPECTED localeCompare header_value response_ok).
Context (kept : option McpContractRolloutStateV1) (Hk : forall r, kept = Some r -> valid_state r = true).
Context (snapshots : list string) (t : EdgeRuntimeTelemetryV1) (cutover : bool) (since : string).
Notation started := (start EXPECTED kept snapshots t cutover [] since).
#[local] Arguments isMcpContractRevision : simpl never.

Ltac absurd_wanted := split; [done|]; intros (? & ? & ? & ? & ? & ? & ? & ?); congruence.
Lemma execution_wanted s i k a : Coherent EXPECTED s -> sockets s !! i = Some k ->
  eligible (mkWanted (Some EDGE_PROTOCOL_VERSION) true None (Some (activeContractRevision (rollout s)))) i k = Some a <->
  attachment k = Some a /\ exists r, runtime a = Some r /\ listed k = true /\ is_open k = true /\ ready a = true
    /\ protocolVersion a = EDGE_PROTOCOL_VERSION /\ catalogContractRevision r = activeContractRevision (rollout s).
Proof.
  intros H Hs. unfold eligible. cbn [w_closing w_version w_compatible w_revision]. rewrite bool_decide_true by done. cbn [andb].
  destruct (listed k) eqn:El; cbn [negb]; [|absurd_wanted].
  destruct (attachment k) as [b|] eqn:Ea; [|absurd_wanted].
  destruct (ready b) eqn:Er; cbn [negb orb]; [|absurd_wanted].
  destruct (Z.eqb_spec (protocolVersion b) EDGE_PROTOCOL_VERSION) as [Hv|Hv]; cbn [negb orb]; [|absurd_wanted].
  rewrite Hv. cbn [EDGE_PROTOCOL_VERSION LEGACY_EDGE_PROTOCOL_VERSION Z.eqb Pos.eqb negb andb].
  assert (contractCompatible b = Some (flag (rollout s) b)) as ->.
  { eapply (Forall_lookup_1 _ _ _ _ (co_flags _ _ H) Hs); done. }
  destruct (runtime b) as [r|] eqn:Eru; cbn [fmap option_fmap option_map].
  2: { rewrite (bool_decide_false (None = Some _)), orb_true_r by done. absurd_wanted. }
  destruct (decide (catalogContractRevision r = activeContractRevision (rollout s))) as [Hr|Hr].
  - rewrite (bool_decide_true (Some (catalogContractRevision r) = _)) by congruence. unfold flag. rewrite Hv, Eru. cbn.
    pose proof (proj1 (proj1 (valid_state_spec _) (co_valid _ _ H))) as Hrev. rewrite Hr, Hrev, String.eqb_refl. cbn.
    destruct (is_open k); cbn [negb]; [|absurd_wanted]. split; [intros [= <-]; split; [done|]; exists r; by split_and!|].
    by intros ([= <-] & _).
  - rewrite (bool_decide_false (Some (catalogContractRevision r) = _)), orb_true_r by congruence. absurd_wanted.
Qed.
Lemma serving_eligible s i r : Coherent EXPECTED s -> serving s i r <->
  exists k a, sockets s !! i = Some k /\ runtime a = Some r /\ protocolVersion a = EDGE_PROTOCOL_VERSION
    /\ eligible (mkWanted (Some EDGE_PROTOCOL_VERSION) true None (Some (activeContractRevision (rollout s)))) i k = Some a.
Proof.
  intros H. unfold serving. split.
  - intros (k & a & Hs & Hl & Ho & Ha & Hr & Hv & Hru & Hc). exists k, a. split_and!; [done..|].
    apply execution_wanted; [done..|]. split; [done|]. by exists r.
  - intros (k & a & Hs & Hru & _ & He). apply execution_wanted in He as (Ha & r' & Hru' & Hl & Ho & Hr & Hv & Hc); [|done..].
    exists k, a. simplify_eq. by split_and!.
Qed.

(** [invariant] Every request that the session has accepted is in one place and is answered at most once, whatever
    connectors, clients, timers and operators do in whatever order: its promise is
    settled, or pending with one entry, or its body is being read, or it was lost.  Promises are lost only to
    responses that the platform refuses. *)
Theorem edge_promises_settle_once s (Hr : reachable started s) :
  map fst (settled s) ++ lost s ++ map (fun e => p_promise e.2) (pending s) ++ map rd_promise (reading s)
    ≡ₚ seq 0 (promises s)
  /\ NoDup (map fst (settled s))
  /\ ((forall v, header_value v = true) -> (forall b st h, response_ok b st h = true) -> lost s = []).
Proof.
  assert (owing [] s) as [_ Ho].
  { induction Hr as [|s e Hr IH Ha]; [split; constructor|]. apply step_promises; [exact Ha|exact IH]. }
  split_and!; [done| |].
  - pose proof (NoDup_seq 0 (promises s)) as Hn. rewrite <- Ho in Hn.
    exact (proj1 (proj1 (NoDup_app (map fst (settled s)) _) Hn)).
  - intros Hh Hok. clear Ho. induction Hr as [|s e Hr IH Ha]; [done|]. by rewrite step_lost.
Qed.

(** [safety] A request goes to a connector that is open, ready and of the active revision, and to none that
    another such connector is preferred to; only when there is none is the request answered
    as unavailable.  It is sent on this one socket, and its entry names it. *)
Theorem edge_relay_exact s q body principal unavailable requestId now (Hr : reachable started s)
    (Ha : isAllowedEdgeRequest (q_method q) (q_path q) = true) (Hb : utf8ByteLength body <= MAX_EDGE_REQUEST_BODY_BYTES) :
  let s' := step (Relay q body principal unavailable requestId true now) s in
  (exists i r, serving s i r /\ (forall j r', serving s j r' -> isPreferredConnectorRuntime localeCompare (Some r') (Some r) = false)
     /\ sockets s' = alter (send_on EDGE_PROTOCOL_VERSION (http_request requestId (q_method q) (q_path q)
          (collectAllowedRequestHeaders (q_headers q)) body principal)) i (sockets s)
     /\ pending s' = jm_set (pending s) requestId (mkRelay (promises s) i EDGE_PROTOCOL_VERSION unavailable) /\ settled s' = settled s)
  \/ (~ (exists i r, serving s i r) /\ sockets s' = sockets s /\ pending s' = pending s
     /\ settled s' = settled s ++ [(promises s, default (json_error "connector_unavailable" 503) unavailable)]).
Proof using HE Hk LC.
  cbv zeta. pose proof (reachable_coherent EXPECTED HE _ _ _ _ _ (start_coherent EXPECTED HE kept snapshots t cutover since Hk) Hr) as H.
  cbn [EdgeSession.step]. unfold relayAuthenticatedRequest. cbv zeta. rewrite Ha, (proj2 (Z.ltb_ge _ _)) by done. cbn [negb].
  assert (H1 : Coherent EXPECTED (new_promise s)) by (by destruct H).
  unfold getExecutionReadyConnector. cbn [EDGE_PROTOCOL_VERSION LEGACY_EDGE_PROTOCOL_VERSION Z.eqb Pos.eqb].
  pose proof (selected_spec localeCompare (mkWanted (Some 3) true None (Some (activeContractRevision (rollout (new_promise s))))) (new_promise s)) as Hs.
  destruct (selectReadyConnector _ _ _) as [i|].
  - left. destruct Hs as (k & a & Hk' & He & Hbest). pose proof He as He'.
    apply (execution_wanted (new_promise s)) in He as (Ea & r & Eru & Hl & Ho & Hrd & Hv & Hc); [|done..].
    exists i, r. cbn in Hk'. split_and!; [| |unfold start_relay; cbn; rewrite Hk'; cbn; by rewrite Ho..].
    + exists k, a. by split_and!.
    + intros j r' Hj. apply serving_eligible in Hj as (k' & b & Hk2 & Hru' & Hv' & He2); [|done].
      specialize (Hbest j k' b Hk2 He2). unfold isPreferredConnectorAttachment in Hbest. rewrite Hv, Hv', Eru, Hru' in Hbest. exact Hbest.
  - right. split_and!; [|done..]. intros (i & r & Hser). apply serving_eligible in Hser as (k & a & Hk' & _ & _ & He); [|done].
    specialize (Hs i k Hk'). pose proof (eq_trans (eq_sym Hs) He). done.
Qed.

(** [error] When a connection ends, exactly the requests that were sent on it are answered, in their order, with
    what was agreed for an unavailable backend or with 503; every other request stays as it is, and the
    connector serves nothing until it says that it is ready again. *)
Theorem disconnect_fails_own s i code clean now (Hr : reachable started s) :
  forall s' reason, (s' = step (Closed i code clean now) s /\ reason = "connector_disconnected"%string)
                    \/ (s' = step (Failed i now) s /\ reason = "connector_error"%string) ->
  pending s' = List.filter (fun e => negb (p_connector e.2 =? i)%nat) (pending s)
  /\ settled s' = settled s ++ map (fun e => (p_promise e.2, failed reason e.2)) (List.filter (fun e => (p_connector e.2 =? i)%nat) (pending s))
  /\ (forall r, ~ serving s' i r)
  /\ (forall j, j <> i -> attachment_of s' j = attachment_of s j).
Proof using HE Hk.
  pose proof (reachable_coherent EXPECTED HE _ _ _ _ _ (start_coherent EXPECTED HE kept snapshots t cutover since Hk) Hr) as H.
  assert (Hd : forall source code clean, let s1 := recordConnectorDisconnect localeCompare i source code clean now s in
    pending s1 = pending s /\ settled s1 = settled s /\ (forall r, ~ serving s1 i r) /\ (forall j, j <> i -> attachment_of s1 j = attachment_of s j))
    by (intros; eapply disconnect_recorded; exact H).
  intros s' reason [[-> ->]|[-> ->]]; cbn [EdgeSession.step]; [unfold webSocketClose|unfold webSocketError].
  - destruct (Hd source_close (Some code) (Some clean)) as (Hp & Hs & Hn & Hj).
    destruct (failing_exact i "connector_disconnected" (recordConnectorDisconnect localeCompare i source_close (Some code) (Some clean) now s))
      as (E1 & E2 & E3 & E4). rewrite E1, E2, Hp, Hs. split_and!; [done..| |].
    + intros r (k & a & Hk' & Hser). apply (Hn r). exists k, a. rewrite <- E3, <- E4. by split.
    + intros j Hji. rewrite <- Hj by done. unfold attachment_of. by rewrite E3.
  - destruct (Hd source_error None None) as (Hp & Hs & Hn & Hj).
    destruct (failing_exact i "connector_error" (recordConnectorDisconnect localeCompare i source_error None None now s))
      as (E1 & E2 & E3 & E4). rewrite E1, E2, Hp, Hs. split_and!; [done..| |].
    + intros r (k & a & Hk' & Hser). apply (Hn r). exists k, a. rewrite <- E3, <- E4. by split.
    + intros j Hji. rewrite <- Hj by done. unfold attachment_of. by rewrite E3.
Qed.

(** [safety] The cutover is final: once a connector of version 3 has become ready, a new connection is
    accepted at any later time only when it asks for version 3, and speaks it. *)
Theorem cutover_final s i a s' websocket url s'' (Hr : reachable started s)
    (Ha : attachment_of s i = Some a) (Hrd : ready a = true) (Hv : protocolVersion a = EDGE_PROTOCOL_VERSION)
    (Hr' : reachable s s') (Hu : handleConnectorUpgrade websocket url s' = (s'', switching)) :
  c_pathname url = "/connector"%string /\ c_searchParams url = [("protocol", "3")]%string
  /\ exists k, sockets s'' = sockets s' ++ [k] /\ protocolVersion <$> attachment k = Some EDGE_PROTOCOL_VERSION.
Proof using HE Hk.
  pose proof (reachable_coherent EXPECTED HE _ _ _ _ _ (start_coherent EXPECTED HE kept snapshots t cutover since Hk) Hr) as H.
  assert (Hc : cutoverStored s = true).
  { apply bind_Some in Ha as (k & Hk' & Ha). by destruct (Forall_lookup_1 _ _ _ _ (co_versions _ _ H) Hk' a Ha) as (_ & _ & ?); auto. }
  assert (Hc' : cutoverStored s' = true).
  { clear Hu. induction Hr' as [|s1 e Hr1 IH Ha1]; [done|]. apply step_cutover. by apply IH. }
  unfold handleConnectorUpgrade in Hu. destruct websocket; [|done]. cbn [negb] in Hu. cbv zeta in Hu. rewrite Hc', orb_true_r in Hu.
  destruct (resolveConnectorProtocol url true) as [v|] eqn:Ev; [|done]. apply protocol_after_cutover in Ev as (Hp & Hq & ->).
  injection Hu as <-. split_and!; [done..|]. by eexists.
Qed.

(** [termination] Waiting for a connector ends: when the clock moves on by at least what was slept, the loop has
    decided after at most as many turns as there were milliseconds left of the grace and one more, at
    most 3001 after the disconnection; it gives up only at a turn without a ready connector and
    past the deadline. *)
Theorem reconnect_wait_ends deadline (clock : nat -> Z * Z) (sessions : nat -> Session)
    (Hc : forall n, (clock n).1 <= (clock n).2
          /\ forall ms, wait_turn localeCompare deadline (clock n).1 (clock n).2 (sessions n) = sleep ms -> (clock n).2 + ms <= (clock (S n)).1) :
  (exists n b, wait_loop localeCompare deadline clock sessions (S (Z.to_nat (deadline - (clock 0%nat).1))) 0 = Some (n, b))
  /\ forall fuel n b, wait_loop localeCompare deadline clock sessions fuel 0 = Some (n, b) ->
       if b then getExecutionReadyConnector localeCompare EDGE_PROTOCOL_VERSION (sessions n) <> None
       else getExecutionReadyConnector localeCompare EDGE_PROTOCOL_VERSION (sessions n) = None /\ deadline <= (clock n).1.
Proof.
  split.
  - apply wait_enough; [done| |lia]. rewrite Nat2Z.inj_succ. destruct (Z.le_ge_cases deadline (clock 0%nat).1).
    + lia.
    + rewrite Z2Nat.id by lia. lia.
  - intros fuel n b. by apply wait_decides.
Qed.
End Properties.

(** *** A connector, a call and its answer *)
Module Trial.
#[local] Existing Instance EdgeProtocol.Trial.platform.
Definition EXPECTED : string := EdgeProtocol.Trial.revision "a".
Definition compare (a b : string) : Z := 0.
#[local] Instance compare_consistent : Consistent compare.
Proof. by constructor. Qed.
Definition header_value (v : string) : bool := negb (has_char LF v).
(** What the Fetch standard asks of a response with a body. *)
Definition response_ok (body : string) (status : Z) (headers : jsmap string) : bool :=
  (200 <=? status) && (status <=? 599) && negb (includes [204; 205; 304] status).
Notation step := (step (JN := whole_numbers) EXPECTED compare header_value response_ok).
Notation reachable := (reachable (JN := whole_numbers) EXPECTED compare header_value response_ok).
Notation start := (start EXPECTED None [] createEmptyConnectorTelemetry false [] "t0").

Definition text_of_message (m : ConnectorToEdgeMessage) : option string :=
  match JSON_stringify (JN := whole_numbers) (connector_message_value EDGE_PROTOCOL_VERSION m) with Ok t => t | Err _ => None end.
Definition url : ConnectorUrl := mkConnectorUrl "/connector" EmptyString [("protocol", "3")]%string.
Definition q : EdgeRequest := mkRequest "POST" "/mcp" [("accept", "*/*")]%string.
Definition connected : Session := step (Message 0 (text_of_message EdgeProtocol.Trial.ready) "t1") (step (Upgrade true url) start).
Definition called : Session := step (Relay q "{}" EdgeProtocol.Trial.caller None "id-1" true "t2") connected.
Definition answered (status : Z) : Session :=
  step (Message 0 (text_of_message (http_response "id-1" status None "ok")) "t3") called.

Lemma connected_reachable : reachable start connected.
Proof. apply reach_step; [apply reach_step; [constructor|exact I]|exact I]. Qed.
Lemma called_reachable : reachable start called.
Proof. apply reach_step; [apply connected_reachable|vm_compute; reflexivity]. Qed.
Lemma answered_reachable status : reachable start (answered status).
Proof. apply reach_step; [apply called_reachable|exact I]. Qed.
Example answered_settled : map fst (settled (answered 200)) = [0%nat] /\ lost (answered 200) = [] /\ pending (answered 200) = [].
Proof. vm_compute. by split_and!. Qed.
(** An answer with status 204 is accepted from the connector and never reaches the client: the entry is gone and
    the constructor of [Response] throws. *)
Lemma no_content_lost : settled (answered 204) = [] /\ lost (answered 204) = [0%nat] /\ pending (answered 204) = [].
Proof. vm_compute. by split_and!. Qed.
Lemma no_state : forall r, @None McpContractRolloutStateV1 = Some r -> valid_state r = true.
Proof. done. Qed.

Lemma edge_promises_settle_once_witness :
  promises called = 1%nat /\ map fst (settled called) ++ lost called ++ map (fun e => p_promise e.2) (pending called) ++ map rd_promise (reading called) ≡ₚ [0%nat].
Proof.
  split; [vm_compute; reflexivity|].
  destruct (edge_promises_settle_once EXPECTED compare header_value response_ok None [] createEmptyConnectorTelemetry false "t0" called called_reachable) as [H _].
  exact H.
Defined.
Lemma edge_relay_exact_witness :
  exists i r, serving connected i r /\ pending called = jm_set (pending connected) "id-1" (mkRelay (promises connected) i EDGE_PROTOCOL_VERSION None).
Proof.
  destruct (edge_relay_exact EXPECTED ltac:(vm_compute; reflexivity) compare header_value response_ok None no_state [] createEmptyConnectorTelemetry false "t0"
    connected q "{}" EdgeProtocol.Trial.caller None "id-1" "t2" connected_reachable ltac:(vm_compute; reflexivity) ltac:(vm_compute; discriminate))
    as [(i & r & Hs & _ & _ & Hp & _)|(_ & _ & Hp & _)]; [exists i, r; split; [exact Hs|exact Hp]|].
  exfalso. vm_compute in Hp. discriminate Hp.
Defined.
Lemma disconnect_fails_own_witness :
  settled (step (Closed 0 1006 false "t3") called) = [(0%nat, json_error "connector_disconnected" 503)].
Proof.
  destruct (disconnect_fails_own EXPECTED ltac:(vm_compute; reflexivity) compare header_value response_ok None no_state [] createEmptyConnectorTelemetry false "t0"
    called 0 1006 false "t3" called_reachable _ "connector_disconnected" (or_introl (conj eq_refl eq_refl))) as (_ & H & _).
  rewrite H. vm_compute. reflexivity.
Defined.
Definition answer_ready (s : Session) : bool := match attachment_of s 0 with Some a => ready a | None => false end.
Lemma cutover_final_witness :
  exists k, sockets (handleConnectorUpgrade true url called).1 = sockets called ++ [k] /\ protocolVersion <$> attachment k = Some EDGE_PROTOCOL_VERSION.
Proof.
  destruct (attachment_of connected 0) as [a|] eqn:Ea; [|vm_compute in Ea; discriminate Ea].
  destruct (cutover_final EXPECTED ltac:(vm_compute; reflexivity) compare header_value response_ok None no_state [] createEmptyConnectorTelemetry false "t0"
    connected 0 a called true url (handleConnectorUpgrade true url called).1 connected_reachable Ea) as (_ & _ & H).
  - vm_compute in Ea. injection Ea as <-. reflexivity.
  - vm_compute in Ea. injection Ea as <-. reflexivity.
  - apply reach_step; [constructor|vm_compute; reflexivity].
  - vm_compute. reflexivity.
  - exact H.
Defined.
Lemma reconnect_wait_ends_witness :
  exists n b, wait_loop compare 120 (fun n => (60 * Z.of_nat n, 60 * Z.of_nat n)) (fun _ => start) 121 0 = Some (n, b).
Proof.
  destruct (reconnect_wait_ends compare 120 (fun n => (60 * Z.of_nat n, 60 * Z.of_nat n)) (fun _ => start)) as [H _]; [|exact H].
  intros n. split; [cbn; lia|]. intros ms. unfold wait_turn. cbn [fst snd].
  replace (bool_decide _) with false by (vm_compute; reflexivity). destruct (_ <? _); [|discriminate]. intros [= <-].
  unfold EDGE_CONNECTOR_RECONNECT_POLL_MS. lia.
Defined.
End Trial.
End EdgeSession.
