(* ===== verification/EdgeTrust.v ===== *)
(** Trust between the connector and the gateway: services/mcp-gateway/src/edge/internal-trust.ts.

    The connector calls the gateway on the loopback interface with two headers: a secret assertion and the
    principal that the edge authenticated, as base64url of its JSON text.  The middleware of the gateway takes
    both away and sets [request.auth]. *)
From S2P Require Import Prelude Errors JsString JsRegex JsMap Json JsonText Zod JsBuffer EdgeProtocol.
Import EdgeProtocol.
Open Scope string_scope.
Open Scope Z_scope.

Module EdgeTrust.

Definition EDGE_INTERNAL_ASSERTION_HEADER : string := "x-mcp-edge-internal-assertion".
Definition EDGE_INTERNAL_PRINCIPAL_HEADER : string := "x-mcp-edge-principal".
Definition MAX_PRINCIPAL_HEADER_BYTES : nat := (8 * 1024)%nat.
Definition MIN_INTERNAL_ASSERTION_LENGTH : nat := 43.
Definition MAX_INTERNAL_ASSERTION_LENGTH : nat := 128.

Definition invalid_assertion : exn := Native "Error".
Definition assertValidEdgeInternalAssertion (v : string) : result exn unit :=
  if (String.length v <? MIN_INTERNAL_ASSERTION_LENGTH)%nat || (MAX_INTERNAL_ASSERTION_LENGTH <? String.length v)%nat
     || negb (test BASE64URL_PATTERN v)
  then Err invalid_assertion else Ok tt.

(** [request.auth]. *)
Record AuthInfo := mkAuth {
  auth_token : string;
  clientId : string;
  auth_scopes : list string;
  auth_subject : string;
  auth_ownerScope : option string;
}.
(** What the middleware reads and writes of a request; the names of [headers] are in small letters. *)
Record AuthenticatedRequest := mkIncoming { headers : jsmap string; auth : option AuthInfo }.
Inductive Trusted := unauthorized (error : string) (status : Z) | next (request : AuthenticatedRequest).

Section Trust.
Context `{JN : JsNumber} `{JR : !JsNumberRead JN} `{JI : !JsInteger JN} (sha256 : string -> string).

Definition encodeEdgeAuthenticatedPrincipal (principal : AuthenticatedEdgePrincipal) : result exn string :=
  text ← JSON_stringify (principal_value principal);
  match text with
  | Some text => Ok (base64url_encode (utf8_encode text))
  | None => Err (Native "TypeError")
  end.

Definition decodeEdgeAuthenticatedPrincipal (v : string) : option AuthenticatedEdgePrincipal :=
  if sempty v || (MAX_PRINCIPAL_HEADER_BYTES <? String.length v)%nat || negb (test BASE64URL_PATTERN v) then None
  else
    let buffer := base64url_decode v in
    if negb (base64url_encode buffer =s v) then None else
    text ← utf8_decode buffer;
    match JSON_parse text with Ok parsed => parseAuthenticatedEdgePrincipal parsed | Err _ => None end.

Definition trusted_auth (principal : AuthenticatedEdgePrincipal) : AuthInfo :=
  mkAuth "edge-trusted" "edge-control-plane" (scopes principal) (subject principal) (ownerScope principal).
(** An absent header and an empty one are refused alike. *)
Definition createEdgeTrustedAuthenticationMiddleware (internalAssertion : string) :
    result exn (AuthenticatedRequest -> Trusted) :=
  _ ← assertValidEdgeInternalAssertion internalAssertion;
  let expectedDigest := sha256 internalAssertion in
  Ok (fun request =>
    let assertion := default EmptyString (jm_get (headers request) EDGE_INTERNAL_ASSERTION_HEADER) in
    let encodedPrincipal := default EmptyString (jm_get (headers request) EDGE_INTERNAL_PRINCIPAL_HEADER) in
    if sempty assertion || sempty encodedPrincipal || negb (expectedDigest =s sha256 assertion)
    then unauthorized "edge_trust_invalid" 401
    else match decodeEdgeAuthenticatedPrincipal encodedPrincipal with
         | None => unauthorized "edge_trust_invalid" 401
         | Some principal =>
             next (mkIncoming (jm_delete (jm_delete (headers request) EDGE_INTERNAL_ASSERTION_HEADER) EDGE_INTERNAL_PRINCIPAL_HEADER)
                     (Some (trusted_auth principal)))
         end).
End Trust.

Section Properties.
Context `{JN : JsNumber} {JL : JsNumberLaws JN} {JR : JsNumberRead JN} {JRL : JsNumberReadLaws JN JR}.
Context {JI : JsInteger JN} {JIL : JsIntegerLaws JN JI} (sha256 : string -> string).

Lemma assertion_valid v : assertValidEdgeInternalAssertion v = Ok tt
  <-> (43 <= String.length v <= 128)%nat /\ sforall (fun c => has_char c BASE64URL) v = true.
Proof.
  unfold assertValidEdgeInternalAssertion, MIN_INTERNAL_ASSERTION_LENGTH, MAX_INTERNAL_ASSERTION_LENGTH.
  assert (H : test BASE64URL_PATTERN v = true <-> sforall (fun c => has_char c BASE64URL) v = true /\ (1 <= String.length v)%nat).
  { unfold BASE64URL_PATTERN, plus, oneof. rewrite test_run. unfold within. split; [intros (? & ? & _)|intros []]; by repeat split. }
  destruct (test BASE64URL_PATTERN v); cbn [negb orb].
  - destruct (proj1 H eq_refl) as [-> _]. destruct (Nat.ltb_spec (String.length v) 43), (Nat.ltb_spec 128 (String.length v)); cbn;
      split; try done; try lia.
  - rewrite !orb_true_r. split; [done|]. intros [? Hs]. enough (false = true) by done. apply H. split; [done|lia].
Qed.

Lemma empty_text_no_object o es : JSON_parse EmptyString = Ok (VObject o es) -> False.
Proof.
  unfold JSON_parse. assert (parse_value (S (2 * String.length EmptyString)) EmptyString = read_literal EmptyString) as -> by done.
  unfold read_literal. cbn [startsWith String.prefix span]. by destruct (number_read EmptyString).
Qed.

(** The header of a principal: its text is read back, unless it is too long for a header. *)
Lemma encoded_principal p : exists v, encodeEdgeAuthenticatedPrincipal p = Ok v
  /\ decodeEdgeAuthenticatedPrincipal v
     = if (String.length v <=? MAX_PRINCIPAL_HEADER_BYTES)%nat && valid_principal p then Some p else None.
Proof using JL JRL JIL.
  destruct (arrival _ (same_principal p)) as (t & Et & Ep). exists (base64url_encode (utf8_encode t)).
  unfold encodeEdgeAuthenticatedPrincipal. rewrite Et. split; [done|]. unfold decodeEdgeAuthenticatedPrincipal.
  set (v := base64url_encode (utf8_encode t)).
  destruct t as [|c t].
  { exfalso. by apply empty_text_no_object in Ep. }
  assert (Hne : sempty v = false /\ test BASE64URL_PATTERN v = true).
  { unfold v. rewrite base64url_encode_pattern. cbn [utf8_encode]. destruct (char_code c <? 128)%N; cbn [sempty negb]; split; try done;
      cbn; repeat (case_match; try done). }
  destruct Hne as [-> ->]. cbn [orb negb]. rewrite orb_false_r, Nat.ltb_antisym.
  destruct (String.length v <=? _)%nat; cbn [negb andb]; [|done].
  unfold v. rewrite base64url_decode_encode, String.eqb_refl. cbn [negb]. rewrite utf8_decode_encode. cbn [mbind option_bind].
  by rewrite Ep, principal_of.
Qed.

(** [roundtrip] The header that the connector makes of a principal is read back to the same principal exactly when
    the principal is well formed and the header has at most 8192 characters.  Conversely whatever header is read,
    is the one text of its bytes and gives a well-formed principal. *)
Theorem principal_header_roundtrip p :
  (exists v, encodeEdgeAuthenticatedPrincipal p = Ok v
     /\ (decodeEdgeAuthenticatedPrincipal v = Some p <-> valid_principal p = true /\ (String.length v <= MAX_PRINCIPAL_HEADER_BYTES)%nat))
  /\ (forall v q, decodeEdgeAuthenticatedPrincipal v = Some q ->
        valid_principal q = true /\ v = base64url_encode (base64url_decode v) /\ (String.length v <= MAX_PRINCIPAL_HEADER_BYTES)%nat).
Proof using JL JRL JIL.
  split.
  - destruct (encoded_principal p) as (v & Ev & Ed). exists v. split; [done|]. rewrite Ed.
    destruct (Nat.leb_spec (String.length v) MAX_PRINCIPAL_HEADER_BYTES); destruct (valid_principal p); cbn [andb]; split; try done;
      intros [? ?]; try done; lia.
  - intros v q. unfold decodeEdgeAuthenticatedPrincipal.
    destruct (sempty v); [done|]. destruct (Nat.ltb_spec MAX_PRINCIPAL_HEADER_BYTES (String.length v)); [done|].
    destruct (test _ v); [|done]. cbn [orb negb]. destruct (String.eqb_spec (base64url_encode (base64url_decode v)) v) as [E|]; [|done].
    cbn [negb]. intros (t & _ & Hq)%bind_Some. destruct (JSON_parse t); [|done]. by apply principal_some in Hq.
Qed.

Lemma deleted_both {A} (m : jsmap A) a b :
  jm_delete (jm_delete m a) b = List.filter (fun e => negb (e.1 =s a) && negb (e.1 =s b)) m.
Proof.
  unfold jm_delete. induction m as [|[k x] m IH]; [done|]. cbn [List.filter fst]. rewrite !(String.eqb_sym k).
  destruct (a =s k); cbn [negb andb]; [done|]. cbn [List.filter fst]. rewrite IH. done.
Qed.

(** [safety] A request passes the gateway exactly when its assertion is the configured secret (its digest is) and its
    principal is read; it then carries exactly the rights of this principal, and neither of the two headers
    goes further. *)
Theorem trusted_request_exact secret handler (Hh : createEdgeTrustedAuthenticationMiddleware sha256 secret = Ok handler) q q' :
  handler q = next q' <->
  exists assertion v p,
    jm_get (headers q) EDGE_INTERNAL_ASSERTION_HEADER = Some assertion /\ assertion <> EmptyString /\ sha256 assertion = sha256 secret
    /\ jm_get (headers q) EDGE_INTERNAL_PRINCIPAL_HEADER = Some v /\ decodeEdgeAuthenticatedPrincipal v = Some p
    /\ auth q' = Some (mkAuth "edge-trusted" "edge-control-plane" (scopes p) (subject p) (ownerScope p))
    /\ headers q' = List.filter (fun e => negb (e.1 =s EDGE_INTERNAL_ASSERTION_HEADER) && negb (e.1 =s EDGE_INTERNAL_PRINCIPAL_HEADER)) (headers q).
Proof using JL JRL JIL.
  unfold createEdgeTrustedAuthenticationMiddleware in Hh. apply bind_ok in Hh as (_ & _ & [= <-]).
  split.
  - intros H. cbv beta zeta in H. destruct (jm_get (headers q) EDGE_INTERNAL_ASSERTION_HEADER) as [a|] eqn:Ea; [|done]. cbn [from_option id] in H. destruct (sempty a) eqn:Hae; cbn [orb from_option id sempty] in H; [congruence|].
    destruct (jm_get (headers q) EDGE_INTERNAL_PRINCIPAL_HEADER) as [v|] eqn:Ev; [|cbn [from_option id sempty orb] in H; congruence]. cbn [from_option id] in H. destruct (sempty v) eqn:Hve; cbn [orb from_option id sempty] in H; [congruence|].
    destruct (String.eqb_spec (sha256 secret) (sha256 a)) as [Hd|]; [|done]. cbn [negb] in H.
    destruct (decodeEdgeAuthenticatedPrincipal v) as [p|] eqn:Ed; [|done]. injection H as <-.
    exists a, v, p. split_and!; try done. + by intros ->. + cbn [headers]. apply deleted_both.
  - intros (a' & v' & p & Ea & Hae & Hd & Ev & Ed & Hauth & Hh). cbv beta zeta. rewrite Ea, Ev. cbn [from_option id].
    destruct a' as [|c a']; [done|]. destruct v' as [|d v']; [done|]. cbn [sempty orb]. rewrite Hd, String.eqb_refl. cbn [negb].
    rewrite Ed, deleted_both, <- Hh. destruct q'; cbn in *. unfold trusted_auth. congruence.
Qed.
End Properties.

(** *** A call that passes, and a caller whose header is too long *)
Module Trial.
Definition secret : string := String.concat EmptyString (repeat "x" 43).
Definition digest_of (s : string) : string := s.
Definition caller : AuthenticatedEdgePrincipal := mkPrincipal "owner" ["workspaces:read"; "workspaces:write"] (Some "o1").
Definition header : string := match encodeEdgeAuthenticatedPrincipal (JN := whole_numbers) caller with Ok v => v | Err _ => EmptyString end.
Definition incoming : AuthenticatedRequest :=
  mkIncoming [("accept", "*/*"); (EDGE_INTERNAL_ASSERTION_HEADER, secret); (EDGE_INTERNAL_PRINCIPAL_HEADER, header)] None.
Lemma principal_header_roundtrip_witness : exists v,
  encodeEdgeAuthenticatedPrincipal (JN := whole_numbers) caller = Ok v /\ decodeEdgeAuthenticatedPrincipal (JN := whole_numbers) v = Some caller.
Proof.
  destruct (principal_header_roundtrip (JN := whole_numbers) caller) as [(v & Ev & Hv) _]. exists v. split; [done|].
  apply Hv. split; [by vm_compute|].
  assert (match encodeEdgeAuthenticatedPrincipal (JN := whole_numbers) caller with
          | Ok v => (String.length v <=? MAX_PRINCIPAL_HEADER_BYTES)%nat | Err _ => false end = true) as H by by vm_compute.
  rewrite Ev in H. by apply Nat.leb_le.
Defined.
Lemma trusted_request_exact_witness : exists handler,
  createEdgeTrustedAuthenticationMiddleware (JN := whole_numbers) digest_of secret = Ok handler
  /\ handler incoming = next (mkIncoming [("accept", "*/*")]
       (Some (mkAuth "edge-trusted" "edge-control-plane" ["workspaces:read"; "workspaces:write"] "owner" (Some "o1")))).
Proof.
  assert (Hok : is_ok (createEdgeTrustedAuthenticationMiddleware (JN := whole_numbers) digest_of secret) = true) by by vm_compute.
  destruct (createEdgeTrustedAuthenticationMiddleware digest_of secret) as [handler|e] eqn:E; [|done]. exists handler. split; [done|].
  apply (trusted_request_exact (JN := whole_numbers) digest_of secret handler E).
  exists secret, header, caller. split_and!; vm_compute; done.
Defined.
(** A principal may have 64 scopes of 256 characters, which is more than a header may hold. *)
Definition scope (n : nat) : string := String.concat EmptyString (repeat (str1 (ascii_of_nat (33 + n))) 256).
Definition wide : AuthenticatedEdgePrincipal := mkPrincipal "owner" (map scope (seq 0 64)) None.
Lemma wide_principal_refused : valid_principal wide = true
  /\ forall v, encodeEdgeAuthenticatedPrincipal (JN := whole_numbers) wide = Ok v -> decodeEdgeAuthenticatedPrincipal (JN := whole_numbers) v = None.
Proof.
  split; [by vm_compute|]. intros v Hv. destruct (encoded_principal (JN := whole_numbers) wide) as (v' & Ev & Ed).
  rewrite Hv in Ev. injection Ev as <-. rewrite Ed.
  assert ((String.length v <=? MAX_PRINCIPAL_HEADER_BYTES)%nat = false) as ->; [|done].
  assert (match encodeEdgeAuthenticatedPrincipal (JN := whole_numbers) wide with Ok v => (String.length v <=? MAX_PRINCIPAL_HEADER_BYTES)%nat | Err _ => false end = false) as H by by vm_compute.
  by rewrite Hv in H.
Qed.
End Trial.
End EdgeTrust.
