(* ===== verification/EdgeConnector.v ===== *)
(** The connector: services/mcp-gateway/src/edge/connector.ts.

    The connector keeps one WebSocket to the edge and forwards the requests that arrive on it to the gateway on the
    loopback interface.  [Connector] is its state; each handler of the socket, each end of a call to the gateway and
    each turn of [run] is a function on it, and [step] is one such event, in any order.

    A request that was admitted is a [Call], in the order of admission; [activeRequests] maps its identifier to it, as
    the map of the source holds its abort controller.  The answer of [fetch] is an input; [await] is made explicit: a
    call that has ended is taken out of the map in a turn of its own ([call_left]).
    Logging and the jitter of the delay (a product of binary fractions) are left out. *)
From S2P Require Import Prelude Errors JsString JsRegex JsMap Json JsonText Zod JsBuffer JsUrl EdgeProtocol EdgeTrust.
Import EdgeProtocol EdgeTrust.
Open Scope string_scope.
Open Scope list_scope.
Open Scope Z_scope.

Module EdgeConnector.

Definition DEFAULT_MAX_PAYLOAD_BYTES : Z := 24 * 1024 * 1024.
Definition DEFAULT_MAX_CONCURRENT_REQUESTS : Z := 8.
Definition DEFAULT_HEARTBEAT_MS : Z := 30000.
Definition DEFAULT_RECONNECT_MIN_MS : Z := 1000.
Definition DEFAULT_RECONNECT_MAX_MS : Z := 30000.
Definition C_REQUEST_HEADER_ALLOWLIST : list string :=
  ["accept"; "content-type"; "mcp-protocol-version"; "mcp-session-id"; "origin"; "x-openai-session"; "x-openai-subject"].
Definition C_RESPONSE_HEADER_ALLOWLIST : list string :=
  ["allow"; "cache-control"; "content-type"; "location"; "mcp-protocol-version"; "mcp-session-id"; "origin";
   "retry-after"; "www-authenticate"].

Record EdgeConnectorOptions := mkOptions {
  o_edgeUrl : string;
  o_token : string;
  o_internalAssertion : string;
  o_localBaseUrl : string;
  o_runtimeIdentity : option ConnectorRuntimeIdentity;
  o_maxPayloadBytes : option Z;
  o_maxConcurrentRequests : option Z;
  o_heartbeatIntervalMs : option Z;
  o_reconnectMinMs : option Z;
  o_reconnectMaxMs : option Z;
}.
(** The fields that the constructor sets for good. *)
Record Config := mkConfig {
  localBaseUrl : Url;
  maxPayloadBytes : Z;
  maxConcurrentRequests : Z;
  heartbeatIntervalMs : Z;
  reconnectMinMs : Z;
  reconnectMaxMs : Z;
  internalAssertion : string;
  runtimeIdentity : option ConnectorRuntimeIdentity;
}.

(** *** Connections and calls *)
Inductive ReadyState := CONNECTING | OPEN | CLOSING | CLOSED.
#[export] Instance ReadyState_eq_dec : EqDecision ReadyState.
Proof. solve_decision. Defined.

(** A socket with the variables of its [connectOnce]; what was sent on it, with the call that it answers. *)
Record Connection := mkConnection {
  k_generation : Z;
  readyState : ReadyState;
  protocolReady : bool;
  connectionStartedAtMs : Z;
  connectedAtMs : option Z;
  readyAtMs : option Z;
  pingCount : Z;
  pongCount : Z;
  heartbeatTimeout : bool;
  isAlive : bool;
  heartbeat : bool;
  closed_with : list Z;
  sent : list (option nat * ConnectorToEdgeMessage);
}.
Record Fetch := mkFetch { f_url : Url; f_method : string; f_headers : jsmap string; f_body : option string }.
Inductive Phase := Fetching (f : Fetch) | Leaving (threw : bool) | Left.
Record Call := mkCall {
  c_connection : nat;
  c_requestId : string;
  c_aborted : option string;
  c_phase : Phase;
}.
Inductive Loop := connecting (i : nat) | sleeping | ended.

Record Connector := mkConnector {
  activeRequests : jsmap nat;
  calls : list Call;
  connections : list Connection;
  socket : option nat;
  stopped : bool;
  generation : Z;
  connectionFailures : Z;
  consecutiveFailures : Z;
  offlineSinceMs : option Z;
  reconnectDelay : Z;
  loop : Loop;
}.
Definition set_readyState (s : ReadyState) (codes : list Z) (k : Connection) : Connection :=
  mkConnection (k_generation k) s (protocolReady k) (connectionStartedAtMs k) (connectedAtMs k) (readyAtMs k) (pingCount k)
    (pongCount k) (heartbeatTimeout k) (isAlive k) (heartbeat k) (closed_with k ++ codes) (sent k).
Definition with_sent (origin : option nat) (m : ConnectorToEdgeMessage) (k : Connection) : Connection :=
  mkConnection (k_generation k) (readyState k) (protocolReady k) (connectionStartedAtMs k) (connectedAtMs k) (readyAtMs k)
    (pingCount k) (pongCount k) (heartbeatTimeout k) (isAlive k) (heartbeat k) (closed_with k) (sent k ++ [(origin, m)]).
Definition with_ready (now : Z) (k : Connection) : Connection :=
  mkConnection (k_generation k) (readyState k) true (connectionStartedAtMs k) (connectedAtMs k) (Some now) (pingCount k)
    (pongCount k) (heartbeatTimeout k) (isAlive k) (heartbeat k) (closed_with k) (sent k).
Definition with_beat (ping pong : Z) (timeout alive running : bool) (connectedAt : option Z) (k : Connection) : Connection :=
  mkConnection (k_generation k) (readyState k) (protocolReady k) (connectionStartedAtMs k) connectedAt (readyAtMs k) ping pong
    timeout alive running (closed_with k) (sent k).
Definition set_phase (p : Phase) (c : Call) : Call := mkCall (c_connection c) (c_requestId c) (c_aborted c) p.
(** [controller.abort(reason)]: the first reason stays. *)
Definition abort_call (reason : string) (c : Call) : Call :=
  mkCall (c_connection c) (c_requestId c) (match c_aborted c with Some r => Some r | None => Some reason end) (c_phase c).

Definition with_active (m : jsmap nat) (c : Connector) : Connector :=
  mkConnector m (calls c) (connections c) (socket c) (stopped c) (generation c) (connectionFailures c) (consecutiveFailures c)
    (offlineSinceMs c) (reconnectDelay c) (loop c).
Definition with_calls (f : list Call -> list Call) (c : Connector) : Connector :=
  mkConnector (activeRequests c) (f (calls c)) (connections c) (socket c) (stopped c) (generation c) (connectionFailures c)
    (consecutiveFailures c) (offlineSinceMs c) (reconnectDelay c) (loop c).
Definition with_connections (f : list Connection -> list Connection) (c : Connector) : Connector :=
  mkConnector (activeRequests c) (calls c) (f (connections c)) (socket c) (stopped c) (generation c) (connectionFailures c)
    (consecutiveFailures c) (offlineSinceMs c) (reconnectDelay c) (loop c).
Definition with_socket (s : option nat) (stop : bool) (c : Connector) : Connector :=
  mkConnector (activeRequests c) (calls c) (connections c) s (stopped c || stop) (generation c) (connectionFailures c)
    (consecutiveFailures c) (offlineSinceMs c) (reconnectDelay c) (loop c).
Definition with_counts (gen total consecutive : Z) (offline : option Z) (c : Connector) : Connector :=
  mkConnector (activeRequests c) (calls c) (connections c) (socket c) (stopped c) gen total consecutive offline
    (reconnectDelay c) (loop c).
Definition with_loop (delay : Z) (l : Loop) (c : Connector) : Connector :=
  mkConnector (activeRequests c) (calls c) (connections c) (socket c) (stopped c) (generation c) (connectionFailures c)
    (consecutiveFailures c) (offlineSinceMs c) delay l.
Definition on_connection (i : nat) (f : Connection -> Connection) (c : Connector) : Connector := with_connections (alter f i) c.
Definition on_call (n : nat) (f : Call -> Call) (c : Connector) : Connector := with_calls (alter f n) c.

(** [socket.close(code)], [socket.terminate()] and [socket.send(text)] of the ws library. *)
Definition close_socket (code : Z) (k : Connection) : Connection :=
  match readyState k with
  | CONNECTING => set_readyState CLOSING [] k
  | OPEN => set_readyState CLOSING [code] k
  | CLOSING | CLOSED => k
  end.
Definition terminate (k : Connection) : Connection :=
  match readyState k with CLOSED => k | _ => set_readyState CLOSING [] k end.
Definition send_on (origin : option nat) (m : ConnectorToEdgeMessage) (k : Connection) : Connection :=
  if bool_decide (readyState k = OPEN) then with_sent origin m k else k.

Section EdgeConnector.
Context `{JN : JsNumber} `{JR : !JsNumberRead JN} `{JI : !JsInteger JN} `{EP : EdgePlatform}.
(** [new URL(value)] and [new URL(value, base)]; [Headers.set] takes the value. *)
Context (new_URL : string -> option Url) (resolve_URL : string -> Url -> option Url) (header_value : string -> bool).

(** *** The constructor *)
Definition invalid (message : string) : exn := app_error INVALID_ARGUMENT message.
Definition parse_url (v : string) : result exn Url :=
  match new_URL v with Some u => Ok u | None => Err (Native "TypeError") end.
Definition validateEdgeUrl (v : string) : result exn Url :=
  url ← parse_url v;
  if negb (includes ["ws:"; "wss:"] (u_protocol url)) then Err (invalid "Edge connector URL must use ws or wss.")
  else if negb (u_pathname url =s "/connector") || negb (sempty (u_username url)) || negb (sempty (u_password url))
          || negb (sempty (u_search url)) || negb (sempty (u_hash url))
  then Err (invalid "Edge connector URL must be an origin plus /connector without credentials, query, or fragment.")
  else Ok url.
Definition validateLocalBaseUrl (v : string) : result exn Url :=
  url ← parse_url v;
  if negb (u_protocol url =s "http:") || negb (includes ["127.0.0.1"; "localhost"; "[::1]"] (u_hostname url))
     || negb (sempty (u_username url)) || negb (sempty (u_password url)) || negb (sempty (u_search url))
     || negb (sempty (u_hash url)) || negb (u_pathname url =s "/")
  then Err (invalid "Local Gateway URL must be a loopback HTTP origin.")
  else Ok url.
Definition check_positive (e : string * Z) : result exn unit :=
  if safe_positive e.2 then Ok tt else Err (invalid (e.1 +:+ " must be a positive integer.")).
Definition new_EdgeConnector (o : EdgeConnectorOptions) : result exn Config :=
  _ ← validateEdgeUrl (o_edgeUrl o);
  localBaseUrl ← validateLocalBaseUrl (o_localBaseUrl o);
  let maxPayloadBytes := default DEFAULT_MAX_PAYLOAD_BYTES (o_maxPayloadBytes o) in
  let maxConcurrentRequests := default DEFAULT_MAX_CONCURRENT_REQUESTS (o_maxConcurrentRequests o) in
  let heartbeatIntervalMs := default DEFAULT_HEARTBEAT_MS (o_heartbeatIntervalMs o) in
  let reconnectMinMs := default DEFAULT_RECONNECT_MIN_MS (o_reconnectMinMs o) in
  let reconnectMaxMs := default DEFAULT_RECONNECT_MAX_MS (o_reconnectMaxMs o) in
  if (String.length (o_token o) <? 32)%nat then Err (invalid "Connector token must contain at least 32 characters.") else
  _ ← assertValidEdgeInternalAssertion (o_internalAssertion o);
  _ ← for_each [("maxPayloadBytes", maxPayloadBytes); ("maxConcurrentRequests", maxConcurrentRequests);
        ("heartbeatIntervalMs", heartbeatIntervalMs); ("reconnectMinMs", reconnectMinMs); ("reconnectMaxMs", reconnectMaxMs)]
        check_positive;
  if reconnectMaxMs <? reconnectMinMs then Err (invalid "reconnectMaxMs must be greater than or equal to reconnectMinMs.") else
  Ok (mkConfig localBaseUrl maxPayloadBytes maxConcurrentRequests heartbeatIntervalMs reconnectMinMs reconnectMaxMs
        (o_internalAssertion o) (o_runtimeIdentity o)).

Context (cfg : Config).

(** *** Stopping *)
Definition abortAllRequests (reason : string) (c : Connector) : Connector :=
  with_active [] (with_calls (fun cs => fold_left (fun cs e => alter (abort_call reason) e.2 cs) (activeRequests c) cs) c).
Definition stop (c : Connector) : Connector :=
  let c' := abortAllRequests "connector_stopped" (with_socket (socket c) true c) in
  let current := socket c' in
  let c' := with_socket None true c' in
  match current with Some i => on_connection i (close_socket 1000) c' | None => c' end.

(** *** Connecting *)
Definition connectOnce (now : Z) (c : Connector) : Connector :=
  let generation := generation c + 1 in
  let k := mkConnection generation CONNECTING false now None None 0 0 false true false [] [] in
  with_loop (reconnectDelay c) (connecting (length (connections c)))
    (with_socket (Some (length (connections c))) false
      (with_connections (fun ks => ks ++ [k])
        (with_counts generation (connectionFailures c) (consecutiveFailures c) (offlineSinceMs c) c))).
(** [run] up to its first [await]. *)
Definition run (now : Z) : Connector :=
  connectOnce now (mkConnector [] [] [] None false 0 0 0 (Some now) (reconnectMinMs cfg) ended).
(** The turn of the loop after [connectOnce]: the [finally] of [run] stops the connector. *)
Definition after_connect (healthy : bool) (c : Connector) : Connector :=
  if stopped c then stop (with_loop (reconnectDelay c) ended c)
  else with_loop (if healthy then reconnectMinMs cfg else Z.min (reconnectDelay c * 2) (reconnectMaxMs cfg)) sleeping c.
Definition slept (now : Z) (c : Connector) : Connector :=
  if stopped c then stop (with_loop (reconnectDelay c) ended c) else connectOnce now c.

Definition opened (i : nat) (now : Z) : Connector -> Connector :=
  on_connection i (fun k => with_beat (pingCount k) (pongCount k) (heartbeatTimeout k) (isAlive k) true (Some now) (set_readyState OPEN [] k)).
Definition heartbeat_tick (i : nat) : Connector -> Connector :=
  on_connection i (fun k =>
    if negb (isAlive k) then terminate (with_beat (pingCount k) (pongCount k) true false (heartbeat k) (connectedAtMs k) k)
    else with_beat (pingCount k + 1) (pongCount k) (heartbeatTimeout k) false (heartbeat k) (connectedAtMs k) k).
Definition on_pong (i : nat) : Connector -> Connector :=
  on_connection i (fun k => with_beat (pingCount k) (pongCount k + 1) (heartbeatTimeout k) true (heartbeat k) (connectedAtMs k) k).
Definition on_ping (i : nat) : Connector -> Connector :=
  on_connection i (fun k => with_beat (pingCount k) (pongCount k) (heartbeatTimeout k) true (heartbeat k) (connectedAtMs k) k).

(** The listener of [close] and the [finish] of [connectOnce]; [run] waits for the connection [i]. *)
Definition socket_closed (i : nat) (reason : string) (now : Z) (c : Connector) : Connector :=
  match connections c !! i with
  | None => c
  | Some k =>
      let failed := if protocolReady k then 0 else 1 in
      let c := with_counts (generation c) (connectionFailures c + failed) (consecutiveFailures c + failed)
                 (Some (default now (offlineSinceMs c))) c in
      let c := abortAllRequests reason c in
      let c := on_connection i (fun k => with_beat (pingCount k) (pongCount k) (heartbeatTimeout k) (isAlive k) false (connectedAtMs k)
                                           (set_readyState CLOSED [] k)) c in
      let c := if bool_decide (socket c = Some i) then with_socket None false c else c in
      match loop c with
      | connecting j => if (i =? j)%nat then after_connect (protocolReady k) c else c
      | sleeping | ended => c
      end
  end.

(** *** Requests *)
Definition error_text (error : string) : string :=
  match JSON_stringify (VObject true [("error", VString error)]) with Ok (Some t) => t | _ => EmptyString end.
Definition JSON_TYPE : string * string := ("content-type", "application/json; charset=utf-8").
Definition sendResponse (i : nat) (origin : option nat) (m : ConnectorToEdgeMessage) : Connector -> Connector :=
  on_connection i (send_on origin m).
Definition sendErrorResponse (i : nat) (origin : option nat) (requestId : string) (status : Z) (error : string) : Connector -> Connector :=
  sendResponse i origin (http_response requestId status (Some [JSON_TYPE]) (error_text error)).

Inductive Forward := answered (status : Z) (error : string) | throws | fetches (f : Fetch).
(** [forwardRequest] up to [await fetch(...)]. *)
Definition forwardRequest (method path : string) (headers : list (string * string)) (body : string)
    (principal : AuthenticatedEdgePrincipal) : Forward :=
  if MAX_EDGE_REQUEST_BODY_BYTES <? utf8ByteLength body then answered 413 "request_too_large"
  else if negb (isAllowedEdgeRequest method path) then answered 404 "edge_route_not_allowed"
  else match resolve_URL path (localBaseUrl cfg) with
  | None => throws
  | Some localUrl =>
      if negb (u_origin localUrl =s u_origin (localBaseUrl cfg)) then answered 400 "invalid_local_route"
      else match (headers ← collect_headers header_value C_REQUEST_HEADER_ALLOWLIST headers [];
                  headers ← headers_set header_value EDGE_INTERNAL_ASSERTION_HEADER (internalAssertion cfg) headers;
                  principal ← encodeEdgeAuthenticatedPrincipal principal;
                  headers_set header_value EDGE_INTERNAL_PRINCIPAL_HEADER principal headers) with
      | Err _ => throws
      | Ok headers =>
          fetches (mkFetch localUrl method headers (if (method =s "GET") || sempty body then None else Some body))
      end
  end.

(** A request that is admitted. *)
Definition start_call (i : nat) (requestId method path : string) (headers : list (string * string)) (body : string)
    (principal : AuthenticatedEdgePrincipal) (c : Connector) : Connector :=
  let n := length (calls c) in
  let c := with_active (jm_set (activeRequests c) requestId n) c in
  let entered phase := with_calls (fun cs => cs ++ [mkCall i requestId None phase]) in
  match forwardRequest method path headers body principal with
  | answered status error => sendErrorResponse i (Some n) requestId status error (entered (Leaving false) c)
  | throws => entered (Leaving true) c
  | fetches f => entered (Fetching f) c
  end.

(** [fetch] and [response.text()] have ended. *)
Inductive Fetched := fetched (status : Z) (headers : list (string * string)) (body : string) | fetch_failed.
Definition call_done (n : nat) (r : Fetched) (c : Connector) : Connector :=
  match calls c !! n with
  | None => c
  | Some call =>
      let i := c_connection call in
      let c := match r with
        | fetched status headers body =>
            if MAX_EDGE_RESPONSE_BODY_BYTES <? utf8ByteLength body
            then sendErrorResponse i (Some n) (c_requestId call) 502 "gateway_response_too_large" c
            else sendResponse i (Some n) (http_response (c_requestId call) status
                   (Some (collectAllowedHeaders headers C_RESPONSE_HEADER_ALLOWLIST)) body) c
        | fetch_failed =>
            if bool_decide (c_aborted call <> None) then c
            else sendErrorResponse i (Some n) (c_requestId call) 502 "local_gateway_unavailable" c
        end in
      on_call n (set_phase (Leaving false)) c
  end.
(** The [finally] of [handleMessage], and the [catch] of its caller. *)
Definition call_left (n : nat) (c : Connector) : Connector :=
  match calls c !! n with
  | Some (mkCall i requestId a (Leaving threw)) =>
      let c := on_call n (set_phase Left) (with_active (jm_delete (activeRequests c) requestId) c) in
      if threw then on_connection i (fun k => if bool_decide (readyState k = OPEN) then close_socket 1011 k else k) c else c
  | _ => c
  end.

(** *** Messages *)
Definition cancel_text (r : CancelReason) : string := reason_text r.
Definition became_ready (i : nat) (now : Z) (c : Connector) : Connector :=
  let c := on_connection i (with_ready now) c in
  let c := with_counts (generation c) (connectionFailures c) 0 None c in
  let runtime k := (fun r => mkRuntime (connectorInstanceId r) (k_generation k) (processStartedAt r) (catalogContractRevision r)
                       (toolSetRevision r) (toolCount r) (serverVersion r) (nodePid r) (hostPid r)) <$> runtimeIdentity cfg in
  on_connection i (fun k => send_on None (connector_ready (runtime k)) k) c.
(** [None] is a binary message. *)
Definition handleMessage (i : nat) (data : option string) (now : Z) (c : Connector) : Connector :=
  let close code := on_connection i (close_socket code) c in
  match connections c !! i with
  | None => c
  | Some k =>
      match data with
      | None => close 1003
      | Some text =>
          if maxPayloadBytes cfg <? utf8ByteLength text then close 1009 else
          match parseEdgeToConnectorMessage text with
          | None => close 1008
          | Some edge_hello => if protocolReady k then close 1008 else became_ready i now c
          | Some m =>
              if negb (protocolReady k) then close 1008 else
              match m with
              | edge_hello => c
              | http_cancel requestId reason =>
                  match jm_get (activeRequests c) requestId with
                  | Some n => on_call n (abort_call (cancel_text reason)) c
                  | None => c
                  end
              | http_request requestId method path headers body principal =>
                  if jm_has (activeRequests c) requestId then close 1008
                  else if maxConcurrentRequests cfg <=? Z.of_nat (jm_size (activeRequests c))
                  then sendResponse i None (http_response requestId 503 (Some [JSON_TYPE; ("retry-after", "1")]) (error_text "connector_busy")) c
                  else start_call i requestId method path headers body principal c
              end
          end
      end
  end.

(** *** Events *)
Inductive Step :=
| Opened (i : nat) (now : Z)
| HeartbeatTick (i : nat)
| Pong (i : nat)
| Ping (i : nat)
| Message (i : nat) (data : option string) (now : Z)
| CallDone (n : nat) (r : Fetched)
| CallLeft (n : nat)
| SocketClosed (i : nat) (reason : string) (now : Z)
| Slept (now : Z)
| Stop.
Definition state_of (c : Connector) (i : nat) : option ReadyState := readyState <$> connections c !! i.
Definition is_fetching (p : Phase) : bool := match p with Fetching _ => true | _ => false end.
Definition in_flight (call : Call) : bool := match c_phase call with Left => false | _ => true end.
(** An identifier that the edge uses again is that of a request which is still in the map, or of none: the edge takes a
    random UUID for each request.  A status is one that [fetch] gives. *)
Definition fresh_id (requestId : string) (c : Connector) : Prop :=
  forall n call, calls c !! n = Some call -> in_flight call = true -> c_requestId call = requestId ->
    jm_get (activeRequests c) requestId = Some n.
Definition accepts (e : Step) (c : Connector) : Prop :=
  match e with
  | Opened i _ => state_of c i = Some CONNECTING
  | HeartbeatTick i => heartbeat <$> connections c !! i = Some true
  | Pong i | Ping i => state_of c i = Some OPEN \/ state_of c i = Some CLOSING
  | Message i data _ => (state_of c i = Some OPEN \/ state_of c i = Some CLOSING)
      /\ forall t id me pa h b p, data = Some t -> parseEdgeToConnectorMessage t = Some (http_request id me pa h b p) -> fresh_id id c
  | CallDone n r => (exists call, calls c !! n = Some call /\ is_fetching (c_phase call) = true)
      /\ match r with fetched status _ _ => 200 <= status <= 599 | fetch_failed => True end
  | CallLeft n => exists call threw, calls c !! n = Some call /\ c_phase call = Leaving threw
  | SocketClosed i _ _ => exists s, state_of c i = Some s /\ s <> CLOSED
  | Slept _ => loop c = sleeping
  | Stop => True
  end.
Definition step (e : Step) (c : Connector) : Connector :=
  match e with
  | Opened i now => opened i now c
  | HeartbeatTick i => heartbeat_tick i c
  | Pong i => on_pong i c
  | Ping i => on_ping i c
  | Message i data now => handleMessage i data now c
  | CallDone n r => call_done n r c
  | CallLeft n => call_left n c
  | SocketClosed i reason now => socket_closed i reason now c
  | Slept now => slept now c
  | Stop => stop c
  end.
Inductive reachable (c0 : Connector) : Connector -> Prop :=
| reach_start : reachable c0 c0
| reach_step c e : reachable c0 c -> accepts e c -> reachable c0 (step e c).
End EdgeConnector.

(** ** What is tracked of requests

    Of all its state, the book-keeping of requests needs the map, the calls and what was sent on each connection.
    [move] is an abstract machine on them, and every event of the connector is a sequence of its moves. *)
Definition Sent : Type := list (option nat * ConnectorToEdgeMessage).
Record View := mkView { v_active : jsmap nat; v_calls : list Call; v_sent : list Sent }.
Definition view (c : Connector) : View := mkView (activeRequests c) (calls c) (map sent (connections c)).
Definition abort_all (reason : string) (a : jsmap nat) (cs : list Call) : list Call :=
  fold_left (fun cs e => alter (abort_call reason) e.2 cs) a cs.
Definition answer_of (requestId : string) (m : ConnectorToEdgeMessage) : Prop :=
  exists status h b, m = http_response requestId status (Some h) b /\ 200 <= status <= 599 /\ own_order h.
Definition identity_of (r : option ConnectorRuntimeIdentity) (generation : Z) : option ConnectorRuntimeIdentity :=
  (fun r => mkRuntime (connectorInstanceId r) generation (processStartedAt r) (catalogContractRevision r)
     (toolSetRevision r) (toolCount r) (serverVersion r) (nodePid r) (hostPid r)) <$> r.
Definition in_use (requestId : string) (v : View) : Prop :=
  forall n call, v_calls v !! n = Some call -> in_flight call = true -> c_requestId call = requestId ->
    jm_get (v_active v) requestId = Some n.
Inductive move (cfg : Config) (v : View) : View -> Prop :=
| mv_connected : move cfg v (mkView (v_active v) (v_calls v) (v_sent v ++ [[]]))
| mv_aborted reason : move cfg v (mkView [] (abort_all reason (v_active v) (v_calls v)) (v_sent v))
| mv_cancelled requestId n reason : jm_get (v_active v) requestId = Some n ->
    move cfg v (mkView (v_active v) (alter (abort_call reason) n (v_calls v)) (v_sent v))
| mv_said i m : m = connector_ready (identity_of (runtimeIdentity cfg) (Z.of_nat (S i))) \/ (exists requestId, requestId <> EmptyString /\ answer_of requestId m) ->
    move cfg v (mkView (v_active v) (v_calls v) (alter (fun s => s ++ [(None, m)]) i (v_sent v)))
| mv_admitted i requestId phase sent' : requestId <> EmptyString -> jm_get (v_active v) requestId = None ->
    Z.of_nat (jm_size (v_active v)) < maxConcurrentRequests cfg -> in_use requestId v ->
    (sent' = v_sent v /\ phase <> Left \/
     exists m, answer_of requestId m /\ phase = Leaving false /\ sent' = alter (fun s => s ++ [(Some (length (v_calls v)), m)]) i (v_sent v)) ->
    move cfg v (mkView (jm_set (v_active v) requestId (length (v_calls v))) (v_calls v ++ [mkCall i requestId None phase]) sent')
| mv_done n call sent' : v_calls v !! n = Some call -> is_fetching (c_phase call) = true ->
    (sent' = v_sent v \/
     exists m, answer_of (c_requestId call) m /\ sent' = alter (fun s => s ++ [(Some n, m)]) (c_connection call) (v_sent v)) ->
    move cfg v (mkView (v_active v) (alter (set_phase (Leaving false)) n (v_calls v)) sent')
| mv_left n call threw : v_calls v !! n = Some call -> c_phase call = Leaving threw ->
    move cfg v (mkView (jm_delete (v_active v) (c_requestId call)) (alter (set_phase Left) n (v_calls v)) (v_sent v)).

Section Moves.
Context `{JN : JsNumber} `{JR : !JsNumberRead JN} `{JI : !JsInteger JN} `{EP : EdgePlatform}.
Context (resolve_URL : string -> Url -> option Url) (header_value : string -> bool) (cfg : Config).
Notation step := (step resolve_URL header_value cfg).
Notation moves := (rtc (move cfg)).

(** The connections are numbered, and only the one that [run] waits for may be open. *)
Record Numbered (c : Connector) : Prop := {
  nu_generation : generation c = Z.of_nat (length (connections c));
  nu_each i k : connections c !! i = Some k -> k_generation k = Z.of_nat (S i);
  nu_one i k : connections c !! i = Some k -> readyState k <> CLOSED -> loop c = connecting i;
}.

Lemma alter_sent i f (c : Connector) : (forall k, sent (f k) = sent k) ->
  view (on_connection i f c) = view c.
Proof.
  intros Hf. unfold view, on_connection, with_connections. cbn. f_equal. unfold alter.
  revert i. induction (connections c) as [|k ks IH]; intros [|i]; cbn; [done..| |]; [by rewrite Hf|]. f_equal. apply IH.
Qed.
Lemma sent_beat a b d e f g k : sent (with_beat a b d e f g k) = sent k.
Proof. done. Qed.
Lemma sent_state s codes k : sent (set_readyState s codes k) = sent k.
Proof. done. Qed.
Lemma sent_close code k : sent (close_socket code k) = sent k.
Proof. unfold close_socket. by destruct (readyState k). Qed.
Lemma sent_terminate k : sent (terminate k) = sent k.
Proof. unfold terminate. by destruct (readyState k). Qed.

Lemma view_send i o m (c : Connector) :
  view (on_connection i (send_on o m) c) = view c
  \/ view (on_connection i (send_on o m) c) = mkView (activeRequests c) (calls c) (alter (fun s => s ++ [(o, m)]) i (map sent (connections c))).
Proof.
  unfold view, on_connection, with_connections. cbn. unfold alter.
  enough (map sent (list_alter (send_on o m) i (connections c)) = map sent (connections c)
    \/ map sent (list_alter (send_on o m) i (connections c)) = list_alter (fun s => s ++ [(o, m)]) i (map sent (connections c))) as [-> | ->];
    [by left|by right|].
  revert i. induction (connections c) as [|k ks IH]; intros [|i]; cbn; [by left..| |].
  - unfold send_on. case_bool_decide; [by right|by left].
  - destruct (IH i) as [-> | ->]; [by left|by right].
Qed.

Lemma moves_one v v' w : move cfg v v' -> v' = w -> moves v w.
Proof. intros H <-. by apply rtc_once. Qed.
Lemma view_abort reason (c : Connector) :
  view (abortAllRequests reason c) = mkView [] (abort_all reason (activeRequests c) (calls c)) (map sent (connections c)).
Proof. done. Qed.
Lemma stop_moves c : moves (view c) (view (stop c)).
Proof.
  eapply moves_one; [apply (mv_aborted cfg (view c) "connector_stopped")|]. unfold stop. cbv zeta.
  destruct (socket _) as [i|]; [|done]. rewrite alter_sent; [done|]. apply sent_close.
Qed.
Lemma connect_moves now c : moves (view c) (view (connectOnce now c)).
Proof. eapply moves_one; [apply mv_connected|]. unfold connectOnce, view. cbn. by rewrite map_app. Qed.
Lemma after_connect_moves healthy c : moves (view c) (view (after_connect cfg healthy c)).
Proof. unfold after_connect. destruct (stopped c); [|done]. exact (stop_moves (with_loop (reconnectDelay c) ended c)). Qed.
Lemma closed_moves i reason now c : moves (view c) (view (socket_closed cfg i reason now c)).
Proof.
  unfold socket_closed. destruct (connections c !! i) as [k|]; [|done]. cbv zeta.
  set (c1 := abortAllRequests reason _).
  assert (H : moves (view c) (view c1)) by (eapply moves_one; [apply (mv_aborted cfg (view c) reason)|done]).
  set (c2 := on_connection i _ c1). assert (H2 : view c2 = view c1) by by apply alter_sent. rewrite <- H2 in H.
  set (c3 := if bool_decide _ then _ else _). assert (H3 : view c3 = view c2) by (unfold c3; by destruct (bool_decide _)). rewrite <- H3 in H.
  destruct (loop c3) as [j| |]; [destruct (i =? j)%nat|..]; try exact H.
  etrans; [exact H|apply after_connect_moves].
Qed.
Lemma said_moves i m c : m = connector_ready (identity_of (runtimeIdentity cfg) (Z.of_nat (S i))) \/ (exists requestId, requestId <> EmptyString /\ answer_of requestId m) ->
  moves (view c) (view (on_connection i (send_on None m) c)).
Proof. intros Hm. destruct (view_send i None m c) as [-> | ->]; [done|]. apply rtc_once. exact (mv_said cfg (view c) i m Hm). Qed.

Lemma json_type_own : own_order [JSON_TYPE].
Proof. apply plain_keys_order. reflexivity. Qed.
Lemma error_answer requestId status error : 200 <= status <= 599 -> answer_of requestId (http_response requestId status (Some [JSON_TYPE]) (error_text error)).
Proof. intros H. eexists _, _, _. split; [done|]. split; [done|]. apply json_type_own. Qed.

Lemma start_moves i requestId me pa h b p c : requestId <> EmptyString -> jm_get (activeRequests c) requestId = None ->
  Z.of_nat (jm_size (activeRequests c)) < maxConcurrentRequests cfg -> fresh_id requestId c ->
  moves (view c) (view (start_call resolve_URL header_value cfg i requestId me pa h b p c)).
Proof.
  intros Hid Hn Hs Hf. unfold start_call. cbv zeta.
  assert (Ha : forall phase, phase <> Left -> moves (view c) (view (with_calls (fun cs => cs ++ [mkCall i requestId None phase])
      (with_active (jm_set (activeRequests c) requestId (length (calls c))) c)))).
  { intros phase Hp. eapply moves_one; [|done]. apply (mv_admitted cfg (view c) i requestId phase); try done. by left. }
  destruct (forwardRequest _ _ _ _ _ _ _ _) as [status error| |f] eqn:Ef; [|by apply Ha..].
  assert (Hst : 200 <= status <= 599).
  { unfold forwardRequest in Ef. repeat (case_match; simplify_eq; try done; try lia). }
  unfold sendErrorResponse, sendResponse.
  destruct (view_send i (Some (length (calls c))) (http_response requestId status (Some [JSON_TYPE]) (error_text error))
    (with_calls (fun cs => cs ++ [mkCall i requestId None (Leaving false)]) (with_active (jm_set (activeRequests c) requestId (length (calls c))) c))) as [-> | ->];
    [by apply Ha|].
  apply rtc_once. apply (mv_admitted cfg (view c) i requestId (Leaving false)); try done. right. eexists. split; [by apply error_answer|]. by split.
Qed.
Lemma done_moves n r c call : calls c !! n = Some call -> is_fetching (c_phase call) = true ->
  match r with fetched status _ _ => 200 <= status <= 599 | fetch_failed => True end ->
  moves (view c) (view (call_done n r c)).
Proof.
  intros Hc Hp Hr. unfold call_done. rewrite Hc. cbv zeta.
  assert (H : forall c', (view c' = view c \/ exists m, answer_of (c_requestId call) m
      /\ view c' = mkView (activeRequests c) (calls c) (alter (fun s => s ++ [(Some n, m)]) (c_connection call) (map sent (connections c)))) ->
    moves (view c) (view (on_call n (set_phase (Leaving false)) c'))).
  { intros c' H. assert (view (on_call n (set_phase (Leaving false)) c')
      = mkView (v_active (view c')) (alter (set_phase (Leaving false)) n (v_calls (view c'))) (v_sent (view c'))) as -> by done.
    apply rtc_once. destruct H as [-> |(m & Hm & ->)]; apply (mv_done cfg (view c) n call); try done; [by left|right; by exists m]. }
  assert (Hsend : forall m c', answer_of (c_requestId call) m -> c' = sendResponse (c_connection call) (Some n) m c ->
    moves (view c) (view (on_call n (set_phase (Leaving false)) c'))).
  { intros m c' Hm ->. apply H. unfold sendResponse. destruct (view_send (c_connection call) (Some n) m c) as [-> | ->]; [by left|]. right. by exists m. }
  destruct r as [status headers body|].
  - destruct (_ <? _); [eapply Hsend; [|done]; by apply error_answer|]. eapply Hsend; [|done]. eexists _, _, _. split; [done|]. split; [done|].
    by apply collected_headers.
  - case_bool_decide; [apply H; by left|]. eapply Hsend; [|done]. by apply error_answer.
Qed.

Lemma message_moves i data now c : Numbered c ->
  (forall t id me pa h b p, data = Some t -> parseEdgeToConnectorMessage t = Some (http_request id me pa h b p) -> fresh_id id c) ->
  moves (view c) (view (handleMessage resolve_URL header_value cfg i data now c)).
Proof.
  intros Hn Hf. unfold handleMessage. cbv zeta.
  assert (Hclose : forall code, moves (view c) (view (on_connection i (close_socket code) c))).
  { intros code. rewrite alter_sent; [done|]. apply sent_close. }
  destruct (connections c !! i) as [k|] eqn:Ek; [|done]. destruct data as [t|]; [|done].
  destruct (_ <? _); [done|]. destruct (parseEdgeToConnectorMessage t) as [m|] eqn:Em; [|done].
  pose proof (proj1 (edge_parsed_valid t m Em)) as Hv.
  destruct m as [|id me pa h b p|id r]; [destruct (protocolReady k); [done|]|..]; [|destruct (negb (protocolReady k)); [done|]..].
  - unfold became_ready. cbv zeta. set (c1 := with_counts _ _ _ _ _).
    assert (H1 : view c1 = view c) by (unfold c1; transitivity (view (on_connection i (with_ready now) c)); [done|]; by apply alter_sent).
    rewrite <- H1. assert (Hk : exists k1, connections c1 !! i = Some k1 /\ k_generation k1 = Z.of_nat (S i)).
    { exists (with_ready now k). split; [unfold c1; cbn; by rewrite list_lookup_alter_eq, Ek|]. exact (nu_each _ Hn _ _ Ek). }
    destruct Hk as (k1 & Ek1 & Hg).
    assert (on_connection i (fun k => send_on None (connector_ready ((fun r => mkRuntime (connectorInstanceId r) (k_generation k) (processStartedAt r)
        (catalogContractRevision r) (toolSetRevision r) (toolCount r) (serverVersion r) (nodePid r) (hostPid r)) <$> runtimeIdentity cfg)) k) c1
      = on_connection i (send_on None (connector_ready (identity_of (runtimeIdentity cfg) (Z.of_nat (S i))))) c1) as ->.
    { unfold on_connection, with_connections. f_equal. apply list_alter_ext; [|done]. intros k2 E2. rewrite Ek1 in E2. injection E2 as <-. by rewrite Hg. }
    apply said_moves. by left.
  - cbn [valid_edge_message] in Hv. assert (Hid : id <> EmptyString) by by intros ->.
    destruct (jm_has (activeRequests c) id) eqn:Eh; [done|]. destruct (Z.leb_spec (maxConcurrentRequests cfg) (Z.of_nat (jm_size (activeRequests c)))).
    + apply said_moves. right. exists id. split; [done|]. eexists _, _, _. split; [done|]. split; [lia|]. apply plain_keys_order. reflexivity.
    + apply start_moves; [done| |lia|by eapply Hf]. unfold jm_has in Eh. by destruct (jm_get _ _).
  - destruct (jm_get (activeRequests c) id) as [n|] eqn:Ea; [|done]. apply rtc_once. exact (mv_cancelled cfg (view c) id n (cancel_text r) Ea).
Qed.

(** Every event is a sequence of moves. *)
Lemma step_moves e c : Numbered c -> accepts e c -> moves (view c) (view (step e c)).
Proof.
  intros Hn Ha. destruct e as [i now|i|i|i|i data now|n r|n|i reason now|now|]; cbn [EdgeConnector.step accepts] in *.
  - unfold opened. by rewrite alter_sent.
  - unfold heartbeat_tick. rewrite alter_sent; [done|]. intros k. destruct (negb _); [by rewrite sent_terminate|done].
  - unfold on_pong. by rewrite alter_sent.
  - unfold on_ping. by rewrite alter_sent.
  - apply message_moves; [done|]. exact (proj2 Ha).
  - destruct Ha as [(call & Hc & Hp) Hr]. by apply (done_moves n r c call).
  - destruct Ha as (call & threw & Hc & Hp). unfold call_left. rewrite Hc. destruct call as [i id a p]; cbn in Hp; subst p.
    assert (H : moves (view c) (view (on_call n (set_phase Left) (with_active (jm_delete (activeRequests c) id) c)))).
    { apply rtc_once. exact (mv_left cfg (view c) n _ threw Hc eq_refl). }
    destruct threw; [|exact H]. rewrite alter_sent; [exact H|]. intros k. case_bool_decide; [apply sent_close|done].
  - apply closed_moves.
  - unfold slept. destruct (stopped c); [|apply connect_moves]. exact (stop_moves (with_loop (reconnectDelay c) ended c)).
  - apply stop_moves.
Qed.

(** ** The loop of [run] *)
(** The delay that [n] failures in a row lead to. *)
Definition backoff (n : Z) : Z := Z.min (reconnectMinMs cfg * 2 ^ n) (reconnectMaxMs cfg).
Definition is_ready (c : Connector) : Prop :=
  exists i k, loop c = connecting i /\ connections c !! i = Some k /\ protocolReady k = true.
Record Looping (c : Connector) : Prop := {
  lo_numbered :> Numbered c;
  lo_failures : 0 <= consecutiveFailures c;
  lo_wait i : loop c = connecting i -> exists k, connections c !! i = Some k /\ readyState k <> CLOSED;
  lo_delay : loop c = ended \/ reconnectDelay c = backoff (consecutiveFailures c) \/ is_ready c;
  lo_ready : is_ready c -> consecutiveFailures c = 0;
  lo_offline : offlineSinceMs c = None <-> is_ready c;
  lo_idle : (forall i, loop c <> connecting i) -> activeRequests c = [];
}.
Context (Hmin : 0 < reconnectMinMs cfg) (Hmax : reconnectMinMs cfg <= reconnectMaxMs cfg).

Lemma backoff_zero : backoff 0 = reconnectMinMs cfg.
Proof using Hmax. unfold backoff. rewrite Z.pow_0_r. lia. Qed.
Lemma backoff_next n : 0 <= n -> Z.min (backoff n * 2) (reconnectMaxMs cfg) = backoff (n + 1).
Proof using Hmin Hmax. intros Hn. unfold backoff. rewrite Z.pow_add_r by lia. lia. Qed.
Lemma backoff_bounds n : 0 <= n -> reconnectMinMs cfg <= backoff n <= reconnectMaxMs cfg.
Proof using Hmin Hmax. intros Hn. unfold backoff. pose proof (Z.pow_pos_nonneg 2 n ltac:(lia) Hn). nia. Qed.


(** Changes that the loop does not notice. *)
Definition alike (k k' : Connection) : Prop :=
  k_generation k' = k_generation k /\ protocolReady k' = protocolReady k /\ (readyState k' = CLOSED <-> readyState k = CLOSED).
Record steady (c c' : Connector) : Prop := {
  sy_fields : generation c' = generation c /\ consecutiveFailures c' = consecutiveFailures c
    /\ offlineSinceMs c' = offlineSinceMs c /\ reconnectDelay c' = reconnectDelay c /\ loop c' = loop c;
  sy_connections : Forall2 alike (connections c) (connections c');
  sy_idle : activeRequests c = [] -> (forall i, loop c <> connecting i) -> activeRequests c' = [];
}.
#[local] Instance alike_refl : Reflexive alike.
Proof. by intros k. Qed.
#[local] Instance alike_trans : Transitive alike.
Proof. intros a b d (? & ? & ?) (? & ? & ?). repeat split; intuition congruence. Qed.
Lemma alikes_refl ks : Forall2 alike ks ks.
Proof. induction ks; constructor; [reflexivity|done]. Qed.
#[local] Instance steady_refl : Reflexive steady.
Proof. intros c. split; auto using alikes_refl. Qed.
#[local] Instance steady_trans : Transitive steady.
Proof.
  intros a b d [(Ea&Eb&Ec&Ed&Hl) H1 I1] [(Fa&Fb&Fc&Fd&Fl) H2 I2]. split; [repeat split; congruence|by etrans|].
  intros Ha Hi. apply I2; [by apply I1|]. intros i. rewrite Hl. apply Hi.
Qed.
Lemma steady_connection i f c : (forall k, connections c !! i = Some k -> alike k (f k)) -> steady c (on_connection i f c).
Proof.
  intros Hf. split; [done| |done]. unfold on_connection, with_connections; cbn. unfold alter.
  revert i Hf. induction (connections c) as [|k ks IH]; intros [|i] Hf; cbn; constructor; auto using alikes_refl; reflexivity.
Qed.
Lemma steady_calls f c : steady c (with_calls f c).
Proof. split; [done|apply alikes_refl|done]. Qed.
Lemma steady_active m c : (activeRequests c = [] -> (forall i, loop c <> connecting i) -> m = []) -> steady c (with_active m c).
Proof. intros H. split; [done|apply alikes_refl|done]. Qed.
Lemma alike_close code k : alike k (close_socket code k).
Proof. unfold close_socket. destruct (readyState k) eqn:E; repeat split; cbn; congruence. Qed.
Lemma alike_terminate k : alike k (terminate k).
Proof. unfold terminate. destruct (readyState k) eqn:E; repeat split; cbn; congruence. Qed.
Lemma alike_send o m k : alike k (send_on o m k).
Proof. unfold send_on. by case_bool_decide. Qed.
Lemma steady_abort reason c : steady c (abortAllRequests reason c).
Proof. unfold abortAllRequests. etrans; [apply steady_calls|]. by apply steady_active. Qed.
Lemma steady_socket s b c : steady c (with_socket s b c).
Proof. split; [done|apply alikes_refl|done]. Qed.
Lemma steady_stop c : steady c (stop c).
Proof.
  unfold stop. cbv zeta. etrans; [apply (steady_socket (socket c) true)|]. etrans; [apply (steady_abort "connector_stopped")|].
  etrans; [apply (steady_socket None true)|]. destruct (socket _); [|reflexivity]. apply steady_connection. intros k _. apply alike_close.
Qed.
Lemma steady_send i o m c : steady c (sendResponse i o m c).
Proof. apply steady_connection. intros k _. apply alike_send. Qed.

Lemma steady_ready c c' : steady c c' -> is_ready c' <-> is_ready c.
Proof.
  intros [(?&?&?&?&Hl) Hc _]. unfold is_ready. rewrite Hl. split; intros (i & k & E & Hk & Hr); exists i.
  - destruct (Forall2_lookup_r _ _ _ _ _ Hc Hk) as (k' & Hk' & (_ & Hp & _)). exists k'. by rewrite <- Hp.
  - destruct (Forall2_lookup_l _ _ _ _ _ Hc Hk) as (k' & Hk' & (_ & Hp & _)). exists k'. by rewrite Hp.
Qed.
Lemma steady_looping c c' : steady c c' -> Looping c -> Looping c'.
Proof.
  intros Hs [[H1 H2 H3] H4 H5 H6 H7 H8 H9]. pose proof (steady_ready c c' Hs) as Hr. destruct Hs as [(Eg & Ec & Eo & Ed & El) Hc Hi].
  split; [split|..]; rewrite ?Eg, ?Ec, ?Eo, ?Ed, ?El, ?Hr; try done.
  - by rewrite H1, (Forall2_length _ _ _ Hc).
  - intros i k Hk. destruct (Forall2_lookup_r _ _ _ _ _ Hc Hk) as (k' & Hk' & (-> & _)). by apply H2.
  - intros i k Hk Hn. destruct (Forall2_lookup_r _ _ _ _ _ Hc Hk) as (k' & Hk' & (_ & _ & Hcl)). apply (H3 i k' Hk'). by rewrite <- Hcl.
  - intros i Hl. destruct (H5 i Hl) as (k & Hk & Hn). destruct (Forall2_lookup_l _ _ _ _ _ Hc Hk) as (k' & Hk' & (_ & _ & Hcl)).
    exists k'. split; [done|]. by rewrite Hcl.
  - intros Hl. apply Hi; [|done]. apply H9, Hl.
Qed.

Lemma alter_looking {A} (f : A -> A) i (l : list A) j x : alter f i l !! j = Some x ->
  exists y, l !! j = Some y /\ (x = y \/ (i = j /\ x = f y)).
Proof.
  destruct (decide (i = j)) as [->|Hne].
  - rewrite list_lookup_alter_eq. intros (y & E & ->)%fmap_Some. exists y. auto.
  - rewrite list_lookup_alter_ne by done. intros E. exists x. auto.
Qed.

Lemma connect_looping now c : Looping c -> loop c = sleeping -> Looping (connectOnce now c).
Proof.
  intros [[H1 H2 H3] H4 H5 H6 H7 H8 H9] Hl.
  assert (Hnr : ~ is_ready c) by (intros (i & k & E & _); congruence).
  assert (Hnr' : ~ is_ready (connectOnce now c)).
  { intros (i & k & [= <-] & Hk & Hp). cbn in Hk. rewrite lookup_app_r, Nat.sub_diag in Hk by lia. cbn in Hk. injection Hk as <-. discriminate Hp. }
  assert (Hd : reconnectDelay c = backoff (consecutiveFailures c)) by (destruct H6 as [?|[?|?]]; [congruence|done|done]).
  split; [split|..]; unfold connectOnce; cbn.
  - rewrite length_app. cbn. lia.
  - intros i k [Hk|(Hi & Hk)]%lookup_app_Some; [by apply H2|]. apply list_lookup_singleton_Some in Hk as (Hi' & <-). cbn. lia.
  - intros i k [Hk|(Hi & Hk)]%lookup_app_Some Hn; [|apply list_lookup_singleton_Some in Hk as (Hi' & <-); f_equal; lia].
    specialize (H3 i k Hk Hn). congruence.
  - done.
  - intros i [= <-]. eexists. split; [by rewrite lookup_app_r, Nat.sub_diag by lia|done].
  - right. by left.
  - by intros ?.
  - rewrite H8. by split.
  - intros Hi. by destruct (Hi (length (connections c))).
Qed.

Lemma ready_looping i k now c : Looping c -> connections c !! i = Some k -> readyState k <> CLOSED -> protocolReady k = false ->
  Looping (with_counts (generation c) (connectionFailures c) 0 None (on_connection i (with_ready now) c)).
Proof.
  intros [[H1 H2 H3] H4 H5 H6 H7 H8 H9] Hk Hn Hp. pose proof (H3 i k Hk Hn) as Hl.
  assert (Hr : is_ready (with_counts (generation c) (connectionFailures c) 0 None (on_connection i (with_ready now) c))).
  { exists i, (with_ready now k). cbn. split_and!; [done| |done]. by rewrite list_lookup_alter_eq, Hk. }
  split; [split|..]; cbn; try done.
  - by rewrite length_alter.
  - intros j kj (k' & Hk' & [->|[-> ->]])%alter_looking; exact (H2 _ _ Hk').
  - intros j kj (k' & Hk' & [->|[-> ->]])%alter_looking Hc; exact (H3 _ _ Hk' Hc).
  - intros j Hj. rewrite Hl in Hj. injection Hj as <-. exists (with_ready now k). by rewrite list_lookup_alter_eq, Hk.
  - auto.
Qed.

(** The connection that [run] waits for is closed. *)
Definition shut (k : Connection) : Connection :=
  with_beat (pingCount k) (pongCount k) (heartbeatTimeout k) (isAlive k) false (connectedAtMs k) (set_readyState CLOSED [] k).
Lemma shut_looping i k d l c c' : Looping c -> connections c !! i = Some k -> loop c = connecting i ->
  connections c' = alter shut i (connections c) -> activeRequests c' = [] -> generation c' = generation c ->
  consecutiveFailures c' = consecutiveFailures c + (if protocolReady k then 0 else 1) -> offlineSinceMs c' <> None ->
  l = ended \/ l = sleeping /\ d = backoff (consecutiveFailures c') ->
  Looping (with_loop d l c').
Proof.
  intros [[H1 H2 H3] H4 H5 H6 H7 H8 H9] Hk Hl Eks Ea Eg Ec Eo Hd.
  assert (Hnl : forall j, l <> connecting j) by (intros j ->; destruct Hd as [?|[? _]]; done).
  assert (Hnr : ~ is_ready (with_loop d l c')) by (intros (j & k' & E & _); by eapply Hnl).
  split; [split|..]; cbn; rewrite ?Eks, ?Eg, ?Ec, ?Ea; try done.
  - by rewrite length_alter.
  - intros j kj (k' & Hk' & [->|[-> ->]])%alter_looking; exact (H2 _ _ Hk').
  - intros j kj Hj Hc. destruct (decide (i = j)) as [<-|Hne].
    + rewrite list_lookup_alter_eq, Hk in Hj. by injection Hj as <-.
    + rewrite list_lookup_alter_ne in Hj by done. specialize (H3 j kj Hj Hc). congruence.
  - destruct (protocolReady k); lia.
  - intros j Hj. by destruct (Hnl j).
  - rewrite <- Ec. destruct Hd as [->|[-> ->]]; [by left|right; by left].
Qed.
Lemma closing_looping i k now reason c : Looping c -> connections c !! i = Some k -> readyState k <> CLOSED ->
  Looping (socket_closed cfg i reason now c).
Proof using Hmin Hmax.
  intros HL Hk Hn. pose proof (nu_one _ HL i k Hk Hn) as Hl. unfold socket_closed. rewrite Hk. cbv zeta.
  set (failed := if protocolReady k then 0 else 1).
  set (c1 := on_connection i _ _). set (c2 := if bool_decide _ then _ else _).
  assert (H2 : loop c2 = connecting i /\ connections c2 = alter shut i (connections c) /\ activeRequests c2 = [] /\ generation c2 = generation c
    /\ consecutiveFailures c2 = consecutiveFailures c + failed /\ offlineSinceMs c2 <> None /\ reconnectDelay c2 = reconnectDelay c)
    by (unfold c2, c1; by destruct (bool_decide _)).
  destruct H2 as (Hl2 & Hks & Ha & Hg & Hc & Ho & Hd). clearbody c2. clear c1. rewrite Hl2, Nat.eqb_refl. unfold after_connect.
  pose proof (fun d l => shut_looping i k d l c c2 HL Hk Hl Hks Ha Hg Hc Ho) as Hshut.
  destruct (stopped c2).
  - eapply steady_looping; [apply steady_stop|]. apply Hshut. by left.
  - apply Hshut. right. split; [done|]. rewrite Hc. unfold failed. pose proof (lo_failures _ HL).
    destruct (protocolReady k) eqn:Hp.
    + rewrite (lo_ready _ HL); [symmetry; apply backoff_zero|]. by exists i, k.
    + rewrite Hd, <- backoff_next by done. do 2 f_equal. destruct (lo_delay _ HL) as [?|[?|(j & kj & Hj & Hkj & Hr)]]; [congruence|done|].
      rewrite Hl in Hj. injection Hj as <-. congruence.
Qed.

Lemma message_looping i data now c : Looping c -> state_of c i = Some OPEN \/ state_of c i = Some CLOSING ->
  Looping (handleMessage resolve_URL header_value cfg i data now c).
Proof.
  intros HL Ho. unfold handleMessage. cbv zeta.
  assert (Hclose : forall code, Looping (on_connection i (close_socket code) c)).
  { intros code. eapply steady_looping; [|exact HL]. apply steady_connection. intros k _. apply alike_close. }
  destruct (connections c !! i) as [k|] eqn:Ek; [|done]. destruct data as [t|]; [|done].
  destruct (_ <? _); [done|]. destruct (parseEdgeToConnectorMessage t) as [m|]; [|done].
  assert (Hk : readyState k <> CLOSED) by (unfold state_of in Ho; rewrite Ek in Ho; cbn in Ho; destruct Ho; congruence).
  pose proof (nu_one _ HL i k Ek Hk) as Hl.
  destruct m as [|id me pa h b p|id r]; [destruct (protocolReady k) eqn:Hp; [done|]|..]; [|destruct (negb (protocolReady k)); [done|]..].
  - unfold became_ready. cbv zeta. eapply steady_looping; [|by apply (ready_looping i k now c)].
    apply steady_connection. intros k' _. apply alike_send.
  - destruct (jm_has _ _); [done|]. destruct (_ <=? _); [eapply steady_looping; [apply steady_send|done]|].
    eapply steady_looping; [|exact HL]. unfold start_call. cbv zeta.
    set (c1 := with_active _ c). assert (H1 : steady c c1) by (apply steady_active; intros _ Hi; by destruct (Hi i)).
    destruct (forwardRequest _ _ _ _ _ _ _ _); (etrans; [exact H1|]); [|apply steady_calls..].
    etrans; [apply steady_calls|apply steady_send].
  - destruct (jm_get _ _); [|done]. eapply steady_looping; [apply steady_calls|done].
Qed.

Lemma step_looping e c : Looping c -> accepts e c -> Looping (step e c).
Proof using Hmin Hmax.
  intros HL Ha. destruct e as [i now|i|i|i|i data now|n r|n|i reason now|now|]; cbn [EdgeConnector.step accepts] in *.
  - eapply steady_looping; [apply steady_connection|exact HL]. intros k Hk. unfold state_of in Ha. rewrite Hk in Ha. injection Ha as Ha.
    repeat split; cbn; congruence.
  - eapply steady_looping; [apply steady_connection|exact HL]. intros k _. destruct (negb _); [|done]. etrans; [|apply alike_terminate]. done.
  - eapply steady_looping; [apply steady_connection|exact HL]. done.
  - eapply steady_looping; [apply steady_connection|exact HL]. done.
  - apply message_looping; [done|]. exact (proj1 Ha).
  - eapply steady_looping; [|exact HL]. unfold call_done. destruct (calls c !! n) as [call|]; [|reflexivity]. cbv zeta.
    etrans; [|apply steady_calls]. destruct r; [destruct (_ <? _); apply steady_send|]. case_bool_decide; [reflexivity|apply steady_send].
  - eapply steady_looping; [|exact HL]. unfold call_left. destruct (calls c !! n) as [[i id a [f|threw|]]|]; try reflexivity.
    assert (H1 : steady c (on_call n (set_phase Left) (with_active (jm_delete (activeRequests c) id) c))).
    { etrans; [apply (steady_active (jm_delete (activeRequests c) id)); by intros ->|apply steady_calls]. }
    destruct threw; [|exact H1]. etrans; [exact H1|]. apply steady_connection. intros k _. case_bool_decide; [apply alike_close|reflexivity].
  - destruct Ha as (s & Hs & Hne). unfold state_of in Hs. destruct (connections c !! i) as [k|] eqn:Ek; [|done]. injection Hs as <-.
    by apply (closing_looping i k).
  - unfold slept. destruct (stopped c); [|by apply connect_looping].
    eapply steady_looping; [apply steady_stop|]. destruct HL as [[H1 H2 H3] H4 H5 H6 H7 H8 H9].
    assert (Hnr : ~ is_ready c) by (intros (i & k & E & _); congruence).
    assert (Hnr' : ~ is_ready (with_loop (reconnectDelay c) ended c)) by (by intros (i & k & [= E] & _)).
    split; [split|..]; cbn; try done.
    + intros i k Hk Hn. specialize (H3 i k Hk Hn). congruence.
    + by left.
    + by rewrite H8.
    + intros _. apply H9. congruence.
  - eapply steady_looping; [apply steady_stop|done].
Qed.

(** ** Requests are tracked *)
Record Tracked (v : View) : Prop := {
  tk_wf : jm_wf (v_active v);
  tk_active requestId n : jm_get (v_active v) requestId = Some n ->
    exists call, v_calls v !! n = Some call /\ c_requestId call = requestId /\ in_flight call = true;
  tk_calls n call : v_calls v !! n = Some call -> in_flight call = true ->
    jm_get (v_active v) (c_requestId call) = Some n \/ c_aborted call <> None;
  tk_ids n m a b : v_calls v !! n = Some a -> v_calls v !! m = Some b -> in_flight a = true -> in_flight b = true ->
    c_requestId a = c_requestId b -> n = m;
  tk_size : Z.of_nat (jm_size (v_active v)) <= maxConcurrentRequests cfg;
}.

Lemma abort_all_lookup reason (a : jsmap nat) cs n : abort_all reason a cs !! n
  = (fun call => if bool_decide (n ∈ map snd a) then abort_call reason call else call) <$> cs !! n.
Proof.
  unfold abort_all. revert cs. induction a as [|[id m] a IH]; intros cs; cbn [fold_left map snd].
  - rewrite bool_decide_false by apply not_elem_of_nil. by destruct (cs !! n).
  - rewrite IH. destruct (decide (m = n)) as [->|Hne].
    + rewrite list_lookup_alter_eq, (bool_decide_true (n ∈ n :: _)) by left. destruct (cs !! n) as [call|]; [|done]. cbn.
      case_bool_decide; [|done]. unfold abort_call. cbn. by destruct (c_aborted call).
    + rewrite list_lookup_alter_ne by done. destruct (cs !! n); [|done]. cbn.
      rewrite (bool_decide_ext (n ∈ m :: map snd a) (n ∈ map snd a)); [done|]. rewrite elem_of_cons. naive_solver.
Qed.
(** A call as it is after an abort. *)
Lemma abort_all_some reason a cs n call : abort_all reason a cs !! n = Some call -> exists old, cs !! n = Some old
  /\ c_requestId call = c_requestId old /\ c_phase call = c_phase old /\ c_connection call = c_connection old
  /\ (n ∈ map snd a \/ c_aborted old <> None -> c_aborted call <> None).
Proof.
  rewrite abort_all_lookup. intros (old & Ho & ->)%fmap_Some. exists old. split; [done|].
  case_bool_decide; cbn; split_and!; try done; [by destruct (c_aborted old)|naive_solver].
Qed.

Lemma tracked_alter f n v sent' : Tracked v ->
  (forall x, v_calls v !! n = Some x -> c_requestId (f x) = c_requestId x /\ in_flight (f x) = in_flight x
     /\ (c_aborted x <> None -> c_aborted (f x) <> None)) ->
  Tracked (mkView (v_active v) (alter f n (v_calls v)) sent').
Proof.
  intros [H1 H2 H3 H4 H5] Hf.
  assert (Hback : forall m y, alter f n (v_calls v) !! m = Some y -> exists x, v_calls v !! m = Some x /\ c_requestId y = c_requestId x
    /\ in_flight y = in_flight x /\ (c_aborted x <> None -> c_aborted y <> None)).
  { intros m y (x & Hx & [->|[<- ->]])%alter_looking; exists x; [done|]. split; [done|]. by apply Hf. }
  split; cbn; [done|..|done].
  - intros id m Hm. destruct (H2 id m Hm) as (x & Hx & <- & Hl). destruct (decide (n = m)) as [<-|Hne].
    + exists (f x). rewrite list_lookup_alter_eq, Hx. destruct (Hf x Hx) as (-> & -> & _). done.
    + exists x. by rewrite list_lookup_alter_ne.
  - intros m y Hy Hl. destruct (Hback m y Hy) as (x & Hx & -> & Hlx & Ha). rewrite Hlx in Hl. destruct (H3 m x Hx Hl); auto.
  - intros m1 m2 y1 y2 Hy1 Hy2 Hl1 Hl2 Heq. destruct (Hback m1 y1 Hy1) as (x1 & Hx1 & E1 & L1 & _), (Hback m2 y2 Hy2) as (x2 & Hx2 & E2 & L2 & _).
    apply (H4 m1 m2 x1 x2); congruence.
Qed.
Lemma tracked_aborted reason v : Tracked v -> Tracked (mkView [] (abort_all reason (v_active v) (v_calls v)) (v_sent v)).
Proof.
  intros [H1 H2 H3 H4 H5]. split; cbn.
  - constructor.
  - done.
  - intros n call Hc Hl. right. apply abort_all_some in Hc as (old & Ho & Hid & Hp & _ & Ha). apply Ha.
    assert (Hlo : in_flight old = true) by (unfold in_flight in *; by rewrite Hp in Hl).
    destruct (H3 n old Ho Hlo) as [Hg|?]; [left|by right]. apply jm_get_in in Hg. apply list_elem_of_fmap. by eexists (_, _).
  - intros n m x y (x' & Hx & Ex & Px & _)%abort_all_some (y' & Hy & Ey & Py & _)%abort_all_some Lx Ly E.
    unfold in_flight in *. rewrite Px in Lx. rewrite Py in Ly. apply (H4 n m x' y'); try done. congruence.
  - lia.
Qed.
Lemma tracked_admitted v i requestId phase sent' : Tracked v -> jm_get (v_active v) requestId = None ->
  Z.of_nat (jm_size (v_active v)) < maxConcurrentRequests cfg -> in_use requestId v -> phase <> Left ->
  Tracked (mkView (jm_set (v_active v) requestId (length (v_calls v))) (v_calls v ++ [mkCall i requestId None phase]) sent').
Proof.
  intros [H1 H2 H3 H4 H5] Hn Hs Hu Hp.
  assert (Hfree : forall n call, v_calls v !! n = Some call -> in_flight call = true -> c_requestId call <> requestId).
  { intros n call Hc Hl E. specialize (Hu n call Hc Hl E). congruence. }
  assert (Hlast : forall n call, (v_calls v ++ [mkCall i requestId None phase]) !! n = Some call ->
    v_calls v !! n = Some call \/ (n = length (v_calls v) /\ call = mkCall i requestId None phase)).
  { intros n call [?|(? & H)]%lookup_app_Some; [by left|right]. apply list_lookup_singleton_Some in H as (? & <-). split; [lia|done]. }
  split; cbn.
  - by apply jm_wf_set.
  - intros id n. rewrite jm_get_set. destruct (String.eqb_spec id requestId) as [->|Hne].
    + intros [= <-]. exists (mkCall i requestId None phase). rewrite lookup_app_r, Nat.sub_diag by lia. by destruct phase.
    + intros Hg. destruct (H2 id n Hg) as (call & Hc & ? & ?). exists call. split; [|done]. by apply lookup_app_l_Some.
  - intros n call Hc Hl. rewrite jm_get_set. destruct (Hlast n call Hc) as [Ho|[-> ->]]; cbn.
    + rewrite (proj2 (String.eqb_neq _ _)) by (by apply (Hfree n)). by apply H3.
    + rewrite String.eqb_refl. by left.
  - intros n m a b Ha Hb La Lb E. destruct (Hlast n a Ha) as [Ha'|[-> ->]], (Hlast m b Hb) as [Hb'|[-> ->]]; cbn in E.
    + by apply (H4 n m a b).
    + by destruct (Hfree n a Ha' La).
    + by destruct (Hfree m b Hb' Lb).
    + done.
  - pose proof (jm_size_set (v_active v) requestId (length (v_calls v))) as Hz. unfold jm_has in Hz. rewrite Hn in Hz. unfold jm_size in *. lia.
Qed.
Lemma tracked_left v n call threw : Tracked v -> v_calls v !! n = Some call -> c_phase call = Leaving threw ->
  Tracked (mkView (jm_delete (v_active v) (c_requestId call)) (alter (set_phase Left) n (v_calls v)) (v_sent v)).
Proof.
  intros [H1 H2 H3 H4 H5] Hc Hp. assert (Hl : in_flight call = true) by (unfold in_flight; by rewrite Hp).
  assert (Hother : forall m y, alter (set_phase Left) n (v_calls v) !! m = Some y -> in_flight y = true ->
    n <> m /\ v_calls v !! m = Some y /\ c_requestId y <> c_requestId call).
  { intros m y Hy Ly. destruct (decide (n = m)) as [<-|Hne]; [rewrite list_lookup_alter_eq, Hc in Hy; by injection Hy as <-|].
    rewrite list_lookup_alter_ne in Hy by done. split_and!; [done..|]. intros E. apply Hne. by apply (H4 n m call y). }
  split; cbn.
  - by apply jm_wf_delete.
  - intros id m. rewrite jm_get_delete. destruct (String.eqb_spec id (c_requestId call)) as [->|Hne]; [done|].
    intros Hg. destruct (H2 id m Hg) as (x & Hx & Hid & Lx). exists x. split; [|done]. rewrite list_lookup_alter_ne; [done|].
    intros ->. congruence.
  - intros m y Hy Ly. destruct (Hother m y Hy Ly) as (Hne & Hy' & Hid). rewrite jm_get_delete, (proj2 (String.eqb_neq _ _)) by done. by apply H3.
  - intros m1 m2 y1 y2 Hy1 Hy2 L1 L2 E. destruct (Hother m1 y1 Hy1 L1) as (_ & ? & _), (Hother m2 y2 Hy2 L2) as (_ & ? & _). by apply (H4 m1 m2 y1 y2).
  - pose proof (jm_size_delete (v_active v) (c_requestId call)). unfold jm_size in *. lia.
Qed.
Lemma moves_tracked v v' : moves v v' -> Tracked v -> Tracked v'.
Proof.
  induction 1 as [v|v v1 v2 Hm _ IH]; [done|]. intros H. apply IH. clear IH.
  destruct Hm as [|reason|id n reason Hg|i m Hm|i id phase sent' Hid Hn Hs Hu Hp|n call sent' Hc Hp Hsent|n call threw Hc Hp].
  - by destruct H.
  - by apply tracked_aborted.
  - apply tracked_alter; [done|]. intros x _. unfold abort_call. cbn. split_and!; [done..|]. by destruct (c_aborted x).
  - by destruct H.
  - apply tracked_admitted; try done. destruct Hp as [[_ ?]|(m & _ & -> & _)]; done.
  - apply tracked_alter; [done|]. intros x Hx. rewrite Hc in Hx. injection Hx as <-. split_and!; try done. unfold in_flight. by destruct (c_phase call).
  - by eapply tracked_left.
Qed.

(** ** Requests are answered *)
(** What was sent for a call. *)
Definition of_call (n : nat) (s : Sent) : list ConnectorToEdgeMessage := map snd (List.filter (fun e => bool_decide (e.1 = Some n)) s).
Definition answer_for (cs : list Call) (i n : nat) (s : Sent) : Prop :=
  of_call n s = [] \/ exists call m, cs !! n = Some call /\ c_connection call = i /\ is_fetching (c_phase call) = false
    /\ of_call n s = [m] /\ answer_of (c_requestId call) m.
Definition free_message (i : nat) (m : ConnectorToEdgeMessage) : Prop :=
  m = connector_ready (identity_of (runtimeIdentity cfg) (Z.of_nat (S i))) \/ exists requestId, requestId <> EmptyString /\ answer_of requestId m.
Record Answers (v : View) : Prop := {
  an_sent i s n : v_sent v !! i = Some s -> answer_for (v_calls v) i n s;
  an_message i s e : v_sent v !! i = Some s -> e ∈ s -> free_message i e.2;
  an_named n call : v_calls v !! n = Some call -> c_requestId call <> EmptyString;
}.

Lemma of_call_app n s t : of_call n (s ++ t) = of_call n s ++ of_call n t.
Proof. unfold of_call. by rewrite List.filter_app, map_app. Qed.
Lemma answers_calls v cs' : Answers v ->
  (forall n call, cs' !! n = Some call -> exists old, v_calls v !! n = Some old /\ c_requestId call = c_requestId old) ->
  (forall n old, v_calls v !! n = Some old -> exists call, cs' !! n = Some call /\ c_requestId call = c_requestId old
     /\ c_connection call = c_connection old /\ (is_fetching (c_phase old) = false -> is_fetching (c_phase call) = false)) ->
  forall a, Answers (mkView a cs' (v_sent v)).
Proof.
  intros [H1 H2 H3] Hb Hf a. split; cbn; [|done|].
  - intros i s n Hs. destruct (H1 i s n Hs) as [?|(old & m & Ho & Hi & Hp & Hof & Hm)]; [by left|right].
    destruct (Hf n old Ho) as (call & Hc & Hid & Hco & Hph). exists call, m. rewrite Hid, Hco. split_and!; auto.
  - intros n call Hc. destruct (Hb n call Hc) as (old & Ho & ->). by eapply H3.
Qed.
Lemma answers_alter v f n a : Answers v ->
  (forall x, v_calls v !! n = Some x -> c_requestId (f x) = c_requestId x /\ c_connection (f x) = c_connection x
     /\ (is_fetching (c_phase x) = false -> is_fetching (c_phase (f x)) = false)) ->
  Answers (mkView a (alter f n (v_calls v)) (v_sent v)).
Proof.
  intros H Hf. apply answers_calls; [done|..].
  - intros m call (old & Ho & [->|[<- ->]])%alter_looking; exists old; [done|]. split; [done|]. by apply Hf.
  - intros m old Ho. destruct (decide (n = m)) as [<-|Hne].
    + exists (f old). rewrite list_lookup_alter_eq, Ho. split; [done|]. by apply Hf.
    + exists old. by rewrite list_lookup_alter_ne.
Qed.
Lemma answers_said v i o m : Answers v -> free_message i m ->
  match o with None => True | Some n => exists call, v_calls v !! n = Some call /\ c_connection call = i /\ is_fetching (c_phase call) = false
    /\ answer_of (c_requestId call) m /\ forall j s, v_sent v !! j = Some s -> of_call n s = [] end ->
  Answers (mkView (v_active v) (v_calls v) (alter (fun s => s ++ [(o, m)]) i (v_sent v))).
Proof.
  intros [H1 H2 H3] Hm Ho. split; cbn; [| |done].
  - intros j s n (t & Ht & [->|[<- ->]])%alter_looking; [by apply H1|].
    unfold answer_for. rewrite of_call_app. destruct (decide (o = Some n)) as [->|Hne].
    + destruct Ho as (call & Hc & Hi & Hp & Ha & He). right. exists call, m. rewrite (He i t Ht). unfold of_call. cbn. by rewrite bool_decide_true.
    + assert (of_call n [(o, m)] = []) as -> by (unfold of_call; cbn; by rewrite bool_decide_false). rewrite app_nil_r. by apply H1.
  - intros j s e (t & Ht & [->|[<- ->]])%alter_looking He; [by eapply H2|].
    apply elem_of_app in He as [He|He%list_elem_of_singleton]; [by eapply H2|by subst e].
Qed.
Lemma fetching_unanswered v n call : Answers v -> v_calls v !! n = Some call -> is_fetching (c_phase call) = true ->
  forall j s, v_sent v !! j = Some s -> of_call n s = [].
Proof. intros H Hc Hp j s Hs. destruct (an_sent v H j s n Hs) as [?|(call' & m & Hc' & _ & Hp' & _)]; [done|]. congruence. Qed.

Lemma answers_admitted v i requestId phase a : Answers v -> requestId <> EmptyString ->
  Answers (mkView a (v_calls v ++ [mkCall i requestId None phase]) (v_sent v)).
Proof.
  intros [H1 H2 H3] Hid. split; cbn; [|done|].
  - intros j s n Hs. destruct (H1 j s n Hs) as [?|(call & m & Hc & H)]; [by left|right]. exists call, m. split; [|done]. by apply lookup_app_l_Some.
  - intros n call [Hc|(_ & Hc)]%lookup_app_Some; [by eapply H3|]. apply list_lookup_singleton_Some in Hc as (_ & <-). done.
Qed.
Lemma moves_answers v v' : moves v v' -> Answers v -> Answers v'.
Proof.
  induction 1 as [v|v v1 v2 Hm _ IH]; [done|]. intros H. apply IH. clear IH.
  destruct Hm as [|reason|id n reason Hg|i m Hm|i id phase sent' Hid Hn Hs Hu Hp|n call sent' Hc Hp Hsent|n call threw Hc Hp].
  - destruct H as [H1 H2 H3]. split; cbn; [| |done].
    + intros i s n [Hs|(_ & Hs)]%lookup_app_Some; [by apply H1|]. apply list_lookup_singleton_Some in Hs as (_ & <-). by left.
    + intros i s e [Hs|(_ & Hs)]%lookup_app_Some He; [by eapply H2|]. apply list_lookup_singleton_Some in Hs as (_ & <-). by apply elem_of_nil in He.
  - apply answers_calls; [done|..].
    + intros n call (old & Ho & Hid & _)%abort_all_some. by exists old.
    + intros n old Ho. rewrite abort_all_lookup, Ho. eexists. split; [done|]. case_bool_decide; by split_and!.
  - by apply answers_alter.
  - by apply (answers_said v i None m).
  - pose proof (answers_admitted v i id phase (jm_set (v_active v) id (length (v_calls v))) H Hid) as H'.
    destruct Hp as [[-> _]|(m & Hm & -> & ->)]; [exact H'|].
    apply (answers_said (mkView _ _ (v_sent v)) i (Some (length (v_calls v))) m H'); [right; by exists id|]. cbn.
    exists (mkCall i id None (Leaving false)). split_and!; try done; [by rewrite lookup_app_r, Nat.sub_diag by lia|].
    intros j s Hj. destruct (an_sent v H j s (length (v_calls v)) Hj) as [?|(call & m' & Hc & _)]; [done|].
    apply lookup_lt_Some in Hc. lia.
  - pose proof (answers_alter v (set_phase (Leaving false)) n (v_active v) H ltac:(done)) as H'.
    destruct Hsent as [->|(m & Hm & ->)]; [exact H'|].
    apply (answers_said (mkView _ _ (v_sent v)) (c_connection call) (Some n) m H'); [right; exists (c_requestId call); split; [exact (an_named v H n call Hc)|done]|].
    cbn. exists (set_phase (Leaving false) call). rewrite list_lookup_alter_eq, Hc. split_and!; try done. by eapply fetching_unanswered.
  - by apply answers_alter.
Qed.
End Moves.

(** ** What is forwarded *)
Section Forwarding.
Context `{JN : JsNumber} {JL : JsNumberLaws JN} {JR : JsNumberRead JN} {JRL : JsNumberReadLaws JN JR}.
Context {JI : JsInteger JN} {JIL : JsIntegerLaws JN JI} `{EP : EdgePlatform}.
Context (resolve_URL : string -> Url -> option Url) (header_value : string -> bool) (cfg : Config).

Lemma collected_get allowlist entries h h' name v : collect_headers header_value allowlist entries h = Ok h' -> jm_get h' name = Some v ->
  jm_get h name = Some v \/ (name ∈ allowlist /\ exists e, e ∈ entries /\ toLowerCase e.1 = name /\ e.2 = v).
Proof.
  revert h. induction entries as [|[n x] entries IH]; intros h; cbn [collect_headers]; [intros [= ->]; by left|].
  intros (h1 & H1 & H2)%bind_ok Hg. destruct (IH h1 H2 Hg) as [Hg1|(Ha & e & He & Hn & Hv)]; [|right; split; [done|]; exists e; split; [by right|done]].
  destruct (includes allowlist (toLowerCase n)) eqn:Ei; [|injection H1 as <-; by left].
  unfold headers_set in H1. destruct (header_value x); [|done]. injection H1 as <-. rewrite jm_get_set in Hg1.
  destruct (String.eqb_spec name (toLowerCase n)) as [->|]; [|by left]. injection Hg1 as ->. right. apply includes_spec in Ei.
  split; [done|]. exists (n, v). split; [left|done].
Qed.
Lemma set_inv name v h h' : headers_set header_value name v h = Ok h' -> h' = jm_set h name v.
Proof. unfold headers_set. destruct (header_value v); congruence. Qed.

(** The parts of a request that reaches the gateway. *)
Lemma forwarded me pa h b p f : forwardRequest resolve_URL header_value cfg me pa h b p = fetches f ->
  isAllowedEdgeRequest me pa = true /\ u_origin (f_url f) = u_origin (localBaseUrl cfg) /\ f_method f = me
  /\ utf8ByteLength b <= MAX_EDGE_REQUEST_BODY_BYTES
  /\ exists v h', encodeEdgeAuthenticatedPrincipal p = Ok v /\ collect_headers header_value C_REQUEST_HEADER_ALLOWLIST h [] = Ok h'
     /\ f_headers f = jm_set (jm_set h' EDGE_INTERNAL_ASSERTION_HEADER (internalAssertion cfg)) EDGE_INTERNAL_PRINCIPAL_HEADER v.
Proof.
  unfold forwardRequest. destruct (Z.ltb_spec MAX_EDGE_REQUEST_BODY_BYTES (utf8ByteLength b)); [done|].
  destruct (isAllowedEdgeRequest me pa); [|done]. cbn [negb]. destruct (resolve_URL _ _) as [u|]; [|done].
  destruct (String.eqb_spec (u_origin u) (u_origin (localBaseUrl cfg))) as [Eo|]; [|done]. cbn [negb].
  destruct (collect_headers _ _ _ _) as [h1|] eqn:E1; [|done]. cbn [mbind result_bind].
  destruct (headers_set _ EDGE_INTERNAL_ASSERTION_HEADER _ _) as [h2|] eqn:E2; [|done]. cbn [mbind result_bind].
  destruct (encodeEdgeAuthenticatedPrincipal p) as [v|] eqn:E3; [|done]. cbn [mbind result_bind].
  destruct (headers_set _ EDGE_INTERNAL_PRINCIPAL_HEADER _ _) as [h3|] eqn:E4; [|done]. intros [= <-]. cbn.
  apply set_inv in E2 as ->. apply set_inv in E4 as ->. split_and!; try done. by exists v, h1.
Qed.

(** [safety] What the connector fetches is an allowed route of the gateway's own origin, whatever path the edge sent.
    The gateway, configured with the same secret, lets it pass with exactly the rights of the principal in the
    message, unless the header of the principal is too long; and the headers that are left are
    those of the message that the allow list names: a client cannot forge the trust. *)
Theorem forwarded_request_trusted sha256 handler me pa h b p f (Hf : forwardRequest resolve_URL header_value cfg me pa h b p = fetches f)
    (Hp : valid_principal p = true) (Hh : createEdgeTrustedAuthenticationMiddleware sha256 (internalAssertion cfg) = Ok handler) :
  isAllowedEdgeRequest me pa = true /\ u_origin (f_url f) = u_origin (localBaseUrl cfg) /\ f_method f = me
  /\ exists v, encodeEdgeAuthenticatedPrincipal p = Ok v
     /\ match handler (mkIncoming (f_headers f) None) with
        | next q => (String.length v <= MAX_PRINCIPAL_HEADER_BYTES)%nat
            /\ auth q = Some (mkAuth "edge-trusted" "edge-control-plane" (scopes p) (subject p) (ownerScope p))
            /\ forall name x, jm_get (headers q) name = Some x ->
                 name ∈ C_REQUEST_HEADER_ALLOWLIST /\ exists e, e ∈ h /\ toLowerCase e.1 = name /\ e.2 = x
        | unauthorized error status => (MAX_PRINCIPAL_HEADER_BYTES < String.length v)%nat /\ error = "edge_trust_invalid" /\ status = 401
        end.
Proof using JL JRL JIL.
  destruct (forwarded _ _ _ _ _ _ Hf) as (Ha & Ho & Hm & _ & v & h' & Ev & Ec & Eh). split_and!; try done. exists v. split; [done|].
  unfold createEdgeTrustedAuthenticationMiddleware in Hh. apply bind_ok in Hh as (u & Hv & [= <-]). destruct u. cbv beta zeta. cbn [headers]. rewrite Eh.
  rewrite !jm_get_set. cbn [from_option id].
  assert (EDGE_INTERNAL_ASSERTION_HEADER =s EDGE_INTERNAL_PRINCIPAL_HEADER = false) as -> by done. rewrite !String.eqb_refl. cbn [from_option id].
  apply assertion_valid in Hv as [Hl _]. destruct (internalAssertion cfg) as [|c0 s0] eqn:Es; [cbn in Hl; lia|]. rewrite <- Es.
  cbn [negb]. rewrite orb_false_r.
  destruct (encoded_principal p) as (v' & Ev' & Ed). rewrite Ev in Ev'. injection Ev' as <-. rewrite Hp, andb_true_r in Ed.
  assert (Hne : sempty v = false).
  { destruct v as [|c v]; [|done]. exfalso. by cbn in Ed. }
  assert (sempty (internalAssertion cfg) = false) as -> by by rewrite Es. rewrite Hne, Ed. cbn [orb].
  destruct (Nat.leb_spec (String.length v) MAX_PRINCIPAL_HEADER_BYTES) as [Hle|Hgt]; [|done]. split_and!; [done..|]. cbn [headers].
  intros name x. rewrite !jm_get_delete, !jm_get_set. destruct (name =s EDGE_INTERNAL_PRINCIPAL_HEADER); [done|].
  destruct (name =s EDGE_INTERNAL_ASSERTION_HEADER); [done|]. intros Hg. by destruct (collected_get _ _ _ _ _ _ Ec Hg).
Qed.
End Forwarding.

Lemma checked_positive e : check_positive e = Ok tt -> 0 < e.2.
Proof. unfold check_positive, safe_positive. destruct (_ && _) eqn:E; [|done]. intros _. lia. Qed.
Lemma config_positive new_URL options cfg : new_EdgeConnector new_URL options = Ok cfg ->
  0 < maxConcurrentRequests cfg /\ 0 < reconnectMinMs cfg /\ reconnectMinMs cfg <= reconnectMaxMs cfg.
Proof.
  intros H. unfold new_EdgeConnector in H. apply bind_ok in H as (_ & _ & H). apply bind_ok in H as (url & _ & H). cbv zeta in H.
  destruct (_ <? 32)%nat; [done|]. apply bind_ok in H as (_ & _ & H). apply bind_ok in H as ([] & Hp & H). rewrite for_each_ok in Hp.
  destruct (Z.ltb_spec (default DEFAULT_RECONNECT_MAX_MS (o_reconnectMaxMs options)) (default DEFAULT_RECONNECT_MIN_MS (o_reconnectMinMs options)))
    as [|Hle]; [done|]. injection H as <-. cbn. split_and!; [| |done].
  - apply (checked_positive ("maxConcurrentRequests", _)), Hp. set_solver.
  - apply (checked_positive ("reconnectMinMs", _)), Hp. set_solver.
Qed.

Section Properties.
Context `{JN : JsNumber} {JL : JsNumberLaws JN} {JR : JsNumberRead JN} {JRL : JsNumberReadLaws JN JR}.
Context {JI : JsInteger JN} {JIL : JsIntegerLaws JN JI} `{EP : EdgePlatform}.
Context (new_URL : string -> option Url) (resolve_URL : string -> Url -> option Url) (header_value : string -> bool).
Context (options : EdgeConnectorOptions) (cfg : Config) (Hnew : new_EdgeConnector new_URL options = Ok cfg) (since : Z).
Notation step := (step resolve_URL header_value cfg).
Notation reachable := (reachable resolve_URL header_value cfg).
Notation started := (run cfg since).

Lemma reachable_state c : reachable started c ->
  Looping cfg c /\ Tracked cfg (view c) /\ Answers cfg (view c).
Proof using Hnew.
  destruct (config_positive _ _ _ Hnew) as (Hm & Hmin & Hmax). induction 1 as [|c e Hr (HL & HT & HA) Ha].
  - split_and!.
    + split; [split|..]; cbn; try done.
      * by intros [|i] k [= <-].
      * by intros [|i] k [= <-].
      * intros i [= <-]. by eexists.
      * right. left. by rewrite backoff_zero.
      * split; [done|]. by intros (i & k & [= <-] & [= <-] & ?).
    + split; cbn; try done; [constructor|lia].
    + split; cbn; try done.
      * intros [|i] s n [= <-]. by left.
      * intros [|i] s e [= <-] He. by apply elem_of_nil in He.
  - pose proof (step_moves resolve_URL header_value cfg e c HL Ha) as Hmv. split_and!.
    + by apply step_looping.
    + by eapply moves_tracked.
    + by eapply moves_answers.
Qed.

(** A call that was not cancelled and is not over. *)
Definition running (call : Call) : bool := in_flight call && bool_decide (c_aborted call = None).
Lemma NoDup_chosen {A} (f : A -> string) (P : A -> bool) (l : list A) :
  (forall i j x y, l !! i = Some x -> l !! j = Some y -> P x = true -> P y = true -> f x = f y -> i = j) ->
  NoDup (map f (List.filter P l)).
Proof.
  induction l as [|x l IH]; intros H; [constructor|]. cbn.
  assert (NoDup (map f (List.filter P l))) by (apply IH; intros i j a b Ha Hb Pa Pb E; specialize (H (S i) (S j) a b Ha Hb Pa Pb E); lia).
  destruct (P x) eqn:Px; [|done]. cbn. constructor; [|done].
  intros (y & E & (Hy & Py)%list_elem_of_In%filter_In)%list_elem_of_fmap. apply list_elem_of_In, list_elem_of_lookup in Hy as (j & Hj).
  specialize (H 0%nat (S j) x y eq_refl Hj Px Py E). lia.
Qed.

(** [bounds] At no moment does the connector run more requests than it is allowed to, and each running request can still be
    cancelled: its identifier leads to it.  The map never outgrows the bound either, and is empty whenever
    the connector waits to connect again. *)
Theorem connector_capacity c (Hr : reachable started c) :
  Z.of_nat (length (List.filter running (calls c))) <= maxConcurrentRequests cfg
  /\ Z.of_nat (jm_size (activeRequests c)) <= maxConcurrentRequests cfg
  /\ (forall n call, calls c !! n = Some call -> running call = true -> jm_get (activeRequests c) (c_requestId call) = Some n)
  /\ (loop c = sleeping -> activeRequests c = [] /\ Forall (fun call => running call = false) (calls c)).
Proof using Hnew.
  destruct (reachable_state c Hr) as (HL & HT & _).
  assert (Hget : forall n call, calls c !! n = Some call -> running call = true -> jm_get (activeRequests c) (c_requestId call) = Some n).
  { intros n call Hc [Hl Ha%bool_decide_eq_true]%andb_true_iff. by destruct (tk_calls _ _ HT n call Hc Hl). }
  split_and!; [|apply (tk_size _ _ HT)|done|].
  - etrans; [|apply (tk_size _ _ HT)]. apply inj_le. rewrite <- (length_map c_requestId), jm_size_keys.
    apply NoDup_incl_length.
    + apply NoDup_ListNoDup, NoDup_chosen. intros i j x y Hx Hy Px Py E. specialize (Hget i x Hx Px) as G1. specialize (Hget j y Hy Py). congruence.
    + intros id (call & <- & (Hin & Hru)%filter_In)%in_map_iff. apply list_elem_of_In, list_elem_of_lookup in Hin as (n & Hn).
      apply list_elem_of_In. eapply jm_in_keys, jm_get_in. by apply (Hget n).
  - intros Hl. assert (He : activeRequests c = []) by (apply (lo_idle _ _ HL); intros i; congruence). split; [done|].
    apply Forall_lookup_2. intros n call Hc. destruct (running call) eqn:Hru; [|done]. specialize (Hget n call Hc Hru). by rewrite He in Hget.
Qed.

(** [safety] Whatever happens, a request is answered at most once, on the connection on which it came and under its
    own identifier, and not before its call to the gateway has ended; and every message that the connector
    sends is read by the edge as it was sent. *)
Theorem connector_answers_once c (Hr : reachable started c) i k (Hk : connections c !! i = Some k) :
  (forall n, of_call n (sent k) = []
     \/ exists call status h b, calls c !! n = Some call /\ c_connection call = i /\ is_fetching (c_phase call) = false
        /\ of_call n (sent k) = [http_response (c_requestId call) status h b])
  /\ ((forall g, 0 < g <= generation c -> match identity_of (runtimeIdentity cfg) g with Some r => valid_runtime r = true | None => True end) ->
      Forall (fun e => exists t, JSON_stringify (connector_message_value EDGE_PROTOCOL_VERSION e.2) = Ok (Some t)
        /\ parseConnectorToEdgeMessage t = Some e.2) (sent k)).
Proof using Hnew JL JRL JIL.
  destruct (reachable_state c Hr) as (HL & _ & HA).
  assert (Hs : v_sent (view c) !! i = Some (sent k)) by (cbn; rewrite list_lookup_fmap, Hk; done). split.
  - intros n. destruct (an_sent _ _ HA i (sent k) n Hs) as [?|(call & m & Hc & Hi & Hp & Ho & (status & h & b & -> & _))]; [by left|right].
    by exists call, status, (Some h), b.
  - intros Hv. apply Forall_forall. intros e He.
    assert (Hm : own_order (connector_headers e.2) /\ valid_connector_message e.2 = true).
    { destruct (an_message _ _ HA i (sent k) e Hs He) as [-> |(id & Hid & (status & h & b & -> & Hst & Ho))].
      - split; [constructor|]. cbn [valid_connector_message]. specialize (Hv (Z.of_nat (S i))).
        destruct (identity_of (runtimeIdentity cfg) (Z.of_nat (S i))); [|done]. apply Hv. rewrite (nu_generation _ HL).
        apply lookup_lt_Some in Hk. lia.
      - split; [done|]. cbn [valid_connector_message]. destruct id; [done|]. cbn [sempty negb]. lia. }
    destruct (connector_message_arrives e.2 (proj1 Hm)) as [(t & Et & Ep & _) _]. exists t. split; [done|]. by rewrite Ep, (proj2 Hm).
Qed.

(** [invariant] When the connector waits to connect again, the delay is the shortest one doubled for each failed
    connection since the last one that became ready, and never more than the longest one; no connection is
    open, and the time offline runs exactly while no connection is ready. *)
Theorem backoff_exact c (Hr : reachable started c) :
  (loop c = sleeping -> reconnectDelay c = Z.min (reconnectMinMs cfg * 2 ^ consecutiveFailures c) (reconnectMaxMs cfg)
     /\ reconnectMinMs cfg <= reconnectDelay c <= reconnectMaxMs cfg
     /\ Forall (fun k => readyState k = CLOSED) (connections c))
  /\ (offlineSinceMs c = None <-> exists i k, loop c = connecting i /\ connections c !! i = Some k /\ protocolReady k = true)
  /\ (forall i j k k', connections c !! i = Some k -> connections c !! j = Some k' -> readyState k <> CLOSED -> readyState k' <> CLOSED -> i = j).
Proof using Hnew.
  destruct (reachable_state c Hr) as (HL & _ & _). destruct (config_positive _ _ _ Hnew) as (_ & Hmin & Hmax). split_and!.
  - intros Hl. assert (Hd : reconnectDelay c = backoff cfg (consecutiveFailures c)).
    { destruct (lo_delay _ _ HL) as [?|[?|(i & k & ? & _)]]; congruence. }
    split_and!; [done|rewrite Hd; by apply backoff_bounds, HL..|]. apply Forall_lookup_2. intros i k Hk.
    destruct (decide (readyState k = CLOSED)) as [|Hn]; [done|]. pose proof (nu_one _ HL i k Hk Hn). congruence.
  - apply HL.
  - intros i j k k' Hk Hk' Hn Hn'. pose proof (nu_one _ HL i k Hk Hn). pose proof (nu_one _ HL j k' Hk' Hn'). congruence.
Qed.
End Properties.

(** *** A connector that serves one request *)
Module Trial.
#[local] Existing Instance EdgeProtocol.Trial.platform.
Definition edge_url : Url := mkUrl "wss:" "edge.example" "wss://edge.example" "/connector" EmptyString EmptyString EmptyString EmptyString.
Definition local_url : Url := mkUrl "http:" "127.0.0.1" "http://127.0.0.1:3000" "/" EmptyString EmptyString EmptyString EmptyString.
Definition new_URL (v : string) : option Url :=
  if v =s "wss://edge.example/connector" then Some edge_url else if v =s "http://127.0.0.1:3000/" then Some local_url else None.
Definition resolve_URL (path : string) (base : Url) : option Url :=
  Some (mkUrl (u_protocol base) (u_hostname base) (u_origin base) path EmptyString EmptyString EmptyString EmptyString).
Definition header_value (v : string) : bool := negb (has_char LF v).
Definition options : EdgeConnectorOptions :=
  mkOptions "wss://edge.example/connector" (String.concat EmptyString (repeat "t" 32)) EdgeTrust.Trial.secret "http://127.0.0.1:3000/"
    (Some EdgeProtocol.Trial.runtime) None (Some 1) None None None.
Definition cfg : Config :=
  mkConfig local_url DEFAULT_MAX_PAYLOAD_BYTES 1 DEFAULT_HEARTBEAT_MS DEFAULT_RECONNECT_MIN_MS DEFAULT_RECONNECT_MAX_MS
    EdgeTrust.Trial.secret (Some EdgeProtocol.Trial.runtime).
Lemma constructed : new_EdgeConnector new_URL options = Ok cfg.
Proof. vm_compute. reflexivity. Qed.
Notation step := (step (JN := whole_numbers) resolve_URL header_value cfg).
Notation reachable := (reachable (JN := whole_numbers) resolve_URL header_value cfg).

Definition text_of (m : EdgeToConnectorMessage) : option string :=
  match JSON_stringify (JN := whole_numbers) (edge_message_value EDGE_PROTOCOL_VERSION m) with Ok t => t | Err _ => None end.
Definition greeted : Connector := step (Message 0 (text_of edge_hello) 2) (step (Opened 0 1) (run cfg 0)).
Definition busy : Connector := step (Message 0 (text_of EdgeProtocol.Trial.call) 3) greeted.
Definition served : Connector := step (CallLeft 0) (step (CallDone 0 (fetched 200 [("content-type", "text/plain")] "ok")) busy).

Lemma greeted_reachable : reachable (run cfg 0) greeted.
Proof.
  apply reach_step; [apply reach_step; [constructor|vm_compute; reflexivity]|]. split; [left; vm_compute; reflexivity|].
  intros t id me pa h b p _ _ [|n] call H; vm_compute in H; discriminate H.
Qed.
Lemma occupied_reachable : reachable (run cfg 0) busy.
Proof.
  apply reach_step; [apply greeted_reachable|]. split; [left; vm_compute; reflexivity|].
  intros t id me pa h b p _ _ [|n] call H; vm_compute in H; discriminate H.
Qed.
Lemma served_reachable : reachable (run cfg 0) served.
Proof.
  apply reach_step; [apply reach_step; [apply occupied_reachable|]|].
  - split; [eexists; split; [vm_compute; reflexivity|vm_compute; reflexivity]|lia].
  - eexists _, false. split; vm_compute; reflexivity.
Qed.
Example served_once : map (fun k => map snd (sent k)) (connections served)
  = [[EdgeProtocol.Trial.ready; http_response "id-1" 200 (Some [("content-type", "text/plain")]) "ok"]].
Proof. vm_compute. reflexivity. Qed.

Lemma connector_capacity_witness : length (List.filter running (calls busy)) = 1%nat
  /\ Z.of_nat (length (List.filter running (calls busy))) <= maxConcurrentRequests cfg.
Proof.
  split; [vm_compute; reflexivity|]. exact (proj1 (connector_capacity new_URL resolve_URL header_value options cfg constructed 0 busy occupied_reachable)).
Defined.
Lemma connector_answers_once_witness : exists k, connections served !! 0%nat = Some k /\ length (of_call 0 (sent k)) = 1%nat.
Proof.
  destruct (connections served !! 0%nat) as [k|] eqn:Hk; [|vm_compute in Hk; discriminate Hk]. exists k. split; [reflexivity|].
  destruct (proj1 (connector_answers_once (JN := whole_numbers) new_URL resolve_URL header_value options cfg constructed 0 served served_reachable 0 k Hk) 0%nat)
    as [E|(call & status & h & b & _ & _ & _ & E)]; [|by rewrite E].
  exfalso. vm_compute in Hk. injection Hk as <-. vm_compute in E. discriminate E.
Defined.
Definition broken : Connector := step (SocketClosed 0 "socket_closed_1006" 5) (run cfg 0).
Lemma backoff_exact_witness : loop broken = sleeping /\ reconnectDelay broken = Z.min (1000 * 2 ^ 1) 30000.
Proof.
  split; [vm_compute; reflexivity|].
  assert (Hr : reachable (run cfg 0) broken) by (apply reach_step; [constructor|exists CONNECTING; split; [vm_compute; reflexivity|discriminate]]).
  destruct (proj1 (backoff_exact new_URL resolve_URL header_value options cfg constructed 0 broken Hr)) as (E & _); [vm_compute; reflexivity|].
  rewrite E. vm_compute. reflexivity.
Defined.
Definition digest_of (s : string) : string := s.
Definition forwarding : Forward :=
  forwardRequest (JN := whole_numbers) resolve_URL header_value cfg "POST" "/mcp" [("accept", "*/*"); (EDGE_INTERNAL_PRINCIPAL_HEADER, "forged")] "{}"
    EdgeProtocol.Trial.caller.
Definition middleware : result exn (AuthenticatedRequest -> Trusted) :=
  createEdgeTrustedAuthenticationMiddleware (JN := whole_numbers) digest_of (internalAssertion cfg).
Lemma forwarding_fetches : match forwarding with fetches _ => true | _ => false end = true.
Proof. vm_compute. reflexivity. Qed.
Lemma middleware_made : is_ok middleware = true.
Proof. vm_compute. reflexivity. Qed.
Lemma header_short : match encodeEdgeAuthenticatedPrincipal (JN := whole_numbers) EdgeProtocol.Trial.caller with
  Ok v => (String.length v <=? MAX_PRINCIPAL_HEADER_BYTES)%nat | Err _ => false end = true.
Proof. vm_compute. reflexivity. Qed.
Lemma forwarded_request_trusted_witness : exists f handler q, forwarding = fetches f /\ middleware = Ok handler
  /\ handler (mkIncoming (f_headers f) None) = next q
  /\ auth q = Some (mkAuth "edge-trusted" "edge-control-plane" (scopes EdgeProtocol.Trial.caller) (subject EdgeProtocol.Trial.caller) (ownerScope EdgeProtocol.Trial.caller)).
Proof.
  pose proof forwarding_fetches as Hf. pose proof middleware_made as Hm. pose proof header_short as Hs.
  destruct forwarding as [st e| |f] eqn:Ef; [discriminate Hf..|]. destruct middleware as [handler|e] eqn:Eh; [|discriminate Hm].
  destruct (forwarded_request_trusted (JN := whole_numbers) resolve_URL header_value cfg digest_of handler _ _ _ _ _ f Ef ltac:(vm_compute; reflexivity) Eh)
    as (_ & _ & _ & v & Ev & H). rewrite Ev in Hs. apply Nat.leb_le in Hs.
  exists f, handler. destruct (handler (mkIncoming (f_headers f) None)) as [e st|q] eqn:Eq.
  - exfalso. destruct H as (H & _). exact (Nat.lt_irrefl _ (Nat.lt_le_trans _ _ _ H Hs)).
  - exists q. split; [reflexivity|]. split; [reflexivity|]. split; [reflexivity|]. exact (proj1 (proj2 H)).
Defined.
End Trial.
End EdgeConnector.
