(* ===== verification/EdgeRelay.v ===== *)
(** A request through the edge, the connector and the gateway.

    The session of the edge (EdgeSession) and the connector (EdgeConnector) are two machines that exchange texts:
    what the session sends on the socket of a connector is the message that the connector receives, and the other
    way round.  The lemmas follow one request step by step; the theorem puts them together. *)
From S2P Require Import Prelude Errors JsString JsRegex JsMap JsSort Json JsonText Zod JsBuffer JsUrl EdgeProtocol EdgeRollout EdgeTelemetry EdgeTrust EdgeSession EdgeConnector.
Import EdgeProtocol.
Open Scope string_scope.
Open Scope list_scope.
Open Scope Z_scope.

Module EdgeRelay.
Section EdgeRelay.
Context `{JN : JsNumber} {JL : JsNumberLaws JN} {JR : JsNumberRead JN} {JRL : JsNumberReadLaws JN JR}.
Context {JI : JsInteger JN} {JIL : JsIntegerLaws JN JI} `{EP : EdgePlatform}.
Context (EXPECTED : string) (localeCompare : string -> string -> Z) {LC : JsSort.Consistent localeCompare}.
Context (header_value : string -> bool) (response_ok : string -> Z -> jsmap string -> bool).
Context (resolve_URL : string -> Url -> option Url) (cfg : EdgeConnector.Config).
Notation edge_step := (EdgeSession.step EXPECTED localeCompare header_value response_ok).
Notation connector_step := (EdgeConnector.step resolve_URL header_value cfg).

(** *** The edge sends *)
Lemma request_sent q body principal unavailable requestId now s i :
  EdgeSession.getExecutionReadyConnector localeCompare EDGE_PROTOCOL_VERSION s = Some i ->
  isAllowedEdgeRequest (EdgeSession.q_method q) (EdgeSession.q_path q) = true -> utf8ByteLength body <= MAX_EDGE_REQUEST_BODY_BYTES ->
  let s' := edge_step (EdgeSession.Relay q body principal unavailable requestId true now) s in
  EdgeSession.sockets s' = alter (EdgeSession.send_on EDGE_PROTOCOL_VERSION (http_request requestId (EdgeSession.q_method q) (EdgeSession.q_path q)
        (collectAllowedRequestHeaders (EdgeSession.q_headers q)) body principal)) i (EdgeSession.sockets s)
  /\ EdgeSession.pending s' = jm_set (EdgeSession.pending s) requestId (EdgeSession.mkRelay (EdgeSession.promises s) i EDGE_PROTOCOL_VERSION unavailable)
  /\ EdgeSession.settled s' = EdgeSession.settled s
  /\ EdgeSession.protocolVersion <$> EdgeSession.attachment_of s' i = Some EDGE_PROTOCOL_VERSION.
Proof.
  intros Hc Ha Hb. cbv zeta. cbn [EdgeSession.step]. unfold EdgeSession.relayAuthenticatedRequest. cbv zeta.
  rewrite Ha, (proj2 (Z.ltb_ge _ _)) by done. cbn [negb].
  assert (EdgeSession.getExecutionReadyConnector localeCompare EDGE_PROTOCOL_VERSION (EdgeSession.new_promise s) = Some i) as -> by done.
  unfold EdgeSession.getExecutionReadyConnector in Hc.
  match type of Hc with EdgeSession.selectReadyConnector _ ?w _ = _ => pose proof (EdgeSession.selected_spec localeCompare w s) as Hs end.
  rewrite Hc in Hs. destruct Hs as (k & a & Hk & He & _).
  assert (Hka : EdgeSession.is_open k = true /\ EdgeSession.attachment k = Some a /\ EdgeSession.protocolVersion a = EDGE_PROTOCOL_VERSION).
  { unfold EdgeSession.eligible in He. cbn [EdgeSession.w_closing EdgeSession.w_version] in He.
    destruct (EdgeSession.listed k); [|done]. cbn [negb] in He. destruct (EdgeSession.attachment k) as [b|]; [|done].
    cbv zeta in He. destruct (_ || _) eqn:Eo in He; [done|]. injection He as ->. apply orb_false_iff in Eo as [Eo Eopen].
    rewrite bool_decide_true in Eopen by done. repeat (apply orb_false_iff in Eo as [Eo ?]).
    split_and!; [by apply negb_false_iff in Eopen|done|]. lia. }
  destruct Hka as (Hopen & Hatt & Hver). unfold EdgeSession.start_relay. cbn. rewrite Hk. cbn. rewrite Hopen. cbn. split_and!; try done.
  unfold EdgeSession.attachment_of. cbn. rewrite list_lookup_alter_eq, Hk. cbn. by rewrite Hatt; cbn; rewrite Hver.
Qed.

(** *** The connector forwards it and answers *)
Lemma request_forwarded j k text id me pa h b p f now c :
  EdgeConnector.connections c !! j = Some k -> EdgeConnector.readyState k = EdgeConnector.OPEN -> EdgeConnector.protocolReady k = true ->
  parseEdgeToConnectorMessage text = Some (http_request id me pa h b p) -> utf8ByteLength text <= EdgeConnector.maxPayloadBytes cfg ->
  jm_get (EdgeConnector.activeRequests c) id = None ->
  Z.of_nat (jm_size (EdgeConnector.activeRequests c)) < EdgeConnector.maxConcurrentRequests cfg ->
  EdgeConnector.forwardRequest resolve_URL header_value cfg me pa h b p = EdgeConnector.fetches f ->
  let c' := connector_step (EdgeConnector.Message j (Some text) now) c in
  EdgeConnector.connections c' = EdgeConnector.connections c
  /\ EdgeConnector.calls c' !! length (EdgeConnector.calls c) = Some (EdgeConnector.mkCall j id None (EdgeConnector.Fetching f)).
Proof.
  intros Hk Ho Hp Ht Hl Hn Hs Hf. cbv zeta. cbn [EdgeConnector.step]. unfold EdgeConnector.handleMessage. cbv zeta.
  rewrite Hk, (proj2 (Z.ltb_ge _ _)), Ht, Hp by done. cbn [negb]. unfold jm_has. rewrite Hn, (proj2 (Z.leb_gt _ _)) by done.
  unfold EdgeConnector.start_call. cbv zeta. rewrite Hf. cbn. split; [done|]. by rewrite lookup_app_r, Nat.sub_diag by lia.
Qed.
Lemma response_sent n id j k status h b f c :
  EdgeConnector.calls c !! n = Some (EdgeConnector.mkCall j id None (EdgeConnector.Fetching f)) ->
  EdgeConnector.connections c !! j = Some k -> EdgeConnector.readyState k = EdgeConnector.OPEN -> utf8ByteLength b <= MAX_EDGE_RESPONSE_BODY_BYTES ->
  let c' := connector_step (EdgeConnector.CallDone n (EdgeConnector.fetched status h b)) c in
  exists k', EdgeConnector.connections c' !! j = Some k'
    /\ EdgeConnector.sent k' = EdgeConnector.sent k ++
         [(Some n, http_response id status (Some (collectAllowedHeaders h EdgeConnector.C_RESPONSE_HEADER_ALLOWLIST)) b)].
Proof.
  intros Hc Hk Ho Hb. cbv zeta. cbn [EdgeConnector.step]. unfold EdgeConnector.call_done. rewrite Hc. cbv zeta. rewrite (proj2 (Z.ltb_ge _ _)) by done.
  cbn. rewrite list_lookup_alter_eq, Hk. cbn. eexists. split; [done|]. unfold EdgeConnector.send_on. by rewrite bool_decide_true.
Qed.

(** *** The edge answers *)
Lemma response_relayed i text id status h b now s p r :
  EdgeSession.protocolVersion <$> EdgeSession.attachment_of s i = Some EDGE_PROTOCOL_VERSION ->
  parseConnectorToEdgeMessage text = Some (http_response id status h b) -> jm_get (EdgeSession.pending s) id = Some p ->
  utf8ByteLength b <= MAX_EDGE_RESPONSE_BODY_BYTES -> EdgeSession.response_of header_value response_ok b status h = Ok r ->
  let s' := edge_step (EdgeSession.Message i (Some text) now) s in
  EdgeSession.settled s' = EdgeSession.settled s ++ [(EdgeSession.p_promise p, r)] /\ EdgeSession.pending s' = jm_delete (EdgeSession.pending s) id.
Proof.
  intros Ha Ht Hp Hb Hr. cbv zeta. cbn [EdgeSession.step]. unfold EdgeSession.webSocketMessage.
  destruct (EdgeSession.attachment_of s i) as [a|]; [|done]. injection Ha as Ha. rewrite Ha. cbn. rewrite Ht.
  unfold EdgeSession.connector_responded. rewrite Hp. cbv zeta. rewrite (proj2 (Z.ltb_ge _ _)) by done. cbn. by rewrite Hr.
Qed.

(** [refinement] A request goes through: if a connector is chosen for it, is ready and has room, and the gateway answers,
    then the text that the edge sends is taken by the connector as the same request, the text that the connector
    sends is taken by the edge as the gateway's answer, and the client gets exactly this answer, with the headers
    that both allow lists name; nothing of the request stays pending.  The two machines
    together do what one call of the gateway would. *)
Theorem relay_end_to_end s c q body principal unavailable requestId i j k f status h b r now1 now2 now3
    (Hchosen : EdgeSession.getExecutionReadyConnector localeCompare EDGE_PROTOCOL_VERSION s = Some i)
    (Hroute : isAllowedEdgeRequest (EdgeSession.q_method q) (EdgeSession.q_path q) = true)
    (Hbody : utf8ByteLength body <= MAX_EDGE_REQUEST_BODY_BYTES) (Hprincipal : valid_principal principal = true)
    (Hid : requestId <> EmptyString) (Hfresh : jm_get (EdgeSession.pending s) requestId = None)
    (Hk : EdgeConnector.connections c !! j = Some k) (Hopen : EdgeConnector.readyState k = EdgeConnector.OPEN)
    (Hready : EdgeConnector.protocolReady k = true) (Hnew : jm_get (EdgeConnector.activeRequests c) requestId = None)
    (Hroom : Z.of_nat (jm_size (EdgeConnector.activeRequests c)) < EdgeConnector.maxConcurrentRequests cfg)
    (Hf : EdgeConnector.forwardRequest resolve_URL header_value cfg (toUpperCase (EdgeSession.q_method q)) (EdgeSession.q_path q)
            (collectAllowedRequestHeaders (EdgeSession.q_headers q)) body principal = EdgeConnector.fetches f)
    (Hstatus : 100 <= status <= 599) (Hb : utf8ByteLength b <= MAX_EDGE_RESPONSE_BODY_BYTES)
    (Hr : EdgeSession.response_of header_value response_ok b status
            (Some (collectAllowedHeaders h EdgeConnector.C_RESPONSE_HEADER_ALLOWLIST)) = Ok r) :
  let m := http_request requestId (EdgeSession.q_method q) (EdgeSession.q_path q) (collectAllowedRequestHeaders (EdgeSession.q_headers q)) body principal in
  let s1 := edge_step (EdgeSession.Relay q body principal unavailable requestId true now1) s in
  exists t, JSON_stringify (edge_message_value EDGE_PROTOCOL_VERSION m) = Ok (Some t)
    /\ EdgeSession.sockets s1 = alter (EdgeSession.send_on EDGE_PROTOCOL_VERSION m) i (EdgeSession.sockets s)
    /\ (utf8ByteLength t <= EdgeConnector.maxPayloadBytes cfg ->
        let n := length (EdgeConnector.calls c) in
        let c1 := connector_step (EdgeConnector.Message j (Some t) now2) c in
        let c2 := connector_step (EdgeConnector.CallDone n (EdgeConnector.fetched status h b)) c1 in
        EdgeConnector.calls c1 !! n = Some (EdgeConnector.mkCall j requestId None (EdgeConnector.Fetching f))
        /\ exists k' m' t', EdgeConnector.connections c2 !! j = Some k' /\ EdgeConnector.sent k' = EdgeConnector.sent k ++ [(Some n, m')]
             /\ JSON_stringify (connector_message_value EDGE_PROTOCOL_VERSION m') = Ok (Some t')
             /\ let s2 := edge_step (EdgeSession.Message i (Some t') now3) s1 in
                EdgeSession.settled s2 = EdgeSession.settled s ++ [(EdgeSession.promises s, r)]
                /\ EdgeSession.pending s2 = EdgeSession.pending s).
Proof using JL JRL JIL LC.
  cbv zeta. set (m := http_request _ _ _ _ _ _).
  destruct (request_sent q body principal unavailable requestId now1 s i Hchosen Hroute Hbody) as (Hs1 & Hp1 & Hset & Hver).
  destruct (edge_message_arrives m (request_headers_own _)) as (t & Et & Ep).
  assert (Hvm : valid_edge_message m = true) by (cbn; destruct requestId; [done|]; cbn; by rewrite Hroute, Hprincipal).
  rewrite Hvm in Ep. exists t. split_and!; [done|done|]. intros Ht.
  destruct (request_forwarded j k t requestId _ _ _ _ _ f now2 c Hk Hopen Hready Ep Ht Hnew Hroom Hf) as (Hks & Hcall). split; [done|].
  rewrite <- Hks in Hk. destruct (response_sent _ _ _ _ status h b f _ Hcall Hk Hopen Hb) as (k' & Hk' & Hsent).
  set (m' := http_response _ _ _ _) in Hsent.
  destruct (connector_message_arrives m') as [(t' & Et' & Ep' & _) _]; [by apply collected_headers|].
  assert (Hvr : valid_connector_message m' = true) by (cbn; destruct requestId; [done|]; cbn; lia). rewrite Hvr in Ep'.
  exists k', m', t'.
  destruct (response_relayed i t' requestId status _ b now3 _ (EdgeSession.mkRelay (EdgeSession.promises s) i EDGE_PROTOCOL_VERSION unavailable) r Hver Ep')
    as [H1 H2]; [by rewrite Hp1, jm_get_set, String.eqb_refl|done|exact Hr|]. split_and!; [done|done|done|..].
  - rewrite H1, Hset. done.
  - rewrite H2, Hp1, (jm_set_fresh _ _ _ Hfresh). unfold jm_delete. rewrite List.filter_app. cbn. rewrite String.eqb_refl. cbn.
    rewrite app_nil_r. by apply jm_delete_fresh.
Qed.
End EdgeRelay.

(** *** One call, from the client to the gateway and back *)
Module Trial.
#[local] Existing Instance EdgeProtocol.Trial.platform.
#[local] Existing Instance EdgeSession.Trial.compare_consistent.
Notation edge_step := (EdgeSession.step (JN := whole_numbers) EdgeSession.Trial.EXPECTED EdgeSession.Trial.compare EdgeSession.Trial.header_value EdgeSession.Trial.response_ok).
Definition edge : EdgeSession.Session := EdgeSession.Trial.connected.
Definition connector : EdgeConnector.Connector := EdgeConnector.Trial.greeted.
Definition given : list (string * string) := [("content-type", "text/plain"); ("set-cookie", "a=b"); ("mcp-session-id", "s1")].
Definition forwarded : EdgeConnector.Forward :=
  EdgeConnector.forwardRequest (JN := whole_numbers) EdgeConnector.Trial.resolve_URL EdgeSession.Trial.header_value EdgeConnector.Trial.cfg
    (toUpperCase (EdgeSession.q_method EdgeSession.Trial.q)) (EdgeSession.q_path EdgeSession.Trial.q)
    (collectAllowedRequestHeaders (EdgeSession.q_headers EdgeSession.Trial.q)) "{}" EdgeProtocol.Trial.caller.
Lemma forwarded_fetches : match forwarded with EdgeConnector.fetches _ => true | _ => false end = true.
Proof. vm_compute. reflexivity. Qed.
Definition response : EdgeSession.EdgeResponse :=
  EdgeSession.relayed "ok" 200 [("content-type", "text/plain"); ("mcp-session-id", "s1"); ("cache-control", "no-store")].
Definition connection : EdgeConnector.Connection := default (EdgeConnector.mkConnection 0 EdgeConnector.CLOSED false 0 None None 0 0 false false false [] []) (EdgeConnector.connections connector !! 0%nat).
Lemma connected : EdgeConnector.connections connector !! 0%nat = Some connection.
Proof. vm_compute. reflexivity. Qed.
Lemma chosen : EdgeSession.getExecutionReadyConnector EdgeSession.Trial.compare EDGE_PROTOCOL_VERSION edge = Some 0%nat.
Proof. vm_compute. reflexivity. Qed.
Lemma edge_settled : EdgeSession.settled edge ++ [(EdgeSession.promises edge, response)] = [(0%nat, response)].
Proof. vm_compute. reflexivity. Qed.
Definition sent_message : EdgeToConnectorMessage :=
  http_request "id-1" (EdgeSession.q_method EdgeSession.Trial.q) (EdgeSession.q_path EdgeSession.Trial.q)
    (collectAllowedRequestHeaders (EdgeSession.q_headers EdgeSession.Trial.q)) "{}" EdgeProtocol.Trial.caller.
Lemma short t : JSON_stringify (JN := whole_numbers) (edge_message_value EDGE_PROTOCOL_VERSION sent_message) = Ok (Some t) ->
  utf8ByteLength t <= EdgeConnector.maxPayloadBytes EdgeConnector.Trial.cfg.
Proof.
  assert (match JSON_stringify (JN := whole_numbers) (edge_message_value EDGE_PROTOCOL_VERSION sent_message) with
    Ok (Some t) => utf8ByteLength t <=? EdgeConnector.maxPayloadBytes EdgeConnector.Trial.cfg | _ => true end = true) as H by by vm_compute.
  intros E. rewrite E in H. by apply Z.leb_le in H.
Qed.
Lemma relay_end_to_end_witness : exists t',
  EdgeSession.settled (edge_step (EdgeSession.Message 0 (Some t') "t3")
    (edge_step (EdgeSession.Relay EdgeSession.Trial.q "{}" EdgeProtocol.Trial.caller None "id-1" true "t2") edge)) = [(0%nat, response)].
Proof.
  pose proof forwarded_fetches as Hf. destruct forwarded as [st e| |f] eqn:Ef; [discriminate Hf..|]. clear Hf.
  pose proof (relay_end_to_end (JN := whole_numbers) EdgeSession.Trial.EXPECTED EdgeSession.Trial.compare EdgeSession.Trial.header_value
    EdgeSession.Trial.response_ok EdgeConnector.Trial.resolve_URL EdgeConnector.Trial.cfg edge connector EdgeSession.Trial.q "{}" EdgeProtocol.Trial.caller
    None "id-1" 0 0 connection f 200 given "ok" response "t2" 3 "t3" chosen ltac:(vm_compute; reflexivity) ltac:(vm_compute; discriminate)
    ltac:(vm_compute; reflexivity) ltac:(discriminate) ltac:(vm_compute; reflexivity) connected ltac:(vm_compute; reflexivity) ltac:(vm_compute; reflexivity)
    ltac:(vm_compute; reflexivity) ltac:(vm_compute; reflexivity) Ef ltac:(lia) ltac:(vm_compute; discriminate) ltac:(vm_compute; reflexivity)) as H.
  cbv zeta in H. destruct H as (t & Et & _ & H).
  destruct H as (_ & k' & m' & t' & _ & _ & _ & H & _); [|exists t'; rewrite H; apply edge_settled].
  exact (short t Et).
Defined.
End Trial.
End EdgeRelay.
