(* ===== verification/OwnerOAuth.v ===== *)
(** The owner's authorization server: services/mcp-edge-gateway/src/control-plane/owner-oauth.ts and auth.ts.

    [EdgeOwnerOAuth] gives out access tokens (signed texts) and refresh tokens (random texts, kept by their hash) to
    clients that the owner has consented to.  [Store] is what it keeps in the storage of the durable object, one table
    for each prefix of a key.  The object runs one handler at a time up to an [await] that is not a storage
    operation; [Work] is what a handler still has to do after such an [await] (a hash or a signature), and [step] is
    one event: a request, or the continuation of a handler, in any order.  What the handlers did is recorded:
    [consents] that the owner gave, and [issued], the grants of the tokens that were made.

    SHA-256 and HMAC, random texts and the clock are inputs.  Times of claims are whole numbers, as [issueTokens]
    writes them. *)
From S2P Require Import Prelude Errors JsString JsRegex JsBuffer JsMap Json JsonText Zod JsUrl EdgeProtocol.
Import EdgeProtocol.
Open Scope string_scope.
Open Scope list_scope.
Open Scope Z_scope.

Module OwnerOAuth.

Definition AUTHORIZATION_CODE_TTL_MS : Z := 5 * 60 * 1000.
Definition MAX_CLIENTS : Z := 256.
Definition MAX_SCOPES : nat := 64.

(** *** auth.ts *)
Inductive OAuthError := invalid_token | insufficient_scope.
Record EdgeAuthenticationError := mkAuthError { ae_status : Z; oauthError : OAuthError }.
Definition readBearerToken (header : option string) : option string :=
  match header with
  | None => None
  | Some h =>
      if negb (startsWith h "Bearer ") || (String.length h =? 7)%nat then None
      else let token := trim (sdrop 7 h) in if sempty token then None else Some token
  end.
(** [parseScopes] of a text; of anything else it is empty. *)
Definition parseScopes (v : string) : list string := js_dedup (words v).
Definition parse_scopes_value (v : value) : list string := match v with VString s => parseScopes s | _ => [] end.

Record ExternalOAuthEdgeConfig := mkExternal { allowedSubjects : list string; requiredScope : string }.
(** What is read of the payload that jose's [jwtVerify] returns. *)
Record JWTPayload := mkPayload { pl_sub : option string; pl_has_exp : bool; pl_scope : value }.
Definition external_authenticate (jwtVerify : string -> option JWTPayload) (config : ExternalOAuthEdgeConfig)
    (authorization : option string) : AuthenticatedEdgePrincipal + EdgeAuthenticationError :=
  match readBearerToken authorization with
  | None => inr (mkAuthError 401 invalid_token)
  | Some token =>
      match jwtVerify token with
      | None => inr (mkAuthError 401 invalid_token)
      | Some payload =>
          let sub := default EmptyString (pl_sub payload) in
          if sempty sub || negb (pl_has_exp payload) then inr (mkAuthError 401 invalid_token)
          else if negb (includes (allowedSubjects config) sub) then inr (mkAuthError 403 insufficient_scope)
          else
            let scopes := parse_scopes_value (pl_scope payload) in
            if negb (includes scopes (requiredScope config)) then inr (mkAuthError 403 insufficient_scope)
            else inl (mkPrincipal sub scopes None)
      end
  end.

(** *** The data *)
Record EdgeOwnerOAuthConfig := mkOwnerConfig {
  ownerSecret : option string;
  publicBaseUrl : Url;
  base_href : string;
  mcp_href : string;
  metadata_pathname : string;
  cfg_scopes : list string;
  accessTokenTtlSeconds : Z;
  refreshTokenTtlSeconds : Z;
  resourceName : string;
}.
Record OwnerClient := mkClient {
  client_id : string;
  client_id_issued_at : Z;
  redirect_uris : list string;
  client_name : option string;
  grant_types : list string;
  response_types : list string;
}.
Record AuthorizationCodeRecord := mkCode {
  clientId : string;
  redirectUri : string;
  codeChallenge : string;
  scopes : list string;
  resource : string;
  expiresAtMs : Z;
}.
Record RefreshTokenRecord := mkRefresh {
  r_clientId : string;
  r_scopes : list string;
  r_resource : string;
  r_expiresAt : Z;
}.
Record OwnerCredentialMaterial := mkMaterial { ownerVerifierHash : string; signingKey : string }.
Record OwnerAccessClaims := mkClaims {
  iss : string;
  aud : string;
  sub : string;
  scope : string;
  claims_client_id : string;
  iat : Z;
  exp : Z;
  jti : string;
}.
(** The tables under "owner:client:", "owner:code:", "owner:refresh:", "owner:legacy-access:" and "owner:revoked:",
    and the values under the other keys. *)
Record Store := mkStore {
  clients : jsmap OwnerClient;
  codes : jsmap AuthorizationCodeRecord;
  refreshes : jsmap RefreshTokenRecord;
  legacy : jsmap RefreshTokenRecord;
  revoked : jsmap Z;
  client_count : option Z;
  material : option OwnerCredentialMaterial;
  bootstrapped : bool;
}.
Definition set_clients (m : jsmap OwnerClient) (n : Z) (s : Store) : Store :=
  mkStore m (codes s) (refreshes s) (legacy s) (revoked s) (Some n) (material s) (bootstrapped s).
Definition set_codes (m : jsmap AuthorizationCodeRecord) (s : Store) : Store :=
  mkStore (clients s) m (refreshes s) (legacy s) (revoked s) (client_count s) (material s) (bootstrapped s).
Definition set_refreshes (m : jsmap RefreshTokenRecord) (s : Store) : Store :=
  mkStore (clients s) (codes s) m (legacy s) (revoked s) (client_count s) (material s) (bootstrapped s).
Definition set_legacy (m : jsmap RefreshTokenRecord) (s : Store) : Store :=
  mkStore (clients s) (codes s) (refreshes s) m (revoked s) (client_count s) (material s) (bootstrapped s).
Definition set_revoked (m : jsmap Z) (s : Store) : Store :=
  mkStore (clients s) (codes s) (refreshes s) (legacy s) m (client_count s) (material s) (bootstrapped s).

(** A refused request, the pages, and what the endpoints answer. *)
Inductive Reply :=
| oauth_error (error : string) (status : Z)
| created (client : OwnerClient)
| page (body : string) (status : Z)
| redirect (uri code : string) (state : option string)
| tokens (access refresh scope : string) (expires_in : Z)
| empty_ok
| failed
| bootstrap_done
| bootstrap_refused (already : bool)
| principal (p : AuthenticatedEdgePrincipal)
| refused (e : EdgeAuthenticationError).

Section Tokens.
Context `{JN : JsNumber} `{JR : !JsNumberRead JN} `{JI : !JsInteger JN}.
Context (sha256 : string -> string) (hmac : string -> string -> string).

Definition sha256Base64Url (v : string) : string := base64url_encode (sha256 (utf8_encode v)).
Definition bytes_of (s : string) : list N := map char_code (String.list_ascii_of_string s).
Definition constantTimeEquals (left right : string) : bool :=
  (digest_difference (bytes_of (sha256 (utf8_encode left))) (bytes_of (sha256 (utf8_encode right))) =? 0)%N.
Definition constantTimeBase64UrlEquals (left right : string) : option bool :=
  a ← decodeBase64UrlBytes left; b ← decodeBase64UrlBytes right;
  Some ((String.length a =? String.length b)%nat && (digest_difference (bytes_of a) (bytes_of b) =? 0)%N).
Definition SIGNING_LABEL : string := "mcp-edge-owner-signing-v1".
Definition deriveOwnerCredentialMaterial (secret : string) : OwnerCredentialMaterial :=
  mkMaterial (sha256Base64Url secret) (base64url_encode (hmac (utf8_encode secret) (utf8_encode SIGNING_LABEL))).
Definition DIGEST_PATTERN : re := seqs [Bol; Rep true 43 (Some 43%nat) (oneof BASE64URL); Eol].
Definition isOwnerCredentialMaterial (m : OwnerCredentialMaterial) : bool :=
  test DIGEST_PATTERN (ownerVerifierHash m) && test DIGEST_PATTERN (signingKey m).

(** *** Access tokens *)
Definition header_value : value := VObject true [("alg", VString "HS256"); ("typ", VString "JWT")].
Definition claims_value (c : OwnerAccessClaims) : value :=
  VObject true [("iss", VString (iss c)); ("aud", VString (aud c)); ("sub", VString (sub c)); ("scope", VString (scope c));
    ("client_id", VString (claims_client_id c)); ("owner_scope", VString "owner"); ("iat", int (iat c)); ("exp", int (exp c));
    ("jti", VString (jti c))].
Definition whole (v : value) : option Z := match v with VNumber n => integer_of n | _ => None end.
Definition is_number (v : value) : bool := match v with VNumber _ => true | _ => false end.
Definition isOwnerClaims (v : value) : bool :=
  match isRecord v with
  | Some es =>
      forallb (fun k => bool_decide (text_of (own_value k es) <> None)) ["iss"; "aud"; "sub"; "scope"; "client_id"; "jti"]
      && is_text "owner" (own_value "owner_scope" es) && is_number (own_value "iat" es) && is_number (own_value "exp" es)
  | None => false
  end.
(** The claims that are read of such a value. *)
Definition owner_claims (v : value) : option OwnerAccessClaims :=
  es ← isRecord v;
  iss ← text_of (own_value "iss" es); aud ← text_of (own_value "aud" es); sub ← text_of (own_value "sub" es);
  scope ← text_of (own_value "scope" es); client ← text_of (own_value "client_id" es);
  iat ← whole (own_value "iat" es); exp ← whole (own_value "exp" es); jti ← text_of (own_value "jti" es);
  Some (mkClaims iss aud sub scope client iat exp jti).
Definition encoded (v : value) : option string :=
  match JSON_stringify v with Ok (Some t) => Some (base64UrlText t) | _ => None end.
Definition signature (key input : string) : string := base64url_encode (hmac key (utf8_encode input)).
Definition signing_input (c : OwnerAccessClaims) : option string :=
  header ← encoded header_value; payload ← encoded (claims_value c); Some (header +:+ "." +:+ payload).
Definition signAccessToken (key : string) (c : OwnerAccessClaims) : option string :=
  input ← signing_input c; Some (input +:+ "." +:+ signature key input).
Definition parse_part (part : string) : option value :=
  text ← decodeBase64UrlText part; match JSON_parse text with Ok v => Some v | Err _ => None end.
Definition is_jwt_header (v : value) : bool :=
  match isRecord v with
  | Some es => is_text "HS256" (own_value "alg" es) && is_text "JWT" (own_value "typ" es)
  | None => false
  end.
Definition verifyAccessToken (cfg : EdgeOwnerOAuthConfig) (key : option string) (token : string) : option OwnerAccessClaims :=
  match split_on "."%char token with
  | [header; payload; sig] =>
      h ← parse_part header; p ← parse_part payload;
      if negb (is_jwt_header h) || negb (isOwnerClaims p) then None else
      c ← owner_claims p;
      key ← key; bytes ← decodeBase64UrlBytes sig;
      if negb (hmac key (utf8_encode (header +:+ "." +:+ payload)) =s bytes)
         || negb (iss c =s base_href cfg) || negb (aud c =s mcp_href cfg)
      then None else Some c
  | _ => None
  end.
(** [loadSigningKey]: [None] when it throws. *)
Definition loadSigningKey (cfg : EdgeOwnerOAuthConfig) (s : Store) : option string :=
  m ← (match material s with
       | Some m => Some m
       | None => match ownerSecret cfg with
                 | Some secret => if sempty secret then None else Some (deriveOwnerCredentialMaterial secret)
                 | None => None
                 end
       end);
  if isOwnerCredentialMaterial m then decodeBase64UrlBytes (signingKey m) else None.
End Tokens.

(** *** Clients *)
Section Clients.
Context `{JN : JsNumber} `{JR : !JsNumberRead JN} `{JI : !JsInteger JN}.
Context (new_URL : string -> option Url) (cfg : EdgeOwnerOAuthConfig).

Definition no_credentials (u : Url) : bool := sempty (u_username u) && sempty (u_password u).
Definition redirectAllowed (v : string) : bool :=
  match new_URL v with
  | None => false
  | Some u =>
      if includes ["localhost"; "127.0.0.1"; "[::1]"] (u_hostname u) then true
      else if (u_protocol u =s "https:") && (u_hostname u =s "chatgpt.com") then
        no_credentials u && sempty (u_search u) && sempty (u_hash u)
        && match List.filter (fun s => negb (sempty s)) (split_on "/"%char (u_pathname u)) with
           | [a; b; _] => (a =s "connector") && (b =s "oauth")
           | _ => false
           end
      else (u_protocol u =s "https:") && (u_hostname u =s u_hostname (publicBaseUrl cfg)) && no_credentials u
  end.
Definition readStringArray (v : value) (fallback : list string) : list string :=
  match v with VUndefined => fallback | VArray vs => default [] (mapM text_of vs) | _ => [] end.
(** An array of redirect URIs. *)
Definition read_redirects (v : value) : option (list string) :=
  match v with
  | VArray vs =>
      uris ← mapM text_of vs;
      if (length uris =? 0)%nat || negb (forallb redirectAllowed uris) then None else Some uris
  | _ => None
  end.
Definition public_method (v : value) : bool := is_undefined v || is_text "none" v.
Definition read_name (v : value) : option string :=
  match v with VString s => if sempty s then None else Some (stake 200 s) | _ => None end.
(** What registration and the legacy snapshot have in common. *)
Definition read_client (id : string) (issued_at : Z) (uris : list string) (es : list (string * value)) : option OwnerClient :=
  let grants := readStringArray (own_value "grant_types" es) ["authorization_code"; "refresh_token"] in
  let responses := readStringArray (own_value "response_types" es) ["code"] in
  if forallb (includes ["authorization_code"; "refresh_token"]) grants && forallb (includes ["code"]) responses
  then Some (mkClient id issued_at uris (read_name (own_value "client_name" es)) grants responses) else None.

Definition bad_client : Reply := oauth_error "invalid_client_metadata" 400.
(** [None] is a body that is not JSON. *)
Definition register (input : option value) (uuid : string) (nowSeconds : Z) (s : Store) : Store * Reply :=
  match (input ← input; es ← isRecord input; uris ← read_redirects (own_value "redirect_uris" es);
         if (16 <? length uris)%nat || negb (public_method (own_value "token_endpoint_auth_method" es)) then None else Some (es, uris)) with
  | None => (s, bad_client)
  | Some (es, uris) =>
      let existingCount := default 0 (client_count s) in
      if MAX_CLIENTS <=? existingCount then (s, bad_client)
      else match read_client ("mcp-" +:+ uuid) nowSeconds uris es with
      | None => (s, bad_client)
      | Some client => (set_clients (jm_set (clients s) (client_id client) client) (existingCount + 1) s, created client)
      end
  end.

(** *** The legacy snapshot *)
Definition safe_integer (v : value) : option Z :=
  match v with
  | VNumber n => match integer_of n with
                 | Some z => if (- MAX_SAFE_INTEGER <=? z) && (z <=? MAX_SAFE_INTEGER) then Some z else None
                 | None => None
                 end
  | _ => None
  end.
Definition parseLegacyClient (v : value) : option OwnerClient :=
  es ← isRecord v;
  id ← nonempty_text (own_value "client_id" es);
  issued ← safe_integer (own_value "client_id_issued_at" es);
  uris ← read_redirects (own_value "redirect_uris" es);
  if negb (public_method (own_value "token_endpoint_auth_method" es)) then None else read_client id issued uris es.
Definition legacy_resource (v : value) : option string :=
  if is_undefined v then Some (mcp_href cfg) else if is_text (mcp_href cfg) v then Some (mcp_href cfg) else None.
Definition parseLegacyTokenRecord (clientIds : list string) (v : value) : option (string * RefreshTokenRecord) :=
  es ← isRecord v;
  hash ← checked_text (test DIGEST_PATTERN) (own_value "hash" es);
  id ← checked_text (includes clientIds) (own_value "clientId" es);
  scopes ← (match own_value "scopes" es with
            | VArray vs => scopes ← mapM text_of vs;
                if (length vs =? 0)%nat || (MAX_SCOPES <? length vs)%nat || negb (forallb (fun s => negb (sempty s) && includes (cfg_scopes cfg) s) scopes)
                then None else Some scopes
            | _ => None
            end);
  expiresAt ← isPositiveSafeInteger (own_value "expiresAt" es);
  resource ← legacy_resource (own_value "resource" es);
  Some (hash, mkRefresh id scopes resource expiresAt).
Definition parseLegacyTokenRecords (clientIds : list string) (v : value) : option (list (string * RefreshTokenRecord)) :=
  match v with
  | VArray vs => if (4096 <? length vs)%nat then None else mapM (parseLegacyTokenRecord clientIds) vs
  | _ => None
  end.
Record LegacySnapshot := mkSnapshot {
  l_clients : list OwnerClient;
  l_access : list (string * RefreshTokenRecord);
  l_refresh : list (string * RefreshTokenRecord);
}.
Definition parseLegacySnapshot (v : value) : option LegacySnapshot :=
  es ← isRecord v;
  if negb (literal_is (LInt 1) (own_value "version" es)) || negb (is_text (mcp_href cfg) (own_value "resourceServerUrl" es)) then None else
  match own_value "clients" es with
  | VArray vs =>
      if MAX_CLIENTS <? Z.of_nat (length vs) then None else
      clients ← mapM parseLegacyClient vs;
      access ← parseLegacyTokenRecords (map client_id clients) (own_value "accessTokens" es);
      refresh ← parseLegacyTokenRecords (map client_id clients) (own_value "refreshTokens" es);
      Some (mkSnapshot clients access refresh)
  | _ => None
  end.
Definition valid_bootstrap_secret (secret : string) : bool :=
  (16 <=? String.length secret)%nat && (String.length secret <=? 2048)%nat
  && negb (has_char CR secret) && negb (has_char LF secret) && negb (has_char NUL secret).
(** The writes of [bootstrapLegacyState]. *)
Definition write_snapshot (m : OwnerCredentialMaterial) (l : LegacySnapshot) (s : Store) : Store :=
  mkStore (fold_left (fun t c => jm_set t (client_id c) c) (l_clients l) (clients s)) (codes s)
    (fold_left (fun t r => jm_set t r.1 r.2) (l_refresh l) (refreshes s))
    (fold_left (fun t r => jm_set t r.1 r.2) (l_access l) (legacy s)) (revoked s)
    (Some (Z.of_nat (length (l_clients l)))) (Some m) true.
End Clients.

(** *** The page *)
Fixpoint replace_with (c : ascii) (t : string) (s : string) : string :=
  match s with EmptyString => EmptyString | String d s' => (if d =c c then t else str1 d) +:+ replace_with c t s' end.
Definition htmlEscape (v : string) : string :=
  replace_with SQ "&#39;" (replace_with DQ "&quot;" (replace_with ">"%char "&gt;" (replace_with "<"%char "&lt;" (replace_with "&"%char "&amp;" v)))).
Definition quoted (s : string) : string := str1 DQ +:+ s +:+ str1 DQ.
Definition hidden_field (e : string * string) : string :=
  "<input type=" +:+ quoted "hidden" +:+ " name=" +:+ quoted (htmlEscape e.1) +:+ " value=" +:+ quoted (htmlEscape e.2) +:+ ">".
Definition authorizationPage (cfg : EdgeOwnerOAuthConfig) (client : OwnerClient) (fields : params) (error : option string) : string :=
  let hidden := join (str1 LF) (map hidden_field (List.filter (fun e => negb (e.1 =s "owner_token")) fields)) in
  "<!doctype html><html><body><main><h1>" +:+ htmlEscape (resourceName cfg) +:+ "</h1><p>"
  +:+ htmlEscape (default (client_id client) (client_name client)) +:+ "</p>"
  +:+ match error with Some e => "<p>" +:+ htmlEscape e +:+ "</p>" | None => EmptyString end
  +:+ "<form method=" +:+ quoted "post" +:+ ">" +:+ hidden +:+ "<label>Owner<input name=" +:+ quoted "owner_token"
  +:+ " type=" +:+ quoted "password" +:+ " required></label><button type=" +:+ quoted "submit" +:+ ">Authorize</button></form></main></body></html>".

(** *** Handlers *)
Inductive Phase :=
| Consenting (accepted : bool) (client : OwnerClient) (fields : params) (grant : AuthorizationCodeRecord)
| CheckingCode (fields : params) (clientId : string)
| CheckingVerifier (hash : string) (record : AuthorizationCodeRecord) (fields : params)
| Refreshing (fields : params) (clientId : string)
| Signing (grant : RefreshTokenRecord) (claims : OwnerAccessClaims) (key : string)
| Revoking (token : string) (claims : option OwnerAccessClaims)
| Authenticating (token : string) (claims : option OwnerAccessClaims)
| Bootstrapping (snapshot : LegacySnapshot) (secret : string)
| Answered (r : Reply).
Inductive Request `{JN : JsNumber} :=
| to_register (input : option value)
| to_authorize (post : bool) (fields : params)
| to_token (fields : params)
| to_revoke (fields : params)
| to_authenticate (authorization : option string)
| to_bootstrap (snapshot : value) (secret : string).

(** What happened: the consents (the hash of the code, what was granted, the credential that was given), the exchanged
    codes with the request that exchanged them, the refresh tokens that were made and those that were redeemed, the
    claims that were signed and the snapshots that were written with their secret. *)
Record History := mkHistory {
  consents : list (string * AuthorizationCodeRecord * string);
  exchanged : list (string * params);
  minted : list (string * RefreshTokenRecord);
  redeemed : list string;
  signed : list OwnerAccessClaims;
  bootstraps : list (LegacySnapshot * string);
}.
(** [cached]: [hmacKeyPromise], not yet made, rejected or a key. *)
Record Server := mkServer {
  store : Store;
  cached : option (option string);
  works : list Phase;
  history : History;
}.
Definition set_store (s : Store) (v : Server) : Server := mkServer s (cached v) (works v) (history v).
Definition set_cached (k : option string) (v : Server) : Server := mkServer (store v) (Some k) (works v) (history v).
Definition set_works (w : list Phase) (v : Server) : Server := mkServer (store v) (cached v) w (history v).
Definition happened (f : History -> History) (v : Server) : Server := mkServer (store v) (cached v) (works v) (f (history v)).
Definition consented (hash : string) (r : AuthorizationCodeRecord) (credential : string) (h : History) : History :=
  mkHistory (consents h ++ [(hash, r, credential)]) (exchanged h) (minted h) (redeemed h) (signed h) (bootstraps h).
Definition exchange (hash : string) (fields : params) (h : History) : History :=
  mkHistory (consents h) (exchanged h ++ [(hash, fields)]) (minted h) (redeemed h) (signed h) (bootstraps h).
Definition mint (r : list (string * RefreshTokenRecord)) (h : History) : History :=
  mkHistory (consents h) (exchanged h) (minted h ++ r) (redeemed h) (signed h) (bootstraps h).
Definition redeem (hash : string) (h : History) : History :=
  mkHistory (consents h) (exchanged h) (minted h) (redeemed h ++ [hash]) (signed h) (bootstraps h).
Definition sign_claims (c : OwnerAccessClaims) (h : History) : History :=
  mkHistory (consents h) (exchanged h) (minted h) (redeemed h) (signed h ++ [c]) (bootstraps h).
Definition imported (l : LegacySnapshot) (secret : string) (h : History) : History :=
  mkHistory (consents h) (exchanged h) (minted h) (redeemed h) (signed h) (bootstraps h ++ [(l, secret)]).

Section Handlers.
Context `{JN : JsNumber} `{JR : !JsNumberRead JN} `{JI : !JsInteger JN}.
Context (sha256 : string -> string) (hmac : string -> string -> string) (new_URL : string -> option Url) (cfg : EdgeOwnerOAuthConfig).
Notation hash_of := (sha256Base64Url sha256).

Definition field (name : string) (fields : params) : string := default EmptyString (params_get name fields).
(** [hmacKey]: loaded once, and kept also when loading failed. *)
Definition hmacKey (v : Server) : Server * option string :=
  match cached v with
  | Some k => (v, k)
  | None => let k := loadSigningKey sha256 hmac cfg (store v) in (set_cached k v, k)
  end.
(** [verifyAccessToken(token).catch(() => null)]: the key is loaded only for a token that can be read. *)
Definition verify (token : string) (v : Server) : Server * option OwnerAccessClaims :=
  match split_on "."%char token with
  | [header; payload; _] =>
      match parse_part header, parse_part payload with
      | Some h, Some p =>
          if is_jwt_header h && isOwnerClaims p
          then let '(v, k) := hmacKey v in (v, verifyAccessToken hmac cfg k token)
          else (v, None)
      | _, _ => (v, None)
      end
  | _ => (v, None)
  end.

Definition ownerSecretMatches (supplied : string) (s : Store) : option bool :=
  match material s with
  | Some m =>
      if negb (isOwnerCredentialMaterial m) then Some false
      else constantTimeBase64UrlEquals (hash_of supplied) (ownerVerifierHash m)
  | None => Some (match ownerSecret cfg with Some secret => constantTimeEquals sha256 supplied secret | None => false end)
  end.
Definition bad_request : Reply := oauth_error "invalid_request" 400.
(** The grant that is asked for, if the request is right. *)
Definition requested_grant (fields : params) (client : OwnerClient) : option AuthorizationCodeRecord :=
  let redirectUri := field "redirect_uri" fields in
  let codeChallenge := field "code_challenge" fields in
  let resource := field "resource" fields in
  let scopes := parseScopes (default (join " " (cfg_scopes cfg)) (params_get "scope" fields)) in
  if negb (bool_decide (params_get "response_type" fields = Some "code"))
     || negb (bool_decide (params_get "code_challenge_method" fields = Some "S256"))
     || (String.length codeChallenge <? 32)%nat || negb (includes (redirect_uris client) redirectUri)
     || negb (resource =s mcp_href cfg) || (length scopes =? 0)%nat || negb (forallb (includes (cfg_scopes cfg)) scopes)
  then None
  else Some (mkCode (field "client_id" fields) redirectUri codeChallenge scopes resource 0).
Definition authorize (post : bool) (fields : params) (v : Server) : Phase :=
  match jm_get (clients (store v)) (field "client_id" fields) with
  | None => Answered bad_request
  | Some client =>
      match requested_grant fields client with
      | None => Answered bad_request
      | Some grant =>
          if negb post then Answered (page (authorizationPage cfg client fields None) 200)
          else match ownerSecretMatches (field "owner_token" fields) (store v) with
               | None => Answered failed
               | Some accepted => Consenting accepted client fields grant
               end
      end
  end.
(** The secret and the code have been hashed. *)
Definition consent (accepted : bool) (client : OwnerClient) (fields : params) (grant : AuthorizationCodeRecord) (random : string)
    (now : Z) (v : Server) : Server * Phase :=
  if negb accepted then (v, Answered (page (authorizationPage cfg client fields (Some "Owner credential was not accepted.")) 401))
  else
    let code := "code-" +:+ random in
    let record := mkCode (clientId grant) (redirectUri grant) (codeChallenge grant) (scopes grant) (resource grant) (now + AUTHORIZATION_CODE_TTL_MS) in
    let s := set_codes (jm_set (codes (store v)) (hash_of code) record) (store v) in
    (happened (consented (hash_of code) record (field "owner_token" fields)) (set_store s v),
     Answered (redirect (redirectUri grant) code (match params_get "state" fields with Some st => if sempty st then None else Some st | None => None end))).

Definition seconds (now : Z) : Z := now / 1000.
Definition bad_grant : Reply := oauth_error "invalid_grant" 400.
Definition token (fields : params) (v : Server) : Phase :=
  let id := field "client_id" fields in
  if negb (jm_has (clients (store v)) id) then Answered (oauth_error "invalid_client" 400)
  else match params_get "grant_type" fields with
  | Some grantType =>
      if grantType =s "authorization_code" then CheckingCode fields id
      else if grantType =s "refresh_token" then Refreshing fields id
      else Answered (oauth_error "unsupported_grant_type" 400)
  | None => Answered (oauth_error "unsupported_grant_type" 400)
  end.
Definition check_code (fields : params) (id : string) (now : Z) (v : Server) : Phase :=
  let hash := hash_of (field "code" fields) in
  match jm_get (codes (store v)) hash with
  | None => Answered bad_grant
  | Some record =>
      if negb (clientId record =s id) || (expiresAtMs record <? now) then Answered bad_grant
      else if negb (bool_decide (params_get "redirect_uri" fields = Some (redirectUri record)))
              || negb (bool_decide (params_get "resource" fields = Some (resource record))) then Answered bad_grant
      else CheckingVerifier hash record fields
  end.
(** [issueTokens] up to the signature. *)
Definition issueTokens (id : string) (scopes : list string) (resource jti : string) (now : Z) (v : Server) : Server * Phase :=
  let claims := mkClaims (base_href cfg) resource ("owner:" +:+ id) (join " " scopes) id (seconds now)
                  (seconds now + accessTokenTtlSeconds cfg) jti in
  let '(v, key) := hmacKey v in
  match key with
  | None => (v, Answered failed)
  | Some key => (happened (sign_claims claims) v, Signing (mkRefresh id scopes resource (seconds now + refreshTokenTtlSeconds cfg)) claims key)
  end.
(** The verifier has been hashed. *)
Definition check_verifier (hash : string) (record : AuthorizationCodeRecord) (fields : params) (jti : string) (now : Z) (v : Server) : Server * Phase :=
  if negb (hash_of (field "code_verifier" fields) =s codeChallenge record) then (v, Answered bad_grant)
  else
    let v := happened (exchange hash fields) (set_store (set_codes (jm_delete (codes (store v)) hash) (store v)) v) in
    issueTokens (clientId record) (scopes record) (resource record) jti now v.
(** The refresh token has been hashed. *)
Definition refresh (fields : params) (id jti : string) (now : Z) (v : Server) : Server * Phase :=
  let hash := hash_of (field "refresh_token" fields) in
  match jm_get (refreshes (store v)) hash with
  | None => (v, Answered bad_grant)
  | Some record =>
      if negb (r_clientId record =s id) || (r_expiresAt record <=? seconds now) then (v, Answered bad_grant)
      else if negb (default (r_resource record) (params_get "resource" fields) =s r_resource record) then (v, Answered bad_grant)
      else
        let requested := parseScopes (default (join " " (r_scopes record)) (params_get "scope" fields)) in
        if negb (forallb (includes (r_scopes record)) requested) then (v, Answered (oauth_error "invalid_scope" 400))
        else
          let v := happened (redeem hash) (set_store (set_refreshes (jm_delete (refreshes (store v)) hash) (store v)) v) in
          issueTokens id requested (r_resource record) jti now v
  end.
(** The access token is signed and the new refresh token hashed. *)
Definition finish_tokens (grant : RefreshTokenRecord) (claims : OwnerAccessClaims) (key random : string) (v : Server) : Server * Phase :=
  match signAccessToken hmac key claims with
  | None => (v, Answered failed)
  | Some access =>
      let refresh := "refresh-" +:+ random in
      let s := set_refreshes (jm_set (refreshes (store v)) (hash_of refresh) grant) (store v) in
      (happened (mint [(hash_of refresh, grant)]) (set_store s v),
       Answered (tokens access refresh (join " " (r_scopes grant)) (accessTokenTtlSeconds cfg)))
  end.

Definition revoke (fields : params) (v : Server) : Server * Phase :=
  let token := field "token" fields in
  if sempty token then (v, Answered empty_ok) else let '(v, claims) := verify token v in (v, Revoking token claims).
Definition revoked_token (token : string) (claims : option OwnerAccessClaims) (v : Server) : Server * Phase :=
  let s := store v in
  (set_store (match claims with
              | Some c => set_revoked (jm_set (revoked s) (jti c) (exp c)) s
              | None => let hash := hash_of token in
                  set_legacy (jm_delete (legacy s) hash) (set_refreshes (jm_delete (refreshes s) hash) s)
              end) v, Answered empty_ok).

Definition unauthenticated : Reply := refused (mkAuthError 401 invalid_token).
Definition required_scope : string := default "mcp:tools" (head (cfg_scopes cfg)).
Definition authenticate (authorization : option string) (v : Server) : Server * Phase :=
  match readBearerToken authorization with
  | None => (v, Answered unauthenticated)
  | Some token => let '(v, claims) := verify token v in (v, Authenticating token claims)
  end.
Definition authenticated (token : string) (claims : option OwnerAccessClaims) (now : Z) (v : Server) : Server * Phase :=
  let s := store v in
  match claims with
  | Some c =>
      if seconds now <? exp c then
        let gone := match jm_get (revoked s) (jti c) with Some expiresAt => expiresAt <=? seconds now | None => true end in
        if negb gone then (v, Answered unauthenticated)
        else
          let v := match jm_get (revoked s) (jti c) with Some _ => set_store (set_revoked (jm_delete (revoked s) (jti c)) s) v | None => v end in
          let granted := parseScopes (scope c) in
          if negb (includes granted required_scope) then (v, Answered (refused (mkAuthError 403 insufficient_scope)))
          else (v, Answered (principal (mkPrincipal (sub c) granted (Some "owner"))))
      else (v, Authenticating token None)
  | None =>
      match jm_get (legacy s) (hash_of token) with
      | None => (v, Answered unauthenticated)
      | Some record =>
          if (r_expiresAt record <=? seconds now) || negb (r_resource record =s mcp_href cfg) then (v, Answered unauthenticated)
          else if negb (includes (r_scopes record) required_scope) then (v, Answered (refused (mkAuthError 403 insufficient_scope)))
          else (v, Answered (principal (mkPrincipal ("owner:" +:+ r_clientId record) (r_scopes record) (Some "owner"))))
      end
  end.

Definition bootstrap (snapshot : value) (secret : string) (v : Server) : Phase :=
  if bootstrapped (store v) then Answered (bootstrap_refused true)
  else if negb (valid_bootstrap_secret secret) then Answered (bootstrap_refused false)
  else match parseLegacySnapshot new_URL cfg snapshot with
       | None => Answered (bootstrap_refused false)
       | Some l => Bootstrapping l secret
       end.
Definition isConfigured (v : Server) : bool :=
  match ownerSecret cfg with
  | Some secret => if (16 <=? String.length secret)%nat then true else
      match material (store v) with Some m => isOwnerCredentialMaterial m | None => false end
  | None => match material (store v) with Some m => isOwnerCredentialMaterial m | None => false end
  end.

(** [handle]: the endpoint of a request, if it is one of these. *)
Inductive Endpoint := server_metadata | resource_metadata | at_register | at_authorize (post : bool) | at_token | at_revoke.
Definition handle (method pathname : string) : option Endpoint :=
  if (method =s "GET") && (pathname =s "/.well-known/oauth-authorization-server") then Some server_metadata
  else if (method =s "GET") && includes ["/.well-known/oauth-protected-resource"; metadata_pathname cfg] pathname then Some resource_metadata
  else if (pathname =s "/register") && (method =s "POST") then Some at_register
  else if (pathname =s "/authorize") && ((method =s "GET") || (method =s "POST")) then Some (at_authorize (method =s "POST"))
  else if (pathname =s "/token") && (method =s "POST") then Some at_token
  else if (pathname =s "/revoke") && (method =s "POST") then Some at_revoke
  else None.

(** *** Events *)
(** A request arrives with its body; [Continue n] goes on with the handler of the request [n]; [Restart] evicts the
    object from memory, with the handlers that are waiting. *)
Inductive Step :=
| Arrive (r : Request) (uuid : string) (now : Z)
| Continue (n : nat) (random : string) (now : Z)
| Restart.
Definition arrive (r : Request) (uuid : string) (now : Z) (v : Server) : Server * Phase :=
  match r with
  | to_register input => let '(s, reply) := register new_URL cfg input uuid (seconds now) (store v) in (set_store s v, Answered reply)
  | to_authorize post fields => (v, authorize post fields v)
  | to_token fields => (v, token fields v)
  | to_revoke fields => revoke fields v
  | to_authenticate h => authenticate h v
  | to_bootstrap snapshot secret => (v, bootstrap snapshot secret v)
  end.
Definition continue (p : Phase) (random : string) (now : Z) (v : Server) : Server * Phase :=
  match p with
  | Consenting accepted client fields grant => consent accepted client fields grant random now v
  | CheckingCode fields id => (v, check_code fields id now v)
  | CheckingVerifier hash record fields => check_verifier hash record fields random now v
  | Refreshing fields id => refresh fields id random now v
  | Signing grant claims key => finish_tokens grant claims key random v
  | Revoking token claims => revoked_token token claims v
  | Authenticating token claims => authenticated token claims now v
  | Bootstrapping l secret =>
      (happened (imported l secret) (set_store (write_snapshot (deriveOwnerCredentialMaterial sha256 hmac secret) l (store v)) v),
       Answered bootstrap_done)
  | Answered r => (v, Answered r)
  end.
Definition step (e : Step) (v : Server) : Server :=
  match e with
  | Arrive r uuid now => let '(v', p) := arrive r uuid now v in set_works (works v' ++ [p]) v'
  | Continue n random now =>
      match works v !! n with
      | None => v
      | Some p => let '(v', p') := continue p random now v in set_works (<[n := p']> (works v')) v'
      end
  | Restart => mkServer (store v) None [] (history v)
  end.
End Handlers.

(** *** Texts *)
Lemma bytes_of_inj a b : bytes_of a = bytes_of b -> a = b.
Proof.
  unfold bytes_of. intros H.
  rewrite <- (String.string_of_list_ascii_of_string a), <- (String.string_of_list_ascii_of_string b). f_equal. revert H.
  generalize (String.list_ascii_of_string a) as l, (String.list_ascii_of_string b) as m. intros l.
  induction l as [|x l IH]; intros [|y m] H; try done. cbn in H. injection H as H1 H2. f_equal; [|by apply IH].
  unfold char_code in H1. rewrite <- (ascii_N_embedding x), <- (ascii_N_embedding y). congruence.
Qed.
Lemma bytes_of_length a : length (bytes_of a) = String.length a.
Proof. unfold bytes_of. rewrite length_map. induction a; cbn; congruence. Qed.
Lemma equal_digests a b : String.length a = String.length b -> (digest_difference (bytes_of a) (bytes_of b) =? 0)%N = true -> a = b.
Proof. intros Hl H. apply bytes_of_inj, digest_difference_zero; [by rewrite !bytes_of_length|by apply N.eqb_eq]. Qed.

(** A scope that a list joined by spaces gives back. *)
Definition plain (s : string) : bool := negb (sempty s) && sforall (fun c => negb (is_space c)) s.
Lemma words_aux_app cur a b : sforall (fun c => negb (is_space c)) a = true -> words_aux cur (a +:+ b) = words_aux (cur +:+ a) b.
Proof.
  revert cur. induction a as [|c a IH]; intros cur H; [by rewrite sapp_nil_r|].
  rewrite sforall_cons in H. apply andb_true_iff in H as [Hc Ha]. apply negb_true_iff in Hc. cbn [String.append words_aux].
  rewrite Hc, IH by done. by rewrite sapp_assoc.
Qed.
Lemma words_join l : Forall (fun s => plain s = true) l -> words (join " " l) = l.
Proof.
  unfold words. induction l as [|x l IH]; [done|]. intros [[Hx Hp]%andb_true_iff Hl]%Forall_cons. apply negb_true_iff in Hx.
  destruct l as [|y l].
  - cbn [join]. rewrite <- (sapp_nil_r x) at 1. rewrite words_aux_app by done. cbn [words_aux String.append]. by rewrite Hx.
  - rewrite join_cons, words_aux_app by done. cbn [String.append words_aux].
    replace (is_space " "%char) with true by done. rewrite Hx. cbn [app]. f_equal. by apply IH.
Qed.
Lemma parseScopes_join l x : Forall (fun s => plain s = true) l -> x ∈ parseScopes (join " " l) <-> x ∈ l.
Proof. intros H. unfold parseScopes. by rewrite elem_of_js_dedup, words_join. Qed.

Section Safety.
Context `{JN : JsNumber} `{JR : !JsNumberRead JN} `{JI : !JsInteger JN}.
Context (sha256 : string -> string) (hmac : string -> string -> string) (new_URL : string -> option Url) (cfg : EdgeOwnerOAuthConfig).
Context (digest_length : forall t, String.length (sha256 t) = 32%nat).
Notation hash_of := (sha256Base64Url sha256).
Notation step := (step sha256 hmac new_URL cfg).
Notation arrive := (arrive sha256 hmac new_URL cfg).
Notation continue := (continue sha256 hmac cfg).
Notation derive := (deriveOwnerCredentialMaterial sha256 hmac).

Definition fresh : Server := mkServer (mkStore [] [] [] [] [] None None false) None [] (mkHistory [] [] [] [] [] []).
Inductive reachable : Server -> Prop :=
| reach_fresh : reachable fresh
| reach_step e v : reachable v -> reachable (step e v).

(** The text has the digest of the owner's secret: the configured one, or the one of a bootstrap. *)
Definition owner_credential (h : History) (t : string) : Prop :=
  exists secret, (ownerSecret cfg = Some secret \/ exists l, (l, secret) ∈ bootstraps h)
    /\ sha256 (utf8_encode t) = sha256 (utf8_encode secret).
Definition within (client resource : string) (granted : list string) (r : RefreshTokenRecord) : Prop :=
  r_clientId r = client /\ r_resource r = resource /\ r_scopes r ⊆ granted.
(** The owner consented to it, with the owner's credential, or brought it from the state that was there before. *)
Definition approved (h : History) (r : RefreshTokenRecord) : Prop :=
  (exists code record credential, (code, record, credential) ∈ consents h /\ owner_credential h credential
     /\ within (clientId record) (resource record) (scopes record) r)
  \/ (exists l secret e, (l, secret) ∈ bootstraps h /\ e ∈ l_access l ++ l_refresh l /\ within (r_clientId e.2) (r_resource e.2) (r_scopes e.2) r).
(** An access token with this hash was in the state that was there before. *)
Definition brought (h : History) (k : string) (r : RefreshTokenRecord) : Prop :=
  exists l secret, (l, secret) ∈ bootstraps h /\ (k, r) ∈ l_access l.
(** A key of this server: the one that is derived of its configured secret, or of the secret of a bootstrap. *)
Definition owner_key (h : History) (key : string) : Prop :=
  exists secret, (ownerSecret cfg = Some secret \/ exists l, (l, secret) ∈ bootstraps h)
    /\ key = hmac (utf8_encode secret) (utf8_encode SIGNING_LABEL).
Definition carries (c : OwnerAccessClaims) (r : RefreshTokenRecord) : Prop :=
  iss c = base_href cfg /\ aud c = r_resource r /\ sub c = "owner:" +:+ r_clientId r /\ claims_client_id c = r_clientId r
  /\ scope c = join " " (r_scopes r).
(** The request that exchanged a code: it comes from the client, for the redirect URI and resource of the consent,
    with the code and with the verifier of the challenge. *)
Definition rightful (h : History) (hash : string) (fields : params) : Prop :=
  exists record credential, (hash, record, credential) ∈ consents h
    /\ hash = hash_of (field "code" fields) /\ clientId record = field "client_id" fields
    /\ params_get "redirect_uri" fields = Some (redirectUri record) /\ params_get "resource" fields = Some (resource record)
    /\ hash_of (field "code_verifier" fields) = codeChallenge record.
Definition in_config (client resource : string) (granted : list string) : Prop :=
  resource = mcp_href cfg /\ granted ⊆ cfg_scopes cfg.
Definition snapshot_ok (l : LegacySnapshot) : Prop :=
  forall e, e ∈ l_access l ++ l_refresh l -> in_config (r_clientId e.2) (r_resource e.2) (r_scopes e.2).

Definition phase_ok (h : History) (p : Phase) : Prop :=
  match p with
  | Consenting accepted client fields grant =>
      in_config (clientId grant) (resource grant) (scopes grant)
      /\ (accepted = true -> owner_credential h (field "owner_token" fields))
  | CheckingCode fields id | Refreshing fields id => id = field "client_id" fields
  | CheckingVerifier hash record fields =>
      exists credential, (hash, record, credential) ∈ consents h
      /\ hash = hash_of (field "code" fields) /\ clientId record = field "client_id" fields
      /\ params_get "redirect_uri" fields = Some (redirectUri record) /\ params_get "resource" fields = Some (resource record)
  | Signing grant claims key => approved h grant /\ carries claims grant
  | Revoking token (Some c) | Authenticating token (Some c) => exists key, verifyAccessToken hmac cfg (Some key) token = Some c
  | Bootstrapping l secret => snapshot_ok l
  | _ => True
  end.
Record Core (s : Store) (h : History) : Prop := mkCore {
  c_codes : forall k r, jm_get (codes s) k = Some r -> exists credential, (k, r, credential) ∈ consents h;
  c_refreshes : forall k r, jm_get (refreshes s) k = Some r -> approved h r;
  c_legacy : forall k r, jm_get (legacy s) k = Some r -> brought h k r;
  c_minted : forall e, e ∈ minted h -> approved h e.2;
  c_signed : forall c, c ∈ signed h -> exists r, approved h r /\ carries c r;
  c_consents : forall e, e ∈ consents h -> owner_credential h e.2 /\ in_config (clientId e.1.2) (resource e.1.2) (scopes e.1.2);
  c_exchanged : forall e, e ∈ exchanged h -> rightful h e.1 e.2;
  c_bootstraps : forall b, b ∈ bootstraps h -> snapshot_ok b.1;
  c_material : forall m, material s = Some m -> exists l secret, (l, secret) ∈ bootstraps h /\ m = derive secret;
}.
Definition grows (h h' : History) : Prop := consents h ⊆ consents h' /\ bootstraps h ⊆ bootstraps h'.

Lemma grows_refl h : grows h h. Proof. done. Qed.
Lemma credential_grows h h' t : grows h h' -> owner_credential h t -> owner_credential h' t.
Proof. intros [_ Hb] (s & [H | (l & H)] & E); exists s; naive_solver. Qed.
Lemma approved_grows h h' r : grows h h' -> approved h r -> approved h' r.
Proof.
  intros [Hc Hb] [(c & rec & t & H & Ho & Hw) | (l & s & e & H & He & Hw)]; [left|right].
  - exists c, rec, t. split_and!; [by apply Hc|by eapply credential_grows|done].
  - exists l, s, e. split_and!; [by apply Hb|done|done].
Qed.
Lemma brought_grows h h' k r : grows h h' -> brought h k r -> brought h' k r.
Proof. intros [_ Hb] (l & s & H & Hk). exists l, s. split; [by apply Hb|done]. Qed.
Lemma brought_approved h k r : brought h k r -> approved h r.
Proof. intros (l & s & H & Hk). right. exists l, s, (k, r). split_and!; [done|apply elem_of_app; by left|done]. Qed.
Lemma owner_key_grows h h' k : grows h h' -> owner_key h k -> owner_key h' k.
Proof. intros [_ Hb] (s & [H | (l & H)] & E); exists s; naive_solver. Qed.
Lemma rightful_grows h h' k f : grows h h' -> rightful h k f -> rightful h' k f.
Proof. intros [Hc _] (r & t & H & Hr). exists r, t. split; [by apply Hc|done]. Qed.
Lemma phase_grows h h' p : grows h h' -> phase_ok h p -> phase_ok h' p.
Proof.
  intros Hg. destruct p; cbn; try done.
  - intros [H1 H2]. split; [done|]. intros H. eapply credential_grows; eauto.
  - intros (t & H & Hr). exists t. split; [by apply (proj1 Hg)|done].
  - intros [H1 H2]. split; [by eapply approved_grows|done].
Qed.
Lemma approved_within h r r' : approved h r -> within (r_clientId r) (r_resource r) (r_scopes r) r' -> approved h r'.
Proof.
  unfold within. intros [(c & rec & t & H & Ho & E1 & E2 & E3) | (l & s & e & H & He & E1 & E2 & E3)] (F1 & F2 & F3); [left; exists c, rec, t|right; exists l, s, e];
    unfold within; split_and!; try done; try congruence; intros x Hx; by apply E3, F3.
Qed.

(** *** Every handler keeps what the records say *)
(** Its result: the record grows, what is stored stays justified, and so does what the handler still has to do. *)
Definition keeps (v v' : Server) (p : Phase) : Prop :=
  grows (history v) (history v') /\ Core (store v') (history v') /\ phase_ok (history v') p /\ works v' = works v.
Lemma keeps_same v p : Core (store v) (history v) -> phase_ok (history v) p -> keeps v v p.
Proof. done. Qed.

(** Entries that are deleted leave the rest as it is; the history is what it was. *)
Lemma core_store s s' h : Core s h ->
  (forall k r, jm_get (codes s') k = Some r -> jm_get (codes s) k = Some r) ->
  (forall k r, jm_get (refreshes s') k = Some r -> jm_get (refreshes s) k = Some r) ->
  (forall k r, jm_get (legacy s') k = Some r -> jm_get (legacy s) k = Some r) ->
  material s' = material s -> Core s' h.
Proof. intros [] Hc Hr Hl Hm. constructor; try done; [intros ? ? E; eauto..|]. by rewrite Hm. Qed.
Lemma deleted_get {A} (m : jsmap A) k k' a : jm_get (jm_delete m k) k' = Some a -> jm_get m k' = Some a.
Proof. rewrite jm_get_delete. by destruct (_ =s _). Qed.
Lemma core_grows s h h' : Core s h -> grows h h' ->
  (forall e, e ∈ minted h' -> e ∈ minted h \/ approved h' e.2) ->
  (forall c, c ∈ signed h' -> c ∈ signed h \/ exists r, approved h' r /\ carries c r) ->
  (forall e, e ∈ consents h' -> e ∈ consents h \/ owner_credential h' e.2 /\ in_config (clientId e.1.2) (resource e.1.2) (scopes e.1.2)) ->
  (forall e, e ∈ exchanged h' -> e ∈ exchanged h \/ rightful h' e.1 e.2) ->
  (forall b, b ∈ bootstraps h' -> b ∈ bootstraps h \/ snapshot_ok b.1) -> Core s h'.
Proof.
  intros C Hg Hm Hs Hc He Hb. pose proof Hg as Hg'. destruct Hg' as [Hgc Hgb]. constructor.
  - intros k r H. destruct (c_codes _ _ C k r H) as (t & Ht). eauto.
  - intros k r H. eapply approved_grows, (c_refreshes _ _ C); eauto.
  - intros k r H. eapply brought_grows, (c_legacy _ _ C); eauto.
  - intros e [H|H]%Hm; [|done]. by eapply approved_grows, (c_minted _ _ C).
  - intros c [H|H]%Hs; [|done]. destruct (c_signed _ _ C c H) as (r & H1 & H2). exists r. split; [by eapply approved_grows|done].
  - intros e [H|H]%Hc; [|done]. destruct (c_consents _ _ C e H) as [H1 H2]. split; [by eapply credential_grows|done].
  - intros e [H|H]%He; [|done]. by eapply rightful_grows, (c_exchanged _ _ C).
  - intros b [H|H]%Hb; [|done]. by apply (c_bootstraps _ _ C).
  - intros m H. destruct (c_material _ _ C m H) as (l & s' & Hl & Em). eauto.
Qed.

Lemma hmacKey_same v : (hmacKey sha256 hmac cfg v).1 = v \/ exists k, (hmacKey sha256 hmac cfg v).1 = set_cached k v.
Proof. unfold hmacKey. destruct (cached v); [by left|right; eauto]. Qed.
Lemma hmacKey_keeps v : store (hmacKey sha256 hmac cfg v).1 = store v /\ history (hmacKey sha256 hmac cfg v).1 = history v
  /\ works (hmacKey sha256 hmac cfg v).1 = works v.
Proof. by destruct (hmacKey_same v) as [-> | (k & ->)]. Qed.
Lemma verify_keeps token v : store (verify sha256 hmac cfg token v).1 = store v /\ history (verify sha256 hmac cfg token v).1 = history v
  /\ works (verify sha256 hmac cfg token v).1 = works v.
Proof.
  unfold verify. pose proof (hmacKey_keeps v) as K. destruct (hmacKey _ _ _ v) as [v' k]. repeat (case_match; try done).
Qed.
Lemma verify_some token v c : (verify sha256 hmac cfg token v).2 = Some c -> exists key, verifyAccessToken hmac cfg (Some key) token = Some c.
Proof.
  unfold verify. destruct (split_on _ token) as [|header [|payload [|sig [|]]]] eqn:Es; try done.
  destruct (parse_part header) as [h|] eqn:Eh; [|done]. destruct (parse_part payload) as [p|] eqn:Ep; [|done].
  destruct (_ && _); [|done]. destruct (hmacKey sha256 hmac cfg v) as [v' [k|]]; cbn [snd]; [eauto|].
  unfold verifyAccessToken. rewrite Es, Eh, Ep. cbn [mbind option_bind]. destruct (_ || _); [done|]. by destruct (owner_claims p).
Qed.
Lemma keeps_verify token v (f : option OwnerAccessClaims -> Phase) : Core (store v) (history v) ->
  (forall c, (exists key, verifyAccessToken hmac cfg (Some key) token = Some c) -> phase_ok (history v) (f (Some c))) -> phase_ok (history v) (f None) ->
  keeps v (verify sha256 hmac cfg token v).1 (f (verify sha256 hmac cfg token v).2).
Proof.
  intros C Hs Hn. destruct (verify_keeps token v) as (E1 & E2 & E3). unfold keeps. rewrite E1, E2, E3. split_and!; try done.
  destruct (verify sha256 hmac cfg token v).2 as [c|] eqn:E; [|done]. apply Hs, (verify_some _ _ _ E).
Qed.

Lemma legacy_record_ok ids v k r : parseLegacyTokenRecord cfg ids v = Some (k, r) -> in_config (r_clientId r) (r_resource r) (r_scopes r).
Proof.
  unfold parseLegacyTokenRecord. intros (es & _ & H)%bind_Some. apply bind_Some in H as (hash & _ & H). apply bind_Some in H as (id & _ & H).
  apply bind_Some in H as (ss & Hss & H). apply bind_Some in H as (ex & _ & H). apply bind_Some in H as (res & Hr & H). injection H as <- <-.
  split; cbn [r_resource r_scopes].
  - unfold legacy_resource in Hr. repeat (case_match; try done); congruence.
  - destruct (own_value "scopes" es); try done. apply bind_Some in Hss as (ss' & _ & H). destruct (_ || _) eqn:E; [done|]. injection H as <-.
    apply orb_false_iff in E as [_ E]. apply negb_false_iff in E. intros s Hs.
    eapply forallb_forall in E; [|by apply list_elem_of_In]. apply andb_true_iff in E as [_ E]. by apply includes_spec.
Qed.
Lemma legacy_records_ok ids v l e : parseLegacyTokenRecords cfg ids v = Some l -> e ∈ l -> in_config (r_clientId e.2) (r_resource e.2) (r_scopes e.2).
Proof.
  unfold parseLegacyTokenRecords. destruct v; try done. destruct (_ <? _)%nat; [done|]. intros H He.
  destruct (mapM_elem _ _ _ _ H He) as (x & _ & Ex). destruct e as [k r]. by apply legacy_record_ok in Ex.
Qed.
Lemma snapshot_parsed v l : parseLegacySnapshot new_URL cfg v = Some l -> snapshot_ok l.
Proof.
  unfold parseLegacySnapshot. intros (es & _ & H)%bind_Some. destruct (_ || _); [done|]. destruct (own_value "clients" es); try done.
  destruct (_ <? _); [done|]. apply bind_Some in H as (cs & _ & H). apply bind_Some in H as (a & Ha & H). apply bind_Some in H as (b & Hb & H).
  injection H as <-. intros e [He|He]%elem_of_app; [exact (legacy_records_ok _ _ _ e Ha He)|exact (legacy_records_ok _ _ _ e Hb He)].
Qed.
Lemma derive_decodes secret : decodeBase64UrlBytes (ownerVerifierHash (derive secret)) = Some (sha256 (utf8_encode secret)).
Proof. apply decodeBase64UrlBytes_encode. Qed.
Lemma secret_matches v t : Core (store v) (history v) -> ownerSecretMatches sha256 cfg t (store v) = Some true -> owner_credential (history v) t.
Proof.
  intros C. unfold ownerSecretMatches. destruct (material (store v)) as [m|] eqn:Em.
  - destruct (c_material _ _ C m Em) as (l & secret & Hl & ->). destruct (negb _); [done|].
    unfold constantTimeBase64UrlEquals, sha256Base64Url at 1. rewrite decodeBase64UrlBytes_encode, derive_decodes. cbn [mbind option_bind].
    intros [= [Hn Hd]%andb_true_iff]. exists secret. split; [by right; exists l|]. apply equal_digests; [by apply Nat.eqb_eq|done].
  - destruct (ownerSecret cfg) as [secret|] eqn:Es; [|done]. intros [= H]. exists secret. split; [by left|].
    apply equal_digests; [by rewrite !digest_length|done].
Qed.
Lemma requested_ok fields client grant : requested_grant cfg fields client = Some grant -> in_config (clientId grant) (resource grant) (scopes grant).
Proof.
  unfold requested_grant. destruct (_ || _) eqn:E; [done|]. intros [= <-]. cbn. rewrite !orb_false_iff in E. destruct E as [[[_ Er] _] Es].
  apply negb_false_iff in Er, Es. split; [by apply String.eqb_eq|]. intros s Hs.
  eapply forallb_forall in Es; [|by apply list_elem_of_In]. by apply includes_spec.
Qed.

(** *** The handlers *)
Lemma keeps_authorize post fields v : Core (store v) (history v) -> phase_ok (history v) (authorize sha256 cfg post fields v).
Proof.
  intros C. unfold authorize. destruct (jm_get _ _) as [client|]; [|done]. destruct (requested_grant cfg fields client) as [grant|] eqn:Eg; [|done].
  destruct (negb post); [done|]. destruct (ownerSecretMatches _ _ _ _) as [a|] eqn:Ea; [|done]. split; [by eapply requested_ok|].
  intros ->. by apply secret_matches.
Qed.
Lemma register_keeps input uuid now s : let s' := (register new_URL cfg input uuid now s).1 in
  codes s' = codes s /\ refreshes s' = refreshes s /\ legacy s' = legacy s /\ material s' = material s.
Proof. unfold register. by repeat (case_match; try done). Qed.
Lemma keeps_arrive r uuid now v : Core (store v) (history v) -> keeps v (arrive r uuid now v).1 (arrive r uuid now v).2.
Proof.
  intros C. destruct r as [input|post fields|fields|fields|h|snap secret]; cbn [OwnerOAuth.arrive].
  - destruct (register_keeps input uuid (seconds now) (store v)) as (E1 & E2 & E3 & E4).
    destruct (register _ _ _ _ _ _) as [s reply]. cbn in E1, E2, E3, E4. unfold keeps. split_and!; try done.
    apply (core_store (store v)); cbn; congruence.
  - apply keeps_same; [done|]. by apply keeps_authorize.
  - apply keeps_same; [done|]. unfold token. by repeat (case_match; try done).
  - unfold revoke. destruct (sempty _); [by apply keeps_same|].
    rewrite (surjective_pairing (verify _ _ _ _ _)). by apply (keeps_verify _ _ (Revoking _)).
  - unfold authenticate. destruct (readBearerToken h); [|by apply keeps_same].
    rewrite (surjective_pairing (verify _ _ _ _ _)). by apply (keeps_verify _ _ (Authenticating _)).
  - apply keeps_same; [done|]. unfold bootstrap. destruct (bootstrapped _); [done|]. destruct (negb _); [done|].
    destruct (parseLegacySnapshot _ _ _) eqn:E; [|done]. by eapply snapshot_parsed.
Qed.
Lemma keeps_consent accepted client fields grant random now v : Core (store v) (history v) -> phase_ok (history v) (Consenting accepted client fields grant) ->
  keeps v (consent sha256 cfg accepted client fields grant random now v).1 (consent sha256 cfg accepted client fields grant random now v).2.
Proof.
  intros C [Hc Ho]. unfold consent. destruct accepted; [|by apply keeps_same]. specialize (Ho eq_refl). cbn [negb fst snd].
  set (record := mkCode _ _ _ _ _ _). set (k := hash_of _).
  assert (Hg : grows (history v) (consented k record (field "owner_token" fields) (history v))).
  { split; cbn; [apply list_subseteq_app_l|]; done. }
  assert (C' : Core (store v) (consented k record (field "owner_token" fields) (history v))).
  { apply (core_grows _ (history v)); try done; try (by left). cbn. intros e [H | ->%list_elem_of_singleton]%elem_of_app; [by left|right].
    cbn. split; [by eapply credential_grows|]. exact Hc. }
  split_and!; try done. cbn [store set_store happened history]. constructor; try apply C'. cbn. intros k' r'. rewrite jm_get_set.
  destruct (String.eqb_spec k' k) as [->|].
  - intros [= <-]. exists (field "owner_token" fields). apply elem_of_app. right. by apply list_elem_of_singleton.
  - intros H. destruct (c_codes _ _ C' _ _ H) as (t & Ht). by exists t.
Qed.
Lemma keeps_check_code fields now v : Core (store v) (history v) ->
  phase_ok (history v) (check_code sha256 fields (field "client_id" fields) now v).
Proof.
  intros C. unfold check_code. destruct (jm_get _ _) as [r|] eqn:Er; [|done]. destruct (_ || _) eqn:E1; [done|].
  destruct (_ || negb (bool_decide (params_get "resource" fields = _))) eqn:E2; [done|].
  apply orb_false_iff in E1 as [E1 _]. apply orb_false_iff in E2 as [E2 E3]. apply negb_false_iff in E1, E2, E3.
  apply String.eqb_eq in E1. apply bool_decide_eq_true in E2, E3. destruct (c_codes _ _ C _ _ Er) as (t & Ht). by exists t.
Qed.
(** Signing: the claims are those of the grant. *)
Lemma keeps_issue id ss res jti now v : Core (store v) (history v) ->
  approved (history v) (mkRefresh id ss res (seconds now + refreshTokenTtlSeconds cfg)) ->
  keeps v (issueTokens sha256 hmac cfg id ss res jti now v).1 (issueTokens sha256 hmac cfg id ss res jti now v).2.
Proof.
  intros C Ha. unfold issueTokens. destruct (hmacKey_keeps v) as (E1 & E2 & E3).
  set (r := mkRefresh _ _ _ _) in *. set (claims := mkClaims _ _ _ _ _ _ _ _). assert (Hc : carries claims r) by done.
  destruct (hmacKey sha256 hmac cfg v) as [v' [key|]]; cbn [fst snd] in *; unfold keeps; cbn [happened store history works]; rewrite ?E1, ?E2, ?E3.
  - assert (Hg : grows (history v) (sign_claims claims (history v))) by done. split_and!; try done.
    apply (core_grows _ (history v)); try done; try (by left). cbn. intros c [H | ->%list_elem_of_singleton]%elem_of_app; [by left|right].
    exists r. split; [by eapply approved_grows|done].
  - done.
Qed.
Lemma keeps_after v v' w p : Core (store v) (history v) -> grows (history v) (history v') -> works v' = works v -> keeps v' w p -> keeps v w p.
Proof. intros C [Hg1 Hg2] Hw ([H1 H2] & H3 & H4 & H5). split_and!; [|done|done|congruence]. split; by etrans. Qed.
Lemma keeps_check_verifier hash record fields jti now v : Core (store v) (history v) -> phase_ok (history v) (CheckingVerifier hash record fields) ->
  keeps v (check_verifier sha256 hmac cfg hash record fields jti now v).1 (check_verifier sha256 hmac cfg hash record fields jti now v).2.
Proof.
  intros C (t & Ht & Hh & Hid & Hu & Hr). unfold check_verifier. destruct (negb _) eqn:En; [by apply keeps_same|].
  apply negb_false_iff, String.eqb_eq in En. set (v' := happened (exchange hash fields) _).
  assert (C' : Core (store v') (history v')).
  { apply (core_store (store v)); try done; [|intros k r; apply deleted_get].
    apply (core_grows _ (history v)); try done; try (by left). cbn. intros e [H | ->%list_elem_of_singleton]%elem_of_app; [by left|right].
    by exists record, t. }
  apply (keeps_after _ v'); try done. apply keeps_issue; [done|]. left. exists hash, record, t.
  destruct (c_consents _ _ C _ Ht) as [Ho _]. split_and!; [done|exact Ho|]. by unfold within.
Qed.
Lemma keeps_refresh fields jti now v : Core (store v) (history v) ->
  keeps v (refresh sha256 hmac cfg fields (field "client_id" fields) jti now v).1 (refresh sha256 hmac cfg fields (field "client_id" fields) jti now v).2.
Proof.
  intros C. unfold refresh. destruct (jm_get _ _) as [r|] eqn:Er; [|by apply keeps_same]. destruct (_ || _) eqn:E1; [by apply keeps_same|].
  destruct (negb (default _ _ =s _)); [by apply keeps_same|]. destruct (negb (forallb _ _)) eqn:E2; [by apply keeps_same|].
  apply orb_false_iff in E1 as [E1%negb_false_iff%String.eqb_eq _]. apply negb_false_iff in E2.
  set (v' := happened (redeem _) _).
  assert (C' : Core (store v') (history v')).
  { apply (core_store (store v)); try done; [|intros k r'; apply deleted_get]. apply (core_grows _ (history v)); try done; by left. }
  apply (keeps_after _ v'); try done. apply keeps_issue; [done|]. apply (approved_within _ r); [by apply (c_refreshes _ _ C _ _ Er)|].
  unfold within. cbn. split_and!; [done|done|]. intros s Hs. eapply forallb_forall in E2; [|by apply list_elem_of_In]. by apply includes_spec.
Qed.
Lemma keeps_finish grant claims key random v : Core (store v) (history v) -> phase_ok (history v) (Signing grant claims key) ->
  keeps v (finish_tokens sha256 hmac cfg grant claims key random v).1 (finish_tokens sha256 hmac cfg grant claims key random v).2.
Proof.
  intros C [Ha _]. unfold finish_tokens. destruct (signAccessToken hmac key claims); [|by apply keeps_same]. set (k := hash_of _).
  assert (Hg : grows (history v) (mint [(k, grant)] (history v))) by done.
  assert (C' : Core (store v) (mint [(k, grant)] (history v))).
  { apply (core_grows _ (history v)); try done; try (by left). cbn. intros e [H | ->%list_elem_of_singleton]%elem_of_app; [by left|right].
    by eapply approved_grows. }
  unfold keeps. split_and!; try done. cbn [fst store set_store happened history]. constructor; try apply C'. cbn. intros k' r'. rewrite jm_get_set.
  destruct (k' =s k); [intros [= <-]; by eapply approved_grows|apply (c_refreshes _ _ C')].
Qed.
Lemma keeps_revoked token claims v : Core (store v) (history v) -> keeps v (revoked_token sha256 token claims v).1 (revoked_token sha256 token claims v).2.
Proof.
  intros C. unfold revoked_token, keeps. split_and!; try done. destruct claims; apply (core_store (store v)); try done; intros k r; apply deleted_get.
Qed.
Lemma keeps_authenticated token claims now v : Core (store v) (history v) -> phase_ok (history v) (Authenticating token claims) ->
  keeps v (authenticated sha256 cfg token claims now v).1 (authenticated sha256 cfg token claims now v).2.
Proof.
  intros C _. unfold authenticated. repeat (case_match; try (by apply keeps_same));
    unfold keeps; (split_and!; [done| |done|done]); by apply (core_store (store v)).
Qed.
Lemma written_get (xs : list (string * RefreshTokenRecord)) m k r :
  jm_get (fold_left (fun t e => jm_set t e.1 e.2) xs m) k = Some r -> (k, r) ∈ xs \/ jm_get m k = Some r.
Proof.
  revert m. induction xs as [|[k' r'] xs IH]; intros m H; [by right|]. apply IH in H as [H|H]; [left; by right|]. cbn in H. rewrite jm_get_set in H.
  destruct (String.eqb_spec k k') as [->|]; [|by right]. injection H as ->. left. by left.
Qed.
Lemma keeps_bootstrap l secret v : Core (store v) (history v) -> snapshot_ok l ->
  keeps v (happened (imported l secret) (set_store (write_snapshot (derive secret) l (store v)) v)) (Answered bootstrap_done).
Proof.
  intros C Hl. assert (Hg : grows (history v) (imported l secret (history v))).
  { split; cbn; [|apply list_subseteq_app_l]; done. }
  assert (Hin : (l, secret) ∈ bootstraps (imported l secret (history v))) by (apply elem_of_app; right; by apply list_elem_of_singleton).
  assert (Ha : forall e, e ∈ l_access l ++ l_refresh l -> approved (imported l secret (history v)) e.2).
  { intros e He. right. by exists l, secret, e. }
  assert (C' : Core (store v) (imported l secret (history v))).
  { apply (core_grows _ (history v)); try done; try (by left). cbn. intros e [H | ->%list_elem_of_singleton]%elem_of_app; [by left|by right]. }
  unfold keeps. split_and!; try done. cbn [store set_store happened history]. constructor; try apply C'; cbn [codes refreshes legacy material write_snapshot].
  - intros k r [H|H]%written_get; [apply (Ha (k, r)), elem_of_app; by right|by apply (c_refreshes _ _ C' k)].
  - intros k r [H|H]%written_get; [by exists l, secret|by apply (c_legacy _ _ C' k)].
  - intros m [= <-]. by exists l, secret.
Qed.
Lemma keeps_continue p random now v : Core (store v) (history v) -> phase_ok (history v) p ->
  keeps v (continue p random now v).1 (continue p random now v).2.
Proof.
  intros C Hp. destruct p; cbn [OwnerOAuth.continue].
  - by apply keeps_consent.
  - cbn in Hp. subst. apply keeps_same; [done|]. by apply keeps_check_code.
  - by apply keeps_check_verifier.
  - cbn in Hp. subst. by apply keeps_refresh.
  - by apply keeps_finish.
  - by apply keeps_revoked.
  - by apply keeps_authenticated.
  - by apply keeps_bootstrap.
  - by apply keeps_same.
Qed.

Definition Inv (v : Server) : Prop := Core (store v) (history v) /\ Forall (phase_ok (history v)) (works v).
Lemma keeps_works v v' p (f : list Phase -> list Phase) : Inv v -> keeps v v' p ->
  (forall q ps, q ∈ f ps -> q = p \/ q ∈ ps) -> Inv (set_works (f (works v')) v').
Proof.
  intros [C W] (Hg & C' & Hp & Hw) Hf. split; [done|]. cbn. apply Forall_forall. intros q [-> | Hq]%Hf; [done|]. rewrite Hw in Hq.
  eapply phase_grows; [exact Hg|]. by eapply Forall_forall.
Qed.
Lemma oauth_reachable_inv v : reachable v -> Inv v.
Proof.
  induction 1 as [|e v H IH].
  - split; [|constructor]. by constructor; intros; try done; set_solver.
  - destruct e as [r uuid now|n random now|]; cbn [OwnerOAuth.step].
    + rewrite (surjective_pairing (arrive _ _ _ _)). apply (keeps_works v _ _ (fun w => w ++ [_]) IH (keeps_arrive _ _ _ _ (proj1 IH))).
      intros q ps [Hq | Hq%list_elem_of_singleton]%elem_of_app; auto.
    + destruct (works v !! n) as [p|] eqn:En; [|done]. rewrite (surjective_pairing (continue _ _ _ _)).
      assert (Hp : phase_ok (history v) p) by (eapply Forall_lookup_1; [exact (proj2 IH)|done]).
      apply (keeps_works v _ _ (fun w => <[n := _]> w) IH (keeps_continue _ _ _ _ (proj1 IH) Hp)).
      intros q ps [i Hq]%list_elem_of_lookup. apply list_lookup_insert_Some in Hq as [(-> & <- & _) | [_ Hq]]; [by left|right].
      by eapply list_elem_of_lookup_2.
    + split; [exact (proj1 IH)|constructor].
Qed.

(** *** The key *)
(** The key that is kept, and the one that a check was made with, is a key of this server. *)
Definition keyed (h : History) (k : option (option string)) : Prop := forall key, k = Some (Some key) -> owner_key h key.
Definition checked (h : History) (p : Phase) : Prop :=
  match p with
  | Revoking token (Some c) | Authenticating token (Some c) => exists key, owner_key h key /\ verifyAccessToken hmac cfg (Some key) token = Some c
  | _ => True
  end.
Lemma checked_grows h h' p : grows h h' -> checked h p -> checked h' p.
Proof. intros Hg. destruct p; cbn; try done; (destruct claims; [|done]); intros (key & Hk & Hv); exists key; (split; [by eapply owner_key_grows|done]). Qed.
Lemma keyed_grows h h' k : grows h h' -> keyed h k -> keyed h' k.
Proof. intros Hg Hk key E. by eapply owner_key_grows, Hk. Qed.
(** The credential material is of a bootstrap. *)
Definition derived (v : Server) : Prop :=
  forall m, material (store v) = Some m -> exists l secret, (l, secret) ∈ bootstraps (history v) /\ m = derive secret.
Lemma loaded_key v key : derived v -> loadSigningKey sha256 hmac cfg (store v) = Some key -> owner_key (history v) key.
Proof.
  intros C. unfold loadSigningKey. intros (m & Hm & H)%bind_Some. destruct (isOwnerCredentialMaterial m); [|done].
  assert (exists secret, (ownerSecret cfg = Some secret \/ exists l, (l, secret) ∈ bootstraps (history v)) /\ m = derive secret) as (secret & Hs & ->).
  { destruct (material (store v)) as [m'|] eqn:Em.
    - injection Hm as ->. destruct (C m Em) as (l & secret & Hl & E). exists secret. split; [right; by exists l|done].
    - destruct (ownerSecret cfg) as [secret|]; [|done]. destruct (sempty secret); [done|]. injection Hm as <-. exists secret. split; [by left|done]. }
  exists secret. split; [done|]. revert H. cbn [signingKey deriveOwnerCredentialMaterial]. rewrite decodeBase64UrlBytes_encode. congruence.
Qed.
Lemma hmacKey_keyed v : derived v -> keyed (history v) (cached v) ->
  keyed (history v) (cached (hmacKey sha256 hmac cfg v).1) /\ keyed (history v) (Some (hmacKey sha256 hmac cfg v).2).
Proof.
  intros C K. unfold hmacKey. destruct (cached v) as [k|] eqn:E; cbn [fst snd]; [by rewrite E|].
  assert (keyed (history v) (Some (loadSigningKey sha256 hmac cfg (store v)))) as H by (intros key [= Ek]; by apply loaded_key). done.
Qed.
(** What a handler does to the key, and what it goes on with. *)
Definition keeps_key (v v' : Server) (p : Phase) : Prop := keyed (history v) (cached v') /\ checked (history v) p.
Lemma verify_keyed token v (f : option OwnerAccessClaims -> Phase) : derived v -> keyed (history v) (cached v) ->
  checked (history v) (f None) ->
  (forall c, (exists key, owner_key (history v) key /\ verifyAccessToken hmac cfg (Some key) token = Some c) -> checked (history v) (f (Some c))) ->
  keeps_key v (verify sha256 hmac cfg token v).1 (f (verify sha256 hmac cfg token v).2).
Proof.
  intros C K Hn Hs. destruct (hmacKey_keyed v C K) as [K1 K2]. unfold verify.
  destruct (split_on _ token) as [|header [|payload [|sig [|]]]] eqn:Es; try done.
  destruct (parse_part header) as [h|] eqn:Eh; [|done]. destruct (parse_part payload) as [p|] eqn:Ep; [|done].
  destruct (_ && _); [|done]. destruct (hmacKey sha256 hmac cfg v) as [v' k]. cbn [fst snd] in *. split; [done|].
  destruct (verifyAccessToken hmac cfg k token) as [c|] eqn:Ev; [|done]. apply Hs. destruct k as [key|]; [exists key; split; [by apply K2|done]|].
  revert Ev. unfold verifyAccessToken. rewrite Es, Eh, Ep. cbn [mbind option_bind]. destruct (_ || _); [done|]. by destruct (owner_claims p).
Qed.
Lemma issue_keyed w id ss res jti now v : bootstraps (history w) = bootstraps (history v) -> derived w -> keyed (history w) (cached w) ->
  keeps_key v (issueTokens sha256 hmac cfg id ss res jti now w).1 (issueTokens sha256 hmac cfg id ss res jti now w).2.
Proof.
  intros E C K. destruct (hmacKey_keyed w C K) as [K1 _]. unfold keyed, owner_key in K1. rewrite E in K1. unfold issueTokens, keeps_key.
  by destruct (hmacKey sha256 hmac cfg w) as [w' [key|]].
Qed.
Lemma arrive_keyed r uuid now v : derived v -> keyed (history v) (cached v) ->
  keeps_key v (arrive r uuid now v).1 (arrive r uuid now v).2.
Proof.
  intros C K. destruct r as [input|post fields|fields|fields|h|snap secret]; cbn [OwnerOAuth.arrive].
  - by destruct (register _ _ _ _ _ _).
  - unfold authorize. by repeat (case_match; try done).
  - unfold token. by repeat (case_match; try done).
  - unfold revoke. destruct (sempty _); [done|]. rewrite (surjective_pairing (verify _ _ _ _ _)). by apply (verify_keyed _ _ (Revoking _)).
  - unfold authenticate. destruct (readBearerToken h); [|done].
    rewrite (surjective_pairing (verify _ _ _ _ _)). by apply (verify_keyed _ _ (Authenticating _)).
  - unfold bootstrap. by repeat (case_match; try done).
Qed.
Lemma continue_keyed p random now v : derived v -> keyed (history v) (cached v) -> checked (history v) p ->
  keeps_key v (continue p random now v).1 (continue p random now v).2.
Proof.
  intros C K Hc. destruct p; cbn [OwnerOAuth.continue] in *; try done.
  - unfold consent. by destruct (negb accepted).
  - unfold check_code. by repeat (case_match; try done).
  - unfold check_verifier. destruct (negb _); [done|]. by apply issue_keyed.
  - unfold refresh. destruct (jm_get _ _) as [r|]; [|done]. destruct (_ || _); [done|]. destruct (negb (default _ _ =s _)); [done|].
    destruct (negb (forallb _ _)); [done|]. by apply issue_keyed.
  - unfold authenticated. by repeat (case_match; try done).
Qed.
(** The key and the checks are right in every state. *)
Definition Keyed (v : Server) : Prop := keyed (history v) (cached v) /\ Forall (checked (history v)) (works v).
Lemma keeps_keyed v v' p (f : list Phase -> list Phase) : Keyed v -> grows (history v) (history v') -> works v' = works v -> keeps_key v v' p ->
  (forall q ps, q ∈ f ps -> q = p \/ q ∈ ps) -> Keyed (set_works (f (works v')) v').
Proof.
  intros [K W] Hg Hw [K' Hp] Hf. split; [by eapply keyed_grows|]. cbn. apply Forall_forall.
  intros q [-> | Hq]%Hf; (eapply checked_grows; [exact Hg|]); [done|]. rewrite Hw in Hq. by eapply Forall_forall.
Qed.
Lemma reachable_keyed v : reachable v -> Keyed v.
Proof.
  induction 1 as [|e v H IH]; [by split|]. destruct (oauth_reachable_inv v H) as [C W].
  pose proof (c_material _ _ C) as D. fold (derived v) in D. destruct IH as [K Wk]. destruct e as [r uuid now|n random now|]; cbn [OwnerOAuth.step].
  - rewrite (surjective_pairing (arrive _ _ _ _)). destruct (keeps_arrive r uuid now v C) as (Hg & _ & _ & Hw).
    apply (keeps_keyed v _ _ (fun w => w ++ [_]) (conj K Wk) Hg Hw (arrive_keyed _ _ _ _ D K)).
    intros q ps [Hq | Hq%list_elem_of_singleton]%elem_of_app; auto.
  - destruct (works v !! n) as [p|] eqn:En; [|done]. rewrite (surjective_pairing (continue _ _ _ _)).
    destruct (keeps_continue p random now v C (Forall_lookup_1 _ _ _ _ W En)) as (Hg & _ & _ & Hw).
    apply (keeps_keyed v _ _ (fun w => <[n := _]> w) (conj K Wk) Hg Hw (continue_keyed _ _ _ _ D K (Forall_lookup_1 _ _ _ _ Wk En))).
    intros q ps [i Hq]%list_elem_of_lookup. apply list_lookup_insert_Some in Hq as [(-> & <- & _) | [_ Hq]]; [by left|right].
    by eapply list_elem_of_lookup_2.
  - by split.
Qed.
(** [safety] Whoever exchanges a code had it, was the client it was made for, named the redirect URI and the resource of the
    consent and knew the verifier of its challenge; and a refresh token or an access token that exists is approved. *)
Theorem code_exchange_bound v (Hr : reachable v) :
  (forall hash fields, (hash, fields) ∈ exchanged (history v) -> rightful (history v) hash fields)
  /\ (forall k r, jm_get (refreshes (store v)) k = Some r -> approved (history v) r)
  /\ (forall c, c ∈ signed (history v) -> exists r, approved (history v) r /\ carries c r).
Proof using digest_length.
  apply oauth_reachable_inv in Hr as [C _]. split_and!; [|apply C..]. intros hash fields H. exact (c_exchanged _ _ C _ H).
Qed.

(** *** Refresh tokens *)
(** How often the hash was put into the store: for a token that was given out, or by a bootstrap whose snapshot has it. *)
Definition puts (k : string) (h : History) : nat :=
  (count_occ String.string_dec (minted h).*1 k + length (List.filter (fun b => includes (l_refresh b.1).*1 k) (bootstraps h)))%nat.
Definition redemptions (k : string) (h : History) : nat := count_occ String.string_dec (redeemed h) k.
Definition held (k : string) (v : Server) : nat := match jm_get (refreshes (store v)) k with Some _ => 1 | None => 0 end.
(** The tables of refresh tokens lose at most entries; what was minted, imported and redeemed is as it was. *)
Definition still (v v' : Server) : Prop :=
  (forall k r, jm_get (refreshes (store v')) k = Some r -> jm_get (refreshes (store v)) k = Some r)
  /\ minted (history v') = minted (history v) /\ redeemed (history v') = redeemed (history v) /\ bootstraps (history v') = bootstraps (history v).
(** What a step does to them: nothing but deletions, one redemption, a new token, or a bootstrap. *)
Definition tokens_step (v v' : Server) : Prop :=
  still v v'
  \/ (exists k r, jm_get (refreshes (store v)) k = Some r /\ refreshes (store v') = jm_delete (refreshes (store v)) k
        /\ minted (history v') = minted (history v) /\ redeemed (history v') = redeemed (history v) ++ [k]
        /\ bootstraps (history v') = bootstraps (history v))
  \/ (exists l b, (forall k r, jm_get (refreshes (store v')) k = Some r ->
                    k ∈ l.*1 \/ (exists x, x ∈ b /\ k ∈ (l_refresh x.1).*1) \/ jm_get (refreshes (store v)) k = Some r)
        /\ minted (history v') = minted (history v) ++ l /\ redeemed (history v') = redeemed (history v)
        /\ bootstraps (history v') = bootstraps (history v) ++ b).
Lemma still_refl v : still v v. Proof. done. Qed.
Lemma still_key v v' : store v' = store v -> history v' = history v -> still v v'.
Proof. unfold still. by intros -> ->. Qed.
Lemma issue_still id ss res jti now v : still v (issueTokens sha256 hmac cfg id ss res jti now v).1.
Proof.
  unfold issueTokens. destruct (hmacKey_keeps v) as (E1 & E2 & _). destruct (hmacKey sha256 hmac cfg v) as [v' [key|]]; cbn [fst] in *.
  - unfold still. cbn. by rewrite E1, E2.
  - by apply still_key.
Qed.
Lemma verify_still t v : still v (verify sha256 hmac cfg t v).1.
Proof. destruct (verify_keeps t v) as (E1 & E2 & _). by apply still_key. Qed.
Lemma arrive_still r uuid now v : still v (arrive r uuid now v).1.
Proof.
  destruct r as [input|post fields|fields|fields|h|snap secret]; cbn [OwnerOAuth.arrive]; try done.
  - destruct (register_keeps input uuid (seconds now) (store v)) as (_ & E & _). destruct (register _ _ _ _ _ _) as [s reply]. cbn in E.
    unfold still. cbn. by rewrite E.
  - unfold revoke. destruct (sempty _); [done|]. rewrite (surjective_pairing (verify _ _ _ _ _)). apply verify_still.
  - unfold authenticate. destruct (readBearerToken h); [|done]. rewrite (surjective_pairing (verify _ _ _ _ _)). apply verify_still.
Qed.
Lemma still_after v v' w : still v' w -> tokens_step v v' -> (refreshes (store w) = refreshes (store v')) -> tokens_step v w.
Proof.
  intros (S1 & S2 & S3 & S4) [(H1 & H2 & H3 & H4) | [(k & r & H1 & H2 & H3 & H4 & H5) | (l & b & H1 & H2 & H3 & H4)]] E.
  - left. unfold still. rewrite S2, S3, S4. split_and!; try done. intros k r H. auto.
  - right; left. exists k, r. rewrite E, S2, S3, S4. done.
  - right; right. exists l, b. rewrite S2, S3, S4. split_and!; try done. intros k r H. auto.
Qed.
Lemma issue_step v v' id ss res jti now : tokens_step v v' -> tokens_step v (issueTokens sha256 hmac cfg id ss res jti now v').1.
Proof.
  intros H. eapply still_after; [apply issue_still|exact H|]. unfold issueTokens. destruct (hmacKey_keeps v') as (E1 & _).
  destruct (hmacKey sha256 hmac cfg v') as [w [key|]]; cbn in *; by rewrite E1.
Qed.
Lemma continue_tokens p random now v : tokens_step v (continue p random now v).1.
Proof.
  destruct p; cbn [OwnerOAuth.continue]; try by left.
  - unfold consent. destruct (negb accepted); by left.
  - unfold check_verifier. destruct (negb _); [by left|]. by apply issue_step; left.
  - unfold refresh. destruct (jm_get _ _) as [r|] eqn:Er; [|by left]. destruct (_ || _); [by left|]. destruct (negb (default _ _ =s _)); [by left|].
    destruct (negb (forallb _ _)); [by left|]. apply issue_step. right; left. by eexists _, r.
  - unfold finish_tokens. destruct (signAccessToken _ _ _); [|by left]. right; right. exists [(hash_of ("refresh-" +:+ random), grant)], [].
    cbn [fst]. split_and!; try done; [|by rewrite app_nil_r].
    intros k r. cbn [store set_store happened refreshes set_refreshes].
    rewrite jm_get_set. destruct (String.eqb_spec k (hash_of ("refresh-" +:+ random))) as [->|]; [left; by apply list_elem_of_singleton|by right; right].
  - left. unfold revoked_token. destruct claims; unfold still; (split_and!; [|done..]); [done|]. intros k r. apply deleted_get.
  - left. unfold authenticated. repeat (case_match; try done).
  - right; right. exists [], [(snapshot, secret)]. cbn [fst]. split_and!; try done; [|by rewrite app_nil_r].
    intros k r [H|H]%written_get; [right; left|by right; right]. exists (snapshot, secret).
    split; [by left|]. apply list_elem_of_fmap. by exists (k, r).
Qed.
Lemma step_tokens e v : tokens_step v (step e v).
Proof.
  destruct e as [r uuid now|n random now|]; cbn [OwnerOAuth.step].
  - rewrite (surjective_pairing (arrive _ _ _ _)). left. exact (arrive_still r uuid now v).
  - destruct (works v !! n) as [p|]; [|by left]. rewrite (surjective_pairing (continue _ _ _ _)). exact (continue_tokens p random now v).
  - by left.
Qed.
Lemma count_occ_snoc l x k : count_occ String.string_dec (l ++ [x]) k = (count_occ String.string_dec l k + if (x =s k) then 1 else 0)%nat.
Proof. rewrite count_occ_app. cbn. destruct (String.string_dec x k) as [->|Hn]; [by rewrite String.eqb_refl|]. by apply String.eqb_neq in Hn as ->. Qed.
(** Between two states a hash was redeemed at most as often as it was put into the store, but for the one that was there. *)
Definition balanced (v w : Server) : Prop := forall k,
  (puts k (history v) <= puts k (history w) /\ redemptions k (history v) <= redemptions k (history w)
   /\ redemptions k (history w) + held k w + puts k (history v) <= redemptions k (history v) + held k v + puts k (history w))%nat.
Lemma balanced_trans u v w : balanced u v -> balanced v w -> balanced u w.
Proof. intros H1 H2 k. specialize (H1 k). specialize (H2 k). lia. Qed.
Lemma held_le k v w : (forall r, jm_get (refreshes (store w)) k = Some r -> jm_get (refreshes (store v)) k = Some r) -> (held k w <= held k v)%nat.
Proof. intros H. unfold held. destruct (jm_get (refreshes (store w)) k) as [r|]; [|lia]. by rewrite (H r eq_refl). Qed.
Lemma put_once k l (b : list (LegacySnapshot * string)) : k ∈ l.*1 \/ (exists x, x ∈ b /\ k ∈ (l_refresh x.1).*1) ->
  (1 <= count_occ String.string_dec (l : list (string * RefreshTokenRecord)).*1 k + length (List.filter (fun b => includes (l_refresh b.1).*1 k) b))%nat.
Proof.
  intros [H | (x & Hx & H)].
  - apply list_elem_of_In, (count_occ_In String.string_dec) in H. lia.
  - assert (In x (List.filter (fun b => includes (l_refresh b.1).*1 k) b)) as Hi
      by (apply filter_In; split; [by apply list_elem_of_In|by apply includes_spec]).
    destruct (List.filter _ b); [done|]. cbn [length]. lia.
Qed.
Lemma tokens_balanced v w : tokens_step v w -> balanced v w.
Proof.
  intros [(H & Em & Er & Eb) | [(k' & r & Hk & H & Em & Er & Eb) | (l & b & H & Em & Er & Eb)]] k; unfold puts, redemptions; rewrite Em, Er, Eb.
  - pose proof (held_le k v w (H k)). lia.
  - rewrite count_occ_snoc. unfold held. rewrite H, jm_get_delete. destruct (String.eqb_spec k k') as [->|Hn].
    + rewrite Hk, String.eqb_refl. lia.
    + apply not_eq_sym, String.eqb_neq in Hn as ->. lia.
  - rewrite fmap_app, count_occ_app, List.filter_app, length_app. unfold held.
    destruct (jm_get (refreshes (store w)) k) as [r|] eqn:E; [|lia].
    destruct (H k r E) as [Hl | [Hb | Ho]]; [| |rewrite Ho; lia].
    + pose proof (put_once k l b (or_introl Hl)). lia.
    + pose proof (put_once k l b (or_intror Hb)). lia.
Qed.

Definition later : Server -> Server -> Prop := rtc (fun v v' => exists e, v' = step e v).
Lemma later_reachable v v' : reachable v -> later v v' -> reachable v'.
Proof. intros Hr H. induction H as [|v _ v' [e ->] _ IH]; [done|]. apply IH. by constructor. Qed.
Lemma later_balanced v w : later v w -> balanced v w.
Proof.
  induction 1 as [v|v _ w [e ->] _ IH]; [intros k; lia|]. eapply balanced_trans; [|exact IH]. apply tokens_balanced, step_tokens.
Qed.
Lemma reachable_balanced v : reachable v -> balanced fresh v.
Proof.
  induction 1 as [|e v H IH]; [intros k; lia|]. eapply balanced_trans; [exact IH|]. apply tokens_balanced, step_tokens.
Qed.


(** *** Revoked access tokens *)
Definition revoked_as (j : string) (x : Z) (v : Server) : Prop := jm_get (revoked (store v)) j = Some x.
Definition claims_agree (j : string) (x : Z) (p : Phase) : Prop :=
  match p with Revoking _ (Some c) | Authenticating _ (Some c) => jti c = j -> exp c = x | _ => True end.
Lemma register_revoked input uuid now s : revoked (register new_URL cfg input uuid now s).1 = revoked s.
Proof. unfold register. by repeat (case_match; try done). Qed.
Lemma issue_store id ss res t now v : store (issueTokens sha256 hmac cfg id ss res t now v).1 = store v.
Proof. unfold issueTokens. destruct (hmacKey_keeps v) as (E & _). by destruct (hmacKey sha256 hmac cfg v) as [w [key|]]. Qed.
Lemma arrive_revoked j x r uuid now v : revoked_as j x v -> revoked_as j x (arrive r uuid now v).1.
Proof.
  intros H. destruct r as [input|post fields|fields|fields|h|snap secret]; cbn [OwnerOAuth.arrive]; try done.
  - pose proof (register_revoked input uuid (seconds now) (store v)) as E. destruct (register _ _ _ _ _ _) as [s reply].
    unfold revoked_as. cbn in *. by rewrite E.
  - unfold revoke. destruct (sempty _); [done|]. rewrite (surjective_pairing (verify _ _ _ _ _)). unfold revoked_as.
    cbn [fst]. by rewrite (proj1 (verify_keeps _ _)).
  - unfold authenticate. destruct (readBearerToken h); [|done]. rewrite (surjective_pairing (verify _ _ _ _ _)). unfold revoked_as.
    cbn [fst]. by rewrite (proj1 (verify_keeps _ _)).
Qed.
Lemma authenticated_revoked j x token claims now v : claims_agree j x (Authenticating token claims) -> revoked_as j x v ->
  revoked_as j x (authenticated sha256 cfg token claims now v).1.
Proof.
  intros Ha H. unfold authenticated. destruct claims as [c|]; [|by repeat (case_match; try done)].
  destruct (Z.ltb_spec (seconds now) (exp c)); [|done]. destruct (jm_get (revoked (store v)) (jti c)) as [y|] eqn:E; [|cbn [negb]; by case_match].
  destruct (Z.leb_spec y (seconds now)); cbn [negb]; [|done]. unfold revoked_as in *. cbn in Ha.
  destruct (negb (includes _ _)); cbn [fst store set_store revoked set_revoked]; rewrite jm_get_delete;
    (destruct (String.eqb_spec j (jti c)) as [->|]; [rewrite Ha in * by done; rewrite E in H; injection H as ->; lia|done]).
Qed.
Lemma continue_revoked j x p random now v : claims_agree j x p -> revoked_as j x v -> revoked_as j x (continue p random now v).1.
Proof.
  intros Ha H. destruct p; cbn [OwnerOAuth.continue]; try done.
  - unfold consent. by destruct (negb accepted).
  - unfold check_verifier. destruct (negb _); [done|]. unfold revoked_as. by rewrite issue_store.
  - unfold refresh. destruct (jm_get (refreshes _) _) as [r|]; [|done]. destruct (_ || _); [done|]. destruct (negb (default _ _ =s _)); [done|].
    destruct (negb (forallb _ _)); [done|]. unfold revoked_as. by rewrite issue_store.
  - unfold revoked_token. destruct claims as [c|]; [|done]. unfold revoked_as in *. cbn [fst store set_store revoked set_revoked]. rewrite jm_get_set.
    destruct (String.eqb_spec j (jti c)) as [->|]; [|done]. cbn in Ha. by rewrite Ha.
  - by apply authenticated_revoked.
Qed.
Lemma step_revoked j x e v : Forall (claims_agree j x) (works v) -> revoked_as j x v -> revoked_as j x (step e v).
Proof.
  intros Hw H. destruct e as [r uuid now|n random now|]; cbn [OwnerOAuth.step]; [| |done].
  - rewrite (surjective_pairing (arrive _ _ _ _)). exact (arrive_revoked j x r uuid now v H).
  - destruct (works v !! n) as [p|] eqn:E; [|done]. rewrite (surjective_pairing (continue _ _ _ _)).
    exact (continue_revoked j x p random now v (Forall_lookup_1 _ _ _ _ Hw E) H).
Qed.

Definition run (es : list Step) (v : Server) : Server := fold_left (fun v e => step e v) es v.
Lemma run_app es es' v : run (es ++ es') v = run es' (run es v).
Proof. apply fold_left_app. Qed.
Lemma run_reachable es v : reachable v -> reachable (run es v).
Proof. revert v. induction es as [|e es IH]; intros v H; [done|]. by apply IH; constructor. Qed.
(** The tokens that were presented. *)
Definition presented (e : Step) : list string :=
  match e with
  | Arrive (to_revoke fields) _ _ => [field "token" fields]
  | Arrive (to_authenticate h) _ _ => option_list (readBearerToken h)
  | _ => []
  end.
Definition token_in (ts : list string) (p : Phase) : Prop := match p with Revoking t _ | Authenticating t _ => t ∈ ts | _ => True end.
Lemma arrive_token ts r uuid now v : presented (Arrive r uuid now) ⊆ ts -> token_in ts (arrive r uuid now v).2.
Proof.
  intros Hp. destruct r as [input|post fields|fields|fields|h|snap secret]; cbn [OwnerOAuth.arrive].
  - by destruct (register _ _ _ _ _ _).
  - unfold authorize. repeat (case_match; try done).
  - unfold token. repeat (case_match; try done).
  - unfold revoke. destruct (sempty _); [done|]. rewrite (surjective_pairing (verify _ _ _ _ _)). apply Hp. by left.
  - unfold authenticate. cbn in Hp. destruct (readBearerToken h); [|done].
    rewrite (surjective_pairing (verify _ _ _ _ _)). apply Hp. by left.
  - unfold bootstrap. repeat (case_match; try done).
Qed.
Lemma issue_token ts id ss res t now v : token_in ts (issueTokens sha256 hmac cfg id ss res t now v).2.
Proof. unfold issueTokens. by destruct (hmacKey sha256 hmac cfg v) as [w [key|]]. Qed.
Lemma continue_token ts p random now v : token_in ts p -> token_in ts (continue p random now v).2.
Proof.
  intros Ht. destruct p; cbn [OwnerOAuth.continue]; try done.
  - unfold consent. by destruct (negb accepted).
  - unfold check_code. repeat (case_match; try done).
  - unfold check_verifier. destruct (negb _); [done|]. apply issue_token.
  - unfold refresh. repeat (case_match; try done); apply issue_token.
  - unfold authenticated. repeat (case_match; try done).
Qed.
Lemma step_token ts e v : presented e ⊆ ts -> Forall (token_in ts) (works v) -> reachable v -> Forall (token_in ts) (works (step e v)).
Proof.
  intros Hp Hw Hr. destruct (oauth_reachable_inv v Hr) as [C W]. destruct e as [r uuid now|n random now|]; cbn [OwnerOAuth.step]; [| |constructor].
  - rewrite (surjective_pairing (arrive _ _ _ _)). cbn [works set_works]. destruct (keeps_arrive r uuid now v C) as (_ & _ & _ & ->).
    apply Forall_app. split; [done|]. constructor; [by apply arrive_token|constructor].
  - destruct (works v !! n) as [p|] eqn:E; [|done]. rewrite (surjective_pairing (continue _ _ _ _)). cbn [works set_works].
    destruct (keeps_continue p random now v C (Forall_lookup_1 _ _ _ _ W E)) as (_ & _ & _ & ->).
    apply Forall_insert; [done|]. apply continue_token. exact (Forall_lookup_1 _ _ _ _ Hw E).
Qed.
Lemma run_token ts es v : (forall t, t ∈ flat_map presented es -> t ∈ ts) -> reachable v -> Forall (token_in ts) (works v) ->
  Forall (token_in ts) (works (run es v)).
Proof.
  revert v. induction es as [|e es IH]; intros v He Hr Hw; [done|]. apply IH.
  - intros t Ht. apply He. cbn. apply elem_of_app. by right.
  - by constructor.
  - apply step_token; [|done|done]. intros t Ht. apply He. cbn. apply elem_of_app. by left.
Qed.
Lemma run_revoked j x es v : reachable v -> revoked_as j x v ->
  (forall k, Forall (claims_agree j x) (works (run (take k es) v))) -> revoked_as j x (run es v).
Proof.
  revert v. induction es as [|e es IH]; intros v Hr H Hw; [done|]. apply IH; [by constructor| |].
  - apply step_revoked; [exact (Hw 0%nat)|done].
  - intros k. exact (Hw (S k)).
Qed.
Lemma accepted_agree ts j x v : reachable v -> Forall (token_in ts) (works v) ->
  (forall t key c, t ∈ ts -> verifyAccessToken hmac cfg (Some key) t = Some c -> jti c = j -> exp c = x) -> Forall (claims_agree j x) (works v).
Proof.
  intros Hr Ht H. destruct (oauth_reachable_inv v Hr) as [_ W]. apply Forall_forall. intros p Hp.
  pose proof (proj1 (Forall_forall _ _) W p Hp) as Hk. pose proof (proj1 (Forall_forall _ _) Ht p Hp) as Hin.
  destruct p; try done; (destruct claims as [c|]; [|done]); destruct Hk as [key Hk]; exact (H _ key c Hin Hk).
Qed.

(** [safety] A revoked access token stays revoked: once a handler has revoked the claims [c], every later check of these
    claims is refused while they have not expired.  Identifiers of tokens are not reused: a token that is presented, with
    claims that pass the check of the signature and have the identifier of [c], expires when [c] does. *)
Theorem revoked_token_refused es n token c random now es' m token' random' now'
    (Hn : works (run es fresh) !! n = Some (Revoking token (Some c)))
    (Hjti : forall t key c', t ∈ flat_map presented (es ++ es') -> verifyAccessToken hmac cfg (Some key) t = Some c' -> jti c' = jti c -> exp c' = exp c)
    (Hm : works (run (es ++ [Continue n random now] ++ es') fresh) !! m = Some (Authenticating token' (Some c))) (Hlive : seconds now' < exp c) :
  works (step (Continue m random' now') (run (es ++ [Continue n random now] ++ es') fresh)) !! m = Some (Answered unauthenticated).
Proof using digest_length.
  set (ts := flat_map presented (es ++ es')) in *. set (v := run es fresh) in *. set (v1 := step (Continue n random now) v).
  rewrite run_app in *. change (run ([Continue n random now] ++ es') (run es fresh)) with (run es' v1) in *.
  assert (Hts : forall l, (forall e, e ∈ l -> e ∈ es ++ es') -> forall t, t ∈ flat_map presented l -> t ∈ ts).
  { intros l Hl t Ht. unfold ts. apply list_elem_of_In, in_flat_map in Ht as (e & He & Ht).
    apply list_elem_of_In, in_flat_map. exists e. split; [|done]. apply list_elem_of_In, Hl. by apply list_elem_of_In. }
  assert (Hr : reachable v) by (apply run_reachable; constructor). assert (Hr1 : reachable v1) by by constructor.
  assert (Hw : Forall (token_in ts) (works v)).
  { apply run_token; [|constructor|constructor]. apply Hts. intros e He. apply elem_of_app. by left. }
  assert (Hw1 : Forall (token_in ts) (works v1)) by (apply step_token; [set_solver|done|done]).
  assert (H1 : revoked_as (jti c) (exp c) (run es' v1)).
  { apply run_revoked; [done| |].
    - unfold v1. cbn [OwnerOAuth.step]. rewrite Hn. unfold revoked_as. cbn. by rewrite jm_get_set, String.eqb_refl.
    - intros k. apply (accepted_agree ts); [by apply run_reachable| |done]. apply run_token; [|done|done]. apply Hts. intros e He.
      apply elem_of_app. right. apply list_elem_of_lookup in He as [i Hi]. apply lookup_take_Some in Hi as [Hi _]. by eapply list_elem_of_lookup_2. }
  cbn [OwnerOAuth.step]. rewrite Hm. cbn [OwnerOAuth.continue]. unfold authenticated. unfold revoked_as in H1. rewrite H1.
  destruct (Z.ltb_spec (seconds now') (exp c)); [|lia]. destruct (Z.leb_spec (exp c) (seconds now')); [lia|]. cbn [negb works set_works].
  rewrite list_lookup_insert_eq; [done|]. by apply lookup_lt_Some in Hm.
Qed.
End Safety.

(** *** Access tokens *)
Section Access.
Context `{JN : JsNumber} {JL : JsNumberLaws JN} {JR : JsNumberRead JN} {JRL : JsNumberReadLaws JN JR} {JI : JsInteger JN} {JIL : JsIntegerLaws JN JI}.
Context (hmac : string -> string -> string) (cfg : EdgeOwnerOAuthConfig).
Lemma digits_no_char c s : has_char c BASE64URL = false -> sforall (fun d => has_char d BASE64URL) s = true -> has_char c s = false.
Proof.
  intros Hc. induction s as [|d s IH]; [done|]. rewrite sforall_cons. intros [Hd Hs]%andb_true_iff. cbn [has_char sexists]. unfold has_char in *.
  cbn [sexists]. rewrite IH by done. destruct (Ascii.eqb_spec c d) as [->|]; [congruence|done].
Qed.
Lemma base64url_no_dot b : has_char "."%char (base64url_encode b) = false.
Proof. apply digits_no_char; [done|apply base64url_encode_digits]. Qed.
Lemma split_token a b c : split_on "."%char (base64url_encode a +:+ "." +:+ base64url_encode b +:+ "." +:+ base64url_encode c)
  = [base64url_encode a; base64url_encode b; base64url_encode c].
Proof.
  assert (forall x, "." +:+ x = String "."%char x) as E by done. rewrite !E. rewrite (split_on_app "."%char) by apply base64url_no_dot. f_equal.
  rewrite (split_on_app "."%char) by apply base64url_no_dot. f_equal. apply split_on_plain, base64url_no_dot.
Qed.
Lemma same_header : arrives_same header_value.
Proof using JL JRL JIL. unfold header_value. same_fields. Qed.
Lemma same_claims c : arrives_same (claims_value c).
Proof using JL JRL JIL. unfold claims_value. same_fields. Qed.
Lemma encoded_read v : arrives_same v -> exists b, encoded v = Some (base64url_encode b) /\ parse_part (base64url_encode b) = Some v.
Proof using JL JRL.
  intros H. destruct (arrival v H) as (t & Et & Ep). exists (utf8_encode t). unfold encoded, parse_part, decodeBase64UrlText. rewrite Et.
  split; [done|]. rewrite decodeBase64UrlBytes_encode, utf8_decode_encode. cbn [mbind option_bind]. by rewrite Ep.
Qed.
Lemma claims_read c : isOwnerClaims (claims_value c) = true /\ owner_claims (claims_value c) = Some c.
Proof using JIL.
  unfold isOwnerClaims, owner_claims, claims_value. cbn. unfold int. rewrite !integer_of_integer. cbn. by destruct c.
Qed.

(** Whatever token is accepted carries a signature that HMAC makes of its first two parts, which hold the claims. *)
Lemma accepted_signature key token c : verifyAccessToken hmac cfg (Some key) token = Some c ->
  exists header payload sig, split_on "."%char token = [header; payload; sig]
    /\ decodeBase64UrlBytes sig = Some (hmac key (utf8_encode (header +:+ "." +:+ payload)))
    /\ iss c = base_href cfg /\ aud c = mcp_href cfg /\ exists p, parse_part payload = Some p /\ owner_claims p = Some c.
Proof using.
  unfold verifyAccessToken. destruct (split_on "."%char token) as [|header [|payload [|sig [|]]]]; try done.
  intros (h & _ & H)%bind_Some. apply bind_Some in H as (p & Hp & H). destruct (_ || _); [done|]. apply bind_Some in H as (c0 & Hc & H).
  cbn [mbind option_bind] in H. apply bind_Some in H as (bytes & Hb & H). destruct (_ || _) eqn:E; [done|]. injection H as <-.
  rewrite !orb_false_iff in E. destruct E as [[E1%negb_false_iff%String.eqb_eq E2%negb_false_iff%String.eqb_eq] E3%negb_false_iff%String.eqb_eq].
  exists header, payload, sig. rewrite E1. split_and!; try done. by exists p.
Qed.

(** [roundtrip] The access tokens of this server are accepted: the token that is made for claims is a text, and the check of
    that token with the same key gives the claims back exactly when they are of this issuer and for this resource.
    Whatever token is accepted carries a signature that HMAC makes of its first two parts. *)
Theorem access_token_verifies key c :
  (exists token, signAccessToken hmac key c = Some token
     /\ verifyAccessToken hmac cfg (Some key) token = if (iss c =s base_href cfg) && (aud c =s mcp_href cfg) then Some c else None)
  /\ forall token c', verifyAccessToken hmac cfg (Some key) token = Some c' ->
       exists header payload sig, split_on "."%char token = [header; payload; sig]
         /\ decodeBase64UrlBytes sig = Some (hmac key (utf8_encode (header +:+ "." +:+ payload)))
         /\ iss c' = base_href cfg /\ aud c' = mcp_href cfg.
Proof using JL JRL JIL.
  split.
  - destruct (encoded_read _ same_header) as (h & Eh & Ph). destruct (encoded_read _ (same_claims c)) as (p & Ep & Pp).
    unfold signAccessToken, signing_input, signature. rewrite Eh, Ep. cbn [mbind option_bind].
    set (input := base64url_encode h +:+ "." +:+ base64url_encode p). eexists. split; [done|]. unfold verifyAccessToken.
    assert (split_on "."%char (input +:+ "." +:+ base64url_encode (hmac key (utf8_encode input)))
      = [base64url_encode h; base64url_encode p; base64url_encode (hmac key (utf8_encode input))]) as ->.
    { unfold input at 1. rewrite sapp_assoc. apply (split_token h p). }
    destruct (claims_read c) as [C1 C2]. rewrite Ph, Pp. cbn [mbind option_bind]. rewrite C1, C2, decodeBase64UrlBytes_encode.
    replace (is_jwt_header header_value) with true by done. cbn [negb orb mbind option_bind]. fold input. rewrite String.eqb_refl.
    by destruct (iss c =s base_href cfg), (aud c =s mcp_href cfg).
  - intros token c' (header & payload & sig & H1 & H2 & H3 & H4 & _)%accepted_signature. by exists header, payload, sig.
Qed.
(** The claims in the parts of a token are those that were signed as these parts. *)
Lemma signed_parts token header payload sig c p c' : split_on "."%char token = [header; payload; sig] ->
  parse_part payload = Some p -> owner_claims p = Some c -> signing_input c' = Some (header +:+ "." +:+ payload) -> c' = c.
Proof using JL JRL JIL.
  intros Hs Hp Hc. destruct (encoded_read _ same_header) as (h & Eh & _). destruct (encoded_read _ (same_claims c')) as (b & Eb & Pb).
  unfold signing_input. rewrite Eh, Eb. cbn [mbind option_bind]. intros [= Ei].
  assert (has_char "."%char header = false /\ has_char "."%char payload = false) as [H1 H2].
  { split; apply (split_on_no_sep "."%char token); rewrite Hs; [by left|right; by left]. }
  apply (f_equal (split_on "."%char)) in Ei. change ("." +:+ payload) with (String "."%char payload) in Ei.
  rewrite (split_on_app "."%char header payload H1), (split_on_plain _ _ H2) in Ei.
  change ("." +:+ base64url_encode b) with (String "."%char (base64url_encode b)) in Ei.
  rewrite (split_on_app "."%char), split_on_plain in Ei by apply base64url_no_dot. injection Ei as _ <-.
  rewrite Pb in Hp. injection Hp as <-. destruct (claims_read c') as [_ E]. congruence.
Qed.
End Access.

(** *** Whom the edge authenticates *)
Section Principal.
Context `{JN : JsNumber} {JL : JsNumberLaws JN} {JR : JsNumberRead JN} {JRL : JsNumberReadLaws JN JR} {JI : JsInteger JN} {JIL : JsIntegerLaws JN JI}.
Context (sha256 : string -> string) (hmac : string -> string -> string) (new_URL : string -> option Url) (cfg : EdgeOwnerOAuthConfig).
Context (digest_length : forall t, String.length (sha256 t) = 32%nat).
Notation hash_of := (sha256Base64Url sha256).
Notation approved := (approved sha256 cfg).
Notation owner_key := (owner_key hmac cfg).

(** The token is a text and its signature, by a key of this server. *)
Definition signed_text (h : History) (input token : string) : Prop :=
  exists header payload sig key, split_on "."%char token = [header; payload; sig] /\ input = header +:+ "." +:+ payload
    /\ owner_key h key /\ decodeBase64UrlBytes sig = Some (hmac key (utf8_encode input)).
(** The server made the signature, of claims for the grant. *)
Definition issued (h : History) (token : string) (r : RefreshTokenRecord) (c : OwnerAccessClaims) : Prop :=
  exists input, signed_text h input token /\ signing_input c = Some input /\ c ∈ signed h /\ carries cfg c r.
(** Somebody else made it: the server never signed this text. *)
Definition forged (h : History) (token : string) : Prop :=
  exists input, signed_text h input token /\ forall c, c ∈ signed h -> signing_input c <> Some input.

Lemma signed_or_forged h key token c : owner_key h key -> verifyAccessToken hmac cfg (Some key) token = Some c ->
  forged h token \/ exists input, signed_text h input token /\ signing_input c = Some input /\ c ∈ signed h.
Proof using JL JRL JIL.
  intros Hk (header & payload & sig & Es & Hsig & _ & _ & p & Hp & Hc)%accepted_signature. set (input := header +:+ "." +:+ payload) in *.
  assert (Ht : signed_text h input token) by by exists header, payload, sig, key.
  destruct (decide (Exists (fun c' => signing_input c' = Some input) (signed h))) as [(c' & Hc' & Hi)%Exists_exists | Hn].
  - right. exists input. by rewrite <- (signed_parts token header payload sig c p c' Es Hp Hc Hi).
  - left. exists input. split; [done|]. intros c' Hc' Hi. apply Hn, Exists_exists. by exists c'.
Qed.
Lemma approved_in_config v r : Core sha256 hmac cfg (store v) (history v) -> approved (history v) r -> in_config cfg (r_clientId r) (r_resource r) (r_scopes r).
Proof.
  intros C [(k & rec & t & H & _ & E1 & E2 & E3) | (l & s & e & H & He & E1 & E2 & E3)].
  - destruct (c_consents _ _ _ _ _ C _ H) as [_ [Hm Hs]]. cbn in Hm, Hs. split; [congruence|]. intros x Hx. by apply Hs, E3.
  - destruct (c_bootstraps _ _ _ _ _ C _ H e He) as [Hm Hs]. split; [congruence|]. intros x Hx. by apply Hs, E3.
Qed.

(** [safety] Whom the edge authenticates.  In whatever order requests arrive and go on, a request is only answered with
    a principal that has the required scope and stands for a grant of the owner: a consent for this client that was
    given with the owner's credential (or a grant brought from the earlier state), on this resource, with at most the
    scopes of the consent, all of them configured.  The token that was presented is one the server signed for this grant
    and that has not expired, or one whose hash was brought from the earlier state; or else the token is forged: it
    carries the HMAC, by the server's key, of a text that the server never signed.  The configured scopes have no white
    space, as the list in a token is separated by it. *)
Theorem owner_principal_justified v n token claims random now p (Hr : reachable sha256 hmac new_URL cfg v)
    (Hn : works v !! n = Some (Authenticating token claims))
    (Hp : works (step sha256 hmac new_URL cfg (Continue n random now) v) !! n = Some (Answered (principal p)))
    (Hplain : Forall (fun s => plain s = true) (cfg_scopes cfg)) :
  ownerScope p = Some "owner" /\ required_scope cfg ∈ EdgeProtocol.scopes p
  /\ (forged (history v) token
      \/ exists r, approved (history v) r /\ r_resource r = mcp_href cfg /\ r_scopes r ⊆ cfg_scopes cfg
           /\ subject p = "owner:" +:+ r_clientId r /\ EdgeProtocol.scopes p ⊆ r_scopes r
           /\ ((exists c, issued (history v) token r c /\ seconds now < exp c)
               \/ (brought (history v) (hash_of token) r /\ seconds now < r_expiresAt r))).
Proof using digest_length JL JRL JIL.
  pose proof (reachable_keyed _ _ _ _ digest_length v Hr) as [_ Hck]. apply oauth_reachable_inv in Hr as [C W]; [|exact digest_length].
  assert (Ht : checked hmac cfg (history v) (Authenticating token claims)) by (by eapply Forall_lookup_1).
  cbn [OwnerOAuth.step] in Hp. rewrite Hn in Hp. cbn [OwnerOAuth.continue] in Hp. rewrite (surjective_pairing (authenticated _ _ _ _ _ _)) in Hp.
  cbn [works set_works] in Hp. rewrite list_lookup_insert_eq in Hp; [injection Hp as Hp|].
  - revert Hp. unfold authenticated. destruct claims as [c|].
    + destruct (Z.ltb_spec (seconds now) (exp c)) as [Hexp|]; [|done]. destruct (negb _); [done|]. destruct (negb (includes _ _)) eqn:Ei; [done|]. intros [= <-]. cbn.
      apply negb_false_iff, includes_spec in Ei. split_and!; [done|done|]. destruct Ht as (key & Hk & Hv).
      destruct (signed_or_forged _ _ _ _ Hk Hv) as [Hf | (input & Hi & Hs & Hc)]; [by left|right].
      destruct (c_signed _ _ _ _ _ C c Hc) as (r & Hap & Hcr). destruct (approved_in_config v r C Hap) as [H1 H2]. pose proof Hcr as (_ & _ & Hsub & _ & Hsc).
      assert (Hpl : Forall (fun s => plain s = true) (r_scopes r)).
      { apply Forall_forall. intros s Hs'. by apply (proj1 (Forall_forall _ _) Hplain), H2. }
      exists r. split_and!; try done; [intros s; by rewrite Hsc, parseScopes_join|]. left. exists c. split; [|done]. by exists input.
    + destruct (jm_get _ _) as [r|] eqn:Er; [|done]. destruct (_ || negb (_ =s _)) eqn:El; [done|]. destruct (negb (includes _ _)) eqn:Ei; [done|]. intros [= <-]. cbn.
      apply negb_false_iff, includes_spec in Ei. apply orb_false_iff in El as [El _]. apply Z.leb_gt in El.
      split_and!; try done. right. pose proof (c_legacy _ _ _ _ _ C _ _ Er) as Hb. pose proof (brought_approved sha256 cfg _ _ _ Hb) as Hap.
      exists r. destruct (approved_in_config v r C Hap). split_and!; try done. by right.
  - rewrite (proj2 (proj2 (proj2 (keeps_authenticated _ _ _ token claims now v C (Forall_lookup_1 _ _ _ _ W Hn))))). by apply lookup_lt_Some in Hn.
Qed.
End Principal.

(** *** The page: no text that a request or a client supplies opens a tag or ends an attribute. *)
Definition inert (c : ascii) : bool := negb (has_char c (String DQ (String SQ "<>"))).
Lemma replaced_forall (f : ascii -> bool) c t v :
  sforall f t = true -> sforall (fun d => f d || (d =c c)) v = true -> sforall f (replace_with c t v) = true.
Proof.
  intros Ht. induction v as [|d v IH]; [done|]. rewrite sforall_cons. intros [Hd Hv]%andb_true_iff. cbn [replace_with].
  rewrite sforall_app, IH, andb_true_r by done. destruct (Ascii.eqb_spec d c); [done|]. rewrite orb_false_r in Hd. unfold str1. by rewrite sforall_cons, Hd.
Qed.
Lemma htmlEscape_inert v : sforall inert (htmlEscape v) = true.
Proof.
  unfold htmlEscape. repeat (apply replaced_forall; [done|]). induction v as [|c v IH]; [done|]. rewrite sforall_cons, IH, andb_true_r. clear IH.
  unfold inert, has_char. cbn [sexists]. destruct (c =c DQ), (c =c SQ), (c =c "<"%char), (c =c ">"%char); cbn; by rewrite ?orb_true_r.
Qed.

(** *** A run *)
Module Trial.
Definition pad (s : string) : string := stake 32 (s +:+ "................................").
Definition sha256 (s : string) : string := pad s.
Definition hmac (key input : string) : string := pad (stake 16 key +:+ sdrop (String.length input - 16) input).
Definition local_url : Url := mkUrl "http:" "localhost" "http://localhost" "/cb" EmptyString EmptyString EmptyString EmptyString.
Definition new_URL (s : string) : option Url := if startsWith s "http://localhost" then Some local_url else None.
Definition secret : string := "correct horse battery staple".
Definition cfg : EdgeOwnerOAuthConfig := mkOwnerConfig (Some secret) local_url "https://edge.example/" "https://edge.example/mcp"
  "/.well-known/oauth-protected-resource/mcp" ["mcp:tools"; "files"] 3600 86400 "MCP".
Lemma digest_length t : String.length (sha256 t) = 32%nat.
Proof.
  unfold sha256, pad. enough (forall n s, (n <= String.length s)%nat -> String.length (stake n s) = n) as H.
  { apply H. induction t as [|c t IH]; [by vm_compute|]. cbn [String.append String.length]. lia. }
  intros n. induction n as [|n IH]; intros [|c s] Hs; cbn in *; [done|done|lia|]. rewrite IH; lia.
Qed.
Notation step := (step (JN := whole_numbers) sha256 hmac new_URL cfg).
Notation run := (run (JN := whole_numbers) sha256 hmac new_URL cfg).
Notation hash_of := (sha256Base64Url sha256).
Definition registration : value := VObject true [("redirect_uris", VArray [VString "http://localhost/cb"])].
Definition verifier : string := "a verifier of the client".
Definition grant_fields : params := [("client_id", "mcp-1"); ("redirect_uri", "http://localhost/cb"); ("resource", "https://edge.example/mcp")].
Definition ask : params := grant_fields ++ [("response_type", "code"); ("code_challenge_method", "S256"); ("code_challenge", hash_of verifier);
  ("scope", "mcp:tools"); ("owner_token", secret)].
Definition exchange_fields : params := grant_fields ++ [("grant_type", "authorization_code"); ("code", "code-c"); ("code_verifier", verifier)].
Definition refresh_fields : params := [("client_id", "mcp-1"); ("grant_type", "refresh_token"); ("refresh_token", "refresh-r")].
(** A client registers, the owner consents, and the client exchanges the code; then it refreshes the token. *)
Definition opening : list Step := [Arrive (to_register (Some registration)) "1" 0; Arrive (to_authorize true ask) EmptyString 0; Continue 1 "c" 0].
Definition exchanging : list Step := [Arrive (to_token exchange_fields) EmptyString 0; Continue 2 EmptyString 0; Continue 2 "j1" 0; Continue 2 "r" 0].
Definition granted : Server := run (opening ++ exchanging) fresh.
Definition access : string := match works granted !! 2%nat with Some (Answered (tokens a _ _ _)) => a | _ => EmptyString end.
Definition asked : Server := run [Arrive (to_authenticate (Some ("Bearer " +:+ access))) EmptyString 0] granted.
Definition claims : OwnerAccessClaims := mkClaims "https://edge.example/" "https://edge.example/mcp" "owner:mcp-1" "mcp:tools" "mcp-1" 0 3600 "j1".
Definition caller : AuthenticatedEdgePrincipal := mkPrincipal "owner:mcp-1" ["mcp:tools"] (Some "owner").
(** The claims of a token that is accepted are the ones it carries, whatever the key. *)
Lemma carried_claims key c : verifyAccessToken (JN := whole_numbers) hmac cfg (Some key) access = Some c -> c = claims.
Proof.
  intros H. assert (match split_on "."%char access with
    | [_; payload; _] => match parse_part (JN := whole_numbers) payload with Some p => owner_claims p | None => None end | _ => None end = Some claims) as E
    by (vm_compute; reflexivity).
  revert H E. unfold verifyAccessToken. destruct (split_on "."%char access) as [|header [|payload [|sig [|]]]]; try done.
  intros (h & _ & H)%bind_Some. apply bind_Some in H as (p & -> & H). intros E. destruct (_ || _); [done|].
  rewrite E in H. cbn [mbind option_bind] in H. apply bind_Some in H as (bytes & _ & H). destruct (_ || _); [done|]. congruence.
Qed.
(** What the token carries was signed here. *)
Lemma access_not_forged : ~ forged (JN := whole_numbers) hmac cfg (history asked) access.
Proof.
  intros (input & (header & payload & sig & key & Es & -> & _ & _) & H).
  assert (signing_input (JN := whole_numbers) claims = Some (match split_on "."%char access with [h; p; _] => h +:+ "." +:+ p | _ => EmptyString end)) as E
    by (vm_compute; reflexivity).
  rewrite Es in E. apply (H claims); [|exact E]. assert (signed (history asked) = [claims]) as -> by (vm_compute; reflexivity). by left.
Qed.
Lemma owner_principal_justified_witness : exists r, approved sha256 cfg (history asked) r /\ subject caller = "owner:" +:+ r_clientId r
  /\ exists c, issued (JN := whole_numbers) hmac cfg (history asked) access r c.
Proof.
  destruct (owner_principal_justified (JN := whole_numbers) sha256 hmac new_URL cfg digest_length asked 3 access (Some claims) EmptyString 0 caller)
    as (_ & _ & [Hf | (r & Hr & _ & _ & Hs & _ & [(c & Hc & _) | (Hb & _)])]).
  - unfold asked, granted. rewrite <- OwnerOAuth.run_app. apply run_reachable. constructor.
  - vm_compute. reflexivity.
  - vm_compute. reflexivity.
  - by repeat constructor.
  - by destruct (access_not_forged Hf).
  - exists r. split_and!; [done|done|by exists c].
  - destruct Hb as (l & s & Hb & _). assert (bootstraps (history asked) = []) as E by (vm_compute; reflexivity). rewrite E in Hb. destruct (not_elem_of_nil _ Hb).
Defined.
Lemma code_exchange_bound_witness : rightful sha256 (history granted) (hash_of "code-c") exchange_fields.
Proof.
  apply (code_exchange_bound (JN := whole_numbers) sha256 hmac new_URL cfg digest_length granted).
  - apply run_reachable. constructor.
  - assert (exchanged (history granted) = [(hash_of "code-c", exchange_fields)]) as -> by (vm_compute; reflexivity). by left.
Defined.
(** The refresh token is used; a second request with it is refused, since it is gone. *)
Definition refreshing (n : nat) (j r : string) : list Step := [Arrive (to_token refresh_fields) EmptyString 0; Continue n j 0; Continue n r 0].
Definition refreshed : Server := run (refreshing 3 "j2" "r2" ++ refreshing 4 "j3" "r3") granted.
Lemma later_run es v : OwnerOAuth.later (JN := whole_numbers) sha256 hmac new_URL cfg v (run es v).
Proof. revert v. induction es as [|e es IH]; intros v; [constructor|]. econstructor; [by eexists|]. apply IH. Qed.
(** The access token is revoked, and presented again. *)
Definition revoking : list Step := [Arrive (to_revoke [("token", access)]) EmptyString 0].
Definition again : list Step := [Arrive (to_authenticate (Some ("Bearer " +:+ access))) EmptyString 0].
Lemma revoked_token_refused_witness :
  works (step (Continue 4 EmptyString 0) (run ((opening ++ exchanging ++ revoking) ++ [Continue 3 EmptyString 0] ++ again) fresh)) !! 4%nat
  = Some (Answered unauthenticated).
Proof.
  apply (revoked_token_refused (JN := whole_numbers) sha256 hmac new_URL cfg digest_length (opening ++ exchanging ++ revoking) 3 access claims EmptyString 0 again 4 access).
  - vm_compute. reflexivity.
  - intros t key c Ht Hv _. assert (flat_map presented ((opening ++ exchanging ++ revoking) ++ again) = [access; access]) as E by (vm_compute; reflexivity).
    rewrite E in Ht. clear E. assert (t = access) as ->.
    { apply elem_of_cons in Ht as [?|Ht%list_elem_of_singleton]; assumption. }
    by rewrite (carried_claims _ _ Hv).
  - vm_compute. reflexivity.
  - by vm_compute.
Defined.
Lemma access_token_verifies_witness : verifyAccessToken (JN := whole_numbers) hmac cfg (Some "key") 
  (default EmptyString (signAccessToken (JN := whole_numbers) hmac "key" claims)) = Some claims.
Proof.
  destruct (access_token_verifies (JN := whole_numbers) hmac cfg "key" claims) as [(token & Et & Ev) _]. rewrite Et. cbn [from_option id]. rewrite Ev.
  vm_compute. reflexivity.
Defined.

(** Two requests with the same code that wait for the hash of the verifier at the same time both get tokens: the record is
    read before the hash and deleted after it, and what the deletion returns is not looked at. *)
Definition racing : list Step := [Arrive (to_token exchange_fields) EmptyString 0; Arrive (to_token exchange_fields) EmptyString 0;
  Continue 2 EmptyString 0; Continue 3 EmptyString 0; Continue 2 "j1" 0; Continue 3 "j2" 0; Continue 2 "r1" 0; Continue 3 "r2" 0].
Definition raced : Server := run (opening ++ racing) fresh.
Lemma code_exchanged_twice : (exchanged (history raced)).*1 = [hash_of "code-c"; hash_of "code-c"]
  /\ jm_keys (refreshes (store raced)) = [hash_of "refresh-r1"; hash_of "refresh-r2"].
Proof. split; vm_compute; reflexivity. Qed.
(** Two bootstraps that wait for the derivation of the secret at the same time both write their snapshot: whether there
    was one is asked before the derivation and not when it is written.  The second one brings a refresh token back that
    was redeemed in between, and it is redeemed again; or one that was revoked in between. *)
Definition old_fields : params := [("client_id", "old"); ("grant_type", "refresh_token"); ("refresh_token", "old-token")].
Definition snapshot1 : value := VObject true [("version", int 1); ("resourceServerUrl", VString "https://edge.example/mcp");
  ("clients", VArray [VObject true [("client_id", VString "old"); ("client_id_issued_at", int 0); ("redirect_uris", VArray [VString "http://localhost/cb"])]]);
  ("accessTokens", VArray []);
  ("refreshTokens", VArray [VObject true [("hash", VString (hash_of "old-token")); ("clientId", VString "old"); ("scopes", VArray [VString "mcp:tools"]);
     ("expiresAt", int 86400); ("resource", VString "https://edge.example/mcp")]])].
Definition overlapping (between : list Step) : list Step :=
  [Arrive (to_bootstrap snapshot1 secret) EmptyString 0; Arrive (to_bootstrap snapshot1 secret) EmptyString 0; Continue 0 EmptyString 0]
  ++ between ++ [Continue 1 EmptyString 0].
Definition reusing (n : nat) (j r : string) : list Step := [Arrive (to_token old_fields) EmptyString 0; Continue n j 0; Continue n r 0].
Definition revoking_old : list Step := [Arrive (to_revoke [("token", "old-token")]) EmptyString 0; Continue 2 EmptyString 0].
Lemma bootstraps_overlap :
  redeemed (history (run (overlapping (reusing 2 "j1" "r1") ++ reusing 3 "j2" "r2") fresh)) = [hash_of "old-token"; hash_of "old-token"]
  /\ let v := run (overlapping revoking_old) fresh in works v !! 2%nat = Some (Answered empty_ok) /\ held (hash_of "old-token") v = 1%nat.
Proof. split; [|cbv zeta; split]; vm_compute; reflexivity. Qed.
(** A server that has no secret yet is asked with something of the form of a token; after the bootstrap it cannot sign. *)
Definition cfg0 : EdgeOwnerOAuthConfig := mkOwnerConfig None local_url "https://edge.example/" "https://edge.example/mcp"
  "/.well-known/oauth-protected-resource/mcp" ["mcp:tools"; "files"] 3600 86400 "MCP".
Definition snapshot0 : value := VObject true [("version", int 1); ("resourceServerUrl", VString "https://edge.example/mcp");
  ("clients", VArray []); ("accessTokens", VArray []); ("refreshTokens", VArray [])].
Definition early : list Step := [Arrive (to_authenticate (Some ("Bearer " +:+ access))) EmptyString 0; Arrive (to_bootstrap snapshot0 secret) EmptyString 0; Continue 1 EmptyString 0].
Definition late : list Step := [Arrive (to_register (Some registration)) "1" 0; Arrive (to_authorize true ask) EmptyString 0; Continue 3 "c" 0;
  Arrive (to_token exchange_fields) EmptyString 0; Continue 4 EmptyString 0; Continue 4 "j1" 0].
Lemma early_token_blocks_signing :
  let v := OwnerOAuth.run (JN := whole_numbers) sha256 hmac new_URL cfg0 (early ++ late) fresh in
  bootstrapped (store v) = true /\ works v !! 4%nat = Some (Answered failed) /\ codes (store v) = [].
Proof. split_and!; vm_compute; reflexivity. Qed.
End Trial.

(** *** External tokens: the check of [jose] decides first; then the subject, its expiry, the list of subjects and the scope. *)
Lemma external_principal_exact jwtVerify config h p :
  external_authenticate jwtVerify config h = inl p <->
  exists token payload sub, readBearerToken h = Some token /\ jwtVerify token = Some payload /\ pl_sub payload = Some sub
    /\ sub <> EmptyString /\ pl_has_exp payload = true /\ sub ∈ allowedSubjects config
    /\ requiredScope config ∈ parse_scopes_value (pl_scope payload) /\ p = mkPrincipal sub (parse_scopes_value (pl_scope payload)) None.
Proof.
  unfold external_authenticate. destruct (readBearerToken h) as [token|]; [|naive_solver].
  destruct (jwtVerify token) as [payload|] eqn:Ev; [|split; [done|naive_solver]].
  assert (forall s : string, sempty s = true <-> s = EmptyString) as He by (intros []; cbn; split; congruence).
  destruct (pl_sub payload) as [sub|] eqn:Es; cbn [from_option id].
  - destruct (sempty sub) eqn:Hs; [apply He in Hs; split; [done|naive_solver]|].
    assert (sub <> EmptyString) by (intros ->; done).
    destruct (pl_has_exp payload) eqn:Hx; cbn [orb negb]; [|split; [done|naive_solver]].
    destruct (includes (allowedSubjects config) sub) eqn:Ha; [apply includes_spec in Ha|apply includes_false in Ha; split; [done|naive_solver]].
    cbn [negb]. destruct (includes _ (requiredScope config)) eqn:Hr; [apply includes_spec in Hr|apply includes_false in Hr; split; [done|naive_solver]].
    cbn [negb]. split; [intros [= <-]; by exists token, payload, sub|naive_solver].
  - cbn [sempty orb]. split; [done|naive_solver].
Qed.
End OwnerOAuth.
