(* ===== verification/FileText.v ===== *)
(** Text files: services/workspace-agent/src/filesystem/text-file.ts, text-encoding.ts and service.ts.

    [readFile] gives lines of a file, [patchFile] replaces texts in a file that has not changed since it was read, and
    writes it back in its encoding and with its line ends; [writeFile] writes a whole file.  A [Disk] maps the absolute
    paths of files to their bytes; what a write of the file system does is an input ([WriteIO]).  The decoders of the
    runtime ([TextDecoder]), [iconv] and SHA-256 are parameters.  Listing and searching are in Discovery. *)
From stdpp Require Import pretty.
From S2P Require Import Prelude Errors JsString NodeEnv Policy JsBuffer PathSecurity.
Open Scope string_scope.
Open Scope list_scope.
Open Scope Z_scope.

Module FileText.

(** *** text-encoding.ts *)
Inductive TextEncoding := utf_8 | utf_16le | utf_16be | windows_1252 | latin1.
#[export] Instance TextEncoding_eq_dec : EqDecision TextEncoding.
Proof. solve_decision. Defined.
Definition BOM_UTF8 : string := String "239" (String "187" (String "191" EmptyString)).
Definition BOM_UTF16LE : string := String "255" (String "254" EmptyString).
Definition BOM_UTF16BE : string := String "254" (String "255" EmptyString).

Section Decoding.
(** [new TextDecoder("utf-8", { fatal: true })], which throws, and the others, which do not. *)
Context (utf8Strict : string -> option string) (decodeWith : TextEncoding -> string -> string).
(** The [catch] after windows-1252 is never reached, since that decoder does not throw. *)
Definition decodeBufferToText (buffer : string) : string * TextEncoding :=
  if startsWith buffer BOM_UTF8 then (decodeWith utf_8 (sdrop 3 buffer), utf_8)
  else if startsWith buffer BOM_UTF16LE then (decodeWith utf_16le (sdrop 2 buffer), utf_16le)
  else if startsWith buffer BOM_UTF16BE then (decodeWith utf_16be (sdrop 2 buffer), utf_16be)
  else match utf8Strict buffer with
       | Some text => (text, utf_8)
       | None => (decodeWith windows_1252 buffer, windows_1252)
       end.
End Decoding.

(** *** text-file.ts: line ends *)
Inductive LineEnding := le_lf | le_crlf | le_cr | le_mixed | le_none.
#[export] Instance LineEnding_eq_dec : EqDecision LineEnding.
Proof. solve_decision. Defined.
(** [(text.match(/\r\n/g) ?? []).length] and [text.replace(/\r\n/g, "")]. *)
Fixpoint count_crlf (s : string) : nat :=
  match s with
  | EmptyString => 0
  | String c s' =>
      match s' with
      | String d s'' => if (c =c CR) && (d =c LF) then S (count_crlf s'') else count_crlf s'
      | EmptyString => 0
      end
  end.
Fixpoint remove_crlf (s : string) : string :=
  match s with
  | EmptyString => EmptyString
  | String c s' =>
      match s' with
      | String d s'' => if (c =c CR) && (d =c LF) then remove_crlf s'' else String c (remove_crlf s')
      | EmptyString => s
      end
  end.
Fixpoint count_char (c : ascii) (s : string) : nat :=
  match s with EmptyString => 0 | String d s' => (if d =c c then 1 else 0) + count_char c s' end.
Definition detectLineEnding (text : string) : LineEnding :=
  let crlf := (0 <? count_crlf text)%nat in
  let withoutCrlf := remove_crlf text in
  let lf := (0 <? count_char LF withoutCrlf)%nat in
  let cr := (0 <? count_char CR withoutCrlf)%nat in
  let kinds := (Nat.b2n crlf + Nat.b2n lf + Nat.b2n cr)%nat in
  if (kinds =? 0)%nat then le_none
  else if (1 <? kinds)%nat then le_mixed
  else if crlf then le_crlf else if lf then le_lf else le_cr.

(** [value.replace(/\r\n|\r|\n/g, "\n")] and [normalized.replace(/\n/g, "\r\n")]. *)
Fixpoint to_lf (s : string) : string :=
  match s with
  | EmptyString => EmptyString
  | String c s' =>
      if c =c CR then
        match s' with
        | String d s'' => if d =c LF then String LF (to_lf s'') else String LF (to_lf s')
        | EmptyString => str1 LF
        end
      else String c (to_lf s')
  end.
Fixpoint lf_to_crlf (s : string) : string :=
  match s with
  | EmptyString => EmptyString
  | String c s' => if c =c LF then String CR (String LF (lf_to_crlf s')) else String c (lf_to_crlf s')
  end.
Definition normalizeReplacementLineEndings (value : string) (lineEnding : LineEnding) : string :=
  match lineEnding with
  | le_mixed | le_none => value
  | le_crlf => lf_to_crlf (to_lf value)
  | le_cr => replace_char LF CR (to_lf value)
  | le_lf => to_lf value
  end.

(** *** Occurrences *)
(** [s.indexOf(needle)]. *)
Fixpoint indexOf (needle s : string) : option nat :=
  if startsWith s needle then Some 0%nat
  else match s with EmptyString => None | String _ s' => S <$> indexOf needle s' end.
Definition indexOf_from (needle s : string) (offset : nat) : option nat := Nat.add offset <$> indexOf needle (sdrop offset s).
(** The loop of [countOccurrences]; it does not end when [needle] is empty, which is [None]. *)
Fixpoint count_loop (fuel : nat) (value needle : string) (offset count : nat) : option nat :=
  match fuel with
  | O => None
  | S fuel' =>
      if (offset + String.length needle <=? String.length value)%nat then
        match indexOf_from needle value offset with
        | None => Some count
        | Some index => count_loop fuel' value needle (index + String.length needle) (S count)
        end
      else Some count
  end.
Definition countOccurrences (value needle : string) : option nat := count_loop (S (String.length value)) value needle 0 0.
(** [s.split(sep)] for a separator that is not empty. *)
Fixpoint split_loop (fuel : nat) (sep s : string) : list string :=
  match fuel with
  | O => [s]
  | S fuel' =>
      match indexOf sep s with
      | None => [s]
      | Some i => stake i s :: split_loop fuel' sep (sdrop (i + String.length sep) s)
      end
  end.
Definition split_text (sep s : string) : list string := split_loop (String.length s) sep s.

(** *** Reading *)
Record TextFileContents := mkContents {
  text : string;
  sizeBytes : Z;
  tf_sha256 : string;
  encoding : TextEncoding;
  lineEnding : LineEnding;
  bom : string;
}.
Notation Disk := (gmap string string).
Definition hasUtf16Bom (buffer : string) : bool := startsWith buffer BOM_UTF16LE || startsWith buffer BOM_UTF16BE.
Definition readBom (buffer : string) : string :=
  if startsWith buffer BOM_UTF8 then BOM_UTF8
  else if startsWith buffer BOM_UTF16LE then BOM_UTF16LE
  else if startsWith buffer BOM_UTF16BE then BOM_UTF16BE else EmptyString.
Definition byteLength (buffer : string) : Z := Z.of_nat (String.length buffer).
Definition readTextBuffer (disk : Disk) (absolutePath : string) (maxFileBytes : Z) : result exn string :=
  match disk !! absolutePath with
  | None => Err (Native "ENOENT")
  | Some buffer =>
      if maxFileBytes <? byteLength buffer then throw FILE_TOO_LARGE "File exceeds the configured size limit."
      else if has_char NUL buffer && negb (hasUtf16Bom buffer) then throw BINARY_FILE "Binary files are not supported."
      else Ok buffer
  end.

(** *** Writing *)
(** What the calls of the file system do: the random part of the name of the temporary file, whether the directory could be
    made, what the write left when it failed, whether the rename and the removal succeeded. *)
Inductive WriteOutcome := wrote | write_failed (partial : option string).
Record WriteIO := mkIO { io_suffix : string; io_mkdir : bool; io_write : WriteOutcome; io_rename : bool; io_unlink : bool }.

Section Writing.
Context {P : NodePath} (path_join : string -> string -> string).
Definition tempPath (absolutePath : string) (io : WriteIO) : string :=
  path_join (path_dirname absolutePath) (".vs-code-gpt-" +:+ io_suffix io +:+ ".tmp").
(** [atomicWriteBuffer], and the same steps in [writeFile]. *)
Definition atomicWriteBuffer (absolutePath content : string) (io : WriteIO) (disk : Disk) : Disk * result exn unit :=
  let temp := tempPath absolutePath io in
  let unlink (d : Disk) := if io_unlink io then delete temp d else d in
  match io_write io with
  | write_failed partial => (unlink (match partial with Some b => <[temp := b]> disk | None => disk end), Err (Native "write"))
  | wrote =>
      let d := <[temp := content]> disk in
      if io_rename io then (<[absolutePath := content]> (delete temp d), Ok tt) else (unlink d, Err (Native "rename"))
  end.
End Writing.

(** *** The file service *)
Record ReadFileInput := mkReadInput { rf_path : string; startLine : option Z; endLine : option Z }.
Record ReadFileResult := mkReadResult {
  r_path : string;
  content : string;
  r_startLine : Z;
  r_endLine : Z;
  totalLines : Z;
  r_sizeBytes : Z;
  r_sha256 : string;
  r_encoding : TextEncoding;
  r_lineEnding : LineEnding;
}.
Record Replacement := mkReplacement { oldText : string; newText : string; expectedCount : option Z }.
Record PatchFileInput := mkPatchInput {
  pf_path : string;
  expectedSha256 : string;
  replacements : list Replacement;
  dryRun : option bool;
}.
Record PatchFileResult := mkPatchResult {
  p_path : string;
  sha256Before : string;
  sha256After : string;
  p_encoding : TextEncoding;
  p_lineEnding : LineEnding;
  replacementsApplied : Z;
  p_sizeBytes : Z;
  changed : bool;
  p_dryRun : bool;
}.
Record WriteFileResult := mkWriteResult { w_path : string; w_sizeBytes : Z; created : bool }.
Record BinaryFileResult := mkBinary { b_path : string; b_content : string; b_sizeBytes : Z; b_sha256 : string }.

(** [text.split(/\r?\n/)]: never empty. *)
Fixpoint split_lines (s : string) : list string :=
  match s with
  | EmptyString => [EmptyString]
  | String c s' =>
      let more := match split_lines s' with [] => [str1 c] | w :: ws => String c w :: ws end in
      if c =c LF then EmptyString :: split_lines s'
      else match s' with
           | String d s'' => if (c =c CR) && (d =c LF) then EmptyString :: split_lines s'' else more
           | EmptyString => more
           end
  end.
(** [lines.slice(from, to)] for bounds that are not negative. *)
Definition slice {A} (from to : Z) (xs : list A) : list A := take (Z.to_nat (to - from)) (drop (Z.to_nat from) xs).
Definition select_lines (lines : list string) (input : ReadFileInput) : string * Z * Z :=
  let total := Z.of_nat (length lines) in
  let start := default 1 (startLine input) in
  let endLine := Z.min (default total (endLine input)) total in
  if total <? start then (EmptyString, start, start - 1) else (join (str1 LF) (slice (start - 1) endLine lines), start, endLine).

Section Service.
Context {P : NodePath} (glob : string -> string -> bool) (fs : FileSystem) (workspace : ResolvedWorkspace).
Context (utf8Strict : string -> option string) (decodeWith : TextEncoding -> string -> string).
Context (iconv_encode iconv_decode : TextEncoding -> string -> string) (hashBuffer : string -> string).
Context (path_join : string -> string -> string).

Definition readTextFile (disk : Disk) (absolutePath : string) (limit : Z) : result exn TextFileContents :=
  buffer ← readTextBuffer disk absolutePath limit;
  let '(decoded, enc) := decodeBufferToText utf8Strict decodeWith buffer in
  Ok (mkContents decoded (byteLength buffer) (hashBuffer buffer) enc (detectLineEnding decoded) (readBom buffer)).
Definition readSearchTextFile (disk : Disk) (absolutePath : string) (limit : Z) : result exn string :=
  buffer ← readTextBuffer disk absolutePath limit; Ok (decodeBufferToText utf8Strict decodeWith buffer).1.

Definition encoding_name (e : TextEncoding) : string :=
  match e with utf_8 => "utf-8" | utf_16le => "utf-16le" | utf_16be => "utf-16be" | windows_1252 => "windows-1252" | latin1 => "latin1" end.
Definition encodeTextPreservingFormat (text : string) (e : TextEncoding) (bom : string) : result exn string :=
  let encoded := iconv_encode e text in
  if negb (iconv_decode e encoded =s text) then
    throw INVALID_ARGUMENT ("Patched content cannot be represented safely as " +:+ encoding_name e +:+ ".")
  else Ok (bom +:+ encoded).

Definition limit : Z := maxFileBytes (ws_limits workspace).
Definition readFile (input : ReadFileInput) (disk : Disk) : result exn ReadFileResult :=
  authorized ← authorizeExisting glob fs workspace (rf_path input) (Some kind_file) false (Some "read_file");
  contents ← readTextFile disk (ap_canonicalPath authorized) limit;
  let lines := split_lines (text contents) in
  let '(selected, first, last) := select_lines lines input in
  Ok (mkReadResult (ap_logicalPath authorized) selected first last (Z.of_nat (length lines)) (sizeBytes contents)
        (tf_sha256 contents) (encoding contents) (lineEnding contents)).
(** The content is returned as base64; here as it is. *)
Definition readBinaryFile (path : string) (disk : Disk) : result exn BinaryFileResult :=
  authorized ← authorizeExisting glob fs workspace path (Some kind_file) false None;
  match disk !! ap_canonicalPath authorized with
  | None => Err (Native "ENOENT")
  | Some contents =>
      if limit <? byteLength contents then throw LIMIT_EXCEEDED "File exceeds the configured workspace file-size limit."
      else Ok (mkBinary (ap_logicalPath authorized) contents (byteLength contents) (hashBuffer contents))
  end.
Definition writeFile (path content : string) (io : WriteIO) (disk : Disk) : Disk * result exn WriteFileResult :=
  match authorizeWriteTarget glob fs workspace path with
  | Err e => (disk, Err e)
  | Ok authorized =>
      let contentBytes := Z.of_nat (utf8_length content) in
      if limit <? contentBytes then (disk, throw FILE_TOO_LARGE "File exceeds the configured size limit.")
      else if negb (io_mkdir io) then (disk, Err (Native "mkdir"))
      else match atomicWriteBuffer path_join (aw_absolutePath authorized) (utf8_encode content) io disk with
           | (disk', Err e) => (disk', Err e)
           | (disk', Ok _) => (disk', Ok (mkWriteResult (aw_logicalPath authorized) contentBytes (aw_created authorized)))
           end
  end.

(** The body of the loop over the replacements: the text and the number of replacements so far. *)
Definition replace_one (e : LineEnding) (acc : string * Z) (r : Replacement) : result exn (string * Z) :=
  let '(patched, applied) := acc in
  let old := normalizeReplacementLineEndings (oldText r) e in
  let new := normalizeReplacementLineEndings (newText r) e in
  match countOccurrences patched old with
  | None => Err (Native "no termination")
  | Some actual =>
      let expected := default 1 (expectedCount r) in
      if negb (Z.of_nat actual =? expected) then
        throw INVALID_ARGUMENT ("Replacement count mismatch: expected " +:+ pretty expected +:+ ", found " +:+ pretty (Z.of_nat actual) +:+ ".")
      else Ok (join new (split_text old patched), applied + Z.of_nat actual)
  end.
Fixpoint replace_each (e : LineEnding) (acc : string * Z) (rs : list Replacement) : result exn (string * Z) :=
  match rs with [] => Ok acc | r :: rs' => acc ← replace_one e acc r; replace_each e acc rs' end.

(** [patchFile] up to the write: the path, the bytes and the result. *)
Record PatchPlan := mkPlan { pp_path : string; pp_output : string; pp_result : PatchFileResult }.
Definition plan_patch (input : PatchFileInput) (disk : Disk) : result exn PatchPlan :=
  authorized ← authorizeWriteTarget glob fs workspace (pf_path input);
  if aw_created authorized then throw FILE_NOT_FOUND "Patch target must already exist." else
  contents ← readTextFile disk (aw_absolutePath authorized) limit;
  if negb (tf_sha256 contents =s toLowerCase (expectedSha256 input)) then
    throw INVALID_ARGUMENT "File changed after it was read; refresh the file and use its current SHA-256." else
  '(patched, applied) ← replace_each (lineEnding contents) (text contents, 0) (replacements input);
  output ← encodeTextPreservingFormat patched (encoding contents) (bom contents);
  if limit <? byteLength output then throw FILE_TOO_LARGE "Patched file exceeds the configured size limit." else
  let sha256After := hashBuffer output in
  Ok (mkPlan (aw_absolutePath authorized) output
        (mkPatchResult (aw_logicalPath authorized) (tf_sha256 contents) sha256After (encoding contents) (detectLineEnding patched)
           applied (byteLength output) (negb (sha256After =s tf_sha256 contents)) (default false (dryRun input)))).
Definition commit_patch (plan : PatchPlan) (io : WriteIO) (disk : Disk) : Disk * result exn PatchFileResult :=
  if negb (p_dryRun (pp_result plan)) && changed (pp_result plan) then
    match atomicWriteBuffer path_join (pp_path plan) (pp_output plan) io disk with
    | (disk', Ok _) => (disk', Ok (pp_result plan))
    | (disk', Err e) => (disk', Err e)
    end
  else (disk, Ok (pp_result plan)).
Definition patchFile (input : PatchFileInput) (io : WriteIO) (disk : Disk) : Disk * result exn PatchFileResult :=
  match plan_patch input disk with Err e => (disk, Err e) | Ok plan => commit_patch plan io disk end.
End Service.

(** *** Occurrences *)
Lemma text_starts_with s p : startsWith s p = true <-> exists b, s = p +:+ b.
Proof.
  unfold startsWith. revert s. induction p as [|c p IH]; intros s; cbn.
  - split; [intros _; by exists s|by destruct s].
  - destruct s as [|d s]; [split; [done|by intros [b Hb]]|]. cbn [String.prefix]. destruct (ascii_dec c d) as [->|Hn].
    + rewrite IH. split; intros [b Hb]; exists b; cbn in *; congruence.
    + split; [done|]. intros [b Hb]. cbn in Hb. congruence.
Qed.
Lemma sdrop_length n s : String.length (sdrop n s) = (String.length s - n)%nat.
Proof. revert n. induction s as [|c s IH]; intros [|n]; cbn; auto. Qed.
Lemma text_length_app a b : String.length (a +:+ b) = (String.length a + String.length b)%nat.
Proof. induction a as [|c a IH]; cbn; congruence. Qed.
(** The first place: [s] is [a], the needle and the rest, and the needle is nowhere earlier. *)
Definition first_at (needle a : string) : Prop := forall x y, a +:+ needle = x +:+ needle +:+ y -> y = EmptyString.
Lemma indexOf_some needle s i : indexOf needle s = Some i ->
  s = stake i s +:+ needle +:+ sdrop (i + String.length needle) s /\ first_at needle (stake i s) /\ (i + String.length needle <= String.length s)%nat.
Proof.
  revert i. induction s as [|c s IH]; intros i H; cbn [indexOf] in H.
  - destruct (startsWith EmptyString needle) eqn:E; [|done]. injection H as <-. apply text_starts_with in E as [b Hb]. destruct needle; [|done].
    split_and!; [done| |done]. intros [|? ?] y Hxy; cbn in Hxy; congruence.
  - destruct (startsWith (String c s) needle) eqn:E.
    + injection H as <-. apply text_starts_with in E as [b Hb]. rewrite Hb. cbn [stake Nat.add String.append]. rewrite sdrop_app, text_length_app.
      split_and!; [done| |lia]. intros x y Hxy. apply (f_equal String.length) in Hxy. rewrite !text_length_app in Hxy. destruct y; [done|]. cbn in Hxy. lia.
    + apply fmap_Some in H as (j & Hj & ->). destruct (IH j Hj) as (H1 & H2 & H3). cbn [stake Nat.add sdrop String.append String.length].
      split_and!; [by f_equal| |lia]. intros [|d x] y Hxy; cbn in Hxy.
      * exfalso. assert (Hs : exists b, String c s = needle +:+ b).
        { exists (y +:+ sdrop (j + String.length needle) s). rewrite <- sapp_assoc, <- Hxy. cbn. f_equal. rewrite sapp_assoc. exact H1. }
        apply text_starts_with in Hs. congruence.
      * injection Hxy as _ Hxy. by eapply H2.
Qed.
Lemma indexOf_none needle s : indexOf needle s = None -> forall a b, s <> a +:+ needle +:+ b.
Proof.
  induction s as [|c s IH]; cbn [indexOf]; (destruct (startsWith _ _) eqn:E; [done|]); intros H a b Hs.
  - destruct a; [|done]. assert (startsWith EmptyString needle = true) by (apply text_starts_with; by exists b). congruence.
  - destruct a as [|d a].
    + assert (startsWith (String c s) needle = true) by (apply text_starts_with; by exists b). congruence.
    + injection Hs as _ Hs. apply fmap_None in H. by eapply IH.
Qed.

Section Splitting.
Context (sep : string) (Hsep : sep <> EmptyString).
Lemma sep_length : (0 < String.length sep)%nat.
Proof using Hsep. destruct sep; [done|cbn; lia]. Qed.
Lemma split_fuel fuel fuel' s : (String.length s <= fuel)%nat -> (String.length s <= fuel')%nat -> split_loop fuel sep s = split_loop fuel' sep s.
Proof using Hsep.
  pose proof sep_length. revert fuel' s. induction fuel as [|fuel IH]; intros [|fuel'] s H1 H2; cbn; try done.
  - destruct s; [|cbn in *; lia]. destruct (indexOf sep EmptyString) eqn:E; [|done]. apply indexOf_some in E as (_ & _ & E). cbn in E. lia.
  - destruct s; [|cbn in *; lia]. destruct (indexOf sep EmptyString) eqn:E; [|done]. apply indexOf_some in E as (_ & _ & E). cbn in E. lia.
  - destruct (indexOf sep s) as [i|] eqn:E; [|done]. apply indexOf_some in E as (_ & _ & E). f_equal. apply IH; rewrite sdrop_length; lia.
Qed.
Lemma split_text_eq s : split_text sep s
  = match indexOf sep s with None => [s] | Some i => stake i s :: split_text sep (sdrop (i + String.length sep) s) end.
Proof using Hsep.
  pose proof sep_length. unfold split_text at 1. destruct (String.length s) as [|n] eqn:En.
  - cbn. destruct (indexOf sep s) eqn:E; [|done]. apply indexOf_some in E as (_ & _ & E). lia.
  - cbn. destruct (indexOf sep s) as [i|] eqn:E; [|done]. apply indexOf_some in E as (_ & _ & E). f_equal. apply split_fuel; rewrite sdrop_length; lia.
Qed.
Lemma split_text_ind (Q : string -> Prop) : (forall s, indexOf sep s = None -> Q s) ->
  (forall s i, indexOf sep s = Some i -> Q (sdrop (i + String.length sep) s) -> Q s) -> forall s, Q s.
Proof using Hsep.
  pose proof sep_length. intros H1 H2 s. remember (String.length s) as n eqn:En. revert s En. induction n as [n IH] using lt_wf_ind. intros s ->.
  destruct (indexOf sep s) as [i|] eqn:E; [|by apply H1]. apply (H2 s i E). apply indexOf_some in E as (_ & _ & E).
  eapply IH; [|reflexivity]. rewrite sdrop_length. lia.
Qed.
Lemma split_nonempty s : split_text sep s <> [].
Proof using Hsep. rewrite split_text_eq. by destruct (indexOf sep s). Qed.
Lemma sdrop_sdrop n m s : sdrop n (sdrop m s) = sdrop (m + n) s.
Proof. revert m. induction s as [|c s IH]; intros [|m]; cbn; [by destruct n..|done|apply IH]. Qed.
Lemma count_loop_split value fuel offset count : (offset <= String.length value)%nat -> (String.length value < fuel + offset)%nat ->
  count_loop fuel value sep offset count = Some (count + (length (split_text sep (sdrop offset value)) - 1))%nat.
Proof using Hsep.
  pose proof sep_length. revert offset count. induction fuel as [|fuel IH]; intros offset count Ho Hf; [lia|]. cbn [count_loop].
  rewrite split_text_eq. unfold indexOf_from. destruct (indexOf sep (sdrop offset value)) as [i|] eqn:E.
  - destruct (indexOf_some _ _ _ E) as (_ & _ & Hi). rewrite sdrop_length in Hi.
    destruct (Nat.leb_spec (offset + String.length sep) (String.length value)); [|lia]. cbn [fmap option_fmap option_map].
    rewrite IH by lia. rewrite sdrop_sdrop, Nat.add_assoc. cbn [length].
    pose proof (split_nonempty (sdrop (offset + i + String.length sep) value)) as Hn. destruct (split_text _ _); [done|]. cbn [length]. f_equal. lia.
  - cbn [length]. destruct (_ <=? _)%nat; cbn; f_equal; lia.
Qed.
End Splitting.

(** [t] is [s] with the [n] occurrences of [old], taken from the left and without overlaps, replaced by [new]. *)
Inductive replaced (old new : string) : string -> string -> nat -> Prop :=
| replaced_none s : (forall a b, s <> a +:+ old +:+ b) -> replaced old new s s 0
| replaced_next a s t n : first_at old a -> replaced old new s t n -> replaced old new (a +:+ old +:+ s) (a +:+ new +:+ t) (S n).
Lemma join_cons' sep x xs : xs <> [] -> join sep (x :: xs) = x +:+ sep +:+ join sep xs.
Proof. destruct xs; [done|]. intros _. apply join_cons. Qed.
Lemma split_join_replaced old new s : old <> EmptyString ->
  replaced old new s (join new (split_text old s)) (length (split_text old s) - 1).
Proof.
  intros Hold. pattern s. apply (split_text_ind old Hold); clear s; intros s.
  - intros E. rewrite split_text_eq by done. rewrite E. cbn. constructor. by apply indexOf_none.
  - intros i E IH. rewrite split_text_eq by done. rewrite E. destruct (indexOf_some _ _ _ E) as (Hs & Hf & _).
    rewrite join_cons' by by apply split_nonempty. rewrite Hs at 1.
    pose proof (split_nonempty old Hold (sdrop (i + String.length old) s)) as Hn. destruct (split_text old _) as [|x xs]; [done|].
    cbn [length] in *. replace (S (S (length xs)) - 1)%nat with (S (length (x :: xs) - 1)) by (cbn; lia). by constructor.
Qed.
Lemma countOccurrences_split s old : old <> EmptyString -> countOccurrences s old = Some (length (split_text old s) - 1)%nat.
Proof. intros H. unfold countOccurrences. rewrite count_loop_split by (done || lia). done. Qed.
(** With an empty text the loop of [countOccurrences] would not end; the contract refuses it. *)
Lemma empty_needle_loops fuel s : (forall o, (o <= String.length s)%nat -> forall c, count_loop fuel s EmptyString o c = None) /\ countOccurrences s EmptyString = None.
Proof.
  assert (forall f o c, (o <= String.length s)%nat -> count_loop f s EmptyString o c = None) as H; [|by split; intros; apply H; lia].
  intros f. induction f as [|f IH]; intros o c Ho; [done|]. cbn [count_loop String.length]. rewrite Nat.add_0_r.
  destruct (Nat.leb_spec o (String.length s)); [|lia]. unfold indexOf_from. assert (indexOf EmptyString (sdrop o s) = Some 0%nat) as -> by by destruct (sdrop o s).
  cbn. rewrite !Nat.add_0_r. by apply IH.
Qed.

(** *** Line ends *)
(** Every CR is followed by a LF and every LF comes after a CR. *)
Fixpoint crlf_only (s : string) : bool :=
  match s with
  | EmptyString => true
  | String c s' =>
      if c =c LF then false
      else if c =c CR then match s' with String d s'' => (d =c LF) && crlf_only s'' | EmptyString => false end
      else crlf_only s'
  end.
Definition uniform (e : LineEnding) (s : string) : bool :=
  match e with le_lf => negb (has_char CR s) | le_cr => negb (has_char LF s) | le_crlf => crlf_only s | _ => true end.
(** Induction that steps over CR LF. *)
Lemma crlf_ind (Q : string -> Prop) : Q EmptyString -> Q (str1 CR) -> (forall s, Q s -> Q (String CR (String LF s))) ->
  (forall d s, d <> LF -> Q (String d s) -> Q (String CR (String d s))) -> (forall c s, c <> CR -> Q s -> Q (String c s)) -> forall s, Q s.
Proof.
  intros H1 H2 H3 H4 H5 s. remember (String.length s) as n eqn:En. revert s En. induction n as [n IH] using lt_wf_ind. intros s ->.
  destruct s as [|c s]; [done|]. destruct (ascii_dec c CR) as [->|Hc]; [|apply H5; [done|]; eapply IH; [|done]; cbn; lia].
  destruct s as [|d s]; [done|]. destruct (ascii_dec d LF) as [->|Hd].
  - apply H3. eapply IH; [|done]. cbn. lia.
  - apply H4; [done|]. eapply IH; [|done]. cbn. lia.
Qed.
Lemma remove_crlf_cons c s : c <> CR -> remove_crlf (String c s) = String c (remove_crlf s).
Proof. intros H. cbn. destruct s; [done|]. by rewrite (proj2 (eqc_neq _ _) H). Qed.
Lemma remove_crlf_lone d s : d <> LF -> remove_crlf (String CR (String d s)) = String CR (remove_crlf (String d s)).
Proof. intros H. cbn. by rewrite (proj2 (eqc_neq _ _) H). Qed.
Lemma count_crlf_cons c s : c <> CR -> count_crlf (String c s) = count_crlf s.
Proof. intros H. destruct s; [done|]. cbn [count_crlf]. by rewrite (proj2 (eqc_neq _ _) H). Qed.
Lemma count_crlf_lone d s : d <> LF -> count_crlf (String CR (String d s)) = count_crlf (String d s).
Proof. intros H. cbn [count_crlf]. by rewrite (proj2 (eqc_neq _ _) H). Qed.
Lemma count_char_zero c s : count_char c s = 0%nat <-> has_char c s = false.
Proof.
  unfold has_char. induction s as [|d s IH]; [done|]. cbn. rewrite orb_false_iff, <- IH, (Ascii.eqb_sym c d). destruct (d =c c); cbn; lia || naive_solver.
Qed.
Lemma has_char_cons c d s : has_char c (String d s) = (c =c d) || has_char c s. Proof. done. Qed.
(** What [detectLineEnding] counts. *)
Lemma crlf_counts s :
  (crlf_only s = true <-> has_char LF (remove_crlf s) = false /\ has_char CR (remove_crlf s) = false)
  /\ (has_char CR s = false <-> count_crlf s = 0%nat /\ has_char CR (remove_crlf s) = false)
  /\ (has_char LF s = false <-> count_crlf s = 0%nat /\ has_char LF (remove_crlf s) = false).
Proof.
  induction s as [| |s (I1 & I2 & I3)|d s Hd (I1 & I2 & I3)|c s Hc (I1 & I2 & I3)] using crlf_ind.
  - split_and!; naive_solver.
  - split_and!; split; try done; intros [H1 H2]; done.
  - assert (crlf_only (String CR (String LF s)) = crlf_only s) as -> by done. assert (remove_crlf (String CR (String LF s)) = remove_crlf s) as -> by done.
    split_and!; [done|..]; (split; [done|]); intros [? ?]; done.
  - rewrite remove_crlf_lone, count_crlf_lone by done. rewrite !has_char_cons. cbn [crlf_only]. rewrite eqc_refl.
    rewrite (proj2 (eqc_neq _ _) Hd). rewrite (proj2 (eqc_neq CR LF)) by done. rewrite !has_char_cons in *. cbn [andb orb].
    split_and!; [naive_solver|naive_solver|]. rewrite (proj2 (eqc_neq LF CR)) by done. cbn [orb]. exact I3.
  - rewrite remove_crlf_cons, count_crlf_cons by done. rewrite !has_char_cons. cbn [crlf_only]. rewrite (proj2 (eqc_neq c CR) Hc), (Ascii.eqb_sym CR c), (proj2 (eqc_neq c CR) Hc).
    rewrite (Ascii.eqb_sym LF c). cbn [orb]. destruct (c =c LF); cbn [orb]; split_and!; naive_solver.
Qed.
Lemma detect_uniform s e : e = le_lf \/ e = le_crlf \/ e = le_cr -> (detectLineEnding s = e \/ detectLineEnding s = le_none) <-> uniform e s = true.
Proof.
  intros He. destruct (crlf_counts s) as (I1 & I2 & I3). unfold detectLineEnding.
  assert (forall c, (0 <? count_char c (remove_crlf s))%nat = has_char c (remove_crlf s)) as E.
  { intros c. pose proof (count_char_zero c (remove_crlf s)) as H. destruct (Nat.ltb_spec 0 (count_char c (remove_crlf s))), (has_char c (remove_crlf s)); try done; [|naive_solver lia].
    destruct H as [_ H]. rewrite H in *; [lia|done]. }
  rewrite !E. assert ((0 <? count_crlf s)%nat = true <-> count_crlf s <> 0%nat) as Hz by (rewrite Nat.ltb_lt; lia).
  destruct He as [-> | [-> | ->]]; cbn [uniform]; rewrite ?negb_true_iff, ?I1, ?I2, ?I3;
    destruct (0 <? count_crlf s)%nat, (has_char LF (remove_crlf s)), (has_char CR (remove_crlf s)); cbn; intuition (try congruence; try lia).
Qed.

Lemma crlf_only_cr d s : crlf_only (String CR (String d s)) = (d =c LF) && crlf_only s.
Proof. done. Qed.

Lemma crlf_only_app a b : crlf_only a = true -> crlf_only b = true -> crlf_only (a +:+ b) = true.
Proof.
  intros Ha Hb. revert Ha. induction a as [| |a IH|d a Hd IH|c a Hc IH] using crlf_ind; intros Ha; try done; [by apply IH| |].
  - exfalso. by rewrite crlf_only_cr, (proj2 (eqc_neq _ _) Hd) in Ha.
  - cbn [String.append crlf_only] in *. destruct (c =c LF); [done|]. rewrite (proj2 (eqc_neq _ _) Hc) in *. auto.
Qed.
Definition starts_lf (s : string) : bool := match s with String c _ => c =c LF | _ => false end.
Lemma crlf_only_split a x : starts_lf x = false -> crlf_only (a +:+ x) = true -> crlf_only a = true /\ crlf_only x = true.
Proof.
  intros Hx. induction a as [| |a IH|d a Hd IH|c a Hc IH] using crlf_ind; intros Ha; try done; [|by apply IH| |].
  - exfalso. destruct x as [|d x]; [done|]. unfold str1 in Ha. cbn [String.append] in Ha. cbn in Hx. by rewrite crlf_only_cr, Hx in Ha.
  - exfalso. cbn [String.append] in Ha. by rewrite crlf_only_cr, (proj2 (eqc_neq _ _) Hd) in Ha.
  - cbn [String.append crlf_only] in *. destruct (c =c LF); [done|]. rewrite (proj2 (eqc_neq _ _) Hc) in *. auto.
Qed.
Lemma crlf_only_drop a x : crlf_only a = true -> crlf_only (a +:+ x) = true -> crlf_only x = true.
Proof.
  induction a as [| |a IH|d a Hd IH|c a Hc IH] using crlf_ind; intros H Ha; try done; [by apply IH| |].
  - exfalso. by rewrite crlf_only_cr, (proj2 (eqc_neq _ _) Hd) in H.
  - cbn [String.append crlf_only] in *. destruct (c =c LF); [done|]. rewrite (proj2 (eqc_neq _ _) Hc) in *. auto.
Qed.
Lemma crlf_only_start s : crlf_only s = true -> starts_lf s = false.
Proof. destruct s as [|c s]; [done|]. cbn. by destruct (c =c LF). Qed.
Lemma has_char_app c a b : has_char c (a +:+ b) = has_char c a || has_char c b.
Proof. unfold has_char. induction a as [|d a IH]; [done|]. cbn. by rewrite IH, orb_assoc. Qed.

Definition one_kind (e : LineEnding) : Prop := e = le_lf \/ e = le_crlf \/ e = le_cr.
Lemma uniform_app e a b : one_kind e -> uniform e a = true -> uniform e b = true -> uniform e (a +:+ b) = true.
Proof.
  intros [-> | [-> | ->]]; cbn; [|by apply crlf_only_app|]; rewrite has_char_app; by destruct (has_char _ a), (has_char _ b).
Qed.
Lemma uniform_parts e a old s : one_kind e -> uniform e old = true -> old <> EmptyString -> uniform e (a +:+ old +:+ s) = true ->
  uniform e a = true /\ uniform e s = true.
Proof.
  intros [-> | [-> | ->]] Ho Hne; cbn in *; [|intros H|]; [|
    destruct old as [|c old]; [done|]; apply crlf_only_split in H as [H1 H2]; [|exact (crlf_only_start _ Ho)]; split; [done|]; by apply crlf_only_drop in H2|];
    rewrite !has_char_app; by destruct (has_char _ a), (has_char _ old), (has_char _ s).
Qed.
Lemma to_lf_no_cr v : has_char CR (to_lf v) = false.
Proof.
  induction v as [| |v IH|d v Hd IH|c v Hc IH] using crlf_ind; [done|done|done| |].
  - change (to_lf (String CR (String d v))) with (if d =c LF then String LF (to_lf v) else String LF (to_lf (String d v))).
    by rewrite (proj2 (eqc_neq _ _) Hd), has_char_cons.
  - cbn [to_lf]. rewrite (proj2 (eqc_neq _ _) Hc), has_char_cons, IH, orb_false_r. by apply eqc_neq.
Qed.
Lemma lf_to_crlf_only v : has_char CR v = false -> crlf_only (lf_to_crlf v) = true.
Proof.
  induction v as [|c v IH]; [done|]. rewrite has_char_cons, orb_false_iff. intros [Hc%eqc_neq Hv]. cbn [lf_to_crlf]. destruct (c =c LF) eqn:E.
  - by apply IH.
  - cbn [crlf_only]. rewrite E, (proj2 (eqc_neq c CR)) by congruence. by apply IH.
Qed.
Lemma lf_to_cr v : has_char LF (replace_char LF CR v) = false.
Proof.
  unfold replace_char. induction v as [|c v IH]; [done|]. cbn [smap]. rewrite has_char_cons, IH, orb_false_r. destruct (c =c LF) eqn:E; [done|].
  apply eqc_neq in E. apply eqc_neq. congruence.
Qed.
Lemma normalized_uniform v e : one_kind e -> uniform e (normalizeReplacementLineEndings v e) = true.
Proof.
  intros [-> | [-> | ->]]; cbn [uniform normalizeReplacementLineEndings]; [by rewrite to_lf_no_cr|apply lf_to_crlf_only, to_lf_no_cr|by rewrite lf_to_cr].
Qed.
Lemma normalized_nonempty v e : v <> EmptyString -> normalizeReplacementLineEndings v e <> EmptyString.
Proof.
  assert (to_lf v = EmptyString -> v = EmptyString) as H.
  { destruct v as [|c v]; [done|]. cbn. destruct (c =c CR); [|done]. destruct v as [|d v]; [done|]. by destruct (d =c LF). }
  intros Hv. destruct e; cbn; try done; [tauto| |]; destruct (to_lf v) as [|c t] eqn:E; try tauto; cbn; [by destruct (c =c LF)|done].
Qed.
Lemma replaced_uniform e old new s t n : one_kind e -> uniform e old = true -> old <> EmptyString -> uniform e new = true ->
  replaced old new s t n -> uniform e s = true -> uniform e t = true.
Proof.
  intros He Ho Hne Hn H. induction H as [s Hs|a s t n Hf Hr IH]; intros Hu; [done|].
  apply uniform_parts in Hu as [Ha Hs]; try done. apply uniform_app; [done|done|]. apply uniform_app; auto.
Qed.

Lemma replace_one_ok e t k r t' k' : oldText r <> EmptyString -> replace_one e (t, k) r = Ok (t', k') ->
  exists n, replaced (normalizeReplacementLineEndings (oldText r) e) (normalizeReplacementLineEndings (newText r) e) t t' n
    /\ Z.of_nat n = default 1 (expectedCount r) /\ k' = k + Z.of_nat n.
Proof.
  intros Ho. pose proof (normalized_nonempty _ e Ho) as Hn. unfold replace_one. rewrite countOccurrences_split by done.
  destruct (negb _) eqn:E; [done|]. intros [= <- <-]. apply negb_false_iff, Z.eqb_eq in E.
  eexists. split; [by apply split_join_replaced|]. by rewrite E.
Qed.
(** The edits of a patch, one replacement after the other. *)
Inductive edited (e : LineEnding) : list Replacement -> string -> string -> Z -> Prop :=
| edited_nil t : edited e [] t t 0
| edited_cons r rs t u v n k : replaced (normalizeReplacementLineEndings (oldText r) e) (normalizeReplacementLineEndings (newText r) e) t u n ->
    Z.of_nat n = default 1 (expectedCount r) -> edited e rs u v k -> edited e (r :: rs) t v (Z.of_nat n + k).
Lemma replace_each_ok e rs t k t' k' : Forall (fun r => oldText r <> EmptyString) rs -> replace_each e (t, k) rs = Ok (t', k') ->
  exists m, edited e rs t t' m /\ k' = k + m.
Proof.
  intros H. revert t k. induction H as [|r rs Hr H IH]; intros t k E; cbn in E.
  - injection E as <- <-. exists 0. split; [constructor|lia].
  - apply bind_ok in E as ([u j] & E1 & E2). apply replace_one_ok in E1 as (n & Hn & He & ->); [|done].
    apply IH in E2 as (m & Hm & ->). exists (Z.of_nat n + m). split; [by econstructor|lia].
Qed.
Lemma edited_uniform e rs t t' m : one_kind e -> Forall (fun r => oldText r <> EmptyString) rs -> edited e rs t t' m ->
  uniform e t = true -> uniform e t' = true.
Proof.
  intros He Hr H. induction H as [t|r rs t u v n k H1 H2 H3 IH]; intros Hu; [done|]. apply Forall_cons in Hr as [Ho Hr]. apply IH; [done|].
  exact (replaced_uniform e _ _ _ _ _ He (normalized_uniform _ e He) (normalized_nonempty _ e Ho) (normalized_uniform _ e He) H1 Hu).
Qed.

(** *** Writing *)
Section Written.
Context {P : NodePath} (path_join : string -> string -> string).
(** A write replaces the file by the whole new content or leaves it; other files stay, but for the temporary file. *)
Lemma atomic_write path content io disk disk' r : atomicWriteBuffer path_join path content io disk = (disk', r) ->
  path <> tempPath path_join path io ->
  match r with
  | Ok _ => disk' = <[path := content]> (delete (tempPath path_join path io) disk)
  | Err _ => forall p, p <> tempPath path_join path io -> disk' !! p = disk !! p
  end.
Proof.
  unfold atomicWriteBuffer. set (temp := tempPath path_join path io). intros H Hne. destruct (io_write io) as [|partial]; [destruct (io_rename io)|];
    injection H as <- <-; [by rewrite delete_insert_eq|intros p Hp..].
  - destruct (io_unlink io); by rewrite ?lookup_delete_ne, ?lookup_insert_ne.
  - destruct partial, (io_unlink io); by rewrite ?lookup_delete_ne, ?lookup_insert_ne.
Qed.
End Written.

Section Services.
Context {P : NodePath} (glob : string -> string -> bool) (fs : FileSystem) (workspace : ResolvedWorkspace).
Context (utf8Strict : string -> option string) (decodeWith : TextEncoding -> string -> string).
Context (iconv_encode iconv_decode : TextEncoding -> string -> string) (hashBuffer : string -> string).
Context (path_join : string -> string -> string).
Notation patchFile := (patchFile glob fs workspace utf8Strict decodeWith iconv_encode iconv_decode hashBuffer path_join).
Notation plan_patch := (plan_patch glob fs workspace utf8Strict decodeWith iconv_encode iconv_decode hashBuffer).
Notation decoded := (decodeBufferToText utf8Strict decodeWith).
Notation limit := (limit workspace).

(** What a patch that is planned rests on. *)
Record Patched (input : PatchFileInput) (disk : Disk) (w : AuthorizedWritePath) (before after patched : string) (n : Z) : Prop := mkPatched {
  pd_authorized : authorizeWriteTarget glob fs workspace (pf_path input) = Ok w;
  pd_exists : aw_created w = false;
  pd_before : disk !! aw_absolutePath w = Some before;
  pd_size : byteLength before <= limit;
  pd_text : has_char NUL before = false \/ hasUtf16Bom before = true;
  pd_hash : hashBuffer before = toLowerCase (expectedSha256 input);
  pd_edited : edited (detectLineEnding (decoded before).1) (replacements input) (decoded before).1 patched n;
  pd_after : after = readBom before +:+ iconv_encode (decoded before).2 patched;
  pd_encodes : iconv_decode (decoded before).2 (iconv_encode (decoded before).2 patched) = patched;
  pd_limit : byteLength after <= limit;
}.
Definition patch_result (input : PatchFileInput) (w : AuthorizedWritePath) (before after patched : string) (n : Z) : PatchFileResult :=
  mkPatchResult (aw_logicalPath w) (hashBuffer before) (hashBuffer after) (decoded before).2 (detectLineEnding patched) n (byteLength after)
    (negb (hashBuffer after =s hashBuffer before)) (default false (dryRun input)).
Lemma plan_patch_ok input disk plan : Forall (fun r => oldText r <> EmptyString) (replacements input) -> plan_patch input disk = Ok plan ->
  exists w before after patched n, Patched input disk w before after patched n
    /\ plan = mkPlan (aw_absolutePath w) after (patch_result input w before after patched n).
Proof.
  intros Hr. unfold FileText.plan_patch. intros (w & Ew & H)%bind_ok. destruct (aw_created w) eqn:Ec; [done|].
  apply bind_ok in H as (contents & Hc & H). unfold readTextFile, readTextBuffer in Hc.
  apply bind_ok in Hc as (before & Hb & Hc). destruct (disk !! aw_absolutePath w) as [b|] eqn:Ed; [|done].
  destruct (Z.ltb_spec limit (byteLength b)); [done|]. destruct (has_char NUL b && negb (hasUtf16Bom b)) eqn:Et; [done|]. injection Hb as <-.
  rewrite (surjective_pairing (decoded b)) in Hc. injection Hc as <-. cbn [tf_sha256 text encoding bom FileText.lineEnding] in H.
  destruct (negb (hashBuffer b =s _)) eqn:Eh; [done|]. apply negb_false_iff, String.eqb_eq in Eh.
  apply bind_ok in H as ([patched n] & He & H). apply replace_each_ok in He as (m & He & Em); [|done]. apply bind_ok in H as (output & Ho & H).
  unfold encodeTextPreservingFormat in Ho. destruct (negb (_ =s patched)) eqn:Er; [done|]. injection Ho as <-. apply negb_false_iff, String.eqb_eq in Er.
  destruct (Z.ltb_spec limit (byteLength (readBom b +:+ iconv_encode (decoded b).2 patched))); [done|]. injection H as <-.
  replace (0 + m) with m in Em by lia. subst n. exists w, b, (readBom b +:+ iconv_encode (decoded b).2 patched), patched, m. split; [|done].
  constructor; try done. apply andb_false_iff in Et as [?|?%negb_false_iff]; auto.
Qed.

(** [functional] A patch that succeeds was made on the content the caller knows: the file existed, had the expected digest,
    was a text within the limit; every replacement occurred exactly as often as expected, in the text left by the ones before
    it, and all its occurrences (from the left, without overlaps) were replaced; the new text can be written in the encoding
    of the file and is within the limit.  Then, and unless it is a dry run or changes nothing, the file has the new
    content and no other file changes.  A patch that fails changes nothing but its temporary file. *)
Theorem patch_replaces_exactly input io disk disk' result
    (Hr : Forall (fun r => oldText r <> EmptyString) (replacements input)) (Hp : patchFile input io disk = (disk', result))
    (Ht : forall w, authorizeWriteTarget glob fs workspace (pf_path input) = Ok w -> aw_absolutePath w <> tempPath path_join (aw_absolutePath w) io) :
  match result with
  | Ok r => exists w before after patched n, Patched input disk w before after patched n
      /\ r = patch_result input w before after patched n
      /\ disk' = if negb (default false (dryRun input)) && negb (hashBuffer after =s hashBuffer before)
                 then <[aw_absolutePath w := after]> (delete (tempPath path_join (aw_absolutePath w) io) disk) else disk
  | Err _ => disk' = disk \/ exists w, authorizeWriteTarget glob fs workspace (pf_path input) = Ok w
      /\ forall p, p <> tempPath path_join (aw_absolutePath w) io -> disk' !! p = disk !! p
  end.
Proof.
  unfold FileText.patchFile in Hp. destruct (plan_patch input disk) as [plan|e] eqn:Ep; [|injection Hp as <- <-; by left].
  apply plan_patch_ok in Ep as (w & before & after & patched & n & Hpd & ->); [|done]. unfold commit_patch in Hp. cbn [pp_path pp_output pp_result] in Hp.
  assert (changed (patch_result input w before after patched n) = negb (hashBuffer after =s hashBuffer before)) as E1 by done.
  assert (p_dryRun (patch_result input w before after patched n) = default false (dryRun input)) as E2 by done. rewrite E1, E2 in Hp.
  destruct (negb (default false (dryRun input)) && negb (hashBuffer after =s hashBuffer before)) eqn:Ec.
  - destruct (atomicWriteBuffer path_join (aw_absolutePath w) after io disk) as [d o] eqn:Ea.
    apply atomic_write in Ea; [|by apply Ht, (pd_authorized _ _ _ _ _ _ _ Hpd)]. destruct o as [u|e]; injection Hp as <- <-.
    + exists w, before, after, patched, n. rewrite Ec. done.
    + right. exists w. split; [apply (pd_authorized _ _ _ _ _ _ _ Hpd)|done].
  - injection Hp as <- <-. exists w, before, after, patched, n. rewrite Ec. done.
Qed.

(** [invariant] A patch keeps the line ends of a file: if all of them are of one kind, all line ends of the patched text are of
    this kind (or there are none left), whatever line ends the replacements are written with. *)
Theorem patch_keeps_line_ends input io disk disk' r (Hr : Forall (fun r => oldText r <> EmptyString) (replacements input))
    (Hp : patchFile input io disk = (disk', Ok r)) :
  exists w before after patched n, Patched input disk w before after patched n /\ p_lineEnding r = detectLineEnding patched
    /\ (let e := detectLineEnding (decoded before).1 in one_kind e -> p_lineEnding r = e \/ p_lineEnding r = le_none).
Proof.
  unfold FileText.patchFile in Hp. destruct (plan_patch input disk) as [plan|e] eqn:Ep; [|done].
  apply plan_patch_ok in Ep as (w & before & after & patched & n & Hpd & ->); [|done].
  assert (r = patch_result input w before after patched n) as ->.
  { unfold commit_patch in Hp. cbn [pp_path pp_output pp_result] in Hp. destruct (_ && _); [|congruence].
    destruct (atomicWriteBuffer _ _ _ _ _) as [d [u|e]]; congruence. }
  exists w, before, after, patched, n. split_and!; [done|done|]. intros e He. apply (detect_uniform patched e He).
  eapply edited_uniform; [done|exact Hr|exact (pd_edited _ _ _ _ _ _ _ Hpd)|]. apply (detect_uniform _ e He). by left.
Qed.
End Services.

(** *** Reading by ranges *)
Fixpoint crlf_to_lf (s : string) : string :=
  match s with
  | EmptyString => EmptyString
  | String c s' =>
      match s' with
      | String d s'' => if (c =c CR) && (d =c LF) then String LF (crlf_to_lf s'') else String c (crlf_to_lf s')
      | EmptyString => s
      end
  end.
Lemma split_lines_nonempty s : split_lines s <> [].
Proof. destruct s as [|c s]; [done|]. cbn. repeat case_match; done. Qed.
Lemma split_lines_cons c s : c <> CR -> split_lines (String c s) =
  if c =c LF then EmptyString :: split_lines s else match split_lines s with [] => [str1 c] | w :: ws => String c w :: ws end.
Proof. intros H. cbn [split_lines]. destruct (c =c LF); [done|]. destruct s; [done|]. by rewrite (proj2 (eqc_neq _ _) H). Qed.
Lemma split_lines_lone d s : d <> LF -> split_lines (String CR (String d s)) =
  match split_lines (String d s) with [] => [str1 CR] | w :: ws => String CR w :: ws end.
Proof. intros H. cbn [split_lines]. by rewrite (proj2 (eqc_neq d LF) H). Qed.
Lemma crlf_to_lf_cons c s : c <> CR -> crlf_to_lf (String c s) = String c (crlf_to_lf s).
Proof. intros H. cbn. destruct s; [done|]. by rewrite (proj2 (eqc_neq _ _) H). Qed.
Lemma crlf_to_lf_lone d s : d <> LF -> crlf_to_lf (String CR (String d s)) = String CR (crlf_to_lf (String d s)).
Proof. intros H. cbn. by rewrite (proj2 (eqc_neq _ _) H). Qed.
Lemma join_head sep c w ws : join sep (String c w :: ws) = String c (join sep (w :: ws)).
Proof. by destruct ws. Qed.
Lemma join_empty ws : ws <> [] -> join (str1 LF) (EmptyString :: ws) = String LF (join (str1 LF) ws).
Proof. by destruct ws. Qed.
Lemma join_split_lines s : join (str1 LF) (split_lines s) = crlf_to_lf s.
Proof.
  induction s as [| |s IH|d s Hd IH|c s Hc IH] using crlf_ind; [done|done| | |].
  - change (split_lines (String CR (String LF s))) with (EmptyString :: split_lines s). rewrite join_empty by apply split_lines_nonempty.
    change (crlf_to_lf (String CR (String LF s))) with (String LF (crlf_to_lf s)). by rewrite IH.
  - rewrite split_lines_lone, crlf_to_lf_lone, <- IH by done. pose proof (split_lines_nonempty (String d s)) as Hn.
    destruct (split_lines (String d s)); [done|]. apply join_head.
  - rewrite split_lines_cons, crlf_to_lf_cons by done. pose proof (split_lines_nonempty s) as Hn. destruct (c =c LF) eqn:E.
    + apply eqc_eq in E as ->. by rewrite join_empty, IH.
    + rewrite <- IH. destruct (split_lines s); [done|]. apply join_head.
Qed.
Lemma join_lines_app sep xs ys : xs <> [] -> ys <> [] -> join sep (xs ++ ys) = join sep xs +:+ sep +:+ join sep ys.
Proof.
  induction xs as [|x xs IH]; [done|]. intros _ Hy. destruct xs as [|x' xs]; [by apply join_cons'|].
  change ((x :: x' :: xs) ++ ys) with (x :: (x' :: xs) ++ ys). rewrite join_cons' by done. rewrite IH by done. rewrite join_cons. by rewrite !sapp_assoc.
Qed.
(** [functional] A file can be read in parts: reading the lines up to [k] and then the lines after [k] gives, joined by a line
    feed, what reading the whole file gives; and that is the text of the file with a line feed for every CR LF. *)
Theorem reading_by_ranges t k (Hk : 1 <= k < Z.of_nat (length (split_lines t))) :
  let select start last := (select_lines (split_lines t) (mkReadInput EmptyString start last)).1.1 in
  select (Some 1) (Some k) +:+ str1 LF +:+ select (Some (k + 1)) None = select None None /\ select None None = crlf_to_lf t.
Proof.
  cbv zeta. unfold select_lines. cbn [startLine endLine from_option id]. rewrite <- join_split_lines. set (lines := split_lines t) in *.
  set (total := Z.of_nat (length lines)) in *. destruct (Z.ltb_spec total 1); [lia|]. destruct (Z.ltb_spec total (k + 1)); [lia|]. cbn [fst].
  rewrite !Z.min_l by lia. unfold slice. replace (k + 1 - 1) with k by lia. change (Z.to_nat (1 - 1)) with 0%nat. rewrite !Z.sub_0_r, drop_0.
  assert (take (Z.to_nat total) lines = lines) as E by (unfold total; rewrite Nat2Z.id; apply take_ge; lia).
  assert (take (Z.to_nat (total - k)) (drop (Z.to_nat k) lines) = drop (Z.to_nat k) lines) as E'.
  { apply take_ge. rewrite length_drop. lia. }
  rewrite E, E'. split; [|done]. rewrite <- join_lines_app, take_drop; [done|intros H1; apply (f_equal length) in H1; rewrite ?length_take, ?length_drop in H1; cbn in H1; lia..].
Qed.

(** *** A file of Windows, patched *)
Module Trial.
Definition P : NodePath := Demo.posix.
Definition ws : ResolvedWorkspace := Demo.workspace standard.
Definition path_join (a b : string) : string := a +:+ "/" +:+ b.
Definition decodeWith (e : TextEncoding) (b : string) : string := match e with utf_8 => default EmptyString (utf8_decode b) | _ => b end.
Definition encode (e : TextEncoding) (t : string) : string := match e with utf_8 => utf8_encode t | _ => t end.
Definition hash (s : string) : string := s.
Definition crlf : string := String CR (str1 LF).
Definition before : string := "let a = 1;" +:+ crlf +:+ "let b = 1;" +:+ crlf.
Definition disk : Disk := <["/srv/ws/src/a.ts" := before]> ∅.
Definition edit : PatchFileInput := mkPatchInput "src/a.ts" before [mkReplacement "1;" (str1 LF +:+ "2;") (Some 2); mkReplacement "let a" "let c" None] None.
Definition io : WriteIO := mkIO "00" true wrote true true.
Definition after : string := "let c = " +:+ crlf +:+ "2;" +:+ crlf +:+ "let b = " +:+ crlf +:+ "2;" +:+ crlf.
Notation patchFile := (patchFile (P := P) Demo.glob Demo.fs ws utf8_decode decodeWith encode decodeWith hash path_join).
Lemma nonempty : Forall (fun r => oldText r <> EmptyString) (replacements edit).
Proof. by repeat constructor. Qed.
Definition result : Disk * result exn PatchFileResult := patchFile edit io disk.
Definition target : AuthorizedWritePath := mkAuthorizedWrite "src/a.ts" "/srv/ws/src/a.ts" false.
Lemma authorized : authorizeWriteTarget (P := P) Demo.glob Demo.fs ws "src/a.ts" = Ok target.
Proof. by vm_compute. Qed.
Lemma patch_replaces_exactly_witness : exists w b a t n,
  Patched (P := P) Demo.glob Demo.fs ws utf8_decode decodeWith encode decodeWith hash edit disk w b a t n /\ result.1 !! "/srv/ws/src/a.ts" = Some after.
Proof.
  pose proof (patch_replaces_exactly (P := P) Demo.glob Demo.fs ws utf8_decode decodeWith encode decodeWith hash path_join edit io disk result.1 result.2
    nonempty (surjective_pairing result)) as H.
  assert (is_ok result.2 = true) as Hok by (vm_compute; reflexivity). destruct result.2 as [r|e]; [|done].
  destruct H as (w & b & a & t & n & H & _).
  - intros w Hw. change (pf_path edit) with "src/a.ts" in Hw. rewrite authorized in Hw. injection Hw as <-. by vm_compute.
  - exists w, b, a, t, n. split; [exact H|]. vm_compute. reflexivity.
Defined.
Lemma patch_keeps_line_ends_witness : match result.2 with Ok r => p_lineEnding r = le_crlf | Err _ => False end.
Proof.
  assert (is_ok result.2 = true) as Hok by (vm_compute; reflexivity). destruct result.2 as [r|e] eqn:Er; [|done].
  destruct (patch_keeps_line_ends (P := P) Demo.glob Demo.fs ws utf8_decode decodeWith encode decodeWith hash path_join edit io disk result.1 r nonempty)
    as (w & b & a & t & n & Hp & El & H).
  - change (result = (result.1, Ok r)). rewrite <- Er. apply surjective_pairing.
  - pose proof (pd_authorized _ _ _ _ _ _ _ _ _ _ _ _ _ _ _ Hp) as Hw. change (pf_path edit) with "src/a.ts" in Hw. rewrite authorized in Hw. injection Hw as <-.
    pose proof (pd_before _ _ _ _ _ _ _ _ _ _ _ _ _ _ _ Hp) as Hb. change (Some before = Some b) in Hb. injection Hb as <-.
    assert (match result.2 with Ok r => p_lineEnding r <> le_none | Err _ => False end) as Hn by (vm_compute; discriminate).
    rewrite Er in Hn. assert (detectLineEnding (decodeBufferToText utf8_decode decodeWith before).1 = le_crlf) as E by (vm_compute; reflexivity).
    rewrite E in H. destruct H as [-> | H]; [by right; left|done|done].
Defined.
Lemma reading_by_ranges_witness :
  let select start last := (select_lines (split_lines before) (mkReadInput EmptyString start last)).1.1 in
  select (Some 1) (Some 2) +:+ str1 LF +:+ select (Some 3) None = select None None.
Proof. apply (reading_by_ranges before 2). by vm_compute. Defined.

(** A file that is not UTF-8 is read as windows-1252; patched, its bytes may be UTF-8 by chance, and then it is read as a
    different text.  Here an e with an acute accent becomes two characters whose bytes are its UTF-8 form. *)
Definition e_acute : string := str1 "233".
Definition disk1 : Disk := <["/srv/ws/src/a.ts" := e_acute]> ∅.
Definition two : string := String "195" (str1 "169").
Definition edit1 : PatchFileInput := mkPatchInput "src/a.ts" e_acute [mkReplacement e_acute two None] None.
Lemma encoding_not_kept : match patchFile edit1 io disk1 with
  | (d, Ok r) => p_encoding r = windows_1252 /\ d !! "/srv/ws/src/a.ts" = Some two /\ decodeBufferToText utf8_decode decodeWith two = (e_acute, utf_8)
  | _ => False
  end.
Proof. vm_compute. repeat split; reflexivity. Qed.
(** Two patches of the same content that are both planned before either is written both succeed; the first one is lost. *)
Notation plan_patch := (plan_patch (P := P) Demo.glob Demo.fs ws utf8_decode decodeWith encode decodeWith hash).
Definition edit2 (old new : string) : PatchFileInput := mkPatchInput "src/a.ts" before [mkReplacement old new None] None.
Definition both : option string :=
  match plan_patch (edit2 "let a" "let x") disk, plan_patch (edit2 "let b" "let y") disk with
  | Ok p, Ok q => let '(d, _) := commit_patch (P := P) path_join p io disk in (commit_patch (P := P) path_join q io d).1 !! "/srv/ws/src/a.ts"
  | _, _ => None
  end.
Lemma concurrent_patch_lost : both = Some ("let a = 1;" +:+ crlf +:+ "let y = 1;" +:+ crlf).
Proof. vm_compute. reflexivity. Qed.
End Trial.
End FileText.
