(* ===== verification/Discovery.v ===== *)
(** Finding files: services/workspace-agent/src/filesystem/discovery.ts and search.ts, with [listFiles],
    [listWorkspaceRoots] and [searchFiles] of service.ts.

    Discovery walks the allowed roots of a workspace (or one requested root) within a budget of directories, entries
    and time.  [Discovery] is what the walk keeps; a directory is a list of entries ([opendir]).  Each reading of the clock and
    each look at the abort signal is an input, by its number.  [collectAuthorizedFiles] has one unit of fuel for each
    directory of the budget and one more, which the budget makes enough.  A search looks at the files in order; the files
    of a batch are read together, which does not change the result. *)
From S2P Require Import Prelude Errors JsString JsMap JsSort NodeEnv Policy PathSecurity FileText.
Import FileText.
Open Scope string_scope.
Open Scope list_scope.
Open Scope Z_scope.

Module Discovery.

(** *** Data *)
Record FileCandidate := mkCandidate { logicalPath : string; absolutePath : string }.
Definition MAX_DISCOVERY_DIRECTORIES : Z := 4096.
Definition MAX_DISCOVERY_ENTRIES : Z := 50000.
Definition MAX_DISCOVERY_DURATION_MS : Z := 15000.
Definition IMPLICIT_OPERATIONAL_DIRECTORIES : list string := [".runtime-tools"; "releases"; "runtime"].
(** An entry of a directory: what [isDirectory], [isFile] and [isSymbolicLink] say. *)
Inductive EntryKind := a_directory | a_file | a_link | another.
#[export] Instance EntryKind_eq_dec : EqDecision EntryKind.
Proof. solve_decision. Defined.
Record Entry := mkEntry { e_name : string; e_kind : EntryKind }.
(** The files found, [truncated] and the budget; [reads] and [looks] count the readings of the clock and the looks at the
    signal. *)
Record Discovery := mkDiscovery {
  files : jsmap FileCandidate;
  truncated : bool;
  directoriesVisited : Z;
  entriesScanned : Z;
  deadlineAt : Z;
  exhausted : bool;
  reads : nat;
  looks : nat;
}.
Definition with_files (f : jsmap FileCandidate) (s : Discovery) : Discovery :=
  mkDiscovery f (truncated s) (directoriesVisited s) (entriesScanned s) (deadlineAt s) (exhausted s) (reads s) (looks s).
Definition truncate (s : Discovery) : Discovery :=
  mkDiscovery (files s) true (directoriesVisited s) (entriesScanned s) (deadlineAt s) (exhausted s) (reads s) (looks s).
Definition visit (s : Discovery) : Discovery :=
  mkDiscovery (files s) (truncated s) (directoriesVisited s + 1) (entriesScanned s) (deadlineAt s) (exhausted s) (reads s) (looks s).
Definition count_entry (s : Discovery) : Discovery :=
  mkDiscovery (files s) (truncated s) (directoriesVisited s) (entriesScanned s + 1) (deadlineAt s) (exhausted s) (reads s) (looks s).
Definition exhaust (s : Discovery) : Discovery :=
  mkDiscovery (files s) (truncated s) (directoriesVisited s) (entriesScanned s) (deadlineAt s) true (reads s) (looks s).
Definition start_budget (at_ : Z) (s : Discovery) : Discovery :=
  mkDiscovery (files s) (truncated s) 0 0 at_ false (reads s) (looks s).
Definition read_clock (s : Discovery) : Discovery :=
  mkDiscovery (files s) (truncated s) (directoriesVisited s) (entriesScanned s) (deadlineAt s) (exhausted s) (S (reads s)) (looks s).
Definition look (s : Discovery) : Discovery :=
  mkDiscovery (files s) (truncated s) (directoriesVisited s) (entriesScanned s) (deadlineAt s) (exhausted s) (reads s) (S (looks s)).
Definition initial : Discovery := mkDiscovery [] false 0 0 0 false 0 0.
Definition change (f : Discovery -> Discovery) : stm Discovery unit := fun s => (f s, Ok tt).

(** [path.posix.normalize(p) === "."]: a relative path without a final separator that comes back to where it starts. *)
Fixpoint norm_relative (acc : list string) (ws : list string) : list string :=
  match ws with
  | [] => acc
  | w :: ws' =>
      if sempty w || (w =s ".") then norm_relative acc ws'
      else if w =s ".." then
        norm_relative (match acc with x :: acc' => if x =s ".." then ".." :: acc else acc' | [] => [".."] end) ws'
      else norm_relative (w :: acc) ws'
  end.
Definition normalizes_to_dot (p : string) : bool :=
  negb (posix_isAbsolute p) && negb (endsWith p "/") && match norm_relative [] (split_on SLASH p) with [] => true | _ => false end.
Definition normalizeRequestedRoot (root : option string) : option string :=
  match root with
  | None => None
  | Some r => if normalizes_to_dot (replace_char BSL SLASH r) then None else Some r
  end.

Section Walking.
Context {P : NodePath} (glob : string -> string -> bool) (fs : FileSystem) (workspace : ResolvedWorkspace).
Context (path_join : string -> string -> string) (opendir : string -> option (list Entry)) (localeCompare : string -> string -> Z).
Context (clock : nat -> Z) (aborts : nat -> bool) (signal : option AbortSignal).
Notation authorizeLogical p := (authorizeLogical glob workspace p false None).
Notation isBlocked := (isBlocked glob workspace).
Notation isSubtreeBlocked := (isSubtreeBlocked glob workspace).

Definition normalizeDirectoryName (name : string) : string := if isWindows then toLowerCase name else name.
Definition throwIfAborted : stm Discovery unit :=
  fun s => (look s, if bool_decide (is_Some signal) && aborts (looks s) then Err (abortSignalError signal "File discovery was cancelled.") else Ok tt).
Definition now : stm Discovery Z := fun s => (read_clock s, Ok (clock (reads s))).
Definition maxDirectories : Z := default MAX_DISCOVERY_DIRECTORIES (maxDiscoveryDirectories (ws_limits workspace)).
Definition maxEntries : Z := default MAX_DISCOVERY_ENTRIES (maxDiscoveryEntries (ws_limits workspace)).
Definition createDiscoveryBudget : stm Discovery unit :=
  t ← now; change (start_budget (t + default MAX_DISCOVERY_DURATION_MS (maxDiscoveryDurationMs (ws_limits workspace)))).
Definition discoveryDeadlineReached : stm Discovery bool :=
  t ← now; s ← st_get; if t <? deadlineAt s then st_ok false else change exhaust ≫= fun _ => st_ok true.

(** The loop of [readDirectoryEntriesBounded]; [rest] is what [directory.read()] still gives. *)
Fixpoint read_entries (rest acc : list Entry) : stm Discovery (list Entry) :=
  throwIfAborted ≫= fun _ =>
  over ← discoveryDeadlineReached;
  if (over : bool) then st_ok acc else
  s ← st_get;
  if maxEntries <=? entriesScanned s then change exhaust ≫= fun _ => st_ok acc else
  throwIfAborted ≫= fun _ =>
  match rest with
  | [] => st_ok acc
  | e :: rest' => change count_entry ≫= fun _ => read_entries rest' (acc ++ [e])
  end.
Definition by_name (a b : Entry) : Z := localeCompare (e_name a) (e_name b).
Definition readDirectoryEntriesBounded (absoluteDirectory : string) : stm Discovery (list Entry) :=
  throwIfAborted ≫= fun _ =>
  s ← st_get;
  if maxEntries <=? entriesScanned s then change exhaust ≫= fun _ => st_ok [] else
  match opendir absoluteDirectory with
  | None => st_lift (Err (Native "opendir"))
  | Some entries => es ← read_entries entries []; st_ok (js_sort by_name es)
  end.

(** [error instanceof AppError && ["BLOCKED_PATH", "PATH_OUTSIDE_ALLOWED_ROOTS"].includes(error.code)] *)
Definition skipped_error (e : exn) : bool := exn_has_code BLOCKED_PATH e || exn_has_code PATH_OUTSIDE_ALLOWED_ROOTS e.
Definition child (logicalDirectory name : string) : string := if logicalDirectory =s "." then name else logicalDirectory +:+ "/" +:+ name.

Section Collecting.
(** The test of the requested glob, if there is one. *)
Context (globMatcher : option (string -> bool)).
Definition addFile (c : FileCandidate) : stm Discovery bool :=
  s ← st_get;
  if negb (match globMatcher with Some m => m (logicalPath c) | None => true end) then st_ok true
  else if jm_has (files s) (logicalPath c) then st_ok true
  else if maxListedFiles (ws_limits workspace) <=? Z.of_nat (jm_size (files s)) then change truncate ≫= fun _ => st_ok false
  else change (with_files (jm_set (files s) (logicalPath c) c)) ≫= fun _ => st_ok true.

Context (skipImplicitOperationalDirectories : bool).
(** The loop over the entries; [walk] is the call for a subdirectory.  [false] ends the walk. *)
Fixpoint walk_entries (walk : string -> string -> stm Discovery bool) (absoluteDirectory logicalDirectory : string) (entries : list Entry) :
    stm Discovery bool :=
  match entries with
  | [] => s ← st_get; st_ok (negb (exhausted s))
  | entry :: rest =>
      throwIfAborted ≫= fun _ =>
      over ← discoveryDeadlineReached;
      if (over : bool) then st_ok false else
      let path := child logicalDirectory (e_name entry) in
      let is_dir := bool_decide (e_kind entry = a_directory) in
      let continue := walk_entries walk absoluteDirectory logicalDirectory rest in
      if skipImplicitOperationalDirectories && (logicalDirectory =s ".") && is_dir
         && includes IMPLICIT_OPERATIONAL_DIRECTORIES (normalizeDirectoryName (e_name entry)) then continue
      else if is_dir && isSubtreeBlocked path then continue
      else match authorizeLogical path with
      | Err e => if skipped_error e then continue else st_lift (Err e)
      | Ok _ =>
          if bool_decide (e_kind entry = a_link) then continue else
          let absolute := path_join absoluteDirectory (e_name entry) in
          if is_dir then
            s ← st_get;
            if exhausted s then continue else
            shouldContinue ← walk absolute path;
            if negb shouldContinue then st_ok false else continue
          else if bool_decide (e_kind entry = a_file) then
            added ← addFile (mkCandidate path absolute);
            if negb added then st_ok false else continue
          else continue
      end
  end.
Definition OUT_OF_FUEL : exn := Native "out of fuel".
Fixpoint walkDirectory (fuel : nat) (absoluteDirectory logicalDirectory : string) : stm Discovery bool :=
  match fuel with
  | O => st_lift (Err OUT_OF_FUEL)
  | S fuel' =>
      throwIfAborted ≫= fun _ =>
      over ← discoveryDeadlineReached;
      if (over : bool) then st_ok false else
      s ← st_get;
      if maxDirectories <=? directoriesVisited s then change exhaust ≫= fun _ => st_ok false else
      change visit ≫= fun _ =>
      entries ← readDirectoryEntriesBounded absoluteDirectory;
      walk_entries (walkDirectory fuel') absoluteDirectory logicalDirectory entries
  end.
Definition FUEL : nat := S (Z.to_nat maxDirectories).
(** The loop over the roots. *)
Fixpoint scan_roots (roots : list ResolvedAllowedRoot) : stm Discovery unit :=
  match roots with
  | [] => st_ok tt
  | root :: rest =>
      throwIfAborted ≫= fun _ =>
      over ← discoveryDeadlineReached;
      if (over : bool) then change truncate else
      match ar_kind root with
      | kind_file =>
          (if negb (isBlocked (ar_logicalPath root)) then addFile (mkCandidate (ar_logicalPath root) (ar_canonicalPath root)) else st_ok true) ≫= fun _ =>
          scan_roots rest
      | kind_directory =>
          match fs_is_symlink fs (ar_absolutePath root) with
          | None => st_lift (Err (Native "lstat"))
          | Some link =>
              throwIfAborted ≫= fun _ =>
              if (link : bool) then scan_roots rest else
              shouldContinue ← walkDirectory FUEL (ar_absolutePath root) (ar_logicalPath root);
              if negb shouldContinue then change truncate else scan_roots rest
          end
      end
  end.
End Collecting.

Definition resolveRequestedScanRoot (requestedRoot : string) : result exn ResolvedAllowedRoot :=
  a ← authorizeExisting glob fs workspace requestedRoot None true None;
  Ok (mkRoot (ap_logicalPath a) (ap_absolutePath a) (ap_canonicalPath a) (ap_kind a)).
Definition scanRoots (requestedRoot : option string) : result exn (list ResolvedAllowedRoot) :=
  match requestedRoot with Some r => x ← resolveRequestedScanRoot r; Ok [x] | None => Ok (ws_allowedRoots workspace) end.
Definition by_path (a b : FileCandidate) : Z := localeCompare (logicalPath a) (logicalPath b).
Definition aggregate_error : exn := app_error INVALID_ARGUMENT
  ("Workspace " +:+ str1 DQ +:+ ws_id workspace +:+ str1 DQ +:+ " is aggregate. Recursive discovery requires a concrete root returned by list_workspace_roots.").
Definition collectAuthorizedFiles (root : option string) (matcher : option (string -> bool)) : stm Discovery (list FileCandidate * bool) :=
  throwIfAborted ≫= fun _ =>
  let requestedRoot := normalizeRequestedRoot root in
  if bool_decide (ws_workspaceKind workspace = Some aggregate) && negb (bool_decide (is_Some requestedRoot)) then st_lift (Err aggregate_error) else
  createDiscoveryBudget ≫= fun _ =>
  roots ← st_lift (scanRoots requestedRoot);
  throwIfAborted ≫= fun _ =>
  scan_roots matcher (negb (bool_decide (is_Some requestedRoot))) roots ≫= fun _ =>
  throwIfAborted ≫= fun _ =>
  s ← st_get;
  st_ok (js_sort by_path (jm_values (files s)), truncated s || exhausted s).

(** The loop of [listAuthorizedWorkspaceRoots]. *)
Fixpoint list_roots (entries : list Entry) (roots : list string) : stm Discovery (list string * bool) :=
  match entries with
  | [] => st_ok (roots, false)
  | entry :: rest =>
      throwIfAborted ≫= fun _ =>
      over ← discoveryDeadlineReached;
      if (over : bool) then st_ok (roots, true)
      else if negb (bool_decide (e_kind entry = a_directory)) then list_roots rest roots
      else if includes IMPLICIT_OPERATIONAL_DIRECTORIES (normalizeDirectoryName (e_name entry)) then list_roots rest roots
      else if isSubtreeBlocked (e_name entry) then list_roots rest roots
      else match authorizeLogical (e_name entry) with
      | Err e => if skipped_error e then list_roots rest roots else st_lift (Err e)
      | Ok _ =>
          if maxListedFiles (ws_limits workspace) <=? Z.of_nat (length roots) then st_ok (roots, true)
          else list_roots rest (roots ++ [e_name entry])
      end
  end.
Definition listAuthorizedWorkspaceRoots : stm Discovery (list string * bool) :=
  throwIfAborted ≫= fun _ =>
  createDiscoveryBudget ≫= fun _ =>
  entries ← readDirectoryEntriesBounded (ws_canonicalRootPath workspace);
  s ← st_get;
  '(roots, stopped) ← list_roots entries [];
  st_ok (js_sort localeCompare roots, exhausted s || stopped).
(** [listFiles]. *)
Definition listFiles (root : option string) (matcher : option (string -> bool)) : stm Discovery (list string * bool) :=
  '(found, truncated) ← collectAuthorizedFiles root matcher; st_ok (map logicalPath found, truncated).
End Walking.

(** *** search.ts *)
Record SearchMatch := mkMatch { m_path : string; m_line : Z; m_column : Z; m_snippet : string }.
Record FileSearchResult := mkFileResult { fr_matches : list SearchMatch; fr_skipped : bool; fr_more : bool }.
Record SearchFilesResult := mkSearchResult { s_matches : list SearchMatch; s_truncated : bool; skippedFiles : Z }.
Definition SEARCH_FILE_CONCURRENCY : nat := 8.
Definition bytes (s : string) : Z := Z.of_nat (utf8_length s).
(** The loop of [truncateUtf8]. *)
Fixpoint take_bytes (value : string) (used maxBytes : Z) : string :=
  match value with
  | EmptyString => EmptyString
  | String c rest =>
      let characterBytes := bytes (str1 c) in
      if maxBytes <? used + characterBytes then EmptyString else String c (take_bytes rest (used + characterBytes) maxBytes)
  end.
Definition truncateUtf8 (value : string) (maxBytes : Z) : string := if bytes value <=? maxBytes then value else take_bytes value 0 maxBytes.

Section Searching.
Context (workspace : ResolvedWorkspace) (utf8Strict : string -> option string) (decodeWith : TextEncoding -> string -> string) (disk : Disk).
Context (query : string) (caseSensitive : bool).
Notation limits := (ws_limits workspace).
Definition folded (s : string) : string := if caseSensitive then s else toLowerCase s.
(** The loop over the lines of a file. *)
Fixpoint search_lines (path : string) (index : Z) (lines : list string) (matches : list SearchMatch) : list SearchMatch * bool :=
  match lines with
  | [] => (matches, false)
  | line :: rest =>
      match indexOf (folded query) (folded line) with
      | None => search_lines path (index + 1) rest matches
      | Some columnIndex =>
          if maxSearchResults limits <=? Z.of_nat (length matches) then (matches, true)
          else search_lines path (index + 1) rest
                 (matches ++ [mkMatch path (index + 1) (Z.of_nat columnIndex + 1) (truncateUtf8 line (maxSearchSnippetBytes limits))])
      end
  end.
Definition searchCandidate (c : FileCandidate) : result exn FileSearchResult :=
  match readSearchTextFile utf8Strict decodeWith disk (absolutePath c) (maxFileBytes limits) with
  | Ok text => let '(matches, more) := search_lines (logicalPath c) 0 (split_lines text) [] in Ok (mkFileResult matches false more)
  | Err e => if exn_has_code FILE_TOO_LARGE e || exn_has_code BINARY_FILE e then Ok (mkFileResult [] true false) else Err e
  end.
(** [matches], [snippetBytes], [skippedFiles] and [truncated]. *)
Record Search := mkSearch { found : list SearchMatch; snippetBytes : Z; skipped : Z; cut : bool }.
Definition full (s : Search) : bool :=
  (maxSearchResults limits <=? Z.of_nat (length (found s))) || (maxSearchSnippetBytes limits <=? snippetBytes s).
(** The loop over the matches of a file. *)
Fixpoint add_matches (ms : list SearchMatch) (s : Search) : Search :=
  match ms with
  | [] => s
  | m :: rest =>
      if full s then mkSearch (found s) (snippetBytes s) (skipped s) true
      else
        let snippet := truncateUtf8 (m_snippet m) (maxSearchSnippetBytes limits - snippetBytes s) in
        add_matches rest (mkSearch (found s ++ [mkMatch (m_path m) (m_line m) (m_column m) snippet]) (snippetBytes s + bytes snippet) (skipped s) (cut s))
  end.
(** The loop over the results of a batch. *)
Fixpoint add_results (rs : list FileSearchResult) (s : Search) : Search :=
  match rs with
  | [] => s
  | r :: rest =>
      if fr_skipped r then add_results rest (mkSearch (found s) (snippetBytes s) (skipped s + 1) (cut s))
      else
        let s1 := add_matches (fr_matches r) s in
        let s2 := mkSearch (found s1) (snippetBytes s1) (skipped s1) (cut s1 || fr_more r) in
        if full s2 then mkSearch (found s2) (snippetBytes s2) (skipped s2) true else add_results rest s2
  end.
(** The loop over the batches.  [aborted] says whether the looks at the signal find it aborted: before the first batch (0), in
    each batch (from 1) and after the last one. *)
Context (aborted : nat -> bool) (signal : option AbortSignal).
Fixpoint search_batches (fuel batch : nat) (files : list FileCandidate) (s : Search) : result exn Search :=
  match fuel, files with
  | _, [] => Ok s
  | O, _ => Ok s
  | S fuel', _ =>
      if aborted batch then Err (abortSignalError signal "Search operation was cancelled.") else
      results ← mapM searchCandidate (take SEARCH_FILE_CONCURRENCY files);
      let s := add_results results s in
      if full s then Ok s else search_batches fuel' (S batch) (drop SEARCH_FILE_CONCURRENCY files) s
  end.
Definition searchAuthorizedFiles (files : list FileCandidate) (initialTruncated : bool) : result exn SearchFilesResult :=
  let cancelled := abortSignalError signal "Search operation was cancelled." in
  if aborted 0%nat then Err cancelled else
  s ← search_batches (length files) 1 files (mkSearch [] 0 0 initialTruncated);
  if aborted (S (length files)) then Err cancelled else Ok (mkSearchResult (found s) (cut s) (skipped s)).
End Searching.

(** *** Discovery finds authorized files, within its limits *)
Lemma preserves_read {S A} (I : S -> Prop) (f : S -> stm S A) : (forall s, I s -> I (f s s).1) -> st_preserves I (st_get ≫= f).
Proof. intros H s Hs. exact (H s Hs). Qed.
Lemma preserves_lift {S A} (I : S -> Prop) (r : result exn A) : st_preserves I (st_lift r).
Proof. by intros s. Qed.
#[export] Hint Resolve preserves_lift : mcp.

Section Walks.
Context {P : NodePath} (glob : string -> string -> bool) (fs : FileSystem) (workspace : ResolvedWorkspace).
Context (path_join : string -> string -> string) (opendir : string -> option (list Entry)) (localeCompare : string -> string -> Z).
Context (clock : nat -> Z) (aborts : nat -> bool) (signal : option AbortSignal).
Context (matcher : option (string -> bool)) (skip : bool) (roots : list ResolvedAllowedRoot).
Notation authorizeLogical p := (authorizeLogical glob workspace p false None).
Notation maxDirectories := (maxDirectories workspace).
Notation maxEntries := (maxEntries workspace).
Notation throwIfAborted := (throwIfAborted aborts signal).
Notation discoveryDeadlineReached := (discoveryDeadlineReached clock).
Notation readDirectoryEntriesBounded := (readDirectoryEntriesBounded workspace opendir localeCompare clock aborts signal).
Notation walk_entries := (walk_entries glob workspace path_join clock aborts signal matcher skip).
Notation walkDirectory := (walkDirectory glob workspace path_join opendir localeCompare clock aborts signal matcher skip).
Notation scan_roots := (scan_roots glob fs workspace path_join opendir localeCompare clock aborts signal matcher skip).

(** The directories of the walk, with their logical names: a root that is no link, and a directory in such a directory that the
    policy does not block.  No link is followed. *)
Inductive walked : string -> string -> Prop :=
| walked_root r : r ∈ roots -> ar_kind r = kind_directory -> fs_is_symlink fs (ar_absolutePath r) = Some false ->
    walked (ar_absolutePath r) (ar_logicalPath r)
| walked_child absolute logical es e : walked absolute logical -> opendir absolute = Some es -> e ∈ es -> e_kind e = a_directory ->
    isSubtreeBlocked glob workspace (child logical (e_name e)) = false -> is_ok (authorizeLogical (child logical (e_name e))) = true ->
    walked (path_join absolute (e_name e)) (child logical (e_name e)).
(** A file that may be listed: a root that is a file and not blocked, or a regular file of such a directory that the policy
    authorizes; and the requested glob matches it. *)
Definition listable (c : FileCandidate) : Prop :=
  match matcher with Some m => m (logicalPath c) = true | None => True end
  /\ ((exists r, r ∈ roots /\ ar_kind r = kind_file /\ isBlocked glob workspace (ar_logicalPath r) = false
         /\ c = mkCandidate (ar_logicalPath r) (ar_canonicalPath r))
      \/ exists absolute logical es e, walked absolute logical /\ opendir absolute = Some es /\ e ∈ es /\ e_kind e = a_file
         /\ is_ok (authorizeLogical (child logical (e_name e))) = true
         /\ c = mkCandidate (child logical (e_name e)) (path_join absolute (e_name e))).
Record Within (s : Discovery) : Prop := mkWithin {
  w_dirs : directoriesVisited s <= Z.max 0 maxDirectories;
  w_entries : entriesScanned s <= Z.max 0 maxEntries;
  w_size : Z.of_nat (jm_size (files s)) <= Z.max 0 (maxListedFiles (ws_limits workspace));
  w_keys : jm_wf (files s);
  w_files : forall k c, (k, c) ∈ files s -> k = logicalPath c /\ listable c;
}.
Notation keeps m := (st_preserves Within m).
Lemma keeps_change f : (forall s, Within s -> Within (f s)) -> keeps (change f).
Proof. intros H s Hs. exact (H s Hs). Qed.
Lemma within_same s s' : files s' = files s -> directoriesVisited s' = directoriesVisited s -> entriesScanned s' = entriesScanned s -> Within s -> Within s'.
Proof. intros E1 E2 E3 []. constructor; by rewrite ?E1, ?E2, ?E3. Qed.
Lemma keeps_abort : keeps throwIfAborted.
Proof. intros s. by apply within_same. Qed.
Lemma keeps_deadline : keeps discoveryDeadlineReached.
Proof.
  intros s Hs. unfold Discovery.discoveryDeadlineReached, now, change. st_run. destruct (_ <? _); by apply (within_same s).
Qed.
Lemma keeps_exhaust {A} (m : stm Discovery A) : keeps m -> keeps (change exhaust ≫= fun _ => m).
Proof. intros Hm. apply preserves_bind; [|done]. apply keeps_change. intros s. by apply within_same. Qed.
#[local] Hint Resolve keeps_abort keeps_deadline keeps_exhaust : mcp.
Lemma keeps_read_entries rest acc : keeps (read_entries workspace clock aborts signal rest acc).
Proof.
  revert acc. induction rest as [|e rest IH]; intros acc; cbn [read_entries]; (apply preserves_bind; [auto with mcp|intros _]);
    (apply preserves_bind; [auto with mcp|intros []; [auto with mcp|]]); apply preserves_read; intros s Hs;
    (destruct (Z.leb_spec maxEntries (entriesScanned s)); [by apply keeps_exhaust; auto with mcp|]);
    unfold mbind, stm_bind, Discovery.throwIfAborted; (destruct (_ && aborts _); [by apply (within_same s)|]); [by apply (within_same s)|].
  apply IH. destruct Hs. constructor; cbn in *; try done. lia.
Qed.
Lemma read_entries_in rest acc s s' es : read_entries workspace clock aborts signal rest acc s = (s', Ok es) -> forall e, e ∈ es -> e ∈ acc \/ e ∈ rest.
Proof.
  revert acc s. induction rest as [|e rest IH]; intros acc s; cbn [read_entries]; intros H; apply stm_bind_ok in H as (_ & s1 & _ & H);
    apply stm_bind_ok in H as (over & s2 & _ & H); (destruct over; [injection H as _ <-; by left|]); apply stm_bind_ok in H as (s3 & s4 & _ & H);
    (destruct (maxEntries <=? _); [apply stm_bind_ok in H as (_ & ? & _ & H); injection H as _ <-; by left|]);
    apply stm_bind_ok in H as (_ & s5 & _ & H); [injection H as _ <-; by left|].
  apply stm_bind_ok in H as (_ & s6 & _ & H). intros x Hx. apply (IH _ _ H) in Hx as [[Hx|Hx%list_elem_of_singleton]%elem_of_app|Hx];
    [by left|subst; right; left|right; by right].
Qed.
Lemma keeps_read_directory dir : keeps (readDirectoryEntriesBounded dir).
Proof.
  unfold Discovery.readDirectoryEntriesBounded. apply preserves_bind; [auto with mcp|intros _]. apply preserves_read. intros s Hs.
  destruct (_ <=? _); [by apply keeps_exhaust; auto with mcp|]. destruct (opendir dir); [|done].
  apply (preserves_bind Within); [apply keeps_read_entries|auto with mcp|done].
Qed.
Lemma read_directory_in dir s s' es : readDirectoryEntriesBounded dir s = (s', Ok es) -> forall e, e ∈ es -> exists all, opendir dir = Some all /\ e ∈ all.
Proof.
  unfold Discovery.readDirectoryEntriesBounded. intros H. apply stm_bind_ok in H as (_ & s1 & _ & H). apply stm_bind_ok in H as (s2 & s3 & _ & H).
  destruct (_ <=? _); [apply stm_bind_ok in H as (_ & ? & _ & H); injection H as _ <-; by intros e ?%elem_of_nil|].
  destruct (opendir dir) as [all|]; [|done]. apply stm_bind_ok in H as (es' & s4 & H & H'). injection H' as _ <-. intros e He%elem_of_js_sort.
  exists all. split; [done|]. by destruct (read_entries_in _ _ _ _ _ H e He) as [?%elem_of_nil|].
Qed.
Lemma keeps_add c : listable c -> keeps (addFile workspace matcher c).
Proof.
  intros Hc. unfold addFile. apply preserves_read. intros s Hs. destruct (negb _); [done|]. destruct (jm_has (files s) (logicalPath c)) eqn:Eh; [done|].
  destruct (Z.leb_spec (maxListedFiles (ws_limits workspace)) (Z.of_nat (jm_size (files s)))); [by apply (within_same s)|].
  assert (jm_get (files s) (logicalPath c) = None) as En by (unfold jm_has in Eh; by destruct (jm_get _ _)).
  destruct Hs as [H1 H2 H3 H4 H5]. change ((change ?f ≫= ?g) s) with (g tt (f s)). cbn [fst st_ok]. constructor; cbn [files with_files directoriesVisited entriesScanned]; try done.
  - rewrite jm_set_fresh by done. unfold jm_size in *. rewrite length_app. cbn [length]. lia.
  - by apply jm_wf_set.
  - intros k c' Hin. rewrite jm_set_fresh in Hin by done. apply elem_of_app in Hin as [Hin|Hin]; [by apply H5|].
    apply list_elem_of_singleton in Hin as [= -> ->]. done.
Qed.
Lemma matched_listable c : negb (match matcher with Some m => m (logicalPath c) | None => true end) = false ->
  ((exists r, r ∈ roots /\ ar_kind r = kind_file /\ isBlocked glob workspace (ar_logicalPath r) = false
      /\ c = mkCandidate (ar_logicalPath r) (ar_canonicalPath r))
   \/ exists absolute logical es e, walked absolute logical /\ opendir absolute = Some es /\ e ∈ es /\ e_kind e = a_file
      /\ is_ok (authorizeLogical (child logical (e_name e))) = true
      /\ c = mkCandidate (child logical (e_name e)) (path_join absolute (e_name e))) -> listable c.
Proof. intros H. split; [|done]. destruct matcher; [by apply negb_false_iff|done]. Qed.
(** A candidate that the glob does not match is not added. *)
Lemma keeps_offer c : (negb (match matcher with Some m => m (logicalPath c) | None => true end) = false -> listable c) -> keeps (addFile workspace matcher c).
Proof.
  intros Hc. destruct (negb (match matcher with Some m => m (logicalPath c) | None => true end)) eqn:E; [|by apply keeps_add, Hc].
  unfold addFile. apply preserves_read. intros s Hs. by rewrite E.
Qed.
Lemma keeps_walk_entries walk absolute logical es entries : walked absolute logical -> opendir absolute = Some es -> (forall e, e ∈ entries -> e ∈ es) ->
  (forall a l, walked a l -> keeps (walk a l)) -> keeps (walk_entries walk absolute logical entries).
Proof.
  intros Hw Ho Hin Hwalk. induction entries as [|e rest IH]; cbn [Discovery.walk_entries]; [apply preserves_read; by intros s|].
  specialize (IH (fun x Hx => Hin x (list_elem_of_further _ _ _ Hx))). assert (He : e ∈ es) by (apply Hin; left).
  apply preserves_bind; [auto with mcp|intros _]. apply preserves_bind; [auto with mcp|intros over]. destruct over; [auto with mcp|]. cbv zeta.
  destruct (skip && _ && _ && _); [done|]. destruct (bool_decide (e_kind e = a_directory)) eqn:Ed; cbn [andb].
  - apply bool_decide_eq_true in Ed. destruct (isSubtreeBlocked glob workspace (child logical (e_name e))) eqn:Es; [done|].
    destruct (authorizeLogical (child logical (e_name e))) as [p|x] eqn:Ea; [|destruct (skipped_error x); auto with mcp]. rewrite bool_decide_eq_false_2 by congruence.
    apply preserves_read. intros s Hs. destruct (exhausted s); [by apply IH|]. revert s Hs.
    change (keeps (walk (path_join absolute (e_name e)) (child logical (e_name e)) ≫= fun go => if negb go then st_ok false else walk_entries walk absolute logical rest)).
    apply preserves_bind; [apply Hwalk; eapply walked_child; try done; by rewrite Ea|]. intros []; cbn [negb]; [exact IH|auto with mcp].
  - destruct (authorizeLogical (child logical (e_name e))) as [p|x] eqn:Ea; [|destruct (skipped_error x); auto with mcp].
    destruct (bool_decide (e_kind e = a_link)); [done|]. destruct (bool_decide (e_kind e = a_file)) eqn:Ef; [|done]. apply bool_decide_eq_true in Ef.
    apply preserves_bind; [|intros []; cbn [negb]; [exact IH|auto with mcp]]. apply keeps_offer. intros Hm. apply matched_listable; [done|]. right.
    exists absolute, logical, es, e. split_and!; try done. by rewrite Ea.
Qed.
Lemma keeps_visit s : directoriesVisited s < maxDirectories -> Within s -> Within (visit s).
Proof. intros H []. constructor; cbn in *; try done. lia. Qed.
Lemma keeps_walk fuel absolute logical : walked absolute logical -> keeps (walkDirectory fuel absolute logical).
Proof.
  revert absolute logical. induction fuel as [|fuel IH]; intros absolute logical Hw; cbn [Discovery.walkDirectory]; [auto with mcp|].
  apply preserves_bind; [auto with mcp|intros _]. apply preserves_bind; [auto with mcp|intros over]. destruct over; [auto with mcp|].
  apply preserves_read. intros s Hs. destruct (Z.leb_spec maxDirectories (directoriesVisited s)); [by apply keeps_exhaust; auto with mcp|].
  pose proof (keeps_visit s ltac:(done) Hs) as Hv. change ((change visit ≫= ?f) s) with (f tt (visit s)). cbv beta.
  pose proof (keeps_read_directory absolute _ Hv) as Hr. unfold mbind, stm_bind. destruct (readDirectoryEntriesBounded absolute (visit s)) as [s' [entries|e]] eqn:Er; [|done].
  destruct (opendir absolute) as [all|] eqn:Eo.
  - apply (keeps_walk_entries _ _ _ all); try done. intros e He.
    destruct (read_directory_in _ _ _ _ Er e He) as (all' & E & Hx). by rewrite Eo in E; injection E as <-.
  - assert (entries = []) as -> by (destruct entries as [|e es]; [done|]; destruct (read_directory_in _ _ _ _ Er e) as (? & E & _); [left|congruence]). done.
Qed.
Lemma keeps_scan rs : (forall r, r ∈ rs -> r ∈ roots) -> keeps (scan_roots rs).
Proof.
  induction rs as [|r rs IH]; intros Hin; cbn [Discovery.scan_roots]; [auto with mcp|].
  specialize (IH (fun x Hx => Hin x (list_elem_of_further _ _ _ Hx))). assert (Hr : r ∈ roots) by (apply Hin; left).
  apply preserves_bind; [auto with mcp|intros _]. apply preserves_bind; [auto with mcp|intros over].
  assert (Ht : keeps (change truncate)) by (apply keeps_change; intros s; by apply within_same). destruct over; [done|].
  destruct (ar_kind r) eqn:Ek.
  - apply preserves_bind; [|intros _; exact IH]. destruct (negb _) eqn:Eb; [|auto with mcp]. apply keeps_offer. intros Hm. apply matched_listable; [done|].
    left. exists r. split_and!; try done. by apply negb_true_iff in Eb.
  - destruct (fs_is_symlink fs (ar_absolutePath r)) as [[]|] eqn:El; [|..|auto with mcp]; (apply preserves_bind; [auto with mcp|intros _]); [exact IH|].
    apply preserves_bind; [apply keeps_walk; by constructor|]. intros []; [exact IH|exact Ht].
Qed.


(** *** What never goes back: the files found, the directories visited, the two flags *)
Definition onward (s s' : Discovery) : Prop :=
  (forall k, jm_has (files s) k = true -> jm_has (files s') k = true) /\ directoriesVisited s <= directoriesVisited s'
  /\ (exhausted s = true -> exhausted s' = true) /\ (truncated s = true -> truncated s' = true).
Lemma onward_trans s s' s'' : onward s s' -> onward s' s'' -> onward s s''.
Proof. intros (A1 & A2 & A3 & A4) (B1 & B2 & B3 & B4). split_and!; auto; lia. Qed.
Definition advances {A} (m : stm Discovery A) : Prop := forall s, onward s (m s).1.
Lemma advances_bind {A B} (m : stm Discovery A) (f : A -> stm Discovery B) : advances m -> (forall a, advances (f a)) -> advances (m ≫= f).
Proof.
  intros Hm Hf s. unfold mbind, stm_bind. specialize (Hm s). destruct (m s) as [s' [a|e]]; [|done]. eapply onward_trans; [exact Hm|apply Hf].
Qed.
Lemma advances_get {A} (f : Discovery -> stm Discovery A) : (forall x, advances (f x)) -> advances (st_get ≫= f).
Proof. intros H s. exact (H s s). Qed.
Lemma advances_same {A} (m : stm Discovery A) : (forall s, files (m s).1 = files s /\ directoriesVisited s <= directoriesVisited (m s).1
  /\ (exhausted s = true -> exhausted (m s).1 = true) /\ (truncated s = true -> truncated (m s).1 = true)) -> advances m.
Proof. intros H s. destruct (H s) as (E & H2 & H3 & H4). split_and!; try done. by rewrite E. Qed.
Ltac advance_same := apply advances_same; intros s; cbn; split_and!; (done || lia).
Lemma advances_abort : advances throwIfAborted. Proof. advance_same. Qed.
Lemma advances_ok {A} (a : A) : advances (st_ok a). Proof. advance_same. Qed.
Lemma advances_lift {A} (r : result exn A) : advances (st_lift r). Proof. advance_same. Qed.
Lemma advances_exhaust : advances (change exhaust). Proof. advance_same. Qed.
Lemma advances_visit : advances (change visit). Proof. advance_same. Qed.
Lemma advances_count : advances (change count_entry). Proof. advance_same. Qed.
Lemma advances_truncate : advances (change truncate). Proof. advance_same. Qed.
Lemma advances_now : advances (now clock). Proof. advance_same. Qed.
Ltac advance :=
  lazymatch goal with
  | |- advances (Discovery.throwIfAborted _ _) => apply advances_abort
  | |- advances (st_ok _) => apply advances_ok
  | |- advances (st_lift _) => apply advances_lift
  | |- advances (change exhaust) => apply advances_exhaust
  | |- advances (change visit) => apply advances_visit
  | |- advances (change count_entry) => apply advances_count
  | |- advances (change truncate) => apply advances_truncate
  | |- advances (now _) => apply advances_now
  | |- advances (st_get ≫= _) => apply advances_get; intros ?; advance
  | |- advances (_ ≫= _) => apply advances_bind; [advance|intros ?; advance]
  | |- advances (match ?x with _ => _ end) => destruct x; advance
  | _ => idtac
  end.
Lemma advances_deadline : advances discoveryDeadlineReached.
Proof. unfold Discovery.discoveryDeadlineReached. advance. Qed.
Lemma advances_read_entries rest acc : advances (read_entries workspace clock aborts signal rest acc).
Proof.
  revert acc. induction rest as [|e rest IH]; intros acc; cbn [read_entries]; advance; try apply advances_deadline. apply IH.
Qed.
Lemma advances_read_directory dir : advances (readDirectoryEntriesBounded dir).
Proof. unfold Discovery.readDirectoryEntriesBounded. advance. apply advances_read_entries. Qed.
Lemma advances_add c : advances (addFile workspace matcher c).
Proof.
  intros s. unfold addFile. change ((st_get ≫= ?f) s) with (f s s). cbv beta. destruct (negb _); [done|]. destruct (jm_has _ _); [done|].
  destruct (_ <=? _); [apply (advances_truncate s)|]. change ((change ?f ≫= ?g) s) with (g tt (f s)). cbn [fst st_ok].
  split; [|split; [cbn; lia|done]]. cbn [files with_files]. intros k Hk. unfold jm_has. rewrite jm_get_set. by destruct (_ =s _).
Qed.
Lemma advances_walk_entries walk absolute logical entries : (forall a l, advances (walk a l)) -> advances (walk_entries walk absolute logical entries).
Proof.
  intros Hw. induction entries as [|e rest IH]; cbn [Discovery.walk_entries]; [advance|].
  apply advances_bind; [advance|intros _]. apply advances_bind; [apply advances_deadline|intros over]. destruct over; [advance|]. cbv zeta.
  destruct (_ && _ && _ && _); [exact IH|]. destruct (_ && _); [exact IH|]. destruct (authorizeLogical _); [|destruct (skipped_error _); [exact IH|advance]].
  destruct (bool_decide (_ = a_link)); [exact IH|]. destruct (bool_decide (_ = a_directory)).
  - apply advances_get. intros x. destruct (exhausted x); [exact IH|]. apply advances_bind; [apply Hw|]. intros []; cbn [negb]; [exact IH|advance].
  - destruct (bool_decide (_ = a_file)); [|exact IH]. apply advances_bind; [apply advances_add|]. intros []; cbn [negb]; [exact IH|advance].
Qed.
Lemma advances_walk fuel absolute logical : advances (walkDirectory fuel absolute logical).
Proof.
  revert absolute logical. induction fuel as [|fuel IH]; intros absolute logical; cbn [Discovery.walkDirectory]; [advance|].
  apply advances_bind; [advance|intros _]. apply advances_bind; [apply advances_deadline|intros over]. destruct over; [advance|].
  apply advances_get. intros x. destruct (_ <=? _); [advance|]. apply advances_bind; [advance|intros _].
  apply advances_bind; [apply advances_read_directory|intros es]. by apply advances_walk_entries.
Qed.
Lemma advances_scan rs : advances (scan_roots rs).
Proof.
  induction rs as [|r rs IH]; cbn [Discovery.scan_roots]; [advance|].
  apply advances_bind; [advance|intros _]. apply advances_bind; [apply advances_deadline|intros over]. destruct over; [advance|].
  destruct (ar_kind r).
  - apply advances_bind; [|intros _; exact IH]. destruct (negb _); [apply advances_add|advance].
  - destruct (fs_is_symlink fs (ar_absolutePath r)) as [[]|]; [|..|advance]; (apply advances_bind; [advance|intros _]); [exact IH|].
    apply advances_bind; [apply advances_walk|]. intros []; cbn [negb]; [exact IH|advance].
Qed.

(** *** Fuel: the walk does not run out of it *)
Definition fuelled {A} (n : Z) (m : stm Discovery A) : Prop :=
  forall s, directoriesVisited s <= maxDirectories -> maxDirectories - directoriesVisited s < n ->
    (m s).2 <> Err OUT_OF_FUEL /\ directoriesVisited (m s).1 <= maxDirectories.
Lemma fuelled_bind {A B} n (m : stm Discovery A) (f : A -> stm Discovery B) : advances m -> fuelled n m -> (forall a, fuelled n (f a)) -> fuelled n (m ≫= f).
Proof.
  intros Ha Hm Hf s H1 H2. specialize (Ha s) as (_ & Ha & _). specialize (Hm s H1 H2). unfold mbind, stm_bind.
  destruct (m s) as [s' [a|e]]; cbn in *; [|naive_solver]. apply Hf; [by apply Hm|lia].
Qed.
Lemma fuelled_get {A} n (f : Discovery -> stm Discovery A) : (forall x, fuelled n (f x)) -> fuelled n (st_get ≫= f).
Proof. intros H s H1 H2. exact (H s s H1 H2). Qed.
Lemma fuelled_abort n : fuelled n throwIfAborted.
Proof. intros s H1 _. split; [|done]. cbn. destruct (_ && aborts _); [|done]. unfold abortSignalError. by repeat case_match. Qed.
Lemma fuelled_ok {A} n (a : A) : fuelled n (st_ok a). Proof. by intros s. Qed.
Lemma fuelled_exhaust n : fuelled n (change exhaust). Proof. by intros s. Qed.
Lemma fuelled_truncate n : fuelled n (change truncate). Proof. by intros s. Qed.
Lemma fuelled_count n : fuelled n (change count_entry). Proof. by intros s. Qed.
Lemma fuelled_now n : fuelled n (now clock). Proof. by intros s. Qed.
Ltac fuel :=
  lazymatch goal with
  | |- fuelled _ (Discovery.throwIfAborted _ _) => apply fuelled_abort
  | |- fuelled _ (st_ok _) => apply fuelled_ok
  | |- fuelled _ (change exhaust) => apply fuelled_exhaust
  | |- fuelled _ (change truncate) => apply fuelled_truncate
  | |- fuelled _ (change count_entry) => apply fuelled_count
  | |- fuelled _ (now _) => apply fuelled_now
  | |- fuelled _ (st_get ≫= _) => apply fuelled_get; intros ?; fuel
  | |- fuelled _ (_ ≫= _) => apply fuelled_bind; [advance|fuel|intros ?; fuel]
  | |- fuelled _ (match ?x with _ => _ end) => destruct x; fuel
  | _ => idtac
  end.
Lemma fuelled_deadline n : fuelled n discoveryDeadlineReached.
Proof. unfold Discovery.discoveryDeadlineReached. fuel. Qed.
Lemma fuelled_read_entries n rest acc : fuelled n (read_entries workspace clock aborts signal rest acc).
Proof.
  revert acc. induction rest as [|e rest IH]; intros acc; cbn [read_entries];
    (apply fuelled_bind; [advance|fuel|intros _]); (apply fuelled_bind; [apply advances_deadline|apply fuelled_deadline|intros []]); fuel. apply IH.
Qed.
Lemma fuelled_read_directory n dir : fuelled n (readDirectoryEntriesBounded dir).
Proof.
  unfold Discovery.readDirectoryEntriesBounded. apply fuelled_bind; [advance|fuel|intros _]. apply fuelled_get. intros x. destruct (_ <=? _); [fuel|].
  destruct (opendir dir); [|by intros s]. apply fuelled_bind; [apply advances_read_entries|apply fuelled_read_entries|intros ?; fuel].
Qed.
Lemma fuelled_add n c : fuelled n (addFile workspace matcher c).
Proof.
  intros s H1 _. unfold addFile. change ((st_get ≫= ?f) s) with (f s s). cbv beta. destruct (negb _); [done|]. destruct (jm_has _ _); [done|].
  by destruct (_ <=? _).
Qed.
Lemma segments_not_fuel out ws : normalize_segments out ws <> Err OUT_OF_FUEL.
Proof. revert out. induction ws as [|w ws IH]; intros out; cbn; [done|]. repeat (case_match; try done; try apply IH). Qed.
Lemma authorizeLogical_app p e : authorizeLogical p = Err e -> e <> OUT_OF_FUEL.
Proof.
  intros H ->. revert H. unfold PathSecurity.authorizeLogical, normalizeRelativePath.
  destruct (_ || _); [done|]. destruct (is_absolute_input p); [done|]. destruct (startsWith _ _); [done|].
  pose proof (segments_not_fuel [] (split_on SLASH (replace_char BSL SLASH p))) as Hn. destruct (normalize_segments _ _) as [out|e]; [|cbn; congruence].
  cbn [mbind result_bind]. destruct out; [done|]. cbn. destruct (truthy _); [done|]. by destruct (isWithinLogicalAllowedRoot _ _).
Qed.
Lemma fuelled_walk_entries n walk absolute logical entries : (forall a l, advances (walk a l)) -> (forall a l, fuelled n (walk a l)) ->
  fuelled n (walk_entries walk absolute logical entries).
Proof.
  intros Hw Hf. induction entries as [|e rest IH]; cbn [Discovery.walk_entries]; [fuel|].
  apply fuelled_bind; [advance|fuel|intros _]. apply fuelled_bind; [apply advances_deadline|apply fuelled_deadline|intros over]. destruct over; [fuel|]. cbv zeta.
  destruct (_ && _ && _ && _); [exact IH|]. destruct (_ && _); [exact IH|].
  destruct (authorizeLogical _) as [p|x] eqn:Ea; [|destruct (skipped_error _); [exact IH|apply authorizeLogical_app in Ea; intros s H _; cbn; split; [congruence|done]]].
  destruct (bool_decide (_ = a_link)); [exact IH|]. destruct (bool_decide (_ = a_directory)).
  - apply fuelled_get. intros x. destruct (exhausted x); [exact IH|]. apply fuelled_bind; [apply Hw|apply Hf|]. intros []; cbn [negb]; [exact IH|fuel].
  - destruct (bool_decide (_ = a_file)); [|exact IH]. apply fuelled_bind; [apply advances_add|apply fuelled_add|]. intros []; cbn [negb]; [exact IH|fuel].
Qed.
Lemma fuelled_walk fuel absolute logical : fuelled (Z.of_nat fuel) (walkDirectory fuel absolute logical).
Proof.
  revert absolute logical. induction fuel as [|fuel IH]; intros absolute logical; [intros s H1 H2; lia|]. cbn [Discovery.walkDirectory].
  apply fuelled_bind; [advance|fuel|intros _]. apply fuelled_bind; [apply advances_deadline|apply fuelled_deadline|intros over]. destruct over; [fuel|].
  intros s H1 H2. change ((st_get ≫= ?f) s) with (f s s). cbv beta.
  destruct (Z.leb_spec maxDirectories (directoriesVisited s)); [done|]. change ((change visit ≫= ?f) s) with (f tt (visit s)). cbv beta.
  assert (fuelled (Z.of_nat fuel) (readDirectoryEntriesBounded absolute ≫= fun es => walk_entries (walkDirectory fuel) absolute logical es)) as Hf.
  { apply fuelled_bind; [apply advances_read_directory|apply fuelled_read_directory|]. intros es.
    apply fuelled_walk_entries; [intros a l; apply advances_walk|exact IH]. }
  apply Hf; cbn; lia.
Qed.
Lemma fuelled_scan rs : fuelled (Z.of_nat (FUEL workspace)) (scan_roots rs).
Proof.
  induction rs as [|r rs IH]; cbn [Discovery.scan_roots]; [fuel|].
  apply fuelled_bind; [advance|fuel|intros _]. apply fuelled_bind; [apply advances_deadline|apply fuelled_deadline|intros over]. destruct over; [fuel|].
  destruct (ar_kind r).
  - apply fuelled_bind; [destruct (negb _); [apply advances_add|advance]|destruct (negb _); [apply fuelled_add|fuel]|intros _; exact IH].
  - destruct (fs_is_symlink fs (ar_absolutePath r)) as [[]|]; [|..|intros s H _; by split]; (apply fuelled_bind; [advance|fuel|intros _]); [exact IH|].
    apply fuelled_bind; [apply advances_walk|apply fuelled_walk|]. intros []; cbn [negb]; [exact IH|fuel].
Qed.

(** *** Completeness *)
(** The files below a directory that the policy lets the walk reach. *)
Inductive below : string -> string -> FileCandidate -> Prop :=
| below_file absolute logical es e : opendir absolute = Some es -> e ∈ es -> e_kind e = a_file ->
    is_ok (authorizeLogical (child logical (e_name e))) = true ->
    match matcher with Some m => m (child logical (e_name e)) = true | None => True end ->
    below absolute logical (mkCandidate (child logical (e_name e)) (path_join absolute (e_name e)))
| below_directory absolute logical es e c : opendir absolute = Some es -> e ∈ es -> e_kind e = a_directory ->
    skip && (logical =s ".") && includes IMPLICIT_OPERATIONAL_DIRECTORIES (normalizeDirectoryName (e_name e)) = false ->
    isSubtreeBlocked glob workspace (child logical (e_name e)) = false -> is_ok (authorizeLogical (child logical (e_name e))) = true ->
    below (path_join absolute (e_name e)) (child logical (e_name e)) c -> below absolute logical c.
Definition has (s : Discovery) (c : FileCandidate) : Prop := jm_has (files s) (logicalPath c) = true.
Lemma read_entries_all rest acc s s' es : read_entries workspace clock aborts signal rest acc s = (s', Ok es) -> exhausted s' = false -> es = acc ++ rest.
Proof.
  revert acc s. induction rest as [|e rest IH]; intros acc s; cbn [read_entries]; intros H; apply stm_bind_ok in H as (_ & s1 & _ & H);
    apply stm_bind_ok in H as (over & s2 & Hd & H); intros Hx; destruct over.
  1, 3: exfalso; injection H as <- _; revert Hx; unfold Discovery.discoveryDeadlineReached, now, change in Hd; revert Hd; st_run;
    destruct (_ <? _); intros [= <-]; done.
  all: apply stm_bind_ok in H as (s3 & s4 & Hg & H); injection Hg as <- <-; destruct (maxEntries <=? _);
    [exfalso; apply stm_bind_ok in H as (u & s5 & Hc & H); inversion Hc; inversion H; subst; done|];
    apply stm_bind_ok in H as (_ & s5 & _ & H).
  - injection H as _ <-. by rewrite app_nil_r.
  - apply stm_bind_ok in H as (_ & s6 & _ & H). rewrite (IH _ _ H Hx). by rewrite <- app_assoc.
Qed.
Lemma read_directory_all dir s s' es : readDirectoryEntriesBounded dir s = (s', Ok es) -> exhausted s' = false -> exists all, opendir dir = Some all /\ forall e, e ∈ all -> e ∈ es.
Proof.
  unfold Discovery.readDirectoryEntriesBounded. intros H Hx. apply stm_bind_ok in H as (_ & s1 & _ & H). apply stm_bind_ok in H as (s2 & s3 & _ & H).
  destruct (_ <=? _); [apply stm_bind_ok in H as (u & s5 & Hc & H); inversion Hc; inversion H; subst; done|].
  destruct (opendir dir) as [all|]; [|done]. apply stm_bind_ok in H as (es' & s4 & H & H'). injection H' as <- <-.
  apply read_entries_all in H; [|done]. subst es'. exists all. split; [done|]. intros e He. by apply elem_of_js_sort.
Qed.
Lemma add_has c s s' : addFile workspace matcher c s = (s', Ok true) -> match matcher with Some m => m (logicalPath c) = true | None => True end -> has s' c.
Proof.
  unfold addFile. change ((st_get ≫= ?f) s) with (f s s). cbv beta. intros H Hm. assert (negb (match matcher with Some m => m (logicalPath c) | None => true end) = false) as E.
  { destruct matcher; [by rewrite Hm|done]. }
  rewrite E in H. destruct (jm_has (files s) (logicalPath c)) eqn:Eh; [by injection H as <-|]. destruct (_ <=? _); [done|].
  change ((change ?f ≫= ?g) s) with (g tt (f s)) in H. injection H as <-. unfold has, jm_has. cbn. by rewrite jm_get_set, String.eqb_refl.
Qed.
Lemma advance_has {A} (m : stm Discovery A) s s' r c : advances m -> m s = (s', r) -> has s c -> has s' c.
Proof. intros Ha E H. specialize (Ha s) as [Ha _]. rewrite E in Ha. by apply Ha. Qed.
Lemma advance_exhausted {A} (m : stm Discovery A) s s' r : advances m -> m s = (s', r) -> exhausted s' = false -> exhausted s = false.
Proof. intros Ha E H. specialize (Ha s) as (_ & _ & Ha & _). rewrite E in Ha. cbn in Ha. destruct (exhausted s); [|done]. by rewrite Ha in H. Qed.
(** What is to be found for an entry. *)
Definition entry_done (absolute logical : string) (s : Discovery) (e : Entry) : Prop :=
  forall c, (e_kind e = a_file /\ is_ok (authorizeLogical (child logical (e_name e))) = true
       /\ match matcher with Some m => m (child logical (e_name e)) = true | None => True end /\ c = mkCandidate (child logical (e_name e)) (path_join absolute (e_name e)))
     \/ (e_kind e = a_directory /\ skip && (logical =s ".") && includes IMPLICIT_OPERATIONAL_DIRECTORIES (normalizeDirectoryName (e_name e)) = false
         /\ isSubtreeBlocked glob workspace (child logical (e_name e)) = false /\ is_ok (authorizeLogical (child logical (e_name e))) = true
         /\ below (path_join absolute (e_name e)) (child logical (e_name e)) c) -> has s c.
Lemma entry_later {A} (m : stm Discovery A) s s' r absolute logical e : advances m -> m s = (s', r) -> entry_done absolute logical s e -> entry_done absolute logical s' e.
Proof. intros Ha E H c Hc. eapply advance_has; [exact Ha|exact E|by apply H]. Qed.
Lemma walk_entries_complete walk absolute logical entries s s' :
  (forall a l, advances (walk a l)) ->
  (forall a l s s', walk a l s = (s', Ok true) -> exhausted s' = false -> forall c, below a l c -> has s' c) ->
  walk_entries walk absolute logical entries s = (s', Ok true) -> exhausted s' = false /\ forall e, e ∈ entries -> entry_done absolute logical s' e.
Proof.
  intros Ha Hw. revert s. induction entries as [|e rest IH]; intros s H; cbn [Discovery.walk_entries] in H.
  { injection H as <- H. apply negb_true_iff in H. split; [done|]. by intros e ?%elem_of_nil. }
  apply stm_bind_ok in H as (u & s1 & _ & H). apply stm_bind_ok in H as (over & s2 & _ & H). destruct over; [done|]. cbv zeta in H.
  set (continue := walk_entries walk absolute logical rest) in *.
  assert (Hc : forall s3, continue s3 = (s', Ok true) -> entry_done absolute logical s3 e -> exhausted s' = false /\ forall x, x ∈ e :: rest -> entry_done absolute logical s' x).
  { intros s3 H3 He. destruct (IH _ H3) as [Hx Hr]. split; [done|]. intros x [->|Hin]%elem_of_cons; [|by apply Hr].
    eapply entry_later; [|exact H3|exact He]. by apply advances_walk_entries. }
  destruct (skip && (logical =s ".") && bool_decide (e_kind e = a_directory) && _) eqn:Ei.
  { apply (Hc s2 H). rewrite !andb_true_iff in Ei. destruct Ei as [[[E1 E2] Ed%bool_decide_eq_true] Ei]. intros c [(Hk & _)|(_ & Hn & _)]; [congruence|].
    rewrite E1, E2 in Hn. cbn [andb] in Hn. congruence. }
  destruct (bool_decide (e_kind e = a_directory) && isSubtreeBlocked _ _ _) eqn:Es.
  { apply (Hc s2 H). apply andb_true_iff in Es as [Ed%bool_decide_eq_true Es]. intros c [(Hk & _)|(_ & _ & Hn & _)]; congruence. }
  destruct (authorizeLogical (child logical (e_name e))) as [p|x] eqn:Ea.
  2: { destruct (skipped_error x); [|done]. apply (Hc s2 H). unfold entry_done. rewrite Ea. cbn. intros c [(_ & ? & _)|(_ & _ & _ & ? & _)]; done. }
  destruct (bool_decide (e_kind e = a_link)) eqn:El.
  { apply (Hc s2 H). apply bool_decide_eq_true in El. intros c [(Hk & _)|(Hk & _)]; congruence. }
  destruct (bool_decide (e_kind e = a_directory)) eqn:Ed.
  - apply bool_decide_eq_true in Ed. change ((st_get ≫= ?f) s2) with (f s2 s2) in H. cbv beta in H. destruct (exhausted s2) eqn:Ex.
    + destruct (IH _ H) as [Hx _]. eapply advance_exhausted in Hx; [|by apply advances_walk_entries|exact H]. congruence.
    + apply stm_bind_ok in H as (go & s3 & H3 & H). destruct go; [|done]. cbn [negb] in H. apply (Hc s3 H).
      intros c [(Hk & _)|(_ & _ & _ & _ & Hb)]; [congruence|]. apply (Hw _ _ _ _ H3); [|done].
      destruct (IH _ H) as [Hx _]. by eapply advance_exhausted in Hx; [|by apply advances_walk_entries|exact H].
  - apply bool_decide_eq_false in Ed. destruct (bool_decide (e_kind e = a_file)) eqn:Ef.
    + apply stm_bind_ok in H as (added & s3 & H3 & H). destruct added; [|done]. cbn [negb] in H. apply (Hc s3 H).
      intros c [(_ & _ & Hm & ->)|(Hk & _)]; [|congruence]. by apply (add_has _ _ _ H3).
    + apply bool_decide_eq_false in Ef. apply (Hc s2 H). intros c [(Hk & _)|(Hk & _)]; congruence.
Qed.
Lemma walk_complete fuel absolute logical s s' : walkDirectory fuel absolute logical s = (s', Ok true) ->
  exhausted s' = false /\ forall c, below absolute logical c -> has s' c.
Proof.
  revert absolute logical s s'. induction fuel as [|fuel IH]; intros absolute logical s s' H; [done|]. cbn [Discovery.walkDirectory] in H.
  apply stm_bind_ok in H as (u & s1 & _ & H). apply stm_bind_ok in H as (over & s2 & _ & H). destruct over; [done|].
  change ((st_get ≫= ?f) s2) with (f s2 s2) in H. cbv beta in H. destruct (_ <=? _); [done|].
  apply stm_bind_ok in H as (v & s3 & _ & H). apply stm_bind_ok in H as (es & s4 & Hr & H).
  assert (advances (walk_entries (walkDirectory fuel) absolute logical es)) as Had by (apply advances_walk_entries; intros; apply advances_walk).
  pose proof H as H'. apply walk_entries_complete in H' as [Hx Hd]; [|intros; apply advances_walk|].
  - split; [done|]. assert (Hx4 : exhausted s4 = false) by (by eapply advance_exhausted in Hx; [|exact Had|exact H]).
    destruct (read_directory_all _ _ _ _ Hr Hx4) as (all & Eo & Hall). intros c Hb. inversion Hb; subst; clear Hb.
    + assert (all = es0) as -> by congruence. eapply Hd; [by apply Hall|]. left. done.
    + assert (all = es0) as -> by congruence. eapply Hd; [by apply Hall|]. right. done.
  - intros a l t t' Ht _ c Hb. by apply (proj2 (IH _ _ _ _ Ht)).
Qed.
(** What a root asks for. *)
Definition root_done (s : Discovery) (r : ResolvedAllowedRoot) : Prop :=
  match ar_kind r with
  | kind_file => isBlocked glob workspace (ar_logicalPath r) = false -> match matcher with Some m => m (ar_logicalPath r) = true | None => True end ->
      jm_has (files s) (ar_logicalPath r) = true
  | kind_directory => fs_is_symlink fs (ar_absolutePath r) = Some false -> forall c, below (ar_absolutePath r) (ar_logicalPath r) c -> has s c
  end.
Lemma scan_complete rs s s' : scan_roots rs s = (s', Ok tt) -> truncated s' = false -> forall r, r ∈ rs -> root_done s' r.
Proof.
  revert s. induction rs as [|r rs IH]; intros s H Ht; [by intros r ?%elem_of_nil|]. cbn [Discovery.scan_roots] in H.
  apply stm_bind_ok in H as (u & s1 & _ & H). apply stm_bind_ok in H as (over & s2 & _ & H). destruct over; [injection H as <-; done|].
  assert (Hc : forall s3, scan_roots rs s3 = (s', Ok tt) -> root_done s3 r -> forall x, x ∈ r :: rs -> root_done s' x).
  { intros s3 H3 Hr x [->|Hin]%elem_of_cons; [|by apply (IH _ H3)]. pose proof (advances_scan rs s3) as [Hk _]. rewrite H3 in Hk. cbn in Hk.
    unfold root_done in *. destruct (ar_kind r); [intros; auto|]. intros Hl c Hb. by apply Hk, Hr. }
  destruct (ar_kind r) eqn:Ek.
  - apply stm_bind_ok in H as (added & s3 & H3 & H). apply (Hc s3 H). unfold root_done. rewrite Ek. intros Hb Hm. rewrite Hb in H3. cbn [negb] in H3.
    destruct added; [exact (add_has _ _ _ H3 Hm)|]. exfalso. pose proof (advances_scan rs s3) as (_ & _ & _ & Hk). rewrite H in Hk. cbn in Hk.
    assert (truncated s3 = true) as E; [|rewrite Hk in Ht; done]. revert H3. unfold addFile. change ((st_get ≫= ?f) s2) with (f s2 s2). cbv beta.
    destruct (negb _); [done|]. destruct (jm_has _ _); [done|]. destruct (_ <=? _); [by intros [= <-]|done].
  - destruct (fs_is_symlink fs (ar_absolutePath r)) as [link|] eqn:El; [|done]. apply stm_bind_ok in H as (v & s3 & _ & H). destruct link.
    + apply (Hc s3 H). unfold root_done. rewrite Ek, El. done.
    + apply stm_bind_ok in H as (go & s4 & H4 & H). destruct go; [|injection H as <-; done]. cbn [negb] in H. apply (Hc s4 H).
      unfold root_done. rewrite Ek. intros _. apply (walk_complete _ _ _ _ _ H4).
Qed.
End Walks.

(** *** The discovery as a whole *)
Section Whole.
Context {P : NodePath} (glob : string -> string -> bool) (fs : FileSystem) (workspace : ResolvedWorkspace).
Context (path_join : string -> string -> string) (opendir : string -> option (list Entry)) (localeCompare : string -> string -> Z).
Context (clock : nat -> Z) (aborts : nat -> bool) (signal : option AbortSignal).
Notation scanRoots := (scanRoots glob fs workspace).
Notation collectAuthorizedFiles := (collectAuthorizedFiles glob fs workspace path_join opendir localeCompare clock aborts signal).
Notation listable := (listable glob fs workspace path_join opendir).
Notation root_done := (root_done glob fs workspace path_join opendir).
Lemma existing_app p op e : authorizeExisting glob fs workspace p None true op = Err e -> e <> OUT_OF_FUEL.
Proof.
  unfold authorizeExisting, authorizeExistingInternal, PathSecurity.authorizeLogical, normalizeRelativePath. intros H ->. revert H.
  destruct (_ || _); [done|]. destruct (is_absolute_input p); [done|]. destruct (startsWith _ _); [done|].
  pose proof (segments_not_fuel [] (split_on SLASH (replace_char BSL SLASH p))) as Hn. destruct (normalize_segments _ _) as [out|e]; [|cbn; congruence].
  unfold mbind, result_bind. repeat case_match; try done; intros E; by simplify_eq.
Qed.
(** What [collectAuthorizedFiles] did: the roots, and the walk over them. *)
Lemma collect_walks root matcher s found cut : collectAuthorizedFiles root matcher initial = (s, Ok (found, cut)) ->
  exists roots s0 s1, scanRoots (normalizeRequestedRoot root) = Ok roots /\ files s0 = [] /\ directoriesVisited s0 = 0 /\ entriesScanned s0 = 0
    /\ scan_roots glob fs workspace path_join opendir localeCompare clock aborts signal matcher
         (negb (bool_decide (is_Some (normalizeRequestedRoot root)))) roots s0 = (s1, Ok tt)
    /\ s = look s1 /\ found = js_sort (by_path localeCompare) (jm_values (files s)) /\ cut = truncated s || exhausted s.
Proof.
  unfold Discovery.collectAuthorizedFiles. intros H. apply stm_bind_ok in H as (u1 & s1 & H1 & H). injection H1 as <- _.
  destruct (_ && _); [done|]. apply stm_bind_ok in H as (u2 & s2 & H2 & H). injection H2 as <-.
  apply stm_bind_ok in H as (roots & s3 & H3 & H). injection H3 as <- Hr. apply stm_bind_ok in H as (u4 & s4 & H4 & H). injection H4 as <- _.
  apply stm_bind_ok in H as ([] & s5 & H5 & H). apply stm_bind_ok in H as (u6 & s6 & H6 & H). injection H6 as <- _.
  apply stm_bind_ok in H as (s7 & s8 & H7 & H). injection H7 as <- <-. injection H as <- <- <-.
  eexists roots, _, s5. split; [done|]. split; [|split; [|split; [|split; [exact H5|done]]]]; done.
Qed.
Lemma within_start roots matcher s0 : files s0 = [] -> directoriesVisited s0 = 0 -> entriesScanned s0 = 0 ->
  Within glob fs workspace path_join opendir matcher roots s0.
Proof. intros E1 E2 E3. constructor; rewrite ?E1, ?E2, ?E3; try (cbn; lia); [constructor|]. by intros k c ?%elem_of_nil. Qed.
Lemma values_keys matcher roots s : Within glob fs workspace path_join opendir matcher roots s -> map logicalPath (jm_values (files s)) = jm_keys (files s).
Proof.
  intros []. unfold jm_values, jm_keys. rewrite map_map. apply map_ext_in. intros [k c] Hin%list_elem_of_In. symmetry. by apply w_files0.
Qed.

Lemma collect_listable root matcher s found cut (H : collectAuthorizedFiles root matcher initial = (s, Ok (found, cut))) :
  exists roots, scanRoots (normalizeRequestedRoot root) = Ok roots /\ NoDup (map logicalPath found)
    /\ Z.of_nat (length found) <= Z.max 0 (maxListedFiles (ws_limits workspace)) /\ forall c, c ∈ found -> listable matcher roots c.
Proof.
  apply collect_walks in H as (roots & s0 & s1 & Hr & E1 & E2 & E3 & Hs & -> & -> & _). exists roots. split; [done|].
  pose proof (keeps_scan glob fs workspace path_join opendir localeCompare clock aborts signal matcher (negb (bool_decide (is_Some (normalizeRequestedRoot root))))
    roots roots (fun r Hin => Hin) s0 (within_start _ _ _ E1 E2 E3)) as HW. rewrite Hs in HW. cbn [fst] in HW.
  assert (jm_values (files (look s1)) ≡ₚ js_sort (by_path localeCompare) (jm_values (files (look s1)))) as Hp by (symmetry; apply js_sort_perm).
  split; [|split].
  - rewrite <- Hp. change (files (look s1)) with (files s1). rewrite (values_keys _ _ _ HW). apply HW.
  - rewrite <- Hp. change (files (look s1)) with (files s1). unfold jm_values. rewrite length_map. apply HW.
  - intros c Hc%elem_of_js_sort%list_elem_of_In%in_map_iff. destruct Hc as ([k c'] & <- & Hin%list_elem_of_In). by apply HW in Hin as [_ Hin].
Qed.

(** [safety] Whatever the directories contain, the files found are files that may be listed ([listable]): each is a root that is a
    file the policy does not block, or a regular file in a directory reached from a root without following a link and without
    entering a blocked subtree, which the policy authorizes; the requested glob matches it.  No path occurs twice, and there are
    at most [maxListedFiles]. *)
Theorem discovery_authorized root matcher s found cut (H : collectAuthorizedFiles root matcher initial = (s, Ok (found, cut))) :
  exists roots, scanRoots (normalizeRequestedRoot root) = Ok roots /\ NoDup (map logicalPath found)
    /\ Z.of_nat (length found) <= Z.max 0 (maxListedFiles (ws_limits workspace)) /\ forall c, c ∈ found -> listable matcher roots c.
Proof. exact (collect_listable _ _ _ _ _ H). Qed.

(** [functional] A listing that is not reported as truncated is complete: of every root, every file below it that the policy
    lets a walk reach ([below]) and that the glob matches is in the listing. *)
Theorem discovery_complete root matcher s found (H : collectAuthorizedFiles root matcher initial = (s, Ok (found, false))) :
  exists roots, scanRoots (normalizeRequestedRoot root) = Ok roots
    /\ forall r c, r ∈ roots -> ar_kind r = kind_directory -> fs_is_symlink fs (ar_absolutePath r) = Some false ->
         below glob workspace path_join opendir matcher (negb (bool_decide (is_Some (normalizeRequestedRoot root)))) (ar_absolutePath r) (ar_logicalPath r) c ->
         logicalPath c ∈ map logicalPath found.
Proof.
  apply collect_walks in H as (roots & s0 & s1 & Hr & E1 & E2 & E3 & Hs & -> & -> & Hc). exists roots. split; [done|].
  pose proof (keeps_scan glob fs workspace path_join opendir localeCompare clock aborts signal matcher (negb (bool_decide (is_Some (normalizeRequestedRoot root))))
    roots roots (fun r Hin => Hin) s0 (within_start _ _ _ E1 E2 E3)) as HW. rewrite Hs in HW. cbn [fst] in HW.
  intros r c Hin Ek El Hb. symmetry in Hc. apply orb_false_iff in Hc as [Ht _]. pose proof (scan_complete _ _ _ _ _ _ _ _ _ _ _ _ _ _ Hs Ht r Hin) as Hd.
  unfold Discovery.root_done in Hd. rewrite Ek in Hd. specialize (Hd El c Hb). unfold has in Hd.
  rewrite js_sort_perm. change (files (look s1)) with (files s1). rewrite (values_keys _ _ _ HW). unfold jm_has in Hd.
  destruct (jm_get (files s1) (logicalPath c)) eqn:E; [|done]. destruct (decide (logicalPath c ∈ jm_keys (files s1))) as [|Hn]; [done|].
  apply jm_get_none in Hn. congruence.
Qed.

(** From a state that has visited no directory. *)
Definition ends {A} (m : stm Discovery A) : Prop :=
  forall s, directoriesVisited s = 0 -> (m s).2 <> Err OUT_OF_FUEL /\ directoriesVisited (m s).1 <= maxDirectories workspace.
Lemma ends_bind {A B} (m : stm Discovery A) (f : A -> stm Discovery B) : 0 <= maxDirectories workspace ->
  (forall s, directoriesVisited s = 0 -> (m s).2 <> Err OUT_OF_FUEL /\ directoriesVisited (m s).1 = 0) -> (forall a, ends (f a)) -> ends (m ≫= f).
Proof.
  intros Hd Hm Hf s Hs. specialize (Hm s Hs). unfold mbind, stm_bind. destruct (m s) as [s' [a|e]]; cbn in *; [by apply Hf, Hm|]. destruct Hm as [Hm Hm2]. split; [congruence|lia].
Qed.
Lemma fuelled_ends {A} (m : stm Discovery A) : 0 <= maxDirectories workspace -> fuelled workspace (Z.of_nat (FUEL workspace)) m -> ends m.
Proof. intros Hd Hm s Hs. apply Hm; unfold FUEL; lia. Qed.
Lemma abort_app s : (throwIfAborted aborts signal s).2 <> Err OUT_OF_FUEL.
Proof. cbn. destruct (_ && aborts _); [|done]. unfold abortSignalError. by repeat case_match. Qed.
(** [termination] Discovery ends within its budget: whatever the directories contain, a walk enters at most
    [maxDiscoveryDirectories] directories, so the fuel of the model (one more than these) is enough and is never the reason of an
    error. *)
Theorem discovery_ends root matcher (Hd : 0 <= maxDirectories workspace) :
  (collectAuthorizedFiles root matcher initial).2 <> Err OUT_OF_FUEL
  /\ directoriesVisited (collectAuthorizedFiles root matcher initial).1 <= maxDirectories workspace.
Proof.
  assert (ends (collectAuthorizedFiles root matcher)) as H; [|by apply H]. unfold Discovery.collectAuthorizedFiles.
  apply ends_bind; [done|intros s Hs; by split; [apply abort_app|]|intros _]. destruct (_ && _) in |- *; [intros s Hs; split; [done|cbn; lia]|].
  apply ends_bind; [done|by intros s Hs|intros _]. apply ends_bind; [done| |intros roots].
  - intros s Hs. split; [|done]. cbn. unfold Discovery.scanRoots. destruct (normalizeRequestedRoot root) as [r|]; [|done]. unfold resolveRequestedScanRoot.
    destruct (authorizeExisting _ _ _ _ _ _ _) as [a|e] eqn:E; [done|]. cbn. intros [= ->]. by apply existing_app in E.
  - apply ends_bind; [done|intros s Hs; by split; [apply abort_app|]|intros _]. apply fuelled_ends; [done|].
    apply fuelled_bind; [apply advances_scan|apply fuelled_scan|intros _]. apply fuelled_bind; [apply advances_abort|apply fuelled_abort|intros _].
    apply fuelled_get. intros x. apply fuelled_ok.
Qed.
End Whole.

(** *** What a search gives *)
Lemma bytes_cons c s : bytes (String c s) = bytes (str1 c) + bytes s.
Proof. unfold bytes, str1. cbn [utf8_length]. lia. Qed.
Lemma bytes_nonneg s : 0 <= bytes s.
Proof. unfold bytes. lia. Qed.
Lemma take_bytes_prefix v used m : used <= m -> (exists rest, v = take_bytes v used m +:+ rest) /\ used + bytes (take_bytes v used m) <= m.
Proof.
  revert used. induction v as [|c v IH]; intros used Hu; cbn [take_bytes]; [split; [by exists EmptyString|change (bytes EmptyString) with 0; lia]|]. cbv zeta.
  destruct (Z.ltb_spec m (used + bytes (str1 c))); [split; [by eexists|change (bytes EmptyString) with 0; lia]|]. destruct (IH (used + bytes (str1 c))) as [[rest E] Hb]; [lia|].
  split; [exists rest; cbn; by rewrite <- E|]. rewrite bytes_cons. lia.
Qed.
Lemma truncate_prefix v m : 0 <= m -> (exists rest, v = truncateUtf8 v m +:+ rest) /\ bytes (truncateUtf8 v m) <= m.
Proof.
  intros Hm. unfold truncateUtf8. destruct (Z.leb_spec (bytes v) m); [split; [exists EmptyString; by rewrite sapp_nil_r|done]|].
  by destruct (take_bytes_prefix v 0 m Hm).
Qed.
(** The sum of the bytes of the snippets. *)
Definition snippet_bytes (ms : list SearchMatch) : Z := foldr (fun m n => bytes (m_snippet m) + n) 0 ms.
Lemma snippet_bytes_app xs ys : snippet_bytes (xs ++ ys) = snippet_bytes xs + snippet_bytes ys.
Proof. unfold snippet_bytes. induction xs as [|x xs IH]; cbn; lia. Qed.
(** [m] shows the hit [h]: the same place, and a beginning of its line. *)
Definition shows (m h : SearchMatch) : Prop :=
  m_path m = m_path h /\ m_line m = m_line h /\ m_column m = m_column h /\ exists rest, m_snippet h = m_snippet m +:+ rest.
Lemma shows_trans a b c : shows a b -> shows b c -> shows a c.
Proof.
  intros (E1 & E2 & E3 & r & E4) (F1 & F2 & F3 & r' & F4). split_and!; try congruence. exists (r +:+ r'). by rewrite F4, E4, sapp_assoc.
Qed.

Section Searches.
Context (workspace : ResolvedWorkspace) (utf8Strict : string -> option string) (decodeWith : TextEncoding -> string -> string) (disk : Disk).
Context (query : string) (caseSensitive : bool).
Notation limits := (ws_limits workspace).
Notation folded := (folded caseSensitive).
Notation full := (full workspace).
Notation add_matches := (add_matches workspace).
Notation add_results := (add_results workspace).
Notation searchCandidate := (searchCandidate workspace utf8Strict decodeWith disk query caseSensitive).
(** The reference: every line that has the query, with the first column of it, and the whole line. *)
Fixpoint hits (path : string) (index : Z) (lines : list string) : list SearchMatch :=
  match lines with
  | [] => []
  | line :: rest =>
      match indexOf (folded query) (folded line) with
      | Some column => mkMatch path (index + 1) (Z.of_nat column + 1) line :: hits path (index + 1) rest
      | None => hits path (index + 1) rest
      end
  end.
Definition file_hits (c : FileCandidate) : list SearchMatch :=
  match readSearchTextFile utf8Strict decodeWith disk (absolutePath c) (maxFileBytes limits) with
  | Ok text => hits (logicalPath c) 0 (split_lines text)
  | Err _ => []
  end.
Definition M : Z := maxSearchResults limits.
Definition SB : Z := maxSearchSnippetBytes limits.
Context (HM : 0 < M) (HSB : 0 < SB).
Lemma search_lines_hits path index lines matches : Z.of_nat (length matches) <= M -> exists k new,
  search_lines workspace query caseSensitive path index lines matches = (matches ++ new, bool_decide (k < length (hits path index lines))%nat)
  /\ Forall2 shows new (take k (hits path index lines)) /\ (k <= length (hits path index lines))%nat
  /\ ((k < length (hits path index lines))%nat -> Z.of_nat (length (matches ++ new)) = M).
Proof.
  revert index matches. induction lines as [|line lines IH]; intros index matches Hm; cbn [search_lines hits].
  { exists 0%nat, []. rewrite app_nil_r. split_and!; try done. cbn. lia. }
  destruct (indexOf _ _) as [column|]; [|by apply IH]. fold M. destruct (Z.leb_spec M (Z.of_nat (length matches))) as [Hfull|Hroom].
  - exists 0%nat, []. rewrite app_nil_r. split_and!; try done; cbn; lia.
  - set (m := mkMatch _ _ _ (truncateUtf8 _ _)). destruct (IH (index + 1) (matches ++ [m])) as (k & new & E & Hf & Hk & Hl); [rewrite length_app; cbn; lia|].
    exists (S k), (m :: new). rewrite E, <- app_assoc. cbn [length take]. split_and!.
    + f_equal. apply bool_decide_ext. lia.
    + constructor; [|done]. split_and!; try done. by destruct (truncate_prefix line SB (Z.lt_le_incl _ _ HSB)) as [Hp _].
    + lia.
    + intros Hlt. rewrite <- Hl by lia. by rewrite <- app_assoc.
Qed.
(** What a state of the search promises of the hits looked at so far. *)
Record Bounded (s : Search) : Prop := mkBounded {
  b_count : Z.of_nat (length (found s)) <= M;
  b_bytes : snippetBytes s = snippet_bytes (found s);
  b_most : snippetBytes s <= SB;
}.
Lemma add_matches_prefix ms s : Bounded s -> exists k new,
  found (add_matches ms s) = found s ++ new /\ Forall2 shows new (take k ms) /\ (k <= length ms)%nat /\ Bounded (add_matches ms s)
  /\ (cut s = true -> cut (add_matches ms s) = true)
  /\ ((k < length ms)%nat -> full (add_matches ms s) = true /\ cut (add_matches ms s) = true).
Proof.
  revert s. induction ms as [|m ms IH]; intros s Hb; cbn [Discovery.add_matches]; [exists 0%nat, []; rewrite app_nil_r; split_and!; try done; cbn; lia|].
  destruct (full s) eqn:Ef.
  - exists 0%nat, []. rewrite app_nil_r. split_and!; [done|done|cbn; lia|by destruct Hb|done|]. intros _. split; [|done]. exact Ef.
  - apply orb_false_iff in Ef as [E1%Z.leb_gt E2%Z.leb_gt]. fold M in E1. fold SB in E2. fold SB. cbv zeta.
    set (snippet := truncateUtf8 _ _). destruct (truncate_prefix (m_snippet m) (SB - snippetBytes s)) as [Hp Hs]; [lia|]. fold snippet in Hp, Hs.
    set (m' := mkMatch _ _ _ snippet). set (s' := mkSearch _ _ _ _). destruct Hb as [Hc Hy Hz].
    destruct (IH s') as (k & new & E & Hf & Hk & Hb' & Hcut & Hl).
    { constructor; cbn; [rewrite length_app; cbn; lia|rewrite snippet_bytes_app, Hy; cbn; lia|lia]. }
    exists (S k), (m' :: new). rewrite E. cbn [found s' length take]. rewrite <- app_assoc. split_and!; [done|by constructor|lia|done|done|]. intros Hlt. apply Hl. lia.
Qed.
(** Where a search is: what it has found begins the list of the hits so far, all of them unless it is [full]. *)
Record Progress (pre : list SearchMatch) (s : Search) : Prop := mkProgress {
  p_bounded : Bounded s;
  p_prefix : Forall2 shows (found s) (take (length (found s)) pre);
  p_all : full s = false \/ cut s = false -> (length pre <= length (found s))%nat;
}.
Lemma progress_add {pre} path lines s r (new : list SearchMatch) more :
  search_lines workspace query caseSensitive path 0 lines [] = (new, more) -> r = mkFileResult new false more ->
  Progress pre s -> full s = false ->
  let s1 := add_matches new s in let s2 := mkSearch (found s1) (snippetBytes s1) (skipped s1) (cut s1 || more) in
  let s3 := if full s2 then mkSearch (found s2) (snippetBytes s2) (skipped s2) true else s2 in
  Progress (pre ++ hits path 0 lines) s3 /\ full s3 = full s2 /\ (cut s = true -> cut s3 = true).
Proof.
  intros Hs _ [Hb Hp Ha] Hf. specialize (Ha (or_introl Hf)). cbv zeta.
  destruct (search_lines_hits path 0 lines []) as (k & h & E & Hk & Hle & Hlt); [cbn; lia|]. rewrite E in Hs. injection Hs as <- <-. cbn [app] in *.
  destruct (add_matches_prefix h s Hb) as (j & n & En & Hj & Hjl & Hb1 & Hcut & Hl). set (s1 := add_matches h s) in *.
  set (all := hits path 0 lines) in *. set (s2 := mkSearch _ _ _ _).
  assert (Hlen : length (found s) = length pre) by (apply Forall2_length in Hp; rewrite length_take in Hp; lia).
  assert (Hkh : length h = k) by (apply Forall2_length in Hk; rewrite length_take in Hk; lia).
  assert (Hn : Forall2 shows n (take (length n) all)).
  { assert (length n = j) as -> by (apply Forall2_length in Hj; rewrite length_take in Hj; lia).
    replace (take j all) with (take j (take k all)) by (rewrite take_take; f_equal; lia).
    apply (Forall2_trans shows shows shows _ (take j h)); [intros *; apply shows_trans|done|by apply Forall2_take]. }
  assert (Hp2 : Forall2 shows (found s ++ n) (take (length (found s ++ n)) (pre ++ all))).
  { rewrite length_app, Hlen, take_app_add. apply Forall2_app; [|done]. rewrite take_ge in Hp by lia. exact Hp. }
  assert (Hfull : full s2 = false -> (length (pre ++ all) <= length (found s ++ n))%nat).
  { intros Hf2. assert (full s1 = false) as Hf1 by exact Hf2. assert (j = length h) as Ej by (destruct (decide (j < length h)%nat) as [Hd|]; [|lia]; by apply Hl in Hd as [? _]; congruence).
    assert (length n = j) as Hnj by (apply Forall2_length in Hj; rewrite length_take in Hj; lia).
    destruct (decide (k < length all)%nat) as [Hd|]; [|rewrite !length_app; lia]. exfalso. apply Hlt in Hd. unfold Discovery.full in Hf1.
    apply orb_false_iff in Hf1 as [Hf1%Z.leb_gt _]. rewrite En, length_app in Hf1. fold M in Hf1. lia. }
  destruct (full s2) eqn:E2; (split; [|split; [exact E2|]]); [|intros _; reflexivity| |intros Hc%Hcut; cbn; by rewrite Hc].
  - constructor; [by destruct Hb1; constructor| |intros [H|H]; [change (full s2 = false) in H; congruence|done]].
    cbn [found]. change (found s2) with (found s1). by rewrite En.
  - constructor; [by destruct Hb1; constructor| |]; change (found s2) with (found s1); rewrite En; auto.
Qed.
Lemma progress_full pre more s : Progress pre s -> full s = true -> cut s = true -> Progress (pre ++ more) s.
Proof.
  intros [Hb Hp Ha] Hf Hc. constructor; [done| |intros [H|H]; congruence].
  rewrite take_app_le; [done|]. apply Forall2_length in Hp. rewrite length_take in Hp. lia.
Qed.
Lemma full_cut rs s : full s = false -> full (add_results rs s) = true -> cut (add_results rs s) = true.
Proof.
  revert s. induction rs as [|r rs IH]; intros s Hf; cbn [Discovery.add_results]; [congruence|].
  destruct (fr_skipped r); [by apply IH|]. cbv zeta. set (s2 := mkSearch (found (add_matches _ s)) _ _ _).
  destruct (full s2) eqn:E; [done|by apply IH].
Qed.
Lemma add_results_progress cs rs pre s : mapM searchCandidate cs = Ok rs -> Progress pre s -> full s = false ->
  Progress (pre ++ concat (map file_hits cs)) (add_results rs s) /\ (cut s = true -> cut (add_results rs s) = true).
Proof.
  revert rs pre s. induction cs as [|c cs IH]; intros rs pre s Hm Hp Hf; cbn [mapM] in Hm; [injection Hm as <-; cbn; by rewrite app_nil_r|].
  apply bind_ok in Hm as (r & Hr & Hm). apply bind_ok in Hm as (rs' & Hrs & Hm). injection Hm as <-. cbn [Discovery.add_results map concat].
  assert (file_hits c = [] /\ fr_skipped r = true \/ exists path lines new more, file_hits c = hits path 0 lines /\
    search_lines workspace query caseSensitive path 0 lines [] = (new, more) /\ r = mkFileResult new false more) as [[E1 E2]|(path & lines & new & more & E1 & E2 & E3)].
  { revert Hr. unfold Discovery.searchCandidate, file_hits. destruct (readSearchTextFile _ _ _ _ _) as [t|e].
    - destruct (search_lines _ _ _ _ _ _ _) as [new more] eqn:E. intros [= <-]. right. by exists (logicalPath c), (split_lines t), new, more.
    - destruct (_ || _); [|done]. intros [= <-]. by left. }
  - rewrite E1, E2. cbn [app]. destruct Hp as [[] Hp Ha]. apply (IH rs' pre (mkSearch (found s) (snippetBytes s) (skipped s + 1) (cut s)) Hrs); [|done].
    constructor; [by constructor|exact Hp|exact Ha].
  - destruct (progress_add path lines s r new more E2 E3 Hp Hf) as (Hp3 & Hf3 & Hc3). subst r. cbn [fr_skipped fr_matches fr_more].
    rewrite E1, app_assoc. cbv zeta in *. set (s2 := mkSearch (found (add_matches new s)) _ _ _) in *. destruct (full s2) eqn:Ef.
    + split; [|intros _; done]. by apply progress_full.
    + destruct (IH rs' (pre ++ hits path 0 lines) s2 Hrs Hp3 Ef) as [H1 H2]. split; [done|]. auto.
Qed.
Context (aborted : nat -> bool) (signal : option AbortSignal).
Lemma batches_progress fuel batch files pre s s' : search_batches workspace utf8Strict decodeWith disk query caseSensitive aborted signal fuel batch files s = Ok s' ->
  (length files <= fuel)%nat -> Progress pre s -> full s = false ->
  Progress (pre ++ concat (map file_hits files)) s' /\ (cut s = true -> cut s' = true).
Proof.
  revert batch files pre s. induction fuel as [|fuel IH]; intros batch files pre s H Hl Hp Hf;
    (destruct files as [|c files]; [injection H as <-; cbn; by rewrite app_nil_r|]); [cbn in Hl; lia|].
  cbn [search_batches] in H. destruct (aborted batch); [done|]. apply bind_ok in H as (rs & Hrs & H). cbv zeta in H.
  destruct (add_results_progress _ _ _ _ Hrs Hp Hf) as [Hp1 Hc1]. pose proof (full_cut rs s Hf) as Hfc.
  rewrite <- (take_drop SEARCH_FILE_CONCURRENCY (c :: files)), map_app, concat_app, app_assoc. destruct (full (add_results rs s)) eqn:Ef.
  - injection H as <-. split; [|done]. apply progress_full; auto.
  - destruct (IH _ _ (pre ++ concat (map file_hits (take SEARCH_FILE_CONCURRENCY (c :: files)))) _ H) as [H1 H2]; auto.
    rewrite length_drop. unfold SEARCH_FILE_CONCURRENCY. cbn in *. lia.
Qed.
(** What a search gives begins the list of all hits, and is the whole list unless it is reported as truncated. *)
Lemma search_prefix files cut0 r
  (H : searchAuthorizedFiles workspace utf8Strict decodeWith disk query caseSensitive aborted signal files cut0 = Ok r) :
  let all := concat (map file_hits files) in
  Forall2 shows (s_matches r) (take (length (s_matches r)) all) /\ (s_truncated r = false -> cut0 = false /\ length (s_matches r) = length all)
  /\ Z.of_nat (length (s_matches r)) <= M /\ snippet_bytes (s_matches r) <= SB.
Proof.
  cbv zeta. unfold searchAuthorizedFiles in H. cbv zeta in H. destruct (aborted 0%nat); [done|]. apply bind_ok in H as (s & Hs & H).
  destruct (aborted _); [done|]. injection H as <-. cbn [s_matches s_truncated].
  destruct (batches_progress _ _ _ [] _ _ Hs (Nat.le_refl _)) as [[[Hc Hb Hm] Hp Ha] Hcut]; [constructor; [constructor; [change (0 <= M); lia|done|change (0 <= SB); lia]|done|intros _; apply le_n]| |].
  { apply orb_false_iff. split; apply Z.leb_gt; [exact HM|exact HSB]. }
  cbn [app] in *. split; [done|]. split; [|by rewrite <- Hb]. intros Hcut'. split.
  - destruct cut0; [|done]. by rewrite (Hcut eq_refl) in Hcut'.
  - specialize (Ha (or_intror Hcut')). apply Forall2_length in Hp. rewrite length_take in Hp. lia.
Qed.
End Searches.

(** [searchFiles] of service.ts: discovery, then the search of what it found. *)
Section Whole_search.
Context {P : NodePath} (glob : string -> string -> bool) (fs : FileSystem) (workspace : ResolvedWorkspace).
Context (path_join : string -> string -> string) (opendir : string -> option (list Entry)) (localeCompare : string -> string -> Z).
Context (utf8Strict : string -> option string) (decodeWith : TextEncoding -> string -> string) (disk : Disk).
Context (clock : nat -> Z) (aborts aborted : nat -> bool) (signal : option AbortSignal).
Definition searchFiles (query : string) (caseSensitive : bool) (root : option string) (matcher : option (string -> bool)) : result exn SearchFilesResult :=
  if aborted 0%nat then Err (abortSignalError signal "Search operation was cancelled.") else
  '(found, truncated) ← (collectAuthorizedFiles glob fs workspace path_join opendir localeCompare clock aborts signal root matcher initial).2;
  searchAuthorizedFiles workspace utf8Strict decodeWith disk query caseSensitive (fun n => aborted (S n)) signal found truncated.
End Whole_search.

(** *** A workspace with a secret, a link and a directory of the runtime *)
Module Trial.
Definition P : NodePath := Demo.posix.
Definition ws : ResolvedWorkspace := Demo.workspace standard.
Definition path_join (a b : string) : string := a +:+ "/" +:+ b.
Definition top : list Entry := [mkEntry "src" a_directory; mkEntry ".env" a_file; mkEntry "runtime" a_directory; mkEntry "README" a_file].
Definition tree (more : list Entry) (p : string) : option (list Entry) :=
  if p =s "/srv/ws" then Some (top ++ more)
  else if p =s "/srv/ws/src" then Some [mkEntry "out" a_link; mkEntry "lib" a_directory; mkEntry "a.ts" a_file]
  else if p =s "/srv/ws/src/lib" then Some [mkEntry "x.ts" a_file]
  else if p =s "/srv/ws/runtime" then Some [mkEntry "log" a_file] else None.
Definition localeCompare (a b : string) : Z := if a =s b then 0 else if String.ltb a b then -1 else 1.
Notation collect more clock := (collectAuthorizedFiles (P := P) Demo.glob Demo.fs ws path_join (tree more) localeCompare clock (fun _ => false) None).
Definition steady (n : nat) : Z := Z.of_nat n.
Definition listing : Discovery * result exn (list FileCandidate * bool) := collect [] steady None None initial.
Definition expected : list FileCandidate :=
  [mkCandidate "README" "/srv/ws/README"; mkCandidate "src/a.ts" "/srv/ws/src/a.ts"; mkCandidate "src/lib/x.ts" "/srv/ws/src/lib/x.ts"].
Definition after : Discovery := Eval vm_compute in listing.1.
Lemma listing_ok : collect [] steady None None initial = (after, Ok (expected, false)).
Proof. vm_compute. reflexivity. Qed.
Lemma discovery_authorized_witness : NoDup (map logicalPath expected) /\ exists roots, forall c, c ∈ expected ->
  listable (P := P) Demo.glob Demo.fs ws path_join (tree []) None roots c.
Proof.
  destruct (discovery_authorized (P := P) Demo.glob Demo.fs ws path_join (tree []) localeCompare steady (fun _ => false) None None None _ _ _ listing_ok)
    as (roots & _ & H & _ & Hc). split; [exact H|]. by exists roots.
Defined.
Lemma discovery_complete_witness : exists roots, scanRoots (P := P) Demo.glob Demo.fs ws None = Ok roots /\ "src/lib/x.ts" ∈ map logicalPath expected.
Proof.
  destruct (discovery_complete (P := P) Demo.glob Demo.fs ws path_join (tree []) localeCompare steady (fun _ => false) None None None _ _ listing_ok)
    as (roots & E & H). exists roots. split; [exact E|]. cbn in E. injection E as <-.
  apply (H (mkRoot "." "/srv/ws" "/srv/ws" kind_directory) (mkCandidate "src/lib/x.ts" "/srv/ws/src/lib/x.ts")); [left|done|by vm_compute|].
  apply (below_directory _ _ _ _ _ _ _ _ (top ++ []) (mkEntry "src" a_directory)); [done|left|done|by vm_compute|by vm_compute|by vm_compute|].
  apply (below_directory _ _ _ _ _ _ _ _ [mkEntry "out" a_link; mkEntry "lib" a_directory; mkEntry "a.ts" a_file] (mkEntry "lib" a_directory));
    [done|right; left|done|by vm_compute|by vm_compute|by vm_compute|].
  apply (below_file (P := P) Demo.glob ws path_join (tree []) None _ "/srv/ws/src/lib" "src/lib" [mkEntry "x.ts" a_file] (mkEntry "x.ts" a_file));
    [done|left|done|by vm_compute|done].
Defined.
Lemma discovery_ends_witness : (collect [] steady None None initial).2 <> Err OUT_OF_FUEL.
Proof. exact (proj1 (discovery_ends (P := P) Demo.glob Demo.fs ws path_join (tree []) localeCompare steady (fun _ => false) None None None (Zle_0_nat 4096))). Defined.
(** The clock: a listing that takes too long is reported as truncated. *)
Example listing_late : (collect [] (fun n => if (n <? 12)%nat then 0 else 20000) None None initial).2 =
  Ok ([mkCandidate "README" "/srv/ws/README"], true).
Proof. vm_compute. reflexivity. Qed.
(** On POSIX [c:note] is a legal name; [authorizeLogical] takes it for a path with a drive, and its INVALID_PATH is not an error that
    the walk skips: one such file makes the listing of the whole workspace fail. *)
Lemma odd_name_stops_listing : exists m, (collect [mkEntry "c:note" a_file] steady None None initial).2 = Err (app_error INVALID_PATH m).
Proof. eexists. vm_compute. reflexivity. Qed.

Definition disk : Disk := <["/srv/ws/README" := "todo: a" +:+ str1 LF +:+ "b"]> (<["/srv/ws/src/a.ts" := "let x; // TODO b"]> (<["/srv/ws/src/lib/x.ts" := str1 NUL]> ∅)).
Definition decodeWith (e : TextEncoding) (b : string) : string := b.
Notation search := (searchFiles (P := P) Demo.glob Demo.fs ws path_join (tree []) localeCompare (fun x => Some x) decodeWith disk steady (fun _ => false)
  (fun _ => false) None "todo").
Definition matches : list SearchMatch := [mkMatch "README" 1 1 "todo: a"; mkMatch "src/a.ts" 1 11 "let x; // TODO b"].
Lemma searched_ok : search false None None = Ok (mkSearchResult matches false 1).
Proof. vm_compute. reflexivity. Qed.
Example searched_case : search true None None = Ok (mkSearchResult [mkMatch "README" 1 1 "todo: a"] false 1).
Proof. vm_compute. reflexivity. Qed.
End Trial.
End Discovery.
