(* ===== verification/SessionRegistry.v ===== *)
(** The stored registry of browser sessions: services/browser-worker/domain/session-registry.ts, with the data of
    browser-session-model.ts.

    The file keeps sessions, tasks, tabs and the bindings of tabs to pages of the driver.  [load] reads it after a
    restart: no session is connected then, and older versions are migrated.  A schema is a predicate, and the versions of the
    file are constructors ([Stored]), for each has its own [schemaVersion]; a date is an instant, since the dates are those that
    [toISOString] writes, whose order as texts is the order of instants.  URL parsing is a parameter. *)
From stdpp Require Import sorting.
From S2P Require Import Prelude Errors JsString JsMap JsSort Timeouts TaskRegistry.
Open Scope string_scope.
Open Scope list_scope.
Open Scope Z_scope.

Module SessionRegistry.

(** *** Data *)
Inductive BrowserOperationMode := auto | interactive | efficient | diagnostic.
Inductive BrowserSessionState := starting | connected | disconnected | failed.
#[export] Instance BrowserSessionState_eq_dec : EqDecision BrowserSessionState.
Proof. solve_decision. Defined.
(** [driver] is ["direct"] and [profileType] is ["persistent"]. *)
Record BrowserSession := mkSession {
  sessionId : string;
  mode : BrowserOperationMode;
  sessionState : BrowserSessionState;
  routingReason : option string;
  routingPolicyReason : option string;
  sessionCreatedAt : Z;
  sessionLastUsedAt : Z;
}.
Inductive Lifecycle := task_scoped | persistent | external.
(** A tab of version 4; [ownership] is ["mcp"]. *)
Record TabV4 := mkTab {
  tabId : string;
  tab_sessionId : string;
  remoteTabId : string;
  remoteIndex : Z;
  purpose : string;
  reusable : bool;
  protected : bool;
  sticky : bool;
  tabCreatedAt : Z;
  tabLastUsedAt : Z;
  tab_url : option string;
  requestedUrl : option string;
  tab_title : option string;
  lockedUrl : option string;
}.
Record UnifiedBrowserTab := mkUnified { tab_taskId : string; lifecycle : Lifecycle; base : TabV4 }.
Inductive NavigationOperation := navigate | click | press | go_back | go_forward.
Record BrowserNavigationTransition := mkTransition { operation : NavigationOperation; startedAt : string; transition_expiresAt : string; expectedUrl : option string }.
Record BrowserTabBinding := mkBinding {
  b_tabId : string;
  b_sessionId : string;
  b_remoteTabId : string;
  b_remoteIndex : Z;
  b_url : string;
  b_title : string;
  remoteTabCount : option Z;
  navigation : option BrowserNavigationTransition;
}.
Record RegistryV4 := mkV4 { updatedAt4 : Z; sessions4 : list BrowserSession; tabs4 : list TabV4; bindings4 : list BrowserTabBinding }.
(** Versions 5 and 6, which differ in the version of the tasks. *)
Record RegistryData := mkData {
  updatedAt : Z;
  sessions : list BrowserSession;
  stored_tasks : list BrowserTask;
  tabs : list UnifiedBrowserTab;
  bindings : list BrowserTabBinding;
}.
(** Version 3 knows other drivers and profiles. *)
Inductive LegacyDriverKind := direct | mcp | cli.
#[export] Instance LegacyDriverKind_eq_dec : EqDecision LegacyDriverKind.
Proof. solve_decision. Defined.
Inductive LegacyProfileType := default_chrome | isolated | persistent_profile.
#[export] Instance LegacyProfileType_eq_dec : EqDecision LegacyProfileType.
Proof. solve_decision. Defined.
Record LegacySession := mkLegacySession { l_driver : LegacyDriverKind; l_profileType : LegacyProfileType; fallbackFrom : option LegacyDriverKind;
  fallbackReason : option string; l_session : BrowserSession }.
Record LegacyTab := mkLegacyTab { lt_driver : LegacyDriverKind; l_tab : TabV4 }.
Record LegacyBinding := mkLegacyBinding { lb_driver : LegacyDriverKind; l_binding : BrowserTabBinding }.
Record RegistryV3 := mkV3 { updatedAt3 : Z; sessions3 : list LegacySession; tabs3 : list LegacyTab; bindings3 : list LegacyBinding }.
(** What the file holds: JSON of a version, or something else. *)
Inductive Stored := V6 (d : RegistryData) | V5 (d : RegistryData) | V4 (d : RegistryV4) | V3 (d : RegistryV3) | V2_or_V1 | Other.

Definition LEGACY_UNCLAIMED_OWNER_SCOPE_HASH : string := "legacy-unclaimed".
Definition emptyRegistry : RegistryData := mkData 0 [] [] [] [].

(** [deduplicateBy]: the first of each key.  [map_of]: [new Map(values.map((v) => [keyOf(v), v]))], the last of each key. *)
Definition deduplicateBy {A} (keyOf : A -> string) (values : list A) : list A :=
  jm_values (fold_left (fun m v => if jm_has m (keyOf v) then m else jm_set m (keyOf v) v) values []).
Definition map_of {A} (keyOf : A -> string) (values : list A) : jsmap A := fold_left (fun m v => jm_set m (keyOf v) v) values [].
(** [assertUnique] adds an issue for every repeated key. *)
Definition unique {A} (keyOf : A -> string) (values : list A) : bool := bool_decide (NoDup (map keyOf values)).

Section Registry.
Context (is_url : string -> bool).

(** *** The schemas *)
Definition text_within (least most : Z) (s : string) : bool := (least <=? Z.of_nat (String.length s)) && (Z.of_nat (String.length s) <=? most).
Definition option_all {A} (f : A -> bool) (o : option A) : bool := match o with Some a => f a | None => true end.
Definition session_ok (s : BrowserSession) : bool :=
  text_within 1 128 (sessionId s) && option_all (text_within 1 200) (routingReason s) && option_all (text_within 1 200) (routingPolicyReason s)
  && iso_datetime (sessionCreatedAt s) && iso_datetime (sessionLastUsedAt s).
Definition tab4_ok (t : TabV4) : bool :=
  text_within 1 128 (tabId t) && text_within 1 128 (tab_sessionId t) && text_within 1 256 (remoteTabId t) && (0 <=? remoteIndex t)
  && text_within 1 200 (purpose t) && iso_datetime (tabCreatedAt t) && iso_datetime (tabLastUsedAt t) && option_all is_url (tab_url t)
  && option_all is_url (requestedUrl t) && option_all (text_within 0 500) (tab_title t) && option_all is_url (lockedUrl t).
Definition tab_ok (t : UnifiedBrowserTab) : bool := text_within 1 128 (tab_taskId t) && tab4_ok (base t).
Definition transition_ok (n : BrowserNavigationTransition) : bool :=
  negb (sempty (startedAt n)) && negb (sempty (transition_expiresAt n)) && option_all is_url (expectedUrl n).
Definition binding_ok (b : BrowserTabBinding) : bool :=
  text_within 1 128 (b_tabId b) && text_within 1 128 (b_sessionId b) && text_within 1 256 (b_remoteTabId b) && (0 <=? b_remoteIndex b) && is_url (b_url b)
  && text_within 0 500 (b_title b) && option_all (fun n => 0 <=? n) (remoteTabCount b) && option_all transition_ok (navigation b).
Definition at_most {A} (n : nat) (f : A -> bool) (xs : list A) : bool := (length xs <=? n)%nat && forallb f xs.
Definition registryV4StorageSchema (d : RegistryV4) : bool :=
  iso_datetime (updatedAt4 d) && at_most 100 session_ok (sessions4 d) && at_most 500 tab4_ok (tabs4 d) && at_most 500 binding_ok (bindings4 d).
(** [registryV5StorageSchema] and [registryV6StorageSchema]: the tasks have the version of their own. *)
Definition registryStorageSchema (d : RegistryData) : bool :=
  iso_datetime (updatedAt d) && at_most 100 session_ok (sessions d) && at_most 500 task_schema (stored_tasks d) && at_most 500 tab_ok (tabs d)
  && at_most 500 binding_ok (bindings d).
Definition registryV3StorageSchema (d : RegistryV3) : bool :=
  iso_datetime (updatedAt3 d) && at_most 100 (fun s => session_ok (l_session s) && option_all (text_within 1 500) (fallbackReason s)) (sessions3 d)
  && at_most 500 (fun t => tab4_ok (l_tab t) && bool_decide (requestedUrl (l_tab t) = None)) (tabs3 d)
  && at_most 500 (fun b => binding_ok (l_binding b)) (bindings3 d).

(** The binding of a tab names the same page. *)
Definition bound_to (b : BrowserTabBinding) (t : TabV4) : bool :=
  (b_sessionId b =s tab_sessionId t) && (b_remoteTabId b =s remoteTabId t) && (b_remoteIndex b =? remoteIndex t).
Definition tab_bound (ss : list BrowserSession) (bs : list BrowserTabBinding) (t : TabV4) : bool :=
  jm_has (map_of sessionId ss) (tab_sessionId t)
  && match jm_get (map_of b_tabId bs) (tabId t) with Some b => bound_to b t | None => false end.
(** The refinement of [registryV4Schema]. *)
Definition consistent4 (d : RegistryV4) : bool :=
  unique sessionId (sessions4 d) && unique tabId (tabs4 d) && unique b_tabId (bindings4 d)
  && forallb (tab_bound (sessions4 d) (bindings4 d)) (tabs4 d)
  && forallb (fun b => jm_has (map_of tabId (tabs4 d)) (b_tabId b)) (bindings4 d).
Definition terminal (t : BrowserTask) : bool := includes [finished; expired] (state t).
Definition has_task (tasks : list BrowserTask) (t : UnifiedBrowserTab) : bool :=
  match jm_get (map_of taskId tasks) (tab_taskId t) with
  | Some task => includes (tabIds task) (tabId (base t)) && negb (terminal task)
  | None => false
  end.
Definition task_consistent (ts : list UnifiedBrowserTab) (task : BrowserTask) : bool :=
  bool_decide (NoDup (tabIds task)) && negb (terminal task && negb (bool_decide (tabIds task = [])))
  && forallb (fun id => match jm_get (map_of (fun t => tabId (base t)) ts) id with
                        | Some t => tab_taskId t =s taskId task | None => false end) (tabIds task).
(** The refinement of [registryV6Schema]. *)
Definition consistent (d : RegistryData) : bool :=
  unique sessionId (sessions d) && unique taskId (stored_tasks d) && unique (fun t => tabId (base t)) (tabs d) && unique b_tabId (bindings d)
  && forallb (fun t => tab_bound (sessions d) (bindings d) (base t) && has_task (stored_tasks d) t) (tabs d)
  && forallb (task_consistent (tabs d)) (stored_tasks d)
  && forallb (fun b => jm_has (map_of (fun t => tabId (base t)) (tabs d)) (b_tabId b)) (bindings d).
Definition zod_error : exn := Native "ZodError".
Definition registryV4Schema_parse (d : RegistryV4) : result exn RegistryV4 := if registryV4StorageSchema d && consistent4 d then Ok d else Err zod_error.
Definition registryV6Schema_parse (d : RegistryData) : result exn RegistryData := if registryStorageSchema d && consistent d then Ok d else Err zod_error.

(** *** Recovery *)
Definition by_last_use (left right : BrowserSession) : Z := sessionLastUsedAt right - sessionLastUsedAt left.
Definition disconnect (s : BrowserSession) : BrowserSession :=
  mkSession (sessionId s) (mode s) (if includes [starting; connected] (sessionState s) then disconnected else sessionState s)
    (routingReason s) (routingPolicyReason s) (sessionCreatedAt s) (sessionLastUsedAt s).
Definition recoverV4Registry (data : RegistryV4) : result exn RegistryV4 :=
  let originalStates := map_of sessionId (sessions4 data) in
  let sessions := map disconnect (deduplicateBy sessionId (js_sort by_last_use (sessions4 data))) in
  let bindings := deduplicateBy b_tabId (bindings4 data) in
  let tabs := List.filter (tab_bound sessions bindings) (deduplicateBy tabId (tabs4 data)) in
  let retainedSessions := List.filter (fun s => includes (map tab_sessionId tabs) (sessionId s)
      || match jm_get originalStates (sessionId s) with Some o => bool_decide (sessionState o = disconnected) | None => false end) sessions in
  let retained := includes (map sessionId retainedSessions) in
  registryV4Schema_parse (mkV4 (updatedAt4 data) retainedSessions (List.filter (fun t => retained (tab_sessionId t)) tabs)
    (List.filter (fun b => includes (map tabId tabs) (b_tabId b) && retained (b_sessionId b)) bindings)).
Definition without_tasks (d : RegistryData) : RegistryV4 := mkV4 (updatedAt d) (sessions d) (map base (tabs d)) (bindings d).
Definition parse_task (t : BrowserTask) : result exn BrowserTask := if task_schema t then Ok t else Err zod_error.
Definition parse_tab (t : UnifiedBrowserTab) : result exn UnifiedBrowserTab := if tab_ok t then Ok t else Err zod_error.
(** A task after a restart. *)
Definition suspend (retained : list string) (t : BrowserTask) : BrowserTask :=
  set_tabs (if terminal t then [] else List.filter (includes retained) (tabIds t))
    (set_state (if includes [active; finishing] (state t) then suspended else state t) t).
(** The tab with the task it had, if that task can be taken up again. *)
Definition restore_tab (originalTabs : jsmap UnifiedBrowserTab) (restorable : list string) (t : TabV4) : result exn (option UnifiedBrowserTab) :=
  match jm_get originalTabs (tabId t) with
  | Some o => if includes restorable (tab_taskId o) then Some <$> parse_tab (mkUnified (tab_taskId o) (lifecycle o) t) else Ok None
  | None => Ok None
  end.
Definition recoverV6Registry (data : RegistryData) : result exn RegistryData :=
  let originalTabs := map_of (fun t => tabId (base t)) (tabs data) in
  recoveredV4 ← recoverV4Registry (without_tasks data);
  tasks ← mapM (fun t => parse_task (suspend (map tabId (tabs4 recoveredV4)) t)) (deduplicateBy taskId (stored_tasks data));
  let restorableTaskIds := map taskId (List.filter (fun t => includes [active; suspended] (state t)) tasks) in
  restored ← mapM (restore_tab originalTabs restorableTaskIds) (tabs4 recoveredV4);
  let tabs := omap id restored in
  let finalTabIds := map (fun t => tabId (base t)) tabs in
  registryV6Schema_parse (mkData (updatedAt data) (sessions4 recoveredV4) (map (fun t => set_tabs (List.filter (includes finalTabIds) (tabIds t)) t) tasks) tabs
    (List.filter (fun b => includes finalTabIds (b_tabId b)) (bindings4 recoveredV4))).

(** *** Migrations *)
Definition retire (t : BrowserTask) : BrowserTask :=
  mkTask (taskId t) (ownerScopeHash t) (if bool_decide (state t = finished) then finished else expired) [] (createdAt t) (lastActivityAt t)
    (if terminal t then expiresAt t else lastActivityAt t).
Definition migrateV5Registry (data : RegistryData) : result exn RegistryData :=
  recoveredV4 ← recoverV4Registry (without_tasks data);
  tasks ← mapM (fun t => parse_task (retire t)) (deduplicateBy taskId (stored_tasks data));
  registryV6Schema_parse (mkData (updatedAt data) (sessions4 recoveredV4) tasks [] []).
Definition task_name (s : BrowserSession) : string := "task-" +:+ sessionId s.
Definition migrateV4Registry (now : Z) (data : RegistryV4) : result exn RegistryData :=
  recovered ← recoverV4Registry data;
  tasks ← mapM (fun s => parse_task (mkTask (task_name s) LEGACY_UNCLAIMED_OWNER_SCOPE_HASH suspended
      (map tabId (List.filter (fun t => tab_sessionId t =s sessionId s) (tabs4 recovered))) (sessionCreatedAt s) (sessionLastUsedAt s) (now + 10 * 60 * 1000)))
    (sessions4 recovered);
  let data := mkData (updatedAt4 recovered) (sessions4 recovered) tasks
    (map (fun t => mkUnified ("task-" +:+ tab_sessionId t) task_scoped t) (tabs4 recovered)) (bindings4 recovered) in
  if registryStorageSchema data then migrateV5Registry data else Err zod_error.
Definition migrateV3Registry (now : Z) (data : RegistryV3) : result exn RegistryData :=
  let sessions := map l_session (List.filter (fun s => bool_decide (l_driver s = direct) && bool_decide (l_profileType s = persistent_profile)) (sessions3 data)) in
  let tabs := map l_tab (List.filter (fun t => bool_decide (lt_driver t = direct) && includes (map sessionId sessions) (tab_sessionId (l_tab t))) (tabs3 data)) in
  let bindings := map l_binding (List.filter (fun b => bool_decide (lb_driver b = direct) && includes (map sessionId sessions) (b_sessionId (l_binding b))
    && includes (map tabId tabs) (b_tabId (l_binding b))) (bindings3 data)) in
  let v4 := mkV4 (updatedAt3 data) sessions tabs bindings in
  if registryV4StorageSchema v4 then migrateV4Registry now v4 else Err zod_error.

(** *** [load] and [save] *)
(** [file] is what the file holds, if there is one. *)
Definition load (now : Z) (file : option Stored) : result exn RegistryData :=
  match file with
  | None => Ok emptyRegistry
  | Some (V6 d) => if registryStorageSchema d then recoverV6Registry d else Err zod_error
  | Some (V5 d) => if registryStorageSchema d then migrateV5Registry d else Err zod_error
  | Some (V4 d) => if registryV4StorageSchema d then migrateV4Registry now d else Err zod_error
  | Some (V3 d) => if registryV3StorageSchema d then migrateV3Registry now d else Err zod_error
  | Some V2_or_V1 => Ok emptyRegistry
  | Some Other => Err zod_error
  end.
(** What [save] accepts, before it queues the write. *)
Definition save (now : Z) (sessions : list BrowserSession) (tabs : list UnifiedBrowserTab) (bindings : list BrowserTabBinding) (tasks : list BrowserTask) :
    result exn RegistryData :=
  if negb (bool_decide (tabs = [])) && bool_decide (tasks = []) then Err (Native "Browser tasks are required when persisted tabs are present.")
  else registryV6Schema_parse (mkData now sessions tasks tabs bindings).
End Registry.

(** *** Writing the file *)
Inductive RenameOutcome := renamed | refused (code : option string).
Definition TRANSIENT_RENAME_CODES : list string := ["EACCES"; "EBUSY"; "EEXIST"; "ENOTEMPTY"; "EPERM"].
(** The loop of [renameWithRetry]: [true] when it returns, [false] when it throws. *)
Fixpoint rename_loop (outcome : nat -> RenameOutcome) (attempt left : nat) : bool :=
  match left with
  | O => true
  | S left' =>
      match outcome attempt with
      | renamed => true
      | refused code =>
          if negb (match code with Some c => negb (sempty c) && includes TRANSIENT_RENAME_CODES c | None => false end) || (left' =? 0)%nat then false
          else rename_loop outcome (S attempt) left'
      end
  end.
Definition renameWithRetry (outcome : nat -> RenameOutcome) : bool := rename_loop outcome 0 6.
(** What the calls of the file system do in one [persist]. *)
Record SaveIO := mkSaveIO { io_mkdir : bool; io_write : bool; io_rename : nat -> RenameOutcome }.
Definition persist (io : SaveIO) (data : RegistryData) (file : option Stored) : option Stored * bool :=
  if io_mkdir io && io_write io && renameWithRetry (io_rename io) then (Some (V6 data), true) else (file, false).
(** The file and the saves that wait for the ones before them ([saveTail]). *)
Record Saver := mkSaver { file : option Stored; waiting : list RegistryData }.
Inductive SaveEvent := saved (data : RegistryData) | persisted (io : SaveIO).
Definition save_step (s : Saver) (e : SaveEvent) : Saver :=
  match e with
  | saved data => mkSaver (file s) (waiting s ++ [data])
  | persisted io => match waiting s with [] => s | data :: rest => mkSaver (persist io data (file s)).1 rest end
  end.

(** *** Lists with unique keys *)
Lemma set_fresh_key {A} (m : jsmap A) k a : k ∉ jm_keys m -> jm_set m k a = m ++ [(k, a)].
Proof. intros H. apply jm_set_fresh. by apply jm_get_none. Qed.
Lemma jm_has_fresh {A} (m : jsmap A) k : k ∉ jm_keys m -> jm_has m k = false.
Proof. intros Hn. unfold jm_has. by rewrite (proj2 (jm_get_none m k) Hn). Qed.
Section Keys.
Context {A : Type} (keyOf : A -> string).
Definition pairs (xs : list A) : jsmap A := map (fun v => (keyOf v, v)) xs.
Lemma keys_pairs xs : jm_keys (pairs xs) = map keyOf xs.
Proof. unfold jm_keys, pairs. by rewrite map_map. Qed.
Lemma fresh_key acc x xs : NoDup (map keyOf (acc ++ x :: xs)) -> keyOf x ∉ jm_keys (pairs acc).
Proof. rewrite keys_pairs, map_app. intros (_ & Hn & _)%NoDup_app Hin. apply (Hn _ Hin). left. Qed.
Lemma map_of_unique xs : NoDup (map keyOf xs) -> map_of keyOf xs = pairs xs.
Proof.
  intros Hn. unfold map_of. assert (forall acc, NoDup (map keyOf (acc ++ xs)) -> fold_left (fun m v => jm_set m (keyOf v) v) xs (pairs acc) = pairs (acc ++ xs)) as H;
    [|exact (H [] Hn)]. clear Hn.
  induction xs as [|x xs IH]; intros acc Hn; cbn [fold_left]; [by rewrite app_nil_r|]. rewrite set_fresh_key by (by apply fresh_key with xs).
  replace (pairs acc ++ [(keyOf x, x)]) with (pairs (acc ++ [x])) by (unfold pairs; by rewrite map_app). rewrite IH; by rewrite <- app_assoc.
Qed.
Lemma dedup_unique xs : NoDup (map keyOf xs) -> deduplicateBy keyOf xs = xs.
Proof.
  intros Hn. unfold deduplicateBy. assert (forall acc, NoDup (map keyOf (acc ++ xs)) ->
    fold_left (fun m v => if jm_has m (keyOf v) then m else jm_set m (keyOf v) v) xs (pairs acc) = pairs (acc ++ xs)) as H.
  { clear Hn. induction xs as [|x xs IH]; intros acc Hn; cbn [fold_left]; [by rewrite app_nil_r|].
    pose proof (fresh_key _ _ _ Hn) as Hf. rewrite jm_has_fresh, set_fresh_key by done.
    replace (pairs acc ++ [(keyOf x, x)]) with (pairs (acc ++ [x])) by (unfold pairs; by rewrite map_app). rewrite IH; by rewrite <- app_assoc. }
  change (@nil (string * A)) with (pairs []). rewrite H by done. unfold jm_values, pairs. cbn. rewrite map_map. apply map_id.
Qed.
Lemma get_unique xs k v : NoDup (map keyOf xs) -> jm_get (map_of keyOf xs) k = Some v <-> v ∈ xs /\ keyOf v = k.
Proof.
  intros Hn. rewrite map_of_unique by done. assert (jm_wf (pairs xs)) as Hw by (unfold jm_wf; by rewrite keys_pairs). split.
  - intros H%jm_get_in. apply list_elem_of_In, in_map_iff in H as (w & [= <- <-] & Hin). split; [by apply list_elem_of_In|done].
  - intros [Hin <-]. apply jm_in_get; [done|]. apply list_elem_of_In, in_map_iff. exists v. split; [done|by apply list_elem_of_In].
Qed.
(** What the keys say does not depend on uniqueness. *)
Lemma has_keys xs k : jm_has (map_of keyOf xs) k = true <-> k ∈ map keyOf xs.
Proof.
  unfold map_of. assert (forall m, jm_has (fold_left (fun m v => jm_set m (keyOf v) v) xs m) k = true <-> k ∈ jm_keys m \/ k ∈ map keyOf xs) as H.
  { induction xs as [|x xs IH]; intros m; cbn.
    - unfold jm_has. destruct (jm_get m k) eqn:E; [split; [left; by eapply jm_in_keys, jm_get_in|done]|]. apply jm_get_none in E. set_solver.
    - rewrite IH, jm_keys_set, elem_of_cons. unfold jm_has. destruct (jm_get m (keyOf x)) eqn:E.
      + apply jm_get_in, jm_in_keys in E. split; [tauto|]. intros [?|[->|?]]; auto.
      + rewrite elem_of_app, list_elem_of_singleton. tauto. }
  rewrite H. set_solver.
Qed.
End Keys.
Lemma filter_everything {A} (f : A -> bool) xs : (forall x, x ∈ xs -> f x = true) -> List.filter f xs = xs.
Proof.
  induction xs as [|x xs IH]; [done|]. intros H. cbn. rewrite H by left. f_equal. apply IH. intros y Hy. apply H. by right.
Qed.
Section Dedup.
Context {A : Type} (keyOf : A -> string).
Lemma dedup_keyed xs : jm_wf (fold_left (fun m v => if jm_has m (keyOf v) then m else jm_set m (keyOf v) v) xs [])
  /\ forall k v, (k, v) ∈ fold_left (fun m v => if jm_has m (keyOf v) then m else jm_set m (keyOf v) v) xs [] -> k = keyOf v /\ v ∈ xs.
Proof.
  assert (forall ys (m : jsmap A), jm_wf m -> (forall k v, (k, v) ∈ m -> k = keyOf v /\ v ∈ ys ++ xs) ->
    jm_wf (fold_left (fun m v => if jm_has m (keyOf v) then m else jm_set m (keyOf v) v) xs m)
    /\ forall k v, (k, v) ∈ fold_left (fun m v => if jm_has m (keyOf v) then m else jm_set m (keyOf v) v) xs m -> k = keyOf v /\ v ∈ ys ++ xs) as H.
  { induction xs as [|x xs IH]; intros ys m Hw Hm; cbn [fold_left]; [done|].
    replace (ys ++ x :: xs) with ((ys ++ [x]) ++ xs) in * by (by rewrite <- app_assoc). apply IH.
    - destruct (jm_has m (keyOf x)); [done|by apply jm_wf_set].
    - intros k v. destruct (jm_has m (keyOf x)) eqn:E; [apply Hm|].
      assert (Hf : keyOf x ∉ jm_keys m) by (apply jm_get_none; unfold jm_has in E; by destruct (jm_get m (keyOf x))).
      rewrite (set_fresh_key m (keyOf x) x Hf). intros [Hin|Hin%list_elem_of_singleton]%elem_of_app; [by apply Hm|]. injection Hin as -> ->. set_solver. }
  destruct (H [] []) as [H1 H2]; [constructor|by intros ?? ?%elem_of_nil|]. split; [done|]. exact H2.
Qed.
Lemma dedup_in x xs : x ∈ deduplicateBy keyOf xs -> x ∈ xs.
Proof.
  intros H%list_elem_of_In%in_map_iff. destruct H as ([k v] & <- & Hin). by apply (proj2 (dedup_keyed xs) k v), list_elem_of_In.
Qed.
Lemma dedup_nodup xs : NoDup (map keyOf (deduplicateBy keyOf xs)).
Proof.
  destruct (dedup_keyed xs) as [Hw Hk]. unfold deduplicateBy, jm_values. unfold jm_wf, jm_keys in Hw.
  set (m := fold_left _ _ _) in *. replace (map keyOf (map snd m)) with (map fst m); [done|]. rewrite map_map. apply map_ext_in.
  intros [k v] Hin%list_elem_of_In. by apply Hk.
Qed.
Lemma dedup_by_length xs : (length (deduplicateBy keyOf xs) <= length xs)%nat.
Proof.
  unfold deduplicateBy, jm_values. rewrite length_map. assert (forall m : jsmap A,
    (length (fold_left (fun m v => if jm_has m (keyOf v) then m else jm_set m (keyOf v) v) xs m) <= length m + length xs)%nat) as H; [|apply (H [])].
  induction xs as [|x xs IH]; intros m; cbn [fold_left length]; [lia|]. etrans; [apply IH|]. destruct (jm_has m (keyOf x)) eqn:E; [lia|].
  pose proof (jm_size_set m (keyOf x) x) as Hs. rewrite E in Hs. unfold jm_size in Hs. lia.
Qed.
End Dedup.
Lemma filter_nodup {A} (keyOf : A -> string) (f : A -> bool) xs : NoDup (map keyOf xs) -> NoDup (map keyOf (List.filter f xs)).
Proof.
  induction xs as [|x xs IH]; [done|]. cbn. intros [Hx Hn]%NoDup_cons. destruct (f x); [|by apply IH]. cbn. apply NoDup_cons. split; [|by apply IH].
  intros Hin%list_elem_of_In%in_map_iff. destruct Hin as (y & E & Hy%filter_In). apply Hx. rewrite <- E. apply list_elem_of_In, in_map, Hy.
Qed.
Lemma in_List_filter {A} (f : A -> bool) xs x : x ∈ List.filter f xs <-> x ∈ xs /\ f x = true.
Proof. by rewrite !list_elem_of_In, filter_In. Qed.
Lemma in_map_key {A B} (keyOf : A -> B) xs k : k ∈ map keyOf xs <-> exists x, x ∈ xs /\ keyOf x = k.
Proof. rewrite list_elem_of_In, in_map_iff. split; intros (x & ? & ?); exists x; [|split; [done|]]; rewrite ?list_elem_of_In in *; auto. Qed.
Lemma forallb_in {A} (f : A -> bool) xs : forallb f xs = true <-> forall x, x ∈ xs -> f x = true.
Proof. rewrite forallb_forall. split; intros H x Hx; apply H; by apply list_elem_of_In. Qed.
Lemma at_most_sub {A} n (f : A -> bool) xs ys : at_most n f xs = true -> (length ys <= length xs)%nat -> (forall y, y ∈ ys -> y ∈ xs) -> at_most n f ys = true.
Proof.
  unfold at_most. rewrite !andb_true_iff, !Nat.leb_le, !forallb_in. intros [H1 H2] H3 H4. split; [lia|]. auto.
Qed.
Lemma filter_length {A} (f : A -> bool) xs : (length (List.filter f xs) <= length xs)%nat.
Proof. induction xs as [|x xs IH]; cbn; [lia|]. destruct (f x); cbn; lia. Qed.

Section Recovery.
Context (is_url : string -> bool).
Notation recoverV4Registry := (recoverV4Registry is_url).
Notation registryV4StorageSchema := (registryV4StorageSchema is_url).
Notation registryStorageSchema := (registryStorageSchema is_url).
Lemma disconnect_id s : sessionId (disconnect s) = sessionId s. Proof. done. Qed.
Lemma disconnect_ok s : session_ok (disconnect s) = session_ok s. Proof. done. Qed.
Lemma map_disconnect ss : map sessionId (map disconnect ss) = map sessionId ss.
Proof. rewrite map_map. by apply map_ext. Qed.
(** The parts of the recovered registry. *)
Definition all_sessions (d : RegistryV4) : list BrowserSession := map disconnect (deduplicateBy sessionId (js_sort by_last_use (sessions4 d))).
Definition all_bindings (d : RegistryV4) : list BrowserTabBinding := deduplicateBy b_tabId (bindings4 d).
Definition bound_tabs (d : RegistryV4) : list TabV4 := List.filter (tab_bound (all_sessions d) (all_bindings d)) (deduplicateBy tabId (tabs4 d)).
Definition kept_session (d : RegistryV4) (s : BrowserSession) : bool := includes (map tab_sessionId (bound_tabs d)) (sessionId s)
  || match jm_get (map_of sessionId (sessions4 d)) (sessionId s) with Some o => bool_decide (sessionState o = disconnected) | None => false end.
Definition kept_sessions (d : RegistryV4) : list BrowserSession := List.filter (kept_session d) (all_sessions d).
Definition recovered (d : RegistryV4) : RegistryV4 :=
  let retained := includes (map sessionId (kept_sessions d)) in
  mkV4 (updatedAt4 d) (kept_sessions d) (List.filter (fun t => retained (tab_sessionId t)) (bound_tabs d))
    (List.filter (fun b => includes (map tabId (bound_tabs d)) (b_tabId b) && retained (b_sessionId b)) (all_bindings d)).
Lemma recover_is d : recoverV4Registry d = registryV4Schema_parse is_url (recovered d). Proof. done. Qed.
Lemma bound_tab_sessions d t : t ∈ bound_tabs d -> tab_sessionId t ∈ map sessionId (kept_sessions d).
Proof.
  intros Ht. pose proof Ht as Hb. apply in_List_filter in Hb as [_ Hb]. apply andb_true_iff in Hb as [Hs _]. apply has_keys in Hs.
  apply in_map_key in Hs as (s & Hs & E). apply in_map_key. exists s. split; [|done]. apply in_List_filter. split; [done|]. apply orb_true_iff. left.
  apply includes_spec. rewrite E. apply in_map_key. by exists t.
Qed.
Lemma recovered_tabs d : tabs4 (recovered d) = bound_tabs d.
Proof. apply filter_everything. intros t Ht. by apply includes_spec, bound_tab_sessions. Qed.
Lemma bound_binding d t : t ∈ bound_tabs d -> exists b, b ∈ all_bindings d /\ b_tabId b = tabId t /\ bound_to b t = true.
Proof.
  intros Hb. apply in_List_filter in Hb as [_ Hb]. apply andb_true_iff in Hb as [_ Hb]. destruct (jm_get _ _) as [b|] eqn:E; [|done].
  apply get_unique in E as [Hin Eb]; [|apply dedup_nodup]. by exists b.
Qed.
Lemma bound_session b t : bound_to b t = true -> b_sessionId b = tab_sessionId t.
Proof. unfold bound_to. intros H. apply andb_true_iff in H as [[H _]%andb_true_iff _]. by apply String.eqb_eq. Qed.
Lemma recovered_consistent d : consistent4 (recovered d) = true.
Proof.
  assert (Hn1 : NoDup (map sessionId (kept_sessions d))).
  { apply filter_nodup. unfold all_sessions. rewrite map_disconnect. apply dedup_nodup. }
  assert (Hn2 : NoDup (map tabId (bound_tabs d))) by apply filter_nodup, dedup_nodup.
  assert (Hn3 : NoDup (map b_tabId (bindings4 (recovered d)))) by apply filter_nodup, dedup_nodup.
  unfold consistent4. rewrite recovered_tabs. change (sessions4 (recovered d)) with (kept_sessions d). unfold unique. rewrite !andb_true_iff, !bool_decide_eq_true, !forallb_in.
  split_and!; try done.
  - intros t Ht. unfold tab_bound. rewrite (proj2 (has_keys sessionId _ _) (bound_tab_sessions d t Ht)). destruct (bound_binding d t Ht) as (b & Hb & Eb & H).
    rewrite (proj2 (get_unique b_tabId _ (tabId t) b Hn3)); [done|]. split; [|done]. apply in_List_filter. split; [done|]. apply andb_true_iff.
    split; apply includes_spec; [rewrite Eb; apply in_map_key; by exists t|]. rewrite (bound_session _ _ H). by apply bound_tab_sessions.
  - intros b Hb. apply in_List_filter in Hb as [_ Hb]. apply andb_true_iff in Hb as [Hb _]. apply has_keys. by apply includes_spec in Hb.
Qed.
Lemma recovered_storage d : registryV4StorageSchema d = true -> registryV4StorageSchema (recovered d) = true.
Proof.
  unfold SessionRegistry.registryV4StorageSchema. rewrite !andb_true_iff. intros [[[Hu Hs] Ht] Hb]. split_and!; [done| | |].
  - change (sessions4 (recovered d)) with (kept_sessions d). unfold at_most in *. rewrite !andb_true_iff, !Nat.leb_le, !forallb_in in *. destruct Hs as [Hl Hs].
    split.
    + etrans; [apply filter_length|]. unfold all_sessions. rewrite length_map. etrans; [apply dedup_by_length|]. by rewrite js_sort_perm.
    + intros s Hin. apply in_List_filter in Hin as [Hin _]. unfold all_sessions in Hin. apply list_elem_of_In, in_map_iff in Hin as (s' & <- & Hin).
      rewrite disconnect_ok. apply Hs. apply list_elem_of_In, dedup_in in Hin. by apply elem_of_js_sort in Hin.
  - apply (at_most_sub _ _ (tabs4 d)); [done|rewrite recovered_tabs; etrans; [apply filter_length|apply dedup_by_length]|].
    rewrite recovered_tabs. intros t Hin. apply in_List_filter in Hin as [Hin _]. by apply dedup_in in Hin.
  - apply (at_most_sub _ _ (bindings4 d)); [done|etrans; [apply filter_length|apply dedup_by_length]|].
    intros t Hin. apply in_List_filter in Hin as [Hin _]. by apply dedup_in in Hin.
Qed.
Lemma recover_ok d : registryV4StorageSchema d = true -> recoverV4Registry d = Ok (recovered d).
Proof. intros H. rewrite recover_is. unfold registryV4Schema_parse. by rewrite recovered_storage, recovered_consistent. Qed.
(** *** What was saved comes back *)
Definition resumed_sessions (ss : list BrowserSession) (ts : list TabV4) : list BrowserSession :=
  map disconnect (List.filter (fun s => includes (map tab_sessionId ts) (sessionId s) || bool_decide (sessionState s = disconnected)) (js_sort by_last_use ss)).
Definition resume_task (t : BrowserTask) : BrowserTask := set_state (if includes [active; finishing] (state t) then suspended else state t) t.
Definition resumed (d : RegistryData) : RegistryData :=
  mkData (updatedAt d) (resumed_sessions (sessions d) (map base (tabs d))) (map resume_task (stored_tasks d)) (tabs d) (bindings d).
Lemma filter_map {A B} (f : B -> bool) (g : A -> B) xs : List.filter f (map g xs) = map g (List.filter (fun x => f (g x)) xs).
Proof. induction xs as [|x xs IH]; [done|]. cbn. rewrite IH. by destruct (f (g x)). Qed.
Lemma filter_same {A} (f g : A -> bool) xs : (forall x, x ∈ xs -> f x = g x) -> List.filter f xs = List.filter g xs.
Proof. induction xs as [|x xs IH]; [done|]. intros H. cbn. rewrite IH by (intros y Hy; apply H; by right). by rewrite (H x) by left. Qed.
Lemma sorted_nodup ss : NoDup (map sessionId ss) -> NoDup (map sessionId (js_sort by_last_use ss)).
Proof. intros H. eapply NoDup_Permutation_proper; [|exact H]. apply Permutation_map, js_sort_perm. Qed.
Lemma recovered_exact d : consistent4 d = true ->
  recovered d = mkV4 (updatedAt4 d) (resumed_sessions (sessions4 d) (tabs4 d)) (tabs4 d) (bindings4 d).
Proof.
  unfold consistent4, unique. rewrite !andb_true_iff, !bool_decide_eq_true, !forallb_in. intros [[[[Hs Ht] Hb] Hbound] Hbind].
  assert (all_bindings d = bindings4 d) as Eb by (by apply dedup_unique).
  assert (all_sessions d = map disconnect (js_sort by_last_use (sessions4 d))) as Es by (unfold all_sessions; by rewrite dedup_unique by (by apply sorted_nodup)).
  assert (bound_tabs d = tabs4 d) as Et.
  { unfold bound_tabs. rewrite dedup_unique by done. apply filter_everything. intros t Hin. apply Hbound in Hin. unfold tab_bound in *. rewrite Eb.
    apply andb_true_iff in Hin as [Hk Hin]. rewrite Hin, andb_true_r. apply has_keys. apply has_keys in Hk. rewrite Es, map_disconnect.
    eapply elem_of_Permutation_proper; [|exact Hk]. apply Permutation_map, js_sort_perm. }
  assert (kept_sessions d = resumed_sessions (sessions4 d) (tabs4 d)) as Ek.
  { unfold kept_sessions. rewrite Es, filter_map. unfold resumed_sessions. f_equal. apply filter_same. intros s Hin. unfold kept_session. rewrite Et.
    change (sessionId (disconnect s)) with (sessionId s). f_equal. apply elem_of_js_sort in Hin. by rewrite (proj2 (get_unique sessionId _ (sessionId s) s Hs) (conj Hin eq_refl)). }
  unfold recovered. rewrite Ek, Et, Eb. f_equal.
  - apply filter_everything. intros t Hin. apply includes_spec. rewrite <- Ek. apply bound_tab_sessions. by rewrite Et.
  - apply filter_everything. intros b Hin. pose proof (Hbind b Hin) as Hk. apply has_keys, in_map_key in Hk as (t & Hin' & E). apply andb_true_iff. split; apply includes_spec.
    + apply in_map_key. by exists t.
    + rewrite <- Et in Hin'. destruct (bound_binding d t Hin') as (b' & Hb' & E' & Hto). rewrite Eb in Hb'.
      assert (b' = b) as ->.
      { assert (jm_get (map_of b_tabId (bindings4 d)) (tabId t) = Some b') as E1 by (by apply get_unique).
        assert (jm_get (map_of b_tabId (bindings4 d)) (tabId t) = Some b) as E2 by (by apply get_unique). congruence. }
      rewrite (bound_session _ _ Hto), <- Ek. by apply bound_tab_sessions.
Qed.
(** What a consistent registry says. *)
Record Consistent_data (d : RegistryData) : Prop := mkConsistent {
  c_sessions : NoDup (map sessionId (sessions d));
  c_tasks : NoDup (map taskId (stored_tasks d));
  c_tabs : NoDup (map (fun t => tabId (base t)) (tabs d));
  c_bindings : NoDup (map b_tabId (bindings d));
  c_bound : forall t, t ∈ tabs d -> tab_bound (sessions d) (bindings d) (base t) = true;
  c_owned : forall t, t ∈ tabs d -> exists task, task ∈ stored_tasks d /\ taskId task = tab_taskId t /\ tabId (base t) ∈ tabIds task /\ terminal task = false;
  c_listed : forall task, task ∈ stored_tasks d -> NoDup (tabIds task) /\ (terminal task = true -> tabIds task = [])
    /\ forall id, id ∈ tabIds task -> exists t, t ∈ tabs d /\ tabId (base t) = id /\ tab_taskId t = taskId task;
  c_registered : forall b, b ∈ bindings d -> exists t, t ∈ tabs d /\ tabId (base t) = b_tabId b;
}.
Lemma task_consistent_spec ts task : NoDup (map (fun t => tabId (base t)) ts) -> task_consistent ts task = true <->
  NoDup (tabIds task) /\ (terminal task = true -> tabIds task = []) /\ forall id, id ∈ tabIds task -> exists t, t ∈ ts /\ tabId (base t) = id /\ tab_taskId t = taskId task.
Proof.
  intros Hn. unfold task_consistent. rewrite !andb_true_iff, bool_decide_eq_true, negb_true_iff, andb_false_iff, negb_false_iff, bool_decide_eq_true, forallb_in.
  split; [intros [[H1 H2] H3]|intros (H1 & H2 & H3)]; split_and!; try done.
  - intros Ht. destruct H2; [congruence|done].
  - intros id Hid. specialize (H3 id Hid). destruct (jm_get _ id) as [t|] eqn:E; [|done]. apply get_unique in E as [Hin E]; [|done].
    exists t. split_and!; [done|done|by apply String.eqb_eq].
  - destruct (terminal task); [right; by apply H2|by left].
  - intros id Hid. destruct (H3 id Hid) as (t & Hin & E & Et). rewrite (proj2 (get_unique (fun t => tabId (base t)) ts id t Hn)) by done. rewrite Et. apply String.eqb_refl.
Qed.
Lemma consistent_spec d : consistent d = true <-> Consistent_data d.
Proof.
  unfold consistent, unique. rewrite !andb_true_iff, !bool_decide_eq_true, !forallb_in. split.
  - intros [[[[[[H1 H2] H3] H4] H5] H6] H7]. constructor; try done.
    + intros t Hin. specialize (H5 t Hin). by apply andb_true_iff in H5 as [H5 _].
    + intros t Hin. specialize (H5 t Hin). apply andb_true_iff in H5 as [_ H5]. unfold has_task in H5. destruct (jm_get _ _) as [task|] eqn:E; [|done].
      apply get_unique in E as [Hin' E]; [|done]. apply andb_true_iff in H5 as [Hi%includes_spec Ht%negb_true_iff]. by exists task.
    + intros task Hin. by apply task_consistent_spec, H6.
    + intros b Hin. specialize (H7 b Hin). by apply has_keys, in_map_key in H7.
  - intros []. split_and!; try done.
    + intros t Hin. rewrite c_bound0 by done. destruct (c_owned0 t Hin) as (task & Hin' & E & Hi & Ht). cbn. unfold has_task.
      rewrite (proj2 (get_unique taskId _ (tab_taskId t) task c_tasks0)) by done. rewrite Ht, andb_true_r. by apply includes_spec.
    + intros task Hin. by apply task_consistent_spec, c_listed0.
    + intros b Hin. apply has_keys, in_map_key. by apply c_registered0.
Qed.
Lemma consistent_v4 d : Consistent_data d -> consistent4 (without_tasks d) = true.
Proof.
  intros []. unfold consistent4, unique. cbn [without_tasks sessions4 tabs4 bindings4]. rewrite !andb_true_iff, !bool_decide_eq_true, !forallb_in, map_map.
  split_and!; try done.
  - intros t Hin. apply list_elem_of_In, in_map_iff in Hin as (t' & <- & Hin%list_elem_of_In). by apply c_bound0.
  - intros b Hin. destruct (c_registered0 b Hin) as (t & Ht & E). apply has_keys. rewrite map_map. apply in_map_key. by exists t.
Qed.
Lemma without_storage d : registryStorageSchema d = true -> registryV4StorageSchema (without_tasks d) = true.
Proof.
  unfold SessionRegistry.registryStorageSchema, SessionRegistry.registryV4StorageSchema. rewrite !andb_true_iff. intros [[[[Hu Hs] _] Ht] Hb]. split_and!; try done.
  unfold at_most in *. cbn [without_tasks tabs4]. rewrite length_map. rewrite !andb_true_iff, !forallb_in in *. destruct Ht as [Hl Ht]. split; [done|].
  intros t Hin. apply list_elem_of_In, in_map_iff in Hin as (t' & <- & Hin%list_elem_of_In). apply Ht in Hin. by apply andb_true_iff in Hin as [_ Hin].
Qed.
Lemma suspend_is d task : Consistent_data d -> task ∈ stored_tasks d -> suspend (map tabId (map base (tabs d))) task = resume_task task.
Proof.
  intros [] Hin. destruct (c_listed0 task Hin) as (_ & Ht & Hl). unfold suspend, resume_task. 
  assert ((if terminal task then [] else List.filter (includes (map tabId (map base (tabs d)))) (tabIds task)) = tabIds task) as ->; [|done].
  destruct (terminal task); [symmetry; by apply Ht|]. apply filter_everything. intros id Hid. apply includes_spec. destruct (Hl id Hid) as (t & Hin' & E & _).
  rewrite map_map. apply in_map_key. by exists t.
Qed.
Lemma mapM_ok {A B} (f : A -> result exn B) (g : A -> B) xs : (forall x, x ∈ xs -> f x = Ok (g x)) -> mapM f xs = Ok (map g xs).
Proof.
  induction xs as [|x xs IH]; [done|]. intros H. cbn. rewrite (H x) by left. cbn. rewrite IH by (intros y Hy; apply H; by right). done.
Qed.
Lemma resume_terminal t : terminal (resume_task t) = terminal t.
Proof. unfold resume_task, terminal. by destruct (state t) eqn:E; cbn; rewrite ?E. Qed.
Lemma in_resumed_sessions s ss ts : s ∈ resumed_sessions ss ts -> exists s', s' ∈ ss /\ s = disconnect s'.
Proof.
  intros H%list_elem_of_In%in_map_iff. destruct H as (s' & <- & Hin%list_elem_of_In). apply in_List_filter in Hin as [Hin _].
  apply elem_of_js_sort in Hin. by exists s'.
Qed.
Lemma resumed_sessions_nodup ss ts : NoDup (map sessionId ss) -> NoDup (map sessionId (resumed_sessions ss ts)).
Proof. intros H. unfold resumed_sessions. rewrite map_disconnect. by apply filter_nodup, sorted_nodup. Qed.
Lemma resumed_has ss ts t : t ∈ ts -> tab_sessionId t ∈ map sessionId ss -> tab_sessionId t ∈ map sessionId (resumed_sessions ss ts).
Proof.
  intros Ht Hs. unfold resumed_sessions. rewrite map_disconnect. apply in_map_key in Hs as (s & Hs & E). apply in_map_key. exists s. split; [|done].
  apply in_List_filter. split; [by apply elem_of_js_sort|]. apply orb_true_iff. left. apply includes_spec. rewrite E. apply in_map_key. by exists t.
Qed.
Lemma resumed_consistent d : Consistent_data d -> Consistent_data (resumed d).
Proof.
  intros []. constructor; cbn [resumed sessions stored_tasks tabs bindings]; try done.
  - by apply resumed_sessions_nodup.
  - by rewrite map_map.
  - intros t Hin. pose proof (c_bound0 t Hin) as H. unfold tab_bound in *. apply andb_true_iff in H as [Hs H]. rewrite H, andb_true_r. apply has_keys.
    apply (resumed_has _ _ (base t)); [apply in_map_key; by exists t|]. by apply has_keys in Hs.
  - intros t Hin. destruct (c_owned0 t Hin) as (task & Hk & E & Hi & Ht). exists (resume_task task). rewrite resume_terminal. split_and!; try done.
    apply in_map_key. by exists task.
  - intros task Hin. apply in_map_key in Hin as (t & Hin & <-). rewrite resume_terminal. apply (c_listed0 t Hin).
Qed.
Lemma at_most_map {A B} n (f : B -> bool) (g : A -> B) (h : A -> bool) xs : (forall x, h x = true -> f (g x) = true) -> at_most n h xs = true -> at_most n f (map g xs) = true.
Proof.
  unfold at_most. rewrite length_map, !andb_true_iff, !forallb_in. intros H [H1 H2]. split; [done|]. intros y Hy. apply in_map_key in Hy as (x & Hx & <-). auto.
Qed.
Lemma resumed_storage d : registryStorageSchema d = true -> registryStorageSchema (resumed d) = true.
Proof.
  unfold SessionRegistry.registryStorageSchema. rewrite !andb_true_iff. intros [[[[Hu Hs] Hk] Ht] Hb]. split_and!; try done; cbn [resumed sessions stored_tasks].
  - apply (at_most_map _ _ _ session_ok); [done|]. apply (at_most_sub _ _ (sessions d)); [done|etrans; [apply filter_length|by rewrite js_sort_perm]|].
    intros s Hin. apply in_List_filter in Hin as [Hin _]. by apply elem_of_js_sort in Hin.
  - by apply (at_most_map _ _ _ task_schema).
Qed.
Lemma parse_resume d task : registryStorageSchema d = true -> task ∈ stored_tasks d -> parse_task (resume_task task) = Ok (resume_task task).
Proof.
  intros H Hin. unfold SessionRegistry.registryStorageSchema in H. rewrite !andb_true_iff in H. destruct H as [[[_ H] _] _]. unfold at_most in H.
  apply andb_true_iff in H as [_ H]. rewrite forallb_in in H. unfold parse_task. change (task_schema (resume_task task)) with (task_schema task). by rewrite H.
Qed.
Lemma restore_is d t : registryStorageSchema d = true -> Consistent_data d -> t ∈ tabs d ->
  restore_tab is_url (map_of (fun t => tabId (base t)) (tabs d)) (map taskId (List.filter (fun t => includes [active; suspended] (state t)) (map resume_task (stored_tasks d)))) (base t)
  = Ok (Some t).
Proof.
  intros Hs [] Hin. unfold restore_tab. rewrite (proj2 (get_unique (fun t => tabId (base t)) _ (tabId (base t)) t c_tabs0)) by done.
  destruct (c_owned0 t Hin) as (task & Hk & E & _ & Ht).
  assert (includes (map taskId (List.filter (fun t => includes [active; suspended] (state t)) (map resume_task (stored_tasks d)))) (tab_taskId t) = true) as ->.
  { apply includes_spec, in_map_key. exists (resume_task task). split; [|done]. apply in_List_filter. split; [apply in_map_key; by exists task|].
    revert Ht. unfold terminal, resume_task. by destruct (state task) eqn:Es; cbn; rewrite ?Es. }
  unfold parse_tab. replace (mkUnified (tab_taskId t) (lifecycle t) (base t)) with t by (by destruct t).
  assert (tab_ok is_url t = true) as ->; [|done]. unfold SessionRegistry.registryStorageSchema in Hs. rewrite !andb_true_iff in Hs. destruct Hs as [[_ Hs] _].
  apply andb_true_iff in Hs as [_ Hs]. rewrite forallb_in in Hs. by apply Hs.
Qed.
Lemma omap_some {A} (xs : list A) : omap id (map Some xs) = xs.
Proof. induction xs as [|x xs IH]; [done|]. change (omap id (map Some (x :: xs))) with (x :: omap id (map Some xs)). by rewrite IH. Qed.
Lemma recover_resumes d : registryStorageSchema d = true -> consistent d = true -> recoverV6Registry is_url d = Ok (resumed d).
Proof.
  intros Hs Hc. pose proof Hc as Hd. rewrite consistent_spec in Hd. unfold recoverV6Registry.
  rewrite (recover_ok _ (without_storage _ Hs)), (recovered_exact _ (consistent_v4 _ Hd)). cbn [mbind result_bind tabs4 sessions4 bindings4 without_tasks updatedAt4].
  rewrite (dedup_unique taskId) by apply Hd. rewrite (mapM_ok _ resume_task).
  2: { intros task Hin. rewrite (suspend_is d) by done. by apply (parse_resume d). }
  cbn [mbind result_bind]. assert (forall ts, (forall t, t ∈ ts -> t ∈ tabs d) -> mapM (restore_tab is_url (map_of (fun t => tabId (base t)) (tabs d))
    (map taskId (List.filter (fun t => includes [active; suspended] (state t)) (map resume_task (stored_tasks d))))) (map base ts) = Ok (map Some ts)) as Hm.
  { induction ts as [|t ts IH]; intros Hin; [done|]. cbn [map mapM]. rewrite (restore_is d) by (try done; apply Hin; left). cbn [mbind result_bind].
    rewrite IH by (intros x Hx; apply Hin; by right). done. }
  rewrite (Hm (tabs d)) by done. cbn [mbind result_bind]. assert (omap id (map Some (tabs d)) = tabs d) as -> by apply omap_some.
  assert (Hids : forall task, task ∈ stored_tasks d -> List.filter (includes (map (fun t => tabId (base t)) (tabs d))) (tabIds task) = tabIds task).
  { intros task Hin. apply filter_everything. intros id Hid. apply includes_spec, in_map_key. destruct (proj2 (proj2 (c_listed _ Hd task Hin)) id Hid) as (t & ? & ? & _). by exists t. }
  assert (map (fun t => set_tabs (List.filter (includes (map (fun t => tabId (base t)) (tabs d))) (tabIds t)) t) (map resume_task (stored_tasks d)) = map resume_task (stored_tasks d)) as ->.
  { rewrite map_map. apply map_ext_in. intros task Hin%list_elem_of_In. change (tabIds (resume_task task)) with (tabIds task). by rewrite (Hids _ Hin). }
  rewrite (filter_everything _ (bindings d)) by (intros b Hin; apply includes_spec, in_map_key, (c_registered _ Hd b Hin)).
  unfold registryV6Schema_parse. change (mkData _ _ _ _ _) with (resumed d). rewrite resumed_storage by done.
  by rewrite (proj2 (consistent_spec _) (resumed_consistent _ Hd)).
Qed.
Lemma resumed_session_idem s : disconnect (disconnect s) = disconnect s.
Proof. unfold disconnect. cbn. f_equal. by destruct (sessionState s). Qed.
Lemma resume_task_idem t : resume_task (resume_task t) = resume_task t.
Proof. unfold resume_task, set_state. cbn. f_equal. by destruct (state t). Qed.
Lemma insert_last {A} (compare : A -> A -> Z) x xs : (forall y, y ∈ xs -> compare y x <= 0) -> sort_insert_by compare x xs = xs ++ [x].
Proof.
  induction xs as [|y xs IH]; [done|]. intros H. cbn. rewrite (proj2 (Z.leb_le _ _)) by (apply H; left). f_equal. apply IH. intros z Hz. apply H. by right.
Qed.
Lemma sort_sorted {A} (compare : A -> A -> Z) xs : StronglySorted (sorted_before compare) xs -> js_sort compare xs = xs.
Proof.
  unfold js_sort. assert (forall acc, StronglySorted (sorted_before compare) (acc ++ xs) -> fold_left (fun sorted x => sort_insert_by compare x sorted) xs acc = acc ++ xs) as H;
    [|exact (H [])]. induction xs as [|x xs IH]; intros acc Hs; cbn [fold_left]; [by rewrite app_nil_r|].
  rewrite insert_last; [rewrite IH; by rewrite <- app_assoc|]. intros y Hy. change (sorted_before compare y x). eapply StronglySorted_app_1_elem_of; [exact Hs|done|left].
Qed.
#[local] Instance by_last_use_consistent : JsSort.Consistent by_last_use.
Proof. constructor; unfold by_last_use; intros; lia. Qed.
Lemma filter_sorted {A} (R : A -> A -> Prop) (f : A -> bool) xs : StronglySorted R xs -> StronglySorted R (List.filter f xs).
Proof.
  induction 1 as [|x xs Hs IH Hall]; [constructor|]. cbn. destruct (f x); [|done]. constructor; [done|]. rewrite Forall_forall in *. intros y Hy.
  apply Hall. by apply in_List_filter in Hy as [Hy _].
Qed.
Lemma map_sorted xs : StronglySorted (sorted_before by_last_use) xs -> StronglySorted (sorted_before by_last_use) (map disconnect xs).
Proof. induction 1 as [|x xs Hs IH Hall]; [constructor|]. cbn. constructor; [done|]. rewrite Forall_forall in *. intros y Hy. apply in_map_key in Hy as (z & Hz & <-). exact (Hall z Hz). Qed.
Lemma resumed_again d : resumed (resumed d) = resumed d.
Proof.
  unfold resumed at 1. cbn [updatedAt sessions stored_tasks tabs bindings resumed]. unfold resumed. f_equal.
  - set (f := fun s => includes (map tab_sessionId (map base (tabs d))) (sessionId s) || bool_decide (sessionState s = disconnected)).
    assert (forall s, f s = true -> f (disconnect s) = true) as Hf.
    { intros s [H|H%bool_decide_eq_true]%orb_true_iff; apply orb_true_iff; [by left|right]. apply bool_decide_eq_true. cbn. by rewrite H. }
    assert (resumed_sessions (sessions d) (map base (tabs d)) = map disconnect (List.filter f (js_sort by_last_use (sessions d)))) as E by done.
    set (ss := resumed_sessions (sessions d) (map base (tabs d))) in *. change (map disconnect (List.filter f (js_sort by_last_use ss)) = ss).
    assert (StronglySorted (sorted_before by_last_use) ss) as Hsort.
    { rewrite E. apply map_sorted, filter_sorted. exact (js_sort_sorted by_last_use (sessions d)). }
    rewrite (sort_sorted by_last_use ss Hsort), (filter_everything f ss).
    + rewrite E, map_map. apply map_ext. intros s. apply resumed_session_idem.
    + intros s Hs. rewrite E in Hs. apply in_map_key in Hs as (s' & Hs' & <-). apply in_List_filter in Hs' as [_ Hs']. by apply Hf.
  - rewrite map_map. apply map_ext. intros t. apply resume_task_idem.
Qed.
(** [roundtrip] What [save] wrote comes back: the tabs, their bindings and the tasks are the ones saved, in the same order, the tasks
    suspended if they were in use; the sessions are those that a tab uses or that were disconnected, none of them connected, the last used
    first.  Loading never fails then, and loading what was loaded changes nothing. *)
Theorem load_resumes now now' ss ts bs tasks d io f f'
  (Hsave : save is_url now ss ts bs tasks = Ok d) (Hw : persist io d f = (f', true)) :
  load is_url now' f' = Ok (resumed d) /\ load is_url now' (Some (V6 (resumed d))) = Ok (resumed d)
  /\ tabs (resumed d) = ts /\ bindings (resumed d) = bs /\ map taskId (stored_tasks (resumed d)) = map taskId tasks.
Proof.
  unfold save in Hsave. destruct (_ && _); [done|]. unfold registryV6Schema_parse in Hsave. destruct (registryStorageSchema _) eqn:Hs; [|done].
  destruct (consistent _) eqn:Hc; [|done]. cbn in Hsave. injection Hsave as <-. set (d := mkData now ss tasks ts bs) in *.
  unfold persist in Hw. destruct (_ && _); [|done]. injection Hw as <-. cbn [load]. split_and!; try done.
  - rewrite Hs. by apply recover_resumes.
  - rewrite resumed_storage by done. rewrite recover_resumes; [by rewrite resumed_again|by apply resumed_storage|].
    apply consistent_spec, resumed_consistent. by apply consistent_spec.
  - cbn. by rewrite map_map.
Qed.
(** *** Whatever the file holds *)
Definition at_rest (d : RegistryData) : Prop :=
  (forall s, s ∈ sessions d -> sessionState s <> starting /\ sessionState s <> connected) /\ (forall t, t ∈ stored_tasks d -> state t <> active /\ state t <> finishing).
Lemma kept_at_rest d s : s ∈ sessions4 (recovered d) -> sessionState s <> starting /\ sessionState s <> connected.
Proof.
  intros Hin. change (sessions4 (recovered d)) with (kept_sessions d) in Hin. apply in_List_filter in Hin as [Hin _]. apply in_map_key in Hin as (s' & _ & <-).
  cbn. by destruct (sessionState s').
Qed.
Lemma mapM_in {A B} (f : A -> result exn B) xs ys y : mapM f xs = Ok ys -> y ∈ ys -> exists x, x ∈ xs /\ f x = Ok y.
Proof.
  revert ys. induction xs as [|x xs IH]; intros ys H Hy; cbn in H; [injection H as <-; by apply elem_of_nil in Hy|].
  apply bind_ok in H as (z & Hz & H). apply bind_ok in H as (zs & Hzs & H). injection H as <-. apply elem_of_cons in Hy as [->|Hy].
  - exists x. split; [left|done].
  - destruct (IH _ Hzs Hy) as (x' & Hx' & E). exists x'. split; [by right|done].
Qed.
Lemma recover_shape d r : recoverV4Registry d = Ok r -> r = recovered d.
Proof. rewrite recover_is. unfold registryV4Schema_parse. destruct (_ && _); congruence. Qed.
Lemma parse_shape d r : registryV6Schema_parse is_url d = Ok r -> r = d /\ registryStorageSchema d = true /\ consistent d = true.
Proof. unfold registryV6Schema_parse. destruct (registryStorageSchema d), (consistent d); cbn; try done. by intros [= ->]. Qed.
Lemma v6_at_rest d r : recoverV6Registry is_url d = Ok r -> consistent r = true /\ at_rest r.
Proof.
  unfold recoverV6Registry. intros H. apply bind_ok in H as (v4 & H4%recover_shape & H). apply bind_ok in H as (ts & Ht & H). apply bind_ok in H as (rs & _ & H).
  apply parse_shape in H as (-> & _ & H). split; [exact H|]. split; cbn [sessions stored_tasks].
  - subst v4. apply kept_at_rest.
  - intros t Hin. apply in_map_key in Hin as (t' & Hin & <-). destruct (mapM_in _ _ _ _ Ht Hin) as (t0 & _ & E). unfold parse_task in E. destruct (task_schema _); [|done].
    injection E as <-. cbn. by destruct (state t0).
Qed.
Lemma retired_terminal t : terminal (retire t) = true.
Proof. unfold retire, terminal. cbn [state]. by destruct (state t). Qed.
Lemma retire_ok t : task_schema t = true -> parse_task (retire t) = Ok (retire t).
Proof.
  unfold parse_task. intros H. assert (task_schema (retire t) = true) as ->; [|done]. revert H. unfold task_schema, retire. cbn. rewrite !andb_true_iff. intros H.
  destruct_and! H. split_and!; try done. by destruct (terminal t).
Qed.
(** What a migration from version 5 gives: the sessions, the tasks without their tabs. *)
Definition migrated (d : RegistryData) : RegistryData :=
  mkData (updatedAt d) (kept_sessions (without_tasks d)) (map retire (deduplicateBy taskId (stored_tasks d))) [] [].
Lemma migrate_v5 d : registryStorageSchema d = true -> migrateV5Registry is_url d = Ok (migrated d).
Proof.
  intros Hs. unfold migrateV5Registry. rewrite (recover_ok _ (without_storage _ Hs)). cbn [mbind result_bind].
  pose proof (recovered_storage _ (without_storage _ Hs)) as Hr. unfold SessionRegistry.registryV4StorageSchema in Hr. rewrite !andb_true_iff in Hr.
  destruct Hr as [[[_ Hr] _] _]. pose proof (recovered_consistent (without_tasks d)) as Hc. unfold consistent4, unique in Hc. rewrite !andb_true_iff, !bool_decide_eq_true in Hc.
  destruct Hc as [[[[Hc _] _] _] _]. unfold SessionRegistry.registryStorageSchema in Hs. rewrite !andb_true_iff in Hs. destruct Hs as [[[[Hu _] Hk] _] _].
  pose proof Hk as Hk'. unfold at_most in Hk'. apply andb_true_iff in Hk' as [_ Hk']. rewrite forallb_in in Hk'.
  rewrite (mapM_ok _ retire) by (intros t Hin%dedup_in; by apply retire_ok, Hk'). cbn [mbind result_bind].
  change (mkData _ _ _ _ _) with (migrated d). unfold registryV6Schema_parse.
  assert (registryStorageSchema (migrated d) = true) as ->.
  { unfold SessionRegistry.registryStorageSchema. cbn [migrated updatedAt sessions stored_tasks tabs bindings]. rewrite !andb_true_iff. split_and!; try done.
    apply (at_most_map _ _ _ (fun t => task_schema t)).
    - intros t Ht. apply retire_ok in Ht. unfold parse_task in Ht. by destruct (task_schema (retire t)).
    - apply (at_most_sub _ _ (stored_tasks d)); [done|apply dedup_by_length|]. intros t. apply dedup_in. }
  assert (consistent (migrated d) = true) as ->; [|done]. apply consistent_spec. constructor; cbn [migrated sessions stored_tasks tabs bindings]; try done; try constructor;
    try (by intros x ?%elem_of_nil).
  - rewrite map_map. apply (dedup_nodup taskId).
  - apply in_map_key in H as (t & _ & <-). constructor.
  - apply in_map_key in H as (t & _ & <-). split; [done|]. by intros id ?%elem_of_nil.
Qed.
Lemma migrated_at_rest d : at_rest (migrated d).
Proof.
  split; cbn [migrated sessions stored_tasks]; [apply (kept_at_rest (without_tasks d))|].
  intros t Hin. apply in_map_key in Hin as (t1 & _ & <-). cbn [retire state]. by destruct (state t1).
Qed.
Lemma migrated_consistent d : registryStorageSchema d = true -> consistent (migrated d) = true.
Proof.
  intros H. pose proof (migrate_v5 d H) as E. unfold migrateV5Registry in E. apply bind_ok in E as (? & _ & E). apply bind_ok in E as (? & _ & E).
  apply parse_shape in E as (<- & _ & E). exact E.
Qed.
Lemma v4_migrated now d r : migrateV4Registry is_url now d = Ok r -> exists d5, registryStorageSchema d5 = true /\ r = migrated d5.
Proof.
  unfold migrateV4Registry. intros H. apply bind_ok in H as (v & _ & H). apply bind_ok in H as (ts & _ & H). destruct (registryStorageSchema _) eqn:E; [|done].
  eexists. split; [exact E|]. rewrite migrate_v5 in H by done. by injection H as <-.
Qed.
(** [invariant] Whatever the file holds, what [load] gives is consistent (the tabs have their sessions, their tasks and their bindings,
    and no two things have one identifier) and at rest: no session is connected or starting, no task is in use. *)
Theorem loaded_consistent now file r (H : load is_url now file = Ok r) : consistent r = true /\ at_rest r.
Proof.
  destruct file as [[d|d|d|d| |]|]; cbn [load] in H.
  - destruct (registryStorageSchema d); [|done]. by apply v6_at_rest in H.
  - destruct (registryStorageSchema d) eqn:E; [|done]. rewrite migrate_v5 in H by done. injection H as <-. split; [by apply migrated_consistent|apply migrated_at_rest].
  - destruct (SessionRegistry.registryV4StorageSchema _ d); [|done]. apply v4_migrated in H as (d5 & E & ->). split; [by apply migrated_consistent|apply migrated_at_rest].
  - destruct (registryV3StorageSchema _ d); [|done]. unfold migrateV3Registry in H. destruct (SessionRegistry.registryV4StorageSchema _ _); [|done].
    apply v4_migrated in H as (d5 & E & ->). split; [by apply migrated_consistent|apply migrated_at_rest].
  - injection H as <-. split; [by vm_compute|]. split; by intros ? ?%elem_of_nil.
  - done.
  - injection H as <-. split; [by vm_compute|]. split; by intros ? ?%elem_of_nil.
Qed.
Lemma text_within_length least most s : text_within least most s = true <-> least <= Z.of_nat (String.length s) <= most.
Proof. unfold text_within. rewrite andb_true_iff, !Z.leb_le. done. Qed.
Lemma task_name_length s : String.length ("task-" +:+ s) = (5 + String.length s)%nat.
Proof. apply (slength_app "task-"). Qed.
Lemma recovered_session d s : s ∈ sessions4 (recovered d) -> exists s', s' ∈ sessions4 d /\ sessionId s' = sessionId s /\ session_ok s' = session_ok s
  /\ sessionCreatedAt s' = sessionCreatedAt s /\ sessionLastUsedAt s' = sessionLastUsedAt s.
Proof.
  intros Hin. change (sessions4 (recovered d)) with (kept_sessions d) in Hin. apply in_List_filter in Hin as [Hin _]. apply in_map_key in Hin as (s' & Hs & <-).
  apply dedup_in, elem_of_js_sort in Hs. by exists s'.
Qed.
Lemma migrate_v4 now d : registryV4StorageSchema d = true -> (forall s, s ∈ sessions4 d -> Z.of_nat (String.length (sessionId s)) <= 123) ->
  iso_datetime (now + 10 * 60 * 1000) = true -> exists d5, migrateV4Registry is_url now d = Ok (migrated d5).
Proof.
  intros Hs Hlen Hnow. unfold migrateV4Registry. rewrite (recover_ok _ Hs). cbn [mbind result_bind]. set (v := recovered d).
  pose proof (recovered_storage _ Hs) as Hr. fold v in Hr. unfold SessionRegistry.registryV4StorageSchema, at_most in Hr. rewrite !andb_true_iff, !Nat.leb_le, !forallb_in in Hr.
  destruct Hr as [[[Hu [Hsl Hso]] [Htl Hto]] [Hbl Hbo]].
  set (task := fun s => mkTask (task_name s) LEGACY_UNCLAIMED_OWNER_SCOPE_HASH suspended (map tabId (List.filter (fun t => tab_sessionId t =s sessionId s) (tabs4 v)))
    (sessionCreatedAt s) (sessionLastUsedAt s) (now + 10 * 60 * 1000)).
  assert (Htask : forall s, s ∈ sessions4 v -> task_schema (task s) = true).
  { intros s Hin. pose proof (Hso s Hin) as Hok. unfold session_ok in Hok. rewrite !andb_true_iff in Hok. destruct_and! Hok.
    unfold task_schema. cbn [task taskId ownerScopeHash tabIds createdAt lastActivityAt expiresAt]. rewrite !andb_true_iff. split_and!; try done.
    - destruct (recovered_session d s Hin) as (s' & Hin' & E & _). specialize (Hlen s' Hin'). rewrite E in Hlen. unfold short_text, task_name.
      rewrite task_name_length, andb_true_iff, !Z.leb_le. lia.
    - apply forallb_in. intros id Hid. apply in_map_key in Hid as (t & Ht & <-). apply in_List_filter in Ht as [Ht _]. specialize (Hto t Ht). unfold tab4_ok in Hto.
      rewrite !andb_true_iff in Hto. by destruct_and! Hto.
    - apply Z.leb_le. rewrite length_map. pose proof (filter_length (fun t => tab_sessionId t =s sessionId s) (tabs4 v)). lia. }
  rewrite (mapM_ok _ task) by (intros s Hin; unfold parse_task; fold (task s); by rewrite Htask). cbn [mbind result_bind]. set (d5 := mkData _ _ _ _ _).
  assert (registryStorageSchema d5 = true) as E; [|rewrite E, (migrate_v5 _ E); by exists d5].
  unfold SessionRegistry.registryStorageSchema, at_most. cbn [d5 updatedAt sessions stored_tasks tabs bindings]. rewrite !length_map, !andb_true_iff, !Nat.leb_le, !forallb_in.
  split_and!; try done; [lia|intros t Hin; apply in_map_key in Hin as (s & Hs' & <-); by apply Htask|].
  intros t Hin. apply in_map_key in Hin as (t' & Ht & <-). unfold tab_ok. cbn [tab_taskId base]. rewrite (Hto t' Ht), andb_true_r. apply text_within_length.
  rewrite task_name_length. pose proof Ht as Hb. unfold v in Hb. rewrite recovered_tabs in Hb. apply bound_tab_sessions, in_map_key in Hb as (s & Hin & E).
  destruct (recovered_session d s Hin) as (s' & Hin' & E' & _). specialize (Hlen s' Hin'). rewrite <- E, <- E'. lia.
Qed.
(** [error] The versions before keep working: a file of version 5, 4 or 3 that has the form of its version loads without an error, with no
    tab; for 4 and 3 the identifiers of the sessions must leave room for the prefix of a task. *)
Theorem old_versions_load now file (Hnow : iso_datetime (now + 10 * 60 * 1000) = true)
  (Hf : match file with
        | V5 d => registryStorageSchema d = true
        | V4 d => registryV4StorageSchema d = true /\ forall s, s ∈ sessions4 d -> Z.of_nat (String.length (sessionId s)) <= 123
        | V3 d => registryV3StorageSchema is_url d = true /\ forall s, s ∈ sessions3 d -> Z.of_nat (String.length (sessionId (l_session s))) <= 123
        | _ => False
        end) :
  exists r, load is_url now (Some file) = Ok r /\ tabs r = [] /\ bindings r = [] /\ forall t, t ∈ stored_tasks r -> terminal t = true /\ tabIds t = [].
Proof.
  assert (Hm : forall d, tabs (migrated d) = [] /\ bindings (migrated d) = [] /\ forall t, t ∈ stored_tasks (migrated d) -> terminal t = true /\ tabIds t = []).
  { intros d. split_and!; try done. intros t Hin. apply in_map_key in Hin as (t' & _ & <-). split; [apply retired_terminal|done]. }
  destruct file as [d|d|d|d| |]; try done; cbn [load].
  - rewrite Hf, migrate_v5 by done. by exists (migrated d).
  - destruct Hf as [Hs Hl]. rewrite Hs. destruct (migrate_v4 now d Hs Hl Hnow) as (d5 & ->). by exists (migrated d5).
  - destruct Hf as [Hs Hl]. rewrite Hs. unfold migrateV3Registry. set (d4 := mkV4 _ _ _ _).
    assert (registryV4StorageSchema d4 = true) as E.
    { unfold registryV3StorageSchema, at_most in Hs. rewrite !andb_true_iff, !Nat.leb_le, !forallb_in in Hs. destruct Hs as [[[Hu [Hsl Hso]] [Htl Hto]] [Hbl Hbo]].
      unfold SessionRegistry.registryV4StorageSchema, at_most. cbn [d4 updatedAt4 sessions4 tabs4 bindings4]. rewrite !length_map, !andb_true_iff, !Nat.leb_le, !forallb_in.
      split_and!; try done; try (etrans; [apply filter_length|done]).
      - intros s Hin. apply in_map_key in Hin as (s' & Hin & <-). apply in_List_filter in Hin as [Hin _]. apply Hso in Hin. by apply andb_true_iff in Hin as [Hin _].
      - intros s Hin. apply in_map_key in Hin as (s' & Hin & <-). apply in_List_filter in Hin as [Hin _]. apply Hto in Hin. by apply andb_true_iff in Hin as [Hin _].
      - intros s Hin. apply in_map_key in Hin as (s' & Hin & <-). apply in_List_filter in Hin as [Hin _]. by apply Hbo. }
    rewrite E. destruct (migrate_v4 now d4 E) as (d5 & ->); [|done|by exists (migrated d5)].
    intros s Hin. apply in_map_key in Hin as (s' & Hin & <-). apply in_List_filter in Hin as [Hin _]. by apply Hl.
Qed.
End Recovery.

(** *** A registry with two tasks *)
Module Trial.
Definition is_url (s : string) : bool := startsWith s "https://".
Definition session (id : string) (st : BrowserSessionState) (used : Z) : BrowserSession := mkSession id auto st None None 0 used.
Definition tab (id session page : string) : TabV4 := mkTab id session page 0 "research" true false false 0 10 (Some "https://example.com/") None None None.
Definition binding (id session page : string) : BrowserTabBinding := mkBinding id session page 0 "https://example.com/" "Example" None None.
Definition task (id : string) (st : BrowserTaskState) (ids : list string) : BrowserTask := TaskRegistry.mkTask id "owner" st ids 0 10 600000.
Definition ss : list BrowserSession := [session "s1" connected 5; session "s2" failed 9; session "s3" disconnected 7].
Definition ts : list UnifiedBrowserTab := [mkUnified "k1" task_scoped (tab "t1" "s1" "p1"); mkUnified "k2" persistent (tab "t2" "s1" "p2")].
Definition bs : list BrowserTabBinding := [binding "t1" "s1" "p1"; binding "t2" "s1" "p2"].
Definition ks : list BrowserTask := [task "k1" active ["t1"]; task "k2" finishing ["t2"]; task "k3" finished []].
Definition d : RegistryData := mkData 20 ss ks ts bs.
Definition io : SaveIO := mkSaveIO true true (fun n => if (n <? 3)%nat then refused (Some "EBUSY") else renamed).
Lemma accepted : save is_url 20 ss ts bs ks = Ok d.
Proof. vm_compute. reflexivity. Qed.
Lemma load_resumes_witness : load is_url 99 (persist io d None).1 = Ok (resumed d) /\ tabs (resumed d) = ts
  /\ map sessionId (sessions (resumed d)) = ["s3"; "s1"] /\ map state (stored_tasks (resumed d)) = [suspended; suspended; finished].
Proof.
  destruct (load_resumes is_url 20 99 ss ts bs ks d io None (persist io d None).1 accepted) as (H & _ & Ht & _); [vm_compute; reflexivity|].
  split; [exact H|]. split; [exact Ht|]. split; vm_compute; reflexivity.
Defined.
Lemma loaded : load is_url 99 (Some (V6 d)) = Ok (resumed d).
Proof. vm_compute. reflexivity. Qed.
Lemma loaded_consistent_witness : consistent (resumed d) = true.
Proof. exact (proj1 (loaded_consistent is_url 99 _ _ loaded)). Defined.
Definition old : RegistryV4 := mkV4 20 ss [tab "t1" "s1" "p1"; tab "t9" "s1" "p9"] [binding "t1" "s1" "p1"].
Lemma old_fits : registryV4StorageSchema is_url old = true /\ forall s, s ∈ sessions4 old -> Z.of_nat (String.length (sessionId s)) <= 123.
Proof. split; [vm_compute; reflexivity|]. intros s Hin. repeat (apply elem_of_cons in Hin as [->|Hin]; [vm_compute; discriminate|]). by apply elem_of_nil in Hin. Qed.
Lemma old_versions_load_witness : exists r, load is_url 99 (Some (V4 old)) = Ok r /\ tabs r = [].
Proof.
  destruct (old_versions_load is_url 99 (V4 old) eq_refl old_fits) as (r & H & Ht & _). exists r. split; [exact H|exact Ht].
Defined.
(** A save that fails leaves the file as it was; a rename that is refused for another reason is not tried again. *)
Example saves_in_turn : file (fold_left save_step [saved d; saved (resumed d); persisted io; persisted (mkSaveIO true true (fun _ => refused (Some "ENOSPC")))]
  (mkSaver None [])) = Some (V6 d) /\ renameWithRetry (fun _ => refused (Some "EPERM")) = false.
Proof. vm_compute. split; reflexivity. Qed.
(** A registry of version 4 is read with session identifiers of up to 128 characters, but the task made for a session is named
    with a prefix: with more than 123 of them the migration throws, at every start. *)
Fixpoint letters (n : nat) : string := match n with O => EmptyString | S n => String "a" (letters n) end.
Definition long : RegistryV4 := mkV4 20 [session (letters 124) disconnected 5] [] [].
Lemma long_session_stuck : registryV4StorageSchema is_url long = true /\ load is_url 99 (Some (V4 long)) = Err zod_error.
Proof. vm_compute. split; reflexivity. Qed.
(** The recovery drops tabs whose session or binding does not fit, but not a tab that its task does not list: the refinement then
    refuses the whole registry. *)
Definition unlisted : RegistryData := mkData 20 ss [task "k1" active []] [mkUnified "k1" task_scoped (tab "t1" "s1" "p1")] [binding "t1" "s1" "p1"].
Lemma unlisted_tab_stuck : registryStorageSchema is_url unlisted = true /\ load is_url 99 (Some (V6 unlisted)) = Err zod_error.
Proof. vm_compute. split; reflexivity. Qed.
End Trial.
End SessionRegistry.
