(* ===== verification/Tabs.v ===== *)
(** The tabs of the browser: services/browser-worker/domain/tab-registry.ts and browser-tab-reuse.ts, with the
    conversions of browser-session-model.ts.

    The registry says which tabs the program opened ([mcp]) and which are the user's, and which of its own it must keep
    ([protected], [sticky]).  Every method answers a copy.  Reuse looks for a tab that already has the document asked for, or for
    one that may be given another.  [href] is [new URL(value).href], if [value] parses, and [without_hash] is what
    clearing the hash makes of a URL; dates are instants. *)
From stdpp Require Import sorting.
From S2P Require Import Prelude Errors JsString JsMap JsSort SessionRegistry.
Open Scope string_scope.
Open Scope list_scope.
Open Scope Z_scope.

Module Tabs.
Import SessionRegistry.

Inductive BrowserOwnership := mcp_owned | user_owned.
#[export] Instance BrowserOwnership_eq_dec : EqDecision BrowserOwnership.
Proof. solve_decision. Defined.
#[export] Instance Lifecycle_eq_dec : EqDecision Lifecycle.
Proof. solve_decision. Defined.
Record BrowserTab := mkTab {
  tabId : string;
  taskId : option string;
  lifecycle : option Lifecycle;
  ownership : BrowserOwnership;
  purpose : string;
  reusable : bool;
  protected : bool;
  sticky : bool;
  createdAt : Z;
  lastUsedAt : Z;
  url : option string;
  requestedUrl : option string;
  title : option string;
  lockedUrl : option string;
}.
#[export] Instance BrowserTab_eq_dec : EqDecision BrowserTab.
Proof. solve_decision. Defined.
Record RegisterMcpTabInput := mkInput {
  i_tabId : option string;
  i_taskId : option string;
  i_lifecycle : option Lifecycle;
  i_purpose : option string;
  i_reusable : option bool;
  i_protected : option bool;
  i_sticky : option bool;
  i_url : option string;
  i_requestedUrl : option string;
  i_title : option string;
  i_lockedUrl : option string;
}.

(** *** The registry *)
Notation TabRegistry := (jsmap BrowserTab).
Definition construct (initialTabs : list BrowserTab) : TabRegistry := fold_left (fun m t => jm_set m (tabId t) t) initialTabs [].
Definition ownershipOf (id : string) (r : TabRegistry) : BrowserOwnership := match jm_get r id with Some t => ownership t | None => user_owned end.
Definition list_tabs (r : TabRegistry) : list BrowserTab := jm_values r.
Definition store (t : BrowserTab) : stm TabRegistry BrowserTab := fun r => (jm_set r (tabId t) t, Ok t).
(** [a ?? b]. *)
Definition orelse {A} (a b : option A) : option A := match a with Some _ => a | None => b end.
(** [uuid] is [randomUUID()]. *)
Definition registerMcp (uuid : string) (now : Z) (input : RegisterMcpTabInput) : stm TabRegistry BrowserTab :=
  let is_sticky := default false (i_sticky input) in
  store (mkTab (default uuid (i_tabId input)) (i_taskId input) (Some (default task_scoped (i_lifecycle input))) mcp_owned (default "generic-research" (i_purpose input))
    (if is_sticky then false else default true (i_reusable input)) (if is_sticky then true else default false (i_protected input)) is_sticky now now
    (i_url input) (i_requestedUrl input) (i_title input) (i_lockedUrl input)).
Definition assertMcpOwned (id : string) : stm TabRegistry BrowserTab := fun r =>
  (r, match jm_get r id with
      | Some t => if bool_decide (ownership t = mcp_owned) then Ok t else throw TAB_NOT_OWNED "The tab is not owned by the MCP."
      | None => throw TAB_NOT_OWNED "The tab is not owned by the MCP."
      end).
(** The tab is stored under the [id] asked for. *)
Definition put (id : string) (t : BrowserTab) : stm TabRegistry BrowserTab := fun r => (jm_set r id t, Ok t).
Definition reconfigureMcp (id : string) (now : Z) (input : RegisterMcpTabInput) : stm TabRegistry BrowserTab :=
  current ← assertMcpOwned id;
  let is_sticky := default (sticky current) (i_sticky input) in
  put id (mkTab (tabId current) (orelse (i_taskId input) (taskId current)) (Some (default task_scoped (orelse (i_lifecycle input) (lifecycle current)))) (ownership current)
    (default (purpose current) (i_purpose input)) (if is_sticky then false else default (reusable current) (i_reusable input))
    (if is_sticky then true else default (protected current) (i_protected input)) is_sticky (createdAt current) now
    (orelse (i_url input) (url current)) (orelse (i_requestedUrl input) (requestedUrl current)) (orelse (i_title input) (title current))
    (if is_sticky then orelse (i_lockedUrl input) (orelse (lockedUrl current) (orelse (i_requestedUrl input) (orelse (i_url input) (orelse (requestedUrl current) (url current)))))
     else None)).
Definition registerUser (id : string) (now : Z) (u t : option string) : stm TabRegistry BrowserTab :=
  put id (mkTab id None (Some external) user_owned "user-existing" false true false now now u None t None).
Definition nonempty (o : option string) : bool := match o with Some s => negb (sempty s) | None => false end.
Definition assertNavigable (id : string) (targetUrl : option string) : stm TabRegistry BrowserTab :=
  tab ← assertMcpOwned id;
  if sticky tab && nonempty targetUrl && nonempty (lockedUrl tab) && negb (bool_decide (targetUrl = lockedUrl tab))
  then st_throw NAVIGATION_BLOCKED "The sticky tab cannot navigate away from its locked URL." else st_ok tab.
Definition assertClosable (id : string) : stm TabRegistry BrowserTab :=
  tab ← assertMcpOwned id;
  if protected tab || sticky tab then st_throw TAB_PROTECTED "The tab is protected and cannot be closed." else st_ok tab.
Definition touch (id : string) (now : Z) (u t : option string) : stm TabRegistry BrowserTab :=
  current ← assertMcpOwned id;
  put id (mkTab (tabId current) (taskId current) (lifecycle current) (ownership current) (purpose current) (reusable current) (protected current) (sticky current)
    (createdAt current) now (orelse u (url current)) (requestedUrl current) (orelse t (title current)) (lockedUrl current)).
Definition discard (id : string) : stm TabRegistry unit := fun r => (jm_delete r id, Ok tt).
Definition remove (id : string) : stm TabRegistry unit := assertClosable id ≫= fun _ => discard id.
(** The methods, as inputs of a run. *)
Inductive Call :=
| c_registerMcp (uuid : string) (now : Z) (input : RegisterMcpTabInput)
| c_reconfigureMcp (id : string) (now : Z) (input : RegisterMcpTabInput)
| c_registerUser (id : string) (now : Z) (u t : option string)
| c_touch (id : string) (now : Z) (u t : option string)
| c_discard (id : string)
| c_remove (id : string).
Definition call (c : Call) (r : TabRegistry) : TabRegistry :=
  match c with
  | c_registerMcp uuid now input => (registerMcp uuid now input r).1
  | c_reconfigureMcp id now input => (reconfigureMcp id now input r).1
  | c_registerUser id now u t => (registerUser id now u t r).1
  | c_touch id now u t => (touch id now u t r).1
  | c_discard id => (discard id r).1
  | c_remove id => (remove id r).1
  end.

(** *** Conversions *)
Definition toPublicBrowserTab (t : UnifiedBrowserTab) : BrowserTab :=
  let b := base t in
  mkTab (SessionRegistry.tabId b) (Some (tab_taskId t)) (Some (SessionRegistry.lifecycle t)) mcp_owned (SessionRegistry.purpose b) (SessionRegistry.reusable b)
    (SessionRegistry.protected b) (SessionRegistry.sticky b) (tabCreatedAt b) (tabLastUsedAt b) (tab_url b) (SessionRegistry.requestedUrl b) (tab_title b) (SessionRegistry.lockedUrl b).
(** [task] and [life] are the last two arguments, when they are given. *)
Definition toUnifiedBrowserTab (tab : BrowserTab) (session : BrowserSession) (remote : string) (index : Z) (task : option string) (life : option Lifecycle) :
    result exn UnifiedBrowserTab :=
  if negb (bool_decide (ownership tab = mcp_owned)) then Err (Native "Only MCP-owned tabs can be stored in the unified browser registry.")
  else Ok (mkUnified (default (default ("task-" +:+ sessionId session) (taskId tab)) task) (default (default task_scoped (lifecycle tab)) life)
    (SessionRegistry.mkTab (tabId tab) (sessionId session) remote index (purpose tab) (reusable tab) (protected tab) (sticky tab) (createdAt tab) (lastUsedAt tab)
      (url tab) (requestedUrl tab) (title tab) (lockedUrl tab))).
Record BrowserSessionRoutingMetadata := mkRouting { r_mode : option BrowserOperationMode; r_routingReason : option string; r_routingPolicyReason : option string }.
Definition createBrowserSession (uuid : string) (now : Z) (routing : BrowserSessionRoutingMetadata) : BrowserSession :=
  mkSession uuid (default interactive (r_mode routing)) disconnected (r_routingReason routing) (r_routingPolicyReason routing) now now.
Definition applyBrowserSessionRouting (s : BrowserSession) (routing : BrowserSessionRoutingMetadata) : BrowserSession :=
  mkSession (sessionId s) (default (mode s) (r_mode routing)) (sessionState s) (orelse (r_routingReason routing) (routingReason s))
    (orelse (r_routingPolicyReason routing) (routingPolicyReason s)) (sessionCreatedAt s) (sessionLastUsedAt s).
Definition touchBrowserSession (s : BrowserSession) (st : BrowserSessionState) (now : Z) : BrowserSession :=
  mkSession (sessionId s) (mode s) st (routingReason s) (routingPolicyReason s) (sessionCreatedAt s) now.
Definition remoteTabIdFor (page : option string) : result exn string :=
  match page with
  | Some id => if sempty id then Err (Native "The direct browser engine requires a stable page id.") else Ok ("direct:page:" +:+ id)
  | None => Err (Native "The direct browser engine requires a stable page id.")
  end.

(** *** Reuse *)
Definition ABOUT_BLANK_URL : string := "about:blank".
Record BrowserTabReuseRequest := mkRequest { targetUrl : string; q_purpose : string; q_reusable : bool; q_protected : bool; q_sticky : bool }.
Inductive Source := locked | requested | current | none.
Record BrowserTabReuseMatch := mkMatch { m_tab : BrowserTab; source : Source; shouldNavigate : bool }.

Section Reuse.
Context (href : string -> option string) (without_hash : string -> string) (localeCompare : string -> string -> Z).
Definition normalizeBrowserUrl (value : string) : result exn string := match href value with Some h => Ok h | None => Err (Native "Invalid URL") end.
Definition browserDocumentIdentity (value : string) : result exn string :=
  h ← normalizeBrowserUrl value;
  if h =s ABOUT_BLANK_URL then Ok ABOUT_BLANK_URL else Ok (without_hash h).
Definition normalizedOptional (value : option string) : result exn (option string) :=
  match value with None => Ok None | Some v => h ← normalizeBrowserUrl v; Ok (Some h) end.
Definition currentUrlOf (tab : BrowserTab) : result exn string := normalizeBrowserUrl (default ABOUT_BLANK_URL (url tab)).
Definition sameConfiguration (tab : BrowserTab) (request : BrowserTabReuseRequest) : bool :=
  (purpose tab =s q_purpose request) && eqb (reusable tab) (q_reusable request) && eqb (protected tab) (q_protected request) && eqb (sticky tab) (q_sticky request).
Definition shouldNavigateFromLogicalUrl (tab : BrowserTab) (logicalUrl target : string) : result exn bool :=
  currentUrl ← currentUrlOf tab;
  Ok (if target =s ABOUT_BLANK_URL then negb (currentUrl =s ABOUT_BLANK_URL) else if currentUrl =s ABOUT_BLANK_URL then true else negb (logicalUrl =s target)).
(** Is [value] a URL of the document? *)
Definition names_document (value : option string) (document : string) : result exn bool :=
  match value with None => Ok false | Some v => d ← browserDocumentIdentity v; Ok (d =s document) end.
Definition matchTabTarget (tab : BrowserTab) (targetUrl : string) : result exn (option BrowserTabReuseMatch) :=
  target ← normalizeBrowserUrl targetUrl;
  targetDocument ← browserDocumentIdentity target;
  lockedUrl ← normalizedOptional (lockedUrl tab);
  is_locked ← (if sticky tab then names_document lockedUrl targetDocument else Ok false);
  if (is_locked : bool) then n ← shouldNavigateFromLogicalUrl tab (default "" lockedUrl) target; Ok (Some (mkMatch tab locked n)) else
  requestedUrl ← normalizedOptional (requestedUrl tab);
  is_requested ← names_document requestedUrl targetDocument;
  if (is_requested : bool) then n ← shouldNavigateFromLogicalUrl tab (default "" requestedUrl) target; Ok (Some (mkMatch tab requested n)) else
  currentUrl ← currentUrlOf tab;
  let currentCanIdentifyTarget := negb (currentUrl =s ABOUT_BLANK_URL) || bool_decide (requestedUrl = None) || bool_decide (requestedUrl = Some ABOUT_BLANK_URL) in
  is_current ← (if currentCanIdentifyTarget then names_document (Some currentUrl) targetDocument else Ok false);
  if (is_current : bool) then Ok (Some (mkMatch tab current (negb (currentUrl =s target)))) else Ok None.
Definition sourceRank (s : Source) : Z := match s with locked | requested => 0 | current => 1 | none => 2 end.
(** [a || b] on numbers. *)
Definition or_else (a b : Z) : Z := if a =? 0 then b else a.
Definition compareExactMatches (left right : BrowserTabReuseMatch) : Z :=
  or_else (sourceRank (source left) - sourceRank (source right))
    (or_else (lastUsedAt (m_tab right) - lastUsedAt (m_tab left)) (localeCompare (tabId (m_tab left)) (tabId (m_tab right)))).
Definition selectExactTabReuse (tabs : list BrowserTab) (request : BrowserTabReuseRequest) : result exn (option BrowserTabReuseMatch) :=
  candidates ← mapM (fun tab => matchTabTarget tab (targetUrl request)) (List.filter (fun t => sameConfiguration t request) tabs);
  Ok (head (js_sort compareExactMatches (omap id candidates))).
Definition isLogicalBlankTab (tab : BrowserTab) : result exn bool :=
  requestedUrl ← normalizedOptional (requestedUrl tab);
  match requestedUrl with
  | Some u => Ok (u =s ABOUT_BLANK_URL)
  | None => u ← currentUrlOf tab; Ok (u =s ABOUT_BLANK_URL)
  end.
Definition recyclable_match (targetUrl : string) (tab : BrowserTab) : result exn BrowserTabReuseMatch :=
  targetMatch ← matchTabTarget tab targetUrl;
  match targetMatch with
  | Some m => Ok m
  | None => u ← currentUrlOf tab; Ok (mkMatch tab none (negb (u =s targetUrl)))
  end.
(** [recyclableRank] parses a URL, so it is computed for all candidates before they are compared; the comparator of the source asks for it
    again each time. *)
Definition recyclableRank (m : BrowserTabReuseMatch) : result exn Z :=
  match source m with
  | none => if purpose (m_tab m) =s "mcp-default" then blank ← isLogicalBlankTab (m_tab m); Ok (if (blank : bool) then 1 else 2) else Ok 2
  | _ => Ok 0
  end.
Definition compareRecyclableMatches (left right : Z * BrowserTabReuseMatch) : Z :=
  or_else (left.1 - right.1) (or_else (lastUsedAt (m_tab left.2) - lastUsedAt (m_tab right.2)) (localeCompare (tabId (m_tab left.2)) (tabId (m_tab right.2)))).
Definition selectRecyclableTab (tabs : list BrowserTab) (request : BrowserTabReuseRequest) : result exn (option BrowserTabReuseMatch) :=
  candidates ← mapM (recyclable_match (targetUrl request)) (List.filter (fun t => reusable t && negb (protected t) && negb (sticky t)) tabs);
  ranked ← mapM (fun m => r ← recyclableRank m; Ok (r, m)) candidates;
  Ok (snd <$> head (js_sort compareRecyclableMatches ranked)).
End Reuse.

(** *** The registry keeps what it must *)
(** A sticky tab is protected and not given away; a tab of the user is neither closed nor given away. *)
Definition well_kept (id : string) (t : BrowserTab) : Prop :=
  tabId t = id /\ (sticky t = true -> protected t = true /\ reusable t = false)
  /\ (ownership t = user_owned -> protected t = true /\ reusable t = false /\ sticky t = false /\ lifecycle t = Some external).
Definition Kept (r : TabRegistry) : Prop := jm_wf r /\ forall id t, jm_get r id = Some t -> well_kept id t.
Lemma kept_set r id t : Kept r -> well_kept id t -> Kept (jm_set r id t).
Proof.
  intros [Hw Hk] Ht. split; [by apply jm_wf_set|]. intros id' t'. rewrite jm_get_set. destruct (id' =s id) eqn:E; [|by apply Hk].
  apply String.eqb_eq in E as ->. by intros [= <-].
Qed.
Lemma kept_delete r id : Kept r -> Kept (jm_delete r id).
Proof. intros [Hw Hk]. split; [by apply jm_wf_delete|]. intros id' t'. rewrite jm_get_delete. destruct (id' =s id); [done|apply Hk]. Qed.
Lemma owned_get id r t : (assertMcpOwned id r).2 = Ok t -> jm_get r id = Some t /\ ownership t = mcp_owned.
Proof. cbn. destruct (jm_get r id) as [x|]; [|done]. case_bool_decide; [|done]. by intros [= <-]. Qed.
(** What a method that begins with [assertMcpOwned] does. *)
Lemma owned_bind {A} id (f : BrowserTab -> stm TabRegistry A) r (P : TabRegistry -> Prop) :
  P r -> (forall t, jm_get r id = Some t -> ownership t = mcp_owned -> P (f t r).1) -> P ((assertMcpOwned id ≫= f) r).1.
Proof.
  intros Hr Hf. unfold mbind, stm_bind. pose proof (owned_get id r) as Ho. destruct (assertMcpOwned id r) as [r' [t|e]] eqn:E; cbn [fst snd] in *.
  - unfold assertMcpOwned in E. injection E as <- _. destruct (Ho t eq_refl). auto.
  - unfold assertMcpOwned in E. by injection E as <- _.
Qed.
(** [assertClosable] changes nothing and lets go of the program's own, unprotected tabs only. *)
Lemma closable id r : (assertClosable id r).1 = r /\
  forall t, (assertClosable id r).2 = Ok t <-> jm_get r id = Some t /\ ownership t = mcp_owned /\ protected t = false /\ sticky t = false.
Proof.
  unfold assertClosable, mbind, stm_bind, assertMcpOwned. destruct (jm_get r id) as [x|]; [|split; [done|]; intros t; split; [done|intros (? & _); done]].
  case_bool_decide as Ho; [|split; [done|]; intros t; split; [done|intros ([= <-] & ? & _); done]].
  destruct (protected x || sticky x) eqn:E; (split; [done|]); intros t; cbn.
  - split; [done|]. intros ([= <-] & _ & Hp & Hs). by rewrite Hp, Hs in E.
  - apply orb_false_iff in E as [Hp Hs]. split; [by intros [= <-]|by intros ([= <-] & _)].
Qed.
Lemma kept_call c r : Kept r -> Kept (call c r).
Proof.
  intros Hr. destruct c; cbn [call].
  - apply kept_set; [done|]. split; [done|]. cbn. split; [|done]. by destruct (default false (i_sticky input)).
  - unfold reconfigureMcp. apply owned_bind; [done|]. intros t Ht Ho. apply kept_set; [done|]. destruct (proj2 Hr id t Ht) as (<- & _). split; [done|]. cbn.
    split; [by destruct (default (sticky t) (i_sticky input))|congruence].
  - apply kept_set; [done|]. by split.
  - unfold touch. apply owned_bind; [done|]. intros x Hx Ho. apply kept_set; [done|]. destruct (proj2 Hr id x Hx) as (E & Hs & Hu). split; [done|]. cbn. split; [done|congruence].
  - by apply kept_delete.
  - pose proof (closable id r) as Hc. unfold remove, mbind, stm_bind. destruct (assertClosable id r) as [r' [t|e]]; destruct Hc as [Hc _]; cbn in Hc; subst r'; [by apply kept_delete|done].
Qed.
(** [invariant] From tabs that are well kept, whatever is called, every tab is filed under its identifier, a sticky tab is protected
    and not reusable, and a tab of the user is protected, not reusable, not sticky and external; and [remove] succeeds exactly for a tab of
    the program that is neither protected nor sticky. *)
Theorem tabs_well_kept initial calls (H : forall t, t ∈ initial -> well_kept (tabId t) t) :
  let r := fold_left (fun r c => call c r) calls (construct initial) in
  Kept r /\ forall id, (remove id r).2 = Ok tt <-> exists t, jm_get r id = Some t /\ ownership t = mcp_owned /\ protected t = false /\ sticky t = false.
Proof.
  cbv zeta. set (r := fold_left _ calls _). split.
  - assert (Kept (construct initial)) as H0.
    { unfold construct. assert (Kept []) as Hn by (split; [constructor|done]). revert Hn. generalize (@nil (string * BrowserTab)). induction initial as [|t ts IH]; intros m Hm; [done|].
      cbn. apply IH; [intros x Hx; apply H; by right|]. apply kept_set; [done|]. apply H. left. }
    unfold r. clear r. revert H0. generalize (construct initial). induction calls as [|c cs IH]; intros m Hm; [done|]. by apply IH, kept_call.
  - intros id. destruct (closable id r) as [Hs Hc]. unfold remove, mbind, stm_bind. destruct (assertClosable id r) as [r' [t|e]]; cbn in *.
    + split; [|done]. intros _. exists t. by apply Hc.
    + split; [done|]. intros (t & Ht). by apply Hc in Ht.
Qed.
(** The calls that may take a tab from the user: those that register or discard its identifier. *)
Definition takes (id : string) (c : Call) : bool :=
  match c with
  | c_registerMcp uuid _ input => default uuid (i_tabId input) =s id
  | c_registerUser i _ _ _ | c_discard i => i =s id
  | _ => false
  end.
Lemma user_call id t c r : jm_get r id = Some t -> ownership t = user_owned -> takes id c = false -> jm_get (call c r) id = Some t.
Proof.
  intros Hg Hu Ht. assert (forall i, i =s id = false -> (id =s i) = false) as Hsym by (intros i; by rewrite String.eqb_sym).
  assert (forall i x, jm_get r i = Some x -> ownership x = mcp_owned -> (id =s i) = false) as Hne.
  { intros i x Hx Ho. destruct (id =s i) eqn:E; [|done]. apply String.eqb_eq in E as <-. congruence. }
  destruct c; cbn [call takes] in *.
  - cbn. rewrite jm_get_set. by rewrite Hsym.
  - unfold reconfigureMcp. apply owned_bind; [done|]. intros x Hx Ho. cbn. rewrite jm_get_set. by rewrite (Hne _ _ Hx Ho).
  - cbn. rewrite jm_get_set. by rewrite Hsym.
  - unfold touch. apply owned_bind; [done|]. intros x Hx Ho. cbn. rewrite jm_get_set. by rewrite (Hne _ _ Hx Ho).
  - cbn. rewrite jm_get_delete. by rewrite Hsym.
  - destruct (closable id0 r) as [Hs Hc]. unfold remove, mbind, stm_bind. destruct (assertClosable id0 r) as [r' [x|e]]; cbn in *; subst r'; [|done].
    destruct (proj1 (Hc x) eq_refl) as (Hx & Ho & _). rewrite jm_get_delete. by rewrite (Hne _ _ Hx Ho).
Qed.
(** [safety] A tab of the user stays exactly as it is through any calls that do not register or discard its identifier: it is not closed, not
    given another address, not taken over. *)
Theorem user_tab_untouched id t r calls (Ht : jm_get r id = Some t) (Hu : ownership t = user_owned) (Hc : forall c, c ∈ calls -> takes id c = false) :
  jm_get (fold_left (fun r c => call c r) calls r) id = Some t.
Proof.
  revert r Ht. induction calls as [|c cs IH]; intros r Ht; [done|]. cbn. apply IH; [intros x Hx; apply Hc; by right|]. apply user_call; [done|done|]. apply Hc. left.
Qed.

(** *** What reuse gives *)
Lemma head_least {A} (compare : A -> A -> Z) `{!JsSort.Consistent compare} xs m : head (js_sort compare xs) = Some m ->
  m ∈ xs /\ forall x, x ∈ xs -> x = m \/ compare m x <= 0.
Proof.
  intros Hh. pose proof (js_sort_sorted compare xs) as Hs. pose proof (js_sort_perm compare xs) as Hp. destruct (js_sort compare xs) as [|y ys]; [done|]. injection Hh as ->.
  inversion_clear Hs as [|? ? _ Hall]. rewrite Forall_forall in Hall. split; [rewrite <- Hp; left|]. intros x Hx. rewrite <- Hp in Hx.
  apply elem_of_cons in Hx as [->|Hx]; [by left|right; by apply Hall].
Qed.
Lemma head_none {A} (compare : A -> A -> Z) xs : head (js_sort compare xs) = None -> xs = [].
Proof.
  intros Hh. pose proof (js_sort_perm compare xs) as Hp. destruct (js_sort compare xs) as [|y ys]; [|done]. by apply Permutation_nil in Hp.
Qed.
Lemma mapM_elem_of {A B} (f : A -> result exn B) xs ys : mapM f xs = Ok ys -> (forall y, y ∈ ys -> exists x, x ∈ xs /\ f x = Ok y) /\ forall x, x ∈ xs -> exists y, y ∈ ys /\ f x = Ok y.
Proof.
  revert ys. induction xs as [|x xs IH]; intros ys H; cbn in H; [injection H as <-; split; intros ? ?%elem_of_nil; done|].
  apply bind_ok in H as (z & Hz & H). apply bind_ok in H as (zs & Hzs & H). injection H as <-. destruct (IH _ Hzs) as [H1 H2]. split.
  - intros y [->|Hy]%elem_of_cons; [exists x; split; [left|done]|]. destruct (H1 y Hy) as (x' & ? & ?). exists x'. split; [by right|done].
  - intros x' [->|Hx]%elem_of_cons; [exists z; split; [left|done]|]. destruct (H2 x' Hx) as (y & ? & ?). exists y. split; [by right|done].
Qed.
Lemma or_else_le a b : or_else a b <= 0 <-> a < 0 \/ (a = 0 /\ b <= 0).
Proof. unfold or_else. destruct (Z.eqb_spec a 0); lia. Qed.

Section ReuseLaws.
Context (href : string -> option string) (without_hash : string -> string) (localeCompare : string -> string -> Z).
Context (L : JsSort.Consistent localeCompare).
Notation matchTabTarget := (matchTabTarget href without_hash).
Notation browserDocumentIdentity := (browserDocumentIdentity href without_hash).
Notation compareExactMatches := (compareExactMatches localeCompare).
Notation compareRecyclableMatches := (compareRecyclableMatches localeCompare).
Lemma lexicographic {A} (rank : A -> Z) (used : A -> Z) (name : A -> string) (cmp : A -> A -> Z) :
  (forall x y, cmp x y = or_else (rank x - rank y) (or_else (used x - used y) (localeCompare (name x) (name y)))) -> JsSort.Consistent cmp.
Proof.
  intros E. constructor.
  - intros x y. rewrite !E, or_else_le, or_else_le. intros H. assert (~ (or_else (rank x - rank y) (or_else (used x - used y) (localeCompare (name x) (name y))) <= 0)) as Hn by lia.
    rewrite or_else_le, or_else_le in Hn. destruct (Z.lt_trichotomy (rank x) (rank y)) as [|[|]]; [lia| |lia]. destruct (Z.lt_trichotomy (used x) (used y)) as [|[|]]; [lia| |lia].
    right. split; [lia|]. right. split; [lia|]. apply (@compare_total _ localeCompare L (name x) (name y)). apply Z.nle_gt. intros Hl. apply Hn. right. split; [lia|]. right. split; [lia|exact Hl].
  - intros x y z. rewrite !E, !or_else_le. intros H1 H2. destruct H1 as [|(? & [|[? H1]])]; destruct H2 as [|(? & [|[? H2]])]; try (left; lia); try (right; split; [lia|left; lia]).
    right. split; [lia|]. right. split; [lia|]. by apply (@compare_trans _ localeCompare L (name x) (name y) (name z)).
Qed.
#[local] Instance exact_consistent : JsSort.Consistent compareExactMatches.
Proof. apply (lexicographic (fun m => sourceRank (source m)) (fun m => - lastUsedAt (m_tab m)) (fun m => tabId (m_tab m))). intros x y. unfold Tabs.compareExactMatches. do 2 f_equal. lia. Qed.
#[local] Instance recyclable_consistent : JsSort.Consistent compareRecyclableMatches.
Proof. by apply (lexicographic (fun m => m.1) (fun m => lastUsedAt (m_tab m.2)) (fun m => tabId (m_tab m.2))). Qed.
(** The URL by which a match knows the document, and what it is to need no navigation. *)
Definition known_by (m : BrowserTabReuseMatch) : option string :=
  match source m with locked => lockedUrl (m_tab m) | requested => requestedUrl (m_tab m) | current => Some (default ABOUT_BLANK_URL (url (m_tab m))) | none => None end.
Lemma names_true value doc : names_document href without_hash value doc = Ok true -> exists v, value = Some v /\ browserDocumentIdentity v = Ok doc.
Proof.
  destruct value as [v|]; [|done]. cbn. intros H. apply bind_ok in H as (d & Hd & H). injection H as H%String.eqb_eq. subst d. by exists v.
Qed.
Lemma logical_stays tab l target : shouldNavigateFromLogicalUrl href tab l target = Ok false -> l = target \/ (target = ABOUT_BLANK_URL /\ currentUrlOf href tab = Ok ABOUT_BLANK_URL).
Proof.
  unfold shouldNavigateFromLogicalUrl. intros H. apply bind_ok in H as (c & Hc & H). injection H as H. destruct (target =s ABOUT_BLANK_URL) eqn:Et.
  - apply String.eqb_eq in Et. apply negb_false_iff, String.eqb_eq in H. subst c. by right.
  - destruct (c =s ABOUT_BLANK_URL); [done|]. apply negb_false_iff, String.eqb_eq in H. by left.
Qed.
Lemma optional_some value v : normalizedOptional href value = Ok (Some v) -> exists w, value = Some w /\ href w = Some v.
Proof.
  destruct value as [w|]; [|done]. cbn. unfold normalizeBrowserUrl. destruct (href w) as [h|] eqn:E; [|done]. cbn. intros [= <-]. by exists w.
Qed.
(** A match: a URL of the tab that names the document asked for, and no navigation only when the tab is already there. *)
Definition sound_match (tab : BrowserTab) (asked : string) (m : BrowserTabReuseMatch) : Prop :=
  m_tab m = tab /\ exists h doc w u, href asked = Some h /\ browserDocumentIdentity h = Ok doc /\ known_by m = Some w /\ href w = Some u /\ browserDocumentIdentity u = Ok doc
    /\ (shouldNavigate m = false -> u = h \/ (h = ABOUT_BLANK_URL /\ currentUrlOf href tab = Ok ABOUT_BLANK_URL)).
Lemma normalized_href v h : normalizeBrowserUrl href v = Ok h -> href v = Some h.
Proof. unfold normalizeBrowserUrl. destruct (href v); [by intros [= ->]|done]. Qed.
Lemma match_sound tab asked m : matchTabTarget tab asked = Ok (Some m) -> sound_match tab asked m.
Proof.
  unfold Tabs.matchTabTarget. intros H. apply bind_ok in H as (h & Hh%normalized_href & H). apply bind_ok in H as (doc & Hdoc & H). apply bind_ok in H as (lk & Hlk & H).
  apply bind_ok in H as (b & Hb & H). destruct b.
  { destruct (sticky tab); [|done]. apply names_true in Hb as (v & -> & Hv). apply optional_some in Hlk as (w & Hw & Hu). apply bind_ok in H as (n & Hn & H). injection H as <-.
    split; [done|]. exists h, doc, w, v. split_and!; try done. cbn. intros ->. by apply logical_stays in Hn. }
  apply bind_ok in H as (rq & Hrq & H). apply bind_ok in H as (b & Hb2 & H). destruct b.
  { apply names_true in Hb2 as (v & -> & Hv). apply optional_some in Hrq as (w & Hw & Hu). apply bind_ok in H as (n & Hn & H). injection H as <-.
    split; [done|]. exists h, doc, w, v. split_and!; try done. cbn. intros ->. by apply logical_stays in Hn. }
  apply bind_ok in H as (c & Hc%normalized_href & H). cbv zeta in H. apply bind_ok in H as (b & Hb3 & H). destruct b; [|done]. injection H as <-. 
  assert (names_document href without_hash (Some c) doc = Ok true) as Hn by (by destruct (_ || _)). apply names_true in Hn as (v & [= <-] & Hv).
  split; [done|]. exists h, doc, (default ABOUT_BLANK_URL (url tab)), c. split_and!; try done. cbn. intros Hs%negb_false_iff%String.eqb_eq. by left.
Qed.
(** [functional] Exact reuse gives a tab with the configuration asked for that has the document asked for (by its locked, its requested or its
    current URL), the best of these by rank, last use and identifier, and says that no navigation is needed only when the tab is there;
    it gives none only when there is no such tab.  Recycling gives a tab that is reusable and neither protected nor sticky,
    and none only when there is none. *)
Theorem reuse_exact tabs request :
  (forall o, selectExactTabReuse href without_hash localeCompare tabs request = Ok o ->
     match o with
     | Some m => m_tab m ∈ tabs /\ sameConfiguration (m_tab m) request = true /\ sound_match (m_tab m) (targetUrl request) m
         /\ forall t m', t ∈ tabs -> sameConfiguration t request = true -> matchTabTarget t (targetUrl request) = Ok (Some m') -> m' = m \/ compareExactMatches m m' <= 0
     | None => forall t, t ∈ tabs -> sameConfiguration t request = true -> matchTabTarget t (targetUrl request) = Ok None
     end)
  /\ forall o, selectRecyclableTab href without_hash localeCompare tabs request = Ok o ->
     match o with
     | Some m => m_tab m ∈ tabs /\ reusable (m_tab m) = true /\ protected (m_tab m) = false /\ sticky (m_tab m) = false
     | None => forall t, t ∈ tabs -> reusable t = true -> protected t = true \/ sticky t = true
     end.
Proof.
  split; intros o H.
  - unfold selectExactTabReuse in H. apply bind_ok in H as (cs & Hcs & H). injection H as <-. apply mapM_elem_of in Hcs as [Hc1 Hc2].
    assert (Hin : forall m, m ∈ omap id cs <-> Some m ∈ cs) by (intros m; rewrite list_elem_of_omap; split; [intros (y & Hy & E); unfold id in E; by subst y|intros Hm; by exists (Some m)]).
    destruct (head _) as [m|] eqn:Eh.
    + apply head_least in Eh as [Hm Hl]; [|apply exact_consistent]. apply Hin, Hc1 in Hm as (t & Ht & Em). apply in_List_filter in Ht as [Ht Hsame].
      pose proof (match_sound _ _ _ Em) as Hs. pose proof Hs as [Et _]. rewrite Et. split_and!; [done|done|done|].
      intros t' m' Ht' Hsame' Em'. destruct (Hc2 t') as (y & Hy & Ey); [by apply in_List_filter|]. rewrite Em' in Ey. injection Ey as <-. by apply Hl, Hin.
    + apply head_none in Eh. intros t Ht Hsame. destruct (Hc2 t) as (y & Hy & Ey); [by apply in_List_filter|]. destruct y as [m|]; [|done]. apply Hin in Hy. rewrite Eh in Hy. by apply elem_of_nil in Hy.
  - unfold selectRecyclableTab in H. apply bind_ok in H as (cs & Hcs & H). apply bind_ok in H as (rs & Hrs & H). injection H as <-.
    apply mapM_elem_of in Hcs as [Hc1 Hc2]. apply mapM_elem_of in Hrs as [Hr1 Hr2]. destruct (head _) as [[rank m]|] eqn:Eh; cbn.
    + apply head_least in Eh as [Hm _]; [|apply recyclable_consistent]. destruct (Hr1 _ Hm) as (m' & Hm' & E). apply bind_ok in E as (? & _ & [= <- <-]).
      destruct (Hc1 _ Hm') as (t & Ht & E). apply in_List_filter in Ht as [Ht Hf]. rewrite !andb_true_iff, !negb_true_iff in Hf. destruct Hf as [[? ?] ?].
      assert (m_tab m' = t) as ->; [|done]. unfold recyclable_match in E. apply bind_ok in E as (tm & Etm & E). destruct tm as [xm|]; [injection E as <-; by apply match_sound in Etm as [? _]|].
      apply bind_ok in E as (? & _ & [= <-]). done.
    + apply head_none in Eh. subst rs. intros t Ht Hr. destruct (protected t) eqn:Ep; [by left|]. destruct (sticky t) eqn:Es; [by right|]. exfalso.
      destruct (Hc2 t) as (m & Hm & _); [apply in_List_filter; split; [done|]; by rewrite Hr, Ep, Es|]. destruct (Hr2 m Hm) as (? & Hx & _). by apply elem_of_nil in Hx.
Qed.
End ReuseLaws.

(** *** Tabs of a task and of the user *)
Module Trial.
Definition localeCompare (a b : string) : Z := Z.of_nat (String.length a) - Z.of_nat (String.length b).
#[export] Instance by_length_consistent : JsSort.Consistent localeCompare.
Proof. constructor; unfold localeCompare; intros; lia. Qed.
(** URLs are in their normal form. *)
Definition href (s : string) : option string := if startsWith s "https://" || (s =s ABOUT_BLANK_URL) then Some s else None.
Fixpoint without_hash (s : string) : string := match s with EmptyString => EmptyString | String c s' => if c =c "#"%char then EmptyString else String c (without_hash s') end.
Definition input (id : string) (is_sticky : bool) (u : string) : RegisterMcpTabInput := mkInput (Some id) None None None None None (Some is_sticky) (Some u) (Some u) None None.
Definition calls : list Call :=
  [c_registerMcp "x" 1 (input "t1" false "https://a.example/#one"); c_registerMcp "x" 2 (input "t2" true "https://b.example/"); c_registerUser "u1" 3 (Some "https://c.example/") None;
   c_reconfigureMcp "u1" 4 (input "u1" false "https://evil.example/"); c_touch "t1" 5 (Some "https://a.example/#two") None; c_remove "t2"; c_remove "u1"].
Definition r : TabRegistry := fold_left (fun r c => call c r) calls (construct []).
Lemma tabs_well_kept_witness : Kept r /\ map tabId (list_tabs r) = ["t1"; "t2"; "u1"].
Proof.
  split; [|vm_compute; reflexivity]. apply (proj1 (tabs_well_kept [] calls (fun t Ht => match (proj1 (elem_of_nil t) Ht) with end))).
Defined.
Definition users : BrowserTab := Tabs.mkTab "u1" None (Some external) user_owned "user-existing" false true false 3 3 (Some "https://c.example/") None None None.
Lemma user_tab_untouched_witness : jm_get (fold_left (fun r c => call c r) [c_touch "u1" 9 (Some "https://evil.example/") None; c_remove "u1"; c_discard "t1"] r) "u1" = Some users.
Proof.
  apply user_tab_untouched; [vm_compute; reflexivity|reflexivity|]. intros c Hc.
  repeat (apply elem_of_cons in Hc as [->|Hc]; [vm_compute; reflexivity|]). by apply elem_of_nil in Hc.
Defined.
Definition request (u : string) (is_sticky : bool) : BrowserTabReuseRequest := mkRequest u "generic-research" (negb is_sticky) is_sticky is_sticky.
Notation exact := (selectExactTabReuse href without_hash localeCompare (list_tabs r)).
Definition t1 : BrowserTab := Tabs.mkTab "t1" None (Some task_scoped) mcp_owned "generic-research" true false false 1 5 (Some "https://a.example/#two") (Some "https://a.example/#one") None None.
Lemma exact_t1 : exact (request "https://a.example/#three" false) = Ok (Some (mkMatch t1 requested true)).
Proof. vm_compute. reflexivity. Qed.
Lemma reuse_exact_witness : sameConfiguration t1 (request "https://a.example/#three" false) = true.
Proof.
  destruct (reuse_exact href without_hash localeCompare by_length_consistent (list_tabs r) (request "https://a.example/#three" false)) as [H _].
  exact (proj1 (proj2 (H _ exact_t1))).
Defined.
End Trial.
End Tabs.
