(* ===== verification/NavigationCache.v ===== *)
(** The navigation cache: services/browser-worker/domain/navigation-cache.ts.

    The cache remembers, for each purpose, the addresses that were opened, without those that carry credentials, a query or a
    fragment.  Entries are dropped when they were not used for [retentionMs], and beyond [maxEntries] the ones used longest
    ago.  URL parsing and SHA-256 are parameters; dates are instants. *)
From stdpp Require Import sorting.
From S2P Require Import Prelude Errors JsString JsMap JsSort JsUrl Timeouts SessionRegistry.
Open Scope string_scope.
Open Scope list_scope.
Open Scope Z_scope.

Module NavigationCache.
Record NavigationCacheEntry := mkEntry {
  cacheKey : string;
  url : string;
  purpose : string;
  title : option string;
  firstUsedAt : Z;
  lastUsedAt : Z;
  lastClosedAt : option Z;
  useCount : Z;
}.
Record NavigationCacheOptions := mkOptions { maxEntries : nat; retentionMs : Z }.
Record NavigationCacheFile := mkFile { updatedAt : Z; file_entries : list NavigationCacheEntry }.
Record NavigationCacheLookup := mkLookup { entry : NavigationCacheEntry; ageMs : Z }.
Notation Cache := (jsmap NavigationCacheEntry).

Section Cache.
Context (parse_url : string -> option (string * Url)) (sha256 : string -> string) (is_url : string -> bool) (options : NavigationCacheOptions).
(** [new URL(value)]: its [href] and its parts. *)
Definition cacheableUrl (value : option string) : result exn (option string) :=
  match value with
  | None => Ok None
  | Some v =>
      if sempty v then Ok None else
      match parse_url v with
      | None => Err (Native "Invalid URL")
      | Some (href, u) =>
          if negb ((u_protocol u =s "http:") || (u_protocol u =s "https:")) then Ok None
          else if negb (sempty (u_username u)) || negb (sempty (u_password u)) || negb (sempty (u_search u)) || negb (sempty (u_hash u)) then Ok None
          else Ok (Some href)
      end
  end.
Definition navigationCacheKey (url purpose : string) : string := sha256 (purpose +:+ str1 LF +:+ url).
Definition by_last_use (left right : NavigationCacheEntry) : Z := lastUsedAt right - lastUsedAt left.
Definition prune (now : Z) (c : Cache) : Cache :=
  let fresh := List.filter (fun e => negb (lastUsedAt e.2 <? now - retentionMs options)) c in
  fold_left (fun m e => jm_delete m (cacheKey e)) (drop (maxEntries options) (js_sort by_last_use (jm_values fresh))) fresh.
Definition resolve (purpose_ : string) (now : Z) (c : Cache) : Cache * option NavigationCacheLookup :=
  let c := prune now c in
  (c, match js_sort by_last_use (List.filter (fun e => purpose e =s purpose_) (jm_values c)) with
      | [] => None
      | e :: _ => Some (mkLookup e (Z.max 0 (now - lastUsedAt e)))
      end).
Record TabPlace := mkPlace { p_url : option string; p_requestedUrl : option string; p_purpose : string; p_title : option string }.
Definition record (input : TabPlace) (closed : bool) (now : Z) : stm Cache (option NavigationCacheEntry) := fun c =>
  match cacheableUrl (match p_requestedUrl input with Some u => Some u | None => p_url input end) with
  | Err e => (c, Err e)
  | Ok None => (c, Ok None)
  | Ok (Some u) =>
      let key := navigationCacheKey u (p_purpose input) in
      let current := jm_get c key in
      let e := mkEntry key u (p_purpose input) (p_title input) (default now (firstUsedAt <$> current)) now
                 (if closed then Some now else current ≫= lastClosedAt) (default 0 (useCount <$> current) + 1) in
      (prune now (jm_set c key e), Ok (Some e))
  end.
Definition list_entries (now : Z) (c : Cache) : Cache * list NavigationCacheEntry := let c := prune now c in (c, js_sort by_last_use (jm_values c)).
(** [/^[a-f0-9]{64}$/] *)
Definition is_key (s : string) : bool :=
  (String.length s =? 64)%nat && sforall (fun c => includes ["0"; "1"; "2"; "3"; "4"; "5"; "6"; "7"; "8"; "9"; "a"; "b"; "c"; "d"; "e"; "f"]%char c) s.
Definition navigationCacheEntrySchema (e : NavigationCacheEntry) : bool :=
  is_key (cacheKey e) && is_url (url e) && SessionRegistry.text_within 1 200 (purpose e) && SessionRegistry.option_all (SessionRegistry.text_within 0 500) (title e)
  && iso_datetime (firstUsedAt e) && iso_datetime (lastUsedAt e) && SessionRegistry.option_all iso_datetime (lastClosedAt e) && (1 <=? useCount e).
Definition navigationCacheFileSchema (f : NavigationCacheFile) : bool := iso_datetime (updatedAt f) && SessionRegistry.at_most 1000 navigationCacheEntrySchema (file_entries f).
(** [load]: [file] is what the file holds as JSON of the schema's shape, if there is a file. *)
Definition load (file : option NavigationCacheFile) (now : Z) : result exn Cache :=
  match file with
  | None => Ok []
  | Some f => if navigationCacheFileSchema f then Ok (prune now (SessionRegistry.map_of cacheKey (file_entries f))) else Err (Native "ZodError")
  end.
(** [save]: what is written. *)
Definition save (now : Z) (c : Cache) : Cache * result exn NavigationCacheFile :=
  let '(c, entries) := list_entries now (prune now c) in
  let f := mkFile now entries in
  (c, if navigationCacheFileSchema f then Ok f else Err (Native "ZodError")).

(** *** Pruning *)
Definition Filed (c : Cache) : Prop := jm_wf c /\ forall k e, (k, e) ∈ c -> k = cacheKey e.
Lemma filed_sub c d : Filed c -> jm_wf d -> (forall x, x ∈ d -> x ∈ c) -> Filed d.
Proof. intros [_ H] Hd Hs. split; [done|]. intros k e Hin. by apply H, Hs. Qed.
Lemma deletes_spec (ks : list NavigationCacheEntry) (c : Cache) : jm_wf c -> jm_wf (fold_left (fun m e => jm_delete m (cacheKey e)) ks c)
  /\ forall k e, (k, e) ∈ fold_left (fun m e => jm_delete m (cacheKey e)) ks c <-> (k, e) ∈ c /\ forall x, x ∈ ks -> cacheKey x <> k.
Proof.
  revert c. induction ks as [|x ks IH]; intros c Hw; cbn [fold_left]; [split; [done|]; intros k e; split; [intros H; split; [done|]; by intros ? ?%elem_of_nil|tauto]|].
  destruct (IH (jm_delete c (cacheKey x)) (jm_wf_delete _ _ Hw)) as [Hw' H]. split; [done|]. intros k e. rewrite H. unfold jm_delete. rewrite !list_elem_of_In, filter_In, <- list_elem_of_In.
  cbn. split.
  - intros [[Hin Hk%negb_true_iff] Hx]. split; [done|]. intros y [->|Hy]%elem_of_cons; [|by apply Hx]. intros E. by rewrite E, String.eqb_refl in Hk.
  - intros [Hin Hx]. split; [split; [done|]|intros y Hy; apply Hx; by right]. apply negb_true_iff, String.eqb_neq. apply Hx. left.
Qed.
Definition fresh (now : Z) (c : Cache) : Cache := List.filter (fun e => negb (lastUsedAt e.2 <? now - retentionMs options)) c.
Lemma fresh_filed now c : Filed c -> Filed (fresh now c).
Proof. intros H. apply (filed_sub c); [done|apply jm_wf_filter, H|]. intros x Hx. by apply SessionRegistry.in_List_filter in Hx as [Hx _]. Qed.
Lemma in_values (c : Cache) e : e ∈ jm_values c <-> exists k, (k, e) ∈ c.
Proof. unfold jm_values. rewrite list_elem_of_In, in_map_iff. split; [intros ([k x] & <- & H); exists k|intros [k H]; exists (k, e); split; [done|]]; by apply list_elem_of_In. Qed.
(** An entry is kept exactly when it is fresh and not among those beyond the limit. *)
Lemma in_prune now c k e : Filed c -> (k, e) ∈ prune now c <->
  (k, e) ∈ c /\ now - retentionMs options <= lastUsedAt e /\ forall x, x ∈ drop (maxEntries options) (js_sort by_last_use (jm_values (fresh now c))) -> cacheKey x <> k.
Proof.
  intros H. unfold prune. fold (fresh now c). destruct (deletes_spec (drop (maxEntries options) (js_sort by_last_use (jm_values (fresh now c)))) (fresh now c)) as [_ E]; [exact (proj1 (fresh_filed now c H))|].
  rewrite E. unfold fresh at 1. rewrite SessionRegistry.in_List_filter, negb_true_iff, Z.ltb_ge. tauto.
Qed.
Lemma prune_filed now c : Filed c -> Filed (prune now c).
Proof.
  intros H. apply (filed_sub c); [done| |intros [k e] Hin; apply in_prune in Hin; [by destruct Hin|done]].
  unfold prune. fold (fresh now c). exact (proj1 (deletes_spec _ _ (proj1 (fresh_filed now c H)))).
Qed.
Lemma values_nodup c : Filed c -> NoDup (jm_values c).
Proof.
  intros [Hw Hk]. unfold jm_values, jm_wf, jm_keys in *. apply (NoDup_fmap_1 cacheKey). replace (cacheKey <$> map snd c) with (map fst c); [done|].
  change (cacheKey <$> map snd c) with (map cacheKey (map snd c)). rewrite map_map. apply map_ext_in. intros [k e] Hin%list_elem_of_In. by apply Hk.
Qed.
Lemma prune_bound now c : Filed c -> (length (prune now c) <= maxEntries options)%nat.
Proof.
  intros H. set (sorted := js_sort by_last_use (jm_values (fresh now c))).
  assert (forall e, e ∈ jm_values (prune now c) -> e ∈ take (maxEntries options) sorted) as Hsub.
  { intros e He. apply in_values in He as [k Hin]. pose proof (proj2 (prune_filed now c H) _ _ Hin) as Ek. apply in_prune in Hin as (Hin & Hf & Hd); [|done].
    assert (e ∈ sorted) as Hs. { apply elem_of_js_sort, in_values. exists k. apply SessionRegistry.in_List_filter. split; [done|]. by apply negb_true_iff, Z.ltb_ge. }
    rewrite <- (take_drop (maxEntries options) sorted) in Hs. apply elem_of_app in Hs as [Hs|Hs]; [done|]. exfalso. by apply (Hd e Hs). }
  replace (length (prune now c)) with (length (jm_values (prune now c))) by apply length_map.
  etrans; [apply submseteq_length, NoDup_submseteq; [by apply values_nodup, prune_filed|exact Hsub]|]. rewrite length_take. lia.
Qed.
#[local] Instance by_last_use_consistent : JsSort.Consistent by_last_use.
Proof. constructor; unfold by_last_use; intros; lia. Qed.

(** *** What the cache holds *)
(** An address that may be remembered. *)
Definition clean (u : string) : Prop := exists v parts, parse_url v = Some (u, parts) /\ (u_protocol parts = "http:" \/ u_protocol parts = "https:")
  /\ u_username parts = EmptyString /\ u_password parts = EmptyString /\ u_search parts = EmptyString /\ u_hash parts = EmptyString.
Lemma cacheable_clean value u : cacheableUrl value = Ok (Some u) -> clean u.
Proof.
  destruct value as [v|]; [|done]. cbn [cacheableUrl]. destruct (sempty v); [done|]. destruct (parse_url v) as [[h p]|] eqn:E; [|done].
  destruct (negb (_ || _)) eqn:Ep; [done|]. destruct (_ || _ || _ || _) eqn:Ec; [done|]. intros [= <-]. exists v, p.
  apply negb_false_iff, orb_true_iff in Ep. rewrite !orb_false_iff, !negb_false_iff in Ec. destruct Ec as [[[? ?] ?] ?].
  split; [done|]. split; [destruct Ep as [Ep|Ep]; apply String.eqb_eq in Ep; auto|]. split_and!; by apply sempty_true.
Qed.
Section Runs.
Context (loaded : list NavigationCacheEntry).
(** The calls of a cache loaded with these entries. *)
Inductive reachable : Cache -> Prop :=
| r_load f now c : load f now = Ok c -> (forall x, f = Some x -> file_entries x = loaded) -> reachable c
| r_resolve c p now : reachable c -> reachable (resolve p now c).1
| r_record c i b now : reachable c -> reachable (record i b now c).1
| r_list c now : reachable c -> reachable (list_entries now c).1
| r_save c now : reachable c -> reachable (save now c).1.
Definition Held (c : Cache) : Prop :=
  Filed c /\ (length c <= maxEntries options)%nat /\ forall k e, (k, e) ∈ c -> e ∈ loaded \/ clean (url e) /\ k = navigationCacheKey (url e) (purpose e).
Lemma held_prune now c : Filed c -> (forall k e, (k, e) ∈ c -> e ∈ loaded \/ clean (url e) /\ k = navigationCacheKey (url e) (purpose e)) -> Held (prune now c).
Proof.
  intros Hf H. split_and!; [by apply prune_filed|by apply prune_bound|]. intros k e Hin. apply H. apply in_prune in Hin; [by destruct Hin|done].
Qed.
Lemma jm_set_in (c : Cache) k e k' e' : (k', e') ∈ jm_set c k e -> (k', e') = (k, e) \/ (k', e') ∈ c.
Proof.
  induction c as [|[k0 e0] c IH]; cbn; [intros ->%list_elem_of_singleton; by left|]. destruct (k =s k0) eqn:E.
  - apply String.eqb_eq in E as ->. intros [->|Hin]%elem_of_cons; [by left|right; by right].
  - intros [->|Hin]%elem_of_cons; [right; left|]. destruct (IH Hin); [by left|right; by right].
Qed.
Lemma held_record i b now c : Held c -> Held (record i b now c).1.
Proof.
  intros Hc. unfold record. destruct (cacheableUrl _) as [[u|]|] eqn:E; [|done..]. cbn [fst]. apply cacheable_clean in E. destruct Hc as ([Hw Hk] & _ & Hh).
  set (e := mkEntry _ _ _ _ _ _ _ _). apply held_prune.
  - split; [by apply jm_wf_set|]. intros k x [[= -> ->]|Hin]%jm_set_in; [done|by apply Hk].
  - intros k x [[= -> ->]|Hin]%jm_set_in; [by right|by apply Hh].
Qed.
Lemma map_of_filed (es : list NavigationCacheEntry) : Filed (SessionRegistry.map_of cacheKey es) /\ forall k e, (k, e) ∈ SessionRegistry.map_of cacheKey es -> e ∈ es.
Proof.
  unfold SessionRegistry.map_of. assert (forall ys (m : Cache), Filed m -> (forall k e, (k, e) ∈ m -> e ∈ ys ++ es) ->
    Filed (fold_left (fun m v => jm_set m (cacheKey v) v) es m) /\ forall k e, (k, e) ∈ fold_left (fun m v => jm_set m (cacheKey v) v) es m -> e ∈ ys ++ es) as H.
  { induction es as [|x es IH]; intros ys m [Hw Hk] Hm; cbn [fold_left]; [by repeat split|]. replace (ys ++ x :: es) with ((ys ++ [x]) ++ es) in * by (by rewrite <- app_assoc).
    apply IH; [split; [by apply jm_wf_set|]|].
    - intros k e [[= -> ->]|Hin]%jm_set_in; [done|by apply Hk].
    - intros k e [[= -> ->]|Hin]%jm_set_in; [set_solver|by apply (Hm k)]. }
  destruct (H [] []) as [H1 H2]; [split; [constructor|by intros ? ? ?%elem_of_nil]|by intros ? ? ?%elem_of_nil|]. by split.
Qed.
Lemma reachable_held c : reachable c -> Held c.
Proof.
  induction 1 as [f now c Hl He|c p now _ IH|c i b now _ IH|c now _ IH|c now _ IH].
  - destruct f as [f|]; cbn in Hl; [|injection Hl as <-; split_and!; [split; [constructor|by intros ? ? ?%elem_of_nil]|cbn; lia|by intros ? ? ?%elem_of_nil]].
    destruct (navigationCacheFileSchema f); [|done]. injection Hl as <-. destruct (map_of_filed (file_entries f)) as [Hf Hin]. apply held_prune; [done|].
    intros k e H. left. rewrite <- (He f eq_refl). by apply (Hin k).
  - apply held_prune; apply IH.
  - by apply held_record.
  - apply held_prune; apply IH.
  - destruct IH as (Hf & _ & Hh). unfold save. cbn. pose proof (held_prune now c Hf Hh) as (Hf' & _ & Hh'). by apply held_prune.
Qed.
Lemma prune_only_old now c : Filed c -> (length c <= maxEntries options)%nat -> forall k e, (k, e) ∈ prune now c <-> (k, e) ∈ c /\ now - retentionMs options <= lastUsedAt e.
Proof.
  intros Hf Hl k e. rewrite in_prune by done. rewrite drop_ge; [split; [tauto|]; intros [? ?]; split_and!; try done; by intros x ?%elem_of_nil|].
  rewrite js_sort_perm. unfold jm_values, fresh. rewrite length_map. etrans; [apply SessionRegistry.filter_length|done].
Qed.
(** [safety] Whatever is called, the cache has at most [maxEntries] entries, each under its own key, and every entry that was not in
    the file loaded is for an HTTP address without credentials, query or fragment; and [resolve] answers, for a purpose, the entry
    that was used last, not longer ago than the retention, and nothing only when there is no such entry. *)
Theorem navigation_cache_sound c (H : reachable c) : Held c /\ forall p now,
  match (resolve p now c).2 with
  | Some l => (cacheKey (entry l), entry l) ∈ c /\ purpose (entry l) = p /\ now - retentionMs options <= lastUsedAt (entry l)
      /\ forall k e, (k, e) ∈ c -> purpose e = p -> lastUsedAt e <= lastUsedAt (entry l)
  | None => forall k e, (k, e) ∈ c -> purpose e = p -> lastUsedAt e < now - retentionMs options
  end.
Proof.
  apply reachable_held in H. split; [done|]. destruct H as (Hf & Hl & _). intros p now. cbn. pose proof (prune_only_old now c Hf Hl) as Hin.
  set (es := List.filter (fun e => purpose e =s p) (jm_values (prune now c))). pose proof (js_sort_sorted by_last_use es) as Hs. pose proof (js_sort_perm by_last_use es) as Hp.
  assert (forall x k, (k, x) ∈ c -> purpose x = p -> now - retentionMs options <= lastUsedAt x -> x ∈ es) as Hes.
  { intros x k Hx Hpx Hr. apply SessionRegistry.in_List_filter. split; [apply in_values; exists k; by apply Hin|by apply String.eqb_eq]. }
  destruct (js_sort by_last_use es) as [|e rest]; cbn [entry].
  - intros k e Hx Hpe. apply Permutation_nil in Hp. apply Z.nle_gt. intros Hr. specialize (Hes e k Hx Hpe Hr). rewrite Hp in Hes. by apply elem_of_nil in Hes.
  - assert (e ∈ es) as He by (rewrite <- Hp; left). apply SessionRegistry.in_List_filter in He as [He Hpe%String.eqb_eq]. apply in_values in He as [k Hk%Hin].
    destruct Hk as [Hk Hr]. pose proof (proj2 Hf _ _ Hk) as Ek. subst k. split_and!; try done. intros k x Hx Hpx. apply Z.nlt_ge. intros Hlt.
    specialize (Hes x k Hx Hpx ltac:(lia)). rewrite <- Hp in Hes. inversion_clear Hs as [|? ? _ Hall]. rewrite Forall_forall in Hall.
    apply elem_of_cons in Hes as [->|Hxe]; [lia|]. specialize (Hall x Hxe). unfold sorted_before, by_last_use in Hall. lia.
Qed.
End Runs.
End Cache.

(** *** Two purposes *)
Module Trial.
Definition parse_url (s : string) : option (string * Url) :=
  if s =s "https://a.example/" then Some (s, mkUrl "https:" s "https://a.example" "/" "" "" "" "")
  else if s =s "https://b.example/?q=1" then Some (s, mkUrl "https:" s "https://b.example" "/" "" "" "?q=1" "") else None.
Definition options : NavigationCacheOptions := mkOptions 1 1000.
Definition place (u p : string) : TabPlace := mkPlace (Some u) None p None.
Notation record := (record parse_url (fun s => s) options).
Definition c0 : Cache := [].
Definition c1 : Cache := (record (place "https://a.example/" "news") false 10 c0).1.
Definition c2 : Cache := (record (place "https://b.example/?q=1" "search") false 20 c1).1.
Definition c3 : Cache := (record (place "https://a.example/" "mail") true 30 c2).1.
Lemma c3_reachable : reachable parse_url (fun s => s) (fun _ => true) options [] c3.
Proof. do 3 apply r_record. by apply (r_load _ _ _ _ _ None 0). Qed.
Lemma navigation_cache_sound_witness : (length c3 <= 1)%nat /\ match (resolve options "mail" 40 c3).2 with Some l => purpose (entry l) = "mail" | None => False end.
Proof.
  destruct (navigation_cache_sound parse_url (fun s => s) (fun _ => true) options [] c3 c3_reachable) as [(_ & Hl & _) H].
  split; [exact Hl|]. specialize (H "mail" 40). assert (is_Some (resolve options "mail" 40 c3).2) as Hs by (vm_compute; by eexists).
  destruct (resolve options "mail" 40 c3).2 as [l|]; [exact (proj1 (proj2 H))|by destruct Hs].
Defined.
Example remembered : map (fun e => (url e.2, purpose e.2)) c2 = [("https://a.example/", "news")] /\ map (fun e => (purpose e.2, lastClosedAt e.2)) c3 = [("mail", Some 30)].
Proof. vm_compute. split; reflexivity. Qed.
End Trial.
End NavigationCache.
