(* ===== verification/OwnerProvider.v ===== *)
(** The owner login of the gateway: services/mcp-gateway/src/auth/owner-provider.ts and owner-state-store.ts.

    The gateway is its own OAuth provider when clients reach it without the edge.  A client registers, the owner approves it with a
    password, the client exchanges the code for an access token and a refresh token, refreshes and revokes; what is registered and issued
    is kept in a file, from which a later process resumes.  The methods have no await inside, so a call is one step.  [World] is the provider, with
    the file and, as a record of what happened, the approvals of the owner.  The router of the MCP library (PKCE, parsing of requests) calls
    the methods with clients that [getClient] gave; [checkResourceAllowed], URL parsing, SHA-256 and random values are parameters; the bytes of the file
    are a size and the write succeeds or fails. *)
From S2P Require Import Prelude Errors JsString JsBuffer JsMap Zod JsUrl.
Open Scope string_scope.
Open Scope list_scope.
Open Scope Z_scope.

Module OwnerProvider.
Definition CODE_TTL_MS : Z := 300000.
Definition MAX_STATE_BYTES : Z := 1048576.
Definition MAX_CLIENTS : nat := 256.
Definition MAX_TOKENS_PER_KIND : nat := 4096.
Record OwnerOAuthConfig := mkConfig {
  ownerToken : string; accessTokenTtlSeconds : Z; refreshTokenTtlSeconds : Z; scopes : list string; allowedRedirectHosts : list string; stateful : bool }.
Record Client := mkClient {
  client_id : string; client_id_issued_at : Z; redirect_uris : list string; client_name : option string; client_secret : option string;
  token_endpoint_auth_method : option string; grant_types : option (list string); response_types : option (list string) }.
Record AuthorizationParams := mkParams {
  redirectUri : string; codeChallenge : string; p_scopes : option (list string); p_state : option string; p_resource : option Url }.
Record AuthorizationCodeRecord := mkCode { c_clientId : string; c_params : AuthorizationParams; expiresAtMs : Z }.
(** [AccessTokenRecord] and [RefreshTokenRecord] are the same. *)
Record TokenRecord := mkToken { clientId : string; t_scopes : list string; expiresAt : Z; t_resource : option Url }.
Record PersistedTokenRecord := mkPersisted { hash : string; pt_clientId : string; pt_scopes : list string; pt_expiresAt : Z; pt_resource : option string }.
Record Snapshot := mkSnapshot { resourceServer : string; s_clients : list Client; s_access : list PersistedTokenRecord; s_refresh : list PersistedTokenRecord }.
Record World := mkWorld {
  clients : jsmap Client; codes : jsmap AuthorizationCodeRecord; accessTokens : jsmap TokenRecord; refreshTokens : jsmap TokenRecord; file : option Snapshot;
  approved : list (string * list string) }.
Definition set_clients (c : jsmap Client) (w : World) : World := mkWorld c (codes w) (accessTokens w) (refreshTokens w) (file w) (approved w).
Definition set_codes (c : jsmap AuthorizationCodeRecord) (w : World) : World := mkWorld (clients w) c (accessTokens w) (refreshTokens w) (file w) (approved w).
Definition set_tokens (a r : jsmap TokenRecord) (w : World) : World := mkWorld (clients w) (codes w) a r (file w) (approved w).
Definition set_file (f : option Snapshot) (w : World) : World := mkWorld (clients w) (codes w) (accessTokens w) (refreshTokens w) f (approved w).
Definition approve (c : string) (ss : list string) (w : World) : World :=
  mkWorld (clients w) (codes w) (accessTokens w) (refreshTokens w) (file w) ((c, ss) :: approved w).
Record OAuthTokens := mkTokens { access_token : string; expires_in : Z; refresh_token : string; o_scope : string }.
Record AuthInfo := mkInfo { i_clientId : string; i_scopes : list string; i_expiresAt : Z; i_resource : option Url }.
(** What [authorize] sends: the form (with its status), or the redirection with the code. *)
Inductive Reply := Form (status : Z) (fields : list (string * string)) | Redirected (to : string).

Definition InvalidRequestError : exn := Native "InvalidRequestError".
Definition InvalidGrantError : exn := Native "InvalidGrantError".
Definition InvalidTokenError : exn := Native "InvalidTokenError".
Definition AccessDeniedError : exn := Native "AccessDeniedError".
Definition state_error : exn := Native "Error".
(** [Math.floor(Date.now() / 1000)] *)
Definition seconds (now : Z) : Z := now / 1000.
Definition safeEquals (left right : string) : bool :=
  let a := utf8_encode left in let b := utf8_encode right in (String.length a =? String.length b)%nat && (a =s b).
Definition requestedScopesAllowed (requested supported : list string) : bool := forallb (includes supported) requested.

Section Provider.
Context (sha256 : string -> string) (new_URL : string -> option Url) (href : Url -> string) (set_param : string -> string -> Url -> Url).
Context (checkResourceAllowed : Url -> bool) (resource_href : string) (text_size : Snapshot -> Z) (cfg : OwnerOAuthConfig).

Definition hashToken (token : string) : string := base64url_encode (sha256 (utf8_encode token)).
Definition loopback : list string := ["localhost"; "127.0.0.1"; "[::1]"].
Definition redirectHostAllowed (uri : string) : bool :=
  match new_URL uri with
  | None => false
  | Some u =>
      if includes loopback (u_hostname u) then true
      else if (u_protocol u =s "https:") && (u_hostname u =s "chatgpt.com") then
        let segments := List.filter (fun s => negb (sempty s)) (split_on "/" (u_pathname u)) in
        sempty (u_username u) && sempty (u_password u) && sempty (u_search u) && sempty (u_hash u)
        && match segments with [a; b; _] => (a =s "connector") && (b =s "oauth") | _ => false end
      else includes (allowedRedirectHosts cfg) (u_hostname u)
  end.
Definition public_client (c : Client) : bool :=
  bool_decide (client_secret c = None) && match token_endpoint_auth_method c with Some m => m =s "none" | None => true end.
Definition redirects_allowed (c : Client) : bool := forallb redirectHostAllowed (redirect_uris c).

(** *** owner-state-store.ts *)
Definition isAbsoluteUrl (value : string) : bool := match new_URL value with Some u => href u =s value | None => false end.
Definition is_safe (n : Z) : bool := Z.abs n <=? MAX_SAFE_INTEGER.
Definition readClient (c : Client) : bool :=
  negb (sempty (client_id c)) && is_safe (client_id_issued_at c) && negb (bool_decide (redirect_uris c = [])) && forallb isAbsoluteUrl (redirect_uris c) && public_client c.
Definition hash_char (c : ascii) : bool := has_char c BASE64URL.
Definition readTokenRecord (t : PersistedTokenRecord) : bool :=
  (String.length (hash t) =? 43)%nat && sforall hash_char (hash t) && negb (sempty (pt_clientId t)) && (length (pt_scopes t) <=? 64)%nat
  && forallb (fun s => negb (sempty s)) (pt_scopes t) && is_safe (pt_expiresAt t) && (0 <? pt_expiresAt t) && from_option isAbsoluteUrl true (pt_resource t).
Definition readTokenRecords (ts : list PersistedTokenRecord) : result exn unit :=
  if (MAX_TOKENS_PER_KIND <? length ts)%nat || negb (forallb readTokenRecord ts) then Err state_error else Ok tt.
Definition load (file : option Snapshot) : result exn Snapshot :=
  match file with
  | None => Ok (mkSnapshot resource_href [] [] [])
  | Some s =>
      if (text_size s <=? 0) || (MAX_STATE_BYTES <? text_size s) then Err state_error
      else if negb (resourceServer s =s resource_href) then Err state_error
      else if (MAX_CLIENTS <? length (s_clients s))%nat || negb (forallb readClient (s_clients s)) then Err state_error
      else _ ← readTokenRecords (s_access s); _ ← readTokenRecords (s_refresh s); Ok s
  end.
Definition save (io : bool) (s : Snapshot) : stm World unit := fun w =>
  if (MAX_CLIENTS <? length (s_clients s))%nat || (MAX_TOKENS_PER_KIND <? length (s_access s))%nat || (MAX_TOKENS_PER_KIND <? length (s_refresh s))%nat
     || (MAX_STATE_BYTES <? text_size s) || negb io then (w, Err state_error)
  else (set_file (Some s) w, Ok tt).

(** *** The state of the provider *)
Definition serialize (e : string * TokenRecord) : PersistedTokenRecord :=
  mkPersisted e.1 (clientId e.2) (t_scopes e.2) (expiresAt e.2) (href <$> t_resource e.2).
Definition unexpired (now : Z) (e : string * TokenRecord) : bool := now <? expiresAt e.2.
Definition serializeTokenRecords (records : jsmap TokenRecord) (now : Z) : list PersistedTokenRecord := map serialize (List.filter (unexpired now) records).
Definition snapshot (now : Z) (w : World) : Snapshot :=
  mkSnapshot resource_href (jm_values (clients w)) (serializeTokenRecords (accessTokens w) (seconds now)) (serializeTokenRecords (refreshTokens w) (seconds now)).
Definition persistState (now : Z) (io : bool) : stm World unit := fun w => if stateful cfg then save io (snapshot now w) w else (w, Ok tt).
Definition mutateTokens (now : Z) (io : bool) (mutation : World -> World) : stm World unit := fun w =>
  if negb (stateful cfg) then (mutation w, Ok tt)
  else match persistState now io (mutation w) with
       | (w', Ok _) => (w', Ok tt)
       | (w', Err e) => (set_tokens (accessTokens w) (refreshTokens w) w', Err e)
       end.
Definition registerClient (c : Client) (uuid : string) (now : Z) (io : bool) : stm World Client := fun w =>
  if negb (public_client c) then (w, Err InvalidRequestError)
  else if negb (redirects_allowed c) then (w, Err InvalidRequestError)
  else
    let registered := mkClient ("mcp-" +:+ uuid) (seconds now) (redirect_uris c) (client_name c) (client_secret c)
      (Some (default "none" (token_endpoint_auth_method c))) (Some (default ["authorization_code"; "refresh_token"] (grant_types c)))
      (Some (default ["code"] (response_types c))) in
    match persistState now io (set_clients (jm_set (clients w) (client_id registered) registered) w) with
    | (w', Ok _) => (w', Ok registered)
    | (w', Err e) => (set_clients (jm_delete (clients w') (client_id registered)) w', Err e)
    end.
Definition authorizationFormFields (client : Client) (params : AuthorizationParams) : list (string * option string) :=
  [("response_type", Some "code"); ("client_id", Some (client_id client)); ("redirect_uri", Some (redirectUri params)); ("code_challenge", Some (codeChallenge params));
   ("code_challenge_method", Some "S256"); ("scope", join " " <$> p_scopes params); ("state", p_state params); ("resource", href <$> p_resource params)].
Definition form_fields (client : Client) (params : AuthorizationParams) : list (string * string) :=
  omap (fun e => (fun v => (e.1, v)) <$> e.2) (authorizationFormFields client params).
(** [posted] is the password of a POST. *)
Definition authorize (client : Client) (params : AuthorizationParams) (posted : option string) (uuid : string) (now : Z) : stm World Reply := fun w =>
  if negb (from_option checkResourceAllowed false (p_resource params)) then (w, Err InvalidRequestError)
  else if negb (requestedScopesAllowed (default [] (p_scopes params)) (scopes cfg)) then (w, Err InvalidRequestError)
  else match posted with
       | None => (w, Ok (Form 200 (form_fields client params)))
       | Some providedToken =>
           if negb (safeEquals providedToken (ownerToken cfg)) then (w, Ok (Form 401 (form_fields client params)))
           else
             let code := "code-" +:+ uuid in
             let w := approve (client_id client) (default (scopes cfg) (p_scopes params))
                        (set_codes (jm_set (codes w) code (mkCode (client_id client) params (now + CODE_TTL_MS))) w) in
             match new_URL (redirectUri params) with
             | None => (w, Err (Native "TypeError"))
             | Some u =>
                 let u := set_param "code" code u in
                 (w, Ok (Redirected (href (match p_state params with Some s => set_param "state" s u | None => u end))))
             end
       end.
Definition validCodeRecord (client : Client) (code : string) (now : Z) (w : World) : result exn AuthorizationCodeRecord :=
  match jm_get (codes w) code with
  | Some r => if negb (c_clientId r =s client_id client) || (expiresAtMs r <? now) then Err InvalidGrantError else Ok r
  | None => Err InvalidGrantError
  end.
Definition challengeForAuthorizationCode (client : Client) (code : string) (now : Z) (w : World) : result exn string :=
  r ← validCodeRecord client code now w; Ok (codeChallenge (c_params r)).
(** [tokens] are the two random tokens. *)
Definition issueTokens (cid : string) (ss : list string) (resource : option Url) (replaced : option string) (tokens : string * string) (now : Z) (io : bool) : stm World OAuthTokens :=
  let at_ := seconds now in
  mutateTokens now io (fun w =>
    set_tokens (jm_set (accessTokens w) (hashToken tokens.1) (mkToken cid ss (at_ + accessTokenTtlSeconds cfg) resource))
      (jm_set (from_option (jm_delete (refreshTokens w)) (refreshTokens w) replaced) (hashToken tokens.2) (mkToken cid ss (at_ + refreshTokenTtlSeconds cfg) resource)) w) ≫= fun _ =>
  st_ok (mkTokens tokens.1 (accessTokenTtlSeconds cfg) tokens.2 (join " " ss)).
Definition exchangeAuthorizationCode (client : Client) (code : string) (uri : option string) (resource : option Url) (tokens : string * string) (now : Z) (io : bool) :
    stm World OAuthTokens := fun w =>
  match validCodeRecord client code now w with
  | Err e => (w, Err e)
  | Ok r =>
      if from_option (fun u => negb (sempty u) && negb (u =s redirectUri (c_params r))) false uri then (w, Err InvalidGrantError)
      else if from_option (fun u => negb (checkResourceAllowed u)) false resource then (w, Err InvalidGrantError)
      else issueTokens (client_id client) (default (scopes cfg) (p_scopes (c_params r))) (p_resource (c_params r)) None tokens now io (set_codes (jm_delete (codes w) code) w)
  end.
Definition exchangeRefreshToken (client : Client) (refreshToken : string) (requested : option (list string)) (resource : option Url) (tokens : string * string) (now : Z) (io : bool) :
    stm World OAuthTokens := fun w =>
  let refreshHash := hashToken refreshToken in
  match jm_get (refreshTokens w) refreshHash with
  | None => (w, Err InvalidGrantError)
  | Some r =>
      if negb (clientId r =s client_id client) || (expiresAt r <? seconds now) then (w, Err InvalidGrantError)
      else if from_option (fun u => negb (checkResourceAllowed u)) false resource then (w, Err InvalidGrantError)
      else
        let requestedScopes := default (t_scopes r) requested in
        if negb (forallb (includes (t_scopes r)) requestedScopes) then (w, Err AccessDeniedError)
        else issueTokens (client_id client) requestedScopes (match resource with Some u => Some u | None => t_resource r end) (Some refreshHash) tokens now io w
  end.
Definition verifyAccessToken (token : string) (now : Z) (w : World) : result exn AuthInfo :=
  match jm_get (accessTokens w) (hashToken token) with
  | Some r => if expiresAt r <? seconds now then Err InvalidTokenError else Ok (mkInfo (clientId r) (t_scopes r) (expiresAt r) (t_resource r))
  | None => Err InvalidTokenError
  end.
Definition revokeToken (token : string) (now : Z) (io : bool) : stm World unit :=
  mutateTokens now io (fun w => set_tokens (jm_delete (accessTokens w) (hashToken token)) (jm_delete (refreshTokens w) (hashToken token)) w).

(** *** The constructor *)
Definition hydratePersistedTokenRecord (clientIds : list string) (r : PersistedTokenRecord) : result exn TokenRecord :=
  if negb (includes clientIds (pt_clientId r)) then Err state_error
  else if negb (requestedScopesAllowed (pt_scopes r) (scopes cfg)) then Err state_error
  else resource ← match pt_resource r with
                  | None => Ok None
                  | Some t => match new_URL t with Some u => Ok (Some u) | None => Err (Native "TypeError") end
                  end;
       if from_option (fun u => negb (checkResourceAllowed u)) false resource then Err state_error
       else Ok (mkToken (pt_clientId r) (pt_scopes r) (pt_expiresAt r) resource).
Fixpoint hydrate_all (clientIds : list string) (now : Z) (rs : list PersistedTokenRecord) (m : jsmap TokenRecord) : result exn (jsmap TokenRecord) :=
  match rs with
  | [] => Ok m
  | r :: rs =>
      if pt_expiresAt r <=? now then hydrate_all clientIds now rs m
      else t ← hydratePersistedTokenRecord clientIds r; hydrate_all clientIds now rs (jm_set m (hash r) t)
  end.
Fixpoint initial_clients (cs : list Client) (m : jsmap Client) : result exn (jsmap Client) :=
  match cs with
  | [] => Ok m
  | c :: cs =>
      if negb (public_client c) then Err state_error
      else if negb (redirects_allowed c) then Err state_error
      else if jm_has m (client_id c) then Err state_error
      else initial_clients cs (jm_set m (client_id c) c)
  end.
Definition construct (now : Z) (io : bool) (f : option Snapshot) (history : list (string * list string)) : result exn World :=
  persisted ← (if stateful cfg then load f else Ok (mkSnapshot resource_href [] [] []));
  let ids := map client_id (s_clients persisted) in
  access ← hydrate_all ids (seconds now) (s_access persisted) [];
  refresh ← hydrate_all ids (seconds now) (s_refresh persisted) [];
  cs ← initial_clients (s_clients persisted) [];
  let w := mkWorld cs [] access refresh f history in
  if stateful cfg && (negb (jm_size access =? length (s_access persisted))%nat || negb (jm_size refresh =? length (s_refresh persisted))%nat) then
    match persistState now io w with (w', Ok _) => Ok w' | (_, Err e) => Err e end
  else Ok w.

(** *** What can happen *)
Inductive Event :=
| Register (c : Client) (uuid : string)
| Authorize (id : string) (params : AuthorizationParams) (posted : option string) (uuid : string)
| Exchange (id code : string) (uri : option string) (resource : option Url) (tokens : string * string)
| Refresh (id token : string) (requested : option (list string)) (resource : option Url) (tokens : string * string)
| Revoke (token : string)
| Restart.
Definition ignore_answer {A} (p : World * result exn A) : World * result exn unit := (p.1, _ ← p.2; Ok tt).
(** A call of the router, with the client that [getClient] gives; a restart that fails leaves only the file (and a world in
    which nobody is registered and no token is known, which goes on being called, where the process is not there to be called). *)
Definition with_client (id : string) (f : Client -> World * result exn unit) (w : World) : World * result exn unit :=
  match jm_get (clients w) id with Some c => f c | None => (w, Err (Native "InvalidClientError")) end.
Definition step (now : Z) (io : bool) (e : Event) (w : World) : World * result exn unit :=
  match e with
  | Register c uuid => ignore_answer (registerClient c uuid now io w)
  | Authorize id params posted uuid => with_client id (fun c => ignore_answer (authorize c params posted uuid now w)) w
  | Exchange id code uri resource tokens => with_client id (fun c => ignore_answer (exchangeAuthorizationCode c code uri resource tokens now io w)) w
  | Refresh id token requested resource tokens => with_client id (fun c => ignore_answer (exchangeRefreshToken c token requested resource tokens now io w)) w
  | Revoke token => ignore_answer (revokeToken token now io w)
  | Restart => match construct now io (file w) (approved w) with Ok w' => (w', Ok tt) | Err e => (mkWorld [] [] [] [] (file w) (approved w), Err e) end
  end.
Definition started (f : option Snapshot) : World := mkWorld [] [] [] [] f [].
Definition run (es : list (Z * bool * Event)) (w : World) : World := fold_left (fun w e => (step e.1.1 e.1.2 e.2 w).1) es w.

(** ** What a call leaves *)
Definition saved (now : Z) (w : World) : World := if stateful cfg then set_file (Some (snapshot now w)) w else w.
Lemma persist_cases now io w : (persistState now io w = (saved now w, Ok tt)
    /\ (stateful cfg = true -> (length (clients w) <= MAX_CLIENTS /\ length (serializeTokenRecords (accessTokens w) (seconds now)) <= MAX_TOKENS_PER_KIND
        /\ length (serializeTokenRecords (refreshTokens w) (seconds now)) <= MAX_TOKENS_PER_KIND)%nat /\ text_size (snapshot now w) <= MAX_STATE_BYTES))
  \/ persistState now io w = (w, Err state_error).
Proof.
  unfold persistState, saved, save. destruct (stateful cfg); [|by left]. destruct (_ || _ || _ || _ || _) eqn:E; [by right|left]. split; [done|]. intros _.
  apply orb_false_iff in E as [E _]. apply orb_false_iff in E as [E E4]. apply orb_false_iff in E as [E E3]. apply orb_false_iff in E as [E1 E2].
  apply Nat.ltb_ge in E1, E2, E3. cbn in E1, E2, E3. unfold jm_values in E1. rewrite length_map in E1. split; [done|]. by apply Z.ltb_ge.
Qed.
Lemma mutate_cases now io f a r w : f w = set_tokens a r w ->
  (mutateTokens now io f w = (saved now (f w), Ok tt) /\ (stateful cfg = true -> persistState now io (f w) = (saved now (f w), Ok tt)))
  \/ mutateTokens now io f w = (w, Err state_error).
Proof.
  intros E. unfold mutateTokens. destruct (stateful cfg) eqn:Es; cbn [negb]; [|left; unfold saved; by rewrite Es].
  destruct (persist_cases now io (f w)) as [[-> _]| ->]; [by left|right]. rewrite E. by destruct w.
Qed.
(** What issuing does to the tokens. *)
Definition issued (cid : string) (ss : list string) (resource : option Url) (replaced : option string) (tokens : string * string) (now : Z) (w : World) : World :=
  set_tokens (jm_set (accessTokens w) (hashToken tokens.1) (mkToken cid ss (seconds now + accessTokenTtlSeconds cfg) resource))
    (jm_set (from_option (jm_delete (refreshTokens w)) (refreshTokens w) replaced) (hashToken tokens.2) (mkToken cid ss (seconds now + refreshTokenTtlSeconds cfg) resource)) w.
Definition revoked (token : string) (w : World) : World := set_tokens (jm_delete (accessTokens w) (hashToken token)) (jm_delete (refreshTokens w) (hashToken token)) w.
Lemma issue_cases cid ss resource replaced tokens now io w :
  (exists o, issueTokens cid ss resource replaced tokens now io w = (saved now (issued cid ss resource replaced tokens now w), Ok o)
     /\ (stateful cfg = true -> persistState now io (issued cid ss resource replaced tokens now w) = (saved now (issued cid ss resource replaced tokens now w), Ok tt)))
  \/ issueTokens cid ss resource replaced tokens now io w = (w, Err state_error).
Proof.
  unfold issueTokens, mbind, stm_bind. destruct (mutate_cases now io (issued cid ss resource replaced tokens now) _ _ w eq_refl) as [[E Hp]|E];
    unfold issued in E at 1; rewrite E; [left|by right]. by eexists.
Qed.
(** The effect of a call, by cases. *)
Inductive Effect (now : Z) (io : bool) (w : World) : Event -> World -> result exn unit -> Prop :=
| nothing e r : Effect now io w e w r
| registered c uuid (k := "mcp-" +:+ uuid) c' : c' = mkClient k (seconds now) (redirect_uris c) (client_name c) (client_secret c) (Some (default "none" (token_endpoint_auth_method c)))
      (Some (default ["authorization_code"; "refresh_token"] (grant_types c))) (Some (default ["code"] (response_types c))) ->
    public_client c = true -> redirects_allowed c = true -> persistState now io (set_clients (jm_set (clients w) k c') w) = (saved now (set_clients (jm_set (clients w) k c') w), Ok tt) ->
    Effect now io w (Register c uuid) (saved now (set_clients (jm_set (clients w) k c') w)) (Ok tt)
| unregistered c uuid (k := "mcp-" +:+ uuid) c' : Effect now io w (Register c uuid) (set_clients (jm_delete (jm_set (clients w) k c') k) w) (Err state_error)
| coded id params posted uuid c r : jm_get (clients w) id = Some c -> from_option checkResourceAllowed false (p_resource params) = true ->
    requestedScopesAllowed (default [] (p_scopes params)) (scopes cfg) = true -> safeEquals posted (ownerToken cfg) = true ->
    Effect now io w (Authorize id params (Some posted) uuid) (approve (client_id c) (default (scopes cfg) (p_scopes params))
      (set_codes (jm_set (codes w) ("code-" +:+ uuid) (mkCode (client_id c) params (now + CODE_TTL_MS))) w)) r
| exchanged id code uri resource tokens c r (w1 := set_codes (jm_delete (codes w) code) w) (ss := default (scopes cfg) (p_scopes (c_params r))) w' :
    jm_get (clients w) id = Some c -> jm_get (codes w) code = Some r -> c_clientId r = client_id c -> now <= expiresAtMs r ->
    w' = issued (client_id c) ss (p_resource (c_params r)) None tokens now w1 -> (stateful cfg = true -> persistState now io w' = (saved now w', Ok tt)) ->
    Effect now io w (Exchange id code uri resource tokens) (saved now w') (Ok tt)
| unexchanged id code uri resource tokens : Effect now io w (Exchange id code uri resource tokens) (set_codes (jm_delete (codes w) code) w) (Err state_error)
| refreshed id token requested resource tokens c r (ss := default (t_scopes r) requested) w' :
    jm_get (clients w) id = Some c -> jm_get (refreshTokens w) (hashToken token) = Some r -> clientId r = client_id c -> seconds now <= expiresAt r ->
    forallb (includes (t_scopes r)) ss = true -> from_option checkResourceAllowed true resource = true ->
    w' = issued (client_id c) ss (match resource with Some u => Some u | None => t_resource r end) (Some (hashToken token)) tokens now w ->
    (stateful cfg = true -> persistState now io w' = (saved now w', Ok tt)) ->
    Effect now io w (Refresh id token requested resource tokens) (saved now w') (Ok tt)
| revoked_ token : (stateful cfg = true -> persistState now io (revoked token w) = (saved now (revoked token w), Ok tt)) ->
    Effect now io w (Revoke token) (saved now (revoked token w)) (Ok tt)
| restarted w' : construct now io (file w) (approved w) = Ok w' -> Effect now io w Restart w' (Ok tt)
| stopped x : construct now io (file w) (approved w) = Err x -> Effect now io w Restart (mkWorld [] [] [] [] (file w) (approved w)) (Err x).
Lemma ignore_pair {A} (w : World) (r : result exn A) : ignore_answer (w, r) = (w, match r with Ok _ => Ok tt | Err e => Err e end).
Proof. unfold ignore_answer. cbn. by destruct r. Qed.
Lemma register_effect now io w c uuid : Effect now io w (Register c uuid) (step now io (Register c uuid) w).1 (step now io (Register c uuid) w).2.
Proof.
  cbn [step]. unfold registerClient. destruct (public_client c) eqn:Ep; cbn [negb]; [|apply nothing]. destruct (redirects_allowed c) eqn:Er; cbn [negb]; [|apply nothing].
  set (c' := mkClient _ _ _ _ _ _ _ _). change (client_id c') with ("mcp-" +:+ uuid).
  destruct (persist_cases now io (set_clients (jm_set (clients w) ("mcp-" +:+ uuid) c') w)) as [[E _]|E]; rewrite E, ignore_pair; [by apply registered|].
  apply (unregistered now io w c uuid c').
Qed.
Lemma authorize_effect now io w id params posted uuid (e := Authorize id params posted uuid) : Effect now io w e (step now io e w).1 (step now io e w).2.
Proof.
  subst e. cbn [step]. unfold with_client. destruct (jm_get (clients w) id) as [c|] eqn:Ec; [|apply nothing]. unfold authorize.
  destruct (from_option checkResourceAllowed false (p_resource params)) eqn:Er; cbn [negb]; [|apply nothing]. destruct (requestedScopesAllowed _ _) eqn:Es; cbn [negb]; [|apply nothing].
  destruct posted as [posted|]; [|apply nothing]. destruct (safeEquals posted (ownerToken cfg)) eqn:Eo; cbn [negb]; [|apply nothing].
  destruct (new_URL (redirectUri params)); rewrite ignore_pair; by apply coded.
Qed.
Lemma exchange_effect now io w id code uri resource tokens (e := Exchange id code uri resource tokens) : Effect now io w e (step now io e w).1 (step now io e w).2.
Proof.
  subst e. cbn [step]. unfold with_client. destruct (jm_get (clients w) id) as [c|] eqn:Ec; [|apply nothing]. unfold exchangeAuthorizationCode, validCodeRecord.
  destruct (jm_get (codes w) code) as [r|] eqn:Ek; [|apply nothing]. destruct (negb _ || _) eqn:Ev; [apply nothing|]. apply orb_false_iff in Ev as [Ev%negb_false_iff%String.eqb_eq Ex%Z.ltb_ge].
  destruct (from_option _ false uri); [apply nothing|]. destruct (from_option _ false resource); [apply nothing|].
  destruct (issue_cases (client_id c) (default (scopes cfg) (p_scopes (c_params r))) (p_resource (c_params r)) None tokens now io (set_codes (jm_delete (codes w) code) w))
    as [(o & -> & Hp)| ->]; rewrite ignore_pair; [by eapply exchanged|apply unexchanged].
Qed.
Lemma refresh_effect now io w id token requested resource tokens (e := Refresh id token requested resource tokens) : Effect now io w e (step now io e w).1 (step now io e w).2.
Proof.
  subst e. cbn [step]. unfold with_client. destruct (jm_get (clients w) id) as [c|] eqn:Ec; [|apply nothing]. unfold exchangeRefreshToken.
  destruct (jm_get (refreshTokens w) (hashToken token)) as [r|] eqn:Ek; [|apply nothing]. destruct (negb _ || _) eqn:Ev; [apply nothing|].
  apply orb_false_iff in Ev as [Ev%negb_false_iff%String.eqb_eq Ex%Z.ltb_ge]. destruct (from_option _ false resource) eqn:Eu; [apply nothing|].
  destruct (forallb _ _) eqn:Es; cbn [negb]; [|apply nothing].
  assert (from_option checkResourceAllowed true resource = true) by (destruct resource; [by apply negb_false_iff|done]).
  destruct (issue_cases (client_id c) (default (t_scopes r) requested) (match resource with Some u => Some u | None => t_resource r end) (Some (hashToken token)) tokens now io w)
    as [(o & -> & Hp)| ->]; rewrite ignore_pair; [by eapply refreshed|apply nothing].
Qed.
Lemma step_effect now io e w : Effect now io w e (step now io e w).1 (step now io e w).2.
Proof.
  destruct e as [c uuid|id params posted uuid|id code uri resource tokens|id token requested resource tokens|token|].
  - apply register_effect.
  - apply authorize_effect.
  - apply exchange_effect.
  - apply refresh_effect.
  - cbn [step]. unfold revokeToken. destruct (mutate_cases now io (revoked token) _ _ w eq_refl) as [[E Hp]|E]; unfold revoked in E at 1; rewrite E, ignore_pair; [by apply revoked_|apply nothing].
  - cbn [step]. destruct (construct _ _ _ _) eqn:E; [by apply restarted|by apply stopped].
Qed.
Lemma set_then_delete {A} (m : jsmap A) k a : jm_get m k = None -> jm_delete (jm_set m k a) k = m.
Proof.
  intros H. rewrite jm_set_fresh by done. unfold jm_delete. rewrite List.filter_app. cbn [List.filter fst]. rewrite String.eqb_refl. cbn [negb]. rewrite app_nil_r.
  by apply jm_delete_fresh.
Qed.
(** [error] A call that fails changes neither the clients nor the tokens nor the file; a call that is answered, when there is a file, has left in it what
    is in memory, or changed none of it. *)
Theorem answers_are_durable now io e w (He : e <> Restart) (Hfresh : forall c uuid, e = Register c uuid -> jm_get (clients w) ("mcp-" +:+ uuid) = None) :
  let w' := (step now io e w).1 in
  match (step now io e w).2 with
  | Err _ => clients w' = clients w /\ accessTokens w' = accessTokens w /\ refreshTokens w' = refreshTokens w /\ file w' = file w
  | Ok _ => stateful cfg = true -> file w' = Some (snapshot now w')
      \/ clients w' = clients w /\ accessTokens w' = accessTokens w /\ refreshTokens w' = refreshTokens w /\ file w' = file w
  end.
Proof.
  cbv zeta. assert (forall v, stateful cfg = true -> file (saved now v) = Some (snapshot now (saved now v))) as Hsaved by (intros v Hs; unfold saved; by rewrite Hs).
  destruct (step_effect now io e w) as [e r|c uuid k c'|c uuid k c'|id params posted uuid c r|id code uri resource tokens c r w1 ss w'| | id token requested resource tokens c r ss w'|token|w'|x]; try done.
  - destruct r; [by right|done].
  - intros Hs. left. by apply Hsaved.
  - split_and!; try done. apply set_then_delete. by apply (Hfresh c uuid).
  - destruct r; [by right|done].
  - intros Hs. left. by apply Hsaved.
  - intros Hs. left. by apply Hsaved.
  - intros Hs. left. by apply Hsaved.
Qed.

(** ** Tokens stand for approvals *)
Definition granted (ap : list (string * list string)) (c : string) (ss : list string) : Prop := exists approved_, (c, approved_) ∈ ap /\ ss ⊆ approved_.
Definition token_ok (ap : list (string * list string)) (t : TokenRecord) : Prop := granted ap (clientId t) (t_scopes t) /\ from_option checkResourceAllowed true (t_resource t) = true.
Definition all_in {A} (P : A -> Prop) (m : jsmap A) : Prop := forall k a, (k, a) ∈ m -> P a.
Definition code_ok (ap : list (string * list string)) (r : AuthorizationCodeRecord) : Prop :=
  (c_clientId r, default (scopes cfg) (p_scopes (c_params r))) ∈ ap /\ from_option checkResourceAllowed true (p_resource (c_params r)) = true.
Definition file_ok (ap : list (string * list string)) (f : option Snapshot) : Prop := forall s p, f = Some s -> p ∈ s_access s ++ s_refresh s -> granted ap (pt_clientId p) (pt_scopes p).
Record Justified (w : World) : Prop := mkJustified {
  j_codes : all_in (code_ok (approved w)) (codes w); j_access : all_in (token_ok (approved w)) (accessTokens w); j_refresh : all_in (token_ok (approved w)) (refreshTokens w);
  j_file : file_ok (approved w) (file w); j_supported : forall c ss, (c, ss) ∈ approved w -> ss ⊆ scopes cfg }.
Lemma all_in_set {A} (P : A -> Prop) m k a : all_in P m -> P a -> all_in P (jm_set m k a).
Proof.
  intros Hm Ha k' a'. induction m as [|[k1 a1] m IH]; cbn; [by intros [= -> ->]%list_elem_of_singleton|].
  assert (all_in P m) as Hm' by (intros k2 a2 H2; apply (Hm k2); by right). destruct (_ =s _).
  - intros [[= -> ->]|H]%elem_of_cons; [done|by apply (Hm' k')].
  - intros [[= -> ->]|H]%elem_of_cons; [apply (Hm k1); by left|by apply IH].
Qed.
Lemma all_in_filter {A} (P : A -> Prop) (f : string * A -> bool) m : all_in P m -> all_in P (List.filter f m).
Proof. intros Hm k a H. apply list_elem_of_In, filter_In in H as [H _]. apply (Hm k). by apply list_elem_of_In. Qed.
Lemma all_in_impl {A} (P Q : A -> Prop) m : (forall a, P a -> Q a) -> all_in P m -> all_in Q m.
Proof. intros H Hm k a Ha. by apply H, (Hm k). Qed.
Lemma all_in_get {A} (P : A -> Prop) m k a : all_in P m -> jm_get m k = Some a -> P a.
Proof. intros Hm H%jm_get_in. by apply (Hm k). Qed.
Lemma serialize_granted ap m now p : all_in (token_ok ap) m -> p ∈ serializeTokenRecords m now -> granted ap (pt_clientId p) (pt_scopes p).
Proof.
  intros Hm H. unfold serializeTokenRecords in H. apply list_elem_of_In, in_map_iff in H as ([k t] & <- & H). apply filter_In in H as [H _]. cbn.
  by apply (Hm k), list_elem_of_In.
Qed.
Lemma saved_justified now w : Justified w -> Justified (saved now w).
Proof.
  intros [Hc Ha Hr Hf Hs]. unfold saved. destruct (stateful cfg); [|done]. split; try done. intros s p [= <-] Hp. cbn in Hp.
  apply elem_of_app in Hp as [Hp|Hp]; [exact (serialize_granted _ _ _ _ Ha Hp)|exact (serialize_granted _ _ _ _ Hr Hp)].
Qed.
Lemma granted_more ap ap' c ss : ap ⊆ ap' -> granted ap c ss -> granted ap' c ss.
Proof. intros H (x & Hx & Hss). exists x. split; [by apply H|done]. Qed.
Lemma includes_all (xs ys : list string) : forallb (includes ys) xs = true -> xs ⊆ ys.
Proof. rewrite forallb_forall. intros H x Hx%list_elem_of_In%H. by apply includes_spec. Qed.
Lemma approve_justified c ss w : ss ⊆ scopes cfg -> Justified w -> Justified (approve c ss w).
Proof.
  intros Hss [Hc Ha Hr Hf Hs]. assert (approved w ⊆ (c, ss) :: approved w) as Hsub by set_solver. split; cbn.
  - eapply all_in_impl; [|exact Hc]. intros r [H ?]. split; [by right|done].
  - eapply all_in_impl; [|exact Ha]. intros t [H ?]. split; [by eapply granted_more|done].
  - eapply all_in_impl; [|exact Hr]. intros t [H ?]. split; [by eapply granted_more|done].
  - intros s p E Hp. eapply granted_more; [exact Hsub|by eapply Hf].
  - intros c' ss' [[= -> ->]|H]%elem_of_cons; [done|by eapply Hs].
Qed.
Lemma issued_justified cid ss resource replaced tokens now w : Justified w -> granted (approved w) cid ss -> from_option checkResourceAllowed true resource = true ->
  Justified (issued cid ss resource replaced tokens now w).
Proof.
  intros [Hc Ha Hr Hf Hs] Hg Hres. split; try done; cbn; apply all_in_set; try done. destruct replaced; cbn; [by apply all_in_filter|done].
Qed.
Lemma hydrate_justified ap ids now rs : (forall p, p ∈ rs -> granted ap (pt_clientId p) (pt_scopes p)) -> forall m m', all_in (token_ok ap) m -> hydrate_all ids now rs m = Ok m' -> all_in (token_ok ap) m'.
Proof.
  induction rs as [|p rs IH]; intros Hrs m m' Hm; cbn; [by intros [= <-]|]. destruct (pt_expiresAt p <=? now); [apply IH; [|done]; intros q Hq; apply Hrs; by right|].
  intros (t & Ht & H)%bind_ok. assert (token_ok ap t) as Hok.
  { unfold hydratePersistedTokenRecord in Ht. destruct (negb _); [done|]. destruct (negb _); [done|]. apply bind_ok in Ht as (res & _ & Ht).
    destruct (from_option _ false res) eqn:Er; [done|]. injection Ht as <-. split; [apply Hrs; by left|]. cbn. destruct res; [by apply negb_false_iff|done]. }
  apply (IH ltac:(intros q Hq; apply Hrs; by right) (jm_set m (hash p) t)); [by apply all_in_set|done].
Qed.
Lemma construct_justified now io f ap w : file_ok ap f -> (forall c ss, (c, ss) ∈ ap -> ss ⊆ scopes cfg) -> construct now io f ap = Ok w -> Justified w.
Proof.
  intros Hf Hs. unfold construct. intros (s & Hload & H)%bind_ok. cbv zeta in H.
  assert (forall p, p ∈ s_access s ++ s_refresh s -> granted ap (pt_clientId p) (pt_scopes p)) as Hp.
  { intros p Hp. destruct (stateful cfg); [|injection Hload as <-; by apply elem_of_nil in Hp]. destruct f as [s'|]; [|injection Hload as <-; by apply elem_of_nil in Hp].
    cbn [load] in Hload. repeat (match type of Hload with (if ?b then _ else _) = _ => destruct b; [done|] end). apply bind_ok in Hload as (_ & _ & Hload). apply bind_ok in Hload as (_ & _ & Hload).
    injection Hload as <-. by apply (Hf s'). }
  apply bind_ok in H as (access & Ha & H). apply bind_ok in H as (refresh & Hr & H). apply bind_ok in H as (cs & _ & H).
  assert (Justified (mkWorld cs [] access refresh f ap)) as Hj.
  { split; try done; cbn; [by intros k r H0%elem_of_nil|eapply hydrate_justified; [|intros k a H0; by apply elem_of_nil in H0|exact Ha]|eapply hydrate_justified; [|intros k a H0; by apply elem_of_nil in H0|exact Hr]]; intros p Hq; apply Hp, elem_of_app; auto. }
  destruct (_ && _); [|by injection H as <-]. destruct (persist_cases now io (mkWorld cs [] access refresh f ap)) as [[E _]|E]; rewrite E in H; [|done]. injection H as <-. by apply saved_justified.
Qed.
Lemma step_justified now io e w : Justified w -> Justified (step now io e w).1.
Proof.
  intros Hw. pose proof Hw as [Hc Ha Hr Hf Hs].
  destruct (step_effect now io e w) as [e r|c uuid k c'|c uuid k c'|id params posted uuid c r Hid Hres Hsc Hpw|id code uri resource tokens c r w1 ss w' Hid Hk Hcl Hexp -> Hp|
    |id token requested resource tokens c r ss w' Hid Hk Hcl Hexp Hsc Hres -> Hp|token Hp|w' H|x H]; [done|by apply saved_justified; split|by split|..].
  - assert (default (scopes cfg) (p_scopes params) ⊆ scopes cfg) as Hsub by (destruct (p_scopes params); [by apply includes_all|done]).
    pose proof (approve_justified (client_id c) (default (scopes cfg) (p_scopes params)) w Hsub Hw) as [Hc' Ha' Hr' Hf' Hs']. split; try done. cbn. apply all_in_set; [exact Hc'|].
    split; [by left|]. cbn. by destruct (p_resource params).
  - apply saved_justified. pose proof (all_in_get _ _ _ _ Hc Hk) as [Hap Hres]. apply issued_justified; [|exists ss; split; [rewrite <- Hcl; exact Hap|done]|done].
    split; try done. cbn. by apply all_in_filter.
  - split; try done. cbn. by apply all_in_filter.
  - apply saved_justified. pose proof (all_in_get _ _ _ _ Hr Hk) as [(x & Hx & Hss) Hres']. apply issued_justified; [done| |by destruct resource].
    exists x. rewrite <- Hcl. split; [done|]. apply includes_all in Hsc. set_solver.
  - apply saved_justified. split; try done; cbn; by apply all_in_filter.
  - by eapply construct_justified.
  - split; try done; by intros k a H0%elem_of_nil.
Qed.
Lemma run_justified es w : Justified w -> Justified (run es w).
Proof. revert w. induction es as [|e es IH]; intros w H; [done|]. by apply IH, step_justified. Qed.
Lemma started_justified : Justified (started None).
Proof. split; try done; intros k a H; by apply elem_of_nil in H. Qed.
(** *** Approvals are what the owner posted *)
Definition approves (c : string) (ss : list string) (e : Event) : Prop :=
  exists params uuid, e = Authorize c params (Some (ownerToken cfg)) uuid /\ ss = default (scopes cfg) (p_scopes params).
Lemma safeEquals_spec a b : safeEquals a b = true <-> a = b.
Proof.
  unfold safeEquals. rewrite andb_true_iff, String.eqb_eq. split; [|intros ->; by rewrite Nat.eqb_refl]. intros [_ H]. apply (f_equal utf8_decode) in H.
  rewrite !utf8_decode_encode in H. by injection H.
Qed.
Definition Keyed (w : World) : Prop := forall k c, (k, c) ∈ clients w -> client_id c = k.
Lemma initial_keyed cs : forall m m', (forall k c, (k, c) ∈ m -> client_id c = k) -> initial_clients cs m = Ok m' -> forall k c, (k, c) ∈ m' -> client_id c = k.
Proof.
  induction cs as [|x cs IH]; intros m m' Hm; cbn; [by intros [= <-]|]. destruct (negb _); [done|]. destruct (negb _); [done|]. destruct (jm_has m (client_id x)) eqn:E; [done|].
  apply IH. rewrite jm_set_fresh by (unfold jm_has in E; by destruct (jm_get m (client_id x))). intros k c [H|[= -> ->]%list_elem_of_singleton]%elem_of_app; [by apply Hm|done].
Qed.
Lemma saved_same now w : clients (saved now w) = clients w /\ approved (saved now w) = approved w /\ accessTokens (saved now w) = accessTokens w /\ refreshTokens (saved now w) = refreshTokens w
  /\ codes (saved now w) = codes w.
Proof. unfold saved. by destruct (stateful cfg). Qed.
Lemma constructed_history now io f ap w : construct now io f ap = Ok w -> approved w = ap /\ exists cs, initial_clients cs [] = Ok (clients w).
Proof.
  unfold construct. intros (s & _ & H)%bind_ok. cbv zeta in H. apply bind_ok in H as (access & _ & H). apply bind_ok in H as (refresh & _ & H). apply bind_ok in H as (cs & Hcs & H).
  destruct (_ && _); [|injection H as <-; by split; [|eexists]]. destruct (persist_cases now io (mkWorld cs [] access refresh f ap)) as [[E _]|E]; rewrite E in H; [|done].
  injection H as <-. destruct (saved_same now (mkWorld cs [] access refresh f ap)) as (-> & -> & _). by split; [|eexists].
Qed.
Lemma set_elem {A} (m : jsmap A) k a k' a' : (k', a') ∈ jm_set m k a -> (k' = k /\ a' = a) \/ (k', a') ∈ m.
Proof.
  induction m as [|[k1 a1] m IH]; cbn; [by intros [= -> ->]%list_elem_of_singleton; left|]. destruct (_ =s _) eqn:E; [apply String.eqb_eq in E; subst|].
  - intros [[= -> ->]|H]%elem_of_cons; [by left|right; by right].
  - intros [[= -> ->]|H]%elem_of_cons; [right; by left|]. destruct (IH H) as [?|?]; [by left|right; by right].
Qed.
Lemma step_keyed now io e w : Keyed w -> Keyed (step now io e w).1.
Proof.
  intros Hk. destruct (step_effect now io e w) as [e r|c uuid k c' ->|c uuid k c'|id params posted uuid c r|id code uri resource tokens c r w1 ss w' Hid Hc Hcl Hexp -> Hp|
    |id token requested resource tokens c r ss w' Hid Hc Hcl Hexp Hsc Hres -> Hp|token Hp|w' H|x H]; try exact Hk; unfold Keyed; rewrite ?(proj1 (saved_same _ _)); try exact Hk.
  - intros k' x [[-> ->]|H']%set_elem; [done|by apply Hk].
  - cbn. destruct (jm_get (clients w) k) as [old|] eqn:E.
    + intros k' x Hin. apply list_elem_of_In, filter_In in Hin as [Hin Hne]. apply list_elem_of_In, set_elem in Hin as [[-> ->]|Hin]; [|by apply Hk]. cbn in Hne. by rewrite String.eqb_refl in Hne.
    + intros k' x Hin. apply list_elem_of_In, filter_In in Hin as [Hin Hne]. apply list_elem_of_In, set_elem in Hin as [[-> ->]|Hin]; [|by apply Hk]. cbn in Hne. by rewrite String.eqb_refl in Hne.
  - apply constructed_history in H as (_ & cs & Hcs). eapply initial_keyed; [|exact Hcs]. by intros k c H0%elem_of_nil.
  - by intros k c H0%elem_of_nil.
Qed.
Lemma step_approves now io e w c ss : Keyed w -> (c, ss) ∈ approved (step now io e w).1 -> (c, ss) ∈ approved w \/ approves c ss e.
Proof.
  intros Hk. destruct (step_effect now io e w) as [e r|x uuid k c' ->|x uuid k c'|id params posted uuid x r Hid Hres Hsc Hpw|id code uri resource tokens x r w1 ss' w' Hid Hc Hcl Hexp -> Hp|
    |id token requested resource tokens x r ss' w' Hid Hc Hcl Hexp Hsc Hres -> Hp|token Hp|w' H|x H]; rewrite ?(proj1 (proj2 (saved_same _ _))); try (by left).
  - apply safeEquals_spec in Hpw as ->. cbn. intros [[= -> ->]|H]%elem_of_cons; [right|by left]. assert (client_id x = id) as -> by (by apply Hk, jm_get_in). by exists params, uuid.
  - apply constructed_history in H as (-> & _). by left.
Qed.
Lemma run_approves es c ss : Keyed (run es (started None)) /\ ((c, ss) ∈ approved (run es (started None)) -> exists e, e ∈ es /\ approves c ss e.2).
Proof.
  induction es as [|e es [Hk IH]] using rev_ind; [split; [by intros k x H%elem_of_nil|by intros H%elem_of_nil]|]. unfold run in *. rewrite fold_left_app. cbn [fold_left]. split; [by apply step_keyed|].
  intros [H|H]%step_approves; [|exists e; split; [apply elem_of_app; right; by left|done]|done]. destruct (IH H) as (x & Hx & Ha). exists x. split; [apply elem_of_app; by left|done].
Qed.
(** [safety] An access token is accepted only for a client that was approved by somebody who had the password of the owner, with scopes that were approved and are
    supported, for an allowed resource and before it expires: after any calls, failures of the file and restarts. *)
Theorem provider_token_justified es token now info (H : verifyAccessToken token now (run es (started None)) = Ok info) :
  (exists params uuid e, e ∈ es /\ e.2 = Authorize (i_clientId info) params (Some (ownerToken cfg)) uuid
     /\ i_scopes info ⊆ default (scopes cfg) (p_scopes params) /\ i_scopes info ⊆ scopes cfg)
  /\ seconds now <= i_expiresAt info /\ from_option checkResourceAllowed true (i_resource info) = true.
Proof.
  unfold verifyAccessToken in H. destruct (jm_get _ (hashToken token)) as [t|] eqn:E; [|done]. destruct (Z.ltb_spec (expiresAt t) (seconds now)); [done|]. injection H as <-.
  pose proof (run_justified es _ started_justified) as [_ Ha _ _ Hs]. destruct (all_in_get _ _ _ _ Ha E) as [(ss & Hss & Hsub) Hres]. split; [|done].
  pose proof (Hs _ _ Hss) as Hsup. destruct (proj2 (run_approves es _ _) Hss) as (e & He & params & uuid & Ee & ->). exists params, uuid, e. cbn. split_and!; try done. set_solver.
Qed.

(** ** Resuming from the file *)
Definition canonical (u : Url) : Prop := new_URL (href u) = Some u.
Definition resource_ok (u : option Url) : Prop := forall x, u = Some x -> canonical x /\ checkResourceAllowed x = true.
Definition known (w : World) (c : string) : Prop := c ∈ map client_id (jm_values (clients w)).
Record entry_ok (w : World) (e : string * TokenRecord) : Prop := mkEntryOk {
  e_read : readTokenRecord (serialize e) = true; e_known : known w (clientId e.2); e_scopes : requestedScopesAllowed (t_scopes e.2) (scopes cfg) = true; e_resource : resource_ok (t_resource e.2) }.
Definition entries_ok (w : World) (m : jsmap TokenRecord) : Prop := jm_wf m /\ forall e, e ∈ m -> entry_ok w e.
Record client_ok (e : string * Client) : Prop := mkClientOk { k_id : client_id e.2 = e.1; k_read : readClient e.2 = true; k_redirects : redirects_allowed e.2 = true }.
Record code_fine (w : World) (r : AuthorizationCodeRecord) : Prop := mkCodeFine {
  r_known : known w (c_clientId r); r_scopes : requestedScopesAllowed (default [] (p_scopes (c_params r))) (scopes cfg) = true;
  r_length : (length (default [] (p_scopes (c_params r))) <= 64)%nat; r_resource : resource_ok (p_resource (c_params r)) }.
Definition within (s : Snapshot) : Prop :=
  (length (s_clients s) <= MAX_CLIENTS /\ length (s_access s) <= MAX_TOKENS_PER_KIND /\ length (s_refresh s) <= MAX_TOKENS_PER_KIND)%nat /\ text_size s <= MAX_STATE_BYTES.
Record Good (t : Z) (w : World) : Prop := mkGood {
  g_wf : jm_wf (clients w); g_clients : forall e, e ∈ clients w -> client_ok e; g_access : entries_ok w (accessTokens w); g_refresh : entries_ok w (refreshTokens w);
  g_codes : all_in (code_fine w) (codes w);
  g_file : match file w with
           | None => clients w = [] /\ accessTokens w = [] /\ refreshTokens w = []
           | Some s => exists n, n <= t /\ s = snapshot n w /\ within s
           end }.
(** What the calls must be for the file to be readable: a client is registered with at least one redirection, and with redirections that are texts as [URL] writes
    them; a list of scopes that is asked for has at most 64; resources are parsed URLs; new identifiers are fresh; instants do not go back and stay below 2^53; and the file
    can be written when the process starts.  The source checks neither the redirections nor the number of scopes ([registration_stops_gateway], [empty_registration_stops_gateway],
    [scopes_stop_gateway] below). *)
Definition fine_redirects (c : Client) : Prop := redirect_uris c <> [] /\ forallb isAbsoluteUrl (redirect_uris c) = true.
Definition fine_event (e : Event) : Prop :=
  match e with
  | Register c _ => fine_redirects c
  | Authorize _ p _ _ => (length (default [] (p_scopes p)) <= 64)%nat /\ from_option canonical True (p_resource p)
  | Refresh _ _ requested resource _ => (length (default [] requested) <= 64)%nat /\ from_option canonical True resource
  | _ => True
  end.
Definition fresh (w : World) (e : Event) : Prop := match e with Register _ uuid => jm_get (clients w) ("mcp-" +:+ uuid) = None | _ => True end.
Fixpoint fine_run (t : Z) (es : list (Z * bool * Event)) (w : World) : Prop :=
  match es with
  | [] => True
  | (now, io, e) :: es => t <= now /\ seconds now + Z.max (accessTokenTtlSeconds cfg) (refreshTokenTtlSeconds cfg) <= MAX_SAFE_INTEGER /\ fine_event e /\ fresh w e
      /\ (e = Restart -> io = true) /\ fine_run now es (step now io e w).1
  end.

Context (digest_length : forall s, String.length (sha256 s) = 32%nat) (Hstateful : stateful cfg = true).
Context (ttl_positive : 0 < accessTokenTtlSeconds cfg /\ 0 < refreshTokenTtlSeconds cfg).
Context (scopes_fine : (length (scopes cfg) <= 64)%nat /\ forallb (fun s => negb (sempty s)) (scopes cfg) = true).
(** The size of a JSON text: positive, and no more with fewer entries. *)
Context (size_positive : forall s, 0 < text_size s).
Context (size_less : forall r cs a a' b b', a `sublist_of` a' -> b `sublist_of` b' -> text_size (mkSnapshot r cs a b) <= text_size (mkSnapshot r cs a' b')).

Lemma hash_readable token : (String.length (hashToken token) =? 43)%nat && sforall hash_char (hashToken token) = true.
Proof.
  unfold hashToken. apply andb_true_iff. split; [|apply base64url_encode_digits]. apply Nat.eqb_eq. pose proof (base64url_encode_length (sha256 (utf8_encode token))) as [H1 H2].
  rewrite digest_length in *. lia.
Qed.
Lemma supported_nonempty ss : requestedScopesAllowed ss (scopes cfg) = true -> forallb (fun s => negb (sempty s)) ss = true.
Proof.
  unfold requestedScopesAllowed. rewrite !forallb_forall. intros H s Hs. destruct scopes_fine as [_ Hf]. rewrite forallb_forall in Hf. apply Hf. apply list_elem_of_In. by apply includes_spec, H.
Qed.
Lemma known_nonempty t w c : Good t w -> known w c -> sempty c = false.
Proof.
  intros Hg Hk. unfold known in Hk. apply list_elem_of_fmap in Hk as (x & -> & Hx). unfold jm_values in Hx. apply list_elem_of_fmap in Hx as (e & -> & He).
  destruct (g_clients _ _ Hg e He) as [_ Hr _]. unfold readClient in Hr. apply andb_true_iff in Hr as [Hr _]. apply andb_true_iff in Hr as [Hr _]. apply andb_true_iff in Hr as [Hr _].
  apply andb_true_iff in Hr as [Hr _]. by apply negb_true_iff in Hr.
Qed.
Lemma new_entry t w token cid ss u exp : Good t w -> known w cid -> requestedScopesAllowed ss (scopes cfg) = true -> (length ss <= 64)%nat -> resource_ok u ->
  0 < exp <= MAX_SAFE_INTEGER -> entry_ok w (hashToken token, mkToken cid ss exp u).
Proof.
  intros Hg Hk Hs Hl Hu He. split; try done. unfold readTokenRecord, serialize. cbn [hash pt_clientId pt_scopes pt_expiresAt pt_resource fst snd clientId t_scopes expiresAt t_resource].
  rewrite hash_readable, (known_nonempty t w cid Hg Hk), (supported_nonempty ss Hs). cbn [negb andb]. rewrite (proj2 (Nat.leb_le _ _) Hl).
  unfold is_safe. rewrite (proj2 (Z.leb_le _ _)), (proj2 (Z.ltb_lt _ _)) by lia. destruct u as [u|]; [|done]. cbn. unfold isAbsoluteUrl. destruct (Hu u eq_refl) as [-> _]. by rewrite String.eqb_refl.
Qed.
(** *** Reading back *)
Lemma hydrate_one w e : entry_ok w e -> hydratePersistedTokenRecord (map client_id (jm_values (clients w))) (serialize e) = Ok e.2.
Proof.
  intros [_ Hk Hs Hu]. unfold hydratePersistedTokenRecord, serialize. cbn [hash pt_clientId pt_scopes pt_expiresAt pt_resource]. rewrite (proj2 (includes_spec _ _) Hk), Hs. cbn [negb].
  destruct e as [k [c ss x [u|]]]; cbn in *; [|done]. destruct (Hu u eq_refl) as [Hc Ha]. unfold canonical in Hc. rewrite Hc. cbn. by rewrite Ha.
Qed.
Lemma hydrate_back w now l : forall acc, (forall e, e ∈ l -> entry_ok w e) -> NoDup (map fst (acc ++ l)) ->
  hydrate_all (map client_id (jm_values (clients w))) now (map serialize l) acc = Ok (acc ++ List.filter (unexpired now) l).
Proof.
  induction l as [|e l IH]; intros acc Hl Hnd; [cbn; by rewrite app_nil_r|]. cbn [map hydrate_all List.filter]. unfold unexpired at 1. change (pt_expiresAt (serialize e)) with (expiresAt e.2).
  assert (forall x, x ∈ l -> entry_ok w x) as Hl' by (intros x Hx; apply Hl; by right).
  rewrite Z.leb_antisym. destruct (now <? expiresAt e.2); cbn [negb].
  - rewrite (hydrate_one w e) by (apply Hl; by left). cbn [mbind result_bind]. change (hash (serialize e)) with e.1.
    assert (jm_get acc e.1 = None) as Hn. { apply jm_get_none. unfold jm_keys. rewrite map_app in Hnd. apply NoDup_app in Hnd as (_ & H & _). intros Hin. apply (H e.1 Hin). by left. }
    rewrite jm_set_fresh by done. rewrite IH; [|done|by rewrite <- app_assoc; destruct e]. rewrite <- app_assoc. by destruct e.
  - apply IH; [done|]. rewrite map_app in *. cbn in Hnd. by apply NoDup_app in Hnd as (H1 & H2 & H3%NoDup_cons); apply NoDup_app; split_and!; [..|apply H3]; [|intros x Hx Hx'; apply (H2 x Hx); by right].
Qed.
Lemma clients_back cs : forall acc, (forall e, e ∈ cs -> client_ok e) -> NoDup (map fst (acc ++ cs)) -> initial_clients (map snd cs) acc = Ok (acc ++ cs).
Proof.
  induction cs as [|e cs IH]; intros acc Hcs Hnd; [cbn; by rewrite app_nil_r|]. destruct (Hcs e) as [Hid Hread Hred]; [by left|]. cbn [map initial_clients].
  assert (public_client e.2 = true) as -> by (unfold readClient in Hread; by apply andb_true_iff in Hread as [_ ?]). rewrite Hred, Hid. cbn [negb].
  assert (jm_get acc e.1 = None) as Hn. { apply jm_get_none. unfold jm_keys. rewrite map_app in Hnd. apply NoDup_app in Hnd as (_ & H & _). intros Hin. apply (H e.1 Hin). by left. }
  unfold jm_has. rewrite Hn. rewrite jm_set_fresh by done. rewrite IH; [by rewrite <- app_assoc; destruct e|intros x Hx; apply Hcs; by right|by rewrite <- app_assoc; destruct e].
Qed.
Lemma load_back t w n : Good t w -> within (snapshot n w) -> load (Some (snapshot n w)) = Ok (snapshot n w).
Proof.
  intros Hg [[H1 [H2 H3]] H4]. unfold load. pose proof (size_positive (snapshot n w)) as Hpos. rewrite (proj2 (Z.leb_gt _ _) Hpos), (proj2 (Z.ltb_ge _ _) H4). cbn [orb resourceServer snapshot].
  rewrite String.eqb_refl. cbn [negb]. rewrite (proj2 (Nat.ltb_ge _ _) H1). cbn [orb].
  assert (forallb readClient (s_clients (snapshot n w)) = true) as ->.
  { apply forallb_forall. intros c (e & <- & He)%in_map_iff. apply (g_clients _ _ Hg). by apply list_elem_of_In. }
  cbn [negb]. assert (forall m, entries_ok w m -> (length (serializeTokenRecords m (seconds n)) <= MAX_TOKENS_PER_KIND)%nat -> readTokenRecords (serializeTokenRecords m (seconds n)) = Ok tt) as Hread.
  { intros m [_ Hm] Hlen. unfold readTokenRecords. rewrite (proj2 (Nat.ltb_ge _ _) Hlen). cbn [orb]. rewrite (proj2 (forallb_forall _ _)); [done|]. intros p (e & <- & He)%in_map_iff.
    apply filter_In in He as [He _]. apply (Hm e). by apply list_elem_of_In. }
  change (s_access (snapshot n w)) with (serializeTokenRecords (accessTokens w) (seconds n)). change (s_refresh (snapshot n w)) with (serializeTokenRecords (refreshTokens w) (seconds n)).
  rewrite (Hread _ (g_access _ _ Hg) H2), (Hread _ (g_refresh _ _ Hg) H3). done.
Qed.
Lemma unexpired_filter n now (m : jsmap TokenRecord) : n <= now -> List.filter (unexpired now) (List.filter (unexpired n) m) = List.filter (unexpired now) m.
Proof.
  intros H. induction m as [|e m IH]; [done|]. cbn [List.filter]. destruct (unexpired n e) eqn:En; cbn [List.filter]; rewrite IH; [done|].
  destruct (unexpired now e) eqn:Ex; [|done]. unfold unexpired in *. lia.
Qed.
Lemma filter_sublist {A} (f : A -> bool) l : List.filter f l `sublist_of` l.
Proof. induction l as [|a l IH]; [done|]. cbn. destruct (f a); by constructor. Qed.
Lemma filter_whole {A} (f : A -> bool) l : length (List.filter f l) = length l -> List.filter f l = l.
Proof.
  induction l as [|a l IH]; [done|]. cbn. destruct (f a); cbn; [intros [= H]; by rewrite IH|]. intros H. pose proof (sublist_length _ _ (filter_sublist f l)). lia.
Qed.
Lemma entries_filter w f m : entries_ok w m -> entries_ok w (List.filter f m).
Proof. intros [Hw He]. split; [by apply jm_wf_filter|]. intros e H. apply list_elem_of_In, filter_In in H as [H _]. apply He. by apply list_elem_of_In. Qed.
Lemma entries_same w w' m : clients w' = clients w -> entries_ok w m -> entries_ok w' m.
Proof. intros E [Hw He]. split; [done|]. intros e [H1 H2 H3 H4]%He. split; try done. unfold known in *. by rewrite E. Qed.
(** What the provider is after a restart. *)
Definition resumed (now : Z) (w : World) : World :=
  mkWorld (clients w) [] (List.filter (unexpired (seconds now)) (accessTokens w)) (List.filter (unexpired (seconds now)) (refreshTokens w)) (file w) (approved w).
Lemma construct_loads t now w n : Good t w -> n <= now -> file w = Some (snapshot n w) -> within (snapshot n w) ->
  exists f, construct now true (file w) (approved w) = Ok (set_file (Some f) (resumed now w)) /\ (f = snapshot n w /\ f = snapshot n (resumed now w) \/ f = snapshot now (resumed now w) /\ within f).
Proof.
  intros Hg Hn Hf Hw. pose proof (Z.div_le_mono n now 1000 ltac:(lia) Hn) as Hsec. unfold construct. rewrite Hstateful, Hf, (load_back t w n Hg Hw). cbn [mbind result_bind].
  assert (forall m, entries_ok w m -> hydrate_all (map client_id (jm_values (clients w))) (seconds now) (serializeTokenRecords m (seconds n)) [] = Ok (List.filter (unexpired (seconds now)) m)) as Hh.
  { intros m Hm. unfold serializeTokenRecords. rewrite (hydrate_back w); [cbn [app]; by rewrite unexpired_filter|intros e He; by apply (entries_filter w (unexpired (seconds n)) m Hm)|].
    cbn [app]. by apply (entries_filter w (unexpired (seconds n)) m Hm). }
  change (s_clients (snapshot n w)) with (jm_values (clients w)). change (s_access (snapshot n w)) with (serializeTokenRecords (accessTokens w) (seconds n)).
  change (s_refresh (snapshot n w)) with (serializeTokenRecords (refreshTokens w) (seconds n)). rewrite (Hh _ (g_access _ _ Hg)), (Hh _ (g_refresh _ _ Hg)). cbn [mbind result_bind].
  unfold jm_values at 1. rewrite (clients_back (clients w) [] (g_clients _ _ Hg) (g_wf _ _ Hg)). cbn [mbind result_bind app andb].
  set (v := mkWorld (clients w) [] (List.filter (unexpired (seconds now)) (accessTokens w)) (List.filter (unexpired (seconds now)) (refreshTokens w)) (Some (snapshot n w)) (approved w)).
  destruct (negb _ || negb _) eqn:Es.
  - exists (snapshot now (resumed now w)). assert (within (snapshot now (resumed now w))) as Hw'.
    { assert (forall m, serializeTokenRecords (List.filter (unexpired (seconds now)) m) (seconds now) `sublist_of` serializeTokenRecords m (seconds n)) as Hsub.
      { intros m. unfold serializeTokenRecords. rewrite (unexpired_filter (seconds now) (seconds now)) by lia. rewrite <- (unexpired_filter (seconds n) (seconds now)) by done. apply fmap_sublist, filter_sublist. }
      destruct Hw as [[H1 [H2 H3]] H4]. pose proof (Hsub (accessTokens w)) as Sa. pose proof (Hsub (refreshTokens w)) as Sr. split; [split_and!; [done|..]|].
      - etrans; [exact (sublist_length _ _ Sa)|exact H2].
      - etrans; [exact (sublist_length _ _ Sr)|exact H3].
      - etrans; [exact (size_less resource_href (jm_values (clients w)) _ _ _ _ Sa Sr)|exact H4]. }
    split; [|by right]. unfold persistState. rewrite Hstateful. unfold save. destruct Hw' as [[H1 [H2 H3]] H4]. change (snapshot now v) with (snapshot now (resumed now w)).
    rewrite (proj2 (Nat.ltb_ge _ _) H1), (proj2 (Nat.ltb_ge _ _) H2), (proj2 (Nat.ltb_ge _ _) H3), (proj2 (Z.ltb_ge _ _) H4). done.
  - exists (snapshot n w). apply orb_false_iff in Es as [Ea%negb_false_iff%Nat.eqb_eq Er%negb_false_iff%Nat.eqb_eq]. split; [done|]. left. split; [done|].
    assert (forall m, jm_size (List.filter (unexpired (seconds now)) m) = length (serializeTokenRecords m (seconds n)) -> serializeTokenRecords m (seconds n) = serializeTokenRecords (List.filter (unexpired (seconds now)) m) (seconds n)) as Hsame.
    { intros m Hm. unfold serializeTokenRecords, jm_size in *. rewrite length_map, <- (unexpired_filter (seconds n) (seconds now)) in Hm by done. apply filter_whole in Hm.
      rewrite unexpired_filter in Hm by done. by rewrite Hm, (unexpired_filter (seconds n) (seconds n)). }
    unfold snapshot. cbn [resumed clients accessTokens refreshTokens]. by rewrite (Hsame _ Ea), (Hsame _ Er).
Qed.
Lemma codes_known w w' m : clients w' = clients w -> all_in (code_fine w) m -> all_in (code_fine w') m.
Proof. intros E. apply all_in_impl. intros r [H1 H2 H3 H4]. split; try done. unfold known in *. by rewrite E. Qed.
Lemma good_resumed t now w f : Good t w -> (exists n, n <= now /\ f = snapshot n (resumed now w) /\ within f) -> Good now (set_file (Some f) (resumed now w)).
Proof.
  intros Hg Hf. split; try apply Hg; try done.
  - apply (entries_same w); [done|]. apply entries_filter, Hg.
  - apply (entries_same w); [done|]. apply entries_filter, Hg.
  - by intros k a H%elem_of_nil.
Qed.
Lemma restart_good t now w : Good t w -> t <= now -> exists w', step now true Restart w = (w', Ok tt) /\ Good now w' /\ clients w' = clients w
  /\ accessTokens w' = List.filter (unexpired (seconds now)) (accessTokens w) /\ refreshTokens w' = List.filter (unexpired (seconds now)) (refreshTokens w).
Proof.
  intros Hg Ht. pose proof (g_file _ _ Hg) as Hf. cbn [step]. destruct (file w) as [s|] eqn:Ef.
  - destruct Hf as (n & Hn & -> & Hw). destruct (construct_loads t now w n Hg ltac:(lia) Ef Hw) as (f & E & Hcase). rewrite Ef in E. rewrite E. eexists. split; [done|]. split_and!; try done.
    apply (good_resumed t); [done|]. destruct Hcase as [[-> E2]|[-> Hw']]; [exists n|exists now]; split_and!; try done; lia.
  - destruct Hf as (Ec & Ea & Er). unfold construct. rewrite Hstateful. cbn. eexists. split; [done|]. rewrite Ec, Ea, Er. split_and!; try done.
    split; try done; [constructor|by intros e H%elem_of_nil|split; [constructor|by intros e H%elem_of_nil]..|by intros k a H%elem_of_nil].
Qed.
Lemma good_saved now io v : jm_wf (clients v) -> (forall e, e ∈ clients v -> client_ok e) -> entries_ok v (accessTokens v) -> entries_ok v (refreshTokens v) -> all_in (code_fine v) (codes v) ->
  persistState now io v = (saved now v, Ok tt) -> Good now (saved now v).
Proof.
  intros H1 H2 H3 H4 H5 Hp. destruct (persist_cases now io v) as [[_ Hw]|E]; [|by rewrite E in Hp]. specialize (Hw Hstateful). unfold saved. rewrite Hstateful.
  split; [done|done|by apply (entries_same v)|by apply (entries_same v)|by apply (codes_known v)|]. cbn. exists now. split; [lia|]. split; [done|]. split; [|apply Hw]. destruct Hw as [(Hc & Ha & Hr) _]. cbn. unfold jm_values. by rewrite length_map.
Qed.
Lemma good_later t t' w : Good t w -> t <= t' -> Good t' w.
Proof. intros [H1 H2 H3 H4 H5 H6] Ht. split; try done. destruct (file w) as [s|]; [|done]. destruct H6 as (n & Hn & H). exists n. split; [lia|done]. Qed.
Lemma good_codes t w w' : Good t w -> clients w' = clients w -> accessTokens w' = accessTokens w -> refreshTokens w' = refreshTokens w -> file w' = file w -> all_in (code_fine w') (codes w') -> Good t w'.
Proof.
  intros [H1 H2 H3 H4 H5 H6] Ec Ea Er Ef Hc. split; rewrite ?Ec, ?Ea, ?Er, ?Ef; try done; [by apply (entries_same w)..|].
  destruct (file w) as [s|]; [|done]. destruct H6 as (n & Hn & -> & Hw). exists n. split; [done|]. unfold snapshot. by rewrite Ec, Ea, Er.
Qed.
Lemma known_get t w id c : Good t w -> jm_get (clients w) id = Some c -> known w (client_id c).
Proof. intros Hg H%jm_get_in. unfold known, jm_values. apply list_elem_of_fmap. exists c. split; [done|]. apply list_elem_of_fmap. by exists (id, c). Qed.
Lemma entries_set t w token cid ss u ttl now m : Good t w -> t <= now -> known w cid -> requestedScopesAllowed ss (scopes cfg) = true -> (length ss <= 64)%nat -> resource_ok u ->
  0 <= now -> 0 < ttl -> seconds now + ttl <= MAX_SAFE_INTEGER -> entries_ok w m -> entries_ok w (jm_set m (hashToken token) (mkToken cid ss (seconds now + ttl) u)).
Proof.
  intros Hg Ht Hk Hs Hl Hu Hn Httl Hsafe [Hw He]. split; [by apply jm_wf_set|]. intros [k a] [[-> ->]|H]%set_elem; [|by apply He]. apply (new_entry t); try done.
  assert (0 <= seconds now) by (apply Z.div_pos; lia). lia.
Qed.
Lemma issued_good t w cid ss u replaced tokens now io : Good t w -> t <= now -> 0 <= now -> known w cid -> requestedScopesAllowed ss (scopes cfg) = true -> (length ss <= 64)%nat -> resource_ok u ->
  seconds now + Z.max (accessTokenTtlSeconds cfg) (refreshTokenTtlSeconds cfg) <= MAX_SAFE_INTEGER ->
  persistState now io (issued cid ss u replaced tokens now w) = (saved now (issued cid ss u replaced tokens now w), Ok tt) -> Good now (saved now (issued cid ss u replaced tokens now w)).
Proof.
  intros Hg Ht H0 Hk Hs Hl Hu Hmax Hp. destruct ttl_positive. apply (good_saved now io); try apply Hg; try done.
  - apply (entries_same w); [done|]. apply (entries_set t); try done; [lia|apply Hg].
  - apply (entries_same w); [done|]. apply (entries_set t); try done; [lia|]. destruct replaced; cbn; [|apply Hg]. apply entries_filter, Hg.
  - apply (codes_known w); [done|apply Hg].
Qed.
Lemma registered_good t w now io c k c' : Good t w -> fine_redirects c -> jm_get (clients w) k = None -> client_id c' = k -> sempty k = false -> is_safe (client_id_issued_at c') = true ->
  redirect_uris c' = redirect_uris c -> public_client c' = true -> redirects_allowed c = true ->
  persistState now io (set_clients (jm_set (clients w) k c') w) = (saved now (set_clients (jm_set (clients w) k c') w), Ok tt) -> Good now (saved now (set_clients (jm_set (clients w) k c') w)).
Proof.
  intros Hg [Hne Habs] Hfresh Hid Hk Hsafe Hr Hpub Hred Hp. set (v := set_clients (jm_set (clients w) k c') w).
  assert (forall x, known w x -> known v x) as Hknown.
  { unfold known, v. cbn. intros x. rewrite jm_set_fresh by done. unfold jm_values. rewrite !map_app. intros H. apply elem_of_app. by left. }
  assert (forall m, entries_ok w m -> entries_ok v m) as Hent by (intros m [Hw He]; split; [done|]; intros e [E1 E2 E3 E4]%He; split; auto).
  apply (good_saved now io); [by apply jm_wf_set, Hg| |by apply Hent, Hg|by apply Hent, Hg| |done].
  - intros [k1 c1] [[-> ->]|H]%set_elem; [|by apply (g_clients _ _ Hg)]. split; [done| |cbn; unfold redirects_allowed; by rewrite Hr]. cbn. unfold readClient.
    rewrite Hid, Hk, Hsafe, Hr, Habs, Hpub, bool_decide_eq_false_2 by done. done.
  - eapply all_in_impl; [|exact (g_codes _ _ Hg)]. intros r [R1 R2 R3 R4]. split; auto.
Qed.
Lemma step_good t now io e w : Good t w -> t <= now -> 0 <= now -> seconds now + Z.max (accessTokenTtlSeconds cfg) (refreshTokenTtlSeconds cfg) <= MAX_SAFE_INTEGER ->
  fine_event e -> fresh w e -> (e = Restart -> io = true) -> Good now (step now io e w).1.
Proof.
  intros Hg Ht H0 Hmax Hfine Hfresh Hio. destruct (decide (is_Some (match e with Restart => Some tt | _ => None end))) as [Hre|Hre].
  { destruct e; try by destruct Hre. rewrite Hio by done. destruct (restart_good t now w Hg Ht) as (w' & -> & Hg' & _). exact Hg'. }
  pose proof (good_later _ _ _ Hg Ht) as Hnow. destruct scopes_fine as [Hlen _].
  assert (requestedScopesAllowed (scopes cfg) (scopes cfg) = true) as Hself by (apply forallb_forall; intros s Hs; apply includes_spec; by apply list_elem_of_In).
  destruct (step_effect now io e w) as [e r|c uuid k c' Ec' Hpub Hred Hp|c uuid k c'|id params posted uuid c r Hid Hres Hsc Hpw|id code uri resource tokens c r w1 ss w' Hid Hc Hcl Hexp -> Hp|
    |id token requested resource tokens c r ss w' Hid Hc Hcl Hexp Hsc Hres -> Hp|token Hp|w' H|x H]; [done|..|by destruct Hre; eexists|by destruct Hre; eexists].
  - assert (0 <= seconds now) by (apply Z.div_pos; lia). destruct ttl_positive. subst c'. apply (registered_good t w now io c); try done.
    + unfold is_safe. cbn [client_id_issued_at]. lia.
    + unfold public_client in *. cbn. by destruct (client_secret c), (token_endpoint_auth_method c).
  - eapply good_codes; [exact Hnow| |done..|]; [by apply set_then_delete|]. eapply codes_known; [|exact (g_codes _ _ Hg)]. by apply set_then_delete.
  - eapply good_codes; [exact Hnow|done..|]. cbn. apply all_in_set; [by apply (codes_known w), Hg|]. destruct Hfine as [Hl Hcan]. split; cbn; [by apply (known_get t w id)|done..|].
    intros u Hu. rewrite Hu in *. by split.
  - pose proof (all_in_get _ _ _ _ (g_codes _ _ Hg) Hc) as [R1 R2 R3 R4]. apply (issued_good now w1 _ _ _ _ _ _ io); try done; try by apply Hp; try lia.
    + eapply good_codes; [exact Hnow|done..|]. cbn. apply all_in_filter. by apply (codes_known w), Hg.
    + by apply (known_get t w id).
    + unfold ss. by destruct (p_scopes (c_params r)).
    + unfold ss. by destruct (p_scopes (c_params r)).
  - eapply good_codes; [exact Hnow|done..|]. cbn. apply all_in_filter. by apply (codes_known w), Hg.
  - apply jm_get_in in Hc. destruct (proj2 (g_refresh _ _ Hg) _ Hc) as [E1 E2 E3 E4]. destruct Hfine as [Hl Hcan].
    assert (requestedScopesAllowed ss (scopes cfg) = true) as Hss.
    { apply forallb_forall. intros s Hs. unfold requestedScopesAllowed in E3. rewrite forallb_forall in Hsc, E3. apply E3, list_elem_of_In, includes_spec. by apply Hsc. }
    apply (issued_good t w _ _ _ _ _ _ io); try done.
    + by apply (known_get t w id).
    + unfold ss. destruct requested; [exact Hl|]. cbn. unfold readTokenRecord in E1. do 4 apply andb_true_iff in E1 as [E1 _]. apply andb_true_iff in E1 as [_ E1]. by apply Nat.leb_le in E1.
    + destruct resource as [u|]; [|done]. intros x [= <-]. by split.
    + by apply Hp.
  - apply (good_saved now io); [apply Hg|apply Hg| | | |by apply Hp].
    + apply (entries_same w); [done|]. apply entries_filter, Hg.
    + apply (entries_same w); [done|]. apply entries_filter, Hg.
    + apply (codes_known w); [done|apply Hg].
Qed.
Lemma run_good es t w : 0 <= t -> Good t w -> fine_run t es w -> exists t', Good t' (run es w) /\ (forall now, (forall e, e ∈ es -> e.1.1 <= now) -> t <= now -> t' <= now).
Proof.
  revert t w. induction es as [|[[now io] e] es IH]; intros t w H0 Hg Hf; [by exists t|]. destruct Hf as (Ht & Hmax & Hfine & Hfresh & Hio & Hrest).
  destruct (IH now (step now io e w).1) as (t' & Hg' & Hle); [lia|apply (step_good t); try done; lia|done|]. exists t'. split; [done|]. intros n Hn _. apply Hle; [intros x Hx; apply Hn; by right|].
  apply (Hn (now, io, e)). by left.
Qed.
Lemma started_good : Good 0 (started None).
Proof. split; try done; [constructor|by intros e H%elem_of_nil|split; [constructor|by intros e H%elem_of_nil]..|by intros k a H%elem_of_nil]. Qed.
(** [roundtrip] After any calls, failures of the file and restarts the gateway starts again, with the clients that it had and the tokens that have not expired, provided
    that every client was registered with at least one redirection and with redirections as [URL] writes them, that no request asked for more than 64 scopes, that
    resources are parsed URLs and identifiers of clients fresh, that instants do not go back and that the file could be written at each start. *)
Theorem provider_resumes es now (Hf : fine_run 0 es (started None)) (Hn : forall e, e ∈ es -> e.1.1 <= now) (H0 : 0 <= now) :
  let w := run es (started None) in
  exists w', step now true Restart w = (w', Ok tt) /\ clients w' = clients w
    /\ accessTokens w' = List.filter (unexpired (seconds now)) (accessTokens w) /\ refreshTokens w' = List.filter (unexpired (seconds now)) (refreshTokens w).
Proof.
  cbv zeta. destruct (run_good es 0 (started None) ltac:(lia) started_good Hf) as (t & Hg & Ht). destruct (restart_good t now _ Hg) as (w' & E & _ & H); [by apply Ht|]. by exists w'.
Qed.
End Provider.

(** ** Concrete runs *)
Module Trial.
Definition sha (s : string) : string := String.string_of_list_ascii (take 32 (String.list_ascii_of_string s ++ replicate 32 "0"%char)).
Lemma sha_length s : String.length (sha s) = 32%nat.
Proof.
  unfold sha. assert (forall l, String.length (String.string_of_list_ascii l) = length l) as H by (induction l; cbn; congruence). rewrite H, length_take, length_app, length_replicate. lia.
Qed.
Definition url (protocol host path : string) : Url := mkUrl protocol host (protocol +:+ "//" +:+ host) path EmptyString EmptyString EmptyString EmptyString.
Definition new_URL (s : string) : option Url :=
  if s =s "https://chatgpt.com/connector/oauth/abc" then Some (url "https:" "chatgpt.com" "/connector/oauth/abc")
  else if (s =s "http://localhost") || (s =s "http://localhost/") then Some (url "http:" "localhost" "/")
  else if s =s "https://me.example/mcp" then Some (url "https:" "me.example" "/mcp") else None.
Definition href (u : Url) : string := u_origin u +:+ u_pathname u.
Definition set_param (name value : string) (u : Url) : Url := mkUrl (u_protocol u) (u_hostname u) (u_origin u) (u_pathname u) EmptyString EmptyString (u_search u +:+ name +:+ "=" +:+ value) EmptyString.
Definition mine : Url := url "https:" "me.example" "/mcp".
Definition allowed (u : Url) : bool := (u_hostname u =s "me.example").
Definition size (s : Snapshot) : Z := 1 + Z.of_nat (length (s_access s) + length (s_refresh s)).
Lemma size_positive s : 0 < size s.
Proof. unfold size. lia. Qed.
Lemma size_less r cs a a' b b' : a `sublist_of` a' -> b `sublist_of` b' -> size (mkSnapshot r cs a b) <= size (mkSnapshot r cs a' b').
Proof. intros H1%sublist_length H2%sublist_length. unfold size. cbn. lia. Qed.
Definition cfg : OwnerOAuthConfig := mkConfig "owner-password" 3600 86400 ["mcp:tools"; "mcp:browser"] ["me.example"] true.
Definition client (uri : string) : Client := mkClient "ignored" 0 [uri] (Some "Chat") None None None None.
Definition params : AuthorizationParams := mkParams "https://chatgpt.com/connector/oauth/abc" "challenge" (Some ["mcp:tools"]) (Some "s") (Some mine).
Definition play (es : list (Z * bool * Event)) : World := run sha new_URL href set_param allowed "https://me.example/mcp" size cfg es (started None).
Definition events : list (Z * bool * Event) :=
  [(1000000, true, Restart); (1001000, true, Register (client "https://chatgpt.com/connector/oauth/abc") "one"); (1002000, true, Authorize "mcp-one" params (Some "guess") "a");
   (1003000, true, Authorize "mcp-one" params (Some "owner-password") "b"); (1004000, true, Exchange "mcp-one" "code-b" None (Some mine) ("first", "again"));
   (1005000, true, Refresh "mcp-one" "again" None None ("second", "once more")); (1006000, false, Revoke "second"); (1007000, true, Revoke "first")].
(** Of the two access tokens one is revoked, and the other one is not because the file could not be written. *)
Definition answer : AuthInfo := mkInfo "mcp-one" ["mcp:tools"] 4605 (Some mine).
Lemma verified : verifyAccessToken sha "second" 1010000 (play events) = Ok answer /\ verifyAccessToken sha "first" 1010000 (play events) = Err InvalidTokenError.
Proof. split; vm_compute; reflexivity. Qed.
Lemma provider_token_justified_witness : verifyAccessToken sha "second" 1010000 (play events) = Ok answer /\ seconds 1010000 <= i_expiresAt answer.
Proof.
  split; [vm_compute; reflexivity|].
  destruct (provider_token_justified sha new_URL href set_param allowed "https://me.example/mcp" size cfg events "second" 1010000 answer) as (_ & H & _); [vm_compute; reflexivity|exact H].
Defined.
Definition before : World := play (take 6 events).
Lemma answers_are_durable_witness : accessTokens (play (take 7 events)) = accessTokens before /\ file (play (take 7 events)) = file before /\ is_Some (file before).
Proof.
  pose proof (answers_are_durable sha new_URL href set_param allowed "https://me.example/mcp" size cfg 1006000 false (Revoke "second") before) as H.
  destruct H as (_ & H1 & _ & H2); [done|done|]. split; [exact H1|]. split; [exact H2|]. vm_compute. by eexists.
Defined.
Lemma fine : fine_run sha new_URL href set_param allowed "https://me.example/mcp" size cfg 0 events (started None).
Proof. vm_compute. repeat split; try done; repeat constructor. Qed.
Lemma provider_resumes_witness : exists w', step sha new_URL href set_param allowed "https://me.example/mcp" size cfg 5000000 true Restart (play events) = (w', Ok tt)
  /\ refreshTokens w' = List.filter (unexpired 5000) (refreshTokens (play events)) /\ jm_size (refreshTokens w') = 1%nat /\ jm_size (accessTokens w') = 0%nat.
Proof.
  destruct (provider_resumes sha new_URL href set_param allowed "https://me.example/mcp" size cfg sha_length eq_refl) with (es := events) (now := 5000000) as (w' & E & _ & Ha & Hr);
    [split; done|split; [cbn; lia|reflexivity]|exact size_positive|exact size_less|exact fine| |lia|].
  - intros e He. unfold events in He. repeat (apply elem_of_cons in He as [->|He]; [cbn; lia|]). by apply elem_of_nil in He.
  - exists w'. split; [exact E|]. split; [exact Hr|]. rewrite Ha, Hr. split; vm_compute; reflexivity.
Defined.
(** A redirection that is not written as [URL] writes it is registered, but the file that has it is refused: the gateway does not start again. *)
Definition plain : list (Z * bool * Event) := [(1000000, true, Restart); (1001000, true, Register (client "http://localhost") "two")].
Lemma registration_stops_gateway : jm_size (clients (play plain)) = 1%nat
  /\ (forall now io, (step sha new_URL href set_param allowed "https://me.example/mcp" size cfg now io Restart (play plain)).2 = Err state_error).
Proof. split; [vm_compute; reflexivity|]. intros now io. vm_compute. reflexivity. Qed.
(** So is a client with no redirections. *)
Definition without : list (Z * bool * Event) := [(1000000, true, Restart); (1001000, true, Register (mkClient "ignored" 0 [] (Some "Chat") None None None None) "three")].
Lemma empty_registration_stops_gateway : jm_size (clients (play without)) = 1%nat
  /\ (forall now io, (step sha new_URL href set_param allowed "https://me.example/mcp" size cfg now io Restart (play without)).2 = Err state_error).
Proof. split; [vm_compute; reflexivity|]. intros now io. vm_compute. reflexivity. Qed.
(** A refresh that names an approved scope 65 times is answered, and the file that has its tokens is refused. *)
Definition repeated : list (Z * bool * Event) := take 5 events ++ [(1005000, true, Refresh "mcp-one" "again" (Some (replicate 65 "mcp:tools")) None ("second", "once more"))].
Lemma scopes_stop_gateway : is_ok (verifyAccessToken sha "second" 1010000 (play repeated)) = true
  /\ (forall now io, (step sha new_URL href set_param allowed "https://me.example/mcp" size cfg now io Restart (play repeated)).2 = Err state_error).
Proof. split; [vm_compute; reflexivity|]. intros now io. vm_compute. reflexivity. Qed.
End Trial.
End OwnerProvider.
